(* ===== verification/_CoqProject ===== *)
-Q . S2P
Prelude.v
Ordering.v
BTree.v
Text.v
Protocol.v
Minicbor.v
CanonicalCbor.v
Domain.v
SyncPayload.v
Crypto.v
Operation.v
Causal.v
Merge.v
Transport.v
StateSummary.v
Admission.v
Checkpoint.v
MemoryTransport.v
Outbox.v
EnginePush.v
Receipts.v
EnginePull.v
SyncCycle.v
VaultTables.v
RecordStore.v
VaultSteps.v
VaultInvariant.v
VaultConverge.v
VaultCheckpoints.v
ReplicaRuns.v
CheckpointAgree.v
VaultSync.v
CheckpointEngine.v
CheckpointFacts.v
NativeModel.v
NativeTables.v
NativeWal.v
NativeLedger.v
NativeRows.v
NativeSteps.v
NativeEffects.v
NativeGeneration.v
NativeInvariant.v
NativeClaims.v
NativeWitness.v
NativePorts.v
NativeJournal.v
NativeEngine.v
NativeEngineFacts.v
NativeJournalFacts.v
NativeApplyWitness.v
NativeRecovery.v
NativeRecoveryFacts.v
NativeRecoveryClaims.v
TextSearch.v
MemoryMarkdown.v
SecretText.v
MemorySource.v
MemoryReconcile.v
MemoryVault.v
MemoryVaultFacts.v
MemoryClaims.v
MemoryWatcher.v
MemoryWatcherFacts.v
MemoryRaces.v
MemoryWitness.v
MemoryWatcherWitness.v
RunnerPolicy.v
RunnerFacts.v
HelperProtocol.v
HelperFacts.v
HelperCodec.v
HelperWire.v
RunnerReports.v
ReportFacts.v
RunnerClaims.v
RunnerWitness.v
