(* ===== verification/Prelude.v ===== *)
(** * Context Relay: a verification of its core

    Context Relay keeps the memories, tasks, instructions and components of coding
    agents in an encrypted local vault and synchronises vaults between a user's
    devices.  Each change is a signed, encrypted, hash-chained operation; a
    transport relays operations it cannot read; every device admits what it
    receives, merges it into the heads of its record, and periodically signs a
    checkpoint of its state.  On a device, the product changes the configuration of
    agent harnesses in native transactions, journalled in the vault and recovered
    after a crash, imports what the user writes into a harness's own memory files, and
    runs three third-party tools in a restricted helper process.  This library models
    these four paths: synchronisation from the bytes to the merged record, native
    transactions from the approved plan to the committed receipt or the restored files,
    native memory from the bytes of a watched file to a candidate for review, and a
    helper run from the request to the report that answers it.

    ** Parts, files and sources (under src/crates/)

    - [Prelude]: results, error propagation, machine integers, bytes, list lemmas,
      the tactics and hint databases the files share.
    - [Ordering], [BTree], [Text]: Rust's [Ord], stable sorting, adjacent-pair scans;
      [BTreeMap] in iteration order; [char], [str] and UTF-8.
    - [Protocol]: protocol/src/{validation,error,ids,digests,lib,clock,sync}.rs:
      limits, identifiers, version negotiation, the hybrid logical clock, the
      operation and checkpoint envelopes and their validation.
    - [Minicbor]: what the codec relies on of the minicbor crate, as a class of
      encoders and decoders with laws, and an RFC 8949 instance of it.
    - [CanonicalCbor]: protocol/src/canonical_cbor.rs, the canonical codec.
    - [Domain], [SyncPayload]: protocol/src/domain.rs and sync_payload.rs: records,
      validation, record mutations and their encoding.
    - [Crypto]: core/src/crypto.rs: key validation, signatures, the nonce registry,
      content encryption, key wrapping, device certificates.
    - [Operation]: core/src/sync/operation.rs and identity.rs: building and verifying
      operations.
    - [Causal]: core/src/sync/causal.rs and backoff.rs.
    - [Merge]: core/src/sync/merge.rs and the head update of core/src/vault/sync.rs.
    - [Transport], [MemoryTransport]: core/src/sync/transport.rs and memory.rs: the
      transport's data and its in-memory implementation with faults.
    - [StateSummary], [Checkpoint]: core/src/sync/checkpoint.rs.
    - [Admission]: core/src/sync/admission.rs over an interface of the vault.
    - [Outbox], [Receipts]: core/src/vault/sync.rs: the queue of outgoing operations;
      pull cursors, quarantine and rejections.
    - [EnginePush], [EnginePull], [SyncCycle]: core/src/sync/engine.rs and
      engine/pull.rs: a batch and its response, pages and gap repair as a continuation,
      and the loop of [sync_once] that runs both against a transport.
    - [VaultTables], [RecordStore]: core/src/vault/sync.rs and vault.rs: the tables of
      operations, record heads, owners and live records, and the transactions that
      apply a received operation or commit a local one.
    - [VaultCheckpoints]: core/src/vault/sync.rs and vault/membership.rs: pins, scans and
      the schedule of checkpoints, and the reads of the frontier and the state summary.
    - [CheckpointEngine]: core/src/sync/engine/checkpoints.rs and [sync_once_with_checkpoint].
    - [VaultSteps], [VaultInvariant], [VaultConverge]: what the transactions do to the
      tables, the invariant of the vaults synchronisation reaches, and what applying an
      operation does to the heads and the live record.
    - [ReplicaRuns]: a vault that receives a sequence of operations, each admitted and then
      applied, with checkpoint work in between; convergence of two such vaults.
    - [VaultSync]: the vault as the record store of the engine.
    - [CheckpointAgree], [CheckpointFacts]: replicas state the same checkpoint; what the
      checkpoint exchange keeps.
    - [NativeModel], [NativeTables], [NativeWal], [NativeLedger]:
      core/src/native_transaction/model.rs, core/src/vault/native_transactions.rs,
      native-runner/src/macos_identity.rs and migrations 0001 to 0003 and 0009: plans,
      targets, receipts, the tables of a transaction and every operation on them.
    - [NativeRows], [NativeSteps], [NativeEffects], [NativeGeneration],
      [NativeInvariant], [NativeClaims]: stored rows and their records, what each
      operation changes, the invariant of the tables and its consequences.
    - [NativePorts], [NativeJournal], [NativeEngine]: engine.rs, cli.rs and journal.rs of
      core/src/native_transaction: the interfaces of the engine with the monad its code
      runs in, the journal in the vault, the twenty steps of [apply] and [compensate].
      [NativeEngineFacts] proves the engine against the laws of a journal,
      [NativeJournalFacts] the laws of the journal in the vault.
    - [NativeRecovery], [NativeRecoveryFacts], [NativeRecoveryClaims]:
      core/src/native_transaction/recovery.rs.
    - [TextSearch], [MemoryMarkdown], [SecretText]: substring search; the managed block of
      a memory file (core/src/native_memory/markdown.rs); the scan for secret-like text
      (core/src/mcp/secret_text.rs).
    - [MemorySource], [MemoryReconcile]: model.rs, debounce.rs and reconcile.rs of
      core/src/native_memory: sources and their identifiers, ledgers, debouncing, the
      decision about a file and the candidate it proposes.
    - [MemoryVault], [MemoryVaultFacts], [MemoryClaims]: core/src/vault.rs,
      core/src/service.rs and contextd/src/lib.rs with migrations 0001, 0010, 0024, 0025
      and 0036: ledgers and candidates in the vault and the operation that records an
      observation.
    - [MemoryWatcher], [MemoryWatcherFacts], [MemoryRaces]: contextd/src/native_memory.rs:
      the supervisor that polls the files, and the daemon around it, with the commands,
      responses and updates between the supervisor and the vault's worker, as a state
      machine whose events the scheduler orders.
    - [RunnerPolicy], [RunnerFacts]: path_policy.rs, command.rs and lib.rs of
      native-runner/src: stage paths and path sets, the closed commands and their inputs.
    - [HelperProtocol], [HelperFacts], [HelperCodec], [HelperWire]:
      native-runner/src/helper_protocol.rs: requests, closures, responses, their codecs and
      the messages that carry them.
    - [RunnerReports], [ReportFacts]: native-runner/src/report_validation.rs: what is
      accepted of the output of the tools.  [RunnerClaims] holds the theorems about the
      whole runner.
    - [NativeWitness], [NativeApplyWitness], [MemoryWitness], [MemoryWatcherWitness],
      [RunnerWitness]: the theorems at concrete values.

    ** Conventions

    Definitions keep the source's names; a method whose name is taken carries its
    type ([MemoryRecord_validate]).  Fallible code returns [result]; [let?] is the
    [?] operator and [map_err] is [map_err].  Integers are [N], kept at their width
    by [checked_add], [saturating_add] and the [u64_max] family; digests, keys and
    identifiers are byte lists, whose length is a well-formedness predicate ([wf_id],
    [wf_fixed]) that the decoders establish.  Mutable state (the nonce registry, the
    transport, the tables of a vault) is passed explicitly, also through errors.  SQL
    tables are finite maps from primary keys to rows, under the constraints of their
    schema; queries are functions on them, sorted where the query is.  A transaction
    that fails leaves the tables it started from.

    Code outside the repository is a parameter: the uuid crate ([UuidCrate]), minicbor
    ([Minicbor]), serde_json ([SerdeJson]), the cryptographic primitives
    ([Primitives]).  The laws assumed of each are the fields of a class named
    [...Laws] and are documented behaviour of that code; an executable instance
    ([rfc9562], [Rfc8949.codec], [CountableJson.records], [Toy.toy], and for the rows of
    the other tables those of [NativeWitness] and [MemoryWitness]) satisfies them and
    evaluates the examples.  No law states that a signature cannot be forged or a
    ciphertext hides its plaintext: theorems about authenticity say which bytes were
    verified under which key.

    The vault and the trusted device roster are the classes [SyncVault] and
    [TrustedSyncMaterial] of [Admission]; admission and checkpoint theorems hold for
    every implementation of them.  The engine sees the vault through [RecordVault] and
    [OutboxStore] and the transport through [PushTransport], [PullTransport] and
    [CheckpointTransport]; [VaultSync] and [SyncCycle] discharge the laws of these
    interfaces for the tables and for the in-memory transport.  The accepted membership
    history is the class [MembershipHistory], embeddings [EmbeddingResolver].  A native
    transaction runs against [NativeAdapter], [RestrictedExecutor], [NativeFileSystem],
    [NativeCliExecutor], [NativeJournal] and [FaultHook], the journal takes its lock
    through [ProfileLock], and a recovery reaches the files, the command lines and the
    hook through [NativeRecoveryIo], [NativeCliRecoveryIo] and [RecoveryFaultHook].
    Theorems about the engine need [NativeJournalLaws] only, which [NativeJournalFacts]
    discharges; nothing is assumed of the other parts.  The serialisers of the rows are
    [NativeJson] and [MemoryJson], with their round trips as [...Laws].  The runner takes
    the tables of Unicode and the ordinal comparison of Windows from [UnicodeTables] and
    [RunnerHost], of which [AsciiLaws] states the ASCII part and that a name compared with
    itself is not unequal, JSON and floating-point numbers from [ReportHost], of which
    nothing is assumed, its streams from [Read] and [Write], and the size of an encoded item
    from [MinicborSizes].

    ** What is shown

    - Codecs.  Decoding accepts exactly the canonical encodings of valid values, for
      operations, checkpoints, mutations and state summaries; the signing preimage and
      the associated data determine every field they are meant to bind.
    - Operations.  What the builder seals the verifier accepts and decrypts to the same
      mutation; verification is characterised exactly; admission implies every check.
    - Merge.  Causal comparison is a strict partial order on causally closed histories;
      merging one set of operations in different causal orders gives the same heads; the
      live record is the mutation of the first head.
    - Checkpoints.  Verification is characterised exactly; replicas with the same state
      and the same pin accept each other's checkpoints; summaries do not depend on listing
      order.
    - Transport.  Under every sequence of calls and faults the store stays consistent;
      pushes are idempotent; paging is complete and resumable; checkpoint logs are hash
      chains.
    - Engine.  A push never loses an operation, also when receipts leave operations out or
      name others, and one that fails is retried with backoff; the pull cursor passes only
      rows that are settled; a cycle ends within a bounded number of requests whatever the
      transport answers, and one that reports no more work over a transport that withholds
      nothing has caught up.
    - Vault.  The tables of every vault that synchronisation reaches are consistent: hash
      chains per device, unique nonces, heads in their owner's scope.  Reading the heads
      after applying an operation gives what merging gives; replicas that receive the same
      operations, each in an order its admission accepts, show the same heads and live
      records ([replicas_converge]: admission refuses an operation whose frontier is not
      applied, so no causal order is assumed); a device head fixes the device's history.
    - Checkpoint exchange.  Pins only move along hash chains of signed checkpoints and
      only to the vault's own state, pins and scans always load, the exchange ends, and
      replicas that received the same operations and pinned the same checkpoint accept each
      other's checkpoints.
    - Cryptographic envelopes.  Nonces are never reused, wrapping round trips,
      certificates bind their fields, key validation is characterised.
    - Clocks, versions, backoff, domain validation.
    - Native transactions, tables.  After any sequence of operations the recoverable
      transactions are listed and load with their plans and before-images; logs only move
      forward; outcomes, plans and receipts that are decided never change; a commit
      records exactly what the log says was applied.
    - Native transactions, engine.  An application that succeeds has committed the receipt
      of exactly the approved mutations; one that fails commits nothing and, unless it
      reports that compensation failed, leaves the transaction restored or in conflict.
      The one exception is a release of the reservation that fails after the commit, whose
      error is the one returned.
    - Native transactions, recovery.  A recovery that succeeds has decided every
      transaction; one that fails or is interrupted anywhere leaves tables the next can
      start from, except for the unreadable log that [native_recovery_wedged] exhibits.
    - Native memory.  The managed block is found exactly when the file is well fenced, with
      the error of every other file; a candidate holds exactly the user's text of an
      admitted file; observations of a source are recorded whatever the file holds, unless
      a proposed candidate's identifier is taken, and are idempotent; a source's
      identifier binds its description; an observation is reported when the content was
      stable for the debounce interval; private keys and tokens of known shapes are
      detected.  While setups and observations do not overlap, a content the watcher finds
      is recorded or under observation, and a new content that proposes no taken identifier
      is recorded after the debounce interval.  [retyped_text_refused], [split_secret_imported], [long_jwt_missed],
      [overlapping_setup_wedges] and [flicker_submitted] exhibit behaviour that looks
      unintended.
    - Native runner.  A stage path stays below the stage; a set of ASCII paths is accepted
      exactly when no two are equal up to case, and paths with one normal form collide; a
      valid request always fits a message, is read back as it was written, and nothing else
      is read as a request; a response is read only for the request it answers; the closure
      digest identifies the closure; an accepted report of the secret scan reports every
      finding, its other fields unchanged, without its secret, one of the package scan
      covers every input, and the generated files are exactly those the inputs call for.
      [euro_timestamp_panics] exhibits a diagnostic that stops the helper.

    ** Bounds and fuel

    [Text.from_utf8] recurses on fuel equal to the input length, one unit per
    character of at least one byte.  [MemoryTransport.drain], a client's paging loop,
    takes one request more than there are rows.  Sessions of the transport are
    bounded by the 2^64 receipts its saturating counter can number.  The loops of the
    engine take a number of requests as fuel: [sync_once_terminates] shows that
    [cycle_fuel], twice the operation budget and two more, is enough for every cycle,
    [checkpoint_exchange_terminates] that [exchange_fuel] is enough with the exchange;
    [None] is a loop that was cut short.  [SecretText.benign_fuel] follows the one
    recursive call of [benign_sensitive_placeholder]; [placeholder_fuel] shows that one
    unit is enough.  [RunnerReports.show_u64] prints at most the twenty digits of a [u64].

    ** Not modelled

    Verification of the membership history, pairing, recovery and revocation of devices
    (the vault's checks against the accepted history are, over an interface); binding
    local updates, candidate review and the migration of old candidates; the unsigned
    writes of [put_memory], [put_memories_batch] and [put_instruction], which queue
    operations without synchronisation metadata, so that vaults they changed are outside
    the invariant of [VaultInvariant]; the hosted HTTP
    transport; search and its columns; packages; the adapters of the harnesses.  Of native
    transactions: the platform file systems, the planner, the canonical bytes of an
    approval, the lock file, the life of a setup plan, the binding of a sealed plan to the
    command-line tools in recovery, and [Vault::put_receipt], which replaces a receipt
    outside any transaction and has no caller outside the tests.  Of native memory: the threads and timers
    behind the watcher's events, hooks and instructions, registration of sources from a
    setup plan.  Of the native runner: the manifest of the tools and the closure verified
    against it, the private stage and its environment on disk, hydration, the launch of the
    helper and of the tools.  The local IPC frames, the rest of the daemon, the MCP server
    and the desktop application. *)

From stdpp Require Export prelude gmap strings countable sorting.
From Stdlib Require Export NArith Lia.
From Stdlib Require Strings.Byte.

(** ** Scope, hint databases *)

Declare Scope relay_scope.
Delimit Scope relay_scope with relay.
#[global] Open Scope relay_scope.

Create HintDb relay.
Create HintDb relay_ord.

(** ** [Result] *)

Inductive result (E A : Type) : Type :=
| Ok (a : A)
| Err (e : E).
Arguments Ok {E A} a.
Arguments Err {E A} e.

#[global] Instance result_eq_dec {E A} `{EqDecision E, EqDecision A} :
  EqDecision (result E A).
Proof. solve_decision. Defined.

Definition rbind {E A B} (r : result E A) (k : A -> result E B) : result E B :=
  match r with
  | Ok a => k a
  | Err e => Err e
  end.

Definition map_err {E F A} (f : E -> F) (r : result E A) : result F A :=
  match r with
  | Ok a => Ok a
  | Err e => Err (f e)
  end.

Definition ok_or {E A} (o : option A) (e : E) : result E A :=
  match o with
  | Some a => Ok a
  | None => Err e
  end.

Definition is_ok {E A} (r : result E A) : bool :=
  match r with
  | Ok _ => true
  | Err _ => false
  end.

Definition is_err {E A} (r : result E A) : bool := negb (is_ok r).

Notation "'let?' x ':=' e 'in' k" := (rbind e (fun x => k))
  (at level 10, x pattern, e at level 200, k at level 200) : relay_scope.
Notation "'guard?' c 'else' e 'in' k" := (if c then k else Err e)
  (at level 10, c at level 200, e at level 200, k at level 200) : relay_scope.

Lemma rbind_Ok {E A B} (r : result E A) (k : A -> result E B) b :
  rbind r k = Ok b <-> exists a, r = Ok a /\ k a = Ok b.
Proof. destruct r; naive_solver. Qed.

Lemma map_err_Ok {E F A} (f : E -> F) (r : result E A) a :
  map_err f r = Ok a <-> r = Ok a.
Proof. destruct r; simpl; naive_solver. Qed.

Lemma ok_or_Ok {E A} (o : option A) (e : E) a : ok_or o e = Ok a <-> o = Some a.
Proof. destruct o; naive_solver. Qed.

(** Runs [f] over a list from the left, stopping at the first error: the
    shape of a Rust [for] loop whose body uses [?]. *)
Fixpoint try_fold {E A S} (f : S -> A -> result E S) (s : S) (l : list A) : result E S :=
  match l with
  | [] => Ok s
  | x :: l' => rbind (f s x) (fun s' => try_fold f s' l')
  end.

Lemma try_fold_app {E A S} (f : S -> A -> result E S) s l k :
  try_fold f s (l ++ k) = rbind (try_fold f s l) (fun s' => try_fold f s' k).
Proof.
  revert s. induction l as [|x l IH]; intros s; [done|]. simpl. by destruct (f s x) as [s'|]; simpl.
Qed.

Definition try_for_each {E A} (f : A -> result E unit) (l : list A) : result E unit :=
  try_fold (fun _ x => f x) tt l.

Lemma try_for_each_Ok {E A} (f : A -> result E unit) l :
  try_for_each f l = Ok tt <-> Forall (fun x => f x = Ok tt) l.
Proof.
  unfold try_for_each. induction l as [|x l IH]; simpl; [naive_solver|].
  rewrite rbind_Ok. split.
  - intros ([] & Hx & Hl). constructor; [done|]. by apply IH.
  - intros H. inversion H; subst. exists tt. split; [done|]. by apply IH.
Qed.

Fixpoint try_map {E A B} (f : A -> result E B) (l : list A) : result E (list B) :=
  match l with
  | [] => Ok []
  | x :: l' => let? y := f x in let? ys := try_map f l' in Ok (y :: ys)
  end.

Lemma try_map_Ok {E A B} (f : A -> result E B) l ys :
  try_map f l = Ok ys <-> Forall2 (fun x y => f x = Ok y) l ys.
Proof.
  revert ys. induction l as [|x l IH]; intros ys; simpl.
  - split; [intros [= <-]; constructor|]. by inversion 1.
  - rewrite rbind_Ok. setoid_rewrite rbind_Ok. split.
    + intros (y & Hy & ys' & Hys & [= <-]). constructor; [done|]. by apply IH.
    + inversion 1 as [|? y ? ys' Hy Hys]; subst. exists y. split; [done|].
      exists ys'. split; [by apply IH|done].
Qed.

Lemma Forall_choose {A B} (P : A -> B -> Prop) l :
  Forall (fun x => exists y, P x y) l -> exists ys, Forall2 P l ys.
Proof.
  induction 1 as [|x l [y Hy] _ [ys Hys]]; [by exists []|]. exists (y :: ys). by constructor.
Qed.

Lemma NoDup_fmap_elem {A B} (f : A -> B) l x y :
  NoDup (f <$> l) -> x ∈ l -> y ∈ l -> f x = f y -> x = y.
Proof.
  intros Hnd [i Hi]%list_elem_of_lookup [j Hj]%list_elem_of_lookup E.
  assert (i = j) as ->; [|congruence].
  eapply NoDup_lookup; [exact Hnd|rewrite list_lookup_fmap, Hi; done|].
  rewrite list_lookup_fmap, Hj. simpl. by rewrite E.
Qed.

(** Splits every monadic success in the context into the successes of its
    steps. *)
Ltac res_inv :=
  repeat match goal with
  | H : rbind _ _ = Ok _ |- _ =>
      apply rbind_Ok in H as (? & ? & H)
  | H : map_err _ _ = Ok _ |- _ => apply map_err_Ok in H
  | H : ok_or _ _ = Ok _ |- _ => apply ok_or_Ok in H
  | H : (if ?c then _ else Err _) = Ok _ |- _ =>
      destruct c eqn:?; [|discriminate H]
  | H : (if ?c then Err _ else _) = Ok _ |- _ =>
      destruct c eqn:?; [discriminate H|]
  | H : Ok _ = Ok _ |- _ => injection H as H
  | H : Err _ = Ok _ |- _ => discriminate H
  | H : Some _ = None |- _ => discriminate H
  | H : None = Some _ |- _ => discriminate H
  end.

(** ** Bytes and machine integers *)

Abbreviation byte := Byte.byte.
Abbreviation bytes := (list Byte.byte).

#[global] Instance byte_eq_decision : EqDecision byte := Byte.byte_eq_dec.

#[global] Program Instance byte_countable : Countable byte :=
  inj_countable Byte.to_N Byte.of_N _.
Next Obligation. intros b. apply Byte.of_to_N. Qed.

Definition len {A} (l : list A) : N := N.of_nat (length l).

Definition u8_max : N := 2 ^ 8 - 1.
Definition u16_max : N := 2 ^ 16 - 1.
Definition u32_max : N := 2 ^ 32 - 1.
Definition u64_max : N := 2 ^ 64 - 1.
Definition i64_max : N := 2 ^ 63 - 1.

(** [usize] is 64 bits on every supported target. *)
Definition usize_max : N := u64_max.

Definition checked_add (max a b : N) : option N :=
  if (a + b <=? max)%N then Some (a + b)%N else None.

Definition checked_sub (a b : N) : option N :=
  if (b <=? a)%N then Some (a - b)%N else None.

Definition saturating_add (max a b : N) : N := N.min max (a + b).
Definition saturating_mul (max a b : N) : N := N.min max (a * b).
Definition saturating_sub (a b : N) : N := (a - b)%N.

Lemma checked_add_Some max a b c :
  checked_add max a b = Some c <-> (c = a + b /\ a + b <= max)%N.
Proof. unfold checked_add. destruct (N.leb_spec (a + b) max); naive_solver lia. Qed.

Lemma checked_sub_Some a b c :
  checked_sub a b = Some c <-> (c = a - b /\ b <= a)%N.
Proof. unfold checked_sub. destruct (N.leb_spec b a); naive_solver lia. Qed.

Lemma len_app {A} (l k : list A) : len (l ++ k) = (len l + len k)%N.
Proof. unfold len. rewrite length_app. lia. Qed.

Lemma len_nil {A} : len (@nil A) = 0%N.
Proof. done. Qed.

Lemma len_cons {A} (x : A) l : len (x :: l) = (1 + len l)%N.
Proof. unfold len. simpl. lia. Qed.

(** The low byte of a number. *)
Definition byte_of (n : N) : byte :=
  match Byte.of_N (n mod 256) with
  | Some b => b
  | None => Byte.x00
  end.

Lemma to_N_byte_of n : Byte.to_N (byte_of n) = (n mod 256)%N.
Proof.
  unfold byte_of. pose proof (N.mod_lt n 256 ltac:(lia)) as Hlt.
  destruct (Byte.of_N (n mod 256)) eqn:E.
  - by apply Byte.to_of_N in E.
  - apply Byte.of_N_None_iff in E. lia.
Qed.

Lemma byte_of_to_N b : byte_of (Byte.to_N b) = b.
Proof.
  unfold byte_of. pose proof (Byte.to_N_bounded b).
  rewrite N.mod_small by lia. by rewrite Byte.of_to_N.
Qed.

Lemma byte_to_N_lt b : (Byte.to_N b < 256)%N.
Proof. pose proof (Byte.to_N_bounded b). lia. Qed.

(** [to_be k n] is the [k]-byte big-endian representation of [n]. *)
Fixpoint to_be (k : nat) (n : N) : bytes :=
  match k with
  | O => []
  | S k' => to_be k' (n / 256) ++ [byte_of n]
  end.

Definition of_be (l : bytes) : N :=
  foldl (fun acc b => 256 * acc + Byte.to_N b)%N 0%N l.

Lemma length_to_be k n : length (to_be k n) = k.
Proof.
  revert n. induction k; intros; simpl; [done|]. rewrite length_app, IHk. simpl. lia.
Qed.

Lemma of_be_app l b : of_be (l ++ [b]) = (256 * of_be l + Byte.to_N b)%N.
Proof. unfold of_be. by rewrite foldl_app. Qed.

Lemma of_to_be k n : (n < 256 ^ N.of_nat k)%N -> of_be (to_be k n) = n.
Proof.
  revert n. induction k as [|k IH]; intros n Hn; cbn [to_be].
  - change (256 ^ N.of_nat 0)%N with 1%N in Hn. unfold of_be. simpl. lia.
  - rewrite of_be_app, to_N_byte_of, IH.
    + pose proof (N.div_mod n 256). lia.
    + rewrite Nat2N.inj_succ, N.pow_succ_r' in Hn.
      apply N.Div0.div_lt_upper_bound. lia.
Qed.

Lemma to_be_inj k n m :
  (n < 256 ^ N.of_nat k)%N -> (m < 256 ^ N.of_nat k)%N -> to_be k n = to_be k m -> n = m.
Proof. intros Hn Hm E. by rewrite <- (of_to_be k n), <- (of_to_be k m), E. Qed.
