(* ===== verification/Ordering.v ===== *)
(** * Total orders, stable sorting and ordered maps

    Rust's [Ord] as a type class, with the derived lexicographic orders the
    protocol types use ([Uuid], digests, strings, cursor keys), the stable
    [sort_by_key] of slices, the adjacent-pair scans written with
    [windows(2)], and [BTreeMap] as a strictly sorted association list (its
    iteration order is part of the behaviour of the transports). *)

From S2P Require Import Prelude.

(** ** The [Ord] trait *)

Class Ord (A : Type) := cmp : A -> A -> comparison.

Class OrdLaws (A : Type) `{Ord A} : Prop := {
  cmp_eq : forall a b, cmp a b = Eq <-> a = b;
  cmp_sym : forall a b, cmp b a = CompOpp (cmp a b);
  cmp_trans : forall a b c, cmp a b = Lt -> cmp b c = Lt -> cmp a c = Lt;
}.

Definition ltb {A} `{Ord A} (a b : A) : bool :=
  match cmp a b with Lt => true | _ => false end.
Definition leb {A} `{Ord A} (a b : A) : bool :=
  match cmp a b with Gt => false | _ => true end.

Section order.
Context {A : Type} `{OrdLaws A}.
Implicit Types a b c : A.

Lemma cmp_refl a : cmp a a = Eq.
Proof. by apply cmp_eq. Qed.

Lemma ltb_irrefl a : ltb a a = false.
Proof. unfold ltb. by rewrite cmp_refl. Qed.

Lemma leb_refl a : leb a a = true.
Proof. unfold leb. by rewrite cmp_refl. Qed.

Lemma ltb_trans a b c : ltb a b = true -> ltb b c = true -> ltb a c = true.
Proof.
  unfold ltb. destruct (cmp a b) eqn:E1, (cmp b c) eqn:E2; try done.
  by rewrite (cmp_trans a b c).
Qed.

Lemma leb_negb_ltb a b : leb a b = negb (ltb b a).
Proof. unfold leb, ltb. rewrite (cmp_sym a b). by destruct (cmp a b). Qed.

Lemma ltb_negb_leb a b : ltb a b = negb (leb b a).
Proof. unfold leb, ltb. rewrite (cmp_sym a b). by destruct (cmp a b). Qed.

Lemma leb_ltb_or_eq a b : leb a b = true <-> ltb a b = true \/ a = b.
Proof.
  unfold leb, ltb. rewrite <- cmp_eq. destruct (cmp a b); naive_solver.
Qed.

Lemma ltb_leb a b : ltb a b = true -> leb a b = true.
Proof. intros. apply leb_ltb_or_eq. auto. Qed.

Lemma leb_antisym a b : leb a b = true -> leb b a = true -> a = b.
Proof.
  rewrite <- cmp_eq. unfold leb. rewrite (cmp_sym a b). by destruct (cmp a b).
Qed.

Lemma leb_trans a b c : leb a b = true -> leb b c = true -> leb a c = true.
Proof.
  rewrite !leb_ltb_or_eq. intros [H1| ->] [H2| ->]; eauto using ltb_trans.
Qed.

Lemma leb_ltb_trans a b c : leb a b = true -> ltb b c = true -> ltb a c = true.
Proof. rewrite leb_ltb_or_eq. intros [H1| ->]; eauto using ltb_trans. Qed.

Lemma ltb_leb_trans a b c : ltb a b = true -> leb b c = true -> ltb a c = true.
Proof. rewrite leb_ltb_or_eq. intros ? [H1| <-]; eauto using ltb_trans. Qed.

Lemma leb_total a b : leb a b = true \/ leb b a = true.
Proof. unfold leb. rewrite (cmp_sym a b). destruct (cmp a b); auto. Qed.

Lemma ltb_ne a b : ltb a b = true -> a <> b.
Proof. intros Hlt ->. by rewrite ltb_irrefl in Hlt. Qed.

End order.

#[export] Hint Resolve leb_refl ltb_leb leb_trans ltb_trans leb_ltb_trans
  ltb_leb_trans : relay_ord.

(** ** Instances *)

#[global] Instance N_ord : Ord N := N.compare.
#[global] Instance N_ord_laws : OrdLaws N.
Proof.
  split; unfold cmp, N_ord.
  - apply N.compare_eq_iff.
  - intros. by rewrite N.compare_antisym.
  - intros a b c. rewrite !N.compare_lt_iff. lia.
Qed.

Lemma ltb_N (a b : N) : ltb a b = (a <? b)%N.
Proof. reflexivity. Qed.

Lemma leb_N (a b : N) : leb a b = (a <=? b)%N.
Proof. reflexivity. Qed.

#[global] Instance byte_ord : Ord byte := fun a b => N.compare (Byte.to_N a) (Byte.to_N b).
#[global] Instance byte_ord_laws : OrdLaws byte.
Proof.
  split; unfold cmp, byte_ord.
  - intros a b. rewrite N.compare_eq_iff. split; [|by intros ->].
    intros E. rewrite <- (byte_of_to_N a), <- (byte_of_to_N b). by rewrite E.
  - intros. by rewrite N.compare_antisym.
  - intros a b c. rewrite !N.compare_lt_iff. lia.
Qed.

Fixpoint lex_cmp {A} `{Ord A} (l k : list A) : comparison :=
  match l, k with
  | [], [] => Eq
  | [], _ :: _ => Lt
  | _ :: _, [] => Gt
  | x :: l', y :: k' =>
      match cmp x y with
      | Eq => lex_cmp l' k'
      | c => c
      end
  end.

Section lex.
Context {A : Type} `{OrdLaws A}.

Lemma lex_cmp_eq (l k : list A) : lex_cmp l k = Eq <-> l = k.
Proof.
  revert k. induction l as [|x l IH]; intros [|y k]; simpl; try naive_solver.
  destruct (cmp x y) eqn:E.
  - apply cmp_eq in E as ->. rewrite IH. naive_solver.
  - split; [done|]. intros [= -> ->]. by rewrite cmp_refl in E.
  - split; [done|]. intros [= -> ->]. by rewrite cmp_refl in E.
Qed.

Lemma lex_cmp_sym (l k : list A) : lex_cmp k l = CompOpp (lex_cmp l k).
Proof.
  revert k. induction l as [|x l IH]; intros [|y k]; simpl; try done.
  rewrite (cmp_sym x y). by destruct (cmp x y); simpl.
Qed.

Lemma lex_cmp_trans (l k m : list A) :
  lex_cmp l k = Lt -> lex_cmp k m = Lt -> lex_cmp l m = Lt.
Proof.
  revert k m. induction l as [|x l IH]; intros [|y k] [|z m]; simpl; try done.
  destruct (cmp x y) eqn:E1; [apply cmp_eq in E1 as ->|..|done].
  - destruct (cmp y z) eqn:E2; [|done|done]. apply IH.
  - intros _. destruct (cmp y z) eqn:E2; [|..|done].
    + apply cmp_eq in E2 as ->. by rewrite E1.
    + by rewrite (cmp_trans x y z).
Qed.

(** A common prefix is skipped; prefixes of one length decide when they differ. *)
Lemma lex_cmp_app_l (p l k : list A) : lex_cmp (p ++ l) (p ++ k) = lex_cmp l k.
Proof. induction p as [|x p IH]; simpl; [done|]. by rewrite cmp_refl. Qed.

Lemma lex_cmp_app_lt (p q l k : list A) :
  length p = length q -> lex_cmp p q = Lt -> lex_cmp (p ++ l) (q ++ k) = Lt.
Proof.
  revert q. induction p as [|x p IH]; intros [|y q]; simpl; try done.
  intros [= E]. destruct (cmp x y); [by apply IH|done|done].
Qed.

End lex.

#[global] Instance list_ord {A} `{Ord A} : Ord (list A) := lex_cmp.
#[global] Instance list_ord_laws {A} `{OrdLaws A} : OrdLaws (list A).
Proof. split; [apply lex_cmp_eq|apply lex_cmp_sym|apply lex_cmp_trans]. Qed.

Definition pair_cmp {A B} `{Ord A, Ord B} (p q : A * B) : comparison :=
  match cmp p.1 q.1 with
  | Eq => cmp p.2 q.2
  | c => c
  end.

Section pair.
Context {A B : Type} `{OrdLaws A, OrdLaws B}.

Lemma pair_cmp_eq (p q : A * B) : pair_cmp p q = Eq <-> p = q.
Proof.
  destruct p as [a b], q as [c d]. unfold pair_cmp; simpl.
  destruct (cmp a c) eqn:E.
  - apply cmp_eq in E as ->. rewrite cmp_eq. naive_solver.
  - split; [done|]. intros [= -> ->]. by rewrite cmp_refl in E.
  - split; [done|]. intros [= -> ->]. by rewrite cmp_refl in E.
Qed.

Lemma pair_cmp_sym (p q : A * B) : pair_cmp q p = CompOpp (pair_cmp p q).
Proof.
  unfold pair_cmp. rewrite (cmp_sym p.1 q.1).
  destruct (cmp p.1 q.1); simpl; [apply cmp_sym|done|done].
Qed.

Lemma pair_cmp_trans (p q r : A * B) :
  pair_cmp p q = Lt -> pair_cmp q r = Lt -> pair_cmp p r = Lt.
Proof.
  unfold pair_cmp.
  destruct (cmp p.1 q.1) eqn:E1; [apply cmp_eq in E1 as ->|..|done].
  - destruct (cmp q.1 r.1) eqn:E2; [apply cmp_trans|done|done].
  - intros _. destruct (cmp q.1 r.1) eqn:E2; [|..|done].
    + apply cmp_eq in E2 as <-. by rewrite E1.
    + by rewrite (cmp_trans p.1 q.1 r.1).
Qed.

End pair.

#[global] Instance prod_ord {A B} `{Ord A, Ord B} : Ord (A * B) := pair_cmp.
#[global] Instance prod_ord_laws {A B} `{OrdLaws A, OrdLaws B} : OrdLaws (A * B).
Proof. split; [apply pair_cmp_eq|apply pair_cmp_sym|apply pair_cmp_trans]. Qed.

(** A derived order compares a key that determines the value. *)
Lemma ord_by {A K} `{OrdLaws K} (key : A -> K) :
  (forall a b, key a = key b -> a = b) -> @OrdLaws A (fun a b => cmp (key a) (key b)).
Proof.
  intros Hinj. split.
  - intros a b. transitivity (key a = key b); [apply (cmp_eq (A := K))|].
    split; [apply Hinj|by intros ->].
  - intros a b. apply (cmp_sym (A := K)).
  - intros a b c. apply (cmp_trans (A := K)).
Qed.

(** ** Adjacent pairs: [slice.windows(2).any(f)] *)

Fixpoint windows2_any {A} (f : A -> A -> bool) (l : list A) : bool :=
  match l with
  | x :: ((y :: _) as l') => f x y || windows2_any f l'
  | _ => false
  end.

Definition ascending {A K} `{Ord K} (key : A -> K) (l : list A) : Prop :=
  StronglySorted (fun a b => ltb (key a) (key b) = true) l.

Section windows.
Context {A K : Type} `{OrdLaws K} (key : A -> K).
Implicit Types l : list A.

(** No adjacent pair is out of order exactly when the whole slice is strictly
    ascending. *)
Lemma windows2_ascending l :
  windows2_any (fun a b => leb (key b) (key a)) l = false <-> ascending key l.
Proof.
  unfold ascending. induction l as [|x l IH]; [split; [constructor|done]|].
  destruct l as [|y l].
  { split; [repeat constructor|done]. }
  cbn [windows2_any]. rewrite orb_false_iff, IH, leb_negb_ltb, negb_false_iff. split.
  - intros [Hxy Hs]. constructor; [done|]. constructor; [done|].
    apply StronglySorted_inv in Hs as [_ Hall].
    eapply Forall_impl; [apply Hall|]. eauto using ltb_trans.
  - intros [Hs Hall]%StronglySorted_inv. split; [by inversion Hall|done].
Qed.

Lemma ascending_NoDup l : ascending key l -> NoDup (key <$> l).
Proof.
  induction 1 as [|x l Hs IH Hall]; simpl; [constructor|]. constructor; [|done].
  intros (y & Hy & Hin)%list_elem_of_fmap.
  rewrite Forall_forall in Hall. apply Hall in Hin.
  by rewrite Hy, ltb_irrefl in Hin.
Qed.

(** A strictly ascending slice is determined by its set of elements. *)
Lemma ascending_unique l k :
  ascending key l -> ascending key k -> l ≡ₚ k -> l = k.
Proof.
  intros Hl Hk Hp. revert l Hl Hp. induction Hk as [|y k Hk IH Hy]; intros l Hl Hp.
  { by apply Permutation_nil_r in Hp. }
  destruct Hl as [|x l Hl Hx]; [by apply Permutation_nil_l in Hp|].
  rewrite Forall_forall in Hx, Hy.
  assert (x = y) as ->.
  { assert (y ∈ x :: l) as [->|Hyl]%elem_of_cons by (rewrite Hp; set_solver); [done|].
    assert (x ∈ y :: k) as [->|Hxk]%elem_of_cons by (rewrite <- Hp; set_solver); [done|].
    pose proof (ltb_trans _ _ _ (Hx _ Hyl) (Hy _ Hxk)) as C.
    by rewrite ltb_irrefl in C. }
  f_equal. apply IH; [done|]. by eapply Permutation_cons_inv.
Qed.

Lemma ascending_ext l k :
  ascending key l -> ascending key k -> (forall x, x ∈ l <-> x ∈ k) -> l = k.
Proof.
  intros Hl Hk Hx. apply ascending_unique; [done..|].
  apply NoDup_Permutation; [by eapply NoDup_fmap_1, ascending_NoDup..|done].
Qed.

Lemma ascending_lookup_unique l a b :
  ascending key l -> a ∈ l -> b ∈ l -> key a = key b -> a = b.
Proof.
  induction 1 as [|x l Hs IH Hall]; [set_solver|]. rewrite Forall_forall in Hall.
  rewrite !elem_of_cons. intros [->|Ha] [->|Hb] E; [done|..|by apply IH].
  - apply Hall in Hb. by rewrite E, ltb_irrefl in Hb.
  - apply Hall in Ha. by rewrite E, ltb_irrefl in Ha.
Qed.

Lemma ascending_app l k :
  ascending key l -> ascending key k ->
  (forall a b, a ∈ l -> b ∈ k -> ltb (key a) (key b) = true) -> ascending key (l ++ k).
Proof.
  unfold ascending. induction 1 as [|x l Hs IH Hall]; intros Hk Hlt; simpl; [done|].
  constructor; [apply IH; set_solver|]. apply Forall_app. split; [done|].
  rewrite Forall_forall. set_solver.
Qed.

End windows.

Lemma ascending_fmap {A B K} `{Ord K} (key : B -> K) (f : A -> B) (l : list A) :
  ascending key (f <$> l) <-> ascending (fun x => key (f x)) l.
Proof.
  unfold ascending. induction l as [|x l IH]; [split; constructor|]. csimpl. split.
  - intros [Hs Hall]%StronglySorted_inv. constructor; [by apply IH|]. by apply Forall_fmap in Hall.
  - intros [Hs Hall]%StronglySorted_inv. constructor; [by apply IH|]. by apply Forall_fmap.
Qed.

(** ** Stable sort: [slice.sort_by_key] *)

Fixpoint insert_by {A} (le : A -> A -> bool) (x : A) (l : list A) : list A :=
  match l with
  | [] => [x]
  | y :: l' => if le x y then x :: l else y :: insert_by le x l'
  end.

Definition sort_by {A} (le : A -> A -> bool) (l : list A) : list A :=
  foldr (insert_by le) [] l.

Definition sort_by_key {A K} `{Ord K} (key : A -> K) (l : list A) : list A :=
  sort_by (fun a b => leb (key a) (key b)) l.

Lemma insert_by_perm {A} (le : A -> A -> bool) x l : insert_by le x l ≡ₚ x :: l.
Proof.
  induction l as [|y l IH]; simpl; [done|]. destruct (le x y); [done|].
  rewrite IH. apply Permutation_swap.
Qed.

Lemma sort_by_perm {A} (le : A -> A -> bool) l : sort_by le l ≡ₚ l.
Proof.
  induction l as [|x l IH]; simpl; [done|]. by rewrite insert_by_perm, IH.
Qed.

Section sorting.
Context {A K : Type} `{OrdLaws K} (key : A -> K).
Implicit Types l : list A.

Abbreviation sorted_by := (StronglySorted (fun a b => leb (key a) (key b) = true)).

Lemma insert_by_sorted x l :
  sorted_by l -> sorted_by (insert_by (fun a b => leb (key a) (key b)) x l).
Proof.
  induction 1 as [|y l Hs IH Hall]; simpl; [repeat constructor|].
  destruct (leb (key x) (key y)) eqn:E.
  - constructor; [by constructor|]. constructor; [done|].
    eapply Forall_impl; [apply Hall|]. eauto using leb_trans.
  - constructor; [done|]. rewrite insert_by_perm. constructor; [|done].
    destruct (leb_total (key y) (key x)); congruence.
Qed.

Lemma sort_by_key_sorted l : sorted_by (sort_by_key key l).
Proof.
  unfold sort_by_key, sort_by. induction l; simpl; [constructor|].
  by apply insert_by_sorted.
Qed.

Lemma sort_by_key_perm l : sort_by_key key l ≡ₚ l.
Proof. apply sort_by_perm. Qed.

Lemma sorted_NoDup_ascending l :
  sorted_by l -> NoDup (key <$> l) -> ascending key l.
Proof.
  induction 1 as [|x l Hs IH Hall]; simpl; [constructor|].
  intros [Hnin Hnd]%NoDup_cons. constructor; [by apply IH|].
  rewrite Forall_forall in Hall |- *. intros y Hy.
  specialize (Hall _ Hy). apply leb_ltb_or_eq in Hall as [?|E]; [done|].
  destruct Hnin. apply list_elem_of_fmap. eauto.
Qed.

Lemma ascending_sorted l : ascending key l -> sorted_by l.
Proof.
  induction 1 as [|x l Hs IH Hall]; constructor; [done|].
  eapply Forall_impl; [exact Hall|]. intros y. apply ltb_leb.
Qed.

Lemma sort_by_key_ascending l : NoDup (key <$> l) -> ascending key (sort_by_key key l).
Proof.
  intros. apply sorted_NoDup_ascending; [apply sort_by_key_sorted|].
  by rewrite sort_by_key_perm.
Qed.

(** Sorting on distinct keys forgets the original order. *)
Lemma sort_by_key_perm_eq l k :
  NoDup (key <$> l) -> l ≡ₚ k -> sort_by_key key l = sort_by_key key k.
Proof.
  intros Hnd Hp. apply (ascending_unique key).
  - by apply sort_by_key_ascending.
  - apply sort_by_key_ascending. by rewrite <- Hp.
  - by rewrite !sort_by_key_perm.
Qed.

Lemma sort_by_key_id l : ascending key l -> sort_by_key key l = l.
Proof.
  intros Hl. apply (ascending_unique key); [|done|apply sort_by_key_perm].
  by apply sort_by_key_ascending, ascending_NoDup.
Qed.

End sorting.
