(* ===== verification/BTree.v ===== *)
(** * Ordered maps

    [BTreeMap] where its iteration order matters: an association list kept in
    strictly ascending key order.  Insertion replaces the value of an existing
    key, as [BTreeMap::insert] does. *)

From S2P Require Import Prelude Ordering.

Section btree.
Context {K V : Type} `{OrdLaws K}.

Abbreviation btree := (list (K * V)).

Definition bt_wf (m : btree) : Prop := ascending fst m.

Fixpoint bt_insert (k : K) (v : V) (m : btree) : btree :=
  match m with
  | [] => [(k, v)]
  | (k', v') :: m' =>
    match cmp k k' with
    | Lt => (k, v) :: m
    | Eq => (k, v) :: m'
    | Gt => (k', v') :: bt_insert k v m'
    end
  end.

Fixpoint bt_get (k : K) (m : btree) : option V :=
  match m with
  | [] => None
  | (k', v) :: m' => match cmp k k' with Eq => Some v | _ => bt_get k m' end
  end.

(** [iter().filter(|(key, _)| after.is_none_or(|a| key > a))]. *)
Definition bt_after (after : option K) (m : btree) : btree :=
  match after with
  | None => m
  | Some a => filter (fun kv => ltb a kv.1 = true) m
  end.

Lemma bt_insert_elem k v m k' v' :
  (k', v') ∈ bt_insert k v m -> (k' = k /\ v' = v) \/ (k', v') ∈ m.
Proof.
  induction m as [|[k1 v1] m IH]; simpl.
  - rewrite list_elem_of_singleton. naive_solver.
  - destruct (cmp k k1); rewrite ?elem_of_cons; naive_solver.
Qed.

(** Appending at the end: the key is above every key of the map. *)
Definition bt_above (k : K) (m : btree) : Prop := Forall (fun kv => ltb kv.1 k = true) m.

Lemma ltb_cmp a b : ltb a b = true <-> cmp a b = Lt.
Proof. unfold ltb. destruct (cmp a b); naive_solver. Qed.

Lemma bt_insert_above k v m : bt_above k m -> bt_insert k v m = m ++ [(k, v)].
Proof.
  induction 1 as [|[k1 v1] m Hk _ IH]; simpl; [done|]. simpl in Hk.
  apply ltb_cmp in Hk. rewrite (cmp_sym k1 k), Hk. simpl. by rewrite IH.
Qed.

Lemma ascending_app_singleton (m : btree) k v :
  bt_wf m -> bt_above k m -> bt_wf (m ++ [(k, v)]).
Proof.
  unfold bt_wf, ascending. induction 1 as [|x m Hs IH Hall]; intros Ha; simpl.
  - repeat constructor.
  - apply Forall_cons in Ha as [Hx Ha]. constructor; [by apply IH|].
    apply Forall_app. split; [done|]. by repeat constructor.
Qed.

Lemma bt_get_Some k m v : bt_wf m -> bt_get k m = Some v <-> (k, v) ∈ m.
Proof.
  unfold bt_wf, ascending. induction 1 as [|[k1 v1] m Hs IH Hall]; simpl; [set_solver|].
  rewrite elem_of_cons. destruct (cmp k k1) eqn:E.
  - apply cmp_eq in E as ->. split; [naive_solver|]. intros [[= ->]|Hin]; [done|].
    rewrite Forall_forall in Hall. apply Hall in Hin. simpl in Hin.
    by rewrite ltb_irrefl in Hin.
  - rewrite IH. split; [auto|]. intros [[= -> ->]|?]; [|done]. by rewrite cmp_refl in E.
  - rewrite IH. split; [auto|]. intros [[= -> ->]|?]; [|done]. by rewrite cmp_refl in E.
Qed.

(** Insertion keeps the order, and adds a row for a fresh key. *)
Lemma bt_insert_fresh k v m :
  k ∉ m.*1 -> bt_insert k v m ≡ₚ (k, v) :: m.
Proof.
  induction m as [|[k1 v1] m IH]; cbn [bt_insert fmap list_fmap]; [done|].
  intros Hk%not_elem_of_cons. destruct Hk as [Hne Hk].
  destruct (cmp k k1) eqn:E; [by apply cmp_eq in E as ->|done|].
  rewrite IH by done. apply Permutation_swap.
Qed.

Lemma bt_insert_wf k v m : bt_wf m -> bt_wf (bt_insert k v m).
Proof.
  unfold bt_wf, ascending. induction 1 as [|[k1 v1] m Hs IH Hall]; simpl; [repeat constructor|].
  destruct (cmp k k1) eqn:E; constructor; try done.
  - by apply cmp_eq in E as ->.
  - by constructor.
  - constructor; [by apply ltb_cmp|]. eapply Forall_impl; [exact Hall|]. simpl.
    intros [k2 v2] Hlt. eapply ltb_trans; [by apply ltb_cmp|done].
  - rewrite Forall_forall. intros [k2 v2] [[-> ->]|Hin]%bt_insert_elem; simpl.
    + apply ltb_cmp. by rewrite (cmp_sym k k1), E.
    + rewrite Forall_forall in Hall. by apply (Hall _ Hin).
Qed.

Lemma bt_after_wf after m : bt_wf m -> bt_wf (bt_after after m).
Proof.
  unfold bt_wf, ascending. intros Hs. destruct after as [a|]; [|done]. simpl.
  induction Hs as [|x m Hs IH Hall]; [constructor|]. rewrite filter_cons.
  case_decide; [|done]. constructor; [done|]. rewrite Forall_forall in Hall |- *.
  intros y [_ Hy]%list_elem_of_filter. by apply Hall.
Qed.

(** Splitting an ascending map at a key of it. *)
Lemma bt_after_split l r k v :
  bt_wf (l ++ (k, v) :: r) -> bt_after (Some k) (l ++ (k, v) :: r) = r.
Proof.
  unfold bt_wf, ascending, bt_after. intros Hs. rewrite filter_app, filter_cons.
  simpl. rewrite ltb_irrefl, decide_False by done.
  assert (Hl : filter (fun kv => ltb k kv.1 = true) l = []).
  { induction l as [|x l IH]; [done|]. simpl in Hs. inversion Hs as [|? ? Hs' Hall]; subst.
    rewrite filter_cons, decide_False; [by apply IH|].
    rewrite Forall_forall in Hall. specialize (Hall (k, v) ltac:(set_solver)). simpl in Hall.
    rewrite ltb_negb_leb, (ltb_leb _ _ Hall). done. }
  rewrite Hl. simpl. induction l as [|x l IH].
  - simpl in Hs. inversion Hs as [|? ? Hs' Hall]; subst. clear Hs Hl.
    induction Hall as [|y r Hy _ IH]; [done|]. rewrite filter_cons, decide_True by done.
    f_equal. apply IH. by inversion Hs'.
  - apply IH; [by inversion Hs|]. rewrite filter_cons in Hl. by case_decide.
Qed.

(** Resuming after any row of a scan gives the rest of the scan. *)
Lemma bt_after_resume after m l k v r :
  bt_wf m -> bt_after after m = l ++ (k, v) :: r -> bt_after (Some k) m = r.
Proof.
  intros Hwf E. pose proof (bt_after_wf after m Hwf) as Hwf'. rewrite E in Hwf'.
  rewrite <- (bt_after_split l r k v Hwf'), <- E. destruct after as [a|]; [|done].
  simpl in E |- *. rewrite list_filter_filter. apply list_filter_iff. intros x. split; [|naive_solver].
  intros Hkx. split; [done|]. eapply ltb_trans; [|exact Hkx].
  assert ((k, v) ∈ filter (fun kv : K * V => ltb a kv.1 = true) m) as [? _]%list_elem_of_filter
    by (rewrite E; set_solver). done.
Qed.

End btree.
