(* ===== verification/Text.v ===== *)
(** * Rust strings

    A [char] is a Unicode scalar value and a [str] a list of them; [len] is the
    length of the UTF-8 encoding, which is what every size limit of the
    protocol is stated in.  The UTF-8 codec of the standard library
    ([str::as_bytes], [str::from_utf8]) is defined and shown to round trip. *)

From S2P Require Import Prelude Ordering.

#[local] Open Scope N_scope.

Abbreviation rchar := N.
Abbreviation rstr := (list N).

(** A string literal of the source (ASCII only). *)
Definition lit (s : String.string) : rstr :=
  Ascii.N_of_ascii <$> String.list_ascii_of_string s.

Definition is_scalar (c : rchar) : bool :=
  (c <? 0xD800) || ((0xE000 <=? c) && (c <=? 0x10FFFF)).

Definition wf_str (s : rstr) : bool := forallb is_scalar s.

(** [char::is_whitespace]: the Unicode [White_Space] property. *)
Definition is_whitespace (c : rchar) : bool :=
  ((9 <=? c) && (c <=? 13)) || (c =? 0x20) || (c =? 0x85) || (c =? 0xA0)
  || (c =? 0x1680) || ((0x2000 <=? c) && (c <=? 0x200A))
  || (c =? 0x2028) || (c =? 0x2029) || (c =? 0x202F) || (c =? 0x205F)
  || (c =? 0x3000).

(** [char::is_control]: general category [Cc]. *)
Definition is_control (c : rchar) : bool :=
  (c <? 0x20) || ((0x7F <=? c) && (c <? 0xA0)).

(** [u8::is_ascii_graphic]. *)
Definition is_ascii_graphic (b : byte) : bool :=
  (0x21 <=? Byte.to_N b) && (Byte.to_N b <=? 0x7E).

(** [s.trim().is_empty()]. *)
Definition trim_is_empty (s : rstr) : bool := forallb is_whitespace s.

(** ** UTF-8 *)

Definition utf8_char (c : rchar) : bytes :=
  if c <? 0x80 then [byte_of c]
  else if c <? 0x800 then
    [byte_of (0xC0 + c / 64); byte_of (0x80 + c mod 64)]
  else if c <? 0x10000 then
    [byte_of (0xE0 + c / 4096); byte_of (0x80 + c / 64 mod 64); byte_of (0x80 + c mod 64)]
  else
    [byte_of (0xF0 + c / 262144); byte_of (0x80 + c / 4096 mod 64);
     byte_of (0x80 + c / 64 mod 64); byte_of (0x80 + c mod 64)].

Definition as_bytes (s : rstr) : bytes := s ≫= utf8_char.

(** [str::len]. *)
Definition str_len (s : rstr) : N := len (as_bytes s).

Definition continuation (b : byte) : option N :=
  let n := Byte.to_N b in
  if (0x80 <=? n) && (n <? 0xC0) then Some (n - 0x80) else None.

Definition decode_char (l : bytes) : option (rchar * bytes) :=
  match l with
  | [] => None
  | b0 :: l1 =>
    let n := Byte.to_N b0 in
    if n <? 0x80 then Some (n, l1)
    else if n <? 0xC0 then None
    else if n <? 0xE0 then
      match l1 with
      | b1 :: l2 =>
        x1 ← continuation b1;
        let c := (n - 0xC0) * 64 + x1 in
        if 0x80 <=? c then Some (c, l2) else None
      | _ => None
      end
    else if n <? 0xF0 then
      match l1 with
      | b1 :: b2 :: l3 =>
        x1 ← continuation b1; x2 ← continuation b2;
        let c := (n - 0xE0) * 4096 + x1 * 64 + x2 in
        if (0x800 <=? c) && is_scalar c then Some (c, l3) else None
      | _ => None
      end
    else
      match l1 with
      | b1 :: b2 :: b3 :: l4 =>
        x1 ← continuation b1; x2 ← continuation b2; x3 ← continuation b3;
        let c := (n - 0xF0) * 262144 + x1 * 4096 + x2 * 64 + x3 in
        if (0x10000 <=? c) && is_scalar c then Some (c, l4) else None
      | _ => None
      end
  end.

(** One character per input byte is enough fuel: a character consumes at least
    one byte. *)
Fixpoint decode_chars (fuel : nat) (l : bytes) : option rstr :=
  match l with
  | [] => Some []
  | _ :: _ =>
    match fuel with
    | O => None
    | S fuel' =>
      '(c, l') ← decode_char l;
      s ← decode_chars fuel' l';
      Some (c :: s)
    end
  end.

(** [str::from_utf8]. *)
Definition from_utf8 (l : bytes) : option rstr := decode_chars (length l) l.

#[local] Ltac Zify.zify_post_hook ::= Z.to_euclidean_division_equations.

Lemma continuation_byte_of x : x < 64 -> continuation (byte_of (0x80 + x)) = Some x.
Proof.
  intros Hx. unfold continuation. rewrite to_N_byte_of, N.mod_small by lia.
  destruct (N.leb_spec 0x80 (0x80 + x)), (N.ltb_spec (0x80 + x) 0xC0); simpl; try lia.
  f_equal. lia.
Qed.

Lemma lead_byte_of x : x < 256 -> Byte.to_N (byte_of x) = x.
Proof. intros. rewrite to_N_byte_of. by apply N.mod_small. Qed.

Ltac n_cases :=
  repeat match goal with
  | |- context [?a <? ?b] => destruct (N.ltb_spec a b); simpl; try lia
  | |- context [?a <=? ?b] => destruct (N.leb_spec a b); simpl; try lia
  end.

Lemma is_scalar_lt c : is_scalar c = true -> c < 0x110000.
Proof.
  unfold is_scalar. rewrite orb_true_iff, andb_true_iff, N.ltb_lt, !N.leb_le. lia.
Qed.

Lemma decode_utf8_char c r :
  is_scalar c = true -> decode_char (utf8_char c ++ r) = Some (c, r).
Proof.
  intros Hs. pose proof (is_scalar_lt _ Hs) as Hc. unfold utf8_char.
  destruct (N.ltb_spec c 0x80); [|destruct (N.ltb_spec c 0x800);
    [|destruct (N.ltb_spec c 0x10000)]]; cbn [app decode_char];
    rewrite lead_byte_of by lia;
    repeat rewrite continuation_byte_of by (by apply N.mod_lt); cbn [mbind option_bind].
  - by n_cases.
  - do 2 (rewrite (proj2 (N.ltb_ge _ _)) by lia).
    rewrite (proj2 (N.ltb_lt _ _)) by lia.
    replace (_ * 64 + _) with c by lia.
    by rewrite (proj2 (N.leb_le _ _)) by lia.
  - do 3 (rewrite (proj2 (N.ltb_ge _ _)) by lia).
    rewrite (proj2 (N.ltb_lt _ _)) by lia.
    replace (_ * 4096 + _ * 64 + _) with c by lia.
    by rewrite (proj2 (N.leb_le _ _)), Hs by lia.
  - do 4 (rewrite (proj2 (N.ltb_ge _ _)) by lia).
    replace (_ * 262144 + _ * 4096 + _ * 64 + _) with c by lia.
    by rewrite (proj2 (N.leb_le _ _)), Hs by lia.
Qed.

Lemma utf8_char_nonempty c : (1 <= length (utf8_char c))%nat.
Proof. unfold utf8_char. repeat case_match; simpl; lia. Qed.

Lemma decode_chars_as_bytes s fuel :
  wf_str s = true -> (length (as_bytes s) <= fuel)%nat ->
  decode_chars fuel (as_bytes s) = Some s.
Proof.
  revert fuel. induction s as [|c s IH]; intros fuel Hwf Hf.
  { by destruct fuel. }
  cbn in Hwf. apply andb_true_iff in Hwf as [Hc Hs].
  unfold as_bytes in *. rewrite bind_cons, length_app in Hf.
  rewrite bind_cons. pose proof (utf8_char_nonempty c).
  destruct fuel as [|fuel]; [lia|].
  destruct (utf8_char c ++ _) as [|b l] eqn:E.
  { apply (f_equal length) in E. rewrite length_app in E. simpl in E. lia. }
  cbn [decode_chars]. rewrite <- E, decode_utf8_char by done. simpl.
  by rewrite IH by (done || lia).
Qed.

(** Decoding the UTF-8 encoding of a string gives the string back. *)
Lemma from_utf8_as_bytes s : wf_str s = true -> from_utf8 (as_bytes s) = Some s.
Proof. intros. by apply decode_chars_as_bytes. Qed.

Lemma as_bytes_inj s t :
  wf_str s = true -> wf_str t = true -> as_bytes s = as_bytes t -> s = t.
Proof.
  intros Hs Ht E. apply from_utf8_as_bytes in Hs, Ht. rewrite E in Hs. congruence.
Qed.

(** UTF-8 keeps the order of code points: comparing two strings byte by byte, as
    [str]'s [Ord] does, is comparing their scalar values. *)
Lemma utf8_char_order c d r r' :
  is_scalar c = true -> is_scalar d = true -> c < d ->
  lex_cmp (utf8_char c ++ r) (utf8_char d ++ r') = Lt.
Proof.
  intros Hc%is_scalar_lt Hd%is_scalar_lt Hlt. unfold utf8_char.
  repeat case_match; repeat match goal with
    | E : (_ <? _) = true |- _ => apply N.ltb_lt in E
    | E : (_ <? _) = false |- _ => apply N.ltb_ge in E
    end; try lia; cbn [app lex_cmp]; unfold cmp, byte_ord;
    rewrite !lead_byte_of by lia;
    repeat match goal with
    | |- context [N.compare ?a ?b] => destruct (N.compare_spec a b); try done; try lia
    end.
Qed.

Lemma as_bytes_order s t :
  wf_str s = true -> wf_str t = true -> lex_cmp (as_bytes s) (as_bytes t) = lex_cmp s t.
Proof.
  revert t. induction s as [|c s IH]; intros [|d t]; cbn [wf_str forallb]; unfold as_bytes;
    rewrite ?bind_cons, ?bind_nil; try done.
  - intros _ _. pose proof (utf8_char_nonempty d). destruct (utf8_char d); simpl in *; [lia|done].
  - intros _ _. pose proof (utf8_char_nonempty c). destruct (utf8_char c); simpl in *; [lia|done].
  - intros [Hc Hs]%andb_true_iff [Hd Ht]%andb_true_iff. cbn [lex_cmp].
    change (cmp c d) with (N.compare c d). destruct (N.compare_spec c d) as [->|Hlt|Hlt].
    + rewrite lex_cmp_app_l. by apply IH.
    + by apply utf8_char_order.
    + by rewrite lex_cmp_sym, utf8_char_order.
Qed.

Example lit_bytes : as_bytes (lit "memory") =
  [Byte.x6d; Byte.x65; Byte.x6d; Byte.x6f; Byte.x72; Byte.x79].
Proof. reflexivity. Qed.

(** ** Splitting and searching *)

(** [s.split(c)]: the pieces between the separators, at least one. *)
Fixpoint split_on (c : rchar) (s : rstr) : list rstr :=
  match s with
  | [] => [[]]
  | x :: s' =>
    if x =? c then [] :: split_on c s'
    else match split_on c s' with
         | p :: ps => (x :: p) :: ps
         | [] => [[x]]
         end
  end.

(** [parts.join(c)]. *)
Fixpoint join_with (c : rchar) (parts : list rstr) : rstr :=
  match parts with
  | [] => []
  | [p] => p
  | p :: ps => p ++ c :: join_with c ps
  end.

Definition contains_char (c : rchar) (s : rstr) : bool := existsb (fun x => x =? c) s.

Definition starts_with_char (c : rchar) (s : rstr) : bool :=
  match s with x :: _ => x =? c | [] => false end.

Lemma split_on_nonempty c s : split_on c s <> [].
Proof. destruct s; simpl; [done|]. repeat case_match; done. Qed.

Lemma join_split_on c s : join_with c (split_on c s) = s.
Proof.
  induction s as [|x s IH]; simpl; [done|].
  pose proof (split_on_nonempty c s) as Hne.
  destruct (N.eqb_spec x c) as [->|Hx];
    destruct (split_on c s) as [|p ps]; try done; simpl in *; [by rewrite IH|].
  destruct ps; by rewrite <- IH.
Qed.
