(* ===== verification/Protocol.v ===== *)
(** * Protocol vocabulary (crates/protocol)

    Identifiers ([ids.rs]), size limits and text validation
    ([validation.rs]), the error types ([error.rs]), version negotiation
    ([lib.rs]), the hybrid logical clock ([clock.rs]) and the sync envelope
    types with their validation ([sync.rs]).

    Machine integers are [N] and fixed-size byte arrays are lists of bytes; the
    ranges and lengths Rust's types enforce are the boolean predicates
    [wf_...], and the decoders of the later files are shown to produce only
    values that satisfy them. *)

From S2P Require Import Prelude Ordering Text.

#[local] Open Scope N_scope.

(** ** Limits: validation.rs, lib.rs *)

Definition MAX_TITLE_BYTES : N := 512.
Definition MAX_MARKDOWN_BYTES : N := 1024 * 1024.
Definition MAX_TAGS : N := 64.
Definition MAX_TAG_BYTES : N := 128.
Definition MAX_EVIDENCE_ITEMS : N := 64.
Definition MAX_EVIDENCE_BYTES : N := 16 * 1024.
Definition MAX_COMPONENT_METADATA_BYTES : N := 64 * 1024.
Definition MAX_CBOR_OPERATION_BYTES : N := 5 * 1024 * 1024.
Definition MAX_BATCH_OPERATIONS : N := 10000.
Definition MAX_CIPHERTEXT_BYTES : N := 4 * 1024 * 1024.
Definition MAX_BLOB_BYTES : N := 500 * 1024 * 1024.

Definition PROTOCOL_MAJOR : N := 1.
Definition PROTOCOL_MINOR : N := 18.
Definition SYNC_SCHEMA_VERSION : N := 1.
Definition CHECKPOINT_SCHEMA_VERSION : N := 2.

(** ** Errors: error.rs *)

Inductive ValidationError : Type :=
| EmptyRequired (field : string)
| TooLarge (field : string) (limit : N)
| Invalid (field : string).

Inductive ProtocolError : Type :=
| ProtocolVersionUnsupported
| CheckpointVersionUnsupported
| InvalidRequest
| FrameTooLarge
| ClockExhaustedProtocol
| InvalidCbor (message : string).

Inductive ClockError : Type :=
| ClockExhausted.

#[global] Instance ValidationError_eq_dec : EqDecision ValidationError.
Proof. solve_decision. Defined.
#[global] Instance ProtocolError_eq_dec : EqDecision ProtocolError.
Proof. solve_decision. Defined.
#[global] Instance ClockError_eq_dec : EqDecision ClockError.
Proof. solve_decision. Defined.

(** ** Text validation: validation.rs *)

Definition required_text (value : rstr) (field : string) (limit : N)
    : result ValidationError unit :=
  if trim_is_empty value then Err (EmptyRequired field)
  else if limit <? str_len value then Err (TooLarge field limit)
  else Ok tt.

Lemma required_text_ok value field limit :
  required_text value field limit = Ok tt <->
  trim_is_empty value = false /\ str_len value <= limit.
Proof.
  unfold required_text. destruct (trim_is_empty value); [naive_solver|].
  destruct (N.ltb_spec limit (str_len value)); naive_solver lia.
Qed.

(** ** Identifiers: ids.rs *)

(** The lowercase hyphenated text of a UUID. *)
Definition hex_lower (n : N) : rchar := if n <? 10 then 0x30 + n else 0x61 + (n - 10).

Definition byte_hex (b : byte) : rstr :=
  [hex_lower (Byte.to_N b / 16); hex_lower (Byte.to_N b mod 16)].

Definition hyphen : rchar := 0x2D.

Definition hyphenated_format (b : bytes) : rstr :=
  (take 4 b ≫= byte_hex) ++ hyphen :: (take 2 (drop 4 b) ≫= byte_hex)
  ++ hyphen :: (take 2 (drop 6 b) ≫= byte_hex)
  ++ hyphen :: (take 2 (drop 8 b) ≫= byte_hex) ++ hyphen :: (drop 10 b ≫= byte_hex).

(** The [uuid] crate is outside the repository: the model takes the
    observations the code makes of a UUID as parameters. *)
Class UuidCrate := {
  version_is_sort_rand : bytes -> bool;
  variant_is_rfc4122 : bytes -> bool;
  uuid_parse_str : rstr -> option bytes;
  uuid_hyphenated : bytes -> rstr;
}.

(** What RFC 9562 and the crate say of them: the version is the high nibble of
    byte 6, the variant the two high bits of byte 8, the hyphenated form is
    lowercase, and parsing reads it back. *)
Class UuidCrateLaws `{UuidCrate} : Prop := {
  version_nibble : forall b x, length b = 16%nat -> b !! 6%nat = Some x ->
    version_is_sort_rand b = (N.shiftr (Byte.to_N x) 4 =? 7);
  variant_bits : forall b x, length b = 16%nat -> b !! 8%nat = Some x ->
    variant_is_rfc4122 b = (N.shiftr (Byte.to_N x) 6 =? 2);
  hyphenated_text : forall b, length b = 16%nat -> uuid_hyphenated b = hyphenated_format b;
  parse_hyphenated : forall b, length b = 16%nat ->
    uuid_parse_str (hyphenated_format b) = Some b;
  parse_length : forall s b, uuid_parse_str s = Some b -> length b = 16%nat;
}.

(** A witness of the interface: the RFC's reading. *)
Definition hex_value (c : rchar) : N := if c <? 0x3A then c - 0x30 else c - 0x61 + 10.

Fixpoint hex_pairs (s : rstr) : bytes :=
  match s with
  | a :: b :: s' => byte_of (16 * hex_value a + hex_value b) :: hex_pairs s'
  | _ => []
  end.

Definition rfc9562 : UuidCrate := {|
  version_is_sort_rand b :=
    match b !! 6%nat with Some x => N.shiftr (Byte.to_N x) 4 =? 7 | None => false end;
  variant_is_rfc4122 b :=
    match b !! 8%nat with Some x => N.shiftr (Byte.to_N x) 6 =? 2 | None => false end;
  uuid_parse_str s :=
    let b := hex_pairs (filter (fun c => c <> hyphen) s) in
    if (length b =? 16)%nat then Some b else None;
  uuid_hyphenated := hyphenated_format;
|}.

Lemma byte_hex_no_hyphen b : filter (fun c => c <> hyphen) (byte_hex b) = byte_hex b.
Proof. destruct b; reflexivity. Qed.

Lemma hex_pairs_byte_hex b : hex_pairs (b ≫= byte_hex) = b.
Proof.
  induction b as [|x b IH]; [done|]. cbn [mbind list_bind]. unfold byte_hex at 1.
  cbn [app hex_pairs]. f_equal; [|exact IH]. by destruct x.
Qed.

Lemma filter_byte_hex (b : bytes) :
  filter (fun c => c <> hyphen) (b ≫= byte_hex) = (b ≫= byte_hex).
Proof.
  induction b as [|x b IH]; [done|]. cbn [mbind list_bind].
  by rewrite filter_app, byte_hex_no_hyphen, IH.
Qed.

Lemma hyphenated_format_digits b :
  filter (fun c => c <> hyphen) (hyphenated_format b) = (b ≫= byte_hex).
Proof.
  unfold hyphenated_format.
  repeat (rewrite filter_app || rewrite filter_cons_False by (intros Hc; by apply Hc)).
  rewrite !filter_byte_hex, <- !bind_app. f_equal.
  rewrite !app_assoc, (take_take_drop b 4 2). change (4 + 2)%nat with 6%nat.
  rewrite (take_take_drop b 6 2). change (6 + 2)%nat with 8%nat.
  rewrite (take_take_drop b 8 2). apply (take_drop 10).
Qed.

Lemma rfc9562_laws : @UuidCrateLaws rfc9562.
Proof.
  split; try (intros b x _ E; simpl; by rewrite E); simpl.
  - done.
  - intros b Hb. rewrite hyphenated_format_digits, hex_pairs_byte_hex, Hb. done.
  - intros s b. destruct (Nat.eqb_spec (length (hex_pairs (filter (fun c => c <> hyphen) s))) 16);
      naive_solver.
Qed.

Abbreviation Uuid := bytes (only parsing).
Abbreviation AccountId := Uuid (only parsing).
Abbreviation WorkspaceId := Uuid (only parsing).
Abbreviation ProjectId := Uuid (only parsing).
Abbreviation MemoryId := Uuid (only parsing).
Abbreviation CandidateId := Uuid (only parsing).
Abbreviation TaskId := Uuid (only parsing).
Abbreviation SecretRefId := Uuid (only parsing).
Abbreviation OperationId := Uuid (only parsing).
Abbreviation RecordId := Uuid (only parsing).
Abbreviation DeviceId := Uuid (only parsing).
Abbreviation PackageId := Uuid (only parsing).

Inductive InvalidId : Type := InvalidId_.

(** The constructor every identifier type gets from [id_type!]. *)
Definition id_new `{UuidCrate} (value : Uuid) : result InvalidId Uuid :=
  if version_is_sort_rand value && variant_is_rfc4122 value
  then Ok value else Err InvalidId_.

(** [FromStr] of every identifier type. *)
Definition id_from_str `{UuidCrate} (value : rstr) : result InvalidId Uuid :=
  let? uuid := ok_or (uuid_parse_str value) InvalidId_ in
  if negb (bool_decide (value = uuid_hyphenated uuid)) then Err InvalidId_ else id_new uuid.

Definition uuid_v7_from_bytes `{UuidCrate} (b : bytes) : result InvalidId Uuid :=
  if negb (len b =? 16) then Err InvalidId_ else id_new b.

(** What an identifier type guarantees. *)
Definition wf_id `{UuidCrate} (b : Uuid) : bool :=
  (len b =? 16) && version_is_sort_rand b && variant_is_rfc4122 b.

Lemma uuid_v7_from_bytes_Ok `{UuidCrate} b i :
  uuid_v7_from_bytes b = Ok i <-> i = b /\ wf_id b = true.
Proof.
  unfold uuid_v7_from_bytes, id_new, wf_id.
  destruct (len b =? 16), (version_is_sort_rand b), (variant_is_rfc4122 b); simpl;
    naive_solver.
Qed.

Lemma wf_id_len `{UuidCrate} b : wf_id b = true -> len b = 16.
Proof. unfold wf_id. rewrite !andb_true_iff, N.eqb_eq. tauto. Qed.

(** ** Digests and fixed-size byte strings: digests.rs *)

Abbreviation Sha256Digest := bytes (only parsing).
Abbreviation XChaChaNonce := bytes (only parsing).
Abbreviation Ed25519SignatureBytes := bytes (only parsing).
Abbreviation Ed25519PublicKeyBytes := bytes (only parsing).

Definition wf_fixed (n : N) (b : bytes) : bool := len b =? n.

(** [[0; n]]. *)
Definition zero_bytes (n : nat) : bytes := replicate n Byte.x00.
Definition zero_digest : Sha256Digest := zero_bytes 32.

(** [BoundedCiphertext::new] of [bounded_bytes!]. *)
Definition BoundedCiphertext_new (b : bytes) : result ValidationError bytes :=
  if MAX_CIPHERTEXT_BYTES <? len b
  then Err (TooLarge "bytes" MAX_CIPHERTEXT_BYTES) else Ok b.

Lemma BoundedCiphertext_new_Ok b c :
  BoundedCiphertext_new b = Ok c <-> c = b /\ len b <= MAX_CIPHERTEXT_BYTES.
Proof.
  unfold BoundedCiphertext_new.
  destruct (N.ltb_spec MAX_CIPHERTEXT_BYTES (len b)); naive_solver lia.
Qed.

(** ** Version negotiation: lib.rs *)

Record ProtocolVersion := { major : N; minor : N }.
Record ProtocolVersionRange := { range_min : ProtocolVersion; range_max : ProtocolVersion }.

Definition negotiate_version (local peer : ProtocolVersionRange)
    : result ProtocolError ProtocolVersion :=
  if negb (major (range_min local) =? PROTOCOL_MAJOR)
     || negb (major (range_min local) =? major (range_max local))
     || negb (major (range_min peer) =? major (range_max peer))
     || negb (major (range_min local) =? major (range_min peer))
  then Err ProtocolVersionUnsupported
  else
    let min := N.max (minor (range_min local)) (minor (range_min peer)) in
    let max := N.min (minor (range_max local)) (minor (range_max peer)) in
    if min <=? max
    then Ok {| major := major (range_min local); minor := max |}
    else Err ProtocolVersionUnsupported.

(** ** Hybrid logical clock: clock.rs *)

Record HybridLogicalClock := {
  physical_ms : N;
  logical : N;
  node : DeviceId;
}.

#[global] Instance HybridLogicalClock_eq_dec : EqDecision HybridLogicalClock.
Proof. solve_decision. Defined.

(** [#[derive(Ord)]]: fields in declaration order. *)
#[global] Instance HybridLogicalClock_ord : Ord HybridLogicalClock := fun a b =>
  cmp (physical_ms a, (logical a, node a)) (physical_ms b, (logical b, node b)).

Definition wf_hlc `{UuidCrate} (h : HybridLogicalClock) : bool :=
  (physical_ms h <=? u64_max) && (logical h <=? u32_max) && wf_id (node h).

Definition tick (self : HybridLogicalClock) (now_ms : N)
    : result ClockError HybridLogicalClock :=
  let physical := N.max (physical_ms self) now_ms in
  let? l :=
    if physical =? physical_ms self
    then ok_or (checked_add u32_max (logical self) 1) ClockExhausted
    else Ok 0 in
  Ok {| physical_ms := physical; logical := l; node := node self |}.

Definition observe (self remote : HybridLogicalClock) (now_ms : N)
    : result ClockError HybridLogicalClock :=
  let physical := N.max (N.max now_ms (physical_ms self)) (physical_ms remote) in
  let? l :=
    ok_or
      (if (physical =? physical_ms self) && (physical =? physical_ms remote)
       then checked_add u32_max (N.max (logical self) (logical remote)) 1
       else if physical =? physical_ms self
       then checked_add u32_max (logical self) 1
       else if physical =? physical_ms remote
       then checked_add u32_max (logical remote) 1
       else Some 0)
      ClockExhausted in
  Ok {| physical_ms := physical; logical := l; node := node self |}.

(** ** The sync envelope: sync.rs *)

Inductive RecordKind : Type :=
| KMemory | KMemoryCandidate | KTask | KSecretRef | KInstruction | KComponent | KProject.

Inductive MutationKind : Type := Upsert | Tombstone.

#[global] Instance RecordKind_eq_dec : EqDecision RecordKind.
Proof. solve_decision. Defined.
#[global] Instance MutationKind_eq_dec : EqDecision MutationKind.
Proof. solve_decision. Defined.

Record DeviceSequence := { ds_device_id : DeviceId; ds_sequence : N }.

Record BlobRef := {
  blob_digest : Sha256Digest;
  blob_ciphertext_bytes : N;
  blob_storage_id : rstr;
}.

Record SyncOperationV1 := {
  op_schema_version : N;
  op_operation_id : OperationId;
  op_account_id : AccountId;
  op_workspace_id : WorkspaceId;
  op_project_id : option ProjectId;
  op_record_id : RecordId;
  op_record_kind : RecordKind;
  op_mutation_kind : MutationKind;
  op_device_id : DeviceId;
  op_device_sequence : N;
  op_causal_frontier : list DeviceSequence;
  op_control_epoch : N;
  op_key_epoch : N;
  op_previous_device_hash : Sha256Digest;
  op_nonce : XChaChaNonce;
  op_ciphertext : bytes;
  op_ciphertext_hash : Sha256Digest;
  op_blob_refs : list BlobRef;
  op_created_hlc : HybridLogicalClock;
  op_signature : Ed25519SignatureBytes;
}.

Record CheckpointV1 := {
  cp_schema_version : N;
  cp_account_id : AccountId;
  cp_workspace_id : WorkspaceId;
  cp_previous_checkpoint_hash : Sha256Digest;
  cp_causal_frontier : list DeviceSequence;
  cp_state_hash : Sha256Digest;
  cp_key_epoch : N;
  cp_creator_device : DeviceId;
  cp_created_hlc : HybridLogicalClock;
  cp_signature : Ed25519SignatureBytes;
}.

#[global] Instance DeviceSequence_eq_dec : EqDecision DeviceSequence.
Proof. solve_decision. Defined.
#[global] Instance BlobRef_eq_dec : EqDecision BlobRef.
Proof. solve_decision. Defined.
#[global] Instance SyncOperationV1_eq_dec : EqDecision SyncOperationV1.
Proof. solve_decision. Defined.
#[global] Instance CheckpointV1_eq_dec : EqDecision CheckpointV1.
Proof. solve_decision. Defined.

(** [windows(2).any(|pair| pair[0].device_id >= pair[1].device_id)]. *)
Definition frontier_out_of_order (frontier : list DeviceSequence) : bool :=
  windows2_any (fun a b => leb (ds_device_id b) (ds_device_id a)) frontier.

Definition validate_blob (blob : BlobRef) : result ValidationError unit :=
  let? _ := required_text (blob_storage_id blob) "blobRefs.storageId" MAX_TITLE_BYTES in
  if (blob_ciphertext_bytes blob =? 0) || (MAX_BLOB_BYTES <? blob_ciphertext_bytes blob)
  then Err (Invalid "blobRefs.ciphertextBytes") else Ok tt.

Definition SyncOperationV1_validate (op : SyncOperationV1) : result ValidationError unit :=
  if negb (op_schema_version op =? SYNC_SCHEMA_VERSION)
  then Err (Invalid "schemaVersion")
  else if MAX_BATCH_OPERATIONS <? len (op_causal_frontier op)
  then Err (TooLarge "causalFrontier" MAX_BATCH_OPERATIONS)
  else if MAX_BATCH_OPERATIONS <? len (op_blob_refs op)
  then Err (TooLarge "blobRefs" MAX_BATCH_OPERATIONS)
  else if frontier_out_of_order (op_causal_frontier op)
  then Err (Invalid "causalFrontier")
  else try_for_each validate_blob (op_blob_refs op).

Definition CheckpointV1_validate (cp : CheckpointV1) : result ValidationError unit :=
  if negb (cp_schema_version cp =? CHECKPOINT_SCHEMA_VERSION)
  then Err (Invalid "schemaVersion")
  else if MAX_BATCH_OPERATIONS <? len (cp_causal_frontier cp)
  then Err (TooLarge "causalFrontier" MAX_BATCH_OPERATIONS)
  else if frontier_out_of_order (cp_causal_frontier cp)
  then Err (Invalid "causalFrontier")
  else Ok tt.

(** Assignments to the sealed fields: [operation.signature = ...],
    [operation.nonce = ...], [operation.ciphertext = ...],
    [operation.ciphertext_hash = ...]. *)
Definition with_signature (op : SyncOperationV1) (signature : Ed25519SignatureBytes)
    : SyncOperationV1 := {|
  op_schema_version := op_schema_version op; op_operation_id := op_operation_id op;
  op_account_id := op_account_id op; op_workspace_id := op_workspace_id op;
  op_project_id := op_project_id op; op_record_id := op_record_id op;
  op_record_kind := op_record_kind op; op_mutation_kind := op_mutation_kind op;
  op_device_id := op_device_id op; op_device_sequence := op_device_sequence op;
  op_causal_frontier := op_causal_frontier op; op_control_epoch := op_control_epoch op;
  op_key_epoch := op_key_epoch op; op_previous_device_hash := op_previous_device_hash op;
  op_nonce := op_nonce op; op_ciphertext := op_ciphertext op;
  op_ciphertext_hash := op_ciphertext_hash op; op_blob_refs := op_blob_refs op;
  op_created_hlc := op_created_hlc op; op_signature := signature |}.

Definition with_payload (op : SyncOperationV1) (nonce ciphertext ciphertext_hash : bytes)
    : SyncOperationV1 := {|
  op_schema_version := op_schema_version op; op_operation_id := op_operation_id op;
  op_account_id := op_account_id op; op_workspace_id := op_workspace_id op;
  op_project_id := op_project_id op; op_record_id := op_record_id op;
  op_record_kind := op_record_kind op; op_mutation_kind := op_mutation_kind op;
  op_device_id := op_device_id op; op_device_sequence := op_device_sequence op;
  op_causal_frontier := op_causal_frontier op; op_control_epoch := op_control_epoch op;
  op_key_epoch := op_key_epoch op; op_previous_device_hash := op_previous_device_hash op;
  op_nonce := nonce; op_ciphertext := ciphertext;
  op_ciphertext_hash := ciphertext_hash; op_blob_refs := op_blob_refs op;
  op_created_hlc := op_created_hlc op; op_signature := op_signature op |}.

Definition with_checkpoint_signature (cp : CheckpointV1) (signature : Ed25519SignatureBytes)
    : CheckpointV1 := {|
  cp_schema_version := cp_schema_version cp; cp_account_id := cp_account_id cp;
  cp_workspace_id := cp_workspace_id cp;
  cp_previous_checkpoint_hash := cp_previous_checkpoint_hash cp;
  cp_causal_frontier := cp_causal_frontier cp; cp_state_hash := cp_state_hash cp;
  cp_key_epoch := cp_key_epoch cp; cp_creator_device := cp_creator_device cp;
  cp_created_hlc := cp_created_hlc cp; cp_signature := signature |}.

(** *** What the Rust types of the fields guarantee *)

Section wf.
Context `{UuidCrate}.

Definition wf_device_sequence (d : DeviceSequence) : bool :=
  wf_id (ds_device_id d) && (ds_sequence d <=? u64_max).

Definition wf_blob (b : BlobRef) : bool :=
  wf_fixed 32 (blob_digest b) && (blob_ciphertext_bytes b <=? u64_max)
  && wf_str (blob_storage_id b).

Definition wf_operation (op : SyncOperationV1) : bool :=
  (op_schema_version op <=? u16_max)
  && wf_id (op_operation_id op) && wf_id (op_account_id op) && wf_id (op_workspace_id op)
  && match op_project_id op with Some p => wf_id p | None => true end
  && wf_id (op_record_id op) && wf_id (op_device_id op)
  && (op_device_sequence op <=? u64_max)
  && forallb wf_device_sequence (op_causal_frontier op)
  && (op_control_epoch op <=? u32_max) && (op_key_epoch op <=? u32_max)
  && wf_fixed 32 (op_previous_device_hash op) && wf_fixed 24 (op_nonce op)
  && (len (op_ciphertext op) <=? MAX_CIPHERTEXT_BYTES)
  && wf_fixed 32 (op_ciphertext_hash op)
  && forallb wf_blob (op_blob_refs op)
  && wf_hlc (op_created_hlc op) && wf_fixed 64 (op_signature op).

Definition wf_checkpoint (cp : CheckpointV1) : bool :=
  (cp_schema_version cp <=? u16_max)
  && wf_id (cp_account_id cp) && wf_id (cp_workspace_id cp)
  && wf_fixed 32 (cp_previous_checkpoint_hash cp)
  && forallb wf_device_sequence (cp_causal_frontier cp)
  && wf_fixed 32 (cp_state_hash cp) && (cp_key_epoch cp <=? u32_max)
  && wf_id (cp_creator_device cp) && wf_hlc (cp_created_hlc cp)
  && wf_fixed 64 (cp_signature cp).

End wf.

(** Turns a conjunction of booleans, and the comparisons in it, into facts. *)
Ltac wf_inv :=
  repeat match goal with
  | H : _ && _ = true |- _ => apply andb_true_iff in H as [? ?]
  | H : _ && _ = false |- _ => apply andb_false_iff in H
  | H : _ || _ = false |- _ => apply orb_false_iff in H as [? ?]
  | H : negb _ = true |- _ => apply negb_true_iff in H
  | H : negb _ = false |- _ => apply negb_false_iff in H
  | H : (_ <=? _)%N = true |- _ => apply N.leb_le in H
  | H : (_ <? _)%N = false |- _ => apply N.ltb_ge in H
  | H : (_ <? _)%N = true |- _ => apply N.ltb_lt in H
  | H : (_ =? _)%N = true |- _ => apply N.eqb_eq in H
  | H : (_ =? _)%N = false |- _ => apply N.eqb_neq in H
  | H : wf_fixed _ _ = true |- _ => apply N.eqb_eq in H
  | H : bool_decide _ = true |- _ => apply bool_decide_eq_true in H
  | H : bool_decide _ = false |- _ => apply bool_decide_eq_false in H
  end.

(** ** Facts *)

Lemma id_from_str_Ok `{UuidCrateLaws} s i :
  id_from_str s = Ok i <-> wf_id i = true /\ s = hyphenated_format i.
Proof.
  unfold id_from_str, id_new, wf_id. split.
  - intros Hi. res_inv. wf_inv. subst.
    match goal with E : uuid_parse_str _ = Some _ |- _ => apply parse_length in E end.
    rewrite hyphenated_text by done. split; [|done].
    repeat match goal with |- _ && _ = true => apply andb_true_iff; split end; try done.
    apply N.eqb_eq. unfold len. lia.
  - intros [Hw ->]. wf_inv. assert (length i = 16%nat) by (unfold len in *; lia).
    rewrite parse_hyphenated by done. cbn [ok_or rbind].
    rewrite hyphenated_text, bool_decide_eq_true_2 by done. cbn [negb].
    by match goal with E1 : version_is_sort_rand i = true, E2 : variant_is_rfc4122 i = true |- _ =>
      rewrite E1, E2 end.
Qed.

Lemma frontier_out_of_order_spec frontier :
  frontier_out_of_order frontier = false <-> ascending ds_device_id frontier.
Proof. apply windows2_ascending. Qed.

Lemma SyncOperationV1_validate_ok op :
  SyncOperationV1_validate op = Ok tt <->
  op_schema_version op = SYNC_SCHEMA_VERSION
  /\ len (op_causal_frontier op) <= MAX_BATCH_OPERATIONS
  /\ len (op_blob_refs op) <= MAX_BATCH_OPERATIONS
  /\ ascending ds_device_id (op_causal_frontier op)
  /\ Forall (fun b => validate_blob b = Ok tt) (op_blob_refs op).
Proof.
  unfold SyncOperationV1_validate.
  rewrite <- frontier_out_of_order_spec, <- try_for_each_Ok.
  destruct (N.eqb_spec (op_schema_version op) SYNC_SCHEMA_VERSION),
    (N.ltb_spec MAX_BATCH_OPERATIONS (len (op_causal_frontier op))),
    (N.ltb_spec MAX_BATCH_OPERATIONS (len (op_blob_refs op))),
    (frontier_out_of_order (op_causal_frontier op)); simpl; naive_solver lia.
Qed.

Lemma CheckpointV1_validate_ok cp :
  CheckpointV1_validate cp = Ok tt <->
  cp_schema_version cp = CHECKPOINT_SCHEMA_VERSION
  /\ len (cp_causal_frontier cp) <= MAX_BATCH_OPERATIONS
  /\ ascending ds_device_id (cp_causal_frontier cp).
Proof.
  unfold CheckpointV1_validate. rewrite <- frontier_out_of_order_spec.
  destruct (N.eqb_spec (cp_schema_version cp) CHECKPOINT_SCHEMA_VERSION),
    (N.ltb_spec MAX_BATCH_OPERATIONS (len (cp_causal_frontier cp))),
    (frontier_out_of_order (cp_causal_frontier cp)); simpl; naive_solver lia.
Qed.

Lemma hlc_lt a b :
  physical_ms a < physical_ms b
  \/ (physical_ms a = physical_ms b /\ logical a < logical b) ->
  cmp a b = Lt.
Proof.
  unfold cmp at 1, HybridLogicalClock_ord, cmp at 1, prod_ord, pair_cmp; simpl.
  unfold cmp at 1, N_ord. intros [Hlt|[-> Hlt]].
  - by rewrite (proj2 (N.compare_lt_iff _ _)).
  - rewrite N.compare_refl. unfold pair_cmp; simpl.
    unfold cmp at 1, N_ord. by rewrite (proj2 (N.compare_lt_iff _ _)).
Qed.

(** The counter that a successor of [self] at physical time [p] must exceed. *)
Definition exhausted (p : N) (h : HybridLogicalClock) : Prop :=
  p = physical_ms h /\ u32_max <= logical h.

(** The hybrid logical clock: observing a remote clock either gives a
    clock of the same node that is strictly later than both clocks in the
    derived order, is not behind the wall clock and whose counter fits in 32
    bits, or fails because a counter at the new physical time has reached its
    maximum. *)
Theorem observe_strictly_advances (self remote : HybridLogicalClock) (now_ms : N) :
  match observe self remote now_ms with
  | Ok h =>
      node h = node self /\ cmp self h = Lt /\ cmp remote h = Lt
      /\ now_ms <= physical_ms h /\ logical h <= u32_max
  | Err ClockExhausted =>
      let p := N.max (N.max now_ms (physical_ms self)) (physical_ms remote) in
      exhausted p self \/ exhausted p remote
  end.
Proof.
  unfold observe, exhausted, checked_add.
  set (p := N.max (N.max now_ms (physical_ms self)) (physical_ms remote)).
  assert (now_ms <= p /\ physical_ms self <= p /\ physical_ms remote <= p) by lia.
  clearbody p.
  destruct (N.eqb_spec p (physical_ms self)) as [E1|E1],
    (N.eqb_spec p (physical_ms remote)) as [E2|E2]; simpl;
    repeat match goal with
    | |- context [?a <=? ?b] => destruct (N.leb_spec a b); simpl
    end;
    try (split_and!; try reflexivity; try apply hlc_lt; simpl; unfold u32_max in *; lia);
    unfold u32_max in *; lia.
Qed.

(** [tick] behaves like [observe] with no remote clock: strictly later,
    never behind the wall clock, exhausted only when the counter is. *)
Theorem tick_strictly_advances (self : HybridLogicalClock) (now_ms : N) :
  match tick self now_ms with
  | Ok h =>
      node h = node self /\ cmp self h = Lt /\ now_ms <= physical_ms h
      /\ (physical_ms self < now_ms -> logical h = 0)
  | Err ClockExhausted => now_ms <= physical_ms self /\ u32_max <= logical self
  end.
Proof.
  unfold tick, checked_add. set (p := N.max (physical_ms self) now_ms).
  assert (p = N.max (physical_ms self) now_ms) by done. clearbody p.
  destruct (N.eqb_spec p (physical_ms self)); simpl;
    [destruct (N.leb_spec (logical self + 1) u32_max); simpl|];
    try (split_and!; try reflexivity; try apply hlc_lt; simpl; intros; lia); unfold u32_max in *; lia.
Qed.

(** Version negotiation picks the highest minor version both ranges
    contain, and succeeds exactly when both ranges are for the supported major
    version and overlap. *)
Theorem negotiate_version_highest_common (local peer : ProtocolVersionRange) :
  let common v :=
    minor (range_min local) <= v <= minor (range_max local)
    /\ minor (range_min peer) <= v <= minor (range_max peer) in
  let majors_agree :=
    major (range_min local) = PROTOCOL_MAJOR /\ major (range_max local) = PROTOCOL_MAJOR
    /\ major (range_min peer) = PROTOCOL_MAJOR /\ major (range_max peer) = PROTOCOL_MAJOR in
  match negotiate_version local peer with
  | Ok v =>
      majors_agree /\ major v = PROTOCOL_MAJOR /\ common (minor v)
      /\ (forall w, common w -> w <= minor v)
  | Err e =>
      e = ProtocolVersionUnsupported /\ (majors_agree -> forall w, ~ common w)
  end.
Proof.
  cbv zeta. unfold negotiate_version.
  destruct (N.eqb_spec (major (range_min local)) PROTOCOL_MAJOR),
    (N.eqb_spec (major (range_min local)) (major (range_max local))),
    (N.eqb_spec (major (range_min peer)) (major (range_max peer))),
    (N.eqb_spec (major (range_min local)) (major (range_min peer))); simpl;
    try (split; [done|]; intros; lia).
  match goal with |- context [?a <=? ?b] => destruct (N.leb_spec a b) end; simpl.
  - split_and!; lia.
  - split; [done|]. intros; lia.
Qed.
