(* ===== verification/Minicbor.v ===== *)
(** * The CBOR library boundary

    The repository encodes with the [minicbor] crate, which is not part of it.
    [Minicbor] is the part of its interface the source calls: the encoder
    methods as the bytes they append and the decoder methods as functions from
    the remaining input to a value and the rest ([None] is a decode error; the
    length of a map or array is [None] when it is indefinite).  Encoding into a
    [Vec<u8>] cannot fail.  [MinicborLaws] is what the source relies on: reading
    back what was written gives the value and leaves the rest of the input.

    [Rfc8949] instantiates the interface with the encoding of RFC 8949 (shortest
    length prefixes) and proves the laws, so that they can be assumed together
    and the codecs built on the interface can be run. *)

From S2P Require Import Prelude Ordering Text.

#[local] Open Scope N_scope.

Class Minicbor := {
  enc_map : N -> bytes;
  enc_array : N -> bytes;
  enc_uint : N -> bytes;
  enc_bytes : bytes -> bytes;
  enc_str : rstr -> bytes;
  enc_bool : bool -> bytes;
  enc_null : bytes;
  dec_map : bytes -> option (option N * bytes);
  dec_array : bytes -> option (option N * bytes);
  dec_u8 : bytes -> option (N * bytes);
  dec_u16 : bytes -> option (N * bytes);
  dec_u32 : bytes -> option (N * bytes);
  dec_u64 : bytes -> option (N * bytes);
  dec_bytes : bytes -> option (bytes * bytes);
  dec_str : bytes -> option (rstr * bytes);
  dec_bool : bytes -> option (bool * bytes);
  dec_null : bytes -> option (unit * bytes);
  dec_datatype_is_null : bytes -> option bool;
}.

Class MinicborLaws `{Minicbor} : Prop := {
  dec_enc_map n r : n <= u64_max -> dec_map (enc_map n ++ r) = Some (Some n, r);
  dec_enc_array n r : n <= u64_max -> dec_array (enc_array n ++ r) = Some (Some n, r);
  dec_enc_u8 n r : n <= u8_max -> dec_u8 (enc_uint n ++ r) = Some (n, r);
  dec_enc_u16 n r : n <= u16_max -> dec_u16 (enc_uint n ++ r) = Some (n, r);
  dec_enc_u32 n r : n <= u32_max -> dec_u32 (enc_uint n ++ r) = Some (n, r);
  dec_enc_u64 n r : n <= u64_max -> dec_u64 (enc_uint n ++ r) = Some (n, r);
  dec_enc_bytes b r : len b <= u64_max -> dec_bytes (enc_bytes b ++ r) = Some (b, r);
  dec_enc_str s r : wf_str s = true -> str_len s <= u64_max ->
    dec_str (enc_str s ++ r) = Some (s, r);
  dec_enc_bool b r : dec_bool (enc_bool b ++ r) = Some (b, r);
  dec_enc_null r : dec_null (enc_null ++ r) = Some (tt, r);
  datatype_null r : dec_datatype_is_null (enc_null ++ r) = Some true;
  datatype_bytes b r : len b <= u64_max ->
    dec_datatype_is_null (enc_bytes b ++ r) = Some false;
  dec_u8_range i n r : dec_u8 i = Some (n, r) -> n <= u8_max;
  dec_u16_range i n r : dec_u16 i = Some (n, r) -> n <= u16_max;
  dec_u32_range i n r : dec_u32 i = Some (n, r) -> n <= u32_max;
  dec_u64_range i n r : dec_u64 i = Some (n, r) -> n <= u64_max;
  dec_str_wf i s r : dec_str i = Some (s, r) -> wf_str s = true;
}.

Module Rfc8949.

(** The initial byte and argument of a data item of the given major type. *)
Definition head (major n : N) : bytes :=
  if n <? 24 then [byte_of (major * 32 + n)]
  else if n <? 256 then byte_of (major * 32 + 24) :: to_be 1 n
  else if n <? 65536 then byte_of (major * 32 + 25) :: to_be 2 n
  else if n <? 4294967296 then byte_of (major * 32 + 26) :: to_be 4 n
  else byte_of (major * 32 + 27) :: to_be 8 n.

Definition split_at (k : nat) (l : bytes) : option (bytes * bytes) :=
  if (k <=? length l)%nat then Some (take k l, drop k l) else None.

Definition argument (k : nat) (l : bytes) : option (option N * bytes) :=
  '(a, r) ← split_at k l; Some (Some (of_be a), r).

(** Major type, argument ([None] for an indefinite length) and rest. *)
Definition read_head (i : bytes) : option (N * option N * bytes) :=
  match i with
  | [] => None
  | b :: l =>
    let info := Byte.to_N b mod 32 in
    '(a, r) ← (if info <? 24 then Some (Some info, l)
               else if info =? 24 then argument 1 l
               else if info =? 25 then argument 2 l
               else if info =? 26 then argument 4 l
               else if info =? 27 then argument 8 l
               else if info =? 31 then Some (None, l)
               else None);
    Some (Byte.to_N b / 32, a, r)
  end.

Definition read_len (major : N) (i : bytes) : option (option N * bytes) :=
  '(m, a, r) ← read_head i;
  if m =? major then Some (a, r) else None.

Definition read_uint (max : N) (i : bytes) : option (N * bytes) :=
  '(a, r) ← read_len 0 i;
  n ← a;
  if n <=? max then Some (n, r) else None.

Definition read_bytes (major : N) (i : bytes) : option (bytes * bytes) :=
  '(a, r) ← read_len major i;
  n ← a;
  if n <=? len r then split_at (N.to_nat n) r else None.

Definition read_str (i : bytes) : option (rstr * bytes) :=
  '(b, r) ← read_bytes 3 i;
  s ← from_utf8 b;
  if wf_str s then Some (s, r) else None.

#[export] Instance codec : Minicbor := {
  enc_map n := head 5 n;
  enc_array n := head 4 n;
  enc_uint n := head 0 n;
  enc_bytes b := head 2 (len b) ++ b;
  enc_str s := head 3 (str_len s) ++ as_bytes s;
  enc_bool b := [if b then Byte.xf5 else Byte.xf4];
  enc_null := [Byte.xf6];
  dec_map := read_len 5;
  dec_array := read_len 4;
  dec_u8 := read_uint u8_max;
  dec_u16 := read_uint u16_max;
  dec_u32 := read_uint u32_max;
  dec_u64 := read_uint u64_max;
  dec_bytes := read_bytes 2;
  dec_str := read_str;
  dec_bool i := match i with
    | Byte.xf5 :: r => Some (true, r) | Byte.xf4 :: r => Some (false, r) | _ => None end;
  dec_null i := match i with Byte.xf6 :: r => Some (tt, r) | _ => None end;
  dec_datatype_is_null i := match i with
    | [] => None | Byte.xf6 :: _ => Some true | _ :: _ => Some false end;
}.

Lemma split_at_app a r : split_at (length a) (a ++ r) = Some (a, r).
Proof.
  unfold split_at. rewrite length_app.
  destruct (Nat.leb_spec (length a) (length a + length r)); [|lia].
  by rewrite take_app_length, drop_app_length.
Qed.

Lemma argument_to_be k n r :
  n < 256 ^ N.of_nat k -> argument k (to_be k n ++ r) = Some (Some n, r).
Proof.
  intros Hn. unfold argument.
  rewrite <- (length_to_be k n) at 1. rewrite split_at_app. simpl.
  by rewrite of_to_be.
Qed.

#[local] Ltac Zify.zify_post_hook ::= Z.to_euclidean_division_equations.

Lemma read_head_head major n r :
  major < 8 -> n <= u64_max -> read_head (head major n ++ r) = Some (major, Some n, r).
Proof.
  intros Hm Hn. unfold head, u64_max in *.
  destruct (N.ltb_spec n 24); [|destruct (N.ltb_spec n 256);
    [|destruct (N.ltb_spec n 65536); [|destruct (N.ltb_spec n 4294967296)]]];
    cbn [app read_head]; rewrite lead_byte_of by lia;
    match goal with
    | |- context [(major * 32 + ?k) mod 32] =>
        replace ((major * 32 + k) mod 32) with k by lia;
        replace ((major * 32 + k) / 32) with major by lia
    end.
  - rewrite (proj2 (N.ltb_lt _ _)) by lia. done.
  - cbn [N.ltb N.eqb N.compare Pos.compare Pos.compare_cont Pos.eqb].
    by rewrite argument_to_be by (simpl; lia).
  - cbn [N.ltb N.eqb N.compare Pos.compare Pos.compare_cont Pos.eqb].
    by rewrite argument_to_be by (simpl; lia).
  - cbn [N.ltb N.eqb N.compare Pos.compare Pos.compare_cont Pos.eqb].
    by rewrite argument_to_be by (simpl; lia).
  - cbn [N.ltb N.eqb N.compare Pos.compare Pos.compare_cont Pos.eqb].
    by rewrite argument_to_be by (simpl; lia).
Qed.

Lemma read_len_head major n r :
  major < 8 -> n <= u64_max -> read_len major (head major n ++ r) = Some (Some n, r).
Proof. intros. unfold read_len. rewrite read_head_head by done. simpl. by rewrite N.eqb_refl. Qed.

Lemma read_uint_head max n r :
  n <= max -> n <= u64_max -> read_uint max (head 0 n ++ r) = Some (n, r).
Proof.
  intros. unfold read_uint. rewrite read_len_head by done. simpl.
  by rewrite (proj2 (N.leb_le _ _)).
Qed.

Lemma read_bytes_head major b r :
  major < 8 -> len b <= u64_max ->
  read_bytes major (head major (len b) ++ b ++ r) = Some (b, r).
Proof.
  intros. unfold read_bytes. rewrite read_len_head by done. simpl.
  rewrite (proj2 (N.leb_le _ _)) by (rewrite len_app; lia).
  unfold len. rewrite Nat2N.id. apply split_at_app.
Qed.

Lemma read_uint_range max i n r : read_uint max i = Some (n, r) -> n <= max.
Proof.
  unfold read_uint. destruct (read_len 0 i) as [[[m|] r']|]; simpl; try done.
  destruct (N.leb_spec m max); naive_solver.
Qed.

Lemma lead_not_null k l :
  k < 32 -> dec_datatype_is_null (byte_of (2 * 32 + k) :: l) = Some false.
Proof.
  intros Hk. pose proof (to_N_byte_of (2 * 32 + k)) as E.
  rewrite N.mod_small in E by lia.
  destruct (byte_of _); try done. change (Byte.to_N Byte.xf6) with 246 in E. lia.
Qed.

Lemma head_not_null n r : dec_datatype_is_null (head 2 n ++ r) = Some false.
Proof.
  unfold head. destruct (N.ltb_spec n 24); [|repeat case_match];
    cbn [app]; apply lead_not_null; lia.
Qed.

Lemma codec_laws : MinicborLaws.
Proof.
  split; intros; cbn [enc_map enc_array enc_uint enc_bytes enc_str enc_bool enc_null
    dec_map dec_array dec_u8 dec_u16 dec_u32 dec_u64 dec_bytes dec_str dec_bool dec_null
    codec] in *; rewrite <- ?app_assoc.
  - by apply read_len_head.
  - by apply read_len_head.
  - apply read_uint_head; unfold u8_max, u64_max in *; lia.
  - apply read_uint_head; unfold u16_max, u64_max in *; lia.
  - apply read_uint_head; unfold u32_max, u64_max in *; lia.
  - by apply read_uint_head.
  - by apply read_bytes_head.
  - unfold read_str, str_len in *. rewrite read_bytes_head by done. simpl.
    rewrite from_utf8_as_bytes by done. simpl. by rewrite H.
  - by destruct b.
  - done.
  - done.
  - apply head_not_null.
  - by eapply read_uint_range.
  - by eapply read_uint_range.
  - by eapply read_uint_range.
  - by eapply read_uint_range.
  - unfold read_str in H.
    destruct (read_bytes 3 i) as [[b r']|]; simpl in H; [|done].
    destruct (from_utf8 b) as [s'|]; simpl in H; [|done].
    destruct (wf_str s') eqn:E; naive_solver.
Qed.

End Rfc8949.
