(* ===== verification/CanonicalCbor.v ===== *)
(** * Canonical CBOR of operations and checkpoints (protocol/canonical_cbor.rs)

    The signed envelope of a sync operation, its signing preimage and its
    associated data, and the signed checkpoint, as byte strings: the encoders
    and decoders of the source over the [Minicbor] interface.  A decoder is a
    function of the remaining input.

    The theorems: the decoder accepts exactly the encodings of valid envelopes
    (so an envelope has one representation), and the signing preimage and the
    associated data determine every field they are meant to bind. *)

From S2P Require Import Prelude Ordering Text Protocol Minicbor.

#[local] Open Scope N_scope.

Definition bad (message : string) : ProtocolError := InvalidCbor message.

Definition record_kind (value : RecordKind) : N :=
  match value with
  | KMemory => 0 | KMemoryCandidate => 1 | KTask => 2 | KSecretRef => 3
  | KInstruction => 4 | KComponent => 5 | KProject => 6
  end.

Definition mutation_kind (value : MutationKind) : N :=
  match value with Upsert => 0 | Tombstone => 1 end.

Definition decode_record_kind (value : N) : result ProtocolError RecordKind :=
  match value with
  | 0 => Ok KMemory | 1 => Ok KMemoryCandidate | 2 => Ok KTask | 3 => Ok KSecretRef
  | 4 => Ok KInstruction | 5 => Ok KComponent | 6 => Ok KProject
  | _ => Err (bad "record kind")
  end.

Definition decode_mutation_kind (value : N) : result ProtocolError MutationKind :=
  match value with
  | 0 => Ok Upsert | 1 => Ok Tombstone | _ => Err (bad "mutation kind")
  end.

Section codec.
Context `{UuidCrate, Minicbor}.

(** ** Encoding *)

Definition key (value : N) : bytes := enc_uint value.

Definition encode_frontier_entry (entry : DeviceSequence) : bytes :=
  enc_array 2 ++ enc_bytes (ds_device_id entry) ++ enc_uint (ds_sequence entry).

Definition encode_frontier (frontier : list DeviceSequence) : bytes :=
  enc_array (len frontier) ++ (frontier ≫= encode_frontier_entry).

Definition encode_blob (blob : BlobRef) : bytes :=
  enc_map 3
  ++ key 0 ++ enc_bytes (blob_digest blob)
  ++ key 1 ++ enc_uint (blob_ciphertext_bytes blob)
  ++ key 2 ++ enc_str (blob_storage_id blob).

Definition encode_blobs (blobs : list BlobRef) : bytes :=
  enc_array (len blobs) ++ (blobs ≫= encode_blob).

Definition encode_hlc (hlc : HybridLogicalClock) : bytes :=
  enc_map 3
  ++ key 0 ++ enc_uint (physical_ms hlc)
  ++ key 1 ++ enc_uint (logical hlc)
  ++ key 2 ++ enc_bytes (node hlc).

Definition encode_project_id (project_id : option ProjectId) : bytes :=
  match project_id with
  | Some id => enc_bytes id
  | None => enc_null
  end.

Definition encode_sync_operation_aad_v1 (op : SyncOperationV1) : bytes :=
  enc_map 16
  ++ key 0 ++ enc_uint (op_schema_version op)
  ++ key 1 ++ enc_bytes (op_operation_id op)
  ++ key 2 ++ enc_bytes (op_account_id op)
  ++ key 3 ++ enc_bytes (op_workspace_id op)
  ++ key 4 ++ encode_project_id (op_project_id op)
  ++ key 5 ++ enc_bytes (op_record_id op)
  ++ key 6 ++ enc_uint (record_kind (op_record_kind op))
  ++ key 7 ++ enc_uint (mutation_kind (op_mutation_kind op))
  ++ key 8 ++ enc_bytes (op_device_id op)
  ++ key 9 ++ enc_uint (op_device_sequence op)
  ++ key 10 ++ encode_frontier (op_causal_frontier op)
  ++ key 11 ++ enc_uint (op_control_epoch op)
  ++ key 12 ++ enc_uint (op_key_epoch op)
  ++ key 13 ++ enc_bytes (op_previous_device_hash op)
  ++ key 17 ++ encode_blobs (op_blob_refs op)
  ++ key 18 ++ encode_hlc (op_created_hlc op).

(** The entries 0 to 18, which the signing preimage and the signed envelope
    share. *)
Definition operation_entries (op : SyncOperationV1) : bytes :=
  key 0 ++ enc_uint (op_schema_version op)
  ++ key 1 ++ enc_bytes (op_operation_id op)
  ++ key 2 ++ enc_bytes (op_account_id op)
  ++ key 3 ++ enc_bytes (op_workspace_id op)
  ++ key 4 ++ encode_project_id (op_project_id op)
  ++ key 5 ++ enc_bytes (op_record_id op)
  ++ key 6 ++ enc_uint (record_kind (op_record_kind op))
  ++ key 7 ++ enc_uint (mutation_kind (op_mutation_kind op))
  ++ key 8 ++ enc_bytes (op_device_id op)
  ++ key 9 ++ enc_uint (op_device_sequence op)
  ++ key 10 ++ encode_frontier (op_causal_frontier op)
  ++ key 11 ++ enc_uint (op_control_epoch op)
  ++ key 12 ++ enc_uint (op_key_epoch op)
  ++ key 13 ++ enc_bytes (op_previous_device_hash op)
  ++ key 14 ++ enc_bytes (op_nonce op)
  ++ key 15 ++ enc_bytes (op_ciphertext op)
  ++ key 16 ++ enc_bytes (op_ciphertext_hash op)
  ++ key 17 ++ encode_blobs (op_blob_refs op)
  ++ key 18 ++ encode_hlc (op_created_hlc op).

Definition encode_operation (op : SyncOperationV1) (signed : bool)
    : result ProtocolError bytes :=
  let output :=
    enc_map (if signed then 20 else 19) ++ operation_entries op
    ++ (if signed then key 19 ++ enc_bytes (op_signature op) else []) in
  if MAX_CBOR_OPERATION_BYTES <? len output
  then Err (bad "operation too large") else Ok output.

Definition encode_sync_operation_signing_preimage_v1 (op : SyncOperationV1)
    : result ProtocolError bytes :=
  let? _ := map_err (fun _ => bad "invalid operation") (SyncOperationV1_validate op) in
  encode_operation op false.

Definition encode_sync_operation_v1 (op : SyncOperationV1) : result ProtocolError bytes :=
  let? _ := map_err (fun _ => bad "invalid operation") (SyncOperationV1_validate op) in
  encode_operation op true.

Definition checkpoint_entries (cp : CheckpointV1) : bytes :=
  key 0 ++ enc_uint (cp_schema_version cp)
  ++ key 1 ++ enc_bytes (cp_account_id cp)
  ++ key 2 ++ enc_bytes (cp_workspace_id cp)
  ++ key 3 ++ enc_bytes (cp_previous_checkpoint_hash cp)
  ++ key 4 ++ encode_frontier (cp_causal_frontier cp)
  ++ key 5 ++ enc_bytes (cp_state_hash cp)
  ++ key 6 ++ enc_uint (cp_key_epoch cp)
  ++ key 7 ++ enc_bytes (cp_creator_device cp)
  ++ key 8 ++ encode_hlc (cp_created_hlc cp).

Definition encode_checkpoint (cp : CheckpointV1) (signed : bool)
    : result ProtocolError bytes :=
  let? _ := map_err (fun _ => bad "invalid checkpoint") (CheckpointV1_validate cp) in
  let output :=
    enc_map (if signed then 10 else 9) ++ checkpoint_entries cp
    ++ (if signed then key 9 ++ enc_bytes (cp_signature cp) else []) in
  if MAX_CBOR_OPERATION_BYTES <? len output
  then Err (bad "checkpoint too large") else Ok output.

Definition encode_checkpoint_signing_preimage_v1 (cp : CheckpointV1) :=
  encode_checkpoint cp false.
Definition encode_checkpoint_v1 (cp : CheckpointV1) := encode_checkpoint cp true.

(** ** Decoding *)

(** A decoder method of the library with its error mapped by [dec]. *)
Definition dec {A} (f : bytes -> option (A * bytes)) (d : bytes)
    : result ProtocolError (A * bytes) :=
  ok_or (f d) (bad "decode").

Definition expect_key (value : N) (d : bytes) : result ProtocolError bytes :=
  let? (k, d) := dec dec_u8 d in
  if k =? value then Ok d else Err (bad "map key").

Definition require_map (size : N) (d : bytes) : result ProtocolError bytes :=
  let? (n, d) := dec dec_map d in
  if bool_decide (n = Some size) then Ok d else Err (bad "map size").

Definition read_fixed (size : N) (d : bytes) : result ProtocolError (bytes * bytes) :=
  let? (b, d) := dec dec_bytes d in
  if len b =? size then Ok (b, d) else Err (bad "byte length").

Definition read_id (message : string) (d : bytes) : result ProtocolError (Uuid * bytes) :=
  let? (b, d) := dec dec_bytes d in
  let? i := map_err (fun _ => bad message) (uuid_v7_from_bytes b) in
  Ok (i, d).

(** [for _ in 0..n { output.push(item(decoder)?) }]. *)
Fixpoint decode_items {A} (item : bytes -> result ProtocolError (A * bytes))
    (n : nat) (d : bytes) : result ProtocolError (list A * bytes) :=
  match n with
  | O => Ok ([], d)
  | S n' =>
    let? (x, d) := item d in
    let? (xs, d) := decode_items item n' d in
    Ok (x :: xs, d)
  end.

Definition decode_frontier_entry (d : bytes) : result ProtocolError (DeviceSequence * bytes) :=
  let? (n, d) := dec dec_array d in
  if negb (bool_decide (n = Some 2)) then Err (bad "frontier entry") else
  let? (device_id, d) := read_id "frontier device" d in
  let? (sequence, d) := dec dec_u64 d in
  Ok ({| ds_device_id := device_id; ds_sequence := sequence |}, d).

Definition decode_frontier (d : bytes) : result ProtocolError (list DeviceSequence * bytes) :=
  let? (n, d) := dec dec_array d in
  let? n := ok_or n (bad "indefinite array") in
  if MAX_BATCH_OPERATIONS <? n then Err (bad "frontier too large") else
  decode_items decode_frontier_entry (N.to_nat n) d.

Definition decode_blob (d : bytes) : result ProtocolError (BlobRef * bytes) :=
  let? d := require_map 3 d in
  let? d := expect_key 0 d in
  let? (digest, d) := read_fixed 32 d in
  let? d := expect_key 1 d in
  let? (ciphertext_bytes, d) := dec dec_u64 d in
  let? d := expect_key 2 d in
  let? (storage, d) := dec dec_str d in
  if MAX_TITLE_BYTES <? str_len storage then Err (bad "blob storage id too large") else
  Ok ({| blob_digest := digest; blob_ciphertext_bytes := ciphertext_bytes;
         blob_storage_id := storage |}, d).

Definition decode_blobs (d : bytes) : result ProtocolError (list BlobRef * bytes) :=
  let? (n, d) := dec dec_array d in
  let? n := ok_or n (bad "indefinite array") in
  if MAX_BATCH_OPERATIONS <? n then Err (bad "blob list too large") else
  decode_items decode_blob (N.to_nat n) d.

Definition decode_hlc (d : bytes) : result ProtocolError (HybridLogicalClock * bytes) :=
  let? d := require_map 3 d in
  let? d := expect_key 0 d in
  let? (physical, d) := dec dec_u64 d in
  let? d := expect_key 1 d in
  let? (log, d) := dec dec_u32 d in
  let? d := expect_key 2 d in
  let? (n, d) := read_id "HLC node" d in
  Ok ({| physical_ms := physical; logical := log; node := n |}, d).

Definition decode_project_id (d : bytes) : result ProtocolError (option ProjectId * bytes) :=
  let? is_null := ok_or (dec_datatype_is_null d) (bad "decode") in
  if is_null : bool then let? (_, d) := dec dec_null d in Ok (None, d)
  else let? (p, d) := read_id "project id" d in Ok (Some p, d).

(** Entries 0 to 19, up to the trailing-bytes check. *)
Definition decode_operation_entries (d : bytes) : result ProtocolError (SyncOperationV1 * bytes) :=
  let? d := require_map 20 d in
  let? d := expect_key 0 d in
  let? (schema_version, d) := dec dec_u16 d in
  if negb (schema_version =? SYNC_SCHEMA_VERSION) then Err (bad "unsupported schema") else
  let? d := expect_key 1 d in let? (operation_id, d) := read_id "operation id" d in
  let? d := expect_key 2 d in let? (account_id, d) := read_id "account id" d in
  let? d := expect_key 3 d in let? (workspace_id, d) := read_id "workspace id" d in
  let? d := expect_key 4 d in let? (project_id, d) := decode_project_id d in
  let? d := expect_key 5 d in let? (record_id, d) := read_id "record id" d in
  let? d := expect_key 6 d in let? (rk, d) := dec dec_u8 d in
  let? rk := decode_record_kind rk in
  let? d := expect_key 7 d in let? (mk, d) := dec dec_u8 d in
  let? mk := decode_mutation_kind mk in
  let? d := expect_key 8 d in let? (device_id, d) := read_id "device id" d in
  let? d := expect_key 9 d in let? (device_sequence, d) := dec dec_u64 d in
  let? d := expect_key 10 d in let? (frontier, d) := decode_frontier d in
  let? d := expect_key 11 d in let? (control_epoch, d) := dec dec_u32 d in
  let? d := expect_key 12 d in let? (key_epoch, d) := dec dec_u32 d in
  let? d := expect_key 13 d in let? (previous, d) := read_fixed 32 d in
  let? d := expect_key 14 d in let? (nonce, d) := read_fixed 24 d in
  let? d := expect_key 15 d in let? (ciphertext, d) := dec dec_bytes d in
  if MAX_CIPHERTEXT_BYTES <? len ciphertext then Err (bad "ciphertext") else
  let? ciphertext := map_err (fun _ => bad "ciphertext") (BoundedCiphertext_new ciphertext) in
  let? d := expect_key 16 d in let? (ciphertext_hash, d) := read_fixed 32 d in
  let? d := expect_key 17 d in let? (blob_refs, d) := decode_blobs d in
  let? d := expect_key 18 d in let? (created_hlc, d) := decode_hlc d in
  let? d := expect_key 19 d in let? (signature, d) := read_fixed 64 d in
  Ok ({| op_schema_version := schema_version; op_operation_id := operation_id;
         op_account_id := account_id; op_workspace_id := workspace_id;
         op_project_id := project_id; op_record_id := record_id;
         op_record_kind := rk; op_mutation_kind := mk; op_device_id := device_id;
         op_device_sequence := device_sequence; op_causal_frontier := frontier;
         op_control_epoch := control_epoch; op_key_epoch := key_epoch;
         op_previous_device_hash := previous; op_nonce := nonce;
         op_ciphertext := ciphertext; op_ciphertext_hash := ciphertext_hash;
         op_blob_refs := blob_refs; op_created_hlc := created_hlc;
         op_signature := signature |}, d).

Definition decode_sync_operation_v1 (input : bytes) : result ProtocolError SyncOperationV1 :=
  if MAX_CBOR_OPERATION_BYTES <? len input then Err (bad "operation too large") else
  let? (operation, d) := decode_operation_entries input in
  if negb (bool_decide (d = [])) then Err (bad "trailing bytes") else
  let? _ := map_err (fun _ => bad "invalid operation") (SyncOperationV1_validate operation) in
  let? canonical := encode_sync_operation_v1 operation in
  if negb (bool_decide (canonical = input)) then Err (bad "noncanonical encoding") else
  Ok operation.

Definition decode_checkpoint_entries (d : bytes) : result ProtocolError (CheckpointV1 * bytes) :=
  let? (map_size, d) := dec dec_map d in
  let? d := expect_key 0 d in
  let? (schema_version, d) := dec dec_u16 d in
  if negb (schema_version =? CHECKPOINT_SCHEMA_VERSION)
  then Err CheckpointVersionUnsupported else
  if negb (bool_decide (map_size = Some 10)) then Err (bad "map size") else
  let? d := expect_key 1 d in let? (account_id, d) := read_id "account" d in
  let? d := expect_key 2 d in let? (workspace_id, d) := read_id "workspace" d in
  let? d := expect_key 3 d in let? (previous, d) := read_fixed 32 d in
  let? d := expect_key 4 d in let? (frontier, d) := decode_frontier d in
  let? d := expect_key 5 d in let? (state_hash, d) := read_fixed 32 d in
  let? d := expect_key 6 d in let? (key_epoch, d) := dec dec_u32 d in
  let? d := expect_key 7 d in let? (creator_device, d) := read_id "creator device" d in
  let? d := expect_key 8 d in let? (created_hlc, d) := decode_hlc d in
  let? d := expect_key 9 d in let? (signature, d) := read_fixed 64 d in
  Ok ({| cp_schema_version := schema_version; cp_account_id := account_id;
         cp_workspace_id := workspace_id; cp_previous_checkpoint_hash := previous;
         cp_causal_frontier := frontier; cp_state_hash := state_hash;
         cp_key_epoch := key_epoch; cp_creator_device := creator_device;
         cp_created_hlc := created_hlc; cp_signature := signature |}, d).

Definition decode_checkpoint_v1 (input : bytes) : result ProtocolError CheckpointV1 :=
  if MAX_CBOR_OPERATION_BYTES <? len input then Err (bad "checkpoint too large") else
  let? (checkpoint, d) := decode_checkpoint_entries input in
  if negb (bool_decide (d = [])) then Err (bad "trailing bytes") else
  let? _ := map_err (fun _ => bad "invalid checkpoint") (CheckpointV1_validate checkpoint) in
  let? canonical := encode_checkpoint_v1 checkpoint in
  if negb (bool_decide (canonical = input)) then Err (bad "noncanonical encoding") else
  Ok checkpoint.

End codec.

(** Bounds on machine integers and limits. *)
Ltac range := unfold u8_max, u16_max, u32_max, u64_max, MAX_BATCH_OPERATIONS,
  MAX_CIPHERTEXT_BYTES, MAX_TITLE_BYTES in *; lia.

(** ** Reading back what was written *)

Section roundtrip.
Context `{UuidCrate} `{MinicborLaws}.

Lemma dec_enc {A} (f : bytes -> option (A * bytes)) x e r :
  f (e ++ r) = Some (x, r) -> dec f (e ++ r) = Ok (x, r).
Proof. unfold dec. by intros ->. Qed.

Lemma expect_key_key v r : v <= u8_max -> expect_key v (key v ++ r) = Ok r.
Proof.
  intros. unfold expect_key, key. rewrite (dec_enc _ v) by by apply dec_enc_u8.
  simpl. by rewrite N.eqb_refl.
Qed.

Lemma require_map_enc n r : n <= u64_max -> require_map n (enc_map n ++ r) = Ok r.
Proof.
  intros. unfold require_map. rewrite (dec_enc _ (Some n)) by by apply dec_enc_map.
  simpl. by rewrite bool_decide_eq_true_2.
Qed.

Lemma read_fixed_enc n b r :
  n <= u64_max -> len b = n -> read_fixed n (enc_bytes b ++ r) = Ok (b, r).
Proof.
  intros Hn Hb. unfold read_fixed.
  rewrite (dec_enc _ b) by (apply dec_enc_bytes; range).
  simpl. by rewrite Hb, N.eqb_refl.
Qed.

Lemma read_id_enc m b r : wf_id b = true -> read_id m (enc_bytes b ++ r) = Ok (b, r).
Proof.
  intros Hb. pose proof (wf_id_len _ Hb). unfold read_id.
  rewrite (dec_enc _ b) by (apply dec_enc_bytes; range). simpl.
  by rewrite (proj2 (uuid_v7_from_bytes_Ok b b)).
Qed.

Lemma decode_items_enc {A} (item : bytes -> result ProtocolError (A * bytes))
    (enc : A -> bytes) (l : list A) r :
  (forall x r, x ∈ l -> item (enc x ++ r) = Ok (x, r)) ->
  decode_items item (length l) ((l ≫= enc) ++ r) = Ok (l, r).
Proof.
  revert r. induction l as [|x l IH]; intros r Hitem; [done|].
  rewrite bind_cons, <- app_assoc. cbn [length decode_items].
  rewrite Hitem by set_solver. cbn [rbind].
  rewrite IH by (intros; apply Hitem; set_solver). done.
Qed.

Lemma decode_frontier_entry_enc e r :
  wf_device_sequence e = true ->
  decode_frontier_entry (encode_frontier_entry e ++ r) = Ok (e, r).
Proof.
  unfold wf_device_sequence. intros ?; wf_inv.
  unfold decode_frontier_entry, encode_frontier_entry. rewrite <- !app_assoc.
  rewrite (dec_enc _ (Some 2)) by (apply dec_enc_array; range). cbn [rbind].
  rewrite bool_decide_eq_true_2 by done. cbn [negb].
  rewrite read_id_enc by done. cbn [rbind].
  rewrite (dec_enc _ (ds_sequence e)) by by apply dec_enc_u64. by destruct e.
Qed.

Lemma decode_frontier_enc l r :
  forallb wf_device_sequence l = true -> len l <= MAX_BATCH_OPERATIONS ->
  decode_frontier (encode_frontier l ++ r) = Ok (l, r).
Proof.
  intros Hwf Hlen. unfold decode_frontier, encode_frontier. rewrite <- !app_assoc.
  rewrite (dec_enc _ (Some (len l))) by (apply dec_enc_array; range). cbn [rbind ok_or].
  rewrite (proj2 (N.ltb_ge _ _)) by done. unfold len. rewrite Nat2N.id.
  apply decode_items_enc. intros x r' Hx. apply decode_frontier_entry_enc.
  rewrite forallb_forall in Hwf. apply Hwf. by apply list_elem_of_In.
Qed.

Lemma validate_blob_ok b :
  validate_blob b = Ok tt <->
  trim_is_empty (blob_storage_id b) = false /\ str_len (blob_storage_id b) <= MAX_TITLE_BYTES
  /\ 0 < blob_ciphertext_bytes b <= MAX_BLOB_BYTES.
Proof.
  unfold validate_blob. rewrite rbind_Ok. split.
  - intros ([] & Ht & Hb). apply required_text_ok in Ht as [? ?].
    destruct (N.eqb_spec (blob_ciphertext_bytes b) 0); [done|].
    destruct (N.ltb_spec MAX_BLOB_BYTES (blob_ciphertext_bytes b)); [done|].
    split_and!; [done|lia..].
  - intros (Ht & Hs & Hb1 & Hb2). exists tt. split; [by apply required_text_ok|].
    rewrite (proj2 (N.eqb_neq _ _)), (proj2 (N.ltb_ge _ _)) by lia. done.
Qed.

Lemma decode_blob_enc b r :
  wf_blob b = true -> str_len (blob_storage_id b) <= MAX_TITLE_BYTES ->
  decode_blob (encode_blob b ++ r) = Ok (b, r).
Proof.
  unfold wf_blob. intros ? Hs; wf_inv.
  unfold decode_blob, encode_blob. rewrite <- !app_assoc.
  rewrite require_map_enc by range. cbn [rbind].
  rewrite expect_key_key by range. cbn [rbind].
  rewrite read_fixed_enc by (done || range). cbn [rbind].
  rewrite expect_key_key by range. cbn [rbind].
  rewrite (dec_enc _ (blob_ciphertext_bytes b)) by by apply dec_enc_u64. cbn [rbind].
  rewrite expect_key_key by range. cbn [rbind].
  rewrite (dec_enc _ (blob_storage_id b)) by (apply dec_enc_str; [done|range]). cbn [rbind].
  rewrite (proj2 (N.ltb_ge _ _)) by done. by destruct b.
Qed.

Lemma decode_blobs_enc l r :
  forallb wf_blob l = true -> len l <= MAX_BATCH_OPERATIONS ->
  Forall (fun b => validate_blob b = Ok tt) l ->
  decode_blobs (encode_blobs l ++ r) = Ok (l, r).
Proof.
  intros Hwf Hlen Hval. unfold decode_blobs, encode_blobs. rewrite <- !app_assoc.
  rewrite (dec_enc _ (Some (len l))) by (apply dec_enc_array; range). cbn [rbind ok_or].
  rewrite (proj2 (N.ltb_ge _ _)) by done. unfold len. rewrite Nat2N.id.
  rewrite forallb_forall in Hwf. rewrite Forall_forall in Hval.
  apply decode_items_enc. intros x r' Hx. apply decode_blob_enc.
  - apply Hwf. by apply list_elem_of_In.
  - by apply validate_blob_ok, Hval.
Qed.

Lemma decode_hlc_enc h r : wf_hlc h = true -> decode_hlc (encode_hlc h ++ r) = Ok (h, r).
Proof.
  unfold wf_hlc. intros ?; wf_inv. unfold decode_hlc, encode_hlc. rewrite <- !app_assoc.
  rewrite require_map_enc by range. cbn [rbind].
  rewrite expect_key_key by range. cbn [rbind].
  rewrite (dec_enc _ (physical_ms h)) by by apply dec_enc_u64. cbn [rbind].
  rewrite expect_key_key by range. cbn [rbind].
  rewrite (dec_enc _ (logical h)) by by apply dec_enc_u32. cbn [rbind].
  rewrite expect_key_key by range. cbn [rbind].
  rewrite read_id_enc by done. by destruct h.
Qed.

Lemma decode_project_id_enc p r :
  match p with Some i => wf_id i | None => true end = true ->
  decode_project_id (encode_project_id p ++ r) = Ok (p, r).
Proof.
  unfold decode_project_id, encode_project_id. destruct p as [i|]; intros Hp.
  - rewrite datatype_bytes by (rewrite (wf_id_len _ Hp); range). cbn [rbind ok_or].
    by rewrite read_id_enc by done.
  - rewrite datatype_null. cbn [rbind ok_or].
    by rewrite (dec_enc _ tt) by apply dec_enc_null.
Qed.

Lemma decode_record_kind_enc k : decode_record_kind (record_kind k) = Ok k.
Proof. by destruct k. Qed.

Lemma decode_mutation_kind_enc k : decode_mutation_kind (mutation_kind k) = Ok k.
Proof. by destruct k. Qed.

Lemma record_kind_u8 k : record_kind k <= u8_max.
Proof. destruct k; vm_compute; discriminate. Qed.

Lemma mutation_kind_u8 k : mutation_kind k <= u8_max.
Proof. destruct k; vm_compute; discriminate. Qed.

End roundtrip.

(** Consumes one written item at the front of the decoder's input. *)
Ltac dec_step :=
  first
    [ rewrite expect_key_key by range
    | rewrite require_map_enc by range
    | rewrite read_id_enc by done
    | rewrite read_fixed_enc by (done || range)
    | rewrite decode_project_id_enc by done
    | rewrite decode_frontier_enc by done
    | rewrite decode_blobs_enc by done
    | rewrite decode_hlc_enc by done
    | erewrite (dec_enc dec_u8) by
        (apply dec_enc_u8; (apply record_kind_u8 || apply mutation_kind_u8))
    | erewrite (dec_enc dec_u16) by (apply dec_enc_u16; done)
    | erewrite (dec_enc dec_u32) by (apply dec_enc_u32; done)
    | erewrite (dec_enc dec_u64) by (apply dec_enc_u64; done)
    | erewrite (dec_enc dec_bytes) by (apply dec_enc_bytes; range)
    | erewrite (dec_enc dec_map) by (apply dec_enc_map; range)
    | rewrite decode_record_kind_enc
    | rewrite decode_mutation_kind_enc ]; cbn [rbind].

Section entries.
Context `{UuidCrate} `{MinicborLaws}.

Lemma decode_operation_entries_enc op r :
  wf_operation op = true -> SyncOperationV1_validate op = Ok tt ->
  decode_operation_entries
    (enc_map 20 ++ operation_entries op ++ key 19 ++ enc_bytes (op_signature op) ++ r)
  = Ok (op, r).
Proof.
  intros Hwf (Hsv & Hf & Hb & Hs & Hbl)%SyncOperationV1_validate_ok.
  unfold wf_operation in Hwf; wf_inv.
  unfold decode_operation_entries, operation_entries. rewrite <- !app_assoc.
  do 3 dec_step. rewrite Hsv, N.eqb_refl. cbn [negb].
  do 32 dec_step. rewrite (proj2 (N.ltb_ge _ _)) by done.
  rewrite (proj2 (BoundedCiphertext_new_Ok _ (op_ciphertext op))) by done.
  cbn [rbind map_err]. do 8 dec_step. rewrite <- Hsv. by destruct op.
Qed.

Lemma decode_checkpoint_entries_enc cp r :
  wf_checkpoint cp = true -> CheckpointV1_validate cp = Ok tt ->
  decode_checkpoint_entries
    (enc_map 10 ++ checkpoint_entries cp ++ key 9 ++ enc_bytes (cp_signature cp) ++ r)
  = Ok (cp, r).
Proof.
  intros Hwf (Hsv & Hf & Hs)%CheckpointV1_validate_ok.
  unfold wf_checkpoint in Hwf; wf_inv.
  unfold decode_checkpoint_entries, checkpoint_entries. rewrite <- !app_assoc.
  do 3 dec_step. rewrite Hsv, N.eqb_refl. cbn [negb].
  rewrite bool_decide_eq_true_2 by done. cbn [negb].
  do 18 dec_step. rewrite <- Hsv. by destruct cp.
Qed.

(** ** The decoders only build values of the Rust types *)

Lemma dec_Ok {A} (f : bytes -> option (A * bytes)) d x r :
  dec f d = Ok (x, r) -> f d = Some (x, r).
Proof. apply ok_or_Ok. Qed.

Lemma read_id_wf m d i r : read_id m d = Ok (i, r) -> wf_id i = true.
Proof.
  unfold read_id. intros ([b d'] & _ & Hr)%rbind_Ok. res_inv.
  match goal with E : uuid_v7_from_bytes _ = _ |- _ =>
    apply uuid_v7_from_bytes_Ok in E as [-> ?] end. by simplify_eq.
Qed.

Lemma read_fixed_wf n d b r : read_fixed n d = Ok (b, r) -> wf_fixed n b = true.
Proof.
  unfold read_fixed. intros ([b' d'] & _ & Hr)%rbind_Ok. res_inv. by simplify_eq.
Qed.

Lemma decode_items_wf {A} (item : bytes -> result ProtocolError (A * bytes))
    (wf : A -> bool) n d l r :
  (forall d x r, item d = Ok (x, r) -> wf x = true) ->
  decode_items item n d = Ok (l, r) -> forallb wf l = true.
Proof.
  intros Hitem. revert d l r. induction n as [|n IH]; intros d l r; simpl.
  { by intros [= <- <-]. }
  intros ([x d1] & Hx & ([xs d2] & Hxs & [= <- <-])%rbind_Ok)%rbind_Ok. simpl.
  by rewrite (Hitem _ _ _ Hx), (IH _ _ _ Hxs).
Qed.

End entries.

(** Splits a successful run of a decoder into its steps. *)
Ltac dec_inv :=
  repeat match goal with
  | p : (_ * _)%type |- _ => destruct p
  | H : rbind _ _ = Ok _ |- _ => apply rbind_Ok in H as (? & ? & H)
  | H : (let '(_, _) := ?p in _) = Ok _ |- _ => destruct p
  | H : (if ?c then _ else Err _) = Ok _ |- _ => destruct c eqn:?; [|discriminate H]
  | H : (if ?c then Err _ else _) = Ok _ |- _ => destruct c eqn:?; [discriminate H|]
  | H : Ok _ = Ok _ |- _ => injection H as H; subst
  | H : read_id _ _ = Ok _ |- _ => apply read_id_wf in H
  | H : read_fixed _ _ = Ok _ |- _ => apply read_fixed_wf in H
  | H : map_err _ _ = Ok _ |- _ => apply map_err_Ok in H
  | H : BoundedCiphertext_new _ = Ok _ |- _ =>
      apply BoundedCiphertext_new_Ok in H as [-> H]
  | H : dec dec_u8 _ = Ok _ |- _ => apply dec_Ok, dec_u8_range in H
  | H : dec dec_u16 _ = Ok _ |- _ => apply dec_Ok, dec_u16_range in H
  | H : dec dec_u32 _ = Ok _ |- _ => apply dec_Ok, dec_u32_range in H
  | H : dec dec_u64 _ = Ok _ |- _ => apply dec_Ok, dec_u64_range in H
  | H : dec dec_str _ = Ok _ |- _ => apply dec_Ok, dec_str_wf in H
  | H : (_, _) = (_, _) |- _ => injection H as ? ?; subst
  end.

(** Closes a [wf_...] goal whose conjuncts are all in the context. *)
Ltac wf_done :=
  repeat match goal with |- _ && _ = true => apply andb_true_iff; split end;
  first [ done | by apply N.leb_le ].

Section canonical.
Context `{UuidCrate} `{MinicborLaws}.

Lemma decode_hlc_wf d h r : decode_hlc d = Ok (h, r) -> wf_hlc h = true.
Proof. unfold decode_hlc. intros. dec_inv. unfold wf_hlc; simpl. wf_done. Qed.

Lemma decode_frontier_wf d l r :
  decode_frontier d = Ok (l, r) -> forallb wf_device_sequence l = true.
Proof.
  unfold decode_frontier. intros. dec_inv. eapply decode_items_wf; [|done].
  intros. unfold decode_frontier_entry in *. dec_inv.
  unfold wf_device_sequence; simpl. wf_done.
Qed.

Lemma decode_blobs_wf d l r : decode_blobs d = Ok (l, r) -> forallb wf_blob l = true.
Proof.
  unfold decode_blobs. intros. dec_inv. eapply decode_items_wf; [|done].
  intros. unfold decode_blob in *. dec_inv. unfold wf_blob; simpl. wf_done.
Qed.

Lemma decode_project_id_wf d p r :
  decode_project_id d = Ok (p, r) ->
  match p with Some i => wf_id i | None => true end = true.
Proof.
  unfold decode_project_id. intros ([] & _ & Hk)%rbind_Ok; dec_inv; done.
Qed.

Lemma decode_operation_entries_wf d op r :
  decode_operation_entries d = Ok (op, r) -> wf_operation op = true.
Proof.
  unfold decode_operation_entries. intros. dec_inv.
  repeat match goal with
  | H : decode_frontier _ = Ok _ |- _ => apply decode_frontier_wf in H
  | H : decode_blobs _ = Ok _ |- _ => apply decode_blobs_wf in H
  | H : decode_hlc _ = Ok _ |- _ => apply decode_hlc_wf in H
  | H : decode_project_id _ = Ok _ |- _ => apply decode_project_id_wf in H
  end.
  unfold wf_operation; cbn -[wf_id]. wf_done.
Qed.

Lemma decode_checkpoint_entries_wf d cp r :
  decode_checkpoint_entries d = Ok (cp, r) -> wf_checkpoint cp = true.
Proof.
  unfold decode_checkpoint_entries. intros. dec_inv.
  repeat match goal with
  | H : decode_frontier _ = Ok _ |- _ => apply decode_frontier_wf in H
  | H : decode_hlc _ = Ok _ |- _ => apply decode_hlc_wf in H
  end.
  unfold wf_checkpoint; cbn -[wf_id]. wf_done.
Qed.

(** ** Canonical form *)

Lemma encode_operation_Ok op signed b :
  encode_operation op signed = Ok b <->
  b = enc_map (if signed then 20 else 19) ++ operation_entries op
      ++ (if signed then key 19 ++ enc_bytes (op_signature op) else [])
  /\ len b <= MAX_CBOR_OPERATION_BYTES.
Proof.
  unfold encode_operation. cbv zeta. set (out := enc_map _ ++ _).
  destruct (N.ltb_spec MAX_CBOR_OPERATION_BYTES (len out)); naive_solver lia.
Qed.

Lemma encode_sync_operation_v1_Ok op b :
  encode_sync_operation_v1 op = Ok b <->
  SyncOperationV1_validate op = Ok tt /\ encode_operation op true = Ok b.
Proof.
  unfold encode_sync_operation_v1. rewrite rbind_Ok. setoid_rewrite map_err_Ok.
  split; [intros ([] & ? & ?)|]; naive_solver.
Qed.

Lemma encode_checkpoint_Ok cp signed b :
  encode_checkpoint cp signed = Ok b <->
  CheckpointV1_validate cp = Ok tt
  /\ b = enc_map (if signed then 10 else 9) ++ checkpoint_entries cp
         ++ (if signed then key 9 ++ enc_bytes (cp_signature cp) else [])
  /\ len b <= MAX_CBOR_OPERATION_BYTES.
Proof.
  unfold encode_checkpoint. rewrite rbind_Ok. setoid_rewrite map_err_Ok.
  cbv zeta. set (out := enc_map _ ++ _).
  destruct (N.ltb_spec MAX_CBOR_OPERATION_BYTES (len out));
    (split; [intros ([] & ? & ?)|]; naive_solver lia).
Qed.

Lemma decode_sync_operation_v1_Ok b op :
  decode_sync_operation_v1 b = Ok op <->
  wf_operation op = true /\ encode_sync_operation_v1 op = Ok b.
Proof.
  unfold decode_sync_operation_v1. split.
  - intros Hd. destruct (MAX_CBOR_OPERATION_BYTES <? len b); [done|].
    apply rbind_Ok in Hd as ([op' d] & Hop & Hd). res_inv. wf_inv. subst.
    split; [by eapply decode_operation_entries_wf|done].
  - intros [Hwf He]. pose proof He as Hsplit.
    apply encode_sync_operation_v1_Ok in Hsplit as [Hval Henc].
    apply encode_operation_Ok in Henc as [-> Hlen].
    rewrite (proj2 (N.ltb_ge _ _)) by done.
    pose proof (decode_operation_entries_enc op [] Hwf Hval) as Hd.
    rewrite app_nil_r in Hd. rewrite Hd. cbn [rbind].
    rewrite bool_decide_eq_true_2 by done. cbn [negb].
    rewrite Hval. cbn [rbind map_err]. rewrite He. cbn [rbind].
    by rewrite bool_decide_eq_true_2.
Qed.

Lemma decode_checkpoint_v1_Ok b cp :
  decode_checkpoint_v1 b = Ok cp <->
  wf_checkpoint cp = true /\ encode_checkpoint_v1 cp = Ok b.
Proof.
  unfold decode_checkpoint_v1, encode_checkpoint_v1. split.
  - intros Hd. destruct (MAX_CBOR_OPERATION_BYTES <? len b); [done|].
    apply rbind_Ok in Hd as ([cp' d] & Hcp & Hd). res_inv. wf_inv. subst.
    split; [by eapply decode_checkpoint_entries_wf|done].
  - intros [Hwf He]. pose proof He as Hsplit.
    apply encode_checkpoint_Ok in Hsplit as (Hval & -> & Hlen).
    rewrite (proj2 (N.ltb_ge _ _)) by done.
    pose proof (decode_checkpoint_entries_enc cp [] Hwf Hval) as Hd.
    rewrite app_nil_r in Hd. rewrite Hd. cbn [rbind].
    rewrite bool_decide_eq_true_2 by done. cbn [negb].
    rewrite Hval. cbn [rbind map_err]. rewrite He. cbn [rbind].
    by rewrite bool_decide_eq_true_2.
Qed.

End canonical.

(** ** Encodings are prefix free *)

Section binding.
Context `{UuidCrate} `{MinicborLaws}.

Lemma prefix_free {A B} (f : bytes -> A) (mk : B -> bytes -> A) x y ex ey r s :
  (forall x y r s, mk x r = mk y s -> x = y /\ r = s) ->
  f (ex ++ r) = mk x r -> f (ey ++ s) = mk y s -> ex ++ r = ey ++ s -> x = y /\ r = s.
Proof. intros Hinj Hx Hy E. apply Hinj. congruence. Qed.

Abbreviation some_pair := (fun x r => Some (x, r)).
Abbreviation ok_pair := (fun x r => @Ok ProtocolError _ (x, r)).

Lemma enc_uint_inj n m r s :
  n <= u64_max -> m <= u64_max -> enc_uint n ++ r = enc_uint m ++ s -> n = m /\ r = s.
Proof.
  intros. eapply (prefix_free dec_u64 some_pair); [naive_solver|..|done];
    by apply dec_enc_u64.
Qed.

Lemma enc_bytes_inj b c r s :
  len b <= u64_max -> len c <= u64_max ->
  enc_bytes b ++ r = enc_bytes c ++ s -> b = c /\ r = s.
Proof.
  intros. eapply (prefix_free dec_bytes some_pair); [naive_solver|..|done];
    by apply dec_enc_bytes.
Qed.

Lemma enc_id_inj b c r s :
  wf_id b = true -> wf_id c = true ->
  enc_bytes b ++ r = enc_bytes c ++ s -> b = c /\ r = s.
Proof. intros Hb%wf_id_len Hc%wf_id_len. apply enc_bytes_inj; unfold u64_max; lia. Qed.

Lemma enc_fixed_inj n b c r s :
  n <= u32_max -> len b = n -> len c = n ->
  enc_bytes b ++ r = enc_bytes c ++ s -> b = c /\ r = s.
Proof. intros ???. apply enc_bytes_inj; unfold u64_max, u32_max in *; lia. Qed.

Lemma encode_project_id_inj p q r s :
  match p with Some i => wf_id i | None => true end = true ->
  match q with Some i => wf_id i | None => true end = true ->
  encode_project_id p ++ r = encode_project_id q ++ s -> p = q /\ r = s.
Proof.
  intros. eapply (prefix_free decode_project_id ok_pair); [naive_solver|..|done];
    by apply decode_project_id_enc.
Qed.

Lemma encode_frontier_inj p q r s :
  forallb wf_device_sequence p = true -> len p <= MAX_BATCH_OPERATIONS ->
  forallb wf_device_sequence q = true -> len q <= MAX_BATCH_OPERATIONS ->
  encode_frontier p ++ r = encode_frontier q ++ s -> p = q /\ r = s.
Proof.
  intros. eapply (prefix_free decode_frontier ok_pair); [naive_solver|..|done];
    by apply decode_frontier_enc.
Qed.

Lemma encode_blobs_inj p q r s :
  forallb wf_blob p = true -> len p <= MAX_BATCH_OPERATIONS ->
  Forall (fun b => validate_blob b = Ok tt) p ->
  forallb wf_blob q = true -> len q <= MAX_BATCH_OPERATIONS ->
  Forall (fun b => validate_blob b = Ok tt) q ->
  encode_blobs p ++ r = encode_blobs q ++ s -> p = q /\ r = s.
Proof.
  intros. eapply (prefix_free decode_blobs ok_pair); [naive_solver|..|done];
    by apply decode_blobs_enc.
Qed.

Lemma encode_hlc_inj p q r s :
  wf_hlc p = true -> wf_hlc q = true ->
  encode_hlc p ++ r = encode_hlc q ++ s -> p = q /\ r = s.
Proof.
  intros. eapply (prefix_free decode_hlc ok_pair); [naive_solver|..|done];
    by apply decode_hlc_enc.
Qed.

Lemma record_kind_inj p q r s :
  enc_uint (record_kind p) ++ r = enc_uint (record_kind q) ++ s -> p = q /\ r = s.
Proof.
  intros [E ->]%enc_uint_inj; [by destruct p, q|..];
    (etrans; [apply record_kind_u8|]); unfold u8_max, u64_max; lia.
Qed.

Lemma mutation_kind_inj p q r s :
  enc_uint (mutation_kind p) ++ r = enc_uint (mutation_kind q) ++ s -> p = q /\ r = s.
Proof.
  intros [E ->]%enc_uint_inj; [by destruct p, q|..];
    (etrans; [apply mutation_kind_u8|]); unfold u8_max, u64_max; lia.
Qed.

(** Peels equal items off the fronts of two equal encodings. *)
Ltac peel :=
  match goal with
  | H : key _ ++ _ = key _ ++ _ |- _ => apply app_inv_head in H
  | H : enc_map _ ++ _ = enc_map _ ++ _ |- _ => apply app_inv_head in H
  | H : enc_uint (record_kind _) ++ _ = _ |- _ => apply record_kind_inj in H as [? H]
  | H : enc_uint (mutation_kind _) ++ _ = _ |- _ => apply mutation_kind_inj in H as [? H]
  | H : enc_uint _ ++ _ = enc_uint _ ++ _ |- _ =>
      apply enc_uint_inj in H as [? H]; [|range..]
  | H : enc_bytes _ ++ _ = enc_bytes _ ++ _ |- _ =>
      first [ apply enc_id_inj in H as [? H]; [|done..]
            | apply enc_bytes_inj in H as [? H]; [|range..] ]
  | H : encode_project_id _ ++ _ = _ |- _ =>
      apply encode_project_id_inj in H as [? H]; [|done..]
  | H : encode_frontier _ ++ _ = _ |- _ => apply encode_frontier_inj in H as [? H]; [|done..]
  | H : encode_blobs _ ++ _ = _ |- _ => apply encode_blobs_inj in H as [? H]; [|done..]
  | H : encode_hlc _ ++ _ = _ |- _ => apply encode_hlc_inj in H as [? H]; [|done..]
  end.

(** What a value of the envelope type that passed validation satisfies. *)
Definition valid_operation (op : SyncOperationV1) : Prop :=
  wf_operation op = true /\ SyncOperationV1_validate op = Ok tt.

Ltac valid_inv :=
  repeat match goal with
  | H : valid_operation _ |- _ =>
      destruct H as [? (? & ? & ? & ? & ?)%SyncOperationV1_validate_ok]
  | H : wf_operation _ = true |- _ => unfold wf_operation in H
  end; wf_inv.

Lemma operation_entries_inj op op' r s :
  valid_operation op -> valid_operation op' ->
  operation_entries op ++ r = operation_entries op' ++ s ->
  op' = with_signature op (op_signature op') /\ r = s.
Proof.
  intros Hv Hv' E. valid_inv. unfold operation_entries in E. rewrite <- !app_assoc in E.
  repeat peel. split; [|done]. destruct op, op'; unfold with_signature; simpl in *.
  by subst.
Qed.

Lemma encode_sync_operation_aad_v1_inj op op' :
  valid_operation op -> valid_operation op' ->
  encode_sync_operation_aad_v1 op = encode_sync_operation_aad_v1 op' ->
  op' = with_signature
          (with_payload op (op_nonce op') (op_ciphertext op') (op_ciphertext_hash op'))
          (op_signature op').
Proof.
  intros Hv Hv' E. valid_inv. unfold encode_sync_operation_aad_v1 in E.
  apply (f_equal (.++ [])) in E. rewrite <- !app_assoc in E.
  repeat peel. destruct op, op'; unfold with_signature, with_payload; simpl in *.
  by subst.
Qed.

Lemma checkpoint_entries_inj cp cp' r s :
  wf_checkpoint cp = true -> CheckpointV1_validate cp = Ok tt ->
  wf_checkpoint cp' = true -> CheckpointV1_validate cp' = Ok tt ->
  checkpoint_entries cp ++ r = checkpoint_entries cp' ++ s ->
  cp' = with_checkpoint_signature cp (cp_signature cp') /\ r = s.
Proof.
  intros Hw (? & ? & ?)%CheckpointV1_validate_ok Hw' (? & ? & ?)%CheckpointV1_validate_ok E.
  unfold wf_checkpoint in *. wf_inv. unfold checkpoint_entries in E.
  rewrite <- !app_assoc in E. repeat peel. split; [|done].
  destruct cp, cp'; unfold with_checkpoint_signature; simpl in *. by subst.
Qed.

End binding.

(** ** The envelopes of the repository's test fixtures

    [tests/fixtures/sync-operation-v1.hex] and [tests/fixtures/checkpoint-v1.hex]:
    the encoders reproduce the recorded bytes under the RFC 8949 instance. *)

Module Fixture.

Definition rep (n : nat) (b : N) : bytes := replicate n (byte_of b).

Definition id : Uuid :=
  byte_of <$> [0x01; 0x8f; 0x22; 0xe2; 0x79; 0xb0; 0x7c; 0xc8;
               0x98; 0xc4; 0xdc; 0x0c; 0x0c; 0x07; 0x39; 0x8f].

Definition hlc : HybridLogicalClock :=
  {| physical_ms := 1700000000000; logical := 0; node := id |}.

Definition operation : SyncOperationV1 := {|
  op_schema_version := 1; op_operation_id := id; op_account_id := id;
  op_workspace_id := id; op_project_id := Some id; op_record_id := id;
  op_record_kind := KMemory; op_mutation_kind := Upsert; op_device_id := id;
  op_device_sequence := 7;
  op_causal_frontier := [{| ds_device_id := id; ds_sequence := 6 |}];
  op_control_epoch := 2; op_key_epoch := 3;
  op_previous_device_hash := rep 32 1; op_nonce := rep 24 2;
  op_ciphertext := byte_of <$> [3; 4; 5]; op_ciphertext_hash := rep 32 6;
  op_blob_refs := [{| blob_digest := rep 32 7; blob_ciphertext_bytes := 9;
                      blob_storage_id := lit "blob-1" |}];
  op_created_hlc := hlc; op_signature := rep 64 8 |}.

Definition checkpoint : CheckpointV1 := {|
  cp_schema_version := 2; cp_account_id := id; cp_workspace_id := id;
  cp_previous_checkpoint_hash := rep 32 9;
  cp_causal_frontier := [{| ds_device_id := id; ds_sequence := 7 |}];
  cp_state_hash := rep 32 10; cp_key_epoch := 3; cp_creator_device := id;
  cp_created_hlc := hlc; cp_signature := rep 64 11 |}.

#[local] Existing Instances rfc9562 Rfc8949.codec.

Definition hex_digit (c : Ascii.ascii) : N :=
  let n := Ascii.N_of_ascii c in if n <? 58 then n - 48 else n - 87.

Fixpoint hex (s : String.string) : bytes :=
  match s with
  | String.String a (String.String b s') => byte_of (16 * hex_digit a + hex_digit b) :: hex s'
  | _ => []
  end.

Definition operation_hex : String.string := (
  "b400010150018f22e279b07cc898c4dc0c0c07398f0250018f22e279b07cc898c4dc0c0c"
  ++ "07398f0350018f22e279b07cc898c4dc0c0c07398f0450018f22e279b07cc898c4dc0c0c"
  ++ "07398f0550018f22e279b07cc898c4dc0c0c07398f060007000850018f22e279b07cc898"
  ++ "c4dc0c0c07398f09070a818250018f22e279b07cc898c4dc0c0c07398f060b020c030d58"
  ++ "2001010101010101010101010101010101010101010101010101010101010101010e5818"
  ++ "0202020202020202020202020202020202020202020202020f4303040510582006060606"
  ++ "060606060606060606060606060606060606060606060606060606061181a30058200707"
  ++ "07070707070707070707070707070707070707070707070707070707070701090266626c"
  ++ "6f622d3112a3001b0000018bcfe5680001000250018f22e279b07cc898c4dc0c0c07398f"
  ++ "135840080808080808080808080808080808080808080808080808080808080808080808"
  ++ "08080808080808080808080808080808080808080808080808080808080808")%string.

Definition checkpoint_hex : String.string := (
  "aa00020150018f22e279b07cc898c4dc0c0c07398f0250018f22e279b07cc898c4dc0c0c"
  ++ "07398f035820090909090909090909090909090909090909090909090909090909090909"
  ++ "090904818250018f22e279b07cc898c4dc0c0c07398f070558200a0a0a0a0a0a0a0a0a0a"
  ++ "0a0a0a0a0a0a0a0a0a0a0a0a0a0a0a0a0a0a0a0a0a0a06030750018f22e279b07cc898c4"
  ++ "dc0c0c07398f08a3001b0000018bcfe5680001000250018f22e279b07cc898c4dc0c0c07"
  ++ "398f0958400b0b0b0b0b0b0b0b0b0b0b0b0b0b0b0b0b0b0b0b0b0b0b0b0b0b0b0b0b0b0b"
  ++ "0b0b0b0b0b0b0b0b0b0b0b0b0b0b0b0b0b0b0b0b0b0b0b0b0b0b0b0b0b0b0b0b0b")%string.

Example operation_bytes : encode_sync_operation_v1 operation = Ok (hex operation_hex).
Proof. vm_compute. reflexivity. Qed.

Example operation_read : decode_sync_operation_v1 (hex operation_hex) = Ok operation.
Proof. vm_compute. reflexivity. Qed.

Example checkpoint_bytes : encode_checkpoint_v1 checkpoint = Ok (hex checkpoint_hex).
Proof. vm_compute. reflexivity. Qed.

End Fixture.

(** ** Properties *)

Section properties.
Context `{UuidCrate} `{MinicborLaws}.

Lemma preimage_Ok op p :
  encode_sync_operation_signing_preimage_v1 op = Ok p <->
  SyncOperationV1_validate op = Ok tt /\ encode_operation op false = Ok p.
Proof.
  unfold encode_sync_operation_signing_preimage_v1. rewrite rbind_Ok.
  setoid_rewrite map_err_Ok. split; [intros ([] & ? & ?)|]; naive_solver.
Qed.

Lemma preimage_with_signature op s :
  encode_sync_operation_signing_preimage_v1 (with_signature op s)
  = encode_sync_operation_signing_preimage_v1 op.
Proof. reflexivity. Qed.

Lemma checkpoint_preimage_with_signature cp s :
  encode_checkpoint_signing_preimage_v1 (with_checkpoint_signature cp s)
  = encode_checkpoint_signing_preimage_v1 cp.
Proof. reflexivity. Qed.

Lemma aad_with_payload op n c h s :
  encode_sync_operation_aad_v1 (with_signature (with_payload op n c h) s)
  = encode_sync_operation_aad_v1 op.
Proof. reflexivity. Qed.

Lemma enc_map_inj n m r s :
  n <= u64_max -> m <= u64_max -> enc_map n ++ r = enc_map m ++ s -> n = m /\ r = s.
Proof.
  intros Hn Hm E. pose proof (dec_enc_map n r Hn) as E1.
  pose proof (dec_enc_map m s Hm) as E2. rewrite E in E1. by simplify_eq.
Qed.

(** Two valid operations with one preimage differ at most in the signature. *)
Lemma preimage_inj op op' p :
  wf_operation op = true -> wf_operation op' = true ->
  encode_sync_operation_signing_preimage_v1 op = Ok p ->
  encode_sync_operation_signing_preimage_v1 op' = Ok p ->
  op' = with_signature op (op_signature op').
Proof.
  intros Hw Hw' (Hv & [Ep _]%encode_operation_Ok)%preimage_Ok
    (Hv' & [Ep' _]%encode_operation_Ok)%preimage_Ok.
  rewrite Ep in Ep'. apply app_inv_head in Ep'.
  by eapply operation_entries_inj in Ep' as [? _].
Qed.

(** C36.  The canonical codec of sync operations: the decoder accepts a byte
    string, with an operation, exactly when the operation is well formed and the
    string is its encoding.  So encoding then decoding is the identity, decoding
    then encoding is the identity, and an operation has one accepted
    representation. *)
Theorem operation_codec_canonical b op :
  (decode_sync_operation_v1 b = Ok op <->
   wf_operation op = true /\ encode_sync_operation_v1 op = Ok b)
  /\ (forall b', decode_sync_operation_v1 b = Ok op ->
        decode_sync_operation_v1 b' = Ok op -> b' = b).
Proof.
  split; [apply decode_sync_operation_v1_Ok|].
  intros b' [_ E1]%decode_sync_operation_v1_Ok [_ E2]%decode_sync_operation_v1_Ok.
  congruence.
Qed.

(** C38.  The signing preimage binds every field of an operation but the
    signature, is unchanged by signing, and is never the encoding of a signed
    operation. *)
Theorem operation_preimage_binds op op' p :
  wf_operation op = true -> wf_operation op' = true ->
  encode_sync_operation_signing_preimage_v1 op = Ok p ->
  (encode_sync_operation_signing_preimage_v1 op' = Ok p <->
   op' = with_signature op (op_signature op'))
  /\ encode_sync_operation_v1 op' <> Ok p.
Proof.
  intros Hw Hw' Hp. split; [split|].
  - intros Hp'. by apply (preimage_inj op op' p).
  - intros ->. by rewrite preimage_with_signature.
  - intros (_ & [Ep' _]%encode_operation_Ok)%encode_sync_operation_v1_Ok.
    apply preimage_Ok in Hp as (_ & [Ep _]%encode_operation_Ok). rewrite Ep in Ep'.
    apply enc_map_inj in Ep' as [? _]; [done|by vm_compute..].
Qed.

(** The associated data binds every field of an operation but the sealed
    ones (nonce, ciphertext, ciphertext hash and signature), and does not depend
    on those. *)
Theorem operation_aad_binds op op' :
  valid_operation op -> valid_operation op' ->
  encode_sync_operation_aad_v1 op = encode_sync_operation_aad_v1 op' <->
  op' = with_signature
          (with_payload op (op_nonce op') (op_ciphertext op') (op_ciphertext_hash op'))
          (op_signature op').
Proof.
  intros Hv Hv'. split; [by apply encode_sync_operation_aad_v1_inj|].
  intros ->. by rewrite aad_with_payload.
Qed.

(** The checkpoint codec is canonical in the same sense, and its signing
    preimage binds every field but the signature. *)
Theorem checkpoint_codec_canonical b cp cp' p :
  wf_checkpoint cp = true -> wf_checkpoint cp' = true ->
  encode_checkpoint_signing_preimage_v1 cp = Ok p ->
  (decode_checkpoint_v1 b = Ok cp <-> encode_checkpoint_v1 cp = Ok b)
  /\ (encode_checkpoint_signing_preimage_v1 cp' = Ok p <->
      cp' = with_checkpoint_signature cp (cp_signature cp')).
Proof.
  intros Hw Hw' Hp. split; [rewrite decode_checkpoint_v1_Ok; tauto|].
  pose proof Hp as (Hv & Ep & _)%encode_checkpoint_Ok.
  split.
  - intros (Hv' & Ep' & _)%encode_checkpoint_Ok. rewrite Ep in Ep'.
    apply app_inv_head in Ep'.
    by eapply checkpoint_entries_inj in Ep' as [? _].
  - intros ->. by rewrite checkpoint_preimage_with_signature.
Qed.

End properties.

(** *** Witnesses, at the fixtures and the RFC instances *)

Module Witness.
#[local] Existing Instances rfc9562 Rfc8949.codec Rfc8949.codec_laws.

Definition signed : SyncOperationV1 := with_signature Fixture.operation (Fixture.rep 64 9).

Lemma operation_codec_canonical_witness :
  decode_sync_operation_v1 (Fixture.hex Fixture.operation_hex) = Ok Fixture.operation.
Proof.
  refine (proj2 (proj1 (operation_codec_canonical _ _)) _).
  split; vm_compute; reflexivity.
Defined.

Lemma operation_preimage_binds_witness :
  exists p, encode_sync_operation_signing_preimage_v1 Fixture.operation = Ok p
    /\ encode_sync_operation_signing_preimage_v1 signed = Ok p.
Proof.
  eexists. split; [vm_compute; reflexivity|].
  refine (proj2 (proj1 (operation_preimage_binds Fixture.operation _ _ _ _ _)) _);
    vm_compute; reflexivity.
Defined.

Lemma operation_aad_binds_witness :
  encode_sync_operation_aad_v1 Fixture.operation = encode_sync_operation_aad_v1 signed.
Proof.
  refine (proj2 (operation_aad_binds _ _ _ _) _); try split; vm_compute; reflexivity.
Defined.

Lemma checkpoint_codec_canonical_witness :
  decode_checkpoint_v1 (Fixture.hex Fixture.checkpoint_hex) = Ok Fixture.checkpoint.
Proof.
  refine (proj2 (proj1 (checkpoint_codec_canonical _ _ Fixture.checkpoint _ _ _ _)) _);
    vm_compute; reflexivity.
Defined.

End Witness.
