(* ===== verification/Domain.v ===== *)
(** * Domain records (protocol/domain.rs)

    The records a mutation carries and their validation.  [typed_...] states
    what Rust's types guarantee of a value (identifiers are UUIDv7, strings are
    Unicode, integers are in range). *)

From S2P Require Import Prelude Ordering Text Protocol.

#[local] Open Scope N_scope.

(** ** Data *)

Inductive HarnessId := ClaudeCode | Codex | Hermes | OpenCode.
Inductive MemoryKind := Fact | Decision_ | Preference | Pattern | Procedure | Note.
Inductive MemoryOrigin := Explicit | Inferred | NativeImport | PackageImport.
Inductive CandidateState := Pending | Accepted | Rejected.
Inductive TaskStatus := Open | InProgress | Blocked | Done | Canceled.
Inductive ComponentKind :=
| Instruction | Rule | Skill | Plugin | McpServer | Hook | PermissionDeclaration.

Inductive ScopeRef := Global | Project (project_id : ProjectId).

Inductive ProvenanceSource := Record_ (record_id : RecordId) | Package (package_id : PackageId).

Record Provenance := {
  pv_origin_device : DeviceId;
  pv_harness : option HarnessId;
  pv_source : option ProvenanceSource;
  pv_created_hlc : HybridLogicalClock;
}.

Record MemoryRecord := {
  mem_id : MemoryId;
  mem_scope : ScopeRef;
  mem_kind : MemoryKind;
  mem_title : rstr;
  mem_body_markdown : rstr;
  mem_tags : list rstr;
  mem_origin : MemoryOrigin;
  mem_provenance : Provenance;
  mem_revision : OperationId;
  mem_created_hlc : HybridLogicalClock;
  mem_updated_hlc : HybridLogicalClock;
  mem_archived : bool;
}.

Record MemoryCandidate := {
  cand_id : CandidateId;
  cand_proposed_memory : MemoryRecord;
  cand_evidence_summary : rstr;
  cand_source_harness : HarnessId;
  cand_state : CandidateState;
}.

Record TaskEvidence := {
  ev_summary : rstr;
  ev_evidence_kind : rstr;
  ev_reference : option rstr;
  ev_recorded_hlc : HybridLogicalClock;
}.

Record TaskRecord := {
  task_id : TaskId;
  task_project_id : ProjectId;
  task_title : rstr;
  task_body_markdown : rstr;
  task_status : TaskStatus;
  task_evidence : list TaskEvidence;
  task_revision : OperationId;
}.

Record SecretRef := {
  sec_id : SecretRefId;
  sec_name : rstr;
  sec_provider : rstr;
  sec_required_on_device : bool;
}.

Record InstructionRecord := {
  ins_id : RecordId;
  ins_scope : ScopeRef;
  ins_title : rstr;
  ins_body_markdown : rstr;
  ins_provenance : Provenance;
  ins_archived : bool;
}.

Record ComponentRecord := {
  com_id : RecordId;
  com_scope : ScopeRef;
  com_kind : ComponentKind;
  com_name : rstr;
  com_body_markdown : rstr;
  com_metadata : list (rstr * rstr);
  com_provenance : Provenance;
  com_archived : bool;
}.

Record ProjectIdentity := {
  proj_project_id : ProjectId;
  proj_github_repository_id : option N;
  proj_git_remote_fingerprint : option Sha256Digest;
  proj_monorepo_subdirectory : option rstr;
  proj_name : rstr;
}.

#[global] Instance HarnessId_eq_dec : EqDecision HarnessId.
Proof. solve_decision. Defined.
#[global] Instance MemoryKind_eq_dec : EqDecision MemoryKind.
Proof. solve_decision. Defined.
#[global] Instance MemoryOrigin_eq_dec : EqDecision MemoryOrigin.
Proof. solve_decision. Defined.
#[global] Instance CandidateState_eq_dec : EqDecision CandidateState.
Proof. solve_decision. Defined.
#[global] Instance TaskStatus_eq_dec : EqDecision TaskStatus.
Proof. solve_decision. Defined.
#[global] Instance ComponentKind_eq_dec : EqDecision ComponentKind.
Proof. solve_decision. Defined.
#[global] Instance ScopeRef_eq_dec : EqDecision ScopeRef.
Proof. solve_decision. Defined.
#[global] Instance ProvenanceSource_eq_dec : EqDecision ProvenanceSource.
Proof. solve_decision. Defined.
#[global] Instance Provenance_eq_dec : EqDecision Provenance.
Proof. solve_decision. Defined.
#[global] Instance MemoryRecord_eq_dec : EqDecision MemoryRecord.
Proof. solve_decision. Defined.
#[global] Instance MemoryCandidate_eq_dec : EqDecision MemoryCandidate.
Proof. solve_decision. Defined.
#[global] Instance TaskEvidence_eq_dec : EqDecision TaskEvidence.
Proof. solve_decision. Defined.
#[global] Instance TaskRecord_eq_dec : EqDecision TaskRecord.
Proof. solve_decision. Defined.
#[global] Instance SecretRef_eq_dec : EqDecision SecretRef.
Proof. solve_decision. Defined.
#[global] Instance InstructionRecord_eq_dec : EqDecision InstructionRecord.
Proof. solve_decision. Defined.
#[global] Instance ComponentRecord_eq_dec : EqDecision ComponentRecord.
Proof. solve_decision. Defined.
#[global] Instance ProjectIdentity_eq_dec : EqDecision ProjectIdentity.
Proof. solve_decision. Defined.

(** ** Validation *)

(** One iteration of the tag loop: the set of tags seen so far. *)
Definition validate_tag (unique_tags : gset rstr) (tag : rstr)
    : result ValidationError (gset rstr) :=
  let? _ := required_text tag "tags" MAX_TAG_BYTES in
  if bool_decide (tag ∈ unique_tags) then Err (Invalid "duplicate tag")
  else Ok ({[ tag ]} ∪ unique_tags).

Definition MemoryRecord_validate (r : MemoryRecord) : result ValidationError unit :=
  let? _ := required_text (mem_title r) "title" MAX_TITLE_BYTES in
  let? _ := required_text (mem_body_markdown r) "bodyMarkdown" MAX_MARKDOWN_BYTES in
  if MAX_TAGS <? len (mem_tags r) then Err (TooLarge "tags" MAX_TAGS) else
  let? _ := try_fold validate_tag ∅ (mem_tags r) in
  Ok tt.

Definition MemoryCandidate_validate (c : MemoryCandidate) : result ValidationError unit :=
  let? _ := MemoryRecord_validate (cand_proposed_memory c) in
  required_text (cand_evidence_summary c) "evidenceSummary" MAX_EVIDENCE_BYTES.

Definition TaskEvidence_validate (e : TaskEvidence) : result ValidationError unit :=
  let? _ := required_text (ev_summary e) "summary" MAX_EVIDENCE_BYTES in
  let? _ := required_text (ev_evidence_kind e) "evidenceKind" MAX_TAG_BYTES in
  if match ev_reference e with
     | Some reference => MAX_EVIDENCE_BYTES <? str_len reference
     | None => false
     end
  then Err (TooLarge "evidence.reference" MAX_EVIDENCE_BYTES) else Ok tt.

Definition TaskRecord_validate (t : TaskRecord) : result ValidationError unit :=
  let? _ := required_text (task_title t) "title" MAX_TITLE_BYTES in
  let? _ := required_text (task_body_markdown t) "bodyMarkdown" MAX_MARKDOWN_BYTES in
  if bool_decide (task_status t = Done) && bool_decide (task_evidence t = [])
  then Err (EmptyRequired "evidence")
  else if MAX_EVIDENCE_ITEMS <? len (task_evidence t)
  then Err (TooLarge "evidence" MAX_EVIDENCE_ITEMS)
  else try_for_each TaskEvidence_validate (task_evidence t).

Definition SecretRef_validate (s : SecretRef) : result ValidationError unit :=
  let? _ := required_text (sec_name s) "name" MAX_TITLE_BYTES in
  required_text (sec_provider s) "provider" MAX_TITLE_BYTES.

Definition InstructionRecord_validate (i : InstructionRecord) : result ValidationError unit :=
  let? _ := required_text (ins_title i) "title" MAX_TITLE_BYTES in
  required_text (ins_body_markdown i) "bodyMarkdown" MAX_MARKDOWN_BYTES.

Definition metadata_bytes (metadata : list (rstr * rstr)) : N :=
  foldr (fun kv acc => str_len kv.1 + str_len kv.2 + acc) 0 metadata.

Definition ComponentRecord_validate (c : ComponentRecord) : result ValidationError unit :=
  let? _ := required_text (com_name c) "name" MAX_TITLE_BYTES in
  let? _ := required_text (com_body_markdown c) "bodyMarkdown" MAX_MARKDOWN_BYTES in
  if MAX_COMPONENT_METADATA_BYTES <? metadata_bytes (com_metadata c)
  then Err (TooLarge "metadata" MAX_COMPONENT_METADATA_BYTES)
  else try_for_each (fun kv => required_text kv.1 "metadata.key" MAX_TITLE_BYTES)
         (com_metadata c).

Definition slash : rchar := 0x2F.
Definition backslash : rchar := 0x5C.
Definition colon : rchar := 0x3A.

Definition subdirectory_rejected (path : rstr) : bool :=
  (MAX_TITLE_BYTES <? str_len path)
  || bool_decide (path = [])
  || starts_with_char slash path
  || contains_char backslash path
  || contains_char colon path
  || existsb (fun c => is_control c || (c =? 0x2028) || (c =? 0x2029)) path
  || existsb (fun part => bool_decide (part = []) || bool_decide (part = lit ".")
                          || bool_decide (part = lit "..")) (split_on slash path).

Definition ProjectIdentity_validate (p : ProjectIdentity) : result ValidationError unit :=
  if bool_decide (proj_github_repository_id p = Some 0)
  then Err (Invalid "repositoryIdentity")
  else if match proj_monorepo_subdirectory p with
          | Some path => subdirectory_rejected path
          | None => false
          end
  then Err (Invalid "monorepoSubdirectory")
  else required_text (proj_name p) "name" MAX_TITLE_BYTES.

(** ** What the Rust types guarantee *)

Section typed.
Context `{UuidCrate}.

Definition opt_all {A} (f : A -> bool) (o : option A) : bool :=
  match o with Some a => f a | None => true end.

Definition typed_scope (s : ScopeRef) : bool :=
  match s with Global => true | Project p => wf_id p end.

Definition typed_source (s : ProvenanceSource) : bool :=
  match s with Record_ r => wf_id r | Package p => wf_id p end.

Definition typed_provenance (p : Provenance) : bool :=
  wf_id (pv_origin_device p) && opt_all typed_source (pv_source p)
  && wf_hlc (pv_created_hlc p).

Definition typed_memory (r : MemoryRecord) : bool :=
  wf_id (mem_id r) && typed_scope (mem_scope r) && wf_str (mem_title r)
  && wf_str (mem_body_markdown r) && forallb wf_str (mem_tags r)
  && typed_provenance (mem_provenance r) && wf_id (mem_revision r)
  && wf_hlc (mem_created_hlc r) && wf_hlc (mem_updated_hlc r).

Definition typed_candidate (c : MemoryCandidate) : bool :=
  wf_id (cand_id c) && typed_memory (cand_proposed_memory c)
  && wf_str (cand_evidence_summary c).

Definition typed_evidence (e : TaskEvidence) : bool :=
  wf_str (ev_summary e) && wf_str (ev_evidence_kind e)
  && opt_all wf_str (ev_reference e) && wf_hlc (ev_recorded_hlc e).

Definition typed_task (t : TaskRecord) : bool :=
  wf_id (task_id t) && wf_id (task_project_id t) && wf_str (task_title t)
  && wf_str (task_body_markdown t) && forallb typed_evidence (task_evidence t)
  && wf_id (task_revision t).

Definition typed_secret_ref (s : SecretRef) : bool :=
  wf_id (sec_id s) && wf_str (sec_name s) && wf_str (sec_provider s).

Definition typed_instruction (i : InstructionRecord) : bool :=
  wf_id (ins_id i) && typed_scope (ins_scope i) && wf_str (ins_title i)
  && wf_str (ins_body_markdown i) && typed_provenance (ins_provenance i).

Definition typed_component (c : ComponentRecord) : bool :=
  wf_id (com_id c) && typed_scope (com_scope c) && wf_str (com_name c)
  && wf_str (com_body_markdown c)
  && forallb (fun kv => wf_str kv.1 && wf_str kv.2) (com_metadata c)
  && typed_provenance (com_provenance c).

Definition typed_project (p : ProjectIdentity) : bool :=
  wf_id (proj_project_id p)
  && opt_all (fun n => n <=? u64_max) (proj_github_repository_id p)
  && opt_all (wf_fixed 32) (proj_git_remote_fingerprint p)
  && opt_all wf_str (proj_monorepo_subdirectory p) && wf_str (proj_name p).

End typed.

(** ** Facts *)

Definition text_ok (limit : N) (s : rstr) : Prop :=
  trim_is_empty s = false /\ str_len s <= limit.

Lemma validate_tags_ok tags seen :
  (exists s, try_fold validate_tag seen tags = Ok s) <->
  Forall (text_ok MAX_TAG_BYTES) tags /\ NoDup tags /\ (forall t, t ∈ tags -> t ∉ seen).
Proof.
  revert seen. induction tags as [|t tags IH]; intros seen; simpl.
  { split; [intros _|eauto]. split_and!; [constructor..|set_solver]. }
  unfold validate_tag at 1. split.
  - intros [s Hs]. res_inv. destruct x0.
    match goal with E : required_text _ _ _ = _ |- _ => apply required_text_ok in E end.
    wf_inv. subst. destruct (proj1 (IH ({[t]} ∪ seen)) ltac:(eauto)) as (Hf & Hn & Hd).
    split_and!; [by constructor|constructor; set_solver|set_solver].
  - rewrite Forall_cons, NoDup_cons. intros ([Ht Hf] & [Hn1 Hn2] & Hd).
    rewrite (proj2 (required_text_ok _ _ _) Ht). cbn [rbind].
    rewrite bool_decide_eq_false_2 by set_solver. apply IH. split_and!; [done..|set_solver].
Qed.

Lemma MemoryRecord_validate_ok r :
  MemoryRecord_validate r = Ok tt <->
  text_ok MAX_TITLE_BYTES (mem_title r) /\ text_ok MAX_MARKDOWN_BYTES (mem_body_markdown r)
  /\ len (mem_tags r) <= MAX_TAGS
  /\ Forall (text_ok MAX_TAG_BYTES) (mem_tags r) /\ NoDup (mem_tags r).
Proof.
  unfold MemoryRecord_validate. pose proof (validate_tags_ok (mem_tags r) ∅) as Htags.
  split.
  - intros H. res_inv. wf_inv. destruct x, x0.
    repeat match goal with E : required_text _ _ _ = _ |- _ => apply required_text_ok in E end.
    destruct (proj1 Htags ltac:(eauto)) as (? & ? & _). done.
  - intros (Ht & Hb & Hl & Hf & Hn).
    rewrite (proj2 (required_text_ok _ _ _) Ht), (proj2 (required_text_ok _ _ _) Hb).
    cbn [rbind]. rewrite (proj2 (N.ltb_ge _ _)) by done.
    destruct (proj2 Htags) as [s ->]; [|done]. split_and!; [done..|set_solver].
Qed.

(** Walking a relative path from a directory: [".."] leaves the innermost
    directory, ["."] and empty parts stay. *)
Definition walk (dir : list rstr) (part : rstr) : list rstr :=
  if bool_decide (part = lit "..") then tail dir
  else if bool_decide (part = []) || bool_decide (part = lit ".") then dir
  else part :: dir.

Lemma walk_accepted parts dir :
  existsb (fun part => bool_decide (part = []) || bool_decide (part = lit ".")
                       || bool_decide (part = lit "..")) parts = false ->
  foldl walk dir parts = reverse parts ++ dir.
Proof.
  revert dir. induction parts as [|p parts IH]; intros dir; simpl; [done|].
  rewrite orb_false_iff. intros [Hp Hps]. apply orb_false_iff in Hp as [Hp Hdd].
  rewrite IH by done. unfold walk. rewrite Hdd, Hp, reverse_cons, <- app_assoc. done.
Qed.

(** A memory record is accepted exactly when its title and body are
    non-blank and within their limits, it has at most 64 tags, each non-blank and
    within its limit, and no tag is repeated. *)
Theorem memory_validation_exact (r : MemoryRecord) :
  MemoryRecord_validate r = Ok tt <->
  text_ok MAX_TITLE_BYTES (mem_title r) /\ text_ok MAX_MARKDOWN_BYTES (mem_body_markdown r)
  /\ len (mem_tags r) <= MAX_TAGS
  /\ Forall (text_ok MAX_TAG_BYTES) (mem_tags r) /\ NoDup (mem_tags r).
Proof. apply MemoryRecord_validate_ok. Qed.

(** An accepted project subdirectory stays below the repository root: it
    is relative, has no Windows separators or drive letters, and walking its
    parts from any directory descends through each of them and never leaves the
    directory it starts from. *)
Theorem project_subdirectory_confined (p : ProjectIdentity) (path : rstr) (root : list rstr) :
  ProjectIdentity_validate p = Ok tt -> proj_monorepo_subdirectory p = Some path ->
  foldl walk root (split_on slash path) = reverse (split_on slash path) ++ root
  /\ join_with slash (split_on slash path) = path
  /\ starts_with_char slash path = false
  /\ contains_char backslash path = false /\ contains_char colon path = false.
Proof.
  unfold ProjectIdentity_validate, subdirectory_rejected. intros H E. rewrite E in H.
  res_inv. wf_inv. split_and!; [by apply walk_accepted|apply join_split_on|done..].
Qed.

Module DomainWitness.

Definition project : ProjectIdentity := {|
  proj_project_id := zero_bytes 16; proj_github_repository_id := Some 7;
  proj_git_remote_fingerprint := None;
  proj_monorepo_subdirectory := Some (lit "crates/core"); proj_name := lit "relay" |}.

Lemma project_subdirectory_confined_witness :
  foldl walk [lit "root"] (split_on slash (lit "crates/core"))
  = [lit "core"; lit "crates"; lit "root"].
Proof.
  refine (proj1 (project_subdirectory_confined project (lit "crates/core") [lit "root"] _ _));
    vm_compute; reflexivity.
Defined.

Example parent_directory_rejected :
  ProjectIdentity_validate {|
    proj_project_id := zero_bytes 16; proj_github_repository_id := None;
    proj_git_remote_fingerprint := None;
    proj_monorepo_subdirectory := Some (lit "a/../../b"); proj_name := lit "relay" |}
  = Err (Invalid "monorepoSubdirectory").
Proof. vm_compute. reflexivity. Qed.

End DomainWitness.
