(* ===== verification/SyncPayload.v ===== *)
(** * Record mutations (protocol/sync_payload.rs)

    The plaintext of a sync operation: a mutation of one record, as a CBOR map
    whose last entry is the record's JSON.  [serde_json] with the derived
    implementations is outside the repository and enters as [SerdeJson]; the
    hand-written implementation for [ProjectIdentity] is modelled on top of the
    one for its wire struct. *)

From S2P Require Import Prelude Ordering Text Protocol Minicbor CanonicalCbor Domain.

#[local] Open Scope N_scope.

(** ** The JSON boundary *)

Class SerdeJson (T : Type) := {
  to_vec : T -> option bytes;
  from_slice : bytes -> option T;
}.

(** Deserialising what was serialised gives the value back, and deserialising
    gives values of the type. *)
Class SerdeJsonLaws {T : Type} (json : SerdeJson T) (typed : T -> bool) : Prop := {
  from_to_vec v b : typed v = true -> to_vec v = Some b ->
    len b <= u64_max /\ from_slice b = Some v;
  from_slice_typed b v : from_slice b = Some v -> typed v = true;
}.

(** domain.rs: [ProjectIdentityWire] and the implementations of [Serialize] and
    [Deserialize] for [ProjectIdentity]. *)
Record ProjectIdentityWire := {
  wire_project_id : ProjectId;
  wire_github_repository_id : option N;
  wire_git_remote_fingerprint : option Sha256Digest;
  wire_monorepo_subdirectory : option rstr;
  wire_name : rstr;
}.

Definition project_wire (p : ProjectIdentity) : ProjectIdentityWire := {|
  wire_project_id := proj_project_id p;
  wire_github_repository_id := proj_github_repository_id p;
  wire_git_remote_fingerprint := proj_git_remote_fingerprint p;
  wire_monorepo_subdirectory := proj_monorepo_subdirectory p;
  wire_name := proj_name p |}.

Definition project_of_wire (w : ProjectIdentityWire) : ProjectIdentity := {|
  proj_project_id := wire_project_id w;
  proj_github_repository_id := wire_github_repository_id w;
  proj_git_remote_fingerprint := wire_git_remote_fingerprint w;
  proj_monorepo_subdirectory := wire_monorepo_subdirectory w;
  proj_name := wire_name w |}.

Definition project_identity_json (json : SerdeJson ProjectIdentityWire)
    : SerdeJson ProjectIdentity := {|
  to_vec p :=
    if is_ok (ProjectIdentity_validate p) then to_vec (project_wire p) else None;
  from_slice b :=
    w ← from_slice b;
    let value := project_of_wire w in
    if is_ok (ProjectIdentity_validate value) then Some value else None |}.

(** The serialisers of the seven record types. *)
Class RecordJson := {
  json_memory :: SerdeJson MemoryRecord;
  json_candidate :: SerdeJson MemoryCandidate;
  json_task :: SerdeJson TaskRecord;
  json_secret_ref :: SerdeJson SecretRef;
  json_instruction :: SerdeJson InstructionRecord;
  json_component :: SerdeJson ComponentRecord;
  json_project_wire : SerdeJson ProjectIdentityWire;
}.

#[global] Instance json_project `{RecordJson} : SerdeJson ProjectIdentity :=
  project_identity_json json_project_wire.

Class RecordJsonLaws `{UuidCrate, RecordJson} : Prop := {
  json_memory_laws :: SerdeJsonLaws json_memory typed_memory;
  json_candidate_laws :: SerdeJsonLaws json_candidate typed_candidate;
  json_task_laws :: SerdeJsonLaws json_task typed_task;
  json_secret_ref_laws :: SerdeJsonLaws json_secret_ref typed_secret_ref;
  json_instruction_laws :: SerdeJsonLaws json_instruction typed_instruction;
  json_component_laws :: SerdeJsonLaws json_component typed_component;
  json_project_wire_laws ::
    SerdeJsonLaws json_project_wire (fun w => typed_project (project_of_wire w));
}.

(** ** Mutations *)

Inductive RecordMutationV1 :=
| UpsertMemory (record : MemoryRecord)
| UpsertMemoryCandidate (record : MemoryCandidate)
| UpsertTask (record : TaskRecord)
| UpsertSecretRef (record : SecretRef)
| UpsertInstruction (record : InstructionRecord)
| UpsertComponent (record : ComponentRecord)
| UpsertProject (record : ProjectIdentity)
| TombstoneMutation (record_id : RecordId) (record_kind : RecordKind).

#[global] Instance RecordMutationV1_eq_dec : EqDecision RecordMutationV1.
Proof. solve_decision. Defined.

(** [RecordMutationV1::record_id]; the [expect] of its helper cannot fail
    because every identifier type is a UUIDv7. *)
Definition mutation_record_id (self : RecordMutationV1) : RecordId :=
  match self with
  | UpsertMemory record => mem_id record
  | UpsertMemoryCandidate record => cand_id record
  | UpsertTask record => task_id record
  | UpsertSecretRef record => sec_id record
  | UpsertInstruction record => ins_id record
  | UpsertComponent record => com_id record
  | UpsertProject record => proj_project_id record
  | TombstoneMutation record_id _ => record_id
  end.

Definition mutation_record_kind (self : RecordMutationV1) : RecordKind :=
  match self with
  | UpsertMemory _ => KMemory
  | UpsertMemoryCandidate _ => KMemoryCandidate
  | UpsertTask _ => KTask
  | UpsertSecretRef _ => KSecretRef
  | UpsertInstruction _ => KInstruction
  | UpsertComponent _ => KComponent
  | UpsertProject _ => KProject
  | TombstoneMutation _ record_kind => record_kind
  end.

Definition mutation_mutation_kind (self : RecordMutationV1) : MutationKind :=
  match self with
  | TombstoneMutation _ _ => Tombstone
  | _ => Upsert
  end.

Definition RecordMutationV1_validate (self : RecordMutationV1) : result ValidationError unit :=
  match self with
  | UpsertMemory record => MemoryRecord_validate record
  | UpsertMemoryCandidate record => MemoryCandidate_validate record
  | UpsertTask record => TaskRecord_validate record
  | UpsertSecretRef record => SecretRef_validate record
  | UpsertInstruction record => InstructionRecord_validate record
  | UpsertComponent record => ComponentRecord_validate record
  | UpsertProject record => ProjectIdentity_validate record
  | TombstoneMutation _ _ => Ok tt
  end.

Definition typed_mutation `{UuidCrate} (self : RecordMutationV1) : bool :=
  match self with
  | UpsertMemory record => typed_memory record
  | UpsertMemoryCandidate record => typed_candidate record
  | UpsertTask record => typed_task record
  | UpsertSecretRef record => typed_secret_ref record
  | UpsertInstruction record => typed_instruction record
  | UpsertComponent record => typed_component record
  | UpsertProject record => typed_project record
  | TombstoneMutation record_id _ => wf_id record_id
  end.

Section payload.
Context `{UuidCrate, Minicbor, RecordJson}.

Definition encode_json {T} `{SerdeJson T} (value : T) : result ProtocolError bytes :=
  ok_or (to_vec value) (bad "json").

Definition decode_json {T} `{SerdeJson T} (payload : bytes) : result ProtocolError T :=
  ok_or (from_slice payload) (bad "json").

(** The tombstone branch is [unreachable!] in the source; the caller below
    never takes it. *)
Definition canonical_json (mutation : RecordMutationV1) : result ProtocolError bytes :=
  match mutation with
  | UpsertMemory record => encode_json record
  | UpsertMemoryCandidate record => encode_json record
  | UpsertTask record => encode_json record
  | UpsertSecretRef record => encode_json record
  | UpsertInstruction record => encode_json record
  | UpsertComponent record => encode_json record
  | UpsertProject record => encode_json record
  | TombstoneMutation _ _ => Err (bad "unreachable")
  end.

Definition decode_upsert (record_kind : RecordKind) (payload : bytes)
    : result ProtocolError RecordMutationV1 :=
  match record_kind with
  | KMemory => let? r := decode_json payload in Ok (UpsertMemory r)
  | KMemoryCandidate => let? r := decode_json payload in Ok (UpsertMemoryCandidate r)
  | KTask => let? r := decode_json payload in Ok (UpsertTask r)
  | KSecretRef => let? r := decode_json payload in Ok (UpsertSecretRef r)
  | KInstruction => let? r := decode_json payload in Ok (UpsertInstruction r)
  | KComponent => let? r := decode_json payload in Ok (UpsertComponent r)
  | KProject => let? r := decode_json payload in Ok (UpsertProject r)
  end.

(** The entry under key 4. *)
Definition encode_payload (mutation : RecordMutationV1) : result ProtocolError bytes :=
  match mutation with
  | TombstoneMutation _ _ => Ok enc_null
  | _ => let? json := canonical_json mutation in Ok (enc_bytes json)
  end.

Definition encode_record_mutation_v1 (mutation : RecordMutationV1)
    : result ProtocolError bytes :=
  let? _ := map_err (fun _ => bad "invalid mutation") (RecordMutationV1_validate mutation) in
  let? payload := encode_payload mutation in
  let output :=
    enc_map 5
    ++ key 0 ++ enc_uint SYNC_SCHEMA_VERSION
    ++ key 1 ++ enc_uint (record_kind (mutation_record_kind mutation))
    ++ key 2 ++ enc_uint (mutation_kind (mutation_mutation_kind mutation))
    ++ key 3 ++ enc_bytes (mutation_record_id mutation)
    ++ key 4 ++ payload in
  if MAX_CBOR_OPERATION_BYTES <? len output
  then Err (bad "mutation too large") else Ok output.

(** The five entries, up to the trailing-bytes check. *)
Definition decode_mutation_entries (d : bytes)
    : result ProtocolError (RecordKind * MutationKind * RecordId * RecordMutationV1 * bytes) :=
  let? d := require_map 5 d in
  let? d := expect_key 0 d in
  let? (schema_version, d) := dec dec_u16 d in
  if negb (schema_version =? SYNC_SCHEMA_VERSION) then Err (bad "unsupported schema") else
  let? d := expect_key 1 d in let? (rk, d) := dec dec_u8 d in
  let? rk := decode_record_kind rk in
  let? d := expect_key 2 d in let? (mk, d) := dec dec_u8 d in
  let? mk := decode_mutation_kind mk in
  let? d := expect_key 3 d in let? (record_id, d) := read_id "record id" d in
  let? d := expect_key 4 d in
  let? (mutation, d) :=
    match mk with
    | Upsert =>
      let? (payload, d) := dec dec_bytes d in
      let? mutation := decode_upsert rk payload in Ok (mutation, d)
    | Tombstone =>
      let? (_, d) := dec dec_null d in Ok (TombstoneMutation record_id rk, d)
    end in
  Ok (rk, mk, record_id, mutation, d).

Definition decode_record_mutation_v1 (input : bytes) : result ProtocolError RecordMutationV1 :=
  if MAX_CBOR_OPERATION_BYTES <? len input then Err (bad "mutation too large") else
  let? (rk, mk, record_id, mutation, d) := decode_mutation_entries input in
  if negb (bool_decide (d = [])) then Err (bad "trailing bytes") else
  if negb (bool_decide (mutation_record_kind mutation = rk))
     || negb (bool_decide (mutation_mutation_kind mutation = mk))
     || negb (bool_decide (mutation_record_id mutation = record_id))
  then Err (bad "mismatched mutation") else
  let? _ := map_err (fun _ => bad "invalid mutation") (RecordMutationV1_validate mutation) in
  let? canonical := encode_record_mutation_v1 mutation in
  if negb (bool_decide (canonical = input)) then Err (bad "noncanonical encoding") else
  Ok mutation.

End payload.

(** ** Facts *)

Section facts.
Context `{UuidCrate} `{MinicborLaws} `{RecordJson} `{!RecordJsonLaws}.

Lemma is_ok_unit {E} (r : result E unit) : is_ok r = true <-> r = Ok tt.
Proof. destruct r as [[]|]; naive_solver. Qed.

#[export] Instance json_project_laws : SerdeJsonLaws json_project typed_project.
Proof.
  pose proof json_project_wire_laws as Hw. split; simpl.
  - intros p b Ht Hb. destruct (is_ok (ProjectIdentity_validate p)) eqn:E; [|done].
    destruct p as [i g f s n]. simpl in Hb.
    apply (@from_to_vec _ _ _ Hw) in Hb as [Hl Hs]; [|done].
    split; [done|]. rewrite Hs. simpl. unfold project_of_wire; simpl. by rewrite E.
  - intros b p Hb. apply bind_Some in Hb as (w & Hw' & Hb). case_match; [|done].
    simplify_eq. by apply (@from_slice_typed _ _ _ Hw) in Hw'.
Qed.

Lemma encode_json_decode {T} {json : SerdeJson T} {typed} `{!SerdeJsonLaws json typed} v b :
  typed v = true -> encode_json v = Ok b -> len b <= u64_max /\ decode_json b = Ok v.
Proof.
  unfold encode_json, decode_json. rewrite ok_or_Ok. intros Ht Hv.
  eapply from_to_vec in Hv as [? ->]; done.
Qed.

Lemma decode_json_typed {T} {json : SerdeJson T} {typed} `{!SerdeJsonLaws json typed} b v :
  decode_json b = Ok v -> typed v = true.
Proof. unfold decode_json. rewrite ok_or_Ok. apply from_slice_typed. Qed.

Lemma mutation_record_id_wf m : typed_mutation m = true -> wf_id (mutation_record_id m) = true.
Proof.
  destruct m; simpl; unfold typed_memory, typed_candidate, typed_task, typed_secret_ref,
    typed_instruction, typed_component, typed_project; intros; wf_inv; done.
Qed.

Lemma decode_upsert_typed rk b m :
  decode_upsert rk b = Ok m ->
  typed_mutation m = true /\ mutation_record_kind m = rk /\ mutation_mutation_kind m = Upsert.
Proof.
  destruct rk; simpl; intros; res_inv; subst; simpl;
    (split; [by eapply decode_json_typed|done]).
Qed.

(** Reading back the payload of an upsert. *)
Lemma decode_upsert_canonical m b :
  typed_mutation m = true -> canonical_json m = Ok b ->
  len b <= u64_max /\ decode_upsert (mutation_record_kind m) b = Ok m.
Proof.
  destruct m; simpl; intros Ht Hb; [..|done];
    (eapply encode_json_decode in Hb as [? Hb]; [|exact Ht]);
    by rewrite Hb.
Qed.

Lemma decode_mutation_entries_typed d rk mk i m r :
  decode_mutation_entries d = Ok (rk, mk, i, m, r) -> typed_mutation m = true.
Proof.
  unfold decode_mutation_entries. intros. dec_inv.
  repeat match goal with H : (match ?k with _ => _ end) = Ok _ |- _ => destruct k end; dec_inv.
  - by edestruct decode_upsert_typed.
  - done.
Qed.

Lemma encode_record_mutation_v1_Ok m b :
  encode_record_mutation_v1 m = Ok b <->
  RecordMutationV1_validate m = Ok tt /\ len b <= MAX_CBOR_OPERATION_BYTES
  /\ exists payload, encode_payload m = Ok payload
  /\ b = enc_map 5
       ++ key 0 ++ enc_uint SYNC_SCHEMA_VERSION
       ++ key 1 ++ enc_uint (record_kind (mutation_record_kind m))
       ++ key 2 ++ enc_uint (mutation_kind (mutation_mutation_kind m))
       ++ key 3 ++ enc_bytes (mutation_record_id m)
       ++ key 4 ++ payload.
Proof.
  unfold encode_record_mutation_v1. split.
  - intros Hm. res_inv. wf_inv. subst.
    match goal with u : unit |- _ => destruct u end. eauto 10.
  - intros (-> & Hl & payload & -> & ->). cbn [map_err rbind].
    by rewrite (proj2 (N.ltb_ge _ _)).
Qed.

Lemma decode_mutation_entries_enc m payload :
  typed_mutation m = true -> encode_payload m = Ok payload ->
  decode_mutation_entries
    (enc_map 5
     ++ key 0 ++ enc_uint SYNC_SCHEMA_VERSION
     ++ key 1 ++ enc_uint (record_kind (mutation_record_kind m))
     ++ key 2 ++ enc_uint (mutation_kind (mutation_mutation_kind m))
     ++ key 3 ++ enc_bytes (mutation_record_id m)
     ++ key 4 ++ payload)
  = Ok (mutation_record_kind m, mutation_mutation_kind m, mutation_record_id m, m, []).
Proof.
  intros Ht Hp. pose proof (mutation_record_id_wf m Ht). unfold decode_mutation_entries.
  do 2 dec_step. erewrite (dec_enc dec_u16) by (by apply dec_enc_u16). cbn [rbind].
  rewrite N.eqb_refl. cbn [negb]. do 9 dec_step.
  assert (Hup : forall json, canonical_json m = Ok json -> payload = enc_bytes json ->
    rbind (dec dec_bytes payload)
      (fun '(p, d) => rbind (decode_upsert (mutation_record_kind m) p) (fun m => Ok (m, d)))
    = Ok (m, [])).
  { intros json Hj ->. destruct (decode_upsert_canonical m json Ht Hj) as [Hl Hd].
    rewrite <- (app_nil_r (enc_bytes json)). erewrite (dec_enc dec_bytes) by (by apply dec_enc_bytes).
    cbn [rbind]. by rewrite Hd. }
  destruct m; cbn [encode_payload mutation_mutation_kind] in *;
    try (apply rbind_Ok in Hp as (json & Hj & [= <-]); by rewrite (Hup json)).
  injection Hp as <-. rewrite <- (app_nil_r enc_null).
  erewrite (dec_enc dec_null) by apply dec_enc_null. done.
Qed.

(** The payload decoder accepts exactly the encodings of typed mutations. *)
Lemma decode_record_mutation_v1_Ok b m :
  decode_record_mutation_v1 b = Ok m <->
  typed_mutation m = true /\ encode_record_mutation_v1 m = Ok b.
Proof.
  unfold decode_record_mutation_v1. split.
  - intros Hd. destruct (MAX_CBOR_OPERATION_BYTES <? len b); [done|].
    apply rbind_Ok in Hd as ([[[[rk mk] i] m'] d] & He & Hd).
    apply decode_mutation_entries_typed in He. res_inv. wf_inv. by subst.
  - intros [Ht Hb]. pose proof Hb as (Hv & Hl & payload & Hp & Eb)%encode_record_mutation_v1_Ok.
    rewrite (proj2 (N.ltb_ge _ _)) by done.
    rewrite Eb at 1. rewrite (decode_mutation_entries_enc m payload) by done. cbn [rbind].
    rewrite !bool_decide_eq_true_2 by done. cbn [negb orb]. rewrite Hv. cbn [map_err rbind].
    rewrite Hb. cbn [rbind]. by rewrite bool_decide_eq_true_2.
Qed.

(**  The canonical codec of record mutations: a byte string decodes to a
    mutation exactly when the mutation is well typed and the string is its
    encoding; a decoded mutation satisfies its record's validation. *)
Theorem mutation_codec_canonical b m :
  (decode_record_mutation_v1 b = Ok m <->
   typed_mutation m = true /\ encode_record_mutation_v1 m = Ok b)
  /\ (decode_record_mutation_v1 b = Ok m -> RecordMutationV1_validate m = Ok tt).
Proof.
  split; [apply decode_record_mutation_v1_Ok|].
  by intros [_ (Hv & _)%encode_record_mutation_v1_Ok]%decode_record_mutation_v1_Ok.
Qed.

End facts.

(** ** An instance of the JSON boundary

    A serialiser for any countable type, which satisfies the laws; it stands in
    for JSON where a theorem is applied at concrete values. *)

Module CountableJson.

Fixpoint bits (p : positive) : bytes :=
  match p with
  | xH => []
  | xO p' => Byte.x00 :: bits p'
  | xI p' => Byte.x01 :: bits p'
  end.

Fixpoint of_bits (b : bytes) : positive :=
  match b with
  | [] => xH
  | Byte.x00 :: b' => xO (of_bits b')
  | _ :: b' => xI (of_bits b')
  end.

Lemma of_bits_bits p : of_bits (bits p) = p.
Proof. induction p; simpl; congruence. Qed.

Definition json {T} `{Countable T} (typed : T -> bool) : SerdeJson T := {|
  to_vec v := let b := bits (encode v) in if len b <=? u64_max then Some b else None;
  from_slice b := v ← decode (of_bits b); if typed v : bool then Some v else None |}.

Lemma json_laws {T} `{Countable T} (typed : T -> bool) : SerdeJsonLaws (json typed) typed.
Proof.
  split; simpl.
  - intros v b Ht. destruct (N.leb_spec (len (bits (encode v))) u64_max); [|done].
    intros [= <-]. split; [done|]. rewrite of_bits_bits, decode_encode. simpl. by rewrite Ht.
  - intros b v (w & _ & Hw)%bind_Some. case_match; naive_solver.
Qed.

#[export] Instance HarnessId_countable : Countable HarnessId.
Proof.
  refine (inj_countable' (fun x => match x with ClaudeCode => 0%nat | Codex => 1%nat | Hermes => 2%nat | OpenCode => 3%nat end)
    (fun n => match n with 0%nat => ClaudeCode | 1%nat => Codex | 2%nat => Hermes | _ => OpenCode end) _); by intros [].
Defined.
#[export] Instance MemoryKind_countable : Countable MemoryKind.
Proof.
  refine (inj_countable' (fun x => match x with Fact => 0%nat | Decision_ => 1%nat | Preference => 2%nat | Pattern => 3%nat | Procedure => 4%nat | Note => 5%nat end)
    (fun n => match n with 0%nat => Fact | 1%nat => Decision_ | 2%nat => Preference | 3%nat => Pattern | 4%nat => Procedure | _ => Note end) _); by intros [].
Defined.
#[export] Instance MemoryOrigin_countable : Countable MemoryOrigin.
Proof.
  refine (inj_countable' (fun x => match x with Explicit => 0%nat | Inferred => 1%nat | NativeImport => 2%nat | PackageImport => 3%nat end)
    (fun n => match n with 0%nat => Explicit | 1%nat => Inferred | 2%nat => NativeImport | _ => PackageImport end) _); by intros [].
Defined.
#[export] Instance CandidateState_countable : Countable CandidateState.
Proof.
  refine (inj_countable' (fun x => match x with Pending => 0%nat | Accepted => 1%nat | Rejected => 2%nat end)
    (fun n => match n with 0%nat => Pending | 1%nat => Accepted | _ => Rejected end) _); by intros [].
Defined.
#[export] Instance TaskStatus_countable : Countable TaskStatus.
Proof.
  refine (inj_countable' (fun x => match x with Open => 0%nat | InProgress => 1%nat | Blocked => 2%nat | Done => 3%nat | Canceled => 4%nat end)
    (fun n => match n with 0%nat => Open | 1%nat => InProgress | 2%nat => Blocked | 3%nat => Done | _ => Canceled end) _); by intros [].
Defined.
#[export] Instance ComponentKind_countable : Countable ComponentKind.
Proof.
  refine (inj_countable' (fun x => match x with Instruction => 0%nat | Rule => 1%nat | Skill => 2%nat | Plugin => 3%nat | McpServer => 4%nat | Hook => 5%nat | PermissionDeclaration => 6%nat end)
    (fun n => match n with 0%nat => Instruction | 1%nat => Rule | 2%nat => Skill | 3%nat => Plugin | 4%nat => McpServer | 5%nat => Hook | _ => PermissionDeclaration end) _); by intros [].
Defined.
#[export] Instance ScopeRef_countable : Countable ScopeRef.
Proof.
  refine (inj_countable' (fun x => match x with Global => None | Project p => Some p end)
    (fun o => match o with None => Global | Some p => Project p end) _); by intros [].
Defined.
#[export] Instance ProvenanceSource_countable : Countable ProvenanceSource.
Proof.
  refine (inj_countable' (fun x => match x with Record_ p => inl p | Package p => inr p end)
    (fun o => match o with inl p => Record_ p | inr p => Package p end) _); by intros [].
Defined.
#[export] Instance HybridLogicalClock_countable : Countable HybridLogicalClock.
Proof.
  refine (inj_countable' (fun x => (physical_ms x, logical x, node x))
    (fun '(a0, a1, a2) =>
      {| physical_ms := a0; logical := a1; node := a2 |}) _); by intros [].
Defined.
#[export] Instance Provenance_countable : Countable Provenance.
Proof.
  refine (inj_countable' (fun x => (pv_origin_device x, pv_harness x, pv_source x, pv_created_hlc x))
    (fun '(a0, a1, a2, a3) =>
      {| pv_origin_device := a0; pv_harness := a1; pv_source := a2; pv_created_hlc := a3 |}) _); by intros [].
Defined.
#[export] Instance MemoryRecord_countable : Countable MemoryRecord.
Proof.
  refine (inj_countable' (fun x => (mem_id x, mem_scope x, mem_kind x, mem_title x, mem_body_markdown x, mem_tags x, mem_origin x, mem_provenance x, mem_revision x, mem_created_hlc x, mem_updated_hlc x, mem_archived x))
    (fun '(a0, a1, a2, a3, a4, a5, a6, a7, a8, a9, a10, a11) =>
      {| mem_id := a0; mem_scope := a1; mem_kind := a2; mem_title := a3; mem_body_markdown := a4; mem_tags := a5; mem_origin := a6; mem_provenance := a7; mem_revision := a8; mem_created_hlc := a9; mem_updated_hlc := a10; mem_archived := a11 |}) _); by intros [].
Defined.
#[export] Instance MemoryCandidate_countable : Countable MemoryCandidate.
Proof.
  refine (inj_countable' (fun x => (cand_id x, cand_proposed_memory x, cand_evidence_summary x, cand_source_harness x, cand_state x))
    (fun '(a0, a1, a2, a3, a4) =>
      {| cand_id := a0; cand_proposed_memory := a1; cand_evidence_summary := a2; cand_source_harness := a3; cand_state := a4 |}) _); by intros [].
Defined.
#[export] Instance TaskEvidence_countable : Countable TaskEvidence.
Proof.
  refine (inj_countable' (fun x => (ev_summary x, ev_evidence_kind x, ev_reference x, ev_recorded_hlc x))
    (fun '(a0, a1, a2, a3) =>
      {| ev_summary := a0; ev_evidence_kind := a1; ev_reference := a2; ev_recorded_hlc := a3 |}) _); by intros [].
Defined.
#[export] Instance TaskRecord_countable : Countable TaskRecord.
Proof.
  refine (inj_countable' (fun x => (task_id x, task_project_id x, task_title x, task_body_markdown x, task_status x, task_evidence x, task_revision x))
    (fun '(a0, a1, a2, a3, a4, a5, a6) =>
      {| task_id := a0; task_project_id := a1; task_title := a2; task_body_markdown := a3; task_status := a4; task_evidence := a5; task_revision := a6 |}) _); by intros [].
Defined.
#[export] Instance SecretRef_countable : Countable SecretRef.
Proof.
  refine (inj_countable' (fun x => (sec_id x, sec_name x, sec_provider x, sec_required_on_device x))
    (fun '(a0, a1, a2, a3) =>
      {| sec_id := a0; sec_name := a1; sec_provider := a2; sec_required_on_device := a3 |}) _); by intros [].
Defined.
#[export] Instance InstructionRecord_countable : Countable InstructionRecord.
Proof.
  refine (inj_countable' (fun x => (ins_id x, ins_scope x, ins_title x, ins_body_markdown x, ins_provenance x, ins_archived x))
    (fun '(a0, a1, a2, a3, a4, a5) =>
      {| ins_id := a0; ins_scope := a1; ins_title := a2; ins_body_markdown := a3; ins_provenance := a4; ins_archived := a5 |}) _); by intros [].
Defined.
#[export] Instance ComponentRecord_countable : Countable ComponentRecord.
Proof.
  refine (inj_countable' (fun x => (com_id x, com_scope x, com_kind x, com_name x, com_body_markdown x, com_metadata x, com_provenance x, com_archived x))
    (fun '(a0, a1, a2, a3, a4, a5, a6, a7) =>
      {| com_id := a0; com_scope := a1; com_kind := a2; com_name := a3; com_body_markdown := a4; com_metadata := a5; com_provenance := a6; com_archived := a7 |}) _); by intros [].
Defined.
#[export] Instance ProjectIdentityWire_eq_dec : EqDecision ProjectIdentityWire.
Proof. solve_decision. Defined.
#[export] Instance ProjectIdentityWire_countable : Countable ProjectIdentityWire.
Proof.
  refine (inj_countable' (fun x => (wire_project_id x, wire_github_repository_id x, wire_git_remote_fingerprint x, wire_monorepo_subdirectory x, wire_name x))
    (fun '(a0, a1, a2, a3, a4) =>
      {| wire_project_id := a0; wire_github_repository_id := a1; wire_git_remote_fingerprint := a2; wire_monorepo_subdirectory := a3; wire_name := a4 |}) _); by intros [].
Defined.

Section instance.
Context `{UuidCrate}.

Definition records : RecordJson := {|
  json_memory := json typed_memory; json_candidate := json typed_candidate;
  json_task := json typed_task; json_secret_ref := json typed_secret_ref;
  json_instruction := json typed_instruction; json_component := json typed_component;
  json_project_wire := json (fun w => typed_project (project_of_wire w)) |}.

Lemma records_laws : @RecordJsonLaws _ records.
Proof. split; apply json_laws. Qed.

End instance.

Definition sample : RecordMutationV1 := UpsertSecretRef {|
  sec_id := Fixture.id; sec_name := lit "db"; sec_provider := lit "env";
  sec_required_on_device := true |}.

#[local] Existing Instances rfc9562 Rfc8949.codec Rfc8949.codec_laws records records_laws.

Lemma mutation_codec_canonical_witness :
  exists b, encode_record_mutation_v1 sample = Ok b
            /\ decode_record_mutation_v1 b = Ok sample.
Proof.
  eexists. split; [vm_compute; reflexivity|].
  refine (proj2 (proj1 (mutation_codec_canonical _ sample)) _).
  split; vm_compute; reflexivity.
Defined.

End CountableJson.
