(* ===== verification/Crypto.v ===== *)
(** * Device keys, payload encryption and certificates (core/crypto.rs)

    The cryptographic libraries (sha2, ed25519-dalek, x25519-dalek, hkdf,
    chacha20poly1305) are outside the repository and enter as [Primitives].
    Randomness is the bytes the generator yields ([None] when it fails), and the
    process-wide nonce registry is passed as state, also through failures. *)

From S2P Require Import Prelude Ordering Text Protocol Minicbor CanonicalCbor.

#[local] Open Scope N_scope.

(** ** The libraries *)

Class Primitives := {
  sha256 : bytes -> bytes;
  ed25519_public : bytes -> bytes;
  ed25519_sign : bytes -> bytes -> bytes;
  (** [VerifyingKey::from_bytes(k).is_ok()], [is_weak], [verify_strict]. *)
  ed25519_decompress : bytes -> bool;
  ed25519_is_weak : bytes -> bool;
  ed25519_verify_strict : bytes -> bytes -> bytes -> bool;
  x25519_public : bytes -> bytes;
  x25519_diffie_hellman : bytes -> bytes -> bytes;
  (** [SharedSecret::was_contributory] of the secret and the peer's key. *)
  x25519_was_contributory : bytes -> bytes -> bool;
  (** [Hkdf::new(salt, ikm).expand(info, &mut [0; 32])]. *)
  hkdf_expand32 : option bytes -> bytes -> bytes -> option bytes;
  (** key, nonce, associated data, message. *)
  xchacha_encrypt : bytes -> bytes -> bytes -> bytes -> option bytes;
  xchacha_decrypt : bytes -> bytes -> bytes -> bytes -> option bytes;
}.

(** The value of a little-endian byte string. *)
Fixpoint le_value (l : bytes) : N :=
  match l with
  | [] => 0
  | b :: l' => Byte.to_N b + 256 * le_value l'
  end.

(** [bytes[31] &= 0x7f] on 32 bytes. *)
Definition clear_sign_bit (l : bytes) : bytes :=
  alter (fun b => byte_of (N.land (Byte.to_N b) 0x7f)) 31%nat l.

Definition ed25519_modulus : N := 2 ^ 255 - 19.

Class PrimitivesLaws `{Primitives} : Prop := {
  sha256_len m : len (sha256 m) = 32;
  public_len s : len s = 32 -> len (ed25519_public s) = 32;
  sign_len s m : len (ed25519_sign s m) = 64;
  (** A generated key is a canonical point of large order. *)
  public_canonical s : len s = 32 ->
    le_value (clear_sign_bit (ed25519_public s)) < ed25519_modulus;
  public_decompress s : len s = 32 -> ed25519_decompress (ed25519_public s) = true;
  public_not_weak s : len s = 32 -> ed25519_is_weak (ed25519_public s) = false;
  sign_verify s m : len s = 32 ->
    ed25519_verify_strict (ed25519_public s) m (ed25519_sign s m) = true;
  diffie_hellman_comm a b : len a = 32 -> len b = 32 ->
    x25519_diffie_hellman a (x25519_public b) = x25519_diffie_hellman b (x25519_public a);
  public_contributory a b : len a = 32 -> len b = 32 ->
    x25519_was_contributory a (x25519_public b) = true;
  decrypt_encrypt k n a m c :
    xchacha_encrypt k n a m = Some c -> xchacha_decrypt k n a c = Some m;
}.

Inductive CryptoError :=
| InvalidPhrase | InvalidKey | CryptoAuthenticationFailed | NonceReuse
| RandomnessUnavailable | InvalidProtocolValue.

#[global] Instance CryptoError_eq_dec : EqDecision CryptoError.
Proof. solve_decision. Defined.

Definition ED25519_FIELD_MODULUS_LOW_BYTE : N := 0xed.

Record DeviceKeys := { signing_secret : bytes; wrapping_secret : bytes }.

(** [ContentKey { bytes }]. *)
Abbreviation ContentKey := bytes (only parsing).
Abbreviation SecretBytes := bytes (only parsing).

Record EncryptedPayload := { enc_nonce : XChaChaNonce; enc_ciphertext : bytes }.

Record WrappedKeyEnvelope := {
  wrap_ephemeral_public_key : bytes;
  wrap_nonce : XChaChaNonce;
  wrap_ciphertext : bytes;
}.

Inductive CertificateIssuerV1 :=
| RecoveryRoot (key : Ed25519PublicKeyBytes)
| IssuerDevice (device_id : DeviceId) (signing_public_key : Ed25519PublicKeyBytes).

Record DeviceCertificateV1 := {
  cert_issuer : CertificateIssuerV1;
  cert_account_id : AccountId;
  cert_workspace_id : WorkspaceId;
  cert_control_epoch : N;
  cert_request_nonce : bytes;
  cert_device_id : DeviceId;
  cert_signing_public_key : Ed25519PublicKeyBytes;
  cert_wrapping_public_key : bytes;
  cert_signature : Ed25519SignatureBytes;
}.

Record CertificateFieldsV1 := {
  fields_account_id : AccountId;
  fields_workspace_id : WorkspaceId;
  fields_control_epoch : N;
  fields_request_nonce : bytes;
  fields_device_id : DeviceId;
  fields_signing_public_key : Ed25519PublicKeyBytes;
  fields_wrapping_public_key : bytes;
}.

#[global] Instance CertificateIssuerV1_eq_dec : EqDecision CertificateIssuerV1.
Proof. solve_decision. Defined.
#[global] Instance DeviceCertificateV1_eq_dec : EqDecision DeviceCertificateV1.
Proof. solve_decision. Defined.

(** The registry of nonces used in this process, by key identifier. *)
Abbreviation NonceRegistry := (gmap bytes (gset bytes)).

Section crypto.
Context `{Primitives}.

(** ** Signatures *)

Definition validate_ed25519_public_key (public_key : Ed25519PublicKeyBytes)
    : result CryptoError unit :=
  let compressed_y := clear_sign_bit public_key in
  if (Byte.to_N (nth 31 compressed_y Byte.x00) =? 0x7f)
     && forallb (fun b => Byte.to_N b =? 0xff) (take 30 (drop 1 compressed_y))
     && (ED25519_FIELD_MODULUS_LOW_BYTE <=? Byte.to_N (nth 0 compressed_y Byte.x00))
  then Err InvalidKey
  else if negb (ed25519_decompress public_key) then Err InvalidKey
  else if ed25519_is_weak public_key then Err InvalidKey
  else Ok tt.

Definition verify_signature (public_key : Ed25519PublicKeyBytes) (message : bytes)
    (signature : Ed25519SignatureBytes) : result CryptoError unit :=
  let? _ := validate_ed25519_public_key public_key in
  if ed25519_verify_strict public_key message signature then Ok tt
  else Err CryptoAuthenticationFailed.

Definition signing_public_key (keys : DeviceKeys) : Ed25519PublicKeyBytes :=
  ed25519_public (signing_secret keys).

Definition sign (keys : DeviceKeys) (message : bytes) : Ed25519SignatureBytes :=
  ed25519_sign (signing_secret keys) message.

Definition sign_sync_operation `{Minicbor} (keys : DeviceKeys) (operation : SyncOperationV1)
    : result CryptoError SyncOperationV1 :=
  let? preimage := map_err (fun _ => InvalidProtocolValue)
    (encode_sync_operation_signing_preimage_v1 operation) in
  Ok (with_signature operation (sign keys preimage)).

Definition verify_sync_operation `{Minicbor} (keys : DeviceKeys) (operation : SyncOperationV1)
    : result CryptoError unit :=
  let? preimage := map_err (fun _ => InvalidProtocolValue)
    (encode_sync_operation_signing_preimage_v1 operation) in
  verify_signature (signing_public_key keys) preimage (op_signature operation).

Definition sign_checkpoint `{Minicbor} (keys : DeviceKeys) (checkpoint : CheckpointV1)
    : result CryptoError CheckpointV1 :=
  let? preimage := map_err (fun _ => InvalidProtocolValue)
    (encode_checkpoint_signing_preimage_v1 checkpoint) in
  Ok (with_checkpoint_signature checkpoint (sign keys preimage)).

Definition verify_checkpoint_signature `{Minicbor} (keys : DeviceKeys)
    (checkpoint : CheckpointV1) : result CryptoError unit :=
  let? preimage := map_err (fun _ => InvalidProtocolValue)
    (encode_checkpoint_signing_preimage_v1 checkpoint) in
  verify_signature (signing_public_key keys) preimage (cp_signature checkpoint).

(** ** Payload encryption *)

Definition ascii_bytes (s : string) : bytes := as_bytes (lit s).
Definition NONCE_KEY_DOMAIN : bytes := ascii_bytes "context-relay/nonce-key-id/v1" ++ [Byte.x00].

Definition nonce_key_id (k : bytes) : bytes := sha256 (NONCE_KEY_DOMAIN ++ k).

(** [nonces.entry(key_id).or_default().insert(nonce)] creates the entry also
    when the nonce is already there. *)
Definition reserve_nonce (nonces : NonceRegistry) (k nonce : bytes)
    : NonceRegistry * result CryptoError unit :=
  let key_id := nonce_key_id k in
  let used := default ∅ (nonces !! key_id) in
  (<[key_id := {[ nonce ]} ∪ used]> nonces,
   if bool_decide (nonce ∈ used) then Err NonceReuse else Ok tt).

Definition encrypt_xchacha_with_nonce (nonces : NonceRegistry) (k plaintext aad nonce : bytes)
    : NonceRegistry * result CryptoError EncryptedPayload :=
  let '(nonces, reserved) := reserve_nonce nonces k nonce in
  (nonces,
   let? _ := reserved in
   let? ciphertext := ok_or (xchacha_encrypt k nonce aad plaintext) CryptoAuthenticationFailed in
   Ok {| enc_nonce := nonce; enc_ciphertext := ciphertext |}).

(** [random]: the 24 bytes the generator fills in, if it does. *)
Definition encrypt_xchacha_with_rng (nonces : NonceRegistry) (k plaintext aad : bytes)
    (random : option bytes) : NonceRegistry * result CryptoError EncryptedPayload :=
  match random with
  | None => (nonces, Err RandomnessUnavailable)
  | Some nonce => encrypt_xchacha_with_nonce nonces k plaintext aad nonce
  end.

Definition decrypt_xchacha (k nonce ciphertext aad : bytes) : result CryptoError SecretBytes :=
  ok_or (xchacha_decrypt k nonce aad ciphertext) CryptoAuthenticationFailed.

Definition ContentKey_decrypt (self : ContentKey) (encrypted : EncryptedPayload) (aad : bytes)
    : result CryptoError SecretBytes :=
  decrypt_xchacha self (enc_nonce encrypted) (enc_ciphertext encrypted) aad.

(** ** Key wrapping *)

Definition X25519_WRAP_LABEL : bytes := ascii_bytes "context-relay/x25519-wrap/v1".

Definition validate_x25519_public_key (public_key : bytes) : result CryptoError unit :=
  if x25519_was_contributory (replicate 32 (byte_of 0x42)) public_key
  then Ok tt else Err InvalidKey.

Definition derive_wrap_key (shared ephemeral_public recipient_public : bytes)
    : result CryptoError bytes :=
  ok_or (hkdf_expand32 None shared (X25519_WRAP_LABEL ++ ephemeral_public ++ recipient_public))
    InvalidKey.

(** [ephemeral] and [random] are the two draws from the generator. *)
Definition wrap_secret_with_rng (nonces : NonceRegistry)
    (recipient_public_key plaintext aad : bytes) (ephemeral random : option bytes)
    : NonceRegistry * result CryptoError WrappedKeyEnvelope :=
  match validate_x25519_public_key recipient_public_key with
  | Err e => (nonces, Err e)
  | Ok _ =>
    match ephemeral with
    | None => (nonces, Err RandomnessUnavailable)
    | Some ephemeral_secret =>
      let ephemeral_public := x25519_public ephemeral_secret in
      let shared := x25519_diffie_hellman ephemeral_secret recipient_public_key in
      if negb (x25519_was_contributory ephemeral_secret recipient_public_key)
      then (nonces, Err InvalidKey) else
      match derive_wrap_key shared ephemeral_public recipient_public_key with
      | Err e => (nonces, Err e)
      | Ok k =>
        let '(nonces, encrypted) := encrypt_xchacha_with_rng nonces k plaintext aad random in
        (nonces,
         let? encrypted := encrypted in
         Ok {| wrap_ephemeral_public_key := ephemeral_public;
               wrap_nonce := enc_nonce encrypted;
               wrap_ciphertext := enc_ciphertext encrypted |})
      end
    end
  end.

Definition unwrap_x25519 (recipient_secret : bytes) (envelope : WrappedKeyEnvelope)
    (aad : bytes) : result CryptoError SecretBytes :=
  let? _ := validate_x25519_public_key (wrap_ephemeral_public_key envelope) in
  let recipient_public := x25519_public recipient_secret in
  let ephemeral_public := wrap_ephemeral_public_key envelope in
  let shared := x25519_diffie_hellman recipient_secret ephemeral_public in
  if negb (x25519_was_contributory recipient_secret ephemeral_public) then Err InvalidKey else
  let? k := derive_wrap_key shared ephemeral_public recipient_public in
  decrypt_xchacha k (wrap_nonce envelope) (wrap_ciphertext envelope) aad.

(** ** Certificates *)

Definition CERTIFICATE_DOMAIN : bytes :=
  ascii_bytes "context-relay/device-certificate/v1" ++ [Byte.x00].

Definition issuer_signing_public_key (issuer : CertificateIssuerV1) : Ed25519PublicKeyBytes :=
  match issuer with
  | RecoveryRoot k => k
  | IssuerDevice _ k => k
  end.

Definition issuer_bytes (issuer : CertificateIssuerV1) : bytes :=
  match issuer with
  | RecoveryRoot k => Byte.x00 :: k
  | IssuerDevice device_id k => Byte.x01 :: device_id ++ k
  end.

Definition certificate_signing_preimage (c : DeviceCertificateV1) : bytes :=
  CERTIFICATE_DOMAIN ++ issuer_bytes (cert_issuer c)
  ++ cert_account_id c ++ cert_workspace_id c ++ to_be 4 (cert_control_epoch c)
  ++ cert_request_nonce c ++ cert_device_id c ++ cert_signing_public_key c
  ++ cert_wrapping_public_key c.

Definition certificate_unsigned (fields : CertificateFieldsV1) (issuer : CertificateIssuerV1)
    (signature : bytes) : DeviceCertificateV1 := {|
  cert_issuer := issuer;
  cert_account_id := fields_account_id fields;
  cert_workspace_id := fields_workspace_id fields;
  cert_control_epoch := fields_control_epoch fields;
  cert_request_nonce := fields_request_nonce fields;
  cert_device_id := fields_device_id fields;
  cert_signing_public_key := fields_signing_public_key fields;
  cert_wrapping_public_key := fields_wrapping_public_key fields;
  cert_signature := signature |}.

Definition issue_by_device (fields : CertificateFieldsV1) (issuer_device_id : DeviceId)
    (issuer : DeviceKeys) : DeviceCertificateV1 :=
  let by_device := IssuerDevice issuer_device_id (signing_public_key issuer) in
  let certificate := certificate_unsigned fields by_device (zero_bytes 64) in
  certificate_unsigned fields by_device (sign issuer (certificate_signing_preimage certificate)).

Definition verify_issued_by (self : DeviceCertificateV1) (issuer : CertificateIssuerV1)
    : result CryptoError unit :=
  if negb (bool_decide (cert_issuer self = issuer)) then Err CryptoAuthenticationFailed else
  verify_signature (issuer_signing_public_key issuer) (certificate_signing_preimage self)
    (cert_signature self).

(** The sizes Rust's types fix. *)
Definition wf_issuer `{UuidCrate} (issuer : CertificateIssuerV1) : bool :=
  match issuer with
  | RecoveryRoot k => wf_fixed 32 k
  | IssuerDevice device_id k => wf_id device_id && wf_fixed 32 k
  end.

Definition wf_certificate `{UuidCrate} (c : DeviceCertificateV1) : bool :=
  wf_issuer (cert_issuer c) && wf_id (cert_account_id c) && wf_id (cert_workspace_id c)
  && (cert_control_epoch c <=? u32_max) && wf_fixed 32 (cert_request_nonce c)
  && wf_id (cert_device_id c) && wf_fixed 32 (cert_signing_public_key c)
  && wf_fixed 32 (cert_wrapping_public_key c) && wf_fixed 64 (cert_signature c).

End crypto.

(** ** Facts *)

Lemma le_value_app l k : le_value (l ++ k) = le_value l + 256 ^ len l * le_value k.
Proof.
  induction l as [|b l IH]; simpl; [rewrite N.mul_1_l; done|].
  rewrite IH, len_cons, N.pow_add_r, N.pow_1_r. lia.
Qed.

Lemma le_value_bound l : le_value l < 256 ^ len l.
Proof.
  induction l as [|b l IH]; simpl; [by vm_compute|].
  rewrite len_cons, N.pow_add_r, N.pow_1_r. pose proof (byte_to_N_lt b). lia.
Qed.

Lemma le_value_max l :
  forallb (fun b => Byte.to_N b =? 0xff) l = true <-> le_value l = 256 ^ len l - 1.
Proof.
  induction l as [|b l IH]; simpl; [by vm_compute|].
  rewrite andb_true_iff, IH, N.eqb_eq, len_cons, N.pow_add_r, N.pow_1_r.
  pose proof (byte_to_N_lt b). pose proof (le_value_bound l). lia.
Qed.

(** The three parts of a 32-byte key that the range check looks at. *)
Lemma split_key (k : bytes) :
  len k = 32 -> exists b0 mid b31, k = b0 :: mid ++ [b31] /\ length mid = 30%nat.
Proof.
  unfold len. intros Hk. destruct k as [|b0 k]; [done|].
  destruct k as [|b31 mid _] using rev_ind; [done|].
  exists b0, mid, b31. split; [done|]. simpl in Hk. rewrite length_app in Hk. simpl in Hk. lia.
Qed.

Lemma clear_sign_bit_split b0 mid b31 :
  length mid = 30%nat ->
  clear_sign_bit (b0 :: mid ++ [b31])
  = b0 :: mid ++ [byte_of (N.land (Byte.to_N b31) 0x7f)].
Proof.
  intros Hm. unfold clear_sign_bit.
  replace 31%nat with (length (b0 :: mid) + 0)%nat by (simpl; lia).
  change (b0 :: mid ++ [b31]) with ((b0 :: mid) ++ [b31]). rewrite alter_app_r. done.
Qed.

(** The prefix checks of the key are the comparison with the field modulus. *)
Lemma canonical_check_spec (k : bytes) :
  len k = 32 ->
  let y := clear_sign_bit k in
  (Byte.to_N (nth 31 y Byte.x00) =? 0x7f)
  && forallb (fun b => Byte.to_N b =? 0xff) (take 30 (drop 1 y))
  && (ED25519_FIELD_MODULUS_LOW_BYTE <=? Byte.to_N (nth 0 y Byte.x00))
  = (ed25519_modulus <=? le_value y).
Proof.
  intros (b0 & mid & b31 & -> & Hm)%split_key. cbv zeta.
  rewrite clear_sign_bit_split by done. set (t := byte_of _).
  assert (Ht : Byte.to_N t < 0x80).
  { unfold t. rewrite to_N_byte_of. change 0x7f with (N.ones 7).
    rewrite N.land_ones, N.mod_small; pose proof (N.mod_lt (Byte.to_N b31) (2 ^ 7)); lia. }
  clearbody t. change (drop 1 (b0 :: mid ++ [t])) with (mid ++ [t]). cbn [nth le_value].
  replace (nth 30 (mid ++ [t]) Byte.x00) with t
    by (rewrite app_nth2, Hm by lia; done).
  rewrite take_app_length' by done. rewrite le_value_app.
  assert (Hlen : len mid = 30) by (unfold len; rewrite Hm; done). rewrite Hlen.
  cbn [le_value]. pose proof (le_value_max mid) as Hmax. rewrite Hlen in Hmax.
  pose proof (le_value_bound mid) as Hmid. rewrite Hlen in Hmid.
  pose proof (byte_to_N_lt b0).
  unfold ed25519_modulus, ED25519_FIELD_MODULUS_LOW_BYTE.
  change (256 ^ 30) with (2 ^ 240) in *. change (2 ^ 255) with (2 ^ 240 * 32768).
  set (X := 2 ^ 240) in *. assert (100 < X) by by vm_compute. clearbody X.
  apply eq_true_iff_eq. rewrite !andb_true_iff, N.eqb_eq, !N.leb_le, Hmax. nia.
Qed.

Section laws.
Context `{PrimitivesLaws}.

Lemma own_signature_verifies keys m :
  len (signing_secret keys) = 32 ->
  verify_signature (signing_public_key keys) m (sign keys m) = Ok tt.
Proof.
  intros Hs. unfold verify_signature, validate_ed25519_public_key, signing_public_key, sign.
  rewrite canonical_check_spec by (by apply public_len).
  rewrite (proj2 (N.leb_gt _ _)) by (by apply public_canonical).
  rewrite public_decompress, public_not_weak by done. cbn [negb rbind].
  by rewrite sign_verify.
Qed.

Lemma encrypt_with_nonce_Ok nonces k p aad n nonces' e :
  encrypt_xchacha_with_nonce nonces k p aad n = (nonces', Ok e) ->
  enc_nonce e = n /\ (n ∉ default ∅ (nonces !! nonce_key_id k))
  /\ ContentKey_decrypt k e aad = Ok p.
Proof.
  unfold encrypt_xchacha_with_nonce, reserve_nonce. intros [= <- He].
  case_bool_decide; [done|]. cbn [rbind] in He. res_inv. subst.
  split_and!; [done..|]. unfold ContentKey_decrypt, decrypt_xchacha. simpl.
  by erewrite decrypt_encrypt.
Qed.

Lemma encrypt_with_rng_Ok nonces k p aad random nonces' e :
  encrypt_xchacha_with_rng nonces k p aad random = (nonces', Ok e) ->
  random = Some (enc_nonce e) /\ ContentKey_decrypt k e aad = Ok p.
Proof.
  unfold encrypt_xchacha_with_rng. destruct random as [n|]; [|done].
  intros (<- & _ & Hd)%encrypt_with_nonce_Ok. done.
Qed.

(** Every nonce of the registry stays in it. *)
Definition used (nonces : NonceRegistry) (k n : bytes) : Prop :=
  n ∈ default ∅ (nonces !! nonce_key_id k).

Lemma encrypt_with_nonce_used nonces k p aad n :
  used (encrypt_xchacha_with_nonce nonces k p aad n).1 k n
  /\ (forall k' n', used nonces k' n' ->
        used (encrypt_xchacha_with_nonce nonces k p aad n).1 k' n').
Proof.
  unfold encrypt_xchacha_with_nonce, reserve_nonce, used. cbn [fst].
  generalize (nonce_key_id k). intros i. split.
  - rewrite lookup_insert_eq. simpl. set_solver.
  - intros k' n'. generalize (nonce_key_id k'). intros i' Hu.
    destruct (decide (i = i')) as [->|E].
    + rewrite lookup_insert_eq. simpl. set_solver.
    + by rewrite lookup_insert_ne.
Qed.

(** Any sequence of encryptions through one registry: the requests are
    (key, plaintext, associated data, nonce). *)
Fixpoint encrypt_all (nonces : NonceRegistry) (requests : list (bytes * bytes * bytes * bytes))
    : list (result CryptoError EncryptedPayload) :=
  match requests with
  | [] => []
  | (k, p, aad, n) :: requests' =>
    let step := encrypt_xchacha_with_nonce nonces k p aad n in
    step.2 :: encrypt_all step.1 requests'
  end.

Lemma encrypt_all_used requests nonces j k p aad n e :
  used nonces k n -> requests !! j = Some (k, p, aad, n) ->
  encrypt_all nonces requests !! j = Some (Ok e) -> False.
Proof.
  revert nonces j. induction requests as [|[[[k' p'] a'] n'] requests IH];
    intros nonces [|j] Hu; try done; cbn [lookup list_lookup encrypt_all].
  - intros [= -> -> -> ->]. destruct (encrypt_xchacha_with_nonce nonces k p aad n) as [s r] eqn:E.
    cbn [snd]. intros [= ->]. by apply encrypt_with_nonce_Ok in E as (_ & ? & _).
  - apply IH. by apply encrypt_with_nonce_used.
Qed.

Lemma encrypt_all_once requests nonces i j k p p' aad aad' n e e' :
  (i < j)%nat ->
  requests !! i = Some (k, p, aad, n) -> requests !! j = Some (k, p', aad', n) ->
  encrypt_all nonces requests !! i = Some (Ok e) ->
  encrypt_all nonces requests !! j = Some (Ok e') -> False.
Proof.
  revert nonces i j. induction requests as [|[[[k1 p1] a1] n1] requests IH];
    intros nonces [|i] [|j] Hij; try done; try lia; cbn [lookup list_lookup encrypt_all].
  - intros [= -> -> -> ->] Hj _ He. eapply encrypt_all_used; [|done|done].
    apply (proj1 (encrypt_with_nonce_used _ _ _ _ _)).
  - apply IH. lia.
Qed.

Lemma certificate_preimage_inj `{UuidCrate} c c' :
  wf_certificate c = true -> wf_certificate c' = true ->
  certificate_signing_preimage c = certificate_signing_preimage c' ->
  c' = certificate_unsigned
         {| fields_account_id := cert_account_id c; fields_workspace_id := cert_workspace_id c;
            fields_control_epoch := cert_control_epoch c;
            fields_request_nonce := cert_request_nonce c; fields_device_id := cert_device_id c;
            fields_signing_public_key := cert_signing_public_key c;
            fields_wrapping_public_key := cert_wrapping_public_key c |}
         (cert_issuer c) (cert_signature c').
Proof.
  destruct c as [is1 ac ws ce rn dv sk wk sg], c' as [is2 ac' ws' ce' rn' dv' sk' wk' sg'].
  unfold wf_certificate, certificate_unsigned, certificate_signing_preimage.
  cbn [cert_issuer cert_account_id cert_workspace_id cert_control_epoch cert_request_nonce
    cert_device_id cert_signing_public_key cert_wrapping_public_key cert_signature
    fields_account_id fields_workspace_id fields_control_epoch fields_request_nonce
    fields_device_id fields_signing_public_key fields_wrapping_public_key].
  intros Hw Hw' E%app_inv_head. wf_inv.
  repeat match goal with Hi : wf_id _ = true |- _ => apply wf_id_len in Hi end.
  assert (forall n m : N, n <= u32_max -> m <= u32_max -> to_be 4 n = to_be 4 m -> n = m) as Hbe.
  { intros n m Hn Hm Hnm. apply (f_equal of_be) in Hnm.
    rewrite !of_to_be in Hnm by (unfold u32_max in *; simpl; lia). done. }
  assert (forall (a b r s : bytes), len a = len b -> a ++ r = b ++ s -> a = b /\ r = s) as Hsplit.
  { intros a b r s Hl. apply app_inj_1. unfold len in Hl. lia. }
  assert (Hi : is1 = is2 /\ ac ++ ws ++ to_be 4 ce ++ rn ++ dv ++ sk ++ wk
                = ac' ++ ws' ++ to_be 4 ce' ++ rn' ++ dv' ++ sk' ++ wk').
  { destruct is1, is2; simpl in *; try discriminate E; injection E as E; wf_inv;
      repeat match goal with Hi : wf_id _ = true |- _ => apply wf_id_len in Hi end;
      rewrite <- ?app_assoc in E.
    - apply Hsplit in E as [-> ?]; [done|congruence].
    - apply Hsplit in E as [-> E]; [|congruence].
      apply Hsplit in E as [-> ?]; [done|congruence]. }
  destruct Hi as [-> E']. clear E.
  repeat (apply Hsplit in E' as [? E']; [|first [congruence | unfold len; by rewrite !length_to_be]]).
  subst. f_equal. symmetry. by apply Hbe.
Qed.

End laws.

(** ** Properties *)

Section properties.
Context `{PrimitivesLaws}.

(**  A nonce is used at most once per key: in any sequence of encryptions
    through the process-wide registry, two that succeed under the same key have
    different nonces. *)
Theorem nonces_never_reused nonces requests i j k p p' aad aad' n n' e e' :
  i <> j ->
  requests !! i = Some (k, p, aad, n) -> requests !! j = Some (k, p', aad', n') ->
  encrypt_all nonces requests !! i = Some (Ok e) ->
  encrypt_all nonces requests !! j = Some (Ok e') ->
  n <> n'.
Proof.
  intros Hij Hi Hj He He' ->. destruct (Nat.lt_total i j) as [|[|]]; [|done|];
    by eapply encrypt_all_once.
Qed.

(** The byte-wise range check on Ed25519 keys is the comparison of the
    encoded coordinate with the field modulus: an accepted 32-byte key encodes a
    coordinate below 2^255 - 19, decompresses and has large order, and every
    other key is refused with [InvalidKey]. *)
Theorem ed25519_key_validation (k : bytes) :
  len k = 32 ->
  validate_ed25519_public_key k =
    if (le_value (clear_sign_bit k) <? ed25519_modulus)
       && ed25519_decompress k && negb (ed25519_is_weak k)
    then Ok tt else Err InvalidKey.
Proof.
  intros Hk. unfold validate_ed25519_public_key. rewrite canonical_check_spec by done.
  rewrite N.leb_antisym. by destruct (_ <? _), (ed25519_decompress k), (ed25519_is_weak k).
Qed.

(** Key wrapping round trip: the holder of the recipient secret recovers
    the wrapped secret from a successfully wrapped envelope with the same
    associated data. *)
Theorem wrap_unwrap_roundtrip nonces nonces' recipient plaintext aad ephemeral random envelope :
  len recipient = 32 -> (forall e, ephemeral = Some e -> len e = 32) ->
  wrap_secret_with_rng nonces (x25519_public recipient) plaintext aad ephemeral random
    = (nonces', Ok envelope) ->
  unwrap_x25519 recipient envelope aad = Ok plaintext.
Proof.
  intros Hr He. unfold wrap_secret_with_rng, unwrap_x25519, validate_x25519_public_key.
  rewrite public_contributory by done. destruct ephemeral as [e|]; [|done].
  specialize (He e eq_refl). rewrite public_contributory by done. cbn [negb].
  destruct (derive_wrap_key _ _ _) as [k|] eqn:Ek; [|done].
  destruct (encrypt_xchacha_with_rng _ _ _ _ _) as [s r] eqn:Er.
  intros [= <- Hw]. apply rbind_Ok in Hw as (enc & -> & [= <-]).
  apply encrypt_with_rng_Ok in Er as [_ Hd]. cbn [wrap_ephemeral_public_key wrap_nonce wrap_ciphertext].
  rewrite !public_contributory by done. cbn [rbind negb].
  rewrite diffie_hellman_comm by done. rewrite Ek. exact Hd.
Qed.

(** Device certificates: the signed bytes determine every field but the
    signature, and a certificate issued by a device verifies against exactly
    that issuer. *)
Theorem certificate_binding `{UuidCrate} c c' fields issuer_id keys :
  wf_certificate c = true -> wf_certificate c' = true -> len (signing_secret keys) = 32 ->
  (certificate_signing_preimage c = certificate_signing_preimage c' ->
   cert_issuer c = cert_issuer c' /\ cert_account_id c = cert_account_id c'
   /\ cert_workspace_id c = cert_workspace_id c'
   /\ cert_control_epoch c = cert_control_epoch c'
   /\ cert_request_nonce c = cert_request_nonce c' /\ cert_device_id c = cert_device_id c'
   /\ cert_signing_public_key c = cert_signing_public_key c'
   /\ cert_wrapping_public_key c = cert_wrapping_public_key c')
  /\ (forall issuer,
        verify_issued_by (issue_by_device fields issuer_id keys) issuer = Ok tt <->
        issuer = IssuerDevice issuer_id (signing_public_key keys)).
Proof.
  intros Hw Hw' Hk. split.
  - intros E. apply certificate_preimage_inj in E as ->; done.
  - intros issuer. unfold verify_issued_by. split.
    + intros Hv. res_inv. wf_inv. done.
    + intros ->. rewrite bool_decide_eq_true_2 by done. cbn [negb].
      apply (own_signature_verifies keys _ Hk).
Qed.

End properties.

(** ** An instance of the primitives

    Not cryptography: functions with the algebraic laws the code relies on,
    which show that the laws can hold together and let the model run. *)

Module Toy.

Definition pad (n : nat) (l : bytes) : bytes := take n (l ++ zero_bytes n).

Lemma length_pad n l : length (pad n l) = n.
Proof. unfold pad. rewrite length_take, length_app. unfold zero_bytes. rewrite length_replicate. lia. Qed.

Definition hash (m : bytes) : bytes := pad 32 (reverse m).

Definition public (s : bytes) : bytes := pad 31 s ++ [Byte.x00].

Definition add_bytes (a b : bytes) : bytes :=
  zip_with (fun x y => byte_of (Byte.to_N x + Byte.to_N y)) a b.

Definition toy : Primitives := {|
  sha256 := hash;
  ed25519_public := public;
  ed25519_sign s m := public s ++ hash m;
  ed25519_decompress _ := true;
  ed25519_is_weak _ := false;
  ed25519_verify_strict pk m sg := bool_decide (sg = pk ++ hash m);
  x25519_public s := s;
  x25519_diffie_hellman := add_bytes;
  x25519_was_contributory _ _ := true;
  hkdf_expand32 _ ikm info := Some (hash (ikm ++ info));
  xchacha_encrypt k n a m := Some (hash (k ++ n ++ a) ++ m);
  xchacha_decrypt k n a c :=
    if bool_decide (take 32 c = hash (k ++ n ++ a)) then Some (drop 32 c) else None;
|}.

Lemma add_bytes_comm a b : add_bytes a b = add_bytes b a.
Proof.
  unfold add_bytes. revert b. induction a as [|x a IH]; intros [|y b]; simpl; try done.
  by rewrite IH, N.add_comm.
Qed.

Lemma toy_laws : @PrimitivesLaws toy.
Proof.
  assert (Hpub : forall s, length (public s) = 32%nat).
  { intros s. unfold public. rewrite length_app, length_pad. done. }
  split; simpl; intros; try done.
  - unfold len, hash. by rewrite length_pad.
  - unfold len. by rewrite Hpub.
  - unfold len, hash. by rewrite length_app, Hpub, length_pad.
  - unfold clear_sign_bit, public. rewrite alter_app_r_alt by (rewrite length_pad; lia).
    rewrite length_pad. cbn [Nat.sub alter list_alter].
    rewrite le_value_app. pose proof (le_value_bound (pad 31 s)) as Hb.
    change (le_value _) with 0 at 2. unfold len in *. rewrite length_pad in *.
    change (N.of_nat 31) with 31 in *. unfold ed25519_modulus.
    change (2 ^ 255) with (256 ^ 31 * 128). lia.
  - by apply bool_decide_eq_true_2.
  - apply add_bytes_comm.
  - match goal with E : Some _ = Some _ |- _ => injection E as <- end.
    assert (Hh : length (hash (k ++ n ++ a)) = 32%nat) by apply length_pad.
    rewrite take_app_length' by done. rewrite drop_app_length' by done.
    by rewrite bool_decide_eq_true_2.
Qed.

End Toy.

Module CryptoWitness.
#[local] Existing Instances rfc9562 Toy.toy Toy.toy_laws.

Definition secret : bytes := Fixture.rep 32 7.
Definition keys : DeviceKeys := {| signing_secret := secret; wrapping_secret := secret |}.

Definition fields : CertificateFieldsV1 := {|
  fields_account_id := Fixture.id; fields_workspace_id := Fixture.id;
  fields_control_epoch := 1; fields_request_nonce := Fixture.rep 32 5;
  fields_device_id := Fixture.id; fields_signing_public_key := Fixture.rep 32 1;
  fields_wrapping_public_key := Fixture.rep 32 2 |}.

Definition requests : list (bytes * bytes * bytes * bytes) :=
  [(secret, [], [], Fixture.rep 24 1); (secret, [], [], Fixture.rep 24 1);
   (secret, [], [], Fixture.rep 24 2)].

Lemma nonces_never_reused_witness : Fixture.rep 24 1 <> Fixture.rep 24 2.
Proof.
  refine (nonces_never_reused ∅ requests 0 2 secret [] [] [] [] _ _ _ _ _ _ _ _ _);
    [done|vm_compute; reflexivity..].
Defined.

Example nonce_reuse_rejected :
  encrypt_all ∅ requests !! 1%nat = Some (Err NonceReuse).
Proof. vm_compute. reflexivity. Qed.

Lemma ed25519_key_validation_witness :
  validate_ed25519_public_key (Fixture.rep 32 0xff) = Err InvalidKey.
Proof.
  refine (eq_trans (ed25519_key_validation (Fixture.rep 32 0xff) _) _); vm_compute; reflexivity.
Defined.

Definition wrapped : NonceRegistry * result CryptoError WrappedKeyEnvelope :=
  wrap_secret_with_rng ∅ (x25519_public secret) [Byte.x01; Byte.x02] [] (Some secret)
    (Some (Fixture.rep 24 3)).

Lemma wrap_unwrap_roundtrip_witness :
  exists envelope, wrapped.2 = Ok envelope
    /\ unwrap_x25519 secret envelope [] = Ok [Byte.x01; Byte.x02].
Proof.
  eexists. split; [vm_compute; reflexivity|].
  refine (wrap_unwrap_roundtrip ∅ wrapped.1 secret [Byte.x01; Byte.x02] [] (Some secret)
    (Some (Fixture.rep 24 3)) _ _ _ _); [reflexivity|by intros e [= <-]|].
  refine (injective_projections wrapped _ eq_refl _). vm_compute. reflexivity.
Defined.

Lemma certificate_binding_witness :
  verify_issued_by (issue_by_device fields Fixture.id keys)
    (IssuerDevice Fixture.id (signing_public_key keys)) = Ok tt.
Proof.
  refine (proj2 (proj2 (certificate_binding
    (issue_by_device fields Fixture.id keys) (issue_by_device fields Fixture.id keys)
    fields Fixture.id keys _ _ _) _) _); vm_compute; reflexivity.
Defined.

End CryptoWitness.
