(* ===== verification/Operation.v ===== *)
(** * Building and verifying operations (core/sync/operation.rs, identity.rs)

    [OperationBuilder::build] seals a mutation into a signed, encrypted envelope
    that extends the device's chain; [verify_operation_envelope] is the receiving
    side.  The nonce registry is threaded through [build].  [SyncError::safe_code]
    is the durable diagnostic. *)

From S2P Require Import Prelude Ordering Text Protocol Minicbor CanonicalCbor Domain.
From S2P Require Import SyncPayload Crypto.

#[local] Open Scope N_scope.

Inductive SyncError :=
| InvalidEnvelope | InvalidIdentity | InvalidChain | InvalidFrontier | InvalidScope
| AuthenticationFailed | EncryptionFailed | DecryptionFailed | InvalidMutation
| SequenceExhausted | OperationConflict | SequenceConflict | PersistenceFailed.

#[global] Instance SyncError_eq_dec : EqDecision SyncError.
Proof. solve_decision. Defined.

Definition safe_code (self : SyncError) : string :=
  match self with
  | InvalidIdentity => "revoked"
  | PersistenceFailed => "transient"
  | InvalidEnvelope | InvalidChain | InvalidFrontier | InvalidScope
  | AuthenticationFailed | EncryptionFailed | DecryptionFailed | InvalidMutation
  | SequenceExhausted | OperationConflict | SequenceConflict => "integrity_quarantined"
  end.

(** devices/membership_crypto.rs. *)
Record MembershipEndpoint := {
  me_state_sha256 : Sha256Digest;
  me_control_epoch : N;
  me_key_epoch : N;
}.

#[global] Instance MembershipEndpoint_eq_dec : EqDecision MembershipEndpoint.
Proof. solve_decision. Defined.

Record SyncIdentity := {
  id_membership_endpoint : option MembershipEndpoint;
  id_account_id : AccountId;
  id_workspace_id : WorkspaceId;
  id_device_id : DeviceId;
  id_control_epoch : N;
  id_key_epoch : N;
  id_device_keys : DeviceKeys;
  id_content_key : ContentKey;
}.

Record OperationChainHead := { head_sequence : N; head_canonical_hash : Sha256Digest }.

#[global] Instance OperationChainHead_eq_dec : EqDecision OperationChainHead.
Proof. solve_decision. Defined.

Record BuiltOperation := {
  built_membership_endpoint : option MembershipEndpoint;
  built_operation : SyncOperationV1;
  built_canonical_bytes : bytes;
  built_canonical_hash : Sha256Digest;
  built_sealed_mutation_hash : Sha256Digest;
  built_sealed_operation_hash : Sha256Digest;
}.

Record OperationBuilder := {
  builder_identity : SyncIdentity;
  builder_fixed_nonce : option XChaChaNonce;
}.

Record OperationBuildRequest := {
  req_operation_id : OperationId;
  req_project_id : option ProjectId;
  req_mutation : RecordMutationV1;
  req_causal_frontier : list DeviceSequence;
  req_previous : option OperationChainHead;
  req_blob_refs : list BlobRef;
  req_created_hlc : HybridLogicalClock;
}.

Record TrustedOperationContext := {
  trusted_certificate : DeviceCertificateV1;
  trusted_expected_control_epoch : N;
  trusted_expected_key_epoch : N;
  trusted_previous : option OperationChainHead;
  trusted_existing_record_scope : option ScopeRef;
}.

(** [TrustedOperationContext::new(...)], [with_current_control_epoch],
    [with_existing_record_scope]. *)
Definition TrustedOperationContext_new (certificate : DeviceCertificateV1)
    (expected_key_epoch : N) (previous : option OperationChainHead)
    : TrustedOperationContext := {|
  trusted_certificate := certificate;
  trusted_expected_control_epoch := cert_control_epoch certificate;
  trusted_expected_key_epoch := expected_key_epoch;
  trusted_previous := previous;
  trusted_existing_record_scope := None |}.

Definition with_current_control_epoch (self : TrustedOperationContext) (epoch : N)
    : TrustedOperationContext := {|
  trusted_certificate := trusted_certificate self;
  trusted_expected_control_epoch := epoch;
  trusted_expected_key_epoch := trusted_expected_key_epoch self;
  trusted_previous := trusted_previous self;
  trusted_existing_record_scope := trusted_existing_record_scope self |}.

Definition with_existing_record_scope (self : TrustedOperationContext) (scope : ScopeRef)
    : TrustedOperationContext := {|
  trusted_certificate := trusted_certificate self;
  trusted_expected_control_epoch := trusted_expected_control_epoch self;
  trusted_expected_key_epoch := trusted_expected_key_epoch self;
  trusted_previous := trusted_previous self;
  trusted_existing_record_scope := Some scope |}.

(** ** Checks *)

Definition scope_project (scope : ScopeRef) : option ProjectId :=
  match scope with
  | Global => None
  | Project project_id => Some project_id
  end.

Definition scope_matches (project_id : option ProjectId) (mutation : RecordMutationV1) : bool :=
  match mutation with
  | UpsertMemory record => bool_decide (scope_project (mem_scope record) = project_id)
  | UpsertMemoryCandidate record =>
      bool_decide (scope_project (mem_scope (cand_proposed_memory record)) = project_id)
  | UpsertTask record => bool_decide (project_id = Some (task_project_id record))
  | UpsertSecretRef _ => bool_decide (project_id = None)
  | UpsertInstruction record => bool_decide (scope_project (ins_scope record) = project_id)
  | UpsertComponent record => bool_decide (scope_project (com_scope record) = project_id)
  | UpsertProject record => bool_decide (project_id = Some (proj_project_id record))
  | TombstoneMutation record_id record_kind =>
    match record_kind with
    | KProject => match project_id with Some p => bool_decide (p = record_id) | None => false end
    | KTask => bool_decide (is_Some project_id)
    | KSecretRef => bool_decide (project_id = None)
    | _ => true
    end
  end.

Definition validate_frontier (frontier : list DeviceSequence) (operation_device : DeviceId)
    (operation_sequence : option N) : result SyncError unit :=
  if frontier_out_of_order frontier
     || existsb (fun entry => ds_sequence entry =? 0) frontier
     || match operation_sequence with
        | Some sequence =>
            existsb (fun entry => bool_decide (ds_device_id entry = operation_device)
                                  && (sequence <=? ds_sequence entry)) frontier
        | None => false
        end
  then Err InvalidFrontier else Ok tt.

(** The sequence and predecessor hash that extend a chain. *)
Definition chain_successor (previous : option OperationChainHead)
    : result SyncError (N * Sha256Digest) :=
  match previous with
  | Some head =>
      let? sequence := ok_or (checked_add u64_max (head_sequence head) 1) SequenceExhausted in
      Ok (sequence, head_canonical_hash head)
  | None => Ok (1, zero_digest)
  end.

Definition validate_chain (operation : SyncOperationV1) (previous : option OperationChainHead)
    : result SyncError unit :=
  let? expected := chain_successor previous in
  if bool_decide ((op_device_sequence operation, op_previous_device_hash operation) = expected)
  then Ok tt else Err InvalidChain.

Definition validate_tombstone_scope (operation : SyncOperationV1)
    (trusted : TrustedOperationContext) : result SyncError unit :=
  if negb (bool_decide (op_mutation_kind operation = Tombstone)) then Ok tt else
  let? existing_scope := ok_or (trusted_existing_record_scope trusted) InvalidScope in
  if negb (bool_decide (scope_project existing_scope = op_project_id operation))
  then Err InvalidScope
  else if bool_decide (op_record_kind operation = KProject)
          && negb match op_project_id operation with
                  | Some p => bool_decide (p = op_record_id operation)
                  | None => false
                  end
  then Err InvalidScope
  else Ok tt.

Definition validate_trusted_fields (operation : SyncOperationV1)
    (trusted : TrustedOperationContext) : result SyncError unit :=
  let certificate := trusted_certificate trusted in
  if negb (bool_decide (op_account_id operation = cert_account_id certificate))
     || negb (bool_decide (op_workspace_id operation = cert_workspace_id certificate))
     || negb (bool_decide (op_device_id operation = cert_device_id certificate))
     || (cert_control_epoch certificate =? 0)
     || (trusted_expected_control_epoch trusted <? cert_control_epoch certificate)
     || negb (op_control_epoch operation =? trusted_expected_control_epoch trusted)
     || negb (op_key_epoch operation =? trusted_expected_key_epoch trusted)
     || negb (bool_decide (node (op_created_hlc operation) = op_device_id operation))
  then Err InvalidIdentity else Ok tt.

Section operation.
Context `{UuidCrate, Minicbor, RecordJson, Primitives}.

Definition digest (b : bytes) : Sha256Digest := sha256 b.

(** ** BuiltOperation::validate_for_persistence *)

Definition validate_for_persistence (self : BuiltOperation) (mutation : RecordMutationV1)
    : result SyncError unit :=
  let? mutation_bytes := map_err (fun _ => InvalidMutation) (encode_record_mutation_v1 mutation) in
  if negb (bool_decide (digest mutation_bytes = built_sealed_mutation_hash self))
  then Err InvalidMutation else
  let? operation_bytes :=
    map_err (fun _ => InvalidEnvelope) (encode_sync_operation_v1 (built_operation self)) in
  let operation_hash := digest operation_bytes in
  if negb (bool_decide (operation_bytes = built_canonical_bytes self))
     || negb (bool_decide (operation_hash = built_canonical_hash self))
     || negb (bool_decide (operation_hash = built_sealed_operation_hash self))
  then Err InvalidEnvelope else Ok tt.

(** ** OperationBuilder::build *)

(** Everything up to the encryption: the unsealed operation and the plaintext. *)
Definition prepare_operation (self : OperationBuilder) (request : OperationBuildRequest)
    : result SyncError (SyncOperationV1 * bytes) :=
  let identity := builder_identity self in
  let mutation := req_mutation request in
  let? _ := map_err (fun _ => InvalidMutation) (RecordMutationV1_validate mutation) in
  if negb (scope_matches (req_project_id request) mutation) then Err InvalidScope else
  if negb (bool_decide (node (req_created_hlc request) = id_device_id identity))
  then Err InvalidIdentity else
  let causal_frontier := sort_by_key ds_device_id (req_causal_frontier request) in
  let? _ := validate_frontier causal_frontier (id_device_id identity) None in
  let? (device_sequence, previous_device_hash) := chain_successor (req_previous request) in
  let? _ := validate_frontier causal_frontier (id_device_id identity) (Some device_sequence) in
  let? empty := map_err (fun _ => InvalidEnvelope) (BoundedCiphertext_new []) in
  let operation := {|
    op_schema_version := SYNC_SCHEMA_VERSION;
    op_operation_id := req_operation_id request;
    op_account_id := id_account_id identity;
    op_workspace_id := id_workspace_id identity;
    op_project_id := req_project_id request;
    op_record_id := mutation_record_id mutation;
    op_record_kind := mutation_record_kind mutation;
    op_mutation_kind := mutation_mutation_kind mutation;
    op_device_id := id_device_id identity;
    op_device_sequence := device_sequence;
    op_causal_frontier := causal_frontier;
    op_control_epoch := id_control_epoch identity;
    op_key_epoch := id_key_epoch identity;
    op_previous_device_hash := previous_device_hash;
    op_nonce := zero_bytes 24;
    op_ciphertext := empty;
    op_ciphertext_hash := zero_digest;
    op_blob_refs := req_blob_refs request;
    op_created_hlc := req_created_hlc request;
    op_signature := zero_bytes 64 |} in
  let? _ := map_err (fun _ => InvalidEnvelope) (SyncOperationV1_validate operation) in
  let? plaintext := map_err (fun _ => InvalidMutation) (encode_record_mutation_v1 mutation) in
  Ok (operation, plaintext).

(** From the encrypted payload to the signed canonical bytes. *)
Definition seal_operation (identity : SyncIdentity) (operation : SyncOperationV1)
    (plaintext : bytes) (encrypted : EncryptedPayload) : result SyncError BuiltOperation :=
  let? ciphertext :=
    map_err (fun _ => InvalidEnvelope) (BoundedCiphertext_new (enc_ciphertext encrypted)) in
  let operation := with_payload operation (enc_nonce encrypted) ciphertext (digest ciphertext) in
  let? operation := map_err (fun _ => AuthenticationFailed)
    (sign_sync_operation (id_device_keys identity) operation) in
  let? canonical_bytes := map_err (fun _ => InvalidEnvelope) (encode_sync_operation_v1 operation) in
  let canonical_hash := digest canonical_bytes in
  Ok {| built_membership_endpoint := id_membership_endpoint identity;
        built_operation := operation;
        built_canonical_bytes := canonical_bytes;
        built_canonical_hash := canonical_hash;
        built_sealed_mutation_hash := digest plaintext;
        built_sealed_operation_hash := canonical_hash |}.

(** [random]: the nonce the generator yields when the builder has no fixed one. *)
Definition build (self : OperationBuilder) (request : OperationBuildRequest)
    (random : option bytes) (nonces : NonceRegistry)
    : NonceRegistry * result SyncError BuiltOperation :=
  match prepare_operation self request with
  | Err e => (nonces, Err e)
  | Ok (operation, plaintext) =>
    let aad := encode_sync_operation_aad_v1 operation in
    let content_key := id_content_key (builder_identity self) in
    let '(nonces, encrypted) :=
      match builder_fixed_nonce self with
      | Some nonce => encrypt_xchacha_with_nonce nonces content_key plaintext aad nonce
      | None => encrypt_xchacha_with_rng nonces content_key plaintext aad random
      end in
    (nonces,
     let? encrypted := map_err (fun _ => EncryptionFailed) encrypted in
     seal_operation (builder_identity self) operation plaintext encrypted)
  end.

(** ** Verification *)

Definition verify_preimage (operation : SyncOperationV1) (trusted : TrustedOperationContext)
    : result SyncError unit :=
  let? signing_preimage := map_err (fun _ => InvalidEnvelope)
    (encode_sync_operation_signing_preimage_v1 operation) in
  map_err (fun _ => AuthenticationFailed)
    (verify_signature (cert_signing_public_key (trusted_certificate trusted)) signing_preimage
       (op_signature operation)).

Definition verify_ciphertext_hash (operation : SyncOperationV1) : result SyncError unit :=
  if bool_decide (digest (op_ciphertext operation) = op_ciphertext_hash operation)
  then Ok tt else Err AuthenticationFailed.

(** [decryptor]: the [OperationDecryptor] implementation. *)
Definition verify_operation_envelope (operation : SyncOperationV1)
    (trusted : TrustedOperationContext)
    (decryptor : EncryptedPayload -> bytes -> result CryptoError SecretBytes)
    : result SyncError RecordMutationV1 :=
  let? _ := map_err (fun _ => InvalidEnvelope) (SyncOperationV1_validate operation) in
  let? _ := validate_trusted_fields operation trusted in
  let? _ := validate_tombstone_scope operation trusted in
  let? _ := verify_preimage operation trusted in
  let? _ := verify_ciphertext_hash operation in
  let? _ := validate_chain operation (trusted_previous trusted) in
  let? _ := validate_frontier (op_causal_frontier operation) (op_device_id operation)
              (Some (op_device_sequence operation)) in
  let aad := encode_sync_operation_aad_v1 operation in
  let encrypted :=
    {| enc_nonce := op_nonce operation; enc_ciphertext := op_ciphertext operation |} in
  let? plaintext := map_err (fun _ => DecryptionFailed) (decryptor encrypted aad) in
  let? mutation := map_err (fun _ => InvalidMutation) (decode_record_mutation_v1 plaintext) in
  if negb (bool_decide (op_record_id operation = mutation_record_id mutation))
     || negb (bool_decide (op_record_kind operation = mutation_record_kind mutation))
     || negb (bool_decide (op_mutation_kind operation = mutation_mutation_kind mutation))
     || negb (scope_matches (op_project_id operation) mutation)
  then Err InvalidMutation else Ok mutation.

Definition verify_operation_public_authenticity (operation : SyncOperationV1)
    (trusted : TrustedOperationContext) : result SyncError unit :=
  let? _ := map_err (fun _ => InvalidEnvelope) (SyncOperationV1_validate operation) in
  let? _ := validate_trusted_fields operation trusted in
  let? _ := verify_preimage operation trusted in
  verify_ciphertext_hash operation.

End operation.

(** ** Facts: checks *)

(** Frontier entries are strictly ascending by device, start at sequence 1 and
    do not reach the operation's own sequence. *)
Definition frontier_ok (frontier : list DeviceSequence) (device : DeviceId) (sequence : option N)
    : Prop :=
  ascending ds_device_id frontier
  /\ Forall (fun e => 0 < ds_sequence e) frontier
  /\ (forall s, sequence = Some s ->
        Forall (fun e => ds_device_id e = device -> ds_sequence e < s) frontier).

Lemma existsb_false {A} (f : A -> bool) l :
  existsb f l = false <-> Forall (fun x => f x = false) l.
Proof.
  induction l as [|x l IH]; simpl; [split; constructor|].
  rewrite orb_false_iff, IH, Forall_cons. done.
Qed.

Lemma validate_frontier_ok frontier device sequence :
  validate_frontier frontier device sequence = Ok tt <-> frontier_ok frontier device sequence.
Proof.
  unfold validate_frontier, frontier_ok. rewrite <- frontier_out_of_order_spec.
  destruct (frontier_out_of_order frontier); simpl; [naive_solver|].
  destruct (existsb (fun e => ds_sequence e =? 0) frontier) eqn:Hz; simpl.
  - split; [done|]. intros (_ & Hp & _). exfalso. apply existsb_exists in Hz as (e & He & Hz).
    apply list_elem_of_In in He. rewrite Forall_forall in Hp. apply Hp in He. wf_inv. lia.
  - apply existsb_false in Hz.
    assert (Forall (fun e => 0 < ds_sequence e) frontier)
      by (eapply Forall_impl; [exact Hz|]; simpl; intros e ?; wf_inv; lia).
    destruct sequence as [s|]; [|naive_solver].
    rewrite <- (not_true_iff_false _) in *.
    destruct (existsb _ frontier) eqn:Hs; split; try done.
    + intros (_ & _ & Hf). specialize (Hf s eq_refl).
      apply existsb_exists in Hs as (e & He & Hs). apply list_elem_of_In in He.
      rewrite Forall_forall in Hf. apply Hf in He; wf_inv; [lia|done].
    + intros _. split_and!; [done..|]. intros s' [= <-]. apply existsb_false in Hs.
      eapply Forall_impl; [exact Hs|]. intros e He Hd.
      apply andb_false_iff in He as [He|He]; wf_inv; [done|]. apply N.leb_gt in He. lia.
Qed.

Lemma validate_frontier_weaken frontier device s :
  frontier_ok frontier device (Some s) -> frontier_ok frontier device None.
Proof. unfold frontier_ok. naive_solver. Qed.

Lemma validate_chain_ok op previous :
  validate_chain op previous = Ok tt <->
  chain_successor previous = Ok (op_device_sequence op, op_previous_device_hash op).
Proof.
  unfold validate_chain. destruct (chain_successor previous) as [e|]; simpl; [|done].
  case_bool_decide; naive_solver.
Qed.

(** The fields of an operation that must agree with the trusted context. *)
Definition trusted_fields_ok (op : SyncOperationV1) (trusted : TrustedOperationContext) : Prop :=
  let certificate := trusted_certificate trusted in
  op_account_id op = cert_account_id certificate
  /\ op_workspace_id op = cert_workspace_id certificate
  /\ op_device_id op = cert_device_id certificate
  /\ 0 < cert_control_epoch certificate <= trusted_expected_control_epoch trusted
  /\ op_control_epoch op = trusted_expected_control_epoch trusted
  /\ op_key_epoch op = trusted_expected_key_epoch trusted
  /\ node (op_created_hlc op) = op_device_id op.

Lemma validate_trusted_fields_ok op trusted :
  validate_trusted_fields op trusted = Ok tt <-> trusted_fields_ok op trusted.
Proof.
  unfold validate_trusted_fields, trusted_fields_ok. split.
  - intros Hv. res_inv. wf_inv. split_and!; try done; lia.
  - intros (? & ? & ? & ? & ? & ? & ?). rewrite !bool_decide_eq_true_2 by done.
    rewrite (proj2 (N.eqb_neq _ 0)) by lia. rewrite (proj2 (N.ltb_ge _ _)) by lia.
    rewrite !(proj2 (N.eqb_eq _ _)) by done. done.
Qed.

(** A tombstone needs the scope of the record it deletes. *)
Definition tombstone_scope_ok (op : SyncOperationV1) (trusted : TrustedOperationContext) : Prop :=
  op_mutation_kind op = Tombstone ->
  exists scope, trusted_existing_record_scope trusted = Some scope
    /\ scope_project scope = op_project_id op
    /\ (op_record_kind op = KProject -> op_project_id op = Some (op_record_id op)).

Lemma validate_tombstone_scope_ok op trusted :
  validate_tombstone_scope op trusted = Ok tt <-> tombstone_scope_ok op trusted.
Proof.
  unfold validate_tombstone_scope, tombstone_scope_ok.
  case_bool_decide; simpl; [|naive_solver].
  destruct (trusted_existing_record_scope trusted) as [scope|]; simpl; [|naive_solver].
  case_bool_decide; simpl; [|naive_solver].
  case_bool_decide; simpl; [|naive_solver].
  destruct (op_project_id op) as [p|]; simpl; [|naive_solver].
  case_bool_decide; naive_solver.
Qed.

(** ** Facts: verification *)

Section verify.
Context `{UuidCrate} `{MinicborLaws} `{RecordJson} `{!RecordJsonLaws} `{PrimitivesLaws}.

(** What a verified operation satisfies. *)
Definition authentic (op : SyncOperationV1) (trusted : TrustedOperationContext) : Prop :=
  SyncOperationV1_validate op = Ok tt
  /\ trusted_fields_ok op trusted
  /\ (exists p, encode_sync_operation_signing_preimage_v1 op = Ok p
        /\ verify_signature (cert_signing_public_key (trusted_certificate trusted)) p
             (op_signature op) = Ok tt)
  /\ digest (op_ciphertext op) = op_ciphertext_hash op.

Lemma verify_preimage_ok op trusted :
  verify_preimage op trusted = Ok tt <->
  exists p, encode_sync_operation_signing_preimage_v1 op = Ok p
    /\ verify_signature (cert_signing_public_key (trusted_certificate trusted)) p
         (op_signature op) = Ok tt.
Proof.
  unfold verify_preimage. rewrite rbind_Ok. setoid_rewrite map_err_Ok. naive_solver.
Qed.

Lemma verify_ciphertext_hash_ok op :
  verify_ciphertext_hash op = Ok tt <-> digest (op_ciphertext op) = op_ciphertext_hash op.
Proof. unfold verify_ciphertext_hash. case_bool_decide; naive_solver. Qed.

Lemma rbind_unit_Ok {E B} (r : result E unit) (k : unit -> result E B) b :
  rbind r k = Ok b <-> r = Ok tt /\ k tt = Ok b.
Proof. rewrite rbind_Ok. split; [intros ([] & ? & ?)|intros [? ?]; exists tt]; done. Qed.

Lemma verify_operation_public_authenticity_ok op trusted :
  verify_operation_public_authenticity op trusted = Ok tt <-> authentic op trusted.
Proof.
  unfold verify_operation_public_authenticity, authentic.
  rewrite !rbind_unit_Ok, map_err_Ok, validate_trusted_fields_ok, verify_preimage_ok,
    verify_ciphertext_hash_ok. done.
Qed.

(** The mutation is the one the operation's fields announce. *)
Definition announces (op : SyncOperationV1) (m : RecordMutationV1) : Prop :=
  op_record_id op = mutation_record_id m /\ op_record_kind op = mutation_record_kind m
  /\ op_mutation_kind op = mutation_mutation_kind m
  /\ scope_matches (op_project_id op) m = true.

Lemma verify_operation_envelope_Ok op trusted decryptor m :
  verify_operation_envelope op trusted decryptor = Ok m <->
  authentic op trusted /\ tombstone_scope_ok op trusted
  /\ chain_successor (trusted_previous trusted)
     = Ok (op_device_sequence op, op_previous_device_hash op)
  /\ frontier_ok (op_causal_frontier op) (op_device_id op) (Some (op_device_sequence op))
  /\ (exists plaintext,
        decryptor {| enc_nonce := op_nonce op; enc_ciphertext := op_ciphertext op |}
          (encode_sync_operation_aad_v1 op) = Ok plaintext
        /\ decode_record_mutation_v1 plaintext = Ok m)
  /\ announces op m.
Proof.
  unfold verify_operation_envelope, authentic, announces.
  rewrite !rbind_unit_Ok, map_err_Ok, validate_trusted_fields_ok, validate_tombstone_scope_ok,
    verify_preimage_ok, verify_ciphertext_hash_ok, validate_chain_ok, validate_frontier_ok.
  setoid_rewrite rbind_Ok. setoid_rewrite map_err_Ok. setoid_rewrite rbind_Ok.
  setoid_rewrite map_err_Ok. split.
  - intros (? & ? & ? & ? & ? & ? & ? & plaintext & ? & m' & ? & Hm). res_inv. wf_inv.
    subst. split_and!; eauto.
  - intros ((? & ? & ? & ?) & ? & ? & ? & (plaintext & ? & ?) & ? & ? & ? & Hs).
    split_and!; try done. exists plaintext. split; [done|]. exists m. split; [done|].
    rewrite !bool_decide_eq_true_2 by done. by rewrite Hs.
Qed.

End verify.

(** ** Facts: building *)

Section build.
Context `{UuidCrate} `{MinicborLaws} `{RecordJson} `{!RecordJsonLaws} `{PrimitivesLaws}.

(** The operation [build] has before the payload is sealed. *)
Definition unsealed (identity : SyncIdentity) (request : OperationBuildRequest)
    (op : SyncOperationV1) : Prop :=
  op_account_id op = id_account_id identity /\ op_workspace_id op = id_workspace_id identity
  /\ op_device_id op = id_device_id identity
  /\ op_control_epoch op = id_control_epoch identity
  /\ op_key_epoch op = id_key_epoch identity
  /\ op_operation_id op = req_operation_id request
  /\ op_project_id op = req_project_id request
  /\ op_created_hlc op = req_created_hlc request
  /\ op_blob_refs op = req_blob_refs request
  /\ op_causal_frontier op = sort_by_key ds_device_id (req_causal_frontier request)
  /\ chain_successor (req_previous request)
     = Ok (op_device_sequence op, op_previous_device_hash op).

Lemma prepare_operation_Ok self request op plaintext :
  prepare_operation self request = Ok (op, plaintext) ->
  unsealed (builder_identity self) request op
  /\ announces op (req_mutation request)
  /\ node (op_created_hlc op) = op_device_id op
  /\ frontier_ok (op_causal_frontier op) (op_device_id op) (Some (op_device_sequence op))
  /\ SyncOperationV1_validate op = Ok tt
  /\ encode_record_mutation_v1 (req_mutation request) = Ok plaintext.
Proof.
  unfold prepare_operation. intros Hp.
  apply rbind_unit_Ok in Hp as [_ Hp]. res_inv. wf_inv.
  destruct x0 as [sequence hash]. res_inv. simplify_eq.
  repeat match goal with u : unit |- _ => destruct u end.
  repeat match goal with E : validate_frontier _ _ _ = _ |- _ =>
    apply validate_frontier_ok in E end.
  unfold unsealed, announces; simpl. split_and!; done.
Qed.

Lemma seal_operation_Ok identity op plaintext encrypted built :
  seal_operation identity op plaintext encrypted = Ok built ->
  let sealed := with_payload op (enc_nonce encrypted) (enc_ciphertext encrypted)
                  (digest (enc_ciphertext encrypted)) in
  exists p, encode_sync_operation_signing_preimage_v1 sealed = Ok p
  /\ built_operation built = with_signature sealed (sign (id_device_keys identity) p)
  /\ len (enc_ciphertext encrypted) <= MAX_CIPHERTEXT_BYTES
  /\ encode_sync_operation_v1 (built_operation built) = Ok (built_canonical_bytes built)
  /\ built_canonical_hash built = digest (built_canonical_bytes built)
  /\ built_sealed_operation_hash built = built_canonical_hash built
  /\ built_sealed_mutation_hash built = digest plaintext.
Proof.
  unfold seal_operation, sign_sync_operation. intros Hs. res_inv.
  match goal with E : BoundedCiphertext_new _ = _ |- _ =>
    apply BoundedCiphertext_new_Ok in E as [-> ?] end.
  subst. simpl. eexists. split_and!; done.
Qed.

Lemma build_Ok self request random nonces nonces' built :
  build self request random nonces = (nonces', Ok built) ->
  exists op plaintext encrypted,
    prepare_operation self request = Ok (op, plaintext)
    /\ ContentKey_decrypt (id_content_key (builder_identity self)) encrypted
         (encode_sync_operation_aad_v1 op) = Ok plaintext
    /\ (match builder_fixed_nonce self with Some n => Some n | None => random end)
       = Some (enc_nonce encrypted)
    /\ seal_operation (builder_identity self) op plaintext encrypted = Ok built.
Proof.
  unfold build. destruct (prepare_operation self request) as [[op plaintext]|]; [|done].
  destruct (builder_fixed_nonce self) as [n|];
    [destruct (encrypt_xchacha_with_nonce _ _ _ _ _) as [s r] eqn:E
    |destruct (encrypt_xchacha_with_rng _ _ _ _ _) as [s r] eqn:E];
    intros [= <- Hs]; res_inv; subst;
    [apply encrypt_with_nonce_Ok in E as (<- & _ & ?)|apply encrypt_with_rng_Ok in E as [-> ?]];
    eauto 10.
Qed.

(** What the trusted side must know for the operations of [identity] made by
    [request]. *)
Definition trusts (trusted : TrustedOperationContext) (identity : SyncIdentity)
    (request : OperationBuildRequest) : Prop :=
  let certificate := trusted_certificate trusted in
  cert_account_id certificate = id_account_id identity
  /\ cert_workspace_id certificate = id_workspace_id identity
  /\ cert_device_id certificate = id_device_id identity
  /\ cert_signing_public_key certificate = signing_public_key (id_device_keys identity)
  /\ 0 < cert_control_epoch certificate <= id_control_epoch identity
  /\ trusted_expected_control_epoch trusted = id_control_epoch identity
  /\ trusted_expected_key_epoch trusted = id_key_epoch identity
  /\ trusted_previous trusted = req_previous request
  /\ (mutation_mutation_kind (req_mutation request) = Tombstone ->
      exists scope, trusted_existing_record_scope trusted = Some scope
        /\ scope_project scope = req_project_id request).

Lemma sealed_authentic op identity request trusted n c p :
  len (signing_secret (id_device_keys identity)) = 32 ->
  unsealed identity request op -> node (op_created_hlc op) = op_device_id op ->
  SyncOperationV1_validate op = Ok tt -> trusts trusted identity request ->
  encode_sync_operation_signing_preimage_v1 (with_payload op n c (digest c)) = Ok p ->
  authentic (with_signature (with_payload op n c (digest c))
    (sign (id_device_keys identity) p)) trusted.
Proof.
  intros Hk (?&?&?&?&?&?&?&?&?&?&?) Hn Hv (?&?&?&Hpk&?&?&?&?&?) Hp.
  unfold authentic, trusted_fields_ok; cbn. split_and!; try done; try congruence; try lia.
  exists p. rewrite preimage_with_signature. split; [done|].
  rewrite Hpk. by apply own_signature_verifies.
Qed.

Lemma tombstone_trusted op request trusted identity :
  trusts trusted identity request -> op_project_id op = req_project_id request ->
  announces op (req_mutation request) -> tombstone_scope_ok op trusted.
Proof.
  intros (_&_&_&_&_&_&_&_&Ht) Ep (E1 & E2 & E3 & Hs) Hk.
  destruct Ht as (scope & Hsc & Hp); [congruence|]. exists scope.
  split_and!; [done|congruence|]. intros Hkind. rewrite Hkind in E2.
  rewrite E3 in Hk. destruct (req_mutation request); simpl in *; try discriminate Hk.
  subst. destruct (op_project_id op); [|done]. by apply bool_decide_eq_true in Hs as ->.
Qed.

(** A built operation verifies at a receiver that trusts the device, and yields
    the mutation that was sealed. *)
Lemma built_verifies self request random nonces nonces' built trusted :
  build self request random nonces = (nonces', Ok built) ->
  typed_mutation (req_mutation request) = true ->
  len (signing_secret (id_device_keys (builder_identity self))) = 32 ->
  trusts trusted (builder_identity self) request ->
  verify_operation_envelope (built_operation built) trusted
    (ContentKey_decrypt (id_content_key (builder_identity self))) = Ok (req_mutation request).
Proof.
  intros (op & plaintext & encrypted & Hprep & Hdec & _ & Hseal)%build_Ok Hm Hk Ht.
  apply prepare_operation_Ok in Hprep as (Hu & Ha & Hn & Hf & Hv & Hpl).
  apply seal_operation_Ok in Hseal as (p & Hp & -> & _).
  apply verify_operation_envelope_Ok. pose proof Hu as (?&?&?&?&?&?&?&?&?&?&Hchain).
  split_and!.
  - by eapply sealed_authentic.
  - by eapply tombstone_trusted.
  - destruct Ht as (_&_&_&_&_&_&_&->&_). done.
  - done.
  - exists plaintext. rewrite aad_with_payload. split; [|by apply decode_record_mutation_v1_Ok].
    by destruct encrypted.
  - done.
Qed.

Lemma built_persists self request random nonces nonces' built :
  build self request random nonces = (nonces', Ok built) ->
  validate_for_persistence built (req_mutation request) = Ok tt.
Proof.
  intros (op & plaintext & encrypted & Hprep & _ & _ & Hseal)%build_Ok.
  apply prepare_operation_Ok in Hprep as (_ & _ & _ & _ & _ & Hpl).
  apply seal_operation_Ok in Hseal as (p & _ & _ & _ & Hb & Hh & Hso & Hsm).
  unfold validate_for_persistence. rewrite Hpl. cbn [map_err rbind].
  rewrite bool_decide_eq_true_2 by done. cbn [negb]. rewrite Hb. cbn [map_err rbind].
  rewrite !bool_decide_eq_true_2 by congruence. done.
Qed.

End build.

(** ** Well-formedness of what is built *)

Section wf_build.
Context `{UuidCrate} `{MinicborLaws} `{RecordJson} `{!RecordJsonLaws} `{PrimitivesLaws}.

Definition wf_identity (i : SyncIdentity) : bool :=
  wf_id (id_account_id i) && wf_id (id_workspace_id i) && wf_id (id_device_id i)
  && (id_control_epoch i <=? u32_max) && (id_key_epoch i <=? u32_max)
  && wf_fixed 32 (signing_secret (id_device_keys i)).

Definition wf_request (r : OperationBuildRequest) : bool :=
  wf_id (req_operation_id r) && opt_all wf_id (req_project_id r)
  && typed_mutation (req_mutation r)
  && forallb wf_device_sequence (req_causal_frontier r)
  && opt_all (fun h => wf_fixed 32 (head_canonical_hash h)) (req_previous r)
  && forallb wf_blob (req_blob_refs r) && wf_hlc (req_created_hlc r).

Lemma chain_successor_wf previous s h :
  opt_all (fun h => wf_fixed 32 (head_canonical_hash h)) previous = true ->
  chain_successor previous = Ok (s, h) -> s <= u64_max /\ len h = 32.
Proof.
  unfold chain_successor. destruct previous as [p|]; simpl; intros Hp Hc.
  - res_inv. match goal with E : checked_add _ _ _ = _ |- _ =>
      apply checked_add_Some in E as [-> ?] end. simplify_eq. wf_inv. done.
  - simplify_eq. done.
Qed.

Lemma forallb_perm {A} (f : A -> bool) l k : l ≡ₚ k -> forallb f k = true -> forallb f l = true.
Proof.
  intros Hp. rewrite !forallb_forall. setoid_rewrite <- list_elem_of_In.
  intros Hf x Hx. apply Hf. by rewrite <- Hp.
Qed.

Lemma built_wf self request random nonces nonces' built :
  build self request random nonces = (nonces', Ok built) ->
  wf_identity (builder_identity self) = true -> wf_request request = true ->
  (forall n, builder_fixed_nonce self = Some n \/ random = Some n -> len n = 24) ->
  wf_operation (built_operation built) = true.
Proof.
  intros (op & plaintext & encrypted & Hprep & _ & Hnonce & Hseal)%build_Ok Hi Hr Hn.
  pose proof Hprep as (Hu & (E1 & _) & _ & _ & Hv & _)%prepare_operation_Ok.
  apply seal_operation_Ok in Hseal as (p & Hp & -> & Hc & _).
  assert (Hn24 : len (enc_nonce encrypted) = 24).
  { apply Hn. destruct (builder_fixed_nonce self) as [n|]; simplify_eq; auto. }
  unfold wf_identity, wf_request, unsealed in *. wf_inv.
  destruct Hu as (?&?&?&?&?&?&Epr&?&Ebl&Efr&Hchain).
  eapply chain_successor_wf in Hchain as [? ?]; [|done].
  apply SyncOperationV1_validate_ok in Hv as (Esv & _).
  assert (forallb wf_device_sequence (op_causal_frontier op) = true).
  { rewrite Efr. eapply forallb_perm; [apply sort_by_key_perm|done]. }
  assert (wf_id (op_record_id op) = true) by (rewrite E1; by apply mutation_record_id_wf).
  clear E1 Efr. unfold wf_operation; cbn [op_schema_version op_operation_id op_account_id op_workspace_id
    op_project_id op_record_id op_device_id op_device_sequence op_causal_frontier
    op_control_epoch op_key_epoch op_previous_device_hash op_nonce op_ciphertext
    op_ciphertext_hash op_blob_refs op_created_hlc op_signature with_payload with_signature].
  unfold wf_fixed, digest, sign.
  repeat match goal with E : _ op = _ |- _ => rewrite E; clear E end.
  rewrite Hn24, sha256_len, sign_len. unfold opt_all in *.
  repeat match goal with |- _ && _ = true => apply andb_true_iff; split end;
    first [done | by apply N.leb_le | by apply N.eqb_eq].
Qed.

(** C33.  What a device builds, a receiver accepts: the canonical bytes of a
    built operation decode to it, it passes the complete verification at any
    receiver that trusts the device's certificate at these epochs and has the
    same chain head, the mutation that comes out is the one that was sealed, and
    the sender's persistence check accepts the pair. *)
Theorem built_operation_accepted self request random nonces nonces' built trusted :
  build self request random nonces = (nonces', Ok built) ->
  wf_identity (builder_identity self) = true -> wf_request request = true ->
  (forall n, builder_fixed_nonce self = Some n \/ random = Some n -> len n = 24) ->
  trusts trusted (builder_identity self) request ->
  decode_sync_operation_v1 (built_canonical_bytes built) = Ok (built_operation built)
  /\ verify_operation_envelope (built_operation built) trusted
       (ContentKey_decrypt (id_content_key (builder_identity self))) = Ok (req_mutation request)
  /\ validate_for_persistence built (req_mutation request) = Ok tt.
Proof.
  intros Hb Hi Hr Hn Ht. pose proof Hi as Hi'. pose proof Hr as Hr'.
  unfold wf_identity, wf_request in Hi', Hr'. wf_inv. split_and!.
  - apply decode_sync_operation_v1_Ok. split; [by eapply built_wf|].
    apply build_Ok in Hb as (op & plaintext & encrypted & _ & _ & _ & Hseal).
    by apply seal_operation_Ok in Hseal as (p & _ & _ & _ & Henc & _).
  - by eapply built_verifies.
  - by eapply built_persists.
Qed.

(**  Soundness of verification, branch by branch: an operation is accepted,
    with a mutation, exactly when it is authentic for the trusted device and
    epochs, a tombstone names the scope of the record it deletes, it is the next
    link of the device's chain, its frontier is ascending and does not reach its
    own sequence, and its ciphertext decrypts under its associated data to the
    mutation its fields announce.  Authenticity alone is what the public check
    decides. *)
Theorem operation_verification_exact op trusted decryptor m :
  (verify_operation_envelope op trusted decryptor = Ok m <->
   authentic op trusted /\ tombstone_scope_ok op trusted
   /\ chain_successor (trusted_previous trusted)
      = Ok (op_device_sequence op, op_previous_device_hash op)
   /\ frontier_ok (op_causal_frontier op) (op_device_id op) (Some (op_device_sequence op))
   /\ (exists plaintext,
         decryptor {| enc_nonce := op_nonce op; enc_ciphertext := op_ciphertext op |}
           (encode_sync_operation_aad_v1 op) = Ok plaintext
         /\ decode_record_mutation_v1 plaintext = Ok m)
   /\ announces op m)
  /\ (verify_operation_public_authenticity op trusted = Ok tt <-> authentic op trusted).
Proof.
  split; [apply verify_operation_envelope_Ok|apply verify_operation_public_authenticity_ok].
Qed.

End wf_build.

(** *** Witnesses *)

Module OperationWitness.
#[local] Existing Instances rfc9562 Rfc8949.codec Rfc8949.codec_laws
  CountableJson.records CountableJson.records_laws Toy.toy Toy.toy_laws.

Definition identity : SyncIdentity := {|
  id_membership_endpoint := None; id_account_id := Fixture.id; id_workspace_id := Fixture.id;
  id_device_id := Fixture.id; id_control_epoch := 17; id_key_epoch := 23;
  id_device_keys := CryptoWitness.keys; id_content_key := Fixture.rep 32 11 |}.

Definition builder : OperationBuilder :=
  {| builder_identity := identity; builder_fixed_nonce := Some (Fixture.rep 24 13) |}.

Definition request : OperationBuildRequest := {|
  req_operation_id := Fixture.id; req_project_id := None;
  req_mutation := TombstoneMutation Fixture.id KMemory;
  req_causal_frontier := [{| ds_device_id := Fixture.id; ds_sequence := 36 |}];
  req_previous := Some {| head_sequence := 36; head_canonical_hash := Fixture.rep 32 15 |};
  req_blob_refs := []; req_created_hlc := Fixture.hlc |}.

Definition certificate : DeviceCertificateV1 :=
  certificate_unsigned {|
    fields_account_id := Fixture.id; fields_workspace_id := Fixture.id;
    fields_control_epoch := 2; fields_request_nonce := Fixture.rep 32 5;
    fields_device_id := Fixture.id;
    fields_signing_public_key := signing_public_key CryptoWitness.keys;
    fields_wrapping_public_key := Fixture.rep 32 2 |}
    (RecoveryRoot (Fixture.rep 32 1)) (zero_bytes 64).

Definition trusted : TrustedOperationContext :=
  with_existing_record_scope
    (with_current_control_epoch
       (TrustedOperationContext_new certificate 23 (req_previous request)) 17) Global.

Definition outcome : NonceRegistry * result SyncError BuiltOperation :=
  build builder request None ∅.

Lemma built_operation_accepted_witness :
  exists built, outcome.2 = Ok built /\ op_device_sequence (built_operation built) = 37
    /\ verify_operation_envelope (built_operation built) trusted
         (ContentKey_decrypt (id_content_key identity))
       = Ok (TombstoneMutation Fixture.id KMemory).
Proof.
  eexists. split; [vm_compute; reflexivity|]. split; [vm_compute; reflexivity|].
  refine (proj1 (proj2 (built_operation_accepted builder request None ∅ outcome.1 _ trusted
    _ _ _ _ _))).
  - refine (injective_projections outcome _ eq_refl _). vm_compute. reflexivity.
  - vm_compute. reflexivity.
  - vm_compute. reflexivity.
  - intros n [[= <-]|[=]]. reflexivity.
  - unfold trusts. split_and!; try (vm_compute; reflexivity); try (vm_compute; discriminate).
    intros _. exists Global. split; reflexivity.
Defined.

Lemma operation_verification_exact_witness :
  verify_operation_public_authenticity
    (with_signature Fixture.operation (zero_bytes 64)) trusted = Err InvalidIdentity
  /\ (authentic (with_signature Fixture.operation (zero_bytes 64)) trusted -> False).
Proof.
  split; [vm_compute; reflexivity|].
  intros Ha. pose proof (proj2 (proj2 (operation_verification_exact
    (with_signature Fixture.operation (zero_bytes 64)) trusted
    (ContentKey_decrypt (id_content_key identity)) (TombstoneMutation Fixture.id KMemory))) Ha)
    as Hv.
  vm_compute in Hv. discriminate Hv.
Defined.

End OperationWitness.
