(* ===== verification/Causal.v ===== *)
(** * Causal order, gaps and retry delays (core/sync/causal.rs, backoff.rs)

    Operations of one device are ordered by their sequence; operations of two
    devices by what each one's frontier knows of the other.  [missing_range]
    finds the gap before an operation that is ahead of its device's head.
    [BackoffPolicy] draws the retry delay. *)

From S2P Require Import Prelude Ordering Text Protocol CanonicalCbor Operation.

#[local] Open Scope N_scope.

Inductive CausalOrder := Before | Equal | After | Concurrent.

#[global] Instance CausalOrder_eq_dec : EqDecision CausalOrder.
Proof. solve_decision. Defined.

(** vault/sync.rs *)
Record StoredDeviceHead := { sdh_sequence : N; sdh_canonical_hash : Sha256Digest }.

(** [iter().max().unwrap_or(0)]. *)
Definition known_sequence (operation : SyncOperationV1) (device : DeviceId) : N :=
  foldr N.max 0
    (ds_sequence <$> filter (fun entry => ds_device_id entry = device)
                       (op_causal_frontier operation)).

Definition causal_order_of_ordering (value : comparison) : CausalOrder :=
  match value with Lt => Before | Eq => Equal | Gt => After end.

Definition compare_operations (left right : SyncOperationV1) : CausalOrder :=
  if bool_decide (op_device_id left = op_device_id right)
  then causal_order_of_ordering (cmp (op_device_sequence left) (op_device_sequence right))
  else
    let left_knows_right :=
      op_device_sequence right <=? known_sequence left (op_device_id right) in
    let right_knows_left :=
      op_device_sequence left <=? known_sequence right (op_device_id left) in
    match left_knows_right, right_knows_left with
    | true, false => After
    | false, true => Before
    | true, true => Equal
    | false, false => Concurrent
    end.

(** The inclusive range [expected..=end]. *)
Definition missing_range (known : option StoredDeviceHead) (incoming : SyncOperationV1)
    : result SyncError (option (N * N)) :=
  if op_device_sequence incoming =? 0 then Err InvalidChain else
  let? expected :=
    match known with
    | Some head => ok_or (checked_add u64_max (sdh_sequence head) 1) SequenceExhausted
    | None => Ok 1
    end in
  if op_device_sequence incoming <? expected then Err SequenceConflict
  else if op_device_sequence incoming =? expected then Ok None
  else
    let? last := ok_or (checked_sub (op_device_sequence incoming) 1) InvalidChain in
    Ok (Some (expected, last)).

(** ** backoff.rs *)

Record BackoffPolicy := { base_ms : N; cap_ms : N }.

Inductive InvalidBackoffPolicy := InvalidBackoffPolicy_.

Definition BackoffPolicy_DEFAULT : BackoffPolicy := {| base_ms := 1000; cap_ms := 60000 |}.

Definition BackoffPolicy_validate (self : BackoffPolicy) : result InvalidBackoffPolicy unit :=
  if (base_ms self =? 0) || (cap_ms self =? 0) then Err InvalidBackoffPolicy_ else Ok tt.

Definition next_delay (self : BackoffPolicy) (attempt random_u64 : N) : N :=
  if is_err (BackoffPolicy_validate self) then 0 else
  let exponential :=
    if 64 <=? attempt then u64_max
    else saturating_mul u64_max (base_ms self) (N.shiftl 1 attempt) in
  let bound := N.min (cap_ms self) exponential in
  if bound =? u64_max then random_u64 else random_u64 mod (bound + 1).

(** ** The happened-before relation *)

(** The prefix of every device's chain an operation has seen, itself included. *)
Definition cut (op : SyncOperationV1) (device : DeviceId) : N :=
  if bool_decide (device = op_device_id op) then op_device_sequence op
  else known_sequence op device.

(** [b] happened before [a]. *)
Definition knows (a b : SyncOperationV1) : Prop :=
  if bool_decide (op_device_id a = op_device_id b)
  then op_device_sequence b < op_device_sequence a
  else op_device_sequence b <= known_sequence a (op_device_id b).

#[global] Instance knows_dec a b : Decision (knows a b).
Proof. unfold knows. destruct (bool_decide _); apply _. Defined.

(** Frontiers are transitively closed: what an operation knows, it knows with
    everything that one knew, and none of that is its own present or future.
    This is what a device that puts its applied heads in the frontier produces. *)
Definition causally_closed (ops : list SyncOperationV1) : Prop :=
  forall a b, a ∈ ops -> b ∈ ops -> knows a b ->
    (forall d, cut b d <= cut a d) /\ cut b (op_device_id a) < op_device_sequence a.

(** Chains have one operation per sequence. *)
Definition chains_unique (ops : list SyncOperationV1) : Prop :=
  forall a b, a ∈ ops -> b ∈ ops -> op_device_id a = op_device_id b ->
    op_device_sequence a = op_device_sequence b -> a = b.

Lemma knows_irrefl a : ~ knows a a.
Proof. unfold knows. rewrite bool_decide_eq_true_2 by done. lia. Qed.

Lemma knows_cut a b : knows a b -> op_device_sequence b <= cut a (op_device_id b).
Proof.
  unfold knows, cut. do 2 case_bool_decide; try lia; congruence.
Qed.

Lemma knows_trans ops a b c :
  causally_closed ops -> a ∈ ops -> b ∈ ops -> c ∈ ops ->
  knows a b -> knows b c -> knows a c.
Proof.
  intros Hc Ha Hb _ Hab Hbc. destruct (Hc a b Ha Hb Hab) as [Hle Hlt].
  pose proof (knows_cut b c Hbc) as Hk. unfold knows.
  case_bool_decide as E; [rewrite <- E in *; lia|].
  specialize (Hle (op_device_id c)). unfold cut in Hle at 2.
  rewrite bool_decide_eq_false_2 in Hle by congruence. lia.
Qed.

Lemma knows_asym ops a b :
  causally_closed ops -> a ∈ ops -> b ∈ ops -> knows a b -> ~ knows b a.
Proof.
  intros Hc Ha Hb Hab Hba. destruct (Hc a b Ha Hb Hab) as [_ Hlt].
  pose proof (knows_cut b a Hba). lia.
Qed.

(** [compare_operations] decides happened-before, in both directions. *)
Lemma compare_operations_knows a b :
  compare_operations a b =
    match decide (knows a b), decide (knows b a) with
    | left _, right _ => After
    | right _, left _ => Before
    | left _, left _ => Equal
    | right _, right _ =>
        if bool_decide (op_device_id a = op_device_id b) then Equal else Concurrent
    end.
Proof.
  destruct (decide (knows a b)) as [H1|H1], (decide (knows b a)) as [H2|H2];
    unfold knows in H1, H2; unfold compare_operations, cmp, N_ord;
    rewrite (bool_decide_ext (op_device_id b = op_device_id a)
      (op_device_id a = op_device_id b)) in H2 by naive_solver;
    destruct (bool_decide (op_device_id a = op_device_id b));
    repeat match goal with
    | |- context [?x <=? ?y] => destruct (N.leb_spec x y); try lia
    | |- context [?x ?= ?y] => destruct (N.compare_spec x y); try lia
    end; done.
Qed.

Section order.
Context (ops : list SyncOperationV1).
Context (Hclosed : causally_closed ops) (Hunique : chains_unique ops).

Lemma compare_After a b :
  a ∈ ops -> b ∈ ops -> compare_operations a b = After <-> knows a b.
Proof.
  intros Ha Hb. rewrite compare_operations_knows.
  pose proof (knows_asym ops a b Hclosed Ha Hb).
  destruct (decide (knows a b)), (decide (knows b a)); try naive_solver.
  case_bool_decide; naive_solver.
Qed.

Lemma compare_Before a b :
  a ∈ ops -> b ∈ ops -> compare_operations a b = Before <-> knows b a.
Proof.
  intros Ha Hb. rewrite compare_operations_knows.
  pose proof (knows_asym ops a b Hclosed Ha Hb).
  destruct (decide (knows a b)), (decide (knows b a)); try naive_solver.
  case_bool_decide; naive_solver.
Qed.

Lemma compare_Equal a b :
  a ∈ ops -> b ∈ ops -> compare_operations a b = Equal <-> a = b.
Proof.
  intros Ha Hb. rewrite compare_operations_knows.
  pose proof (knows_asym ops a b Hclosed Ha Hb). pose proof (knows_irrefl a).
  destruct (decide (knows a b)) as [|H1], (decide (knows b a)) as [|H2]; try naive_solver.
  case_bool_decide as E; [|naive_solver]. split; [|done]. intros _.
  apply Hunique; [done..|]. unfold knows in H1, H2.
  rewrite bool_decide_eq_true_2 in H1, H2 by done. lia.
Qed.

(**  On a history with transitively closed frontiers and one operation per
    chain position, [compare_operations] is a strict partial order: [After] is
    the converse of [Before], [Equal] is equality, [After] is transitive, and
    [Concurrent] is what remains, symmetrically. *)
Theorem causal_order_partial a b c :
  a ∈ ops -> b ∈ ops -> c ∈ ops ->
  (compare_operations a b = After <-> compare_operations b a = Before)
  /\ (compare_operations a b = Equal <-> a = b)
  /\ (compare_operations a b = Concurrent <-> compare_operations b a = Concurrent)
  /\ (compare_operations a b = After -> compare_operations b c = After ->
      compare_operations a c = After).
Proof.
  intros Ha Hb Hc. rewrite compare_After, compare_Before, compare_Equal by done.
  split_and!; [done..| |].
  - pose proof (compare_After a b Ha Hb). pose proof (compare_Before a b Ha Hb).
    pose proof (compare_Equal a b Ha Hb). pose proof (compare_After b a Hb Ha).
    pose proof (compare_Before b a Hb Ha). pose proof (compare_Equal b a Hb Ha).
    destruct (compare_operations a b) eqn:E1, (compare_operations b a) eqn:E2; naive_solver.
  - rewrite !compare_After by done. intros. by eapply (knows_trans ops a b c).
Qed.

End order.

(** Gap detection is exact: with the chain at sequence [known] (0 when
    empty), an operation is the next one exactly when nothing is missing; one
    further ahead gives the non-empty range of exactly the sequences in between;
    a sequence already covered, a zero sequence and an exhausted chain are the
    three errors. *)
Theorem missing_range_exact (known : option StoredDeviceHead) (op : SyncOperationV1) :
  let seq := op_device_sequence op in
  let head := match known with Some h => sdh_sequence h | None => 0 end in
  match missing_range known op with
  | Ok None => seq = head + 1 /\ head < u64_max
  | Ok (Some (first, last)) =>
      first <= last /\ (forall s, first <= s <= last <-> head < s < seq)
  | Err InvalidChain => seq = 0
  | Err SequenceExhausted => u64_max <= head /\ 0 < seq
  | Err SequenceConflict => 0 < seq <= head
  | Err _ => False
  end.
Proof.
  cbv zeta. unfold missing_range, checked_sub.
  destruct (N.eqb_spec (op_device_sequence op) 0); [done|].
  assert (Hexp : match known with
    | Some head => ok_or (checked_add u64_max (sdh_sequence head) 1) SequenceExhausted
    | None => Ok 1
    end = (if match known with Some h => sdh_sequence h | None => 0 end <? u64_max
           then Ok (match known with Some h => sdh_sequence h | None => 0 end + 1)
           else Err SequenceExhausted)).
  { destruct known as [h|]; [|done]. unfold checked_add.
    destruct (N.leb_spec (sdh_sequence h + 1) u64_max), (N.ltb_spec (sdh_sequence h) u64_max);
      try done; lia. }
  rewrite Hexp. set (head := match known with Some h => _ | None => _ end). clearbody head.
  destruct (N.ltb_spec head u64_max); simpl; [|lia].
  destruct (N.ltb_spec (op_device_sequence op) (head + 1)); [lia|].
  destruct (N.eqb_spec (op_device_sequence op) (head + 1)); [lia|].
  destruct (N.leb_spec 1 (op_device_sequence op)); simpl; [|lia].
  split; [lia|]. intros s. lia.
Qed.

(** Full-jitter exponential backoff: under a valid policy the delay is at
    most the cap and at most [base * 2^attempt], and every delay up to that bound
    is drawn by some random value; an invalid policy gives no delay.  No step
    overflows 64 bits. *)
Theorem next_delay_full_jitter (policy : BackoffPolicy) (attempt : N) :
  base_ms policy <= u64_max -> cap_ms policy <= u64_max ->
  let bound := N.min (cap_ms policy) (base_ms policy * 2 ^ attempt) in
  (forall random, random <= u64_max -> next_delay policy attempt random <= bound)
  /\ (forall delay, delay <= bound ->
        exists random, random <= u64_max /\ next_delay policy attempt random = delay).
Proof.
  intros Hb Hc. cbv zeta.
  unfold next_delay, is_err, BackoffPolicy_validate, saturating_mul.
  destruct (N.eqb_spec (base_ms policy) 0) as [E|Hb0]; simpl.
  { rewrite E, N.mul_0_l, N.min_0_r. split; [lia|]. intros d Hd. exists 0. lia. }
  destruct (N.eqb_spec (cap_ms policy) 0) as [E|Hc0]; simpl.
  { rewrite E, N.min_0_l. split; [lia|]. intros d Hd. exists 0. lia. }
  rewrite N.shiftl_mul_pow2, N.mul_1_l.
  assert (Hbound : N.min (cap_ms policy) (if 64 <=? attempt then u64_max
      else N.min u64_max (base_ms policy * 2 ^ attempt))
    = N.min (cap_ms policy) (base_ms policy * 2 ^ attempt)).
  { destruct (N.leb_spec 64 attempt) as [Ha|Ha]; [|lia].
    assert (2 ^ 64 <= 2 ^ attempt) by (apply N.pow_le_mono_r; lia).
    unfold u64_max in *. nia. }
  rewrite Hbound. set (bound := N.min _ _).
  assert (bound <= u64_max) by lia. clearbody bound.
  destruct (N.eqb_spec bound u64_max) as [->|Hne].
  - split; [done|]. eauto.
  - split.
    + intros r _. pose proof (N.mod_lt r (bound + 1)). lia.
    + intros d Hd. exists d. split; [lia|]. apply N.mod_small. lia.
Qed.

Module CausalWitness.

Definition device (n : N) : DeviceId := Fixture.rep 16 n.

Definition op_at (n s : N) (frontier : list (N * N)) : SyncOperationV1 := {|
  op_schema_version := 1; op_operation_id := device (16 * n + s); op_account_id := device 0;
  op_workspace_id := device 0; op_project_id := None; op_record_id := device 0;
  op_record_kind := KMemory; op_mutation_kind := Upsert; op_device_id := device n;
  op_device_sequence := s;
  op_causal_frontier :=
    (fun e => {| ds_device_id := device e.1; ds_sequence := e.2 |}) <$> frontier;
  op_control_epoch := 1; op_key_epoch := 1; op_previous_device_hash := [];
  op_nonce := []; op_ciphertext := []; op_ciphertext_hash := []; op_blob_refs := [];
  op_created_hlc := {| physical_ms := 0; logical := 0; node := device n |};
  op_signature := [] |}.

(** Device 1 writes, device 2 answers, device 1 writes concurrently. *)
Definition history : list SyncOperationV1 :=
  [op_at 1 1 []; op_at 2 1 [(1, 1)]; op_at 1 2 []].

Definition closedb (ops : list SyncOperationV1) : bool :=
  forallb (fun a => forallb (fun b =>
    negb (bool_decide (knows a b))
    || (forallb (fun d => cut b d <=? cut a d)
          (op_device_id b :: (ds_device_id <$> op_causal_frontier b))
        && (cut b (op_device_id a) <? op_device_sequence a))) ops) ops.

Lemma known_sequence_absent op d :
  d ∉ (ds_device_id <$> op_causal_frontier op) -> known_sequence op d = 0.
Proof.
  unfold known_sequence. induction (op_causal_frontier op) as [|e l IH]; [done|].
  rewrite fmap_cons, not_elem_of_cons, filter_cons. intros [Hne Hin].
  rewrite decide_False by congruence. by apply IH.
Qed.

Lemma closedb_closed ops : closedb ops = true -> causally_closed ops.
Proof.
  unfold closedb. rewrite forallb_forall. intros Hall a b Ha Hb Hk.
  specialize (Hall a (proj1 (list_elem_of_In _ _) Ha)). rewrite forallb_forall in Hall.
  specialize (Hall b (proj1 (list_elem_of_In _ _) Hb)).
  rewrite bool_decide_eq_true_2 in Hall by done. cbn [negb orb] in Hall.
  apply andb_true_iff in Hall as [Hf Hlt]. split; [|by apply N.ltb_lt].
  rewrite forallb_forall in Hf. intros d.
  destruct (decide (d ∈ op_device_id b :: (ds_device_id <$> op_causal_frontier b))) as [Hin|Hout].
  - apply N.leb_le, Hf. by apply list_elem_of_In.
  - apply not_elem_of_cons in Hout as [Hne Hout]. unfold cut at 1.
    rewrite bool_decide_eq_false_2 by done. rewrite known_sequence_absent by done. lia.
Qed.

Lemma history_unique : chains_unique history.
Proof.
  intros a b Ha Hb. unfold history in *. set_unfold in Ha. set_unfold in Hb.
  destruct Ha as [->|[->|[->|[]]]], Hb as [->|[->|[->|[]]]]; try done;
    intros Hd Hs; vm_compute in Hd, Hs; done.
Qed.

Lemma causal_order_partial_witness :
  compare_operations (op_at 2 1 [(1, 1)]) (op_at 1 1 []) = After
  /\ compare_operations (op_at 1 1 []) (op_at 2 1 [(1, 1)]) = Before.
Proof.
  split; [vm_compute; reflexivity|].
  refine (proj1 (proj1 (causal_order_partial history _ history_unique
    (op_at 2 1 [(1, 1)]) (op_at 1 1 []) (op_at 1 1 []) _ _ _)) _).
  - apply closedb_closed. vm_compute. reflexivity.
  - unfold history. right. left.
  - left.
  - left.
  - vm_compute. reflexivity.
Defined.

Lemma next_delay_full_jitter_witness :
  next_delay BackoffPolicy_DEFAULT 3 12345 <= N.min 60000 (1000 * 2 ^ 3).
Proof.
  refine (proj1 (next_delay_full_jitter BackoffPolicy_DEFAULT 3 _ _) 12345 _);
    vm_compute; discriminate.
Defined.

End CausalWitness.
