(* ===== verification/Merge.v ===== *)
(** * Merging an operation into a record's heads (core/sync/merge.rs)

    [decide_merge] compares an admitted operation with the current heads of its
    record; [apply_decision] is the effect of the decision on the head table
    (vault/sync.rs, [apply_verified_in_transaction]), whose rows are read back in
    the order of operation identifiers.  The identifiers are compared as bytes:
    the hyphenated lowercase text the table stores has the same order.

    The main theorem is convergence: replicas that receive the operations of a
    record in different orders end with the same heads. *)

From S2P Require Import Prelude Ordering Text Protocol CanonicalCbor Domain SyncPayload.
From S2P Require Import Operation Causal.

#[local] Open Scope N_scope.

(** admission.rs *)
Record AdmittedOperation := {
  adm_membership_endpoint : option MembershipEndpoint;
  adm_operation : SyncOperationV1;
  adm_mutation : RecordMutationV1;
  adm_canonical_bytes : bytes;
  adm_canonical_hash : Sha256Digest;
}.

#[global] Instance AdmittedOperation_eq_dec : EqDecision AdmittedOperation.
Proof. solve_decision. Defined.

(** vault/sync.rs *)
Record StoredRecordHead := {
  srh_operation_id : OperationId;
  srh_record_kind : RecordKind;
  srh_mutation_kind : MutationKind;
  srh_canonical_hash : Sha256Digest;
  srh_operation : SyncOperationV1;
}.

Inductive MergeDecision :=
| NoLiveChange
| ReplaceHeads (remove : list OperationId)
| AddConflictHead (remove : list OperationId)
| ResolveConflict (remove : list OperationId).

#[global] Instance MergeDecision_eq_dec : EqDecision MergeDecision.
Proof. solve_decision. Defined.

Definition validate_incoming (incoming : AdmittedOperation) : result SyncError unit :=
  let op := adm_operation incoming in
  let m := adm_mutation incoming in
  if negb (bool_decide (op_record_id op = mutation_record_id m))
     || negb (bool_decide (op_record_kind op = mutation_record_kind m))
     || negb (bool_decide (op_mutation_kind op = mutation_mutation_kind m))
  then Err InvalidMutation else Ok tt.

Definition validate_head (incoming : AdmittedOperation) (head : StoredRecordHead)
    : result SyncError unit :=
  let op := adm_operation incoming in
  if negb (bool_decide (srh_operation_id head = op_operation_id (srh_operation head)))
     || negb (bool_decide (srh_record_kind head = op_record_kind (srh_operation head)))
     || negb (bool_decide (srh_mutation_kind head = op_mutation_kind (srh_operation head)))
     || negb (bool_decide (op_workspace_id (srh_operation head) = op_workspace_id op))
     || negb (bool_decide (op_record_id (srh_operation head) = op_record_id op))
     || negb (bool_decide (srh_record_kind head = op_record_kind op))
  then Err InvalidEnvelope else Ok tt.

Definition decide_merge (incoming : AdmittedOperation) (current : list StoredRecordHead)
    : result SyncError MergeDecision :=
  let? _ := validate_incoming incoming in
  let? _ := try_for_each (validate_head incoming) current in
  if bool_decide (current = []) then Ok (ReplaceHeads []) else
  let remove := sort_by_key id (srh_operation_id <$> current) in
  let orders :=
    (fun head => compare_operations (adm_operation incoming) (srh_operation head)) <$> current in
  if forallb (fun order => bool_decide (order = After)) orders
  then Ok (if 1 <? len current then ResolveConflict remove else ReplaceHeads remove)
  else if existsb (fun order => bool_decide (order = Before) || bool_decide (order = Equal)) orders
  then Ok NoLiveChange
  else
    let remove := sort_by_key id
      (omap (fun ho => if bool_decide (ho.2 = After) then Some (srh_operation_id ho.1) else None)
         (zip current orders)) in
    Ok (AddConflictHead remove).

(** [insert_record_head]. *)
Definition record_head (admitted : AdmittedOperation) : StoredRecordHead :=
  let op := adm_operation admitted in {|
  srh_operation_id := op_operation_id op;
  srh_record_kind := op_record_kind op;
  srh_mutation_kind := op_mutation_kind op;
  srh_canonical_hash := adm_canonical_hash admitted;
  srh_operation := op |}.

Definition replace_heads (current : list StoredRecordHead) (remove : list OperationId)
    (admitted : AdmittedOperation) : list StoredRecordHead :=
  sort_by_key srh_operation_id
    (filter (fun head => srh_operation_id head ∉ remove) current ++ [record_head admitted]).

Definition apply_decision (current : list StoredRecordHead) (admitted : AdmittedOperation)
    (decision : MergeDecision) : list StoredRecordHead :=
  match decision with
  | NoLiveChange => current
  | ReplaceHeads remove | ResolveConflict remove | AddConflictHead remove =>
      replace_heads current remove admitted
  end.

(** The operation whose mutation is materialised as the live record: the
    incoming one when it replaces every head, the head with the least identifier
    in a conflict, none when the live record does not change. *)
Definition representative (current : list StoredRecordHead) (admitted : AdmittedOperation)
    (decision : MergeDecision) : option SyncOperationV1 :=
  match decision with
  | NoLiveChange => None
  | ReplaceHeads _ | ResolveConflict _ => Some (adm_operation admitted)
  | AddConflictHead remove =>
      head (sort_by_key op_operation_id
        ((srh_operation <$> filter (fun head => srh_operation_id head ∉ remove) current)
         ++ [adm_operation admitted]))
  end.

Definition merge_step (current : list StoredRecordHead) (admitted : AdmittedOperation)
    : result SyncError (list StoredRecordHead) :=
  let? decision := decide_merge admitted current in
  Ok (apply_decision current admitted decision).

(** ** Facts *)

Lemma omap_zip_ids x (current : list StoredRecordHead) :
  omap (fun ho => if bool_decide (ho.2 = After) then Some (srh_operation_id ho.1) else None)
    (zip current
       ((fun head => compare_operations (adm_operation x) (srh_operation head)) <$> current))
  = srh_operation_id
    <$> filter (fun h => compare_operations (adm_operation x) (srh_operation h) = After) current.
Proof.
  induction current as [|h l IH]; [done|]. csimpl. rewrite filter_cons.
  destruct (decide (compare_operations (adm_operation x) (srh_operation h) = After)) as [E|E].
  - rewrite bool_decide_eq_true_2 by done. csimpl. f_equal. apply IH.
  - rewrite bool_decide_eq_false_2 by done. apply IH.
Qed.

Lemma elem_replace_heads current remove x h :
  h ∈ replace_heads current remove x
  <-> (h ∈ current /\ srh_operation_id h ∉ remove) \/ h = record_head x.
Proof.
  unfold replace_heads. rewrite (sort_by_key_perm srh_operation_id).
  rewrite elem_of_app, list_elem_of_filter, list_elem_of_singleton. tauto.
Qed.

Lemma replace_heads_ascending current remove x :
  ascending srh_operation_id current ->
  (forall h, h ∈ current -> srh_operation_id h <> op_operation_id (adm_operation x)) ->
  ascending srh_operation_id (replace_heads current remove x).
Proof.
  intros Hasc Hids. apply sort_by_key_ascending. rewrite fmap_app. apply NoDup_app. split_and!.
  - apply (sublist_NoDup _ (srh_operation_id <$> current)); [by apply ascending_NoDup|].
    apply fmap_sublist, sublist_filter.
  - intros i (h & -> & [_ Hh]%list_elem_of_filter)%list_elem_of_fmap.
    simpl. rewrite list_elem_of_singleton. by apply Hids.
  - simpl. apply NoDup_singleton.
Qed.

(** An operation no current head knows supersedes exactly the heads it knows and becomes a
    head itself. *)
Lemma merge_unknown x current d :
  NoDup (srh_operation_id <$> current) -> decide_merge x current = Ok d ->
  (forall h, h ∈ current -> ~ knows (srh_operation h) (adm_operation x)
     /\ (op_device_id (srh_operation h) = op_device_id (adm_operation x) ->
         op_device_sequence (srh_operation h) <> op_device_sequence (adm_operation x))) ->
  forall h, h ∈ apply_decision current x d
    <-> (h ∈ current /\ ~ knows (adm_operation x) (srh_operation h)) \/ h = record_head x.
Proof.
  intros Hnd Hd Hun.
  assert (Hcmp : forall h, h ∈ current ->
    (compare_operations (adm_operation x) (srh_operation h) = After
       <-> knows (adm_operation x) (srh_operation h))
    /\ compare_operations (adm_operation x) (srh_operation h) <> Before
    /\ compare_operations (adm_operation x) (srh_operation h) <> Equal).
  { intros h Hh. destruct (Hun h Hh) as [Hk Hs]. rewrite compare_operations_knows.
    destruct (decide (knows (srh_operation h) (adm_operation x))) as [|_]; [done|].
    destruct (decide (knows (adm_operation x) (srh_operation h))) as [Hx|Hx]; [done|].
    destruct (decide (op_device_id (adm_operation x) = op_device_id (srh_operation h))) as [He|He].
    - exfalso. unfold knows in Hk, Hx. rewrite bool_decide_eq_true_2 in Hk, Hx by done.
      specialize (Hs (eq_sym He)). lia.
    - rewrite bool_decide_eq_false_2 by done. split; [by split|done]. }
  assert (Hin : forall remove, (forall h, h ∈ current -> srh_operation_id h ∈ remove <->
      compare_operations (adm_operation x) (srh_operation h) = After) ->
    forall h, h ∈ replace_heads current remove x
      <-> (h ∈ current /\ ~ knows (adm_operation x) (srh_operation h)) \/ h = record_head x).
  { intros remove Hr h. rewrite elem_replace_heads. split; [|].
    - intros [[Hh Hn]|Hx]; [left; split; [done|]|by right]. by rewrite <- (proj1 (Hcmp h Hh)), <- Hr.
    - intros [[Hh Hn]|Hx]; [left; split; [done|]|by right]. by rewrite Hr, (proj1 (Hcmp h Hh)). }
  unfold decide_merge in Hd. do 2 apply rbind_unit_Ok in Hd as [_ Hd].
  case_bool_decide as Hnil; [injection Hd as <-; apply Hin; rewrite Hnil; set_solver|].
  destruct (forallb _ _) eqn:Hall.
  { rewrite forallb_forall in Hall.
    assert (Hr : forall h, h ∈ current -> srh_operation_id h ∈ sort_by_key id (srh_operation_id <$> current)
      <-> compare_operations (adm_operation x) (srh_operation h) = After).
    { intros h Hh. rewrite (sort_by_key_perm (K := OperationId) id). split.
      - intros _. apply (bool_decide_eq_true_1 (_ = After)), Hall, list_elem_of_In, list_elem_of_fmap. eauto.
      - intros _. by apply list_elem_of_fmap_2. }
    destruct (1 <? len current); injection Hd as <-; by apply Hin. }
  destruct (existsb _ _) eqn:Hbe.
  { exfalso. apply existsb_exists in Hbe as (o & Ho & Hbe).
    apply list_elem_of_In, list_elem_of_fmap in Ho as (h & -> & Hh).
    destruct (Hcmp h Hh) as (_ & H1 & H2). by apply orb_true_iff in Hbe as [?|?]; wf_inv. }
  injection Hd as <-. apply Hin. intros h Hh.
  rewrite omap_zip_ids, (sort_by_key_perm (K := OperationId) id), list_elem_of_fmap. split.
  - intros (h' & Ei & [Haft Hh']%list_elem_of_filter).
    by rewrite (NoDup_fmap_elem srh_operation_id current h h' Hnd Hh Hh' Ei).
  - intros Haft. exists h. by rewrite list_elem_of_filter.
Qed.

Section converge.

(** The operations of one record that replicas exchange. *)
Context (ops : list AdmittedOperation).

Record exchangeable : Prop := {
  ex_ids : forall a b, a ∈ ops -> b ∈ ops ->
    op_operation_id (adm_operation a) = op_operation_id (adm_operation b) -> a = b;
  ex_valid : forall a, a ∈ ops -> validate_incoming a = Ok tt;
  ex_record : forall a b, a ∈ ops -> b ∈ ops ->
    op_workspace_id (adm_operation a) = op_workspace_id (adm_operation b)
    /\ op_record_id (adm_operation a) = op_record_id (adm_operation b)
    /\ op_record_kind (adm_operation a) = op_record_kind (adm_operation b);
  ex_closed : causally_closed (adm_operation <$> ops);
  ex_unique : chains_unique (adm_operation <$> ops);
}.

Context (Hex : exchangeable).

Abbreviation before a b := (knows (adm_operation b) (adm_operation a)).

Lemma ops_in a : a ∈ ops -> adm_operation a ∈ adm_operation <$> ops.
Proof. apply list_elem_of_fmap_2. Qed.

Lemma op_inj a b : a ∈ ops -> b ∈ ops -> adm_operation a = adm_operation b -> a = b.
Proof. intros Ha Hb E. apply (ex_ids Hex); [done..|by rewrite E]. Qed.

Lemma before_trans a b c : a ∈ ops -> b ∈ ops -> c ∈ ops -> before a b -> before b c -> before a c.
Proof.
  intros Ha Hb Hc H1 H2.
  apply (knows_trans (adm_operation <$> ops) _ (adm_operation b));
    auto using ops_in; apply (ex_closed Hex).
Qed.

(** The heads after the operations [seen]: the maximal ones, in order. *)
Definition heads_of (seen : list AdmittedOperation) (heads : list StoredRecordHead) : Prop :=
  ascending srh_operation_id heads
  /\ (forall h, h ∈ heads -> exists a, a ∈ seen /\ h = record_head a)
  /\ (forall a b, a ∈ seen -> b ∈ seen -> record_head a ∈ heads -> ~ before a b)
  /\ (forall b, b ∈ seen -> exists a, a ∈ seen /\ record_head a ∈ heads /\ (a = b \/ before b a)).

Lemma record_head_inj a b : a ∈ ops -> b ∈ ops -> record_head a = record_head b -> a = b.
Proof. intros Ha Hb E. apply op_inj; [done..|]. by injection E. Qed.

Lemma compare_head x a :
  x ∈ ops -> a ∈ ops -> x <> a ->
  (compare_operations (adm_operation x) (adm_operation a) = After <-> before a x)
  /\ (compare_operations (adm_operation x) (adm_operation a) = Before <-> before x a)
  /\ compare_operations (adm_operation x) (adm_operation a) <> Equal.
Proof.
  intros Hx Ha Hne. pose proof (ops_in x Hx). pose proof (ops_in a Ha).
  split_and!.
  - by apply (compare_After (adm_operation <$> ops) (ex_closed Hex)).
  - by apply (compare_Before (adm_operation <$> ops) (ex_closed Hex)).
  - rewrite (compare_Equal (adm_operation <$> ops) (ex_closed Hex) (ex_unique Hex)) by done.
    intros E. by apply Hne, op_inj.
Qed.

Section step.
Context (seen : list AdmittedOperation) (heads : list StoredRecordHead) (x : AdmittedOperation).
Context (Hseen : forall a, a ∈ seen -> a ∈ ops) (Hx : x ∈ ops) (Hnew : x ∉ seen).
Context (Hheads : heads_of seen heads).

Lemma head_ex h :
  h ∈ heads -> exists a, a ∈ seen /\ a ∈ ops /\ h = record_head a /\ x <> a.
Proof.
  intros Hh. destruct Hheads as (_ & Hh' & _). destruct (Hh' h Hh) as (a & Ha & ->).
  exists a. split_and!; [done|by apply Hseen|done|by intros ->].
Qed.

Lemma heads_validate :
  validate_incoming x = Ok tt /\ try_for_each (validate_head x) heads = Ok tt.
Proof.
  split; [by apply (ex_valid Hex)|]. apply try_for_each_Ok, Forall_forall. intros h Hh.
  destruct (head_ex h Hh) as (a & _ & Ha & -> & _).
  destruct (ex_record Hex a x Ha Hx) as (? & ? & ?).
  unfold validate_head; simpl. by rewrite !bool_decide_eq_true_2.
Qed.

(** Replacing the heads that are before [x] by [x] when no head is after it. *)
Lemma replace_heads_of remove :
  (forall h, h ∈ heads -> srh_operation_id h ∈ remove <->
     compare_operations (adm_operation x) (srh_operation h) = After) ->
  (forall h, h ∈ heads -> compare_operations (adm_operation x) (srh_operation h) <> Before) ->
  heads_of (x :: seen) (replace_heads heads remove x).
Proof.
  intros Hrem Hnb. destruct Hheads as (Hasc & Hsub & Hanti & Hcov).
  assert (Hin : forall h, h ∈ replace_heads heads remove x <->
    (h ∈ heads /\ compare_operations (adm_operation x) (srh_operation h) <> After)
    \/ h = record_head x).
  { intros h. rewrite elem_replace_heads. naive_solver. }
  assert (Hids : forall h, h ∈ heads -> srh_operation_id h <> op_operation_id (adm_operation x)).
  { intros h Hh E. destruct (head_ex h Hh) as (a & _ & Ha & -> & Hne).
    apply Hne. symmetry. by apply (ex_ids Hex). }
  split_and!.
  - by apply replace_heads_ascending.
  - intros h [[Hh _]| ->]%Hin; [|exists x; set_solver].
    destruct (Hsub h Hh) as (a & Ha & ->). exists a. set_solver.
  - intros a b Ha Hb Hina. apply Hin in Hina.
    apply elem_of_cons in Ha as [->|Ha], Hb as [->|Hb].
    + apply knows_irrefl.
    + intros Hxb. destruct (Hcov b Hb) as (c & Hc & Hch & Hbc).
      destruct (compare_head x c) as (_ & Hbef & _); [done|by apply Hseen|by intros ->|].
      apply (Hnb (record_head c) Hch). simpl. apply Hbef.
      destruct Hbc as [->|Hbc]; [done|]. eapply (before_trans x b c); eauto.
    + destruct (compare_head x a) as (Haft & _ & _); [done|by apply Hseen|by intros ->|].
      intros Hax%Haft. destruct Hina as [[_ Hna]|E]; [by apply Hna|].
      apply record_head_inj in E; [by subst|by apply Hseen|done].
    + destruct Hina as [[Hah _]|E]; [by apply Hanti|].
      apply record_head_inj in E; [by subst|by apply Hseen|done].
  - intros b [->|Hb]%elem_of_cons.
    { exists x. split_and!; [set_solver|apply Hin; auto|auto]. }
    destruct (Hcov b Hb) as (c & Hc & Hch & Hbc).
    destruct (decide (compare_operations (adm_operation x) (adm_operation c) = After)) as [Haf|Hna].
    + exists x. split_and!; [set_solver|apply Hin; auto|]. right.
      apply (compare_head x c) in Haf; [|done|by apply Hseen|by intros ->].
      destruct Hbc as [->|Hbc]; [done|]. eapply (before_trans b c x); eauto.
    + exists c. split_and!; [set_solver|apply Hin; left; split; done|done].
Qed.

(** A head after [x] leaves the heads as they are. *)
Lemma no_live_change_of h :
  h ∈ heads -> compare_operations (adm_operation x) (srh_operation h) = Before ->
  heads_of (x :: seen) heads.
Proof.
  intros Hh Hbef. destruct Hheads as (Hasc & Hsub & Hanti & Hcov).
  destruct (head_ex h Hh) as (a & Has & Hao & -> & Hne). simpl in Hbef.
  apply (compare_head x a) in Hbef; [|done..].
  split_and!; [done|..].
  - intros h' Hh'. destruct (Hsub h' Hh') as (b & ? & ->). exists b. set_solver.
  - intros b c [->|Hb]%elem_of_cons [->|Hc]%elem_of_cons Hin.
    + apply knows_irrefl.
    + destruct (head_ex (record_head x) Hin) as (d & _ & Hd & E & Hnd).
      apply record_head_inj in E; done.
    + intros Hbx. apply (Hanti b a Hb Has Hin). eapply (before_trans b x a); eauto.
    + by apply Hanti.
  - intros b [->|Hb]%elem_of_cons.
    + exists a. split_and!; [set_solver|done|auto].
    + destruct (Hcov b Hb) as (c & ? & ? & ?). exists c. set_solver.
Qed.

(** Membership in the sorted identifiers of some of the heads. *)
Lemma remove_spec (P : StoredRecordHead -> Prop) `{!forall h, Decision (P h)} h :
  h ∈ heads ->
  srh_operation_id h ∈ sort_by_key id (srh_operation_id <$> filter P heads) <-> P h.
Proof.
  intros Hh. rewrite (sort_by_key_perm (K := OperationId) id), list_elem_of_fmap. split; [|].
  - intros (h' & E & [HP Hh']%list_elem_of_filter).
    by rewrite (ascending_lookup_unique srh_operation_id heads h h' (proj1 Hheads) Hh Hh' E).
  - intros HP. exists h. by rewrite list_elem_of_filter.
Qed.

(** Each step keeps the heads of what was seen. *)
Lemma merge_step_heads :
  exists d, decide_merge x heads = Ok d /\ heads_of (x :: seen) (apply_decision heads x d).
Proof.
  unfold decide_merge. destruct heads_validate as [-> ->]. cbn [rbind].
  assert (Hne : forall h, h ∈ heads ->
    compare_operations (adm_operation x) (srh_operation h) <> Equal).
  { intros h Hh. destruct (head_ex h Hh) as (a & _ & Ha & -> & Hn). by apply (compare_head x a). }
  case_bool_decide as Hnil.
  { exists (ReplaceHeads []). split; [done|].
    apply replace_heads_of; rewrite Hnil; set_solver. }
  set (orders := _ <$> heads).
  assert (Hord : forall o, o ∈ orders <->
    exists h, h ∈ heads /\ o = compare_operations (adm_operation x) (srh_operation h)).
  { intros o. unfold orders. rewrite list_elem_of_fmap. naive_solver. }
  destruct (forallb _ orders) eqn:Hall.
  { rewrite forallb_forall in Hall.
    assert (Haft : forall h, h ∈ heads ->
      compare_operations (adm_operation x) (srh_operation h) = After).
    { intros h Hh. apply (bool_decide_eq_true_1 (_ = After)), Hall, list_elem_of_In, Hord. eauto. }
    eexists. split; [reflexivity|].
    assert (Hr : heads_of (x :: seen)
      (replace_heads heads (sort_by_key id (srh_operation_id <$> heads)) x)).
    { apply replace_heads_of.
      - intros h Hh. rewrite (sort_by_key_perm (K := OperationId) id), list_elem_of_fmap.
        naive_solver.
      - intros h Hh. rewrite Haft by done. done. }
    by destruct (1 <? len heads). }
  destruct (existsb _ orders) eqn:Hex'.
  - apply existsb_exists in Hex' as (o & Ho & Hbe). apply list_elem_of_In, Hord in Ho as (h & Hh & ->).
    exists NoLiveChange. split; [done|]. apply (no_live_change_of h Hh).
    apply orb_true_iff in Hbe as [Hbe|Hbe]; wf_inv; [done|]. by apply Hne in Hbe.
  - eexists. split; [reflexivity|]. cbn [apply_decision]. unfold orders.
    rewrite (omap_zip_ids x heads). apply replace_heads_of.
    + intros h Hh. by apply remove_spec.
    + intros h Hh E. apply existsb_false in Hex'. rewrite Forall_forall in Hex'.
      specialize (Hex' Before (proj2 (Hord Before) ltac:(eauto))). done.
Qed.

End step.

Lemma merge_all_heads l seen heads :
  (forall a, a ∈ seen -> a ∈ ops) -> (forall a, a ∈ l -> a ∈ ops) -> NoDup (l ++ seen) ->
  heads_of seen heads ->
  exists heads', try_fold merge_step heads l = Ok heads' /\ heads_of (reverse l ++ seen) heads'.
Proof.
  revert seen heads. induction l as [|x l IH]; intros seen heads Hs Hl Hnd Hh; simpl.
  { eexists. split; done. }
  apply NoDup_cons in Hnd as [Hx Hnd].
  destruct (merge_step_heads seen heads x) as (d & Hd & Hh');
    [done|set_solver|set_solver|done|].
  unfold merge_step at 1. rewrite Hd. cbn [rbind].
  destruct (IH (x :: seen) (apply_decision heads x d)) as (heads' & Hf & Hr);
    [set_solver|set_solver|rewrite <- Permutation_middle; by constructor|done|].
  exists heads'. split; [done|]. rewrite reverse_cons, <- app_assoc. done.
Qed.

(** The heads are determined by the set of operations seen. *)
Lemma heads_of_unique seen seen' heads heads' :
  (forall a, a ∈ seen -> a ∈ ops) -> (forall a, a ∈ seen <-> a ∈ seen') ->
  heads_of seen heads -> heads_of seen' heads' -> heads = heads'.
Proof.
  intros Hs Hss (Ha & Hb & Hc & Hd) (Ha' & Hb' & Hc' & Hd').
  assert (Hin : forall h, h ∈ heads <-> h ∈ heads').
  { intros h. split; intros Hh.
    - destruct (Hb h Hh) as (a & Has & ->).
      destruct (Hd' a) as (b & Hbs & Hbh & [->|Hab]); [by apply Hss|done|].
      exfalso. apply (Hc a b); [done|by apply Hss|done|done].
    - destruct (Hb' h Hh) as (a & Has & ->).
      destruct (Hd a) as (b & Hbs & Hbh & [->|Hab]); [by apply Hss|done|].
      exfalso. apply (Hc' a b); [done|by apply Hss|done|done]. }
  by apply (ascending_ext srh_operation_id).
Qed.

(** Convergence of record heads: replicas that apply the same operations
    of a record, in whatever orders, all succeed and end with the same head list,
    which holds exactly the operations no other one supersedes; so they
    materialise the same live operation. *)
Theorem heads_converge l l' :
  NoDup l -> l ≡ₚ l' -> (forall a, a ∈ l -> a ∈ ops) ->
  exists heads,
    try_fold merge_step [] l = Ok heads /\ try_fold merge_step [] l' = Ok heads
    /\ (forall h, h ∈ heads <-> exists a, a ∈ l /\ h = record_head a
          /\ (forall b, b ∈ l ->
                compare_operations (adm_operation a) (adm_operation b) <> Before)).
Proof.
  intros Hnd Hp Hl.
  assert (Hstart : heads_of [] []) by (split_and!; [constructor|set_solver..]).
  destruct (merge_all_heads l [] []) as (heads & Hf & Hh);
    [set_solver|done|by rewrite app_nil_r|done|].
  destruct (merge_all_heads l' [] []) as (heads' & Hf' & Hh');
    [set_solver|by setoid_rewrite <- Hp|by rewrite app_nil_r, <- Hp|done|].
  rewrite app_nil_r in Hh, Hh'.
  assert (heads = heads') as <-.
  { apply (heads_of_unique (reverse l) (reverse l')); [set_solver| |done..].
    intros a. rewrite !elem_of_reverse. by rewrite Hp. }
  exists heads. split_and!; [done..|]. destruct Hh as (_ & Hb & Hc & Hd).
  setoid_rewrite elem_of_reverse in Hb. setoid_rewrite elem_of_reverse in Hc.
  setoid_rewrite elem_of_reverse in Hd.
  assert (Hbef : forall a b, a ∈ l -> b ∈ l ->
    compare_operations (adm_operation a) (adm_operation b) = Before <-> before a b).
  { intros a b Ha Hb'. apply (compare_Before (adm_operation <$> ops) (ex_closed Hex));
      apply ops_in; auto. }
  intros h. split.
  - intros Hh. destruct (Hb h Hh) as (a & Ha & ->). exists a. split_and!; [done..|].
    intros b Hbl. rewrite Hbef by done. by apply Hc.
  - intros (a & Ha & -> & Hmax). destruct (Hd a Ha) as (b & Hbl & Hbh & [->|Hab]); [done|].
    exfalso. apply (Hmax b Hbl). by apply Hbef.
Qed.

End converge.

(** ** The live record *)

Lemma insert_by_fmap {A B K} `{Ord K} (f : A -> B) (kb : B -> K) (ka : A -> K) x l :
  ka x = kb (f x) -> Forall (fun a => ka a = kb (f a)) l ->
  f <$> insert_by (fun a b => leb (ka a) (ka b)) x l
  = insert_by (fun a b => leb (kb a) (kb b)) (f x) (f <$> l).
Proof.
  intros Hx. induction 1 as [|y l Hy Hl IH]; [done|]. csimpl. rewrite Hx, Hy.
  destruct (leb (kb (f x)) (kb (f y))); csimpl; [done|]. by rewrite IH.
Qed.

Lemma sort_by_key_fmap {A B K} `{Ord K} (f : A -> B) (kb : B -> K) (ka : A -> K) l :
  Forall (fun a => ka a = kb (f a)) l ->
  f <$> sort_by_key ka l = sort_by_key kb (f <$> l).
Proof.
  unfold sort_by_key, sort_by. induction 1 as [|x l Hx Hl IH]; [done|]. cbn [foldr fmap list_fmap].
  rewrite insert_by_fmap with (kb := kb); [by rewrite IH|done|].
  rewrite Forall_forall in Hl |- *. intros a Ha. apply Hl.
  by rewrite <- (sort_by_perm (fun a b => leb (ka a) (ka b)) l).
Qed.

Lemma replace_heads_all current remove x :
  (forall h, h ∈ current -> srh_operation_id h ∈ remove) ->
  replace_heads current remove x = [record_head x].
Proof.
  intros Hall. unfold replace_heads.
  assert (filter (fun h => srh_operation_id h ∉ remove) current = []) as ->; [|done].
  destruct (filter _ current) as [|h l] eqn:E; [done|].
  assert (Hh : h ∈ h :: l) by left. rewrite <- E in Hh.
  apply list_elem_of_filter in Hh as [Hn Hh]. by apply Hall in Hh.
Qed.

Lemma validate_head_ids x current :
  try_for_each (validate_head x) current = Ok tt ->
  Forall (fun h => srh_operation_id h = op_operation_id (srh_operation h)) current.
Proof.
  rewrite try_for_each_Ok. intros Hall. eapply Forall_impl; [exact Hall|].
  intros h Hh. unfold validate_head in Hh. res_inv. wf_inv. done.
Qed.

Lemma head_fmap {A B} (f : A -> B) (l : list A) : head (f <$> l) = f <$> head l.
Proof. by destruct l. Qed.

(** Removing the superseded heads of a conflict leaves one that is not. *)
Lemma conflict_keeps_head x current :
  NoDup (srh_operation_id <$> current) ->
  forallb (fun order => bool_decide (order = After))
    ((fun head => compare_operations (adm_operation x) (srh_operation head)) <$> current) = false ->
  exists h, h ∈ filter (fun head => srh_operation_id head ∉ sort_by_key id (srh_operation_id
    <$> filter (fun h => compare_operations (adm_operation x) (srh_operation h) = After) current))
    current.
Proof.
  intros Hnd Hall. apply not_true_iff_false in Hall. rewrite forallb_forall in Hall.
  destruct (list_find (fun h => compare_operations (adm_operation x) (srh_operation h)
    <> After) current) as [[i h]|] eqn:Ef.
  - apply list_find_Some in Ef as (Hi & Hna & _). exists h.
    apply list_elem_of_filter. split; [|by eapply list_elem_of_lookup_2].
    rewrite (sort_by_key_perm (K := OperationId) id), list_elem_of_fmap.
    intros (h' & E & [Haft Hh']%list_elem_of_filter). apply Hna.
    apply list_elem_of_lookup in Hh' as [j Hj].
    assert (i = j) as ->; [|congruence].
    eapply (NoDup_lookup _ _ _ (srh_operation_id h) Hnd);
      rewrite list_lookup_fmap; [by rewrite Hi|by rewrite Hj, E].
  - exfalso. apply Hall. intros o Ho. apply list_elem_of_In, list_elem_of_fmap in Ho
      as (h & -> & Hh). apply bool_decide_eq_true_2.
    destruct (decide (compare_operations (adm_operation x) (srh_operation h) = After));
      [done|]. rewrite list_find_None, Forall_forall in Ef. by apply Ef in Hh.
Qed.

Lemma representative_first_head x current d :
  NoDup (srh_operation_id <$> current) -> decide_merge x current = Ok d ->
  match d with
  | NoLiveChange => representative current x d = None /\ apply_decision current x d = current
  | ReplaceHeads _ | ResolveConflict _ =>
      apply_decision current x d = [record_head x]
      /\ representative current x d = Some (adm_operation x)
  | AddConflictHead _ =>
      representative current x d = srh_operation <$> head (apply_decision current x d)
      /\ (2 <= length (apply_decision current x d))%nat
  end.
Proof.
  intros Hnd. unfold decide_merge. intros Hd. res_inv.
  match goal with u : unit |- _ => destruct u end.
  match goal with E : try_for_each _ _ = Ok ?u |- _ => destruct u; pose proof E as Hids end.
  apply validate_head_ids in Hids.
  case_bool_decide as Hnil; [simplify_eq; done|].
  destruct (forallb _ _) eqn:Hall.
  { assert (Hrep : replace_heads current (sort_by_key id (srh_operation_id <$> current)) x
      = [record_head x]).
    { apply replace_heads_all. intros h Hh.
      rewrite (sort_by_key_perm (K := OperationId) id). by apply list_elem_of_fmap_2. }
    destruct (1 <? len current); simplify_eq; done. }
  destruct (existsb _ _) eqn:Hex; simplify_eq; [done|].
  rewrite omap_zip_ids. cbn [apply_decision representative]. unfold replace_heads.
  set (remove := sort_by_key id _). set (kept := filter _ current). split.
  - rewrite <- head_fmap, (sort_by_key_fmap srh_operation op_operation_id), fmap_app; [done|].
    apply Forall_app. split; [|by constructor]. rewrite Forall_forall in Hids |- *.
    intros h [_ Hh]%list_elem_of_filter. by apply Hids.
  - rewrite (Permutation_length (sort_by_key_perm srh_operation_id _)), length_app. simpl.
    destruct (conflict_keeps_head x current Hnd Hall) as [h Hk].
    fold remove kept in Hk. destruct kept; [set_solver|simpl; lia].
Qed.

(** The live record follows the head table: a decision that changes the
    live record materialises the first of the new heads in identifier order, the
    only one unless the decision records a conflict, and a conflict always has at
    least two heads, so the code's incomplete-conflict error is unreachable. *)
Theorem live_record_is_first_head x current d :
  NoDup (srh_operation_id <$> current) -> decide_merge x current = Ok d ->
  match d with
  | NoLiveChange => representative current x d = None /\ apply_decision current x d = current
  | ReplaceHeads _ | ResolveConflict _ =>
      apply_decision current x d = [record_head x]
      /\ representative current x d = Some (adm_operation x)
  | AddConflictHead _ =>
      representative current x d = srh_operation <$> head (apply_decision current x d)
      /\ (2 <= length (apply_decision current x d))%nat
  end.
Proof. apply representative_first_head. Qed.

Module MergeWitness.

Definition admitted_of (op : SyncOperationV1) : AdmittedOperation := {|
  adm_membership_endpoint := None; adm_operation := op;
  adm_mutation := UpsertInstruction {|
    ins_id := op_record_id op; ins_scope := Global; ins_title := lit "t";
    ins_body_markdown := lit "b";
    ins_provenance := {| pv_origin_device := op_device_id op; pv_harness := None;
                         pv_source := None; pv_created_hlc := op_created_hlc op |};
    ins_archived := false |};
  adm_canonical_bytes := []; adm_canonical_hash := [] |}.

Definition instruction_op (op : SyncOperationV1) : AdmittedOperation :=
  let a := admitted_of op in {|
  adm_membership_endpoint := None;
  adm_operation := {|
    op_schema_version := 1; op_operation_id := op_operation_id op;
    op_account_id := op_account_id op; op_workspace_id := op_workspace_id op;
    op_project_id := None; op_record_id := op_record_id op; op_record_kind := KInstruction;
    op_mutation_kind := Upsert; op_device_id := op_device_id op;
    op_device_sequence := op_device_sequence op; op_causal_frontier := op_causal_frontier op;
    op_control_epoch := 1; op_key_epoch := 1; op_previous_device_hash := []; op_nonce := [];
    op_ciphertext := []; op_ciphertext_hash := []; op_blob_refs := [];
    op_created_hlc := op_created_hlc op; op_signature := [] |};
  adm_mutation := adm_mutation a; adm_canonical_bytes := []; adm_canonical_hash := [] |}.

(** Device 1 writes, device 2 answers, device 1 writes concurrently. *)
Definition exchange : list AdmittedOperation := instruction_op <$> CausalWitness.history.

Lemma exchange_cases a :
  a ∈ exchange -> a = instruction_op (CausalWitness.op_at 1 1 [])
    \/ a = instruction_op (CausalWitness.op_at 2 1 [(1, 1)])
    \/ a = instruction_op (CausalWitness.op_at 1 2 []).
Proof.
  unfold exchange, CausalWitness.history. rewrite !fmap_cons, !elem_of_cons.
  intros [->|[->|[->|Hn]]]; auto. by apply not_elem_of_nil in Hn.
Qed.

Lemma exchange_ok : exchangeable exchange.
Proof.
  split.
  - intros a b [->|[->| ->]]%exchange_cases [->|[->| ->]]%exchange_cases; try done;
      intros E; vm_compute in E; done.
  - intros a [->|[->| ->]]%exchange_cases; vm_compute; reflexivity.
  - intros a b [->|[->| ->]]%exchange_cases [->|[->| ->]]%exchange_cases; done.
  - apply CausalWitness.closedb_closed. vm_compute. reflexivity.
  - intros a b (x & -> & Hx)%list_elem_of_fmap (y & -> & Hy)%list_elem_of_fmap.
    apply exchange_cases in Hx as [->|[->| ->]], Hy as [->|[->| ->]]; try done;
      intros Hd Hs; vm_compute in Hd, Hs; done.
Qed.

Lemma heads_converge_witness :
  exists heads, try_fold merge_step [] exchange = Ok heads
    /\ try_fold merge_step [] (reverse exchange) = Ok heads.
Proof.
  destruct (heads_converge exchange exchange_ok exchange (reverse exchange)) as
    (heads & H1 & H2 & _).
  - apply (bool_decide_eq_true_1 _). vm_compute. reflexivity.
  - symmetry. apply reverse_Permutation.
  - auto.
  - exists heads. split; assumption.
Defined.

(** The answer and the concurrent write stay in conflict. *)
Example exchange_conflict :
  match try_fold merge_step [] exchange with
  | Ok heads => length heads = 2%nat
  | Err _ => False
  end.
Proof. vm_compute. reflexivity. Qed.

Definition first : StoredRecordHead :=
  record_head (instruction_op (CausalWitness.op_at 2 1 [(1, 1)])).
Definition second : AdmittedOperation := instruction_op (CausalWitness.op_at 1 2 []).

Lemma live_record_is_first_head_witness :
  exists d, decide_merge second [first] = Ok d
    /\ (2 <= length (apply_decision [first] second d))%nat.
Proof.
  exists (AddConflictHead []). split; [vm_compute; reflexivity|].
  refine (proj2 (live_record_is_first_head second [first] (AddConflictHead []) _ _)).
  - apply NoDup_singleton.
  - vm_compute. reflexivity.
Defined.

End MergeWitness.
