(* ===== verification/Transport.v ===== *)
(** * What crosses the transport (core/sync/transport.rs)

    The rows, pages and receipts exchanged with a sync provider, the transport
    errors with their durable diagnostics, and the two identities a row claims
    for its bytes, as every transport checks them ([validate_canonical_operation]
    and [validate_canonical_checkpoint] of memory.rs). *)

From S2P Require Import Prelude Ordering Text Protocol Minicbor CanonicalCbor Crypto Operation.

#[local] Open Scope N_scope.

Record SyncScope := { scope_account_id : AccountId; scope_workspace_id : WorkspaceId }.

(** vault/sync.rs *)
Record SyncCursor := { cur_received_at : rstr; cur_operation_id : OperationId }.

Record CanonicalOperation := {
  can_operation_id : OperationId;
  can_device_id : DeviceId;
  can_device_sequence : N;
  can_bytes : bytes;
}.

Record ReceivedOperation := { rec_cursor : SyncCursor; rec_operation : CanonicalOperation }.

Record PushReceipt := { push_accepted : list OperationId; push_duplicates : list OperationId }.

Record PullPage := { page_rows : list ReceivedOperation; page_next_cursor : option SyncCursor }.

Record CanonicalCheckpoint := {
  cc_canonical_hash : Sha256Digest;
  cc_state_hash : Sha256Digest;
  cc_checkpoint : CheckpointV1;
  cc_bytes : bytes;
}.

Record CheckpointReceipt := { cr_canonical_hash : Sha256Digest; cr_duplicate : bool }.

Record CheckpointCursor := { ccur_received_at : rstr; ccur_canonical_hash : Sha256Digest }.

Record ReceivedCheckpoint := {
  rc_cursor : CheckpointCursor;
  rc_checkpoint : CanonicalCheckpoint;
}.

Record CheckpointPage := {
  cpage_rows : list ReceivedCheckpoint;
  cpage_next_cursor : option CheckpointCursor;
}.

Inductive TransportError :=
| Offline | Transient | ProviderServer | AuthRequired | Revoked | QuotaBlocked | Integrity
| CheckpointVersionUnsupportedT | Configuration.

#[global] Instance SyncScope_eq_dec : EqDecision SyncScope.
Proof. solve_decision. Defined.
#[global] Instance SyncCursor_eq_dec : EqDecision SyncCursor.
Proof. solve_decision. Defined.
#[global] Instance CanonicalOperation_eq_dec : EqDecision CanonicalOperation.
Proof. solve_decision. Defined.
#[global] Instance ReceivedOperation_eq_dec : EqDecision ReceivedOperation.
Proof. solve_decision. Defined.
#[global] Instance PushReceipt_eq_dec : EqDecision PushReceipt.
Proof. solve_decision. Defined.
#[global] Instance PullPage_eq_dec : EqDecision PullPage.
Proof. solve_decision. Defined.
#[global] Instance CanonicalCheckpoint_eq_dec : EqDecision CanonicalCheckpoint.
Proof. solve_decision. Defined.
#[global] Instance CheckpointCursor_eq_dec : EqDecision CheckpointCursor.
Proof. solve_decision. Defined.
#[global] Instance ReceivedCheckpoint_eq_dec : EqDecision ReceivedCheckpoint.
Proof. solve_decision. Defined.
#[global] Instance TransportError_eq_dec : EqDecision TransportError.
Proof. solve_decision. Defined.

(** Cursor keys compare by receipt time, then identifier.  Receipt times are
    compared by scalar values, which is [String]'s byte order
    ([Text.as_bytes_order]). *)
#[global] Instance SyncCursor_ord : Ord SyncCursor := fun a b =>
  cmp (cur_received_at a, cur_operation_id a) (cur_received_at b, cur_operation_id b).

#[global] Instance CheckpointCursor_ord : Ord CheckpointCursor := fun a b =>
  cmp (ccur_received_at a, ccur_canonical_hash a) (ccur_received_at b, ccur_canonical_hash b).

Definition transport_safe_code (self : TransportError) : string :=
  match self with
  | Offline => "offline"
  | Transient | ProviderServer => "transient"
  | AuthRequired => "auth_required"
  | Revoked => "revoked"
  | QuotaBlocked => "quota_blocked"
  | Integrity => "integrity_quarantined"
  | CheckpointVersionUnsupportedT | Configuration => "configuration_error"
  end.

Definition is_retryable (self : TransportError) : bool :=
  match self with
  | Offline | Transient | ProviderServer => true
  | _ => false
  end.

Section transport.
Context `{UuidCrate, Minicbor, Primitives}.

Definition from_checkpoint (checkpoint : CheckpointV1) : result SyncError CanonicalCheckpoint :=
  let? b := map_err (fun _ => InvalidEnvelope) (encode_checkpoint_v1 checkpoint) in
  Ok {| cc_canonical_hash := sha256 b; cc_state_hash := cp_state_hash checkpoint;
        cc_checkpoint := checkpoint; cc_bytes := b |}.

(** memory.rs *)

Definition validate_canonical_operation (scope : SyncScope) (value : CanonicalOperation)
    : result TransportError unit :=
  let? decoded := map_err (fun _ => Integrity) (decode_sync_operation_v1 (can_bytes value)) in
  let? _ := map_err (fun _ => Integrity) (SyncOperationV1_validate decoded) in
  let? canonical := map_err (fun _ => Integrity) (encode_sync_operation_v1 decoded) in
  if negb (bool_decide (canonical = can_bytes value))
     || negb (bool_decide (op_operation_id decoded = can_operation_id value))
     || negb (bool_decide (op_device_id decoded = can_device_id value))
     || negb (op_device_sequence decoded =? can_device_sequence value)
     || negb (bool_decide (op_account_id decoded = scope_account_id scope))
     || negb (bool_decide (op_workspace_id decoded = scope_workspace_id scope))
  then Err Integrity else Ok tt.

Definition validate_canonical_checkpoint (scope : SyncScope) (value : CanonicalCheckpoint)
    : result TransportError unit :=
  let? decoded := map_err (fun _ => Integrity) (decode_checkpoint_v1 (cc_bytes value)) in
  let? canonical := map_err (fun _ => Integrity) (encode_checkpoint_v1 decoded) in
  let canonical_hash := sha256 canonical in
  if negb (bool_decide (canonical = cc_bytes value))
     || negb (bool_decide (decoded = cc_checkpoint value))
     || negb (bool_decide (cp_state_hash decoded = cc_state_hash value))
     || negb (bool_decide (canonical_hash = cc_canonical_hash value))
     || negb (bool_decide (cp_account_id decoded = scope_account_id scope))
     || negb (bool_decide (cp_workspace_id decoded = scope_workspace_id scope))
  then Err Integrity else Ok tt.

End transport.

(** ** Facts *)

#[global] Instance SyncCursor_ord_laws : OrdLaws SyncCursor.
Proof. apply (ord_by (fun c => (cur_received_at c, cur_operation_id c))). by intros [] [] [=]; subst. Qed.

#[global] Instance CheckpointCursor_ord_laws : OrdLaws CheckpointCursor.
Proof.
  apply (ord_by (fun c => (ccur_received_at c, ccur_canonical_hash c))). by intros [] [] [=]; subst.
Qed.

Section facts.
Context `{UuidCrate} `{MinicborLaws} `{Primitives}.

(** The operation a valid row carries. *)
Definition row_carries (scope : SyncScope) (value : CanonicalOperation) (op : SyncOperationV1)
    : Prop :=
  wf_operation op = true /\ encode_sync_operation_v1 op = Ok (can_bytes value)
  /\ op_operation_id op = can_operation_id value /\ op_device_id op = can_device_id value
  /\ op_device_sequence op = can_device_sequence value
  /\ op_account_id op = scope_account_id scope /\ op_workspace_id op = scope_workspace_id scope.

Lemma validate_canonical_operation_Ok scope value :
  validate_canonical_operation scope value = Ok tt <-> exists op, row_carries scope value op.
Proof.
  unfold validate_canonical_operation, row_carries. split.
  - intros Hv. res_inv. wf_inv. exists x.
    match goal with E : decode_sync_operation_v1 _ = _ |- _ =>
      apply decode_sync_operation_v1_Ok in E as [? ?] end.
    split_and!; done.
  - intros (op & Hw & He & E1 & E2 & E3 & E4 & E5).
    rewrite (proj2 (decode_sync_operation_v1_Ok (can_bytes value) op) (conj Hw He)).
    cbn [map_err rbind]. pose proof He as [-> _]%encode_sync_operation_v1_Ok.
    cbn [map_err rbind]. rewrite He. cbn [map_err rbind].
    rewrite !bool_decide_eq_true_2 by done. by rewrite E3, N.eqb_refl.
Qed.

Lemma validate_canonical_checkpoint_Ok scope value :
  validate_canonical_checkpoint scope value = Ok tt <->
  wf_checkpoint (cc_checkpoint value) = true
  /\ from_checkpoint (cc_checkpoint value) = Ok value
  /\ cp_account_id (cc_checkpoint value) = scope_account_id scope
  /\ cp_workspace_id (cc_checkpoint value) = scope_workspace_id scope.
Proof.
  unfold validate_canonical_checkpoint, from_checkpoint. split.
  - intros Hv. res_inv. wf_inv. subst.
    match goal with E : decode_checkpoint_v1 _ = _ |- _ =>
      apply decode_checkpoint_v1_Ok in E as [? He] end.
    split_and!; try done. rewrite He. cbn [map_err rbind]. destruct value; simpl in *. congruence.
  - intros (Hw & Hf & E4 & E5). res_inv.
    match goal with E : encode_checkpoint_v1 _ = Ok ?b |- _ => rename E into He; rename b into bs end.
    destruct value as [h sh cp b]; simpl in *. simplify_eq.
    rewrite (proj2 (decode_checkpoint_v1_Ok b cp) (conj Hw He)). cbn [map_err rbind].
    rewrite He. cbn [map_err rbind]. by rewrite !bool_decide_eq_true_2 by done.
Qed.

End facts.
