(* ===== verification/StateSummary.v ===== *)
(** * The state summary of a checkpoint (core/sync/checkpoint.rs, first part)

    One entry per record, with the hashes of its heads; its canonical bytes are
    hashed into the checkpoint.  The summary is normalised before encoding, so
    replicas that list the same records and heads in different orders agree on
    the hash, and the decoder accepts only the normalised encoding. *)

From S2P Require Import Prelude Ordering Text Protocol Minicbor CanonicalCbor Crypto Operation.

#[local] Open Scope N_scope.

Record StateSummaryEntryV1 := {
  sse_record_id : RecordId;
  sse_record_kind : RecordKind;
  sse_head_hashes : list Sha256Digest;
  sse_tombstoned : bool;
  sse_conflicted : bool;
}.

Record StateSummaryV1 := { ss_entries : list StateSummaryEntryV1 }.

#[global] Instance StateSummaryEntryV1_eq_dec : EqDecision StateSummaryEntryV1.
Proof. solve_decision. Defined.
#[global] Instance StateSummaryV1_eq_dec : EqDecision StateSummaryV1.
Proof. solve_decision. Defined.

Definition with_head_hashes (entry : StateSummaryEntryV1) (hashes : list Sha256Digest)
    : StateSummaryEntryV1 := {|
  sse_record_id := sse_record_id entry; sse_record_kind := sse_record_kind entry;
  sse_head_hashes := hashes; sse_tombstoned := sse_tombstoned entry;
  sse_conflicted := sse_conflicted entry |}.

(** The body of the loop over the sorted entries. *)
Definition normalize_entry (entry : StateSummaryEntryV1) : result SyncError StateSummaryEntryV1 :=
  if bool_decide (sse_head_hashes entry = [])
     || negb (Bool.eqb (sse_conflicted entry) (1 <? len (sse_head_hashes entry)))
  then Err InvalidEnvelope else
  let hashes := sort_by_key id (sse_head_hashes entry) in
  if windows2_any (fun a b => bool_decide (a = b)) hashes then Err InvalidEnvelope else
  Ok (with_head_hashes entry hashes).

Definition normalized_entries (entries : list StateSummaryEntryV1)
    : result SyncError (list StateSummaryEntryV1) :=
  let? entries := try_map normalize_entry (sort_by_key sse_record_id entries) in
  if windows2_any (fun a b => bool_decide (sse_record_id a = sse_record_id b)) entries
  then Err InvalidEnvelope else Ok entries.

Section summary.
Context `{UuidCrate, Minicbor, Primitives}.

Definition encode_entry (entry : StateSummaryEntryV1) : bytes :=
  enc_array 5 ++ enc_bytes (sse_record_id entry)
  ++ enc_uint (record_kind (sse_record_kind entry))
  ++ enc_array (len (sse_head_hashes entry)) ++ (sse_head_hashes entry ≫= enc_bytes)
  ++ enc_bool (sse_tombstoned entry) ++ enc_bool (sse_conflicted entry).

Definition encode_entries (entries : list StateSummaryEntryV1) : bytes :=
  enc_array (len entries) ++ (entries ≫= encode_entry).

Definition canonical_bytes (self : StateSummaryV1) : result SyncError bytes :=
  let? entries := normalized_entries (ss_entries self) in
  Ok (encode_entries entries).

Definition state_hash (self : StateSummaryV1) : result SyncError Sha256Digest :=
  let? b := canonical_bytes self in
  Ok (digest b).

(** A decoder method with every error mapped to [InvalidEnvelope]. *)
Definition sdec {A} (f : bytes -> option (A * bytes)) (d : bytes) : result SyncError (A * bytes) :=
  ok_or (f d) InvalidEnvelope.

Definition parse_record_kind (code : N) : result SyncError RecordKind :=
  map_err (fun _ => InvalidEnvelope) (decode_record_kind code).

Definition parse_record_id (b : bytes) : result SyncError RecordId :=
  if negb (len b =? 16) then Err InvalidEnvelope
  else map_err (fun _ => InvalidEnvelope) (id_from_str (hyphenated_format b)).

Definition decode_hash (d : bytes) : result SyncError (Sha256Digest * bytes) :=
  let? (b, d) := sdec dec_bytes d in
  if len b =? 32 then Ok (b, d) else Err InvalidEnvelope.

(** [for _ in 0..count { output.push(item(decoder)?) }]. *)
Fixpoint decode_many {A} (item : bytes -> result SyncError (A * bytes)) (n : nat) (d : bytes)
    : result SyncError (list A * bytes) :=
  match n with
  | O => Ok ([], d)
  | S n' =>
    let? (x, d) := item d in
    let? (xs, d) := decode_many item n' d in
    Ok (x :: xs, d)
  end.

Definition decode_entry (input_len : N) (d : bytes)
    : result SyncError (StateSummaryEntryV1 * bytes) :=
  let? (n, d) := sdec dec_array d in
  if negb (bool_decide (n = Some 5)) then Err InvalidEnvelope else
  let? (id_bytes, d) := sdec dec_bytes d in
  let? record_id := parse_record_id id_bytes in
  let? (code, d) := sdec dec_u8 d in
  let? kind := parse_record_kind code in
  let? (head_count, d) := sdec dec_array d in
  let? head_count := ok_or head_count InvalidEnvelope in
  if input_len <? head_count then Err InvalidEnvelope else
  let? (hashes, d) := decode_many decode_hash (N.to_nat head_count) d in
  let? (tombstoned, d) := sdec dec_bool d in
  let? (conflicted, d) := sdec dec_bool d in
  Ok ({| sse_record_id := record_id; sse_record_kind := kind; sse_head_hashes := hashes;
         sse_tombstoned := tombstoned; sse_conflicted := conflicted |}, d).

Definition decode_state_summary_v1 (input : bytes) : result SyncError StateSummaryV1 :=
  if MAX_CBOR_OPERATION_BYTES <? len input then Err InvalidEnvelope else
  let? (count, d) := sdec dec_array input in
  let? count := ok_or count InvalidEnvelope in
  if len input <? count then Err InvalidEnvelope else
  let? (entries, d) := decode_many (decode_entry (len input)) (N.to_nat count) d in
  if negb (bool_decide (d = [])) then Err InvalidEnvelope else
  let summary := {| ss_entries := entries |} in
  let? canonical := canonical_bytes summary in
  if negb (bool_decide (canonical = input)) then Err InvalidEnvelope else
  Ok summary.

(** The sizes Rust's types fix. *)
Definition wf_entry (entry : StateSummaryEntryV1) : bool :=
  wf_id (sse_record_id entry) && forallb (wf_fixed 32) (sse_head_hashes entry).

Definition wf_summary (s : StateSummaryV1) : bool := forallb wf_entry (ss_entries s).

End summary.

(** ** Facts: normalisation *)

(** Two summaries list the same records with the same heads. *)
Definition same_entry (a b : StateSummaryEntryV1) : Prop :=
  b = with_head_hashes a (sse_head_hashes b) /\ sse_head_hashes a ≡ₚ sse_head_hashes b.

Definition same_summary (s t : StateSummaryV1) : Prop :=
  exists entries, ss_entries s ≡ₚ entries /\ Forall2 same_entry entries (ss_entries t).

(** No adjacent equal keys in a sorted list means no equal keys. *)
Lemma windows2_eq_ascending {A K} `{OrdLaws K} `{EqDecision K} (key : A -> K) l :
  StronglySorted (fun a b => leb (key a) (key b) = true) l ->
  windows2_any (fun a b => bool_decide (key a = key b)) l = false <-> ascending key l.
Proof.
  intros Hs. rewrite <- windows2_ascending.
  induction Hs as [|x l Hs IH Hall]; [done|]. destruct l as [|y l]; [done|].
  cbn [windows2_any]. rewrite !orb_false_iff, IH. apply Forall_cons in Hall as [Hxy _].
  assert (bool_decide (key x = key y) = false <-> leb (key y) (key x) = false); [|naive_solver].
  rewrite bool_decide_eq_false. split.
  - intros Hne. destruct (leb (key y) (key x)) eqn:E; [|done].
    exfalso. apply Hne. by apply leb_antisym.
  - intros Hl E. rewrite E, leb_refl in Hl. done.
Qed.

(** An entry in normal form. *)
Definition normal_entry (e : StateSummaryEntryV1) : Prop :=
  sse_head_hashes e <> [] /\ sse_conflicted e = (1 <? len (sse_head_hashes e))
  /\ ascending id (sse_head_hashes e).

Lemma normalize_entry_Ok e e' :
  normalize_entry e = Ok e' <->
  e' = with_head_hashes e (sort_by_key id (sse_head_hashes e)) /\ normal_entry e'.
Proof.
  unfold normalize_entry, normal_entry.
  set (hashes := sort_by_key id (sse_head_hashes e)).
  assert (Hp : hashes ≡ₚ sse_head_hashes e) by apply sort_by_key_perm.
  assert (Hs : windows2_any (fun a b => bool_decide (a = b)) hashes = false
    <-> ascending (id : Sha256Digest -> Sha256Digest) hashes)
    by (apply (windows2_eq_ascending (id : Sha256Digest -> Sha256Digest)), sort_by_key_sorted).
  assert (Hl : len hashes = len (sse_head_hashes e)) by (unfold len; by rewrite Hp).
  assert (Hn : hashes = [] <-> sse_head_hashes e = []).
  { split; intros E; rewrite E in Hp; [symmetry; by apply Permutation_nil_l|by apply Permutation_nil_r in Hp]. }
  split.
  - intros He. res_inv. wf_inv. subst e'. cbn [with_head_hashes sse_head_hashes sse_conflicted].
    split; [done|]. split_and!; [by rewrite Hn| |by apply Hs].
    rewrite Hl. by apply eqb_prop.
  - intros (-> & Hne & Hc & Ha). cbn [with_head_hashes sse_head_hashes sse_conflicted] in *.
    rewrite bool_decide_eq_false_2 by (by rewrite <- Hn).
    rewrite <- Hl, <- Hc, Bool.eqb_reflx. cbn [negb orb].
    by rewrite (proj2 Hs Ha).
Qed.

Lemma with_head_hashes_id e : with_head_hashes e (sse_head_hashes e) = e.
Proof. by destruct e. Qed.

Lemma normalize_entry_normal e : normal_entry e -> normalize_entry e = Ok e.
Proof.
  intros Hn. apply normalize_entry_Ok. destruct Hn as (Hne & Hc & Ha).
  rewrite (sort_by_key_id id) by done. rewrite with_head_hashes_id. done.
Qed.

Definition normal (entries : list StateSummaryEntryV1) : Prop :=
  Forall normal_entry entries /\ ascending sse_record_id entries.

Lemma normalize_ids es es' :
  Forall2 (fun e e' => normalize_entry e = Ok e') es es' ->
  sse_record_id <$> es' = sse_record_id <$> es.
Proof.
  induction 1 as [|e e' es es' He _ IH]; [done|]. csimpl. rewrite IH.
  apply normalize_entry_Ok in He as [-> _]. done.
Qed.

Lemma sorted_by_ids (es es' : list StateSummaryEntryV1) :
  sse_record_id <$> es' = sse_record_id <$> es ->
  StronglySorted (fun a b => leb (sse_record_id a) (sse_record_id b) = true) es ->
  StronglySorted (fun a b => leb (sse_record_id a) (sse_record_id b) = true) es'.
Proof.
  intros E Hs. revert es' E. induction Hs as [|e es Hs IH Hall]; intros es' E.
  { destruct es'; [constructor|done]. }
  destruct es' as [|e' es']; [done|]. injection E as Ee E.
  change (sse_record_id <$> es' = sse_record_id <$> es) in E. constructor; [by apply IH|].
  rewrite Forall_forall in Hall |- *. intros x Hx.
  assert (Hin : sse_record_id x ∈ sse_record_id <$> es) by (rewrite <- E; by apply list_elem_of_fmap_2).
  apply list_elem_of_fmap in Hin as (y & Hy & Hin). rewrite Ee, Hy. by apply Hall.
Qed.

Lemma normalized_entries_Ok entries es :
  normalized_entries entries = Ok es <->
  Forall2 (fun e e' => e' = with_head_hashes e (sort_by_key id (sse_head_hashes e)))
    (sort_by_key sse_record_id entries) es /\ normal es.
Proof.
  unfold normalized_entries, normal. split.
  - intros He. res_inv. subst.
    match goal with E : try_map _ _ = Ok _ |- _ => apply try_map_Ok in E as Hm end.
    assert (Hsort : StronglySorted (fun a b => leb (sse_record_id a) (sse_record_id b) = true) es).
    { eapply sorted_by_ids; [by eapply normalize_ids|apply sort_by_key_sorted]. }
    split_and!.
    + eapply Forall2_impl; [exact Hm|]. by intros e e' [? _]%normalize_entry_Ok.
    + clear -Hm. induction Hm as [|e e' es es' He _ IH]; constructor; [|done].
      by apply normalize_entry_Ok in He as [_ ?].
    + by apply (windows2_eq_ascending sse_record_id).
  - intros (Hm & Hn & Ha).
    assert (Ht : try_map normalize_entry (sort_by_key sse_record_id entries) = Ok es).
    { apply try_map_Ok. clear Ha. induction Hm as [|e e' l l' He _ IH]; constructor.
      - apply normalize_entry_Ok. apply Forall_cons in Hn as [? _]. done.
      - apply IH. by apply Forall_cons in Hn as [_ ?]. }
    rewrite Ht. cbn [rbind].
    by rewrite (proj2 (windows2_eq_ascending sse_record_id es (ascending_sorted _ _ Ha)) Ha).
Qed.

(** Sorting by a key commutes with a relation that keeps the key. *)
Lemma sort_by_key_Forall2 {A B K} `{Ord K} (ka : A -> K) (kb : B -> K) (R : A -> B -> Prop) l k :
  (forall a b, R a b -> ka a = kb b) -> Forall2 R l k ->
  Forall2 R (sort_by_key ka l) (sort_by_key kb k).
Proof.
  intros HR. unfold sort_by_key, sort_by. induction 1 as [|a b l k Hab _ IH]; [constructor|].
  cbn [foldr]. revert IH. generalize (foldr (insert_by (fun a b => leb (ka a) (ka b))) [] l)
    (foldr (insert_by (fun a b => leb (kb a) (kb b))) [] k).
  induction 1 as [|x y l' k' Hxy Hl IH]; simpl; [by repeat constructor|].
  rewrite (HR a b Hab), (HR x y Hxy). destruct (leb (kb b) (kb y)); by repeat constructor.
Qed.

Lemma same_entry_sym a b : same_entry a b -> same_entry b a.
Proof. intros [E Hp]. split; [|done]. rewrite E. by destruct a, b. Qed.

#[export] Instance same_summary_refl : Reflexive same_summary.
Proof.
  intros s. exists (ss_entries s). split; [done|]. apply Forall_Forall2_diag, Forall_true.
  intros e. split; [by destruct e|done].
Qed.

Lemma same_summary_sym s t : same_summary s t -> same_summary t s.
Proof.
  intros (mid & Hp & Hf).
  destruct (Permutation_Forall2 (symmetry Hp) Hf) as (k & Hk & Hs).
  exists k. split; [done|]. clear -Hs.
  induction Hs; constructor; [by apply same_entry_sym|done].
Qed.

Lemma normalized_entries_same s t es :
  same_summary s t -> normalized_entries (ss_entries s) = Ok es ->
  normalized_entries (ss_entries t) = Ok es.
Proof.
  intros (mid & Hp & Hf). rewrite !normalized_entries_Ok. intros [Hm Hn]. split; [|done].
  assert (Hids : sse_record_id <$> es = sse_record_id <$> sort_by_key sse_record_id (ss_entries s)).
  { clear -Hm. induction Hm as [|e e' l l' -> _ IH]; [done|]. csimpl. by rewrite IH. }
  assert (Hnd : NoDup (sse_record_id <$> ss_entries s)).
  { rewrite <- (sort_by_key_perm sse_record_id), <- Hids. apply ascending_NoDup, Hn. }
  rewrite (sort_by_key_perm_eq sse_record_id _ mid Hnd Hp) in Hm.
  assert (Hs : Forall2 same_entry (sort_by_key sse_record_id mid)
                 (sort_by_key sse_record_id (ss_entries t))).
  { apply sort_by_key_Forall2; [|done]. by intros a b [-> _]. }
  destruct Hn as [Hn _]. clear -Hm Hs Hn. revert es Hm Hn.
  induction Hs as [|a b l k [E Hab] _ IH]; intros es Hm Hn; inversion Hm as [|? e ? es' He Hm']; subst.
  { constructor. }
  apply Forall_cons in Hn as [(_ & _ & Ha) Hn]. constructor; [|by apply IH].
  cbn [with_head_hashes sse_head_hashes] in Ha. rewrite E.
  cbn [with_head_hashes sse_head_hashes sse_record_id sse_record_kind sse_tombstoned sse_conflicted].
  unfold with_head_hashes; simpl. f_equal.
  apply (sort_by_key_perm_eq (id : Sha256Digest -> Sha256Digest)); [|done].
  rewrite list_fmap_id. rewrite <- (sort_by_key_perm (id : Sha256Digest -> Sha256Digest)).
  rewrite <- list_fmap_id. by apply ascending_NoDup.
Qed.

Lemma normalized_entries_Err entries e :
  normalized_entries entries = Err e -> e = InvalidEnvelope.
Proof.
  unfold normalized_entries.
  assert (Hm : forall l e', try_map normalize_entry l = Err e' -> e' = InvalidEnvelope).
  { induction l as [|x l IH]; simpl; [done|]. intros e'. unfold normalize_entry at 1.
    destruct (_ || _); simpl; [naive_solver|]. destruct (windows2_any _ _); simpl; [naive_solver|].
    destruct (try_map normalize_entry l); simpl; naive_solver. }
  destruct (try_map _ _) as [es|e'] eqn:E; simpl.
  - case_match; naive_solver.
  - intros [= ->]. by eapply Hm.
Qed.

(** ** Facts: the codec *)

Section codec.
Context `{UuidCrateLaws} `{MinicborLaws} `{Primitives}.

Lemma sdec_enc {A} (f : bytes -> option (A * bytes)) x e r :
  f (e ++ r) = Some (x, r) -> sdec f (e ++ r) = Ok (x, r).
Proof. unfold sdec. by intros ->. Qed.

Lemma parse_record_id_wf b i : parse_record_id b = Ok i <-> i = b /\ wf_id b = true.
Proof.
  unfold parse_record_id. destruct (N.eqb_spec (len b) 16) as [Hl|Hl]; cbn [negb].
  - rewrite map_err_Ok, id_from_str_Ok. split.
    + intros [Hw E]. pose proof (wf_id_len i Hw) as Hi.
      assert (i = b) as ->; [|done].
      enough (Some i = Some b) by naive_solver.
      rewrite <- (parse_hyphenated i), <- (parse_hyphenated b), E by (unfold len in *; lia). done.
    + intros [-> Hw]. done.
  - split; [done|]. intros [_ Hw%wf_id_len]. done.
Qed.

Lemma decode_many_enc {A} (item : bytes -> result SyncError (A * bytes)) (enc : A -> bytes) l r :
  (forall x s, x ∈ l -> item (enc x ++ s) = Ok (x, s)) ->
  decode_many item (length l) ((l ≫= enc) ++ r) = Ok (l, r).
Proof.
  intros Hitem. induction l as [|x l IH]; [done|].
  cbn [length decode_many mbind list_bind]. rewrite <- app_assoc.
  rewrite Hitem by set_solver. cbn [rbind]. change (list_bind _ _ enc l) with (l ≫= enc).
  rewrite IH by set_solver. done.
Qed.

Lemma decode_entry_enc L e r :
  wf_entry e = true -> len (sse_head_hashes e) <= L -> L <= u64_max ->
  decode_entry L (encode_entry e ++ r) = Ok (e, r).
Proof.
  unfold wf_entry. intros Hw HL HL'. wf_inv.
  assert (Hid : len (sse_record_id e) = 16) by (by apply wf_id_len).
  unfold decode_entry, encode_entry. rewrite <- !app_assoc.
  erewrite (sdec_enc dec_array) by (apply dec_enc_array; by vm_compute). cbn [rbind].
  rewrite bool_decide_eq_true_2 by done. cbn [negb].
  erewrite (sdec_enc dec_bytes) by (apply dec_enc_bytes; range). cbn [rbind].
  rewrite (proj2 (parse_record_id_wf _ (sse_record_id e))) by done. cbn [rbind].
  erewrite (sdec_enc dec_u8) by (apply dec_enc_u8, record_kind_u8). cbn [rbind].
  unfold parse_record_kind. rewrite decode_record_kind_enc. cbn [map_err rbind].
  erewrite (sdec_enc dec_array) by (apply dec_enc_array; lia). cbn [rbind ok_or].
  rewrite (proj2 (N.ltb_ge _ _)) by done. unfold len at 1. rewrite Nat2N.id.
  rewrite (decode_many_enc decode_hash enc_bytes).
  2: { intros h s Hh. unfold decode_hash.
       assert (Hlh : wf_fixed 32 h = true).
       { match goal with Hf : forallb _ _ = true |- _ => rewrite forallb_forall in Hf; apply Hf end.
         by apply list_elem_of_In. }
       apply N.eqb_eq in Hlh. erewrite (sdec_enc dec_bytes) by (apply dec_enc_bytes; range).
       cbn [rbind]. by rewrite (proj2 (N.eqb_eq _ _) Hlh). }
  cbn [rbind]. erewrite (sdec_enc dec_bool) by apply dec_enc_bool. cbn [rbind].
  erewrite (sdec_enc dec_bool) by apply dec_enc_bool. cbn [rbind]. by destruct e.
Qed.

(** Encodings of list headers and byte strings are not empty. *)
Lemma enc_array_5_pos : 1 <= len (enc_array 5).
Proof.
  destruct (enc_array 5) as [|b l] eqn:E; [|unfold len; simpl; lia].
  exfalso. pose proof (dec_enc_array 2 [] ltac:(by vm_compute)) as Htwo.
  pose proof (dec_enc_array 5 (enc_array 2 ++ []) ltac:(by vm_compute)) as Hfive.
  rewrite E in Hfive. simpl in Hfive. rewrite Htwo in Hfive. done.
Qed.

Lemma enc_bytes_pos b : len b = 32 -> 1 <= len (enc_bytes b).
Proof.
  intros Hb. destruct (enc_bytes b) as [|c l] eqn:E; [|unfold len; simpl; lia].
  exfalso. pose proof (dec_enc_bytes [] [] ltac:(by vm_compute)) as Htwo.
  pose proof (dec_enc_bytes b (enc_bytes [] ++ []) ltac:(rewrite Hb; by vm_compute)) as Hfive.
  rewrite E in Hfive. simpl in Hfive. rewrite Htwo in Hfive. by simplify_eq.
Qed.

Lemma len_bind_ge {A} (f : A -> bytes) l :
  Forall (fun x => 1 <= len (f x)) l -> len l <= len (l ≫= f).
Proof.
  induction 1 as [|x l Hx _ IH]; [done|]. cbn [mbind list_bind].
  change (list_bind _ _ f l) with (l ≫= f). rewrite len_cons, len_app. lia.
Qed.

Lemma len_bind_elem {A} (f : A -> bytes) l x : x ∈ l -> len (f x) <= len (l ≫= f).
Proof.
  induction 1 as [x l|x y l _ IH]; cbn [mbind list_bind];
    change (list_bind _ _ f l) with (l ≫= f); rewrite len_app; lia.
Qed.

Lemma encode_entry_len e :
  wf_entry e = true -> 1 <= len (encode_entry e)
  /\ len (sse_head_hashes e) <= len (encode_entry e).
Proof.
  unfold wf_entry, encode_entry. intros Hw. wf_inv. rewrite !len_app.
  pose proof enc_array_5_pos.
  assert (len (sse_head_hashes e) <= len (sse_head_hashes e ≫= enc_bytes)); [|lia].
  apply len_bind_ge, Forall_forall. intros h Hh. apply enc_bytes_pos.
  match goal with Hf : forallb _ _ = true |- _ => rewrite forallb_forall in Hf;
    apply N.eqb_eq, Hf end. by apply list_elem_of_In.
Qed.

(** Reading back an encoded entry list. *)
Lemma decode_entries_enc es :
  forallb wf_entry es = true -> len (encode_entries es) <= MAX_CBOR_OPERATION_BYTES ->
  len es <= len (encode_entries es)
  /\ decode_many (decode_entry (len (encode_entries es))) (length es) (es ≫= encode_entry)
     = Ok (es, []).
Proof.
  intros Hw Hmax. rewrite forallb_forall in Hw. setoid_rewrite <- list_elem_of_In in Hw.
  assert (Hlen : len (es ≫= encode_entry) <= len (encode_entries es)).
  { unfold encode_entries. rewrite len_app. lia. }
  split.
  - etrans; [apply (len_bind_ge encode_entry)|exact Hlen].
    apply Forall_forall. intros e He. by apply encode_entry_len, Hw.
  - rewrite <- (app_nil_r (es ≫= encode_entry)) at 1. apply decode_many_enc. intros e s He.
    apply decode_entry_enc; [by apply Hw| |].
    + etrans; [apply encode_entry_len, (Hw e He)|].
      etrans; [apply (len_bind_elem encode_entry es e He)|done].
    + unfold MAX_CBOR_OPERATION_BYTES, u64_max in *. lia.
Qed.

Lemma decode_many_wf {A} (item : bytes -> result SyncError (A * bytes)) (wf : A -> bool) n d l r :
  (forall d x r, item d = Ok (x, r) -> wf x = true) ->
  decode_many item n d = Ok (l, r) -> forallb wf l = true /\ length l = n.
Proof.
  intros Hitem. revert d l r. induction n as [|n IH]; intros d l r; cbn [decode_many].
  { by intros [= <- <-]. }
  intros ([x d1] & Hx & ([xs d2] & Hxs & [= <- <-])%rbind_Ok)%rbind_Ok.
  simpl. rewrite (Hitem _ _ _ Hx). destruct (IH _ _ _ Hxs) as [-> <-]. done.
Qed.

Lemma decode_entry_wf L d e r : decode_entry L d = Ok (e, r) -> wf_entry e = true.
Proof.
  unfold decode_entry. intros He. dec_inv. unfold wf_entry; simpl.
  match goal with E : parse_record_id _ = Ok _ |- _ => apply parse_record_id_wf in E as [-> ->] end.
  simpl. match goal with E : decode_many _ _ _ = Ok _ |- _ =>
    eapply (decode_many_wf decode_hash) in E as [E _]; [exact E|] end.
  intros d' h r' Hh. unfold decode_hash in Hh. dec_inv. done.
Qed.

Lemma normalized_wf entries es :
  normalized_entries entries = Ok es -> forallb wf_entry entries = true ->
  forallb wf_entry es = true /\ length es = length entries.
Proof.
  rewrite normalized_entries_Ok. intros [Hm _] Hw.
  assert (Hs : forallb wf_entry (sort_by_key sse_record_id entries) = true).
  { eapply forallb_perm; [apply sort_by_key_perm|done]. }
  rewrite <- (Permutation_length (sort_by_key_perm sse_record_id entries)).
  clear Hw. induction Hm as [|e e' l l' -> _ IH]; [done|].
  cbn [forallb] in Hs |- *. apply andb_true_iff in Hs as [He Hs].
  destruct (IH Hs) as [-> E]. split; [|simpl; by rewrite E]. rewrite andb_true_r.
  unfold wf_entry in *. simpl. apply andb_true_iff in He as [-> Hh]. simpl.
  eapply forallb_perm; [apply sort_by_key_perm|done].
Qed.

End codec.

Section properties.
Context `{UuidCrateLaws} `{MinicborLaws} `{Primitives}.

Lemma canonical_bytes_Ok s b :
  canonical_bytes s = Ok b <->
  exists es, normalized_entries (ss_entries s) = Ok es /\ b = encode_entries es.
Proof. unfold canonical_bytes. rewrite rbind_Ok. naive_solver. Qed.

Lemma normalized_normal es : normal es -> normalized_entries es = Ok es.
Proof.
  intros [Hn Ha]. apply normalized_entries_Ok. split; [|done].
  rewrite (sort_by_key_id sse_record_id) by done. clear Ha.
  induction Hn as [|e es (Hne & Hc & Hh) _ IH]; constructor; [|done].
  rewrite (sort_by_key_id id) by done. by rewrite with_head_hashes_id.
Qed.

Lemma decode_state_summary_enc es :
  forallb wf_entry es = true -> normal es ->
  len (encode_entries es) <= MAX_CBOR_OPERATION_BYTES ->
  decode_state_summary_v1 (encode_entries es) = Ok {| ss_entries := es |}.
Proof.
  intros Hw Hn Hmax. destruct (decode_entries_enc es Hw Hmax) as [Hlen Hd].
  unfold decode_state_summary_v1. rewrite (proj2 (N.ltb_ge _ _)) by done.
  unfold encode_entries at 1.
  erewrite (sdec_enc dec_array)
    by (apply dec_enc_array; unfold MAX_CBOR_OPERATION_BYTES, u64_max in *; lia).
  cbn [rbind ok_or]. rewrite (proj2 (N.ltb_ge _ _)) by done.
  unfold len at 2. rewrite Nat2N.id, Hd. cbn [rbind].
  rewrite bool_decide_eq_true_2 by done. cbn [negb].
  unfold canonical_bytes. cbn [ss_entries]. rewrite (normalized_normal es Hn). cbn [rbind].
  by rewrite bool_decide_eq_true_2.
Qed.

Lemma decode_state_summary_inv b s :
  decode_state_summary_v1 b = Ok s ->
  len b <= MAX_CBOR_OPERATION_BYTES /\ canonical_bytes s = Ok b
  /\ exists count d, dec_array b = Some (Some count, d)
     /\ decode_many (decode_entry (len b)) (N.to_nat count) d = Ok (ss_entries s, []).
Proof.
  unfold decode_state_summary_v1. intros Hd.
  destruct (N.ltb_spec MAX_CBOR_OPERATION_BYTES (len b)) as [|Hmax]; [done|].
  apply rbind_Ok in Hd as ([o d] & Ho & Hd). apply rbind_Ok in Hd as (count & Hc & Hd).
  apply ok_or_Ok in Ho, Hc. subst o. destruct (len b <? count); [done|].
  apply rbind_Ok in Hd as ([es r] & Hm & Hd). res_inv. wf_inv. subst. split_and!; [done..|].
  exists count, d. done.
Qed.

(** Only the normal form decodes. *)
Lemma decode_state_summary_normal b s :
  decode_state_summary_v1 b = Ok s ->
  wf_summary s = true /\ normal (ss_entries s) /\ b = encode_entries (ss_entries s)
  /\ len b <= MAX_CBOR_OPERATION_BYTES.
Proof.
  intros (Hmax & (es & Hn & ->)%canonical_bytes_Ok & count & d & Hd & Hm)%decode_state_summary_inv.
  assert (Hw : forallb wf_entry (ss_entries s) = true /\ length (ss_entries s) = N.to_nat count)
    by (eapply decode_many_wf; [apply decode_entry_wf|exact Hm]). destruct Hw as [Hw Hx].
  destruct (normalized_wf _ _ Hn Hw) as [Hwe Hle].
  destruct (decode_entries_enc es Hwe Hmax) as [Hlen Hd'].
  unfold encode_entries in Hd at 1.
  rewrite dec_enc_array in Hd by (unfold MAX_CBOR_OPERATION_BYTES, u64_max in *; lia).
  injection Hd as <- <-. unfold len in Hm at 2. rewrite Nat2N.id, Hd' in Hm.
  injection Hm as E. apply normalized_entries_Ok in Hn as [_ Hn]. rewrite <- E. done.
Qed.

Lemma canonical_bytes_same s t : same_summary s t -> canonical_bytes s = canonical_bytes t.
Proof.
  intros Hst. unfold canonical_bytes.
  destruct (normalized_entries (ss_entries s)) as [es|e] eqn:Es.
  - by rewrite (normalized_entries_same s t es Hst Es).
  - destruct (normalized_entries (ss_entries t)) as [es|e'] eqn:Et.
    + rewrite (normalized_entries_same t s es (same_summary_sym s t Hst) Et) in Es. done.
    + apply normalized_entries_Err in Es, Et. by subst.
Qed.

Lemma state_hash_same s t : same_summary s t -> state_hash s = state_hash t.
Proof. intros Hst. unfold state_hash. by rewrite (canonical_bytes_same s t Hst). Qed.

(** The state hash is a function of the state: two summaries that list the
    same records with the same head hashes, in any order, have the same canonical
    bytes, or are refused alike. *)
Theorem state_summary_order_independent s t :
  same_summary s t ->
  canonical_bytes s = canonical_bytes t /\ state_hash s = state_hash t.
Proof. intros Hst. split; [by apply canonical_bytes_same|by apply state_hash_same]. Qed.

(** The summary decoder accepts exactly the encodings, within the size
    limit, of well-formed summaries in normal form, and decoding the canonical
    bytes of any well-formed summary gives its normal form. *)
Theorem state_summary_codec b s :
  (decode_state_summary_v1 b = Ok s <->
   wf_summary s = true /\ normal (ss_entries s) /\ b = encode_entries (ss_entries s)
   /\ len b <= MAX_CBOR_OPERATION_BYTES)
  /\ (wf_summary s = true -> canonical_bytes s = Ok b -> len b <= MAX_CBOR_OPERATION_BYTES ->
      exists t, decode_state_summary_v1 b = Ok t
        /\ normalized_entries (ss_entries s) = Ok (ss_entries t)).
Proof.
  split; [split; [apply decode_state_summary_normal|]|].
  - intros (Hw & Hn & -> & Hmax). destruct s as [es]. by apply decode_state_summary_enc.
  - intros Hw (es & Hn & ->)%canonical_bytes_Ok Hmax. exists {| ss_entries := es |}.
    split; [|done]. apply decode_state_summary_enc; [|by apply normalized_entries_Ok in Hn as [_ ?]|done].
    by apply (normalized_wf _ _ Hn).
Qed.

End properties.

Module SummaryWitness.
#[local] Existing Instances rfc9562 rfc9562_laws Rfc8949.codec Rfc8949.codec_laws Toy.toy.

Definition other_id : Uuid :=
  byte_of <$> [0x01; 0x8f; 0x22; 0xe2; 0x79; 0xb0; 0x7c; 0xc8;
               0x98; 0xc4; 0xdc; 0x0c; 0x0c; 0x07; 0x39; 0x90].

Definition conflict (hashes : list Sha256Digest) : StateSummaryEntryV1 := {|
  sse_record_id := Fixture.id; sse_record_kind := KMemory; sse_head_hashes := hashes;
  sse_tombstoned := false; sse_conflicted := true |}.

Definition single : StateSummaryEntryV1 := {|
  sse_record_id := other_id; sse_record_kind := KTask; sse_head_hashes := [Fixture.rep 32 3];
  sse_tombstoned := true; sse_conflicted := false |}.

Definition left_summary : StateSummaryV1 :=
  {| ss_entries := [single; conflict [Fixture.rep 32 2; Fixture.rep 32 1]] |}.
Definition right_summary : StateSummaryV1 :=
  {| ss_entries := [conflict [Fixture.rep 32 1; Fixture.rep 32 2]; single] |}.

Lemma state_summary_order_independent_witness :
  state_hash left_summary = state_hash right_summary
  /\ is_ok (state_hash left_summary) = true.
Proof.
  split; [|vm_compute; reflexivity].
  refine (proj2 (state_summary_order_independent left_summary right_summary _)).
  exists [conflict [Fixture.rep 32 2; Fixture.rep 32 1]; single]. split.
  - apply Permutation_swap.
  - repeat constructor.
Defined.

Lemma state_summary_codec_witness :
  exists b t, canonical_bytes left_summary = Ok b /\ decode_state_summary_v1 b = Ok t.
Proof.
  eexists. destruct (proj2 (state_summary_codec (encode_entries (ss_entries right_summary))
    left_summary)) as (t & Ht & _).
  - vm_compute. reflexivity.
  - vm_compute. reflexivity.
  - vm_compute. discriminate.
  - exists t. split; [|exact Ht]. vm_compute. reflexivity.
Defined.

End SummaryWitness.
