(* ===== verification/Admission.v ===== *)
(** * Admission of received operations (core/sync/admission.rs)

    [admit_operation] decides what to do with received bytes, from the canonical
    decoding to the decrypted mutation, against the local vault and the trusted
    control roster.  Both are interfaces here: [SyncVault] is what the sync code
    reads from the vault, and [TrustedSyncMaterial] is the trait of the source. *)

From S2P Require Import Prelude Ordering Text Protocol Minicbor CanonicalCbor Domain.
From S2P Require Import SyncPayload Crypto Operation Causal Merge Transport StateSummary.

#[local] Open Scope N_scope.

(** vault.rs *)
Inductive VaultError :=
| MissingKey | WrongKey | FutureSchema (found : N) | Migration (message : string)
| BudgetExceeded | Credential (message : string) | Security (message : string)
| Validation (message : string) | VaultOperationConflict | Serialization (message : string)
| Database | SearchModel.

Record TrustedDevice := {
  td_certificate : DeviceCertificateV1;
  td_active_control_epoch : N;
  td_active_key_epoch : N;
}.

Definition validate_identity (self : TrustedDevice) (account : AccountId)
    (workspace : WorkspaceId) (device : DeviceId) (key_epoch : N) : result SyncError unit :=
  let certificate := td_certificate self in
  if negb (bool_decide (cert_account_id certificate = account))
     || negb (bool_decide (cert_workspace_id certificate = workspace))
     || negb (bool_decide (cert_device_id certificate = device))
     || (cert_control_epoch certificate =? 0)
     || (td_active_control_epoch self <? cert_control_epoch certificate)
     || (td_active_key_epoch self =? 0)
     || negb (key_epoch =? td_active_key_epoch self)
  then Err InvalidIdentity else Ok tt.

(** checkpoint.rs *)
Record StoredCheckpointPin := {
  pin_scope : SyncScope;
  pin_canonical_hash : Sha256Digest;
  pin_state_hash : Sha256Digest;
  pin_canonical_bytes : bytes;
  pin_accepted_at_ms : N;
}.

(** ** Interfaces *)

Class TrustedSyncMaterial (M : Type) := {
  membership_endpoint : M -> option MembershipEndpoint;
  trusted_device : M -> AccountId -> WorkspaceId -> DeviceId -> result SyncError TrustedDevice;
  content_key : M -> WorkspaceId -> N -> result SyncError ContentKey;
}.

(** What the sync code reads from the vault. *)
Class SyncVault (V M : Type) := {
  require_current_operation :
    V -> SyncOperationV1 -> option MembershipEndpoint -> result VaultError unit;
  require_current_device :
    V -> SyncScope -> option MembershipEndpoint -> TrustedDevice -> result VaultError unit;
  device_head : V -> WorkspaceId -> DeviceId -> result VaultError (option StoredDeviceHead);
  stored_sync_operation : V -> OperationId -> result VaultError (option bytes);
  operation_at_device_sequence :
    V -> WorkspaceId -> DeviceId -> N -> result VaultError (option OperationId);
  record_belongs_to_sync_scope :
    V -> M -> AccountId -> WorkspaceId -> RecordId -> RecordKind -> result VaultError bool;
  materialized_record_scope :
    V -> WorkspaceId -> RecordId -> RecordKind -> result VaultError (option ScopeRef);
  sync_checkpoint_pin : V -> SyncScope -> result VaultError (option StoredCheckpointPin);
  sync_checkpoint_frontier : V -> SyncScope -> result VaultError (list DeviceSequence);
  sync_state_summary : V -> SyncScope -> result VaultError StateSummaryV1;
}.
Arguments require_current_operation {V} M {_}.
Arguments require_current_device {V} M {_}.
Arguments device_head {V} M {_}.
Arguments stored_sync_operation {V} M {_}.
Arguments operation_at_device_sequence {V} M {_}.
Arguments materialized_record_scope {V} M {_}.
Arguments sync_checkpoint_pin {V} M {_}.
Arguments sync_checkpoint_frontier {V} M {_}.
Arguments sync_state_summary {V} M {_}.

Inductive AdmissionDecision :=
| ExactReplay (operation_id : OperationId)
| Gap (first last : N)
| AdmittedAs (admitted : AdmittedOperation).

Definition validate_active_identity (operation : SyncOperationV1) (trusted : TrustedDevice)
    : result SyncError unit :=
  let? _ := validate_identity trusted (op_account_id operation) (op_workspace_id operation)
              (op_device_id operation) (op_key_epoch operation) in
  if negb (op_control_epoch operation =? td_active_control_epoch trusted)
  then Err InvalidIdentity else Ok tt.

Definition trusted_context (trusted : TrustedDevice) (previous : option OperationChainHead)
    (existing_scope : option ScopeRef) : TrustedOperationContext :=
  let context := with_current_control_epoch
    (TrustedOperationContext_new (td_certificate trusted) (td_active_key_epoch trusted) previous)
    (td_active_control_epoch trusted) in
  match existing_scope with
  | Some scope => with_existing_record_scope context scope
  | None => context
  end.

Definition chain_head_of (head : StoredDeviceHead) : OperationChainHead :=
  {| head_sequence := sdh_sequence head; head_canonical_hash := sdh_canonical_hash head |}.

(** [map_err(|_| SyncError::PersistenceFailed)]. *)
Definition persistence {A} (r : result VaultError A) : result SyncError A :=
  map_err (fun _ => PersistenceFailed) r.

Section admission.
Context `{UuidCrate, Minicbor, RecordJson, Primitives}.
Context {V M : Type} `{!TrustedSyncMaterial M} `{!SyncVault V M}.

Definition validate_frontier_entry (vault : V) (workspace : WorkspaceId) (entry : DeviceSequence)
    : result SyncError unit :=
  let? head := persistence (device_head M vault workspace (ds_device_id entry)) in
  let? head := ok_or head InvalidFrontier in
  if sdh_sequence head <? ds_sequence entry then Err InvalidFrontier else Ok tt.

Definition validate_frontier_against_vault (vault : V) (operation : SyncOperationV1)
    : result SyncError unit :=
  let? _ := validate_frontier (op_causal_frontier operation) (op_device_id operation)
              (Some (op_device_sequence operation)) in
  try_for_each (validate_frontier_entry vault (op_workspace_id operation))
    (op_causal_frontier operation).

(** The scope a tombstone needs. *)
Definition existing_scope (vault : V) (operation : SyncOperationV1)
    : result SyncError (option ScopeRef) :=
  if bool_decide (op_mutation_kind operation = Tombstone) then
    let? scope := persistence (materialized_record_scope M vault (op_workspace_id operation)
                    (op_record_id operation) (op_record_kind operation)) in
    let? scope := ok_or scope InvalidScope in
    Ok (Some scope)
  else Ok None.

Definition admit_operation (vault : V) (received_bytes : bytes) (trusted_material : M)
    : result SyncError AdmissionDecision :=
  let? operation :=
    map_err (fun _ => InvalidEnvelope) (decode_sync_operation_v1 received_bytes) in
  let? _ := map_err (fun _ => InvalidIdentity)
    (require_current_operation M vault operation (membership_endpoint trusted_material)) in
  let? _ := map_err (fun _ => InvalidEnvelope) (SyncOperationV1_validate operation) in
  let? canonical_bytes := map_err (fun _ => InvalidEnvelope) (encode_sync_operation_v1 operation) in
  if negb (bool_decide (canonical_bytes = received_bytes)) then Err InvalidEnvelope else
  let canonical_hash := digest canonical_bytes in
  let? trusted := trusted_device trusted_material (op_account_id operation)
                    (op_workspace_id operation) (op_device_id operation) in
  let? _ := validate_active_identity operation trusted in
  let? previous := persistence (device_head M vault (op_workspace_id operation)
                                  (op_device_id operation)) in
  let previous_chain := chain_head_of <$> previous in
  let? _ := verify_operation_public_authenticity operation
              (trusted_context trusted previous_chain None) in
  let? stored := persistence (stored_sync_operation M vault (op_operation_id operation)) in
  match stored with
  | Some stored =>
      if bool_decide (stored = canonical_bytes)
      then Ok (ExactReplay (op_operation_id operation)) else Err OperationConflict
  | None =>
    let? at_sequence := persistence (operation_at_device_sequence M vault
      (op_workspace_id operation) (op_device_id operation) (op_device_sequence operation)) in
    if bool_decide (is_Some at_sequence) then Err SequenceConflict else
    let? missing := missing_range previous operation in
    match missing with
    | Some (first, last) => Ok (Gap first last)
    | None =>
      let expected_previous :=
        match previous with Some head => sdh_canonical_hash head | None => zero_digest end in
      if negb (bool_decide (op_previous_device_hash operation = expected_previous))
      then Err InvalidChain else
      let? _ := validate_frontier_against_vault vault operation in
      let? belongs := persistence (record_belongs_to_sync_scope vault trusted_material
        (op_account_id operation) (op_workspace_id operation) (op_record_id operation)
        (op_record_kind operation)) in
      if negb belongs then Err InvalidScope else
      let? scope := existing_scope vault operation in
      let? k := content_key trusted_material (op_workspace_id operation) (op_key_epoch operation) in
      let? mutation := verify_operation_envelope operation
        (trusted_context trusted previous_chain scope) (ContentKey_decrypt k) in
      Ok (AdmittedAs {|
        adm_membership_endpoint := membership_endpoint trusted_material;
        adm_operation := operation; adm_mutation := mutation;
        adm_canonical_bytes := canonical_bytes; adm_canonical_hash := canonical_hash |})
    end
  end.

End admission.

(** ** Facts *)

Section facts.
Context `{UuidCrate} `{MinicborLaws} `{RecordJson} `{!RecordJsonLaws} `{Primitives}.
Context {V M : Type} `{!TrustedSyncMaterial M} `{!SyncVault V M}.

(** The operation is known by the roster, for this vault and at these epochs. *)
Definition recognised (vault : V) (material : M) (op : SyncOperationV1)
    (trusted : TrustedDevice) : Prop :=
  require_current_operation M vault op (membership_endpoint material) = Ok tt
  /\ trusted_device material (op_account_id op) (op_workspace_id op) (op_device_id op) = Ok trusted
  /\ op_key_epoch op = td_active_key_epoch trusted /\ 0 < td_active_key_epoch trusted
  /\ (forall previous, authentic op (trusted_context trusted previous None)).

(** Every device prefix the operation has seen is applied here. *)
Definition frontier_applied (vault : V) (op : SyncOperationV1) : Prop :=
  Forall (fun e => exists head,
    device_head M vault (op_workspace_id op) (ds_device_id e) = Ok (Some head)
    /\ ds_sequence e <= sdh_sequence head) (op_causal_frontier op).

(** The scope a tombstone is checked against is the one the vault has stored for the record;
    a write is checked against none. *)
Definition stored_scope (vault : V) (op : SyncOperationV1) (scope : option ScopeRef) : Prop :=
  match scope with
  | Some s => op_mutation_kind op = Tombstone
      /\ materialized_record_scope M vault (op_workspace_id op) (op_record_id op)
           (op_record_kind op) = Ok (Some s)
  | None => op_mutation_kind op <> Tombstone
  end.

(** The vault says that the record belongs to the operation's account and workspace, under
    its kind. *)
Definition in_sync_scope (vault : V) (material : M) (op : SyncOperationV1) : Prop :=
  record_belongs_to_sync_scope vault material (op_account_id op) (op_workspace_id op)
    (op_record_id op) (op_record_kind op) = Ok true.

Lemma persistence_Ok {A} (r : result VaultError A) a : persistence r = Ok a <-> r = Ok a.
Proof. apply map_err_Ok. Qed.

Lemma validate_frontier_against_vault_Ok (vault : V) op :
  validate_frontier_against_vault (M := M) vault op = Ok tt <->
  frontier_ok (op_causal_frontier op) (op_device_id op) (Some (op_device_sequence op))
  /\ frontier_applied vault op.
Proof.
  unfold validate_frontier_against_vault, frontier_applied.
  rewrite rbind_unit_Ok, validate_frontier_ok, try_for_each_Ok. f_equiv.
  apply Forall_iff. intros e. unfold validate_frontier_entry. rewrite rbind_Ok.
  setoid_rewrite rbind_Ok. setoid_rewrite persistence_Ok. setoid_rewrite ok_or_Ok. split.
  - intros (h & Hh & head & -> & Hs). res_inv. wf_inv. eauto.
  - intros (head & Hh & Hle). exists (Some head). split; [done|]. exists head. split; [done|].
    by rewrite (proj2 (N.ltb_ge _ _)).
Qed.

Lemma validate_identity_Ok trusted account workspace device key_epoch :
  validate_identity trusted account workspace device key_epoch = Ok tt ->
  key_epoch = td_active_key_epoch trusted /\ 0 < td_active_key_epoch trusted.
Proof. unfold validate_identity. intros Hv. res_inv. wf_inv. lia. Qed.

(** What admission decides, with the reason for each decision. *)
Definition decision_ok (vault : V) (b : bytes) (material : M) (d : AdmissionDecision) : Prop :=
  exists op trusted previous,
    decode_sync_operation_v1 b = Ok op
    /\ recognised vault material op trusted
    /\ device_head M vault (op_workspace_id op) (op_device_id op) = Ok previous
    /\ match d with
       | ExactReplay i =>
           i = op_operation_id op /\ stored_sync_operation M vault i = Ok (Some b)
       | Gap first last =>
           stored_sync_operation M vault (op_operation_id op) = Ok None
           /\ missing_range previous op = Ok (Some (first, last))
       | AdmittedAs a =>
           stored_sync_operation M vault (op_operation_id op) = Ok None
           /\ operation_at_device_sequence M vault (op_workspace_id op) (op_device_id op)
                (op_device_sequence op) = Ok None
           /\ missing_range previous op = Ok None
           /\ chain_successor (chain_head_of <$> previous)
              = Ok (op_device_sequence op, op_previous_device_hash op)
           /\ frontier_applied vault op
           /\ in_sync_scope vault material op
           /\ (exists scope k, stored_scope vault op scope
                 /\ content_key material (op_workspace_id op) (op_key_epoch op) = Ok k
                 /\ verify_operation_envelope op
                      (trusted_context trusted (chain_head_of <$> previous) scope)
                      (ContentKey_decrypt k) = Ok (adm_mutation a))
           /\ announces op (adm_mutation a)
           /\ a = {| adm_membership_endpoint := membership_endpoint material;
                     adm_operation := op; adm_mutation := adm_mutation a;
                     adm_canonical_bytes := b; adm_canonical_hash := digest b |}
       end.

Lemma existing_scope_Ok vault op scope : existing_scope (M := M) vault op = Ok scope -> stored_scope vault op scope.
Proof.
  unfold existing_scope, stored_scope. case_bool_decide as Hk; [|by intros [= <-]].
  intros (found & Hf%persistence_Ok & Ho)%rbind_Ok.
  apply rbind_Ok in Ho as (s & ->%ok_or_Ok & [= <-]). done.
Qed.

Lemma admit_operation_ok vault b material d :
  admit_operation vault b material = Ok d -> decision_ok vault b material d.
Proof.
  unfold admit_operation. intros Ha.
  apply rbind_Ok in Ha as (op & Hop%map_err_Ok & Ha).
  apply rbind_unit_Ok in Ha as [Hcur%map_err_Ok Ha].
  apply rbind_unit_Ok in Ha as [_ Ha]. apply rbind_Ok in Ha as (cb & Hcb & Ha).
  destruct (bool_decide (cb = b)) eqn:E; [|done]. wf_inv. subst cb. cbn [negb] in Ha.
  apply rbind_Ok in Ha as (trusted & Htr & Ha).
  apply rbind_unit_Ok in Ha as [Hid Ha]. unfold validate_active_identity in Hid.
  apply rbind_unit_Ok in Hid as [[Hk Hk0]%validate_identity_Ok _].
  apply rbind_Ok in Ha as (previous & Hprev%persistence_Ok & Ha).
  apply rbind_unit_Ok in Ha as [Hau%verify_operation_public_authenticity_ok Ha].
  apply rbind_Ok in Ha as (stored & Hst%persistence_Ok & Ha).
  exists op, trusted, previous. split; [done|]. split; [done|]. split; [done|].
  destruct stored as [stored|]; [case_bool_decide; naive_solver|].
  apply rbind_Ok in Ha as (at_seq & Hat%persistence_Ok & Ha).
  case_bool_decide as Hsome; [done|]. apply rbind_Ok in Ha as (missing & Hmi & Ha).
  destruct missing as [[first last]|]; [naive_solver|].
  case_bool_decide; [|done]. cbn [negb] in Ha.
  apply rbind_unit_Ok in Ha as [[Hf Hfa]%validate_frontier_against_vault_Ok Ha].
  apply rbind_Ok in Ha as (belongs & Hbel%persistence_Ok & Ha). destruct belongs; [|done]. cbn [negb] in Ha.
  apply rbind_Ok in Ha as (scope & Hsc%existing_scope_Ok & Ha). apply rbind_Ok in Ha as (k & Hkey & Ha).
  apply rbind_Ok in Ha as (m & Hver & [= <-]).
  pose proof Hver as (_ & _ & Hch & _ & _ & Han)%verify_operation_envelope_Ok.
  cbn [adm_mutation adm_operation]. split_and!; try done.
  - destruct at_seq; [exfalso; apply Hsome; eauto|done].
  - by destruct scope.
  - by exists scope, k.
Qed.

(** C34.  Admission is sound: whatever it decides, the bytes are the canonical
    encoding of an operation the current roster recognises and whose signature
    verifies.  It reports a replay only for bytes already stored, a gap only with
    the exact missing range, and admits an operation only as the next link of its
    device's chain, with every frontier entry already applied, not stored under
    another identity, on a record the vault says belongs to the operation's scope, and
    with the mutation its authenticated ciphertext decrypts to; the scope of a tombstone
    is checked against the one stored for the record, never one the operation brings. *)
Theorem admission_sound vault b material d :
  admit_operation vault b material = Ok d -> decision_ok vault b material d.
Proof. apply admit_operation_ok. Qed.

(** Operations that are admitted satisfy what merging requires of them. *)
Lemma admitted_validate_incoming vault b material a :
  admit_operation vault b material = Ok (AdmittedAs a) -> validate_incoming a = Ok tt.
Proof.
  intros (op & trusted & previous & _ & _ & _ & _ & _ & _ & _ & _ & _ & _ & (E1 & E2 & E3 & _) & Ea)
    %admit_operation_ok.
  unfold validate_incoming. rewrite Ea. cbn [adm_operation adm_mutation].
  by rewrite !bool_decide_eq_true_2.
Qed.

End facts.

(** *** Witness: an empty vault admits the first operation of a trusted device *)

Module AdmissionWitness.
#[local] Existing Instances rfc9562 Rfc8949.codec Rfc8949.codec_laws
  CountableJson.records CountableJson.records_laws Toy.toy Toy.toy_laws.

Definition device : TrustedDevice := {|
  td_certificate := OperationWitness.certificate;
  td_active_control_epoch := 17; td_active_key_epoch := 23 |}.

(** The roster holds one device and one key; the vault holds nothing. *)
#[local] Instance roster : TrustedSyncMaterial unit := {|
  membership_endpoint _ := None;
  trusted_device _ _ _ _ := Ok device;
  content_key _ _ _ := Ok (id_content_key OperationWitness.identity) |}.

#[local] Instance empty_vault : SyncVault unit unit := {|
  require_current_operation _ _ _ := Ok tt;
  require_current_device _ _ _ _ := Ok tt;
  device_head _ _ _ := Ok None;
  stored_sync_operation _ _ := Ok None;
  operation_at_device_sequence _ _ _ _ := Ok None;
  record_belongs_to_sync_scope _ _ _ _ _ _ := Ok true;
  materialized_record_scope _ _ _ _ := Ok None;
  sync_checkpoint_pin _ _ := Ok None;
  sync_checkpoint_frontier _ _ := Ok [];
  sync_state_summary _ _ := Ok {| ss_entries := [] |} |}.

Definition request : OperationBuildRequest := {|
  req_operation_id := Fixture.id; req_project_id := None;
  req_mutation := CountableJson.sample; req_causal_frontier := []; req_previous := None;
  req_blob_refs := []; req_created_hlc := Fixture.hlc |}.

Definition sent : bytes :=
  match (build OperationWitness.builder request None ∅).2 with
  | Ok built => built_canonical_bytes built
  | Err _ => []
  end.

Lemma admission_sound_witness :
  exists a, admit_operation tt sent tt = Ok (AdmittedAs a)
    /\ adm_mutation a = CountableJson.sample
    /\ decision_ok tt sent tt (AdmittedAs a).
Proof.
  eexists. split; [vm_compute; reflexivity|]. split; [reflexivity|].
  apply admission_sound. vm_compute. reflexivity.
Defined.

End AdmissionWitness.
