(* ===== verification/Checkpoint.v ===== *)
(** * Building and verifying checkpoints (core/sync/checkpoint.rs, second part)

    A checkpoint is a signed statement of a device's causal frontier and state
    hash, chained by the hash of its predecessor.  The vault and the roster are
    the interfaces of [Admission]. *)

From S2P Require Import Prelude Ordering Text Protocol Minicbor CanonicalCbor Domain.
From S2P Require Import SyncPayload Crypto Operation Causal Merge Transport StateSummary.
From S2P Require Import Admission.

#[local] Open Scope N_scope.

Record CheckpointBuildContext := {
  cbc_scope : SyncScope;
  cbc_creator_device : DeviceId;
  cbc_active_key_epoch : N;
  cbc_device_keys : DeviceKeys;
  cbc_created_hlc : HybridLogicalClock;
}.

Record VerifiedCheckpoint := {
  vc_membership_endpoint : option MembershipEndpoint;
  vc_scope : SyncScope;
  vc_checkpoint : CanonicalCheckpoint;
  vc_expected_pin_hash : option Sha256Digest;
}.

Record AuthenticatedCheckpoint := {
  ac_scope : SyncScope;
  ac_checkpoint : CanonicalCheckpoint;
}.

Record VerifiedCheckpointChainAnchor := {
  anchor_scope : SyncScope;
  anchor_checkpoint : CanonicalCheckpoint;
  anchor_base_pin_hash : option Sha256Digest;
}.

Definition checkpoint_vault_error (error : VaultError) : SyncError :=
  match error with
  | Validation _ | VaultOperationConflict => InvalidEnvelope
  | _ => PersistenceFailed
  end.

Definition validate_checkpoint_frontier (frontier : list DeviceSequence) : result SyncError unit :=
  if frontier_out_of_order frontier then Err InvalidFrontier else Ok tt.

Section checkpoint.
Context `{UuidCrate, Minicbor, Primitives}.
Context {V M : Type} `{!TrustedSyncMaterial M} `{!SyncVault V M}.

Definition vault_read {A} (r : result VaultError A) : result SyncError A :=
  map_err checkpoint_vault_error r.

(** ** Building *)

Definition build_checkpoint_with_previous (vault : V) (context : CheckpointBuildContext)
    (trusted_material : M) (previous_checkpoint_hash : Sha256Digest)
    : result SyncError CanonicalCheckpoint :=
  let scope := cbc_scope context in
  if negb (bool_decide (node (cbc_created_hlc context) = cbc_creator_device context))
  then Err InvalidIdentity else
  let? trusted := trusted_device trusted_material (scope_account_id scope)
                    (scope_workspace_id scope) (cbc_creator_device context) in
  let? _ := vault_read (require_current_device M vault scope
                          (membership_endpoint trusted_material) trusted) in
  let? _ := validate_identity trusted (scope_account_id scope) (scope_workspace_id scope)
              (cbc_creator_device context) (cbc_active_key_epoch context) in
  let certificate := td_certificate trusted in
  if negb (bool_decide (cert_signing_public_key certificate
                        = signing_public_key (cbc_device_keys context)))
  then Err InvalidIdentity else
  let? frontier := vault_read (sync_checkpoint_frontier M vault scope) in
  let? _ := validate_checkpoint_frontier frontier in
  let? summary := vault_read (sync_state_summary M vault scope) in
  let? sh := state_hash summary in
  let checkpoint := {|
    cp_schema_version := CHECKPOINT_SCHEMA_VERSION;
    cp_account_id := scope_account_id scope;
    cp_workspace_id := scope_workspace_id scope;
    cp_previous_checkpoint_hash := previous_checkpoint_hash;
    cp_causal_frontier := frontier;
    cp_state_hash := sh;
    cp_key_epoch := cbc_active_key_epoch context;
    cp_creator_device := cbc_creator_device context;
    cp_created_hlc := cbc_created_hlc context;
    cp_signature := zero_bytes 64 |} in
  let? checkpoint := map_err (fun _ => AuthenticationFailed)
    (sign_checkpoint (cbc_device_keys context) checkpoint) in
  from_checkpoint checkpoint.

Definition build_checkpoint (vault : V) (context : CheckpointBuildContext) (trusted_material : M)
    : result SyncError CanonicalCheckpoint :=
  let? pin := vault_read (sync_checkpoint_pin M vault (cbc_scope context)) in
  let previous := match pin with Some pin => pin_canonical_hash pin | None => zero_digest end in
  build_checkpoint_with_previous vault context trusted_material previous.

Definition current_pin_hash (vault : V) (scope : SyncScope)
    : result SyncError (option Sha256Digest) :=
  let? pin := vault_read (sync_checkpoint_pin M vault scope) in
  Ok (pin_canonical_hash <$> pin).

Definition build_checkpoint_after_chain (vault : V) (context : CheckpointBuildContext)
    (trusted_material : M) (anchor : VerifiedCheckpointChainAnchor)
    : result SyncError CanonicalCheckpoint :=
  if negb (bool_decide (anchor_scope anchor = cbc_scope context)) then Err InvalidScope else
  let? current := current_pin_hash vault (cbc_scope context) in
  if negb (bool_decide (current = anchor_base_pin_hash anchor)) then Err InvalidChain else
  build_checkpoint_with_previous vault context trusted_material
    (cc_canonical_hash (anchor_checkpoint anchor)).

(** ** Verification *)

Definition authenticate_checkpoint (scope : SyncScope) (received : CanonicalCheckpoint)
    (trusted_material : M) : result SyncError AuthenticatedCheckpoint :=
  let? checkpoint := map_err (fun _ => InvalidEnvelope) (decode_checkpoint_v1 (cc_bytes received)) in
  let? canonical := map_err (fun _ => InvalidEnvelope) (encode_checkpoint_v1 checkpoint) in
  let canonical_hash := digest canonical in
  if negb (bool_decide (canonical = cc_bytes received))
     || negb (bool_decide (checkpoint = cc_checkpoint received))
     || negb (bool_decide (cp_state_hash checkpoint = cc_state_hash received))
     || negb (bool_decide (canonical_hash = cc_canonical_hash received))
     || negb (bool_decide (node (cp_created_hlc checkpoint) = cp_creator_device checkpoint))
  then Err InvalidEnvelope else
  if negb (bool_decide (cp_account_id checkpoint = scope_account_id scope))
     || negb (bool_decide (cp_workspace_id checkpoint = scope_workspace_id scope))
  then Err InvalidIdentity else
  let? trusted := trusted_device trusted_material (scope_account_id scope)
                    (scope_workspace_id scope) (cp_creator_device checkpoint) in
  let? _ := validate_identity trusted (scope_account_id scope) (scope_workspace_id scope)
              (cp_creator_device checkpoint) (cp_key_epoch checkpoint) in
  let certificate := td_certificate trusted in
  let? preimage := map_err (fun _ => InvalidEnvelope)
    (encode_checkpoint_signing_preimage_v1 checkpoint) in
  let? _ := map_err (fun _ => AuthenticationFailed)
    (verify_signature (cert_signing_public_key certificate) preimage (cp_signature checkpoint)) in
  let? _ := validate_checkpoint_frontier (cp_causal_frontier checkpoint) in
  Ok {| ac_scope := scope; ac_checkpoint := received |}.

Definition verify_local_checkpoint_state (vault : V) (scope : SyncScope)
    (received : CanonicalCheckpoint) : result SyncError unit :=
  let? frontier := vault_read (sync_checkpoint_frontier M vault scope) in
  if negb (bool_decide (cp_causal_frontier (cc_checkpoint received) = frontier))
  then Err InvalidFrontier else
  let? summary := vault_read (sync_state_summary M vault scope) in
  let? sh := state_hash summary in
  if negb (bool_decide (cp_state_hash (cc_checkpoint received) = sh))
  then Err InvalidEnvelope else Ok tt.

Definition checkpoint_matches_local_state (vault : V) (scope : SyncScope)
    (received : CanonicalCheckpoint) : result SyncError bool :=
  let? local_frontier := vault_read (sync_checkpoint_frontier M vault scope) in
  if negb (bool_decide (cp_causal_frontier (cc_checkpoint received) = local_frontier))
  then Ok false else
  let? summary := vault_read (sync_state_summary M vault scope) in
  let? sh := state_hash summary in
  Ok (bool_decide (cp_state_hash (cc_checkpoint received) = sh)).

(** The match on the stored pin: the same checkpoint, its successor, or the
    first one. *)
Definition extends_pin (pin : option StoredCheckpointPin) (received : CanonicalCheckpoint)
    : result SyncError unit :=
  let previous := cp_previous_checkpoint_hash (cc_checkpoint received) in
  match pin with
  | Some pin =>
      if bool_decide (pin_canonical_hash pin = cc_canonical_hash received) then
        if negb (bool_decide (pin_canonical_bytes pin = cc_bytes received))
           || negb (bool_decide (pin_state_hash pin = cc_state_hash received))
        then Err InvalidChain else Ok tt
      else if bool_decide (previous = pin_canonical_hash pin) then Ok tt
      else Err InvalidChain
  | None => if bool_decide (previous = zero_digest) then Ok tt else Err InvalidChain
  end.

Definition verify_checkpoint (vault : V) (scope : SyncScope) (received : CanonicalCheckpoint)
    (trusted_material : M) : result SyncError VerifiedCheckpoint :=
  let? authenticated := authenticate_checkpoint scope received trusted_material in
  let? _ := verify_local_checkpoint_state vault scope (ac_checkpoint authenticated) in
  let? pin := vault_read (sync_checkpoint_pin M vault scope) in
  let? _ := extends_pin pin (ac_checkpoint authenticated) in
  Ok {| vc_membership_endpoint := membership_endpoint trusted_material;
        vc_scope := scope; vc_checkpoint := ac_checkpoint authenticated;
        vc_expected_pin_hash := pin_canonical_hash <$> pin |}.

Definition verify_checkpoint_link (scope : SyncScope) (received : CanonicalCheckpoint)
    (expected_previous : Sha256Digest) (trusted_material : M)
    : result SyncError AuthenticatedCheckpoint :=
  let? authenticated := authenticate_checkpoint scope received trusted_material in
  if negb (bool_decide (cp_previous_checkpoint_hash (cc_checkpoint (ac_checkpoint authenticated))
                        = expected_previous))
  then Err InvalidChain else Ok authenticated.

Definition verify_checkpoint_after_chain (vault : V) (scope : SyncScope)
    (received : CanonicalCheckpoint) (base_pin_hash : option Sha256Digest) (trusted_material : M)
    : result SyncError (VerifiedCheckpointChainAnchor * option VerifiedCheckpoint) :=
  let? authenticated := authenticate_checkpoint scope received trusted_material in
  let? current := current_pin_hash vault scope in
  if negb (bool_decide (current = base_pin_hash)) then Err InvalidChain else
  let anchor := {| anchor_scope := scope; anchor_checkpoint := ac_checkpoint authenticated;
                   anchor_base_pin_hash := base_pin_hash |} in
  let? matches := checkpoint_matches_local_state vault scope (ac_checkpoint authenticated) in
  if negb matches then Ok (anchor, None) else
  Ok (anchor, Some {| vc_membership_endpoint := membership_endpoint trusted_material;
                      vc_scope := scope; vc_checkpoint := ac_checkpoint authenticated;
                      vc_expected_pin_hash := base_pin_hash |}).

Definition verify_checkpoint_chain_extension (vault : V) (scope : SyncScope)
    (received : CanonicalCheckpoint) (anchor : VerifiedCheckpointChainAnchor)
    (trusted_material : M) : result SyncError VerifiedCheckpoint :=
  if negb (bool_decide (anchor_scope anchor = scope))
     || negb (bool_decide (cp_previous_checkpoint_hash (cc_checkpoint received)
                           = cc_canonical_hash (anchor_checkpoint anchor)))
  then Err InvalidChain else
  let? _ := authenticate_checkpoint scope (anchor_checkpoint anchor) trusted_material in
  let? authenticated := authenticate_checkpoint scope received trusted_material in
  let? _ := verify_local_checkpoint_state vault scope (ac_checkpoint authenticated) in
  let? current := current_pin_hash vault scope in
  if negb (bool_decide (current = anchor_base_pin_hash anchor)) then Err InvalidChain else
  Ok {| vc_membership_endpoint := membership_endpoint trusted_material;
        vc_scope := scope; vc_checkpoint := ac_checkpoint authenticated;
        vc_expected_pin_hash := anchor_base_pin_hash anchor |}.

End checkpoint.

(** ** Facts *)

Section facts.
Context `{UuidCrate} `{MinicborLaws} `{PrimitivesLaws}.
Context {V M : Type} `{!TrustedSyncMaterial M} `{!SyncVault V M}.

(** The checkpoint is the signed statement of a device the roster trusts. *)
Definition genuine (scope : SyncScope) (received : CanonicalCheckpoint) (material : M) : Prop :=
  let cp := cc_checkpoint received in
  wf_checkpoint cp = true /\ from_checkpoint cp = Ok received
  /\ node (cp_created_hlc cp) = cp_creator_device cp
  /\ cp_account_id cp = scope_account_id scope /\ cp_workspace_id cp = scope_workspace_id scope
  /\ exists trusted preimage,
       trusted_device material (scope_account_id scope) (scope_workspace_id scope)
         (cp_creator_device cp) = Ok trusted
       /\ validate_identity trusted (scope_account_id scope) (scope_workspace_id scope)
            (cp_creator_device cp) (cp_key_epoch cp) = Ok tt
       /\ encode_checkpoint_signing_preimage_v1 cp = Ok preimage
       /\ verify_signature (cert_signing_public_key (td_certificate trusted)) preimage
            (cp_signature cp) = Ok tt.

Lemma from_checkpoint_Ok cp received :
  from_checkpoint cp = Ok received <->
  encode_checkpoint_v1 cp = Ok (cc_bytes received)
  /\ received = {| cc_canonical_hash := sha256 (cc_bytes received);
                   cc_state_hash := cp_state_hash cp; cc_checkpoint := cp;
                   cc_bytes := cc_bytes received |}.
Proof.
  unfold from_checkpoint. rewrite rbind_Ok. setoid_rewrite map_err_Ok. split.
  - by intros (b & Hb & [= <-]).
  - intros [Hb E]. exists (cc_bytes received). split; [done|]. by rewrite <- E.
Qed.

Lemma encode_checkpoint_v1_frontier cp b :
  encode_checkpoint_v1 cp = Ok b -> validate_checkpoint_frontier (cp_causal_frontier cp) = Ok tt.
Proof.
  intros ((_ & _ & Ha)%CheckpointV1_validate_ok & _)%encode_checkpoint_Ok.
  unfold validate_checkpoint_frontier. by rewrite (proj2 (frontier_out_of_order_spec _) Ha).
Qed.

Lemma authenticate_checkpoint_Ok scope received material ac :
  authenticate_checkpoint scope received material = Ok ac <->
  ac = {| ac_scope := scope; ac_checkpoint := received |} /\ genuine scope received material.
Proof.
  unfold authenticate_checkpoint, genuine. split.
  - intros Ha. apply rbind_Ok in Ha as (cp & [Hw Hcp]%map_err_Ok%decode_checkpoint_v1_Ok & Ha).
    rewrite Hcp in Ha. cbn [map_err rbind] in Ha. res_inv. wf_inv.
    repeat match goal with u : unit |- _ => destruct u end.
    match goal with E : cp = cc_checkpoint received |- _ => rewrite <- E end.
    split_and!; try done; [|eexists _, _; split_and!; done].
    apply from_checkpoint_Ok. split; [done|]. destruct received; simpl in *. by subst.
  - intros (-> & Hw & Hf & Hn & Hac & Hws & trusted & preimage & Htr & Hid & Hpre & Hsig).
    pose proof Hf as [He Er]%from_checkpoint_Ok.
    rewrite (proj2 (decode_checkpoint_v1_Ok (cc_bytes received) _) (conj Hw He)).
    cbn [map_err rbind]. rewrite He. cbn [map_err rbind].
    assert (cc_state_hash received = cp_state_hash (cc_checkpoint received)
      /\ cc_canonical_hash received = sha256 (cc_bytes received)) as [-> ->]
      by (rewrite Er; done).
    rewrite !bool_decide_eq_true_2 by done. cbn [negb orb]. rewrite Htr. cbn [rbind].
    rewrite Hid, Hpre. cbn [map_err rbind]. rewrite Hsig. cbn [map_err rbind].
    by rewrite (encode_checkpoint_v1_frontier _ _ He).
Qed.

(** The replica's own frontier and state are the ones the checkpoint states. *)
Definition matches_local (vault : V) (scope : SyncScope) (received : CanonicalCheckpoint) : Prop :=
  sync_checkpoint_frontier M vault scope = Ok (cp_causal_frontier (cc_checkpoint received))
  /\ exists summary, sync_state_summary M vault scope = Ok summary
     /\ state_hash summary = Ok (cp_state_hash (cc_checkpoint received)).

Lemma verify_local_checkpoint_state_Ok (vault : V) scope received :
  verify_local_checkpoint_state (M := M) vault scope received = Ok tt <->
  matches_local vault scope received.
Proof.
  unfold verify_local_checkpoint_state, matches_local, vault_read. split.
  - intros Hv. res_inv. wf_inv. subst. eauto.
  - intros (-> & summary & -> & Hs). cbn [map_err rbind].
    rewrite bool_decide_eq_true_2 by done. cbn [negb]. rewrite Hs. cbn [rbind].
    by rewrite bool_decide_eq_true_2.
Qed.

(** The pin the checkpoint is checked against is its own or its predecessor's. *)
Definition pin_allows (pin : option StoredCheckpointPin) (received : CanonicalCheckpoint) : Prop :=
  match pin with
  | Some p =>
      (pin_canonical_hash p = cc_canonical_hash received
       /\ pin_canonical_bytes p = cc_bytes received /\ pin_state_hash p = cc_state_hash received)
      \/ (pin_canonical_hash p <> cc_canonical_hash received
          /\ cp_previous_checkpoint_hash (cc_checkpoint received) = pin_canonical_hash p)
  | None => cp_previous_checkpoint_hash (cc_checkpoint received) = zero_digest
  end.

Lemma extends_pin_Ok pin received : extends_pin pin received = Ok tt <-> pin_allows pin received.
Proof.
  unfold extends_pin, pin_allows. destruct pin as [p|]; repeat case_bool_decide; naive_solver.
Qed.

Lemma verify_checkpoint_Ok (vault : V) scope received material v :
  verify_checkpoint vault scope received material = Ok v <->
  exists pin, sync_checkpoint_pin M vault scope = Ok pin
  /\ genuine scope received material /\ matches_local vault scope received
  /\ pin_allows pin received
  /\ v = {| vc_membership_endpoint := membership_endpoint material; vc_scope := scope;
            vc_checkpoint := received; vc_expected_pin_hash := pin_canonical_hash <$> pin |}.
Proof.
  unfold verify_checkpoint. split.
  - intros Hv. apply rbind_Ok in Hv as (ac & [-> Hg]%authenticate_checkpoint_Ok & Hv).
    apply rbind_unit_Ok in Hv as [Hl%verify_local_checkpoint_state_Ok Hv].
    apply rbind_Ok in Hv as (pin & Hp%map_err_Ok & Hv).
    apply rbind_unit_Ok in Hv as [He%extends_pin_Ok [= <-]]. eauto 10.
  - intros (pin & Hp & Hg & Hl & He & ->).
    rewrite (proj2 (authenticate_checkpoint_Ok scope received material _) (conj eq_refl Hg)).
    cbn [rbind ac_checkpoint]. rewrite (proj2 (verify_local_checkpoint_state_Ok vault _ _) Hl).
    cbn [rbind]. unfold vault_read. rewrite Hp. cbn [map_err rbind].
    by rewrite (proj2 (extends_pin_Ok pin received) He).
Qed.

(**  Checkpoint verification is exact: it accepts a received checkpoint if
    and only if the checkpoint is the canonical, signed statement of a device the
    roster trusts at the active key epoch, the frontier and state hash it states
    are the replica's own, and it is the pinned checkpoint itself, the successor
    of the pinned one, or the first of the chain when nothing is pinned. *)
Theorem checkpoint_verification_exact (vault : V) scope received material v :
  verify_checkpoint vault scope received material = Ok v <->
  exists pin, sync_checkpoint_pin M vault scope = Ok pin
  /\ genuine scope received material /\ matches_local vault scope received
  /\ pin_allows pin received
  /\ v = {| vc_membership_endpoint := membership_endpoint material; vc_scope := scope;
            vc_checkpoint := received; vc_expected_pin_hash := pin_canonical_hash <$> pin |}.
Proof. apply verify_checkpoint_Ok. Qed.

(** ** Built checkpoints verify elsewhere *)

Definition wf_context (c : CheckpointBuildContext) : bool :=
  wf_id (scope_account_id (cbc_scope c)) && wf_id (scope_workspace_id (cbc_scope c))
  && wf_id (cbc_creator_device c) && (cbc_active_key_epoch c <=? u32_max)
  && wf_hlc (cbc_created_hlc c) && wf_fixed 32 (signing_secret (cbc_device_keys c)).

Lemma state_hash_len summary h : state_hash summary = Ok h -> len h = 32.
Proof. unfold state_hash. intros Hs. res_inv. subst. apply sha256_len. Qed.

Lemma built_checkpoint_genuine (vault : V) context material previous built frontier :
  build_checkpoint_with_previous vault context material previous = Ok built ->
  wf_context context = true -> len previous = 32 ->
  sync_checkpoint_frontier M vault (cbc_scope context) = Ok frontier ->
  forallb wf_device_sequence frontier = true ->
  genuine (cbc_scope context) built material
  /\ matches_local vault (cbc_scope context) built
  /\ cp_previous_checkpoint_hash (cc_checkpoint built) = previous
  /\ cp_causal_frontier (cc_checkpoint built) = frontier.
Proof.
  intros Hb Hw Hprev Hfr Hwf. unfold build_checkpoint_with_previous, vault_read in Hb.
  res_inv. wf_inv. repeat match goal with u : unit |- _ => destruct u end.
  rewrite Hfr in *. simplify_eq.
  match goal with E : sign_checkpoint _ _ = Ok _ |- _ => rename E into Hs end.
  unfold sign_checkpoint in Hs. res_inv. subst.
  match goal with E : encode_checkpoint_signing_preimage_v1 _ = Ok ?p |- _ =>
    rename E into Hpre; rename p into preimage end.
  pose proof Hb as [_ Eb]%from_checkpoint_Ok. rewrite Eb. cbn [cc_checkpoint].
  match goal with E : state_hash _ = Ok _ |- _ => pose proof (state_hash_len _ _ E) end.
  unfold wf_context in Hw. wf_inv.
  split_and!; [|by split; [|eexists]|done|done].
  - unfold genuine. cbn [cc_checkpoint]. rewrite <- Eb. split_and!; try done.
    + unfold wf_checkpoint, wf_fixed; cbn -[N.leb N.eqb zero_bytes u16_max u32_max].
      unfold sign. rewrite sign_len.
      repeat match goal with |- _ && _ = true => apply andb_true_iff; split end;
        first [done | by apply N.leb_le | by apply N.eqb_eq].
    + eexists _, preimage. split_and!; [done|done| |].
      * by rewrite checkpoint_preimage_with_signature.
      * cbn [cp_signature with_checkpoint_signature].
        match goal with E : cert_signing_public_key _ = _ |- _ => rewrite E end.
        by apply own_signature_verifies.
Qed.

(** The replicas agree on what a checkpoint of [scope] states. *)
Definition agree (v w : V) (scope : SyncScope) : Prop :=
  sync_checkpoint_frontier M v scope = sync_checkpoint_frontier M w scope
  /\ (exists s t, sync_state_summary M v scope = Ok s /\ sync_state_summary M w scope = Ok t
        /\ same_summary s t)
  /\ exists p, sync_checkpoint_pin M v scope = Ok p /\ sync_checkpoint_pin M w scope = Ok p.

(** A checkpoint built on one replica is accepted on any replica that has
    applied the same operations: if they agree on the frontier, on the heads of
    every record in whatever order they are listed, and on the pinned
    predecessor, verification succeeds and yields the built checkpoint. *)
Theorem built_checkpoint_accepted (v w : V) context material built frontier pin :
  build_checkpoint v context material = Ok built ->
  wf_context context = true ->
  agree v w (cbc_scope context) ->
  sync_checkpoint_frontier M v (cbc_scope context) = Ok frontier ->
  forallb wf_device_sequence frontier = true ->
  sync_checkpoint_pin M v (cbc_scope context) = Ok pin ->
  match pin with
  | Some p => len (pin_canonical_hash p) = 32
              /\ pin_canonical_hash p <> cc_canonical_hash built
  | None => True
  end ->
  exists verified, verify_checkpoint w (cbc_scope context) built material = Ok verified
    /\ vc_checkpoint verified = built.
Proof.
  intros Hb Hw (Ef & (s & t & Hs & Ht & Hst) & p & Hpv & Hpw) Hfr Hwf Hpin Hp.
  rewrite Hpin in Hpv. injection Hpv as <-.
  unfold build_checkpoint, vault_read in Hb. rewrite Hpin in Hb. cbn [map_err rbind] in Hb.
  eapply built_checkpoint_genuine in Hb as (Hg & Hl & Hprev & Hfront);
    [|done|destruct pin as [p|]; [by destruct Hp|done]|done|done].
  assert (Hl' : matches_local w (cbc_scope context) built).
  { split; [rewrite <- Ef, Hfr; by rewrite Hfront|]. exists t. split; [done|].
    destruct Hl as (_ & s' & Hs' & Hh). rewrite Hs in Hs'. injection Hs' as <-.
    by rewrite <- (state_hash_same s t Hst). }
  assert (He : pin_allows pin built) by (destruct pin as [p|]; [right; naive_solver|done]).
  eexists. split; [apply verify_checkpoint_Ok; exists pin; split_and!; done|done].
Qed.

End facts.

(** *** Witness: two replicas that list the same state in different orders *)

Module CheckpointWitness.
#[local] Existing Instances rfc9562 Rfc8949.codec Rfc8949.codec_laws Toy.toy Toy.toy_laws
  AdmissionWitness.roster.

#[local] Instance replicas : SyncVault bool unit := {|
  require_current_operation _ _ _ := Ok tt;
  require_current_device _ _ _ _ := Ok tt;
  device_head _ _ _ := Ok None;
  stored_sync_operation _ _ := Ok None;
  operation_at_device_sequence _ _ _ _ := Ok None;
  record_belongs_to_sync_scope _ _ _ _ _ _ := Ok true;
  materialized_record_scope _ _ _ _ := Ok None;
  sync_checkpoint_pin _ _ := Ok None;
  sync_checkpoint_frontier _ _ := Ok [{| ds_device_id := Fixture.id; ds_sequence := 7 |}];
  sync_state_summary v _ :=
    Ok (if v : bool then SummaryWitness.left_summary else SummaryWitness.right_summary) |}.

Definition context : CheckpointBuildContext := {|
  cbc_scope := {| scope_account_id := Fixture.id; scope_workspace_id := Fixture.id |};
  cbc_creator_device := Fixture.id; cbc_active_key_epoch := 23;
  cbc_device_keys := CryptoWitness.keys; cbc_created_hlc := Fixture.hlc |}.

Definition built : CanonicalCheckpoint :=
  match build_checkpoint true context tt with
  | Ok built => built
  | Err _ => {| cc_canonical_hash := []; cc_state_hash := []; cc_checkpoint := Fixture.checkpoint;
                cc_bytes := [] |}
  end.

Lemma replicas_agree : agree (M := unit) true false (cbc_scope context).
Proof.
  split; [reflexivity|]. split; [|exists None; split; reflexivity].
  exists SummaryWitness.left_summary, SummaryWitness.right_summary.
  split_and!; [reflexivity..|].
  exists [SummaryWitness.conflict [Fixture.rep 32 2; Fixture.rep 32 1]; SummaryWitness.single].
  split; [apply Permutation_swap|]. repeat constructor.
Qed.

Lemma built_checkpoint_accepted_witness :
  build_checkpoint true context tt = Ok built
  /\ exists verified, verify_checkpoint false (cbc_scope context) built tt = Ok verified
       /\ vc_checkpoint verified = built.
Proof.
  split; [vm_compute; reflexivity|].
  refine (built_checkpoint_accepted true false context tt built
    [{| ds_device_id := Fixture.id; ds_sequence := 7 |}] None _ _ replicas_agree _ _ _ _);
    first [exact I | vm_compute; reflexivity].
Defined.

Lemma checkpoint_verification_exact_witness :
  genuine (M := unit) (cbc_scope context) built tt.
Proof.
  destruct (proj1 (checkpoint_verification_exact (V := bool) (M := unit) false
    (cbc_scope context) built tt
    {| vc_membership_endpoint := None; vc_scope := cbc_scope context;
       vc_checkpoint := built; vc_expected_pin_hash := None |})) as (pin & _ & Hg & _).
  - vm_compute. reflexivity.
  - exact Hg.
Defined.

End CheckpointWitness.
