(* ===== verification/MemoryTransport.v ===== *)
(** * The in-memory transport (core/sync/memory.rs)

    The reference implementation of the [SyncTransport] trait, with its fault
    schedule.  Every method takes the transport and returns the new one with the
    result, also when it fails: an error can leave faults consumed and an empty
    scope created. *)

From S2P Require Import Prelude Ordering BTree Text Protocol Minicbor CanonicalCbor Domain.
From S2P Require Import Crypto Operation Transport StateSummary.

#[local] Open Scope N_scope.

Definition MAX_PAGE : N := 256.
Definition MAX_BATCH_BYTES : N := 8 * 1024 * 1024.

Record FaultSchedule := {
  transient_pushes : N;
  transient_pulls : N;
  transient_ranges : N;
  dropped_pulls : N;
  delayed_pulls : N;
  duplicated_pulls : N;
  reversed_pulls : N;
  lost_hints : N;
}.

Definition no_faults : FaultSchedule := {|
  transient_pushes := 0; transient_pulls := 0; transient_ranges := 0; dropped_pulls := 0;
  delayed_pulls := 0; duplicated_pulls := 0; reversed_pulls := 0; lost_hints := 0 |}.

(** [consume(&mut counter)]. *)
Definition consume (counter : N) : bool * N :=
  if counter =? 0 then (false, counter) else (true, counter - 1).

Record CheckpointLog := {
  log_checkpoints : list (CheckpointCursor * CanonicalCheckpoint);
  log_by_hash : gmap Sha256Digest bytes;
}.

Definition CheckpointLog_default : CheckpointLog :=
  {| log_checkpoints := []; log_by_hash := ∅ |}.

Record ScopeStore := {
  st_operations : list (SyncCursor * CanonicalOperation);
  st_by_id : gmap OperationId CanonicalOperation;
  st_by_sequence : gmap (DeviceId * N) OperationId;
  st_checkpoint_logs : gmap N CheckpointLog;
  st_pending_hints : N;
}.

Definition ScopeStore_default : ScopeStore := {|
  st_operations := []; st_by_id := ∅; st_by_sequence := ∅; st_checkpoint_logs := ∅;
  st_pending_hints := 0 |}.

Record InMemoryTransport := {
  tr_scopes : gmap (AccountId * WorkspaceId) ScopeStore;
  tr_next_receipt : N;
  tr_faults : FaultSchedule;
}.

Definition InMemoryTransport_new : InMemoryTransport :=
  {| tr_scopes := ∅; tr_next_receipt := 0; tr_faults := no_faults |}.

Definition scope_key (scope : SyncScope) : AccountId * WorkspaceId :=
  (scope_account_id scope, scope_workspace_id scope).

(** [self.scopes.entry(key).or_default()] read, and written back. *)
Definition store_of (t : InMemoryTransport) (scope : SyncScope) : ScopeStore :=
  default ScopeStore_default (tr_scopes t !! scope_key scope).

Definition with_store (t : InMemoryTransport) (scope : SyncScope) (store : ScopeStore)
    : InMemoryTransport := {|
  tr_scopes := <[scope_key scope := store]> (tr_scopes t);
  tr_next_receipt := tr_next_receipt t; tr_faults := tr_faults t |}.

(** [schedule_faults], also used for the counters a call consumes. *)
Definition schedule_faults (t : InMemoryTransport) (faults : FaultSchedule) : InMemoryTransport := {|
  tr_scopes := tr_scopes t; tr_next_receipt := tr_next_receipt t; tr_faults := faults |}.

(** ** Receipt times *)

(** [{receipt:020}]: decimal digits, zero-padded to 20. *)
Fixpoint decimal_digits (k : nat) (n : N) : rstr :=
  match k with
  | O => []
  | S k' => decimal_digits k' (n / 10) ++ [0x30 + n mod 10]
  end.

Definition received_at_of (receipt : N) : rstr := lit "memory-" ++ decimal_digits 20 receipt.

Definition next_received_at (t : InMemoryTransport) : InMemoryTransport * rstr :=
  let n := saturating_add u64_max (tr_next_receipt t) 1 in
  ({| tr_scopes := tr_scopes t; tr_next_receipt := n; tr_faults := tr_faults t |},
   received_at_of n).

(** ** take_change_hint *)

Definition with_hints (store : ScopeStore) (n : N) : ScopeStore := {|
  st_operations := st_operations store; st_by_id := st_by_id store;
  st_by_sequence := st_by_sequence store; st_checkpoint_logs := st_checkpoint_logs store;
  st_pending_hints := n |}.

Definition take_change_hint (t : InMemoryTransport) (scope : SyncScope)
    : InMemoryTransport * bool :=
  match tr_scopes t !! scope_key scope with
  | None => (t, false)
  | Some store =>
    if st_pending_hints store =? 0 then (t, false) else
    let '(lost, n) := consume (lost_hints (tr_faults t)) in
    let f := tr_faults t in
    let t := schedule_faults t {|
      transient_pushes := transient_pushes f; transient_pulls := transient_pulls f;
      transient_ranges := transient_ranges f; dropped_pulls := dropped_pulls f;
      delayed_pulls := delayed_pulls f; duplicated_pulls := duplicated_pulls f;
      reversed_pulls := reversed_pulls f; lost_hints := n |} in
    (with_store t scope (with_hints store (st_pending_hints store - 1)), negb lost)
  end.

Section transport.
Context `{UuidCrate, Minicbor, Primitives}.

(** ** push_operations *)

Definition add_batch_bytes (total : N) (operation : CanonicalOperation)
    : result TransportError N :=
  let? total := ok_or (checked_add usize_max total (len (can_bytes operation))) Configuration in
  if MAX_BATCH_BYTES <? total then Err Configuration else Ok total.

(** The loop's accumulators. *)
Record Batch := {
  b_accepted : list OperationId;
  b_duplicates : list OperationId;
  b_seen : gmap OperationId CanonicalOperation;
  b_new_sequences : gmap (DeviceId * N) OperationId;
}.

Definition push_item (scope : SyncScope) (store : ScopeStore) (b : Batch)
    (item : CanonicalOperation) : result TransportError Batch :=
  let? _ := validate_canonical_operation scope item in
  match b_seen b !! can_operation_id item with
  | Some prior => if bool_decide (prior = item) then Ok b else Err Integrity
  | None =>
    let seen := <[can_operation_id item := item]> (b_seen b) in
    match st_by_id store !! can_operation_id item with
    | Some existing =>
      if bool_decide (existing = item) then
        Ok {| b_accepted := b_accepted b;
              b_duplicates := b_duplicates b ++ [can_operation_id item];
              b_seen := seen; b_new_sequences := b_new_sequences b |}
      else Err Integrity
    | None =>
      let sequence := (can_device_id item, can_device_sequence item) in
      if bool_decide (is_Some (st_by_sequence store !! sequence))
         || bool_decide (is_Some (b_new_sequences b !! sequence))
      then Err Integrity
      else Ok {| b_accepted := b_accepted b ++ [can_operation_id item];
                 b_duplicates := b_duplicates b; b_seen := seen;
                 b_new_sequences := <[sequence := can_operation_id item]> (b_new_sequences b) |}
    end
  end.

(** The insertion of one accepted operation; the [expect] on [seen] cannot fail,
    an absent entry leaves the store as it is. *)
Definition store_accepted (seen : gmap OperationId CanonicalOperation) (received_at : rstr)
    (store : ScopeStore) (operation_id : OperationId) : ScopeStore :=
  match seen !! operation_id with
  | None => store
  | Some operation =>
    let cursor := {| cur_received_at := received_at; cur_operation_id := operation_id |} in {|
    st_operations := bt_insert cursor operation (st_operations store);
    st_by_id := <[can_operation_id operation := operation]> (st_by_id store);
    st_by_sequence := <[(can_device_id operation, can_device_sequence operation)
                         := can_operation_id operation]> (st_by_sequence store);
    st_checkpoint_logs := st_checkpoint_logs store;
    st_pending_hints := st_pending_hints store |}
  end.

Definition push_operations (t : InMemoryTransport) (scope : SyncScope)
    (batch : list CanonicalOperation) : InMemoryTransport * result TransportError PushReceipt :=
  if (MAX_BATCH_OPERATIONS <? len batch) || (MAX_PAGE <? len batch)
  then (t, Err Configuration) else
  match try_fold add_batch_bytes 0 batch with
  | Err e => (t, Err e)
  | Ok _ =>
    let '(failed, n) := consume (transient_pushes (tr_faults t)) in
    let f := tr_faults t in
    let t := schedule_faults t {|
      transient_pushes := n; transient_pulls := transient_pulls f;
      transient_ranges := transient_ranges f; dropped_pulls := dropped_pulls f;
      delayed_pulls := delayed_pulls f; duplicated_pulls := duplicated_pulls f;
      reversed_pulls := reversed_pulls f; lost_hints := lost_hints f |} in
    if failed then (t, Err Transient) else
    let store := store_of t scope in
    let t := with_store t scope store in
    match try_fold (push_item scope store)
            {| b_accepted := []; b_duplicates := []; b_seen := ∅; b_new_sequences := ∅ |} batch with
    | Err e => (t, Err e)
    | Ok b =>
      let receipt := {| push_accepted := b_accepted b; push_duplicates := b_duplicates b |} in
      if bool_decide (b_accepted b = []) then (t, Ok receipt) else
      let '(t, received_at) := next_received_at t in
      let store := foldl (store_accepted (b_seen b) received_at) (store_of t scope) (b_accepted b) in
      let store := with_hints store (saturating_add usize_max (st_pending_hints store) 1) in
      (with_store t scope store, Ok receipt)
    end
  end.

(** ** pull_operations *)

Definition received (row : SyncCursor * CanonicalOperation) : ReceivedOperation :=
  {| rec_cursor := row.1; rec_operation := row.2 |}.

Definition empty_page : PullPage := {| page_rows := []; page_next_cursor := None |}.

(** [a || b] consumes the second counter only when the first is exhausted. *)
Definition pull_operations (t : InMemoryTransport) (scope : SyncScope)
    (after : option SyncCursor) (limit : N) : InMemoryTransport * result TransportError PullPage :=
  let f := tr_faults t in
  let '(failed, transient_pulls') := consume (transient_pulls f) in
  if failed then
    (schedule_faults t {|
       transient_pushes := transient_pushes f; transient_pulls := transient_pulls';
       transient_ranges := transient_ranges f; dropped_pulls := dropped_pulls f;
       delayed_pulls := delayed_pulls f; duplicated_pulls := duplicated_pulls f;
       reversed_pulls := reversed_pulls f; lost_hints := lost_hints f |}, Err Transient)
  else
  let '(dropped, dropped_pulls') := consume (dropped_pulls f) in
  let '(delayed, delayed_pulls') :=
    if dropped : bool then (false, delayed_pulls f) else consume (delayed_pulls f) in
  if dropped || delayed then
    (schedule_faults t {|
       transient_pushes := transient_pushes f; transient_pulls := transient_pulls f;
       transient_ranges := transient_ranges f; dropped_pulls := dropped_pulls';
       delayed_pulls := delayed_pulls'; duplicated_pulls := duplicated_pulls f;
       reversed_pulls := reversed_pulls f; lost_hints := lost_hints f |}, Ok empty_page)
  else
  let limit := N.min limit MAX_PAGE in
  if limit =? 0 then (t, Ok empty_page) else
  let stored := match tr_scopes t !! scope_key scope with
                | Some store => st_operations store
                | None => []
                end in
  let rows := received <$> take (N.to_nat limit) (bt_after after stored) in
  let next_cursor := rec_cursor <$> last rows in
  let '(duplicated, duplicated_pulls') := consume (duplicated_pulls f) in
  let rows :=
    if duplicated && (len rows <? limit) then
      match rows with row :: _ => rows ++ [row] | [] => rows end
    else rows in
  let '(reversed, reversed_pulls') := consume (reversed_pulls f) in
  let rows := if reversed : bool then reverse rows else rows in
  (schedule_faults t {|
     transient_pushes := transient_pushes f; transient_pulls := transient_pulls f;
     transient_ranges := transient_ranges f; dropped_pulls := dropped_pulls f;
     delayed_pulls := delayed_pulls f; duplicated_pulls := duplicated_pulls';
     reversed_pulls := reversed_pulls'; lost_hints := lost_hints f |},
   Ok {| page_rows := rows; page_next_cursor := next_cursor |}).

(** ** pull_device_range *)

Definition pull_device_range (t : InMemoryTransport) (scope : SyncScope) (device : DeviceId)
    (first last : N) : InMemoryTransport * result TransportError (list ReceivedOperation) :=
  let f := tr_faults t in
  let '(failed, n) := consume (transient_ranges f) in
  let t := schedule_faults t {|
    transient_pushes := transient_pushes f; transient_pulls := transient_pulls f;
    transient_ranges := n; dropped_pulls := dropped_pulls f; delayed_pulls := delayed_pulls f;
    duplicated_pulls := duplicated_pulls f; reversed_pulls := reversed_pulls f;
    lost_hints := lost_hints f |} in
  if failed then (t, Err Transient) else
  (t,
   let? count := ok_or (d ← checked_sub last first; checked_add u64_max d 1) Configuration in
   if MAX_PAGE <? count then Err Configuration else
   match tr_scopes t !! scope_key scope with
   | None => Ok []
   | Some store =>
     Ok (sort_by_key (fun row => can_device_sequence (rec_operation row))
           (received <$> filter (fun row => can_device_id row.2 = device
              /\ (first <=? can_device_sequence row.2) && (can_device_sequence row.2 <=? last)
                 = true) (st_operations store)))
   end).

(** ** Checkpoints *)

Definition checkpoint_log (t : InMemoryTransport) (scope : SyncScope) (version : N)
    : option CheckpointLog :=
  store ← tr_scopes t !! scope_key scope; st_checkpoint_logs store !! version.

Definition push_checkpoint (t : InMemoryTransport) (scope : SyncScope) (checkpoint_version : N)
    (checkpoint : CanonicalCheckpoint)
    : InMemoryTransport * result TransportError CheckpointReceipt :=
  if negb (checkpoint_version =? CHECKPOINT_SCHEMA_VERSION)
     || negb (cp_schema_version (cc_checkpoint checkpoint) =? checkpoint_version)
  then (t, Err CheckpointVersionUnsupportedT) else
  if MAX_CBOR_OPERATION_BYTES <? len (cc_bytes checkpoint) then (t, Err Configuration) else
  match validate_canonical_checkpoint scope checkpoint with
  | Err e => (t, Err e)
  | Ok _ =>
    let log := checkpoint_log t scope checkpoint_version in
    match (l ← log; log_by_hash l !! cc_canonical_hash checkpoint) with
    | Some existing =>
      (t, if bool_decide (existing = cc_bytes checkpoint)
          then Ok {| cr_canonical_hash := cc_canonical_hash checkpoint; cr_duplicate := true |}
          else Err Integrity)
    | None =>
      let expected_previous :=
        match (l ← log; last (log_checkpoints l)) with
        | Some (_, c) => cc_canonical_hash c
        | None => zero_digest
        end in
      if negb (bool_decide (cp_previous_checkpoint_hash (cc_checkpoint checkpoint)
                            = expected_previous))
      then (t, Err Integrity) else
      let '(t, received_at) := next_received_at t in
      let cursor := {| ccur_received_at := received_at;
                       ccur_canonical_hash := cc_canonical_hash checkpoint |} in
      let store := store_of t scope in
      let log := default CheckpointLog_default (st_checkpoint_logs store !! checkpoint_version) in
      let log := {|
        log_checkpoints := bt_insert cursor checkpoint (log_checkpoints log);
        log_by_hash := <[cc_canonical_hash checkpoint := cc_bytes checkpoint]> (log_by_hash log) |} in
      let store := {|
        st_operations := st_operations store; st_by_id := st_by_id store;
        st_by_sequence := st_by_sequence store;
        st_checkpoint_logs := <[checkpoint_version := log]> (st_checkpoint_logs store);
        st_pending_hints := st_pending_hints store |} in
      (with_store t scope store,
       Ok {| cr_canonical_hash := cc_canonical_hash checkpoint; cr_duplicate := false |})
    end
  end.

(** [take_while] with the running byte total. *)
Fixpoint take_within (total : N) (rows : list (CheckpointCursor * CanonicalCheckpoint))
    : list (CheckpointCursor * CanonicalCheckpoint) :=
  match rows with
  | [] => []
  | row :: rows' =>
    match checked_add usize_max total (len (cc_bytes row.2)) with
    | None => []
    | Some next =>
      if MAX_BATCH_BYTES <? next then [] else row :: take_within next rows'
    end
  end.

Definition pull_checkpoints (t : InMemoryTransport) (scope : SyncScope) (checkpoint_version : N)
    (after : option CheckpointCursor) (limit : N) : result TransportError CheckpointPage :=
  if negb (checkpoint_version =? CHECKPOINT_SCHEMA_VERSION)
  then Err CheckpointVersionUnsupportedT else
  let limit := N.min limit MAX_PAGE in
  let log := checkpoint_log t scope checkpoint_version in
  if match after with
     | Some anchor => negb (bool_decide (is_Some (l ← log; bt_get anchor (log_checkpoints l))))
     | None => false
     end
  then Err Integrity else
  let stored := match log with Some l => log_checkpoints l | None => [] end in
  let rows := (fun row => {| rc_cursor := row.1; rc_checkpoint := row.2 |})
    <$> take_within 0 (take (N.to_nat limit) (bt_after after stored)) in
  Ok {| cpage_rows := rows; cpage_next_cursor := rc_cursor <$> last rows |}.

Definition checkpoint_by_hash (t : InMemoryTransport) (scope : SyncScope) (checkpoint_version : N)
    (canonical_hash : Sha256Digest) : result TransportError (option CanonicalCheckpoint) :=
  if negb (checkpoint_version =? CHECKPOINT_SCHEMA_VERSION)
  then Err CheckpointVersionUnsupportedT else
  match (l ← checkpoint_log t scope checkpoint_version; log_by_hash l !! canonical_hash) with
  | None => Ok None
  | Some b =>
    let? decoded := map_err (fun _ => Integrity) (decode_checkpoint_v1 b) in
    let? checkpoint := map_err (fun _ => Integrity) (from_checkpoint decoded) in
    let? _ := validate_canonical_checkpoint scope checkpoint in
    if negb (bool_decide (cc_canonical_hash checkpoint = canonical_hash)) then Err Integrity
    else Ok (Some checkpoint)
  end.

End transport.

(** ** Sessions *)

(** Every call of the transport that changes its state. *)
Inductive command :=
| PushOperations (scope : SyncScope) (batch : list CanonicalOperation)
| PullOperations (scope : SyncScope) (after : option SyncCursor) (limit : N)
| PullDeviceRange (scope : SyncScope) (device : DeviceId) (first last : N)
| PushCheckpoint (scope : SyncScope) (version : N) (checkpoint : CanonicalCheckpoint)
| TakeChangeHint (scope : SyncScope)
| ScheduleFaults (faults : FaultSchedule).

Section session.
Context `{UuidCrate, Minicbor, Primitives}.

Definition step (t : InMemoryTransport) (c : command) : InMemoryTransport :=
  match c with
  | PushOperations scope batch => (push_operations t scope batch).1
  | PullOperations scope after limit => (pull_operations t scope after limit).1
  | PullDeviceRange scope device first last => (pull_device_range t scope device first last).1
  | PushCheckpoint scope version checkpoint => (push_checkpoint t scope version checkpoint).1
  | TakeChangeHint scope => (take_change_hint t scope).1
  | ScheduleFaults faults => schedule_faults t faults
  end.

Definition run (commands : list command) : InMemoryTransport :=
  foldl step InMemoryTransport_new commands.

(** A receipt time the transport has handed out. *)
Definition issued (n : N) (received_at : rstr) : Prop :=
  exists r, 0 < r <= n /\ received_at = received_at_of r.

Fixpoint hash_chain (previous : Sha256Digest) (l : list CanonicalCheckpoint) : Prop :=
  match l with
  | [] => True
  | c :: l' => cp_previous_checkpoint_hash (cc_checkpoint c) = previous
               /\ hash_chain (cc_canonical_hash c) l'
  end.

(** What a checkpoint log promises: rows in receipt order, each a valid
    checkpoint of the scope naming its predecessor, indexed by hash. *)
Record log_inv (n : N) (scope : SyncScope) (log : CheckpointLog) : Prop := {
  li_wf : bt_wf (log_checkpoints log);
  li_rows : forall c cp, (c, cp) ∈ log_checkpoints log ->
    ccur_canonical_hash c = cc_canonical_hash cp /\ issued n (ccur_received_at c)
    /\ validate_canonical_checkpoint scope cp = Ok tt;
  li_chain : hash_chain zero_digest (log_checkpoints log).*2;
  li_by_hash : forall h b, log_by_hash log !! h = Some b <->
    exists cp, cp ∈ (log_checkpoints log).*2 /\ cc_canonical_hash cp = h /\ cc_bytes cp = b;
}.

(** What a scope's store promises: the rows, the identifier index and the
    sequence index describe one set of valid operations of the scope, in which
    no identifier and no device sequence occurs twice. *)
Record store_inv (n : N) (scope : SyncScope) (store : ScopeStore) : Prop := {
  si_wf : bt_wf (st_operations store);
  si_rows : forall c o, (c, o) ∈ st_operations store ->
    cur_operation_id c = can_operation_id o /\ issued n (cur_received_at c)
    /\ st_by_id store !! can_operation_id o = Some o;
  si_once : NoDup (can_operation_id <$> (st_operations store).*2);
  si_ids : forall id o, st_by_id store !! id = Some o ->
    can_operation_id o = id /\ o ∈ (st_operations store).*2
    /\ validate_canonical_operation scope o = Ok tt
    /\ st_by_sequence store !! (can_device_id o, can_device_sequence o) = Some id;
  si_sequences : forall d q id, st_by_sequence store !! (d, q) = Some id ->
    exists o, st_by_id store !! id = Some o /\ can_device_id o = d /\ can_device_sequence o = q;
  si_logs : forall v log, st_checkpoint_logs store !! v = Some log -> log_inv n scope log;
}.

Definition transport_inv (t : InMemoryTransport) : Prop :=
  tr_next_receipt t <= u64_max
  /\ forall scope store, tr_scopes t !! scope_key scope = Some store ->
       store_inv (tr_next_receipt t) scope store.

End session.

(** ** Receipt times increase *)

#[local] Ltac Zify.zify_post_hook ::= Z.to_euclidean_division_equations.

Lemma length_decimal_digits k n : length (decimal_digits k n) = k.
Proof. revert n. induction k; intros; simpl; [done|]. rewrite length_app, IHk. simpl. lia. Qed.

Lemma decimal_digits_order k n m :
  n < m -> m < 10 ^ N.of_nat k -> lex_cmp (decimal_digits k n) (decimal_digits k m) = Lt.
Proof.
  revert n m. induction k as [|k IH]; intros n m Hlt Hm.
  { change (10 ^ N.of_nat 0) with 1 in Hm. lia. }
  rewrite Nat2N.inj_succ, N.pow_succ_r' in Hm. cbn [decimal_digits].
  destruct (decide (n / 10 < m / 10)) as [Hd|Hd].
  - apply lex_cmp_app_lt; [by rewrite !length_decimal_digits|]. apply IH; [done|]. lia.
  - assert (n / 10 = m / 10) as -> by lia. rewrite lex_cmp_app_l. cbn [lex_cmp].
    change (cmp ?a ?b) with (N.compare a b). by rewrite (proj2 (N.compare_lt_iff _ _)) by lia.
Qed.

Lemma received_at_order r r' :
  r < r' -> r' <= u64_max -> cmp (received_at_of r) (received_at_of r') = Lt.
Proof.
  intros Hlt Hmax. unfold received_at_of, cmp, list_ord. rewrite lex_cmp_app_l.
  apply decimal_digits_order; [done|].
  assert (u64_max < 10 ^ N.of_nat 20) by (vm_compute; reflexivity). lia.
Qed.

#[local] Ltac Zify.zify_post_hook ::= idtac.

Lemma issued_mono n m received_at : n <= m -> issued n received_at -> issued m received_at.
Proof. intros ? (r & ? & ->). exists r. split; [lia|done]. Qed.

(** Two scopes with one key are one scope. *)
Lemma scope_key_inj a b : scope_key a = scope_key b -> a = b.
Proof. destruct a, b. unfold scope_key. simpl. by intros [= -> ->]. Qed.

Section invariant.
Context `{UuidCrate} `{MinicborLaws} `{Primitives}.

Lemma store_inv_mono n m scope store : n <= m -> store_inv n scope store -> store_inv m scope store.
Proof.
  intros Hnm [Hwf Hrows Honce Hids Hseq Hlogs]. split; try done.
  - intros c o Hin. destruct (Hrows c o Hin) as (? & ? & ?). eauto using issued_mono.
  - intros v log Hv. destruct (Hlogs v log Hv) as [? Hr ? ?]. split; try done.
    intros c cp Hin. destruct (Hr c cp Hin) as (? & ? & ?). eauto using issued_mono.
Qed.

Lemma store_inv_default n scope : store_inv n scope ScopeStore_default.
Proof.
  split; simpl; try (intros *; rewrite ?lookup_empty; (done || set_solver)); try constructor.
Qed.

Lemma store_inv_hints n scope store k :
  store_inv n scope store -> store_inv n scope (with_hints store k).
Proof. by intros []. Qed.

Lemma store_of_inv t scope : transport_inv t -> store_inv (tr_next_receipt t) scope (store_of t scope).
Proof.
  intros Ht. unfold store_of. destruct (tr_scopes t !! scope_key scope) eqn:E; simpl.
  - by apply (proj2 Ht).
  - apply store_inv_default.
Qed.

Lemma store_of_with_store t scope store : store_of (with_store t scope store) scope = store.
Proof. unfold store_of, with_store. simpl. by rewrite lookup_insert_eq. Qed.

(** Writing a consistent store back, possibly with a later receipt. *)
Lemma with_store_inv t scope store n :
  transport_inv t -> tr_next_receipt t <= n <= u64_max -> store_inv n scope store ->
  transport_inv {| tr_scopes := <[scope_key scope := store]> (tr_scopes t);
                   tr_next_receipt := n; tr_faults := tr_faults t |}.
Proof.
  intros [_ Ht] [Hn Hmax] Hs. split; [done|]. intros scope' store'. simpl.
  rewrite lookup_insert_Some. intros [[E <-]|[_ E]].
  - by apply scope_key_inj in E as ->.
  - eauto using store_inv_mono.
Qed.

(** *** Accepting operations *)

(** What the validation loop has established about its accumulators. *)
Record batch_inv (scope : SyncScope) (store : ScopeStore) (b : Batch) : Prop := {
  bi_seen : forall id o, b_seen b !! id = Some o ->
    can_operation_id o = id /\ validate_canonical_operation scope o = Ok tt;
  bi_accepted : forall id, id ∈ b_accepted b -> exists o, b_seen b !! id = Some o
    /\ st_by_id store !! id = None
    /\ st_by_sequence store !! (can_device_id o, can_device_sequence o) = None
    /\ b_new_sequences b !! (can_device_id o, can_device_sequence o) = Some id;
  bi_duplicates : forall id, id ∈ b_duplicates b -> exists o, b_seen b !! id = Some o
    /\ st_by_id store !! id = Some o;
  bi_classified : forall id, is_Some (b_seen b !! id) ->
    id ∈ b_accepted b \/ id ∈ b_duplicates b;
  bi_NoDup : NoDup (b_accepted b ++ b_duplicates b);
}.

Lemma batch_inv_empty scope store :
  batch_inv scope store {| b_accepted := []; b_duplicates := []; b_seen := ∅; b_new_sequences := ∅ |}.
Proof.
  split; simpl; [by intros; simplify_map_eq|set_solver|set_solver| |constructor].
  intros id [o Ho]. by simplify_map_eq.
Qed.

Lemma push_item_inv scope store b item b' :
  batch_inv scope store b -> push_item scope store b item = Ok b' -> batch_inv scope store b'.
Proof.
  intros [Hseen Hacc Hdup Hcls Hnd] E. unfold push_item in E. res_inv.
  destruct (b_seen b !! can_operation_id item) as [prior|] eqn:Es; [by res_inv; subst|].
  assert (Hnin : can_operation_id item ∉ b_accepted b ++ b_duplicates b).
  { intros [Hin|Hin]%elem_of_app.
    - destruct (Hacc _ Hin) as (o & ? & _). congruence.
    - destruct (Hdup _ Hin) as (o & ? & _). congruence. }
  assert (Hval : validate_canonical_operation scope item = Ok tt)
    by (by destruct (validate_canonical_operation scope item) as [[]|]).
  assert (Hkeep : forall id o, b_seen b !! id = Some o ->
    <[can_operation_id item := item]> (b_seen b) !! id = Some o).
  { intros id o Hid. rewrite lookup_insert_ne; [done|]. intros <-. congruence. }
  destruct (st_by_id store !! can_operation_id item) as [existing|] eqn:Ei; res_inv; subst;
    (split; simpl; [intros id o; rewrite lookup_insert_Some; naive_solver|..]).
  - intros id Hid. destruct (Hacc id Hid) as (o & ? & ?). eauto.
  - intros id [Hid| ->%list_elem_of_singleton]%elem_of_app.
    + destruct (Hdup id Hid) as (o & ? & ?). eauto.
    + exists item. rewrite lookup_insert_eq. split; [done|]. wf_inv. congruence.
  - intros id. rewrite lookup_insert_is_Some. set_solver.
  - rewrite app_assoc. apply NoDup_app. split_and!; [done|set_solver|apply NoDup_singleton].
  - wf_inv. repeat match goal with E : ~ is_Some _ |- _ => apply eq_None_not_Some in E end.
    intros id [Hid| ->%list_elem_of_singleton]%elem_of_app.
    + destruct (Hacc id Hid) as (o & ? & ? & ? & ?). exists o.
      split_and!; auto. rewrite lookup_insert_ne; [done|]. intros E'. congruence.
    + exists item. by rewrite !lookup_insert_eq.
  - intros id Hid. destruct (Hdup id Hid) as (o & ? & ?). eauto.
  - intros id. rewrite lookup_insert_is_Some. set_solver.
  - rewrite <- app_assoc. simpl. rewrite <- Permutation_middle. by constructor.
Qed.

Lemma push_items_inv scope store batch b b' :
  batch_inv scope store b -> try_fold (push_item scope store) b batch = Ok b' ->
  batch_inv scope store b'.
Proof.
  revert b. induction batch as [|item batch IH]; simpl; intros b Hb E; res_inv; [by subst|].
  eauto using push_item_inv.
Qed.

(** The row stored for an accepted operation. *)
Definition row_at (received_at : rstr) (o : CanonicalOperation) : SyncCursor * CanonicalOperation :=
  ({| cur_received_at := received_at; cur_operation_id := can_operation_id o |}, o).

Lemma store_accepted_inv n scope store seen received_at o :
  store_inv n scope store -> issued n received_at ->
  seen !! can_operation_id o = Some o -> validate_canonical_operation scope o = Ok tt ->
  st_by_id store !! can_operation_id o = None ->
  st_by_sequence store !! (can_device_id o, can_device_sequence o) = None ->
  let store' := store_accepted seen received_at store (can_operation_id o) in
  store_inv n scope store' /\ st_operations store' ≡ₚ row_at received_at o :: st_operations store.
Proof.
  intros [Hwf Hrows Honce Hids Hseq Hlogs] Hat Hseen Hval Hfresh Hfreeseq.
  unfold store_accepted. rewrite Hseen. cbv zeta.
  assert (Hp : bt_insert (row_at received_at o).1 o (st_operations store)
    ≡ₚ row_at received_at o :: st_operations store).
  { apply bt_insert_fresh. intros ([c o'] & E & Hin)%list_elem_of_fmap. simpl in E. subst c.
    destruct (Hrows _ _ Hin) as (E & _ & Hid). simpl in E. congruence. }
  split; [|exact Hp]. unfold row_at in Hp. cbn [fst] in Hp.
  split; cbn [st_operations st_by_id st_by_sequence st_checkpoint_logs]; try done.
  - by apply bt_insert_wf.
  - intros c o'. rewrite Hp, elem_of_cons. intros [[= -> ->]|Hin].
    + by rewrite lookup_insert_eq.
    + destruct (Hrows _ _ Hin) as (? & ? & Hid). rewrite lookup_insert_ne; [done|]. congruence.
  - rewrite Hp. csimpl. constructor; [|done].
    intros (o' & E & ([c o2] & -> & Hin)%list_elem_of_fmap)%list_elem_of_fmap. simpl in E.
    destruct (Hrows _ _ Hin) as (? & ? & ?). congruence.
  - intros id o'. rewrite lookup_insert_Some, Hp. csimpl. rewrite elem_of_cons.
    intros [[<- <-]|[Hne Hid]]; [by rewrite lookup_insert_eq; auto|].
    destruct (Hids _ _ Hid) as (? & ? & ? & Hs). split_and!; auto.
    rewrite lookup_insert_ne; [done|]. congruence.
  - intros d q id. rewrite lookup_insert_Some. intros [[[= <- <-] <-]|[Hne Hs]].
    + exists o. by rewrite lookup_insert_eq.
    + destruct (Hseq _ _ _ Hs) as (o' & Hid & ? & ?). exists o'.
      rewrite lookup_insert_ne; [done|]. congruence.
Qed.

(** The operations of a batch still to be stored. *)
Definition storable (scope : SyncScope) (store : ScopeStore)
    (seen : gmap OperationId CanonicalOperation) (o : CanonicalOperation) : Prop :=
  seen !! can_operation_id o = Some o /\ validate_canonical_operation scope o = Ok tt
  /\ st_by_id store !! can_operation_id o = None
  /\ st_by_sequence store !! (can_device_id o, can_device_sequence o) = None.

Lemma store_accepted_fold n scope seen received_at (os : list CanonicalOperation) store :
  store_inv n scope store -> issued n received_at -> Forall (storable scope store seen) os ->
  NoDup (can_operation_id <$> os) ->
  NoDup ((fun o => (can_device_id o, can_device_sequence o)) <$> os) ->
  let store' := foldl (store_accepted seen received_at) store (can_operation_id <$> os) in
  store_inv n scope store'
  /\ st_operations store' ≡ₚ (row_at received_at <$> os) ++ st_operations store.
Proof.
  intros Hs Hat. revert store Hs. induction os as [|o os IH]; intros store Hs Hall Hid Hseq; [done|].
  apply Forall_cons in Hall as [(Hsn & Hv & Hf1 & Hf2) Hall]. csimpl in Hid. csimpl in Hseq.
  apply NoDup_cons in Hid as [Hi Hid]. apply NoDup_cons in Hseq as [Hq Hseq].
  destruct (store_accepted_inv n scope store seen received_at o Hs Hat Hsn Hv Hf1 Hf2) as [Hs1 Hp1].
  csimpl. destruct (IH _ Hs1) as [Hs2 Hp2]; [|done|done|].
  - rewrite Forall_forall in Hall |- *. intros o' Hin. destruct (Hall o' Hin) as (? & ? & ? & ?).
    unfold storable, store_accepted. rewrite Hsn. cbn [st_by_id st_by_sequence].
    split_and!; try done.
    + rewrite lookup_insert_ne; [done|]. intros E. apply Hi. rewrite E. by apply list_elem_of_fmap_2.
    + rewrite lookup_insert_ne; [done|]. intros E. apply Hq.
      apply list_elem_of_fmap. by exists o'.
  - split; [exact Hs2|]. rewrite Hp2, Hp1. symmetry. apply Permutation_middle.
Qed.

(** The loop remembers every item of the batch, and nothing else. *)
Lemma push_items_seen scope store batch b b' :
  try_fold (push_item scope store) b batch = Ok b' ->
  (forall id o, b_seen b !! id = Some o -> b_seen b' !! id = Some o)
  /\ (forall id o, b_seen b' !! id = Some o -> b_seen b !! id = Some o \/ o ∈ batch)
  /\ (forall o, o ∈ batch -> b_seen b' !! can_operation_id o = Some o).
Proof.
  revert b. induction batch as [|item batch IH]; simpl; intros b E; res_inv.
  { subst. split_and!; [auto|auto|set_solver]. }
  match goal with E : push_item _ _ _ _ = Ok ?y |- _ => rename E into E1; rename y into b1 end.
  destruct (IH _ E) as (Hkeep & Honly & Hall).
  assert (Hstep : b_seen b1 = <[can_operation_id item := item]> (b_seen b)
    /\ (forall id o, b_seen b !! id = Some o -> b_seen b1 !! id = Some o)).
  { unfold push_item in E1. res_inv.
    destruct (b_seen b !! can_operation_id item) as [prior|] eqn:Es; res_inv; wf_inv.
    - subst. split; [by rewrite insert_id|done].
    - assert (Hn : forall id o, b_seen b !! id = Some o ->
        <[can_operation_id item := item]> (b_seen b) !! id = Some o).
      { intros id o Hid. rewrite lookup_insert_ne; [done|]. congruence. }
      destruct (st_by_id store !! can_operation_id item); res_inv; by subst. }
  destruct Hstep as [Hb1 Hmono]. split_and!.
  - auto.
  - intros id o [Hid|Hin]%Honly; [|set_solver]. rewrite Hb1, lookup_insert_Some in Hid. set_solver.
  - intros o [->|Hin]%elem_of_cons; [|auto]. apply Hkeep. by rewrite Hb1, lookup_insert_eq.
Qed.

Lemma batch_storable scope store b :
  batch_inv scope store b -> exists os, b_accepted b = can_operation_id <$> os
    /\ Forall (storable scope store (b_seen b)) os /\ NoDup (can_operation_id <$> os)
    /\ NoDup ((fun o => (can_device_id o, can_device_sequence o)) <$> os).
Proof.
  intros [Hseen Hacc _ _ Hnd]. apply NoDup_app in Hnd as (Hnd & _ & _).
  pose (P id o := storable scope store (b_seen b) o /\ can_operation_id o = id
    /\ b_new_sequences b !! (can_device_id o, can_device_sequence o) = Some id).
  destruct (Forall_choose P (b_accepted b)) as [os Hos].
  { apply Forall_forall. intros id Hid. destruct (Hacc id Hid) as (o & Ho & ? & ? & ?).
    exists o. destruct (Hseen _ _ Ho) as [<- ?]. by unfold P, storable. }
  exists os. assert (E : b_accepted b = can_operation_id <$> os).
  { clear -Hos. induction Hos as [|id o l os (_ & E & _) _ IH]; csimpl; congruence. }
  rewrite <- E. split_and!; [done| |done|].
  - clear -Hos. induction Hos as [|id o l os (Hs & _) _ IH]; by constructor.
  - clear E. induction Hos as [|id o l os (_ & _ & Hq) Hos IH]; csimpl; [constructor|].
    apply NoDup_cons in Hnd as [Hni Hnd]. constructor; [|by apply IH; set_solver].
    intros (o' & Eq & Hin)%list_elem_of_fmap.
    destruct (proj1 (list_elem_of_lookup _ _) Hin) as [i Hi].
    destruct (Forall2_lookup_r _ _ _ _ _ Hos Hi) as (id' & Hl & _ & _ & Hq').
    rewrite <- Eq, Hq in Hq'. injection Hq' as <-. apply Hni.
    by apply list_elem_of_lookup; exists i.
Qed.

(** A successful push adds the accepted operations of the batch, under one
    receipt time, and nothing else. *)
Lemma push_operations_Ok t scope batch t' receipt :
  transport_inv t -> push_operations t scope batch = (t', Ok receipt) ->
  transport_inv t' /\ exists os, push_accepted receipt = can_operation_id <$> os
    /\ os ⊆ batch
    /\ st_operations (store_of t' scope)
       ≡ₚ (row_at (received_at_of (tr_next_receipt t')) <$> os) ++ st_operations (store_of t scope)
    /\ tr_next_receipt t'
       = (if bool_decide (os = []) then tr_next_receipt t
          else saturating_add u64_max (tr_next_receipt t) 1).
Proof.
  intros Ht. unfold push_operations.
  destruct (_ || _); [done|]. destruct (try_fold add_batch_bytes 0 batch); [|done].
  destruct (consume _) as [[|] k]; [done|].
  match goal with |- context [schedule_faults t ?f] => set (t1 := schedule_faults t f) end.
  assert (Ht1 : transport_inv t1) by done.
  assert (Hs1 : store_of t1 scope = store_of t scope) by done.
  destruct (try_fold (push_item _ _) _ _) as [b|] eqn:Eb; [|done]. rewrite Hs1 in Eb |- *.
  pose proof (push_items_inv _ _ _ _ _ (batch_inv_empty scope (store_of t scope)) Eb) as Hb.
  pose proof (push_items_seen _ _ _ _ _ Eb) as (_ & Honly & _).
  destruct (batch_storable _ _ _ Hb) as (os & Ea & Hst & Hn1 & Hn2). rewrite Ea.
  pose proof (store_of_inv t scope Ht) as Hstore.
  set (t2 := with_store t1 scope (store_of t scope)).
  assert (Ht2 : transport_inv t2).
  { apply (with_store_inv t1 scope (store_of t scope) (tr_next_receipt t1)); [done| |done].
    split; [done|apply Ht]. }
  assert (Hs2 : store_of t2 scope = store_of t scope) by apply store_of_with_store.
  assert (Hn2' : tr_next_receipt t2 = tr_next_receipt t) by done. clearbody t2.
  destruct os as [|o os].
  - rewrite bool_decide_eq_true_2 by done. intros [= <- <-]. split; [done|].
    exists []. split_and!; [done|set_solver|by rewrite Hs2|done].
  - rewrite bool_decide_eq_false_2 by done. unfold next_received_at. cbv zeta beta iota.
    rewrite Hn2'. set (n := saturating_add u64_max _ 1).
    assert (Hn : tr_next_receipt t <= n <= u64_max /\ 0 < n).
    { destruct Ht. unfold n, saturating_add, u64_max in *. lia. }
    destruct Hn as [Hn Hpos]. change (store_of {| tr_scopes := _ |} scope) with (store_of t2 scope).
    rewrite Hs2. intros [= <- <-].
    destruct (store_accepted_fold n scope (b_seen b) (received_at_of n) (o :: os) (store_of t scope))
      as [Hs' Hp]; [|exists n; split; [lia|done]|exact Hst|exact Hn1|exact Hn2|].
    { eapply store_inv_mono; [apply Hn|exact Hstore]. }
    split; [by apply (with_store_inv t2 scope _ n); [|rewrite Hn2'|apply store_inv_hints]|].
    exists (o :: os). split_and!; [done| | |by rewrite bool_decide_eq_false_2].
    2:{ rewrite store_of_with_store. exact Hp. }
    intros o' Ho'. rewrite Forall_forall in Hst. destruct (Hst _ Ho') as (Hseen & _).
    destruct (Honly _ _ Hseen) as [E|?]; [by simplify_map_eq|done].
Qed.

(** A rejected push leaves the stored rows as they were. *)
Lemma push_operations_Err t scope batch t' e :
  transport_inv t -> push_operations t scope batch = (t', Err e) ->
  transport_inv t' /\ store_of t' scope = store_of t scope
  /\ tr_next_receipt t' = tr_next_receipt t.
Proof.
  intros Ht. unfold push_operations.
  destruct (_ || _); [by intros [= <- <-]|].
  destruct (try_fold add_batch_bytes 0 batch); [|by intros [= <- <-]].
  destruct (consume _) as [[|] k]; [by intros [= <- <-]|].
  match goal with |- context [schedule_faults t ?f] => set (t1 := schedule_faults t f) end.
  destruct (try_fold (push_item _ _) _ _) as [b|]; [by destruct (bool_decide _)|].
  intros [= <- <-]. split_and!; [|apply store_of_with_store|done].
  apply (with_store_inv t1 scope (store_of t scope) (tr_next_receipt t1)).
  - done.
  - split; [done|apply Ht].
  - exact (store_of_inv t scope Ht).
Qed.

(** *** Accepting checkpoints *)

Definition last_hash (l : list CanonicalCheckpoint) : Sha256Digest :=
  from_option cc_canonical_hash zero_digest (last l).

Lemma hash_chain_snoc l c :
  hash_chain zero_digest (l ++ [c]) <->
  hash_chain zero_digest l /\ cp_previous_checkpoint_hash (cc_checkpoint c) = last_hash l.
Proof.
  unfold last_hash. generalize zero_digest as previous. induction l as [|x l IH]; intros previous.
  - simpl. naive_solver.
  - cbn [app hash_chain]. rewrite IH, last_cons. destruct (last l); simpl; naive_solver.
Qed.

Lemma issued_lt n received_at r :
  issued n received_at -> n < r -> r <= u64_max -> cmp received_at (received_at_of r) = Lt.
Proof. intros (r0 & ? & ->) ? ?. apply received_at_order; [lia|done]. Qed.

Lemma log_inv_default n scope : log_inv n scope CheckpointLog_default.
Proof.
  split; simpl; [constructor|set_solver|done|]. intros h b. rewrite lookup_empty. set_solver.
Qed.

(** The row a new checkpoint is stored in. *)
Definition checkpoint_row (n : N) (c : CanonicalCheckpoint)
    : CheckpointCursor * CanonicalCheckpoint :=
  ({| ccur_received_at := received_at_of n; ccur_canonical_hash := cc_canonical_hash c |}, c).

Lemma log_above n scope log r c :
  log_inv n scope log -> n < r -> r <= u64_max ->
  bt_above (checkpoint_row r c).1 (log_checkpoints log).
Proof.
  intros [_ Hrows _ _] Hr Hmax. apply Forall_forall. intros [k c'] Hin.
  destruct (Hrows _ _ Hin) as (_ & Hk & _). apply ltb_cmp. unfold cmp, CheckpointCursor_ord.
  unfold cmp, prod_ord, pair_cmp. cbn [fst checkpoint_row ccur_received_at].
  by rewrite (issued_lt n _ r Hk Hr Hmax).
Qed.

Lemma log_append_inv n r scope log c :
  log_inv n scope log -> n < r -> r <= u64_max ->
  validate_canonical_checkpoint scope c = Ok tt ->
  log_by_hash log !! cc_canonical_hash c = None ->
  cp_previous_checkpoint_hash (cc_checkpoint c) = last_hash (log_checkpoints log).*2 ->
  log_inv r scope {|
    log_checkpoints := log_checkpoints log ++ [checkpoint_row r c];
    log_by_hash := <[cc_canonical_hash c := cc_bytes c]> (log_by_hash log) |}.
Proof.
  intros Hlog Hr Hmax Hv Hfresh Hprev. pose proof (log_above n scope log r c Hlog Hr Hmax) as Ha.
  destruct Hlog as [Hwf Hrows Hchain Hby].
  split; cbn [log_checkpoints log_by_hash]; rewrite ?fmap_app.
  - by apply ascending_app_singleton.
  - intros k c' [Hin|[= -> ->]%list_elem_of_singleton]%elem_of_app.
    + destruct (Hrows _ _ Hin) as (? & ? & ?). split_and!; try done.
      eapply issued_mono; [|done]. lia.
    + split_and!; [done| |done]. exists r. split; [lia|done].
  - by apply hash_chain_snoc.
  - intros h b. csimpl. rewrite lookup_insert_Some, Hby. setoid_rewrite elem_of_app.
    setoid_rewrite list_elem_of_singleton. split.
    + intros [[<- <-]|[_ (c' & ? & ?)]]; [exists c|exists c']; auto.
    + intros (c' & [Hin| ->] & <- & <-); [|auto]. right. split; [|eauto]. intros E.
      assert (is_Some (log_by_hash log !! cc_canonical_hash c)) as [? ?]; [|congruence].
      exists (cc_bytes c'). apply Hby. eauto.
Qed.

(** A scope's log, absent or present. *)
Definition log_of (t : InMemoryTransport) (scope : SyncScope) (version : N) : CheckpointLog :=
  default CheckpointLog_default (checkpoint_log t scope version).

Lemma log_of_inv t scope version :
  transport_inv t -> log_inv (tr_next_receipt t) scope (log_of t scope version).
Proof.
  intros [_ Ht]. unfold log_of, checkpoint_log.
  destruct (tr_scopes t !! scope_key scope) as [store|] eqn:E; simpl; [|apply log_inv_default].
  destruct (st_checkpoint_logs store !! version) eqn:El; simpl; [|apply log_inv_default].
  by apply (si_logs _ _ _ (Ht _ _ E) version).
Qed.

Lemma log_of_store t scope version :
  log_of t scope version
  = default CheckpointLog_default (st_checkpoint_logs (store_of t scope) !! version).
Proof.
  unfold log_of, checkpoint_log, store_of.
  destruct (tr_scopes t !! scope_key scope); simpl; [done|]. by rewrite lookup_empty.
Qed.

(** The two lookups of [push_checkpoint] in terms of the log. *)
Lemma log_lookup t scope version h :
  (l ← checkpoint_log t scope version; log_by_hash l !! h) = log_by_hash (log_of t scope version) !! h.
Proof. unfold log_of. destruct (checkpoint_log t scope version); simpl; [done|]. by rewrite lookup_empty. Qed.

Lemma log_last t scope version :
  match (l ← checkpoint_log t scope version; last (log_checkpoints l)) with
  | Some (_, c) => cc_canonical_hash c
  | None => zero_digest
  end = last_hash (log_checkpoints (log_of t scope version)).*2.
Proof.
  unfold log_of, last_hash. destruct (checkpoint_log t scope version); simpl; [|done].
  rewrite fmap_last. by destruct (last _) as [[]|].
Qed.

Lemma push_checkpoint_cases t scope version c t' r :
  transport_inv t -> tr_next_receipt t < u64_max ->
  push_checkpoint t scope version c = (t', r) ->
  (t' = t /\ (forall receipt, r = Ok receipt -> cr_duplicate receipt = true
              /\ log_by_hash (log_of t scope version) !! cc_canonical_hash c = Some (cc_bytes c)))
  \/ (transport_inv t' /\ tr_next_receipt t' = tr_next_receipt t + 1
      /\ validate_canonical_checkpoint scope c = Ok tt
      /\ r = Ok {| cr_canonical_hash := cc_canonical_hash c; cr_duplicate := false |}
      /\ log_checkpoints (log_of t' scope version)
         = log_checkpoints (log_of t scope version) ++ [checkpoint_row (tr_next_receipt t') c]
      /\ log_by_hash (log_of t' scope version)
         = <[cc_canonical_hash c := cc_bytes c]> (log_by_hash (log_of t scope version))).
Proof.
  intros Ht Hmax. unfold push_checkpoint.
  destruct (_ || _); [intros [= <- <-]; naive_solver|].
  destruct (_ <? _); [intros [= <- <-]; naive_solver|].
  destruct (validate_canonical_checkpoint scope c) as [[]|] eqn:Hv;
    [|intros [= <- <-]; naive_solver].
  rewrite log_lookup, log_last. destruct (log_by_hash _ !! _) as [existing|] eqn:Eh.
  { intros [= <- <-]. left. split; [done|]. intros receipt E. case_bool_decide; [|done].
    by simplify_eq. }
  destruct (bool_decide (_ = last_hash _)) eqn:El; [|intros [= <- <-]; naive_solver].
  apply bool_decide_eq_true in El. cbn [negb].
  assert (En : saturating_add u64_max (tr_next_receipt t) 1 = tr_next_receipt t + 1)
    by (unfold saturating_add; lia).
  unfold next_received_at. cbv zeta beta iota. rewrite En.
  change (store_of {| tr_scopes := _ |} scope) with (store_of t scope).
  rewrite <- log_of_store.
  pose proof (log_of_inv t scope version Ht) as Hlog.
  rewrite (bt_insert_above (checkpoint_row (tr_next_receipt t + 1) c).1)
    by (apply (log_above _ scope _ _ _ Hlog); lia).
  intros [= <- <-]. right.
  match goal with |- context [with_store _ scope ?s] => set (store := s) end.
  assert (Hs : store_inv (tr_next_receipt t + 1) scope store).
  { pose proof (store_of_inv t scope Ht) as Hs. eapply (store_inv_mono _ (tr_next_receipt t + 1)) in Hs;
      [|lia]. destruct Hs as [? ? ? ? ? Hlogs]. split; try done. cbn.
    intros v log. rewrite lookup_insert_Some. intros [[-> <-]|[_ Hl]]; [|by apply (Hlogs v)].
    eapply log_append_inv; [exact Hlog|lia|lia|done|done|done]. }
  split_and!; [|done|done|done|..].
  - apply (with_store_inv t scope store (tr_next_receipt t + 1)); [done|lia|done].
  - rewrite log_of_store, store_of_with_store. cbn. by rewrite lookup_insert_eq.
  - rewrite log_of_store, store_of_with_store. cbn. by rewrite lookup_insert_eq.
Qed.

(** *** Every call *)

Lemma take_change_hint_inv t scope : transport_inv t -> transport_inv (take_change_hint t scope).1.
Proof.
  intros Ht. unfold take_change_hint. destruct (tr_scopes t !! scope_key scope) as [store|] eqn:E; [|done].
  destruct (_ =? 0); [done|]. destruct (consume _) as [? k]. simpl.
  apply (with_store_inv (schedule_faults t _) scope); [done|split; [done|apply Ht]|].
  apply store_inv_hints. by apply (proj2 Ht).
Qed.

Lemma pull_operations_state t scope after limit :
  tr_scopes (pull_operations t scope after limit).1 = tr_scopes t
  /\ tr_next_receipt (pull_operations t scope after limit).1 = tr_next_receipt t.
Proof.
  unfold pull_operations. destruct (consume (transient_pulls _)) as [[|] ?]; [done|].
  destruct (consume (dropped_pulls _)) as [[|] ?]; [done|].
  destruct (consume (delayed_pulls _)) as [[|] ?]; [done|].
  destruct (_ =? 0); [done|].
  destruct (consume (duplicated_pulls _)) as [? ?], (consume (reversed_pulls _)) as [? ?]. done.
Qed.

Lemma step_inv t c :
  transport_inv t -> tr_next_receipt t < u64_max ->
  transport_inv (step t c) /\ tr_next_receipt (step t c) <= tr_next_receipt t + 1.
Proof.
  intros Ht Hmax. destruct c as [scope batch|scope after limit|scope d a b|scope v cp|scope|f];
    cbn [step].
  - destruct (push_operations t scope batch) as [t' [receipt|e]] eqn:E; cbn [fst].
    + destruct (push_operations_Ok _ _ _ _ _ Ht E) as (? & os & _ & _ & _ & ->).
      split; [done|]. unfold saturating_add. case_bool_decide; lia.
    + destruct (push_operations_Err _ _ _ _ _ Ht E) as (? & _ & ->). split; [done|lia].
  - unfold transport_inv. destruct (pull_operations_state t scope after limit) as [-> ->].
    split; [done|lia].
  - unfold pull_device_range. destruct (consume _) as [[|] ?]; (split; [done|simpl; lia]).
  - destruct (push_checkpoint t scope v cp) as [t' r] eqn:E. cbn [fst].
    destruct (push_checkpoint_cases _ _ _ _ _ _ Ht Hmax E) as [[-> _]|(? & -> & _)];
      (split; [done|lia]).
  - split; [by apply take_change_hint_inv|]. unfold take_change_hint.
    destruct (tr_scopes t !! _); [|simpl; lia]. destruct (_ =? 0); [simpl; lia|].
    destruct (consume _); simpl; lia.
  - split; [done|simpl; lia].
Qed.

Lemma run_inv commands :
  len commands <= u64_max ->
  transport_inv (run commands) /\ tr_next_receipt (run commands) <= len commands.
Proof.
  unfold run. induction commands as [|c commands IH] using rev_ind; intros Hlen.
  - split; [|done]. split; [done|]. intros scope store. simpl. by rewrite lookup_empty.
  - rewrite len_app, len_cons, len_nil in Hlen |- *. rewrite foldl_app. cbn [foldl].
    destruct IH as [Ht Hn]; [lia|]. destruct (step_inv _ c Ht ltac:(lia)). split; [done|lia].
Qed.

End invariant.

(** ** Properties *)

Section properties.
Context `{UuidCrate} `{MinicborLaws} `{Primitives}.

(** C37. Whatever sequence of calls a transport has served, with faults scheduled
    at any point, every scope's rows, identifier index and sequence index describe
    one set of valid operations of that scope with unique identifiers and unique
    device sequences, rows are in receipt order, and every checkpoint log is a hash
    chain from the zero digest, indexed by hash. *)
Theorem transport_session_consistent commands :
  len commands <= u64_max -> transport_inv (run commands).
Proof. intros Hlen. by apply run_inv. Qed.

(** *** Pulling pages *)

(** A client that pulls page after page from a cursor until a page is empty. *)
Fixpoint drain (fuel : nat) (t : InMemoryTransport) (scope : SyncScope)
    (after : option SyncCursor) (limit : N) : list ReceivedOperation :=
  match fuel with
  | O => []
  | S fuel' =>
    match pull_operations t scope after limit with
    | (_, Err _) => []
    | (t', Ok page) =>
      match page_next_cursor page with
      | None => page_rows page
      | Some cursor => page_rows page ++ drain fuel' t' scope (Some cursor) limit
      end
    end
  end.

Lemma pull_operations_faultless t scope after limit :
  tr_faults t = no_faults -> 0 < limit ->
  let page := take (N.to_nat (N.min limit MAX_PAGE)) (bt_after after (st_operations (store_of t scope))) in
  pull_operations t scope after limit
  = (t, Ok {| page_rows := received <$> page; page_next_cursor := fst <$> last page |}).
Proof.
  intros Hf Hl. destruct t as [scopes n faults]. simpl in Hf. subst faults. cbv zeta.
  unfold pull_operations. cbn -[N.min MAX_PAGE N.to_nat].
  rewrite (proj2 (N.eqb_neq _ _)) by (unfold MAX_PAGE; lia).
  unfold store_of, schedule_faults. cbn -[N.min MAX_PAGE N.to_nat]. f_equal. f_equal.
  destruct (scopes !! scope_key scope); cbn -[N.min MAX_PAGE N.to_nat].
  - f_equal. rewrite fmap_last. by destruct (last _).
  - by destruct after; cbn -[N.min MAX_PAGE N.to_nat]; rewrite ?take_nil.
Qed.

Lemma drain_rows t scope limit fuel after :
  bt_wf (st_operations (store_of t scope)) -> tr_faults t = no_faults -> 0 < limit ->
  (length (bt_after after (st_operations (store_of t scope))) < fuel)%nat ->
  drain fuel t scope after limit
  = received <$> bt_after after (st_operations (store_of t scope)).
Proof.
  intros Hwf Hf Hl. revert after. induction fuel as [|fuel IH]; intros after Hfuel; [lia|].
  cbn [drain]. rewrite pull_operations_faultless by done. cbn [page_next_cursor page_rows].
  set (stored := st_operations (store_of t scope)) in *.
  set (k := N.to_nat (N.min limit MAX_PAGE)).
  assert (Hk : (0 < k)%nat) by (unfold k, MAX_PAGE; lia).
  destruct (bt_after after stored) as [|row rest] eqn:E.
  { by rewrite take_nil. }
  destruct (last (take k (row :: rest))) as [[c o]|] eqn:El.
  2:{ apply last_None in El. clearbody k. destruct k; [lia|done]. }
  apply last_Some in El as [page El]. cbn [fmap option_fmap option_map fst].
  pose proof (take_drop k (row :: rest)) as Hsplit. rewrite El, <- app_assoc in Hsplit. simpl in Hsplit.
  assert (Hres : bt_after (Some c) stored = drop k (row :: rest)).
  { eapply bt_after_resume; [done|]. rewrite E. symmetry. exact Hsplit. }
  rewrite IH by (rewrite Hres, length_drop; simpl in *; lia).
  by rewrite Hres, <- fmap_app, take_drop.
Qed.

(** Paging is complete: with no fault scheduled, a client that pulls pages of any
    positive size from a cursor receives every stored operation after that cursor,
    each once and in receipt order; one more request than there are rows is enough. *)
Theorem pull_pages_complete commands scope after limit :
  len commands <= u64_max -> tr_faults (run commands) = no_faults -> 0 < limit ->
  let stored := st_operations (store_of (run commands) scope) in
  drain (S (length stored)) (run commands) scope after limit = received <$> bt_after after stored
  /\ NoDup (can_operation_id ∘ snd <$> stored).
Proof.
  intros Hlen Hf Hl stored. destruct (run_inv commands Hlen) as [Ht _].
  pose proof (store_of_inv _ scope Ht) as Hs. split.
  - apply drain_rows; [apply Hs|done|done|]. apply Nat.lt_succ_r. destruct after; simpl; [apply length_filter|done].
  - rewrite list_fmap_compose. apply Hs.
Qed.

(** A push appends: its rows come after every row stored before. *)
Lemma push_appends t scope batch t' receipt :
  transport_inv t -> tr_next_receipt t < u64_max ->
  push_operations t scope batch = (t', Ok receipt) ->
  exists rows, st_operations (store_of t' scope) = st_operations (store_of t scope) ++ rows
    /\ can_operation_id ∘ snd <$> rows ≡ₚ push_accepted receipt
    /\ Forall (fun row => row.2 ∈ batch) rows.
Proof.
  intros Ht Hmax E. destruct (push_operations_Ok _ _ _ _ _ Ht E) as (Ht' & os & Ea & Hsub & Hp & En).
  pose proof (store_of_inv _ scope Ht') as Hs'. pose proof (store_of_inv _ scope Ht) as Hs.
  set (at' := received_at_of (tr_next_receipt t')) in *.
  assert (Hnd : NoDup ((row_at at' <$> os).*1)).
  { pose proof (ascending_NoDup _ _ (si_wf _ _ _ Hs')) as Hnd.
    rewrite Hp, fmap_app in Hnd. by apply NoDup_app in Hnd as [? _]. }
  exists (sort_by_key fst (row_at at' <$> os)). split_and!.
  - apply (ascending_unique fst); [apply Hs'| |].
    + apply ascending_app; [apply Hs|by apply sort_by_key_ascending|].
      intros [c o] row Hold. rewrite sort_by_key_perm.
      intros (o' & -> & Ho')%list_elem_of_fmap.
      rewrite bool_decide_eq_false_2 in En by (intros ->; set_solver).
      assert (En' : tr_next_receipt t' = tr_next_receipt t + 1)
        by (rewrite En; unfold saturating_add; lia).
      destruct (si_rows _ _ _ Hs _ _ Hold) as (_ & Hat & _). apply ltb_cmp.
      unfold cmp, SyncCursor_ord, cmp, prod_ord, pair_cmp. cbn [fst cur_received_at row_at].
      unfold at'. rewrite (issued_lt _ _ (tr_next_receipt t') Hat); [done|lia|lia].
    + rewrite sort_by_key_perm, Hp. apply Permutation_app_comm.
  - rewrite sort_by_key_perm, Ea, <- list_fmap_compose. done.
  - rewrite sort_by_key_perm. apply Forall_fmap, Forall_forall. intros o Ho. by apply Hsub.
Qed.

(** A reader misses nothing: a client that has read a scope to its end and resumes
    from the last cursor after a push receives exactly the operations that push
    accepted, all of them operations of the pushed batch. *)
Theorem reader_sees_every_push commands scope batch t' receipt limit :
  len commands < u64_max -> push_operations (run commands) scope batch = (t', Ok receipt) ->
  tr_faults t' = no_faults -> 0 < limit ->
  let after := fst <$> last (st_operations (store_of (run commands) scope)) in
  let rows := drain (S (length (st_operations (store_of t' scope)))) t' scope after limit in
  can_operation_id ∘ rec_operation <$> rows ≡ₚ push_accepted receipt
  /\ Forall (fun row => rec_operation row ∈ batch) rows.
Proof.
  intros Hlen E Hf Hl after rows. destruct (run_inv commands ltac:(lia)) as [Ht Hn].
  destruct (push_appends _ _ _ _ _ Ht ltac:(lia) E) as (new & Es & Hids & Hin).
  destruct (push_operations_Ok _ _ _ _ _ Ht E) as [Ht' _].
  assert (Hrows : rows = received <$> new).
  { unfold rows. rewrite drain_rows; [|apply (store_of_inv _ _ Ht')|done|done|].
    2:{ apply Nat.lt_succ_r. destruct after; simpl; [apply length_filter|done]. }
    f_equal. unfold after. rewrite Es.
    destruct (last (st_operations (store_of (run commands) scope))) as [[c o]|] eqn:El.
    - apply last_Some in El as [old El]. cbn [fmap option_fmap option_map fst].
      eapply bt_after_resume with (after := None) (l := old) (v := o).
      + rewrite <- Es. apply (store_of_inv _ _ Ht').
      + by rewrite El, <- app_assoc.
    - apply last_None in El. by rewrite El. }
  rewrite Hrows. split; [|by apply Forall_fmap]. by rewrite <- list_fmap_compose.
Qed.

(** *** Pushing a batch again *)

Abbreviation empty_batch :=
  {| b_accepted := []; b_duplicates := []; b_seen := ∅; b_new_sequences := ∅ |}.

Lemma push_operations_loop t scope batch t' receipt :
  push_operations t scope batch = (t', Ok receipt) ->
  (MAX_BATCH_OPERATIONS <? len batch) || (MAX_PAGE <? len batch) = false
  /\ is_ok (try_fold add_batch_bytes 0 batch) = true
  /\ (exists b, try_fold (push_item scope (store_of t scope)) empty_batch batch = Ok b
       /\ receipt = {| push_accepted := b_accepted b; push_duplicates := b_duplicates b |})
  /\ tr_scopes t' !! scope_key scope = Some (store_of t' scope).
Proof.
  unfold push_operations. destruct (_ || _); [done|].
  destruct (try_fold add_batch_bytes 0 batch); [|done]. destruct (consume _) as [[|] k]; [done|].
  change (store_of (schedule_faults _ _) scope) with (store_of t scope).
  destruct (try_fold (push_item _ _) _ _) as [b|] eqn:Eb; [|done].
  destruct (bool_decide _); unfold next_received_at; cbv zeta beta iota; intros [= <- <-];
    (split_and!; [done|done|by exists b|]); rewrite store_of_with_store;
    unfold with_store; cbn [tr_scopes]; by rewrite lookup_insert_eq.
Qed.

(** After a push every operation of the batch is stored. *)
Lemma push_stores t scope batch t' receipt :
  transport_inv t -> push_operations t scope batch = (t', Ok receipt) ->
  Forall (fun o => validate_canonical_operation scope o = Ok tt
                   /\ st_by_id (store_of t' scope) !! can_operation_id o = Some o) batch
  /\ NoDup (push_accepted receipt ++ push_duplicates receipt)
  /\ (forall id, id ∈ push_accepted receipt ++ push_duplicates receipt
       <-> id ∈ can_operation_id <$> batch).
Proof.
  intros Ht E. destruct (push_operations_Ok _ _ _ _ _ Ht E) as (Ht' & os & Ea & Hsub & Hp & _).
  destruct (push_operations_loop _ _ _ _ _ E) as (_ & _ & (b & Eb & ->) & _).
  cbn [push_accepted push_duplicates] in *.
  pose proof (store_of_inv _ scope Ht') as Hs'. pose proof (store_of_inv _ scope Ht) as Hs.
  pose proof (push_items_inv _ _ _ _ _ (batch_inv_empty scope (store_of t scope)) Eb)
    as [Hseen Hacc Hdup Hcls Hnd].
  pose proof (push_items_seen _ _ _ _ _ Eb) as (_ & Honly & Hall).
  assert (Hrow : forall c o, (c, o) ∈ st_operations (store_of t' scope) ->
    st_by_id (store_of t' scope) !! can_operation_id o = Some o)
    by (intros c o Hin; by apply (si_rows _ _ _ Hs' c)).
  split_and!; [|done|].
  - apply Forall_forall. intros o Ho. pose proof (Hall o Ho) as Hso.
    split; [by apply (Hseen (can_operation_id o))|].
    destruct (Hcls (can_operation_id o) ltac:(eauto)) as [Hin|Hin].
    + rewrite Ea in Hin. apply list_elem_of_fmap in Hin as (o' & Eo & Hin).
      pose proof (Hall _ (Hsub _ Hin)) as Ho'. assert (o' = o) as -> by congruence.
      eapply Hrow. rewrite Hp. apply elem_of_app. left. apply list_elem_of_fmap. by exists o.
    + destruct (Hdup _ Hin) as (o' & Ho' & Hid). assert (o' = o) as -> by congruence.
      destruct (si_ids _ _ _ Hs _ _ Hid) as (_ & ([c o'] & -> & Hr)%list_elem_of_fmap & _).
      eapply Hrow. rewrite Hp. apply elem_of_app. by right.
  - intros id. rewrite elem_of_app, list_elem_of_fmap. split.
    + intros [Hin|Hin]; [apply Hacc in Hin as (o & Ho & _)|apply Hdup in Hin as (o & Ho & _)];
        (destruct (Honly _ _ Ho) as [?|?]; [by simplify_map_eq|]);
        exists o; (split; [by destruct (Hseen _ _ Ho)|done]).
    + intros (o & -> & Ho). apply Hcls. eauto.
Qed.

Lemma push_known scope store batch b :
  Forall (fun o => validate_canonical_operation scope o = Ok tt
                   /\ st_by_id store !! can_operation_id o = Some o) batch ->
  (forall id o, b_seen b !! id = Some o -> st_by_id store !! id = Some o) -> b_accepted b = [] ->
  exists b', try_fold (push_item scope store) b batch = Ok b' /\ b_accepted b' = [].
Proof.
  intros Hall. revert b. induction Hall as [|item batch [Hv Hid] Hall IH]; intros b Hseen Ha;
    [by exists b|].
  simpl. unfold push_item at 1. rewrite Hv. cbn [rbind].
  destruct (b_seen b !! can_operation_id item) as [prior|] eqn:Es.
  - apply Hseen in Es as Es'. rewrite bool_decide_eq_true_2 by congruence. cbn [rbind]. by apply IH.
  - rewrite Hid, bool_decide_eq_true_2 by done. cbn [rbind]. apply IH; [|done]. cbn [b_seen].
    intros id o. rewrite lookup_insert_Some. intros [[<- <-]|[_ ?]]; auto.
Qed.

(** Pushing is idempotent: repeating a batch that succeeded, as a client does whose
    receipt was lost, changes nothing and reports every operation of the batch, once,
    as a duplicate. *)
Theorem push_idempotent commands scope batch t' receipt :
  len commands <= u64_max -> push_operations (run commands) scope batch = (t', Ok receipt) ->
  transient_pushes (tr_faults t') = 0 ->
  exists receipt', push_operations t' scope batch = (t', Ok receipt')
    /\ push_accepted receipt' = []
    /\ push_duplicates receipt' ≡ₚ push_accepted receipt ++ push_duplicates receipt.
Proof.
  intros Hlen E Hf. destruct (run_inv commands Hlen) as [Ht _].
  destruct (push_operations_Ok _ _ _ _ _ Ht E) as [Ht' _].
  destruct (push_stores _ _ _ _ _ Ht E) as (Hall & Hnd & Hids).
  destruct (push_operations_loop _ _ _ _ _ E) as (Hsize & Hbytes & _ & Hpresent).
  destruct (push_known scope (store_of t' scope) batch empty_batch Hall) as (b & Eb & Eacc);
    [intros; by simplify_map_eq|done|].
  assert (E2 : push_operations t' scope batch
    = (t', Ok {| push_accepted := b_accepted b; push_duplicates := b_duplicates b |})).
  { unfold push_operations. rewrite Hsize. destruct (try_fold add_batch_bytes 0 batch); [|done].
    rewrite Hf. cbn [consume N.eqb].
    change (store_of (schedule_faults _ _) scope) with (store_of t' scope).
    rewrite Eb, Eacc, bool_decide_eq_true_2 by done. f_equal.
    unfold with_store, schedule_faults. cbn [tr_scopes tr_next_receipt tr_faults].
    rewrite insert_id by done. destruct t' as [? ? []]. simpl in *. congruence. }
  destruct (push_stores _ _ _ _ _ Ht' E2) as (_ & Hnd2 & Hids2).
  eexists. split_and!; [exact E2|exact Eacc|]. cbn [push_accepted push_duplicates] in *.
  rewrite Eacc in Hnd2, Hids2. apply NoDup_Permutation; [done|done|].
  intros id. by rewrite Hids, <- Hids2.
Qed.

(** *** Checkpoints *)

Lemma checkpoint_by_hash_stored t scope c :
  validate_canonical_checkpoint scope c = Ok tt ->
  log_by_hash (log_of t scope CHECKPOINT_SCHEMA_VERSION) !! cc_canonical_hash c = Some (cc_bytes c) ->
  checkpoint_by_hash t scope CHECKPOINT_SCHEMA_VERSION (cc_canonical_hash c) = Ok (Some c).
Proof.
  intros Hv Hl. pose proof Hv as (Hwf & Hfrom & _)%validate_canonical_checkpoint_Ok.
  unfold checkpoint_by_hash. rewrite N.eqb_refl, log_lookup, Hl. cbn [negb].
  assert (Hdec : decode_checkpoint_v1 (cc_bytes c) = Ok (cc_checkpoint c)).
  { apply decode_checkpoint_v1_Ok. split; [done|]. unfold from_checkpoint in Hfrom. res_inv.
    by destruct c; simpl in *; simplify_eq. }
  rewrite Hdec. cbn [map_err rbind]. rewrite Hfrom. cbn [map_err rbind]. rewrite Hv. cbn [rbind].
  by rewrite bool_decide_eq_true_2.
Qed.

(** A checkpoint the transport acknowledges can be fetched by its hash, exactly as
    it was pushed; the log stays one hash chain from the zero digest; an acknowledged
    duplicate changes nothing and a new checkpoint becomes the end of the chain. *)
Theorem checkpoint_stored_and_chained commands scope c t' receipt :
  len commands < u64_max ->
  push_checkpoint (run commands) scope CHECKPOINT_SCHEMA_VERSION c = (t', Ok receipt) ->
  let chain t := (log_checkpoints (log_of t scope CHECKPOINT_SCHEMA_VERSION)).*2 in
  checkpoint_by_hash t' scope CHECKPOINT_SCHEMA_VERSION (cc_canonical_hash c) = Ok (Some c)
  /\ hash_chain zero_digest (chain t')
  /\ (if cr_duplicate receipt then t' = run commands else chain t' = chain (run commands) ++ [c]).
Proof.
  intros Hlen E chain. destruct (run_inv commands ltac:(lia)) as [Ht Hn].
  assert (Hv : validate_canonical_checkpoint scope c = Ok tt).
  { unfold push_checkpoint in E. destruct (_ || _); [done|]. destruct (_ <? _); [done|].
    by destruct (validate_canonical_checkpoint scope c) as [[]|]. }
  destruct (push_checkpoint_cases _ _ _ _ _ _ Ht ltac:(lia) E)
    as [[-> Hdup]|(Ht' & _ & _ & [= ->] & Hlog & Hby)].
  - destruct (Hdup _ eq_refl) as [-> Hl]. split_and!; [by apply checkpoint_by_hash_stored| |done].
    apply (log_of_inv _ scope CHECKPOINT_SCHEMA_VERSION Ht).
  - split_and!.
    + apply checkpoint_by_hash_stored; [done|]. by rewrite Hby, lookup_insert_eq.
    + apply (log_of_inv _ scope CHECKPOINT_SCHEMA_VERSION Ht').
    + unfold chain. by rewrite Hlog, fmap_app.
Qed.

(** *** Repairing a gap *)

(** A device range request returns, in strictly ascending sequence order, exactly
    the stored operations of the device whose sequence lies in the range; it is
    refused exactly when the range is empty or longer than a page. *)
Theorem device_range_exact commands scope device first last :
  len commands <= u64_max -> transient_ranges (tr_faults (run commands)) = 0 -> last <= u64_max ->
  let t := run commands in
  if decide (first <= last /\ last - first < MAX_PAGE) then
    exists rows, (pull_device_range t scope device first last).2 = Ok rows
      /\ ascending (can_device_sequence ∘ rec_operation) rows
      /\ forall row, row ∈ rows <->
           (rec_cursor row, rec_operation row) ∈ st_operations (store_of t scope)
           /\ can_device_id (rec_operation row) = device
           /\ first <= can_device_sequence (rec_operation row) <= last
  else (pull_device_range t scope device first last).2 = Err Configuration.
Proof.
  intros Hlen Hf Hlast t. destruct (run_inv commands Hlen) as [Ht _].
  fold t in Hf, Ht. clearbody t. unfold pull_device_range. rewrite Hf. cbn [consume N.eqb snd].
  assert (Hcount : (d ← checked_sub last first; checked_add u64_max d 1)
    = if decide (first <= last) then checked_add u64_max (last - first) 1 else None).
  { unfold checked_sub. case_decide; [by rewrite (proj2 (N.leb_le _ _))|].
    by rewrite (proj2 (N.leb_gt _ _)) by lia. }
  rewrite Hcount. clear Hcount. destruct (decide (first <= last)) as [Hle|Hle].
  2:{ rewrite decide_False by naive_solver. done. }
  unfold checked_add. destruct (N.leb_spec (last - first + 1) u64_max) as [Hmax|Hmax].
  2:{ rewrite decide_False; [done|]. unfold MAX_PAGE, u64_max in *. lia. }
  cbn [ok_or rbind]. destruct (N.ltb_spec MAX_PAGE (last - first + 1)) as [Hp|Hp].
  { rewrite decide_False by lia. done. }
  rewrite decide_True by lia. pose proof (store_of_inv t scope Ht) as Hs. unfold store_of in Hs |- *.
  cbn [tr_scopes schedule_faults].
  destruct (tr_scopes t !! scope_key scope) as [store|]; simpl in Hs |- *.
  2:{ exists []. split_and!; [done|constructor|set_solver]. }
  eexists. split; [done|].
  set (keep := filter _ _).
  assert (Hkeep : forall row, row ∈ keep <-> row ∈ st_operations store
    /\ can_device_id row.2 = device /\ first <= can_device_sequence row.2 <= last).
  { intros row. unfold keep. rewrite list_elem_of_filter, andb_true_iff, !N.leb_le. naive_solver. }
  split.
  - apply sorted_NoDup_ascending; [apply sort_by_key_sorted|]. rewrite sort_by_key_perm.
    rewrite <- list_fmap_compose. apply NoDup_fmap_2_strong.
    + intros [c o] [c' o'] Ha Hb Eq. apply Hkeep in Ha as (Ha & Da & _), Hb as (Hb & Db & _).
      simpl in *. destruct (si_rows _ _ _ Hs _ _ Ha) as (_ & _ & Ia).
      destruct (si_rows _ _ _ Hs _ _ Hb) as (_ & _ & Ib).
      apply (si_ids _ _ _ Hs) in Ia as (_ & _ & _ & Qa), Ib as (_ & _ & _ & Qb).
      pose proof (si_once _ _ _ Hs) as Honce. rewrite <- list_fmap_compose in Honce.
      apply (NoDup_fmap_elem _ _ _ _ Honce Ha Hb). simpl. congruence.
    + apply NoDup_filter. eapply NoDup_fmap_1, (ascending_NoDup fst), Hs.
  - intros row. rewrite sort_by_key_perm, list_elem_of_fmap. split.
    + intros ([c o] & -> & Hin). by apply Hkeep in Hin.
    + intros Hin. exists (rec_cursor row, rec_operation row). split; [by destruct row|].
      by apply Hkeep.
Qed.

End properties.

(** ** A session, evaluated *)

Module MemoryTransportWitness.
#[local] Existing Instances rfc9562 Rfc8949.codec Rfc8949.codec_laws Toy.toy.

Definition scope : SyncScope :=
  {| scope_account_id := Fixture.id; scope_workspace_id := Fixture.id |}.

Definition row (op : SyncOperationV1) : CanonicalOperation := {|
  can_operation_id := op_operation_id op; can_device_id := op_device_id op;
  can_device_sequence := op_device_sequence op;
  can_bytes := match encode_sync_operation_v1 op with Ok b => b | Err _ => [] end |}.

Definition first_row : CanonicalOperation := row Fixture.operation.

(** The successor of the fixture's operation in its device chain. *)
Definition second_row : CanonicalOperation :=
  let op := Fixture.operation in
  row {| op_schema_version := op_schema_version op; op_operation_id := SummaryWitness.other_id;
         op_account_id := op_account_id op; op_workspace_id := op_workspace_id op;
         op_project_id := op_project_id op; op_record_id := op_record_id op;
         op_record_kind := op_record_kind op; op_mutation_kind := op_mutation_kind op;
         op_device_id := op_device_id op; op_device_sequence := 8;
         op_causal_frontier := op_causal_frontier op; op_control_epoch := op_control_epoch op;
         op_key_epoch := op_key_epoch op; op_previous_device_hash := op_previous_device_hash op;
         op_nonce := op_nonce op; op_ciphertext := op_ciphertext op;
         op_ciphertext_hash := op_ciphertext_hash op; op_blob_refs := op_blob_refs op;
         op_created_hlc := op_created_hlc op; op_signature := op_signature op |}.

Definition genesis : CanonicalCheckpoint :=
  let cp := Fixture.checkpoint in
  match from_checkpoint {|
    cp_schema_version := cp_schema_version cp; cp_account_id := cp_account_id cp;
    cp_workspace_id := cp_workspace_id cp; cp_previous_checkpoint_hash := zero_digest;
    cp_causal_frontier := cp_causal_frontier cp; cp_state_hash := cp_state_hash cp;
    cp_key_epoch := cp_key_epoch cp; cp_creator_device := cp_creator_device cp;
    cp_created_hlc := cp_created_hlc cp; cp_signature := cp_signature cp |} with
  | Ok c => c
  | Err _ => {| cc_canonical_hash := []; cc_state_hash := []; cc_checkpoint := cp; cc_bytes := [] |}
  end.

(** A push that fails once, then succeeds; a hint and a page are taken. *)
Definition session : list command :=
  [ScheduleFaults {| transient_pushes := 1; transient_pulls := 0; transient_ranges := 0;
     dropped_pulls := 0; delayed_pulls := 0; duplicated_pulls := 0; reversed_pulls := 0;
     lost_hints := 0 |};
   PushOperations scope [first_row]; PushOperations scope [first_row; first_row];
   TakeChangeHint scope; PullOperations scope None 10].

Definition pushed := push_operations (run session) scope [second_row; first_row].
Definition pushed_checkpoint :=
  push_checkpoint (run session) scope CHECKPOINT_SCHEMA_VERSION genesis.

#[local] Strategy expand [pushed pushed_checkpoint].

Definition receipt : PushReceipt :=
  {| push_accepted := [SummaryWitness.other_id]; push_duplicates := [Fixture.id] |}.

Lemma transport_session_consistent_witness : transport_inv (run session).
Proof. apply transport_session_consistent. vm_compute. discriminate. Defined.

Lemma pull_pages_complete_witness :
  let stored := st_operations (store_of (run session) scope) in
  stored = [row_at (received_at_of 1) first_row]
  /\ drain (S (length stored)) (run session) scope None 1 = received <$> bt_after None stored.
Proof.
  split; [vm_compute; reflexivity|].
  refine (proj1 (pull_pages_complete session scope None 1 _ _ _));
    vm_compute; (reflexivity || discriminate).
Defined.

Lemma pushed_Ok : pushed = (pushed.1, Ok receipt).
Proof.
  assert (E : pushed.2 = Ok receipt) by (vm_compute; reflexivity).
  rewrite <- E. apply surjective_pairing.
Qed.

Lemma reader_sees_every_push_witness :
  let after := fst <$> last (st_operations (store_of (run session) scope)) in
  let rows := drain (S (length (st_operations (store_of pushed.1 scope)))) pushed.1 scope after 1 in
  after = Some (row_at (received_at_of 1) first_row).1
  /\ can_operation_id ∘ rec_operation <$> rows ≡ₚ [SummaryWitness.other_id].
Proof.
  split; [vm_compute; reflexivity|].
  refine (proj1 (reader_sees_every_push session scope [second_row; first_row] pushed.1 receipt 1
    _ pushed_Ok _ _)); vm_compute; reflexivity.
Defined.

Lemma push_idempotent_witness :
  exists receipt', push_operations pushed.1 scope [second_row; first_row] = (pushed.1, Ok receipt')
    /\ push_accepted receipt' = []
    /\ push_duplicates receipt' ≡ₚ [SummaryWitness.other_id; Fixture.id].
Proof.
  refine (push_idempotent session scope [second_row; first_row] pushed.1 receipt _ _ _).
  - vm_compute. discriminate.
  - exact pushed_Ok.
  - vm_compute. reflexivity.
Defined.

Definition checkpoint_receipt : CheckpointReceipt :=
  {| cr_canonical_hash := cc_canonical_hash genesis; cr_duplicate := false |}.

Lemma pushed_checkpoint_Ok : pushed_checkpoint = (pushed_checkpoint.1, Ok checkpoint_receipt).
Proof.
  assert (E : pushed_checkpoint.2 = Ok checkpoint_receipt) by (vm_compute; reflexivity).
  rewrite <- E. apply surjective_pairing.
Qed.

Lemma checkpoint_stored_and_chained_witness :
  checkpoint_by_hash pushed_checkpoint.1 scope CHECKPOINT_SCHEMA_VERSION (cc_canonical_hash genesis)
  = Ok (Some genesis).
Proof.
  refine (proj1 (checkpoint_stored_and_chained session scope genesis pushed_checkpoint.1
    checkpoint_receipt _ _)).
  - vm_compute. reflexivity.
  - exact pushed_checkpoint_Ok.
Defined.

Lemma device_range_exact_witness :
  exists rows, (pull_device_range (run session) scope Fixture.id 1 9).2 = Ok rows
    /\ ascending (can_device_sequence ∘ rec_operation) rows.
Proof.
  pose proof (device_range_exact session scope Fixture.id 1 9) as Hr.
  rewrite decide_True in Hr by (vm_compute; split; [discriminate|reflexivity]).
  destruct Hr as (rows & E & Ha & _); [vm_compute; (reflexivity || discriminate)..|].
  exists rows. split; [exact E|exact Ha].
Defined.

End MemoryTransportWitness.
