(* ===== verification/Outbox.v ===== *)
(** * The outbox (core/vault/sync.rs)

    The rows of the [outbox] table with the [operations] and [sync_operation_meta]
    rows they join to, and the vault methods that read and change them.  A method
    that runs in a transaction returns the tables unchanged when it fails.  The
    membership log is read only; what the outbox needs of it is [Membership]. *)

From S2P Require Import Prelude Ordering Text Protocol Minicbor CanonicalCbor Domain.
From S2P Require Import SyncPayload Crypto Operation Causal Merge Transport StateSummary.
From S2P Require Import Admission.

#[local] Open Scope N_scope.

Record OutboxRow := {
  ob_queued_at : N;
  ob_attempt_count : N;
  ob_next_attempt_ms : N;
  ob_safe_error_code : option string;
}.

Inductive Direction := Outgoing | Incoming.

(** [sync_operation_meta] *)
Record OperationMeta := {
  meta_account_id : AccountId;
  meta_workspace_id : WorkspaceId;
  meta_device_id : DeviceId;
  meta_device_sequence : N;
  meta_canonical_sha256 : Sha256Digest;
  meta_direction : Direction;
  meta_received_at : option rstr;
}.

Record OutboxTables := {
  tb_operations : gmap OperationId SyncOperationV1;
  tb_meta : gmap OperationId OperationMeta;
  tb_outbox : gmap OperationId OutboxRow;
}.

Record DueOutboxOperation := {
  due_operation_id : OperationId;
  due_canonical_bytes : bytes;
  due_attempt_count : N;
}.

Inductive OutboxUnblockReason :=
| AuthenticationChanged | RevocationChanged | QuotaChanged | ConfigurationChanged.

#[global] Instance Direction_eq_dec : EqDecision Direction.
Proof. solve_decision. Defined.
#[global] Instance OutboxRow_eq_dec : EqDecision OutboxRow.
Proof. solve_decision. Defined.
#[global] Instance DueOutboxOperation_eq_dec : EqDecision DueOutboxOperation.
Proof. solve_decision. Defined.

(** The accepted membership log: its current endpoint ([membership::history]) and
    the check that an operation was made by a current device
    ([membership::require_operation]). *)
Class Membership := {
  history_endpoint : result VaultError (option MembershipEndpoint);
  require_operation : SyncOperationV1 -> option MembershipEndpoint -> result VaultError unit;
}.

(** [ProtocolError::to_string] (protocol/error.rs) *)
Definition ProtocolError_to_string (self : ProtocolError) : string :=
  match self with
  | ProtocolVersionUnsupported => "protocol version unsupported"
  | CheckpointVersionUnsupported => "checkpoint version unsupported"
  | InvalidRequest => "invalid request"
  | FrameTooLarge => "frame too large"
  | ClockExhaustedProtocol => "clock exhausted"
  | InvalidCbor message => "invalid canonical CBOR: " +:+ message
  end.

Definition blocked_code (self : OutboxUnblockReason) : string :=
  match self with
  | AuthenticationChanged => "auth_required"
  | RevocationChanged => "revoked"
  | QuotaChanged => "quota_blocked"
  | ConfigurationChanged => "configuration_error"
  end.

Definition validate_safe_error_code_v1 (code : string) : result VaultError unit :=
  if bool_decide (code ∈ ["offline"; "transient"; "auth_required"; "revoked"; "quota_blocked";
                          "gap_pending"; "integrity_quarantined"; "conflict";
                          "configuration_error"])
  then Ok tt else Err (Validation "unknown safe sync error code").

Definition with_outbox (tables : OutboxTables) (rows : gmap OperationId OutboxRow)
    : OutboxTables := {|
  tb_operations := tb_operations tables; tb_meta := tb_meta tables; tb_outbox := rows |}.

(** [i64::try_from(ms)] *)
Definition sqlite_ms (ms : N) (message : string) : result VaultError N :=
  if ms <=? i64_max then Ok ms else Err (Validation message).

(** ** due_outbox *)

(** The [WHERE] clause; [gated] is [endpoint.is_some()]. *)
Definition is_due (tables : OutboxTables) (now_ms : N) (gated : bool)
    (row : OperationId * OutboxRow) : bool :=
  (ob_next_attempt_ms row.2 <=? now_ms)
  && (negb gated || bool_decide (is_Some (tb_meta tables !! row.1)))
  && match ob_safe_error_code row.2 with
     | None => true
     | Some code => bool_decide (code ∈ ["offline"; "transient"])
     end.

(** [ORDER BY next_attempt_ms, queued_at, operation_id]: identifiers are stored, and
    compared, as hyphenated text. *)
Definition due_key `{UuidCrate} (row : OperationId * OutboxRow) : N * (N * rstr) :=
  (ob_next_attempt_ms row.2, (ob_queued_at row.2, uuid_hyphenated row.1)).

Definition due_rows `{UuidCrate} (tables : OutboxTables) (now_ms : N) (gated : bool)
    : list (OperationId * OutboxRow) :=
  sort_by_key due_key
    (filter (fun row => is_due tables now_ms gated row = true) (map_to_list (tb_outbox tables))).

(** The join with [operations]. *)
Definition join_operation (tables : OutboxTables) (row : OperationId * OutboxRow)
    : option (OperationId * SyncOperationV1 * N) :=
  operation ← tb_operations tables !! row.1; Some (row.1, operation, ob_attempt_count row.2).

Section outbox.
Context `{UuidCrate} `{Minicbor} `{Primitives} `{Membership}.

Definition due_operation (endpoint : option MembershipEndpoint)
    (row : OperationId * SyncOperationV1 * N) : result VaultError DueOutboxOperation :=
  let '(operation_id, operation, attempt_count) := row in
  let? _ := require_operation operation endpoint in
  if negb (bool_decide (op_operation_id operation = operation_id))
  then Err (Validation "outbox operation identity does not match payload") else
  let? canonical_bytes := map_err (fun error => Validation (ProtocolError_to_string error))
                            (encode_sync_operation_v1 operation) in
  if u32_max <? attempt_count then Err (Validation "invalid outbox attempt count") else
  Ok {| due_operation_id := operation_id; due_canonical_bytes := canonical_bytes;
        due_attempt_count := attempt_count |}.

Definition due_outbox (tables : OutboxTables) (now_ms limit : N)
    : result VaultError (list DueOutboxOperation) :=
  if limit =? 0 then Ok [] else
  if i64_max <? limit then Err (Validation "outbox limit exceeds i64") else
  let now_ms := N.min now_ms i64_max in
  let? endpoint := history_endpoint in
  let rows := take (N.to_nat limit)
    (omap (join_operation tables) (due_rows tables now_ms (bool_decide (is_Some endpoint)))) in
  try_map (due_operation endpoint) rows.

(** [stored_sync_operation]: the canonical bytes of a stored operation. *)
Definition stored_operation_bytes (tables : OutboxTables) (operation_id : OperationId)
    : result VaultError (option bytes) :=
  match tb_operations tables !! operation_id with
  | None => Ok None
  | Some operation =>
    let? b := map_err (fun _ => Validation "invalid stored operation")
                (encode_sync_operation_v1 operation) in
    Ok (Some b)
  end.

End outbox.

(** ** Changing the queue *)

Definition acknowledge_outbox (tables : OutboxTables) (accepted : list OperationId)
    : OutboxTables :=
  with_outbox tables (foldl (fun rows id => delete id rows) (tb_outbox tables) accepted).

(** [UPDATE outbox SET attempt_count = attempt_count + 1, next_attempt_ms = ?2,
    safe_error_code = ?3]. *)
Definition defer_row (next_ms : N) (code : string) (row : OutboxRow) : OutboxRow := {|
  ob_queued_at := ob_queued_at row; ob_attempt_count := ob_attempt_count row + 1;
  ob_next_attempt_ms := next_ms; ob_safe_error_code := Some code |}.

Definition defer_outbox (tables : OutboxTables) (ids : list OperationId) (next_ms : N)
    (code : string) : result VaultError OutboxTables :=
  let? _ := validate_safe_error_code_v1 code in
  let? next_ms := sqlite_ms next_ms "outbox retry time exceeds SQLite integer range" in
  Ok (with_outbox tables
        (foldl (fun rows id => alter (defer_row next_ms code) id rows) (tb_outbox tables) ids)).

Definition defer_outbox_individual (tables : OutboxTables) (retries : list (OperationId * N))
    (code : string) : result VaultError OutboxTables :=
  let? _ := validate_safe_error_code_v1 code in
  let? rows := try_fold (fun rows retry =>
      let? next_ms := sqlite_ms retry.2 "outbox retry time exceeds SQLite integer range" in
      Ok (alter (defer_row next_ms code) retry.1 rows)) (tb_outbox tables) retries in
  Ok (with_outbox tables rows).

Definition unblock_row (now_ms : N) (row : OutboxRow) : OutboxRow := {|
  ob_queued_at := ob_queued_at row; ob_attempt_count := ob_attempt_count row;
  ob_next_attempt_ms := now_ms; ob_safe_error_code := None |}.

(** The [WHERE] clause of the scoped update. *)
Definition blocked_in_scope (tables : OutboxTables) (scope : SyncScope) (code : string)
    (id : OperationId) (row : OutboxRow) : bool :=
  bool_decide (ob_safe_error_code row = Some code)
  && match tb_meta tables !! id with
     | None => false
     | Some meta => bool_decide (meta_account_id meta = scope_account_id scope)
                    && bool_decide (meta_workspace_id meta = scope_workspace_id scope)
                    && bool_decide (meta_direction meta = Outgoing)
     end.

Definition unblock_scoped_outbox_after_state_change (tables : OutboxTables) (scope : SyncScope)
    (reason : OutboxUnblockReason) (now_ms : N) : result VaultError (OutboxTables * N) :=
  let? now_ms := sqlite_ms now_ms "outbox unblock time exceeds SQLite integer range" in
  let hit id row := blocked_in_scope tables scope (blocked_code reason) id row in
  Ok (with_outbox tables
        (map_imap (fun id row => Some (if hit id row then unblock_row now_ms row else row))
           (tb_outbox tables)),
      N.of_nat (size (filter (fun ir => hit ir.1 ir.2 = true) (tb_outbox tables)))).

(** One identifier of [unblock_outbox_after_state_change]. *)
Definition unblock_one (now_ms : N) (code : string)
    (state : gmap OperationId OutboxRow * N) (operation_id : OperationId)
    : result VaultError (gmap OperationId OutboxRow * N) :=
  let '(rows, changed) := state in
  let found := (row ← rows !! operation_id; ob_safe_error_code row) in
  if bool_decide (found = Some "integrity_quarantined"%string)
  then Err (Validation "integrity-quarantined outbox rows require forensic recovery") else
  if negb (bool_decide (found = Some code)) then Ok (rows, changed) else
  Ok (alter (unblock_row now_ms) operation_id rows, changed + 1).

Definition unblock_outbox_after_state_change (tables : OutboxTables) (ids : list OperationId)
    (reason : OutboxUnblockReason) (now_ms : N) : result VaultError (OutboxTables * N) :=
  let? now_ms := sqlite_ms now_ms "outbox unblock time exceeds SQLite integer range" in
  if negb (bool_decide (NoDup ids))
  then Err (Validation "outbox unblock operation IDs must be unique") else
  let? (rows, changed) :=
    try_fold (unblock_one now_ms (blocked_code reason)) (tb_outbox tables, 0) ids in
  Ok (with_outbox tables rows, changed).

(** ** Facts *)

Lemma lookup_foldl_delete {A} (l : list OperationId) (rows : gmap OperationId A) id :
  foldl (fun rows id => delete id rows) rows l !! id
  = if decide (id ∈ l) then None else rows !! id.
Proof.
  revert rows. induction l as [|x l IH]; intros rows; cbn [foldl];
    [by destruct (decide (id ∈ [])) as [?%elem_of_nil|]|].
  rewrite IH. destruct (decide (id ∈ l)) as [Hl|Hl].
  - by rewrite decide_True by set_solver.
  - destruct (decide (id = x)) as [->|Hne].
    + rewrite lookup_delete_eq. by rewrite decide_True by set_solver.
    + rewrite lookup_delete_ne by done. by rewrite decide_False by set_solver.
Qed.

Lemma lookup_acknowledge tables accepted id :
  tb_outbox (acknowledge_outbox tables accepted) !! id
  = if decide (id ∈ accepted) then None else tb_outbox tables !! id.
Proof. apply lookup_foldl_delete. Qed.

Lemma lookup_alter_fold (f : OutboxRow -> OutboxRow) (ids : list OperationId)
    (rows : gmap OperationId OutboxRow) (id : OperationId) :
  NoDup ids ->
  foldl (fun rows id => alter f id rows) rows ids !! id
  = if decide (id ∈ ids) then f <$> rows !! id else rows !! id.
Proof.
  intros Hnd. revert rows. induction Hnd as [|x l Hx Hnd IH]; intros rows; cbn [foldl].
  { by destruct (decide (id ∈ [])) as [?%elem_of_nil|]. }
  rewrite IH. destruct (decide (id = x)) as [->|Hne].
  - rewrite decide_False, lookup_alter_eq by done. by rewrite decide_True by set_solver.
  - rewrite lookup_alter_ne by done. destruct (decide (id ∈ l)).
    + by rewrite decide_True by set_solver.
    + by rewrite decide_False by set_solver.
Qed.

Lemma defer_outbox_Ok tables ids next_ms code tables' :
  NoDup ids -> defer_outbox tables ids next_ms code = Ok tables' ->
  next_ms <= i64_max /\ tb_operations tables' = tb_operations tables
  /\ tb_meta tables' = tb_meta tables
  /\ forall id, tb_outbox tables' !! id
       = if decide (id ∈ ids) then defer_row next_ms code <$> tb_outbox tables !! id
         else tb_outbox tables !! id.
Proof.
  intros Hnd E. unfold defer_outbox, sqlite_ms in E. res_inv. subst. wf_inv.
  split_and!; try done. intros id. simpl. by apply lookup_alter_fold.
Qed.

Lemma defer_outbox_individual_Ok tables retries code tables' :
  NoDup retries.*1 -> defer_outbox_individual tables retries code = Ok tables' ->
  tb_operations tables' = tb_operations tables /\ tb_meta tables' = tb_meta tables
  /\ (forall id next, (id, next) ∈ retries ->
        tb_outbox tables' !! id = defer_row next code <$> tb_outbox tables !! id)
  /\ (forall id, id ∉ retries.*1 -> tb_outbox tables' !! id = tb_outbox tables !! id).
Proof.
  intros Hnd E. unfold defer_outbox_individual in E. res_inv. subst tables'.
  match goal with E : try_fold _ _ _ = Ok ?r |- _ => rename E into Ef; rename r into rows end.
  split; [done|]. split; [done|]. cbn [tb_outbox with_outbox].
  revert Hnd Ef. generalize (tb_outbox tables) as rows0.
  induction retries as [|[id0 next0] l IH]; csimpl; intros rows0 Hnd E.
  { simplify_eq. split; [set_solver|done]. }
  apply NoDup_cons in Hnd as [Hx Hnd]. apply rbind_Ok in E as (rows1 & E1 & E).
  unfold sqlite_ms in E1. res_inv. subst. destruct (IH _ Hnd E) as [Hin Hout]. split.
  - intros id next [[= -> ->]|Hin']%elem_of_cons.
    + rewrite Hout by done. by rewrite lookup_alter_eq.
    + rewrite (Hin _ _ Hin'), lookup_alter_ne; [done|]. intros ->. apply Hx.
      apply list_elem_of_fmap. by exists (id, next).
  - intros id Hid. rewrite Hout by set_solver. rewrite lookup_alter_ne by set_solver. done.
Qed.

Section facts.
Context `{UuidCrate} `{Minicbor} `{Primitives} `{Membership}.

(** What a due operation stands for. *)
Definition due_for (tables : OutboxTables) (due : DueOutboxOperation) : Prop :=
  exists row op, tb_outbox tables !! due_operation_id due = Some row
    /\ tb_operations tables !! due_operation_id due = Some op
    /\ op_operation_id op = due_operation_id due
    /\ encode_sync_operation_v1 op = Ok (due_canonical_bytes due)
    /\ ob_attempt_count row = due_attempt_count due /\ due_attempt_count due <= u32_max.

Lemma due_rows_spec tables now_ms gated id row :
  (id, row) ∈ due_rows tables now_ms gated <->
  tb_outbox tables !! id = Some row /\ is_due tables now_ms gated (id, row) = true.
Proof.
  unfold due_rows. rewrite sort_by_key_perm, list_elem_of_filter, elem_of_map_to_list. naive_solver.
Qed.

Lemma due_rows_NoDup tables now_ms gated : NoDup (due_rows tables now_ms gated).*1.
Proof.
  unfold due_rows. rewrite sort_by_key_perm. eapply sublist_NoDup; [exact (NoDup_fst_map_to_list (tb_outbox tables))|].
  apply fmap_sublist, sublist_filter.
Qed.

Lemma join_ids tables rows :
  (omap (join_operation tables) rows).*1.*1 `sublist_of` rows.*1.
Proof.
  induction rows as [|[id row] rows IH]; [done|]. csimpl. unfold join_operation at 1. simpl.
  destruct (tb_operations tables !! id); simpl; by constructor.
Qed.

Lemma due_outbox_Ok tables now_ms limit due :
  due_outbox tables now_ms limit = Ok due ->
  Forall (due_for tables) due /\ NoDup (due_operation_id <$> due) /\ len due <= limit.
Proof.
  unfold due_outbox. destruct (N.eqb_spec limit 0) as [->|Hl].
  { intros [= <-]. split_and!; [constructor|constructor|done]. }
  intros E. res_inv. rename H3 into Hh.
  match goal with E : try_map _ (take _ (omap _ (due_rows _ ?n ?g))) = Ok _ |- _ =>
    set (now' := n) in E; set (gated := g) in E end.
  apply try_map_Ok in E. set (rows := due_rows tables now' gated) in *.
  assert (Hids : due_operation_id <$> due = (take (N.to_nat limit) (omap (join_operation tables) rows)).*1.*1).
  { clear -E. induction E as [|[[id op] n] d l due Hd _ IH]; [done|]. csimpl. rewrite <- IH. f_equal.
    unfold due_operation in Hd. res_inv. by subst. }
  split_and!.
  - apply Forall_forall. intros d [i Hi]%list_elem_of_lookup.
    destruct (Forall2_lookup_r _ _ _ _ _ E Hi) as ([[id op] n] & Hrow & Hd).
    assert (Hin : (id, op, n) ∈ omap (join_operation tables) rows).
    { eapply sublist_subseteq; [apply sublist_take|]. apply list_elem_of_lookup. eauto. }
    apply list_elem_of_omap in Hin as ([id' row] & Hr & Hj).
    apply due_rows_spec in Hr as [Hr _]. unfold join_operation in Hj. simpl in Hj.
    destruct (tb_operations tables !! id') as [op'|] eqn:Eo; simplify_eq/=.
    unfold due_operation in Hd. res_inv. wf_inv. subst d. exists row, op. split_and!; done.
  - rewrite Hids. eapply sublist_NoDup; [apply (due_rows_NoDup tables now' gated)|].
    etrans; [|apply join_ids]. do 2 apply fmap_sublist. apply sublist_take.
  - apply Forall2_length in E. unfold len. rewrite <- E, length_take. lia.
Qed.

End facts.

(** ** Properties *)

Section due.
Context `{UuidCrate} `{Minicbor} `{Primitives} `{Membership}.

Lemma omap_join_sorted tables rows :
  StronglySorted (fun a b => leb (due_key a) (due_key b) = true) rows ->
  forall k id op n row, (id, op, n) ∈ take k (omap (join_operation tables) rows) ->
  (id, row) ∈ rows -> NoDup rows.*1 -> forall id' row' op', (id', row') ∈ rows ->
  tb_operations tables !! id' = Some op' ->
  (exists n', (id', op', n') ∈ take k (omap (join_operation tables) rows))
  \/ leb (due_key (id, row)) (due_key (id', row')) = true.
Proof.
  induction 1 as [|[i r] rows Hs IH Hall]; intros k id op n row Hin Hr Hnd id' row' op' Hr' Ho'.
  { by apply elem_of_nil in Hr. }
  csimpl in Hnd. apply NoDup_cons in Hnd as [Hi Hnd]. rewrite Forall_forall in Hall.
  assert (Hnew : forall j q, (j, q) ∈ rows -> j <> i).
  { intros j q Hj ->. apply Hi. apply list_elem_of_fmap. by exists (i, q). }
  apply elem_of_cons in Hr as [[= -> ->]|Hr].
  { right. apply elem_of_cons in Hr' as [[= -> ->]|Hr']; [apply leb_refl|]. by apply (Hall (id', row')). }
  csimpl. csimpl in Hin. unfold join_operation at 1 in Hin. unfold join_operation at 1.
  cbn [fst snd] in *. apply elem_of_cons in Hr' as [[= -> ->]|Hr'].
  - rewrite Ho' in Hin |- *. cbn [mbind option_bind] in *. left. destruct k; [by apply elem_of_nil in Hin|].
    eexists. simpl. by left.
  - destruct (tb_operations tables !! i) as [oi|] eqn:Ei; cbn [mbind option_bind] in *.
    + destruct k as [|k]; [by apply elem_of_nil in Hin|]. simpl in Hin.
      apply elem_of_cons in Hin as [[= -> -> ->]|Hin]; [by destruct (Hnew _ _ Hr)|].
      destruct (IH k id op n row Hin Hr Hnd id' row' op' Hr' Ho') as [[n' ?]|?]; [left|by right].
      exists n'. simpl. by right.
    + by apply (IH k id op n row).
Qed.

(** The rows behind a successful query. *)
Lemma due_outbox_rows tables now_ms limit due endpoint :
  0 < limit -> history_endpoint = Ok endpoint -> due_outbox tables now_ms limit = Ok due ->
  let gated := bool_decide (is_Some endpoint) in
  Forall2 (fun row d => due_operation endpoint row = Ok d)
    (take (N.to_nat limit)
       (omap (join_operation tables) (due_rows tables (N.min now_ms i64_max) gated))) due.
Proof.
  intros Hl He. unfold due_outbox. rewrite (proj2 (N.eqb_neq _ _)) by lia. rewrite He. cbn [rbind].
  destruct (_ <? _); [done|]. intros E%try_map_Ok. exact E.
Qed.

Lemma due_operation_id_of endpoint id op n d :
  due_operation endpoint (id, op, n) = Ok d -> due_operation_id d = id.
Proof. unfold due_operation. intros E. res_inv. by subst. Qed.

(** The outbox hands out due work first come first served: a successful query
    returns at most [limit] queued operations, each once, with its canonical bytes,
    and only rows whose retry time has come and that are not blocked; a due row is
    left out only when the limit is reached by rows that come before it. *)
Theorem due_outbox_exact tables now_ms limit due endpoint :
  0 < limit -> history_endpoint = Ok endpoint -> due_outbox tables now_ms limit = Ok due ->
  let due_row id row := tb_outbox tables !! id = Some row
    /\ is_due tables (N.min now_ms i64_max) (bool_decide (is_Some endpoint)) (id, row) = true in
  Forall (fun d => due_for tables d /\ exists row, due_row (due_operation_id d) row) due
  /\ NoDup (due_operation_id <$> due) /\ len due <= limit
  /\ forall id row op, due_row id row -> tb_operations tables !! id = Some op ->
       id ∉ due_operation_id <$> due ->
       len due = limit /\ forall d row', d ∈ due -> tb_outbox tables !! due_operation_id d = Some row' ->
         leb (due_key (due_operation_id d, row')) (due_key (id, row)) = true.
Proof.
  intros Hl He E due_row. destruct (due_outbox_Ok _ _ _ _ E) as (Hfor & Hnd & Hlen).
  pose proof (due_outbox_rows _ _ _ _ _ Hl He E) as Hrows. cbv zeta in Hrows.
  set (rows := due_rows tables _ _) in Hrows. set (k := N.to_nat limit) in Hrows.
  assert (Hback : forall d, d ∈ due -> exists op n,
    (due_operation_id d, op, n) ∈ take k (omap (join_operation tables) rows)).
  { intros d [i Hi]%list_elem_of_lookup.
    destruct (Forall2_lookup_r _ _ _ _ _ Hrows Hi) as ([[id op] n] & Hr & Hd).
    apply due_operation_id_of in Hd as ->. exists op, n. apply list_elem_of_lookup. eauto. }
  assert (Hrow : forall d, d ∈ due -> exists row, (due_operation_id d, row) ∈ rows).
  { intros d (op & n & Hin)%Hback. eapply sublist_subseteq in Hin; [|apply sublist_take].
    apply list_elem_of_omap in Hin as ([id row] & Hr & Hj). unfold join_operation in Hj. simpl in Hj.
    destruct (tb_operations tables !! id); simplify_eq/=. eauto. }
  split_and!; [|done|done|].
  - rewrite Forall_forall in Hfor |- *. intros d Hd. split; [by apply Hfor|].
    destruct (Hrow d Hd) as [row Hr]. exists row. by apply due_rows_spec in Hr.
  - intros id row op Hdue Ho Hnin. apply due_rows_spec in Hdue. fold rows in Hdue.
    assert (Hout : forall n, (id, op, n) ∉ take k (omap (join_operation tables) rows)).
    { intros n [i Hi]%list_elem_of_lookup. destruct (Forall2_lookup_l _ _ _ _ _ Hrows Hi) as (d & Hd & Eq).
      apply Hnin. apply due_operation_id_of in Eq as <-. apply list_elem_of_fmap_2. apply list_elem_of_lookup. eauto. }
    split.
    + apply Forall2_length in Hrows. unfold len. rewrite <- Hrows, length_take.
      destruct (decide (k <= length (omap (join_operation tables) rows))%nat) as [|Hk]; [lia|].
      exfalso. apply (Hout (ob_attempt_count row)). rewrite take_ge by lia. apply list_elem_of_omap.
      exists (id, row). split; [done|]. unfold join_operation. simpl. by rewrite Ho.
    + intros d row' Hd Hr'. destruct (Hback d Hd) as (op' & n' & Hin).
      destruct (Hrow d Hd) as [row2 Hr2]. pose proof Hr2 as [Hl2 _]%due_rows_spec.
      assert (row2 = row') as -> by congruence.
      destruct (omap_join_sorted tables rows (sort_by_key_sorted _ _) k _ op' n' row' Hin Hr2
        (due_rows_NoDup _ _ _) id row op Hdue Ho) as [[n Hn]|]; [by apply Hout in Hn|done].
Qed.

End due.

Definition code_of (rows : gmap OperationId OutboxRow) (id : OperationId) : option string :=
  row ← rows !! id; ob_safe_error_code row.

(** What unblocking for a reason does to a row. *)
Definition resumed (ids : list OperationId) (code : string) (now_ms : N) (id : OperationId)
    (row : OutboxRow) : OutboxRow :=
  if decide (id ∈ ids /\ ob_safe_error_code row = Some code) then unblock_row now_ms row else row.

Lemma filter_ext_elem {A} (P Q : A -> Prop) `{forall x, Decision (P x), forall x, Decision (Q x)}
    (l : list A) :
  (forall x, x ∈ l -> P x <-> Q x) -> filter P l = filter Q l.
Proof.
  induction l as [|x l IH]; intros Hl; [done|]. rewrite !filter_cons, IH by set_solver.
  destruct (Hl x ltac:(set_solver)). repeat case_decide; naive_solver.
Qed.

Lemma unblock_fold now_ms code ids rows changed :
  NoDup ids ->
  match try_fold (unblock_one now_ms code) (rows, changed) ids with
  | Ok (rows', changed') =>
      (forall id, rows' !! id = resumed ids code now_ms id <$> rows !! id)
      /\ Forall (fun id => code_of rows id <> Some "integrity_quarantined"%string) ids
      /\ changed' = changed + len (filter (fun id => code_of rows id = Some code) ids)
  | Err _ => Exists (fun id => code_of rows id = Some "integrity_quarantined"%string) ids
  end.
Proof.
  intros Hnd. revert rows changed. induction Hnd as [|x l Hx Hnd IH]; intros rows changed.
  { cbn [try_fold]. split; [|split; [by apply Forall_nil|rewrite filter_nil, len_nil; lia]].
    intros id. unfold resumed. destruct (rows !! id) as [row|]; [|done]. cbn [fmap option_fmap option_map].
    by rewrite decide_False by set_solver. }
  cbn [try_fold]. unfold unblock_one at 1. fold (code_of rows x).
  destruct (decide (code_of rows x = Some "integrity_quarantined"%string)) as [Hq|Hq].
  { rewrite bool_decide_eq_true_2 by done. simpl. by left. }
  rewrite bool_decide_eq_false_2 by done.
  destruct (decide (code_of rows x = Some code)) as [Hc|Hc].
  - rewrite bool_decide_eq_true_2 by done. cbn [negb rbind].
    specialize (IH (alter (unblock_row now_ms) x rows) (changed + 1)).
    assert (Hsame : forall id, id ∈ l -> code_of (alter (unblock_row now_ms) x rows) id = code_of rows id).
    { intros id Hid. unfold code_of. rewrite lookup_alter_ne; [done|]. by intros ->. }
    destruct (try_fold _ _ l) as [[rows' changed']|].
    + destruct IH as (Hrows & Hall & Hn). split_and!.
      * intros id. rewrite Hrows. destruct (decide (id = x)) as [->|Hne].
        -- rewrite lookup_alter_eq. unfold code_of in Hc. destruct (rows !! x) as [row|]; [|done].
           simpl in Hc |- *. unfold resumed. rewrite decide_False by naive_solver.
           by rewrite decide_True by set_solver.
        -- rewrite lookup_alter_ne by done. unfold resumed. destruct (rows !! id); [|done]. simpl.
           f_equal. apply decide_ext. set_solver.
      * constructor; [done|]. rewrite Forall_forall in Hall |- *. intros id Hid. rewrite <- Hsame by done.
        by apply Hall.
      * rewrite Hn, filter_cons, decide_True, len_cons by done.
        rewrite (filter_ext_elem _ (fun id => code_of rows id = Some code)); [lia|].
        intros id Hid. by rewrite Hsame.
    + right. rewrite Exists_exists in IH |- *. destruct IH as (id & Hid & E). exists id.
      by rewrite <- Hsame.
  - rewrite bool_decide_eq_false_2 by done. cbn [negb rbind]. specialize (IH rows changed).
    destruct (try_fold _ _ l) as [[rows' changed']|]; [|by right].
    destruct IH as (Hrows & Hall & ->). split_and!.
    + intros id. rewrite Hrows. unfold resumed. destruct (rows !! id) as [row|] eqn:E; [|done]. simpl.
      f_equal. apply decide_ext. split; [set_solver|]. intros [[->|?]%elem_of_cons Hr]; [|done].
      exfalso. apply Hc. unfold code_of. by rewrite E.
    + by constructor.
    + by rewrite filter_cons, decide_False.
Qed.

(** Unblocking resumes only rows blocked for the given reason: every other row, a
    quarantined one in particular, keeps its code, retry time and attempt count; the
    count returned is the number of rows resumed.  It is refused, changing nothing,
    exactly when a listed row is quarantined, an identifier is repeated or the time
    does not fit the column. *)
Theorem unblock_resumes_only_its_reason tables ids reason now_ms :
  match unblock_outbox_after_state_change tables ids reason now_ms with
  | Ok (tables', changed) =>
      now_ms <= i64_max /\ NoDup ids
      /\ Forall (fun id => code_of (tb_outbox tables) id <> Some "integrity_quarantined"%string) ids
      /\ (forall id, tb_outbox tables' !! id
            = resumed ids (blocked_code reason) now_ms id <$> tb_outbox tables !! id)
      /\ changed = len (filter (fun id => code_of (tb_outbox tables) id = Some (blocked_code reason)) ids)
  | Err _ => i64_max < now_ms \/ ~ NoDup ids
      \/ Exists (fun id => code_of (tb_outbox tables) id = Some "integrity_quarantined"%string) ids
  end.
Proof.
  unfold unblock_outbox_after_state_change, sqlite_ms.
  destruct (N.leb_spec now_ms i64_max) as [Hms|Hms]; [|by left]. cbn [rbind].
  case_bool_decide as Hnd; cbn [negb]; [|auto].
  pose proof (unblock_fold now_ms (blocked_code reason) ids (tb_outbox tables) 0 Hnd) as Hf.
  destruct (try_fold _ _ ids) as [[rows changed]|]; cbn [rbind]; [|auto].
  destruct Hf as (? & ? & ->). split_and!; try done.
Qed.

(** ** The changes of the queue *)

Inductive queue_step (q : OutboxTables) : OutboxTables -> Prop :=
| queue_acknowledge accepted : queue_step q (acknowledge_outbox q accepted)
| queue_defer ids next_ms code q' :
    defer_outbox q ids next_ms code = Ok q' -> queue_step q q'
| queue_defer_individual retries code q' :
    defer_outbox_individual q retries code = Ok q' -> queue_step q q'
| queue_unblock ids reason now_ms q' n :
    unblock_outbox_after_state_change q ids reason now_ms = Ok (q', n) -> queue_step q q'
| queue_unblock_scoped scope reason now_ms q' n :
    unblock_scoped_outbox_after_state_change q scope reason now_ms = Ok (q', n) -> queue_step q q'.

Definition shrinks (rows rows' : gmap OperationId OutboxRow) : Prop :=
  forall id, is_Some (rows' !! id) -> is_Some (rows !! id).

Lemma shrinks_alter f id rows : shrinks rows (alter f id rows).
Proof. intros i. by rewrite lookup_alter_is_Some. Qed.

Lemma shrinks_foldl {A : Type} (f : gmap OperationId OutboxRow -> A -> gmap OperationId OutboxRow) l rows :
  (forall rows x, shrinks rows (f rows x)) -> shrinks rows (foldl f rows l).
Proof.
  intros Hf. revert rows. induction l as [|x l IH]; intros rows id; [done|].
  cbn. intros ?%IH. by eapply Hf.
Qed.

Lemma shrinks_try_fold {X A S : Type} (proj : S -> gmap OperationId OutboxRow) (f : S -> A -> result X S) l s s' :
  (forall s x s', f s x = Ok s' -> shrinks (proj s) (proj s')) ->
  try_fold f s l = Ok s' -> shrinks (proj s) (proj s').
Proof.
  intros Hf. revert s. induction l as [|x l IH]; cbn [try_fold]; intros s Ho.
  { injection Ho as <-. by intros id. }
  apply rbind_Ok in Ho as (s1 & Hs1%Hf & Ho%IH). intros id ?%Ho. by apply Hs1.
Qed.

Lemma queue_step_shrinks q q' :
  queue_step q q' ->
  tb_operations q' = tb_operations q /\ tb_meta q' = tb_meta q /\ shrinks (tb_outbox q) (tb_outbox q').
Proof.
  intros [accepted|ids next_ms code q2 Ho|retries code q2 Ho|ids reason now_ms q2 n Ho
         |scope reason now_ms q2 n Ho].
  - split_and!; try done. apply shrinks_foldl. intros rows x id. rewrite lookup_delete_is_Some. tauto.
  - unfold defer_outbox in Ho. res_inv. subst. split_and!; try done.
    apply shrinks_foldl. intros rows i. apply shrinks_alter.
  - unfold defer_outbox_individual in Ho. res_inv. subst. split_and!; try done.
    eapply (shrinks_try_fold (fun rows => rows)); [|done]. cbn. intros s1 i s2 Hx. res_inv. subst.
    apply shrinks_alter.
  - unfold unblock_outbox_after_state_change in Ho. apply rbind_Ok in Ho as (ms & _ & Ho). res_inv.
    match goal with Ho : (let '(_, _) := ?x in _) = Ok _ |- _ => destruct x; injection Ho as <- <- end.
    split_and!; try done.
    match goal with Hf : try_fold _ _ _ = _ |- _ => apply (shrinks_try_fold fst) in Hf; [done|] end.
    intros [rows c] x [rows' c']. unfold unblock_one. intros Hx.
    repeat case_bool_decide; cbn [negb] in Hx; simplify_eq; (apply shrinks_alter || by intros ?).
  - unfold unblock_scoped_outbox_after_state_change in Ho. res_inv. simplify_eq.
    split_and!; try done. intros id. cbn. rewrite map_lookup_imap.
    destruct (tb_outbox q !! id); [by eexists|by intros [? ?]].
Qed.

Module OutboxWitness.
#[local] Existing Instances rfc9562 Rfc8949.codec Rfc8949.codec_laws Toy.toy.

(** A vault that has not enrolled: no membership log. *)
Definition unenrolled : Membership :=
  {| history_endpoint := Ok None; require_operation _ _ := Ok tt |}.
#[local] Existing Instance unenrolled.

Definition row (next_ms : N) (code : option string) : OutboxRow :=
  {| ob_queued_at := 5; ob_attempt_count := 2; ob_next_attempt_ms := next_ms;
     ob_safe_error_code := code |}.

Definition tables : OutboxTables := {|
  tb_operations := {[ Fixture.id := Fixture.operation ]};
  tb_meta := ∅;
  tb_outbox := {[ Fixture.id := row 10 (Some "transient"%string) ]} |}.

Definition due : DueOutboxOperation := {|
  due_operation_id := Fixture.id;
  due_canonical_bytes :=
    match encode_sync_operation_v1 Fixture.operation with Ok b => b | Err _ => [] end;
  due_attempt_count := 2 |}.

Lemma due_outbox_exact_witness : due_outbox tables 10 256 = Ok [due] /\ due_for tables due.
Proof.
  split; [vm_compute; reflexivity|].
  pose proof (proj1 (due_outbox_exact tables 10 256 [due] None eq_refl eq_refl
    ltac:(vm_compute; reflexivity))) as Hf.
  exact (proj1 (proj1 (proj1 (Forall_cons _ _ _) Hf))).
Defined.

Example due_not_yet : due_outbox tables 9 256 = Ok [].
Proof. vm_compute. reflexivity. Qed.

End OutboxWitness.
