(* ===== verification/EnginePush.v ===== *)
(** * Pushing the outbox (core/sync/engine.rs)

    The push half of a sync cycle: selecting a bounded batch of due operations,
    sending it, and acknowledging or deferring the rows by the outcome.  The
    vault is the outbox tables of [Outbox]; the transport is an interface whose law
    the in-memory transport satisfies. *)

From S2P Require Import Prelude Ordering BTree Text Protocol Minicbor CanonicalCbor Domain.
From S2P Require Import SyncPayload Crypto Operation Causal Merge Transport StateSummary.
From S2P Require Import Admission MemoryTransport Outbox.

#[local] Open Scope N_scope.

Definition MAX_BATCH : N := 256.
Definition DEFAULT_MAX_OPERATIONS : N := 1024.
Definition MAX_REQUEST_BYTES : N := 8 * 1024 * 1024.
Definition DEFAULT_MAX_BYTES : N := MAX_REQUEST_BYTES.
Definition PERMANENT_RETRY_MS : N := i64_max.

(** [SyncCycleError] is a safe code. *)
Record SyncCycleError := { cycle_safe_code : string }.

Record SyncCycleReport := {
  rep_pushed : N;
  rep_duplicates : N;
  rep_pulled : N;
  rep_applied : N;
  rep_conflicts : N;
  rep_quarantined : N;
  rep_gaps_repaired : N;
  rep_checkpointed : bool;
  rep_more_work : bool;
}.

Definition SyncCycleReport_empty : SyncCycleReport := {|
  rep_pushed := 0; rep_duplicates := 0; rep_pulled := 0; rep_applied := 0; rep_conflicts := 0;
  rep_quarantined := 0; rep_gaps_repaired := 0; rep_checkpointed := false;
  rep_more_work := false |}.

Inductive SyncProvider := Memory | Supabase.

Definition provider_as_str (self : SyncProvider) : string :=
  match self with Memory => "memory" | Supabase => "supabase" end.

#[global] Instance SyncProvider_eq_dec : EqDecision SyncProvider.
Proof. solve_decision. Defined.
#[global] Instance SyncCycleError_eq_dec : EqDecision SyncCycleError.
Proof. solve_decision. Defined.

(** [retry_random] is the [RetryRandomSource]. *)
Record SyncEngine := {
  eng_scope : SyncScope;
  eng_provider : SyncProvider;
  eng_max_operations : N;
  eng_max_bytes : N;
  eng_backoff_policy : BackoffPolicy;
  eng_retry_random : OperationId -> N -> N;
}.

Record PreparedPush := {
  pp_scope : SyncScope;
  pp_provider : SyncProvider;
  pp_due : list DueOutboxOperation;
  pp_operations : list CanonicalOperation;
  pp_more_work : bool;
}.

Definition cycle_error (code : string) : SyncCycleError := {| cycle_safe_code := code |}.
Definition transport_error (error : TransportError) : SyncCycleError :=
  cycle_error (transport_safe_code error).
Definition local_error (error : VaultError) : SyncCycleError := cycle_error "transient".

(** [with_max_operations], [with_max_bytes]. *)
Definition with_max_operations (self : SyncEngine) (max_operations : N) : SyncEngine := {|
  eng_scope := eng_scope self; eng_provider := eng_provider self;
  eng_max_operations := N.max max_operations 1; eng_max_bytes := eng_max_bytes self;
  eng_backoff_policy := eng_backoff_policy self; eng_retry_random := eng_retry_random self |}.

Definition with_max_bytes (self : SyncEngine) (max_bytes : N) : SyncEngine := {|
  eng_scope := eng_scope self; eng_provider := eng_provider self;
  eng_max_operations := eng_max_operations self;
  eng_max_bytes := N.min (N.max max_bytes MAX_CBOR_OPERATION_BYTES) MAX_REQUEST_BYTES;
  eng_backoff_policy := eng_backoff_policy self; eng_retry_random := eng_retry_random self |}.

Definition SyncEngine_new (scope : SyncScope) (provider : SyncProvider)
    (retry_random : OperationId -> N -> N) : SyncEngine := {|
  eng_scope := scope; eng_provider := provider; eng_max_operations := DEFAULT_MAX_OPERATIONS;
  eng_max_bytes := DEFAULT_MAX_BYTES; eng_backoff_policy := BackoffPolicy_DEFAULT;
  eng_retry_random := retry_random |}.

(** A vault method that fails has rolled back. *)
Definition local (tables : OutboxTables) (r : result VaultError OutboxTables)
    : OutboxTables * result SyncCycleError unit :=
  match r with
  | Ok tables' => (tables', Ok tt)
  | Err e => (tables, Err (local_error e))
  end.

Definition defer (tables : OutboxTables) (ids : list OperationId) (next_ms : N) (code : string)
    : OutboxTables * result SyncCycleError unit :=
  local tables (defer_outbox tables ids next_ms code).

(** ** validate_receipt *)

Definition validate_receipt (expected accepted duplicates : list OperationId)
    : result SyncCycleError (list OperationId) :=
  if negb (bool_decide (NoDup expected)) then Err (cycle_error "configuration_error") else
  let? acknowledged := try_fold (fun acknowledged operation_id =>
      if negb (bool_decide (operation_id ∈ expected)) || bool_decide (operation_id ∈ acknowledged)
      then Err (cycle_error "configuration_error")
      else Ok (operation_id :: acknowledged)) [] (accepted ++ duplicates) in
  let acknowledged := sort_by_key id acknowledged in
  if negb (bool_decide (acknowledged = sort_by_key id expected))
  then Err (cycle_error "configuration_error") else Ok acknowledged.

Section push.
Context `{UuidCrate} `{Minicbor} `{Primitives} `{Membership}.

(** ** prepare_push *)

(** The checks on one due row: the new byte total and the row to send, or the code
    the row is refused with. *)
Definition check_row (self : SyncEngine) (total_bytes : N) (row : DueOutboxOperation)
    : result string (N * CanonicalOperation) :=
  let? next_total := ok_or (checked_add usize_max total_bytes (len (due_canonical_bytes row)))
                       "configuration_error"%string in
  if (eng_max_bytes self <? next_total) || (MAX_REQUEST_BYTES <? next_total)
  then Err "configuration_error"%string else
  let? operation := map_err (fun _ => "integrity_quarantined"%string)
                      (decode_sync_operation_v1 (due_canonical_bytes row)) in
  let? canonical := map_err (fun _ => "integrity_quarantined"%string)
                      (encode_sync_operation_v1 operation) in
  if negb (bool_decide (canonical = due_canonical_bytes row))
     || negb (bool_decide (op_operation_id operation = due_operation_id row))
     || negb (bool_decide (op_account_id operation = scope_account_id (eng_scope self)))
     || negb (bool_decide (op_workspace_id operation = scope_workspace_id (eng_scope self)))
  then Err "integrity_quarantined"%string else
  Ok (next_total,
      {| can_operation_id := op_operation_id operation; can_device_id := op_device_id operation;
         can_device_sequence := op_device_sequence operation; can_bytes := canonical |}).

(** The loop: a row that is refused ends the batch, or fails the push when it is the
    first. *)
Fixpoint select_batch (self : SyncEngine) (batch : list CanonicalOperation) (total_bytes : N)
    (due : list DueOutboxOperation)
    : result (OperationId * string) (list CanonicalOperation * bool) :=
  match due with
  | [] => Ok (batch, false)
  | row :: due' =>
    match check_row self total_bytes row with
    | Err code => if bool_decide (batch = []) then Err (due_operation_id row, code)
                  else Ok (batch, true)
    | Ok (next_total, operation) => select_batch self (batch ++ [operation]) next_total due'
    end
  end.

Definition prepare_push (self : SyncEngine) (tables : OutboxTables) (now_ms : N)
    : OutboxTables * result SyncCycleError (option PreparedPush) :=
  match due_outbox tables now_ms MAX_BATCH with
  | Err e => (tables, Err (local_error e))
  | Ok [] => (tables, Ok None)
  | Ok due =>
    match select_batch self [] 0 due with
    | Err (operation_id, code) =>
      let '(tables, deferred) := defer tables [operation_id] PERMANENT_RETRY_MS code in
      (tables, let? _ := deferred in Err (cycle_error code))
    | Ok (batch, cut) =>
      (tables, Ok (Some {|
         pp_scope := eng_scope self; pp_provider := eng_provider self;
         pp_due := take (length batch) due; pp_operations := batch;
         pp_more_work := (len due =? MAX_BATCH) || cut |}))
    end
  end.

(** ** finish_push *)

Definition retry_of (self : SyncEngine) (now_ms : N) (row : DueOutboxOperation) : OperationId * N :=
  let random := eng_retry_random self (due_operation_id row) (due_attempt_count row) in
  let delay := next_delay (eng_backoff_policy self) (due_attempt_count row) random in
  (due_operation_id row, N.min (saturating_add u64_max now_ms delay) PERMANENT_RETRY_MS).

Definition defer_transport_failure (self : SyncEngine) (tables : OutboxTables)
    (due : list DueOutboxOperation) (now_ms : N) (error : TransportError)
    : OutboxTables * result SyncCycleError unit :=
  if negb (is_retryable error) then
    defer tables (due_operation_id <$> due) PERMANENT_RETRY_MS (transport_safe_code error)
  else if is_err (BackoffPolicy_validate (eng_backoff_policy self)) then
    let '(tables, deferred) :=
      defer tables (due_operation_id <$> due) PERMANENT_RETRY_MS "configuration_error" in
    (tables, let? _ := deferred in Err (cycle_error "configuration_error"))
  else
    local tables (defer_outbox_individual tables (retry_of self now_ms <$> due)
                    (transport_safe_code error)).

(** The stored bytes of an operation are still those that were prepared. *)
Definition still_stored (tables : OutboxTables) (operation : CanonicalOperation)
    : result SyncCycleError unit :=
  let? stored := map_err local_error (stored_operation_bytes tables (can_operation_id operation)) in
  if bool_decide (stored = Some (can_bytes operation)) then Ok tt
  else Err (cycle_error "integrity_quarantined").

Definition finish_push (self : SyncEngine) (tables : OutboxTables) (prepared : PreparedPush)
    (response : result TransportError PushReceipt) (now_ms : N)
    : OutboxTables * result SyncCycleError SyncCycleReport :=
  if negb (bool_decide (pp_scope prepared = eng_scope self))
     || negb (bool_decide (pp_provider prepared = eng_provider self))
  then (tables, Err (cycle_error "integrity_quarantined")) else
  match try_for_each (still_stored tables) (pp_operations prepared) with
  | Err e => (tables, Err e)
  | Ok _ =>
    let ids := can_operation_id <$> pp_operations prepared in
    match response with
    | Err error =>
      let '(tables, deferred) := defer_transport_failure self tables (pp_due prepared) now_ms error in
      (tables, let? _ := deferred in Err (transport_error error))
    | Ok receipt =>
      match validate_receipt ids (push_accepted receipt) (push_duplicates receipt) with
      | Err error =>
        let '(tables, deferred) := defer tables ids PERMANENT_RETRY_MS (cycle_safe_code error) in
        (tables, let? _ := deferred in Err error)
      | Ok acknowledged =>
        let tables := acknowledge_outbox tables acknowledged in
        (tables,
         let? due := map_err local_error (due_outbox tables now_ms 1) in
         Ok {| rep_pushed := len (push_accepted receipt);
               rep_duplicates := len (push_duplicates receipt);
               rep_pulled := 0; rep_applied := 0; rep_conflicts := 0; rep_quarantined := 0;
               rep_gaps_repaired := 0; rep_checkpointed := false;
               rep_more_work := pp_more_work prepared || negb (bool_decide (due = [])) |})
      end
    end
  end.

(** ** push_due *)

(** The push method of the [SyncTransport] trait. *)
Class PushTransport (T : Type) := {
  transport_push :
    T -> SyncScope -> list CanonicalOperation -> T * result TransportError PushReceipt;
}.

(** What a transport promises its clients: an invariant of its own, kept by every
    push; and a set of operations it holds in each scope, which a push never shrinks
    and which contains the operations of the batch that a receipt names as accepted or as
    duplicates.  Of the others a receipt leaves out, nothing is assumed. *)
Class PushTransportLaws (T : Type) `{PushTransport T} := {
  transport_ok : T -> Prop;
  transport_holds : T -> SyncScope -> CanonicalOperation -> Prop;
  push_keeps_ok : forall t scope batch,
    transport_ok t -> transport_ok (transport_push t scope batch).1;
  push_keeps_held : forall t scope batch o,
    transport_ok t -> transport_holds t scope o ->
    transport_holds (transport_push t scope batch).1 scope o;
  push_holds_named : forall t scope batch receipt o,
    transport_ok t -> (transport_push t scope batch).2 = Ok receipt -> o ∈ batch ->
    can_operation_id o ∈ push_accepted receipt ++ push_duplicates receipt ->
    transport_holds (transport_push t scope batch).1 scope o;
}.

Definition push_due {T} `{PushTransport T} (self : SyncEngine) (tables : OutboxTables)
    (transport : T) (now_ms : N) (report : SyncCycleReport)
    : OutboxTables * T * result SyncCycleError SyncCycleReport :=
  match prepare_push self tables now_ms with
  | (tables, Err e) => (tables, transport, Err e)
  | (tables, Ok None) => (tables, transport, Ok report)
  | (tables, Ok (Some prepared)) =>
    let '(transport, response) :=
      transport_push transport (pp_scope prepared) (pp_operations prepared) in
    let '(tables, finished) := finish_push self tables prepared response now_ms in
    (tables, transport,
     let? finished := finished in
     Ok {| rep_pushed := rep_pushed report + rep_pushed finished;
           rep_duplicates := rep_duplicates report + rep_duplicates finished;
           rep_pulled := rep_pulled report; rep_applied := rep_applied report;
           rep_conflicts := rep_conflicts report; rep_quarantined := rep_quarantined report;
           rep_gaps_repaired := rep_gaps_repaired report;
           rep_checkpointed := rep_checkpointed report;
           rep_more_work := rep_more_work report || rep_more_work finished |})
  end.

End push.

(** The in-memory transport keeps the promise. *)
Section memory.
Context `{UuidCrate} `{MinicborLaws} `{Primitives}.

#[export] Instance memory_push : PushTransport InMemoryTransport :=
  {| transport_push := push_operations |}.

Definition memory_holds (t : InMemoryTransport) (scope : SyncScope) (o : CanonicalOperation)
    : Prop := st_by_id (store_of t scope) !! can_operation_id o = Some o.

Lemma memory_holds_row t scope o :
  transport_inv t -> memory_holds t scope o <-> o ∈ (st_operations (store_of t scope)).*2.
Proof.
  intros Ht. pose proof (store_of_inv t scope Ht) as Hs. unfold memory_holds. split.
  - intros Ho. by destruct (si_ids _ _ _ Hs _ _ Ho) as (_ & ? & _).
  - intros ([c o'] & -> & Hin)%list_elem_of_fmap. by destruct (si_rows _ _ _ Hs _ _ Hin) as (_ & _ & ?).
Qed.

#[export] Program Instance memory_push_laws : PushTransportLaws InMemoryTransport :=
  {| transport_ok := transport_inv; transport_holds := memory_holds |}.
Next Obligation.
  intros t scope batch Ht. simpl. destruct (push_operations t scope batch) as [t' [r|e]] eqn:E.
  - by destruct (push_operations_Ok _ _ _ _ _ Ht E).
  - by destruct (push_operations_Err _ _ _ _ _ Ht E).
Qed.
Next Obligation.
  intros t scope batch o Ht. simpl. destruct (push_operations t scope batch) as [t' [r|e]] eqn:E; simpl.
  - destruct (push_operations_Ok _ _ _ _ _ Ht E) as (Ht' & os & _ & _ & Hp & _).
    rewrite !memory_holds_row by done. rewrite Hp, fmap_app, elem_of_app. auto.
  - destruct (push_operations_Err _ _ _ _ _ Ht E) as (_ & Hs & _). unfold memory_holds. by rewrite Hs.
Qed.
Next Obligation.
  intros t scope batch receipt o Ht. simpl.
  destruct (push_operations t scope batch) as [t' r] eqn:E. cbn [fst snd]. intros -> Ho _.
  destruct (push_stores _ _ _ _ _ Ht E) as [Hall _]. rewrite Forall_forall in Hall.
  by destruct (Hall o Ho).
Qed.

End memory.

(** ** Facts *)

Lemma receipt_fold (expected ids acknowledged out : list OperationId) :
  try_fold (fun acknowledged operation_id =>
      if negb (bool_decide (operation_id ∈ expected)) || bool_decide (operation_id ∈ acknowledged)
      then Err (cycle_error "configuration_error")
      else Ok (operation_id :: acknowledged)) acknowledged ids = Ok out <->
  out = reverse ids ++ acknowledged /\ ids ⊆ expected /\ NoDup ids
  /\ (forall x, x ∈ ids -> x ∉ acknowledged).
Proof.
  revert acknowledged. induction ids as [|x ids IH]; intros acknowledged; simpl.
  { split; [intros [= <-]|intros [-> _]; done]. split_and!; [done|set_solver|constructor|set_solver]. }
  rewrite rbind_Ok. split.
  - intros (a & Ha & E). res_inv. wf_inv. subst a. apply IH in E as (-> & Hsub & Hnd & Hni).
    split_and!.
    + by rewrite reverse_cons, <- app_assoc.
    + set_solver.
    + constructor; [|done]. intros Hx. specialize (Hni x Hx). set_solver.
    + intros y [->|Hy]%elem_of_cons; [done|]. specialize (Hni y Hy). set_solver.
  - intros (-> & Hsub & Hnd & Hni). apply NoDup_cons in Hnd as [Hx Hnd].
    exists (x :: acknowledged). rewrite bool_decide_eq_true_2 by set_solver.
    rewrite bool_decide_eq_false_2 by set_solver. split; [done|]. apply IH.
    split_and!; [by rewrite reverse_cons, <- app_assoc|set_solver|done|]. set_solver.
Qed.

Lemma validate_receipt_Ok expected accepted duplicates acknowledged :
  validate_receipt expected accepted duplicates = Ok acknowledged <->
  NoDup expected /\ accepted ++ duplicates ≡ₚ expected /\ acknowledged = sort_by_key id expected.
Proof.
  unfold validate_receipt. split.
  - intros E. res_inv. wf_inv.
    match goal with E : try_fold _ _ _ = Ok _ |- _ => apply receipt_fold in E as (-> & Hsub & Hnd & _) end.
    subst acknowledged.
    match goal with E : sort_by_key _ _ = sort_by_key _ _ |- _ => rename E into Es end.
    split_and!; [done| |done]. rewrite app_nil_r in Es.
    rewrite <- (sort_by_key_perm id expected), <- Es, sort_by_key_perm. symmetry. apply reverse_Permutation.
  - intros (Hnd & Hp & ->). rewrite bool_decide_eq_true_2 by done. cbn [negb].
    rewrite (proj2 (receipt_fold expected (accepted ++ duplicates) []
      (reverse (accepted ++ duplicates) ++ []))).
    2:{ split_and!; [done| |by rewrite Hp|set_solver]. intros x. by rewrite Hp. }
    cbn [rbind]. rewrite app_nil_r.
    assert (E : sort_by_key id (reverse (accepted ++ duplicates)) = sort_by_key id expected).
    { apply sort_by_key_perm_eq; rewrite reverse_Permutation, Hp; [by rewrite list_fmap_id|done]. }
    by rewrite E, bool_decide_eq_true_2.
Qed.

Definition batch_bytes (batch : list CanonicalOperation) : N :=
  foldr (fun o total => len (can_bytes o) + total) 0 batch.

Section facts.
Context `{UuidCrate} `{MinicborLaws} `{Primitives} `{Membership}.

(** A row is sent as it was queued, and is valid in the engine's scope. *)
Definition sends (self : SyncEngine) (due : DueOutboxOperation) (o : CanonicalOperation) : Prop :=
  can_operation_id o = due_operation_id due /\ can_bytes o = due_canonical_bytes due
  /\ validate_canonical_operation (eng_scope self) o = Ok tt.

Lemma check_row_Ok self total row next o :
  check_row self total row = Ok (next, o) ->
  sends self row o /\ next = total + len (can_bytes o)
  /\ next <= eng_max_bytes self /\ next <= MAX_REQUEST_BYTES.
Proof.
  unfold check_row. intros E. res_inv. wf_inv. simplify_eq.
  match goal with E : checked_add _ _ _ = Some _ |- _ => apply checked_add_Some in E as [-> _] end.
  match goal with E : decode_sync_operation_v1 _ = Ok ?y |- _ =>
    apply decode_sync_operation_v1_Ok in E as [Hw He]; rename y into op end.
  unfold sends. cbn [can_operation_id can_bytes]. split_and!; try done.
  apply validate_canonical_operation_Ok. exists op. unfold row_carries. simpl. split_and!; congruence.
Qed.

Lemma select_batch_Ok self batch total due out cut :
  select_batch self batch total due = Ok (out, cut) ->
  total <= eng_max_bytes self -> total <= MAX_REQUEST_BYTES ->
  exists new, out = batch ++ new /\ Forall2 (sends self) (take (length new) due) new
    /\ total + batch_bytes new <= eng_max_bytes self /\ total + batch_bytes new <= MAX_REQUEST_BYTES
    /\ (batch = [] -> due <> [] -> new <> []).
Proof.
  revert batch total. induction due as [|row due IH]; intros batch total; simpl.
  { intros [= <- <-] ? ?. exists []. rewrite app_nil_r. simpl.
    split_and!; [done|constructor|lia|lia|done]. }
  destruct (check_row self total row) as [[next o]|code] eqn:Ec.
  - intros E Hm Hr. destruct (check_row_Ok _ _ _ _ _ Ec) as (Hs & -> & Hm' & Hr').
    destruct (IH _ _ E Hm' Hr') as (new & -> & Hf & Hb1 & Hb2 & _). exists (o :: new).
    rewrite <- app_assoc. simpl. split_and!; [done|by constructor|lia|lia|done].
  - case_bool_decide as Hb; [done|]. intros [= <- <-] ? ?. exists []. rewrite app_nil_r. simpl.
    split_and!; [done|constructor|lia|lia|done].
Qed.

Lemma sends_ids self due batch :
  Forall2 (sends self) due batch -> can_operation_id <$> batch = due_operation_id <$> due.
Proof. induction 1 as [|d o due batch (E & _) _ IH]; csimpl; congruence. Qed.

Lemma prepare_push_Some self tables now_ms tables' p :
  prepare_push self tables now_ms = (tables', Ok (Some p)) ->
  tables' = tables /\ pp_scope p = eng_scope self /\ pp_provider p = eng_provider self
  /\ pp_operations p <> [] /\ Forall2 (sends self) (pp_due p) (pp_operations p)
  /\ batch_bytes (pp_operations p) <= eng_max_bytes self
  /\ batch_bytes (pp_operations p) <= MAX_REQUEST_BYTES
  /\ exists due, due_outbox tables now_ms MAX_BATCH = Ok due
       /\ pp_due p = take (length (pp_operations p)) due.
Proof.
  unfold prepare_push. destruct (due_outbox tables now_ms MAX_BATCH) as [due|] eqn:Ed; [|done].
  destruct due as [|d due]; [done|].
  destruct (select_batch self [] 0 (d :: due)) as [[batch cut]|[id code]] eqn:Es.
  2:{ destruct (defer _ _ _ _) as [? [[]|]]; done. }
  intros [= <- <-]. cbn [pp_scope pp_provider pp_operations pp_due].
  destruct (select_batch_Ok _ _ _ _ _ _ Es ltac:(lia) ltac:(unfold MAX_REQUEST_BYTES; lia))
    as (new & -> & Hf & Hb1 & Hb2 & Hne). simpl in *.
  split_and!; try done; [by apply Hne|]. by exists (d :: due).
Qed.

Lemma prepared_ids self tables now_ms tables' p :
  prepare_push self tables now_ms = (tables', Ok (Some p)) ->
  can_operation_id <$> pp_operations p = due_operation_id <$> pp_due p
  /\ NoDup (due_operation_id <$> pp_due p) /\ Forall (due_for tables) (pp_due p)
  /\ len (pp_operations p) <= MAX_BATCH.
Proof.
  intros (-> & _ & _ & _ & Hf & _ & _ & due & Ed & Edue)%prepare_push_Some.
  destruct (due_outbox_Ok _ _ _ _ Ed) as (Hfor & Hnd & Hlen).
  split_and!; [by apply (sends_ids self)| | |].
  - rewrite Edue. eapply sublist_NoDup; [exact Hnd|]. apply fmap_sublist, sublist_take.
  - rewrite Edue. by apply Forall_take.
  - pose proof (Forall2_length _ _ _ Hf) as El. unfold len in *. rewrite <- El, Edue, length_take. lia.
Qed.

(** A push changes the queue only by its operations. *)
Lemma local_steps tables r :
  (forall tables', r = Ok tables' -> queue_step tables tables') ->
  rtc queue_step tables (local tables r).1.
Proof. intros Hr. destruct r as [t|e]; cbn; [by apply rtc_once, Hr|done]. Qed.

Lemma defer_steps tables ids next_ms code : rtc queue_step tables (defer tables ids next_ms code).1.
Proof. apply local_steps. intros t Ht. by eapply queue_defer. Qed.

Lemma defer_failure_steps self tables due now_ms error :
  rtc queue_step tables (defer_transport_failure self tables due now_ms error).1.
Proof.
  unfold defer_transport_failure. destruct (negb _); [apply defer_steps|]. destruct (is_err _).
  - pose proof (defer_steps tables (due_operation_id <$> due) PERMANENT_RETRY_MS
      "configuration_error") as Hd. by destruct (defer _ _ _ _).
  - apply local_steps. intros t Ht. by eapply queue_defer_individual.
Qed.

Lemma finish_push_steps self tables prepared response now_ms :
  rtc queue_step tables (finish_push self tables prepared response now_ms).1.
Proof.
  unfold finish_push. destruct (_ || _); [done|]. destruct (try_for_each _ _); [|done].
  destruct response as [receipt|error].
  - destruct (validate_receipt _ _ _) as [acknowledged|error].
    + apply rtc_once, queue_acknowledge.
    + match goal with |- context [defer ?t ?i ?n ?c] => pose proof (defer_steps t i n c) as Hd;
        by destruct (defer t i n c) end.
  - pose proof (defer_failure_steps self tables (pp_due prepared) now_ms error) as Hd.
    by destruct (defer_transport_failure _ _ _ _ _).
Qed.

Lemma prepare_push_steps self tables now_ms : rtc queue_step tables (prepare_push self tables now_ms).1.
Proof.
  unfold prepare_push. destruct (due_outbox _ _ _) as [[|d due]|]; [done| |done].
  destruct (select_batch _ _ _ _) as [[batch cut]|[id code]]; [done|].
  pose proof (defer_steps tables [id] PERMANENT_RETRY_MS code) as Hd. by destruct (defer _ _ _ _).
Qed.

Lemma push_due_steps {T} `{PushTransport T} self tables (t : T) now_ms report :
  rtc queue_step tables (push_due self tables t now_ms report).1.1.
Proof.
  unfold push_due. pose proof (prepare_push_steps self tables now_ms) as Hp.
  destruct (prepare_push self tables now_ms) as [t1 [[prepared|]|e]]; [|done|done].
  destruct (transport_push _ _ _) as [tr response].
  pose proof (finish_push_steps self t1 prepared response now_ms) as Hf.
  destruct (finish_push _ _ _ _ _) as [t2 r]. cbn in *. by etrans.
Qed.

(** The tables after a step that removes nothing from the queue. *)
Definition queue_kept (tables tables' : OutboxTables) : Prop :=
  tb_operations tables' = tb_operations tables /\ tb_meta tables' = tb_meta tables
  /\ forall id, is_Some (tb_outbox tables' !! id) <-> is_Some (tb_outbox tables !! id).

Lemma queue_kept_refl tables : queue_kept tables tables.
Proof. done. Qed.

Lemma defer_kept tables ids next_ms code :
  NoDup ids -> queue_kept tables (defer tables ids next_ms code).1.
Proof.
  intros Hnd. unfold defer, local. destruct (defer_outbox _ _ _ _) as [tables'|] eqn:E; [|done].
  destruct (defer_outbox_Ok _ _ _ _ _ Hnd E) as (_ & Ho & Hm & Hrows). split_and!; [done|done|].
  intros id. simpl. rewrite Hrows. case_decide; [|done]. by rewrite fmap_is_Some.
Qed.

Lemma retry_ids self now_ms due : (retry_of self now_ms <$> due).*1 = due_operation_id <$> due.
Proof. rewrite <- list_fmap_compose. done. Qed.

Lemma defer_failure_kept self tables due now_ms error :
  NoDup (due_operation_id <$> due) ->
  queue_kept tables (defer_transport_failure self tables due now_ms error).1.
Proof.
  intros Hnd. unfold defer_transport_failure. destruct (negb _); [by apply defer_kept|].
  destruct (is_err _).
  - pose proof (defer_kept tables (due_operation_id <$> due) PERMANENT_RETRY_MS
      "configuration_error" Hnd) as Hk. by destruct (defer _ _ _ _).
  - unfold local. destruct (defer_outbox_individual _ _ _) as [tables'|] eqn:E; [|done].
    rewrite <- (retry_ids self now_ms) in Hnd.
    destruct (defer_outbox_individual_Ok _ _ _ _ Hnd E) as (Ho & Hm & Hin & Hout).
    split_and!; [done|done|]. intros id. simpl.
    destruct (decide (id ∈ (retry_of self now_ms <$> due).*1)) as [Hi|Hi].
    + apply list_elem_of_fmap in Hi as ([i n] & -> & Hi). simpl. rewrite (Hin _ _ Hi). apply fmap_is_Some.
    + by rewrite Hout.
Qed.

(** A finished push either keeps every queued row, or was acknowledged and removes
    exactly the rows it sent. *)
Lemma finish_push_cases self tables p response now_ms tables' r :
  can_operation_id <$> pp_operations p = due_operation_id <$> pp_due p ->
  NoDup (due_operation_id <$> pp_due p) ->
  finish_push self tables p response now_ms = (tables', r) ->
  (queue_kept tables tables' /\ is_err r = true)
  \/ ((exists receipt, response = Ok receipt
        /\ push_accepted receipt ++ push_duplicates receipt ≡ₚ can_operation_id <$> pp_operations p)
      /\ tables' = acknowledge_outbox tables (sort_by_key id (can_operation_id <$> pp_operations p))
      /\ (forall e, r = Err e -> exists e', due_outbox tables' now_ms 1 = Err e')).
Proof.
  intros Hids Hnd. unfold finish_push.
  destruct (_ || _); [intros [= <- <-]; by left|].
  destruct (try_for_each _ _); [|intros [= <- <-]; by left].
  destruct response as [receipt|error].
  2:{ pose proof (defer_failure_kept self tables (pp_due p) now_ms error Hnd) as Hk.
      destruct (defer_transport_failure _ _ _ _ _) as [t2 [[]|]]; intros [= <- <-]; by left. }
  destruct (validate_receipt _ _ _) as [acknowledged|error] eqn:Ev.
  - apply validate_receipt_Ok in Ev as (Hnd' & Hp & ->). intros [= <- <-]. right.
    split_and!; [by exists receipt|done|]. intros e.
    destruct (due_outbox _ now_ms 1) as [due|e'] eqn:Ed; [done|]. intros _. by exists e'.
  - rewrite <- Hids in Hnd.
    pose proof (defer_kept tables _ PERMANENT_RETRY_MS (cycle_safe_code error) Hnd) as Hk.
    destruct (defer _ _ _ _) as [t2 [[]|]]; intros [= <- <-]; by left.
Qed.

Lemma prepare_push_kept self tables now_ms :
  queue_kept tables (prepare_push self tables now_ms).1.
Proof.
  unfold prepare_push. destruct (due_outbox _ _ _) as [[|d due]|]; [done| |done].
  destruct (select_batch _ _ _ _) as [[batch cut]|[id code]]; [done|].
  pose proof (defer_kept tables [id] PERMANENT_RETRY_MS code (NoDup_singleton _)) as Hk.
  by destruct (defer _ _ _ _).
Qed.

(** The rows of a prepared push are still stored as they were sent. *)
Lemma prepared_still_stored self tables now_ms tables' p :
  prepare_push self tables now_ms = (tables', Ok (Some p)) ->
  try_for_each (still_stored tables) (pp_operations p) = Ok tt.
Proof.
  intros E. pose proof (prepared_ids _ _ _ _ _ E) as (_ & _ & Hfor & _).
  destruct (prepare_push_Some _ _ _ _ _ E) as (_ & _ & _ & _ & Hf & _).
  apply try_for_each_Ok, Forall_forall. intros o [i Hi]%list_elem_of_lookup.
  destruct (Forall2_lookup_r _ _ _ _ _ Hf Hi) as (d & Hd & Eid & Eb & _). rewrite Forall_forall in Hfor.
  destruct (Hfor d) as (row & op & _ & Hop & _ & He & _); [by apply list_elem_of_lookup; exists i|].
  unfold still_stored, stored_operation_bytes. rewrite Eid, Hop, He. cbn [map_err rbind].
  by rewrite bool_decide_eq_true_2 by (by rewrite Eb).
Qed.

Lemma next_delay_le_cap policy attempt random :
  random <= u64_max -> next_delay policy attempt random <= cap_ms policy.
Proof.
  intros Hr. unfold next_delay. destruct (is_err _); [lia|].
  set (bound := N.min (cap_ms policy) _). assert (bound <= cap_ms policy) by (unfold bound; lia).
  clearbody bound. destruct (N.eqb_spec bound u64_max); [lia|].
  pose proof (N.mod_lt random (bound + 1)). lia.
Qed.

Lemma retryable_code error :
  is_retryable error = true ->
  validate_safe_error_code_v1 (transport_safe_code error) = Ok tt
  /\ transport_safe_code error ∈ ["offline"; "transient"]%string.
Proof. destruct error; simpl; intros [=]; (split; [reflexivity|set_solver]). Qed.

(** Every retry time fits the column. *)
Lemma defer_individual_succeeds self tables now_ms due code :
  validate_safe_error_code_v1 code = Ok tt ->
  exists tables', defer_outbox_individual tables (retry_of self now_ms <$> due) code = Ok tables'.
Proof.
  intros Hc. unfold defer_outbox_individual. rewrite Hc. cbn [rbind].
  generalize (tb_outbox tables) as rows.
  induction due as [|d due IH]; intros rows; [by eexists|]. csimpl. unfold sqlite_ms at 1.
  rewrite (proj2 (N.leb_le _ _)); [cbn [rbind]; apply IH|].
  unfold retry_of, PERMANENT_RETRY_MS. simpl. lia.
Qed.

(** What the transport holds for a queued row. *)
Definition delivered {T} `{PushTransportLaws T} (tables : OutboxTables) (scope : SyncScope) (t : T)
    (id : OperationId) : Prop :=
  exists o op, can_operation_id o = id /\ tb_operations tables !! id = Some op
    /\ encode_sync_operation_v1 op = Ok (can_bytes o) /\ transport_holds t scope o.

(** The transport answered the batch with a receipt that names each of its operations once,
    as accepted or as a duplicate, and nothing else. *)
Definition answered_in_full {T} `{PushTransport T} (self : SyncEngine) (tables : OutboxTables) (t : T)
    (now_ms : N) : Prop :=
  exists p receipt, (prepare_push self tables now_ms).2 = Ok (Some p)
    /\ (transport_push t (pp_scope p) (pp_operations p)).2 = Ok receipt
    /\ push_accepted receipt ++ push_duplicates receipt ≡ₚ can_operation_id <$> pp_operations p.

End facts.

(** ** Properties *)

Section properties.
Context `{UuidCrate} `{MinicborLaws} `{Primitives} `{Membership}.

(** A push receipt is accepted exactly when it accounts for every operation sent,
    once, as accepted or duplicate, and names nothing else; the identifiers to
    acknowledge are then exactly those sent. *)
Theorem receipt_accounts_for_batch expected accepted duplicates acknowledged :
  validate_receipt expected accepted duplicates = Ok acknowledged <->
  NoDup expected /\ accepted ++ duplicates ≡ₚ expected /\ acknowledged = sort_by_key id expected.
Proof. apply validate_receipt_Ok. Qed.

(** C40. A prepared push is bounded and faithful: it carries between one and 256
    operations and at most the engine's byte budget and the request ceiling; they are
    the first due rows, in order, with exactly the stored canonical bytes, each a valid
    operation of the engine's scope; preparing it leaves the vault as it was. *)
Theorem prepared_push_bounded self tables now_ms tables' p :
  prepare_push self tables now_ms = (tables', Ok (Some p)) ->
  tables' = tables /\ 1 <= len (pp_operations p) <= MAX_BATCH
  /\ batch_bytes (pp_operations p) <= N.min (eng_max_bytes self) MAX_REQUEST_BYTES
  /\ Forall2 (sends self) (pp_due p) (pp_operations p)
  /\ exists due, due_outbox tables now_ms MAX_BATCH = Ok due
       /\ pp_due p = take (length (pp_operations p)) due.
Proof.
  intros E. pose proof (prepared_ids _ _ _ _ _ E) as (_ & _ & _ & Hlen).
  destruct (prepare_push_Some _ _ _ _ _ E) as (-> & _ & _ & Hne & Hf & Hb1 & Hb2 & Hdue).
  split_and!; try done; [|lia]. unfold len. destruct (pp_operations p); [done|]. simpl. lia.
Qed.

(** C30. No operation is lost: whatever happens during a push, the stored operations do not
    change and a row leaves the outbox only when the transport holds exactly its canonical
    bytes in the engine's scope and its receipt accounts for the whole batch.  All that is
    assumed of the transport is that it holds the operations of the batch its receipt names;
    a receipt may leave operations out, name others or name one twice, and then nothing
    leaves the outbox. *)
Theorem push_never_loses {T} `{PushTransportLaws T} self tables (t : T) now_ms report tables' t' r :
  transport_ok t -> push_due self tables t now_ms report = (tables', t', r) ->
  transport_ok t' /\ tb_operations tables' = tb_operations tables
  /\ forall id, is_Some (tb_outbox tables !! id) ->
       is_Some (tb_outbox tables' !! id)
       \/ (delivered tables (eng_scope self) t' id /\ answered_in_full self tables t now_ms).
Proof.
  intros Hok. unfold answered_in_full, push_due. pose proof (prepare_push_kept self tables now_ms) as Hk.
  destruct (prepare_push self tables now_ms) as [tables1 [[p|]|e]] eqn:Ep.
  2,3: intros [= <- <- <-]; destruct Hk as (? & _ & Hk); split_and!; [done|done|];
    intros id Hid; left; by apply Hk.
  destruct (prepare_push_Some _ _ _ _ _ Ep) as (-> & Hscope & _ & _ & Hf & _).
  pose proof (prepared_ids _ _ _ _ _ Ep) as (Hids & Hnd & Hfor & _).
  pose proof (push_keeps_ok t (pp_scope p) (pp_operations p) Hok) as Hok'.
  pose proof (push_holds_named t (pp_scope p) (pp_operations p)) as Hheld.
  destruct (transport_push t _ _) as [t1 response] eqn:Et. simpl in Hok', Hheld.
  destruct (finish_push self tables p response now_ms) as [tables2 fin] eqn:Efin.
  intros [= <- <- <-]. split; [done|].
  destruct (finish_push_cases _ _ _ _ _ _ _ Hids Hnd Efin) as [[Hk2 _]|((receipt & -> & Hacc) & -> & _)].
  { destruct Hk2 as (? & _ & Hk2). split; [done|]. intros id Hid. left. by apply Hk2. }
  split; [done|]. intros id Hid. rewrite lookup_acknowledge. case_decide as Hin; [|by left].
  right. rewrite sort_by_key_perm in Hin. apply list_elem_of_fmap in Hin as (o & -> & Ho).
  destruct (proj1 (list_elem_of_lookup _ _) Ho) as [i Hi].
  destruct (Forall2_lookup_r _ _ _ _ _ Hf Hi) as (d & Hd & Eid & Eb & _).
  rewrite Forall_forall in Hfor.
  destruct (Hfor d) as (row & op & _ & Hop & _ & He & _); [by apply list_elem_of_lookup; exists i|].
  split; [|exists p, receipt; by rewrite Et]. exists o, op. split_and!; [done|by rewrite Eid|by rewrite Eb|].
  rewrite <- Hscope. apply (Hheld receipt); [done..|]. rewrite Hacc. by apply list_elem_of_fmap_2.
Qed.

(** C31. A push that fails on the way is retried with backoff, under a valid policy: when the
    transport reports a retryable error the cycle fails with that error's code, every row that was sent
    stays queued with one more attempt, the code, and a retry time at most the policy's
    cap away, at which it is due again; no other row changes. *)
Theorem failed_push_backs_off self tables now_ms p error tables' r :
  prepare_push self tables now_ms = (tables, Ok (Some p)) -> is_retryable error = true ->
  BackoffPolicy_validate (eng_backoff_policy self) = Ok tt ->
  (forall id attempt, eng_retry_random self id attempt <= u64_max) -> now_ms <= i64_max ->
  finish_push self tables p (Err error) now_ms = (tables', r) ->
  r = Err (transport_error error)
  /\ (forall id, id ∉ due_operation_id <$> pp_due p -> tb_outbox tables' !! id = tb_outbox tables !! id)
  /\ forall d, d ∈ pp_due p -> exists row row',
       tb_outbox tables !! due_operation_id d = Some row
       /\ tb_outbox tables' !! due_operation_id d = Some row'
       /\ ob_attempt_count row' = ob_attempt_count row + 1
       /\ ob_safe_error_code row' = Some (transport_safe_code error)
       /\ now_ms <= ob_next_attempt_ms row' <= now_ms + cap_ms (eng_backoff_policy self)
       /\ forall later, ob_next_attempt_ms row' <= later ->
            is_due tables' later false (due_operation_id d, row') = true.
Proof.
  intros Ep Hretry Hpolicy Hrandom Hnow. destruct (prepare_push_Some _ _ _ _ _ Ep) as (_ & Hs & Hp & _).
  pose proof (prepared_ids _ _ _ _ _ Ep) as (_ & Hnd & Hfor & _).
  unfold finish_push. rewrite !bool_decide_eq_true_2 by done. cbn [negb orb].
  rewrite (prepared_still_stored _ _ _ _ _ Ep). unfold defer_transport_failure.
  rewrite Hretry, Hpolicy. cbn [negb is_err is_ok].
  destruct (retryable_code error Hretry) as [Hcode Hin].
  destruct (defer_individual_succeeds self tables now_ms (pp_due p) _ Hcode) as [tables1 E1].
  rewrite E1. cbn [local rbind]. intros [= <- <-]. split; [done|].
  rewrite <- (retry_ids self now_ms) in Hnd.
  destruct (defer_outbox_individual_Ok _ _ _ _ Hnd E1) as (_ & _ & Hrows & Hout).
  split; [intros id Hid; apply Hout; by rewrite retry_ids|]. intros d Hd.
  rewrite Forall_forall in Hfor. destruct (Hfor d Hd) as (row & op & Hrow & _).
  pose proof (Hrows (due_operation_id d) (retry_of self now_ms d).2) as Hr.
  rewrite Hrow in Hr. exists row. eexists. split; [done|]. split.
  { apply Hr. apply list_elem_of_fmap. exists d. by destruct (retry_of self now_ms d) eqn:Eq; inversion Eq. }
  cbn [ob_attempt_count ob_safe_error_code ob_next_attempt_ms defer_row].
  pose proof (next_delay_le_cap (eng_backoff_policy self) (due_attempt_count d)
    (eng_retry_random self (due_operation_id d) (due_attempt_count d)) (Hrandom _ _)) as Hcap.
  split_and!; [done|done|..].
  - unfold retry_of, saturating_add, PERMANENT_RETRY_MS, u64_max, i64_max in *. simpl. lia.
  - unfold retry_of, saturating_add, PERMANENT_RETRY_MS, u64_max, i64_max in *. simpl. lia.
  - intros later Hl. unfold is_due. cbn [snd ob_next_attempt_ms ob_safe_error_code defer_row].
    rewrite (proj2 (N.leb_le _ _)) by done. simpl. by apply bool_decide_eq_true_2.
Qed.

(** A push that succeeds drains what it sent: every operation of the batch leaves the
    outbox, every other row stays as it is, and the report counts each operation
    once, as pushed or as a duplicate; with nothing due it changes nothing. *)
Theorem successful_push_drains {T} `{PushTransport T} self tables (t : T) now_ms report tables' t' report' :
  push_due self tables t now_ms report = (tables', t', Ok report') ->
  exists sent : list OperationId,
    (forall id, tb_outbox tables' !! id
       = if decide (id ∈ sent) then None else tb_outbox tables !! id)
    /\ rep_pushed report' + rep_duplicates report' = rep_pushed report + rep_duplicates report + len sent
    /\ (sent = [] -> due_outbox tables now_ms MAX_BATCH = Ok []).
Proof.
  unfold push_due. destruct (prepare_push self tables now_ms) as [tables1 [[p|]|e]] eqn:Ep; [|..|done].
  - destruct (prepare_push_Some _ _ _ _ _ Ep) as (-> & _ & _ & Hne & _).
    pose proof (prepared_ids _ _ _ _ _ Ep) as (Hids & Hnd & _ & _).
    destruct (transport_push t _ _) as [t1 response].
    destruct (finish_push self tables p response now_ms) as [tables2 fin] eqn:Efin.
    destruct fin as [finished|]; cbn [rbind]; [|done]. intros [= <- <- <-].
    pose proof Efin as Hcases. apply finish_push_cases in Hcases; [|done|done].
    destruct Hcases as [[_ ?]|((receipt & -> & Hp) & -> & _)]; [done|].
    exists (can_operation_id <$> pp_operations p). split_and!.
    + intros id. rewrite lookup_acknowledge. apply decide_ext. by rewrite sort_by_key_perm.
    + cbn [rep_pushed rep_duplicates].
      assert (Hcount : rep_pushed finished + rep_duplicates finished
        = len (push_accepted receipt ++ push_duplicates receipt)).
      { rewrite len_app. unfold finish_push in Efin. destruct (_ || _); [done|].
        destruct (try_for_each _ _); [|done]. destruct (validate_receipt _ _ _).
        - destruct (due_outbox _ now_ms 1); cbn [map_err rbind] in Efin; [|done].
          by injection Efin as _ <-.
        - by destruct (defer _ _ _ _) as [? [[]|]]. }
      unfold len in *. rewrite Hp in Hcount. lia.
    + intros E. destruct (pp_operations p); [done|]. discriminate E.
  - unfold prepare_push in Ep. destruct (due_outbox tables now_ms MAX_BATCH) as [[|d due]|]; [|..|done].
    + simplify_eq. intros [= <- <- <-]. exists []. split_and!; [|rewrite len_nil; lia|done].
      intros id. by destruct (decide (id ∈ [])) as [?%elem_of_nil|].
    + destruct (select_batch _ _ _ _) as [[]|[]]; [done|]. by destruct (defer _ _ _ _) as [? [[]|]].
Qed.

End properties.

(** ** A push, evaluated *)

Module EnginePushWitness.
#[local] Existing Instances rfc9562 Rfc8949.codec Rfc8949.codec_laws Toy.toy
  OutboxWitness.unenrolled.

Definition engine : SyncEngine :=
  SyncEngine_new MemoryTransportWitness.scope Memory (fun _ _ => 777).

Definition tables : OutboxTables := OutboxWitness.tables.
Definition empty : InMemoryTransport := InMemoryTransport_new.

Definition prepared : PreparedPush := {|
  pp_scope := eng_scope engine; pp_provider := Memory; pp_due := [OutboxWitness.due];
  pp_operations := [MemoryTransportWitness.first_row]; pp_more_work := false |}.

Definition outcome := push_due engine tables empty 10 SyncCycleReport_empty.
Definition failure := finish_push engine tables prepared (Err Offline) 10.
#[local] Strategy expand [outcome failure].

Lemma empty_ok : transport_inv empty.
Proof. split; [done|]. intros scope store. simpl. by rewrite lookup_empty. Qed.

Lemma prepare_evaluates : prepare_push engine tables 10 = (tables, Ok (Some prepared)).
Proof. vm_compute. reflexivity. Qed.

Lemma prepared_push_bounded_witness :
  batch_bytes (pp_operations prepared) <= N.min (eng_max_bytes engine) MAX_REQUEST_BYTES.
Proof.
  exact (proj1 (proj2 (proj2 (prepared_push_bounded engine tables 10 tables prepared
    prepare_evaluates)))).
Defined.

Lemma receipt_accounts_for_batch_witness :
  validate_receipt [Fixture.id] [] [Fixture.id] = Ok [Fixture.id].
Proof.
  apply receipt_accounts_for_batch. split; [apply NoDup_singleton|]. split; reflexivity.
Defined.

Lemma push_never_loses_witness :
  transport_inv outcome.1.2
  /\ delivered (T := InMemoryTransport) tables MemoryTransportWitness.scope outcome.1.2 Fixture.id.
Proof.
  pose proof (push_never_loses engine tables empty 10 SyncCycleReport_empty outcome.1.1 outcome.1.2
    outcome.2 empty_ok) as Hp.
  destruct Hp as (Hok & _ & Hrows).
  { change (outcome = (outcome.1.1, outcome.1.2, outcome.2)). by destruct outcome as [[? ?] ?]. }
  split; [exact Hok|]. destruct (Hrows Fixture.id) as [Hs|[Hd _]]; [|exfalso|exact Hd].
  - vm_compute. by eexists.
  - vm_compute in Hs. by destruct Hs.
Defined.

Lemma successful_push_drains_witness :
  exists report (sent : list OperationId), outcome.2 = Ok report /\ rep_pushed report = 1
    /\ tb_outbox outcome.1.1 !! Fixture.id
       = if decide (Fixture.id ∈ sent) then None else tb_outbox tables !! Fixture.id.
Proof.
  destruct (successful_push_drains engine tables empty 10 SyncCycleReport_empty outcome.1.1
    outcome.1.2 {| rep_pushed := 1; rep_duplicates := 0; rep_pulled := 0; rep_applied := 0;
      rep_conflicts := 0; rep_quarantined := 0; rep_gaps_repaired := 0; rep_checkpointed := false;
      rep_more_work := false |}) as (sent & Hrows & _ & _).
  { change (outcome = (outcome.1.1, outcome.1.2, Ok {| rep_pushed := 1; rep_duplicates := 0;
      rep_pulled := 0; rep_applied := 0; rep_conflicts := 0; rep_quarantined := 0;
      rep_gaps_repaired := 0; rep_checkpointed := false; rep_more_work := false |})).
    transitivity (outcome.1.1, outcome.1.2, outcome.2); [by destruct outcome as [[? ?] ?]|].
    f_equal. }
  eexists _, sent. split; [vm_compute; reflexivity|]. split; [reflexivity|exact (Hrows Fixture.id)].
Defined.

Lemma failed_push_backs_off_witness :
  failure.2 = Err (cycle_error "offline").
Proof.
  refine (proj1 (failed_push_backs_off engine tables 10 prepared Offline failure.1 failure.2
    prepare_evaluates eq_refl eq_refl _ _ _)).
  - intros id attempt. vm_compute. discriminate.
  - vm_compute. discriminate.
  - change (failure = (failure.1, failure.2)). apply surjective_pairing.
Defined.

End EnginePushWitness.
