(* ===== verification/Receipts.v ===== *)
(** * Receipt bookkeeping (core/vault/sync.rs)

    What the vault remembers of the receipts a provider has delivered: the pull
    cursor of each workspace and provider, the envelopes set aside in quarantine,
    and the digests of envelopes too large to keep.  Every method is one
    transaction: a failure leaves the tables as they were. *)

From S2P Require Import Prelude Ordering Text Protocol Minicbor CanonicalCbor Domain.
From S2P Require Import SyncPayload Crypto Operation Causal Merge Transport StateSummary.
From S2P Require Import Admission Outbox.

#[local] Open Scope N_scope.

Inductive SyncQuarantineDisposition := QuarantineInserted | QuarantineExactReplay.
Inductive SyncRejectionDisposition := RejectionInserted | RejectionExactReplay.

Record SyncQuarantineWrite := {
  qw_account_id : AccountId;
  qw_workspace_id : WorkspaceId;
  qw_provider : string;
  qw_received_at : rstr;
  qw_receipt_operation_id : OperationId;
  qw_routed_operation_id : OperationId;
  qw_device_id : DeviceId;
  qw_device_sequence : N;
  qw_safe_error_code : string;
  qw_envelope : bytes;
  qw_quarantined_at_ms : N;
  qw_advance_cursor : bool;
}.

Record StoredSyncQuarantine := {
  sq_account_id : AccountId;
  sq_workspace_id : WorkspaceId;
  sq_provider : string;
  sq_received_at : rstr;
  sq_receipt_operation_id : OperationId;
  sq_routed_operation_id : OperationId;
  sq_device_id : DeviceId;
  sq_device_sequence : N;
  sq_safe_error_code : string;
  sq_envelope : bytes;
  sq_quarantined_at_ms : N;
}.

Record SyncRejectionWrite := {
  rw_account_id : AccountId;
  rw_workspace_id : WorkspaceId;
  rw_provider : string;
  rw_received_at : rstr;
  rw_receipt_operation_id : OperationId;
  rw_routed_operation_id : OperationId;
  rw_device_id : DeviceId;
  rw_device_sequence : N;
  rw_safe_error_code : string;
  rw_received_bytes : bytes;
  rw_rejected_at_ms : N;
  rw_advance_cursor : bool;
}.

Record StoredSyncRejection := {
  sr_account_id : AccountId;
  sr_workspace_id : WorkspaceId;
  sr_provider : string;
  sr_received_at : rstr;
  sr_receipt_operation_id : OperationId;
  sr_routed_operation_id : OperationId;
  sr_device_id : DeviceId;
  sr_device_sequence : N;
  sr_safe_error_code : string;
  sr_claimed_byte_length : N;
  sr_received_sha256 : Sha256Digest;
  sr_rejected_at_ms : N;
}.

(** The primary key of both tables. *)
Abbreviation ReceiptKey := (AccountId * WorkspaceId * string * rstr * OperationId)%type.

Record ReceiptTables := {
  rt_cursors : gmap (WorkspaceId * string) SyncCursor;
  rt_quarantine : gmap ReceiptKey StoredSyncQuarantine;
  rt_rejections : gmap ReceiptKey StoredSyncRejection;
}.

(** ** Validation *)

Definition validate_sync_provider_v1 (provider : string) : result VaultError unit :=
  if bool_decide (provider ∈ ["memory"; "supabase"]%string)
  then Ok tt else Err (Validation "unknown version-1 sync provider").

(** The test shared by the vault and the engine on receipt times. *)
Definition bad_received_at (received_at : rstr) : bool :=
  bool_decide (received_at = []) || (128 <? str_len received_at)
  || negb (forallb (fun b => is_ascii_graphic b && negb (Byte.to_N b =? 0x27)
                             && negb (Byte.to_N b =? 0x22)) (as_bytes received_at)).

Definition validate_received_at (received_at : rstr) : result VaultError unit :=
  if bad_received_at received_at then Err (Validation "invalid sync receipt cursor") else Ok tt.

Definition validate_quarantine_write (write : SyncQuarantineWrite) : result VaultError unit :=
  let? _ := validate_sync_provider_v1 (qw_provider write) in
  let? _ := validate_received_at (qw_received_at write) in
  if negb (bool_decide (qw_receipt_operation_id write = qw_routed_operation_id write))
  then Err (Validation "quarantine cursor does not match routed operation") else
  if negb (bool_decide (qw_safe_error_code write ∈ ["integrity_quarantined"; "gap_pending"]%string))
  then Err (Validation "invalid quarantine error code") else
  if MAX_CBOR_OPERATION_BYTES <? len (qw_envelope write)
  then Err (Validation "quarantine envelope exceeds the signed operation limit") else Ok tt.

Section receipts.
Context `{UuidCrate} `{Primitives}.

Definition validate_rejection_write (write : SyncRejectionWrite)
    : result VaultError (N * Sha256Digest) :=
  let? _ := validate_sync_provider_v1 (rw_provider write) in
  let? _ := validate_received_at (rw_received_at write) in
  if negb (bool_decide (rw_receipt_operation_id write = rw_routed_operation_id write))
  then Err (Validation "rejection cursor does not match routed operation") else
  if negb (bool_decide (rw_safe_error_code write = "integrity_quarantined"%string))
  then Err (Validation "invalid oversized rejection error code") else
  if len (rw_received_bytes write) <=? MAX_CBOR_OPERATION_BYTES
  then Err (Validation "oversized rejection requires bytes above the signed operation limit") else
  if u64_max <? len (rw_received_bytes write)
  then Err (Validation "rejected byte length exceeds u64 range") else
  if i64_max <? len (rw_received_bytes write)
  then Err (Validation "rejected byte length exceeds SQLite integer range") else
  Ok (len (rw_received_bytes write), sha256 (rw_received_bytes write)).

(** ** Cursors *)

Definition sync_cursor (tables : ReceiptTables) (workspace : WorkspaceId) (provider : string)
    : result VaultError (option SyncCursor) :=
  let? _ := validate_sync_provider_v1 provider in
  Ok (rt_cursors tables !! (workspace, provider)).

(** The [WHERE] of the upsert: text compares by bytes, and identifiers are stored as
    hyphenated text. *)
Definition cursor_advances (incoming stored : SyncCursor) : bool :=
  ltb (as_bytes (cur_received_at stored)) (as_bytes (cur_received_at incoming))
  || (bool_decide (cur_received_at incoming = cur_received_at stored)
      && ltb (as_bytes (uuid_hyphenated (cur_operation_id stored)))
             (as_bytes (uuid_hyphenated (cur_operation_id incoming)))).

Definition upsert_cursor (tables : ReceiptTables) (workspace : WorkspaceId) (provider : string)
    (received_at : rstr) (operation_id : OperationId) : ReceiptTables :=
  let incoming := {| cur_received_at := received_at; cur_operation_id := operation_id |} in
  let cursor :=
    match rt_cursors tables !! (workspace, provider) with
    | Some stored => if cursor_advances incoming stored then incoming else stored
    | None => incoming
    end in {|
  rt_cursors := <[(workspace, provider) := cursor]> (rt_cursors tables);
  rt_quarantine := rt_quarantine tables; rt_rejections := rt_rejections tables |}.

(** ** Quarantine *)

Definition quarantined_sync_receipt (tables : ReceiptTables) (account_id : AccountId)
    (workspace_id : WorkspaceId) (provider : string) (received_at : rstr)
    (receipt_operation_id : OperationId) : result VaultError (option StoredSyncQuarantine) :=
  let? _ := validate_sync_provider_v1 provider in
  let? _ := validate_received_at received_at in
  Ok (rt_quarantine tables
        !! (account_id, workspace_id, provider, received_at, receipt_operation_id)).

Definition quarantine_key (write : SyncQuarantineWrite) : ReceiptKey :=
  (qw_account_id write, qw_workspace_id write, qw_provider write, qw_received_at write,
   qw_receipt_operation_id write).

Definition quarantine_row (write : SyncQuarantineWrite) : StoredSyncQuarantine := {|
  sq_account_id := qw_account_id write; sq_workspace_id := qw_workspace_id write;
  sq_provider := qw_provider write; sq_received_at := qw_received_at write;
  sq_receipt_operation_id := qw_receipt_operation_id write;
  sq_routed_operation_id := qw_routed_operation_id write; sq_device_id := qw_device_id write;
  sq_device_sequence := qw_device_sequence write;
  sq_safe_error_code := qw_safe_error_code write; sq_envelope := qw_envelope write;
  sq_quarantined_at_ms := qw_quarantined_at_ms write |}.

Definition quarantine_sync_receipt (tables : ReceiptTables) (write : SyncQuarantineWrite)
    : result VaultError (ReceiptTables * SyncQuarantineDisposition) :=
  let? _ := validate_quarantine_write write in
  let? _ := sqlite_ms (qw_quarantined_at_ms write) "quarantine time exceeds SQLite integer range" in
  let advance tables :=
    if qw_advance_cursor write
    then upsert_cursor tables (qw_workspace_id write) (qw_provider write) (qw_received_at write)
           (qw_receipt_operation_id write)
    else tables in
  match rt_quarantine tables !! quarantine_key write with
  | Some stored =>
    if negb (bool_decide (sq_routed_operation_id stored = qw_routed_operation_id write))
       || negb (bool_decide (sq_device_id stored = qw_device_id write))
       || negb (sq_device_sequence stored =? qw_device_sequence write)
       || negb (bool_decide (sq_safe_error_code stored = qw_safe_error_code write))
       || negb (bool_decide (sq_envelope stored = qw_envelope write))
    then Err VaultOperationConflict
    else Ok (advance tables, QuarantineExactReplay)
  | None =>
    Ok (advance {|
          rt_cursors := rt_cursors tables;
          rt_quarantine := <[quarantine_key write := quarantine_row write]> (rt_quarantine tables);
          rt_rejections := rt_rejections tables |}, QuarantineInserted)
  end.

(** ** Rejections *)

Definition load_rejected_sync_receipt (tables : ReceiptTables) (k : ReceiptKey)
    : result VaultError (option StoredSyncRejection) :=
  match rt_rejections tables !! k with
  | None => Ok None
  | Some stored =>
    if sr_claimed_byte_length stored <=? MAX_CBOR_OPERATION_BYTES
    then Err (Validation "invalid rejected byte length") else Ok (Some stored)
  end.

Definition rejected_sync_receipt (tables : ReceiptTables) (account_id : AccountId)
    (workspace_id : WorkspaceId) (provider : string) (received_at : rstr)
    (receipt_operation_id : OperationId) : result VaultError (option StoredSyncRejection) :=
  let? _ := validate_sync_provider_v1 provider in
  let? _ := validate_received_at received_at in
  load_rejected_sync_receipt tables
    (account_id, workspace_id, provider, received_at, receipt_operation_id).

Definition rejection_key (write : SyncRejectionWrite) : ReceiptKey :=
  (rw_account_id write, rw_workspace_id write, rw_provider write, rw_received_at write,
   rw_receipt_operation_id write).

Definition rejection_row (write : SyncRejectionWrite) (claimed_byte_length : N)
    (received_sha256 : Sha256Digest) : StoredSyncRejection := {|
  sr_account_id := rw_account_id write; sr_workspace_id := rw_workspace_id write;
  sr_provider := rw_provider write; sr_received_at := rw_received_at write;
  sr_receipt_operation_id := rw_receipt_operation_id write;
  sr_routed_operation_id := rw_routed_operation_id write; sr_device_id := rw_device_id write;
  sr_device_sequence := rw_device_sequence write;
  sr_safe_error_code := rw_safe_error_code write; sr_claimed_byte_length := claimed_byte_length;
  sr_received_sha256 := received_sha256; sr_rejected_at_ms := rw_rejected_at_ms write |}.

Definition reject_oversized_sync_receipt (tables : ReceiptTables) (write : SyncRejectionWrite)
    : result VaultError (ReceiptTables * SyncRejectionDisposition) :=
  let? (claimed_byte_length, received_sha256) := validate_rejection_write write in
  let? _ := sqlite_ms (rw_rejected_at_ms write) "rejection time exceeds SQLite integer range" in
  let advance tables :=
    if rw_advance_cursor write
    then upsert_cursor tables (rw_workspace_id write) (rw_provider write) (rw_received_at write)
           (rw_receipt_operation_id write)
    else tables in
  let? found := load_rejected_sync_receipt tables (rejection_key write) in
  match found with
  | Some stored =>
    if negb (bool_decide (sr_routed_operation_id stored = rw_routed_operation_id write))
       || negb (bool_decide (sr_device_id stored = rw_device_id write))
       || negb (sr_device_sequence stored =? rw_device_sequence write)
       || negb (bool_decide (sr_safe_error_code stored = rw_safe_error_code write))
       || negb (sr_claimed_byte_length stored =? claimed_byte_length)
       || negb (bool_decide (sr_received_sha256 stored = received_sha256))
    then Err VaultOperationConflict
    else Ok (advance tables, RejectionExactReplay)
  | None =>
    Ok (advance {|
          rt_cursors := rt_cursors tables; rt_quarantine := rt_quarantine tables;
          rt_rejections := <[rejection_key write
              := rejection_row write claimed_byte_length received_sha256]> (rt_rejections tables) |},
        RejectionInserted)
  end.

End receipts.

(** ** Text order of identifiers *)

Lemma lex_cmp_app_same {A} `{OrdLaws A} (p q l k : list A) :
  length p = length q ->
  lex_cmp (p ++ l) (q ++ k) = match lex_cmp p q with Eq => lex_cmp l k | c => c end.
Proof.
  revert q. induction p as [|x p IH]; intros [|y q]; simpl; try done.
  intros [= E]. destruct (cmp x y); [by apply IH|done|done].
Qed.

Lemma hex_lower_order n m : n < 16 -> m < 16 -> cmp (hex_lower n) (hex_lower m) = cmp n m.
Proof.
  intros Hn Hm. unfold cmp, N_ord, hex_lower.
  destruct (N.ltb_spec n 10), (N.ltb_spec m 10); destruct (N.compare_spec n m);
    (apply N.compare_eq_iff || apply N.compare_lt_iff || apply N.compare_gt_iff); lia.
Qed.

#[local] Ltac Zify.zify_post_hook ::= Z.to_euclidean_division_equations.

Lemma byte_hex_order x y : lex_cmp (byte_hex x) (byte_hex y) = cmp x y.
Proof.
  pose proof (byte_to_N_lt x). pose proof (byte_to_N_lt y). unfold byte_hex. cbn [lex_cmp].
  rewrite !hex_lower_order by lia. unfold cmp at 1 2, N_ord, cmp, byte_ord.
  destruct (N.compare_spec (Byte.to_N x / 16) (Byte.to_N y / 16)),
    (N.compare_spec (Byte.to_N x mod 16) (Byte.to_N y mod 16)),
    (N.compare_spec (Byte.to_N x) (Byte.to_N y)); (done || lia).
Qed.

#[local] Ltac Zify.zify_post_hook ::= idtac.

Lemma bytes_hex_order (a b : bytes) :
  length a = length b -> lex_cmp (a ≫= byte_hex) (b ≫= byte_hex) = lex_cmp a b.
Proof.
  revert b. induction a as [|x a IH]; intros [|y b]; try done. intros [= E].
  rewrite !bind_cons, lex_cmp_app_same, byte_hex_order by done. cbn [lex_cmp].
  by destruct (cmp x y); [apply IH|..].
Qed.

Lemma length_hex (a : bytes) : length (a ≫= byte_hex) = (2 * length a)%nat.
Proof. induction a as [|x a IH]; [done|]. rewrite bind_cons, length_app, IH. simpl. lia. Qed.

Lemma chunk_order (a b : bytes) (l k : rstr) :
  length a = length b ->
  lex_cmp ((a ≫= byte_hex) ++ hyphen :: l) ((b ≫= byte_hex) ++ hyphen :: k)
  = match lex_cmp a b with Eq => lex_cmp l k | c => c end.
Proof.
  intros E. rewrite lex_cmp_app_same by (by rewrite !length_hex, E).
  rewrite bytes_hex_order by done. by destruct (lex_cmp a b).
Qed.

(** Comparing hyphenated identifiers as text is comparing their bytes. *)
Lemma hyphenated_format_order (a b : bytes) :
  length a = 16%nat -> length b = 16%nat ->
  lex_cmp (hyphenated_format a) (hyphenated_format b) = lex_cmp a b.
Proof.
  intros Ha Hb. unfold hyphenated_format.
  rewrite !chunk_order by (rewrite ?length_take, ?length_drop, Ha, Hb; done).
  rewrite bytes_hex_order by (rewrite !length_drop; lia).
  assert (Hsplit : forall (n m : nat) (u v : bytes), length u = length v ->
    lex_cmp (drop n u) (drop n v)
    = match lex_cmp (take m (drop n u)) (take m (drop n v)) with
      | Eq => lex_cmp (drop (n + m) u) (drop (n + m) v) | c => c end).
  { intros n m u v El. rewrite <- (take_drop m (drop n u)), <- (take_drop m (drop n v)) at 1.
    rewrite lex_cmp_app_same by (rewrite !length_take, !length_drop; lia). by rewrite !drop_drop. }
  pose proof (Hsplit 0 4 a b)%nat as E0. pose proof (Hsplit 4 2 a b)%nat as E4.
  pose proof (Hsplit 6 2 a b)%nat as E6. pose proof (Hsplit 8 2 a b)%nat as E8.
  rewrite !drop_0 in E0. cbn [Nat.add] in *. by rewrite E0, E4, E6, E8 by lia.
Qed.

Lemma wf_hyphenated (b : bytes) : wf_str (hyphenated_format b) = true.
Proof.
  assert (Hh : forall l : bytes, wf_str (l ≫= byte_hex) = true).
  { induction l as [|x l IH]; [done|]. rewrite bind_cons. unfold wf_str in *.
    rewrite forallb_app, IH. by destruct x. }
  unfold hyphenated_format, wf_str in *. rewrite !forallb_app. cbn [forallb].
  rewrite !forallb_app. cbn [forallb]. rewrite !forallb_app. cbn [forallb].
  rewrite !forallb_app. cbn [forallb]. by rewrite !Hh.
Qed.

(** ** Facts *)

Definition wf_cursor (c : SyncCursor) : Prop :=
  wf_str (cur_received_at c) = true /\ length (cur_operation_id c) = 16%nat.

Section facts.
Context `{UuidCrate} `{!UuidCrateLaws} `{Primitives}.

(** The database's text comparison is the engine's cursor order. *)
Lemma cursor_advances_spec incoming stored :
  wf_cursor incoming -> wf_cursor stored -> cursor_advances incoming stored = ltb stored incoming.
Proof.
  intros [Hs1 Hi1] [Hs2 Hi2]. unfold cursor_advances.
  rewrite !hyphenated_text by done. unfold ltb.
  change (cmp (as_bytes ?a) (as_bytes ?b)) with (lex_cmp (as_bytes a) (as_bytes b)).
  rewrite !as_bytes_order by (done || apply wf_hyphenated). rewrite hyphenated_format_order by done.
  change (cmp stored incoming) with
    (match cmp (cur_received_at stored) (cur_received_at incoming) with
     | Eq => cmp (cur_operation_id stored) (cur_operation_id incoming) | c => c end).
  change (lex_cmp (cur_received_at stored) (cur_received_at incoming))
    with (cmp (cur_received_at stored) (cur_received_at incoming)).
  change (lex_cmp (cur_operation_id stored) (cur_operation_id incoming))
    with (cmp (cur_operation_id stored) (cur_operation_id incoming)).
  destruct (cmp (cur_received_at stored) (cur_received_at incoming)) eqn:E.
  - apply cmp_eq in E. by rewrite bool_decide_eq_true_2.
  - done.
  - rewrite bool_decide_eq_false_2; [done|]. intros E'. rewrite E', cmp_refl in E. done.
Qed.

(** The pull cursor never moves back: recording a receipt leaves each workspace and
    provider with the later of the stored cursor and the receipt, in the order in
    which the engine pulls pages (receipt time, then identifier), although the
    database compares both as text; no other cursor, quarantine or rejection row
    changes. *)
Theorem cursor_never_moves_back tables workspace provider received_at operation_id :
  let incoming := {| cur_received_at := received_at; cur_operation_id := operation_id |} in
  let tables' := upsert_cursor tables workspace provider received_at operation_id in
  wf_cursor incoming -> map_Forall (fun _ c => wf_cursor c) (rt_cursors tables) ->
  (exists c, rt_cursors tables' !! (workspace, provider) = Some c /\ wf_cursor c
     /\ leb incoming c = true
     /\ match rt_cursors tables !! (workspace, provider) with
        | Some stored => leb stored c = true /\ (c = stored \/ c = incoming)
        | None => c = incoming
        end)
  /\ (forall k, k <> (workspace, provider) -> rt_cursors tables' !! k = rt_cursors tables !! k)
  /\ rt_quarantine tables' = rt_quarantine tables /\ rt_rejections tables' = rt_rejections tables.
Proof.
  intros incoming tables' Hin Hwf. unfold tables', upsert_cursor. fold incoming.
  cbn [rt_cursors rt_quarantine rt_rejections].
  split_and!; [|intros k Hk; by rewrite lookup_insert_ne|done|done].
  rewrite lookup_insert_eq. eexists. split; [done|].
  destruct (rt_cursors tables !! (workspace, provider)) as [stored|] eqn:E.
  - specialize (Hwf _ _ E). simpl in Hwf. rewrite cursor_advances_spec by done.
    destruct (ltb stored incoming) eqn:El.
    + split; [done|]. split; [apply leb_refl|]. split; [by apply ltb_leb|by right].
    + split; [done|]. split; [by rewrite leb_negb_ltb, El|]. split; [apply leb_refl|by left].
  - split; [done|]. split; [apply leb_refl|done].
Qed.

(** What a write must agree with when the receipt is already in quarantine. *)
Definition same_quarantine (stored : StoredSyncQuarantine) (write : SyncQuarantineWrite) : Prop :=
  sq_routed_operation_id stored = qw_routed_operation_id write
  /\ sq_device_id stored = qw_device_id write /\ sq_device_sequence stored = qw_device_sequence write
  /\ sq_safe_error_code stored = qw_safe_error_code write /\ sq_envelope stored = qw_envelope write.

(** Quarantine keeps the first envelope of a receipt: a write succeeds exactly when it
    is valid and agrees with what is stored under its receipt, if anything is; the
    row is then present with the write's envelope and code, an earlier row is not
    touched, and every other receipt is as it was. *)
Theorem quarantine_exact tables write :
  match quarantine_sync_receipt tables write with
  | Ok (tables', disposition) =>
      validate_quarantine_write write = Ok tt
      /\ (forall k, k <> quarantine_key write -> rt_quarantine tables' !! k = rt_quarantine tables !! k)
      /\ (exists stored, rt_quarantine tables' !! quarantine_key write = Some stored
            /\ same_quarantine stored write
            /\ match disposition with
               | QuarantineExactReplay => rt_quarantine tables !! quarantine_key write = Some stored
               | QuarantineInserted => rt_quarantine tables !! quarantine_key write = None
                                       /\ stored = quarantine_row write
               end)
      /\ rt_rejections tables' = rt_rejections tables
  | Err _ => (validate_quarantine_write write <> Ok tt) \/ i64_max < qw_quarantined_at_ms write
      \/ exists stored, rt_quarantine tables !! quarantine_key write = Some stored
           /\ ~ same_quarantine stored write
  end.
Proof.
  unfold quarantine_sync_receipt. destruct (validate_quarantine_write write) as [[]|]; [|by left].
  cbn [rbind]. unfold sqlite_ms. destruct (N.leb_spec (qw_quarantined_at_ms write) i64_max);
    cbn [rbind]; [|right; by left].
  destruct (rt_quarantine tables !! quarantine_key write) as [stored|] eqn:E.
  - destruct (_ || _) eqn:Ec.
    + right. right. exists stored. split; [done|]. intros (E1 & E2 & E3 & E4 & E5).
      rewrite !bool_decide_eq_true_2, E3, N.eqb_refl in Ec by done. done.
    + wf_inv. assert (Hq : forall t, rt_quarantine (if qw_advance_cursor write then
        upsert_cursor t (qw_workspace_id write) (qw_provider write) (qw_received_at write)
          (qw_receipt_operation_id write) else t) = rt_quarantine t
        /\ rt_rejections (if qw_advance_cursor write then
        upsert_cursor t (qw_workspace_id write) (qw_provider write) (qw_received_at write)
          (qw_receipt_operation_id write) else t) = rt_rejections t)
        by (intros t; by destruct (qw_advance_cursor write)).
      destruct (Hq tables) as [-> ->]. split_and!; try done. exists stored. done.
  - destruct (qw_advance_cursor write); simpl;
      (split; [done|]; split; [intros k Hk; by rewrite lookup_insert_ne|]; split; [|done]);
      (eexists; rewrite lookup_insert_eq; split; [done|]; done).
Qed.

End facts.

Module ReceiptsWitness.
#[local] Existing Instances rfc9562 rfc9562_laws Toy.toy.

Definition tables : ReceiptTables := {|
  rt_cursors := {[ (Fixture.id, "memory"%string) :=
    {| cur_received_at := lit "memory-2"; cur_operation_id := Fixture.id |} ]};
  rt_quarantine := ∅; rt_rejections := ∅ |}.

Lemma cursor_never_moves_back_witness :
  exists c, rt_cursors (upsert_cursor tables Fixture.id "memory" (lit "memory-1") Fixture.id)
              !! (Fixture.id, "memory"%string) = Some c
    /\ leb {| cur_received_at := lit "memory-2"; cur_operation_id := Fixture.id |} c = true.
Proof.
  destruct (cursor_never_moves_back tables Fixture.id "memory" (lit "memory-1") Fixture.id)
    as ((c & Hc & _ & _ & Hm) & _).
  - split; reflexivity.
  - apply map_Forall_singleton. split; reflexivity.
  - exists c. split; [exact Hc|]. exact (proj1 Hm).
Defined.

End ReceiptsWitness.
