(* ===== verification/EnginePull.v ===== *)
(** * Pulling from the transport (core/sync/engine/pull.rs, engine.rs)

    The pull half of a sync cycle as the code has it: a continuation that asks for
    one request at a time.  [prepare_pull] asks for the first page; [finish_pull]
    takes the response, processes rows until it needs another page, a range of a
    device chain to repair a gap, or is done.

    The vault is the receipt tables of [Receipts] next to the record store, an
    interface: what admission reads ([SyncVault]) and what applying an operation
    writes ([RecordVault]). *)

From S2P Require Import Prelude Ordering BTree Text Protocol Minicbor CanonicalCbor Domain.
From S2P Require Import SyncPayload Crypto Operation Causal Merge Transport StateSummary.
From S2P Require Import Admission MemoryTransport Outbox EnginePush Receipts.

#[local] Open Scope N_scope.

(** ** Interface of the record store *)

(** [apply_operation] is [apply_admitted_operation_inner] without the cursor: it
    validates, merges, materialises and stores an admitted operation.
    [replay_known] is what [advance_replay_cursor] checks before it moves the cursor:
    the operation is stored, in the workspace, and made by a current device. *)
Class RecordVault (R M : Type) := {
  apply_operation :
    R -> AdmittedOperation -> M -> rstr -> N -> result VaultError (R * MergeDecision);
  replay_known :
    R -> WorkspaceId -> OperationId -> option MembershipEndpoint -> result VaultError unit;
}.

Record PullVault (R : Type) := { pv_records : R; pv_receipts : ReceiptTables }.
Arguments pv_records {R}.
Arguments pv_receipts {R}.

(** ** Requests, responses, continuations *)

Inductive PullRequest :=
| RequestOperations (cursor : option SyncCursor) (limit : N)
| RequestDeviceRange (device : DeviceId) (first last : N).

Inductive PullResponse :=
| ResponseOperations (page : PullPage)
| ResponseDeviceRange (rows : list ReceivedOperation).

Record RepairState := {
  rs_device : DeviceId;
  rs_next : N;
  rs_end : N;
  rs_blocker : ReceivedOperation;
}.

Record PullState := {
  ps_scope : SyncScope;
  ps_provider : SyncProvider;
  ps_max_operations : N;
  ps_max_bytes : N;
  ps_processed : N;
  ps_processed_bytes : N;
  ps_report : SyncCycleReport;
  ps_rows : list ReceivedOperation;
  ps_repair : option RepairState;
  ps_repaired_blocker : bool;
}.

Record PreparedPull := {
  pl_state : PullState;
  pl_request : PullRequest;
  pl_expected_cursor : option SyncCursor;
}.

Inductive PullProgress :=
| PullRequested (prepared : PreparedPull)
| PullComplete (report : SyncCycleReport).

Inductive GapRepairOutcome := RepairComplete | RepairPending | RepairBlockedByQuarantine.

(** Field updates. *)
Definition set_more_work (r : SyncCycleReport) (b : bool) : SyncCycleReport := {|
  rep_pushed := rep_pushed r; rep_duplicates := rep_duplicates r; rep_pulled := rep_pulled r;
  rep_applied := rep_applied r; rep_conflicts := rep_conflicts r;
  rep_quarantined := rep_quarantined r; rep_gaps_repaired := rep_gaps_repaired r;
  rep_checkpointed := rep_checkpointed r; rep_more_work := b |}.

Definition add_pulled (r : SyncCycleReport) (n : N) : SyncCycleReport := {|
  rep_pushed := rep_pushed r; rep_duplicates := rep_duplicates r;
  rep_pulled := saturating_add usize_max (rep_pulled r) n;
  rep_applied := rep_applied r; rep_conflicts := rep_conflicts r;
  rep_quarantined := rep_quarantined r; rep_gaps_repaired := rep_gaps_repaired r;
  rep_checkpointed := rep_checkpointed r; rep_more_work := rep_more_work r |}.

Definition add_quarantined (r : SyncCycleReport) : SyncCycleReport := {|
  rep_pushed := rep_pushed r; rep_duplicates := rep_duplicates r; rep_pulled := rep_pulled r;
  rep_applied := rep_applied r; rep_conflicts := rep_conflicts r;
  rep_quarantined := rep_quarantined r + 1; rep_gaps_repaired := rep_gaps_repaired r;
  rep_checkpointed := rep_checkpointed r; rep_more_work := rep_more_work r |}.

Definition add_gap_repaired (r : SyncCycleReport) : SyncCycleReport := {|
  rep_pushed := rep_pushed r; rep_duplicates := rep_duplicates r; rep_pulled := rep_pulled r;
  rep_applied := rep_applied r; rep_conflicts := rep_conflicts r;
  rep_quarantined := rep_quarantined r; rep_gaps_repaired := rep_gaps_repaired r + 1;
  rep_checkpointed := rep_checkpointed r; rep_more_work := rep_more_work r |}.

Definition record_apply (r : SyncCycleReport) (decision : MergeDecision) : SyncCycleReport := {|
  rep_pushed := rep_pushed r; rep_duplicates := rep_duplicates r; rep_pulled := rep_pulled r;
  rep_applied := rep_applied r + 1;
  rep_conflicts := match decision with AddConflictHead _ => rep_conflicts r + 1
                                     | _ => rep_conflicts r end;
  rep_quarantined := rep_quarantined r; rep_gaps_repaired := rep_gaps_repaired r;
  rep_checkpointed := rep_checkpointed r; rep_more_work := rep_more_work r |}.

Definition with_progress (s : PullState) (processed processed_bytes : N)
    (report : SyncCycleReport) : PullState := {|
  ps_scope := ps_scope s; ps_provider := ps_provider s;
  ps_max_operations := ps_max_operations s; ps_max_bytes := ps_max_bytes s;
  ps_processed := processed; ps_processed_bytes := processed_bytes; ps_report := report;
  ps_rows := ps_rows s; ps_repair := ps_repair s; ps_repaired_blocker := ps_repaired_blocker s |}.

Definition with_rows (s : PullState) (rows : list ReceivedOperation) (repaired_blocker : bool)
    : PullState := {|
  ps_scope := ps_scope s; ps_provider := ps_provider s;
  ps_max_operations := ps_max_operations s; ps_max_bytes := ps_max_bytes s;
  ps_processed := ps_processed s; ps_processed_bytes := ps_processed_bytes s;
  ps_report := ps_report s; ps_rows := rows; ps_repair := ps_repair s;
  ps_repaired_blocker := repaired_blocker |}.

Definition with_repair (s : PullState) (repair : option RepairState) : PullState := {|
  ps_scope := ps_scope s; ps_provider := ps_provider s;
  ps_max_operations := ps_max_operations s; ps_max_bytes := ps_max_bytes s;
  ps_processed := ps_processed s; ps_processed_bytes := ps_processed_bytes s;
  ps_report := ps_report s; ps_rows := ps_rows s; ps_repair := repair;
  ps_repaired_blocker := ps_repaired_blocker s |}.

(** One row set aside: quarantined and processed. *)
Definition set_aside (s : PullState) : PullState :=
  with_progress s (ps_processed s + 1) (ps_processed_bytes s) (add_quarantined (ps_report s)).

Definition complete (s : PullState) (more_work : bool) : PullProgress :=
  PullComplete (set_more_work (ps_report s) (rep_more_work (ps_report s) || more_work)).

(** ** Helpers of engine.rs *)

Definition quarantine_vault_error (error : VaultError) : SyncCycleError :=
  match error with
  | VaultOperationConflict | Validation _ => cycle_error "integrity_quarantined"
  | _ => cycle_error "transient"
  end.

Definition require_quarantinable (error : SyncError) : result SyncCycleError unit :=
  match error with
  | InvalidIdentity => Err (cycle_error "revoked")
  | PersistenceFailed => Err (cycle_error "transient")
  | _ => Ok tt
  end.

Definition reserve_bytes (total addition maximum : N) : option N :=
  match checked_add usize_max total addition with
  | None => None
  | Some next => if maximum <? next then None else Some next
  end.

Definition validate_receipt_binding (row : ReceivedOperation) : result SyncCycleError unit :=
  if negb (bool_decide (cur_operation_id (rec_cursor row) = can_operation_id (rec_operation row)))
     || bad_received_at (cur_received_at (rec_cursor row))
  then Err (cycle_error "integrity_quarantined") else Ok tt.

(** [compare_cursor] is the order of cursors of [Transport]; [max_by] keeps the last of
    several maxima. *)
Definition max_cursor (rows : list ReceivedOperation) : option SyncCursor :=
  foldl (fun best row =>
    match best with
    | None => Some (rec_cursor row)
    | Some c => Some (if leb c (rec_cursor row) then rec_cursor row else c)
    end) None rows.

Definition validate_page (after : option SyncCursor) (rows : list ReceivedOperation)
    (next_cursor : option SyncCursor) (limit : N) : result SyncCycleError unit :=
  if (limit <? len rows) || (MAX_BATCH <? len rows)
  then Err (cycle_error "configuration_error") else
  if bool_decide (rows = []) then
    if bool_decide (next_cursor = None) then Ok tt else Err (cycle_error "configuration_error")
  else
  if negb (bool_decide (next_cursor = max_cursor rows))
     || match after with
        | None => false
        | Some a => existsb (fun row => leb (rec_cursor row) a) rows
        end
  then Err (cycle_error "configuration_error") else Ok tt.

Definition validate_existing_quarantine (stored : StoredSyncQuarantine) (row : ReceivedOperation)
    : result SyncCycleError unit :=
  let o := rec_operation row in
  if negb (bool_decide (sq_receipt_operation_id stored = cur_operation_id (rec_cursor row)))
     || negb (bool_decide (sq_routed_operation_id stored = can_operation_id o))
     || negb (bool_decide (sq_device_id stored = can_device_id o))
     || negb (sq_device_sequence stored =? can_device_sequence o)
     || negb (bool_decide (sq_envelope stored = can_bytes o))
  then Err (cycle_error "integrity_quarantined") else Ok tt.

Section pull.
Context `{UuidCrate} `{Minicbor} `{RecordJson} `{Primitives}.
Context {R M : Type} `{TrustedSyncMaterial M} `{SyncVault R M} `{RecordVault R M}.
Implicit Type v : PullVault R.

Definition validate_existing_rejection (stored : StoredSyncRejection) (row : ReceivedOperation)
    : result SyncCycleError unit :=
  let o := rec_operation row in
  if negb (bool_decide (sr_receipt_operation_id stored = cur_operation_id (rec_cursor row)))
     || negb (bool_decide (sr_routed_operation_id stored = can_operation_id o))
     || negb (bool_decide (sr_device_id stored = can_device_id o))
     || negb (sr_device_sequence stored =? can_device_sequence o)
     || negb (bool_decide (sr_safe_error_code stored = "integrity_quarantined"%string))
     || negb (sr_claimed_byte_length stored =? len (can_bytes o))
     || negb (bool_decide (sr_received_sha256 stored = sha256 (can_bytes o)))
  then Err (cycle_error "integrity_quarantined") else Ok tt.

Definition validate_received (scope : SyncScope) (row : ReceivedOperation)
    : result SyncCycleError unit :=
  let bad := cycle_error "integrity_quarantined" in
  let? operation := map_err (fun _ => bad) (decode_sync_operation_v1 (can_bytes (rec_operation row))) in
  let? canonical := map_err (fun _ => bad) (encode_sync_operation_v1 operation) in
  let o := rec_operation row in
  if negb (bool_decide (canonical = can_bytes o))
     || negb (bool_decide (op_operation_id operation = can_operation_id o))
     || negb (bool_decide (op_device_id operation = can_device_id o))
     || negb (op_device_sequence operation =? can_device_sequence o)
     || negb (bool_decide (op_account_id operation = scope_account_id scope))
     || negb (bool_decide (op_workspace_id operation = scope_workspace_id scope))
  then Err bad else Ok tt.

Definition existing_quarantine (self : SyncEngine) v (row : ReceivedOperation)
    : result SyncCycleError (option StoredSyncQuarantine) :=
  map_err quarantine_vault_error
    (quarantined_sync_receipt (pv_receipts v) (scope_account_id (eng_scope self))
       (scope_workspace_id (eng_scope self)) (provider_as_str (eng_provider self))
       (cur_received_at (rec_cursor row)) (cur_operation_id (rec_cursor row))).

Definition existing_rejection (self : SyncEngine) v (row : ReceivedOperation)
    : result SyncCycleError (option StoredSyncRejection) :=
  map_err quarantine_vault_error
    (rejected_sync_receipt (pv_receipts v) (scope_account_id (eng_scope self))
       (scope_workspace_id (eng_scope self)) (provider_as_str (eng_provider self))
       (cur_received_at (rec_cursor row)) (cur_operation_id (rec_cursor row))).

Definition with_receipts v (receipts : ReceiptTables) : PullVault R :=
  {| pv_records := pv_records v; pv_receipts := receipts |}.

Definition quarantine_write (self : SyncEngine) (row : ReceivedOperation) (code : string)
    (now_ms : N) (advance_cursor : bool) : SyncQuarantineWrite := {|
  qw_account_id := scope_account_id (eng_scope self);
  qw_workspace_id := scope_workspace_id (eng_scope self);
  qw_provider := provider_as_str (eng_provider self);
  qw_received_at := cur_received_at (rec_cursor row);
  qw_receipt_operation_id := cur_operation_id (rec_cursor row);
  qw_routed_operation_id := can_operation_id (rec_operation row);
  qw_device_id := can_device_id (rec_operation row);
  qw_device_sequence := can_device_sequence (rec_operation row);
  qw_safe_error_code := code; qw_envelope := can_bytes (rec_operation row);
  qw_quarantined_at_ms := now_ms; qw_advance_cursor := advance_cursor |}.

Definition persist_quarantine (self : SyncEngine) v (row : ReceivedOperation) (code : string)
    (now_ms : N) (advance_cursor : bool) : result SyncCycleError (PullVault R) :=
  let? (receipts, _) := map_err quarantine_vault_error
    (quarantine_sync_receipt (pv_receipts v) (quarantine_write self row code now_ms advance_cursor)) in
  Ok (with_receipts v receipts).

Definition rejection_write (self : SyncEngine) (row : ReceivedOperation) (now_ms : N)
    (advance_cursor : bool) : SyncRejectionWrite := {|
  rw_account_id := scope_account_id (eng_scope self);
  rw_workspace_id := scope_workspace_id (eng_scope self);
  rw_provider := provider_as_str (eng_provider self);
  rw_received_at := cur_received_at (rec_cursor row);
  rw_receipt_operation_id := cur_operation_id (rec_cursor row);
  rw_routed_operation_id := can_operation_id (rec_operation row);
  rw_device_id := can_device_id (rec_operation row);
  rw_device_sequence := can_device_sequence (rec_operation row);
  rw_safe_error_code := "integrity_quarantined"; rw_received_bytes := can_bytes (rec_operation row);
  rw_rejected_at_ms := now_ms; rw_advance_cursor := advance_cursor |}.

Definition persist_rejection (self : SyncEngine) v (row : ReceivedOperation) (now_ms : N)
    (advance_cursor : bool) : result SyncCycleError (PullVault R) :=
  let? (receipts, _) := map_err quarantine_vault_error
    (reject_oversized_sync_receipt (pv_receipts v) (rejection_write self row now_ms advance_cursor)) in
  Ok (with_receipts v receipts).

(** ** Vault methods over both stores *)

Definition vault_cursor (self : SyncEngine) v : result SyncCycleError (option SyncCursor) :=
  map_err local_error (sync_cursor (pv_receipts v) (scope_workspace_id (eng_scope self))
                         (provider_as_str (eng_provider self))).

Definition advance_replay_cursor v (workspace : WorkspaceId) (provider : string)
    (received_at : rstr) (operation_id : OperationId)
    (expected_membership : option MembershipEndpoint) : result VaultError (PullVault R) :=
  let? _ := validate_sync_provider_v1 provider in
  let? _ := validate_received_at received_at in
  let? _ := replay_known (pv_records v) workspace operation_id expected_membership in
  Ok (with_receipts v (upsert_cursor (pv_receipts v) workspace provider received_at operation_id)).

Definition apply_admitted_operation_at v (admitted : AdmittedOperation) (trusted_material : M)
    (provider : string) (received_at : rstr) (applied_at_ms : N)
    : result VaultError (PullVault R * MergeDecision) :=
  let? _ := validate_sync_provider_v1 provider in
  let? _ := validate_received_at received_at in
  let? (records, decision) :=
    apply_operation (pv_records v) admitted trusted_material received_at applied_at_ms in
  Ok ({| pv_records := records;
         pv_receipts := upsert_cursor (pv_receipts v) (op_workspace_id (adm_operation admitted))
                          provider received_at (op_operation_id (adm_operation admitted)) |},
      decision).

Definition apply_repaired_operation_at v (admitted : AdmittedOperation) (trusted_material : M)
    (received_at : rstr) (applied_at_ms : N) : result VaultError (PullVault R * MergeDecision) :=
  let? _ := validate_received_at received_at in
  let? (records, decision) :=
    apply_operation (pv_records v) admitted trusted_material received_at applied_at_ms in
  Ok ({| pv_records := records; pv_receipts := pv_receipts v |}, decision).

(** ** Asking for more *)

Definition request_pull (self : SyncEngine) v (state : PullState) (request : PullRequest)
    : result SyncCycleError PullProgress :=
  let? expected_cursor := vault_cursor self v in
  Ok (PullRequested {| pl_state := state; pl_request := request;
                       pl_expected_cursor := expected_cursor |}).

Definition next_page (self : SyncEngine) v (state : PullState)
    : result SyncCycleError PullProgress :=
  if ps_processed state =? eng_max_operations self then Ok (complete state true) else
  let? cursor := vault_cursor self v in
  let limit := N.min (eng_max_operations self - ps_processed state) MAX_BATCH in
  request_pull self v state (RequestOperations cursor limit).

Definition next_repair (self : SyncEngine) v (state : PullState)
    : result SyncCycleError PullProgress :=
  if ps_processed state =? eng_max_operations self then Ok (complete state true) else
  let? repair := ok_or (ps_repair state) (cycle_error "configuration_error") in
  let capacity := N.min (eng_max_operations self - ps_processed state) MAX_BATCH in
  let last := N.min (saturating_add u64_max (rs_next repair) (saturating_sub capacity 1))
                (rs_end repair) in
  request_pull self v state (RequestDeviceRange (rs_device repair) (rs_next repair) last).

Definition prepare_pull (self : SyncEngine) v : result SyncCycleError PullProgress :=
  next_page self v {|
    ps_scope := eng_scope self; ps_provider := eng_provider self;
    ps_max_operations := eng_max_operations self; ps_max_bytes := eng_max_bytes self;
    ps_processed := 0; ps_processed_bytes := 0; ps_report := SyncCycleReport_empty;
    ps_rows := []; ps_repair := None; ps_repaired_blocker := false |}.

(** ** advance_pull *)

(** What one row leads to. *)
Inductive RowStep :=
| RowDone (v : PullVault R) (state : PullState)
| RowStop (v : PullVault R) (progress : PullProgress)
| RowGap (v : PullVault R) (state : PullState).

Definition set_row_aside (self : SyncEngine) v (state : PullState) (row : ReceivedOperation)
    (code : string) (now_ms : N) : result SyncCycleError RowStep :=
  let? v := persist_quarantine self v row code now_ms true in
  Ok (RowDone v (set_aside state)).

(** The body of the loop, from the row taken off the queue. *)
Definition process_row (self : SyncEngine) v (state : PullState) (was_repaired : bool)
    (row : ReceivedOperation) (trusted_material : M) (now_ms : N) : result SyncCycleError RowStep :=
  let? _ := validate_receipt_binding row in
  if ps_processed state =? eng_max_operations self then Ok (RowStop v (complete state true)) else
  let? quarantined := existing_quarantine self v row in
  match quarantined with
  | Some stored =>
    let? _ := validate_existing_quarantine stored row in
    set_row_aside self v state row (sq_safe_error_code stored) now_ms
  | None =>
  let? rejected := existing_rejection self v row in
  match rejected with
  | Some stored =>
    let? _ := validate_existing_rejection stored row in
    let? v := persist_rejection self v row now_ms true in
    Ok (RowDone v (set_aside state))
  | None =>
  let size := len (can_bytes (rec_operation row)) in
  if MAX_CBOR_OPERATION_BYTES <? size then
    let? v := persist_rejection self v row now_ms true in
    Ok (RowDone v (set_aside state))
  else
  match reserve_bytes (ps_processed_bytes state) size (eng_max_bytes self) with
  | None => Ok (RowStop v (complete state true))
  | Some reserved =>
  let reserved_state := with_progress state (ps_processed state) reserved (ps_report state) in
  if is_err (validate_received (eng_scope self) row) then
    set_row_aside self v reserved_state row "integrity_quarantined" now_ms
  else
  match admit_operation (pv_records v) (can_bytes (rec_operation row)) trusted_material with
  | Ok (ExactReplay operation_id) =>
    if negb (bool_decide (operation_id = can_operation_id (rec_operation row)))
    then Err (cycle_error "integrity_quarantined") else
    let? v := map_err local_error
      (advance_replay_cursor v (scope_workspace_id (eng_scope self))
         (provider_as_str (eng_provider self)) (cur_received_at (rec_cursor row)) operation_id
         (membership_endpoint trusted_material)) in
    Ok (RowDone v (with_progress reserved_state (ps_processed state + 1) reserved (ps_report state)))
  | Ok (AdmittedAs admitted) =>
    let? (v, decision) := map_err local_error
      (apply_admitted_operation_at v admitted trusted_material
         (provider_as_str (eng_provider self)) (cur_received_at (rec_cursor row)) now_ms) in
    Ok (RowDone v (with_progress reserved_state (ps_processed state + 1) reserved
                     (record_apply (ps_report state) decision)))
  | Ok (Gap first last) =>
    (* the reservation is returned: [processed_bytes -= len] *)
    if was_repaired then Ok (RowStop v (complete state true)) else
    Ok (RowGap v (with_repair state (Some {|
      rs_device := can_device_id (rec_operation row); rs_next := first; rs_end := last;
      rs_blocker := row |})))
  | Err error =>
    let? _ := require_quarantinable error in
    set_row_aside self v reserved_state row "integrity_quarantined" now_ms
  end
  end
  end
  end.

(** [while let Some(row) = state.rows.pop_front()]. *)
Fixpoint advance_rows (self : SyncEngine) v (state : PullState) (rows : list ReceivedOperation)
    (trusted_material : M) (now_ms : N) : PullVault R * result SyncCycleError PullProgress :=
  match rows with
  | [] => (v, next_page self v (with_rows state [] (ps_repaired_blocker state)))
  | row :: rest =>
    let was_repaired := ps_repaired_blocker state in
    let state := with_rows state rest false in
    match process_row self v state was_repaired row trusted_material now_ms with
    | Err e => (v, Err e)
    | Ok (RowStop v progress) => (v, Ok progress)
    | Ok (RowGap v state) => (v, next_repair self v state)
    | Ok (RowDone v state) => advance_rows self v state rest trusted_material now_ms
    end
  end.

Definition advance_pull (self : SyncEngine) v (state : PullState) (trusted_material : M)
    (now_ms : N) : PullVault R * result SyncCycleError PullProgress :=
  advance_rows self v state (ps_rows state) trusted_material now_ms.

(** ** apply_repair_rows *)

Inductive RepairStep :=
| RepairNext (v : PullVault R) (state : PullState)
| RepairStop (v : PullVault R) (state : PullState) (outcome : GapRepairOutcome).

(** [state.report.quarantined += 1; return Ok(BlockedByQuarantine)]. *)
Definition blocked (v : PullVault R) (state : PullState) : RepairStep :=
  RepairStop v (with_progress state (ps_processed state) (ps_processed_bytes state)
                  (add_quarantined (ps_report state))) RepairBlockedByQuarantine.

(** The first loop: the rows are the requested range of the device's chain. *)
Fixpoint check_repair_rows (device : DeviceId) (expected : N) (rows : list ReceivedOperation)
    : result SyncCycleError unit :=
  match rows with
  | [] => Ok tt
  | row :: rest =>
    if negb (bool_decide (can_device_id (rec_operation row) = device))
       || negb (can_device_sequence (rec_operation row) =? expected)
    then Err (cycle_error "integrity_quarantined") else
    let? _ := validate_receipt_binding row in
    check_repair_rows device (expected + 1) rest
  end.

(** The body of the second loop. *)
Definition repair_row (self : SyncEngine) v (state : PullState) (row : ReceivedOperation)
    (trusted_material : M) (now_ms : N) : result SyncCycleError RepairStep :=
  let? quarantined := existing_quarantine self v row in
  match quarantined with
  | Some stored =>
    let? _ := validate_existing_quarantine stored row in Ok (blocked v state)
  | None =>
  let? rejected := existing_rejection self v row in
  match rejected with
  | Some stored =>
    let? _ := validate_existing_rejection stored row in Ok (blocked v state)
  | None =>
  let size := len (can_bytes (rec_operation row)) in
  if MAX_CBOR_OPERATION_BYTES <? size then
    let? v := persist_rejection self v row now_ms false in Ok (blocked v state)
  else
  match reserve_bytes (ps_processed_bytes state) size (eng_max_bytes self) with
  | None => Ok (RepairStop v state RepairPending)
  | Some reserved =>
  let reserved_state := with_progress state (ps_processed state) reserved (ps_report state) in
  if is_err (validate_received (eng_scope self) row) then
    let? v := persist_quarantine self v row "integrity_quarantined" now_ms false in
    Ok (blocked v reserved_state)
  else
  match admit_operation (pv_records v) (can_bytes (rec_operation row)) trusted_material with
  | Ok (AdmittedAs admitted) =>
    let? (v, decision) := map_err local_error
      (apply_repaired_operation_at v admitted trusted_material
         (cur_received_at (rec_cursor row)) now_ms) in
    Ok (RepairNext v (with_progress state (ps_processed state + 1) reserved
                        (add_gap_repaired (record_apply (ps_report state) decision))))
  | Ok (ExactReplay operation_id) =>
    if bool_decide (operation_id = can_operation_id (rec_operation row)) then
      Ok (RepairNext v (with_progress state (ps_processed state + 1) reserved
                          (add_gap_repaired (ps_report state))))
    else Err (cycle_error "integrity_quarantined")
  | Ok (Gap _ _) => Err (cycle_error "integrity_quarantined")
  | Err error =>
    let? _ := require_quarantinable error in
    let? v := persist_quarantine self v row "integrity_quarantined" now_ms false in
    Ok (blocked v reserved_state)
  end
  end
  end
  end.

Fixpoint repair_rows (self : SyncEngine) v (state : PullState) (rows : list ReceivedOperation)
    (trusted_material : M) (now_ms : N)
    : PullVault R * result SyncCycleError (PullState * GapRepairOutcome) :=
  match rows with
  | [] => (v, Ok (state, RepairComplete))
  | row :: rest =>
    match repair_row self v state row trusted_material now_ms with
    | Err e => (v, Err e)
    | Ok (RepairStop v state outcome) => (v, Ok (state, outcome))
    | Ok (RepairNext v state) => repair_rows self v state rest trusted_material now_ms
    end
  end.

(** The range is [first..=last] with [first <= last] (see [request_ok]). *)
Definition apply_repair_rows (self : SyncEngine) v (state : PullState) (device : DeviceId)
    (first last : N) (rows : list ReceivedOperation) (trusted_material : M) (now_ms : N)
    : PullVault R * result SyncCycleError (PullState * GapRepairOutcome) :=
  let rows := sort_by_key (fun row => can_device_sequence (rec_operation row)) rows in
  let expected_count := last - first + 1 in
  if usize_max <? expected_count then (v, Err (cycle_error "configuration_error")) else
  if negb (len rows =? expected_count) then (v, Ok (state, RepairPending)) else
  match check_repair_rows device first rows with
  | Err e => (v, Err e)
  | Ok _ => repair_rows self v state rows trusted_material now_ms
  end.

(** ** finish_pull *)

(** A blocker that cannot be repaired is set aside after its predecessors' fate is
    recorded. *)
Definition set_blocker_aside (self : SyncEngine) v (state : PullState) (trusted_material : M)
    (now_ms : N) : PullVault R * result SyncCycleError PullProgress :=
  match ps_repair state with
  | None => (v, Err (cycle_error "configuration_error"))
  | Some repair =>
    let blocker := rs_blocker repair in
    let state := with_repair state None in
    if ps_processed state =? eng_max_operations self then (v, Ok (complete state true)) else
    match reserve_bytes (ps_processed_bytes state) (len (can_bytes (rec_operation blocker)))
            (eng_max_bytes self) with
    | None => (v, Ok (complete state true))
    | Some reserved =>
      match persist_quarantine self v blocker "gap_pending" now_ms true with
      | Err e => (v, Err e)
      | Ok v =>
        advance_pull self v (with_progress state (ps_processed state + 1) reserved
                               (add_quarantined (ps_report state))) trusted_material now_ms
      end
    end
  end.

(** A repaired chunk: the next chunk of the gap, or the blocker again. *)
Definition continue_repair (self : SyncEngine) v (state : PullState) (last : N)
    (trusted_material : M) (now_ms : N) : PullVault R * result SyncCycleError PullProgress :=
  match ps_repair state with
  | None => (v, Err (cycle_error "configuration_error"))
  | Some repair =>
    let again :=
      match checked_add u64_max last 1 with
      | Some next => if next <=? rs_end repair then Some next else None
      | None => None
      end in
    match again with
    | Some next =>
      (v, next_repair self v (with_repair state (Some {|
            rs_device := rs_device repair; rs_next := next; rs_end := rs_end repair;
            rs_blocker := rs_blocker repair |})))
    | None =>
      let state := with_repair state None in
      advance_pull self v (with_rows state (rs_blocker repair :: ps_rows state) true)
        trusted_material now_ms
    end
  end.

Definition finish_pull (self : SyncEngine) v (prepared : PreparedPull) (response : PullResponse)
    (trusted_material : M) (now_ms : N) : PullVault R * result SyncCycleError PullProgress :=
  let state := pl_state prepared in
  if negb (bool_decide (ps_scope state = eng_scope self))
     || negb (bool_decide (ps_provider state = eng_provider self))
     || negb (ps_max_operations state =? eng_max_operations self)
     || negb (ps_max_bytes state =? eng_max_bytes self)
  then (v, Err (cycle_error "integrity_quarantined")) else
  match vault_cursor self v with
  | Err e => (v, Err e)
  | Ok cursor =>
    if negb (bool_decide (cursor = pl_expected_cursor prepared))
    then (v, Err (cycle_error "integrity_quarantined")) else
    match pl_request prepared, response with
    | RequestOperations cursor limit, ResponseOperations page =>
      match validate_page cursor (page_rows page) (page_next_cursor page) limit with
      | Err e => (v, Err e)
      | Ok _ =>
        if bool_decide (page_rows page = []) then (v, Ok (complete state false)) else
        let state := with_progress state (ps_processed state) (ps_processed_bytes state)
                       (add_pulled (ps_report state) (len (page_rows page))) in
        advance_pull self v (with_rows state (sort_by_key rec_cursor (page_rows page))
                               (ps_repaired_blocker state)) trusted_material now_ms
      end
    | RequestDeviceRange device first last, ResponseDeviceRange rows =>
      match apply_repair_rows self v state device first last rows trusted_material now_ms with
      | (v, Err e) => (v, Err e)
      | (v, Ok (state, RepairPending)) => (v, Ok (complete state true))
      | (v, Ok (state, RepairBlockedByQuarantine)) =>
          set_blocker_aside self v state trusted_material now_ms
      | (v, Ok (state, RepairComplete)) =>
          continue_repair self v state last trusted_material now_ms
      end
    | _, _ => (v, Err (cycle_error "integrity_quarantined"))
    end
  end.

End pull.

(** ** The shape of a pull: what is asked for, and when it ends *)

Section shape.
Context `{UuidCrate} `{MinicborLaws} `{RecordJson} `{!RecordJsonLaws} `{Primitives}.
Context {R M : Type} `{!TrustedSyncMaterial M} `{!SyncVault R M} `{!RecordVault R M}.
Implicit Type v : PullVault R.

Lemma missing_range_ordered known op first last :
  missing_range known op = Ok (Some (first, last)) -> first <= last /\ first <= u64_max.
Proof.
  unfold missing_range, checked_sub. intros E. res_inv.
  destruct (_ =? _) eqn:E2 in E; [done|]. res_inv. subst.
  match goal with E : (if ?c then Some _ else None) = Some _ |- _ =>
    destruct c; [injection E as <-|done] end.
  wf_inv. split; [lia|]. destruct known as [head|]; res_inv; [|subst; done].
  match goal with E : checked_add _ _ _ = Some _ |- _ => apply checked_add_Some in E as [-> ?] end.
  done.
Qed.

(** Taking one row: the state it leads to. *)
Lemma process_row_shape self v state was_repaired row (m : M) now_ms step :
  process_row self v state was_repaired row m now_ms = Ok step ->
  match step with
  | RowDone _ state' =>
      ps_processed state <> eng_max_operations self
      /\ exists bytes report, state' = with_progress state (ps_processed state + 1) bytes report
  | RowStop v' progress => v' = v /\ progress = complete state true
  | RowGap v' state' =>
      v' = v /\ was_repaired = false /\ ps_processed state <> eng_max_operations self
      /\ exists repair, state' = with_repair state (Some repair) /\ rs_blocker repair = row
           /\ rs_next repair <= rs_end repair /\ rs_next repair <= u64_max
  end.
Proof.
  unfold process_row, set_row_aside. intros E. apply rbind_unit_Ok in E as [_ E].
  destruct (N.eqb_spec (ps_processed state) (eng_max_operations self)) as [|Hmax];
    [by injection E as <-|].
  apply rbind_Ok in E as ([stored|] & _ & E); [res_inv; subst step; eauto|].
  apply rbind_Ok in E as ([stored|] & _ & E); [res_inv; subst step; eauto|].
  cbv zeta in E. destruct (MAX_CBOR_OPERATION_BYTES <? _); [res_inv; subst step; eauto|].
  destruct (reserve_bytes _ _ _) as [reserved|]; [|by injection E as <-].
  destruct (is_err _); [res_inv; subst step; eauto|].
  destruct (admit_operation _ _ _) as [[i|first last|a]|e] eqn:Ha.
  - res_inv. subst step. eauto.
  - destruct was_repaired; injection E as <-; [done|]. split_and!; try done. eexists.
    split; [done|]. split; [done|].
    apply admit_operation_ok in Ha as (op & trusted & previous & _ & _ & _ & _ & Hm).
    by eapply missing_range_ordered.
  - res_inv. destruct x as [v' decision]. injection E as <-. eauto.
  - res_inv. subst step. eauto.
Qed.

(** What a pull asks for: rows it has room for, at most a batch at a time; a range of
    a chain is the next part of the gap under repair. *)
Definition request_ok (self : SyncEngine) (prepared : PreparedPull) : Prop :=
  let state := pl_state prepared in
  match pl_request prepared with
  | RequestOperations cursor limit =>
      cursor = pl_expected_cursor prepared /\ ps_repair state = None
      /\ 1 <= limit <= MAX_BATCH /\ ps_processed state + limit <= eng_max_operations self
  | RequestDeviceRange device first last =>
      first <= last /\ last - first + 1 <= MAX_BATCH
      /\ ps_processed state + (last - first + 1) <= eng_max_operations self
      /\ exists repair, ps_repair state = Some repair /\ device = rs_device repair
           /\ first = rs_next repair /\ last <= rs_end repair
  end.

(** Decreases with every request. *)
Definition work_left (self : SyncEngine) (prepared : PreparedPull) : N :=
  let room := eng_max_operations self - ps_processed (pl_state prepared) in
  match pl_request prepared with
  | RequestOperations _ _ => 2 * room + 1
  | RequestDeviceRange _ _ _ => 2 * room
  end.

Lemma vault_cursor_Ok self v c :
  vault_cursor self v = Ok c ->
  c = rt_cursors (pv_receipts v)
        !! (scope_workspace_id (eng_scope self), provider_as_str (eng_provider self)).
Proof. unfold vault_cursor, sync_cursor. intros E. by res_inv. Qed.

Lemma next_page_ok self v state prepared :
  next_page self v state = Ok (PullRequested prepared) ->
  ps_processed state <= eng_max_operations self -> ps_repair state = None ->
  request_ok self prepared /\ pl_state prepared = state
  /\ vault_cursor self v = Ok (pl_expected_cursor prepared)
  /\ exists c l, pl_request prepared = RequestOperations c l.
Proof.
  unfold next_page, request_pull. destruct (N.eqb_spec (ps_processed state) (eng_max_operations self));
    [done|].
  intros E ? ?. res_inv. subst prepared. cbn. split_and!; try done; eauto; [congruence|..];
    unfold MAX_BATCH; lia.
Qed.

Lemma next_repair_ok self v state repair prepared :
  next_repair self v state = Ok (PullRequested prepared) ->
  ps_processed state <= eng_max_operations self ->
  ps_repair state = Some repair -> rs_next repair <= rs_end repair -> rs_next repair <= u64_max ->
  request_ok self prepared /\ pl_state prepared = state
  /\ vault_cursor self v = Ok (pl_expected_cursor prepared)
  /\ exists d a b, pl_request prepared = RequestDeviceRange d a b.
Proof.
  unfold next_repair, request_pull.
  destruct (N.eqb_spec (ps_processed state) (eng_max_operations self)); [done|].
  intros E ? Er ? ?. rewrite Er in E. cbn [ok_or rbind] in E. res_inv. subst prepared.
  unfold request_ok. cbn [pl_state pl_request pl_expected_cursor].
  unfold saturating_add, saturating_sub, MAX_BATCH.
  set (room := eng_max_operations self - ps_processed state).
  assert (0 < room) by lia. split_and!; [lia|lia|lia| |done|congruence|eauto].
  exists repair. split_and!; [done|done|done|lia].
Qed.

Lemma advance_rows_shape self (m : M) now_ms rows :
  forall v state v' prepared,
  advance_rows self v state rows m now_ms = (v', Ok (PullRequested prepared)) ->
  ps_processed state <= eng_max_operations self -> ps_repair state = None ->
  request_ok self prepared /\ ps_processed state <= ps_processed (pl_state prepared)
  /\ match pl_request prepared with
     | RequestOperations _ _ => ps_processed (pl_state prepared) = ps_processed state + len rows
     | RequestDeviceRange _ _ _ =>
         ps_repaired_blocker state = true -> ps_processed state < ps_processed (pl_state prepared)
     end.
Proof.
  induction rows as [|row rest IH]; intros v state v' prepared; cbn [advance_rows].
  - intros [= _ E] Hp Hr. apply next_page_ok in E as (Hok & Hs & _ & c & l & Hq); [|done|done].
    rewrite Hq, Hs, len_nil. cbn. split_and!; [done|lia|lia].
  - destruct (process_row _ _ _ _ _ _ _) as [[v1 s1|v1 p1|v1 s1]|e] eqn:Ep; [| | |done];
      apply process_row_shape in Ep; cbn [with_rows ps_processed] in Ep; intros E Hp Hr.
    + destruct Ep as (Hmax & bs & rp & ->). apply IH in E as (Hok & Hle & Hreq); [|cbn; lia|done].
      cbn [with_progress with_rows ps_processed ps_repaired_blocker] in *.
      split_and!; [done|lia|]. rewrite len_cons. destruct (pl_request prepared); [|intros _]; lia.
    + destruct Ep as [-> ->]. done.
    + destruct Ep as (-> & Hw & Hmax & repair & -> & _ & Hle & Hu). injection E as <- E.
      eapply next_repair_ok in E as (Hok & Hs & _ & d & a & b & Hq); try done.
      rewrite Hq, Hs, Hw. by split_and!.
Qed.

Lemma repair_row_shape self v state row (m : M) now_ms step :
  repair_row self v state row m now_ms = Ok step ->
  match step with
  | RepairNext _ state' =>
      exists bytes report, state' = with_progress state (ps_processed state + 1) bytes report
  | RepairStop _ state' outcome =>
      outcome <> RepairComplete
      /\ exists bytes report, state' = with_progress state (ps_processed state) bytes report
  end.
Proof.
  unfold repair_row, blocked. intros E.
  apply rbind_Ok in E as ([stored|] & _ & E); [res_inv; subst step; eauto|].
  apply rbind_Ok in E as ([stored|] & _ & E); [res_inv; subst step; eauto|].
  cbv zeta in E. destruct (MAX_CBOR_OPERATION_BYTES <? _); [res_inv; subst step; eauto|].
  destruct (reserve_bytes _ _ _) as [reserved|].
  2:{ injection E as <-. split; [done|]. exists (ps_processed_bytes state), (ps_report state).
      by destruct state. }
  destruct (is_err _); [res_inv; subst step; eauto|].
  destruct (admit_operation _ _ _) as [[i|first last|a]|e]; [|done| |].
  - res_inv. subst step. eauto.
  - res_inv. destruct x as [v' decision]. injection E as <-. eauto.
  - res_inv. subst step. eauto.
Qed.

Lemma repair_rows_shape self (m : M) now_ms rows :
  forall v state v' state' outcome,
  repair_rows self v state rows m now_ms = (v', Ok (state', outcome)) ->
  exists n bytes report, state' = with_progress state (ps_processed state + n) bytes report
    /\ n <= len rows /\ (outcome = RepairComplete -> n = len rows).
Proof.
  induction rows as [|row rest IH]; intros v state v' state' outcome; cbn [repair_rows].
  - intros [= <- <- <-]. exists 0, (ps_processed_bytes state), (ps_report state).
    rewrite N.add_0_r. split_and!; [by destruct state|done|done].
  - rewrite len_cons. destruct (repair_row _ _ _ _ _ _) as [[v1 s1|v1 s1 o1]|e] eqn:Er; [| |done];
      apply repair_row_shape in Er.
    + intros E. destruct Er as (bs & rp & ->). apply IH in E as (n & bs' & rp' & -> & Hn & Hc).
      exists (1 + n), bs', rp'. cbn [with_progress ps_processed]. rewrite N.add_assoc.
      split_and!; [done|lia|]. intros Ho. specialize (Hc Ho). lia.
    + intros [= <- <- <-]. destruct Er as (Ho & bs & rp & ->). exists 0, bs, rp.
      rewrite N.add_0_r. split_and!; [done|lia|done].
Qed.

Lemma apply_repair_rows_shape self v state device first last rows (m : M) now_ms v' state' outcome :
  apply_repair_rows self v state device first last rows m now_ms = (v', Ok (state', outcome)) ->
  exists n bytes report, state' = with_progress state (ps_processed state + n) bytes report
    /\ n <= last - first + 1 /\ (outcome = RepairComplete -> n = last - first + 1).
Proof.
  unfold apply_repair_rows. destruct (usize_max <? _); [done|].
  set (sorted := sort_by_key _ rows). destruct (N.eqb_spec (len sorted) (last - first + 1)) as [El|].
  - cbn [negb]. destruct (check_repair_rows _ _ _); [|done]. intros E. rewrite <- El.
    by apply repair_rows_shape in E.
  - intros [= <- <- <-]. exists 0, (ps_processed_bytes state), (ps_report state).
    rewrite N.add_0_r. split_and!; [by destruct state|lia|done].
Qed.

Lemma advance_pull_works self v state (m : M) now_ms v' prepared w :
  advance_pull self v state m now_ms = (v', Ok (PullRequested prepared)) ->
  ps_processed state <= eng_max_operations self -> ps_repair state = None ->
  2 * (eng_max_operations self - ps_processed state)
    + (if bool_decide (ps_rows state = []) then 2 else 1) <= w ->
  request_ok self prepared /\ work_left self prepared < w.
Proof.
  unfold advance_pull. intros E Hp Hr Hw.
  apply advance_rows_shape in E as (Hok & Hle & Hreq); [|done|done]. split; [done|].
  unfold work_left, request_ok in *. destruct (pl_request prepared).
  - case_bool_decide as Hrows; [lia|].
    destruct (ps_rows state) as [|row rest]; [done|]. rewrite len_cons in *. lia.
  - case_bool_decide; lia.
Qed.

Lemma finish_pull_shape self v prepared response (m : M) now_ms v' prepared' :
  finish_pull self v prepared response m now_ms = (v', Ok (PullRequested prepared')) ->
  request_ok self prepared ->
  request_ok self prepared' /\ work_left self prepared' < work_left self prepared.
Proof.
  unfold finish_pull. intros E Hok. destruct (_ || _); [done|].
  destruct (vault_cursor self v); [|done]. destruct (negb _); [done|].
  unfold request_ok in Hok. unfold work_left at 2.
  destruct (pl_request prepared) as [cursor limit|device first last],
    response as [page|rows]; [| done | done |].
  - destruct (validate_page _ _ _ _); [|done]. case_bool_decide as Hrows; [done|].
    destruct Hok as (_ & Hr & Hlim & Hroom). eapply advance_pull_works; [exact E|cbn; lia|done|].
    cbn. rewrite bool_decide_eq_false_2; [lia|]. intros Hn. apply Hrows.
    apply (f_equal length) in Hn. rewrite sort_by_key_perm in Hn. by apply nil_length_inv.
  - destruct Hok as (Hle & Hb & Hroom & repair & Hrep & _).
    destruct (apply_repair_rows _ _ _ _ _ _ _ _ _) as [v1 [[s1 outcome]|]] eqn:Ea; [|done].
    apply apply_repair_rows_shape in Ea as (n & bs & rp & -> & Hn & Hc).
    destruct outcome; [|done|].
    + specialize (Hc eq_refl). unfold continue_repair in E. cbn [with_progress ps_repair] in E.
      rewrite Hrep in E. destruct (checked_add u64_max last 1) as [next|] eqn:Enext.
      * apply checked_add_Some in Enext as [-> Hu]. destruct (N.leb_spec (last + 1) (rs_end repair)).
        -- injection E as <- E.
           eapply next_repair_ok in E as (Hok' & Hs & _ & ? & ? & ? & Hq); [|cbn; lia|done|done|done].
           split; [done|]. unfold work_left. rewrite Hq, Hs. cbn. lia.
        -- eapply advance_pull_works; [exact E|cbn; lia|done|cbn; lia].
      * eapply advance_pull_works; [exact E|cbn; lia|done|cbn; lia].
    + unfold set_blocker_aside in E. cbn [with_progress ps_repair] in E. rewrite Hrep in E.
      cbn [with_repair with_progress ps_processed] in E.
      destruct (N.eqb_spec (ps_processed (pl_state prepared) + n) (eng_max_operations self)); [done|].
      destruct (reserve_bytes _ _ _); [|done]. destruct (persist_quarantine _ _ _ _ _ _); [|done].
      eapply advance_pull_works; [exact E|cbn; lia|done|].
      cbn. case_bool_decide; lia.
Qed.

End shape.

(** What the record store promises: an operation that was applied is stored under its
    identifier with its canonical bytes, and stored operations are never replaced. *)
Class RecordVaultLaws (R M : Type) `{SyncVault R M, RecordVault R M} := {
  apply_stores : forall r admitted (m : M) received_at now r' decision,
    apply_operation r admitted m received_at now = Ok (r', decision) ->
    stored_sync_operation M r' (op_operation_id (adm_operation admitted))
    = Ok (Some (adm_canonical_bytes admitted));
  apply_keeps : forall r admitted (m : M) received_at now r' decision id b,
    apply_operation r admitted m received_at now = Ok (r', decision) ->
    stored_sync_operation M r id = Ok (Some b) -> stored_sync_operation M r' id = Ok (Some b);
}.

(** ** Facts *)

Section facts.
Context `{UuidCrate} `{!UuidCrateLaws} `{MinicborLaws} `{RecordJson} `{!RecordJsonLaws} `{Primitives}.
Context {R M : Type} `{!TrustedSyncMaterial M} `{!SyncVault R M} `{!RecordVault R M}
  `{!RecordVaultLaws R M}.
Implicit Type v : PullVault R.

Definition receipt_key (self : SyncEngine) (row : ReceivedOperation) : ReceiptKey :=
  (scope_account_id (eng_scope self), scope_workspace_id (eng_scope self),
   provider_as_str (eng_provider self), cur_received_at (rec_cursor row),
   cur_operation_id (rec_cursor row)).

Definition cursor_of (self : SyncEngine) v : option SyncCursor :=
  rt_cursors (pv_receipts v)
    !! (scope_workspace_id (eng_scope self), provider_as_str (eng_provider self)).

(** The fate of a received row: stored byte for byte, kept in quarantine with its
    bytes, or, when it is too large to keep, remembered by length and digest. *)
Definition settled (self : SyncEngine) v (row : ReceivedOperation) : Prop :=
  let o := rec_operation row in
  stored_sync_operation M (pv_records v) (can_operation_id o) = Ok (Some (can_bytes o))
  \/ (exists q, rt_quarantine (pv_receipts v) !! receipt_key self row = Some q
        /\ sq_envelope q = can_bytes o /\ sq_routed_operation_id q = can_operation_id o)
  \/ (exists r, rt_rejections (pv_receipts v) !! receipt_key self row = Some r
        /\ sr_received_sha256 r = sha256 (can_bytes o)
        /\ sr_claimed_byte_length r = len (can_bytes o)
        /\ MAX_CBOR_OPERATION_BYTES < len (can_bytes o)).

(** Nothing that is remembered is forgotten or replaced. *)
Record extends v v' : Prop := {
  ex_stored : forall id b, stored_sync_operation M (pv_records v) id = Ok (Some b) ->
    stored_sync_operation M (pv_records v') id = Ok (Some b);
  ex_quarantine : rt_quarantine (pv_receipts v) ⊆ rt_quarantine (pv_receipts v');
  ex_rejections : rt_rejections (pv_receipts v) ⊆ rt_rejections (pv_receipts v');
}.

#[export] Instance extends_preorder : PreOrder extends.
Proof.
  split; [split; done|]. intros a b c [] []. split; [eauto|by etrans|by etrans].
Qed.

Lemma settled_mono self v v' row : extends v v' -> settled self v row -> settled self v' row.
Proof.
  intros [Hs Hq Hr] [E|[(q & E & ?)|(r & E & ?)]]; [left; eauto| |].
  - right; left. exists q. split; [|done]. by eapply lookup_weaken.
  - right; right. exists r. split; [|done]. by eapply lookup_weaken.
Qed.

(** The cursor table after a receipt, or as it was. *)
Definition cursor_moved (self : SyncEngine) v (row : ReceivedOperation) (advance : bool) v' : Prop :=
  rt_cursors (pv_receipts v') =
  if advance then
    rt_cursors (upsert_cursor (pv_receipts v) (scope_workspace_id (eng_scope self))
      (provider_as_str (eng_provider self)) (cur_received_at (rec_cursor row))
      (cur_operation_id (rec_cursor row)))
  else rt_cursors (pv_receipts v).

(** The tables after a write: the cursor moved, the rows as given. *)
Definition advance_if (advance : bool) (t : ReceiptTables) (self : SyncEngine)
    (row : ReceivedOperation) : ReceiptTables :=
  if advance then
    upsert_cursor t (scope_workspace_id (eng_scope self)) (provider_as_str (eng_provider self))
      (cur_received_at (rec_cursor row)) (cur_operation_id (rec_cursor row))
  else t.

Lemma advance_if_rows advance t self row :
  rt_quarantine (advance_if advance t self row) = rt_quarantine t
  /\ rt_rejections (advance_if advance t self row) = rt_rejections t.
Proof. by destruct advance. Qed.

Lemma persist_quarantine_Ok self v row code now_ms advance v' :
  persist_quarantine self v row code now_ms advance = Ok v' ->
  extends v v' /\ settled self v' row /\ cursor_moved self v row advance v'.
Proof.
  unfold persist_quarantine, quarantine_sync_receipt. intros E. res_inv. destruct x as [t d].
  injection E as <-.
  change (quarantine_key _) with (receipt_key self row) in *.
  destruct (rt_quarantine (pv_receipts v) !! receipt_key self row) as [q|] eqn:Eq;
    res_inv; wf_inv; simplify_eq;
    match goal with |- context [with_receipts v (if _ then upsert_cursor ?t _ _ _ _ else _)] =>
      destruct (advance_if_rows advance t self row) as [Hq Hr];
      fold (advance_if advance t self row) in * end.
  - split_and!; [split|right; left; exists q|by destruct advance]; cbn; rewrite ?Hq, ?Hr; done.
  - split_and!; [split|right; left; eexists|by destruct advance]; cbn; rewrite ?Hq, ?Hr; try done;
      [by apply insert_subseteq|]. cbn [rt_quarantine]. by rewrite lookup_insert_eq.
Qed.

Lemma persist_rejection_Ok self v row now_ms advance v' :
  persist_rejection self v row now_ms advance = Ok v' ->
  extends v v' /\ settled self v' row /\ cursor_moved self v row advance v'.
Proof.
  unfold persist_rejection, reject_oversized_sync_receipt, load_rejected_sync_receipt. intros E.
  res_inv. destruct x as [t d]. injection E as <-.
  match goal with p : (_ * Sha256Digest)%type |- _ => destruct p as [n h] end.
  unfold validate_rejection_write in *. res_inv.
  match goal with E : (_ <=? MAX_CBOR_OPERATION_BYTES) = false |- _ =>
    apply N.leb_gt in E; cbn [rejection_write rw_received_bytes] in E end.
  change (rejection_key _) with (receipt_key self row) in *.
  destruct (rt_rejections (pv_receipts v) !! receipt_key self row) as [q|] eqn:Eq;
    res_inv; wf_inv; simplify_eq; res_inv; wf_inv; simplify_eq;
    match goal with |- context [with_receipts v (if _ then upsert_cursor ?t _ _ _ _ else _)] =>
      destruct (advance_if_rows advance t self row) as [Hq Hr];
      fold (advance_if advance t self row) in * end.
  - split_and!; [split|right; right; exists q|by destruct advance]; cbn; rewrite ?Hq, ?Hr; done.
  - split_and!; [split|right; right; eexists|by destruct advance]; cbn; rewrite ?Hq, ?Hr; try done;
      [by apply insert_subseteq|]. cbn [rt_rejections]. by rewrite lookup_insert_eq.
Qed.
Lemma validate_received_Ok scope row :
  validate_received scope row = Ok tt ->
  exists op, decode_sync_operation_v1 (can_bytes (rec_operation row)) = Ok op
    /\ op_operation_id op = can_operation_id (rec_operation row)
    /\ op_workspace_id op = scope_workspace_id scope.
Proof.
  unfold validate_received. intros E. res_inv. wf_inv. eexists. split; [eassumption|]. done.
Qed.

Lemma validate_receipt_binding_Ok row :
  validate_receipt_binding row = Ok tt ->
  cur_operation_id (rec_cursor row) = can_operation_id (rec_operation row)
  /\ bad_received_at (cur_received_at (rec_cursor row)) = false.
Proof. unfold validate_receipt_binding. intros E. res_inv. wf_inv. done. Qed.

Lemma advance_replay_cursor_Ok v workspace provider received_at id membership v' :
  advance_replay_cursor v workspace provider received_at id membership = Ok v' ->
  v' = with_receipts v (upsert_cursor (pv_receipts v) workspace provider received_at id).
Proof. unfold advance_replay_cursor. intros E. by res_inv. Qed.

Lemma apply_admitted_operation_at_Ok v admitted (m : M) provider received_at now v' decision :
  apply_admitted_operation_at v admitted m provider received_at now = Ok (v', decision) ->
  extends v v'
  /\ stored_sync_operation M (pv_records v') (op_operation_id (adm_operation admitted))
     = Ok (Some (adm_canonical_bytes admitted))
  /\ pv_receipts v' = upsert_cursor (pv_receipts v) (op_workspace_id (adm_operation admitted))
       provider received_at (op_operation_id (adm_operation admitted)).
Proof.
  unfold apply_admitted_operation_at. intros E. res_inv. destruct x1 as [r' d].
  injection E as <- <-. cbn [pv_records pv_receipts]. split_and!; [|by eapply apply_stores|done].
  split; [|done|done]. intros. by eapply apply_keeps.
Qed.

Lemma apply_repaired_operation_at_Ok v admitted (m : M) received_at now v' decision :
  apply_repaired_operation_at v admitted m received_at now = Ok (v', decision) ->
  extends v v' /\ pv_receipts v' = pv_receipts v.
Proof.
  unfold apply_repaired_operation_at. intros E. res_inv. destruct x0 as [r' d].
  injection E as <- <-. split; [|done]. split; [|done|done]. intros. by eapply apply_keeps.
Qed.

Lemma process_row_settles self v state was_repaired row (m : M) now_ms v' state' :
  process_row self v state was_repaired row m now_ms = Ok (RowDone v' state') ->
  extends v v' /\ settled self v' row /\ cursor_moved self v row true v'.
Proof.
  unfold process_row. intros E. apply rbind_unit_Ok in E as [Hb E].
  pose proof (validate_receipt_binding_Ok _ Hb) as [Hid _].
  destruct (_ =? _); [done|].
  assert (Haside : forall st code, set_row_aside self v st row code now_ms = Ok (RowDone v' state') ->
    extends v v' /\ settled self v' row /\ cursor_moved self v row true v').
  { intros st code Es. unfold set_row_aside in Es. res_inv. subst. by eapply persist_quarantine_Ok. }
  apply rbind_Ok in E as ([stored|] & _ & E); [apply rbind_unit_Ok in E as [_ E]; eauto|].
  apply rbind_Ok in E as ([stored|] & _ & E);
    [apply rbind_unit_Ok in E as [_ E]; res_inv; subst; by eapply persist_rejection_Ok|].
  cbv zeta in E. destruct (MAX_CBOR_OPERATION_BYTES <? _); [res_inv; subst; by eapply persist_rejection_Ok|].
  destruct (reserve_bytes _ _ _) as [reserved|]; [|done].
  destruct (validate_received (eng_scope self) row) as [[]|e] eqn:Hv; cbn [is_err is_ok negb] in E; [|eauto].
  apply validate_received_Ok in Hv as (op & Hop & Hopid & Hws).
  destruct (admit_operation _ _ _) as [d|e] eqn:Ha; [|apply rbind_unit_Ok in E as [_ E]; eauto].
  apply admit_operation_ok in Ha as (op' & trusted & previous & Hop' & _ & _ & Hd).
  assert (op' = op) as -> by congruence. destruct d as [i|first last|a]; [|by destruct was_repaired|].
  - case_bool_decide as Hi; [cbn [negb] in E|done]. res_inv. subst x.
    match goal with E : advance_replay_cursor _ _ _ _ _ _ = Ok _ |- _ =>
      apply advance_replay_cursor_Ok in E as -> end.
    destruct Hd as [-> Hst]. rewrite Hopid in Hst. split_and!; [by split|by left|].
    unfold cursor_moved. by rewrite Hid, Hi.
  - res_inv. destruct x as [v'' decision]. injection E as -> <-.
    destruct Hd as (_ & _ & _ & _ & _ & _ & _ & _ & Ea).
    match goal with E : apply_admitted_operation_at _ _ _ _ _ _ = Ok _ |- _ =>
      apply apply_admitted_operation_at_Ok in E as (Hex & Hst & Hrc) end.
    rewrite Ea in Hst, Hrc. cbn [adm_operation adm_canonical_bytes] in *.
    split_and!; [done|left; by rewrite <- Hopid|].
    unfold cursor_moved. by rewrite Hrc, Hid, Hopid, Hws.
Qed.

(** *** What the cursor covers *)

Definition past (c : option SyncCursor) (x : SyncCursor) : bool :=
  match c with Some c => ltb c x | None => true end.

(** The rows a provider has received, with cursors that identify them. *)
Record wf_log (log : list ReceivedOperation) : Prop := {
  wl_cursors : forall row, row ∈ log -> wf_cursor (rec_cursor row);
  wl_unique : forall a b, a ∈ log -> b ∈ log -> rec_cursor a = rec_cursor b -> a = b;
}.

(** Every row of the log up to the cursor is settled. *)
Definition covers (self : SyncEngine) (log : list ReceivedOperation) v : Prop :=
  match cursor_of self v with
  | None => True
  | Some c => (exists row, row ∈ log /\ rec_cursor row = c)
      /\ forall row, row ∈ log -> leb (rec_cursor row) c = true -> settled self v row
  end.

(** A page without holes: whatever the log has between the cursor and a row of the
    page is in the page. *)
Definition gapless (log : list ReceivedOperation) (c : option SyncCursor)
    (rows : list ReceivedOperation) : Prop :=
  rows ⊆ log /\ forall row r, row ∈ rows -> r ∈ log -> past c (rec_cursor r) = true ->
    leb (rec_cursor r) (rec_cursor row) = true -> r ∈ rows.

(** A queue of rows in cursor order, without holes. *)
Definition queue_ok (log : list ReceivedOperation) (c : option SyncCursor)
    (rows : list ReceivedOperation) : Prop :=
  StronglySorted (fun a b => leb (rec_cursor a) (rec_cursor b) = true) rows /\ gapless log c rows.

Lemma gapless_perm log c rows rows' : rows ≡ₚ rows' -> gapless log c rows -> gapless log c rows'.
Proof. intros Hp [Hs Hg]. split; [by rewrite <- Hp|]. intros row r. rewrite <- Hp. apply Hg. Qed.

Lemma cursor_moved_max self v row v' :
  cursor_moved self v row true v' -> wf_cursor (rec_cursor row) ->
  (forall c, cursor_of self v = Some c -> wf_cursor c) ->
  cursor_of self v' = Some (match cursor_of self v with
    | Some c => if ltb c (rec_cursor row) then rec_cursor row else c
    | None => rec_cursor row end).
Proof.
  unfold cursor_moved, cursor_of. intros -> Hw Hc. cbn [upsert_cursor rt_cursors].
  rewrite lookup_insert_eq. f_equal. destruct (rec_cursor row) as [at' id].
  cbn [cur_received_at cur_operation_id] in *.
  destruct (rt_cursors _ !! _) as [c|] eqn:Ec; [|done]. by rewrite cursor_advances_spec by eauto.
Qed.

Lemma covers_wf self log v c : wf_log log -> covers self log v -> cursor_of self v = Some c -> wf_cursor c.
Proof. unfold covers. intros Hl Hc E. rewrite E in Hc. destruct Hc as [(row & Hin & <-) _]. by apply Hl. Qed.

(** Taking the first row of the queue keeps the cursor behind unsettled rows. *)
Lemma rows_step self log v row rest v' :
  wf_log log -> covers self log v -> queue_ok log (cursor_of self v) (row :: rest) ->
  extends v v' -> settled self v' row -> cursor_moved self v row true v' ->
  covers self log v' /\ queue_ok log (cursor_of self v') rest.
Proof.
  intros Hl Hc [Hs [Hin Hg]] Hex Hset Hm. apply StronglySorted_inv in Hs as [Hs Hall].
  assert (Hrow : row ∈ log) by set_solver. rewrite Forall_forall in Hall.
  pose proof (cursor_moved_max _ _ _ _ Hm (wl_cursors _ Hl _ Hrow)
    (fun c => covers_wf self log v c Hl Hc)) as Ec.
  (* a row between the old cursor and this one is this one *)
  assert (Hone : forall r, r ∈ log -> past (cursor_of self v) (rec_cursor r) = true ->
    leb (rec_cursor r) (rec_cursor row) = true -> r = row).
  { intros r Hr Hp Hle. pose proof (Hg row r ltac:(set_solver) Hr Hp Hle) as [?|Hrest]%elem_of_cons.
    - done.
    - apply (wl_unique _ Hl); [done|done|]. by apply leb_antisym, Hall. }
  split.
  - unfold covers in *. rewrite Ec. destruct (cursor_of self v) as [c|] eqn:Ecv; cbn [past] in *.
    + destruct Hc as [Hex' Hcov]. destruct (ltb c (rec_cursor row)) eqn:Elt.
      * split; [eauto|]. intros r Hr Hle.
        destruct (ltb c (rec_cursor r)) eqn:Er; [by rewrite (Hone r Hr Er Hle)|].
        eapply settled_mono; [done|]. apply Hcov; [done|]. by rewrite leb_negb_ltb, Er.
      * split; [done|]. intros r Hr Hle. eapply settled_mono; [done|]. by apply Hcov.
    + split; [eauto|]. intros r Hr Hle. by rewrite (Hone r Hr eq_refl Hle).
  - split; [done|]. split; [set_solver|]. intros row' r Hr' Hr Hp Hle.
    assert (Hpast : past (cursor_of self v) (rec_cursor r) = true
      /\ ltb (rec_cursor row) (rec_cursor r) = true).
    { rewrite Ec in Hp. cbn [past] in Hp. destruct (cursor_of self v) as [c|]; cbn [past]; [|done].
      destruct (ltb c (rec_cursor row)) eqn:Elt; (split; [|]); try done; [by eapply ltb_trans|].
      apply (leb_ltb_trans _ c); [|exact Hp]. by rewrite leb_negb_ltb, Elt. }
    destruct Hpast as [Hpast Hlt].
    pose proof (Hg row' r ltac:(set_solver) Hr Hpast Hle) as [->|?]%elem_of_cons; [|done].
    by rewrite ltb_irrefl in Hlt.
Qed.

(** *** Repairs leave the cursor alone *)

Definition repaired v v' : Prop :=
  extends v v' /\ rt_cursors (pv_receipts v') = rt_cursors (pv_receipts v).

Lemma repair_row_keeps self v state row (m : M) now_ms step :
  repair_row self v state row m now_ms = Ok step ->
  match step with RepairNext v' _ | RepairStop v' _ _ => repaired v v' end.
Proof.
  assert (Hq : forall code v', persist_quarantine self v row code now_ms false = Ok v' -> repaired v v').
  { intros code v' (? & _ & ?)%persist_quarantine_Ok. done. }
  assert (Hj : forall v', persist_rejection self v row now_ms false = Ok v' -> repaired v v').
  { intros v' (? & _ & ?)%persist_rejection_Ok. done. }
  assert (Hv : repaired v v) by done.
  unfold repair_row, blocked. intros E.
  apply rbind_Ok in E as ([stored|] & _ & E); [res_inv; by subst step|].
  apply rbind_Ok in E as ([stored|] & _ & E); [res_inv; by subst step|].
  cbv zeta in E. destruct (MAX_CBOR_OPERATION_BYTES <? _); [res_inv; subst step; eauto|].
  destruct (reserve_bytes _ _ _) as [reserved|]; [|by injection E as <-].
  destruct (is_err _); [res_inv; subst step; eauto|].
  destruct (admit_operation _ _ _) as [[i|first last|a]|e]; [|done| |].
  - res_inv. by subst step.
  - res_inv. destruct x as [v' decision]. injection E as <-.
    match goal with E : apply_repaired_operation_at _ _ _ _ _ = Ok _ |- _ =>
      apply apply_repaired_operation_at_Ok in E as [? Hr] end.
    split; [done|]. by rewrite Hr.
  - res_inv. subst step. eauto.
Qed.

Lemma repair_rows_keeps self (m : M) now_ms rows :
  forall v state v' r, repair_rows self v state rows m now_ms = (v', r) -> repaired v v'.
Proof.
  induction rows as [|row rest IH]; intros v state v' r; cbn [repair_rows]; [by intros [= <- _]|].
  destruct (repair_row _ _ _ _ _ _) as [[v1 s1|v1 s1 o1]|e] eqn:Er; [| |by intros [= <- _]];
    apply repair_row_keeps in Er.
  - intros E. apply IH in E as [Hex Hc]. destruct Er as [Hex1 Hc1]. split; [by etrans|congruence].
  - intros [= <- _]. done.
Qed.

Lemma apply_repair_rows_keeps self v state device first last rows (m : M) now_ms v' r :
  apply_repair_rows self v state device first last rows m now_ms = (v', r) -> repaired v v'.
Proof.
  unfold apply_repair_rows. destruct (usize_max <? _); [by intros [= <- _]|].
  destruct (negb _); [by intros [= <- _]|].
  destruct (check_repair_rows _ _ _); [apply repair_rows_keeps|by intros [= <- _]].
Qed.

Lemma repaired_covers self log v v' :
  repaired v v' -> covers self log v -> cursor_of self v' = cursor_of self v /\ covers self log v'.
Proof.
  intros [Hex Hc]. assert (E : cursor_of self v' = cursor_of self v) by (unfold cursor_of; by rewrite Hc).
  unfold covers. rewrite E. intros Hcov. split; [done|].
  destruct (cursor_of self v) as [c|]; [|done]. destruct Hcov as [? Hs]. split; [done|].
  intros row Hr Hle. eapply settled_mono; eauto.
Qed.

(** *** A page at a time *)

(** While a gap is repaired, the blocker and the rows behind it are the queue. *)
Definition repair_queued (log : list ReceivedOperation) (prepared : PreparedPull) : Prop :=
  match pl_request prepared with
  | RequestOperations _ _ => True
  | RequestDeviceRange _ _ _ => exists repair, ps_repair (pl_state prepared) = Some repair
      /\ queue_ok log (pl_expected_cursor prepared) (rs_blocker repair :: ps_rows (pl_state prepared))
  end.

(** What processing rows establishes. *)
Definition pull_ok (self : SyncEngine) (log : list ReceivedOperation) v v'
    (r : result SyncCycleError PullProgress) : Prop :=
  extends v v' /\ covers self log v'
  /\ match r with
     | Ok (PullRequested prepared) => repair_queued log prepared
     | Ok (PullComplete report) => rep_more_work report = true
     | Err _ => True
     end.

Lemma complete_more state : exists report, complete state true = PullComplete report
  /\ rep_more_work report = true.
Proof. eexists. split; [done|]. cbn. apply orb_true_r. Qed.

Lemma next_page_pull_ok self log v state :
  covers self log v -> pull_ok self log v v (next_page self v state).
Proof.
  intros Hc. split; [done|]. split; [done|]. unfold next_page, request_pull.
  destruct (_ =? _); [cbn; apply orb_true_r|].
  destruct (vault_cursor self v); [|done]. done.
Qed.

Lemma next_repair_pull_ok self log v state repair :
  covers self log v -> ps_repair state = Some repair ->
  queue_ok log (cursor_of self v) (rs_blocker repair :: ps_rows state) ->
  pull_ok self log v v (next_repair self v state).
Proof.
  intros Hc Er Hq. split; [done|]. split; [done|]. unfold next_repair, request_pull.
  destruct (_ =? _); [cbn; apply orb_true_r|]. rewrite Er. cbn [ok_or rbind].
  destruct (vault_cursor self v) as [c|] eqn:Ev; [|done]. apply vault_cursor_Ok in Ev as ->.
  cbn [rbind]. exists repair. done.
Qed.

Lemma pull_ok_trans self log v1 v2 v3 r : extends v1 v2 -> pull_ok self log v2 v3 r -> pull_ok self log v1 v3 r.
Proof. intros ? (? & ?). split; [by etrans|done]. Qed.

Lemma advance_rows_ok self log (m : M) now_ms rows :
  wf_log log -> forall v state v' r,
  covers self log v -> queue_ok log (cursor_of self v) rows ->
  advance_rows self v state rows m now_ms = (v', r) -> pull_ok self log v v' r.
Proof.
  intros Hl. induction rows as [|row rest IH]; intros v state v' r Hc Hq; cbn [advance_rows].
  - intros [= <- <-]. by apply next_page_pull_ok.
  - destruct (process_row _ _ _ _ _ _ _) as [[v1 s1|v1 p1|v1 s1]|e] eqn:Ep.
    + apply process_row_settles in Ep as (Hex & Hset & Hm).
      destruct (rows_step _ _ _ _ _ _ Hl Hc Hq Hex Hset Hm) as [Hc1 Hq1]. intros E.
      eapply pull_ok_trans; [done|]. by eapply IH.
    + apply process_row_shape in Ep as [-> ->]. intros [= <- <-].
      split_and!; [done|done|cbn; apply orb_true_r].
    + apply process_row_shape in Ep as (-> & _ & _ & repair & -> & Hb & _). intros [= <- <-].
      eapply next_repair_pull_ok; [done|done|]. by rewrite Hb.
    + intros [= <- <-]. by split_and!.
Qed.

Lemma set_blocker_aside_ok self log v state repair (m : M) now_ms v' r :
  wf_log log -> covers self log v -> ps_repair state = Some repair ->
  queue_ok log (cursor_of self v) (rs_blocker repair :: ps_rows state) ->
  set_blocker_aside self v state m now_ms = (v', r) -> pull_ok self log v v' r.
Proof.
  intros Hl Hc Er Hq. unfold set_blocker_aside. rewrite Er.
  assert (Hstop : forall s, pull_ok self log v v (Ok (complete s true)))
    by (intros s; split_and!; [done|done|cbn; apply orb_true_r]).
  destruct (_ =? _); [by intros [= <- <-]|].
  destruct (reserve_bytes _ _ _); [|by intros [= <- <-]].
  destruct (persist_quarantine _ _ _ _ _ _) as [v1|e] eqn:Ep; [|intros [= <- <-]; by split_and!].
  apply persist_quarantine_Ok in Ep as (Hex & Hset & Hm).
  destruct (rows_step _ _ _ _ _ _ Hl Hc Hq Hex Hset Hm) as [Hc1 Hq1]. intros E.
  eapply pull_ok_trans; [done|]. eapply advance_rows_ok; [done|done| |exact E]. done.
Qed.

Lemma continue_repair_ok self log v state repair last (m : M) now_ms v' r :
  wf_log log -> covers self log v -> ps_repair state = Some repair ->
  queue_ok log (cursor_of self v) (rs_blocker repair :: ps_rows state) ->
  continue_repair self v state last m now_ms = (v', r) -> pull_ok self log v v' r.
Proof.
  intros Hl Hc Er Hq. unfold continue_repair. rewrite Er.
  destruct (match checked_add u64_max last 1 with Some _ => _ | None => _ end) as [next|].
  - intros [= <- <-]. eapply next_repair_pull_ok; [done|done|done].
  - intros E. eapply advance_rows_ok; [done|done| |exact E]. done.
Qed.

(** Finishing a request keeps every row up to the cursor settled; it ends a cycle
    without asking for another only when the page it got was empty. *)
Lemma finish_pull_ok self log v prepared response (m : M) now_ms v' r :
  wf_log log -> covers self log v -> repair_queued log prepared ->
  (forall page, response = ResponseOperations page -> ps_scope (pl_state prepared) = eng_scope self ->
     gapless log (pl_expected_cursor prepared) (page_rows page)) ->
  finish_pull self v prepared response m now_ms = (v', r) ->
  pull_ok self log v v' r
  \/ v' = v /\ cursor_of self v = pl_expected_cursor prepared
     /\ ps_scope (pl_state prepared) = eng_scope self
     /\ response = ResponseOperations {| page_rows := []; page_next_cursor := None |}
     /\ r = Ok (complete (pl_state prepared) false).
Proof.
  intros Hl Hc Hq Hresp. unfold finish_pull.
  assert (Herr : forall e, pull_ok self log v v (Err e)) by (intros; by split_and!).
  destruct (_ || _) eqn:Eg; [intros [= <- <-]; by left|].
  assert (Hscope : ps_scope (pl_state prepared) = eng_scope self) by (by wf_inv). clear Eg.
  destruct (vault_cursor self v) as [c|e] eqn:Ev; [|intros [= <- <-]; by left].
  apply vault_cursor_Ok in Ev. fold (cursor_of self v) in Ev. subst c.
  case_bool_decide as Hexp; cbn [negb]; [|intros [= <- <-]; by left].
  unfold repair_queued in Hq.
  destruct (pl_request prepared) as [cursor limit|device first last], response as [page|rows];
    try (intros [= <- <-]; by left).
  - destruct (validate_page _ _ _ _) eqn:Hp; [|intros [= <- <-]; by left].
    case_bool_decide as Hrows.
    + intros [= <- <-]. right. split_and!; try done. destruct page as [rows next]. cbn in *. subst rows.
      unfold validate_page in Hp. destruct (_ || _); [done|].
      rewrite bool_decide_eq_true_2 in Hp by done. case_bool_decide; [by subst|done].
    + intros E. left. eapply advance_rows_ok; [done|done| |exact E]. cbn.
      split; [apply sort_by_key_sorted|]. eapply gapless_perm; [by rewrite sort_by_key_perm|].
      rewrite Hexp. by apply Hresp.
  - destruct Hq as (repair & Hrep & Hq). intros E. left. rewrite <- Hexp in Hq.
    destruct (apply_repair_rows _ _ _ _ _ _ _ _ _) as [v1 [[s1 outcome]|]] eqn:Ea;
      pose proof Ea as Hkeep%apply_repair_rows_keeps;
      destruct (repaired_covers self log _ _ Hkeep Hc) as [Ecur Hc1]; destruct Hkeep as [Hex _].
    + apply apply_repair_rows_shape in Ea as (n & bs & rp & -> & _). rewrite <- Ecur in Hq.
      eapply pull_ok_trans; [done|]. destruct outcome.
      * refine (continue_repair_ok _ _ _ _ repair _ _ _ _ _ Hl Hc1 _ _ E); done.
      * injection E as <- <-. split_and!; [done|done|cbn; apply orb_true_r].
      * refine (set_blocker_aside_ok _ _ _ _ repair _ _ _ _ Hl Hc1 _ _ E); done.
    + injection E as <- <-. by split_and!.
Qed.

End facts.
