(* ===== verification/SyncCycle.v ===== *)
(** * A sync cycle (core/sync/engine.rs, [sync_once])

    One cycle pushes what is due and then pulls until there is nothing more to ask
    for.  The loop of [sync_once] runs here with fuel; [sync_once_terminates] gives the
    fuel that is always enough, for any transport.  What a transport promises the
    puller is the interface [PullTransportLaws], which the in-memory transport keeps
    under every fault it can be scheduled to have. *)

From S2P Require Import Prelude Ordering BTree Text Protocol Minicbor CanonicalCbor Domain.
From S2P Require Import SyncPayload Crypto Operation Causal Merge Transport StateSummary.
From S2P Require Import Admission MemoryTransport Outbox EnginePush Receipts EnginePull.

#[local] Open Scope N_scope.

(** The pull methods of the [SyncTransport] trait. *)
Class PullTransport (T : Type) := {
  transport_pull : T -> SyncScope -> option SyncCursor -> N -> T * result TransportError PullPage;
  transport_range :
    T -> SyncScope -> DeviceId -> N -> N -> T * result TransportError (list ReceivedOperation);
}.

(** The outbox tables of a record store, which pushing changes. *)
Class OutboxStore (R : Type) := {
  outbox_of : R -> OutboxTables;
  with_outbox_of : R -> OutboxTables -> R;
}.

(** Working the queue forgets no operation. *)
Class OutboxStoreLaws (R M : Type) `{SyncVault R M} `{OutboxStore R} := {
  outbox_keeps_stored : forall r q id b, rtc queue_step (outbox_of r) q ->
    stored_sync_operation M r id = Ok (Some b) ->
    stored_sync_operation M (with_outbox_of r q) id = Ok (Some b);
}.

Section cycle.
Context `{UuidCrate} `{Minicbor} `{RecordJson} `{Primitives} `{Membership}.
Context {R M T : Type} `{TrustedSyncMaterial M} `{SyncVault R M} `{RecordVault R M} `{OutboxStore R}.
Context `{PushTransport T} `{PullTransport T}.

(** The response to a request. *)
Definition serve (transport : T) (prepared : PreparedPull)
    : T * result SyncCycleError PullResponse :=
  let scope := ps_scope (pl_state prepared) in
  match pl_request prepared with
  | RequestOperations cursor limit =>
    let '(transport, page) := transport_pull transport scope cursor limit in
    (transport, let? page := map_err transport_error page in Ok (ResponseOperations page))
  | RequestDeviceRange device first last =>
    let '(transport, rows) := transport_range transport scope device first last in
    (transport, let? rows := map_err transport_error rows in Ok (ResponseDeviceRange rows))
  end.

(** The loop of [sync_once]; [None] is a loop that has not ended yet. *)
Fixpoint pull_loop (fuel : nat) (self : SyncEngine) (vault : PullVault R) (transport : T)
    (progress : PullProgress) (trusted_material : M) (now_ms : N)
    : PullVault R * T * option (result SyncCycleError SyncCycleReport) :=
  match progress with
  | PullComplete report => (vault, transport, Some (Ok report))
  | PullRequested prepared =>
    match fuel with
    | O => (vault, transport, None)
    | S fuel =>
      match serve transport prepared with
      | (transport, Err e) => (vault, transport, Some (Err e))
      | (transport, Ok response) =>
        match finish_pull self vault prepared response trusted_material now_ms with
        | (vault, Err e) => (vault, transport, Some (Err e))
        | (vault, Ok progress) =>
            pull_loop fuel self vault transport progress trusted_material now_ms
        end
      end
    end
  end.

(** [report.pushed += pushed.pushed; ...]. *)
Definition add_push_report (report pushed : SyncCycleReport) : SyncCycleReport := {|
  rep_pushed := rep_pushed report + rep_pushed pushed;
  rep_duplicates := rep_duplicates report + rep_duplicates pushed;
  rep_pulled := rep_pulled report; rep_applied := rep_applied report;
  rep_conflicts := rep_conflicts report; rep_quarantined := rep_quarantined report;
  rep_gaps_repaired := rep_gaps_repaired report; rep_checkpointed := rep_checkpointed report;
  rep_more_work := rep_more_work report || rep_more_work pushed |}.

Definition with_pushed (vault : PullVault R) (outbox : OutboxTables) : PullVault R :=
  {| pv_records := with_outbox_of (pv_records vault) outbox; pv_receipts := pv_receipts vault |}.

Record CycleState := {
  cy_vault : PullVault R;
  cy_transport : T;
}.

Definition sync_once (fuel : nat) (self : SyncEngine) (s : CycleState) (trusted_material : M)
    (now_ms : N) : CycleState * option (result SyncCycleError SyncCycleReport) :=
  match push_due self (outbox_of (pv_records (cy_vault s))) (cy_transport s) now_ms
          SyncCycleReport_empty with
  | (outbox, transport, pushed) =>
    let vault := with_pushed (cy_vault s) outbox in
    match pushed with
    | Err e => ({| cy_vault := vault; cy_transport := transport |}, Some (Err e))
    | Ok pushed =>
      match prepare_pull self vault with
      | Err e => ({| cy_vault := vault; cy_transport := transport |}, Some (Err e))
      | Ok progress =>
        let '(vault, transport, r) :=
          pull_loop fuel self vault transport progress trusted_material now_ms in
        ({| cy_vault := vault; cy_transport := transport |},
         (fun r => let? report := r in Ok (add_push_report report pushed)) <$> r)
      end
    end
  end.

(** Enough requests for any cycle: see [sync_once_terminates]. *)
Definition cycle_fuel (self : SyncEngine) : nat := N.to_nat (2 * eng_max_operations self + 2).

End cycle.
Arguments CycleState : clear implicits.

(** What a transport promises the puller: a log of received rows per scope, in which
    cursors identify rows; pulling changes no log; a page has no holes between the
    cursor it was asked for and its last row; a push adds rows only after those already
    there.  [pt_room] is that receipt times are not exhausted, [pt_quiet] that no page is
    withheld. *)
Class PullTransportLaws (T : Type) `{PushTransport T} `{PullTransport T} := {
  pt_ok : T -> Prop;
  pt_room : T -> Prop;
  pt_quiet : T -> Prop;
  pt_log : T -> SyncScope -> list ReceivedOperation;
  pt_wf : forall t scope, pt_ok t -> wf_log (pt_log t scope);
  pt_pull_keeps : forall t scope c l, pt_ok t ->
    let t' := (transport_pull t scope c l).1 in
    pt_ok t' /\ (pt_quiet t -> pt_quiet t') /\ pt_log t' = pt_log t;
  pt_range_keeps : forall t scope d a b, pt_ok t ->
    let t' := (transport_range t scope d a b).1 in
    pt_ok t' /\ (pt_quiet t -> pt_quiet t') /\ pt_log t' = pt_log t;
  pt_pull_gapless : forall t scope c l page, pt_ok t ->
    (transport_pull t scope c l).2 = Ok page -> gapless (pt_log t scope) c (page_rows page);
  pt_pull_empty : forall t scope c l page row, pt_ok t -> pt_quiet t -> 1 <= l ->
    (transport_pull t scope c l).2 = Ok page -> page_rows page = [] ->
    row ∈ pt_log t scope -> past c (rec_cursor row) = false;
  pt_push_keeps : forall t scope batch, pt_ok t -> pt_room t ->
    let t' := (transport_push t scope batch).1 in
    pt_ok t' /\ (pt_quiet t -> pt_quiet t') /\ pt_log t scope ⊆ pt_log t' scope
    /\ (forall row old, row ∈ pt_log t' scope -> row ∉ pt_log t scope ->
          old ∈ pt_log t scope -> ltb (rec_cursor old) (rec_cursor row) = true);
}.

(** ** Termination *)

Section termination.
Context `{UuidCrate} `{MinicborLaws} `{RecordJson} `{!RecordJsonLaws} `{Primitives} `{Membership}.
Context {R M T : Type} `{!TrustedSyncMaterial M} `{!SyncVault R M} `{!RecordVault R M} `{!OutboxStore R}.
Context `{!PushTransport T} `{!PullTransport T}.

Lemma pull_loop_ends self (m : M) now_ms fuel :
  forall (v : PullVault R) (t : T) progress,
  (forall prepared, progress = PullRequested prepared ->
     request_ok self prepared /\ work_left self prepared < N.of_nat fuel) ->
  exists r, (pull_loop fuel self v t progress m now_ms).2 = Some r.
Proof.
  induction fuel as [|fuel IH]; intros v t [prepared|report] Hp; cbn [pull_loop]; eauto.
  { destruct (Hp _ eq_refl). lia. }
  destruct (Hp _ eq_refl) as [Hok Hw]. destruct (serve t prepared) as [t' [response|e]]; [|eauto].
  destruct (finish_pull _ _ _ _ _ _) as [v' [progress|e]] eqn:Ef; [|eauto].
  apply IH. intros prepared' ->. apply finish_pull_shape in Ef as [? ?]; [|done]. split; [done|lia].
Qed.

Lemma prepare_pull_ok self (v : PullVault R) prepared :
  prepare_pull self v = Ok (PullRequested prepared) ->
  request_ok self prepared /\ work_left self prepared <= 2 * eng_max_operations self + 1
  /\ ps_scope (pl_state prepared) = eng_scope self.
Proof.
  unfold prepare_pull. intros E. apply next_page_ok in E as (Hok & Hs & _ & c & l & Hq); [|cbn; lia|done].
  split_and!; [done| |by rewrite Hs]. unfold work_left. rewrite Hq, Hs. cbn. lia.
Qed.

Lemma pull_loop_more_fuel self (m : M) now_ms fuel fuel' :
  forall (v : PullVault R) (t : T) progress, (fuel <= fuel')%nat ->
  (pull_loop fuel self v t progress m now_ms).2 <> None ->
  pull_loop fuel' self v t progress m now_ms = pull_loop fuel self v t progress m now_ms.
Proof.
  revert fuel'. induction fuel as [|fuel IH]; intros [|fuel'] v t [prepared|report] Hle Hn;
    cbn [pull_loop] in *; try done; [lia|].
  destruct (serve t prepared) as [t' [response|e]]; [|done].
  destruct (finish_pull _ _ _ _ _ _) as [v' [progress|e]]; [|done]. apply IH; [lia|done].
Qed.

Lemma sync_once_ends self (s : CycleState R T) (m : M) now_ms :
  (exists r, (sync_once (cycle_fuel self) self s m now_ms).2 = Some r)
  /\ forall fuel, (cycle_fuel self <= fuel)%nat ->
     sync_once fuel self s m now_ms = sync_once (cycle_fuel self) self s m now_ms.
Proof.
  unfold sync_once. destruct (push_due _ _ _ _ _) as [[outbox t] [pushed|e]]; [|eauto].
  set (v := with_pushed _ _). destruct (prepare_pull self v) as [progress|e] eqn:Ep; [|eauto].
  destruct (pull_loop_ends self m now_ms (cycle_fuel self) v t progress) as [r Hr].
  { intros prepared ->. apply prepare_pull_ok in Ep as (? & ? & _). unfold cycle_fuel.
    rewrite N2Nat.id. split; [done|lia]. }
  split.
  - destruct (pull_loop _ _ _ _ _ _ _) as [[v' t'] r']. cbn in Hr. subst r'. cbn. eauto.
  - intros fuel Hle. by rewrite (pull_loop_more_fuel _ _ _ (cycle_fuel self)) by (done || by rewrite Hr).
Qed.

(** C32. A sync cycle always ends: whatever the transport answers, truthfully or not, and
    whatever the vault holds, [sync_once] returns a report or an error after at most
    [2 * max_operations + 2] requests, although a page can send it off to repair a gap
    before the page is finished and a repair can take many chunks; allowing more
    requests does not change the outcome. *)
Theorem sync_once_terminates self (s : CycleState R T) (m : M) now_ms :
  (exists r, (sync_once (cycle_fuel self) self s m now_ms).2 = Some r)
  /\ forall fuel, (cycle_fuel self <= fuel)%nat ->
     sync_once fuel self s m now_ms = sync_once (cycle_fuel self) self s m now_ms.
Proof. apply sync_once_ends. Qed.

End termination.

(** ** The cursor never passes an unsettled row *)

Section coverage.
Context `{UuidCrate} `{!UuidCrateLaws} `{MinicborLaws} `{RecordJson} `{!RecordJsonLaws}.
Context `{Primitives} `{Membership}.
Context {R M T : Type} `{!TrustedSyncMaterial M} `{!SyncVault R M} `{!RecordVault R M} `{!OutboxStore R} `{!OutboxStoreLaws R M}
  `{!RecordVaultLaws R M}.
Context `{!PushTransport T} `{!PullTransport T} `{!PullTransportLaws T}.

Definition all_settled (self : SyncEngine) (log : list ReceivedOperation) (v : PullVault R) : Prop :=
  forall row, row ∈ log -> settled self v row.

(** A covering cursor with nothing past it covers everything. *)
Lemma covers_all self log (v : PullVault R) :
  covers self log v -> (forall row, row ∈ log -> past (cursor_of self v) (rec_cursor row) = false) ->
  all_settled self log v.
Proof.
  unfold covers. intros Hc Hp row Hr. specialize (Hp row Hr).
  destruct (cursor_of self v) as [c|]; [|done]. apply Hc; [done|]. cbn [past] in Hp.
  by rewrite leb_negb_ltb, Hp.
Qed.

Lemma serve_keeps (t : T) prepared t' r :
  pt_ok t -> serve t prepared = (t', r) ->
  pt_ok t' /\ (pt_quiet t -> pt_quiet t') /\ pt_log t' = pt_log t.
Proof.
  intros Ht. unfold serve. destruct (pl_request prepared) as [c l|d a b].
  - pose proof (pt_pull_keeps t (ps_scope (pl_state prepared)) c l Ht) as Hk.
    destruct (transport_pull _ _ _ _). by intros [= <- _].
  - pose proof (pt_range_keeps t (ps_scope (pl_state prepared)) d a b Ht) as Hk.
    destruct (transport_range _ _ _ _ _). by intros [= <- _].
Qed.

Lemma serve_page (t : T) prepared t' page :
  serve t prepared = (t', Ok (ResponseOperations page)) ->
  exists c l, pl_request prepared = RequestOperations c l
    /\ (transport_pull t (ps_scope (pl_state prepared)) c l).2 = Ok page.
Proof.
  unfold serve. destruct (pl_request prepared) as [c l|d a b].
  - destruct (transport_pull _ _ _ _) as [t1 r] eqn:E. intros [= _ Er]. res_inv.
    exists c, l. split; [done|]. rewrite E. cbn. congruence.
  - destruct (transport_range _ _ _ _ _) as [t1 r]. intros [= _ Er]. res_inv. done.
Qed.

Lemma pull_loop_covers self (m : M) now_ms fuel :
  forall (v : PullVault R) (t : T) progress v' t' r,
  let log := pt_log t (eng_scope self) in
  pt_ok t -> covers self log v ->
  match progress with
  | PullRequested prepared => request_ok self prepared /\ repair_queued log prepared
  | PullComplete report => pt_quiet t -> rep_more_work report = false -> all_settled self log v
  end ->
  pull_loop fuel self v t progress m now_ms = (v', t', r) ->
  pt_ok t' /\ pt_log t' = pt_log t /\ extends v v' /\ covers self log v'
  /\ (pt_quiet t -> forall report, r = Some (Ok report) -> rep_more_work report = false ->
       all_settled self log v').
Proof.
  induction fuel as [|fuel IH]; intros v t [prepared|report] v' t' r log Ht Hc Hp; cbn [pull_loop];
    try (intros [= <- <- <-]; split_and!; try done; intros Hq report' [= <-]; by apply Hp).
  destruct (serve t prepared) as [t1 [response|e]] eqn:Es; pose proof Es as Hk%serve_keeps; try done.
  2:{ intros [= <- <- <-]. destruct Hk as (? & _ & ?). by split_and!. }
  destruct Hk as (Ht1 & Hquiet & Hlog). destruct Hp as [Hreq Hrq].
  destruct (finish_pull _ _ _ _ _ _) as [v1 pr] eqn:Ef.
  pose proof Ef as Ef'. eapply (finish_pull_ok _ log) in Ef' as [(Hex & Hc1 & Hp1)|(-> & Hcur & Hscope & -> & ->)];
    [| |by apply pt_wf|done|done|].
  - unfold log in *. rewrite <- Hlog in *. destruct pr as [progress|e].
    2:{ intros [= <- <- <-]. by split_and!. }
    intros E. eapply IH in E as (Ht' & Hlog' & Hex' & Hc' & Hset); [| done | done | ].
    + split_and!; try done; [by etrans|]. intros Hq. apply Hset. auto.
    + destruct progress; [|congruence]. split; [|done]. by apply finish_pull_shape in Ef as [? _].
  - apply serve_page in Es as (c & l & Hrequest & Hpull). rewrite Hscope in Hpull.
    unfold request_ok in Hreq. rewrite Hrequest in Hreq. destruct Hreq as (-> & _ & Hlim & _).
    intros E. assert (Heq : v' = v /\ t' = t1) by (destruct fuel; by injection E).
    destruct Heq as [-> ->]. split_and!; try done. intros Hq report _ _. apply covers_all; [done|].
    intros row Hr. rewrite Hcur. by eapply pt_pull_empty; [| |apply Hlim|exact Hpull| |].
  - intros page -> Hscope. apply serve_page in Es as (c & l & Hrequest & Hpull).
    rewrite Hscope in Hpull. unfold request_ok in Hreq. rewrite Hrequest in Hreq.
    destruct Hreq as (-> & _). by eapply pt_pull_gapless.
Qed.

Lemma push_due_covers self outbox (t : T) now_ms report outbox' t' r (v : PullVault R) :
  pt_ok t -> pt_room t -> covers self (pt_log t (eng_scope self)) v ->
  push_due self outbox t now_ms report = (outbox', t', r) ->
  pt_ok t' /\ (pt_quiet t -> pt_quiet t') /\ covers self (pt_log t' (eng_scope self)) v.
Proof.
  intros Ht Hroom Hc. unfold push_due.
  destruct (prepare_push self outbox now_ms) as [o1 [[prepared|]|e]] eqn:Ep;
    try (intros [= <- <- <-]; by split_and!).
  apply prepare_push_Some in Ep as (-> & -> & _ & _).
  pose proof (pt_push_keeps t (eng_scope self) (pp_operations prepared) Ht Hroom) as Hk.
  destruct (transport_push _ _ _) as [t1 response]. cbn [fst] in Hk.
  destruct Hk as (Ht1 & Hq & Hsub & Hnew).
  destruct (finish_push _ _ _ _ _) as [o2 finished]. intros [= <- <- <-].
  split; [done|]. split; [done|]. unfold covers in *.
  destruct (cursor_of self v) as [c|]; [|done]. destruct Hc as [(old & Hold & <-) Hset].
  split; [eauto|]. intros row Hr Hle. destruct (decide (row ∈ pt_log t (eng_scope self))) as [|Hn]; [eauto|].
  specialize (Hnew _ _ Hr Hn Hold). rewrite leb_negb_ltb, Hnew in Hle. done.
Qed.

Lemma with_pushed_extends (v : PullVault R) q :
  rtc queue_step (outbox_of (pv_records v)) q -> extends v (with_pushed v q).
Proof. intros Hq. split; [|done..]. intros id b. by apply outbox_keeps_stored. Qed.

Lemma with_pushed_covers self log (v : PullVault R) q :
  rtc queue_step (outbox_of (pv_records v)) q -> covers self log v -> covers self log (with_pushed v q).
Proof.
  intros Hq Hc. unfold covers, cursor_of in *. cbn [pv_receipts with_pushed].
  destruct (rt_cursors _ !! _) as [c|]; [|done]. destruct Hc as [Hr Hset]. split; [done|].
  intros row Hin Hle. eapply settled_mono; [by apply with_pushed_extends|auto].
Qed.

Lemma sync_once_covers fuel self (s s' : CycleState R T) (m : M) now_ms r :
  pt_ok (cy_transport s) -> pt_room (cy_transport s) ->
  covers self (pt_log (cy_transport s) (eng_scope self)) (cy_vault s) ->
  sync_once fuel self s m now_ms = (s', r) ->
  let log := pt_log (cy_transport s') (eng_scope self) in
  extends (cy_vault s) (cy_vault s') /\ covers self log (cy_vault s')
  /\ (pt_quiet (cy_transport s) -> forall report, r = Some (Ok report) ->
       rep_more_work report = false -> all_settled self log (cy_vault s')).
Proof.
  intros Ht Hroom Hc. unfold sync_once.
  pose proof (push_due_steps self (outbox_of (pv_records (cy_vault s))) (cy_transport s) now_ms
    SyncCycleReport_empty) as Hq.
  destruct (push_due _ _ _ _ _) as [[outbox t] pushed] eqn:Ep. cbn [fst] in Hq.
  pose proof (with_pushed_extends _ _ Hq) as Hpx.
  eapply push_due_covers in Ep as (Ht1 & Hq1 & Hc1); try done.
  apply (with_pushed_covers _ _ _ _ Hq) in Hc1.
  destruct pushed as [pushed|e]; [|intros [= <- <-]; by split_and!].
  set (v := with_pushed _ _) in *.
  destruct (prepare_pull self v) as [progress|e] eqn:Epp; [|intros [= <- <-]; by split_and!].
  destruct (pull_loop _ _ _ _ _ _ _) as [[v' t'] r'] eqn:El. intros [= <- <-].
  cbn [cy_vault cy_transport].
  eapply pull_loop_covers in El as (Ht' & Hlog & Hex & Hc' & Hset); [|done|done|].
  - rewrite Hlog. split_and!; [by etrans|done|]. intros Hqt report Er Hm.
    destruct r' as [[report'|e]|]; [|done|done]. cbn in Er. injection Er as <-.
    eapply Hset; [by apply Hq1|done|]. cbn in Hm. by apply orb_false_elim in Hm as [? _].
  - pose proof (next_page_pull_ok self _ _ {|
      ps_scope := eng_scope self; ps_provider := eng_provider self;
      ps_max_operations := eng_max_operations self; ps_max_bytes := eng_max_bytes self;
      ps_processed := 0; ps_processed_bytes := 0; ps_report := SyncCycleReport_empty;
      ps_rows := []; ps_repair := None; ps_repaired_blocker := false |} Hc1) as (_ & _ & Hn).
    unfold prepare_pull in Epp. rewrite Epp in Hn. destruct progress as [prepared|report]; [|congruence].
    split; [|done]. exact (proj1 (prepare_pull_ok _ _ _ Epp)).
Qed.

(** C29. No operation is lost on the way in: over a whole cycle, whether it ends in a
    report or an error, and whatever is pushed in it, every row the provider has
    received up to the pull cursor is settled (stored byte for byte, or kept in
    quarantine, or remembered as oversized), and nothing settled before is forgotten;
    gaps, repairs, replays and pages in any order included. *)
Theorem cursor_passes_only_settled fuel self (s : CycleState R T) (m : M) now_ms :
  let s' := (sync_once fuel self s m now_ms).1 in
  pt_ok (cy_transport s) -> pt_room (cy_transport s) ->
  covers self (pt_log (cy_transport s) (eng_scope self)) (cy_vault s) ->
  covers self (pt_log (cy_transport s') (eng_scope self)) (cy_vault s')
  /\ extends (cy_vault s) (cy_vault s').
Proof.
  intros s' Ht Hr Hc. unfold s'. destruct (sync_once _ _ _ _ _) as [s1 r] eqn:E.
  apply sync_once_covers in E as (? & ? & _); [by split|done..].
Qed.

(** C28. A cycle that reports no more work has caught up, provided that the transport keeps
    its promises, has receipt times left and withholds no page, and that the vault's cursor
    had passed only settled rows before the cycle (as it has after any cycle over such a
    transport): every operation the provider holds for the scope, those pushed in the same
    cycle included, is settled in the vault.  A transport that drops a page, as the in-memory
    one does under a pending fault, is not covered. *)
Theorem idle_cycle_has_caught_up fuel self (s : CycleState R T) (m : M) now_ms report :
  let s' := (sync_once fuel self s m now_ms).1 in
  pt_ok (cy_transport s) -> pt_room (cy_transport s) -> pt_quiet (cy_transport s) ->
  covers self (pt_log (cy_transport s) (eng_scope self)) (cy_vault s) ->
  (sync_once fuel self s m now_ms).2 = Some (Ok report) -> rep_more_work report = false ->
  all_settled self (pt_log (cy_transport s') (eng_scope self)) (cy_vault s').
Proof.
  intros s' Ht Hr Hq Hc Er Hm. unfold s'. destruct (sync_once _ _ _ _ _) as [s1 r] eqn:E.
  apply sync_once_covers in E as (_ & _ & Hset); [|done..]. by eapply Hset.
Qed.

End coverage.

(** ** The in-memory transport keeps the promise, faults included *)

Section memory.
Context `{UuidCrate} `{MinicborLaws} `{Primitives}.

#[export] Instance memory_pull : PullTransport InMemoryTransport :=
  {| transport_pull := pull_operations; transport_range := pull_device_range |}.

Definition memory_log (t : InMemoryTransport) (scope : SyncScope) : list ReceivedOperation :=
  received <$> st_operations (store_of t scope).

(** No page is dropped or delayed. *)
Definition memory_quiet (t : InMemoryTransport) : Prop :=
  dropped_pulls (tr_faults t) = 0 /\ delayed_pulls (tr_faults t) = 0.

Lemma elem_of_memory_log t scope row :
  row ∈ memory_log t scope <-> (rec_cursor row, rec_operation row) ∈ st_operations (store_of t scope).
Proof.
  unfold memory_log. rewrite list_elem_of_fmap. split.
  - intros ([c o] & -> & Hin). done.
  - intros Hin. eexists. split; [|done]. by destruct row.
Qed.

Lemma wf_received_at r : wf_str (received_at_of r) = true.
Proof.
  assert (Hd : forall k n, wf_str (decimal_digits k n) = true).
  { induction k as [|k IH]; intros n; [done|]. cbn [decimal_digits]. unfold wf_str in *.
    rewrite forallb_app, IH. cbn [forallb]. rewrite andb_true_r.
    pose proof (N.mod_lt n 10 ltac:(done)). unfold is_scalar.
    apply orb_true_iff. left. apply N.ltb_lt. lia. }
  unfold received_at_of, wf_str in *. rewrite forallb_app, Hd. done.
Qed.

Lemma memory_log_wf t scope : transport_inv t -> wf_log (memory_log t scope).
Proof.
  intros Ht. pose proof (store_of_inv t scope Ht) as Hs. split.
  - intros row Hr%elem_of_memory_log. destruct (si_rows _ _ _ Hs _ _ Hr) as (Hid & (r & _ & Hat) & Hby).
    split; [rewrite Hat; apply wf_received_at|]. rewrite Hid.
    destruct (si_ids _ _ _ Hs _ _ Hby) as (_ & _ & (op & Hw & _ & <- & _)%validate_canonical_operation_Ok & _).
    unfold wf_operation, wf_id in Hw. wf_inv. unfold len in *. lia.
  - intros a b Ha%elem_of_memory_log Hb%elem_of_memory_log E.
    pose proof (ascending_lookup_unique fst _ _ _ (si_wf _ _ _ Hs) Ha Hb E) as Eab.
    destruct a, b. cbn in *. congruence.
Qed.

Lemma ascending_app_lt {A K} `{OrdLaws K} (key : A -> K) (l k : list A) a b :
  ascending key (l ++ k) -> a ∈ l -> b ∈ k -> ltb (key a) (key b) = true.
Proof.
  unfold ascending. induction l as [|x l IH]; [set_solver|]. simpl.
  intros [Hs Hall]%StronglySorted_inv Ha Hb. rewrite Forall_forall in Hall.
  apply elem_of_cons in Ha as [->|Ha]; [apply Hall; set_solver|by apply IH].
Qed.

(** A page is a downward closed part of what lies past the cursor. *)
Lemma take_gapless t scope c k :
  transport_inv t -> gapless (memory_log t scope) c
    (received <$> take k (bt_after c (st_operations (store_of t scope)))).
Proof.
  intros Ht. pose proof (store_of_inv t scope Ht) as Hs. set (stored := st_operations (store_of t scope)) in *.
  assert (Hafter : forall row, (rec_cursor row, rec_operation row) ∈ bt_after c stored
    <-> row ∈ memory_log t scope /\ past c (rec_cursor row) = true).
  { intros row. rewrite elem_of_memory_log. destruct c as [c|]; cbn [bt_after past]; [|naive_solver].
    rewrite list_elem_of_filter. cbn. tauto. }
  assert (Hmem : forall k row, row ∈ (received <$> take k (bt_after c stored))
    <-> (rec_cursor row, rec_operation row) ∈ take k (bt_after c stored)).
  { intros k' row. rewrite list_elem_of_fmap. split; [by intros ([] & -> & ?)|].
    intros. eexists. split; [|done]. by destruct row. }
  split.
  - intros row Hr%Hmem. apply Hafter. by eapply subseteq_take.
  - intros row r Hrow%Hmem Hr Hp Hle. apply Hmem.
    pose proof (proj2 (Hafter r) (conj Hr Hp)) as Hin.
    pose proof (bt_after_wf c stored (si_wf _ _ _ Hs)) as Hwf.
    rewrite <- (take_drop k (bt_after c stored)) in Hin, Hwf.
    apply elem_of_app in Hin as [|Hd]; [done|]. exfalso.
    pose proof (ascending_app_lt _ _ _ _ _ Hwf Hrow Hd) as Hlt. cbn in Hlt.
    rewrite leb_negb_ltb, Hlt in Hle. done.
Qed.

Lemma gapless_ext log c rows rows' :
  (forall row, row ∈ rows <-> row ∈ rows') -> gapless log c rows' -> gapless log c rows.
Proof.
  intros He [Hs Hg]. split; [intros row Hr; apply Hs, He, Hr|].
  intros row r Hrow Hr Hp Hle. apply He. apply He in Hrow. by apply (Hg row).
Qed.

Lemma pull_operations_page t scope c l page :
  transport_inv t -> (pull_operations t scope c l).2 = Ok page ->
  gapless (memory_log t scope) c (page_rows page)
  /\ (memory_quiet t -> 1 <= l -> page_rows page = [] ->
       bt_after c (st_operations (store_of t scope)) = []).
Proof.
  intros Ht. unfold pull_operations, memory_quiet.
  assert (Hnil : gapless (memory_log t scope) c []) by (split; set_solver).
  destruct (consume (transient_pulls _)) as [[|] n1]; [done|].
  destruct (consume (dropped_pulls (tr_faults t))) as [dropped n2] eqn:Ed.
  destruct (if dropped then _ else _) as [delayed n3] eqn:El.
  destruct (dropped || delayed) eqn:Edd.
  { cbn. intros [= <-]. split; [done|]. intros [E1 E2]. exfalso. rewrite E1 in Ed.
    injection Ed as <- <-. rewrite E2 in El. by injection El as <- <-. }
  destruct (N.eqb_spec (N.min l MAX_PAGE) 0) as [E0|Hl].
  { cbn. intros [= <-]. split; [done|]. unfold MAX_PAGE in *. lia. }
  assert (Est : match tr_scopes t !! scope_key scope with Some store => st_operations store | None => [] end
    = st_operations (store_of t scope)) by (unfold store_of; by destruct (tr_scopes t !! _)).
  rewrite Est. set (rows := received <$> take _ _).
  destruct (consume (duplicated_pulls _)) as [dup n4], (consume (reversed_pulls _)) as [rev n5].
  cbn [snd]. intros [= <-]. cbn [page_rows].
  set (rows' := if dup && _ then _ else rows).
  set (sent := if rev then reverse rows' else rows').
  assert (Hsame : forall row, row ∈ sent <-> row ∈ rows).
  { intros row. transitivity (row ∈ rows'); [unfold sent; destruct rev; by rewrite ?elem_of_reverse|].
    unfold rows'. destruct (_ && _); [|done]. destruct rows; set_solver. }
  split.
  - by eapply gapless_ext; [exact Hsame|apply take_gapless].
  - intros _ Hl1 Hn. rewrite Hn in Hsame.
    destruct (bt_after c (st_operations (store_of t scope))) as [|kv rest] eqn:E; [done|].
    exfalso. eapply not_elem_of_nil, (Hsame (received kv)). unfold rows.
    destruct (N.to_nat (N.min l MAX_PAGE)) as [|k] eqn:Ek; [lia|]. set_solver.
Qed.

Lemma push_operations_faults t scope batch :
  memory_quiet t -> memory_quiet (push_operations t scope batch).1.
Proof.
  intros Hq. unfold push_operations. destruct (_ || _); [done|].
  destruct (try_fold add_batch_bytes _ _); [|done].
  destruct (consume _) as [[|] n]; [done|]. destruct (try_fold _ _ _); [|done].
  case_bool_decide; done.
Qed.

#[export] Program Instance memory_pull_laws : PullTransportLaws InMemoryTransport :=
  {| pt_ok := transport_inv; pt_room t := tr_next_receipt t < u64_max;
     pt_quiet := memory_quiet; pt_log := memory_log |}.
Next Obligation. intros t scope Ht. by apply memory_log_wf. Qed.
Next Obligation.
  intros t scope c l Ht. cbn [transport_pull memory_pull].
  destruct (pull_operations_state t scope c l) as [Es En]. split_and!.
  - unfold transport_inv. by rewrite Es, En.
  - intros [Hd Hy]. unfold pull_operations. destruct (consume (transient_pulls _)) as [[|] ?]; [done|].
    rewrite Hd, Hy. cbn [consume orb].
    destruct (_ =? 0); [done|]. by destruct (consume (duplicated_pulls _)), (consume (reversed_pulls _)).
  - unfold memory_log, store_of. by rewrite Es.
Qed.
Next Obligation.
  intros t scope d a b Ht. cbn [transport_range memory_pull]. unfold pull_device_range.
  by destruct (consume _) as [[|] n].
Qed.
Next Obligation. intros t scope c l page Ht Hp. by apply (pull_operations_page _ _ _ _ _ Ht) in Hp as [? _]. Qed.
Next Obligation.
  intros t scope c l page row Ht Hq Hl Hp He Hr.
  apply (pull_operations_page _ _ _ _ _ Ht) in Hp as [_ Hp]. specialize (Hp Hq Hl He).
  apply not_true_iff_false. intros Hpast. apply elem_of_memory_log in Hr.
  eapply not_elem_of_nil. rewrite <- Hp.
  destruct c as [c|]; cbn [bt_after] in *; [|exact Hr]. by apply list_elem_of_filter.
Qed.
Next Obligation.
  intros t scope batch Ht Hroom. cbn [transport_push memory_push].
  pose proof (push_operations_faults t scope batch) as Hq.
  destruct (push_operations t scope batch) as [t' [receipt|e]] eqn:E; cbn [fst] in *.
  - destruct (push_operations_Ok _ _ _ _ _ Ht E) as [Ht' _].
    destruct (push_appends _ _ _ _ _ Ht Hroom E) as (new & Es & _ & _).
    split_and!; [done|done| |].
    + intros row. unfold memory_log. rewrite Es, fmap_app. set_solver.
    + intros row old. rewrite !elem_of_memory_log, Es. intros [?|Hr]%elem_of_app Hn Hold; [done|].
      pose proof (si_wf _ _ _ (store_of_inv t' scope Ht')) as Hwf. rewrite Es in Hwf.
      exact (ascending_app_lt _ _ _ _ _ Hwf Hold Hr).
  - destruct (push_operations_Err _ _ _ _ _ Ht E) as (Ht' & Hs & _).
    split_and!; [done|done|by unfold memory_log; rewrite Hs|].
    intros row old. unfold memory_log. rewrite Hs. done.
Qed.

End memory.

(** *** Witness: an operation goes out and comes back *)

Module SyncCycleWitness.
#[local] Existing Instances rfc9562 rfc9562_laws Rfc8949.codec Rfc8949.codec_laws
  CountableJson.records CountableJson.records_laws Toy.toy Toy.toy_laws
  OutboxWitness.unenrolled AdmissionWitness.roster.

(** A record store that keeps the bytes of what it applies, and an outbox. *)
Abbreviation Store := (gmap OperationId bytes * OutboxTables)%type.

#[local] Instance store_vault : SyncVault Store unit := {|
  require_current_operation _ _ _ := Ok tt;
  require_current_device _ _ _ _ := Ok tt;
  device_head _ _ _ := Ok None;
  stored_sync_operation r id := Ok (r.1 !! id);
  operation_at_device_sequence _ _ _ _ := Ok None;
  record_belongs_to_sync_scope _ _ _ _ _ _ := Ok true;
  materialized_record_scope _ _ _ _ := Ok None;
  sync_checkpoint_pin _ _ := Ok None;
  sync_checkpoint_frontier _ _ := Ok [];
  sync_state_summary _ _ := Ok {| ss_entries := [] |} |}.

#[local] Instance store_records : RecordVault Store unit := {|
  apply_operation r admitted _ _ _ :=
    let id := op_operation_id (adm_operation admitted) in
    match r.1 !! id with
    | Some stored =>
        if bool_decide (stored = adm_canonical_bytes admitted) then Ok (r, NoLiveChange)
        else Err VaultOperationConflict
    | None => Ok ((<[id := adm_canonical_bytes admitted]> r.1, r.2), ReplaceHeads [])
    end;
  replay_known _ _ _ _ := Ok tt |}.

#[local] Instance store_outbox : OutboxStore Store := {|
  outbox_of r := r.2;
  with_outbox_of r q := (r.1, q) |}.

#[local] Instance store_outbox_laws : OutboxStoreLaws Store unit.
Proof. split. by intros r q id b _. Qed.

#[local] Instance store_laws : RecordVaultLaws Store unit.
Proof.
  split.
  - intros r a m t now r' d. cbn. destruct (r.1 !! _) as [b|] eqn:E; [case_bool_decide; [|done]|];
      intros [= <- _]; [by rewrite E; subst|cbn; by rewrite lookup_insert_eq].
  - intros r a m t now r' d id b. cbn.
    destruct (r.1 !! op_operation_id _) as [b'|] eqn:E; [case_bool_decide; [|done]|];
      intros [= <- _] [= Hb]; [by rewrite Hb|]. cbn.
    rewrite lookup_insert_ne; [by rewrite Hb|]. intros Ei. rewrite Ei in E. congruence.
Qed.

Definition operation : SyncOperationV1 :=
  match decode_sync_operation_v1 AdmissionWitness.sent with
  | Ok op => op
  | Err _ => Fixture.operation
  end.

Definition engine : SyncEngine := SyncEngine_new {|
  scope_account_id := op_account_id operation; scope_workspace_id := op_workspace_id operation |}
  Memory (fun _ _ => 777).

Definition start : CycleState Store InMemoryTransport := {|
  cy_vault := {| pv_records := (∅, {|
      tb_operations := {[ op_operation_id operation := operation ]}; tb_meta := ∅;
      tb_outbox := {[ op_operation_id operation := OutboxWitness.row 10 None ]} |});
    pv_receipts := {| rt_cursors := ∅; rt_quarantine := ∅; rt_rejections := ∅ |} |};
  cy_transport := InMemoryTransport_new |}.

Definition outcome := sync_once 4 engine start tt 10.

Definition report : SyncCycleReport :=
  match outcome.2 with Some (Ok r) => r | _ => SyncCycleReport_empty end.

(** Pushed once, pulled once, applied once. *)
Example cycle_runs :
  outcome.2 = Some (Ok {| rep_pushed := 1; rep_duplicates := 0; rep_pulled := 1; rep_applied := 1;
    rep_conflicts := 0; rep_quarantined := 0; rep_gaps_repaired := 0; rep_checkpointed := false;
    rep_more_work := false |})
  /\ (pv_records (cy_vault outcome.1)).1 !! op_operation_id operation = Some AdmissionWitness.sent.
Proof. split; vm_compute; reflexivity. Qed.

Lemma start_ok : transport_inv (cy_transport start).
Proof. split; [done|]. intros scope store. simpl. by rewrite lookup_empty. Qed.

Lemma sync_once_terminates_witness :
  exists r, (sync_once (cycle_fuel engine) engine start tt 10).2 = Some r.
Proof. exact (proj1 (sync_once_terminates engine start tt 10)). Defined.

Lemma cursor_passes_only_settled_witness :
  covers engine (memory_log (cy_transport (sync_once 4 engine start tt 10).1) (eng_scope engine))
    (cy_vault (sync_once 4 engine start tt 10).1).
Proof.
  exact (proj1 (cursor_passes_only_settled 4 engine start tt 10 start_ok eq_refl I)).
Defined.

Lemma idle_cycle_has_caught_up_witness :
  all_settled engine
    (memory_log (cy_transport (sync_once 4 engine start tt 10).1) (eng_scope engine))
    (cy_vault (sync_once 4 engine start tt 10).1).
Proof.
  refine (idle_cycle_has_caught_up 4 engine start tt 10 report start_ok eq_refl
    (conj eq_refl eq_refl) I _ _); vm_compute; reflexivity.
Defined.

End SyncCycleWitness.
