(* ===== verification/VaultTables.v ===== *)
(** * The vault's record tables (core/vault/sync.rs, migrations 0001, 0014, 0019, 0036)

    The tables in which the vault keeps synchronised operations and the records
    they describe, and the queries over them.  A table with a composite key whose
    queries fix the first part is a map of maps; kinds are stored as text, as the
    source stores them.  Columns that repeat a payload for searching ([provenance],
    [search_documents], the full-text index, the copy of an instruction) are not
    kept apart from the payload. *)

From S2P Require Import Prelude Ordering Text Protocol Minicbor CanonicalCbor Domain.
From S2P Require Import SyncPayload Crypto Operation Causal Merge Transport StateSummary.
From S2P Require Import Admission Outbox Receipts.

#[local] Open Scope N_scope.

(** ** Tables *)

(** [sync_record_heads], the columns after the key. *)
Record HeadRow := {
  hr_record_kind : string;
  hr_mutation_kind : string;
  hr_canonical_sha256 : Sha256Digest;
}.

(** Operations with their metadata and queue, nonces, device heads by workspace. *)
Record LogTables := {
  lg_queue : OutboxTables;
  lg_nonces : gmap (N * XChaChaNonce) OperationId;
  lg_device_heads : gmap WorkspaceId (gmap DeviceId StoredDeviceHead);
}.

(** Record heads by workspace and record, and the conflict shown for a record. *)
Record HeadTables := {
  ht_heads : gmap (WorkspaceId * RecordId) (gmap OperationId HeadRow);
  ht_conflicts : gmap RecordId (SyncOperationV1 * SyncOperationV1);
}.

(** The rows of [records]: its [kind] column and payload. *)
Inductive LiveRecord :=
| LiveMemory (record : MemoryRecord)
| LiveInstruction (record : InstructionRecord).

Record LiveTables (E : Type) := {
  lv_records : gmap RecordId LiveRecord;
  lv_embeddings : gmap RecordId E;
  lv_candidates : gmap RecordId MemoryCandidate;
  lv_tasks : gmap RecordId TaskRecord;
  lv_secret_refs : gmap RecordId SecretRef;
  lv_components : gmap RecordId ComponentRecord;
  lv_projects : gmap RecordId ProjectIdentity;
}.
Arguments lv_records {E}. Arguments lv_embeddings {E}. Arguments lv_candidates {E}.
Arguments lv_tasks {E}. Arguments lv_secret_refs {E}. Arguments lv_components {E}.
Arguments lv_projects {E}.

Inductive SyncRecordOwnerState := Verified | LegacyPending.

Record StoredSyncRecordOwner := {
  own_account_id : AccountId;
  own_workspace_id : WorkspaceId;
  own_record_kind : RecordKind;
  own_state : SyncRecordOwnerState;
}.

Record OwnerTables := {
  ow_owners : gmap RecordId StoredSyncRecordOwner;
  ow_aliases : gmap RecordId RecordId;
}.

Record SyncCheckpointSchedule := {
  cs_applied_operations : N;
  cs_first_uncheckpointed_ms : option N;
  cs_last_checkpoint_ms : option N;
  cs_requested : bool;
}.

Abbreviation ScheduleTable := (gmap (AccountId * WorkspaceId) SyncCheckpointSchedule).

Record VaultTables (E : Type) := {
  vt_log : LogTables;
  vt_heads : HeadTables;
  vt_live : LiveTables E;
  vt_owners : OwnerTables;
  vt_schedule : ScheduleTable;
}.
Arguments vt_log {E}. Arguments vt_heads {E}. Arguments vt_live {E}.
Arguments vt_owners {E}. Arguments vt_schedule {E}.

#[global] Instance SyncRecordOwnerState_eq_dec : EqDecision SyncRecordOwnerState.
Proof. solve_decision. Defined.
#[global] Instance StoredSyncRecordOwner_eq_dec : EqDecision StoredSyncRecordOwner.
Proof. solve_decision. Defined.
#[global] Instance SyncCheckpointSchedule_eq_dec : EqDecision SyncCheckpointSchedule.
Proof. solve_decision. Defined.

(** Table updates. *)
Definition set_log {E} (t : VaultTables E) (log : LogTables) : VaultTables E :=
  {| vt_log := log; vt_heads := vt_heads t; vt_live := vt_live t; vt_owners := vt_owners t;
     vt_schedule := vt_schedule t |}.
Definition set_heads {E} (t : VaultTables E) (heads : HeadTables) : VaultTables E :=
  {| vt_log := vt_log t; vt_heads := heads; vt_live := vt_live t; vt_owners := vt_owners t;
     vt_schedule := vt_schedule t |}.
Definition set_live {E} (t : VaultTables E) (live : LiveTables E) : VaultTables E :=
  {| vt_log := vt_log t; vt_heads := vt_heads t; vt_live := live; vt_owners := vt_owners t;
     vt_schedule := vt_schedule t |}.
Definition set_owners {E} (t : VaultTables E) (owners : OwnerTables) : VaultTables E :=
  {| vt_log := vt_log t; vt_heads := vt_heads t; vt_live := vt_live t; vt_owners := owners;
     vt_schedule := vt_schedule t |}.
Definition set_schedule {E} (t : VaultTables E) (schedule : ScheduleTable) : VaultTables E :=
  {| vt_log := vt_log t; vt_heads := vt_heads t; vt_live := vt_live t; vt_owners := vt_owners t;
     vt_schedule := schedule |}.

(** ** Kinds as text *)

Definition record_kind_name (value : RecordKind) : string :=
  match value with
  | KMemory => "memory"
  | KMemoryCandidate => "memory_candidate"
  | KTask => "task"
  | KSecretRef => "secret_ref"
  | KInstruction => "instruction"
  | KComponent => "component"
  | KProject => "project"
  end.

Definition parse_record_kind (value : string) : result VaultError RecordKind :=
  if bool_decide (value = "memory"%string) then Ok KMemory else
  if bool_decide (value = "memory_candidate"%string) then Ok KMemoryCandidate else
  if bool_decide (value = "task"%string) then Ok KTask else
  if bool_decide (value = "secret_ref"%string) then Ok KSecretRef else
  if bool_decide (value = "instruction"%string) then Ok KInstruction else
  if bool_decide (value = "component"%string) then Ok KComponent else
  if bool_decide (value = "project"%string) then Ok KProject else
  Err (Validation "invalid record kind").

Definition mutation_kind_name (value : MutationKind) : string :=
  match value with
  | Upsert => "upsert"
  | Tombstone => "tombstone"
  end.

Definition parse_mutation_kind (value : string) : result VaultError MutationKind :=
  if bool_decide (value = "upsert"%string) then Ok Upsert else
  if bool_decide (value = "tombstone"%string) then Ok Tombstone else
  Err (Validation "invalid mutation kind").

Lemma parse_record_kind_name k : parse_record_kind (record_kind_name k) = Ok k.
Proof. by destruct k. Qed.

Lemma parse_mutation_kind_name k : parse_mutation_kind (mutation_kind_name k) = Ok k.
Proof. by destruct k. Qed.

(** [SyncError::to_string] *)
Definition SyncError_to_string (self : SyncError) : string :=
  match self with
  | InvalidEnvelope => "invalid sync operation envelope"
  | InvalidIdentity => "sync operation identity mismatch"
  | InvalidChain => "sync operation chain mismatch"
  | InvalidFrontier => "invalid sync operation frontier"
  | InvalidScope => "sync operation scope mismatch"
  | AuthenticationFailed => "sync operation authentication failed"
  | EncryptionFailed => "sync operation encryption failed"
  | DecryptionFailed => "sync operation decryption failed"
  | InvalidMutation => "invalid sync operation mutation"
  | SequenceExhausted => "sync operation sequence exhausted"
  | OperationConflict => "sync operation identifier conflict"
  | SequenceConflict => "sync operation sequence conflict"
  | PersistenceFailed => "sync operation persistence failed"
  end.

(** What reads stored ciphertexts whose key the current material does not hold
    ([HistoricalReadMaterial::rehydrate]). *)
Class HistoricalRead (M : Type) := {
  historical_read_material : M -> option (SyncOperationV1 -> result VaultError RecordMutationV1);
}.

(** crate::derived_record_uuid *)
Definition derived_record_uuid `{Primitives} (source domain : bytes) : option bytes :=
  let digest := sha256 (domain ++ source) in
  let b := take 6 source ++ take 10 digest in
  let b := alter (fun x => byte_of (N.lor (N.land (Byte.to_N x) 0x0f) 0x70)) 6%nat b in
  let b := alter (fun x => byte_of (N.lor (N.land (Byte.to_N x) 0x3f) 0x80)) 8%nat b in
  if bool_decide (b = source) then None else Some b.

Definition LEGACY_CANDIDATE_DOMAIN : bytes := as_bytes (lit "context-relay.legacy-candidate.v1").

Section queries.
Context `{UuidCrate} `{Minicbor} `{RecordJson} `{Primitives}.
Context {E M : Type} `{TrustedSyncMaterial M} `{HistoricalRead M}.
Implicit Type t : VaultTables E.

Definition operations_of t : gmap OperationId SyncOperationV1 := tb_operations (lg_queue (vt_log t)).
Definition meta_of t : gmap OperationId OperationMeta := tb_meta (lg_queue (vt_log t)).

(** ** Record heads *)

(** [ORDER BY operation_id] over the join with [operations]. *)
Definition head_rows t (workspace : WorkspaceId) (record : RecordId)
    : list (OperationId * HeadRow * SyncOperationV1) :=
  omap (fun row => operation ← operations_of t !! row.1; Some (row, operation))
    (sort_by_key (fun row => uuid_hyphenated row.1)
       (map_to_list (default ∅ (ht_heads (vt_heads t) !! (workspace, record))))).

Definition load_head (row : OperationId * HeadRow * SyncOperationV1)
    : result VaultError StoredRecordHead :=
  let '(operation_id, head, operation) := row in
  let? record_kind := parse_record_kind (hr_record_kind head) in
  let? mutation_kind := parse_mutation_kind (hr_mutation_kind head) in
  let? _ := map_err (fun _ => Validation "invalid stored head operation")
              (SyncOperationV1_validate operation) in
  let? operation_bytes := map_err (fun _ => Validation "invalid stored head operation")
                            (encode_sync_operation_v1 operation) in
  if negb (bool_decide (op_operation_id operation = operation_id))
     || negb (bool_decide (op_record_kind operation = record_kind))
     || negb (bool_decide (op_mutation_kind operation = mutation_kind))
     || negb (bool_decide (sha256 operation_bytes = hr_canonical_sha256 head))
  then Err (Validation "stored head metadata does not match operation") else
  Ok {| srh_operation_id := operation_id; srh_record_kind := record_kind;
        srh_mutation_kind := mutation_kind; srh_canonical_hash := hr_canonical_sha256 head;
        srh_operation := operation |}.

Definition load_record_heads t (workspace : WorkspaceId) (record : RecordId)
    : result VaultError (list StoredRecordHead) :=
  try_map load_head (head_rows t workspace record).

(** ** The live record *)

Definition load_materialized_mutation t (record_id : RecordId) (record_kind : RecordKind)
    : option RecordMutationV1 :=
  let live := vt_live t in
  match record_kind with
  | KMemory =>
      match lv_records live !! record_id with Some (LiveMemory r) => Some (UpsertMemory r) | _ => None end
  | KMemoryCandidate => UpsertMemoryCandidate <$> lv_candidates live !! record_id
  | KTask => UpsertTask <$> lv_tasks live !! record_id
  | KSecretRef => UpsertSecretRef <$> lv_secret_refs live !! record_id
  | KInstruction =>
      match lv_records live !! record_id with
      | Some (LiveInstruction r) => Some (UpsertInstruction r) | _ => None end
  | KComponent => UpsertComponent <$> lv_components live !! record_id
  | KProject => UpsertProject <$> lv_projects live !! record_id
  end.

Definition kind_row {A} (table : gmap RecordId A) (record_id : RecordId) (k : RecordKind)
    : list RecordKind :=
  match table !! record_id with Some _ => [k] | None => [] end.

Definition materialized_record_kinds t (record_id : RecordId) : list RecordKind :=
  let live := vt_live t in
  match lv_records live !! record_id with
  | Some (LiveMemory _) => [KMemory]
  | Some (LiveInstruction _) => [KInstruction]
  | None => []
  end ++ kind_row (lv_candidates live) record_id KMemoryCandidate ++ kind_row (lv_tasks live) record_id KTask
  ++ kind_row (lv_secret_refs live) record_id KSecretRef ++ kind_row (lv_components live) record_id KComponent
  ++ kind_row (lv_projects live) record_id KProject.

Definition materialized_scope t (record_id : RecordId) (record_kind : RecordKind)
    : option ScopeRef :=
  let live := vt_live t in
  match record_kind with
  | KMemory =>
      match lv_records live !! record_id with Some (LiveMemory r) => Some (mem_scope r) | _ => None end
  | KInstruction =>
      match lv_records live !! record_id with
      | Some (LiveInstruction r) => Some (ins_scope r) | _ => None end
  | KMemoryCandidate => mem_scope ∘ cand_proposed_memory <$> lv_candidates live !! record_id
  | KTask => Project ∘ task_project_id <$> lv_tasks live !! record_id
  | KSecretRef => (fun _ => Global) <$> lv_secret_refs live !! record_id
  | KComponent => com_scope <$> lv_components live !! record_id
  | KProject => (fun _ => Project record_id) <$> lv_projects live !! record_id
  end.

Definition operation_scope (operation : SyncOperationV1) : result VaultError ScopeRef :=
  match op_record_kind operation with
  | KSecretRef =>
      match op_project_id operation with
      | None => Ok Global
      | Some _ => Err (Validation "secret reference head cannot have a project")
      end
  | KTask => ok_or (Project <$> op_project_id operation)
               (Validation "task head is missing its project")
  | KProject =>
      match op_project_id operation with
      | Some project_id =>
          if bool_decide (project_id = op_record_id operation) then Ok (Project project_id)
          else Err (Validation "project head scope is invalid")
      | None => Err (Validation "project head scope is invalid")
      end
  | _ => Ok (match op_project_id operation with
             | None => Global | Some project_id => Project project_id end)
  end.

Definition durable_record_scope t (workspace_id : WorkspaceId) (record_id : RecordId)
    (record_kind : RecordKind) : result VaultError (option ScopeRef) :=
  let? heads := load_record_heads t workspace_id record_id in
  try_fold (fun scope head =>
    if negb (bool_decide (srh_record_kind head = record_kind))
       || negb (bool_decide (op_record_id (srh_operation head) = record_id))
    then Err (Validation "durable record head kind or identity mismatch") else
    let? head_scope := operation_scope (srh_operation head) in
    if match scope with Some s => negb (bool_decide (s = head_scope)) | None => false end
    then Err (Validation "durable record heads disagree on scope") else Ok (Some head_scope))
    None heads.

(** [Vault::materialized_record_scope] *)
Definition vault_materialized_record_scope t (workspace_id : WorkspaceId) (record_id : RecordId)
    (record_kind : RecordKind) : result VaultError (option ScopeRef) :=
  match materialized_scope t record_id record_kind with
  | Some scope => Ok (Some scope)
  | None => durable_record_scope t workspace_id record_id record_kind
  end.

(** ** Stored mutations *)

Definition rehydrate_mutation_with_key (operation : SyncOperationV1) (k : ContentKey)
    : result VaultError RecordMutationV1 :=
  let aad := encode_sync_operation_aad_v1 operation in
  let? plaintext := map_err (fun _ => Validation "stored representative decryption failed")
    (ContentKey_decrypt k {| enc_nonce := op_nonce operation;
                             enc_ciphertext := op_ciphertext operation |} aad) in
  let? mutation := map_err (fun _ => Validation "stored representative mutation is invalid")
                     (decode_record_mutation_v1 plaintext) in
  if negb (bool_decide (op_record_id operation = mutation_record_id mutation))
     || negb (bool_decide (op_record_kind operation = mutation_record_kind mutation))
     || negb (bool_decide (op_mutation_kind operation = mutation_mutation_kind mutation))
     || negb (scope_matches (op_project_id operation) mutation)
  then Err (Validation "stored representative mutation does not match envelope") else Ok mutation.

Definition rehydrate_stored_mutation (trusted_material : M) (operation : SyncOperationV1)
    : result VaultError RecordMutationV1 :=
  match content_key trusted_material (op_workspace_id operation) (op_key_epoch operation) with
  | Ok k => rehydrate_mutation_with_key operation k
  | Err _ =>
    let? read := ok_or (historical_read_material trusted_material)
                   (Validation "stored representative key is unavailable") in
    read operation
  end.

End queries.
