(* ===== verification/RecordStore.v ===== *)
(** * Applying and committing operations (core/vault/sync.rs)

    [apply_admitted_operation_inner] applies a received operation to the vault's
    tables and [persist_outgoing] commits a local one, each in one transaction: a
    failure leaves the tables as they were.  A constraint of the schema that an
    [INSERT] would violate is the error [Database]. *)

From S2P Require Import Prelude Ordering Text Protocol Minicbor CanonicalCbor Domain.
From S2P Require Import SyncPayload Crypto Operation Causal Merge Transport StateSummary.
From S2P Require Import Admission Outbox Receipts VaultTables.

#[local] Open Scope N_scope.

(** sync/merge.rs, [RepresentativeEmbeddingResolver]. *)
Class EmbeddingResolver (E : Type) := {
  resolve_representative_embedding :
    OperationId -> RecordMutationV1 -> result SyncError (option E);
}.

Inductive CommitDisposition := CommitInserted | CommitExactReplay.

Definition constraint (b : bool) : result VaultError unit := if b then Ok tt else Err Database.

Section store.
Context `{UuidCrate} `{Minicbor} `{RecordJson} `{Primitives} `{Membership}.
Context {E M : Type} `{TrustedSyncMaterial M} `{HistoricalRead M} `{EmbeddingResolver E}.
Implicit Type t : VaultTables E.

(** ** Owners *)

Definition stored_sync_record_owner t (record_id : RecordId) : option StoredSyncRecordOwner :=
  ow_owners (vt_owners t) !! record_id.

Definition resolve_candidate_id t (id : RecordId) : RecordId :=
  default id (ow_aliases (vt_owners t) !! id).

Definition candidate_alias_allows_scope t (account_id : AccountId) (workspace_id : WorkspaceId)
    (record_id : RecordId) (record_kind : RecordKind) : bool :=
  let resolved := resolve_candidate_id t record_id in
  if bool_decide (resolved = record_id) then true else
  bool_decide (record_kind = KMemory)
  && match stored_sync_record_owner t resolved with
     | Some owner =>
         bool_decide (own_account_id owner = account_id)
         && bool_decide (own_workspace_id owner = workspace_id)
         && bool_decide (own_record_kind owner = KMemoryCandidate)
         && bool_decide (own_state owner = Verified)
     | None => false
     end.

Definition set_owner t (record_id : RecordId) (owner : StoredSyncRecordOwner) : VaultTables E :=
  set_owners t {| ow_owners := <[record_id := owner]> (ow_owners (vt_owners t));
                  ow_aliases := ow_aliases (vt_owners t) |}.

Definition insert_or_verify_sync_record_owner t (account_id : AccountId)
    (workspace_id : WorkspaceId) (record_id : RecordId) (record_kind : RecordKind)
    : result VaultError (VaultTables E) :=
  let bound := {| own_account_id := account_id; own_workspace_id := workspace_id;
                  own_record_kind := record_kind; own_state := Verified |} in
  match stored_sync_record_owner t record_id with
  | Some owner =>
      if bool_decide (owner = bound) then Ok t
      else Err (Validation "record identifier belongs to another sync scope")
  | None => Ok (set_owner t record_id bound)
  end.

Definition legacy_owner_matches_materialization t (trusted_material : M) (account_id : AccountId)
    (workspace_id : WorkspaceId) (record_id : RecordId) (record_kind : RecordKind)
    : result VaultError bool :=
  let? heads := load_record_heads t workspace_id record_id in
  let? representative := ok_or (head heads)
    (Validation "legacy sync record owner has no durable head") in
  if existsb (fun h =>
       negb (bool_decide (srh_record_kind h = record_kind))
       || negb (bool_decide (op_account_id (srh_operation h) = account_id))
       || negb (bool_decide (op_workspace_id (srh_operation h) = workspace_id))
       || negb (bool_decide (op_record_id (srh_operation h) = record_id))) heads
  then Err (Validation "legacy sync record heads disagree on owner or kind") else
  let? mutation := rehydrate_stored_mutation trusted_material (srh_operation representative) in
  let kinds := materialized_record_kinds t record_id in
  if bool_decide (mutation_mutation_kind mutation = Tombstone) then Ok (bool_decide (kinds = [])) else
  if negb (bool_decide (kinds = [record_kind])) then Ok false else
  Ok (bool_decide (load_materialized_mutation t record_id record_kind = Some mutation)).

Definition belongs_to_sync_scope t (trusted_material : M) (account_id : AccountId)
    (workspace_id : WorkspaceId) (record_id : RecordId) (record_kind : RecordKind)
    : result VaultError bool :=
  if negb (candidate_alias_allows_scope t account_id workspace_id record_id record_kind)
  then Ok false else
  match stored_sync_record_owner t record_id with
  | Some owner =>
    if negb (bool_decide ((own_account_id owner, own_workspace_id owner, own_record_kind owner)
                          = (account_id, workspace_id, record_kind))) then Ok false else
    match own_state owner with
    | Verified => Ok true
    | LegacyPending => legacy_owner_matches_materialization t trusted_material account_id
                         workspace_id record_id record_kind
    end
  | None => Ok (bool_decide (materialized_record_kinds t record_id = []))
  end.

Definition ensure_sync_record_owner t (trusted_material : option M) (account_id : AccountId)
    (workspace_id : WorkspaceId) (record_id : RecordId) (record_kind : RecordKind)
    : result VaultError (VaultTables E) :=
  if negb (candidate_alias_allows_scope t account_id workspace_id record_id record_kind)
  then Err VaultOperationConflict else
  match stored_sync_record_owner t record_id with
  | Some owner =>
    if negb (bool_decide ((own_account_id owner, own_workspace_id owner, own_record_kind owner)
                          = (account_id, workspace_id, record_kind)))
    then Err (Validation "record identifier belongs to another sync scope") else
    match own_state owner with
    | Verified => Ok t
    | LegacyPending =>
      let? trusted_material := ok_or trusted_material
        (Validation "legacy sync record owner requires verified reconciliation") in
      let? matches := legacy_owner_matches_materialization t trusted_material account_id
                        workspace_id record_id record_kind in
      if negb matches
      then Err (Validation "legacy sync record owner requires verified reconciliation") else
      Ok (set_owner t record_id {|
            own_account_id := own_account_id owner; own_workspace_id := own_workspace_id owner;
            own_record_kind := own_record_kind owner; own_state := Verified |})
    end
  | None =>
    if negb (bool_decide (materialized_record_kinds t record_id = []))
    then Err (Validation "ownerless materialized record requires explicit sync binding") else
    insert_or_verify_sync_record_owner t account_id workspace_id record_id record_kind
  end.

(** Any alias that has one of two identifiers on either side. *)
Definition alias_exists t (old_id new_id : RecordId) : bool :=
  existsb (fun a => bool_decide (a.1 ∈ [old_id; new_id]) || bool_decide (a.2 ∈ [old_id; new_id]))
    (map_to_list (ow_aliases (vt_owners t))).

Definition restore_received_candidate_alias t (candidate : MemoryCandidate)
    (account_id : AccountId) (workspace_id : WorkspaceId) : result VaultError (VaultTables E) :=
  let old_id := mem_id (cand_proposed_memory candidate) in
  let? expected := ok_or (derived_record_uuid old_id LEGACY_CANDIDATE_DOMAIN) VaultOperationConflict in
  if negb (bool_decide (cand_id candidate = expected)) then Ok t else
  let new_id := cand_id candidate in
  if bool_decide (resolve_candidate_id t old_id = new_id) then Ok t else
  let kinds := materialized_record_kinds t old_id in
  let owner := stored_sync_record_owner t old_id in
  if alias_exists t old_id new_id
     || existsb (fun k => negb (bool_decide (k = KMemory))) kinds
     || match owner with
        | Some owner =>
            negb (bool_decide (own_account_id owner = account_id))
            || negb (bool_decide (own_workspace_id owner = workspace_id))
            || negb (bool_decide (own_record_kind owner = KMemory))
            || negb (bool_decide (own_state owner = Verified))
        | None => negb (bool_decide (kinds = []))
        end
  then Err VaultOperationConflict else
  Ok (set_owners t {| ow_owners := ow_owners (vt_owners t);
                      ow_aliases := <[old_id := new_id]> (ow_aliases (vt_owners t)) |}).

(** ** Materialising *)

Definition with_live_records (live : LiveTables E) (records : gmap RecordId LiveRecord)
    (embeddings : gmap RecordId E) : LiveTables E := {|
  lv_records := records; lv_embeddings := embeddings; lv_candidates := lv_candidates live;
  lv_tasks := lv_tasks live; lv_secret_refs := lv_secret_refs live;
  lv_components := lv_components live; lv_projects := lv_projects live |}.

Definition with_live_tables (live : LiveTables E) (candidates : gmap RecordId MemoryCandidate)
    (tasks : gmap RecordId TaskRecord) (secret_refs : gmap RecordId SecretRef)
    (components : gmap RecordId ComponentRecord) (projects : gmap RecordId ProjectIdentity)
    : LiveTables E := {|
  lv_records := lv_records live; lv_embeddings := lv_embeddings live; lv_candidates := candidates;
  lv_tasks := tasks; lv_secret_refs := secret_refs; lv_components := components;
  lv_projects := projects |}.

Definition same_live_kind (a b : LiveRecord) : bool :=
  match a, b with
  | LiveMemory _, LiveMemory _ | LiveInstruction _, LiveInstruction _ => true
  | _, _ => false
  end.

(** vault.rs, [upsert_searchable_record]. *)
Definition upsert_searchable_record (live : LiveTables E) (id : RecordId) (record : LiveRecord)
    (embedding : E) : result VaultError (LiveTables E) :=
  if match lv_records live !! id with
     | Some existing => negb (same_live_kind existing record) | None => false end
  then Err (Validation "record kind cannot change") else
  Ok (with_live_records live (<[id := record]> (lv_records live))
        (<[id := embedding]> (lv_embeddings live))).

Definition materialize_mutation t (mutation : RecordMutationV1) (embedding : option E)
    : result VaultError (VaultTables E) :=
  let live := vt_live t in
  let missing := Validation "searchable sync mutation requires an embedding" in
  let tables c ta s co p := Ok (set_live t (with_live_tables live c ta s co p)) in
  let c := lv_candidates live in
  let ta := lv_tasks live in
  let s := lv_secret_refs live in
  let co := lv_components live in
  let p := lv_projects live in
  match mutation with
  | UpsertMemory record =>
    let? embedding := ok_or embedding missing in
    let? live := upsert_searchable_record live (mem_id record) (LiveMemory record) embedding in
    Ok (set_live t live)
  | UpsertInstruction record =>
    let? embedding := ok_or embedding missing in
    let? live := upsert_searchable_record live (ins_id record) (LiveInstruction record) embedding in
    Ok (set_live t live)
  | UpsertMemoryCandidate record =>
    if negb (bool_decide (resolve_candidate_id t (cand_id record) = cand_id record))
    then Err VaultOperationConflict else tables (<[cand_id record := record]> c) ta s co p
  | UpsertTask record => tables c (<[task_id record := record]> ta) s co p
  | UpsertSecretRef record => tables c ta (<[sec_id record := record]> s) co p
  | UpsertComponent record => tables c ta s (<[com_id record := record]> co) p
  | UpsertProject record => tables c ta s co (<[proj_project_id record := record]> p)
  | TombstoneMutation id kind =>
    match kind with
    | KMemory | KInstruction =>
        Ok (set_live t (with_live_records live (delete id (lv_records live))
                          (delete id (lv_embeddings live))))
    | KMemoryCandidate => tables (delete id c) ta s co p
    | KTask => tables c (delete id ta) s co p
    | KSecretRef => tables c ta (delete id s) co p
    | KComponent => tables c ta s (delete id co) p
    | KProject => tables c ta s co (delete id p)
    end
  end.

(** ** The operation log *)

Definition validate_admitted (admitted : AdmittedOperation) : result VaultError unit :=
  let operation := adm_operation admitted in
  let mutation := adm_mutation admitted in
  let? _ := map_err (fun _ => Validation "invalid admitted operation")
              (SyncOperationV1_validate operation) in
  let? _ := map_err (fun _ => Validation "invalid admitted mutation")
              (RecordMutationV1_validate mutation) in
  if negb (bool_decide (op_record_id operation = mutation_record_id mutation))
     || negb (bool_decide (op_record_kind operation = mutation_record_kind mutation))
     || negb (bool_decide (op_mutation_kind operation = mutation_mutation_kind mutation))
  then Err (Validation "admitted operation does not match mutation") else
  let? canonical := map_err (fun _ => Validation "invalid admitted operation")
                      (encode_sync_operation_v1 operation) in
  if negb (bool_decide (canonical = adm_canonical_bytes admitted))
     || negb (bool_decide (sha256 canonical = adm_canonical_hash admitted))
  then Err (Validation "admitted canonical operation mismatch") else Ok tt.

Definition exact_incoming_replay t (admitted : AdmittedOperation) : result VaultError bool :=
  match operations_of t !! op_operation_id (adm_operation admitted) with
  | None => Ok false
  | Some operation =>
    let? canonical := map_err (fun _ => Validation "invalid stored operation")
                        (encode_sync_operation_v1 operation) in
    if bool_decide (canonical = adm_canonical_bytes admitted) then Ok true
    else Err VaultOperationConflict
  end.

Definition validate_device_chain t (operation : SyncOperationV1) : result VaultError unit :=
  match lg_device_heads (vt_log t) !! op_workspace_id operation ≫= (.!! op_device_id operation) with
  | Some persisted =>
    let? expected_sequence := ok_or (checked_add u64_max (sdh_sequence persisted) 1)
                                (Validation "device sequence exhausted") in
    if negb (op_device_sequence operation =? expected_sequence)
       || negb (bool_decide (op_previous_device_hash operation = sdh_canonical_hash persisted))
    then Err (Validation "operation does not extend the persisted device head") else Ok tt
  | None =>
    if negb (op_device_sequence operation =? 1)
       || negb (bool_decide (op_previous_device_hash operation = zero_digest))
    then Err (Validation "first persisted device operation must be genesis") else Ok tt
  end.

(** The rows of [operations] and [sync_operation_meta], under their constraints. *)
Definition meta_row (operation : SyncOperationV1) (canonical_hash : Sha256Digest)
    (direction : Direction) (received_at : option rstr) : OperationMeta := {|
  meta_account_id := op_account_id operation; meta_workspace_id := op_workspace_id operation;
  meta_device_id := op_device_id operation; meta_device_sequence := op_device_sequence operation;
  meta_canonical_sha256 := canonical_hash; meta_direction := direction;
  meta_received_at := received_at |}.

Definition sequence_taken (meta : gmap OperationId OperationMeta) (operation : SyncOperationV1) : bool :=
  existsb (fun row => bool_decide (meta_workspace_id row.2 = op_workspace_id operation)
                      && bool_decide (meta_device_id row.2 = op_device_id operation)
                      && (meta_device_sequence row.2 =? op_device_sequence operation))
    (map_to_list meta).

Definition insert_operation t (operation : SyncOperationV1) (row : OperationMeta)
    : result VaultError (VaultTables E) :=
  let id := op_operation_id operation in
  let queue := lg_queue (vt_log t) in
  let? _ := constraint (bool_decide (operations_of t !! id = None)) in
  let? _ := constraint (bool_decide (meta_of t !! id = None)
                        && negb (sequence_taken (meta_of t) operation)) in
  Ok (set_log t {|
    lg_queue := {| tb_operations := <[id := operation]> (tb_operations queue);
                   tb_meta := <[id := row]> (tb_meta queue); tb_outbox := tb_outbox queue |};
    lg_nonces := lg_nonces (vt_log t); lg_device_heads := lg_device_heads (vt_log t) |}).

Definition insert_incoming_operation t (admitted : AdmittedOperation) (received_at : rstr)
    : result VaultError (VaultTables E) :=
  insert_operation t (adm_operation admitted)
    (meta_row (adm_operation admitted) (adm_canonical_hash admitted) Incoming (Some received_at)).

Definition note_checkpoint_operation t (account : AccountId) (workspace : WorkspaceId)
    (applied_at_ms : N) : VaultTables E :=
  let applied_at_ms := N.min applied_at_ms i64_max in
  let row :=
    match vt_schedule t !! (account, workspace) with
    | None => {| cs_applied_operations := 1; cs_first_uncheckpointed_ms := Some applied_at_ms;
                 cs_last_checkpoint_ms := None; cs_requested := false |}
    | Some row => {|
        cs_applied_operations := if cs_applied_operations row <? i64_max
                                 then cs_applied_operations row + 1 else cs_applied_operations row;
        cs_first_uncheckpointed_ms :=
          match cs_first_uncheckpointed_ms row with Some ms => Some ms | None => Some applied_at_ms end;
        cs_last_checkpoint_ms := cs_last_checkpoint_ms row; cs_requested := cs_requested row |}
    end in
  set_schedule t (<[(account, workspace) := row]> (vt_schedule t)).

Definition insert_nonce t (operation : SyncOperationV1) : result VaultError (VaultTables E) :=
  let nonces := lg_nonces (vt_log t) in
  let k := (op_key_epoch operation, op_nonce operation) in
  let? _ := constraint (bool_decide (nonces !! k = None)
    && negb (existsb (fun row => bool_decide (row.2 = op_operation_id operation)) (map_to_list nonces))) in
  Ok (set_log t {| lg_queue := lg_queue (vt_log t);
                   lg_nonces := <[k := op_operation_id operation]> nonces;
                   lg_device_heads := lg_device_heads (vt_log t) |}).

Definition upsert_device_head t (operation : SyncOperationV1) (canonical_hash : Sha256Digest)
    : VaultTables E :=
  let heads := lg_device_heads (vt_log t) in
  set_log t {| lg_queue := lg_queue (vt_log t); lg_nonces := lg_nonces (vt_log t);
    lg_device_heads := <[op_workspace_id operation :=
      <[op_device_id operation := {| sdh_sequence := op_device_sequence operation;
                                     sdh_canonical_hash := canonical_hash |}]>
      (default ∅ (heads !! op_workspace_id operation))]> heads |}.

(** ** Record heads *)

Definition head_row (operation : SyncOperationV1) (canonical_hash : Sha256Digest) : HeadRow := {|
  hr_record_kind := record_kind_name (op_record_kind operation);
  hr_mutation_kind := mutation_kind_name (op_mutation_kind operation);
  hr_canonical_sha256 := canonical_hash |}.

(** The rows of a record: [DELETE]s, then the [INSERT] of the operation's head. *)
Definition replace_head_rows t (operation : SyncOperationV1) (canonical_hash : Sha256Digest)
    (keep : gmap OperationId HeadRow -> gmap OperationId HeadRow)
    : result VaultError (gmap (WorkspaceId * RecordId) (gmap OperationId HeadRow)) :=
  let k := (op_workspace_id operation, op_record_id operation) in
  let rows := keep (default ∅ (ht_heads (vt_heads t) !! k)) in
  let? _ := constraint (bool_decide (rows !! op_operation_id operation = None)) in
  Ok (<[k := <[op_operation_id operation := head_row operation canonical_hash]> rows]>
        (ht_heads (vt_heads t))).

(** [None] deletes the conflict of the record, [Some] upserts it. *)
Definition set_record_heads t (operation : SyncOperationV1)
    (heads : gmap (WorkspaceId * RecordId) (gmap OperationId HeadRow))
    (conflict : option (SyncOperationV1 * SyncOperationV1)) : VaultTables E :=
  set_heads t {| ht_heads := heads;
    ht_conflicts := partial_alter (fun _ => conflict) (op_record_id operation)
                      (ht_conflicts (vt_heads t)) |}.

Definition remove_rows (remove : list OperationId) (rows : gmap OperationId HeadRow)
    : gmap OperationId HeadRow := foldl (fun rows id => delete id rows) rows remove.

(** The heads of the record after a conflict, in the order of their identifiers. *)
Definition conflict_heads_of (current : list StoredRecordHead) (remove : list OperationId)
    (admitted : AdmittedOperation) : list SyncOperationV1 :=
  sort_by_key op_operation_id
    ((srh_operation <$> filter (fun h => srh_operation_id h ∉ remove) current)
     ++ [adm_operation admitted]).

(** The head rows and the shown conflict after the decision. *)
Definition apply_heads t (admitted : AdmittedOperation) (decision : MergeDecision)
    (conflict_heads : list SyncOperationV1) : result VaultError (VaultTables E) :=
  let operation := adm_operation admitted in
  match decision with
  | NoLiveChange => Ok t
  | ReplaceHeads remove | ResolveConflict remove =>
    let? heads := replace_head_rows t operation (adm_canonical_hash admitted) (remove_rows remove) in
    Ok (set_record_heads t operation heads None)
  | AddConflictHead remove =>
    let? heads := replace_head_rows t operation (adm_canonical_hash admitted) (remove_rows remove) in
    match conflict_heads with
    | first :: second :: _ => Ok (set_record_heads t operation heads (Some (first, second)))
    | _ => Err (Validation "conflict head set is incomplete")
    end
  end.

(** ** apply_verified_in_transaction *)

(** The operation whose mutation becomes live, with that mutation. *)
Definition representative_mutation (rehydrate : SyncOperationV1 -> result VaultError RecordMutationV1)
    (admitted : AdmittedOperation) (decision : MergeDecision) (conflict_heads : list SyncOperationV1)
    : result VaultError (option (OperationId * RecordMutationV1)) :=
  let own := (op_operation_id (adm_operation admitted), adm_mutation admitted) in
  match decision with
  | NoLiveChange => Ok None
  | ReplaceHeads _ | ResolveConflict _ => Ok (Some own)
  | AddConflictHead _ =>
    match conflict_heads with
    | [] => Err (Validation "conflict head set is empty")
    | first :: _ =>
      if bool_decide (op_operation_id first = op_operation_id (adm_operation admitted))
      then Ok (Some own)
      else let? mutation := rehydrate first in Ok (Some (op_operation_id first, mutation))
    end
  end.

Definition resolved_embedding (representative : option (OperationId * RecordMutationV1))
    : result VaultError (option E) :=
  match representative with
  | Some (operation_id, (UpsertMemory _ | UpsertInstruction _) as mutation) =>
      map_err (fun error => Validation (SyncError_to_string error))
        (resolve_representative_embedding operation_id mutation)
  | _ => Ok None
  end.

Definition apply_verified_in_transaction t (admitted : AdmittedOperation)
    (trusted_material : option M) (rehydrate : SyncOperationV1 -> result VaultError RecordMutationV1)
    (applied_at_ms : N) (received_at : rstr) : result VaultError (VaultTables E * MergeDecision) :=
  let operation := adm_operation admitted in
  let? _ := validate_admitted admitted in
  let? replay := exact_incoming_replay t admitted in
  if replay : bool then Ok (t, NoLiveChange) else
  let? t := ensure_sync_record_owner t trusted_material (op_account_id operation)
              (op_workspace_id operation) (op_record_id operation) (op_record_kind operation) in
  let? t := match adm_mutation admitted with
            | UpsertMemoryCandidate candidate =>
                restore_received_candidate_alias t candidate (op_account_id operation)
                  (op_workspace_id operation)
            | _ => Ok t
            end in
  let? current := load_record_heads t (op_workspace_id operation) (op_record_id operation) in
  let? decision := map_err (fun error => Validation (SyncError_to_string error))
                     (decide_merge admitted current) in
  let? _ := validate_device_chain t operation in
  let conflict_heads :=
    match decision with
    | AddConflictHead remove => conflict_heads_of current remove admitted
    | _ => []
    end in
  let? representative := representative_mutation rehydrate admitted decision conflict_heads in
  let? embedding := resolved_embedding representative in
  let? t := match representative with
            | Some (_, mutation) => materialize_mutation t mutation embedding
            | None => Ok t
            end in
  let? t := insert_incoming_operation t admitted received_at in
  let t := note_checkpoint_operation t (op_account_id operation) (op_workspace_id operation)
             applied_at_ms in
  let? t := insert_nonce t operation in
  let t := upsert_device_head t operation (adm_canonical_hash admitted) in
  let? t := apply_heads t admitted decision conflict_heads in
  Ok (t, decision).

(** [apply_admitted_operation_inner] up to the cursor. *)
Definition apply_admitted_operation_inner t (admitted : AdmittedOperation) (trusted_material : M)
    (received_at : rstr) (applied_at_ms : N) : result VaultError (VaultTables E * MergeDecision) :=
  let? _ := validate_admitted admitted in
  let? _ := require_operation (adm_operation admitted) (membership_endpoint trusted_material) in
  let? _ := require_operation (adm_operation admitted) (adm_membership_endpoint admitted) in
  apply_verified_in_transaction t admitted (Some trusted_material)
    (rehydrate_stored_mutation trusted_material) applied_at_ms received_at.

(** ** Local operations *)

Definition validate_commit (mutation : RecordMutationV1) (built : BuiltOperation)
    : result VaultError unit :=
  let? _ := map_err (fun error => Validation (SyncError_to_string error))
              (validate_for_persistence built mutation) in
  let operation := built_operation built in
  if negb (bool_decide (op_record_id operation = mutation_record_id mutation))
     || negb (bool_decide (op_record_kind operation = mutation_record_kind mutation))
     || negb (bool_decide (op_mutation_kind operation = mutation_mutation_kind mutation))
  then Err (Validation "operation identity does not match mutation") else Ok tt.

Definition exact_replay t (built : BuiltOperation) : result VaultError bool :=
  match operations_of t !! op_operation_id (built_operation built) with
  | None => Ok false
  | Some operation =>
    let? canonical := map_err (fun error => Validation (ProtocolError_to_string error))
                        (encode_sync_operation_v1 operation) in
    if bool_decide (op_record_id operation = op_record_id (built_operation built))
       && bool_decide (canonical = built_canonical_bytes built)
    then Ok true else Err VaultOperationConflict
  end.

(** [INSERT INTO outbox(operation_id)], with the defaults of its columns; the clock of
    the database is an argument. *)
Definition enqueue t (operation_id : OperationId) (unixepoch : N) : result VaultError (VaultTables E) :=
  let queue := lg_queue (vt_log t) in
  let? _ := constraint (bool_decide (tb_outbox queue !! operation_id = None)) in
  Ok (set_log t {|
    lg_queue := with_outbox queue (<[operation_id := {|
      ob_queued_at := unixepoch; ob_attempt_count := 0; ob_next_attempt_ms := 0;
      ob_safe_error_code := None |}]> (tb_outbox queue));
    lg_nonces := lg_nonces (vt_log t); lg_device_heads := lg_device_heads (vt_log t) |}).

Definition persist_outgoing t (mutation : RecordMutationV1) (built : BuiltOperation)
    (embedding : option E) (committed_at_ms unixepoch : N) (materialize : bool)
    : result VaultError (VaultTables E * CommitDisposition) :=
  let operation := built_operation built in
  let? _ := validate_commit mutation built in
  let? _ := require_operation operation (built_membership_endpoint built) in
  let? replay := exact_replay t built in
  if replay : bool then Ok (t, CommitExactReplay) else
  let? t := ensure_sync_record_owner t None (op_account_id operation) (op_workspace_id operation)
              (op_record_id operation) (op_record_kind operation) in
  let? _ := validate_device_chain t operation in
  let? current_heads := load_record_heads t (op_workspace_id operation) (op_record_id operation) in
  if existsb (fun h => negb (bool_decide (compare_operations operation (srh_operation h) = After)))
       current_heads
  then Err (Validation "outgoing operation must causally follow every current record head") else
  let? t :=
    if materialize then materialize_mutation t mutation embedding
    else if bool_decide (load_materialized_mutation t (op_record_id operation)
                           (op_record_kind operation) = Some mutation)
    then Ok t else Err VaultOperationConflict in
  let? t := insert_operation t operation
              (meta_row operation (built_canonical_hash built) Outgoing None) in
  let t := note_checkpoint_operation t (op_account_id operation) (op_workspace_id operation)
             committed_at_ms in
  let? t := enqueue t (op_operation_id operation) unixepoch in
  let t := upsert_device_head t operation (built_canonical_hash built) in
  let? heads := replace_head_rows t operation (built_canonical_hash built) (fun _ => ∅) in
  let t := set_record_heads t operation heads None in
  let? t := insert_nonce t operation in
  Ok (t, CommitInserted).

(** [commit_outgoing_operation_at]: a commit without a local binding. *)
Definition commit_outgoing_operation_at t (mutation : RecordMutationV1) (built : BuiltOperation)
    (embedding : option E) (committed_at_ms unixepoch : N)
    : result VaultError (VaultTables E * CommitDisposition) :=
  let? _ := validate_commit mutation built in
  persist_outgoing t mutation built embedding committed_at_ms unixepoch true.

End store.
