(* ===== verification/VaultSteps.v ===== *)
(** * What the vault's transactions change (core/vault/sync.rs)

    Inversion of [apply_verified_in_transaction] and [persist_outgoing]: [applied] and
    [committed] say what a transaction that stores an operation did to the log, the
    owners, the record heads and the live record, and under which conditions. *)

From S2P Require Import Prelude Ordering Text Protocol Minicbor CanonicalCbor Domain.
From S2P Require Import SyncPayload Crypto Operation Causal Merge Transport StateSummary.
From S2P Require Import Admission Outbox Receipts VaultTables RecordStore.

#[local] Open Scope N_scope.

(** ** What each step changes *)

(** The log after an operation is stored: [queued] says whether it is also sent. *)
Definition log_step (log : LogTables) (operation : SyncOperationV1) (row : OperationMeta)
    (queued : option OutboxRow) : LogTables := {|
  lg_queue := {|
    tb_operations := <[op_operation_id operation := operation]> (tb_operations (lg_queue log));
    tb_meta := <[op_operation_id operation := row]> (tb_meta (lg_queue log));
    tb_outbox := match queued with
                 | Some r => <[op_operation_id operation := r]> (tb_outbox (lg_queue log))
                 | None => tb_outbox (lg_queue log) end |};
  lg_nonces := <[(op_key_epoch operation, op_nonce operation) := op_operation_id operation]>
                 (lg_nonces log);
  lg_device_heads := <[op_workspace_id operation :=
    <[op_device_id operation := {| sdh_sequence := op_device_sequence operation;
                                   sdh_canonical_hash := meta_canonical_sha256 row |}]>
    (default ∅ (lg_device_heads log !! op_workspace_id operation))]> (lg_device_heads log) |}.

(** The constraints under which it is stored. *)
Record fresh (log : LogTables) (operation : SyncOperationV1) : Prop := {
  fr_operation : tb_operations (lg_queue log) !! op_operation_id operation = None;
  fr_meta : tb_meta (lg_queue log) !! op_operation_id operation = None;
  fr_sequence : sequence_taken (tb_meta (lg_queue log)) operation = false;
  fr_nonce : lg_nonces log !! (op_key_epoch operation, op_nonce operation) = None;
}.

Definition device_head_of (log : LogTables) (workspace : WorkspaceId) (device : DeviceId)
    : option StoredDeviceHead :=
  lg_device_heads log !! workspace ≫= (.!! device).

Lemma constraint_Ok b u : constraint b = Ok u <-> b = true.
Proof. destruct b, u; naive_solver. Qed.

Section frames.
Context `{UuidCrate} `{MinicborLaws} `{RecordJson} `{!RecordJsonLaws} `{Primitives} `{Membership}.
Context {E M : Type} `{!TrustedSyncMaterial M} `{!HistoricalRead M} `{!EmbeddingResolver E}.
Implicit Type t : VaultTables E.

(** The operation's record is owned by its scope. *)
Definition owns t (operation : SyncOperationV1) : Prop :=
  ow_owners (vt_owners t) !! op_record_id operation = Some {|
    own_account_id := op_account_id operation; own_workspace_id := op_workspace_id operation;
    own_record_kind := op_record_kind operation; own_state := Verified |}.

Lemma ensure_owner_Ok t (m : option M) op t' :
  ensure_sync_record_owner t m (op_account_id op) (op_workspace_id op) (op_record_id op)
    (op_record_kind op) = Ok t' ->
  owns t' op /\ vt_log t' = vt_log t /\ vt_heads t' = vt_heads t /\ vt_live t' = vt_live t
  /\ (forall r, r <> op_record_id op ->
        ow_owners (vt_owners t') !! r = ow_owners (vt_owners t) !! r)
  /\ (forall owner, ow_owners (vt_owners t) !! op_record_id op = Some owner ->
        own_account_id owner = op_account_id op /\ own_workspace_id owner = op_workspace_id op
        /\ own_record_kind owner = op_record_kind op).
Proof.
  unfold ensure_sync_record_owner, owns, stored_sync_record_owner. intros Ho. res_inv.
  destruct (ow_owners (vt_owners t) !! op_record_id op) as [[a w k st]|] eqn:Eo.
  - cbn in Ho. case_bool_decide as Ek; [cbn [negb] in Ho|done]. simplify_eq.
    destruct st.
    + injection Ho as <-. split_and!; try done. intros owner [= <-]. done.
    + res_inv. subst t'. cbn. rewrite lookup_insert_eq. split_and!; try done.
      * intros r Hr. by rewrite lookup_insert_ne.
      * intros owner [= <-]. done.
  - res_inv. unfold insert_or_verify_sync_record_owner, stored_sync_record_owner in Ho.
    rewrite Eo in Ho. injection Ho as <-. cbn. rewrite lookup_insert_eq. split_and!; try done.
    intros r Hr. by rewrite lookup_insert_ne.
Qed.

Lemma restore_alias_Ok t c a w t' :
  restore_received_candidate_alias t c a w = Ok t' ->
  vt_log t' = vt_log t /\ vt_heads t' = vt_heads t /\ vt_live t' = vt_live t
  /\ ow_owners (vt_owners t') = ow_owners (vt_owners t).
Proof.
  unfold restore_received_candidate_alias. intros Ho. res_inv.
  repeat (case_bool_decide; cbn [negb] in Ho; try by injection Ho as <-).
  all: destruct (_ || _); [done|]; by injection Ho as <-.
Qed.

Lemma materialize_mutation_frame t m emb t' :
  materialize_mutation t m emb = Ok t' -> t' = set_live t (vt_live t').
Proof.
  unfold materialize_mutation, upsert_searchable_record. intros Ho.
  destruct m as [| | | | | | |id k]; res_inv; try (by subst); try (by case_bool_decide; res_inv; subst).
  destruct k; by injection Ho as <-.
Qed.

Lemma insert_operation_Ok t op row t' :
  insert_operation t op row = Ok t' ->
  tb_operations (lg_queue (vt_log t)) !! op_operation_id op = None
  /\ tb_meta (lg_queue (vt_log t)) !! op_operation_id op = None
  /\ sequence_taken (tb_meta (lg_queue (vt_log t))) op = false
  /\ t' = set_log t {|
       lg_queue := {| tb_operations := <[op_operation_id op := op]> (operations_of t);
                      tb_meta := <[op_operation_id op := row]> (meta_of t);
                      tb_outbox := tb_outbox (lg_queue (vt_log t)) |};
       lg_nonces := lg_nonces (vt_log t); lg_device_heads := lg_device_heads (vt_log t) |}.
Proof.
  unfold insert_operation. intros Ho. apply rbind_unit_Ok in Ho as [Hc1%constraint_Ok Ho].
  apply rbind_unit_Ok in Ho as [Hc2%constraint_Ok Ho]. wf_inv. by injection Ho as <-.
Qed.

Lemma insert_nonce_Ok t op t' :
  insert_nonce t op = Ok t' ->
  lg_nonces (vt_log t) !! (op_key_epoch op, op_nonce op) = None
  /\ t' = set_log t {| lg_queue := lg_queue (vt_log t);
       lg_nonces := <[(op_key_epoch op, op_nonce op) := op_operation_id op]> (lg_nonces (vt_log t));
       lg_device_heads := lg_device_heads (vt_log t) |}.
Proof.
  unfold insert_nonce. intros Ho. apply rbind_unit_Ok in Ho as [Hc1%constraint_Ok Ho].
  wf_inv. by injection Ho as <-.
Qed.

(** The head rows of the record after a decision. *)
Definition heads_step (heads heads' : HeadTables) (op : SyncOperationV1) (hash : Sha256Digest)
    (keep : gmap OperationId HeadRow -> gmap OperationId HeadRow) : Prop :=
  let rows := keep (default ∅ (ht_heads heads !! (op_workspace_id op, op_record_id op))) in
  rows !! op_operation_id op = None
  /\ ht_heads heads' = <[(op_workspace_id op, op_record_id op) :=
       <[op_operation_id op := head_row op hash]> rows]> (ht_heads heads)
  /\ (forall r, r <> op_record_id op -> ht_conflicts heads' !! r = ht_conflicts heads !! r).

Lemma set_record_heads_step t op hash keep heads conflict :
  replace_head_rows t op hash keep = Ok heads ->
  heads_step (vt_heads t) (vt_heads (set_record_heads t op heads conflict)) op hash keep.
Proof.
  unfold replace_head_rows. intros Ho. apply rbind_unit_Ok in Ho as [Hc1%constraint_Ok Ho].
  wf_inv. injection Ho as <-. split_and!; [done|done|]. cbn. intros r Hr.
  by rewrite lookup_partial_alter_ne.
Qed.

Definition decision_heads (heads heads' : HeadTables) (a : AdmittedOperation) (d : MergeDecision) : Prop :=
  match d with
  | NoLiveChange => heads' = heads
  | ReplaceHeads remove | ResolveConflict remove | AddConflictHead remove =>
      heads_step heads heads' (adm_operation a) (adm_canonical_hash a) (remove_rows remove)
  end.

Lemma apply_heads_Ok t a d ch t' :
  apply_heads t a d ch = Ok t' ->
  decision_heads (vt_heads t) (vt_heads t') a d /\ t' = set_heads t (vt_heads t').
Proof.
  unfold apply_heads, decision_heads. intros Ho. destruct d as [|rm|rm|rm].
  - injection Ho as <-. split; [done|]. by destruct t.
  - res_inv. subst t'. split; [by apply set_record_heads_step|done].
  - apply rbind_Ok in Ho as (heads & Hh & Ho). destruct ch as [|x [|y ch]]; [done|done|].
    injection Ho as <-. split; [by apply set_record_heads_step|done].
  - res_inv. subst t'. split; [by apply set_record_heads_step|done].
Qed.

(** The head of a device's chain that an operation extends. *)
Definition extends_head (head : option StoredDeviceHead) (op : SyncOperationV1) : Prop :=
  match head with
  | Some h => op_device_sequence op = sdh_sequence h + 1
              /\ op_previous_device_hash op = sdh_canonical_hash h
  | None => op_device_sequence op = 1 /\ op_previous_device_hash op = zero_digest
  end.

Lemma validate_device_chain_Ok t op u :
  validate_device_chain t op = Ok u ->
  extends_head (device_head_of (vt_log t) (op_workspace_id op) (op_device_id op)) op.
Proof.
  unfold validate_device_chain, extends_head, device_head_of. intros Ho.
  destruct (_ ≫= _) as [h|]; res_inv; wf_inv; [|done].
  match goal with Hs : checked_add _ _ _ = Some _ |- _ => apply checked_add_Some in Hs as [-> _] end.
  done.
Qed.

(** The hash an operation is chained by. *)
Definition canonical (op : SyncOperationV1) (hash : Sha256Digest) : Prop :=
  exists b, encode_sync_operation_v1 op = Ok b /\ hash = sha256 b.

Definition names_mutation (op : SyncOperationV1) (m : RecordMutationV1) : Prop :=
  op_record_id op = mutation_record_id m /\ op_record_kind op = mutation_record_kind m
  /\ op_mutation_kind op = mutation_mutation_kind m.

Lemma validate_admitted_Ok a u :
  validate_admitted a = Ok u ->
  canonical (adm_operation a) (adm_canonical_hash a)
  /\ encode_sync_operation_v1 (adm_operation a) = Ok (adm_canonical_bytes a)
  /\ names_mutation (adm_operation a) (adm_mutation a).
Proof.
  unfold validate_admitted, canonical, names_mutation. intros Ho. res_inv. wf_inv. subst.
  split_and!; try done. eexists. split; [done|]. congruence.
Qed.

Lemma validate_commit_Ok m b u :
  validate_commit m b = Ok u ->
  canonical (built_operation b) (built_canonical_hash b)
  /\ encode_sync_operation_v1 (built_operation b) = Ok (built_canonical_bytes b)
  /\ names_mutation (built_operation b) m.
Proof.
  unfold validate_commit, validate_for_persistence, canonical, names_mutation, digest. intros Ho.
  res_inv. wf_inv. subst. split_and!; try done. eexists. split; [done|]. congruence.
Qed.

(** What storing an operation does to the log, its owner and its head rows. *)
Record stored t (op : SyncOperationV1) (row : OperationMeta) (queued : option OutboxRow) t' : Prop := {
  sd_log : vt_log t' = log_step (vt_log t) op row queued;
  sd_fresh : fresh (vt_log t) op;
  sd_chain : extends_head (device_head_of (vt_log t) (op_workspace_id op) (op_device_id op)) op;
  sd_canonical : canonical op (meta_canonical_sha256 row);
  sd_row : exists dir received, row = meta_row op (meta_canonical_sha256 row) dir received
    /\ (is_Some queued -> dir = Outgoing);
  sd_owns : owns t' op;
  sd_owner : forall owner, ow_owners (vt_owners t) !! op_record_id op = Some owner ->
    own_account_id owner = op_account_id op /\ own_workspace_id owner = op_workspace_id op
    /\ own_record_kind owner = op_record_kind op;
  sd_owners : forall r, r <> op_record_id op ->
    ow_owners (vt_owners t') !! r = ow_owners (vt_owners t) !! r;
}.

(** ** The live record *)

(** What the vault shows for a record after a mutation. *)
Definition shown (m : RecordMutationV1) : option RecordMutationV1 :=
  match m with TombstoneMutation _ _ => None | _ => Some m end.

(** The live record of [m] is [m], or none for a tombstone, it does not appear under another
    kind, and no other record changed. *)
Definition shows t (m : RecordMutationV1) t' : Prop :=
  load_materialized_mutation t' (mutation_record_id m) (mutation_record_kind m) = shown m
  /\ (forall k, k <> mutation_record_kind m ->
        load_materialized_mutation t (mutation_record_id m) k = None ->
        load_materialized_mutation t' (mutation_record_id m) k = None)
  /\ forall r k, r <> mutation_record_id m ->
       load_materialized_mutation t' r k = load_materialized_mutation t r k.

Lemma load_materialized_frame t t' r k :
  vt_live t = vt_live t' -> load_materialized_mutation t r k = load_materialized_mutation t' r k.
Proof. intros E'. unfold load_materialized_mutation. by rewrite E'. Qed.

Lemma shows_frame t1 t1' t2 t2' m :
  vt_live t1 = vt_live t1' -> vt_live t2 = vt_live t2' -> shows t1 m t2 -> shows t1' m t2'.
Proof.
  intros L1 L2. unfold shows.
  assert (F1 : forall r k, load_materialized_mutation t1' r k = load_materialized_mutation t1 r k)
    by (intros; by apply load_materialized_frame).
  assert (F2 : forall r k, load_materialized_mutation t2' r k = load_materialized_mutation t2 r k)
    by (intros; by apply load_materialized_frame).
  setoid_rewrite F1. by setoid_rewrite F2.
Qed.

Lemma materialize_shows t m emb t' : materialize_mutation t m emb = Ok t' -> shows t m t'.
Proof.
  unfold materialize_mutation, upsert_searchable_record, shows. intros Ho.
  destruct m as [| | | | | | |id k]; [..|destruct k]; res_inv; try (case_bool_decide; res_inv);
    subst; cbn;
    (split_and!; [by rewrite ?lookup_insert_eq, ?lookup_delete_eq|..]).
  all: try (intros r k' Hr; unfold load_materialized_mutation; destruct k'; cbn;
    by rewrite ?lookup_insert_ne, ?lookup_delete_ne by done).
  all: intros k' Hk; unfold load_materialized_mutation; destruct k'; cbn;
    rewrite ?lookup_insert_eq, ?lookup_delete_eq; try done; try congruence.
Qed.

(** ** Inversion of the two transactions *)

Lemma load_record_heads_frame t t' ws r :
  vt_log t = vt_log t' -> vt_heads t = vt_heads t' ->
  load_record_heads t ws r = load_record_heads t' ws r.
Proof.
  intros E1 E2. unfold load_record_heads, head_rows, operations_of. by rewrite E1, E2.
Qed.

(** What applying a new operation does. *)
Record applied t (a : AdmittedOperation) (rehydrate : SyncOperationV1 -> result VaultError RecordMutationV1)
    (received_at : rstr) t' (d : MergeDecision) (current : list StoredRecordHead) : Prop := {
  ap_stored : stored t (adm_operation a)
    (meta_row (adm_operation a) (adm_canonical_hash a) Incoming (Some received_at)) None t';
  ap_current : load_record_heads t (op_workspace_id (adm_operation a)) (op_record_id (adm_operation a))
               = Ok current;
  ap_decision : decide_merge a current = Ok d;
  ap_heads : decision_heads (vt_heads t) (vt_heads t') a d;
  ap_live : exists rep,
    representative_mutation rehydrate a d
      (match d with AddConflictHead remove => conflict_heads_of current remove a | _ => [] end) = Ok rep
    /\ match rep with
       | None => vt_live t' = vt_live t
       | Some (_, m) => shows t m t'
       end;
}.

Lemma insert_log_Ok t a received_at ms t1 t2 :
  insert_incoming_operation t a received_at = Ok t1 ->
  insert_nonce (note_checkpoint_operation t1 (op_account_id (adm_operation a))
                  (op_workspace_id (adm_operation a)) ms) (adm_operation a) = Ok t2 ->
  let t3 := upsert_device_head t2 (adm_operation a) (adm_canonical_hash a) in
  fresh (vt_log t) (adm_operation a)
  /\ vt_log t3 = log_step (vt_log t) (adm_operation a)
       (meta_row (adm_operation a) (adm_canonical_hash a) Incoming (Some received_at)) None
  /\ vt_heads t3 = vt_heads t /\ vt_live t3 = vt_live t /\ vt_owners t3 = vt_owners t.
Proof.
  intros (? & ? & ? & ->)%insert_operation_Ok (? & ->)%insert_nonce_Ok. by split_and!.
Qed.

Lemma alias_step_Ok t a t' :
  match adm_mutation a with
  | UpsertMemoryCandidate candidate => restore_received_candidate_alias t candidate
      (op_account_id (adm_operation a)) (op_workspace_id (adm_operation a))
  | _ => Ok t
  end = Ok t' ->
  vt_log t' = vt_log t /\ vt_heads t' = vt_heads t /\ vt_live t' = vt_live t
  /\ ow_owners (vt_owners t') = ow_owners (vt_owners t).
Proof. destruct (adm_mutation a); try (by intros [= <-]). apply restore_alias_Ok. Qed.

Lemma live_step_Ok t (rep : option (OperationId * RecordMutationV1)) emb t' :
  match rep with Some (_, m) => materialize_mutation t m emb | None => Ok t end = Ok t' ->
  t' = set_live t (vt_live t')
  /\ match rep with None => vt_live t' = vt_live t | Some (_, m) => shows t m t' end.
Proof.
  destruct rep as [[i m]|]; [|intros [= <-]; by destruct t].
  intros Hm. split; [by eapply materialize_mutation_frame|by eapply materialize_shows].
Qed.

Lemma apply_verified_Ok t a (m : option M) rehydrate ms received_at t' d :
  apply_verified_in_transaction t a m rehydrate ms received_at = Ok (t', d) ->
  names_mutation (adm_operation a) (adm_mutation a)
  /\ ((exists op, operations_of t !! op_operation_id (adm_operation a) = Some op
         /\ encode_sync_operation_v1 op = Ok (adm_canonical_bytes a) /\ t' = t /\ d = NoLiveChange)
      \/ exists current, applied t a rehydrate received_at t' d current).
Proof.
  unfold apply_verified_in_transaction. intros Ho.
  apply rbind_unit_Ok in Ho as [(Hcan & Henc & Hann)%validate_admitted_Ok Ho].
  split; [done|]. apply rbind_Ok in Ho as (replay & Hr & Ho). unfold exact_incoming_replay in Hr.
  destruct replay.
  { left. injection Ho as <- <-.
    destruct (operations_of t !! _) as [op|]; [|done]. res_inv. wf_inv. exists op. by subst. }
  right. clear Hr.
  apply rbind_Ok in Ho as (t1 & (Hown & L1 & H1' & V1 & O1 & S1)%ensure_owner_Ok & Ho).
  apply rbind_Ok in Ho as (t2 & (L2 & H2' & V2 & O2)%alias_step_Ok & Ho).
  apply rbind_Ok in Ho as (current & Hcur & Ho).
  apply rbind_Ok in Ho as (d0 & Hd%map_err_Ok & Ho).
  apply rbind_unit_Ok in Ho as [Hchain%validate_device_chain_Ok Ho].
  apply rbind_Ok in Ho as (rep & Hrep & Ho). apply rbind_Ok in Ho as (emb & _ & Ho).
  apply rbind_Ok in Ho as (t3 & [-> Hlive]%live_step_Ok & Ho).
  apply rbind_Ok in Ho as (t4 & Hi4 & Ho). apply rbind_Ok in Ho as (t5 & Hi5 & Ho).
  destruct (insert_log_Ok _ _ _ _ _ _ Hi4 Hi5) as (Hf & L5 & H5' & V5 & O5).
  apply rbind_Ok in Ho as (t6 & [Hh ->]%apply_heads_Ok & Ho). injection Ho as <- <-.
  cbn [vt_log vt_heads vt_live vt_owners set_live set_heads] in *.
  exists current. split; cbn [vt_log vt_heads vt_live vt_owners set_live set_heads].
  - split; cbn [vt_log vt_heads vt_live vt_owners set_live set_heads].
    + rewrite L5. by rewrite L2, L1.
    + by rewrite <- L1, <- L2.
    + by rewrite <- L1, <- L2.
    + done.
    + eexists _, _. split; [done|]. by intros [? ?].
    + unfold owns. cbn [vt_owners set_heads]. by rewrite O5; cbn; rewrite O2.
    + done.
    + intros r Hne. rewrite O5. cbn. by rewrite O2, O1.
  - rewrite <- Hcur. apply load_record_heads_frame; congruence.
  - done.
  - rewrite <- H1', <- H2', <- H5'. done.
  - exists rep. split; [done|]. destruct rep as [[i mut]|]; [|congruence].
    revert Hlive. apply shows_frame; cbn [vt_live set_live set_heads]; congruence.
Qed.

Lemma enqueue_Ok t id now t' :
  enqueue t id now = Ok t' ->
  exists row, t' = set_log t {|
    lg_queue := with_outbox (lg_queue (vt_log t)) (<[id := row]> (tb_outbox (lg_queue (vt_log t))));
    lg_nonces := lg_nonces (vt_log t); lg_device_heads := lg_device_heads (vt_log t) |}.
Proof.
  unfold enqueue. intros Ho. apply rbind_unit_Ok in Ho as [_ Ho]. injection Ho as <-. by eexists.
Qed.

(** What committing a new local operation does. *)
Record committed t (m : RecordMutationV1) (b : BuiltOperation) t' : Prop := {
  cm_stored : exists row, stored t (built_operation b)
    (meta_row (built_operation b) (built_canonical_hash b) Outgoing None) (Some row) t';
  cm_current : exists current,
    load_record_heads t (op_workspace_id (built_operation b)) (op_record_id (built_operation b))
      = Ok current
    /\ Forall (fun h => compare_operations (built_operation b) (srh_operation h) = After) current;
  cm_heads : heads_step (vt_heads t) (vt_heads t') (built_operation b) (built_canonical_hash b)
               (fun _ => ∅);
  cm_live : shows t m t'
    \/ vt_live t' = vt_live t
       /\ load_materialized_mutation t (mutation_record_id m) (mutation_record_kind m) = Some m;
}.

Lemma commit_live_Ok t op m emb (materialize : bool) t' :
  names_mutation op m ->
  (if materialize then materialize_mutation t m emb
   else if bool_decide (load_materialized_mutation t (op_record_id op) (op_record_kind op) = Some m)
   then Ok t else Err VaultOperationConflict) = Ok t' ->
  t' = set_live t (vt_live t')
  /\ (shows t m t'
      \/ vt_live t' = vt_live t
         /\ load_materialized_mutation t (mutation_record_id m) (mutation_record_kind m) = Some m).
Proof.
  intros (Hr & Hk & _) Ho. destruct materialize.
  - split; [by eapply materialize_mutation_frame|left; by eapply materialize_shows].
  - case_bool_decide as Hl; [|done]. injection Ho as <-. split; [by destruct t|right].
    by rewrite <- Hr, <- Hk.
Qed.

Lemma commit_log_Ok t op row ms now t1 t2 h keep heads conflict t3 :
  insert_operation t op row = Ok t1 ->
  enqueue (note_checkpoint_operation t1 (op_account_id op) (op_workspace_id op) ms)
    (op_operation_id op) now = Ok t2 ->
  replace_head_rows (upsert_device_head t2 op h) op h keep = Ok heads ->
  insert_nonce (set_record_heads (upsert_device_head t2 op h) op heads conflict) op = Ok t3 ->
  h = meta_canonical_sha256 row ->
  fresh (vt_log t) op /\ heads_step (vt_heads t) (vt_heads t3) op h keep
  /\ (exists queued, vt_log t3 = log_step (vt_log t) op row (Some queued))
  /\ vt_live t3 = vt_live t /\ vt_owners t3 = vt_owners t.
Proof.
  intros (? & ? & ? & ->)%insert_operation_Ok (r & ->)%enqueue_Ok
    Hh%(set_record_heads_step _ _ _ _ _ conflict) (? & ->)%insert_nonce_Ok ->.
  split_and!; try done. by exists r.
Qed.

Lemma persist_outgoing_Ok t m b emb ms now materialize t' disposition :
  persist_outgoing t m b emb ms now materialize = Ok (t', disposition) ->
  names_mutation (built_operation b) m
  /\ (t' = t /\ disposition = CommitExactReplay
      \/ committed t m b t' /\ disposition = CommitInserted).
Proof.
  unfold persist_outgoing. intros Ho.
  apply rbind_unit_Ok in Ho as [(Hcan & Henc & Hann)%validate_commit_Ok Ho].
  split; [done|]. apply rbind_unit_Ok in Ho as [_ Ho].
  apply rbind_Ok in Ho as (replay & _ & Ho). destruct replay; [left; by injection Ho as <- <-|right].
  apply rbind_Ok in Ho as (t1 & (Hown & L1 & H1' & V1 & O1 & S1)%ensure_owner_Ok & Ho).
  apply rbind_unit_Ok in Ho as [Hchain%validate_device_chain_Ok Ho].
  apply rbind_Ok in Ho as (current & Hcur & Ho).
  destruct (existsb _ current) eqn:Hall; [done|].
  apply rbind_Ok in Ho as (t2 & [-> Hlive]%commit_live_Ok & Ho); [|done].
  apply rbind_Ok in Ho as (t3 & Hi3 & Ho). apply rbind_Ok in Ho as (t4 & Hi4 & Ho).
  apply rbind_Ok in Ho as (heads & Hi5 & Ho). apply rbind_Ok in Ho as (t6 & Hi6 & Ho).
  injection Ho as <- <-. split; [|done].
  destruct (commit_log_Ok _ _ _ _ _ _ _ _ _ _ _ _ Hi3 Hi4 Hi5 Hi6 eq_refl)
    as (Hf & Hh & [row L6] & V6 & O6).
  cbn [vt_log vt_heads vt_live vt_owners set_live] in *. split.
  - exists row. split.
    + by rewrite L6, L1.
    + by rewrite <- L1.
    + by rewrite <- L1.
    + done.
    + by eexists _, _.
    + unfold owns. by rewrite O6.
    + done.
    + intros r Hne. by rewrite O6, O1.
  - exists current. split; [rewrite <- Hcur; apply load_record_heads_frame; congruence|].
    apply Forall_forall. intros h Hin. apply dec_stable. intros Hne.
    apply not_true_iff_false in Hall. apply Hall, existsb_exists. exists h.
    split; [by apply list_elem_of_In|]. by rewrite bool_decide_eq_false_2.
  - by rewrite <- H1'.
  - destruct Hlive as [Hl|[Hl1 Hl2]]; [left|right; split].
    + revert Hl. apply shows_frame; cbn [vt_live set_live set_heads]; congruence.
    + congruence.
    + rewrite <- Hl2. apply load_materialized_frame. congruence.
Qed.

End frames.
