(* ===== verification/VaultInvariant.v ===== *)
(** * What the vault's tables promise

    [vault_inv] relates the tables: the metadata, nonces and queue describe the stored
    operations, every device's operations are one hash chain from genesis to its head,
    and the record heads are stored operations of the record in the scope of its owner.
    Applying received operations, committing local ones and every change of the queue
    keep it, so it holds of every vault that started empty and saw only these. *)

From S2P Require Import Prelude Ordering Text Protocol Minicbor CanonicalCbor Domain.
From S2P Require Import SyncPayload Crypto Operation Causal Merge Transport StateSummary.
From S2P Require Import Admission Outbox Receipts VaultTables RecordStore VaultSteps.

#[local] Open Scope N_scope.

Section invariant.
Context `{UuidCrateLaws} `{MinicborLaws} `{RecordJson} `{!RecordJsonLaws} `{Primitives} `{Membership}.
Context {E M : Type} `{!TrustedSyncMaterial M} `{!HistoricalRead M} `{!EmbeddingResolver E}.
Implicit Type t : VaultTables E.

(** ** The invariant *)

(** A hash chain from genesis, and the device head it ends in. *)
Inductive chain_to : list SyncOperationV1 -> option StoredDeviceHead -> Prop :=
| chain_genesis : chain_to [] None
| chain_next ops head op hash :
    chain_to ops head -> extends_head head op -> canonical op hash ->
    chain_to (ops ++ [op])
      (Some {| sdh_sequence := op_device_sequence op; sdh_canonical_hash := hash |}).

(** The stored operations of a device in a workspace. *)
Definition by_device t (ws : WorkspaceId) (device : DeviceId) (op : SyncOperationV1) : Prop :=
  operations_of t !! op_operation_id op = Some op
  /\ op_workspace_id op = ws /\ op_device_id op = device.

Definition head_at (heads : HeadTables) (ws : WorkspaceId) (r : RecordId) (id : OperationId)
    : option HeadRow := default ∅ (ht_heads heads !! (ws, r)) !! id.

(** The owner of a record is the scope its operations have. *)
Definition in_owner_scope t (op : SyncOperationV1) : Prop :=
  exists owner, ow_owners (vt_owners t) !! op_record_id op = Some owner
    /\ own_account_id owner = op_account_id op /\ own_workspace_id owner = op_workspace_id op
    /\ own_record_kind owner = op_record_kind op.

(** A head row describes a stored operation of the record. *)
Definition head_ok t (ws : WorkspaceId) (r : RecordId) (id : OperationId) (row : HeadRow) : Prop :=
  exists op hash, operations_of t !! id = Some op /\ op_workspace_id op = ws /\ op_record_id op = r
    /\ canonical op hash /\ row = head_row op hash /\ in_owner_scope t op.

Record vault_inv t : Prop := {
  vi_operation : forall id op, operations_of t !! id = Some op ->
    op_operation_id op = id /\ wf_operation op = true
    /\ exists hash dir received, canonical op hash
         /\ meta_of t !! id = Some (meta_row op hash dir received);
  vi_meta : forall id, is_Some (meta_of t !! id) -> is_Some (operations_of t !! id);
  vi_nonce : forall k id, lg_nonces (vt_log t) !! k = Some id <->
    exists op, operations_of t !! id = Some op /\ k = (op_key_epoch op, op_nonce op);
  vi_chain : forall ws device, exists ops,
    chain_to ops (device_head_of (vt_log t) ws device)
    /\ forall op, op ∈ ops <-> by_device t ws device op;
  vi_head : forall ws r id row, head_at (vt_heads t) ws r id = Some row -> head_ok t ws r id row;
  vi_queue : forall id, is_Some (tb_outbox (lg_queue (vt_log t)) !! id) ->
    exists row, meta_of t !! id = Some row /\ meta_direction row = Outgoing;
}.

(** ** Chains *)

Lemma chain_to_length ops head :
  chain_to ops head -> len ops = match head with Some h => sdh_sequence h | None => 0 end.
Proof.
  induction 1 as [|ops head op hash _ IH Hx _]; [done|]. unfold len in *.
  rewrite length_app. cbn. unfold extends_head in Hx. destruct head; lia.
Qed.

Lemma chain_to_nil ops head :
  chain_to ops head -> match head with Some h => sdh_sequence h = 0 | None => True end -> ops = [].
Proof.
  intros Hc%chain_to_length Hh. destruct ops as [|op ops]; [done|]. rewrite len_cons in Hc.
  destruct head; lia.
Qed.

(** The [i]-th operation has sequence [i + 1]. *)
Lemma chain_to_sequence ops head i op :
  chain_to ops head -> ops !! i = Some op -> op_device_sequence op = N.of_nat i + 1.
Proof.
  intros Hc. revert i op. induction Hc as [|ops head op hash Hc IH Hx _]; intros i op' Hi; [done|].
  apply lookup_app_Some in Hi as [Hi|[Hle Hi]]; [by apply IH|].
  apply list_lookup_singleton_Some in Hi as [Hi <-]. apply chain_to_length in Hc.
  unfold len, extends_head in *. destruct head; lia.
Qed.

Lemma chain_to_unique ops head op op' :
  chain_to ops head -> op ∈ ops -> op' ∈ ops ->
  op_device_sequence op = op_device_sequence op' -> op = op'.
Proof.
  intros Hc [i Hi]%list_elem_of_lookup [j Hj]%list_elem_of_lookup Es.
  pose proof (chain_to_sequence _ _ _ _ Hc Hi). pose proof (chain_to_sequence _ _ _ _ Hc Hj).
  assert (i = j) as -> by lia. congruence.
Qed.

(** ** Preservation *)

Lemma operations_insert t op row q t' :
  stored t op row q t' ->
  operations_of t' = <[op_operation_id op := op]> (operations_of t)
  /\ meta_of t' = <[op_operation_id op := row]> (meta_of t).
Proof. intros Hs. unfold operations_of, meta_of. by rewrite (sd_log _ _ _ _ _ Hs). Qed.

Lemma stored_operation t op row q t' id op' :
  stored t op row q t' ->
  operations_of t' !! id = Some op' <->
  op_operation_id op = id /\ op' = op \/ operations_of t !! id = Some op'.
Proof.
  intros Hs. destruct (operations_insert _ _ _ _ _ Hs) as [-> _].
  pose proof (fr_operation _ _ (sd_fresh _ _ _ _ _ Hs)) as Hf. rewrite lookup_insert_Some.
  unfold operations_of in *. naive_solver congruence.
Qed.

Lemma in_owner_scope_stored t op row q t' op' :
  stored t op row q t' -> in_owner_scope t op' -> in_owner_scope t' op'.
Proof.
  intros Hs (owner & Ho & Ha). unfold in_owner_scope.
  destruct (decide (op_record_id op' = op_record_id op)) as [E'|E'].
  - rewrite E' in *. destruct (sd_owner _ _ _ _ _ Hs owner Ho) as (? & ? & ?).
    eexists. split; [apply (sd_owns _ _ _ _ _ Hs)|]. cbn. destruct Ha as (? & ? & ?).
    split_and!; congruence.
  - rewrite (sd_owners _ _ _ _ _ Hs) by done. by exists owner.
Qed.

Lemma owns_in_scope t op : owns t op -> in_owner_scope t op.
Proof. intros Ho. eexists. by split; [apply Ho|]. Qed.

Lemma head_ok_stored t op row q t' ws r id hr :
  stored t op row q t' -> head_ok t ws r id hr -> head_ok t' ws r id hr.
Proof.
  intros Hs (op' & hash & Ho & ? & ? & ? & ? & Hsc). exists op', hash.
  split_and!; try done; [by eapply stored_operation; eauto|by eapply in_owner_scope_stored].
Qed.

(** Heads are dropped or are the stored operation's. *)
Definition heads_grow t t' (op : SyncOperationV1) (hash : Sha256Digest) : Prop :=
  forall ws r id row, head_at (vt_heads t') ws r id = Some row ->
    head_at (vt_heads t) ws r id = Some row
    \/ ws = op_workspace_id op /\ r = op_record_id op /\ id = op_operation_id op
       /\ row = head_row op hash.

Lemma heads_step_grow t t' op hash keep :
  heads_step (vt_heads t) (vt_heads t') op hash keep ->
  (forall rows, keep rows ⊆ rows) -> heads_grow t t' op hash.
Proof.
  intros (_ & Hh & _) Hk ws r id row. unfold head_at. rewrite Hh.
  destruct (decide ((ws, r) = (op_workspace_id op, op_record_id op))) as [[= -> ->]|Hne];
    [|rewrite lookup_insert_ne by done; by left].
  rewrite lookup_insert_eq. cbn. intros [[<- <-]|[_ Hr]]%lookup_insert_Some; [by right|].
  left. by eapply lookup_weaken.
Qed.

Section stored.
Context t op row q t' (Hi : vault_inv t) (Hwf : wf_operation op = true) (Hs : stored t op row q t').

Lemma stored_operations_ok id op' :
  operations_of t' !! id = Some op' ->
  op_operation_id op' = id /\ wf_operation op' = true
  /\ exists hash dir received, canonical op' hash
       /\ meta_of t' !! id = Some (meta_row op' hash dir received).
Proof.
  destruct (operations_insert _ _ _ _ _ Hs) as [_ Hmeta].
  rewrite (stored_operation _ _ _ _ _ id op' Hs). intros [[<- ->]|Ho].
  - destruct (sd_row _ _ _ _ _ Hs) as (dir & rcv & Hrow & _).
    split_and!; [done..|]. exists (meta_canonical_sha256 row), dir, rcv.
    split; [apply (sd_canonical _ _ _ _ _ Hs)|]. by rewrite Hmeta, lookup_insert_eq, <- Hrow.
  - destruct (vi_operation _ Hi _ _ Ho) as (? & ? & hash & d & r & ? & Hm).
    split_and!; [done..|]. exists hash, d, r. split; [done|].
    rewrite Hmeta, lookup_insert_ne; [done|]. intros E'.
    pose proof (fr_operation _ _ (sd_fresh _ _ _ _ _ Hs)). unfold operations_of in *. congruence.
Qed.

Lemma stored_nonces_ok k id :
  lg_nonces (vt_log t') !! k = Some id <->
  exists op', operations_of t' !! id = Some op' /\ k = (op_key_epoch op', op_nonce op').
Proof.
  rewrite (sd_log _ _ _ _ _ Hs). cbn [lg_nonces log_step].
  setoid_rewrite (stored_operation _ _ _ _ _ id _ Hs). rewrite lookup_insert_Some.
  pose proof (fr_nonce _ _ (sd_fresh _ _ _ _ _ Hs)) as Hn. split.
  - intros [[<- <-]|[_ (op' & ? & ?)%(vi_nonce _ Hi)]]; eauto.
  - intros (op' & [[<- ->]|Ho] & ->); [by left|]. right.
    assert (Hk : lg_nonces (vt_log t) !! (op_key_epoch op', op_nonce op') = Some id)
      by (apply (vi_nonce _ Hi); eauto).
    split; [|done]. intros E'. rewrite E' in Hn. congruence.
Qed.

Lemma stored_device_head ws device :
  device_head_of (vt_log t') ws device
  = if decide (ws = op_workspace_id op /\ device = op_device_id op)
    then Some {| sdh_sequence := op_device_sequence op;
                 sdh_canonical_hash := meta_canonical_sha256 row |}
    else device_head_of (vt_log t) ws device.
Proof.
  rewrite (sd_log _ _ _ _ _ Hs). unfold device_head_of. cbn [lg_device_heads log_step].
  destruct (decide (ws = op_workspace_id op)) as [->|Hw].
  - rewrite lookup_insert_eq. cbn. destruct (decide (device = op_device_id op)) as [->|Hd].
    + by rewrite lookup_insert_eq, decide_True.
    + rewrite lookup_insert_ne, decide_False by naive_solver.
      by destruct (lg_device_heads (vt_log t) !! op_workspace_id op).
  - by rewrite lookup_insert_ne, decide_False by naive_solver.
Qed.

Lemma stored_chain_ok ws device :
  exists ops, chain_to ops (device_head_of (vt_log t') ws device)
    /\ forall op', op' ∈ ops <-> by_device t' ws device op'.
Proof.
  destruct (vi_chain _ Hi ws device) as (ops & Hc & Hin).
  unfold by_device in *. setoid_rewrite (stored_operation _ _ _ _ _ _ _ Hs).
  rewrite stored_device_head. case_decide as Hd.
  - destruct Hd as [-> ->]. exists (ops ++ [op]). split.
    + eapply chain_next; [done|apply (sd_chain _ _ _ _ _ Hs)|apply (sd_canonical _ _ _ _ _ Hs)].
    + intros op'. rewrite elem_of_app, list_elem_of_singleton, Hin. naive_solver.
  - exists ops. split; [done|]. intros op'. rewrite Hin. naive_solver.
Qed.

Lemma stored_queue_ok id :
  is_Some (tb_outbox (lg_queue (vt_log t')) !! id) ->
  exists r, meta_of t' !! id = Some r /\ meta_direction r = Outgoing.
Proof.
  destruct (operations_insert _ _ _ _ _ Hs) as [_ ->].
  destruct (sd_row _ _ _ _ _ Hs) as (dir & rcv & Hrow & Hdir).
  rewrite (sd_log _ _ _ _ _ Hs). cbn [lg_queue tb_outbox log_step].
  intros Hq. destruct (decide (id = op_operation_id op)) as [->|Hne].
  - exists row. rewrite lookup_insert_eq. split; [done|].
    rewrite Hrow. cbn. apply Hdir. destruct q; [done|].
    destruct (vi_queue _ Hi _ Hq) as (r & Hm & _).
    pose proof (fr_meta _ _ (sd_fresh _ _ _ _ _ Hs)). unfold meta_of in *. congruence.
  - rewrite lookup_insert_ne by done. apply (vi_queue _ Hi).
    destruct q; [by rewrite lookup_insert_ne in Hq|done].
Qed.

Lemma vault_inv_stored : heads_grow t t' op (meta_canonical_sha256 row) -> vault_inv t'.
Proof.
  intros Hg. destruct (operations_insert _ _ _ _ _ Hs) as [Hops Hmeta].
  split; [apply stored_operations_ok|..|apply stored_queue_ok].
  - intros id. rewrite Hmeta, Hops, !lookup_insert_is_Some.
    intros [->|[? ?%(vi_meta _ Hi)]]; auto.
  - apply stored_nonces_ok.
  - apply stored_chain_ok.
  - intros ws r id hr [Hh|(-> & -> & -> & ->)]%Hg.
    + eapply head_ok_stored; [done|]. by apply (vi_head _ Hi).
    + exists op, (meta_canonical_sha256 row). split_and!; try done.
      * by rewrite Hops, lookup_insert_eq.
      * apply (sd_canonical _ _ _ _ _ Hs).
      * by apply owns_in_scope, (sd_owns _ _ _ _ _ Hs).
Qed.

End stored.

(** ** The transactions keep the invariant *)

Lemma remove_rows_subseteq remove rows : remove_rows remove rows ⊆ rows.
Proof.
  unfold remove_rows. revert rows. induction remove as [|i l IH]; intros rows; [done|].
  cbn. etrans; [apply IH|apply delete_subseteq].
Qed.

Lemma decision_heads_grow t t' a d :
  decision_heads (vt_heads t) (vt_heads t') a d ->
  heads_grow t t' (adm_operation a) (adm_canonical_hash a).
Proof.
  destruct d; cbn [decision_heads].
  1: intros Hh ws r id row; rewrite Hh; by left.
  all: intros Hh; eapply heads_step_grow; [done|apply remove_rows_subseteq].
Qed.

Lemma apply_keeps_inv t a (m : option M) rehydrate ms received_at t' d :
  vault_inv t -> wf_operation (adm_operation a) = true ->
  apply_verified_in_transaction t a m rehydrate ms received_at = Ok (t', d) -> vault_inv t'.
Proof.
  intros Hi Hwf [_ [(op & _ & _ & -> & _)|(current & Ha)]]%apply_verified_Ok; [done|].
  eapply vault_inv_stored; [done..|apply (ap_stored _ _ _ _ _ _ _ Ha)|].
  eapply decision_heads_grow, (ap_heads _ _ _ _ _ _ _ Ha).
Qed.

Lemma commit_keeps_inv t m b emb ms now materialize t' disposition :
  vault_inv t -> wf_operation (built_operation b) = true ->
  persist_outgoing t m b emb ms now materialize = Ok (t', disposition) -> vault_inv t'.
Proof.
  intros Hi Hwf [_ [[-> _]|[Hc _]]]%persist_outgoing_Ok; [done|].
  destruct (cm_stored _ _ _ _ Hc) as [row Hs]. eapply vault_inv_stored; [done..|].
  eapply heads_step_grow; [apply (cm_heads _ _ _ _ Hc)|]. intros rows. apply map_empty_subseteq.
Qed.

(** ** The queue *)

Definition with_queue t (q : OutboxTables) : VaultTables E :=
  set_log t {| lg_queue := q; lg_nonces := lg_nonces (vt_log t);
               lg_device_heads := lg_device_heads (vt_log t) |}.

Lemma queue_keeps_inv t q :
  vault_inv t -> queue_step (lg_queue (vt_log t)) q -> vault_inv (with_queue t q).
Proof.
  intros Hi (Ho & Hm & Hq)%queue_step_shrinks.
  assert (Ho' : operations_of (with_queue t q) = operations_of t) by done.
  assert (Hm' : meta_of (with_queue t q) = meta_of t) by done.
  destruct Hi as [I1 I2 I3 I4 I5 I6]. split.
  - by rewrite Ho', Hm'.
  - by rewrite Ho', Hm'.
  - by rewrite Ho'.
  - intros ws device. unfold by_device. rewrite Ho'. apply I4.
  - intros ws r id row. unfold head_ok. rewrite Ho'. apply I5.
  - intros id Hid. rewrite Hm'. apply I6, Hq, Hid.
Qed.

(** ** Reachable vaults *)

Definition empty_tables : VaultTables E := {|
  vt_log := {| lg_queue := {| tb_outbox := ∅; tb_operations := ∅; tb_meta := ∅ |};
               lg_nonces := ∅; lg_device_heads := ∅ |};
  vt_heads := {| ht_heads := ∅; ht_conflicts := ∅ |};
  vt_live := {| lv_records := ∅; lv_embeddings := ∅; lv_candidates := ∅; lv_tasks := ∅;
                lv_secret_refs := ∅; lv_components := ∅; lv_projects := ∅ |};
  vt_owners := {| ow_owners := ∅; ow_aliases := ∅ |};
  vt_schedule := ∅ |}.

(** The transactions of synchronisation on the sync tables: applying received operations,
    committing operations the device built and signed, working the outbox, and rescheduling
    checkpoints.  The older [put_memory], [put_memories_batch] and [put_instruction] of
    vault.rs, which nothing outside the tests calls, store and queue an operation without its
    metadata, nonce, chain and owner; a vault they have written to is not [reachable] here,
    and does not satisfy [vault_inv].  [wf_operation] is what the types of the source
    guarantee of an operation: fixed-size identifiers and machine integers. *)
Inductive vault_step (t : VaultTables E) : VaultTables E -> Prop :=
| step_apply a (material : M) received_at ms t' d :
    wf_operation (adm_operation a) = true ->
    apply_admitted_operation_inner t a material received_at ms = Ok (t', d) -> vault_step t t'
| step_commit m b emb ms now materialize t' disposition :
    wf_operation (built_operation b) = true ->
    persist_outgoing t m b emb ms now materialize = Ok (t', disposition) -> vault_step t t'
| step_queue q : queue_step (lg_queue (vt_log t)) q -> vault_step t (with_queue t q)
| step_schedule schedule : vault_step t (set_schedule t schedule).

Definition reachable t : Prop := rtc vault_step empty_tables t.

Lemma no_entry {K A} `{Countable K} (m : gmap K A) i x : m = ∅ -> m !! i = Some x -> False.
Proof. intros ->. by rewrite lookup_empty. Qed.

Lemma vault_inv_empty : vault_inv empty_tables.
Proof.
  split.
  - intros id op Ho. destruct (no_entry _ _ _ eq_refl Ho).
  - intros id [row Ho]. destruct (no_entry _ _ _ eq_refl Ho).
  - intros k id. split; [intros Ho; destruct (no_entry _ _ _ eq_refl Ho)|].
    intros (op & Ho & _). destruct (no_entry _ _ _ eq_refl Ho).
  - intros ws device. exists []. split; [constructor|]. intros op. split; [by intros ?%elem_of_nil|].
    intros [Ho _]. destruct (no_entry _ _ _ eq_refl Ho).
  - intros ws r id row Ho. unfold head_at in Ho. cbn in Ho. destruct (no_entry _ _ _ eq_refl Ho).
  - intros id [row Ho]. destruct (no_entry _ _ _ eq_refl Ho).
Qed.

Lemma vault_step_inv t t' : vault_inv t -> vault_step t t' -> vault_inv t'.
Proof.
  intros Hi [a m rcv ms t1 d Hwf Ho|m b emb ms now mat t1 disp Hwf Ho|q Hq|schedule].
  - unfold apply_admitted_operation_inner in Ho.
    do 3 apply rbind_unit_Ok in Ho as [_ Ho]. by eapply apply_keeps_inv.
  - by eapply commit_keeps_inv.
  - by apply queue_keeps_inv.
  - by destruct Hi.
Qed.

Lemma reachable_inv t : reachable t -> vault_inv t.
Proof.
  unfold reachable. intros Hr. eapply (rtc_ind_r (fun t => vault_inv t)); [apply vault_inv_empty| |done].
  intros t1 t2 _ Hs Hi. by eapply vault_step_inv.
Qed.

(** ** The history a device head stands for *)

(** Two operations with the same hash: a collision of SHA-256 or the same operation. *)
Definition collision_free (ops ops' : list SyncOperationV1) : Prop :=
  forall a b x y, a ∈ ops -> b ∈ ops' -> encode_sync_operation_v1 a = Ok x ->
    encode_sync_operation_v1 b = Ok y -> sha256 x = sha256 y -> x = y.

Lemma encode_inj a b x :
  wf_operation a = true -> wf_operation b = true ->
  encode_sync_operation_v1 a = Ok x -> encode_sync_operation_v1 b = Ok x -> a = b.
Proof.
  intros Ha Hb Ea Eb.
  assert (Da : decode_sync_operation_v1 x = Ok a) by (by apply decode_sync_operation_v1_Ok).
  assert (Db : decode_sync_operation_v1 x = Ok b) by (by apply decode_sync_operation_v1_Ok).
  congruence.
Qed.

Lemma chains_agree ops ops' h h' :
  chain_to ops (Some h) -> chain_to ops' (Some h') ->
  Forall (fun op => wf_operation op = true) ops -> Forall (fun op => wf_operation op = true) ops' ->
  collision_free ops ops' -> sdh_canonical_hash h = sdh_canonical_hash h' -> ops = ops'.
Proof.
  remember (Some h) as o eqn:Eo. intros Hc. revert h h' ops' Eo.
  induction Hc as [|ops head op hash Hc IH Hx Hcan]; intros h h' ops' [= <-] Hc' Hw Hw' Hcf Eh.
  inversion Hc' as [|ops2 head2 op2 hash2 Hc2 Hx2 Hcan2]; subst. cbn in Eh. subst hash2.
  apply Forall_app in Hw as [Hw [Hwo _]%Forall_cons].
  apply Forall_app in Hw' as [Hw' [Hwo' _]%Forall_cons].
  destruct Hcan as (x & Ex & ->), Hcan2 as (y & Ey & Exy).
  assert (x = y) as <- by (eapply Hcf; [| |done|done|done]; set_solver).
  assert (op = op2) as <- by (by eapply encode_inj). f_equal.
  destruct head as [h1|], head2 as [h2|]; cbn in Hx, Hx2.
  - eapply (IH h1 h2); try done; [|destruct Hx, Hx2; congruence].
    intros a b x1 y1 Ha Hb. apply Hcf; set_solver.
  - rewrite (chain_to_nil ops (Some h1)), (chain_to_nil ops2 None); [done..|cbn; lia].
  - rewrite (chain_to_nil ops None), (chain_to_nil ops2 (Some h2)); [done..|cbn; lia|done|done].
  - by rewrite (chain_to_nil ops None), (chain_to_nil ops2 None).
Qed.

Lemma device_operations_wf t ws device ops :
  vault_inv t -> (forall op, op ∈ ops <-> by_device t ws device op) ->
  Forall (fun op => wf_operation op = true) ops.
Proof.
  intros Hi Hin. apply Forall_forall. intros op [Ho _]%Hin.
  by destruct (vi_operation _ Hi _ _ Ho) as (_ & ? & _).
Qed.

(** C2.  Synchronisation keeps the sync tables consistent: in a vault changed, since it was
    empty, only by applying received operations, committing local signed ones, working the
    outbox and rescheduling checkpoints (so not by the unsigned writes of [put_memory] and its
    siblings), every stored operation has its metadata, canonical hash and nonce, the operations of a
    device are one hash chain from genesis to its recorded head, every record head is a
    stored operation of that record in its owner's scope, and only outgoing operations
    are queued. *)
Theorem vault_tables_consistent t : reachable t -> vault_inv t.
Proof. apply reachable_inv. Qed.

(** A device head stands for the whole history of the device: two vaults whose heads
    for a device have the same hash hold exactly the same operations of that device and
    the same sequence, unless SHA-256 collides on two of them. *)
Theorem device_head_fixes_history t t' ws device h h' :
  reachable t -> reachable t' ->
  device_head_of (vt_log t) ws device = Some h -> device_head_of (vt_log t') ws device = Some h' ->
  sdh_canonical_hash h = sdh_canonical_hash h' ->
  (forall a b x y, by_device t ws device a -> by_device t' ws device b ->
     encode_sync_operation_v1 a = Ok x -> encode_sync_operation_v1 b = Ok y ->
     sha256 x = sha256 y -> x = y) ->
  h = h' /\ forall op, by_device t ws device op <-> by_device t' ws device op.
Proof.
  intros Hi%reachable_inv Hi'%reachable_inv Eh Eh' Ehash Hcf.
  destruct (vi_chain _ Hi ws device) as (ops & Hc & Hin).
  destruct (vi_chain _ Hi' ws device) as (ops' & Hc' & Hin'). rewrite Eh in Hc. rewrite Eh' in Hc'.
  assert (ops = ops') as <-.
  { eapply (chains_agree ops ops' h h'); eauto using device_operations_wf.
    intros a b x y Ha%Hin Hb%Hin'. by apply Hcf. }
  split; [|intros op; by rewrite <- Hin, <- Hin'].
  apply chain_to_length in Hc, Hc'. destruct h, h'. cbn in *. congruence.
Qed.

End invariant.

(** *** Witness: two devices write the same record *)

Module VaultWitness.
#[local] Existing Instances rfc9562 rfc9562_laws Rfc8949.codec Rfc8949.codec_laws
  CountableJson.records CountableJson.records_laws Toy.toy Toy.toy_laws.

Definition uuid (n : N) : Uuid := take 15 Fixture.id ++ [byte_of n].

#[local] Instance unenrolled : Membership :=
  {| history_endpoint := Ok None; require_operation _ _ := Ok tt |}.

#[local] Instance material : TrustedSyncMaterial unit := AdmissionWitness.roster.
#[local] Instance no_history : HistoricalRead unit := {| historical_read_material _ := None |}.
#[local] Instance no_embeddings : EmbeddingResolver unit :=
  {| resolve_representative_embedding _ _ := Ok (Some tt) |}.

Definition identity (n : N) : SyncIdentity := {|
  id_membership_endpoint := None; id_account_id := Fixture.id; id_workspace_id := Fixture.id;
  id_device_id := uuid n; id_control_epoch := 17; id_key_epoch := 23;
  id_device_keys := CryptoWitness.keys; id_content_key := Fixture.rep 32 11 |}.

Definition secret (name : string) : RecordMutationV1 := UpsertSecretRef {|
  sec_id := Fixture.id; sec_name := lit name; sec_provider := lit "env";
  sec_required_on_device := true |}.

(** The first operation of device [n]. *)
Definition built (n : N) (name : string) : result SyncError BuiltOperation :=
  (build {| builder_identity := identity n; builder_fixed_nonce := Some (Fixture.rep 24 n) |}
     {| req_operation_id := uuid n; req_project_id := None; req_mutation := secret name;
        req_causal_frontier := []; req_previous := None; req_blob_refs := [];
        req_created_hlc := {| physical_ms := 1700000000000; logical := 0; node := uuid n |} |}
     None ∅).2.

Definition admitted (n : N) (name : string) : AdmittedOperation :=
  match built n name with
  | Ok b => {| adm_membership_endpoint := None; adm_operation := built_operation b;
               adm_mutation := secret name; adm_canonical_bytes := built_canonical_bytes b;
               adm_canonical_hash := built_canonical_hash b |}
  | Err _ => MergeWitness.admitted_of Fixture.operation
  end.

Definition apply_one (t : VaultTables unit) (a : AdmittedOperation) : VaultTables unit :=
  match apply_admitted_operation_inner t a tt (lit "2026-01-01T00:00:00Z") 5 with
  | Ok (t', _) => t'
  | Err _ => t
  end.

Lemma apply_one_Ok t a :
  is_ok (apply_admitted_operation_inner t a tt (lit "2026-01-01T00:00:00Z") 5) = true ->
  exists d, apply_admitted_operation_inner t a tt (lit "2026-01-01T00:00:00Z") 5 = Ok (apply_one t a, d).
Proof. unfold apply_one. destruct (apply_admitted_operation_inner _ _ _ _ _) as [[t' d]|]; [by exists d|done]. Qed.

Definition first : AdmittedOperation := admitted 1 "one".
Definition second : AdmittedOperation := admitted 2 "two".

Definition stored_one : VaultTables unit := apply_one empty_tables first.

Lemma stored_one_reachable : reachable (M := unit) stored_one.
Proof.
  destruct (apply_one_Ok empty_tables first) as [d Hd]; [vm_compute; reflexivity|].
  eapply rtc_once, step_apply, Hd. vm_compute. reflexivity.
Qed.

Lemma stored_one_operation id op : operations_of stored_one !! id = Some op -> op = adm_operation first.
Proof.
  assert (E : map_to_list (operations_of stored_one) = [(uuid 1, adm_operation first)])
    by (vm_compute; reflexivity).
  intros Ho%elem_of_map_to_list. rewrite E in Ho. apply list_elem_of_singleton in Ho. congruence.
Qed.

Lemma vault_tables_consistent_witness : vault_inv stored_one.
Proof. apply (vault_tables_consistent (M := unit)), stored_one_reachable. Defined.

Lemma device_head_fixes_history_witness :
  exists h, device_head_of (vt_log stored_one) Fixture.id (uuid 1) = Some h
    /\ h = h /\ forall op, by_device stored_one Fixture.id (uuid 1) op
                 <-> by_device stored_one Fixture.id (uuid 1) op.
Proof.
  destruct (device_head_of (vt_log stored_one) Fixture.id (uuid 1)) as [h|] eqn:Eh;
    [|vm_compute in Eh; discriminate Eh].
  exists h. split; [reflexivity|].
  apply (device_head_fixes_history (M := unit) stored_one stored_one Fixture.id (uuid 1) h h
    stored_one_reachable stored_one_reachable Eh Eh eq_refl).
  - intros a b x y [Ha _] [Hb _] Ex Ey _.
    apply stored_one_operation in Ha as ->. apply stored_one_operation in Hb as ->. congruence.
Defined.

End VaultWitness.
