(* ===== verification/VaultConverge.v ===== *)
(** * The head tables implement merging

    On a vault that satisfies [vault_inv], reading the heads of a record always
    succeeds, in the order of operation identifiers.  Applying an operation does to
    what is read exactly what [Merge.apply_decision] does to a list of heads
    ([apply_refines_merge]), and the live record is the mutation of the first head.
    [replica] says what the tables hold after a list of received operations. *)

From S2P Require Import Prelude Ordering Text Protocol Minicbor CanonicalCbor Domain.
From S2P Require Import SyncPayload Crypto Operation Causal Merge Transport StateSummary.
From S2P Require Import Admission Outbox Receipts VaultTables RecordStore VaultSteps.
From S2P Require Import VaultInvariant.

#[local] Open Scope N_scope.

Section converge.
Context `{UuidCrateLaws} `{MinicborLaws} `{RecordJson} `{!RecordJsonLaws} `{Primitives} `{Membership}.
Context {E M : Type} `{!TrustedSyncMaterial M} `{!HistoricalRead M} `{!EmbeddingResolver E}.
Implicit Type t : VaultTables E.

(** ** Reading the heads *)

Definition op_head (op : SyncOperationV1) (hash : Sha256Digest) : StoredRecordHead := {|
  srh_operation_id := op_operation_id op; srh_record_kind := op_record_kind op;
  srh_mutation_kind := op_mutation_kind op; srh_canonical_hash := hash; srh_operation := op |}.

Lemma canonical_unique op hash hash' : canonical op hash -> canonical op hash' -> hash = hash'.
Proof. intros (b & Eb & ->) (b' & Eb' & ->). congruence. Qed.

Lemma load_head_Ok op hash :
  canonical op hash -> load_head (op_operation_id op, head_row op hash, op) = Ok (op_head op hash).
Proof.
  intros (b & Eb & ->). pose proof Eb as [Hv _]%encode_sync_operation_v1_Ok.
  unfold load_head, head_row. cbn [hr_record_kind hr_mutation_kind hr_canonical_sha256].
  rewrite parse_record_kind_name, parse_mutation_kind_name, Hv. cbn [rbind map_err].
  rewrite Eb. cbn [rbind map_err]. by rewrite !bool_decide_eq_true_2.
Qed.

(** The head a stored row is read as. *)
Definition row_head t (row : OperationId * HeadRow) (h : StoredRecordHead) : Prop :=
  exists op hash, operations_of t !! row.1 = Some op /\ op_operation_id op = row.1
    /\ canonical op hash /\ row.2 = head_row op hash /\ h = op_head op hash.

Lemma load_rows t rows :
  Forall (fun row => exists h, row_head t row h) rows ->
  exists heads,
    try_map load_head (omap (fun row => operation ← operations_of t !! row.1; Some (row, operation)) rows)
      = Ok heads
    /\ Forall2 (row_head t) rows heads.
Proof.
  intros (heads & Hf)%Forall_choose. exists heads. split; [|done]. apply try_map_Ok.
  induction Hf as [|[i hr] h rows heads Hrow _ IH]; [constructor|].
  destruct Hrow as (op & hash & Ho & Ei & Hc & Er & ->). cbn in *. subst. rewrite Ho. cbn.
  constructor; [by apply load_head_Ok|done].
Qed.

Lemma hyphenated_ltb (a b : bytes) :
  length a = 16%nat -> length b = 16%nat ->
  ltb (uuid_hyphenated a) (uuid_hyphenated b) = ltb a b.
Proof.
  intros Ha Hb. rewrite !hyphenated_text by done. unfold ltb.
  change (cmp (hyphenated_format a) (hyphenated_format b))
    with (lex_cmp (hyphenated_format a) (hyphenated_format b)).
  by rewrite hyphenated_format_order.
Qed.

Lemma ascending_hyphenated {A : Type} (f : A -> bytes) (l : list A) :
  Forall (fun x => length (f x) = 16%nat) l ->
  ascending (fun x => uuid_hyphenated (f x)) l -> ascending f l.
Proof.
  intros Hl Ha. induction Ha as [|x l Ha IH Hx]; [constructor|].
  apply Forall_cons in Hl as [Hlx Hl]. constructor; [by apply IH|].
  rewrite Forall_forall in Hx, Hl |- *. intros y Hy. rewrite <- hyphenated_ltb by auto. auto.
Qed.

(** What is a head of a record. *)
Definition heads_in t (ws : WorkspaceId) (r : RecordId) (h : StoredRecordHead) : Prop :=
  exists row, head_at (vt_heads t) ws r (srh_operation_id h) = Some row
    /\ row_head t (srh_operation_id h, row) h.

Lemma wf_operation_id_len op : wf_operation op = true -> length (op_operation_id op) = 16%nat.
Proof.
  intros Hwf. unfold wf_operation in Hwf. wf_inv.
  match goal with Hid : wf_id (op_operation_id op) = true |- _ => apply wf_id_len in Hid end.
  unfold len in *. lia.
Qed.

Lemma NoDup_hyphenated (l : list bytes) :
  NoDup l -> Forall (fun x => length x = 16%nat) l -> NoDup (uuid_hyphenated <$> l).
Proof.
  intros Hnd Hl. apply NoDup_fmap_2_strong; [|done]. intros x y Hx Hy Ex.
  rewrite Forall_forall in Hl.
  assert (E1 : ltb x y = false).
  { rewrite <- hyphenated_ltb by auto. rewrite Ex. unfold ltb. by rewrite cmp_refl. }
  assert (E2 : ltb y x = false).
  { rewrite <- hyphenated_ltb by auto. rewrite Ex. unfold ltb. by rewrite cmp_refl. }
  unfold ltb in E1, E2. rewrite cmp_sym in E2. destruct (cmp x y) eqn:Ec; [by apply cmp_eq|done|done].
Qed.

(** The rows of a record, in the order they are read. *)
Definition rows_of t (ws : WorkspaceId) (r : RecordId) : list (OperationId * HeadRow) :=
  sort_by_key (fun row => uuid_hyphenated row.1)
    (map_to_list (default ∅ (ht_heads (vt_heads t) !! (ws, r)))).

Lemma elem_rows_of t ws r i hr : (i, hr) ∈ rows_of t ws r <-> head_at (vt_heads t) ws r i = Some hr.
Proof.
  unfold rows_of. rewrite (sort_by_key_perm (fun row => uuid_hyphenated row.1)).
  apply elem_of_map_to_list.
Qed.

Lemma rows_of_ok t ws r :
  vault_inv t -> Forall (fun row => (exists h, row_head t row h) /\ length row.1 = 16%nat) (rows_of t ws r).
Proof.
  intros Hi. apply Forall_forall. intros [i hr] Hr%elem_rows_of.
  destruct (vi_head _ Hi ws r i hr Hr) as (op & hash & Ho & _ & _ & Hc & -> & _).
  destruct (vi_operation _ Hi _ _ Ho) as (Hid & Hwf & _). split; [eexists; by exists op, hash|].
  cbn. rewrite <- Hid. by apply wf_operation_id_len.
Qed.

Lemma rows_of_ascending t ws r : vault_inv t -> ascending fst (rows_of t ws r).
Proof.
  intros Hi. pose proof (rows_of_ok t ws r Hi) as Hok.
  apply ascending_hyphenated; [eapply Forall_impl; [apply Hok|]; by intros ? []|].
  unfold rows_of in *. set (m := default ∅ _) in *. apply sort_by_key_ascending.
  change (NoDup ((uuid_hyphenated ∘ fst) <$> map_to_list m)). rewrite list_fmap_compose.
  apply NoDup_hyphenated; [apply NoDup_fst_map_to_list|].
  apply Forall_fmap. rewrite (sort_by_key_perm (fun row => uuid_hyphenated row.1)) in Hok.
  eapply Forall_impl; [apply Hok|]. by intros ? [].
Qed.

Lemma row_heads_ids t rows heads :
  Forall2 (row_head t) rows heads -> srh_operation_id <$> heads = rows.*1.
Proof.
  induction 1 as [|row h rows heads (op & hash & _ & Ei & _ & _ & ->) _ IH]; [done|].
  csimpl. by rewrite IH, Ei.
Qed.

Lemma Forall2_elem_l {A B : Type} (P : A -> B -> Prop) l k x :
  Forall2 P l k -> x ∈ l -> exists y, y ∈ k /\ P x y.
Proof. induction 1; set_solver. Qed.

Lemma Forall2_elem_r {A B : Type} (P : A -> B -> Prop) l k y :
  Forall2 P l k -> y ∈ k -> exists x, x ∈ l /\ P x y.
Proof. induction 1; set_solver. Qed.

Lemma load_record_heads_spec t ws r :
  vault_inv t ->
  exists heads, load_record_heads t ws r = Ok heads /\ ascending srh_operation_id heads
    /\ forall h, h ∈ heads <-> heads_in t ws r h.
Proof.
  intros Hi. pose proof (rows_of_ok t ws r Hi) as Hok.
  destruct (load_rows t (rows_of t ws r)) as (heads & Hload & Hf);
    [eapply Forall_impl; [apply Hok|]; by intros ? []|].
  exists heads. split; [done|]. split.
  - apply (ascending_fmap (fun i => i) srh_operation_id). rewrite (row_heads_ids _ _ _ Hf).
    apply ascending_fmap. by apply rows_of_ascending.
  - intros h. split.
    + intros ([i hr] & Hr%elem_rows_of & Hh)%(Forall2_elem_r _ _ _ _ Hf).
      assert (srh_operation_id h = i) as <- by (destruct Hh as (? & ? & _ & ? & _ & _ & ->); done).
      by exists hr.
    + intros (hr & Hr & Hh). apply elem_rows_of in Hr.
      destruct (Forall2_elem_l _ _ _ _ Hf Hr) as (h' & Hin & Hh').
      assert (h = h') as ->; [|done].
      destruct Hh as (op & hash & Ho & _ & Hc & _ & ->), Hh' as (op' & hash' & Ho' & _ & Hc' & _ & ->).
      assert (op = op') as <- by congruence. by rewrite (canonical_unique _ _ _ Hc Hc').
Qed.

(** ** Applying refines merging *)

Lemma heads_in_unique t ws r h h' :
  heads_in t ws r h -> heads_in t ws r h' -> srh_operation_id h = srh_operation_id h' -> h = h'.
Proof.
  intros (hr & _ & op & hash & Ho & _ & Hc & _ & ->) (hr' & _ & op' & hash' & Ho' & _ & Hc' & _ & ->) Ei.
  cbn in *. assert (op = op') as <- by congruence. by rewrite (canonical_unique _ _ _ Hc Hc').
Qed.

Section step.
Context t op row q t' (Hi : vault_inv t) (Hwf : wf_operation op = true) (Hs : stored t op row q t').

(** A row that is kept is read as before. *)
Lemma heads_in_kept ws r h hr :
  head_at (vt_heads t) ws r (srh_operation_id h) = Some hr ->
  head_at (vt_heads t') ws r (srh_operation_id h) = Some hr ->
  heads_in t' ws r h <-> heads_in t ws r h.
Proof.
  intros H1' H2'. unfold heads_in, row_head. cbn. rewrite H1', H2'.
  destruct (vi_head _ Hi _ _ _ _ H1') as (op0 & _ & Ho & _).
  assert (Hsame : operations_of t' !! srh_operation_id h = operations_of t !! srh_operation_id h).
  { rewrite Ho. apply (stored_operation _ _ _ _ _ _ _ Hs). by right. }
  by rewrite Hsame.
Qed.

Lemma heads_in_none ws r h : head_at (vt_heads t) ws r (srh_operation_id h) = None -> ~ heads_in t ws r h.
Proof. intros Hn (hr & Hr & _). congruence. Qed.

Lemma fresh_not_head ws r h : heads_in t ws r h -> srh_operation_id h <> op_operation_id op.
Proof.
  intros (hr & Hr & _) Ei. destruct (vi_head _ Hi _ _ _ _ Hr) as (op0 & _ & Ho & _).
  pose proof (fr_operation _ _ (sd_fresh _ _ _ _ _ Hs)). unfold operations_of in *. congruence.
Qed.

Lemma new_head_in h :
  heads_in t' (op_workspace_id op) (op_record_id op) h -> srh_operation_id h = op_operation_id op ->
  h = op_head op (meta_canonical_sha256 row).
Proof.
  intros (hr & _ & op' & hash & Ho & _ & Hc & _ & ->) Ei. cbn in *.
  apply (stored_operation _ _ _ _ _ _ _ Hs) in Ho as [[_ ->]|Ho].
  - by rewrite (canonical_unique _ _ _ Hc (sd_canonical _ _ _ _ _ Hs)).
  - rewrite Ei in Ho. pose proof (fr_operation _ _ (sd_fresh _ _ _ _ _ Hs)).
    unfold operations_of in *. congruence.
Qed.

(** Records whose rows do not change are read as before. *)
Lemma load_unchanged ws r :
  vault_inv t' -> (forall id, head_at (vt_heads t') ws r id = head_at (vt_heads t) ws r id) ->
  load_record_heads t' ws r = load_record_heads t ws r.
Proof.
  intros Hi' Hsame. destruct (load_record_heads_spec t ws r Hi) as (l & -> & Ha & Hl).
  destruct (load_record_heads_spec t' ws r Hi') as (l' & -> & Ha' & Hl'). f_equal.
  apply (ascending_ext srh_operation_id); [done..|].
  intros h. rewrite Hl, Hl'. destruct (head_at (vt_heads t) ws r (srh_operation_id h)) as [hr|] eqn:Eh.
  - by eapply heads_in_kept; [|rewrite Hsame].
  - split; intros (hr & Hr & _); rewrite ?Hsame in Hr; congruence.
Qed.

(** The rows after the replacement, and what they are read as. *)
Lemma head_at_replaced remove id :
  heads_step (vt_heads t) (vt_heads t') op (meta_canonical_sha256 row) (remove_rows remove) ->
  head_at (vt_heads t') (op_workspace_id op) (op_record_id op) id
  = if decide (id = op_operation_id op) then Some (head_row op (meta_canonical_sha256 row))
    else if decide (id ∈ remove) then None
    else head_at (vt_heads t) (op_workspace_id op) (op_record_id op) id.
Proof.
  intros (_ & Hrows & _). unfold head_at. rewrite Hrows, lookup_insert_eq. cbn.
  case_decide as Hd; [subst id; by rewrite lookup_insert_eq|].
  rewrite lookup_insert_ne by done. apply lookup_foldl_delete.
Qed.

Lemma heads_in_replaced remove h :
  heads_step (vt_heads t) (vt_heads t') op (meta_canonical_sha256 row) (remove_rows remove) ->
  heads_in t' (op_workspace_id op) (op_record_id op) h
  <-> (heads_in t (op_workspace_id op) (op_record_id op) h /\ srh_operation_id h ∉ remove)
      \/ h = op_head op (meta_canonical_sha256 row).
Proof.
  intros Hh. pose proof (head_at_replaced remove (srh_operation_id h) Hh) as Hat.
  destruct (decide (srh_operation_id h = op_operation_id op)) as [Ei|Ei].
  { split; [intros Hin; right; by apply new_head_in|].
    intros [[Hin _]| ->]; [by apply fresh_not_head in Hin|].
    eexists. split; [done|]. exists op, (meta_canonical_sha256 row). split_and!; try done.
    - apply (stored_operation _ _ _ _ _ _ _ Hs). by left.
    - apply (sd_canonical _ _ _ _ _ Hs). }
  assert (Hne : h <> op_head op (meta_canonical_sha256 row)) by (by intros ->).
  destruct (decide (srh_operation_id h ∈ remove)) as [Hr|Hr].
  { split; [intros (hr & Hin & _); congruence|naive_solver]. }
  destruct (head_at (vt_heads t) _ _ (srh_operation_id h)) as [hr|] eqn:Eold.
  - rewrite (heads_in_kept _ _ _ _ Eold Hat). naive_solver.
  - split; [intros (hr & Hin & _); congruence|]. intros [[(hr & Hin & _) _]|]; congruence.
Qed.

(** Replacing the rows is [replace_heads]. *)
Lemma load_replaced a remove current :
  vault_inv t' -> adm_operation a = op -> adm_canonical_hash a = meta_canonical_sha256 row ->
  heads_step (vt_heads t) (vt_heads t') op (meta_canonical_sha256 row) (remove_rows remove) ->
  load_record_heads t (op_workspace_id op) (op_record_id op) = Ok current ->
  load_record_heads t' (op_workspace_id op) (op_record_id op) = Ok (replace_heads current remove a).
Proof.
  intros Hi' Ea Eh Hh Hcur.
  destruct (load_record_heads_spec t (op_workspace_id op) (op_record_id op) Hi) as (l & El & Ha & Hl).
  assert (l = current) as -> by congruence.
  destruct (load_record_heads_spec t' (op_workspace_id op) (op_record_id op) Hi')
    as (l' & -> & Ha' & Hl'). f_equal.
  apply (ascending_ext srh_operation_id); [done|apply replace_heads_ascending; [done|]|].
  { intros h Hin%Hl. rewrite Ea. by eapply fresh_not_head. }
  assert (Hrh : record_head a = op_head op (meta_canonical_sha256 row))
    by (unfold record_head; by rewrite Ea, Eh).
  intros h. by rewrite Hl', elem_replace_heads, Hl, Hrh, (heads_in_replaced remove).
Qed.

End step.

(** What an applied operation does to what is read. *)
Lemma applied_refines t a rehydrate received_at t' d current :
  vault_inv t -> wf_operation (adm_operation a) = true ->
  applied t a rehydrate received_at t' d current ->
  let op := adm_operation a in
  vault_inv t'
  /\ load_record_heads t' (op_workspace_id op) (op_record_id op) = Ok (apply_decision current a d)
  /\ forall ws r, (ws, r) <> (op_workspace_id op, op_record_id op) ->
       load_record_heads t' ws r = load_record_heads t ws r.
Proof.
  intros Hi Hwf Ha op. pose proof (ap_stored _ _ _ _ _ _ _ Ha) as Hs.
  pose proof (ap_heads _ _ _ _ _ _ _ Ha) as Hh. pose proof (ap_current _ _ _ _ _ _ _ Ha) as Hcur.
  assert (Hi' : vault_inv t') by (eapply vault_inv_stored; [done..|by eapply decision_heads_grow]).
  split; [done|]. destruct d as [|remove|remove|remove]; cbn [decision_heads apply_decision] in *.
  { split; [rewrite <- Hcur|intros ws r _]; eapply (load_unchanged t); try done; by rewrite Hh. }
  all: split; [by eapply (load_replaced t)|]; intros ws r Hne; eapply (load_unchanged t); try done; intros id;
    unfold head_at; destruct Hh as (_ & -> & _); by rewrite lookup_insert_ne.
Qed.

(** ** Replicas *)

Abbreviation id_of a := (op_operation_id (adm_operation a)).

Definition of_record (ws : WorkspaceId) (r : RecordId) (l : list AdmittedOperation)
    : list AdmittedOperation :=
  filter (fun a => op_workspace_id (adm_operation a) = ws /\ op_record_id (adm_operation a) = r) l.

(** What an operation is read back as is what was admitted. *)
Definition readable (material : M) (a : AdmittedOperation) : Prop :=
  rehydrate_stored_mutation material (adm_operation a) = Ok (adm_mutation a).

(** The state after applying [seen] from an empty vault. *)
Record replica t (seen : list AdmittedOperation) : Prop := {
  rp_inv : vault_inv t;
  rp_seen : forall id, is_Some (operations_of t !! id) -> id ∈ (fun a => id_of a) <$> seen;
  rp_stored : forall a, a ∈ seen -> operations_of t !! id_of a = Some (adm_operation a);
  rp_heads : forall ws r, exists heads, load_record_heads t ws r = Ok heads
    /\ forall h, h ∈ heads -> exists a, a ∈ of_record ws r seen /\ h = record_head a;
  rp_first : forall ws r h heads, load_record_heads t ws r = Ok (h :: heads) ->
    exists a, a ∈ seen /\ h = record_head a
      /\ load_materialized_mutation t r (srh_record_kind h) = shown (adm_mutation a);
  rp_named : forall a, a ∈ seen -> names_mutation (adm_operation a) (adm_mutation a);
  rp_kind : forall r k, is_Some (load_materialized_mutation t r k) ->
    exists a, a ∈ seen /\ op_record_id (adm_operation a) = r /\ op_record_kind (adm_operation a) = k;
}.

Lemma load_record_heads_empty ws r : load_record_heads (empty_tables : VaultTables E) ws r = Ok [].
Proof. reflexivity. Qed.

Lemma replica_empty : replica empty_tables [].
Proof.
  split.
  - apply vault_inv_empty.
  - intros id [op Ho]. destruct (no_entry _ _ _ eq_refl Ho).
  - intros a Hin. by apply elem_of_nil in Hin.
  - intros ws r. exists []. split; [apply load_record_heads_empty|].
    intros h Hh. by apply elem_of_nil in Hh.
  - intros ws r h heads. by rewrite load_record_heads_empty.
  - intros a Hin. by apply elem_of_nil in Hin.
  - intros r k [m Hm]. destruct k; unfold load_materialized_mutation in Hm; cbn in Hm;
      rewrite lookup_empty in Hm; done.
Qed.

Section extend.
Context t (seen : list AdmittedOperation) (a : AdmittedOperation) (material : M) (received_at : rstr).
Context t' (d : MergeDecision) (current : list StoredRecordHead).
Context (Hr : replica t seen) (Hwf : wf_operation (adm_operation a) = true).
Context (Hread : Forall (readable material) seen).
Context (Hname : names_mutation (adm_operation a) (adm_mutation a)).
Context (Ha : applied t a (rehydrate_stored_mutation material) received_at t' d current).

Lemma current_seen h :
  h ∈ current -> exists b, b ∈ of_record (op_workspace_id (adm_operation a))
                              (op_record_id (adm_operation a)) seen /\ h = record_head b.
Proof.
  destruct (rp_heads _ _ Hr (op_workspace_id (adm_operation a)) (op_record_id (adm_operation a)))
    as (heads & Hl & Hh).
  pose proof (ap_current _ _ _ _ _ _ _ Ha). assert (heads = current) as -> by congruence. apply Hh.
Qed.

Lemma current_ascending : ascending srh_operation_id current.
Proof.
  destruct (load_record_heads_spec t (op_workspace_id (adm_operation a))
              (op_record_id (adm_operation a)) (rp_inv _ _ Hr)) as (heads & Hl & Hasc & _).
  pose proof (ap_current _ _ _ _ _ _ _ Ha). by assert (heads = current) as -> by congruence.
Qed.

Lemma current_fresh h : h ∈ current -> srh_operation_id h <> id_of a.
Proof.
  destruct (load_record_heads_spec t (op_workspace_id (adm_operation a))
              (op_record_id (adm_operation a)) (rp_inv _ _ Hr)) as (heads & Hl & _ & Hin).
  pose proof (ap_current _ _ _ _ _ _ _ Ha). assert (heads = current) as -> by congruence.
  intros Hh%Hin. eapply fresh_not_head; [apply (rp_inv _ _ Hr)|apply (ap_stored _ _ _ _ _ _ _ Ha)|done].
Qed.

(** The live record after the step: unchanged, or that of the first new head. *)
Lemma applied_live :
  (d = NoLiveChange /\ vt_live t' = vt_live t)
  \/ exists b rest, apply_decision current a d = record_head b :: rest
       /\ b ∈ seen ++ [a] /\ op_record_id (adm_operation b) = op_record_id (adm_operation a)
       /\ shows t (adm_mutation b) t'.
Proof.
  destruct (ap_live _ _ _ _ _ _ _ Ha) as (rep & Hrep & Hlive).
  pose proof (representative_first_head a current d (ascending_NoDup _ _ current_ascending)
                (ap_decision _ _ _ _ _ _ _ Ha)) as Hfirst.
  pose proof current_fresh as Hfr. pose proof current_seen as Hcs.
  destruct d as [|remove|remove|remove]; cbn [representative_mutation] in Hrep.
  - injection Hrep as <-. by left.
  - injection Hrep as <-. destruct Hfirst as [-> _]. right. exists a, []. set_solver.
  - right. destruct Hfirst as [Hfirst _]. cbn [representative] in Hfirst.
    change (sort_by_key _ _) with (conflict_heads_of current remove a) in Hfirst.
    destruct (conflict_heads_of current remove a) as [|first tl]; [done|].
    destruct (apply_decision current a (AddConflictHead remove)) as [|h rest] eqn:Ed; [done|].
    injection Hfirst as ->.
    assert (Hh : h ∈ apply_decision current a (AddConflictHead remove)) by (rewrite Ed; set_solver).
    apply elem_replace_heads in Hh as [[Hh _]| ->].
    + pose proof (Hfr h Hh) as Hne. destruct (Hcs h Hh) as (b & [[_ Hbr] Hb]%list_elem_of_filter & ->).
      cbn in Hne. rewrite bool_decide_eq_false_2 in Hrep by done. rewrite Forall_forall in Hread.
      cbn [srh_operation record_head] in Hrep. rewrite (Hread b Hb) in Hrep.
      injection Hrep as <-. exists b, rest. set_solver.
    + cbn [srh_operation record_head] in Hrep. rewrite bool_decide_eq_true_2 in Hrep by done.
      injection Hrep as <-. exists a, rest. set_solver.
  - injection Hrep as <-. destruct Hfirst as [-> _]. right. exists a, []. set_solver.
Qed.

Lemma of_record_snoc ws r :
  of_record ws r (seen ++ [a])
  = of_record ws r seen ++ (if decide (op_workspace_id (adm_operation a) = ws
                                       /\ op_record_id (adm_operation a) = r) then [a] else []).
Proof. unfold of_record. rewrite filter_app, filter_cons, filter_nil. by case_decide. Qed.

Lemma extend_heads ws r :
  exists heads, load_record_heads t' ws r = Ok heads
    /\ forall h, h ∈ heads -> exists b, b ∈ of_record ws r (seen ++ [a]) /\ h = record_head b.
Proof.
  destruct (applied_refines _ _ _ _ _ _ _ (rp_inv _ _ Hr) Hwf Ha) as (_ & Hload & Hother).
  destruct (rp_heads _ _ Hr ws r) as (heads & Hl & Hin). rewrite of_record_snoc.
  case_decide as Hd.
  - destruct Hd as [<- <-]. pose proof (ap_current _ _ _ _ _ _ _ Ha).
    assert (heads = current) as -> by congruence. eexists. split; [done|].
    intros h Hh. assert (h ∈ current \/ h = record_head a) as [Hc| ->].
    { destruct d; cbn [apply_decision] in Hh; [by left|apply elem_replace_heads in Hh; tauto..]. }
    + destruct (Hin h Hc) as (b & ? & ?). exists b. set_solver.
    + exists a. set_solver.
  - rewrite app_nil_r. exists heads. rewrite Hother by naive_solver. done.
Qed.

(** The heads of the record are in the workspace of its owner. *)
Lemma heads_workspace h heads ws :
  load_record_heads t' ws (op_record_id (adm_operation a)) = Ok (h :: heads) ->
  ws = op_workspace_id (adm_operation a).
Proof.
  destruct (applied_refines _ _ _ _ _ _ _ (rp_inv _ _ Hr) Hwf Ha) as (Hi' & _).
  destruct (load_record_heads_spec t' ws (op_record_id (adm_operation a)) Hi') as (l & -> & _ & Hin).
  intros [= ->]. destruct (Hin h) as [(hr & Hr' & _) _]; [set_solver|].
  destruct (vi_head _ Hi' _ _ _ _ Hr') as (op & hash & _ & Hw & Hrec & _ & _ & owner & Ho & _ & Ew & _).
  pose proof (sd_owns _ _ _ _ _ (ap_stored _ _ _ _ _ _ _ Ha)) as Hown. unfold owns in Hown.
  rewrite Hrec in Ho. rewrite Hown in Ho. injection Ho as <-. cbn in Ew. congruence.
Qed.

Lemma snoc_named b : b ∈ seen ++ [a] -> names_mutation (adm_operation b) (adm_mutation b).
Proof. intros [Hb|Hb]%elem_of_app; [by apply (rp_named _ _ Hr)|]. by apply list_elem_of_singleton in Hb as ->. Qed.

Lemma extend_first ws r h heads :
  load_record_heads t' ws r = Ok (h :: heads) ->
  exists b, b ∈ seen ++ [a] /\ h = record_head b
    /\ load_materialized_mutation t' r (srh_record_kind h) = shown (adm_mutation b).
Proof.
  destruct (applied_refines _ _ _ _ _ _ _ (rp_inv _ _ Hr) Hwf Ha) as (_ & Hload & Hother).
  intros Hl. destruct (decide (r = op_record_id (adm_operation a))) as [->|Hne].
  - pose proof (heads_workspace _ _ _ Hl) as ->. rewrite Hload in Hl. injection Hl as Hl.
    destruct applied_live as [[Hd Hlive]|(b & rest & Hb & Hin & Hrec & Hshow & _)].
    + rewrite Hd in Hl. cbn in Hl. subst current.
      destruct (rp_first _ _ Hr _ _ _ _ (ap_current _ _ _ _ _ _ _ Ha)) as (b & Hb & -> & Hm).
      exists b. rewrite <- Hm. split_and!; [set_solver|done|by apply load_materialized_frame].
    + rewrite Hb in Hl. injection Hl as <- <-. exists b. split_and!; [done..|].
      destruct (snoc_named b Hin) as (Er & Ek & _). rewrite <- Hshow. cbn.
      by rewrite <- Hrec, Er, Ek.
  - rewrite Hother in Hl by naive_solver.
    destruct (rp_first _ _ Hr _ _ _ _ Hl) as (b & Hb & -> & Hm). exists b.
    rewrite <- Hm. split_and!; [set_solver|done|].
    destruct applied_live as [[_ Hlive]|(b' & rest & _ & Hin & Hrec & _ & _ & Hsame)];
      [by apply load_materialized_frame|].
    apply Hsame. destruct (snoc_named b' Hin) as (Er & _). congruence.
Qed.

Lemma extend_kind r k :
  is_Some (load_materialized_mutation t' r k) ->
  exists b, b ∈ seen ++ [a] /\ op_record_id (adm_operation b) = r /\ op_record_kind (adm_operation b) = k.
Proof.
  assert (Hold : is_Some (load_materialized_mutation t r k) -> exists b, b ∈ seen ++ [a]
    /\ op_record_id (adm_operation b) = r /\ op_record_kind (adm_operation b) = k).
  { intros (b & Hb & ?)%(rp_kind _ _ Hr). exists b. set_solver. }
  destruct applied_live as [[_ Hlive]|(b & rest & _ & Hin & _ & _ & Hkinds & Hsame)].
  { by rewrite (load_materialized_frame _ t). }
  destruct (snoc_named b Hin) as (Er & Ek & _).
  destruct (decide (r = mutation_record_id (adm_mutation b))) as [->|Hne]; [|by rewrite Hsame].
  destruct (decide (k = mutation_record_kind (adm_mutation b))) as [->|Hk]; [by exists b|].
  intros Hsome. apply Hold. destruct (load_materialized_mutation t _ k) eqn:El; [done|].
  rewrite (Hkinds k Hk El) in Hsome. by destruct Hsome.
Qed.

Lemma replica_extend : replica t' (seen ++ [a]).
Proof.
  split; [|..|apply snoc_named|apply extend_kind].
  - apply (applied_refines _ _ _ _ _ _ _ (rp_inv _ _ Hr) Hwf Ha).
  - intros id [op Ho]. apply (stored_operation _ _ _ _ _ _ _ (ap_stored _ _ _ _ _ _ _ Ha)) in Ho
      as [[<- _]|Ho]; rewrite fmap_app; [set_solver|].
    apply elem_of_app. left. apply (rp_seen _ _ Hr). by eexists.
  - intros b [Hb|Hb]%elem_of_app; apply (stored_operation _ _ _ _ _ _ _ (ap_stored _ _ _ _ _ _ _ Ha)).
    + right. by apply (rp_stored _ _ Hr).
    + left. by apply list_elem_of_singleton in Hb as ->.
  - apply extend_heads.
  - apply extend_first.
Qed.

End extend.

(** Admitted operations are read back as they were admitted, with the same material. *)
Lemma admitted_readable {V} `{!SyncVault V M} (vault : V) b (material : M) a :
  admit_operation vault b material = Ok (AdmittedAs a) -> readable material a.
Proof.
  intros (op & trusted & previous & _ & _ & _ & _ & _ & _ & _ & _ & _ & (scope & k & _ & Hk & Hv) & _ & Ea)
    %admit_operation_ok.
  apply verify_operation_envelope_Ok in Hv as (_ & _ & _ & _ & Hdec & Er & Ek & Em & Hsc).
  unfold readable, rehydrate_stored_mutation. rewrite Ea. cbn [adm_operation adm_mutation].
  rewrite Hk. unfold rehydrate_mutation_with_key.
  destruct Hdec as (plaintext & -> & Hm). cbn [map_err rbind]. rewrite Hm. cbn [map_err rbind].
  rewrite !bool_decide_eq_true_2 by done. by rewrite Hsc.
Qed.

(** C3.  The head tables refine merging: applying an operation that is not stored yet does
    to the heads the vault reads exactly what the merge decision does to a list of heads,
    and leaves every other record's heads alone; applying a stored operation again changes
    nothing. *)
Theorem apply_refines_merge t a (material : M) received_at ms t' d :
  reachable (M := M) t -> wf_operation (adm_operation a) = true ->
  apply_admitted_operation_inner t a material received_at ms = Ok (t', d) ->
  let op := adm_operation a in
  match operations_of t !! op_operation_id op with
  | Some stored => stored = op /\ t' = t /\ d = NoLiveChange
  | None => exists current,
      load_record_heads t (op_workspace_id op) (op_record_id op) = Ok current
      /\ decide_merge a current = Ok d
      /\ load_record_heads t' (op_workspace_id op) (op_record_id op) = Ok (apply_decision current a d)
      /\ (forall ws r, (ws, r) <> (op_workspace_id op, op_record_id op) ->
            load_record_heads t' ws r = load_record_heads t ws r)
  end.
Proof.
  intros Hi%reachable_inv Hwf Ho op. unfold apply_admitted_operation_inner in Ho.
  apply rbind_unit_Ok in Ho as [(_ & Henc & _)%validate_admitted_Ok Ho].
  do 2 apply rbind_unit_Ok in Ho as [_ Ho].
  apply apply_verified_Ok in Ho as [_ [(op' & Hop & He & -> & ->)|(current & Ha)]].
  - fold op in Hop. rewrite Hop. split_and!; [|done..].
    destruct (vi_operation _ Hi _ _ Hop) as (_ & Hwf' & _). by eapply encode_inj.
  - unfold operations_of, op.
    rewrite (fr_operation _ _ (sd_fresh _ _ _ _ _ (ap_stored _ _ _ _ _ _ _ Ha))).
    destruct (applied_refines _ _ _ _ _ _ _ Hi Hwf Ha) as (_ & Hl & Hother).
    exists current. split_and!; [apply (ap_current _ _ _ _ _ _ _ Ha)|apply (ap_decision _ _ _ _ _ _ _ Ha)|done..].
Qed.

(** C39.  The stored heads of a record can always be read: in every reachable vault the
    rows decode, agree with the operations they name, and come in strictly ascending
    order of operation identifier, all of one record in one workspace and of one kind. *)
Theorem record_heads_always_load t ws r :
  reachable (M := M) t ->
  exists heads, load_record_heads t ws r = Ok heads /\ ascending srh_operation_id heads
    /\ forall h h', h ∈ heads -> h' ∈ heads ->
         op_workspace_id (srh_operation h) = ws /\ op_record_id (srh_operation h) = r
         /\ srh_operation_id h = op_operation_id (srh_operation h)
         /\ srh_record_kind h = srh_record_kind h'.
Proof.
  intros Hi%reachable_inv. destruct (load_record_heads_spec t ws r Hi) as (heads & -> & Ha & Hin).
  exists heads. split_and!; [done..|].
  assert (Hone : forall h, h ∈ heads -> op_workspace_id (srh_operation h) = ws
    /\ op_record_id (srh_operation h) = r /\ srh_operation_id h = op_operation_id (srh_operation h)
    /\ exists owner, ow_owners (vt_owners t) !! r = Some owner /\ own_record_kind owner = srh_record_kind h).
  { intros h (hr & Hr & op & hash & Ho & _ & _ & _ & ->)%Hin.
    destruct (vi_head _ Hi _ _ _ _ Hr) as (op' & _ & Ho' & Ew & Er & _ & _ & owner & Hown & _ & _ & Ek).
    cbn in *. assert (op' = op) as -> by congruence. split_and!; try done. exists owner.
    by rewrite <- Er. }
  intros h h' Hh Hh'. destruct (Hone h Hh) as (? & ? & ? & o & Eo & ?).
  destruct (Hone h' Hh') as (_ & _ & _ & o' & Eo' & ?). split_and!; try done. congruence.
Qed.

End converge.

(** *** Witness: a vault applies two concurrent writes *)

Module ConvergeWitness.
#[local] Existing Instances rfc9562 rfc9562_laws Rfc8949.codec Rfc8949.codec_laws
  CountableJson.records CountableJson.records_laws Toy.toy Toy.toy_laws
  VaultWitness.unenrolled VaultWitness.material VaultWitness.no_history VaultWitness.no_embeddings.
Import VaultWitness.

Definition both (a b : AdmittedOperation) : VaultTables unit := apply_one (apply_one empty_tables a) b.

Lemma apply_refines_merge_witness :
  exists current d,
    load_record_heads stored_one (op_workspace_id (adm_operation second))
      (op_record_id (adm_operation second)) = Ok current
    /\ load_record_heads (both first second) (op_workspace_id (adm_operation second))
         (op_record_id (adm_operation second)) = Ok (apply_decision current second d).
Proof.
  assert (Hwf : wf_operation (adm_operation second) = true) by (vm_compute; reflexivity).
  destruct (apply_one_Ok stored_one second) as [d Ha]; [vm_compute; reflexivity|].
  assert (Hn : operations_of stored_one !! op_operation_id (adm_operation second) = None)
    by (vm_compute; reflexivity).
  pose proof (apply_refines_merge stored_one second tt (lit "2026-01-01T00:00:00Z") 5
    (both first second) d stored_one_reachable Hwf Ha) as Hm.
  cbv zeta in Hm. rewrite Hn in Hm. destruct Hm as (current & Hc & _ & Hl & _).
  exists current, d. split; assumption.
Defined.

Lemma record_heads_always_load_witness :
  exists heads, load_record_heads stored_one Fixture.id Fixture.id = Ok heads
    /\ ascending srh_operation_id heads.
Proof.
  destruct (record_heads_always_load (M := unit) stored_one Fixture.id Fixture.id)
    as (heads & Hl & Ha & _); [apply stored_one_reachable|].
  exists heads. split; assumption.
Defined.

End ConvergeWitness.
