(* ===== verification/VaultCheckpoints.v ===== *)
(** * Checkpoints in the vault (core/vault/sync.rs, core/vault/membership.rs, migrations
    0017 and 0018)

    The signed checkpoints a vault accepted, the pin that names the newest one, the scan
    of the provider's log, and the reads of the frontier and the state summary that
    checkpoints are compared with.  Columns that the schema keeps non-negative are [N]. *)

From S2P Require Import Prelude Ordering Text Protocol Minicbor CanonicalCbor Domain.
From S2P Require Import SyncPayload Crypto Operation Causal Merge Transport StateSummary.
From S2P Require Import Admission Checkpoint Outbox EnginePush Receipts EnginePull SyncCycle.
From S2P Require Import VaultTables RecordStore.

#[local] Open Scope N_scope.

(** ** Tables *)

Record SignedCheckpointRow := {
  sgn_state_hash : Sha256Digest;
  sgn_canonical_payload : bytes;
  sgn_accepted_at_ms : N;
}.

Record CheckpointScanRow := {
  scr_received_at : rstr;
  scr_canonical_sha256 : Sha256Digest;
  scr_canonical_payload : bytes;
  scr_base_pin_sha256 : option Sha256Digest;
  scr_pin_seen : bool;
}.

Abbreviation ScopeKey := (AccountId * WorkspaceId)%type.

Record CheckpointTables := {
  ct_signed : gmap (ScopeKey * Sha256Digest) SignedCheckpointRow;
  ct_pins : gmap ScopeKey Sha256Digest;
  ct_scans : gmap ScopeKey (gmap string CheckpointScanRow);
}.

(** The database of a vault but its receipts, which [PullVault] adds. *)
Record Vault (E : Type) := {
  va_tables : VaultTables E;
  va_checkpoints : CheckpointTables;
}.
Arguments va_tables {E}. Arguments va_checkpoints {E}.

Definition with_tables {E} (v : Vault E) (t : VaultTables E) : Vault E :=
  {| va_tables := t; va_checkpoints := va_checkpoints v |}.
Definition with_checkpoints {E} (v : Vault E) (c : CheckpointTables) : Vault E :=
  {| va_tables := va_tables v; va_checkpoints := c |}.

Definition scope_key (scope : SyncScope) : ScopeKey :=
  (scope_account_id scope, scope_workspace_id scope).

Record StoredCheckpointScan := {
  scan_scope : SyncScope;
  scan_provider : string;
  scan_cursor : CheckpointCursor;
  scan_checkpoint : CanonicalCheckpoint;
  scan_base_pin_hash : option Sha256Digest;
  scan_pin_seen : bool;
}.

#[global] Instance StoredCheckpointScan_eq_dec : EqDecision StoredCheckpointScan.
Proof. solve_decision. Defined.
#[global] Instance StoredCheckpointPin_eq_dec : EqDecision StoredCheckpointPin.
Proof. solve_decision. Defined.

Inductive CheckpointDisposition := CheckpointInserted | CheckpointExactReplay.

(** ** The schedule *)

Definition OPERATION_THRESHOLD : N := 1024.
Definition INTERVAL_MS : N := 24 * 60 * 60 * 1000.

Definition schedule_is_due (self : SyncCheckpointSchedule) (now_ms : N) : bool :=
  cs_requested self
  || (OPERATION_THRESHOLD <=? cs_applied_operations self)
  || ((0 <? cs_applied_operations self)
      && match cs_first_uncheckpointed_ms self with
         | Some started => INTERVAL_MS <=? now_ms - started
         | None => false
         end).

(** ** Membership *)

(** The state of the accepted membership history that sync decisions use. *)
Record MembershipState := {
  ms_active_devices : gmap DeviceId DeviceCertificateV1;
  ms_control_epoch : N;
  ms_key_epoch : N;
}.

(** [membership::require_current]: the verified history, [None] when the vault is not
    enrolled, an error when the stamp is not its endpoint; and the endpoint itself. *)
Class MembershipHistory := {
  require_current :
    SyncScope -> option MembershipEndpoint -> result VaultError (option MembershipState);
  accepted_endpoint : result VaultError (option MembershipEndpoint);
}.

Definition membership_invalid : VaultError := Validation "accepted membership authority unavailable".

Section membership.
Context `{Minicbor} `{Primitives} `{MembershipHistory}.

Definition membership_require_operation (operation : SyncOperationV1)
    (stamp : option MembershipEndpoint) : result VaultError unit :=
  let scope := {| scope_account_id := op_account_id operation;
                  scope_workspace_id := op_workspace_id operation |} in
  let? history := require_current scope stamp in
  match history with
  | None => Ok tt
  | Some state =>
    let? cert := ok_or (ms_active_devices state !! op_device_id operation) membership_invalid in
    if negb (op_control_epoch operation =? ms_control_epoch state)
       || negb (op_key_epoch operation =? ms_key_epoch state)
    then Err membership_invalid else
    let? b := map_err (fun _ => membership_invalid)
                (encode_sync_operation_signing_preimage_v1 operation) in
    map_err (fun _ => membership_invalid)
      (verify_signature (cert_signing_public_key cert) b (op_signature operation))
  end.

Definition membership_require_device (scope : SyncScope) (stamp : option MembershipEndpoint)
    (device : TrustedDevice) : result VaultError unit :=
  let? history := require_current scope stamp in
  match history with
  | None => Ok tt
  | Some state =>
    if negb (bool_decide (ms_active_devices state !! cert_device_id (td_certificate device)
                          = Some (td_certificate device)))
       || negb (ms_control_epoch state =? td_active_control_epoch device)
       || negb (ms_key_epoch state =? td_active_key_epoch device)
    then Err VaultOperationConflict else Ok tt
  end.

#[global] Instance vault_membership : Membership := {|
  history_endpoint := accepted_endpoint;
  require_operation := membership_require_operation |}.

End membership.

(** ** Reads *)

Section reads.
Context `{UuidCrate} `{Minicbor} `{RecordJson} `{Primitives}.
Context {E : Type}.
Implicit Type t : VaultTables E.

(** The metadata rows at a position of a device's chain. *)
Definition meta_at t (workspace : WorkspaceId) (device : DeviceId) (sequence : N)
    : list (OperationId * OperationMeta) :=
  filter (fun row => meta_workspace_id row.2 = workspace /\ meta_device_id row.2 = device
                     /\ meta_device_sequence row.2 = sequence) (map_to_list (meta_of t)).

Definition vault_operation_at t (workspace : WorkspaceId) (device : DeviceId) (sequence : N)
    : option OperationId := fst <$> head (meta_at t workspace device sequence).

Definition workspace_heads t (workspace : WorkspaceId) : gmap DeviceId StoredDeviceHead :=
  default ∅ (lg_device_heads (vt_log t) !! workspace).

(** [sync_device_heads JOIN sync_operation_meta ... ORDER BY heads.device_id] *)
Definition frontier_rows t (workspace : WorkspaceId)
    : list (DeviceId * StoredDeviceHead * OperationMeta) :=
  sort_by_key (fun row => uuid_hyphenated row.1) (map_to_list (workspace_heads t workspace)) ≫=
    (fun row => (fun meta => (row, meta.2)) <$> meta_at t workspace row.1 (sdh_sequence row.2)).

Definition frontier_entry (scope : SyncScope) (row : DeviceId * StoredDeviceHead * OperationMeta)
    : result VaultError DeviceSequence :=
  let '(device, head, meta) := row in
  if negb (bool_decide (meta_account_id meta = scope_account_id scope))
     || negb (bool_decide (sdh_canonical_hash head = meta_canonical_sha256 meta))
  then Err (Validation "invalid stored checkpoint frontier") else
  Ok {| ds_device_id := device; ds_sequence := sdh_sequence head |}.

Definition load_checkpoint_frontier t (scope : SyncScope)
    : result VaultError (list DeviceSequence) :=
  let? frontier := try_map (frontier_entry scope) (frontier_rows t (scope_workspace_id scope)) in
  if windows2_any (fun a b => leb (ds_device_id b) (ds_device_id a)) frontier
  then Err (Validation "invalid stored checkpoint frontier order") else
  if negb (len frontier =? N.of_nat (size (workspace_heads t (scope_workspace_id scope))))
  then Err (Validation "checkpoint frontier contains an unbound device head") else
  Ok frontier.

(** The records of a workspace with a head of the account. *)
Definition has_scoped_head t (scope : SyncScope) (rows : gmap OperationId HeadRow) : bool :=
  existsb (fun row =>
    match meta_of t !! row.1 with
    | Some meta => bool_decide (meta_account_id meta = scope_account_id scope)
                   && bool_decide (meta_workspace_id meta = scope_workspace_id scope)
    | None => false
    end) (map_to_list rows).

Definition workspace_records t (workspace : WorkspaceId)
    : list (WorkspaceId * RecordId * gmap OperationId HeadRow) :=
  filter (fun entry => entry.1.1 = workspace) (map_to_list (ht_heads (vt_heads t))).

Definition summary_records t (scope : SyncScope) : list RecordId :=
  sort_by_key uuid_hyphenated
    ((fun entry => entry.1.2) <$>
      filter (fun entry => has_scoped_head t scope entry.2 = true)
        (workspace_records t (scope_workspace_id scope))).

Definition summary_entry t (scope : SyncScope) (record_id : RecordId)
    : result VaultError StateSummaryEntryV1 :=
  let? heads := load_record_heads t (scope_workspace_id scope) record_id in
  let? representative := ok_or (head heads)
    (Validation "checkpoint record has no durable heads") in
  if existsb (fun h =>
       negb (bool_decide (srh_record_kind h = srh_record_kind representative))
       || negb (bool_decide (op_account_id (srh_operation h) = scope_account_id scope))
       || negb (bool_decide (op_workspace_id (srh_operation h) = scope_workspace_id scope))
       || negb (bool_decide (op_record_id (srh_operation h) = record_id))) heads
  then Err (Validation "checkpoint record heads disagree on scope or kind") else
  let head_hashes := sort_by_key id (srh_canonical_hash <$> heads) in
  if windows2_any (fun a b => bool_decide (a = b)) head_hashes
  then Err (Validation "checkpoint record has duplicate head hashes") else
  Ok {| sse_record_id := record_id; sse_record_kind := srh_record_kind representative;
        sse_head_hashes := head_hashes;
        sse_tombstoned := bool_decide (srh_mutation_kind representative = Tombstone);
        sse_conflicted := 1 <? len heads |}.

Definition total_heads t (workspace : WorkspaceId) : N :=
  foldl (fun total entry => total + N.of_nat (size entry.2)) 0 (workspace_records t workspace).

Definition load_state_summary t (scope : SyncScope) : result VaultError StateSummaryV1 :=
  let? entries := try_map (summary_entry t scope) (summary_records t scope) in
  let? summarized := ok_or
    (foldl (fun total entry => total ← total; checked_add i64_max total (len (sse_head_hashes entry)))
       (Some 0) entries) (Validation "checkpoint head count overflow") in
  if negb (total_heads t (scope_workspace_id scope) =? summarized)
  then Err (Validation "checkpoint workspace contains unscoped heads") else
  Ok {| ss_entries := entries |}.

End reads.

(** ** Pins, schedules and scans *)

Section checkpoints.
Context `{UuidCrate} `{Minicbor} `{RecordJson} `{Primitives} `{MembershipHistory}.
Context {E : Type}.
Implicit Type v : Vault E.

Definition load_checkpoint_pin (c : CheckpointTables) (scope : SyncScope)
    : result VaultError (option StoredCheckpointPin) :=
  match ct_pins c !! scope_key scope with
  | None => Ok None
  | Some pin_hash =>
    let? row := ok_or (ct_signed c !! (scope_key scope, pin_hash))
                  (Validation "checkpoint pin target is missing") in
    let? checkpoint := map_err (fun _ => Validation "invalid stored checkpoint payload")
                         (decode_checkpoint_v1 (sgn_canonical_payload row)) in
    let? canonical := map_err (fun _ => Validation "invalid stored checkpoint payload")
                        (encode_checkpoint_v1 checkpoint) in
    if negb (bool_decide (canonical = sgn_canonical_payload row))
       || negb (bool_decide (sha256 canonical = pin_hash))
       || negb (bool_decide (cp_state_hash checkpoint = sgn_state_hash row))
    then Err (Validation "stored checkpoint pin metadata mismatch") else
    Ok (Some {| pin_scope := scope; pin_canonical_hash := pin_hash;
                pin_state_hash := sgn_state_hash row; pin_canonical_bytes := canonical;
                pin_accepted_at_ms := sgn_accepted_at_ms row |})
  end.

Definition load_checkpoint_schedule (schedule : ScheduleTable) (scope : SyncScope)
    : result VaultError SyncCheckpointSchedule :=
  match schedule !! scope_key scope with
  | None => Ok {| cs_applied_operations := 0; cs_first_uncheckpointed_ms := None;
                  cs_last_checkpoint_ms := None; cs_requested := false |}
  | Some row =>
    if negb (Bool.eqb (cs_applied_operations row =? 0)
                      (bool_decide (cs_first_uncheckpointed_ms row = None)))
    then Err (Validation "invalid stored checkpoint schedule") else Ok row
  end.

Definition load_checkpoint_scan (c : CheckpointTables) (scope : SyncScope) (provider : string)
    : result VaultError (option StoredCheckpointScan) :=
  match ct_scans c !! scope_key scope ≫= (.!! provider) with
  | None => Ok None
  | Some row =>
    let? _ := validate_received_at (scr_received_at row) in
    let? decoded := map_err (fun _ => Validation "invalid scanned checkpoint")
                      (decode_checkpoint_v1 (scr_canonical_payload row)) in
    let? checkpoint := map_err (fun _ => Validation "invalid scanned checkpoint")
                         (from_checkpoint decoded) in
    if negb (bool_decide (cc_bytes checkpoint = scr_canonical_payload row))
       || negb (bool_decide (cc_canonical_hash checkpoint = scr_canonical_sha256 row))
       || negb (bool_decide (cp_account_id (cc_checkpoint checkpoint) = scope_account_id scope))
       || negb (bool_decide (cp_workspace_id (cc_checkpoint checkpoint) = scope_workspace_id scope))
    then Err (Validation "checkpoint scan metadata mismatch") else
    Ok (Some {| scan_scope := scope; scan_provider := provider;
                scan_cursor := {| ccur_received_at := scr_received_at row;
                                  ccur_canonical_hash := scr_canonical_sha256 row |};
                scan_checkpoint := checkpoint; scan_base_pin_hash := scr_base_pin_sha256 row;
                scan_pin_seen := scr_pin_seen row |})
  end.

(** [Vault::sync_checkpoint_scan] *)
Definition sync_checkpoint_scan v (scope : SyncScope) (provider : string)
    : result VaultError (option StoredCheckpointScan) :=
  let? _ := validate_sync_provider_v1 provider in
  load_checkpoint_scan (va_checkpoints v) scope provider.

(** The bound of the payload columns. *)
Definition MAX_CHECKPOINT_PAYLOAD : N := 5242880.

Definition set_scan (c : CheckpointTables) (scope : SyncScope) (provider : string)
    (row : CheckpointScanRow) : CheckpointTables := {|
  ct_signed := ct_signed c; ct_pins := ct_pins c;
  ct_scans := <[scope_key scope := <[provider := row]> (default ∅ (ct_scans c !! scope_key scope))]>
                (ct_scans c) |}.

(** What a new scan row must continue. *)
Definition check_scan_chain (c : CheckpointTables) (scope : SyncScope)
    (existing : option StoredCheckpointScan) (previous : Sha256Digest)
    (base_pin_hash : option Sha256Digest) (pin_seen : bool) : result VaultError unit :=
  match existing with
  | Some existing =>
    if negb (bool_decide (scan_base_pin_hash existing = base_pin_hash))
       || (scan_pin_seen existing && negb pin_seen)
       || negb (bool_decide (previous = cc_canonical_hash (scan_checkpoint existing)))
    then Err (Validation "checkpoint scan chain mismatch") else Ok tt
  | None =>
    let? pin := load_checkpoint_pin c scope in
    if negb (bool_decide (pin_canonical_hash <$> pin = base_pin_hash))
       || negb (bool_decide (previous = zero_digest))
    then Err (Validation "checkpoint scan must begin at the trusted genesis") else Ok tt
  end.

Definition save_sync_checkpoint_scan v (scope : SyncScope) (provider : string)
    (cursor : CheckpointCursor) (authenticated : AuthenticatedCheckpoint)
    (base_pin_hash : option Sha256Digest) (pin_seen : bool) : result VaultError (Vault E) :=
  let c := va_checkpoints v in
  let received := ac_checkpoint authenticated in
  let? _ := validate_sync_provider_v1 provider in
  let? _ := validate_received_at (ccur_received_at cursor) in
  if negb (bool_decide (ac_scope authenticated = scope))
     || negb (bool_decide (ccur_canonical_hash cursor = cc_canonical_hash received))
     || negb (bool_decide (cp_account_id (cc_checkpoint received) = scope_account_id scope))
     || negb (bool_decide (cp_workspace_id (cc_checkpoint received) = scope_workspace_id scope))
  then Err (Validation "checkpoint scan scope or cursor mismatch") else
  let? existing := load_checkpoint_scan c scope provider in
  let? _ := check_scan_chain c scope existing
              (cp_previous_checkpoint_hash (cc_checkpoint received)) base_pin_hash pin_seen in
  let? _ := constraint (len (cc_bytes received) <=? MAX_CHECKPOINT_PAYLOAD) in
  Ok (with_checkpoints v (set_scan c scope provider {|
        scr_received_at := ccur_received_at cursor;
        scr_canonical_sha256 := ccur_canonical_hash cursor;
        scr_canonical_payload := cc_bytes received; scr_base_pin_sha256 := base_pin_hash;
        scr_pin_seen := pin_seen |})).

(** ** Accepting *)

(** The creator is a current device, for an enrolled vault. *)
Definition check_checkpoint_membership (membership : option MembershipState)
    (checkpoint : CheckpointV1) : result VaultError unit :=
  match membership with
  | None => Ok tt
  | Some state =>
    let? cert := ok_or (ms_active_devices state !! cp_creator_device checkpoint)
                   VaultOperationConflict in
    if negb (cp_key_epoch checkpoint =? ms_key_epoch state) then Err VaultOperationConflict else
    let? preimage := map_err (fun _ => VaultOperationConflict)
                       (encode_checkpoint_signing_preimage_v1 checkpoint) in
    map_err (fun _ => VaultOperationConflict)
      (verify_signature (cert_signing_public_key cert) preimage (cp_signature checkpoint))
  end.

(** The row of [signed_sync_checkpoints], inserted or found. *)
Definition store_signed (c : CheckpointTables) (scope : SyncScope) (canonical_hash : Sha256Digest)
    (row : SignedCheckpointRow) : result VaultError CheckpointTables :=
  match ct_signed c !! (scope_key scope, canonical_hash) with
  | Some found =>
    if negb (bool_decide (sgn_state_hash found = sgn_state_hash row))
       || negb (bool_decide (sgn_canonical_payload found = sgn_canonical_payload row))
    then Err VaultOperationConflict else Ok c
  | None =>
    let? _ := constraint (len (sgn_canonical_payload row) <=? MAX_CHECKPOINT_PAYLOAD) in
    Ok {| ct_signed := <[(scope_key scope, canonical_hash) := row]> (ct_signed c);
          ct_pins := ct_pins c; ct_scans := ct_scans c |}
  end.

(** The pin, and the scans that do not end in it. *)
Definition move_pin (c : CheckpointTables) (scope : SyncScope) (canonical_hash : Sha256Digest)
    : CheckpointTables := {|
  ct_signed := ct_signed c;
  ct_pins := <[scope_key scope := canonical_hash]> (ct_pins c);
  ct_scans := alter (filter (fun entry => scr_canonical_sha256 entry.2 = canonical_hash))
                (scope_key scope) (ct_scans c) |}.

Definition reset_schedule (schedule : ScheduleTable) (scope : SyncScope) (accepted_at_ms : N)
    : ScheduleTable :=
  <[scope_key scope := {| cs_applied_operations := 0; cs_first_uncheckpointed_ms := None;
                          cs_last_checkpoint_ms := Some accepted_at_ms; cs_requested := false |}]>
    schedule.

(** The checkpoint is canonical, of the scope, and states the vault's own state. *)
Definition check_signed_checkpoint (t : VaultTables E) (verified : VerifiedCheckpoint)
    : result VaultError CheckpointV1 :=
  let checkpoint := vc_checkpoint verified in
  let scope := vc_scope verified in
  let? decoded := map_err (fun _ => Validation "invalid signed checkpoint")
                    (decode_checkpoint_v1 (cc_bytes checkpoint)) in
  let? canonical := map_err (fun _ => Validation "invalid signed checkpoint")
                      (encode_checkpoint_v1 decoded) in
  if negb (bool_decide (canonical = cc_bytes checkpoint))
     || negb (bool_decide (decoded = cc_checkpoint checkpoint))
     || negb (bool_decide (cp_state_hash decoded = cc_state_hash checkpoint))
     || negb (bool_decide (sha256 canonical = cc_canonical_hash checkpoint))
     || negb (bool_decide (cp_account_id decoded = scope_account_id scope))
     || negb (bool_decide (cp_workspace_id decoded = scope_workspace_id scope))
  then Err (Validation "signed checkpoint metadata mismatch") else
  let? current_frontier := load_checkpoint_frontier t scope in
  let? summary := load_state_summary t scope in
  let? current_state_hash := map_err (fun _ => Validation "invalid checkpoint state")
                               (state_hash summary) in
  if negb (bool_decide (cp_causal_frontier decoded = current_frontier))
     || negb (bool_decide (cp_state_hash decoded = current_state_hash))
  then Err (Validation "signed checkpoint no longer matches local state") else
  Ok decoded.

Definition accept_sync_checkpoint_in_transaction v (verified : VerifiedCheckpoint)
    (accepted_at_ms : N) : result VaultError (Vault E * CheckpointDisposition) :=
  let c := va_checkpoints v in
  let scope := vc_scope verified in
  let? membership := require_current scope (vc_membership_endpoint verified) in
  let? accepted_at_ms := sqlite_ms accepted_at_ms "checkpoint acceptance time exceeds SQLite range" in
  let? _ := check_checkpoint_membership membership (cc_checkpoint (vc_checkpoint verified)) in
  let? decoded := check_signed_checkpoint (va_tables v) verified in
  let canonical := cc_bytes (vc_checkpoint verified) in
  let canonical_hash := cc_canonical_hash (vc_checkpoint verified) in
  let? current_pin := load_checkpoint_pin c scope in
  let replay := bool_decide (pin_canonical_hash <$> current_pin = Some canonical_hash) in
  let? _ :=
    match current_pin with
    | Some pin =>
      if replay then
        if negb (bool_decide (pin_canonical_bytes pin = canonical))
           || negb (bool_decide (pin_state_hash pin = cp_state_hash decoded))
        then Err VaultOperationConflict else Ok tt
      else if negb (bool_decide (Some (pin_canonical_hash pin) = vc_expected_pin_hash verified))
      then Err (Validation "signed checkpoint chain proof does not extend the local pin") else Ok tt
    | None =>
      if negb (bool_decide (vc_expected_pin_hash verified = None))
      then Err (Validation "signed checkpoint chain proof does not extend the local pin") else Ok tt
    end in
  let? c := store_signed c scope canonical_hash {|
              sgn_state_hash := cp_state_hash decoded; sgn_canonical_payload := canonical;
              sgn_accepted_at_ms := accepted_at_ms |} in
  let t := va_tables v in
  Ok ({| va_tables := set_schedule t (reset_schedule (vt_schedule t) scope accepted_at_ms);
         va_checkpoints := move_pin c scope canonical_hash |},
      if replay then CheckpointExactReplay else CheckpointInserted).

Definition accept_sync_checkpoint v (verified : VerifiedCheckpoint) (accepted_at_ms : N)
    : result VaultError (Vault E * CheckpointDisposition) :=
  accept_sync_checkpoint_in_transaction v verified accepted_at_ms.

(** [UPDATE sync_checkpoint_scans ... WHERE canonical_sha256 = ?4], which must change a row. *)
Definition rebase_scan (c : CheckpointTables) (scope : SyncScope) (provider : string)
    (canonical_hash : Sha256Digest) : result VaultError CheckpointTables :=
  match ct_scans c !! scope_key scope ≫= (.!! provider) with
  | Some row =>
    if bool_decide (scr_canonical_sha256 row = canonical_hash)
    then Ok (set_scan c scope provider {|
           scr_received_at := scr_received_at row; scr_canonical_sha256 := scr_canonical_sha256 row;
           scr_canonical_payload := scr_canonical_payload row;
           scr_base_pin_sha256 := Some canonical_hash; scr_pin_seen := true |})
    else Err (Validation "checkpoint scan cannot rebase to a different endpoint")
  | None => Err (Validation "checkpoint scan cannot rebase to a different endpoint")
  end.

Definition accept_sync_checkpoint_endpoint v (verified : VerifiedCheckpoint) (accepted_at_ms : N)
    (provider : string) : result VaultError (Vault E * CheckpointDisposition) :=
  let? _ := validate_sync_provider_v1 provider in
  let? scan := load_checkpoint_scan (va_checkpoints v) (vc_scope verified) provider in
  let? scan := ok_or scan (Validation "checkpoint endpoint scan is missing") in
  if negb (scan_pin_seen scan)
     || negb (bool_decide (scan_base_pin_hash scan = vc_expected_pin_hash verified))
     || negb (bool_decide (scan_checkpoint scan = vc_checkpoint verified))
  then Err (Validation "checkpoint endpoint does not match its verified scan") else
  let? (v, disposition) := accept_sync_checkpoint_in_transaction v verified accepted_at_ms in
  let? c := rebase_scan (va_checkpoints v) (vc_scope verified) provider
              (cc_canonical_hash (vc_checkpoint verified)) in
  Ok (with_checkpoints v c, disposition).

Definition accept_sync_checkpoint_chain_extension v (verified : VerifiedCheckpoint)
    (accepted_at_ms : N) (provider : string) (anchor_hash : Sha256Digest)
    : result VaultError (Vault E * CheckpointDisposition) :=
  let? _ := validate_sync_provider_v1 provider in
  let? scan := load_checkpoint_scan (va_checkpoints v) (vc_scope verified) provider in
  let? scan := ok_or scan (Validation "checkpoint chain anchor scan is missing") in
  if negb (scan_pin_seen scan)
     || negb (bool_decide (scan_base_pin_hash scan = vc_expected_pin_hash verified))
     || negb (bool_decide (cc_canonical_hash (scan_checkpoint scan) = anchor_hash))
     || negb (bool_decide (cp_previous_checkpoint_hash (cc_checkpoint (vc_checkpoint verified))
                           = anchor_hash))
  then Err (Validation "checkpoint extension does not match its verified chain anchor") else
  let? (v, disposition) := accept_sync_checkpoint_in_transaction v verified accepted_at_ms in
  let? scan := load_checkpoint_scan (va_checkpoints v) (vc_scope verified) provider in
  if bool_decide (is_Some scan)
  then Err (Validation "checkpoint extension scan was not retired atomically") else
  Ok (v, disposition).

Definition request_sync_checkpoint v (scope : SyncScope) : Vault E :=
  let t := va_tables v in
  let row :=
    match vt_schedule t !! scope_key scope with
    | None => {| cs_applied_operations := 0; cs_first_uncheckpointed_ms := None;
                 cs_last_checkpoint_ms := None; cs_requested := true |}
    | Some row => {| cs_applied_operations := cs_applied_operations row;
                     cs_first_uncheckpointed_ms := cs_first_uncheckpointed_ms row;
                     cs_last_checkpoint_ms := cs_last_checkpoint_ms row; cs_requested := true |}
    end in
  with_tables v (set_schedule t (<[scope_key scope := row]> (vt_schedule t))).

(** ** The vault the sync code reads *)

Context {M : Type} `{!TrustedSyncMaterial M} `{!HistoricalRead M} `{!EmbeddingResolver E}.

#[global] Instance vault_sync : SyncVault (Vault E) M := {|
  require_current_operation _ operation stamp := membership_require_operation operation stamp;
  require_current_device _ scope stamp device := membership_require_device scope stamp device;
  device_head v workspace device := Ok (workspace_heads (va_tables v) workspace !! device);
  stored_sync_operation v id := stored_operation_bytes (lg_queue (vt_log (va_tables v))) id;
  operation_at_device_sequence v workspace device sequence :=
    Ok (vault_operation_at (va_tables v) workspace device sequence);
  record_belongs_to_sync_scope v material account workspace record kind :=
    belongs_to_sync_scope (va_tables v) material account workspace record kind;
  materialized_record_scope v workspace record kind :=
    vault_materialized_record_scope (va_tables v) workspace record kind;
  sync_checkpoint_pin v scope := load_checkpoint_pin (va_checkpoints v) scope;
  sync_checkpoint_frontier v scope := load_checkpoint_frontier (va_tables v) scope;
  sync_state_summary v scope := load_state_summary (va_tables v) scope |}.

(** [advance_replay_cursor] up to the cursor. *)
Definition vault_replay_known v (workspace : WorkspaceId) (operation_id : OperationId)
    (expected_membership : option MembershipEndpoint) : result VaultError unit :=
  let t := va_tables v in
  let row := (meta ← meta_of t !! operation_id;
              if bool_decide (meta_workspace_id meta = workspace)
              then operations_of t !! operation_id else None) in
  let? operation := ok_or row (Validation "replay cursor requires an existing operation") in
  if negb (bool_decide (op_operation_id operation = operation_id))
     || negb (bool_decide (op_workspace_id operation = workspace))
  then Err VaultOperationConflict else
  membership_require_operation operation expected_membership.

#[global] Instance vault_records : RecordVault (Vault E) M := {|
  apply_operation v admitted material received_at applied_at_ms :=
    let? (t, decision) := apply_admitted_operation_inner (va_tables v) admitted material
                            received_at applied_at_ms in
    Ok (with_tables v t, decision);
  replay_known v workspace operation_id endpoint :=
    vault_replay_known v workspace operation_id endpoint |}.

#[global] Instance vault_outbox : OutboxStore (Vault E) := {|
  outbox_of v := lg_queue (vt_log (va_tables v));
  with_outbox_of v q :=
    let t := va_tables v in
    with_tables v (set_log t {| lg_queue := q; lg_nonces := lg_nonces (vt_log t);
                                lg_device_heads := lg_device_heads (vt_log t) |}) |}.

End checkpoints.
