(* ===== verification/ReplicaRuns.v ===== *)
(** * Replicas that receive the same operations converge

    [receives] is the life of a vault that only receives: each operation is admitted from its
    bytes against the tables as they are and then applied, and between operations the vault
    works on its checkpoints.  Admission takes an operation only when every operation its
    frontier names has been applied, so no operation is known by one applied before it
    ([unknown_to_seen]).  Hence the heads of a record are exactly the received operations no
    other received one knows ([rn_heads]), which does not depend on the order: two replicas
    of the same operations show the same heads and the same live records. *)

From S2P Require Import Prelude Ordering Text Protocol Minicbor CanonicalCbor Domain.
From S2P Require Import SyncPayload Crypto Operation Causal Merge Transport StateSummary.
From S2P Require Import Admission Checkpoint Outbox Receipts EnginePull VaultTables RecordStore.
From S2P Require Import VaultSteps VaultInvariant VaultConverge VaultCheckpoints.

#[local] Open Scope N_scope.

Section runs.
Context `{UuidCrateLaws} `{MinicborLaws} `{RecordJson} `{!RecordJsonLaws} `{Primitives}.
Context `{MembershipHistory}.
Context {E M : Type} `{!TrustedSyncMaterial M} `{!HistoricalRead M} `{!EmbeddingResolver E}.
Implicit Type t : VaultTables E.
Implicit Type v : Vault E.

Abbreviation id_of a := (op_operation_id (adm_operation a)).

(** ** Receiving *)

(** The operations a vault has received, in order.  A checkpoint transaction changes the
    checkpoint tables and the schedule, and nothing else. *)
Inductive receives (material : M) v : list AdmittedOperation -> Vault E -> Prop :=
| receives_nothing : receives material v [] v
| receives_operation l v1 b a received_at now_ms v2 d :
    receives material v l v1 -> admit_operation v1 b material = Ok (AdmittedAs a) ->
    apply_operation v1 a material received_at now_ms = Ok (v2, d) ->
    receives material v (l ++ [a]) v2
| receives_checkpoint l v1 v2 schedule :
    receives material v l v1 -> va_tables v2 = set_schedule (va_tables v1) schedule ->
    receives material v l v2.

(** Every device prefix the operation has seen is applied in the tables. *)
Definition frontier_stored t (op : SyncOperationV1) : Prop :=
  Forall (fun e => exists h, device_head_of (vt_log t) (op_workspace_id op) (ds_device_id e) = Some h
    /\ ds_sequence e <= sdh_sequence h) (op_causal_frontier op).

(** No received operation of the record knows [a]. *)
Definition unsuperseded (seen : list AdmittedOperation) (a : AdmittedOperation) : Prop :=
  forall b, b ∈ seen -> ~ knows (adm_operation b) (adm_operation a).

(** The tables after receiving [seen]. *)
Record received_all (material : M) t (seen : list AdmittedOperation) : Prop := {
  rn_replica : replica t seen;
  rn_ids : NoDup ((fun a => id_of a) <$> seen);
  rn_readable : Forall (readable material) seen;
  rn_frontier : Forall (fun a => frontier_stored t (adm_operation a)) seen;
  rn_owner : Forall (fun a => in_owner_scope t (adm_operation a)) seen;
  rn_heads : forall ws r h, heads_in t ws r h
    <-> exists a, a ∈ of_record ws r seen /\ h = record_head a /\ unsuperseded (of_record ws r seen) a;
  rn_some : forall a, a ∈ seen -> exists h,
    heads_in t (op_workspace_id (adm_operation a)) (op_record_id (adm_operation a)) h;
}.

Lemma received_all_empty material : received_all material empty_tables [].
Proof.
  split; try (by constructor).
  - apply replica_empty.
  - intros ws r h. split.
    + intros (row & Hr & _). unfold head_at in Hr. cbn in Hr. destruct (no_entry _ _ _ eq_refl Hr).
    + intros (a & Ha & _). by apply elem_of_nil in Ha.
  - intros a Ha. by apply elem_of_nil in Ha.
Qed.

Lemma received_all_schedule material t seen schedule :
  received_all material t seen -> received_all material (set_schedule t schedule) seen.
Proof. intros [[I1 I2 I3 I4 I5 I6 I7] ? ? ? ? ? ?]. split; try done. split; try done. by destruct I1. Qed.

(** ** Nothing applied knows what comes next *)

(** A device head covers the stored operations of the device. *)
Lemma stored_below_head t op :
  vault_inv t -> operations_of t !! op_operation_id op = Some op ->
  exists h, device_head_of (vt_log t) (op_workspace_id op) (op_device_id op) = Some h
    /\ op_device_sequence op <= sdh_sequence h.
Proof.
  intros Hi Ho. destruct (vi_chain _ Hi (op_workspace_id op) (op_device_id op)) as (ops & Hc & Hin).
  assert (Hop : op ∈ ops) by (by apply Hin). apply list_elem_of_lookup in Hop as [i Hi'].
  pose proof (chain_to_sequence _ _ _ _ Hc Hi') as Hs. pose proof (chain_to_length _ _ Hc) as Hl.
  apply lookup_lt_Some in Hi'. unfold len in Hl.
  destruct (device_head_of _ _ _) as [h|]; [exists h; split; [done|lia]|lia].
Qed.

Lemma known_sequence_le op device n :
  Forall (fun e => ds_device_id e = device -> ds_sequence e <= n) (op_causal_frontier op) ->
  known_sequence op device <= n.
Proof.
  unfold known_sequence. induction 1 as [|e l He _ IH]; [cbn; lia|]. rewrite filter_cons.
  case_decide as Hd; [|done]. cbn. specialize (He Hd). lia.
Qed.

(** What an applied operation knows of a device is below the device's head. *)
Lemma known_below_head t op op' :
  vault_inv t -> operations_of t !! op_operation_id op = Some op -> frontier_stored t op ->
  op_workspace_id op' = op_workspace_id op ->
  extends_head (device_head_of (vt_log t) (op_workspace_id op') (op_device_id op')) op' ->
  ~ knows op op'
  /\ (op_device_id op = op_device_id op' -> op_device_sequence op <> op_device_sequence op').
Proof.
  intros Hi Ho Hf Hw Hx. rewrite Hw in Hx. unfold knows.
  destruct (decide (op_device_id op = op_device_id op')) as [Hd|Hd].
  - rewrite bool_decide_eq_true_2 by done. rewrite <- Hd in Hx.
    destruct (stored_below_head t op Hi Ho) as (h & Eh & Hle). rewrite Eh in Hx. cbn in Hx. lia.
  - rewrite bool_decide_eq_false_2 by done. split; [|done]. intros Hk.
    set (n := match device_head_of (vt_log t) (op_workspace_id op) (op_device_id op') with
              | Some h => sdh_sequence h | None => 0 end).
    assert (known_sequence op (op_device_id op') <= n).
    { apply known_sequence_le. eapply Forall_impl; [exact Hf|]. cbn.
      intros e (h & Eh & Hle) Ed. unfold n. by rewrite <- Ed, Eh. }
    unfold n in *. destruct (device_head_of _ _ _); cbn in Hx; lia.
Qed.

(** ** One more operation *)

Section extend.
Context (material : M) t (seen : list AdmittedOperation) (a : AdmittedOperation) (received_at : rstr).
Context t' (d : MergeDecision) (current : list StoredRecordHead).
Context (Hr : received_all material t seen) (Hwf : wf_operation (adm_operation a) = true).
Context (Hname : names_mutation (adm_operation a) (adm_mutation a)).
Context (Hread : readable material a) (Hfront : frontier_stored t (adm_operation a)).
Context (Ha : applied t a (rehydrate_stored_mutation material) received_at t' d current).

Let stored_a := ap_stored _ _ _ _ _ _ _ Ha.
Let inv_t := rp_inv _ _ (rn_replica _ _ _ Hr).

Lemma extended_replica : replica t' (seen ++ [a]).
Proof. eapply (replica_extend t seen a); [apply (rn_replica _ _ _ Hr)|done|apply (rn_readable _ _ _ Hr)|done..]. Qed.

Lemma unknown_to_seen b :
  b ∈ seen -> op_workspace_id (adm_operation b) = op_workspace_id (adm_operation a) ->
  ~ knows (adm_operation b) (adm_operation a)
  /\ (op_device_id (adm_operation b) = op_device_id (adm_operation a) ->
      op_device_sequence (adm_operation b) <> op_device_sequence (adm_operation a)).
Proof.
  intros Hb Hw. eapply (known_below_head t); [done|by apply (rp_stored _ _ (rn_replica _ _ _ Hr))| |done|].
  - pose proof (rn_frontier _ _ _ Hr) as Hf. rewrite Forall_forall in Hf. by apply Hf.
  - apply (sd_chain _ _ _ _ _ stored_a).
Qed.

Lemma extended_ids : NoDup ((fun b => id_of b) <$> (seen ++ [a])).
Proof.
  rewrite fmap_app. apply NoDup_app. split_and!; [apply (rn_ids _ _ _ Hr)| |apply NoDup_singleton].
  intros i (b & -> & Hb)%list_elem_of_fmap Hi. apply list_elem_of_singleton in Hi.
  pose proof (rp_stored _ _ (rn_replica _ _ _ Hr) b Hb) as Ho.
  pose proof (fr_operation _ _ (sd_fresh _ _ _ _ _ stored_a)) as Hn. unfold operations_of in Ho. congruence.
Qed.

Lemma device_head_grows ws device h :
  device_head_of (vt_log t) ws device = Some h ->
  exists h', device_head_of (vt_log t') ws device = Some h' /\ sdh_sequence h <= sdh_sequence h'.
Proof.
  intros Eh. rewrite (stored_device_head _ _ _ _ _ stored_a). case_decide as Hd; [|by exists h].
  destruct Hd as [-> ->]. pose proof (sd_chain _ _ _ _ _ stored_a) as Hx. rewrite Eh in Hx.
  cbn in Hx. eexists. split; [done|]. cbn. lia.
Qed.

Lemma frontier_grows op : frontier_stored t op -> frontier_stored t' op.
Proof.
  intros Hf. eapply Forall_impl; [exact Hf|]. cbn. intros e (h & Eh & Hle).
  destruct (device_head_grows _ _ _ Eh) as (h' & -> & Hle'). exists h'. split; [done|lia].
Qed.

(** The heads after the step. *)
Lemma extended_heads ws r h :
  heads_in t' ws r h <-> exists b, b ∈ of_record ws r (seen ++ [a]) /\ h = record_head b
    /\ unsuperseded (of_record ws r (seen ++ [a])) b.
Proof.
  destruct (applied_refines _ _ _ _ _ _ _ inv_t Hwf Ha) as (Hi' & Hload & Hother).
  destruct (load_record_heads_spec t' ws r Hi') as (l' & El' & _ & Hl').
  destruct (load_record_heads_spec t ws r inv_t) as (l & El & Hasc & Hl).
  rewrite of_record_snoc, <- Hl'. case_decide as Hd.
  - destruct Hd as [<- <-]. pose proof (ap_current _ _ _ _ _ _ _ Ha) as Hcur.
    assert (l = current) as -> by congruence. assert (l' = apply_decision current a d) as -> by congruence.
    assert (Hun : forall b, b ∈ of_record (op_workspace_id (adm_operation a)) (op_record_id (adm_operation a)) seen ->
      ~ knows (adm_operation b) (adm_operation a)
      /\ (op_device_id (adm_operation b) = op_device_id (adm_operation a) ->
          op_device_sequence (adm_operation b) <> op_device_sequence (adm_operation a))).
    { intros b [[Hw _] Hb]%list_elem_of_filter. by apply unknown_to_seen. }
    rewrite (merge_unknown a current d (ascending_NoDup _ _ Hasc) (ap_decision _ _ _ _ _ _ _ Ha)).
    2:{ intros h' Hh'. apply Hl, (rn_heads _ _ _ Hr) in Hh' as (b & Hb & -> & _). by apply Hun. }
    rewrite Hl, (rn_heads _ _ _ Hr). split.
    + intros [[(b & Hb & -> & Hub) Hk]| ->].
      * exists b. split_and!; [set_solver|done|]. intros c [Hc|Hc]%elem_of_app; [by apply Hub|].
        by apply list_elem_of_singleton in Hc as ->.
      * exists a. split_and!; [set_solver|done|]. intros c [Hc|Hc]%elem_of_app; [by apply Hun|].
        apply list_elem_of_singleton in Hc as ->. apply knows_irrefl.
    + intros (b & [Hb|Hb]%elem_of_app & -> & Hub).
      * left. split; [|apply Hub; set_solver]. exists b. split_and!; [done..|].
        intros c Hc. apply Hub. set_solver.
      * right. by apply list_elem_of_singleton in Hb as ->.
  - rewrite app_nil_r. rewrite Hother, El in El' by naive_solver. injection El' as <-.
    rewrite Hl. apply (rn_heads _ _ _ Hr).
Qed.

Lemma extended_some b :
  b ∈ seen ++ [a] -> exists h,
    heads_in t' (op_workspace_id (adm_operation b)) (op_record_id (adm_operation b)) h.
Proof.
  intros Hb. destruct (applied_refines _ _ _ _ _ _ _ inv_t Hwf Ha) as (Hi' & _ & Hother).
  destruct (decide ((op_workspace_id (adm_operation b), op_record_id (adm_operation b))
                    = (op_workspace_id (adm_operation a), op_record_id (adm_operation a)))) as [[= -> ->]|Hne].
  - exists (record_head a). apply extended_heads. exists a.
    rewrite of_record_snoc, decide_True by done. split_and!; [set_solver|done|].
    intros c [[[Hw _] Hc]%list_elem_of_filter|Hc]%elem_of_app; [by apply unknown_to_seen|].
    apply list_elem_of_singleton in Hc as ->. apply knows_irrefl.
  - assert (Hs : b ∈ seen) by (apply elem_of_app in Hb as [|Hb]; [done|apply list_elem_of_singleton in Hb as ->; done]).
    destruct (rn_some _ _ _ Hr b Hs) as [h Hh].
    destruct (load_record_heads_spec t (op_workspace_id (adm_operation b)) (op_record_id (adm_operation b)) inv_t) as (l & El & _ & Hl).
    destruct (load_record_heads_spec t' (op_workspace_id (adm_operation b)) (op_record_id (adm_operation b)) Hi') as (l' & El' & _ & Hl').
    rewrite Hother, El in El' by done. injection El' as <-. exists h. by apply Hl', Hl.
Qed.

Lemma received_all_extend : received_all material t' (seen ++ [a]).
Proof.
  split; [apply extended_replica|apply extended_ids|..|apply extended_heads|apply extended_some].
  - apply Forall_app. split; [apply (rn_readable _ _ _ Hr)|by repeat constructor].
  - apply Forall_app. split; [|repeat constructor; by apply frontier_grows].
    eapply Forall_impl; [apply (rn_frontier _ _ _ Hr)|]. intros b. apply frontier_grows.
  - apply Forall_app. split.
    + eapply Forall_impl; [apply (rn_owner _ _ _ Hr)|]. intros b. by eapply in_owner_scope_stored.
    + repeat constructor. apply owns_in_scope, (sd_owns _ _ _ _ _ stored_a).
Qed.

End extend.

Lemma workspace_heads_lookup t ws device :
  workspace_heads t ws !! device = device_head_of (vt_log t) ws device.
Proof.
  unfold workspace_heads, device_head_of. destruct (lg_device_heads (vt_log t) !! ws); [done|].
  apply lookup_empty.
Qed.

(** What admission established of an operation. *)
Lemma admitted_facts v b material a :
  admit_operation v b material = Ok (AdmittedAs a) ->
  wf_operation (adm_operation a) = true /\ readable material a
  /\ frontier_stored (va_tables v) (adm_operation a)
  /\ operations_of (va_tables v) !! id_of a = None.
Proof.
  intros Hadm. pose proof (admitted_readable v b material a Hadm) as Hread.
  apply admit_operation_ok in Hadm
    as (op & trusted & previous & Hdec & _ & _ & Hst & _ & _ & _ & Hf & _ & _ & _ & Ea).
  apply decode_sync_operation_v1_Ok in Hdec as [Hwf Henc]. rewrite Ea in *. cbn [adm_operation] in *.
  split_and!; [done|done| |].
  - eapply Forall_impl; [exact Hf|]. intros e (h & Eh & Hle). exists h. cbn in Eh. injection Eh as Eh.
    by rewrite workspace_heads_lookup in Eh.
  - cbn in Hst. unfold stored_operation_bytes in Hst. unfold operations_of.
    destruct (tb_operations _ !! _) as [op'|]; [|done]. res_inv.
Qed.

Lemma receives_all material v l w :
  receives material v l w -> va_tables v = empty_tables -> received_all material (va_tables w) l.
Proof.
  intros Hrun Hv. induction Hrun as [|l v1 b a rcv now v2 d Hrun IH Hadm Hap|l v1 v2 schedule Hrun IH Et].
  - rewrite Hv. apply received_all_empty.
  - destruct (admitted_facts _ _ _ _ Hadm) as (Hwf & Hread & Hf & Hnew). cbn in Hap.
    apply rbind_Ok in Hap as ([t' d'] & Ho & [= <- <-]). cbn [va_tables with_tables].
    unfold apply_admitted_operation_inner in Ho. do 3 apply rbind_unit_Ok in Ho as [_ Ho].
    apply apply_verified_Ok in Ho as [Hname [(op & Hop & _)|(current & Ha)]]; [congruence|].
    by eapply received_all_extend.
  - rewrite Et. by apply received_all_schedule.
Qed.

(** ** Agreement *)

(** What is received, whatever membership endpoint it was admitted under. *)
Definition content (a : AdmittedOperation)
    : SyncOperationV1 * RecordMutationV1 * (bytes * Sha256Digest) :=
  (adm_operation a, adm_mutation a, (adm_canonical_bytes a, adm_canonical_hash a)).

Lemma content_of_record l l' ws r a :
  content <$> l ≡ₚ content <$> l' -> a ∈ of_record ws r l ->
  exists a', a' ∈ of_record ws r l' /\ content a' = content a.
Proof.
  intros Hp [[Hw Hrec] Ha]%list_elem_of_filter.
  assert (Hin : content a ∈ content <$> l') by (rewrite <- Hp; by apply list_elem_of_fmap_2).
  apply list_elem_of_fmap in Hin as (a' & Ea & Ha'). exists a'. split; [|done].
  apply list_elem_of_filter. unfold content in Ea. injection Ea as Eop _ _ _. by rewrite <- Eop.
Qed.

Lemma unsuperseded_content l l' ws r a a' :
  content <$> l ≡ₚ content <$> l' -> content a' = content a ->
  unsuperseded (of_record ws r l) a -> unsuperseded (of_record ws r l') a'.
Proof.
  intros Hp Ea Hun b' Hb'. symmetry in Hp. destruct (content_of_record _ _ _ _ _ Hp Hb') as (b & Hb & Eb).
  unfold content in *. injection Ea as -> _ _ _. injection Eb as <- _ _ _. by apply Hun.
Qed.

Lemma heads_in_content material material' t t' l l' ws r h :
  received_all material t l -> received_all material' t' l' -> content <$> l ≡ₚ content <$> l' ->
  heads_in t ws r h -> heads_in t' ws r h.
Proof.
  intros Hr Hr' Hp (a & Ha & -> & Hun)%(rn_heads _ _ _ Hr). apply (rn_heads _ _ _ Hr').
  destruct (content_of_record _ _ _ _ _ Hp Ha) as (a' & Ha' & Ea). exists a'.
  split_and!; [done| |by eapply unsuperseded_content].
  unfold content in Ea. injection Ea as Eop _ _ Eh. unfold record_head. by rewrite Eop, Eh.
Qed.

Section agreement.
Context (material material' : M) t t' (l l' : list AdmittedOperation).
Context (Hr : received_all material t l) (Hr' : received_all material' t' l').
Context (Hp : content <$> l ≡ₚ content <$> l').

Lemma heads_in_agree ws r h : heads_in t ws r h <-> heads_in t' ws r h.
Proof. split; eapply heads_in_content; eauto. by symmetry. Qed.

(** Both read the same heads: the received operations no other one knows. *)
Lemma heads_agree ws r :
  exists heads, load_record_heads t ws r = Ok heads /\ load_record_heads t' ws r = Ok heads
    /\ forall h, h ∈ heads <-> exists a, a ∈ of_record ws r l /\ h = record_head a
         /\ unsuperseded (of_record ws r l) a.
Proof.
  destruct (load_record_heads_spec t ws r (rp_inv _ _ (rn_replica _ _ _ Hr))) as (heads & El & Hasc & Hl).
  destruct (load_record_heads_spec t' ws r (rp_inv _ _ (rn_replica _ _ _ Hr'))) as (heads' & El' & Hasc' & Hl').
  assert (heads = heads') as <-.
  { apply (ascending_ext srh_operation_id); [done..|]. intros h. by rewrite Hl, Hl', heads_in_agree. }
  exists heads. split_and!; [done..|]. intros h. rewrite Hl. apply (rn_heads _ _ _ Hr).
Qed.

Lemma same_kind a b :
  a ∈ l -> b ∈ l -> op_record_id (adm_operation a) = op_record_id (adm_operation b) ->
  op_record_kind (adm_operation a) = op_record_kind (adm_operation b).
Proof.
  pose proof (rn_owner _ _ _ Hr) as Hown. rewrite Forall_forall in Hown.
  intros (o & Ho & _ & _ & Ek)%Hown (o' & Ho' & _ & _ & Ek')%Hown Er. congruence.
Qed.

Lemma live_agrees r k m :
  load_materialized_mutation t r k = Some m -> load_materialized_mutation t' r k = Some m.
Proof.
  intros Hm. pose proof (rn_replica _ _ _ Hr) as Hrep. pose proof (rn_replica _ _ _ Hr') as Hrep'.
  destruct (rp_kind _ _ Hrep r k (mk_is_Some _ _ Hm)) as (a & Ha & <- & <-).
  set (ws := op_workspace_id (adm_operation a)). set (r := op_record_id (adm_operation a)).
  destruct (heads_agree ws r) as (heads & Hl & Hl' & Hin).
  destruct heads as [|h heads].
  { destruct (rn_some _ _ _ Hr a Ha) as [h Hh]. apply (rn_heads _ _ _ Hr), Hin in Hh. by apply elem_of_nil in Hh. }
  destruct (rp_first _ _ Hrep _ _ _ _ Hl) as (b & Hb & -> & Hlive).
  destruct (rp_first _ _ Hrep' _ _ _ _ Hl') as (b' & Hb' & Eb & Hlive').
  assert (Emut : adm_mutation b' = adm_mutation b).
  { assert (Hin' : content b' ∈ content <$> l) by (rewrite Hp; by apply list_elem_of_fmap_2).
    apply list_elem_of_fmap in Hin' as (b2 & E2 & Hb2). unfold content in E2. injection E2 as Eop -> _ _.
    by rewrite (NoDup_fmap_elem (fun a => id_of a) l b2 b (rn_ids _ _ _ Hr) Hb2 Hb)
      by (rewrite <- Eop; by injection Eb). }
  destruct (proj1 (Hin (record_head b))) as (c & [[_ Hcr] Hc]%list_elem_of_filter & Ec & _); [set_solver|].
  assert (Ekb : srh_record_kind (record_head b) = op_record_kind (adm_operation a)).
  { rewrite Ec. by apply same_kind. }
  rewrite Ekb in *. rewrite Hlive', Emut, <- Hlive. exact Hm.
Qed.

End agreement.

(** C1.  Replicas converge: two vaults with empty tables that receive the same operations,
    each in an order its own admission accepts and with checkpoint work in between, end with
    the same heads for every record, exactly the received operations that no other received
    operation of the record knows, and show the same live record or the same absence of one.
    The operations are the same when their bytes are and they decrypt to the same mutations;
    the rosters and membership endpoints they were admitted under may differ. *)
Theorem replicas_converge material material' (v v' w w' : Vault E) l l' :
  va_tables v = empty_tables -> va_tables v' = empty_tables ->
  receives material v l w -> receives material' v' l' w' ->
  content <$> l ≡ₚ content <$> l' ->
  forall r,
    (forall ws, exists heads,
       load_record_heads (va_tables w) ws r = Ok heads /\ load_record_heads (va_tables w') ws r = Ok heads
       /\ forall h, h ∈ heads <-> exists a, a ∈ of_record ws r l /\ h = record_head a
            /\ unsuperseded (of_record ws r l) a)
    /\ (forall k, load_materialized_mutation (va_tables w) r k = load_materialized_mutation (va_tables w') r k).
Proof.
  intros Hv Hv' Hrun Hrun' Hp r.
  pose proof (receives_all _ _ _ _ Hrun Hv) as Hr. pose proof (receives_all _ _ _ _ Hrun' Hv') as Hr'.
  split; [intros ws; by eapply heads_agree|].
  intros k. apply option_eq. intros m. split; eapply live_agrees; eauto. by symmetry.
Qed.

End runs.

(** *** Witness: two vaults receive two concurrent writes in opposite orders *)

Module ReplicaWitness.
#[local] Existing Instances rfc9562 rfc9562_laws Rfc8949.codec Rfc8949.codec_laws
  CountableJson.records CountableJson.records_laws Toy.toy Toy.toy_laws
  VaultWitness.no_history VaultWitness.no_embeddings.
Import VaultWitness.

#[local] Instance unenrolled_history : MembershipHistory :=
  {| require_current _ _ := Ok None; accepted_endpoint := Ok None |}.

Definition certificate_of (device : DeviceId) : DeviceCertificateV1 :=
  certificate_unsigned {|
    fields_account_id := Fixture.id; fields_workspace_id := Fixture.id;
    fields_control_epoch := 2; fields_request_nonce := Fixture.rep 32 5;
    fields_device_id := device;
    fields_signing_public_key := signing_public_key CryptoWitness.keys;
    fields_wrapping_public_key := Fixture.rep 32 2 |}
    (RecoveryRoot (Fixture.rep 32 1)) (zero_bytes 64).

(** A roster that trusts every device. *)
#[local] Instance devices : TrustedSyncMaterial unit := {|
  membership_endpoint _ := None;
  trusted_device _ _ _ device := Ok {| td_certificate := certificate_of device;
    td_active_control_epoch := 17; td_active_key_epoch := 23 |};
  content_key _ _ _ := Ok (Fixture.rep 32 11) |}.

Definition new_vault : Vault unit :=
  {| va_tables := empty_tables; va_checkpoints := {| ct_signed := ∅; ct_pins := ∅; ct_scans := ∅ |} |}.

(** Admitting and applying the bytes of an operation. *)
Definition receive (v : Vault unit) (b : bytes) : option (AdmittedOperation * Vault unit) :=
  match admit_operation v b tt with
  | Ok (AdmittedAs a) =>
    match apply_operation v a tt (lit "2026-01-01T00:00:00Z") 5 with
    | Ok (v', _) => Some (a, v')
    | Err _ => None
    end
  | _ => None
  end.

Lemma receive_receives v l v1 b a v2 :
  receives tt v l v1 -> receive v1 b = Some (a, v2) -> receives tt v (l ++ [a]) v2.
Proof.
  unfold receive. intros Hr Ho. destruct (admit_operation v1 b tt) as [[| |a']|] eqn:Ea; try done.
  destruct (apply_operation _ _ _ _ _) as [[v' d]|] eqn:Ep; [|done]. injection Ho as <- <-.
  by eapply receives_operation.
Qed.

Definition received (v : Vault unit) (a : AdmittedOperation) : Vault unit :=
  match receive v (adm_canonical_bytes a) with Some (_, v') => v' | None => v end.

Definition receivable (v : Vault unit) (a : AdmittedOperation) : bool :=
  match receive v (adm_canonical_bytes a) with Some (a', _) => bool_decide (a' = a) | None => false end.

Lemma received_receives v l v1 a :
  receives tt v l v1 -> receivable v1 a = true -> receives tt v (l ++ [a]) (received v1 a).
Proof.
  unfold receivable, received. intros Hr Ho.
  destruct (receive v1 (adm_canonical_bytes a)) as [[a' v2]|] eqn:Er; [|done].
  apply (bool_decide_eq_true_1 _) in Ho as ->. by eapply receive_receives.
Qed.

Definition both_of (a b : AdmittedOperation) : Vault unit := received (received new_vault a) b.

Lemma both_received a b :
  receivable new_vault a && receivable (received new_vault a) b = true ->
  receives tt new_vault [a; b] (both_of a b).
Proof.
  intros [Ha Hb]%andb_true_iff. apply (received_receives _ [a]); [|done].
  apply (received_receives _ []); [constructor|done].
Qed.

Lemma replicas_converge_witness :
  load_materialized_mutation (va_tables (both_of first second)) Fixture.id KSecretRef = Some (secret "one")
  /\ load_materialized_mutation (va_tables (both_of first second)) Fixture.id KSecretRef
     = load_materialized_mutation (va_tables (both_of second first)) Fixture.id KSecretRef.
Proof.
  split; [vm_compute; reflexivity|].
  refine (proj2 (replicas_converge tt tt new_vault new_vault _ _ [first; second] [second; first]
    eq_refl eq_refl _ _ _ Fixture.id) KSecretRef).
  - apply both_received. vm_compute. reflexivity.
  - apply both_received. vm_compute. reflexivity.
  - apply perm_swap.
Defined.

End ReplicaWitness.
