(* ===== verification/CheckpointAgree.v ===== *)
(** * Replicas state the same checkpoint

    The causal frontier and the state summary a vault reads from its tables are
    functions of the operations it has applied: replicas that received the same
    operations, in whatever orders, state the same checkpoint and accept each other's. *)

From S2P Require Import Prelude Ordering Text Protocol Minicbor CanonicalCbor Domain.
From S2P Require Import SyncPayload Crypto Operation Causal Merge Transport StateSummary.
From S2P Require Import Admission Checkpoint Outbox Receipts VaultTables RecordStore VaultSteps.
From S2P Require Import VaultInvariant VaultConverge VaultCheckpoints ReplicaRuns.

#[local] Open Scope N_scope.

(** ** Sums *)

Lemma foldl_add {A : Type} (f : A -> N) l a : foldl (fun t x => t + f x) a l = a + foldl (fun t x => t + f x) 0 l.
Proof.
  revert a. induction l as [|x l IH]; intros a; cbn; [lia|]. rewrite IH, (IH (0 + f x)). lia.
Qed.

Lemma foldl_add_perm {A : Type} (f : A -> N) l k :
  l ≡ₚ k -> foldl (fun t x => t + f x) 0 l = foldl (fun t x => t + f x) 0 k.
Proof.
  induction 1 as [|x l k _ IH|x y l|l k j _ IH1 _ IH2]; cbn; [done| | |congruence].
  - by rewrite foldl_add, (foldl_add f k), IH.
  - f_equal. lia.
Qed.

Lemma foldl_add_filter {A : Type} (f : A -> N) (P : A -> Prop) `{!forall x, Decision (P x)} l :
  (forall x, ~ P x -> f x = 0) ->
  foldl (fun t x => t + f x) 0 (filter P l) = foldl (fun t x => t + f x) 0 l.
Proof.
  intros Hz. induction l as [|x l IH]; [done|]. rewrite filter_cons. cbn.
  rewrite (foldl_add f l). case_decide as Hp; [cbn; by rewrite foldl_add, IH|].
  by rewrite (Hz x Hp), IH.
Qed.

Section agree.
Context `{UuidCrateLaws} `{MinicborLaws} `{RecordJson} `{!RecordJsonLaws} `{Primitives}.
Context `{MembershipHistory}.
Context {E M : Type} `{!TrustedSyncMaterial M} `{!HistoricalRead M} `{!EmbeddingResolver E}.
Implicit Type t : VaultTables E.

(** ** Chains *)

Lemma chain_to_head ops h op :
  chain_to (ops ++ [op]) h ->
  exists hash, canonical op hash
    /\ h = Some {| sdh_sequence := op_device_sequence op; sdh_canonical_hash := hash |}.
Proof.
  intros Hc. inversion Hc as [Hn|ops' h' op' hash _ _ Hcan Ho]; [by destruct ops|].
  apply app_inj_tail in Ho as [_ ->]. eauto.
Qed.

Lemma chain_position ops ops' h h' i op :
  chain_to ops h -> chain_to ops' h' -> (forall op, op ∈ ops -> op ∈ ops') ->
  ops !! i = Some op -> ops' !! i = Some op.
Proof.
  intros Hc Hc' Hin Hi. pose proof (chain_to_sequence _ _ _ _ Hc Hi) as Hs.
  apply list_elem_of_lookup_2, Hin, list_elem_of_lookup in Hi as [j Hj].
  pose proof (chain_to_sequence _ _ _ _ Hc' Hj). by assert (j = i) as <- by lia.
Qed.

Lemma chains_same ops ops' h h' :
  chain_to ops h -> chain_to ops' h' -> (forall op, op ∈ ops <-> op ∈ ops') -> h = h'.
Proof.
  intros Hc Hc' Hin. assert (ops = ops') as <-.
  { apply list_eq. intros i. apply option_eq. intros op.
    split; (eapply chain_position; [done..|]); intros x; apply Hin. }
  destruct ops as [|op ops _] using rev_ind.
  - destruct h as [h|], h' as [h'|]; [exfalso..|done].
    1,2: inversion Hc; by destruct ops. inversion Hc'; by destruct ops.
  - apply chain_to_head in Hc as (x & Hx & ->), Hc' as (y & Hy & ->).
    by rewrite (canonical_unique _ _ _ Hx Hy).
Qed.

Lemma chain_sequence_inj ops h a b :
  chain_to ops h -> a ∈ ops -> b ∈ ops -> op_device_sequence a = op_device_sequence b -> a = b.
Proof.
  intros Hc [i Hi]%list_elem_of_lookup [j Hj]%list_elem_of_lookup Es.
  pose proof (chain_to_sequence _ _ _ _ Hc Hi). pose proof (chain_to_sequence _ _ _ _ Hc Hj).
  assert (i = j) by lia. congruence.
Qed.

(** ** Metadata *)

Lemma meta_operation t id m :
  vault_inv t -> meta_of t !! id = Some m ->
  exists op hash dir received, operations_of t !! id = Some op /\ op_operation_id op = id
    /\ canonical op hash /\ m = meta_row op hash dir received.
Proof.
  intros Hi Hm. destruct (vi_meta _ Hi id (mk_is_Some _ _ Hm)) as [op Ho].
  destruct (vi_operation _ Hi _ _ Ho) as (Hid & _ & hash & dir & rcv & Hc & Hm').
  exists op, hash, dir, rcv. split_and!; congruence.
Qed.

Lemma by_device_unique t ws device a b :
  vault_inv t -> by_device t ws device a -> by_device t ws device b ->
  op_device_sequence a = op_device_sequence b -> a = b.
Proof.
  intros Hi Ha Hb. destruct (vi_chain _ Hi ws device) as (ops & Hc & Hin).
  eapply chain_sequence_inj; [done|by apply Hin..].
Qed.

(** The metadata at a device head is that of the one operation there. *)
Lemma meta_at_head t ws device h :
  vault_inv t -> workspace_heads t ws !! device = Some h ->
  exists op dir received, by_device t ws device op /\ op_device_sequence op = sdh_sequence h
    /\ meta_at t ws device (sdh_sequence h)
       = [(op_operation_id op, meta_row op (sdh_canonical_hash h) dir received)].
Proof.
  intros Hi Hh. rewrite workspace_heads_lookup in Hh.
  destruct (vi_chain _ Hi ws device) as (ops & Hc & Hin). rewrite Hh in Hc.
  inversion Hc as [|ops' h' op hash _ _ Hcan Eo Eh]. subst ops h. cbn [sdh_sequence sdh_canonical_hash].
  assert (Hb : by_device t ws device op) by (apply Hin; set_solver).
  pose proof Hb as (Ho & Ew & Ed).
  destruct (vi_operation _ Hi _ _ Ho) as (_ & _ & hash' & dir & rcv & Hcan' & Hm).
  rewrite <- (canonical_unique _ _ _ Hcan Hcan') in Hm. exists op, dir, rcv. split_and!; [done..|].
  apply Permutation_singleton_r, NoDup_Permutation; [apply NoDup_filter, NoDup_map_to_list|apply NoDup_singleton|].
  intros [id m]. unfold meta_at. rewrite list_elem_of_filter, list_elem_of_singleton, elem_of_map_to_list. cbn. split.
  - intros ((Ew' & Ed' & Es') & Hm'). pose proof Hm' as Hx.
    eapply meta_operation in Hx as (op' & hash2 & dir' & rcv' & Ho' & Eid & _ & ->); [|done]. cbn in *.
    assert (op' = op) as ->; [|congruence].
    eapply (by_device_unique t ws device); [done| |done|done]. by split_and!; rewrite ?Eid.
  - intros [= -> ->]. cbn. done.
Qed.

(** ** Tables in the same state *)

Record same_state t t' : Prop := {
  ss_inv : vault_inv t;
  ss_inv' : vault_inv t';
  ss_operations : operations_of t = operations_of t';
  ss_heads : forall ws r, load_record_heads t ws r = load_record_heads t' ws r;
}.

Lemma same_state_sym t t' : same_state t t' -> same_state t' t.
Proof. intros []. split; [done..|]. by intros ws r. Qed.

Section same.
Context t t' (Hs : same_state t t').

Lemma by_device_same ws device op : by_device t ws device op <-> by_device t' ws device op.
Proof. unfold by_device. by rewrite (ss_operations _ _ Hs). Qed.

Lemma workspace_heads_same ws : workspace_heads t ws = workspace_heads t' ws.
Proof.
  apply map_eq. intros device. rewrite !workspace_heads_lookup.
  destruct (vi_chain _ (ss_inv _ _ Hs) ws device) as (ops & Hc & Hin).
  destruct (vi_chain _ (ss_inv' _ _ Hs) ws device) as (ops' & Hc' & Hin').
  eapply chains_same; [done..|]. intros op. by rewrite Hin, Hin', by_device_same.
Qed.

(** What of a frontier row the frontier depends on. *)
Definition row_core (row : DeviceId * StoredDeviceHead * OperationMeta)
    : DeviceId * StoredDeviceHead * (AccountId * Sha256Digest) :=
  (row.1, (meta_account_id row.2, meta_canonical_sha256 row.2)).

Lemma frontier_rows_same ws : row_core <$> frontier_rows t ws = row_core <$> frontier_rows t' ws.
Proof.
  unfold frontier_rows. rewrite <- workspace_heads_same.
  assert (Hl : forall l, Forall (fun row => workspace_heads t ws !! row.1 = Some row.2) l ->
    row_core <$> (l ≫= (fun row => (fun meta => (row, meta.2)) <$> meta_at t ws row.1 (sdh_sequence row.2)))
    = row_core <$> (l ≫= (fun row => (fun meta => (row, meta.2)) <$> meta_at t' ws row.1 (sdh_sequence row.2)))).
  { induction 1 as [|[device h] l Hh _ IH]; [done|]. csimpl. cbn in Hh. rewrite !fmap_app, IH. f_equal.
    destruct (meta_at_head t ws device h (ss_inv _ _ Hs) Hh) as (op & dir & rcv & Hb & Es & ->).
    rewrite workspace_heads_same in Hh.
    destruct (meta_at_head t' ws device h (ss_inv' _ _ Hs) Hh) as (op' & dir' & rcv' & Hb' & Es' & ->).
    apply by_device_same in Hb'.
    assert (op' = op) as -> by (eapply (by_device_unique t ws device); [apply (ss_inv _ _ Hs)|done..|congruence]).
    done. }
  apply Hl, Forall_forall. intros [device h]. rewrite sort_by_key_perm. apply elem_of_map_to_list.
Qed.

Lemma try_map_core scope l :
  try_map (frontier_entry scope) l
  = try_map (fun row => if negb (bool_decide (row.2.1 = scope_account_id scope))
                           || negb (bool_decide (sdh_canonical_hash row.1.2 = row.2.2))
                        then Err (Validation "invalid stored checkpoint frontier")
                        else Ok {| ds_device_id := row.1.1; ds_sequence := sdh_sequence row.1.2 |})
      (row_core <$> l).
Proof.
  induction l as [|[[device h] m] l IH]; [done|]. csimpl. cbn [try_map]. by rewrite IH.
Qed.

Lemma frontier_same scope : load_checkpoint_frontier t scope = load_checkpoint_frontier t' scope.
Proof.
  unfold load_checkpoint_frontier. rewrite !try_map_core, frontier_rows_same.
  by rewrite workspace_heads_same.
Qed.

(** ** The state summary *)

Lemma meta_scope_same id :
  (fun m => (meta_account_id m, meta_workspace_id m)) <$> meta_of t !! id
  = (fun m => (meta_account_id m, meta_workspace_id m)) <$> meta_of t' !! id.
Proof.
  assert (Hone : forall u u' : VaultTables E, vault_inv u -> vault_inv u' -> operations_of u = operations_of u' ->
    forall m, meta_of u !! id = Some m -> exists m', meta_of u' !! id = Some m'
      /\ meta_account_id m' = meta_account_id m /\ meta_workspace_id m' = meta_workspace_id m).
  { intros u u' Hu Hu' Eo m Hm. eapply meta_operation in Hm as (op & hash & dir & rcv & Ho & _ & _ & ->); [|done].
    rewrite Eo in Ho. destruct (vi_operation _ Hu' _ _ Ho) as (_ & _ & hash' & dir' & rcv' & _ & Hm'). eauto. }
  destruct Hs as [Hi Hi' Eo _].
  destruct (meta_of t !! id) as [m|] eqn:Em.
  - destruct (Hone t t' Hi Hi' Eo m Em) as (m' & -> & Ea & Ew). cbn. by rewrite Ea, Ew.
  - destruct (meta_of t' !! id) as [m'|] eqn:Em'; [|done].
    destruct (Hone t' t Hi' Hi (eq_sym Eo) m' Em') as (m & Hx & _). congruence.
Qed.

Lemma has_scoped_head_same scope rows : has_scoped_head t scope rows = has_scoped_head t' scope rows.
Proof.
  unfold has_scoped_head. induction (map_to_list rows) as [|row l IH]; [done|]. cbn. rewrite IH.
  f_equal. pose proof (meta_scope_same row.1) as Hm.
  destruct (meta_of t !! row.1), (meta_of t' !! row.1); try done. by injection Hm as -> ->.
Qed.

Lemma head_at_same ws r id : head_at (vt_heads t) ws r id = head_at (vt_heads t') ws r id.
Proof.
  assert (Hone : forall (u u' : VaultTables E) row, same_state u u' -> head_at (vt_heads u) ws r id = Some row ->
    head_at (vt_heads u') ws r id = Some row).
  { intros u u' row Hu Hr.
    destruct (vi_head _ (ss_inv _ _ Hu) _ _ _ _ Hr) as (op & hash & Ho & _ & _ & Hc & -> & _).
    destruct (vi_operation _ (ss_inv _ _ Hu) _ _ Ho) as (Eid & _).
    destruct (load_record_heads_spec u ws r (ss_inv _ _ Hu)) as (heads & Hl & _ & Hin).
    destruct (load_record_heads_spec u' ws r (ss_inv' _ _ Hu)) as (heads' & Hl' & _ & Hin').
    rewrite (ss_heads _ _ Hu) in Hl. assert (heads' = heads) as -> by congruence.
    assert (Hh : heads_in u ws r (op_head op hash)).
    { exists (head_row op hash). cbn. rewrite Eid. split; [done|]. exists op, hash. by rewrite Eid. }
    apply Hin, Hin' in Hh as (row' & Hr' & op' & hash' & _ & _ & _ & Er & Eh).
    cbn in Hr', Er. rewrite Eid in Hr'. injection Eh as _ _ _ <- <-. by subst row'. }
  apply option_eq. intros row. split; apply Hone; [done|by apply same_state_sym].
Qed.

Definition rows_at (heads : HeadTables) (ws : WorkspaceId) (r : RecordId) : gmap OperationId HeadRow :=
  default ∅ (ht_heads heads !! (ws, r)).

Lemma rows_at_same ws r : rows_at (vt_heads t) ws r = rows_at (vt_heads t') ws r.
Proof. apply map_eq. intros id. apply head_at_same. Qed.

End same.

Lemma elem_workspace_records t ws entry :
  entry ∈ filter (fun e => e.2 <> ∅) (workspace_records t ws)
  <-> entry.1.1 = ws /\ entry.2 <> ∅ /\ rows_at (vt_heads t) ws entry.1.2 = entry.2.
Proof.
  destruct entry as [[w r] rows]. unfold workspace_records, rows_at.
  rewrite !list_elem_of_filter, elem_of_map_to_list. cbn. split.
  - intros (Hne & -> & Hl). by rewrite Hl.
  - intros (-> & Hne & Hl). split_and!; [done..|].
    destruct (ht_heads (vt_heads t) !! (ws, r)) as [rows'|]; cbn in Hl; [congruence|]. by subst rows.
Qed.

Lemma NoDup_workspace_records t ws : NoDup (workspace_records t ws).
Proof. apply NoDup_filter, NoDup_map_to_list. Qed.

Lemma workspace_records_same t t' ws :
  same_state t t' ->
  filter (fun e => e.2 <> ∅) (workspace_records t ws) ≡ₚ filter (fun e => e.2 <> ∅) (workspace_records t' ws).
Proof.
  intros Hs. apply NoDup_Permutation; [apply NoDup_filter, NoDup_workspace_records..|].
  intros entry. by rewrite !elem_workspace_records, (rows_at_same t t' Hs).
Qed.

Lemma total_heads_same t t' ws : same_state t t' -> total_heads t ws = total_heads t' ws.
Proof.
  intros Hs. unfold total_heads.
  assert (Hz : forall e : WorkspaceId * RecordId * gmap OperationId HeadRow,
    ~ e.2 <> ∅ -> N.of_nat (size e.2) = 0).
  { intros e He. by destruct (decide (e.2 = ∅)) as [->|]; [rewrite map_size_empty|]. }
  rewrite <- (foldl_add_filter _ (fun e => e.2 <> ∅) (workspace_records t ws) Hz).
  rewrite <- (foldl_add_filter _ (fun e => e.2 <> ∅) (workspace_records t' ws) Hz).
  by apply (foldl_add_perm (fun e => N.of_nat (size e.2))), workspace_records_same.
Qed.

Lemma scoped_records t scope :
  filter (fun e => has_scoped_head t scope e.2 = true) (workspace_records t (scope_workspace_id scope))
  = filter (fun e => has_scoped_head t scope e.2 = true)
      (filter (fun e => e.2 <> ∅) (workspace_records t (scope_workspace_id scope))).
Proof.
  rewrite list_filter_filter. apply list_filter_iff. intros [key rows]. cbn. split; [|tauto].
  intros Hh. split; [done|]. intros ->. done.
Qed.

Lemma scoped_records_ids t scope :
  vault_inv t ->
  NoDup (uuid_hyphenated <$> ((fun e => e.1.2) <$>
    filter (fun e => has_scoped_head t scope e.2 = true) (workspace_records t (scope_workspace_id scope)))).
Proof.
  intros Hi. rewrite scoped_records. apply NoDup_hyphenated.
  - apply NoDup_fmap_2_strong; [|by repeat apply NoDup_filter; apply NoDup_map_to_list].
    intros [[w r] rows] [[w' r'] rows'] [_ Hx]%list_elem_of_filter [_ Hy]%list_elem_of_filter Er.
    apply elem_workspace_records in Hx as (? & _ & ?), Hy as (? & _ & ?). cbn in *. subst. done.
  - apply Forall_fmap, Forall_forall. intros [[w r] rows] [_ (_ & Hne & Hr)%elem_workspace_records]%list_elem_of_filter.
    cbn in *. apply map_choose in Hne as (id & row & Hid).
    assert (Hat : head_at (vt_heads t) (scope_workspace_id scope) r id = Some row)
      by (unfold head_at; unfold rows_at in Hr; by rewrite Hr).
    destruct (vi_head _ Hi _ _ _ _ Hat) as (op & _ & Ho & _ & <- & _).
    destruct (vi_operation _ Hi _ _ Ho) as (_ & Hwf & _). unfold wf_operation in Hwf. wf_inv.
    match goal with Hx : wf_id (op_record_id op) = true |- _ => apply wf_id_len in Hx end.
    unfold len in *. lia.
Qed.

Lemma summary_records_same t t' scope :
  same_state t t' -> summary_records t scope = summary_records t' scope.
Proof.
  intros Hs. unfold summary_records.
  apply sort_by_key_perm_eq; [by apply scoped_records_ids, Hs|]. apply fmap_Permutation.
  rewrite !scoped_records.
  rewrite (list_filter_iff (fun e => has_scoped_head t scope e.2 = true)
             (fun e => has_scoped_head t' scope e.2 = true)).
  - by rewrite (workspace_records_same t t').
  - intros e. by rewrite (has_scoped_head_same t t').
Qed.

Lemma summary_same t t' scope : same_state t t' -> load_state_summary t scope = load_state_summary t' scope.
Proof.
  intros Hs. unfold load_state_summary. rewrite (summary_records_same t t'), (total_heads_same t t') by done.
  assert (Hl : forall l, try_map (summary_entry t scope) l = try_map (summary_entry t' scope) l).
  { induction l as [|r l IH]; [done|]. cbn [try_map]. rewrite IH. unfold summary_entry.
    by rewrite (ss_heads _ _ Hs). }
  by rewrite Hl.
Qed.

(** ** Replicas *)

Lemma replica_operations t t' l l' id op :
  replica t l -> replica t' l' -> content <$> l ≡ₚ content <$> l' ->
  operations_of t !! id = Some op -> operations_of t' !! id = Some op.
Proof.
  intros Hr Hr' Hp Ho. pose proof (rp_seen _ _ Hr id (mk_is_Some _ _ Ho)) as Hid.
  apply list_elem_of_fmap in Hid as (a & -> & Ha). rewrite (rp_stored _ _ Hr a Ha) in Ho.
  injection Ho as <-.
  assert (Hin : content a ∈ content <$> l') by (rewrite <- Hp; by apply list_elem_of_fmap_2).
  apply list_elem_of_fmap in Hin as (a' & Ea & Ha'). unfold content in Ea. injection Ea as -> _ _ _.
  by apply (rp_stored _ _ Hr').
Qed.

Lemma replicas_same_state material material' t t' l l' :
  received_all material t l -> received_all material' t' l' -> content <$> l ≡ₚ content <$> l' ->
  same_state t t'.
Proof.
  intros Hr Hr' Hp. pose proof (rn_replica _ _ _ Hr) as Hrep. pose proof (rn_replica _ _ _ Hr') as Hrep'.
  split; [apply (rp_inv _ _ Hrep)|apply (rp_inv _ _ Hrep')| |].
  - apply map_eq. intros id. apply option_eq. intros op.
    split; [by eapply replica_operations|eapply replica_operations; [done|done|by symmetry]].
  - intros ws r. destruct (heads_agree material material' t t' l l' Hr Hr' Hp ws r) as (heads & -> & -> & _). done.
Qed.

(** The frontier of a consistent vault is well formed. *)
Lemma frontier_wf t scope frontier :
  vault_inv t -> load_checkpoint_frontier t scope = Ok frontier -> forallb wf_device_sequence frontier = true.
Proof.
  intros Hi Hf. unfold load_checkpoint_frontier in Hf. apply rbind_Ok in Hf as (l & Hl & Hf).
  destruct (windows2_any _ _) in Hf; [done|]. destruct (negb _) in Hf; [done|]. injection Hf as <-.
  apply forallb_forall. intros x Hx%list_elem_of_In.
  apply try_map_Ok in Hl. destruct (Forall2_elem_r _ _ _ _ Hl Hx) as ([[device h] m] & Hrow & He).
  unfold frontier_entry in He. res_inv. subst x.
  unfold frontier_rows in Hrow. apply list_elem_of_bind in Hrow as ([device' h'] & Hm & Hin).
  rewrite sort_by_key_perm in Hin. apply elem_of_map_to_list in Hin.
  apply list_elem_of_fmap in Hm as (m' & [= -> -> _] & _). cbn in Hin.
  destruct (meta_at_head t _ _ _ Hi Hin) as (op & _ & _ & (Ho & _ & <-) & <- & _).
  destruct (vi_operation _ Hi _ _ Ho) as (_ & Hwf & _). unfold wf_operation in Hwf. wf_inv.
  unfold wf_device_sequence. cbn. apply andb_true_iff. split; [done|by apply N.leb_le].
Qed.

Lemma build_reads (v : Vault E) context (roster : M) built :
  build_checkpoint v context roster = Ok built ->
  exists frontier summary, sync_checkpoint_frontier M v (cbc_scope context) = Ok frontier
    /\ sync_state_summary M v (cbc_scope context) = Ok summary.
Proof.
  unfold build_checkpoint, build_checkpoint_with_previous, vault_read. intros Hb. res_inv. eauto.
Qed.


End agree.

(** *** Witness: two vaults receive two writes in opposite orders and agree *)

Module AgreeWitness.
#[local] Existing Instances rfc9562 rfc9562_laws Rfc8949.codec Rfc8949.codec_laws
  CountableJson.records CountableJson.records_laws Toy.toy Toy.toy_laws
  VaultWitness.no_history VaultWitness.no_embeddings
  ReplicaWitness.unenrolled_history ReplicaWitness.devices.
Import VaultWitness ReplicaWitness.

Definition built_on (v : Vault unit) : CanonicalCheckpoint :=
  match build_checkpoint v CheckpointWitness.context tt with
  | Ok built => built
  | Err _ => CheckpointWitness.built
  end.


End AgreeWitness.
