(* ===== verification/VaultSync.v ===== *)
(** * The vault under the sync engine

    A sync cycle changes the record store only by working its queue and by applying
    operations it admitted ([sync_once_records]).  For the vault's own tables this means
    that a cycle keeps them reachable, hence consistent; and the vault keeps the laws the
    engine's theorems assume of a record store ([vault_record_laws], [vault_outbox_laws]),
    so those theorems hold of it. *)

From S2P Require Import Prelude Ordering BTree Text Protocol Minicbor CanonicalCbor Domain.
From S2P Require Import SyncPayload Crypto Operation Causal Merge Transport StateSummary.
From S2P Require Import Admission Checkpoint MemoryTransport Outbox EnginePush Receipts EnginePull.
From S2P Require Import SyncCycle VaultTables RecordStore VaultSteps VaultInvariant VaultConverge.
From S2P Require Import VaultCheckpoints ReplicaRuns.

#[local] Open Scope N_scope.

(** ** What a cycle does to the records *)

Section records.
Context `{UuidCrate} `{Minicbor} `{RecordJson} `{Primitives} `{Membership}.
Context {R M T : Type} `{!TrustedSyncMaterial M} `{!SyncVault R M} `{!RecordVault R M} `{!OutboxStore R}.
Context `{!PushTransport T} `{!PullTransport T}.
Implicit Type v : PullVault R.

(** An operation is admitted from its bytes and applied. *)
Definition admits (m : M) (r r' : R) : Prop :=
  exists b a received_at now d, admit_operation r b m = Ok (AdmittedAs a)
    /\ apply_operation r a m received_at now = Ok (r', d).

Abbreviation pulls m v v' := (rtc (admits m) (pv_records v) (pv_records v')).

Lemma persist_quarantine_records self v row code now_ms advance v' :
  persist_quarantine self v row code now_ms advance = Ok v' -> pv_records v' = pv_records v.
Proof. unfold persist_quarantine. intros Ho. apply rbind_Ok in Ho as ([receipts d] & _ & Ho). by injection Ho as <-. Qed.

Lemma persist_rejection_records self v row now_ms advance v' :
  persist_rejection self v row now_ms advance = Ok v' -> pv_records v' = pv_records v.
Proof. unfold persist_rejection. intros Ho. apply rbind_Ok in Ho as ([receipts d] & _ & Ho). by injection Ho as <-. Qed.

Lemma set_row_aside_records self v state row code now_ms step :
  set_row_aside self v state row code now_ms = Ok step ->
  exists v' state', step = RowDone v' state' /\ pv_records v' = pv_records v.
Proof.
  unfold set_row_aside. intros Ho. apply rbind_Ok in Ho as (v' & Hv%persist_quarantine_records & Ho).
  injection Ho as <-. eauto.
Qed.

Definition row_vault (step : RowStep) : PullVault R :=
  match step with RowDone v _ | RowStop v _ | RowGap v _ => v end.

Lemma process_row_records self v state was_repaired row (m : M) now_ms step :
  process_row self v state was_repaired row m now_ms = Ok step -> pulls m v (row_vault step).
Proof.
  unfold process_row. intros Ho. apply rbind_unit_Ok in Ho as [_ Ho].
  destruct (_ =? _); [by injection Ho as <-|].
  apply rbind_Ok in Ho as ([q|] & _ & Ho).
  { apply rbind_unit_Ok in Ho as [_ Ho].
    apply set_row_aside_records in Ho as (v' & s' & -> & Hv). cbn. by rewrite Hv. }
  apply rbind_Ok in Ho as ([q|] & _ & Ho).
  { apply rbind_unit_Ok in Ho as [_ Ho].
    apply rbind_Ok in Ho as (v' & Hv%persist_rejection_records & Ho). injection Ho as <-. cbn. by rewrite Hv. }
  cbv zeta in Ho. destruct (MAX_CBOR_OPERATION_BYTES <? _).
  { apply rbind_Ok in Ho as (v' & Hv%persist_rejection_records & Ho). injection Ho as <-. cbn. by rewrite Hv. }
  destruct (reserve_bytes _ _ _) as [reserved|]; [|by injection Ho as <-].
  destruct (is_err _).
  { apply set_row_aside_records in Ho as (v' & s' & -> & Hv). cbn. by rewrite Hv. }
  destruct (admit_operation _ _ _) as [[i|first last|a]|e] eqn:Ha.
  - destruct (negb _); [done|]. apply rbind_Ok in Ho as (v' & Hv%map_err_Ok & Ho). injection Ho as <-.
    unfold advance_replay_cursor in Hv. do 3 apply rbind_unit_Ok in Hv as [_ Hv]. by injection Hv as <-.
  - destruct was_repaired; by injection Ho as <-.
  - apply rbind_Ok in Ho as ([v' d] & Hv%map_err_Ok & Ho). injection Ho as <-.
    unfold apply_admitted_operation_at in Hv. do 2 apply rbind_unit_Ok in Hv as [_ Hv].
    apply rbind_Ok in Hv as ([records d'] & Hap & Hv). injection Hv as <- <-. cbn.
    apply rtc_once. by eexists _, a, _, _, d'.
  - apply rbind_unit_Ok in Ho as [_ Ho].
    apply set_row_aside_records in Ho as (v' & s' & -> & Hv). cbn. by rewrite Hv.
Qed.

Lemma advance_rows_records self (m : M) now_ms rows v state :
  pulls m v (advance_rows self v state rows m now_ms).1.
Proof.
  revert v state. induction rows as [|row rest IH]; intros v state; cbn [advance_rows]; [done|].
  destruct (process_row _ _ _ _ _ _ _) as [step|e] eqn:Ep; [|done].
  apply process_row_records in Ep. destruct step; cbn in Ep |- *; [|done|done]. etrans; [done|apply IH].
Qed.

Definition repair_vault (step : RepairStep) : PullVault R :=
  match step with RepairNext v _ | RepairStop v _ _ => v end.

Lemma repair_row_records self v state row (m : M) now_ms step :
  repair_row self v state row m now_ms = Ok step -> pulls m v (repair_vault step).
Proof.
  unfold repair_row, blocked. intros Ho.
  apply rbind_Ok in Ho as ([q|] & _ & Ho).
  { apply rbind_unit_Ok in Ho as [_ Ho]. by injection Ho as <-. }
  apply rbind_Ok in Ho as ([q|] & _ & Ho).
  { apply rbind_unit_Ok in Ho as [_ Ho]. by injection Ho as <-. }
  cbv zeta in Ho. destruct (MAX_CBOR_OPERATION_BYTES <? _).
  { apply rbind_Ok in Ho as (v' & Hv%persist_rejection_records & Ho). injection Ho as <-. cbn. by rewrite Hv. }
  destruct (reserve_bytes _ _ _) as [reserved|]; [|by injection Ho as <-].
  destruct (is_err _).
  { apply rbind_Ok in Ho as (v' & Hv%persist_quarantine_records & Ho). injection Ho as <-. cbn. by rewrite Hv. }
  destruct (admit_operation _ _ _) as [[i|first last|a]|e] eqn:Ha.
  - destruct (bool_decide _); [by injection Ho as <-|done].
  - done.
  - apply rbind_Ok in Ho as ([v' d] & Hv%map_err_Ok & Ho). injection Ho as <-.
    unfold apply_repaired_operation_at in Hv. apply rbind_unit_Ok in Hv as [_ Hv].
    apply rbind_Ok in Hv as ([records d'] & Hap & Hv). injection Hv as <- <-. cbn.
    apply rtc_once. by eexists _, a, _, _, d'.
  - apply rbind_unit_Ok in Ho as [_ Ho].
    apply rbind_Ok in Ho as (v' & Hv%persist_quarantine_records & Ho). injection Ho as <-. cbn. by rewrite Hv.
Qed.

Lemma repair_rows_records self (m : M) now_ms rows v state :
  pulls m v (repair_rows self v state rows m now_ms).1.
Proof.
  revert v state. induction rows as [|row rest IH]; intros v state; cbn [repair_rows]; [done|].
  destruct (repair_row _ _ _ _ _ _) as [step|e] eqn:Ep; [|done].
  apply repair_row_records in Ep. destruct step; cbn in Ep |- *; [|done]. etrans; [done|apply IH].
Qed.

Lemma apply_repair_rows_records self v state device first last rows (m : M) now_ms :
  pulls m v (apply_repair_rows self v state device first last rows m now_ms).1.
Proof.
  unfold apply_repair_rows. repeat case_match; try done. apply repair_rows_records.
Qed.

Lemma set_blocker_aside_records self v state (m : M) now_ms :
  pulls m v (set_blocker_aside self v state m now_ms).1.
Proof.
  unfold set_blocker_aside. destruct (ps_repair state); [|done]. cbv zeta.
  destruct (_ =? _); [done|]. destruct (reserve_bytes _ _ _); [|done].
  destruct (persist_quarantine _ _ _ _ _ _) as [v'|] eqn:Ep; [|done].
  apply persist_quarantine_records in Ep. rewrite <- Ep. apply advance_rows_records.
Qed.

Lemma continue_repair_records self v state hi (m : M) now_ms :
  pulls m v (continue_repair self v state hi m now_ms).1.
Proof. unfold continue_repair. repeat case_match; try done; apply advance_rows_records. Qed.

Lemma finish_pull_records self v prepared response (m : M) now_ms :
  pulls m v (finish_pull self v prepared response m now_ms).1.
Proof.
  unfold finish_pull. cbv zeta. destruct (_ || _); [done|].
  destruct (vault_cursor self v); [|done]. destruct (negb _); [done|].
  destruct (pl_request prepared) as [cursor limit|device lo hi], response as [page|rows]; try done.
  - destruct (validate_page _ _ _ _); [|done]. destruct (bool_decide _); [done|]. apply advance_rows_records.
  - pose proof (apply_repair_rows_records self v (pl_state prepared) device lo hi rows m now_ms) as Hr.
    destruct (apply_repair_rows _ _ _ _ _ _ _ _ _) as [v1 [[state outcome]|e]]; [|done]. cbn [fst] in Hr.
    etrans; [exact Hr|]. destruct outcome; [apply continue_repair_records|done|apply set_blocker_aside_records].
Qed.

Lemma pull_loop_records self (m : M) now_ms fuel v (t : T) progress :
  pulls m v (pull_loop fuel self v t progress m now_ms).1.1.
Proof.
  revert v t progress. induction fuel as [|fuel IH]; intros v t [prepared|report]; cbn [pull_loop]; try done.
  destruct (serve t prepared) as [t' [response|e]]; [|done].
  pose proof (finish_pull_records self v prepared response m now_ms) as Hf.
  destruct (finish_pull _ _ _ _ _ _) as [v' [progress|e]]; [|done]. etrans; [exact Hf|apply IH].
Qed.

Lemma sync_once_records fuel self (s : CycleState R T) (m : M) now_ms :
  exists q, rtc queue_step (outbox_of (pv_records (cy_vault s))) q
    /\ rtc (admits m) (with_outbox_of (pv_records (cy_vault s)) q)
         (pv_records (cy_vault (sync_once fuel self s m now_ms).1)).
Proof.
  unfold sync_once.
  pose proof (push_due_steps self (outbox_of (pv_records (cy_vault s))) (cy_transport s) now_ms
    SyncCycleReport_empty) as Hq.
  destruct (push_due _ _ _ _ _) as [[q t] pushed]. exists q. split; [done|].
  destruct pushed as [pushed|e]; [|done]. destruct (prepare_pull _ _) as [progress|e]; [|done].
  pose proof (pull_loop_records self m now_ms fuel (with_pushed (cy_vault s) q) t progress) as Hp.
  by destruct (pull_loop _ _ _ _ _ _ _) as [[v' t'] r].
Qed.

End records.

(** ** The vault's tables as the record store *)

Section vault.
Context `{UuidCrate} `{!UuidCrateLaws} `{MinicborLaws} `{RecordJson} `{!RecordJsonLaws}.
Context `{Primitives} `{MembershipHistory}.
Context {E M T : Type} `{!TrustedSyncMaterial M} `{!HistoricalRead M} `{!EmbeddingResolver E}.
Context `{!PushTransport T} `{!PullTransport T}.
Implicit Type v : Vault E.

Lemma stored_bytes_Ok (q : OutboxTables) id b :
  stored_operation_bytes q id = Ok (Some b)
  <-> exists op, tb_operations q !! id = Some op /\ encode_sync_operation_v1 op = Ok b.
Proof.
  unfold stored_operation_bytes. destruct (tb_operations q !! id) as [op|]; [|naive_solver].
  rewrite rbind_Ok. setoid_rewrite map_err_Ok. naive_solver.
Qed.

Lemma vault_apply_Ok v a (m : M) received_at now v' d :
  apply_operation v a m received_at now = Ok (v', d) ->
  apply_admitted_operation_inner (va_tables v) a m received_at now = Ok (va_tables v', d)
  /\ va_checkpoints v' = va_checkpoints v.
Proof.
  cbn. intros Ho. apply rbind_Ok in Ho as ([t d'] & Ht & Ho). injection Ho as <- <-. done.
Qed.

Lemma vault_apply_cases v a (m : M) received_at now v' d :
  apply_operation v a m received_at now = Ok (v', d) ->
  encode_sync_operation_v1 (adm_operation a) = Ok (adm_canonical_bytes a)
  /\ ((exists op, operations_of (va_tables v) !! op_operation_id (adm_operation a) = Some op
         /\ encode_sync_operation_v1 op = Ok (adm_canonical_bytes a)
         /\ va_tables v' = va_tables v)
      \/ exists current, applied (va_tables v) a (rehydrate_stored_mutation m) received_at
           (va_tables v') d current).
Proof.
  intros [Ho _]%vault_apply_Ok. unfold apply_admitted_operation_inner in Ho.
  apply rbind_unit_Ok in Ho as [(_ & Henc & _)%validate_admitted_Ok Ho].
  do 2 apply rbind_unit_Ok in Ho as [_ Ho]. split; [done|].
  apply apply_verified_Ok in Ho as [_ [(op & Hop & He & Et & _)|Ha]]; [left; eauto|by right].
Qed.

#[global] Instance vault_record_laws : RecordVaultLaws (Vault E) M.
Proof.
  split.
  - intros v a m rcv now v' d [Henc [(op & Hop & He & Et)|(current & Ha)]]%vault_apply_cases;
      apply stored_bytes_Ok.
    + rewrite Et. eauto.
    + exists (adm_operation a). split; [|done].
      apply (stored_operation _ _ _ _ _ _ _ (ap_stored _ _ _ _ _ _ _ Ha)). by left.
  - intros v a m rcv now v' d id b [_ [(op & _ & _ & Et)|(current & Ha)]]%vault_apply_cases
      (op' & Hop & He)%stored_bytes_Ok; apply stored_bytes_Ok.
    + rewrite Et. eauto.
    + exists op'. split; [|done].
      apply (stored_operation _ _ _ _ _ _ _ (ap_stored _ _ _ _ _ _ _ Ha)). by right.
Qed.

Lemma queue_steps_operations q q' : rtc queue_step q q' -> tb_operations q' = tb_operations q.
Proof. induction 1 as [|q1 q2 q3 (Ho & _)%queue_step_shrinks _ IH]; congruence. Qed.

#[global] Instance vault_outbox_laws : OutboxStoreLaws (Vault E) M.
Proof.
  split. intros v q id b Hq (op & Hop & He)%stored_bytes_Ok. apply stored_bytes_Ok. exists op.
  split; [|done]. cbn in *. by rewrite (queue_steps_operations _ _ Hq).
Qed.

(** ** A cycle keeps the tables reachable *)

Lemma queue_steps_reachable (t : VaultTables E) q :
  reachable (M := M) t -> rtc queue_step (lg_queue (vt_log t)) q -> reachable (M := M) (with_queue t q).
Proof.
  intros Hr Hq. remember (lg_queue (vt_log t)) as q0 eqn:E0. revert t Hr E0.
  induction Hq as [q0|q0 q1 q2 Hs _ IH]; intros t Hr ->.
  - replace (with_queue t (lg_queue (vt_log t))) with t; [done|].
    destruct t as [[] ? ? ? ?]. done.
  - apply (IH (with_queue t q1)); [|done]. eapply rtc_r; [done|]. by apply step_queue.
Qed.

Lemma admits_reachable (m : M) v v' :
  reachable (M := M) (va_tables v) -> admits m v v' -> reachable (M := M) (va_tables v').
Proof.
  intros Hr (b & a & rcv & now & d & Ha & [Ho _]%vault_apply_Ok). eapply rtc_r; [done|].
  eapply step_apply; [|done].
  apply admit_operation_ok in Ha as (op & trusted & previous & Hdec & _ & _ & _ & _ & _ & _ & _ & _ & _ & _ & ->).
  by apply decode_sync_operation_v1_Ok in Hdec as [? _].
Qed.

Lemma cycle_reachable fuel self (s : CycleState (Vault E) T) (m : M) now_ms :
  reachable (M := M) (va_tables (pv_records (cy_vault s))) ->
  reachable (M := M) (va_tables (pv_records (cy_vault (sync_once fuel self s m now_ms).1))).
Proof.
  intros Hr. destruct (sync_once_records fuel self s m now_ms) as (q & Hq & Hp).
  apply queue_steps_reachable in Hq; [|done]. cbn [outbox_of with_outbox_of vault_outbox] in *.
  revert Hp. set (v0 := with_tables _ _). intros Hp.
  assert (H0' : reachable (M := M) (va_tables v0)) by exact Hq. clearbody v0. clear Hr Hq.
  induction Hp as [|v1 v2 v3 Hs _ IH]; [done|]. apply IH. by eapply admits_reachable.
Qed.

(** The vault under a sync cycle: starting from a reachable vault, whatever the
    transport answers, the tables are still consistent after the cycle; and when the
    cycle reports no more work, over a transport that withholds no page, every operation
    the provider holds for the scope is in the operations table byte for byte, in
    quarantine, or remembered as oversized. *)
Theorem vault_cycle_sound `{!PullTransportLaws T} fuel self (s : CycleState (Vault E) T) (m : M) now_ms :
  let s' := (sync_once fuel self s m now_ms).1 in
  let log := pt_log (cy_transport s') (eng_scope self) in
  reachable (M := M) (va_tables (pv_records (cy_vault s))) ->
  vault_inv (va_tables (pv_records (cy_vault s')))
  /\ (pt_ok (cy_transport s) -> pt_room (cy_transport s) -> pt_quiet (cy_transport s) ->
      covers self (pt_log (cy_transport s) (eng_scope self)) (cy_vault s) ->
      forall report row, (sync_once fuel self s m now_ms).2 = Some (Ok report) ->
      rep_more_work report = false -> row ∈ log ->
      (exists op, operations_of (va_tables (pv_records (cy_vault s')))
                    !! can_operation_id (rec_operation row) = Some op
         /\ encode_sync_operation_v1 op = Ok (can_bytes (rec_operation row)))
      \/ is_Some (rt_quarantine (pv_receipts (cy_vault s')) !! receipt_key self row)
      \/ is_Some (rt_rejections (pv_receipts (cy_vault s')) !! receipt_key self row)).
Proof.
  intros s' log Hr. split; [by eapply reachable_inv, cycle_reachable|].
  intros Ht Hroom Hq Hc report row Er Hm Hin. unfold s', log in *.
  destruct (sync_once _ _ _ _ _) as [s1 r] eqn:Es.
  apply sync_once_covers in Es as (_ & _ & Hset); [|done..].
  destruct (Hset Hq report Er Hm row Hin) as [Hst|[(q & Hx & _)|(q & Hx & _)]].
  - left. by apply stored_bytes_Ok in Hst.
  - right. left. by exists q.
  - right. right. by exists q.
Qed.

End vault.

(** *** Witness: a vault sends its own operation and receives another device's *)

Module VaultSyncWitness.
#[local] Existing Instances rfc9562 rfc9562_laws Rfc8949.codec Rfc8949.codec_laws
  CountableJson.records CountableJson.records_laws Toy.toy Toy.toy_laws
  VaultWitness.no_history VaultWitness.no_embeddings
  ReplicaWitness.unenrolled_history ReplicaWitness.devices.
Import VaultWitness.

Definition scope : SyncScope := {| scope_account_id := Fixture.id; scope_workspace_id := Fixture.id |}.
Definition engine : SyncEngine := SyncEngine_new scope Memory (fun _ _ => 777).

(** Device 1 committed a write. *)
Definition committed_result (n : N) (name : string)
    : result VaultError (VaultTables unit * CommitDisposition) :=
  let? b := map_err (fun _ => Database) (built n name) in
  persist_outgoing empty_tables (secret name) b None 5 7 true.

Definition local_tables : VaultTables unit :=
  match committed_result 1 "one" with Ok (t, _) => t | Err _ => empty_tables end.

(** The transport holds a write of device 2. *)
Definition remote : InMemoryTransport :=
  match built 2 "two" with
  | Ok b => (push_operations InMemoryTransport_new scope [{|
      can_operation_id := uuid 2; can_device_id := uuid 2; can_device_sequence := 1;
      can_bytes := built_canonical_bytes b |}]).1
  | Err _ => InMemoryTransport_new
  end.

Definition start : CycleState (Vault unit) InMemoryTransport := {|
  cy_vault := {|
    pv_records := {| va_tables := local_tables;
                     va_checkpoints := {| ct_signed := ∅; ct_pins := ∅; ct_scans := ∅ |} |};
    pv_receipts := {| rt_cursors := ∅; rt_quarantine := ∅; rt_rejections := ∅ |} |};
  cy_transport := remote |}.

Definition outcome := sync_once 5 engine start tt 10.

(** One operation is pushed, two are pulled; one of them is new and conflicts. *)
Example cycle_exchanges :
  outcome.2 = Some (Ok {| rep_pushed := 1; rep_duplicates := 0; rep_pulled := 2; rep_applied := 1;
    rep_conflicts := 1; rep_quarantined := 0; rep_gaps_repaired := 0; rep_checkpointed := false;
    rep_more_work := false |})
  /\ load_materialized_mutation (va_tables (pv_records (cy_vault outcome.1))) Fixture.id KSecretRef
     = Some (secret "one").
Proof. split; vm_compute; reflexivity. Qed.

Definition commits (n : N) (name : string) : bool :=
  is_ok (committed_result n name)
  && match built n name with Ok b => wf_operation (built_operation b) | Err _ => false end.

Lemma committed_reachable n name :
  commits n name = true ->
  reachable (M := unit) (match committed_result n name with Ok (t, _) => t | Err _ => empty_tables end).
Proof.
  unfold commits, committed_result. destruct (built n name) as [b|e]; [|done]. cbn [map_err rbind].
  destruct (persist_outgoing _ _ _ _ _ _ _) as [[t d]|e] eqn:Ep; [|done]. cbn [is_ok andb].
  intros Hwf. eapply rtc_once, step_commit, Ep. exact Hwf.
Qed.

Lemma local_reachable : reachable (M := unit) local_tables.
Proof. apply committed_reachable. vm_compute. reflexivity. Qed.

Lemma remote_ok : transport_inv remote.
Proof.
  unfold remote. generalize (built 2 "two"). intros [b|e]; [|apply SyncCycleWitness.start_ok].
  pose proof SyncCycleWitness.start_ok as Hs. cbn [SyncCycleWitness.start cy_transport] in Hs.
  destruct (push_operations _ _ _) as [t' [receipt|err]] eqn:Ep; cbn [fst].
  - by apply push_operations_Ok in Ep as [? _].
  - by apply push_operations_Err in Ep as [? _].
Qed.

Definition report : SyncCycleReport :=
  match outcome.2 with Some (Ok r) => r | _ => SyncCycleReport_empty end.

Lemma vault_cycle_sound_witness :
  vault_inv (va_tables (pv_records (cy_vault outcome.1)))
  /\ forall row, row ∈ memory_log (cy_transport outcome.1) scope ->
     (exists op, operations_of (va_tables (pv_records (cy_vault outcome.1)))
                   !! can_operation_id (rec_operation row) = Some op
        /\ encode_sync_operation_v1 op = Ok (can_bytes (rec_operation row)))
     \/ is_Some (rt_quarantine (pv_receipts (cy_vault outcome.1)) !! receipt_key engine row)
     \/ is_Some (rt_rejections (pv_receipts (cy_vault outcome.1)) !! receipt_key engine row).
Proof.
  destruct (vault_cycle_sound 5 engine start tt 10 local_reachable) as [Hinv Hall].
  split; [exact Hinv|]. intros row Hin.
  refine (Hall remote_ok _ _ I report row _ _ Hin).
  - vm_compute. reflexivity.
  - split; vm_compute; reflexivity.
  - vm_compute. reflexivity.
  - vm_compute. reflexivity.
Defined.

End VaultSyncWitness.
