(* ===== verification/CheckpointEngine.v ===== *)
(** * The checkpoint exchange (core/sync/engine/checkpoints.rs, core/sync/engine.rs)

    After a cycle the engine looks its pinned checkpoint up at the provider, walks the
    provider's checkpoint log from genesis, accepts the newest checkpoint that states its
    own state, and when one is due publishes its own and reads it back.  Each request is
    a continuation over the vault; what a page wrote before an error stays written. *)

From S2P Require Import Prelude Ordering BTree Text Protocol Minicbor CanonicalCbor Domain.
From S2P Require Import SyncPayload Crypto Operation Causal Merge Transport StateSummary.
From S2P Require Import Admission Checkpoint MemoryTransport Outbox EnginePush Receipts EnginePull.
From S2P Require Import SyncCycle VaultTables RecordStore VaultCheckpoints.

#[local] Open Scope N_scope.

Inductive CheckpointRequest :=
| CheckpointByHash (hash : Sha256Digest)
| CheckpointPageRequest (after : option CheckpointCursor) (limit : N)
| CheckpointPush (checkpoint : CanonicalCheckpoint).

Inductive CheckpointResponse :=
| ByHashResponse (remote : option CanonicalCheckpoint)
| PageResponse (page : CheckpointPage)
| PushResponse (receipt : CheckpointReceipt).

Inductive Phase := Lookup | Scan | Push | Append | Tail.

Record CheckpointState := {
  ck_scope : SyncScope;
  ck_provider : SyncProvider;
  ck_max_operations : N;
  ck_initial_pin : option StoredCheckpointPin;
  ck_scanned : N;
  ck_report : SyncCycleReport;
  ck_phase : Phase;
  ck_chain_anchor : option VerifiedCheckpointChainAnchor;
  ck_append_hash : Sha256Digest;
  ck_append_cursor : option CheckpointCursor;
  ck_published : option CanonicalCheckpoint;
}.

Record PreparedCheckpoint := {
  pc_state : CheckpointState;
  pc_request : CheckpointRequest;
  pc_expected_pin : option StoredCheckpointPin;
  pc_expected_scan : option StoredCheckpointScan;
}.

Inductive CheckpointProgress :=
| CheckpointRequested (prepared : PreparedCheckpoint)
| CheckpointComplete (report : SyncCycleReport).

(** Field updates. *)
Definition with_phase (s : CheckpointState) (phase : Phase) : CheckpointState := {|
  ck_scope := ck_scope s; ck_provider := ck_provider s; ck_max_operations := ck_max_operations s;
  ck_initial_pin := ck_initial_pin s; ck_scanned := ck_scanned s; ck_report := ck_report s;
  ck_phase := phase; ck_chain_anchor := ck_chain_anchor s; ck_append_hash := ck_append_hash s;
  ck_append_cursor := ck_append_cursor s; ck_published := ck_published s |}.

Definition with_scanned (s : CheckpointState) (scanned : N) : CheckpointState := {|
  ck_scope := ck_scope s; ck_provider := ck_provider s; ck_max_operations := ck_max_operations s;
  ck_initial_pin := ck_initial_pin s; ck_scanned := scanned; ck_report := ck_report s;
  ck_phase := ck_phase s; ck_chain_anchor := ck_chain_anchor s; ck_append_hash := ck_append_hash s;
  ck_append_cursor := ck_append_cursor s; ck_published := ck_published s |}.

Definition with_published (s : CheckpointState) (c : CanonicalCheckpoint) : CheckpointState := {|
  ck_scope := ck_scope s; ck_provider := ck_provider s; ck_max_operations := ck_max_operations s;
  ck_initial_pin := ck_initial_pin s; ck_scanned := ck_scanned s; ck_report := ck_report s;
  ck_phase := ck_phase s; ck_chain_anchor := ck_chain_anchor s; ck_append_hash := ck_append_hash s;
  ck_append_cursor := ck_append_cursor s; ck_published := Some c |}.

(** [append_cursor], [append_hash] and [chain_anchor] at the end of the scan. *)
Definition with_anchor (s : CheckpointState) (cursor : CheckpointCursor) (hash : Sha256Digest)
    (anchor : option VerifiedCheckpointChainAnchor) (report : SyncCycleReport) : CheckpointState := {|
  ck_scope := ck_scope s; ck_provider := ck_provider s; ck_max_operations := ck_max_operations s;
  ck_initial_pin := ck_initial_pin s; ck_scanned := ck_scanned s; ck_report := report;
  ck_phase := ck_phase s; ck_chain_anchor := anchor; ck_append_hash := hash;
  ck_append_cursor := Some cursor; ck_published := ck_published s |}.

Definition set_checkpointed (r : SyncCycleReport) : SyncCycleReport := {|
  rep_pushed := rep_pushed r; rep_duplicates := rep_duplicates r; rep_pulled := rep_pulled r;
  rep_applied := rep_applied r; rep_conflicts := rep_conflicts r;
  rep_quarantined := rep_quarantined r; rep_gaps_repaired := rep_gaps_repaired r;
  rep_checkpointed := true; rep_more_work := rep_more_work r |}.

Definition quarantined : SyncCycleError := cycle_error "integrity_quarantined".
Definition misconfigured : SyncCycleError := cycle_error "configuration_error".

Definition engine_vault_error (error : VaultError) : SyncCycleError :=
  match error with
  | VaultOperationConflict | Validation _ => quarantined
  | _ => cycle_error "transient"
  end.

Definition sync_error (error : SyncError) : SyncCycleError := cycle_error (safe_code error).

(** The checkpoint half of the trait [SyncTransport]. *)
Class CheckpointTransport (T : Type) := {
  transport_by_hash :
    T -> SyncScope -> N -> Sha256Digest -> T * result TransportError (option CanonicalCheckpoint);
  transport_checkpoints :
    T -> SyncScope -> N -> option CheckpointCursor -> N -> T * result TransportError CheckpointPage;
  transport_publish :
    T -> SyncScope -> N -> CanonicalCheckpoint -> T * result TransportError CheckpointReceipt;
}.

(** ** Pages *)

Definition validate_checkpoint_page (after : option CheckpointCursor)
    (rows : list ReceivedCheckpoint) (next_cursor : option CheckpointCursor) (limit : N)
    : result SyncCycleError unit :=
  if (limit <? len rows) || (MAX_BATCH <? len rows) then Err misconfigured else
  if bool_decide (rows = []) then
    if bool_decide (next_cursor = None) then Ok tt else Err misconfigured
  else
  let? total_bytes := ok_or (foldl (fun total row =>
      total ← total; checked_add usize_max total (len (cc_bytes (rc_checkpoint row)))) (Some 0) rows)
    misconfigured in
  if (MAX_REQUEST_BYTES <? total_bytes)
     || windows2_any (fun a b => leb (rc_cursor b) (rc_cursor a)) rows
     || match after with
        | None => false
        | Some after => existsb (fun row => leb (rc_cursor row) after) rows
        end
     || negb (bool_decide (next_cursor = rc_cursor <$> last rows))
  then Err misconfigured else Ok tt.

Section engine.
Context `{UuidCrate} `{Minicbor} `{RecordJson} `{Primitives} `{MembershipHistory}.
Context {E M : Type} `{!TrustedSyncMaterial M} `{!HistoricalRead M} `{!EmbeddingResolver E}.
Implicit Type v : Vault E.

Definition validate_received_checkpoint (row : ReceivedCheckpoint) : result SyncCycleError unit :=
  let received := rc_checkpoint row in
  if bad_received_at (ccur_received_at (rc_cursor row))
     || negb (bool_decide (ccur_canonical_hash (rc_cursor row) = cc_canonical_hash received))
     || (MAX_CBOR_OPERATION_BYTES <? len (cc_bytes received))
  then Err quarantined else
  let? decoded := map_err (fun _ => quarantined) (decode_checkpoint_v1 (cc_bytes received)) in
  let? canonical := map_err (fun _ => quarantined) (encode_checkpoint_v1 decoded) in
  if negb (bool_decide (canonical = cc_bytes received))
     || negb (bool_decide (decoded = cc_checkpoint received))
     || negb (bool_decide (cp_state_hash decoded = cc_state_hash received))
     || negb (bool_decide (sha256 canonical = cc_canonical_hash received))
  then Err quarantined else Ok tt.

(** ** Requests *)

Definition engine_pin (self : SyncEngine) v : result SyncCycleError (option StoredCheckpointPin) :=
  map_err engine_vault_error (load_checkpoint_pin (va_checkpoints v) (eng_scope self)).

Definition engine_scan (self : SyncEngine) v : result SyncCycleError (option StoredCheckpointScan) :=
  map_err engine_vault_error
    (sync_checkpoint_scan v (eng_scope self) (provider_as_str (eng_provider self))).

Definition request_checkpoint (self : SyncEngine) v (state : CheckpointState)
    (request : CheckpointRequest) : result SyncCycleError CheckpointProgress :=
  let? expected_pin := engine_pin self v in
  let? expected_scan := engine_scan self v in
  Ok (CheckpointRequested {| pc_state := state; pc_request := request;
        pc_expected_pin := expected_pin; pc_expected_scan := expected_scan |}).

Definition next_checkpoint_page (self : SyncEngine) v (state : CheckpointState)
    : result SyncCycleError CheckpointProgress :=
  let? scan := engine_scan self v in
  let base_pin_hash := pin_canonical_hash <$> ck_initial_pin state in
  if match scan with
     | Some scan => negb (bool_decide (scan_base_pin_hash scan = base_pin_hash))
     | None => false
     end
  then Err quarantined else
  let remaining := eng_max_operations self - ck_scanned state in
  if remaining =? 0 then Ok (CheckpointComplete (set_more_work (ck_report state) true)) else
  request_checkpoint self v (with_phase state Scan)
    (CheckpointPageRequest (scan_cursor <$> scan) (N.min remaining MAX_BATCH)).

Definition prepare_checkpoint (self : SyncEngine) v : result SyncCycleError CheckpointProgress :=
  let? initial_pin := engine_pin self v in
  let state := {|
    ck_scope := eng_scope self; ck_provider := eng_provider self;
    ck_max_operations := eng_max_operations self; ck_initial_pin := initial_pin; ck_scanned := 0;
    ck_report := SyncCycleReport_empty; ck_phase := Lookup; ck_chain_anchor := None;
    ck_append_hash := zero_digest; ck_append_cursor := None; ck_published := None |} in
  match initial_pin with
  | Some pin => request_checkpoint self v state (CheckpointByHash (pin_canonical_hash pin))
  | None => next_checkpoint_page self v state
  end.

(** ** Scanning *)

(** One row of a page: its link to the previous one, the pin it may be, the scan it
    leaves. *)
Definition scan_row (self : SyncEngine) v (state : CheckpointState) (previous : Sha256Digest)
    (found_pin : bool) (row : ReceivedCheckpoint) (trusted_material : M)
    : result SyncCycleError (Vault E * bool) :=
  let received := rc_checkpoint row in
  let? _ := validate_received_checkpoint row in
  let? authenticated := map_err sync_error
    (verify_checkpoint_link (eng_scope self) received previous trusted_material) in
  let? found_pin :=
    match ck_initial_pin state with
    | Some pin =>
      if bool_decide (cc_canonical_hash received = pin_canonical_hash pin) then
        if negb (bool_decide (cc_bytes received = pin_canonical_bytes pin))
           || negb (bool_decide (cc_state_hash received = pin_state_hash pin))
        then Err quarantined else Ok true
      else Ok found_pin
    | None => Ok found_pin
    end in
  let? v := map_err engine_vault_error
    (save_sync_checkpoint_scan v (eng_scope self) (provider_as_str (eng_provider self))
       (rc_cursor row) authenticated (pin_canonical_hash <$> ck_initial_pin state) found_pin) in
  Ok (v, found_pin).

Fixpoint scan_rows (self : SyncEngine) v (state : CheckpointState) (previous : Sha256Digest)
    (found_pin : bool) (rows : list ReceivedCheckpoint) (trusted_material : M)
    : Vault E * result SyncCycleError CheckpointState :=
  match rows with
  | [] => (v, Ok state)
  | row :: rest =>
    match scan_row self v state previous found_pin row trusted_material with
    | Err e => (v, Err e)
    | Ok (v, found_pin) =>
      scan_rows self v (with_scanned state (saturating_add usize_max (ck_scanned state) 1))
        (cc_canonical_hash (rc_checkpoint row)) found_pin rest trusted_material
    end
  end.

(** The end of the log: the scanned endpoint is accepted or becomes the anchor. *)
Definition accept_scanned (self : SyncEngine) v (state : CheckpointState)
    (scan : StoredCheckpointScan) (trusted_material : M) (now_ms : N)
    : result SyncCycleError (Vault E * CheckpointState) :=
  let? (anchor, verified) := map_err sync_error
    (verify_checkpoint_after_chain v (eng_scope self) (scan_checkpoint scan)
       (scan_base_pin_hash scan) trusted_material) in
  let hash := cc_canonical_hash (anchor_checkpoint anchor) in
  match verified with
  | Some verified =>
    let? (v, _) := map_err engine_vault_error
      (accept_sync_checkpoint_endpoint v verified now_ms (provider_as_str (eng_provider self))) in
    Ok (v, with_anchor state (scan_cursor scan) hash (ck_chain_anchor state)
             (set_checkpointed (ck_report state)))
  | None => Ok (v, with_anchor state (scan_cursor scan) hash (Some anchor) (ck_report state))
  end.

(** What is due is built on the anchor, or on the pin. *)
Definition publish (self : SyncEngine) v (state : CheckpointState) (trusted_material : M)
    (now_ms : N) (context : CheckpointBuildContext) : result SyncCycleError CheckpointProgress :=
  let? schedule := map_err engine_vault_error
    (load_checkpoint_schedule (vt_schedule (va_tables v)) (eng_scope self)) in
  if negb (schedule_is_due schedule now_ms) then Ok (CheckpointComplete (ck_report state)) else
  let? checkpoint := map_err sync_error
    match ck_chain_anchor state with
    | Some anchor => build_checkpoint_after_chain v context trusted_material anchor
    | None => build_checkpoint v context trusted_material
    end in
  request_checkpoint self v (with_phase state Push) (CheckpointPush checkpoint).

Definition finish_scan (self : SyncEngine) v (state : CheckpointState)
    (expected_scan : option StoredCheckpointScan) (page : CheckpointPage) (trusted_material : M)
    (now_ms : N) (context : CheckpointBuildContext)
    : Vault E * result SyncCycleError CheckpointProgress :=
  let found_pin := match expected_scan with
                   | Some scan => scan_pin_seen scan
                   | None => bool_decide (ck_initial_pin state = None)
                   end in
  match cpage_rows page with
  | [] =>
    if negb found_pin then (v, Err quarantined) else
    match expected_scan with
    | None => (v, publish self v state trusted_material now_ms context)
    | Some scan =>
      match accept_scanned self v state scan trusted_material now_ms with
      | Err e => (v, Err e)
      | Ok (v, state) => (v, publish self v state trusted_material now_ms context)
      end
    end
  | rows =>
    let previous := match expected_scan with
                    | Some scan => cc_canonical_hash (scan_checkpoint scan)
                    | None => zero_digest
                    end in
    match scan_rows self v state previous found_pin rows trusted_material with
    | (v, Err e) => (v, Err e)
    | (v, Ok state) => (v, next_checkpoint_page self v state)
    end
  end.

(** ** Publishing *)

Definition finish_append (self : SyncEngine) v (state : CheckpointState) (page : CheckpointPage)
    (trusted_material : M) : result SyncCycleError CheckpointProgress :=
  match cpage_rows page with
  | [row] =>
    let? _ := validate_received_checkpoint row in
    let? authenticated := map_err sync_error
      (verify_checkpoint_link (eng_scope self) (rc_checkpoint row) (ck_append_hash state)
         trusted_material) in
    if negb (bool_decide (ck_published state = Some (ac_checkpoint authenticated)))
    then Err quarantined else
    request_checkpoint self v (with_phase state Tail) (CheckpointPageRequest (Some (rc_cursor row)) 1)
  | _ => Err quarantined
  end.

(** The published checkpoint is verified again against the vault as it is now. *)
Definition finish_tail (self : SyncEngine) v (state : CheckpointState) (trusted_material : M)
    (now_ms : N) : result SyncCycleError (Vault E * CheckpointProgress) :=
  let? checkpoint := ok_or (ck_published state) misconfigured in
  let? (v, _) :=
    match ck_chain_anchor state with
    | Some anchor =>
      let? verified := map_err sync_error
        (verify_checkpoint_chain_extension v (eng_scope self) checkpoint anchor trusted_material) in
      map_err engine_vault_error
        (accept_sync_checkpoint_chain_extension v verified now_ms
           (provider_as_str (eng_provider self)) (cc_canonical_hash (anchor_checkpoint anchor)))
    | None =>
      let? verified := map_err sync_error
        (verify_checkpoint v (eng_scope self) checkpoint trusted_material) in
      map_err engine_vault_error (accept_sync_checkpoint v verified now_ms)
    end in
  Ok (v, CheckpointComplete (set_checkpointed (ck_report state))).

(** ** finish_checkpoint *)

Definition with_page (v : Vault E) (after : option CheckpointCursor) (limit : N) (page : CheckpointPage)
    (k : Vault E * result SyncCycleError CheckpointProgress)
    : Vault E * result SyncCycleError CheckpointProgress :=
  match validate_checkpoint_page after (cpage_rows page) (cpage_next_cursor page) limit with
  | Err e => (v, Err e)
  | Ok _ => k
  end.

Definition finish_checkpoint (self : SyncEngine) v (prepared : PreparedCheckpoint)
    (response : CheckpointResponse) (trusted_material : M) (now_ms : N)
    (context : CheckpointBuildContext) : Vault E * result SyncCycleError CheckpointProgress :=
  let state := pc_state prepared in
  if negb (bool_decide (cbc_scope context = eng_scope self))
     || negb (bool_decide (ck_scope state = eng_scope self))
     || negb (bool_decide (ck_provider state = eng_provider self))
     || negb (ck_max_operations state =? eng_max_operations self)
  then (v, Err misconfigured) else
  match (let? pin := engine_pin self v in
         if negb (bool_decide (pin = pc_expected_pin prepared)) then Err quarantined else
         let? scan := engine_scan self v in
         if negb (bool_decide (scan = pc_expected_scan prepared)) then Err quarantined else Ok tt) with
  | Err e => (v, Err e)
  | Ok _ =>
    match ck_phase state, pc_request prepared, response with
    | Lookup, CheckpointByHash _, ByHashResponse remote =>
      (v, let? pin := ok_or (ck_initial_pin state) misconfigured in
          let? remote := ok_or remote quarantined in
          if negb (bool_decide (cc_bytes remote = pin_canonical_bytes pin))
             || negb (bool_decide (cc_state_hash remote = pin_state_hash pin))
          then Err quarantined else next_checkpoint_page self v state)
    | Scan, CheckpointPageRequest after limit, PageResponse page =>
      with_page v after limit page
        (finish_scan self v state (pc_expected_scan prepared) page trusted_material now_ms context)
    | Push, CheckpointPush checkpoint, PushResponse receipt =>
      (v, if negb (bool_decide (cr_canonical_hash receipt = cc_canonical_hash checkpoint))
          then Err quarantined else
          let state := with_phase (with_published state checkpoint) Append in
          request_checkpoint self v state (CheckpointPageRequest (ck_append_cursor state) 2))
    | Append, CheckpointPageRequest after limit, PageResponse page =>
      with_page v after limit page (v, finish_append self v state page trusted_material)
    | Tail, CheckpointPageRequest after limit, PageResponse page =>
      with_page v after limit page
        (if negb (bool_decide (cpage_rows page = [])) then (v, Err quarantined) else
         match finish_tail self v state trusted_material now_ms with
         | Err e => (v, Err e)
         | Ok (v, progress) => (v, Ok progress)
         end)
    | _, _, _ => (v, Err misconfigured)
    end
  end.

(** ** sync_once_with_checkpoint *)

Context {T : Type} `{!PushTransport T} `{!PullTransport T} `{!CheckpointTransport T}.

Definition serve_checkpoint (self : SyncEngine) (transport : T) (request : CheckpointRequest)
    : T * result SyncCycleError CheckpointResponse :=
  let scope := eng_scope self in
  match request with
  | CheckpointByHash hash =>
    let '(transport, remote) :=
      transport_by_hash transport scope CHECKPOINT_SCHEMA_VERSION hash in
    (transport, let? remote := map_err transport_error remote in Ok (ByHashResponse remote))
  | CheckpointPageRequest after limit =>
    let '(transport, page) :=
      transport_checkpoints transport scope CHECKPOINT_SCHEMA_VERSION after limit in
    (transport, let? page := map_err transport_error page in Ok (PageResponse page))
  | CheckpointPush checkpoint =>
    let '(transport, receipt) :=
      transport_publish transport scope CHECKPOINT_SCHEMA_VERSION checkpoint in
    (transport, let? receipt := map_err transport_error receipt in Ok (PushResponse receipt))
  end.

(** The loop of [sync_once_with_checkpoint]; [None] is a loop that has not ended yet. *)
Fixpoint checkpoint_loop (fuel : nat) (self : SyncEngine) v (transport : T)
    (progress : CheckpointProgress) (trusted_material : M) (now_ms : N)
    (context : CheckpointBuildContext)
    : Vault E * T * option (result SyncCycleError SyncCycleReport) :=
  match progress with
  | CheckpointComplete report => (v, transport, Some (Ok report))
  | CheckpointRequested prepared =>
    match fuel with
    | O => (v, transport, None)
    | S fuel =>
      match serve_checkpoint self transport (pc_request prepared) with
      | (transport, Err e) => (v, transport, Some (Err e))
      | (transport, Ok response) =>
        match finish_checkpoint self v prepared response trusted_material now_ms context with
        | (v, Err e) => (v, transport, Some (Err e))
        | (v, Ok progress) =>
            checkpoint_loop fuel self v transport progress trusted_material now_ms context
        end
      end
    end
  end.

(** [report.checkpointed |= ...; report.more_work |= ...]. *)
Definition add_checkpoint_report (report checkpoints : SyncCycleReport) : SyncCycleReport := {|
  rep_pushed := rep_pushed report; rep_duplicates := rep_duplicates report;
  rep_pulled := rep_pulled report; rep_applied := rep_applied report;
  rep_conflicts := rep_conflicts report; rep_quarantined := rep_quarantined report;
  rep_gaps_repaired := rep_gaps_repaired report;
  rep_checkpointed := rep_checkpointed report || rep_checkpointed checkpoints;
  rep_more_work := rep_more_work report || rep_more_work checkpoints |}.

Definition with_records (vault : PullVault (Vault E)) v : PullVault (Vault E) :=
  {| pv_records := v; pv_receipts := pv_receipts vault |}.

Definition sync_once_with_checkpoint (fuel : nat) (self : SyncEngine)
    (s : CycleState (Vault E) T) (trusted_material : M) (now_ms : N)
    (context : CheckpointBuildContext)
    : CycleState (Vault E) T * option (result SyncCycleError SyncCycleReport) :=
  if negb (bool_decide (cbc_scope context = eng_scope self)) then (s, Some (Err misconfigured)) else
  match sync_once fuel self s trusted_material now_ms with
  | (s, None) => (s, None)
  | (s, Some (Err e)) => (s, Some (Err e))
  | (s, Some (Ok report)) =>
    let v := pv_records (cy_vault s) in
    match prepare_checkpoint self v with
    | Err e => (s, Some (Err e))
    | Ok progress =>
      let '(v, transport, r) :=
        checkpoint_loop fuel self v (cy_transport s) progress trusted_material now_ms context in
      ({| cy_vault := with_records (cy_vault s) v; cy_transport := transport |},
       (fun r => let? checkpoints := r in Ok (add_checkpoint_report report checkpoints)) <$> r)
    end
  end.

End engine.

#[export] Instance memory_checkpoints `{UuidCrate} `{Minicbor} `{Primitives} :
  CheckpointTransport InMemoryTransport := {|
  transport_by_hash t scope version hash := (t, checkpoint_by_hash t scope version hash);
  transport_checkpoints t scope version after limit :=
    (t, pull_checkpoints t scope version after limit);
  transport_publish t scope version checkpoint := push_checkpoint t scope version checkpoint |}.
