(* ===== verification/CheckpointFacts.v ===== *)
(** * What the checkpoint exchange keeps

    The checkpoint tables of a vault under the exchange of [CheckpointEngine]: pins and
    scans always load, a pin only moves forward along a hash chain of signed
    checkpoints, and only to one that states the vault's own state; the exchange ends. *)

From S2P Require Import Prelude Ordering BTree Text Protocol Minicbor CanonicalCbor Domain.
From S2P Require Import SyncPayload Crypto Operation Causal Merge Transport StateSummary.
From S2P Require Import Admission Checkpoint MemoryTransport Outbox EnginePush Receipts EnginePull.
From S2P Require Import SyncCycle VaultTables RecordStore VaultSteps VaultInvariant.
From S2P Require Import VaultCheckpoints ReplicaRuns VaultSync CheckpointEngine.

#[local] Open Scope N_scope.

Lemma vault_scope_key_inj a b : scope_key a = scope_key b -> a = b.
Proof. destruct a, b. cbn. by intros [= -> ->]. Qed.

Definition pin_hash (c : CheckpointTables) (scope : SyncScope) : Sha256Digest :=
  default zero_digest (ct_pins c !! scope_key scope).

Definition scan_at (c : CheckpointTables) (scope : SyncScope) (provider : string)
    : option CheckpointScanRow := ct_scans c !! scope_key scope ≫= (.!! provider).

Section facts.
Context `{UuidCrate} `{MinicborLaws} `{RecordJson} `{PrimitivesLaws} `{MembershipHistory}.
Context {E M : Type} `{!TrustedSyncMaterial M} `{!HistoricalRead M} `{!EmbeddingResolver E}.
Implicit Type v : Vault E.

(** ** The invariant *)

(** A signed checkpoint of the scope with hash [h'] that names [h] as its predecessor. *)
Definition links (scope : SyncScope) (h h' : Sha256Digest) : Prop :=
  exists (c : CanonicalCheckpoint) (m : M), genuine scope c m
    /\ cp_previous_checkpoint_hash (cc_checkpoint c) = h /\ cc_canonical_hash c = h'.

(** A scan row holds a signed checkpoint that ends a chain from genesis, and from the
    pin once that was seen. *)
Definition row_ok (scope : SyncScope) (row : CheckpointScanRow) : Prop :=
  (exists (c : CanonicalCheckpoint) (m : M), genuine scope c m
     /\ cc_canonical_hash c = scr_canonical_sha256 row /\ cc_bytes c = scr_canonical_payload row)
  /\ validate_received_at (scr_received_at row) = Ok tt
  /\ rtc (links scope) zero_digest (scr_canonical_sha256 row)
  /\ (scr_pin_seen row = true ->
      rtc (links scope) (default zero_digest (scr_base_pin_sha256 row)) (scr_canonical_sha256 row)).

(** A pin names a stored signed checkpoint that ends a chain from genesis. *)
Definition pin_ok (c : CheckpointTables) (scope : SyncScope) (h : Sha256Digest) : Prop :=
  (exists (cp : CanonicalCheckpoint) (m : M) row, genuine scope cp m /\ cc_canonical_hash cp = h
     /\ ct_signed c !! (scope_key scope, h) = Some row
     /\ sgn_canonical_payload row = cc_bytes cp /\ sgn_state_hash row = cc_state_hash cp)
  /\ rtc (links scope) zero_digest h.

Record checkpoint_inv (c : CheckpointTables) : Prop := {
  ci_pin : forall scope h, ct_pins c !! scope_key scope = Some h -> pin_ok c scope h;
  ci_scan : forall scope provider row, scan_at c scope provider = Some row -> row_ok scope row;
}.

Lemma genuine_decodes scope (c : CanonicalCheckpoint) (m : M) :
  genuine scope c m ->
  decode_checkpoint_v1 (cc_bytes c) = Ok (cc_checkpoint c)
  /\ encode_checkpoint_v1 (cc_checkpoint c) = Ok (cc_bytes c)
  /\ cc_canonical_hash c = sha256 (cc_bytes c)
  /\ cc_state_hash c = cp_state_hash (cc_checkpoint c)
  /\ from_checkpoint (cc_checkpoint c) = Ok c
  /\ cp_account_id (cc_checkpoint c) = scope_account_id scope
  /\ cp_workspace_id (cc_checkpoint c) = scope_workspace_id scope.
Proof.
  intros (Hw & Hf & _ & Ha & Hws & _). pose proof Hf as [He Ec]%from_checkpoint_Ok.
  split_and!; try done; [by apply decode_checkpoint_v1_Ok|by rewrite Ec|by rewrite Ec].
Qed.

(** ** Loading *)

Lemma load_pin_hash c scope pin :
  load_checkpoint_pin c scope = Ok pin -> pin_canonical_hash <$> pin = ct_pins c !! scope_key scope.
Proof.
  unfold load_checkpoint_pin. destruct (ct_pins c !! scope_key scope) as [h|]; [|by intros [= <-]].
  intros Hp. res_inv. by subst pin.
Qed.

Lemma load_pin_total c scope :
  checkpoint_inv c -> exists pin, load_checkpoint_pin c scope = Ok pin.
Proof.
  intros Hi. unfold load_checkpoint_pin.
  destruct (ct_pins c !! scope_key scope) as [h|] eqn:Eh; [|eauto].
  destruct (ci_pin _ Hi _ _ Eh) as [(cp & m & row & Hg & <- & Hr & Hp & Hs) _].
  apply genuine_decodes in Hg as (Hd & He & Hh & Hst & _). rewrite Hr. cbn [ok_or rbind].
  rewrite Hp, Hd. cbn [map_err rbind]. rewrite He. cbn [map_err rbind].
  rewrite Hs, Hst, Hh, !bool_decide_eq_true_2 by done. eauto.
Qed.

(** The scan a row stands for. *)
Definition scan_of_row (scope : SyncScope) (provider : string) (row : CheckpointScanRow)
    (c : CanonicalCheckpoint) : StoredCheckpointScan := {|
  scan_scope := scope; scan_provider := provider;
  scan_cursor := {| ccur_received_at := scr_received_at row;
                    ccur_canonical_hash := scr_canonical_sha256 row |};
  scan_checkpoint := c; scan_base_pin_hash := scr_base_pin_sha256 row;
  scan_pin_seen := scr_pin_seen row |}.

Lemma load_scan_Ok c scope provider scan :
  load_checkpoint_scan c scope provider = Ok scan ->
  match scan_at c scope provider with
  | None => scan = None
  | Some row => exists cp, scan = Some (scan_of_row scope provider row cp)
      /\ cc_canonical_hash cp = scr_canonical_sha256 row
  end.
Proof.
  unfold load_checkpoint_scan, scan_at. destruct (_ ≫= _) as [row|]; [|by intros [= <-]].
  intros Hs. apply rbind_unit_Ok in Hs as [_ Hs]. res_inv. wf_inv. subst scan. eauto.
Qed.

Lemma load_scan_total c scope provider :
  checkpoint_inv c -> exists scan, load_checkpoint_scan c scope provider = Ok scan.
Proof.
  intros Hi. unfold load_checkpoint_scan. pose proof (ci_scan _ Hi scope provider) as Hs.
  unfold scan_at in Hs. destruct (_ ≫= _) as [row|]; [|eauto].
  destruct (Hs row eq_refl) as ((cp & m & Hg & Hh & Hb) & Hr & _). rewrite Hr. cbn [rbind].
  apply genuine_decodes in Hg as (Hd & _ & _ & _ & Hf & Ha & Hw). rewrite <- Hb, Hd.
  cbn [map_err rbind]. rewrite Hf. cbn [map_err rbind].
  rewrite Hh, Ha, Hw, !bool_decide_eq_true_2 by done. eauto.
Qed.

(** ** Accepting *)

(** What an accepted checkpoint did to the tables. *)
Record accepted (v : Vault E) (scope : SyncScope) (cp : CanonicalCheckpoint) (v' : Vault E) : Prop := {
  at_matches : matches_local (M := M) v scope cp;
  at_tables : exists schedule, va_tables v' = set_schedule (va_tables v) schedule;
  at_signed : ct_signed (va_checkpoints v) ⊆ ct_signed (va_checkpoints v')
    /\ exists row, ct_signed (va_checkpoints v') !! (scope_key scope, cc_canonical_hash cp) = Some row
       /\ sgn_canonical_payload row = cc_bytes cp
       /\ sgn_state_hash row = cp_state_hash (cc_checkpoint cp);
  at_pins : ct_pins (va_checkpoints v')
    = <[scope_key scope := cc_canonical_hash cp]> (ct_pins (va_checkpoints v));
  at_scans : forall s provider row, scan_at (va_checkpoints v') s provider = Some row ->
    scan_at (va_checkpoints v) s provider = Some row;
}.

Lemma store_signed_Ok c scope h row c' :
  store_signed c scope h row = Ok c' ->
  ct_pins c' = ct_pins c /\ ct_scans c' = ct_scans c /\ ct_signed c ⊆ ct_signed c'
  /\ exists row', ct_signed c' !! (scope_key scope, h) = Some row'
     /\ sgn_canonical_payload row' = sgn_canonical_payload row
     /\ sgn_state_hash row' = sgn_state_hash row.
Proof.
  unfold store_signed. destruct (ct_signed c !! _) as [found|] eqn:Ef; intros Hs.
  - res_inv. wf_inv. subst c'. eauto 10.
  - apply rbind_unit_Ok in Hs as [_ [= <-]]. cbn. split_and!; [done|done|by apply insert_subseteq|].
    exists row. by rewrite lookup_insert_eq.
Qed.

Lemma check_signed_checkpoint_Ok v verified decoded :
  check_signed_checkpoint (va_tables v) verified = Ok decoded ->
  decoded = cc_checkpoint (vc_checkpoint verified)
  /\ matches_local (M := M) v (vc_scope verified) (vc_checkpoint verified).
Proof.
  unfold check_signed_checkpoint. intros Hc. res_inv. wf_inv. subst decoded.
  match goal with E : _ = cc_checkpoint _ |- _ => rewrite E in * end. split; [done|].
  split; [cbn; congruence|]. eexists. split; [done|congruence].
Qed.

Lemma move_pin_scans c scope h s provider row :
  scan_at (move_pin c scope h) s provider = Some row -> scan_at c s provider = Some row.
Proof.
  unfold scan_at, move_pin. cbn. destruct (decide (scope_key scope = scope_key s)) as [->|Hne].
  - rewrite lookup_alter_eq. destruct (ct_scans c !! scope_key s) as [rows|]; [|done]. cbn.
    by intros [? _]%map_lookup_filter_Some.
  - by rewrite lookup_alter_ne.
Qed.

Lemma accept_in_transaction_Ok v verified ms v' d :
  accept_sync_checkpoint_in_transaction v verified ms = Ok (v', d) ->
  let scope := vc_scope verified in
  accepted v scope (vc_checkpoint verified) v'
  /\ (ct_pins (va_checkpoints v) !! scope_key scope = vc_expected_pin_hash verified
      \/ ct_pins (va_checkpoints v) !! scope_key scope
         = Some (cc_canonical_hash (vc_checkpoint verified))).
Proof.
  intros Ha scope. unfold accept_sync_checkpoint_in_transaction in Ha.
  apply rbind_Ok in Ha as (membership & _ & Ha). apply rbind_Ok in Ha as (ms' & _ & Ha).
  apply rbind_unit_Ok in Ha as [_ Ha].
  apply rbind_Ok in Ha as (decoded & [-> Hm]%check_signed_checkpoint_Ok & Ha).
  apply rbind_Ok in Ha as (pin & Hp%load_pin_hash & Ha). apply rbind_unit_Ok in Ha as [Hpin Ha].
  apply rbind_Ok in Ha as (c & Hs & Ha). injection Ha as <- _.
  apply store_signed_Ok in Hs as (Ep & Es & Hsub & row & Hr & Hb & Hst). split.
  - split; cbn [va_tables va_checkpoints move_pin ct_pins ct_signed]; [done|eauto|eauto| |].
    + by rewrite Ep.
    + intros s provider row' Hrow%move_pin_scans. unfold scan_at in *. by rewrite Es in Hrow.
  - fold scope in Hp. rewrite <- Hp. destruct pin as [pin|]; cbn in Hpin |- *.
    + case_bool_decide as Eh; [by right|]. left. res_inv. by wf_inv.
    + left. res_inv. by wf_inv.
Qed.

(** An accepted checkpoint that ends a chain from the pin keeps the invariant. *)
Lemma accepted_inv v scope cp v' (m : M) :
  accepted v scope cp v' -> genuine scope cp m ->
  rtc (links scope) (pin_hash (va_checkpoints v) scope) (cc_canonical_hash cp) ->
  checkpoint_inv (va_checkpoints v) -> checkpoint_inv (va_checkpoints v').
Proof.
  intros [_ _ [Hsub (row & Hr & Hb & Hst)] Hpins Hscans] Hg Hc Hi. split.
  - intros s h. rewrite Hpins. destruct (decide (scope_key scope = scope_key s)) as [Ek|Hne].
    + rewrite Ek, lookup_insert_eq. intros [= <-]. apply vault_scope_key_inj in Ek as <-. split.
      * exists cp, m, row. pose proof (genuine_decodes _ _ _ Hg) as (_ & _ & _ & Hsh & _).
        split_and!; try done. by rewrite Hsh.
      * etrans; [|exact Hc]. unfold pin_hash.
        destruct (ct_pins (va_checkpoints v) !! scope_key scope) as [h|] eqn:Eh; [|done].
        by destruct (ci_pin _ Hi _ _ Eh).
    + rewrite lookup_insert_ne by done. intros [(cp' & m' & row' & ? & ? & Hr' & ? & ?) ?]%(ci_pin _ Hi).
      split; [|done]. exists cp', m', row'. split_and!; try done. by eapply lookup_weaken.
  - intros s provider row' Hrow%Hscans. by eapply ci_scan.
Qed.

(** ** What was accepted is pinned *)

Definition pin_of (scope : SyncScope) (cp : CanonicalCheckpoint) (at_ms : N) : StoredCheckpointPin := {|
  pin_scope := scope; pin_canonical_hash := cc_canonical_hash cp;
  pin_state_hash := cp_state_hash (cc_checkpoint cp); pin_canonical_bytes := cc_bytes cp;
  pin_accepted_at_ms := at_ms |}.

Lemma load_pin_stored c scope cp row (m : M) :
  genuine scope cp m -> ct_pins c !! scope_key scope = Some (cc_canonical_hash cp) ->
  ct_signed c !! (scope_key scope, cc_canonical_hash cp) = Some row ->
  sgn_canonical_payload row = cc_bytes cp -> sgn_state_hash row = cp_state_hash (cc_checkpoint cp) ->
  load_checkpoint_pin c scope = Ok (Some (pin_of scope cp (sgn_accepted_at_ms row))).
Proof.
  intros (Hd & He & Hh & _)%genuine_decodes Hp Hr Hb Hst. unfold load_checkpoint_pin.
  rewrite Hp, Hr. cbn [ok_or rbind]. rewrite Hb, Hd. cbn [map_err rbind]. rewrite He. cbn [map_err rbind].
  rewrite Hst, <- Hh, !bool_decide_eq_true_2 by done. done.
Qed.

Lemma move_pin_again c scope h : move_pin (move_pin c scope h) scope h = move_pin c scope h.
Proof.
  unfold move_pin. cbn. f_equal; [apply insert_insert_eq|].
  apply map_eq. intros k. destruct (decide (k = scope_key scope)) as [->|Hne];
    [|by rewrite !lookup_alter_ne by done].
  rewrite !lookup_alter_eq. destruct (ct_scans c !! scope_key scope) as [rows|]; [|done]. cbn. f_equal.
  apply map_eq. intros p. apply option_eq. intros row.
  rewrite !map_lookup_filter_Some. naive_solver.
Qed.

(** An accepted checkpoint is the pin, nothing is due, and accepting it again changes
    nothing. *)
Lemma accept_in_transaction_pins v verified ms v' d (m : M) :
  accept_sync_checkpoint_in_transaction v verified ms = Ok (v', d) ->
  genuine (vc_scope verified) (vc_checkpoint verified) m ->
  (exists at_ms, load_checkpoint_pin (va_checkpoints v') (vc_scope verified)
     = Ok (Some (pin_of (vc_scope verified) (vc_checkpoint verified) at_ms)))
  /\ (exists schedule, load_checkpoint_schedule (vt_schedule (va_tables v')) (vc_scope verified) = Ok schedule
       /\ forall now, schedule_is_due schedule now = false)
  /\ accept_sync_checkpoint_in_transaction v' verified ms = Ok (v', CheckpointExactReplay).
Proof.
  intros Ha Hg. unfold accept_sync_checkpoint_in_transaction in Ha.
  apply rbind_Ok in Ha as (membership & Hmem & Ha). apply rbind_Ok in Ha as (ms' & Hms & Ha).
  apply rbind_unit_Ok in Ha as [Hcm Ha]. apply rbind_Ok in Ha as (decoded & Hcs & Ha).
  pose proof Hcs as [-> _]%check_signed_checkpoint_Ok.
  apply rbind_Ok in Ha as (pin & _ & Ha). apply rbind_unit_Ok in Ha as [_ Ha].
  apply rbind_Ok in Ha as (c & Hs & Ha). injection Ha as <- _.
  apply store_signed_Ok in Hs as (_ & _ & _ & row & Hr & Hb & Hst). cbn [sgn_canonical_payload sgn_state_hash] in *.
  set (scope := vc_scope verified) in *. set (cp := vc_checkpoint verified) in *.
  assert (Hpin : load_checkpoint_pin (move_pin c scope (cc_canonical_hash cp)) scope
    = Ok (Some (pin_of scope cp (sgn_accepted_at_ms row)))).
  { eapply load_pin_stored; [done|apply lookup_insert_eq|done..]. }
  cbn [va_checkpoints va_tables]. split_and!; [eauto| |].
  - eexists. unfold load_checkpoint_schedule, set_schedule, reset_schedule. cbn.
    rewrite lookup_insert_eq. split; [done|by intros now].
  - unfold accept_sync_checkpoint_in_transaction. fold scope cp. rewrite Hmem. cbn [rbind].
    rewrite Hms. cbn [rbind]. rewrite Hcm. cbn [rbind va_tables va_checkpoints].
    change (check_signed_checkpoint (set_schedule (va_tables v) _) verified)
      with (check_signed_checkpoint (va_tables v) verified). rewrite Hcs. cbn [rbind].
    rewrite Hpin. cbn [rbind pin_canonical_bytes pin_state_hash pin_canonical_hash pin_of fmap option_fmap option_map].
    rewrite !bool_decide_eq_true_2 by done. cbn [negb orb rbind]. unfold store_signed.
    cbn [ct_signed move_pin]. rewrite Hr. cbn [sgn_canonical_payload sgn_state_hash].
    rewrite Hb, Hst, !bool_decide_eq_true_2 by done. cbn [negb orb rbind].
    rewrite (move_pin_again c). unfold set_schedule, reset_schedule. cbn. by rewrite insert_insert_eq.
Qed.

(** ** Progress of the tables *)

(** Vaults before and after some of an exchange: the tables but the schedule are the
    same, pins move along chains, and the pin of the scope moves to its own state. *)
Record advances (m : M) (scope : SyncScope) (v v' : Vault E) : Prop := {
  ad_tables : exists schedule, va_tables v' = set_schedule (va_tables v) schedule;
  ad_chain : forall s, rtc (links s) (pin_hash (va_checkpoints v) s) (pin_hash (va_checkpoints v') s);
  ad_pin : ct_pins (va_checkpoints v') = ct_pins (va_checkpoints v)
    \/ exists cp, ct_pins (va_checkpoints v')
         = <[scope_key scope := cc_canonical_hash cp]> (ct_pins (va_checkpoints v))
       /\ genuine scope cp m /\ matches_local (M := M) v' scope cp;
}.

Lemma same_tables_matches v v' scope cp :
  (exists schedule, va_tables v' = set_schedule (va_tables v) schedule) ->
  matches_local (M := M) v scope cp -> matches_local (M := M) v' scope cp.
Proof.
  intros [schedule Et] [Hf (summary & Hs & Hh)]. unfold matches_local.
  cbn [sync_checkpoint_frontier sync_state_summary vault_sync] in *. rewrite Et.
  split; [exact Hf|]. exists summary. split; [exact Hs|exact Hh].
Qed.

#[global] Instance advances_preorder m scope : PreOrder (advances m scope).
Proof.
  split.
  - intros v. split; [|by intros s|by left]. exists (vt_schedule (va_tables v)).
    by destruct (va_tables v).
  - intros v1 v2 v3 [[s1 T1] C1 P1] [[s2 T2] C2 P2]. split.
    + exists s2. rewrite T2, T1. done.
    + intros s. etrans; [apply C1|apply C2].
    + destruct P2 as [P2|(cp & P2 & Hg & Hm)].
      * rewrite P2. destruct P1 as [P1|(cp & P1 & Hg & Hm)]; [by left|]. right. exists cp.
        split_and!; [done|done|]. eapply same_tables_matches; eauto.
      * right. exists cp. split_and!; [|done|done]. rewrite P2.
        destruct P1 as [->|(cp1 & -> & _)]; [done|]. by rewrite insert_insert_eq.
Qed.

Lemma accepted_advances v scope cp v' (m : M) :
  accepted v scope cp v' -> genuine scope cp m ->
  rtc (links scope) (pin_hash (va_checkpoints v) scope) (cc_canonical_hash cp) ->
  advances m scope v v'.
Proof.
  intros [Hm Ht _ Hpins _] Hg Hc. split; [done| |].
  - intros s. unfold pin_hash at 2. rewrite Hpins.
    destruct (decide (scope_key scope = scope_key s)) as [Ek|Hne].
    + rewrite Ek, lookup_insert_eq. by apply vault_scope_key_inj in Ek as <-.
    + by rewrite lookup_insert_ne.
  - right. exists cp. split_and!; [done|done|]. by eapply same_tables_matches.
Qed.

Lemma advances_unmoved (m : M) scope v v' :
  va_tables v' = va_tables v -> ct_pins (va_checkpoints v') = ct_pins (va_checkpoints v) ->
  advances m scope v v'.
Proof.
  intros Et Ep. split; [| |by left].
  - exists (vt_schedule (va_tables v)). rewrite Et. by destruct (va_tables v).
  - intros s. unfold pin_hash. by rewrite Ep.
Qed.

(** ** Scanning *)

Lemma verify_checkpoint_link_Ok scope received previous (m : M) ac :
  verify_checkpoint_link scope received previous m = Ok ac ->
  ac = {| ac_scope := scope; ac_checkpoint := received |} /\ genuine scope received m
  /\ cp_previous_checkpoint_hash (cc_checkpoint received) = previous.
Proof.
  unfold verify_checkpoint_link. intros Hv.
  apply rbind_Ok in Hv as (ac' & [-> Hg]%authenticate_checkpoint_Ok & Hv). res_inv. by wf_inv.
Qed.

Lemma scan_at_set c scope provider row s q :
  scan_at (set_scan c scope provider row) s q
  = if bool_decide (scope_key scope = scope_key s /\ provider = q) then Some row else scan_at c s q.
Proof.
  unfold scan_at, set_scan. cbn. case_bool_decide as Ek.
  - destruct Ek as [-> ->]. rewrite lookup_insert_eq. cbn. by rewrite lookup_insert_eq.
  - destruct (decide (scope_key scope = scope_key s)) as [Es|Hne]; [|by rewrite lookup_insert_ne].
    rewrite Es, lookup_insert_eq. cbn. rewrite lookup_insert_ne by (intros Eq; by apply Ek).
    by destruct (ct_scans c !! scope_key s).
Qed.

Lemma set_scan_inv c scope provider row :
  checkpoint_inv c -> row_ok scope row -> checkpoint_inv (set_scan c scope provider row).
Proof.
  intros Hi Hr. split; [apply Hi|]. intros s q row'. rewrite scan_at_set.
  case_bool_decide as Ek; [|by apply ci_scan].
  destruct Ek as [<-%vault_scope_key_inj _]. by intros [= <-].
Qed.

(** The scan the loop continues: its last hash, and whether the pin was seen. *)
Definition scan_found (initial : option StoredCheckpointPin) (scan : option StoredCheckpointScan)
    : bool :=
  match scan with Some scan => scan_pin_seen scan | None => bool_decide (initial = None) end.
Definition scan_previous (scan : option StoredCheckpointScan) : Sha256Digest :=
  match scan with Some scan => cc_canonical_hash (scan_checkpoint scan) | None => zero_digest end.

Lemma engine_scan_Ok self v scan :
  engine_scan self v = Ok scan ->
  validate_sync_provider_v1 (provider_as_str (eng_provider self)) = Ok tt
  /\ load_checkpoint_scan (va_checkpoints v) (eng_scope self) (provider_as_str (eng_provider self))
     = Ok scan.
Proof.
  unfold engine_scan, sync_checkpoint_scan. intros Hs%map_err_Ok.
  by apply rbind_unit_Ok in Hs as [? ?].
Qed.

(** A loaded scan ends a chain from genesis, and from its base once that was seen. *)
Lemma loaded_scan_links c scope provider s :
  checkpoint_inv c -> load_checkpoint_scan c scope provider = Ok (Some s) ->
  rtc (links scope) zero_digest (cc_canonical_hash (scan_checkpoint s))
  /\ (scan_pin_seen s = true -> rtc (links scope) (default zero_digest (scan_base_pin_hash s))
        (cc_canonical_hash (scan_checkpoint s))).
Proof.
  intros Hi Hs%load_scan_Ok. pose proof (ci_scan _ Hi scope provider) as Hr.
  destruct (scan_at c scope provider) as [row|]; [|done]. destruct Hs as (cp & [= ->] & Hh).
  destruct (Hr row eq_refl) as (_ & _ & Hz & Hb). cbn. by rewrite Hh.
Qed.

Lemma save_scan_Ok v scope provider cursor (c : CanonicalCheckpoint) base seen v' :
  save_sync_checkpoint_scan v scope provider cursor
    {| ac_scope := scope; ac_checkpoint := c |} base seen = Ok v' ->
  exists existing, load_checkpoint_scan (va_checkpoints v) scope provider = Ok existing
  /\ match existing with
     | Some s => scan_base_pin_hash s = base
                 /\ cp_previous_checkpoint_hash (cc_checkpoint c)
                    = cc_canonical_hash (scan_checkpoint s)
     | None => cp_previous_checkpoint_hash (cc_checkpoint c) = zero_digest
     end
  /\ validate_received_at (ccur_received_at cursor) = Ok tt
  /\ v' = with_checkpoints v (set_scan (va_checkpoints v) scope provider {|
        scr_received_at := ccur_received_at cursor; scr_canonical_sha256 := cc_canonical_hash c;
        scr_canonical_payload := cc_bytes c; scr_base_pin_sha256 := base; scr_pin_seen := seen |}).
Proof.
  unfold save_sync_checkpoint_scan. cbn [ac_checkpoint ac_scope]. intros Hs.
  apply rbind_unit_Ok in Hs as [_ Hs]. apply rbind_unit_Ok in Hs as [Hr Hs]. res_inv. wf_inv.
  match goal with E : ccur_canonical_hash cursor = _ |- _ => rewrite E in * end.
  exists x. split; [done|]. split; [|by split].
  match goal with E : check_scan_chain _ _ _ _ _ _ = Ok _ |- _ => rename E into Hch end.
  destruct x as [s|]; cbn in Hch; res_inv; by wf_inv.
Qed.

Lemma scan_row_keeps self v state scan row (m : M) v' found :
  checkpoint_inv (va_checkpoints v) -> engine_scan self v = Ok scan ->
  scan_row self v state (scan_previous scan) (scan_found (ck_initial_pin state) scan) row m
    = Ok (v', found) ->
  checkpoint_inv (va_checkpoints v') /\ va_tables v' = va_tables v
  /\ ct_pins (va_checkpoints v') = ct_pins (va_checkpoints v)
  /\ exists s, engine_scan self v' = Ok (Some s) /\ scan_pin_seen s = found
     /\ cc_canonical_hash (scan_checkpoint s) = cc_canonical_hash (rc_checkpoint row).
Proof.
  intros Hi [Hpr Hs]%engine_scan_Ok Hrow. unfold scan_row in Hrow.
  apply rbind_unit_Ok in Hrow as [_ Hrow].
  apply rbind_Ok in Hrow as (ac & (-> & Hg & Hprev)%map_err_Ok%verify_checkpoint_link_Ok & Hrow).
  apply rbind_Ok in Hrow as (found' & Hfound & Hrow).
  apply rbind_Ok in Hrow as (v1 & Hsave%map_err_Ok%save_scan_Ok & [= <- <-]).
  destruct Hsave as (existing & Hex & Hbase & Hrcv & ->). rewrite Hs in Hex. injection Hex as <-.
  set (base := pin_canonical_hash <$> ck_initial_pin state) in *.
  set (h := cc_canonical_hash (rc_checkpoint row)) in *.
  assert (Hl : links (eng_scope self) (scan_previous scan) h) by (by exists (rc_checkpoint row), m).
  assert (Hr : row_ok (eng_scope self) {| scr_received_at := ccur_received_at (rc_cursor row);
      scr_canonical_sha256 := h; scr_canonical_payload := cc_bytes (rc_checkpoint row);
      scr_base_pin_sha256 := base; scr_pin_seen := found' |}).
  { split_and!; [by exists (rc_checkpoint row), m|done| |]; cbn.
    - eapply rtc_r; [|exact Hl]. destruct scan as [s|]; [|done]. by eapply loaded_scan_links.
    - intros ->. destruct (decide (Some h = base)) as [<-|Hne]; [done|].
      assert (Hf : scan_found (ck_initial_pin state) scan = true).
      { unfold base in Hne. destruct (ck_initial_pin state) as [pin|]; [|by injection Hfound as ->].
        cbn in Hne. destruct (bool_decide (_ = pin_canonical_hash pin)) eqn:Eb; [|by injection Hfound as ->].
        apply bool_decide_eq_true in Eb. fold h in Eb. rewrite Eb in Hne. done. }
      eapply rtc_r; [|exact Hl]. destruct scan as [s|]; cbn in Hf, Hbase |- *.
      + destruct Hbase as [<- _]. by eapply loaded_scan_links.
      + apply bool_decide_eq_true in Hf. unfold base. by rewrite Hf. }
  pose proof (set_scan_inv _ _ (provider_as_str (eng_provider self)) _ Hi Hr) as Hi'.
  cbn [with_checkpoints va_checkpoints va_tables]. split_and!; [done..|].
  destruct (load_scan_total _ (eng_scope self) (provider_as_str (eng_provider self)) Hi')
    as [scan' Hs'].
  pose proof Hs' as Hx%load_scan_Ok. rewrite scan_at_set, bool_decide_eq_true_2 in Hx by done.
  destruct Hx as (cp & -> & Hh). eexists. unfold engine_scan, sync_checkpoint_scan.
  rewrite Hpr. cbn [rbind with_checkpoints va_checkpoints]. by rewrite Hs'.
Qed.

Lemma scan_rows_keeps self v state scan rows (m : M) :
  checkpoint_inv (va_checkpoints v) -> engine_scan self v = Ok scan ->
  let v' := (scan_rows self v state (scan_previous scan) (scan_found (ck_initial_pin state) scan)
               rows m).1 in
  checkpoint_inv (va_checkpoints v') /\ va_tables v' = va_tables v
  /\ ct_pins (va_checkpoints v') = ct_pins (va_checkpoints v).
Proof.
  revert v state scan. induction rows as [|row rest IH]; intros v state scan Hi Hs; cbn [scan_rows]; [done|].
  destruct (scan_row _ _ _ _ _ _ _) as [[v1 found]|e] eqn:Er; [|done].
  eapply scan_row_keeps in Er as (Hi1 & Et & Ep & s & Hs1 & <- & Eh); [|done..].
  destruct (IH v1 (with_scanned state (saturating_add usize_max (ck_scanned state) 1)) (Some s) Hi1 Hs1)
    as (Hi2 & Et2 & Ep2).
  cbn [scan_previous scan_found] in *. rewrite <- Eh. split_and!; [done|congruence|congruence].
Qed.

(** ** Accepting *)

Lemma rebase_scan_Ok c scope provider (cp : CanonicalCheckpoint) c' :
  rebase_scan c scope provider (cc_canonical_hash cp) = Ok c' ->
  checkpoint_inv c -> checkpoint_inv c' /\ ct_pins c' = ct_pins c.
Proof.
  unfold rebase_scan. intros Hr Hi. pose proof (ci_scan _ Hi scope provider) as Hrow.
  unfold scan_at in Hrow. destruct (_ ≫= _) as [row|]; [|done].
  case_bool_decide as Eh; [|done]. injection Hr as <-. split; [|done]. apply set_scan_inv; [done|].
  destruct (Hrow row eq_refl) as (Hc & Hv & Hz & _). split_and!; try done. intros _. cbn.
  by rewrite Eh.
Qed.

(** The chain from the pin to what a seen scan ends in. *)
Lemma scan_extends_pin c scope provider s expected h :
  checkpoint_inv c -> load_checkpoint_scan c scope provider = Ok (Some s) ->
  scan_pin_seen s = true -> scan_base_pin_hash s = expected ->
  rtc (links scope) (cc_canonical_hash (scan_checkpoint s)) h ->
  ct_pins c !! scope_key scope = expected \/ ct_pins c !! scope_key scope = Some h ->
  rtc (links scope) (pin_hash c scope) h.
Proof.
  intros Hi Hs Hseen Hbase Hh Hp. unfold pin_hash. destruct Hp as [->| ->]; [|done].
  etrans; [|exact Hh]. rewrite <- Hbase. by eapply loaded_scan_links.
Qed.

Lemma accept_endpoint_keeps v verified ms provider (m : M) v' d :
  accept_sync_checkpoint_endpoint v verified ms provider = Ok (v', d) ->
  genuine (vc_scope verified) (vc_checkpoint verified) m ->
  checkpoint_inv (va_checkpoints v) ->
  checkpoint_inv (va_checkpoints v') /\ advances m (vc_scope verified) v v'.
Proof.
  unfold accept_sync_checkpoint_endpoint. intros Ha Hg Hi.
  apply rbind_unit_Ok in Ha as [_ Ha]. apply rbind_Ok in Ha as (scan & Hs & Ha).
  apply rbind_Ok in Ha as (s & ->%ok_or_Ok & Ha). destruct (_ || _) eqn:Ec in Ha; [done|]. wf_inv.
  apply rbind_Ok in Ha as ([v1 d1] & [Hacc Hpin]%accept_in_transaction_Ok & Ha).
  apply rbind_Ok in Ha as (c & Hr & [= <- _]).
  eapply scan_extends_pin in Hpin; [|done..|by match goal with E : scan_checkpoint s = _ |- _ => rewrite E end].
  pose proof (accepted_inv _ _ _ _ _ Hacc Hg Hpin Hi) as Hi1.
  apply rebase_scan_Ok in Hr as [Hi2 Ep]; [|done]. split; [done|].
  etrans; [by eapply accepted_advances|by apply advances_unmoved].
Qed.

Lemma accept_scanned_keeps self v state scan (m : M) now v' state' :
  accept_scanned self v state scan m now = Ok (v', state') -> checkpoint_inv (va_checkpoints v) ->
  checkpoint_inv (va_checkpoints v') /\ advances m (eng_scope self) v v'.
Proof.
  unfold accept_scanned. intros Ha Hi. apply rbind_Ok in Ha as ([anchor verified] & Hv%map_err_Ok & Ha).
  unfold verify_checkpoint_after_chain in Hv.
  apply rbind_Ok in Hv as (ac & [-> Hg]%authenticate_checkpoint_Ok & Hv).
  apply rbind_Ok in Hv as (current & _ & Hv). destruct (negb _) in Hv; [done|].
  apply rbind_Ok in Hv as (matches & _ & Hv). destruct (negb matches); injection Hv as <- <-.
  - by injection Ha as <- _.
  - apply rbind_Ok in Ha as ([v1 d] & Hacc%map_err_Ok & [= <- _]).
    by eapply (accept_endpoint_keeps _ _ _ _ m) in Hacc.
Qed.

Lemma chain_extension_keeps v (scope : SyncScope) cp anchor ms provider (m : M) verified v' d :
  verify_checkpoint_chain_extension v scope cp anchor m = Ok verified ->
  accept_sync_checkpoint_chain_extension v verified ms provider
    (cc_canonical_hash (anchor_checkpoint anchor)) = Ok (v', d) ->
  checkpoint_inv (va_checkpoints v) ->
  checkpoint_inv (va_checkpoints v') /\ advances m scope v v'.
Proof.
  unfold verify_checkpoint_chain_extension. intros Hv Ha Hi.
  destruct (_ || _) eqn:Ec in Hv; [done|]. apply orb_false_iff in Ec as [_ Ec]. wf_inv.
  apply rbind_Ok in Hv as (ac0 & _ & Hv).
  apply rbind_Ok in Hv as (ac & [-> Hg]%authenticate_checkpoint_Ok & Hv).
  apply rbind_unit_Ok in Hv as [_ Hv]. apply rbind_Ok in Hv as (current & _ & Hv).
  destruct (negb _) in Hv; [done|]. injection Hv as <-.
  unfold accept_sync_checkpoint_chain_extension in Ha. cbn [vc_scope vc_expected_pin_hash vc_checkpoint] in Ha.
  apply rbind_unit_Ok in Ha as [_ Ha]. apply rbind_Ok in Ha as (scan & Hs & Ha).
  apply rbind_Ok in Ha as (s & ->%ok_or_Ok & Ha). destruct (_ || _) eqn:Ec2 in Ha; [done|]. wf_inv.
  apply rbind_Ok in Ha as ([v1 d1] & [Hacc Hpin]%accept_in_transaction_Ok & Ha).
  apply rbind_Ok in Ha as (rest & _ & Ha). destruct (bool_decide _) in Ha; [done|]. injection Ha as <- _.
  cbn [vc_scope vc_expected_pin_hash vc_checkpoint ac_checkpoint] in *.
  assert (Hc : rtc (links scope) (pin_hash (va_checkpoints v) scope) (cc_canonical_hash cp)).
  { eapply scan_extends_pin; [done|done|done|done| |exact Hpin]. apply rtc_once. exists cp, m.
    split_and!; [done|congruence|done]. }
  split; [by eapply accepted_inv|by eapply accepted_advances].
Qed.

Lemma verified_accept_keeps v (scope : SyncScope) cp ms (m : M) verified v' d :
  verify_checkpoint v scope cp m = Ok verified ->
  accept_sync_checkpoint v verified ms = Ok (v', d) -> checkpoint_inv (va_checkpoints v) ->
  checkpoint_inv (va_checkpoints v') /\ advances m scope v v'.
Proof.
  intros (pin & Hp & Hg & _ & Hal & ->)%verify_checkpoint_Ok [Hacc _]%accept_in_transaction_Ok Hi.
  cbn [vc_scope vc_checkpoint] in *. cbn in Hp. apply load_pin_hash in Hp.
  assert (Hc : rtc (links scope) (pin_hash (va_checkpoints v) scope) (cc_canonical_hash cp)).
  { unfold pin_hash. rewrite <- Hp. destruct pin as [p|]; cbn in Hal |- *.
    - destruct Hal as [(-> & _)|[_ Hprev]]; [done|]. apply rtc_once. by exists cp, m.
    - apply rtc_once. by exists cp, m. }
  split; [by eapply accepted_inv|by eapply accepted_advances].
Qed.

Lemma finish_tail_keeps self v state (m : M) now v' progress :
  finish_tail self v state m now = Ok (v', progress) -> checkpoint_inv (va_checkpoints v) ->
  checkpoint_inv (va_checkpoints v') /\ advances m (eng_scope self) v v'.
Proof.
  unfold finish_tail. intros Hf Hi. apply rbind_Ok in Hf as (cp & _ & Hf).
  apply rbind_Ok in Hf as ([v1 d] & Ha & [= <- _]). destruct (ck_chain_anchor state) as [anchor|].
  - apply rbind_Ok in Ha as (verified & Hv%map_err_Ok & Ha%map_err_Ok). by eapply chain_extension_keeps.
  - apply rbind_Ok in Ha as (verified & Hv%map_err_Ok & Ha%map_err_Ok). by eapply verified_accept_keeps.
Qed.

(** ** The exchange *)

Lemma finish_checkpoint_keeps self v prepared response (m : M) now context :
  checkpoint_inv (va_checkpoints v) ->
  let v' := (finish_checkpoint self v prepared response m now context).1 in
  checkpoint_inv (va_checkpoints v') /\ advances m (eng_scope self) v v'.
Proof.
  intros Hi. assert (Hrefl : checkpoint_inv (va_checkpoints v) /\ advances m (eng_scope self) v v) by done.
  unfold finish_checkpoint. cbv zeta. destruct (_ || _); [done|].
  destruct (engine_pin self v) as [pin|e]; [|done]. cbn [rbind]. destruct (negb _); [done|].
  destruct (engine_scan self v) as [scan|e] eqn:Es; [|done]. cbn [rbind].
  destruct (negb _) eqn:En; [done|]. apply negb_false_iff, bool_decide_eq_true in En as <-.
  destruct (ck_phase _), (pc_request _) as [h|after limit|cp], response as [remote|page|receipt]; try done;
    unfold with_page; destruct (validate_checkpoint_page _ _ _ _); try done.
  - unfold finish_scan. cbv zeta. destruct (cpage_rows page) as [|row rest].
    + destruct (negb _); [done|]. destruct scan as [s|]; [|done].
      destruct (accept_scanned _ _ _ _ _ _) as [[v1 state]|e] eqn:Ea; [|done].
      by eapply accept_scanned_keeps.
    + destruct (scan_rows_keeps self v (pc_state prepared) scan (row :: rest) m Hi Es) as (Hi1 & Et & Ep).
      unfold scan_previous, scan_found in *.
      destruct (scan_rows _ _ _ _ _ _ _) as [v1 [state|e]]; cbn [fst] in *;
        (split; [done|by apply advances_unmoved]).
  - destruct (negb _); [done|].
    destruct (finish_tail _ _ _ _ _) as [[v1 progress]|e] eqn:Ef; [|done]. by eapply finish_tail_keeps.
Qed.

Context {T : Type} `{!PushTransport T} `{!PullTransport T} `{!CheckpointTransport T}.

Lemma checkpoint_loop_keeps self (m : M) now context fuel v (t : T) progress :
  checkpoint_inv (va_checkpoints v) ->
  let v' := (checkpoint_loop fuel self v t progress m now context).1.1 in
  checkpoint_inv (va_checkpoints v') /\ advances m (eng_scope self) v v'.
Proof.
  revert v t progress. induction fuel as [|fuel IH]; intros v t [prepared|report] Hi;
    cbn [checkpoint_loop]; try done.
  destruct (serve_checkpoint _ _ _) as [t' [response|e]]; [|done].
  pose proof (finish_checkpoint_keeps self v prepared response m now context Hi) as [Hi1 Ha1].
  destruct (finish_checkpoint _ _ _ _ _ _ _) as [v1 [progress|e]]; cbn [fst] in *; [|done].
  destruct (IH v1 t' progress Hi1) as [Hi2 Ha2]. split; [done|]. by etrans.
Qed.

(** ** The exchange ends *)

(** The requests a prepared one can still lead to, itself included. *)
Definition cost (self : SyncEngine) (progress : CheckpointProgress) : N :=
  match progress with
  | CheckpointComplete _ => 0
  | CheckpointRequested prepared =>
    let remaining := eng_max_operations self - ck_scanned (pc_state prepared) in
    match ck_phase (pc_state prepared) with
    | Lookup => 4 + remaining
    | Scan => 3 + N.max 1 remaining
    | Push => 3
    | Append => 2
    | Tail => 1
    end
  end.

Lemma request_checkpoint_Ok self v state request progress :
  request_checkpoint self v state request = Ok progress ->
  exists pin scan, progress = CheckpointRequested {| pc_state := state; pc_request := request;
    pc_expected_pin := pin; pc_expected_scan := scan |}.
Proof.
  unfold request_checkpoint. intros Hr. apply rbind_Ok in Hr as (pin & _ & Hr).
  apply rbind_Ok in Hr as (scan & _ & [= <-]). eauto.
Qed.

Lemma next_page_cost self v state progress :
  next_checkpoint_page self v state = Ok progress ->
  cost self progress <= 3 + (eng_max_operations self - ck_scanned state).
Proof.
  unfold next_checkpoint_page. intros Hn. apply rbind_Ok in Hn as (scan & _ & Hn).
  destruct (match scan with Some _ => _ | None => _ end) in Hn; [done|]. cbv zeta in Hn.
  destruct (_ =? 0) eqn:Er; [injection Hn as <-; cbn; lia|]. apply N.eqb_neq in Er.
  apply request_checkpoint_Ok in Hn as (pin & sc & ->). cbn. lia.
Qed.

Lemma publish_cost self v state (m : M) now context progress :
  publish self v state m now context = Ok progress -> cost self progress <= 3.
Proof.
  unfold publish. intros Hp. apply rbind_Ok in Hp as (schedule & _ & Hp).
  destruct (negb _) in Hp; [injection Hp as <-; cbn; lia|]. apply rbind_Ok in Hp as (cp & _ & Hp).
  apply request_checkpoint_Ok in Hp as (pin & sc & ->). cbn. lia.
Qed.

Lemma scan_rows_counts self v state previous found rows (m : M) v' state' :
  eng_max_operations self <= usize_max ->
  scan_rows self v state previous found rows m = (v', Ok state') ->
  eng_max_operations self - ck_scanned state' <= eng_max_operations self - ck_scanned state - len rows.
Proof.
  intros Hmax. revert v state previous found.
  induction rows as [|row rest IH]; intros v state previous found; cbn [scan_rows].
  - intros [= <- <-]. rewrite len_nil. lia.
  - destruct (scan_row _ _ _ _ _ _ _) as [[v1 f1]|e]; [|done]. intros Hs%IH.
    cbn [ck_scanned with_scanned] in Hs. unfold saturating_add in Hs. rewrite len_cons. lia.
Qed.

Lemma finish_checkpoint_cost self v prepared response (m : M) now context v' progress :
  eng_max_operations self <= usize_max ->
  finish_checkpoint self v prepared response m now context = (v', Ok progress) ->
  cost self progress < cost self (CheckpointRequested prepared).
Proof.
  intros Hmax. unfold finish_checkpoint. cbv zeta. destruct (_ || _); [done|].
  destruct (let? _ := _ in _) as [[]|e]; [|done]. unfold cost at 2.
  destruct (ck_phase _), (pc_request _) as [h|after limit|cp], response as [remote|page|receipt]; try done;
    unfold with_page; try (destruct (validate_checkpoint_page _ _ _ _); [|done]).
  - intros [= _ Hn]. apply rbind_Ok in Hn as (pin & _ & Hn). apply rbind_Ok in Hn as (r & _ & Hn).
    destruct (_ || _) in Hn; [done|]. apply next_page_cost in Hn. lia.
  - unfold finish_scan. cbv zeta. destruct (cpage_rows page) as [|row rest].
    + destruct (negb _); [done|]. destruct (pc_expected_scan prepared) as [s|].
      * destruct (accept_scanned _ _ _ _ _ _) as [[v1 state]|e]; [|done].
        intros [= _ Hp%publish_cost]. lia.
      * intros [= _ Hp%publish_cost]. lia.
    + destruct (scan_rows _ _ _ _ _ _ _) as [v1 [state|e]] eqn:Er; [|done].
      intros [= _ Hn%next_page_cost]. apply scan_rows_counts in Er; [|done]. rewrite len_cons in Er. lia.
  - intros [= _ Hn]. destruct (negb _) in Hn; [done|].
    apply request_checkpoint_Ok in Hn as (pin & sc & ->). cbn. lia.
  - intros [= _ Hn]. unfold finish_append in Hn. destruct (cpage_rows page) as [|row [|]]; try done.
    apply rbind_unit_Ok in Hn as [_ Hn]. apply rbind_Ok in Hn as (ac & _ & Hn).
    destruct (negb _) in Hn; [done|]. apply request_checkpoint_Ok in Hn as (pin & sc & ->). cbn. lia.
  - destruct (negb _); [done|]. destruct (finish_tail _ _ _ _ _) as [[v1 progress']|e] eqn:Ef; [|done].
    intros [= _ <-]. unfold finish_tail in Ef. apply rbind_Ok in Ef as (cp & _ & Ef).
    apply rbind_Ok in Ef as ([v2 d] & _ & [= _ <-]). cbn. lia.
Qed.

Lemma checkpoint_loop_ends self (m : M) now context fuel v (t : T) progress :
  eng_max_operations self <= usize_max -> cost self progress <= N.of_nat fuel ->
  exists r, (checkpoint_loop fuel self v t progress m now context).2 = Some r.
Proof.
  intros Hmax. revert v t progress. induction fuel as [|fuel IH]; intros v t [prepared|report] Hc;
    cbn [checkpoint_loop]; eauto.
  - unfold cost in Hc. destruct (ck_phase _) in Hc; lia.
  - destruct (serve_checkpoint _ _ _) as [t' [response|e]]; [|eauto].
    destruct (finish_checkpoint _ _ _ _ _ _ _) as [v1 [progress|e]] eqn:Ef; [|eauto].
    apply finish_checkpoint_cost in Ef; [|done]. apply IH. lia.
Qed.

Lemma checkpoint_loop_more_fuel self (m : M) now context fuel fuel' v (t : T) progress :
  (fuel <= fuel')%nat -> (checkpoint_loop fuel self v t progress m now context).2 <> None ->
  checkpoint_loop fuel' self v t progress m now context
  = checkpoint_loop fuel self v t progress m now context.
Proof.
  revert fuel' v t progress. induction fuel as [|fuel IH]; intros [|fuel'] v t [prepared|report] Hle;
    cbn [checkpoint_loop]; try done; [lia|].
  destruct (serve_checkpoint _ _ _) as [t' [response|e]]; [|done].
  destruct (finish_checkpoint _ _ _ _ _ _ _) as [v1 [progress|e]]; [|done]. apply IH. lia.
Qed.

(** Enough requests for a cycle and the exchange after it. *)
Definition exchange_fuel (self : SyncEngine) : nat := N.to_nat (2 * eng_max_operations self + 4).

Lemma prepare_checkpoint_cost self v progress :
  prepare_checkpoint self v = Ok progress -> cost self progress <= 4 + eng_max_operations self.
Proof.
  unfold prepare_checkpoint. intros Hp. apply rbind_Ok in Hp as ([pin|] & _ & Hp).
  - apply request_checkpoint_Ok in Hp as (p & sc & ->). cbn. lia.
  - apply next_page_cost in Hp. cbn in Hp. lia.
Qed.

End facts.

(** ** Runs of a vault *)

Section runs.
Context `{UuidCrate} `{!UuidCrateLaws} `{MinicborLaws} `{RecordJson} `{!RecordJsonLaws}.
Context `{PrimitivesLaws} `{MembershipHistory}.
Context {E M T : Type} `{!TrustedSyncMaterial M} `{!HistoricalRead M} `{!EmbeddingResolver E}.
Context `{!PushTransport T} `{!PullTransport T} `{!CheckpointTransport T}.
Implicit Type v : Vault E.

Definition empty_vault : Vault E := {|
  va_tables := empty_tables;
  va_checkpoints := {| ct_signed := ∅; ct_pins := ∅; ct_scans := ∅ |} |}.

(** A cycle with any engine, transport and roster, or a local transaction. *)
Inductive run_step v : Vault E -> Prop :=
| run_cycle fuel self (s : CycleState (Vault E) T) (m : M) now_ms context :
    pv_records (cy_vault s) = v ->
    run_step v (pv_records (cy_vault (sync_once_with_checkpoint fuel self s m now_ms context).1))
| run_local t : vault_step (M := M) (va_tables v) t -> run_step v (with_tables v t).

Lemma cycle_checkpoints fuel self (s : CycleState (Vault E) T) (m : M) now_ms :
  va_checkpoints (pv_records (cy_vault (sync_once fuel self s m now_ms).1))
  = va_checkpoints (pv_records (cy_vault s)).
Proof.
  destruct (sync_once_records fuel self s m now_ms) as (q & _ & Hp). revert Hp.
  set (v' := pv_records (cy_vault (sync_once _ _ _ _ _).1)).
  change (va_checkpoints (pv_records (cy_vault s)))
    with (va_checkpoints (with_outbox_of (pv_records (cy_vault s)) q)).
  generalize (with_outbox_of (pv_records (cy_vault s)) q). clearbody v'. clear q.
  induction 1 as [|v1 v2 v3 (b & a & rcv & now & d & _ & [_ Hc]%vault_apply_Ok) _ IH]; [done|].
  by rewrite IH.
Qed.

Lemma exchange_keeps fuel self (s : CycleState (Vault E) T) (m : M) now_ms context :
  let v := pv_records (cy_vault s) in
  let v' := pv_records (cy_vault (sync_once_with_checkpoint fuel self s m now_ms context).1) in
  reachable (M := M) (va_tables v) -> checkpoint_inv (M := M) (va_checkpoints v) ->
  reachable (M := M) (va_tables v') /\ checkpoint_inv (M := M) (va_checkpoints v')
  /\ (exists v1, va_checkpoints v1 = va_checkpoints v /\ advances m (eng_scope self) v1 v').
Proof.
  cbv zeta. intros Hr Hi. unfold sync_once_with_checkpoint.
  pose proof (cycle_reachable fuel self s m now_ms Hr) as Hr1.
  pose proof (cycle_checkpoints fuel self s m now_ms) as Ec.
  destruct (negb _); [split_and!; [done|done|by exists (pv_records (cy_vault s))]|].
  destruct (sync_once _ _ _ _ _) as [s1 [[report|e]|]]; cbn [fst] in *;
    [|split_and!; [done|by rewrite Ec|by exists (pv_records (cy_vault s1))]..].
  assert (Hi1 : checkpoint_inv (M := M) (va_checkpoints (pv_records (cy_vault s1)))) by by rewrite Ec.
  destruct (prepare_checkpoint _ _) as [progress|e];
    [|split_and!; [done|done|by exists (pv_records (cy_vault s1))]].
  destruct (checkpoint_loop_keeps self m now_ms context fuel (pv_records (cy_vault s1))
    (cy_transport s1) progress Hi1) as [Hi2 Ha].
  destruct (checkpoint_loop _ _ _ _ _ _ _ _) as [[v2 t2] r]. cbn [fst cy_vault with_records pv_records] in *.
  split_and!; [|done|by exists (pv_records (cy_vault s1))]. destruct (ad_tables _ _ _ _ Ha) as [schedule ->].
  eapply rtc_r; [done|]. apply step_schedule.
Qed.

Lemma run_step_keeps v v' :
  reachable (M := M) (va_tables v) -> checkpoint_inv (M := M) (va_checkpoints v) -> run_step v v' ->
  reachable (M := M) (va_tables v') /\ checkpoint_inv (M := M) (va_checkpoints v')
  /\ forall scope, rtc (links (M := M) scope) (pin_hash (va_checkpoints v) scope)
                     (pin_hash (va_checkpoints v') scope).
Proof.
  intros Hr Hi [fuel self s m now context <-|t Ht].
  - destruct (exchange_keeps fuel self s m now context Hr Hi) as (Hr' & Hi' & v1 & Ec & Ha).
    split_and!; [done|done|]. intros scope. rewrite <- Ec. apply Ha.
  - split_and!; [by eapply rtc_r|done|done].
Qed.

Lemma runs_keep v v' :
  reachable (M := M) (va_tables v) -> checkpoint_inv (M := M) (va_checkpoints v) -> rtc run_step v v' ->
  reachable (M := M) (va_tables v') /\ checkpoint_inv (M := M) (va_checkpoints v')
  /\ forall scope, rtc (links (M := M) scope) (pin_hash (va_checkpoints v) scope)
                     (pin_hash (va_checkpoints v') scope).
Proof.
  intros Hr Hi Hs. induction Hs as [v|v1 v2 v3 Hs _ IH]; [done|].
  destruct (run_step_keeps v1 v2 Hr Hi Hs) as (Hr2 & Hi2 & Hc2).
  destruct (IH Hr2 Hi2) as (Hr3 & Hi3 & Hc3). split_and!; [done|done|].
  intros scope. etrans; [apply Hc2|apply Hc3].
Qed.

Lemma checkpoint_inv_empty : checkpoint_inv (M := M) (va_checkpoints empty_vault).
Proof.
  split.
  - intros scope h. cbn. by rewrite lookup_empty.
  - intros scope provider row. unfold scan_at. cbn. by rewrite lookup_empty.
Qed.

(** Accepting a verified checkpoint pins it: the pin that is read back is the
    checkpoint itself, the schedule is reset so that none is due, and accepting the same
    checkpoint once more is recognised as a replay that changes nothing. *)
Theorem accepted_checkpoint_is_pinned v scope cp (m : M) verified ms v' d :
  verify_checkpoint v scope cp m = Ok verified -> accept_sync_checkpoint v verified ms = Ok (v', d) ->
  (exists at_ms, load_checkpoint_pin (va_checkpoints v') scope = Ok (Some (pin_of scope cp at_ms)))
  /\ (exists schedule, load_checkpoint_schedule (vt_schedule (va_tables v')) scope = Ok schedule
       /\ forall now, schedule_is_due schedule now = false)
  /\ accept_sync_checkpoint v' verified ms = Ok (v', CheckpointExactReplay).
Proof.
  intros (pin & _ & Hg & _ & _ & ->)%verify_checkpoint_Ok Ha.
  by apply (accept_in_transaction_pins _ _ _ _ _ m Ha).
Qed.

(** C4.  Checkpoints cannot be rolled back: whatever providers answer, over any sequence
    of sync cycles and local transactions from an empty vault, the pin of every scope
    only moves to a checkpoint that descends from the pinned one through a chain of
    checkpoints, each signed by a device trusted at the time and naming its predecessor
    by hash; a first pin descends from genesis. *)
Theorem pin_never_rolls_back v v' scope :
  rtc run_step empty_vault v -> rtc run_step v v' ->
  rtc (links (M := M) scope) zero_digest (pin_hash (va_checkpoints v) scope)
  /\ rtc (links (M := M) scope) (pin_hash (va_checkpoints v) scope)
       (pin_hash (va_checkpoints v') scope).
Proof.
  intros Hv Hv'. destruct (runs_keep empty_vault v (rtc_refl _ _) checkpoint_inv_empty Hv) as (Hr & Hi & Hc).
  split; [apply (Hc scope)|]. by apply runs_keep.
Qed.

(** The checkpoint tables stay readable: in every vault reached from an empty one by
    sync cycles and local transactions the pin and the scan of every scope and provider
    load, so corruption errors never stop an exchange, and the sync tables are
    consistent. *)
Theorem checkpoint_tables_load v scope provider :
  rtc run_step empty_vault v ->
  vault_inv (va_tables v)
  /\ (exists pin, load_checkpoint_pin (va_checkpoints v) scope = Ok pin)
  /\ (exists scan, load_checkpoint_scan (va_checkpoints v) scope provider = Ok scan).
Proof.
  intros Hv. destruct (runs_keep empty_vault v (rtc_refl _ _) checkpoint_inv_empty Hv) as (Hr & Hi & _).
  split_and!; [by eapply reachable_inv|by apply load_pin_total|by apply load_scan_total].
Qed.

(**  A pin states the vault's own state: after a cycle with its checkpoint exchange
    the pins are the ones from before, or the pin of the engine's scope is a checkpoint
    signed by a trusted device whose causal frontier and state hash are those of the
    vault as it is now, although the provider chose every page. *)
Theorem accepted_pin_states_vault fuel self (s : CycleState (Vault E) T) (m : M) now_ms context :
  let v := pv_records (cy_vault s) in
  let v' := pv_records (cy_vault (sync_once_with_checkpoint fuel self s m now_ms context).1) in
  reachable (M := M) (va_tables v) -> checkpoint_inv (M := M) (va_checkpoints v) ->
  ct_pins (va_checkpoints v') = ct_pins (va_checkpoints v)
  \/ exists cp, ct_pins (va_checkpoints v')
       = <[scope_key (eng_scope self) := cc_canonical_hash cp]> (ct_pins (va_checkpoints v))
     /\ genuine (eng_scope self) cp m /\ matches_local (M := M) v' (eng_scope self) cp.
Proof.
  intros v v' Hr Hi. destruct (exchange_keeps fuel self s m now_ms context Hr Hi) as (_ & _ & v1 & Ec & Ha).
  fold v v' in Ec, Ha. rewrite <- Ec. apply Ha.
Qed.

(**  A cycle with its checkpoint exchange always ends: whatever the transport
    answers, [sync_once_with_checkpoint] returns after at most [2 * max_operations + 4]
    requests per loop, because every page of the scan uses up its budget; allowing more
    requests does not change the outcome. *)
Theorem checkpoint_exchange_terminates self (s : CycleState (Vault E) T) (m : M) now_ms context :
  eng_max_operations self <= usize_max ->
  (exists r, (sync_once_with_checkpoint (exchange_fuel self) self s m now_ms context).2 = Some r)
  /\ forall fuel, (exchange_fuel self <= fuel)%nat ->
     sync_once_with_checkpoint fuel self s m now_ms context
     = sync_once_with_checkpoint (exchange_fuel self) self s m now_ms context.
Proof.
  intros Hmax. unfold sync_once_with_checkpoint. destruct (negb _); [eauto|].
  destruct (sync_once_ends self s m now_ms) as [[r0 Hr0] Hmore].
  assert (Hle : (cycle_fuel self <= exchange_fuel self)%nat) by (unfold cycle_fuel, exchange_fuel; lia).
  assert (Hl : forall (s1 : CycleState (Vault E) T) progress, prepare_checkpoint self (pv_records (cy_vault s1)) = Ok progress ->
    exists r, (checkpoint_loop (exchange_fuel self) self (pv_records (cy_vault s1)) (cy_transport s1)
                 progress m now_ms context).2 = Some r).
  { intros s1 progress Ep%prepare_checkpoint_cost. apply checkpoint_loop_ends; [done|].
    unfold exchange_fuel. lia. }
  rewrite (Hmore _ Hle). split.
  - destruct (sync_once _ _ _ _ _) as [s1 r1]. cbn in Hr0. subst r1. destruct r0 as [report|e]; [|eauto].
    destruct (prepare_checkpoint _ _) as [progress|e] eqn:Ep; [|eauto]. apply Hl in Ep as [r Hr].
    destruct (checkpoint_loop _ _ _ _ _ _ _ _) as [[v2 t2] r']. cbn in Hr. subst r'. cbn. eauto.
  - intros fuel Hf. rewrite (Hmore fuel) by lia. destruct (sync_once _ _ _ _ _) as [s1 [[report|e]|]]; try done.
    destruct (prepare_checkpoint _ _) as [progress|e] eqn:Ep; [|done]. apply Hl in Ep as [r Hr].
    by rewrite (checkpoint_loop_more_fuel _ _ _ _ (exchange_fuel self)) by (done || by rewrite Hr).
Qed.

End runs.

(** *** Witness: one vault publishes a checkpoint, another accepts it *)

Module ExchangeWitness.
#[local] Existing Instances rfc9562 rfc9562_laws Rfc8949.codec Rfc8949.codec_laws
  CountableJson.records CountableJson.records_laws Toy.toy Toy.toy_laws
  VaultWitness.no_history VaultWitness.no_embeddings ReplicaWitness.unenrolled_history
  ReplicaWitness.devices.
Import VaultWitness VaultSyncWitness.

Abbreviation run := (run_step (E := unit) (M := unit) (T := InMemoryTransport)).
Abbreviation vault_of s := (pv_records (cy_vault s)).

(** The first vault has a write of its own and a checkpoint requested. *)
Definition requested : CycleState (Vault unit) InMemoryTransport := {|
  cy_vault := with_records (cy_vault start) (request_sync_checkpoint (vault_of start) scope);
  cy_transport := remote |}.
Definition publisher := sync_once_with_checkpoint 6 engine requested tt 10 CheckpointWitness.context.

(** The second starts empty, on the transport the first leaves. *)
Definition fresh : CycleState (Vault unit) InMemoryTransport := {|
  cy_vault := {| pv_records := empty_vault; pv_receipts := pv_receipts (cy_vault start) |};
  cy_transport := cy_transport publisher.1 |}.
Definition receiver := sync_once_with_checkpoint 6 engine fresh tt 11 CheckpointWitness.context.

Definition checkpointed (r : option (result SyncCycleError SyncCycleReport)) : bool :=
  match r with Some (Ok report) => rep_checkpointed report | _ => false end.

Example exchange_agrees :
  checkpointed publisher.2 = true /\ checkpointed receiver.2 = true
  /\ bool_decide (ct_pins (va_checkpoints (vault_of publisher.1)) = ∅) = false
  /\ bool_decide (ct_pins (va_checkpoints (vault_of publisher.1))
                  = ct_pins (va_checkpoints (vault_of receiver.1))) = true.
Proof. split_and!; vm_compute; reflexivity. Qed.

Lemma local_runs v t :
  rtc (vault_step (M := unit)) (va_tables v) t -> rtc run v (with_tables v t).
Proof.
  intros Hs. remember (va_tables v) as t0 eqn:E0. revert v E0.
  induction Hs as [t0|t0 t1 t2 Hs _ IH]; intros v ->.
  - by destruct v.
  - eapply rtc_l; [by apply run_local|]. by apply (IH (with_tables v t1)).
Qed.

Lemma requested_runs : rtc run empty_vault (vault_of requested).
Proof.
  eapply rtc_r; [exact (local_runs empty_vault _ local_reachable)|].
  exact (run_local _ _ (step_schedule _ _)).
Qed.

Lemma publisher_runs : rtc run empty_vault (vault_of publisher.1).
Proof. eapply rtc_r; [exact requested_runs|]. by apply run_cycle. Qed.

Lemma requested_reachable : reachable (M := unit) (va_tables (vault_of requested)).
Proof. eapply rtc_r; [exact local_reachable|]. apply step_schedule. Qed.

Lemma pin_never_rolls_back_witness :
  rtc (links (M := unit) scope) (pin_hash (va_checkpoints (vault_of requested)) scope)
    (pin_hash (va_checkpoints (vault_of publisher.1)) scope).
Proof.
  refine (proj2 (pin_never_rolls_back (T := InMemoryTransport) (vault_of requested)
    (vault_of publisher.1) scope requested_runs _)).
  apply rtc_once. by apply run_cycle.
Defined.

Lemma checkpoint_tables_load_witness :
  exists pin, load_checkpoint_pin (va_checkpoints (vault_of publisher.1)) scope = Ok pin.
Proof.
  exact (proj1 (proj2 (checkpoint_tables_load (M := unit) (T := InMemoryTransport)
    (vault_of publisher.1) scope "memory" publisher_runs))).
Defined.

Lemma accepted_pin_states_vault_witness :
  exists cp, genuine scope cp tt /\ matches_local (M := unit) (vault_of publisher.1) scope cp.
Proof.
  destruct (accepted_pin_states_vault 6 engine requested tt 10 CheckpointWitness.context
    requested_reachable (checkpoint_inv_empty (E := unit))) as [Ep|(cp & _ & Hg & Hm)]; [|exists cp; exact (conj Hg Hm)].
  assert (Hne : bool_decide (ct_pins (va_checkpoints (vault_of publisher.1)) = ∅) = false)
    by (vm_compute; reflexivity).
  apply bool_decide_eq_false in Hne. destruct (Hne Ep).
Defined.

(** The receiver before it accepts, and the publisher's checkpoint. *)
Definition pulled := (sync_once 6 engine fresh tt 11).1.
Definition published : CanonicalCheckpoint :=
  match build_checkpoint (vault_of pulled) CheckpointWitness.context tt with
  | Ok built => built
  | Err _ => CheckpointWitness.built
  end.

Lemma accepted_checkpoint_is_pinned_witness :
  exists (v' : Vault unit) d at_ms,
    load_checkpoint_pin (va_checkpoints v') scope = Ok (Some (pin_of scope published at_ms))
    /\ accept_sync_checkpoint v' {| vc_membership_endpoint := None; vc_scope := scope;
         vc_checkpoint := published; vc_expected_pin_hash := None |} 12 = Ok (v', d).
Proof.
  assert (Hv : verify_checkpoint (vault_of pulled) scope published tt
    = Ok {| vc_membership_endpoint := None; vc_scope := scope; vc_checkpoint := published;
            vc_expected_pin_hash := None |}) by (vm_compute; reflexivity).
  destruct (accept_sync_checkpoint (vault_of pulled) {| vc_membership_endpoint := None;
    vc_scope := scope; vc_checkpoint := published; vc_expected_pin_hash := None |} 12)
    as [[v' d]|e] eqn:Ea.
  - destruct (accepted_checkpoint_is_pinned _ _ _ _ _ _ _ _ Hv Ea) as ([at_ms Hp] & _ & Hr).
    exists v', CheckpointExactReplay, at_ms. exact (conj Hp Hr).
  - exfalso. apply (f_equal is_ok) in Ea. revert Ea. vm_compute. discriminate.
Defined.

Lemma checkpoint_exchange_terminates_witness :
  exists r, (sync_once_with_checkpoint (exchange_fuel engine) engine requested tt 10
               CheckpointWitness.context).2 = Some r.
Proof.
  refine (proj1 (checkpoint_exchange_terminates engine requested tt 10 CheckpointWitness.context _)).
  vm_compute. discriminate.
Defined.

End ExchangeWitness.
