(* ===== verification/NativeModel.v ===== *)
(** * Native transactions: vocabulary (core/native_transaction/model.rs, protocol/adapters.rs)

    The data a native transaction is made of: targets and their object tokens, the
    approved mutations of files and command-line declarations, receipts, the sandbox
    identity of a transaction, and the text under which the vault stores each state. *)

From S2P Require Import Prelude Ordering Text Protocol Minicbor CanonicalCbor Domain.
From S2P Require Import SyncPayload Crypto Operation Causal Merge Transport StateSummary.
From S2P Require Import Admission.

#[local] Open Scope N_scope.

(** ** Text and bytes *)

(** [slice::strip_prefix] *)
Fixpoint strip_prefix {A} `{EqDecision A} (prefix l : list A) : option (list A) :=
  match prefix, l with
  | [], _ => Some l
  | x :: prefix', y :: l' => if bool_decide (x = y) then strip_prefix prefix' l' else None
  | _ :: _, [] => None
  end.

(** [u32::to_string]; ten digits hold every 32-bit number. *)
Fixpoint decimal (fuel : nat) (n : N) : rstr :=
  match fuel with
  | O => []
  | S fuel' => if n <? 10 then [0x30 + n] else decimal fuel' (n / 10) ++ [0x30 + n mod 10]
  end.
Definition u32_to_string (n : N) : rstr := decimal 10 n.

(** [str::parse::<u32>]: an optional plus sign and at least one digit. *)
Definition parse_u32 (s : rstr) : option N :=
  let digits := match s with 0x2B :: s' => s' | _ => s end in
  if bool_decide (digits = []) then None else
  if negb (forallb (fun c => (0x30 <=? c) && (c <=? 0x39)) digits) then None else
  let n := foldl (fun acc c => 10 * acc + (c - 0x30)) 0 digits in
  if n <=? u32_max then Some n else None.

Lemma strip_prefix_Some {A} `{EqDecision A} (prefix l k : list A) :
  strip_prefix prefix l = Some k <-> l = prefix ++ k.
Proof.
  revert l. induction prefix as [|x prefix IH]; intros l; simpl; [naive_solver|].
  destruct l as [|y l]; [naive_solver|].
  destruct (bool_decide_reflect (x = y)) as [->|]; [rewrite IH|]; naive_solver.
Qed.

(** ** Native values: protocol/adapters.rs *)

Definition MAX_ARBITRARY_BYTES : N := 1024 * 1024.
Definition MAX_ADAPTER_COLLECTION_ITEMS : N := 1024.
Definition MAX_NATIVE_DISPLAY_BYTES : N := 1024.

Inductive NativePlatform := Windows | Macos.

Record WireNativeValue := {
  wv_platform : NativePlatform;
  wv_bytes : bytes;
  wv_display : option rstr;
}.

Record CliOperation := {
  co_executable : WireNativeValue;
  co_arguments : list WireNativeValue;
  co_timeout_ms : N;
}.

Abbreviation PlanId := bytes (only parsing).

Record ApplyReceipt := {
  rc_plan_id : PlanId;
  rc_applied_hlc : HybridLogicalClock;
  rc_resulting_digests : list Sha256Digest;
}.

#[global] Instance NativePlatform_eq_dec : EqDecision NativePlatform.
Proof. solve_decision. Defined.
#[global] Instance WireNativeValue_eq_dec : EqDecision WireNativeValue.
Proof. solve_decision. Defined.
#[global] Instance CliOperation_eq_dec : EqDecision CliOperation.
Proof. solve_decision. Defined.
#[global] Instance ApplyReceipt_eq_dec : EqDecision ApplyReceipt.
Proof. solve_decision. Defined.

Definition unsafe_native_display (display : rstr) : bool :=
  existsb (fun c =>
    is_control c || (c =? 0x061c) || (c =? 0x200e) || (c =? 0x200f)
    || ((0x202a <=? c) && (c <=? 0x202e)) || ((0x2066 <=? c) && (c <=? 0x2069))) display.

Definition validate_adapter_collection (field : string) (length : N) : result ValidationError unit :=
  if MAX_ADAPTER_COLLECTION_ITEMS <? length
  then Err (TooLarge field MAX_ADAPTER_COLLECTION_ITEMS) else Ok tt.

Definition WireNativeValue_validate (self : WireNativeValue) : result ValidationError unit :=
  if MAX_ARBITRARY_BYTES <? len (wv_bytes self)
  then Err (TooLarge "nativeValue.bytes" MAX_ARBITRARY_BYTES) else
  let? _ := match wv_display self with
            | Some display =>
                if MAX_NATIVE_DISPLAY_BYTES <? str_len display
                then Err (TooLarge "nativeValue.display" MAX_NATIVE_DISPLAY_BYTES) else
                if unsafe_native_display display then Err (Invalid "nativeValue.display") else Ok tt
            | None => Ok tt
            end in
  if bool_decide (wv_platform self = Windows) && negb (len (wv_bytes self) mod 2 =? 0)
  then Err (Invalid "windowsUtf16Le") else Ok tt.

Definition CliOperation_validate (self : CliOperation) : result ValidationError unit :=
  let? _ := validate_adapter_collection "cliOperation.arguments" (len (co_arguments self)) in
  let? _ := WireNativeValue_validate (co_executable self) in
  try_for_each WireNativeValue_validate (co_arguments self).

Definition ApplyReceipt_validate (self : ApplyReceipt) : result ValidationError unit :=
  validate_adapter_collection "applyReceipt.resultingDigests" (len (rc_resulting_digests self)).

(** ** Steps: native_transaction/model.rs *)

Inductive TransactionStep :=
| AcquireLock | ReprobeLiveState | CompareApprovedDigests | CreateBeforeImages
| RecordNativeMetadata | CopyAllowlistedInputs | CreateFakeRoots
| BuildRestrictedEnvironment | RunRestrictedTools | RejectUnsafeTopology
| ValidateStagedOutput | RecomputeApproval | CheckPlanFreshness
| CompareAndSwapTargets | WritePayloads | InstallExecutablesDisabled
| WriteActivationReferences | ValidateEffectiveConfiguration
| CommitOwnershipAndReceipt | RestoreMatchingAppliedTargets.

#[global] Instance TransactionStep_eq_dec : EqDecision TransactionStep.
Proof. solve_decision. Defined.

(** [TransactionStep::ORDER] *)
Definition TransactionStep_ORDER : list TransactionStep :=
  [AcquireLock; ReprobeLiveState; CompareApprovedDigests; CreateBeforeImages;
   RecordNativeMetadata; CopyAllowlistedInputs; CreateFakeRoots; BuildRestrictedEnvironment;
   RunRestrictedTools; RejectUnsafeTopology; ValidateStagedOutput; RecomputeApproval;
   CheckPlanFreshness; CompareAndSwapTargets; WritePayloads; InstallExecutablesDisabled;
   WriteActivationReferences; ValidateEffectiveConfiguration; CommitOwnershipAndReceipt;
   RestoreMatchingAppliedTargets].

(** The discriminant, [step as u8]. *)
Definition step_number (step : TransactionStep) : N :=
  match step with
  | AcquireLock => 1 | ReprobeLiveState => 2 | CompareApprovedDigests => 3
  | CreateBeforeImages => 4 | RecordNativeMetadata => 5 | CopyAllowlistedInputs => 6
  | CreateFakeRoots => 7 | BuildRestrictedEnvironment => 8 | RunRestrictedTools => 9
  | RejectUnsafeTopology => 10 | ValidateStagedOutput => 11 | RecomputeApproval => 12
  | CheckPlanFreshness => 13 | CompareAndSwapTargets => 14 | WritePayloads => 15
  | InstallExecutablesDisabled => 16 | WriteActivationReferences => 17
  | ValidateEffectiveConfiguration => 18 | CommitOwnershipAndReceipt => 19
  | RestoreMatchingAppliedTargets => 20
  end.

(** ** Object tokens *)

Record NativeObjectToken := {
  tk_volume : bytes;
  tk_object : bytes;
  tk_topology : bytes;
}.

#[global] Instance NativeObjectToken_eq_dec : EqDecision NativeObjectToken.
Proof. solve_decision. Defined.

Definition has_same_parent_binding (self expected : NativeObjectToken) : bool :=
  bool_decide (tk_volume self = tk_volume expected)
  && (len (tk_topology self) =? 29) && (len (tk_topology expected) =? 29)
  && bool_decide (tk_topology self !! 0%nat = Some Byte.x01)
  && bool_decide (tk_topology expected !! 0%nat = Some Byte.x01)
  && bool_decide (drop 5 (tk_topology self) = drop 5 (tk_topology expected)).

Definition is_absence_generation (self : NativeObjectToken) : bool :=
  (len (tk_topology self) =? 29)
  && bool_decide (tk_topology self !! 0%nat = Some Byte.x01)
  && bool_decide (take 4 (drop 1 (tk_topology self)) = replicate 4 Byte.xff).

(** Each of the three parts is non-empty. *)
Definition token_complete (token : NativeObjectToken) : bool :=
  negb (bool_decide (tk_volume token = [])) && negb (bool_decide (tk_object token = []))
  && negb (bool_decide (tk_topology token = [])).

(** ** Mutations and receipts *)

Abbreviation Fingerprint := bytes (only parsing).

Inductive MutationWalState := WalPrepared | WalApplied | WalRestorePrepared | WalRestored | WalConflict.
Inductive MutationKind := Payload | ExecutableDisabled | ActivationReference.
Inductive NativeCliWalState := CliPrepared | CliApplied | CliRestorePrepared | CliRestored | CliConflict.

Record ApprovedMutation := {
  am_target : WireNativeValue;
  am_kind : MutationKind;
  am_content : bytes;
  am_expected : Fingerprint;
  am_intended : Fingerprint;
}.

Record CanonicalCliDeclaration := {
  cd_harness : HarnessId;
  cd_server_name : rstr;
  cd_canonical_body : rstr;
  cd_fingerprint : Sha256Digest;
}.

Inductive CliExecutionContext :=
| CodexV1 (codex_home user_home project_root working_directory : WireNativeValue)
| ClaudeCodeV1 (config_dir state_path project_root : WireNativeValue)
| ClaudeCodeV2 (config_dir state_path project_root user_home : WireNativeValue).

Record ApprovedCliMutation := {
  cm_stable_id : rstr;
  cm_execution_context : option CliExecutionContext;
  cm_expected : option CanonicalCliDeclaration;
  cm_intended : option CanonicalCliDeclaration;
  cm_forward : list CliOperation;
  cm_rollback : list CliOperation;
}.

Record OwnershipChange := {
  oc_stable_id : rstr;
  oc_structural_location : rstr;
  oc_semantic_digest : Sha256Digest;
  oc_native_digest : Sha256Digest;
}.

Record NativeReceiptEntry := {
  re_target : WireNativeValue;
  re_fingerprint : Fingerprint;
}.

Record NativeApplyReceipt := {
  nr_legacy : ApplyReceipt;
  nr_targets : list NativeReceiptEntry;
}.

#[global] Instance MutationWalState_eq_dec : EqDecision MutationWalState.
Proof. solve_decision. Defined.
#[global] Instance NativeMutationKind_eq_dec : EqDecision MutationKind.
Proof. solve_decision. Defined.
#[global] Instance NativeCliWalState_eq_dec : EqDecision NativeCliWalState.
Proof. solve_decision. Defined.
#[global] Instance ApprovedMutation_eq_dec : EqDecision ApprovedMutation.
Proof. solve_decision. Defined.
#[global] Instance CanonicalCliDeclaration_eq_dec : EqDecision CanonicalCliDeclaration.
Proof. solve_decision. Defined.
#[global] Instance CliExecutionContext_eq_dec : EqDecision CliExecutionContext.
Proof. solve_decision. Defined.
#[global] Instance ApprovedCliMutation_eq_dec : EqDecision ApprovedCliMutation.
Proof. solve_decision. Defined.
#[global] Instance OwnershipChange_eq_dec : EqDecision OwnershipChange.
Proof. solve_decision. Defined.
#[global] Instance NativeReceiptEntry_eq_dec : EqDecision NativeReceiptEntry.
Proof. solve_decision. Defined.
#[global] Instance NativeApplyReceipt_eq_dec : EqDecision NativeApplyReceipt.
Proof. solve_decision. Defined.

(** ** Statuses and sandbox identities: vault/native_transactions.rs *)

Inductive NativeTransactionStatus := TxPending | TxCommitted | TxRestoring | TxRestored | TxConflict.
Inductive NativeSandboxCleanupState := CleanupPending | CleanupCleaned | CleanupConflict.
Inductive MacGenerationState := MacPrepared | MacActive | MacRetired | MacPoisoned.
Inductive MacGenerationSubstate :=
| Reserved | GuardianBound | BundleBound | Finalized | ContainerBound.

Record MacGeneration := {
  mg_generation_id : rstr;
  mg_bundle_id : rstr;
  mg_container : bytes;
  mg_guardian_pgid : option Z;
  mg_bundle_root : option bytes;
  mg_signed_digest : option Sha256Digest;
  mg_container_root : option bytes;
  mg_substate : MacGenerationSubstate;
  mg_state : MacGenerationState;
}.

Inductive NativeSandboxIdentity :=
| WindowsIdentity (moniker : rstr) (sid : bytes)
| MacosIdentity (generation : MacGeneration).

#[global] Instance NativeTransactionStatus_eq_dec : EqDecision NativeTransactionStatus.
Proof. solve_decision. Defined.
#[global] Instance NativeSandboxCleanupState_eq_dec : EqDecision NativeSandboxCleanupState.
Proof. solve_decision. Defined.
#[global] Instance MacGenerationState_eq_dec : EqDecision MacGenerationState.
Proof. solve_decision. Defined.
#[global] Instance MacGenerationSubstate_eq_dec : EqDecision MacGenerationSubstate.
Proof. solve_decision. Defined.
#[global] Instance MacGeneration_eq_dec : EqDecision MacGeneration.
Proof. solve_decision. Defined.
#[global] Instance NativeSandboxIdentity_eq_dec : EqDecision NativeSandboxIdentity.
Proof. solve_decision. Defined.

Definition reserved_macos (generation_id bundle_id : rstr) (container : bytes)
    : NativeSandboxIdentity :=
  MacosIdentity {|
    mg_generation_id := generation_id; mg_bundle_id := bundle_id; mg_container := container;
    mg_guardian_pgid := None; mg_bundle_root := None; mg_signed_digest := None;
    mg_container_root := None; mg_substate := Reserved; mg_state := MacPrepared |}.

(** The derived [Ord] of [MacGenerationSubstate]. *)
Definition substate_rank (substate : MacGenerationSubstate) : N :=
  match substate with
  | Reserved => 0 | GuardianBound => 1 | BundleBound => 2 | Finalized => 3 | ContainerBound => 4
  end.

(** *** native-runner/macos_identity.rs *)

Definition MAC_ROOT_DOMAIN : bytes := ascii_bytes "context-relay/macos-root/v2" ++ [Byte.x00].
Definition PAYLOAD_BYTES : N := 36.
Definition FILE_TYPE_MASK : N := 0xF000.
Definition DIRECTORY_TYPE : N := 0x4000.

Record MacRootIdentity := {
  ri_device : N;
  ri_inode : N;
  ri_generation : N;
  ri_birthtime_seconds : Z;
  ri_birthtime_nanoseconds : N;
  ri_file_type : N;
}.

Definition MacRootIdentity_new (device inode generation : N) (birthtime_seconds : Z)
    (birthtime_nanoseconds mode : N) : option MacRootIdentity :=
  if (device =? 0) || (inode =? 0) || (1000000000 <=? birthtime_nanoseconds)
     || negb (N.land mode FILE_TYPE_MASK =? DIRECTORY_TYPE)
  then None else
  Some {| ri_device := device; ri_inode := inode; ri_generation := generation;
          ri_birthtime_seconds := birthtime_seconds;
          ri_birthtime_nanoseconds := birthtime_nanoseconds;
          ri_file_type := N.land mode FILE_TYPE_MASK |}.

(** [i64::from_be_bytes] and [i64::to_be_bytes]: two's complement. *)
Definition i64_of_be (l : bytes) : Z :=
  let n := of_be l in
  if n <=? i64_max then Z.of_N n else (Z.of_N n - 2 ^ 64)%Z.
Definition i64_to_be (z : Z) : bytes := to_be 8 (Z.to_N (z mod 2 ^ 64)%Z).

Definition MacRootIdentity_encode (self : MacRootIdentity) : bytes :=
  MAC_ROOT_DOMAIN ++ to_be 8 (ri_device self) ++ to_be 8 (ri_inode self)
  ++ to_be 4 (ri_generation self) ++ i64_to_be (ri_birthtime_seconds self)
  ++ to_be 4 (ri_birthtime_nanoseconds self) ++ to_be 4 (ri_file_type self).

Definition MacRootIdentity_decode (b : bytes) : option MacRootIdentity :=
  match strip_prefix MAC_ROOT_DOMAIN b with
  | Some payload =>
      if negb (len payload =? PAYLOAD_BYTES) then None else
      MacRootIdentity_new (of_be (take 8 payload)) (of_be (take 8 (drop 8 payload)))
        (of_be (take 4 (drop 16 payload))) (i64_of_be (take 8 (drop 20 payload)))
        (of_be (take 4 (drop 28 payload))) (of_be (take 4 (drop 32 payload)))
  | None => None
  end.

(** *** validate_identity *)

Definition WINDOWS_MONIKER_PREFIX : rstr := lit "context-relay.native.".
Definition MACOS_BUNDLE_PREFIX : rstr := lit "com.contextrelay.native-runner.".
Definition MACOS_CONTAINER_DOMAIN : bytes :=
  ascii_bytes "context-relay/macos-container/v1" ++ [Byte.x00].

Definition valid_lower_hex_32 (value : rstr) : bool :=
  (str_len value =? 32)
  && forallb (fun b => let n := Byte.to_N b in
                       ((0x30 <=? n) && (n <=? 0x39)) || ((0x61 <=? n) && (n <=? 0x66)))
       (as_bytes value).

Definition valid_appcontainer_sid (b : bytes) : bool :=
  match from_utf8 b ≫= strip_prefix (lit "S-1-15-2-") with
  | Some rest =>
      let parts := split_on hyphen rest in
      (len parts =? 7)
      && forallb (fun part => match parse_u32 part with
                              | Some number => bool_decide (u32_to_string number = part)
                              | None => false
                              end) parts
  | None => false
  end.

Definition fields_match_substate (g : MacGeneration) : bool :=
  match mg_substate g, mg_guardian_pgid g, mg_bundle_root g, mg_signed_digest g,
        mg_container_root g with
  | Reserved, None, None, None, None
  | GuardianBound, Some _, None, None, None
  | BundleBound, Some _, Some _, None, None
  | Finalized, Some _, Some _, Some _, None
  | ContainerBound, Some _, Some _, Some _, Some _ => true
  | _, _, _, _, _ => false
  end.

(** [MacRootIdentity::decode(root).is_err()] of an optional root. *)
Definition root_invalid (root : option bytes) : bool :=
  match root with
  | Some b => bool_decide (MacRootIdentity_decode b = None)
  | None => false
  end.

Definition MacGeneration_validate (g : MacGeneration) : result VaultError unit :=
  let expected_bundle := MACOS_BUNDLE_PREFIX ++ mg_generation_id g in
  if negb (valid_lower_hex_32 (mg_generation_id g))
     || negb (bool_decide (mg_bundle_id g = expected_bundle))
     || negb (bool_decide (mg_container g = MACOS_CONTAINER_DOMAIN ++ as_bytes expected_bundle))
  then Err (Validation "macOS sandbox generation identity is not canonical") else
  if match mg_guardian_pgid g with Some pgid => (pgid <=? 0)%Z | None => false end
     || root_invalid (mg_bundle_root g) || root_invalid (mg_container_root g)
  then Err (Validation "macOS lifecycle identity is invalid") else
  if negb (fields_match_substate g)
     || (match mg_state g with MacActive | MacRetired => true | _ => false end
         && negb (bool_decide (mg_substate g = ContainerBound)))
  then Err (Validation "macOS lifecycle substate is inconsistent") else Ok tt.

Definition NativeSandboxIdentity_validate (identity : NativeSandboxIdentity)
    : result VaultError unit :=
  match identity with
  | WindowsIdentity moniker sid =>
      let suffix := strip_prefix WINDOWS_MONIKER_PREFIX moniker in
      if negb (match suffix with Some s => valid_lower_hex_32 s | None => false end)
         || negb (valid_appcontainer_sid sid)
      then Err (Validation "Windows sandbox identity is not canonical") else Ok tt
  | MacosIdentity g => MacGeneration_validate g
  end.
