(* ===== verification/NativeTables.v ===== *)
(** * Native transactions: tables and stored rows (core/vault/native_transactions.rs, migrations
    0001 to 0003 and 0009)

    The rows in which the vault keeps native plans, transactions, the write-ahead logs of
    file and command-line mutations, before-images, receipts and ownership, with the
    decoding and validation every read goes through.  States and kinds are stored as text
    and digests as unchecked bytes, as the source stores them. *)

From stdpp Require Import pretty.
From S2P Require Import Prelude Ordering Text Protocol Minicbor CanonicalCbor Domain.
From S2P Require Import SyncPayload Crypto Operation Causal Merge Transport StateSummary.
From S2P Require Import Admission NativeModel.

#[local] Open Scope N_scope.

(** ** State names *)

Create Rewrite HintDb native.

Definition parse_name {A} (names : list (string * A)) (value message : string)
    : result VaultError A :=
  ok_or (snd <$> find (fun entry => bool_decide (entry.1 = value)) names) (Validation message).

Definition transaction_status_name (status : NativeTransactionStatus) : string :=
  match status with
  | TxPending => "pending" | TxCommitted => "committed" | TxRestoring => "restoring"
  | TxRestored => "restored" | TxConflict => "conflict"
  end.
Definition parse_transaction_status (value : string) : result VaultError NativeTransactionStatus :=
  parse_name [("pending", TxPending); ("committed", TxCommitted); ("restoring", TxRestoring);
              ("restored", TxRestored); ("conflict", TxConflict)]%string
    value "native transaction status is invalid".

Definition sandbox_cleanup_state_name (state : NativeSandboxCleanupState) : string :=
  match state with
  | CleanupPending => "pending" | CleanupCleaned => "cleaned" | CleanupConflict => "conflict"
  end.
Definition parse_sandbox_cleanup_state (value : string)
    : result VaultError NativeSandboxCleanupState :=
  parse_name [("pending", CleanupPending); ("cleaned", CleanupCleaned);
              ("conflict", CleanupConflict)]%string
    value "native sandbox cleanup state is invalid".

Definition mac_state_name (state : MacGenerationState) : string :=
  match state with
  | MacPrepared => "prepared" | MacActive => "active" | MacRetired => "retired"
  | MacPoisoned => "poisoned"
  end.
Definition parse_mac_state (value : string) : result VaultError MacGenerationState :=
  parse_name [("prepared", MacPrepared); ("active", MacActive); ("retired", MacRetired);
              ("poisoned", MacPoisoned)]%string
    value "macOS generation state is invalid".

Definition mac_substate_name (substate : MacGenerationSubstate) : string :=
  match substate with
  | Reserved => "reserved" | GuardianBound => "guardian_bound" | BundleBound => "bundle_bound"
  | Finalized => "finalized" | ContainerBound => "container_bound"
  end.
Definition parse_mac_substate (value : string) : result VaultError MacGenerationSubstate :=
  parse_name [("reserved", Reserved); ("guardian_bound", GuardianBound);
              ("bundle_bound", BundleBound); ("finalized", Finalized);
              ("container_bound", ContainerBound)]%string
    value "macOS generation substate is invalid".

Definition native_mutation_kind_name (kind : MutationKind) : string :=
  match kind with
  | Payload => "payload" | ExecutableDisabled => "executable_disabled"
  | ActivationReference => "activation_reference"
  end.
Definition parse_native_mutation_kind (value : string) : result VaultError MutationKind :=
  parse_name [("payload", Payload); ("executable_disabled", ExecutableDisabled);
              ("activation_reference", ActivationReference)]%string
    value "native WAL mutation kind is invalid".

Definition wal_state_name (state : MutationWalState) : string :=
  match state with
  | WalPrepared => "prepared" | WalApplied => "applied"
  | WalRestorePrepared => "restore_prepared" | WalRestored => "restored"
  | WalConflict => "conflict"
  end.
Definition parse_wal_state (value : string) : result VaultError MutationWalState :=
  parse_name [("prepared", WalPrepared); ("applied", WalApplied);
              ("restore_prepared", WalRestorePrepared); ("restored", WalRestored);
              ("conflict", WalConflict)]%string
    value "native WAL state is invalid".

Definition cli_wal_state_name (state : NativeCliWalState) : string :=
  match state with
  | CliPrepared => "prepared" | CliApplied => "applied"
  | CliRestorePrepared => "restore_prepared" | CliRestored => "restored"
  | CliConflict => "conflict"
  end.
Definition parse_cli_wal_state (value : string) : result VaultError NativeCliWalState :=
  parse_name [("prepared", CliPrepared); ("applied", CliApplied);
              ("restore_prepared", CliRestorePrepared); ("restored", CliRestored);
              ("conflict", CliConflict)]%string
    value "native CLI WAL state is invalid".

Definition cli_harness_name (harness : HarnessId) : result VaultError string :=
  match harness with
  | ClaudeCode => Ok "claude_code"%string
  | Codex => Ok "codex"%string
  | Hermes | OpenCode => Err (Validation "native CLI WAL does not support this harness")
  end.
Definition parse_cli_harness (value : string) : result VaultError HarnessId :=
  parse_name [("claude_code", ClaudeCode); ("codex", Codex)]%string
    value "native CLI WAL harness is invalid".

Lemma parse_transaction_status_name s : parse_transaction_status (transaction_status_name s) = Ok s.
Proof. by destruct s. Qed.
Lemma parse_sandbox_cleanup_state_name s :
  parse_sandbox_cleanup_state (sandbox_cleanup_state_name s) = Ok s.
Proof. by destruct s. Qed.
Lemma parse_mac_state_name s : parse_mac_state (mac_state_name s) = Ok s.
Proof. by destruct s. Qed.
Lemma parse_mac_substate_name s : parse_mac_substate (mac_substate_name s) = Ok s.
Proof. by destruct s. Qed.
Lemma parse_native_mutation_kind_name k :
  parse_native_mutation_kind (native_mutation_kind_name k) = Ok k.
Proof. by destruct k. Qed.
Lemma parse_wal_state_name s : parse_wal_state (wal_state_name s) = Ok s.
Proof. by destruct s. Qed.
Lemma parse_cli_wal_state_name s : parse_cli_wal_state (cli_wal_state_name s) = Ok s.
Proof. by destruct s. Qed.
Lemma parse_cli_harness_name h name : cli_harness_name h = Ok name -> parse_cli_harness name = Ok h.
Proof. destruct h; simpl; intros [= <-]; done. Qed.

#[export] Hint Rewrite parse_transaction_status_name parse_sandbox_cleanup_state_name
  parse_mac_state_name parse_mac_substate_name parse_native_mutation_kind_name
  parse_wal_state_name parse_cli_wal_state_name : native.

(** ** JSON columns *)

Definition ValidationError_to_string (self : ValidationError) : string :=
  match self with
  | EmptyRequired field => "required field " +:+ field +:+ " is empty"
  | TooLarge field limit => "field " +:+ field +:+ " exceeds limit " +:+ pretty limit
  | Invalid field => "invalid field " +:+ field
  end.

(** [map_err(|error| VaultError::Validation(error.to_string()))] *)
Definition validated {A} (r : result ValidationError A) : result VaultError A :=
  map_err (fun error => Validation (ValidationError_to_string error)) r.

Record NativeReceiptPayload := {
  rp_schema_version : N;
  rp_targets : list NativeReceiptEntry;
}.

(** The hand-written [Serialize] and [Deserialize] of the validated types: the wire form is
    written and read only for values that pass [validate]. *)
Definition validated_json {T} (validate : T -> bool) (wire : SerdeJson T) : SerdeJson T := {|
  to_vec v := if validate v then to_vec v else None;
  from_slice b := v ← from_slice b; if validate v then Some v else None |}.

(** The derived serialisers of the wire forms. *)
Class NativeJson := {
  json_native_value_wire : SerdeJson WireNativeValue;
  json_apply_receipt_wire : SerdeJson ApplyReceipt;
  json_receipt_payload_wire : SerdeJson NativeReceiptPayload;
  json_cli_operations_wire : SerdeJson (list CliOperation);
}.

Section json.
Context `{NativeJson}.

#[global] Instance json_native_value : SerdeJson WireNativeValue :=
  validated_json (fun v => is_ok (WireNativeValue_validate v)) json_native_value_wire.
#[global] Instance json_apply_receipt : SerdeJson ApplyReceipt :=
  validated_json (fun v => is_ok (ApplyReceipt_validate v)) json_apply_receipt_wire.
#[global] Instance json_receipt_payload : SerdeJson NativeReceiptPayload :=
  validated_json (fun v => forallb (fun entry => is_ok (WireNativeValue_validate (re_target entry)))
                             (rp_targets v)) json_receipt_payload_wire.
#[global] Instance json_cli_operations : SerdeJson (list CliOperation) :=
  validated_json (forallb (fun v => is_ok (CliOperation_validate v))) json_cli_operations_wire.
End json.

(** vault.rs; the message is the serialiser's. *)
Definition to_json {T} `{SerdeJson T} (value : T) : result VaultError bytes :=
  ok_or (to_vec value) (Serialization "serde_json").
Definition from_json {T} `{SerdeJson T} (b : bytes) : result VaultError T :=
  ok_or (from_slice b) (Serialization "serde_json").

Definition to_i64 (value : N) : result VaultError N :=
  if value <=? i64_max then Ok value else Err (Validation "timestamp exceeds i64").

(** ** Rows *)

Abbreviation TransactionId := rstr (only parsing).

Record NativePlanRow := {
  pl_approval_hash : bytes;
  pl_payload : bytes;
  pl_created_ms : N;
  pl_expires_ms : N;
}.

Record IdentityColumns := {
  ic_platform : string;
  ic_windows_moniker : option rstr;
  ic_windows_sid : option bytes;
  ic_mac_generation_id : option rstr;
  ic_mac_bundle_id : option rstr;
  ic_mac_container : option bytes;
  ic_mac_guardian_pgid : option Z;
  ic_mac_bundle_root : option bytes;
  ic_mac_signed_digest : option bytes;
  ic_mac_container_root : option bytes;
  ic_mac_generation_substate : option string;
  ic_mac_generation_state : option string;
}.

(** [native_transactions]; the identifier is the key. *)
Record RawNativeTransaction := {
  rt_plan_id : rstr;
  rt_status : string;
  rt_sandbox_cleanup_state : string;
  rt_current_step : N;
  rt_entered_step : N;
  rt_created_ms : N;
  rt_updated_ms : N;
  rt_committed_ms : option N;
  rt_identity : IdentityColumns;
}.

Record NativeTransactionSnapshot := {
  ts_transaction_id : TransactionId;
  ts_plan_id : PlanId;
  ts_status : NativeTransactionStatus;
  ts_sandbox_cleanup_state : NativeSandboxCleanupState;
  ts_current_step : N;
  ts_entered_step : N;
  ts_identity : NativeSandboxIdentity;
}.

(** Three nullable columns of a token. *)
Record TokenColumns := {
  tc_volume : option bytes;
  tc_object : option bytes;
  tc_topology : option bytes;
}.

Definition no_token : TokenColumns :=
  {| tc_volume := None; tc_object := None; tc_topology := None |}.
Definition token_columns (token : NativeObjectToken) : TokenColumns :=
  {| tc_volume := Some (tk_volume token); tc_object := Some (tk_object token);
     tc_topology := Some (tk_topology token) |}.

(** [native_mutation_wal]; the transaction and [target_sequence] are the key. *)
Record RawWalRecord := {
  rw_target_json : bytes;
  rw_object : NativeObjectToken;
  rw_applied : TokenColumns;
  rw_restored : TokenColumns;
  rw_rebind_target_sequence : option N;
  rw_rebind_old : TokenColumns;
  rw_rebind_new : TokenColumns;
  rw_before_image_id : rstr;
  rw_operation_kind : string;
  rw_expected : bytes;
  rw_intended_applied : bytes;
  rw_intended_restored : bytes;
  rw_state : string;
}.

Record NativeWalAbsenceRebind := {
  ar_target_sequence : N;
  ar_old_token : NativeObjectToken;
  ar_new_token : NativeObjectToken;
}.

Record NativeWalRecord := {
  wr_target_sequence : N;
  wr_target : WireNativeValue;
  wr_object_token : NativeObjectToken;
  wr_applied_object_token : option NativeObjectToken;
  wr_restored_object_token : option NativeObjectToken;
  wr_absence_rebind : option NativeWalAbsenceRebind;
  wr_before_image_id : rstr;
  wr_operation_kind : MutationKind;
  wr_expected : Fingerprint;
  wr_intended_applied : Fingerprint;
  wr_intended_restored : Fingerprint;
  wr_state : MutationWalState;
}.

(** [native_cli_wal]; the transaction and [sequence] are the key. *)
Record RawCliWalRecord := {
  rl_stable_id : rstr;
  rl_harness : string;
  rl_server_name : rstr;
  rl_expected_declaration : option bytes;
  rl_expected_fingerprint : option bytes;
  rl_intended_declaration : option bytes;
  rl_intended_fingerprint : option bytes;
  rl_forward_operations : bytes;
  rl_rollback_operations : bytes;
  rl_state : string;
}.

(** [NativeCliWalWrite]; a [NativeCliWalRecord] is one with its state. *)
Record NativeCliWalWrite := {
  cw_sequence : N;
  cw_stable_id : rstr;
  cw_harness : HarnessId;
  cw_server_name : rstr;
  cw_expected_declaration : option bytes;
  cw_expected_fingerprint : option Sha256Digest;
  cw_intended_declaration : option bytes;
  cw_intended_fingerprint : option Sha256Digest;
  cw_forward_operations : bytes;
  cw_rollback_operations : bytes;
}.
Record NativeCliWalRecord := {
  cr_write : NativeCliWalWrite;
  cr_state : NativeCliWalState;
}.

Record BeforeImageRow := {
  bi_plan_id : option rstr;
  bi_created_ms : N;
  bi_payload : bytes;
}.

Record ReceiptRow := {
  rr_successful : bool;
  rr_resolved : bool;
  rr_applied_ms : N;
  rr_payload_json : bytes;
}.

Record NativeReceiptRow := {
  nw_transaction_id : TransactionId;
  nw_target_count : N;
  nw_payload_json : bytes;
}.

Record OwnershipRow := {
  ow_transaction_id : TransactionId;
  ow_structural_location : rstr;
  ow_semantic_digest : bytes;
  ow_native_digest : bytes;
}.

Record NativeTables := {
  nt_plans : gmap rstr NativePlanRow;
  nt_lifecycle : gmap rstr string;
  nt_transactions : gmap TransactionId RawNativeTransaction;
  nt_wal : gmap TransactionId (gmap N RawWalRecord);
  nt_cli_wal : gmap TransactionId (gmap N RawCliWalRecord);
  nt_before_images : gmap rstr BeforeImageRow;
  nt_receipts : gmap rstr ReceiptRow;
  nt_native_receipts : gmap rstr NativeReceiptRow;
  nt_ownership : gmap rstr OwnershipRow;
}.

#[global] Instance NativeTransactionSnapshot_eq_dec : EqDecision NativeTransactionSnapshot.
Proof. solve_decision. Defined.
#[global] Instance TokenColumns_eq_dec : EqDecision TokenColumns.
Proof. solve_decision. Defined.
#[global] Instance NativeWalAbsenceRebind_eq_dec : EqDecision NativeWalAbsenceRebind.
Proof. solve_decision. Defined.
#[global] Instance NativeWalRecord_eq_dec : EqDecision NativeWalRecord.
Proof. solve_decision. Defined.
#[global] Instance NativeCliWalWrite_eq_dec : EqDecision NativeCliWalWrite.
Proof. solve_decision. Defined.
#[global] Instance NativeCliWalRecord_eq_dec : EqDecision NativeCliWalRecord.
Proof. solve_decision. Defined.
#[global] Instance NativePlanRow_eq_dec : EqDecision NativePlanRow.
Proof. solve_decision. Defined.

(** Table updates. *)
Definition set_plans (t : NativeTables) x := {|
  nt_plans := x; nt_lifecycle := nt_lifecycle t; nt_transactions := nt_transactions t;
  nt_wal := nt_wal t; nt_cli_wal := nt_cli_wal t; nt_before_images := nt_before_images t;
  nt_receipts := nt_receipts t; nt_native_receipts := nt_native_receipts t;
  nt_ownership := nt_ownership t |}.
Definition set_transactions (t : NativeTables) x := {|
  nt_plans := nt_plans t; nt_lifecycle := nt_lifecycle t; nt_transactions := x;
  nt_wal := nt_wal t; nt_cli_wal := nt_cli_wal t; nt_before_images := nt_before_images t;
  nt_receipts := nt_receipts t; nt_native_receipts := nt_native_receipts t;
  nt_ownership := nt_ownership t |}.
Definition set_wal (t : NativeTables) x := {|
  nt_plans := nt_plans t; nt_lifecycle := nt_lifecycle t; nt_transactions := nt_transactions t;
  nt_wal := x; nt_cli_wal := nt_cli_wal t; nt_before_images := nt_before_images t;
  nt_receipts := nt_receipts t; nt_native_receipts := nt_native_receipts t;
  nt_ownership := nt_ownership t |}.
Definition set_cli_wal (t : NativeTables) x := {|
  nt_plans := nt_plans t; nt_lifecycle := nt_lifecycle t; nt_transactions := nt_transactions t;
  nt_wal := nt_wal t; nt_cli_wal := x; nt_before_images := nt_before_images t;
  nt_receipts := nt_receipts t; nt_native_receipts := nt_native_receipts t;
  nt_ownership := nt_ownership t |}.
Definition set_before_images (t : NativeTables) x := {|
  nt_plans := nt_plans t; nt_lifecycle := nt_lifecycle t; nt_transactions := nt_transactions t;
  nt_wal := nt_wal t; nt_cli_wal := nt_cli_wal t; nt_before_images := x;
  nt_receipts := nt_receipts t; nt_native_receipts := nt_native_receipts t;
  nt_ownership := nt_ownership t |}.
Definition set_receipts (t : NativeTables) x := {|
  nt_plans := nt_plans t; nt_lifecycle := nt_lifecycle t; nt_transactions := nt_transactions t;
  nt_wal := nt_wal t; nt_cli_wal := nt_cli_wal t; nt_before_images := nt_before_images t;
  nt_receipts := x; nt_native_receipts := nt_native_receipts t;
  nt_ownership := nt_ownership t |}.
Definition set_native_receipts (t : NativeTables) x := {|
  nt_plans := nt_plans t; nt_lifecycle := nt_lifecycle t; nt_transactions := nt_transactions t;
  nt_wal := nt_wal t; nt_cli_wal := nt_cli_wal t; nt_before_images := nt_before_images t;
  nt_receipts := nt_receipts t; nt_native_receipts := x; nt_ownership := nt_ownership t |}.
Definition set_lifecycle (t : NativeTables) x := {|
  nt_plans := nt_plans t; nt_lifecycle := x; nt_transactions := nt_transactions t;
  nt_wal := nt_wal t; nt_cli_wal := nt_cli_wal t; nt_before_images := nt_before_images t;
  nt_receipts := nt_receipts t; nt_native_receipts := nt_native_receipts t;
  nt_ownership := nt_ownership t |}.
Definition set_ownership (t : NativeTables) x := {|
  nt_plans := nt_plans t; nt_lifecycle := nt_lifecycle t; nt_transactions := nt_transactions t;
  nt_wal := nt_wal t; nt_cli_wal := nt_cli_wal t; nt_before_images := nt_before_images t;
  nt_receipts := nt_receipts t; nt_native_receipts := nt_native_receipts t;
  nt_ownership := x |}.

(** The rows of one transaction. *)
Definition wal_of (t : NativeTables) (id : TransactionId) : gmap N RawWalRecord :=
  default ∅ (nt_wal t !! id).
Definition cli_wal_of (t : NativeTables) (id : TransactionId) : gmap N RawCliWalRecord :=
  default ∅ (nt_cli_wal t !! id).

(** [ORDER BY] of an integer key. *)
Definition by_sequence {A} (rows : gmap N A) : list (N * A) :=
  sort_by_key fst (map_to_list rows).

(** ** Decoding *)

Definition identity_columns (identity : NativeSandboxIdentity) : IdentityColumns :=
  match identity with
  | WindowsIdentity moniker sid => {|
      ic_platform := "windows"; ic_windows_moniker := Some moniker; ic_windows_sid := Some sid;
      ic_mac_generation_id := None; ic_mac_bundle_id := None; ic_mac_container := None;
      ic_mac_guardian_pgid := None; ic_mac_bundle_root := None; ic_mac_signed_digest := None;
      ic_mac_container_root := None; ic_mac_generation_substate := None;
      ic_mac_generation_state := None |}
  | MacosIdentity g => {|
      ic_platform := "macos"; ic_windows_moniker := None; ic_windows_sid := None;
      ic_mac_generation_id := Some (mg_generation_id g); ic_mac_bundle_id := Some (mg_bundle_id g);
      ic_mac_container := Some (mg_container g); ic_mac_guardian_pgid := mg_guardian_pgid g;
      ic_mac_bundle_root := mg_bundle_root g; ic_mac_signed_digest := mg_signed_digest g;
      ic_mac_container_root := mg_container_root g;
      ic_mac_generation_substate := Some (mac_substate_name (mg_substate g));
      ic_mac_generation_state := Some (mac_state_name (mg_state g)) |}
  end.

(** [Option::map(..).transpose()] *)
Definition transpose {A B} (f : A -> result VaultError B) (o : option A)
    : result VaultError (option B) :=
  match o with
  | Some a => let? b := f a in Ok (Some b)
  | None => Ok None
  end.

Definition i32_try_from (z : Z) : result VaultError Z :=
  if ((- 2 ^ 31 <=? z) && (z <? 2 ^ 31))%Z then Ok z
  else Err (Validation "macOS guardian PGID is invalid").

(** [bytes.try_into()] to a 32-byte array. *)
Definition digest_of (message : string) (b : bytes) : result VaultError bytes :=
  if len b =? 32 then Ok b else Err (Validation message).

(** The match on the columns, before validation. *)
Definition decode_identity (c : IdentityColumns) : result VaultError NativeSandboxIdentity :=
  let inconsistent := Err (Validation "native transaction sandbox identity is inconsistent") in
  match ic_windows_moniker c, ic_windows_sid c, ic_mac_generation_id c, ic_mac_bundle_id c,
        ic_mac_container c, ic_mac_generation_substate c, ic_mac_generation_state c with
  | Some moniker, Some sid, None, None, None, None, None =>
      if negb (bool_decide (ic_platform c = "windows"%string))
         || negb (bool_decide (ic_mac_guardian_pgid c = None))
         || negb (bool_decide (ic_mac_bundle_root c = None))
         || negb (bool_decide (ic_mac_signed_digest c = None))
         || negb (bool_decide (ic_mac_container_root c = None))
      then inconsistent else Ok (WindowsIdentity moniker sid)
  | None, None, Some generation_id, Some bundle_id, Some container, Some substate, Some state =>
      if negb (bool_decide (ic_platform c = "macos"%string)) then inconsistent else
      let? guardian_pgid := transpose i32_try_from (ic_mac_guardian_pgid c) in
      let? signed_digest := transpose (digest_of "macOS signed digest is invalid")
                              (ic_mac_signed_digest c) in
      let? substate := parse_mac_substate substate in
      let? state := parse_mac_state state in
      Ok (MacosIdentity {|
        mg_generation_id := generation_id; mg_bundle_id := bundle_id; mg_container := container;
        mg_guardian_pgid := guardian_pgid; mg_bundle_root := ic_mac_bundle_root c;
        mg_signed_digest := signed_digest; mg_container_root := ic_mac_container_root c;
        mg_substate := substate; mg_state := state |})
  | _, _, _, _, _, _, _ => inconsistent
  end.

Section decoding.
Context `{UuidCrate} `{NativeJson} `{Primitives}.

Definition decode_native_transaction (transaction_id : TransactionId) (raw : RawNativeTransaction)
    : result VaultError NativeTransactionSnapshot :=
  let? status := parse_transaction_status (rt_status raw) in
  let? sandbox_cleanup_state := parse_sandbox_cleanup_state (rt_sandbox_cleanup_state raw) in
  if u8_max <? rt_current_step raw
  then Err (Validation "native transaction step is outside u8") else
  if u8_max <? rt_entered_step raw
  then Err (Validation "entered native transaction step is outside u8") else
  let? plan_id := map_err (fun _ => Validation "native transaction plan id is invalid")
                    (id_from_str (rt_plan_id raw)) in
  let? identity := decode_identity (rt_identity raw) in
  let? _ := NativeSandboxIdentity_validate identity in
  Ok {| ts_transaction_id := transaction_id; ts_plan_id := plan_id; ts_status := status;
        ts_sandbox_cleanup_state := sandbox_cleanup_state;
        ts_current_step := rt_current_step raw; ts_entered_step := rt_entered_step raw;
        ts_identity := identity |}.

Definition load_native_transaction (t : NativeTables) (transaction_id : TransactionId)
    : result VaultError (option NativeTransactionSnapshot) :=
  transpose (decode_native_transaction transaction_id) (nt_transactions t !! transaction_id).

(** [.ok_or_else(|| "native transaction does not exist")] of every operation. *)
Definition require_native_transaction (t : NativeTables) (transaction_id : TransactionId)
    : result VaultError NativeTransactionSnapshot :=
  let? snapshot := load_native_transaction t transaction_id in
  ok_or snapshot (Validation "native transaction does not exist").

(** The three columns of an optional token: all null, or all present and non-empty. *)
Definition decode_token (c : TokenColumns) (message : string)
    : result VaultError (option NativeObjectToken) :=
  match tc_volume c, tc_object c, tc_topology c with
  | None, None, None => Ok None
  | Some volume, Some object, Some topology =>
      let token := {| tk_volume := volume; tk_object := object; tk_topology := topology |} in
      if token_complete token then Ok (Some token) else Err (Validation message)
  | _, _, _ => Err (Validation message)
  end.

Definition decode_absence_rebind (target_sequence : N) (raw : RawWalRecord)
    : result VaultError (option NativeWalAbsenceRebind) :=
  let incomplete := "native WAL absence rebind is incomplete"%string in
  let? old_token := decode_token (rw_rebind_old raw) incomplete in
  let? new_token := decode_token (rw_rebind_new raw) incomplete in
  match rw_rebind_target_sequence raw, old_token, new_token with
  | None, None, None => Ok None
  | Some sequence, Some old_token, Some new_token =>
      if u32_max <? sequence
      then Err (Validation "native WAL absence rebind sequence is outside u32") else
      if (target_sequence <=? sequence) || negb (is_absence_generation old_token)
         || negb (is_absence_generation new_token)
         || negb (has_same_parent_binding new_token old_token)
      then Err (Validation "native WAL absence rebind is invalid") else
      Ok (Some {| ar_target_sequence := sequence; ar_old_token := old_token;
                  ar_new_token := new_token |})
  | _, _, _ => Err (Validation incomplete)
  end.

Definition decode_fingerprint (b : bytes) : result VaultError Fingerprint :=
  digest_of "native fingerprint is not exactly 32 bytes" b.

(** The rules that relate the state of a row to its tokens. *)
Definition wal_state_rules (state : MutationWalState) (changed : bool)
    (applied restored : option NativeObjectToken) (rebind : option NativeWalAbsenceRebind)
    : result VaultError unit :=
  if match state with WalApplied | WalRestorePrepared => true | _ => false end
     && changed && bool_decide (applied = None)
  then Err (Validation "written native WAL state is missing applied object provenance") else
  if bool_decide (state = WalRestored) && changed && bool_decide (restored = None)
  then Err (Validation "restored native WAL state is missing restored object provenance") else
  if match state with WalPrepared | WalApplied => true | _ => false end
     && negb (bool_decide (restored = None))
  then Err (Validation "native WAL has restored provenance before restore preparation") else
  if negb (bool_decide (rebind = None))
     && negb (match state with WalRestorePrepared | WalRestored | WalConflict => true | _ => false end)
  then Err (Validation "native WAL absence rebind is attached to an invalid state") else Ok tt.

Definition decode_wal_record (row : N * RawWalRecord) : result VaultError NativeWalRecord :=
  let '(target_sequence, raw) := row in
  if u32_max <? target_sequence
  then Err (Validation "native WAL target sequence is outside u32") else
  let? target := from_json (T := WireNativeValue) (rw_target_json raw) in
  let? _ := validated (WireNativeValue_validate target) in
  if negb (token_complete (rw_object raw))
  then Err (Validation "native WAL object token is incomplete") else
  let? applied := decode_token (rw_applied raw) "native WAL applied object token is incomplete" in
  let? restored := decode_token (rw_restored raw) "native WAL restored object token is incomplete" in
  let? rebind := decode_absence_rebind target_sequence raw in
  let? expected := decode_fingerprint (rw_expected raw) in
  let? intended_applied := decode_fingerprint (rw_intended_applied raw) in
  let? intended_restored := decode_fingerprint (rw_intended_restored raw) in
  let? state := parse_wal_state (rw_state raw) in
  let? _ := wal_state_rules state (negb (bool_decide (expected = intended_applied)))
              applied restored rebind in
  let? operation_kind := parse_native_mutation_kind (rw_operation_kind raw) in
  Ok {| wr_target_sequence := target_sequence; wr_target := target;
        wr_object_token := rw_object raw; wr_applied_object_token := applied;
        wr_restored_object_token := restored; wr_absence_rebind := rebind;
        wr_before_image_id := rw_before_image_id raw; wr_operation_kind := operation_kind;
        wr_expected := expected; wr_intended_applied := intended_applied;
        wr_intended_restored := intended_restored; wr_state := state |}.

Definition load_native_wal_record (t : NativeTables) (transaction_id : TransactionId)
    (target_sequence : N) : result VaultError (option NativeWalRecord) :=
  transpose (fun raw => decode_wal_record (target_sequence, raw))
    (wal_of t transaction_id !! target_sequence).

Definition load_native_wal (t : NativeTables) (transaction_id : TransactionId)
    : result VaultError (list NativeWalRecord) :=
  try_map decode_wal_record (by_sequence (wal_of t transaction_id)).

(** [Vault::native_wal] *)
Definition native_wal := load_native_wal.

(** ** Receipts and ownership *)

(** [BTreeSet::insert] of each value, stopping at a repetition. *)
Definition insert_unique {A} `{Countable A} (seen : gset A) (x : A) (error : VaultError)
    : result VaultError (gset A) :=
  if bool_decide (x ∈ seen) then Err error else Ok ({[ x ]} ∪ seen).

Definition load_native_receipt (t : NativeTables) (plan_id : PlanId)
    : result VaultError (option NativeApplyReceipt) :=
  let plan_text := uuid_hyphenated plan_id in
  match nt_native_receipts t !! plan_text, nt_receipts t !! plan_text with
  | Some native, Some receipt =>
      let? payload := from_json (T := NativeReceiptPayload) (nw_payload_json native) in
      if negb (rp_schema_version payload =? 1)
         || negb (nw_target_count native =? len (rp_targets payload))
      then Err (Validation "native receipt metadata is inconsistent") else
      let? legacy := from_json (T := ApplyReceipt) (rr_payload_json receipt) in
      let? _ := validated (ApplyReceipt_validate legacy) in
      if negb (bool_decide (rc_plan_id legacy = plan_id))
         || negb (len (rc_resulting_digests legacy) =? len (rp_targets payload))
      then Err (Validation "native receipt legacy metadata is inconsistent") else
      let? _ := try_fold (fun seen entry =>
          let? _ := validated (WireNativeValue_validate (re_target entry.1)) in
          let inconsistent := Validation "native receipt target metadata is inconsistent" in
          if negb (bool_decide (entry.2 = re_fingerprint entry.1)) then Err inconsistent else
          let? json := to_json (re_target entry.1) in
          insert_unique seen json inconsistent)
        ∅ (zip (rp_targets payload) (rc_resulting_digests legacy)) in
      Ok (Some {| nr_legacy := legacy; nr_targets := rp_targets payload |})
  | _, _ => Ok None
  end.

Definition ownership_matches (t : NativeTables) (transaction_id : TransactionId)
    (ownership : list OwnershipChange) : bool :=
  (len (map_to_list (filter (fun row => ow_transaction_id row.2 = transaction_id) (nt_ownership t)))
   =? len ownership)
  && forallb (fun expected =>
       match nt_ownership t !! oc_stable_id expected with
       | Some stored =>
           bool_decide (ow_transaction_id stored = transaction_id)
           && bool_decide (ow_structural_location stored = oc_structural_location expected)
           && bool_decide (ow_semantic_digest stored = oc_semantic_digest expected)
           && bool_decide (ow_native_digest stored = oc_native_digest expected)
       | None => false
       end) ownership.

(** ** The command-line log *)

Definition MAX_CLI_DECLARATION_BYTES : N := 1024 * 1024.
Definition MAX_CLI_OPERATIONS_BYTES : N := 1024 * 1024.
Definition MAX_CLI_WAL_ROWS : N := 1024.

Definition validate_cli_declaration (declaration : option bytes) (fingerprint : option Sha256Digest)
    (field : string) : result VaultError unit :=
  match declaration, fingerprint with
  | None, None => Ok tt
  | Some b, Some expected =>
      if negb (bool_decide (b = [])) && (len b <=? MAX_CLI_DECLARATION_BYTES) then
        if bool_decide (from_utf8 b = None)
        then Err (Validation ("native CLI WAL " +:+ field +:+ " declaration is not UTF-8")) else
        if negb (bool_decide (sha256 b = expected))
        then Err (Validation ("native CLI WAL " +:+ field +:+ " declaration fingerprint does not match"))
        else Ok tt
      else Err (Validation ("native CLI WAL " +:+ field +:+ " declaration length is invalid"))
  | _, _ => Err (Validation ("native CLI WAL " +:+ field +:+
                             " declaration and fingerprint must be paired"))
  end.

Definition validate_native_cli_wal_write (write : NativeCliWalWrite) : result VaultError unit :=
  if MAX_CLI_WAL_ROWS <=? cw_sequence write
  then Err (Validation "native CLI WAL sequence exceeds its bound") else
  if trim_is_empty (cw_stable_id write) || (512 <? str_len (cw_stable_id write))
  then Err (Validation "native CLI WAL stable id length is invalid") else
  let? _ := cli_harness_name (cw_harness write) in
  if negb (bool_decide (cw_server_name write = lit "context-relay"))
  then Err (Validation "native CLI WAL supports only the context-relay server") else
  let? _ := validate_cli_declaration (cw_expected_declaration write)
              (cw_expected_fingerprint write) "expected" in
  let? _ := validate_cli_declaration (cw_intended_declaration write)
              (cw_intended_fingerprint write) "intended" in
  if bool_decide (cw_expected_declaration write = None)
     && bool_decide (cw_intended_declaration write = None)
  then Err (Validation "native CLI WAL mutation cannot preserve absence") else
  if bool_decide (cw_forward_operations write = [])
     || (MAX_CLI_OPERATIONS_BYTES <? len (cw_forward_operations write))
     || bool_decide (cw_rollback_operations write = [])
     || (MAX_CLI_OPERATIONS_BYTES <? len (cw_rollback_operations write))
  then Err (Validation "native CLI WAL operation payload length is invalid") else Ok tt.

(** [validate_native_cli_wal_record] is [validate_native_cli_wal_write] of the record. *)
Definition decode_cli_wal_record (row : N * RawCliWalRecord) : result VaultError NativeCliWalRecord :=
  let '(sequence, raw) := row in
  let? expected_fingerprint :=
    transpose (digest_of "native CLI WAL expected fingerprint is not exactly 32 bytes")
      (rl_expected_fingerprint raw) in
  let? intended_fingerprint :=
    transpose (digest_of "native CLI WAL intended fingerprint is not exactly 32 bytes")
      (rl_intended_fingerprint raw) in
  if u32_max <? sequence then Err (Validation "native CLI WAL sequence is outside u32") else
  let? harness := parse_cli_harness (rl_harness raw) in
  let? state := parse_cli_wal_state (rl_state raw) in
  let record := {|
    cr_write := {|
      cw_sequence := sequence; cw_stable_id := rl_stable_id raw; cw_harness := harness;
      cw_server_name := rl_server_name raw;
      cw_expected_declaration := rl_expected_declaration raw;
      cw_expected_fingerprint := expected_fingerprint;
      cw_intended_declaration := rl_intended_declaration raw;
      cw_intended_fingerprint := intended_fingerprint;
      cw_forward_operations := rl_forward_operations raw;
      cw_rollback_operations := rl_rollback_operations raw |};
    cr_state := state |} in
  let? _ := validate_native_cli_wal_write (cr_write record) in
  Ok record.

Definition load_native_cli_wal_record (t : NativeTables) (transaction_id : TransactionId)
    (sequence : N) : result VaultError (option NativeCliWalRecord) :=
  transpose (fun raw => decode_cli_wal_record (sequence, raw))
    (cli_wal_of t transaction_id !! sequence).

Definition load_native_cli_wal (t : NativeTables) (transaction_id : TransactionId)
    : result VaultError (list NativeCliWalRecord) :=
  try_map (fun row =>
      if u32_max <? row.1 then Err (Validation "native CLI WAL sequence is outside u32") else
      decode_cli_wal_record row) (by_sequence (cli_wal_of t transaction_id)).

(** [Vault::native_cli_wal] *)
Definition native_cli_wal (t : NativeTables) (transaction_id : TransactionId)
    : result VaultError (list NativeCliWalRecord) :=
  if trim_is_empty transaction_id
  then Err (Validation "native CLI WAL transaction id cannot be empty") else
  load_native_cli_wal t transaction_id.

End decoding.
