(* ===== verification/NativeWal.v ===== *)
(** * Native transactions: the write-ahead logs (core/vault/native_transactions.rs)

    Before-images, the log of file mutations and the log of command-line mutations: every
    operation of the vault on them, as a transaction on the tables.  An operation that fails
    leaves the tables as they were. *)

From S2P Require Import Prelude Ordering Text Protocol Minicbor CanonicalCbor Domain.
From S2P Require Import SyncPayload Crypto Operation Causal Merge Transport StateSummary.
From S2P Require Import Admission NativeModel NativeTables.

#[local] Open Scope N_scope.

(** ** Constraints of the log tables (migrations 0003 and 0009) *)

Definition nonempty_opt (o : option bytes) : bool :=
  match o with Some b => negb (bool_decide (b = [])) | None => true end.

Definition token_checks (c : TokenColumns) : bool :=
  nonempty_opt (tc_volume c) && nonempty_opt (tc_object c) && nonempty_opt (tc_topology c)
  && match tc_volume c, tc_object c, tc_topology c with
     | None, None, None | Some _, Some _, Some _ => true
     | _, _, _ => false
     end.

Definition wal_state_names : list string :=
  ["prepared"; "applied"; "restore_prepared"; "restored"; "conflict"]%string.
Definition mutation_kind_names : list string :=
  ["payload"; "executable_disabled"; "activation_reference"]%string.

(** The [CHECK] constraints of [native_mutation_wal]. *)
Definition wal_checks (raw : RawWalRecord) : bool :=
  negb (bool_decide (rw_target_json raw = [])) && token_complete (rw_object raw)
  && token_checks (rw_applied raw) && token_checks (rw_restored raw)
  && token_checks (rw_rebind_old raw) && token_checks (rw_rebind_new raw)
  && match rw_rebind_target_sequence raw, tc_volume (rw_rebind_old raw), tc_volume (rw_rebind_new raw) with
     | None, None, None | Some _, Some _, Some _ => true
     | _, _, _ => false
     end
  && bool_decide (rw_operation_kind raw ∈ mutation_kind_names)
  && (len (rw_expected raw) =? 32) && (len (rw_intended_applied raw) =? 32)
  && (len (rw_intended_restored raw) =? 32) && bool_decide (rw_state raw ∈ wal_state_names).

Definition declaration_checks (declaration fingerprint : option bytes) : bool :=
  match declaration, fingerprint with
  | None, None => true
  | Some d, Some f => negb (bool_decide (d = [])) && (len f =? 32)
  | _, _ => false
  end.

(** The [CHECK] constraints of [native_cli_wal]; SQLite's [length] of text counts characters. *)
Definition cli_wal_checks (raw : RawCliWalRecord) : bool :=
  (1 <=? len (rl_stable_id raw)) && (len (rl_stable_id raw) <=? 512)
  && bool_decide (rl_harness raw ∈ ["claude_code"; "codex"]%string)
  && (1 <=? len (rl_server_name raw)) && (len (rl_server_name raw) <=? 256)
  && declaration_checks (rl_expected_declaration raw) (rl_expected_fingerprint raw)
  && declaration_checks (rl_intended_declaration raw) (rl_intended_fingerprint raw)
  && negb (bool_decide (rl_expected_declaration raw = None)
           && bool_decide (rl_intended_declaration raw = None))
  && negb (bool_decide (rl_forward_operations raw = []))
  && negb (bool_decide (rl_rollback_operations raw = []))
  && bool_decide (rl_state raw ∈ wal_state_names).

(** ** Statements *)

Definition put_wal_row (t : NativeTables) (id : TransactionId) (sequence : N) (raw : RawWalRecord)
    : result VaultError NativeTables :=
  if wal_checks raw
  then Ok (set_wal t (<[id := <[sequence := raw]> (wal_of t id)]> (nt_wal t)))
  else Err Database.

(** [UPDATE native_mutation_wal ... WHERE transaction_id AND target_sequence AND condition],
    which must change one row. *)
Definition update_wal_row (t : NativeTables) (id : TransactionId) (sequence : N)
    (condition : RawWalRecord -> bool) (f : RawWalRecord -> RawWalRecord) (message : string)
    : result VaultError NativeTables :=
  match wal_of t id !! sequence with
  | Some raw =>
      if condition raw then put_wal_row t id sequence (f raw) else Err (Validation message)
  | None => Err (Validation message)
  end.

Definition put_cli_row (t : NativeTables) (id : TransactionId) (sequence : N)
    (raw : RawCliWalRecord) : result VaultError NativeTables :=
  if cli_wal_checks raw
  then Ok (set_cli_wal t (<[id := <[sequence := raw]> (cli_wal_of t id)]> (nt_cli_wal t)))
  else Err Database.

Definition update_cli_row (t : NativeTables) (id : TransactionId) (sequence : N)
    (condition : RawCliWalRecord -> bool) (f : RawCliWalRecord -> RawCliWalRecord)
    (message : string) : result VaultError NativeTables :=
  match cli_wal_of t id !! sequence with
  | Some raw =>
      if condition raw then put_cli_row t id sequence (f raw) else Err (Validation message)
  | None => Err (Validation message)
  end.

Definition with_wal_state (raw : RawWalRecord) (state : string) : RawWalRecord := {|
  rw_target_json := rw_target_json raw; rw_object := rw_object raw; rw_applied := rw_applied raw;
  rw_restored := rw_restored raw; rw_rebind_target_sequence := rw_rebind_target_sequence raw;
  rw_rebind_old := rw_rebind_old raw; rw_rebind_new := rw_rebind_new raw;
  rw_before_image_id := rw_before_image_id raw; rw_operation_kind := rw_operation_kind raw;
  rw_expected := rw_expected raw; rw_intended_applied := rw_intended_applied raw;
  rw_intended_restored := rw_intended_restored raw; rw_state := state |}.
Definition with_applied (raw : RawWalRecord) (token : NativeObjectToken) : RawWalRecord := {|
  rw_target_json := rw_target_json raw; rw_object := rw_object raw;
  rw_applied := token_columns token;
  rw_restored := rw_restored raw; rw_rebind_target_sequence := rw_rebind_target_sequence raw;
  rw_rebind_old := rw_rebind_old raw; rw_rebind_new := rw_rebind_new raw;
  rw_before_image_id := rw_before_image_id raw; rw_operation_kind := rw_operation_kind raw;
  rw_expected := rw_expected raw; rw_intended_applied := rw_intended_applied raw;
  rw_intended_restored := rw_intended_restored raw; rw_state := rw_state raw |}.
Definition with_restored (raw : RawWalRecord) (token : NativeObjectToken) : RawWalRecord := {|
  rw_target_json := rw_target_json raw; rw_object := rw_object raw; rw_applied := rw_applied raw;
  rw_restored := token_columns token;
  rw_rebind_target_sequence := rw_rebind_target_sequence raw;
  rw_rebind_old := rw_rebind_old raw; rw_rebind_new := rw_rebind_new raw;
  rw_before_image_id := rw_before_image_id raw; rw_operation_kind := rw_operation_kind raw;
  rw_expected := rw_expected raw; rw_intended_applied := rw_intended_applied raw;
  rw_intended_restored := rw_intended_restored raw; rw_state := rw_state raw |}.
Definition with_rebind (raw : RawWalRecord) (sequence : N) (old new : NativeObjectToken)
    : RawWalRecord := {|
  rw_target_json := rw_target_json raw; rw_object := rw_object raw; rw_applied := rw_applied raw;
  rw_restored := rw_restored raw; rw_rebind_target_sequence := Some sequence;
  rw_rebind_old := token_columns old; rw_rebind_new := token_columns new;
  rw_before_image_id := rw_before_image_id raw; rw_operation_kind := rw_operation_kind raw;
  rw_expected := rw_expected raw; rw_intended_applied := rw_intended_applied raw;
  rw_intended_restored := rw_intended_restored raw; rw_state := rw_state raw |}.
Definition with_cli_state (raw : RawCliWalRecord) (state : string) : RawCliWalRecord := {|
  rl_stable_id := rl_stable_id raw; rl_harness := rl_harness raw;
  rl_server_name := rl_server_name raw;
  rl_expected_declaration := rl_expected_declaration raw;
  rl_expected_fingerprint := rl_expected_fingerprint raw;
  rl_intended_declaration := rl_intended_declaration raw;
  rl_intended_fingerprint := rl_intended_fingerprint raw;
  rl_forward_operations := rl_forward_operations raw;
  rl_rollback_operations := rl_rollback_operations raw; rl_state := state |}.

(** ** Before-images *)

Definition MAX_BEFORE_IMAGE_BATCH : N := 4096.

Record BeforeImagePolicy := { bp_max_bytes : N; bp_retention_ms : N }.

Record BeforeImageWrite := {
  iw_id : rstr;
  iw_plan_id : option PlanId;
  iw_payload : bytes;
  iw_created_ms : N;
}.

(** A log row refers to the image: [ON DELETE RESTRICT]. *)
Definition image_referenced (t : NativeTables) (id : rstr) : bool :=
  existsb (fun rows => existsb (fun row => bool_decide (rw_before_image_id row.2 = id))
                         (map_to_list rows.2)) (map_to_list (nt_wal t)).

Definition delete_before_image (t : NativeTables) (id : rstr) : result VaultError NativeTables :=
  if bool_decide (is_Some (nt_before_images t !! id)) && image_referenced t id
  then Err Database else Ok (set_before_images t (delete id (nt_before_images t))).

Definition has_images (t : NativeTables) (plan : rstr) : bool :=
  existsb (fun row => bool_decide (bi_plan_id row.2 = Some plan)) (map_to_list (nt_before_images t)).

Section before_images.
Context `{UuidCrate}.

(** The checks on the batch before the transaction starts. *)
Definition validate_batch (images : list BeforeImageWrite) (created_ms : N)
    : result VaultError (gset rstr * N) :=
  try_fold (fun (acc : gset rstr * N) image =>
      if trim_is_empty (iw_id image)
      then Err (Validation "before-image id cannot be empty") else
      let? ids := insert_unique acc.1 (iw_id image)
                    (Validation "before-image batch contains duplicate ids") in
      if negb (iw_created_ms image =? created_ms)
      then Err (Validation "before-image batch timestamps must match") else
      let? payload_bytes := ok_or (checked_add u64_max acc.2 (len (iw_payload image)))
                              BudgetExceeded in
      Ok (ids, payload_bytes)) (∅, 0) images.

(** The expired images of resolved receipts, oldest first. *)
Definition eviction_candidates (t : NativeTables) (cutoff : N) : list (rstr * rstr * N) :=
  let rows := omap (fun row : rstr * BeforeImageRow =>
      plan ← bi_plan_id row.2;
      receipt ← nt_receipts t !! plan;
      if rr_successful receipt && rr_resolved receipt && (rr_applied_ms receipt <? cutoff)
         && bool_decide (nt_native_receipts t !! plan = None)
      then Some ((rr_applied_ms receipt, (bi_created_ms row.2, row.1)),
                 (row.1, plan, len (bi_payload row.2)))
      else None) (map_to_list (nt_before_images t)) in
  snd <$> sort_by_key fst rows.

Definition evict (policy : BeforeImagePolicy) (ids : gset rstr)
    (acc : NativeTables * N) (candidate : rstr * rstr * N)
    : result VaultError (NativeTables * N) :=
  let '(t, required) := acc in
  let '(id, plan, bytes) := candidate in
  if required <=? bp_max_bytes policy then Ok acc else
  if bool_decide (id ∈ ids) then Ok acc else
  let? t := delete_before_image t id in
  let t := if has_images t plan then t else set_receipts t (delete plan (nt_receipts t)) in
  Ok (t, saturating_sub required bytes).

Definition upsert_image (t : NativeTables) (image : BeforeImageWrite)
    : result VaultError NativeTables :=
  let? created_ms := to_i64 (iw_created_ms image) in
  Ok (set_before_images t (<[iw_id image := {|
        bi_plan_id := uuid_hyphenated <$> iw_plan_id image; bi_created_ms := created_ms;
        bi_payload := iw_payload image |}]> (nt_before_images t))).

Definition put_before_images_batch (t : NativeTables) (images : list BeforeImageWrite)
    (policy : BeforeImagePolicy) : result VaultError NativeTables :=
  match images with
  | [] => Ok t
  | first :: _ =>
      if MAX_BEFORE_IMAGE_BATCH <? len images
      then Err (Validation "before-image batch is too large") else
      let created_ms := iw_created_ms first in
      let? (ids, payload_bytes) := validate_batch images created_ms in
      if bp_max_bytes policy <? payload_bytes then Err BudgetExceeded else
      let current_bytes :=
        foldr (fun row acc => len (bi_payload row.2) + acc) 0 (map_to_list (nt_before_images t)) in
      let? replaced_bytes := try_fold (fun acc id =>
          match nt_before_images t !! id with
          | Some row => ok_or (checked_add u64_max acc (len (bi_payload row))) BudgetExceeded
          | None => Ok acc
          end) 0 (elements ids) in
      let? required := ok_or (checked_add u64_max (saturating_sub current_bytes replaced_bytes)
                                payload_bytes) BudgetExceeded in
      let? (t, required) :=
        if bp_max_bytes policy <? required then
          let? cutoff := to_i64 (saturating_sub created_ms (bp_retention_ms policy)) in
          try_fold (evict policy ids) (t, required) (eviction_candidates t cutoff)
        else Ok (t, required) in
      if bp_max_bytes policy <? required then Err BudgetExceeded else
      try_fold upsert_image t images
  end.
End before_images.

(** [Vault::native_before_image] *)
Definition native_before_image (t : NativeTables) (id : rstr) : result VaultError bytes :=
  ok_or (bi_payload <$> nt_before_images t !! id) (Validation "native before-image is missing").

(** ** File mutations *)

Record NativeWalWrite := {
  ww_target_sequence : N;
  ww_target : WireNativeValue;
  ww_object_token : NativeObjectToken;
  ww_before_image_id : rstr;
  ww_operation_kind : MutationKind;
  ww_expected : Fingerprint;
  ww_intended_applied : Fingerprint;
  ww_intended_restored : Fingerprint;
}.

Definition wal_write_matches (existing : NativeWalRecord) (write : NativeWalWrite) : bool :=
  (wr_target_sequence existing =? ww_target_sequence write)
  && bool_decide (wr_target existing = ww_target write)
  && bool_decide (wr_object_token existing = ww_object_token write)
  && bool_decide (wr_before_image_id existing = ww_before_image_id write)
  && bool_decide (wr_operation_kind existing = ww_operation_kind write)
  && bool_decide (wr_expected existing = ww_expected write)
  && bool_decide (wr_intended_applied existing = ww_intended_applied write)
  && bool_decide (wr_intended_restored existing = ww_intended_restored write).

Definition same_native_target (left right : WireNativeValue) : bool :=
  bool_decide (wv_platform left = wv_platform right) && bool_decide (wv_bytes left = wv_bytes right).

Section wal.
Context `{UuidCrate} `{NativeJson} `{Primitives}.

Definition prepare_native_wal (t : NativeTables) (transaction_id : TransactionId)
    (write : NativeWalWrite) : result VaultError NativeTables :=
  let? _ := validated (WireNativeValue_validate (ww_target write)) in
  if trim_is_empty (ww_before_image_id write)
  then Err (Validation "native WAL before-image id cannot be empty") else
  if negb (token_complete (ww_object_token write))
  then Err (Validation "native WAL object token is incomplete") else
  let? target_json := to_json (ww_target write) in
  let? snapshot := require_native_transaction t transaction_id in
  if negb (bool_decide (ts_status snapshot = TxPending))
  then Err (Validation "native WAL can only be prepared for a pending transaction") else
  if negb (bool_decide ((nt_before_images t !! ww_before_image_id write ≫= bi_plan_id)
                        = Some (uuid_hyphenated (ts_plan_id snapshot))))
  then Err (Validation "native WAL before image does not belong to its plan") else
  let? existing := load_native_wal_record t transaction_id (ww_target_sequence write) in
  match existing with
  | Some existing =>
      if wal_write_matches existing write then Ok t
      else Err (Validation "native WAL target sequence is immutable")
  | None =>
      if negb (ww_target_sequence write =? len (map_to_list (wal_of t transaction_id)))
      then Err (Validation "native WAL target sequence must be contiguous") else
      let? records := load_native_wal t transaction_id in
      if existsb (fun record => same_native_target (wr_target record) (ww_target write)) records
      then Err (Validation "native WAL target cannot appear more than once") else
      (* UNIQUE (transaction_id, target_json) *)
      if existsb (fun row => bool_decide (rw_target_json row.2 = target_json))
           (map_to_list (wal_of t transaction_id))
      then Err Database else
      put_wal_row t transaction_id (ww_target_sequence write) {|
        rw_target_json := target_json; rw_object := ww_object_token write;
        rw_applied := no_token; rw_restored := no_token; rw_rebind_target_sequence := None;
        rw_rebind_old := no_token; rw_rebind_new := no_token;
        rw_before_image_id := ww_before_image_id write;
        rw_operation_kind := native_mutation_kind_name (ww_operation_kind write);
        rw_expected := ww_expected write; rw_intended_applied := ww_intended_applied write;
        rw_intended_restored := ww_intended_restored write; rw_state := "prepared" |}
  end.

(** [.ok_or_else(|| "native WAL entry does not exist")] *)
Definition require_wal_record (t : NativeTables) (transaction_id : TransactionId)
    (target_sequence : N) : result VaultError NativeWalRecord :=
  let? existing := load_native_wal_record t transaction_id target_sequence in
  ok_or existing (Validation "native WAL entry does not exist").

Definition state_is (state : MutationWalState) (raw : RawWalRecord) : bool :=
  bool_decide (rw_state raw = wal_state_name state).

Definition transition_allowed (state next : MutationWalState) : bool :=
  match state, next with
  | WalPrepared, (WalApplied | WalRestorePrepared | WalRestored | WalConflict)
  | WalApplied, (WalRestorePrepared | WalConflict)
  | WalRestorePrepared, (WalRestored | WalConflict) => true
  | _, _ => false
  end.

Definition wal_changed (record : NativeWalRecord) : bool :=
  negb (bool_decide (wr_expected record = wr_intended_applied record)).

Definition transition_native_wal (t : NativeTables) (transaction_id : TransactionId)
    (target_sequence : N) (next : MutationWalState) : result VaultError NativeTables :=
  let? existing := require_wal_record t transaction_id target_sequence in
  if bool_decide (wr_state existing = next) then Ok t else
  if bool_decide (wr_state existing = WalPrepared) && bool_decide (next = WalApplied)
     && wal_changed existing && bool_decide (wr_applied_object_token existing = None)
  then Err (Validation "written native WAL must persist applied provenance atomically") else
  if bool_decide (wr_state existing = WalPrepared) && bool_decide (next = WalRestorePrepared)
     && bool_decide (wr_applied_object_token existing = None)
  then Err (Validation "prepared native WAL cannot restore without a durable candidate") else
  if bool_decide (wr_state existing = WalRestorePrepared) && bool_decide (next = WalRestored)
     && wal_changed existing && bool_decide (wr_restored_object_token existing = None)
  then Err (Validation "restored native WAL must persist restored provenance first") else
  if negb (transition_allowed (wr_state existing) next)
  then Err (Validation "native WAL state transition is not monotonic") else
  update_wal_row t transaction_id target_sequence (state_is (wr_state existing))
    (fun raw => with_wal_state raw (wal_state_name next)) "native WAL state changed concurrently".

Definition record_native_wal_candidate (t : NativeTables) (transaction_id : TransactionId)
    (target_sequence : N) (object_token : NativeObjectToken) : result VaultError NativeTables :=
  if negb (token_complete object_token)
  then Err (Validation "native WAL candidate object token is empty") else
  let? existing := require_wal_record t transaction_id target_sequence in
  if negb (bool_decide (wr_state existing = WalPrepared))
  then Err (Validation "native WAL candidate can only be recorded while prepared") else
  if bool_decide (wr_expected existing = wr_intended_applied existing)
  then Err (Validation "unchanged native WAL cannot have an install candidate") else
  match wr_applied_object_token existing with
  | Some existing_token =>
      if negb (bool_decide (existing_token = object_token))
      then Err (Validation "native WAL candidate object token is immutable") else Ok t
  | None =>
      update_wal_row t transaction_id target_sequence
        (fun raw => state_is WalPrepared raw && bool_decide (rw_applied raw = no_token))
        (fun raw => with_applied raw object_token) "native WAL candidate changed concurrently"
  end.

Definition transition_native_wal_with_applied_object_token (t : NativeTables)
    (transaction_id : TransactionId) (target_sequence : N) (next : MutationWalState)
    (object_token : NativeObjectToken) : result VaultError NativeTables :=
  if negb (token_complete object_token)
  then Err (Validation "native WAL object token is empty") else
  let? existing := require_wal_record t transaction_id target_sequence in
  if match wr_applied_object_token existing with
     | Some existing_token => negb (bool_decide (existing_token = object_token))
     | None => false
     end
  then Err (Validation "native WAL applied object token is immutable") else
  if bool_decide (wr_state existing = next) then
    if negb (bool_decide (wr_applied_object_token existing = Some object_token))
    then Err (Validation "native WAL applied object token changed after transition") else Ok t
  else
  if negb (match wr_state existing, next with
           | WalPrepared, (WalApplied | WalConflict) => true | _, _ => false end)
  then Err (Validation "native WAL token transition is not monotonic") else
  update_wal_row t transaction_id target_sequence (state_is (wr_state existing))
    (fun raw => with_wal_state (with_applied raw object_token) (wal_state_name next))
    "native WAL state changed concurrently".

Definition record_native_wal_restored_candidate (t : NativeTables)
    (transaction_id : TransactionId) (target_sequence : N) (object_token : NativeObjectToken)
    : result VaultError NativeTables :=
  if negb (token_complete object_token)
  then Err (Validation "native WAL restored candidate object token is empty") else
  let? existing := require_wal_record t transaction_id target_sequence in
  if negb (bool_decide (wr_state existing = WalRestorePrepared))
  then Err (Validation "restored candidate requires restore-prepared WAL state") else
  if bool_decide (wr_expected existing = wr_intended_applied existing)
  then Err (Validation "unchanged native WAL cannot have a restored candidate") else
  match wr_restored_object_token existing with
  | Some existing_token =>
      if negb (bool_decide (existing_token = object_token))
      then Err (Validation "native WAL restored candidate object token is immutable") else Ok t
  | None =>
      update_wal_row t transaction_id target_sequence
        (fun raw => state_is WalRestorePrepared raw && bool_decide (rw_restored raw = no_token))
        (fun raw => with_restored raw object_token)
        "native WAL restored candidate changed concurrently"
  end.

(** *** Absence generations *)

Definition min_sequence (l : list N) : option N :=
  match l with [] => None | x :: l' => Some (foldr N.min x l') end.

Definition validate_absence_rebind_edge (records : list NativeWalRecord)
    (target_sequence later_sequence : N) (expected_old_token new_token : NativeObjectToken)
    : result VaultError (NativeWalRecord * NativeWalRecord) :=
  if later_sequence <=? target_sequence
  then Err (Validation "native WAL absence rebind requires a descending restore edge") else
  if negb (is_absence_generation expected_old_token) || negb (is_absence_generation new_token)
     || negb (has_same_parent_binding new_token expected_old_token)
  then Err (Validation "native WAL absence rebind token is not a matching parent generation") else
  let? existing := ok_or (find (fun record => wr_target_sequence record =? target_sequence) records)
                     (Validation "native WAL entry does not exist") in
  let? later := ok_or (find (fun record => wr_target_sequence record =? later_sequence) records)
                  (Validation "later native WAL restore entry does not exist") in
  if negb (bool_decide (wr_state existing = WalRestorePrepared))
  then Err (Validation "native WAL absence rebind requires restore-prepared target") else
  if negb (match wr_state later with WalRestorePrepared | WalRestored => true | _ => false end)
  then Err (Validation "native WAL absence rebind requires a proven later restore") else
  let? restored_token := ok_or (wr_restored_object_token later)
    (Validation "native WAL absence rebind requires later restored provenance") in
  if negb (has_same_parent_binding (wr_object_token existing) expected_old_token)
     || negb (has_same_parent_binding (wr_object_token later) expected_old_token)
     || negb (has_same_parent_binding restored_token expected_old_token)
  then Err (Validation "native WAL absence rebind crossed parent bindings") else
  let nearest_later := min_sequence (wr_target_sequence <$> filter (fun record =>
      (target_sequence <? wr_target_sequence record)
      && negb (bool_decide (wr_applied_object_token record = None))
      && has_same_parent_binding (wr_object_token record) (wr_object_token existing) = true)
      records) in
  if negb (bool_decide (nearest_later = Some later_sequence))
  then Err (Validation "native WAL absence rebind skipped a later same-parent mutation") else
  Ok (existing, later).

Definition rebind_is (checkpoint : NativeWalAbsenceRebind) (target_sequence : N)
    (old_token new_token : NativeObjectToken) : bool :=
  (ar_target_sequence checkpoint =? target_sequence)
  && bool_decide (ar_old_token checkpoint = old_token)
  && bool_decide (ar_new_token checkpoint = new_token).

Definition checkpoint_native_wal_absence_rebind (t : NativeTables)
    (transaction_id : TransactionId) (target_sequence later_sequence : N)
    (expected_old_token new_token : NativeObjectToken) : result VaultError NativeTables :=
  let? snapshot := require_native_transaction t transaction_id in
  if negb (bool_decide (ts_status snapshot = TxRestoring))
  then Err (Validation "native WAL absence rebind requires restoring status") else
  let? records := load_native_wal t transaction_id in
  let? (existing, later) := validate_absence_rebind_edge records target_sequence later_sequence
                              expected_old_token new_token in
  if negb (bool_decide (wr_state later = WalRestorePrepared))
  then Err (Validation "native WAL absence checkpoint requires restore-prepared later target") else
  let? applied_token := ok_or (wr_applied_object_token existing)
    (Validation "native WAL absence rebind is missing applied token") in
  if negb (bool_decide (applied_token = expected_old_token))
     && negb (bool_decide (applied_token = new_token))
  then Err (Validation "native WAL absence checkpoint lost its exact old-token provenance") else
  match wr_absence_rebind later with
  | Some checkpoint =>
      if negb (rebind_is checkpoint target_sequence expected_old_token new_token)
      then Err (Validation "native WAL absence checkpoint is immutable") else Ok t
  | None =>
      update_wal_row t transaction_id later_sequence
        (fun raw => state_is WalRestorePrepared raw
                    && bool_decide (rw_rebind_target_sequence raw = None)
                    && bool_decide (rw_rebind_old raw = no_token)
                    && bool_decide (rw_rebind_new raw = no_token))
        (fun raw => with_rebind raw target_sequence expected_old_token new_token)
        "native WAL absence checkpoint changed concurrently"
  end.

Definition rebind_native_wal_applied_absence (t : NativeTables)
    (transaction_id : TransactionId) (target_sequence later_sequence : N)
    (expected_old_token new_token : NativeObjectToken) : result VaultError NativeTables :=
  let? snapshot := require_native_transaction t transaction_id in
  if negb (bool_decide (ts_status snapshot = TxRestoring))
  then Err (Validation "native WAL absence rebind requires restoring status") else
  let? records := load_native_wal t transaction_id in
  let? (existing, later) := validate_absence_rebind_edge records target_sequence later_sequence
                              expected_old_token new_token in
  let? checkpoint := ok_or (wr_absence_rebind later)
    (Validation "native WAL absence rebind requires a durable checkpoint") in
  if negb (rebind_is checkpoint target_sequence expected_old_token new_token)
  then Err (Validation "native WAL absence rebind does not match its durable checkpoint") else
  let? applied_token := ok_or (wr_applied_object_token existing)
    (Validation "native WAL absence rebind is missing applied token") in
  if bool_decide (applied_token = new_token) then Ok t else
  if negb (bool_decide (applied_token = expected_old_token))
  then Err (Validation "native WAL absence rebind lost its exact old-token CAS") else
  update_wal_row t transaction_id target_sequence
    (fun raw => state_is WalRestorePrepared raw
                && bool_decide (rw_applied raw = token_columns expected_old_token))
    (fun raw => with_applied raw new_token) "native WAL absence rebind changed concurrently".

(** ** Command-line mutations *)

(** [cli_wal_write_matches] compares every column but the state. *)
Definition cli_wal_write_matches (record : NativeCliWalRecord) (write : NativeCliWalWrite) : bool :=
  bool_decide (cr_write record = write).

Definition prepare_native_cli_wal (t : NativeTables) (transaction_id : TransactionId)
    (write : NativeCliWalWrite) : result VaultError NativeTables :=
  if trim_is_empty transaction_id
  then Err (Validation "native CLI WAL transaction id cannot be empty") else
  let? _ := validate_native_cli_wal_write write in
  let? snapshot := require_native_transaction t transaction_id in
  if negb (bool_decide (ts_status snapshot = TxPending))
  then Err (Validation "native CLI WAL can only be prepared for a pending transaction") else
  let? existing := load_native_cli_wal_record t transaction_id (cw_sequence write) in
  match existing with
  | Some existing =>
      if cli_wal_write_matches existing write then Ok t
      else Err (Validation "native CLI WAL sequence is immutable")
  | None =>
      let? existing := load_native_cli_wal t transaction_id in
      if negb (cw_sequence write =? len existing)
      then Err (Validation "native CLI WAL sequence must be contiguous") else
      if existsb (fun record =>
           bool_decide (cw_stable_id (cr_write record) = cw_stable_id write)
           || (bool_decide (cw_harness (cr_write record) = cw_harness write)
               && bool_decide (cw_server_name (cr_write record) = cw_server_name write))) existing
      then Err (Validation "native CLI WAL target cannot appear more than once") else
      let? harness := cli_harness_name (cw_harness write) in
      put_cli_row t transaction_id (cw_sequence write) {|
        rl_stable_id := cw_stable_id write; rl_harness := harness;
        rl_server_name := cw_server_name write;
        rl_expected_declaration := cw_expected_declaration write;
        rl_expected_fingerprint := cw_expected_fingerprint write;
        rl_intended_declaration := cw_intended_declaration write;
        rl_intended_fingerprint := cw_intended_fingerprint write;
        rl_forward_operations := cw_forward_operations write;
        rl_rollback_operations := cw_rollback_operations write; rl_state := "prepared" |}
  end.

Definition cli_transition_allowed (state next : NativeCliWalState) : bool :=
  match state, next with
  | CliPrepared, (CliApplied | CliConflict)
  | CliApplied, (CliRestorePrepared | CliConflict)
  | CliRestorePrepared, (CliRestored | CliConflict) => true
  | _, _ => false
  end.

Definition transition_native_cli_wal (t : NativeTables) (transaction_id : TransactionId)
    (sequence : N) (next : NativeCliWalState) : result VaultError NativeTables :=
  let? existing := load_native_cli_wal_record t transaction_id sequence in
  let? existing := ok_or existing (Validation "native CLI WAL row does not exist") in
  if bool_decide (cr_state existing = next) then Ok t else
  if negb (cli_transition_allowed (cr_state existing) next)
  then Err (Validation "native CLI WAL state transition is not monotonic") else
  update_cli_row t transaction_id sequence
    (fun raw => bool_decide (rl_state raw = cli_wal_state_name (cr_state existing)))
    (fun raw => with_cli_state raw (cli_wal_state_name next))
    "native CLI WAL state changed concurrently".

Definition finish_committed_native_cli_cleanup (t : NativeTables)
    (transaction_id : TransactionId) : result VaultError NativeTables :=
  let? snapshot := require_native_transaction t transaction_id in
  if negb (bool_decide (ts_status snapshot = TxCommitted)) || negb (ts_current_step snapshot =? 19)
  then Err (Validation "native CLI cleanup requires a durable committed transaction") else
  if existsb (fun row => negb (bool_decide (rl_state row.2 = "applied"%string)))
       (map_to_list (cli_wal_of t transaction_id))
  then Err (Validation "committed native CLI cleanup requires applied WAL rows") else
  Ok (set_cli_wal t (delete transaction_id (nt_cli_wal t))).

End wal.
