(* ===== verification/NativeLedger.v ===== *)
(** * Native transactions: the life of a transaction (core/vault/native_transactions.rs)

    Beginning, stepping, committing, recovering and cleaning up a transaction, and binding
    the macOS generation it runs in.  The constraints of [native_transactions] (migration
    0003) are checked at every write, as the database does. *)

From S2P Require Import Prelude Ordering Text Protocol Minicbor CanonicalCbor Domain.
From S2P Require Import SyncPayload Crypto Operation Causal Merge Transport StateSummary.
From S2P Require Import Admission NativeModel NativeTables NativeWal.

#[local] Open Scope N_scope.

(** ** Constraints of [native_transactions] *)

Definition opt_len (n : N) (o : option bytes) : bool :=
  match o with Some b => len b =? n | None => true end.

Definition mac_columns_check (c : IdentityColumns) : bool :=
  match ic_mac_generation_substate c, ic_mac_guardian_pgid c, ic_mac_bundle_root c,
        ic_mac_signed_digest c, ic_mac_container_root c with
  | Some substate, None, None, None, None => bool_decide (substate = "reserved"%string)
  | Some substate, Some _, None, None, None => bool_decide (substate = "guardian_bound"%string)
  | Some substate, Some _, Some _, None, None => bool_decide (substate = "bundle_bound"%string)
  | Some substate, Some _, Some _, Some _, None => bool_decide (substate = "finalized"%string)
  | Some substate, Some _, Some _, Some _, Some _ => bool_decide (substate = "container_bound"%string)
  | _, _, _, _, _ => false
  end.

Definition identity_checks (c : IdentityColumns) : bool :=
  match ic_mac_guardian_pgid c with
  | Some pgid => ((1 <=? pgid) && (pgid <=? 2147483647))%Z | None => true end
  && opt_len 64 (ic_mac_bundle_root c) && opt_len 32 (ic_mac_signed_digest c)
  && opt_len 64 (ic_mac_container_root c)
  && match ic_windows_moniker c, ic_windows_sid c, ic_mac_generation_id c, ic_mac_bundle_id c,
           ic_mac_container c, ic_mac_generation_substate c, ic_mac_generation_state c with
     | Some moniker, Some sid, None, None, None, None, None =>
         bool_decide (ic_platform c = "windows"%string)
         && negb (bool_decide (moniker = [])) && negb (bool_decide (sid = []))
         && bool_decide (ic_mac_guardian_pgid c = None) && bool_decide (ic_mac_bundle_root c = None)
         && bool_decide (ic_mac_signed_digest c = None)
         && bool_decide (ic_mac_container_root c = None)
     | None, None, Some generation_id, Some bundle_id, Some container, Some substate, Some state =>
         bool_decide (ic_platform c = "macos"%string)
         && (len generation_id =? 32) && negb (bool_decide (bundle_id = []))
         && negb (bool_decide (container = [])) && mac_columns_check c
         && bool_decide (state ∈ ["prepared"; "active"; "retired"; "poisoned"]%string)
         && (bool_decide (state ∈ ["prepared"; "poisoned"]%string)
             || bool_decide (substate = "container_bound"%string))
     | _, _, _, _, _, _, _ => false
     end.

Definition terminal_names : list string := ["committed"; "restored"; "conflict"]%string.

Definition transaction_checks (raw : RawNativeTransaction) : bool :=
  bool_decide (rt_status raw ∈ ["pending"; "committed"; "restoring"; "restored"; "conflict"]%string)
  && (rt_current_step raw <=? 20) && (rt_current_step raw <=? rt_entered_step raw)
  && (rt_entered_step raw <=? 20) && (rt_created_ms raw <=? rt_updated_ms raw)
  && identity_checks (rt_identity raw)
  && Bool.eqb (bool_decide (rt_status raw = "committed"%string))
       (negb (bool_decide (rt_committed_ms raw = None)))
  && ((bool_decide (rt_sandbox_cleanup_state raw = "pending"%string) && (rt_current_step raw <? 20))
      || (bool_decide (rt_sandbox_cleanup_state raw = "conflict"%string)
          && (rt_current_step raw =? 19)
          && ((rt_entered_step raw =? 19) || (rt_entered_step raw =? 20))
          && bool_decide (rt_status raw ∈ terminal_names))
      || (bool_decide (rt_sandbox_cleanup_state raw ∈ ["cleaned"; "conflict"]%string)
          && (rt_current_step raw =? 20) && (rt_entered_step raw =? 20)
          && bool_decide (rt_status raw ∈ terminal_names))).

(** [UPDATE native_transactions ... WHERE transaction_id AND condition], which must change
    one row. *)
Definition update_transaction (t : NativeTables) (id : TransactionId)
    (condition : RawNativeTransaction -> bool)
    (f : RawNativeTransaction -> RawNativeTransaction) (message : string)
    : result VaultError NativeTables :=
  match nt_transactions t !! id with
  | Some raw =>
      if condition raw then
        if transaction_checks (f raw)
        then Ok (set_transactions t (<[id := f raw]> (nt_transactions t))) else Err Database
      else Err (Validation message)
  | None => Err (Validation message)
  end.

Definition with_steps (raw : RawNativeTransaction) (status : string) (current entered : N)
    : RawNativeTransaction := {|
  rt_plan_id := rt_plan_id raw; rt_status := status;
  rt_sandbox_cleanup_state := rt_sandbox_cleanup_state raw; rt_current_step := current;
  rt_entered_step := entered; rt_created_ms := rt_created_ms raw;
  rt_updated_ms := rt_updated_ms raw; rt_committed_ms := rt_committed_ms raw;
  rt_identity := rt_identity raw |}.
Definition with_commit (raw : RawNativeTransaction) (applied_ms : N) : RawNativeTransaction := {|
  rt_plan_id := rt_plan_id raw; rt_status := "committed";
  rt_sandbox_cleanup_state := rt_sandbox_cleanup_state raw; rt_current_step := 19;
  rt_entered_step := 19; rt_created_ms := rt_created_ms raw; rt_updated_ms := applied_ms;
  rt_committed_ms := Some applied_ms; rt_identity := rt_identity raw |}.
Definition with_cleanup (raw : RawNativeTransaction) (cleanup : string) (current entered : N)
    : RawNativeTransaction := {|
  rt_plan_id := rt_plan_id raw; rt_status := rt_status raw;
  rt_sandbox_cleanup_state := cleanup; rt_current_step := current; rt_entered_step := entered;
  rt_created_ms := rt_created_ms raw; rt_updated_ms := rt_updated_ms raw;
  rt_committed_ms := rt_committed_ms raw; rt_identity := rt_identity raw |}.
Definition with_identity (raw : RawNativeTransaction) (identity : IdentityColumns)
    : RawNativeTransaction := {|
  rt_plan_id := rt_plan_id raw; rt_status := rt_status raw;
  rt_sandbox_cleanup_state := rt_sandbox_cleanup_state raw;
  rt_current_step := rt_current_step raw; rt_entered_step := rt_entered_step raw;
  rt_created_ms := rt_created_ms raw; rt_updated_ms := rt_updated_ms raw;
  rt_committed_ms := rt_committed_ms raw; rt_identity := identity |}.

(** ** Beginning *)

Definition MAX_NATIVE_PLAN_BYTES : N := 16 * 1024 * 1024.

Record NativePlanWrite := {
  pw_plan_id : PlanId;
  pw_approval_hash : Sha256Digest;
  pw_payload : bytes;
  pw_created_ms : N;
  pw_expires_ms : N;
}.

Inductive SetupPlanLifecycle :=
| Previewed | Applying | AppliedPlan | ApplyRestored | RollingBack | RolledBack | RollbackRestored
| ConflictPlan | Expired.

#[global] Instance SetupPlanLifecycle_eq_dec : EqDecision SetupPlanLifecycle.
Proof. solve_decision. Defined.

Definition setup_plan_lifecycle_name (state : SetupPlanLifecycle) : string :=
  match state with
  | Previewed => "previewed" | Applying => "applying" | AppliedPlan => "applied"
  | ApplyRestored => "apply_restored" | RollingBack => "rolling_back"
  | RolledBack => "rolled_back" | RollbackRestored => "rollback_restored"
  | ConflictPlan => "conflict" | Expired => "expired"
  end.
Definition parse_setup_plan_lifecycle (value : string) : result VaultError SetupPlanLifecycle :=
  parse_name [("previewed", Previewed); ("applying", Applying); ("applied", AppliedPlan);
              ("apply_restored", ApplyRestored); ("rolling_back", RollingBack);
              ("rolled_back", RolledBack); ("rollback_restored", RollbackRestored);
              ("conflict", ConflictPlan); ("expired", Expired)]%string
    value "setup plan lifecycle is invalid".

(** The [UNIQUE] columns of the macOS generation. *)
Definition generation_taken (t : NativeTables) (c : IdentityColumns) : bool :=
  existsb (fun row =>
    let c' := rt_identity row.2 in
    (bool_decide (is_Some (ic_mac_generation_id c))
     && bool_decide (ic_mac_generation_id c' = ic_mac_generation_id c))
    || (bool_decide (is_Some (ic_mac_bundle_id c))
        && bool_decide (ic_mac_bundle_id c' = ic_mac_bundle_id c))
    || (bool_decide (is_Some (ic_mac_container c))
        && bool_decide (ic_mac_container c' = ic_mac_container c)))
    (map_to_list (nt_transactions t)).

Section ledger.
Context `{UuidCrate} `{NativeJson} `{Primitives}.

Definition begin_native_transaction (t : NativeTables) (transaction_id : TransactionId)
    (plan : NativePlanWrite) (identity : NativeSandboxIdentity) : result VaultError NativeTables :=
  if trim_is_empty transaction_id
  then Err (Validation "native transaction id cannot be empty") else
  if bool_decide (pw_payload plan = []) || (MAX_NATIVE_PLAN_BYTES <? len (pw_payload plan))
  then Err (Validation "native plan payload length is invalid") else
  if pw_expires_ms plan <? pw_created_ms plan
  then Err (Validation "native plan expires before it was created") else
  let? _ := NativeSandboxIdentity_validate identity in
  let plan_id := uuid_hyphenated (pw_plan_id plan) in
  let? created_ms := to_i64 (pw_created_ms plan) in
  let? expires_ms := to_i64 (pw_expires_ms plan) in
  let row := {| pl_approval_hash := pw_approval_hash plan; pl_payload := pw_payload plan;
                pl_created_ms := created_ms; pl_expires_ms := expires_ms |} in
  let stored := default row (nt_plans t !! plan_id) in
  if negb (bool_decide (stored = row))
  then Err (Validation "native plan id was reused with different content") else
  let t := set_plans t (<[plan_id := stored]> (nt_plans t)) in
  let? lifecycle := transpose parse_setup_plan_lifecycle (nt_lifecycle t !! plan_id) in
  if match lifecycle with
     | Some (Applying | RollingBack) | None => false
     | Some _ => true
     end
  then Err (Validation "persisted setup plan must be claimed before native transaction begin") else
  let? existing := load_native_transaction t transaction_id in
  match existing with
  | Some existing =>
      if bool_decide (ts_plan_id existing = pw_plan_id plan)
         && bool_decide (ts_status existing = TxPending)
         && (ts_current_step existing =? 0) && (ts_entered_step existing =? 0)
         && bool_decide (ts_identity existing = identity)
      then Ok t
      else Err (Validation "native transaction id was reused with different content")
  | None =>
      if existsb (fun row => bool_decide (rt_plan_id row.2 = plan_id))
           (map_to_list (nt_transactions t))
      then Err (Validation "native plan is already bound to another transaction") else
      let columns := identity_columns identity in
      let raw := {|
        rt_plan_id := plan_id; rt_status := "pending"; rt_sandbox_cleanup_state := "pending";
        rt_current_step := 0; rt_entered_step := 0; rt_created_ms := created_ms;
        rt_updated_ms := created_ms; rt_committed_ms := None; rt_identity := columns |} in
      if generation_taken t columns || negb (transaction_checks raw) then Err Database else
      Ok (set_transactions t (<[transaction_id := raw]> (nt_transactions t)))
  end.

(** ** Steps *)

Definition enter_native_step (t : NativeTables) (transaction_id : TransactionId)
    (step : TransactionStep) : result VaultError NativeTables :=
  let step_n := step_number step in
  let? snapshot := require_native_transaction t transaction_id in
  let current := ts_current_step snapshot in
  let entered := ts_entered_step snapshot in
  if (entered =? step_n) && ((current =? step_n) || (current + 1 =? step_n)) then Ok t else
  let valid_status := bool_decide (ts_status snapshot = TxPending)
    || ((step_n =? 20)
        && match ts_status snapshot with TxCommitted | TxRestored | TxConflict => true | _ => false end) in
  let valid_order := (step_n =? 20) || ((entered =? current) && (current + 1 =? step_n)) in
  if negb valid_status || negb valid_order
  then Err (Validation "native transaction step cannot be entered out of order") else
  update_transaction t transaction_id
    (fun raw => (rt_entered_step raw =? entered) && (rt_current_step raw =? current))
    (fun raw => with_steps raw (rt_status raw) (rt_current_step raw) step_n)
    "native transaction step changed concurrently".

Definition complete_native_step (t : NativeTables) (transaction_id : TransactionId)
    (step : TransactionStep) : result VaultError NativeTables :=
  let step_n := step_number step in
  if 19 <=? step_n
  then Err (Validation "terminal native steps require their atomic finalizer") else
  let? snapshot := require_native_transaction t transaction_id in
  if negb (bool_decide (ts_status snapshot = TxPending))
  then Err (Validation "only pending native transactions can complete a forward step") else
  if (ts_current_step snapshot =? step_n) && (ts_entered_step snapshot =? step_n) then Ok t else
  if negb (ts_current_step snapshot + 1 =? step_n) || negb (ts_entered_step snapshot =? step_n)
  then Err (Validation "native transaction step was not durably entered") else
  update_transaction t transaction_id
    (fun raw => (rt_current_step raw =? step_n - 1) && (rt_entered_step raw =? step_n)
                && bool_decide (rt_status raw = "pending"%string))
    (fun raw => with_steps raw (rt_status raw) step_n (rt_entered_step raw))
    "native transaction step changed concurrently".

(** ** Queries *)

Definition select_transactions (t : NativeTables) (condition : RawNativeTransaction -> bool)
    : list TransactionId :=
  fst <$> sort_by_key (fun row => (rt_created_ms row.2, row.1))
            (filter (fun row => condition row.2 = true) (map_to_list (nt_transactions t))).

Definition load_selected (t : NativeTables) (message : string) (transaction_id : TransactionId)
    : result VaultError NativeTransactionSnapshot :=
  let? snapshot := load_native_transaction t transaction_id in
  ok_or snapshot (Validation message).

Definition pending_native_transactions (t : NativeTables)
    : result VaultError (list NativeTransactionSnapshot) :=
  try_map (load_selected t "pending native transaction disappeared during query")
    (select_transactions t (fun raw => bool_decide (rt_status raw = "pending"%string))).

Definition recoverable (raw : RawNativeTransaction) : bool :=
  bool_decide (rt_status raw ∈ ["pending"; "restoring"]%string)
  || (bool_decide (rt_status raw ∈ terminal_names) && (rt_current_step raw <? 20))
  || (bool_decide (ic_platform (rt_identity raw) = "macos"%string)
      && bool_decide (ic_mac_generation_state (rt_identity raw)
                        ∈ [Some "prepared"; Some "active"]%string)).

Definition recoverable_native_transactions (t : NativeTables)
    : result VaultError (list NativeTransactionSnapshot) :=
  try_map (load_selected t "recoverable native transaction disappeared during query")
    (select_transactions t recoverable).

Definition native_plan_payload_for_recovery (t : NativeTables) (transaction_id : TransactionId)
    : result VaultError bytes :=
  if trim_is_empty transaction_id
  then Err (Validation "native recovery transaction id cannot be empty") else
  ok_or (raw ← nt_transactions t !! transaction_id; pl_payload <$> nt_plans t !! rt_plan_id raw)
    (Validation "native recovery transaction or sealed plan is missing").

(** ** Committing *)

Definition validate_receipt (receipt : NativeApplyReceipt) : result VaultError unit :=
  let legacy := nr_legacy receipt in
  let? _ := validated (ApplyReceipt_validate legacy) in
  if negb (len (rc_resulting_digests legacy) =? len (nr_targets receipt))
  then Err (Validation "legacy and native receipt target counts differ") else
  let? _ := try_fold (fun seen entry =>
      let? _ := validated (WireNativeValue_validate (re_target entry.1)) in
      if negb (bool_decide (entry.2 = re_fingerprint entry.1))
      then Err (Validation "legacy and native receipt fingerprints differ") else
      let? json := to_json (re_target entry.1) in
      insert_unique seen json (Validation "native receipt contains duplicate targets"))
    ∅ (zip (nr_targets receipt) (rc_resulting_digests legacy)) in
  Ok tt.

Definition validate_ownership (ownership : list OwnershipChange) : result VaultError unit :=
  let? _ := try_fold (fun (seen : gset rstr * gset rstr) change =>
      if trim_is_empty (oc_stable_id change) || trim_is_empty (oc_structural_location change)
      then Err (Validation "native ownership identity cannot be empty") else
      let unique := Validation "native ownership changes must be unique" in
      let? ids := insert_unique seen.1 (oc_stable_id change) unique in
      let? locations := insert_unique seen.2 (oc_structural_location change) unique in
      Ok (ids, locations)) (∅, ∅) ownership in
  Ok tt.

(** The log is applied, in order, to what the receipt states. *)
Definition receipt_matches_wal (wal : list NativeWalRecord) (targets : list NativeReceiptEntry)
    : result VaultError unit :=
  if negb (len wal =? len targets)
  then Err (Validation "native receipt does not cover every WAL target") else
  if existsb (fun pair : NativeWalRecord * NativeReceiptEntry =>
       negb (bool_decide (wr_state pair.1 = WalApplied))
       || negb (bool_decide (wr_target pair.1 = re_target pair.2))
       || negb (bool_decide (wr_intended_applied pair.1 = re_fingerprint pair.2)))
     (zip wal targets)
  then Err (Validation "native receipt does not match the applied WAL") else Ok tt.

Definition insert_receipts (t : NativeTables) (transaction_id : TransactionId)
    (plan_id : PlanId) (receipt : NativeApplyReceipt) (applied_ms : N)
    : result VaultError NativeTables :=
  let plan := uuid_hyphenated plan_id in
  let? legacy_json := to_json (nr_legacy receipt) in
  if bool_decide (is_Some (nt_receipts t !! plan)) then Err Database else
  let t := set_receipts t (<[plan := {|
    rr_successful := true; rr_resolved := true; rr_applied_ms := applied_ms;
    rr_payload_json := legacy_json |}]> (nt_receipts t)) in
  if i64_max <? len (nr_targets receipt)
  then Err (Validation "native receipt target count exceeds i64") else
  let? payload_json := to_json {| rp_schema_version := 1; rp_targets := nr_targets receipt |} in
  if bool_decide (is_Some (nt_native_receipts t !! plan))
     || existsb (fun row => bool_decide (nw_transaction_id row.2 = transaction_id))
          (map_to_list (nt_native_receipts t))
  then Err Database else
  Ok (set_native_receipts t (<[plan := {|
    nw_transaction_id := transaction_id; nw_target_count := len (nr_targets receipt);
    nw_payload_json := payload_json |}]> (nt_native_receipts t))).

Definition own (transaction_id : TransactionId) (t : NativeTables) (change : OwnershipChange)
    : NativeTables :=
  set_ownership t (<[oc_stable_id change := {|
    ow_transaction_id := transaction_id; ow_structural_location := oc_structural_location change;
    ow_semantic_digest := oc_semantic_digest change;
    ow_native_digest := oc_native_digest change |}]> (nt_ownership t)).

Definition commit_native_success (t : NativeTables) (transaction_id : TransactionId)
    (receipt : NativeApplyReceipt) (ownership : list OwnershipChange)
    : result VaultError NativeTables :=
  let? _ := validate_receipt receipt in
  let? _ := validate_ownership ownership in
  let? snapshot := require_native_transaction t transaction_id in
  if negb (bool_decide (ts_plan_id snapshot = rc_plan_id (nr_legacy receipt)))
  then Err (Validation "native receipt plan does not match its transaction") else
  if bool_decide (ts_status snapshot = TxCommitted) then
    let? stored := load_native_receipt t (ts_plan_id snapshot) in
    if bool_decide (stored = Some receipt) && ownership_matches t transaction_id ownership
    then Ok t else Err (Validation "committed native transaction cannot be changed")
  else
  if negb (bool_decide (ts_status snapshot = TxPending))
  then Err (Validation "native transaction is not pending") else
  if negb (ts_current_step snapshot =? 18) || negb (ts_entered_step snapshot =? 19)
  then Err (Validation "native commit step was not durably entered") else
  let? wal := load_native_wal t transaction_id in
  let? _ := receipt_matches_wal wal (nr_targets receipt) in
  let? applied_ms := to_i64 (physical_ms (rc_applied_hlc (nr_legacy receipt))) in
  let? t := insert_receipts t transaction_id (ts_plan_id snapshot) receipt applied_ms in
  let t := foldl (own transaction_id) t ownership in
  update_transaction t transaction_id
    (fun raw => bool_decide (rt_status raw = "pending"%string) && (rt_current_step raw =? 18)
                && (rt_entered_step raw =? 19))
    (fun raw => with_commit raw applied_ms) "native transaction status changed concurrently".

(** ** Recovery and cleanup *)

Definition begin_native_recovery (t : NativeTables) (transaction_id : TransactionId)
    : result VaultError NativeTables :=
  let? snapshot := require_native_transaction t transaction_id in
  match ts_status snapshot with
  | TxPending =>
      update_transaction t transaction_id
        (fun raw => bool_decide (rt_status raw = "pending"%string))
        (fun raw => with_steps raw "restoring" (rt_current_step raw) (rt_entered_step raw))
        "native transaction status changed concurrently"
  | TxRestoring => Ok t
  | _ => Err (Validation "native transaction is not recoverable before commit")
  end.

Definition wal_count (t : NativeTables) (transaction_id : TransactionId)
    (condition : RawWalRecord -> bool) : N :=
  len (filter (fun row => condition row.2 = true) (map_to_list (wal_of t transaction_id))).

Definition finish_native_recovery_with_cli_no_write (t : NativeTables)
    (transaction_id : TransactionId) (conflict : bool) (prepared_cli_no_write : list N)
    : result VaultError NativeTables :=
  let? snapshot := require_native_transaction t transaction_id in
  let desired := if conflict then TxConflict else TxRestored in
  if bool_decide (ts_status snapshot = desired) && (ts_current_step snapshot =? 19)
     && (ts_entered_step snapshot =? 19)
  then Ok t else
  if negb (bool_decide (ts_status snapshot = TxRestoring))
  then Err (Validation "native transaction is not restoring") else
  let unfinished_native := wal_count t transaction_id
    (fun raw => negb (bool_decide (rw_state raw ∈ ["restored"; "conflict"]%string))) in
  let native_conflicts := wal_count t transaction_id
    (fun raw => bool_decide (rw_state raw = "conflict"%string)) in
  let? cli_records := load_native_cli_wal t transaction_id in
  let prepared : gset N := list_to_set (cw_sequence ∘ cr_write <$>
    filter (fun record => cr_state record = CliPrepared) cli_records) in
  let approved_no_write : gset N := list_to_set prepared_cli_no_write in
  if negb (bool_decide (prepared = approved_no_write))
  then Err (Validation "native recovery prepared CLI no-write disposition does not match its WAL") else
  let unfinished_cli := len (filter (fun record =>
      cr_state record = CliApplied \/ cr_state record = CliRestorePrepared) cli_records) in
  let cli_conflicts := len (filter (fun record => cr_state record = CliConflict) cli_records) in
  let has_conflict := negb (native_conflicts =? 0) || negb (cli_conflicts =? 0) in
  if negb (unfinished_native =? 0) || negb (unfinished_cli =? 0)
     || negb (Bool.eqb has_conflict conflict)
  then Err (Validation "native recovery outcome does not match its WAL") else
  update_transaction t transaction_id
    (fun raw => bool_decide (rt_status raw = "restoring"%string))
    (fun raw => with_steps raw (if conflict then "conflict" else "restored") 19 19)
    "native transaction status changed concurrently".

Definition finish_native_recovery (t : NativeTables) (transaction_id : TransactionId)
    (conflict : bool) : result VaultError NativeTables :=
  finish_native_recovery_with_cli_no_write t transaction_id conflict [].

(** [DELETE FROM native_cli_wal WHERE transaction_id AND state = 'restored'] *)
Definition delete_restored_cli (t : NativeTables) (transaction_id : TransactionId) : NativeTables :=
  set_cli_wal t (<[transaction_id :=
      filter (fun row => rl_state row.2 <> "restored"%string) (cli_wal_of t transaction_id)]>
    (nt_cli_wal t)).

Definition delete_plan_images (t : NativeTables) (plan : rstr) : result VaultError NativeTables :=
  try_fold delete_before_image t
    (fst <$> filter (fun row => bi_plan_id row.2 = Some plan) (map_to_list (nt_before_images t))).

Definition finish_native_cleanup (t : NativeTables) (transaction_id : TransactionId)
    : result VaultError NativeTables :=
  let? snapshot := require_native_transaction t transaction_id in
  let current := ts_current_step snapshot in
  if negb ((current =? 19) || (current =? 20))
     || negb (match ts_status snapshot with TxCommitted | TxRestored | TxConflict => true | _ => false end)
  then Err (Validation "native cleanup requires a durable terminal outcome") else
  if current =? 20 then
    if bool_decide (ts_sandbox_cleanup_state snapshot = CleanupPending)
    then Err (Validation "finished native cleanup is missing its durable disposition") else Ok t
  else
  let? cleanup_state := match ts_sandbox_cleanup_state snapshot with
    | CleanupPending => Ok CleanupCleaned
    | CleanupConflict => Ok CleanupConflict
    | CleanupCleaned => Err (Validation "native cleanup was marked cleaned before it finished")
    end in
  let t := match ts_status snapshot with
    | TxCommitted => set_cli_wal t (delete transaction_id (nt_cli_wal t))
    | TxRestored => delete_restored_cli t transaction_id
    | _ => t
    end in
  let? t := match ts_status snapshot with
    | TxCommitted | TxRestored =>
        delete_plan_images (set_wal t (delete transaction_id (nt_wal t)))
          (uuid_hyphenated (ts_plan_id snapshot))
    | _ => Ok t
    end in
  update_transaction t transaction_id
    (fun raw => (rt_current_step raw =? 19)
                && ((rt_entered_step raw =? 19) || (rt_entered_step raw =? 20))
                && bool_decide (rt_sandbox_cleanup_state raw
                     = sandbox_cleanup_state_name (ts_sandbox_cleanup_state snapshot)))
    (fun raw => with_cleanup raw (sandbox_cleanup_state_name cleanup_state) 20 20)
    "native cleanup state changed concurrently".

Definition mark_native_cleanup_conflict (t : NativeTables) (transaction_id : TransactionId)
    : result VaultError NativeTables :=
  let? snapshot := require_native_transaction t transaction_id in
  let current := ts_current_step snapshot in
  let entered := ts_entered_step snapshot in
  if bool_decide (ts_sandbox_cleanup_state snapshot = CleanupConflict)
     && ((current =? 19) || (current =? 20))
  then Ok t else
  if negb (current =? 19) || negb ((entered =? 19) || (entered =? 20))
     || negb (match ts_status snapshot with TxCommitted | TxRestored | TxConflict => true | _ => false end)
  then Err (Validation "native cleanup conflict requires a durable terminal outcome") else
  update_transaction t transaction_id
    (fun raw => bool_decide (rt_status raw ∈ terminal_names) && (rt_current_step raw =? 19)
                && ((rt_entered_step raw =? 19) || (rt_entered_step raw =? 20))
                && bool_decide (rt_sandbox_cleanup_state raw = "pending"%string))
    (fun raw => with_cleanup raw "conflict" (rt_current_step raw) (rt_entered_step raw))
    "native cleanup conflict changed concurrently".

(** ** The macOS generation *)

Definition with_mac_state (c : IdentityColumns) (state : string) : IdentityColumns := {|
  ic_platform := ic_platform c; ic_windows_moniker := ic_windows_moniker c;
  ic_windows_sid := ic_windows_sid c; ic_mac_generation_id := ic_mac_generation_id c;
  ic_mac_bundle_id := ic_mac_bundle_id c; ic_mac_container := ic_mac_container c;
  ic_mac_guardian_pgid := ic_mac_guardian_pgid c; ic_mac_bundle_root := ic_mac_bundle_root c;
  ic_mac_signed_digest := ic_mac_signed_digest c;
  ic_mac_container_root := ic_mac_container_root c;
  ic_mac_generation_substate := ic_mac_generation_substate c;
  ic_mac_generation_state := Some state |}.
(** Sets the columns a binding fills, with its substate. *)
Definition with_binding (c : IdentityColumns) (guardian_pgid : option Z)
    (bundle_root signed_digest container_root : option bytes) (substate : string)
    : IdentityColumns := {|
  ic_platform := ic_platform c; ic_windows_moniker := ic_windows_moniker c;
  ic_windows_sid := ic_windows_sid c; ic_mac_generation_id := ic_mac_generation_id c;
  ic_mac_bundle_id := ic_mac_bundle_id c; ic_mac_container := ic_mac_container c;
  ic_mac_guardian_pgid := guardian_pgid; ic_mac_bundle_root := bundle_root;
  ic_mac_signed_digest := signed_digest; ic_mac_container_root := container_root;
  ic_mac_generation_substate := Some substate;
  ic_mac_generation_state := ic_mac_generation_state c |}.

Definition poison_interrupted_macos_generation (t : NativeTables) (transaction_id : TransactionId)
    : result VaultError NativeTables :=
  let? snapshot := require_native_transaction t transaction_id in
  match ts_identity snapshot with
  | MacosIdentity g =>
      match mg_state g with
      | MacPrepared | MacActive =>
          update_transaction t transaction_id
            (fun raw => bool_decide (ic_mac_generation_state (rt_identity raw)
                                       ∈ [Some "prepared"; Some "active"]%string))
            (fun raw => with_identity raw (with_mac_state (rt_identity raw) "poisoned"))
            "macOS generation state changed concurrently"
      | _ => Ok t
      end
  | WindowsIdentity _ _ => Ok t
  end.

(** [let NativeSandboxIdentity::Macos { .. } = snapshot.identity else { .. }] *)
Definition require_generation (identity : NativeSandboxIdentity) : result VaultError MacGeneration :=
  match identity with
  | MacosIdentity g => Ok g
  | WindowsIdentity _ _ => Err (Validation "native transaction is not a macOS generation")
  end.

(** The shape of the four bindings: a bound value is immutable, and a binding goes from
    [from] to the next substate of a pending, prepared generation. *)
Definition bind_generation (t : NativeTables) (transaction_id : TransactionId)
    (from next : MacGenerationSubstate) (stored_matches : MacGeneration -> bool)
    (unset : IdentityColumns -> bool) (bind : IdentityColumns -> IdentityColumns)
    (changed invalid concurrent : string) : result VaultError NativeTables :=
  let? snapshot := require_native_transaction t transaction_id in
  let? g := require_generation (ts_identity snapshot) in
  if substate_rank next <=? substate_rank (mg_substate g) then
    if stored_matches g then Ok t else Err (Validation changed)
  else
  if negb (bool_decide (ts_status snapshot = TxPending))
     || negb (bool_decide (mg_state g = MacPrepared)) || negb (bool_decide (mg_substate g = from))
  then Err (Validation invalid) else
  update_transaction t transaction_id
    (fun raw => let c := rt_identity raw in
                bool_decide (ic_mac_generation_state c = Some "prepared"%string)
                && bool_decide (ic_mac_generation_substate c = Some (mac_substate_name from))
                && unset c)
    (fun raw => with_identity raw (bind (rt_identity raw))) concurrent.

Definition bind_macos_guardian (t : NativeTables) (transaction_id : TransactionId)
    (guardian_pgid : Z) : result VaultError NativeTables :=
  if (guardian_pgid <=? 0)%Z then Err (Validation "macOS guardian PGID is invalid") else
  bind_generation t transaction_id Reserved GuardianBound
    (fun g => bool_decide (mg_guardian_pgid g = Some guardian_pgid))
    (fun c => bool_decide (ic_mac_guardian_pgid c = None))
    (fun c => with_binding c (Some guardian_pgid) (ic_mac_bundle_root c) (ic_mac_signed_digest c)
                (ic_mac_container_root c) "guardian_bound")
    "macOS guardian PGID changed" "macOS guardian cannot be bound in this state"
    "macOS guardian binding changed concurrently".

Definition bind_macos_bundle_root (t : NativeTables) (transaction_id : TransactionId)
    (bundle_root : bytes) : result VaultError NativeTables :=
  if bool_decide (MacRootIdentity_decode bundle_root = None)
  then Err (Validation "macOS bundle root identity is invalid") else
  bind_generation t transaction_id GuardianBound BundleBound
    (fun g => bool_decide (mg_bundle_root g = Some bundle_root))
    (fun c => bool_decide (ic_mac_bundle_root c = None))
    (fun c => with_binding c (ic_mac_guardian_pgid c) (Some bundle_root) (ic_mac_signed_digest c)
                (ic_mac_container_root c) "bundle_bound")
    "macOS bundle root identity changed" "macOS bundle root cannot be bound in this state"
    "macOS bundle root binding changed concurrently".

Definition finalize_macos_generation (t : NativeTables) (transaction_id : TransactionId)
    (signed_digest : Sha256Digest) : result VaultError NativeTables :=
  bind_generation t transaction_id BundleBound Finalized
    (fun g => bool_decide (mg_signed_digest g = Some signed_digest))
    (fun c => bool_decide (ic_mac_signed_digest c = None))
    (fun c => with_binding c (ic_mac_guardian_pgid c) (ic_mac_bundle_root c) (Some signed_digest)
                (ic_mac_container_root c) "finalized")
    "macOS signed generation digest changed" "macOS generation cannot be finalized in this state"
    "macOS generation finalization changed concurrently".

Definition bind_macos_container_root (t : NativeTables) (transaction_id : TransactionId)
    (container_root : bytes) : result VaultError NativeTables :=
  if bool_decide (MacRootIdentity_decode container_root = None)
  then Err (Validation "macOS container root identity is invalid") else
  bind_generation t transaction_id Finalized ContainerBound
    (fun g => bool_decide (mg_container_root g = Some container_root))
    (fun c => bool_decide (ic_mac_container_root c = None))
    (fun c => with_binding c (ic_mac_guardian_pgid c) (ic_mac_bundle_root c)
                (ic_mac_signed_digest c) (Some container_root) "container_bound")
    "macOS container root identity changed" "macOS container root cannot be bound in this state"
    "macOS container root binding changed concurrently".

Definition mac_transition_allowed (state next : MacGenerationState) : bool :=
  match state, next with
  | MacPrepared, (MacActive | MacPoisoned) | MacActive, (MacRetired | MacPoisoned) => true
  | _, _ => false
  end.

Definition transition_macos_generation (t : NativeTables) (transaction_id : TransactionId)
    (next : MacGenerationState) : result VaultError NativeTables :=
  let? snapshot := require_native_transaction t transaction_id in
  let? g := require_generation (ts_identity snapshot) in
  if match next with MacActive | MacRetired => true | _ => false end
     && negb (bool_decide (ts_status snapshot = TxPending))
  then Err (Validation "live macOS generation transitions require a pending transaction") else
  if bool_decide (mg_state g = next) then Ok t else
  if negb (mac_transition_allowed (mg_state g) next)
     || (bool_decide (next = MacActive) && negb (bool_decide (mg_substate g = ContainerBound)))
  then Err (Validation "macOS generation state transition is not monotonic") else
  update_transaction t transaction_id
    (fun raw => bool_decide (ic_mac_generation_state (rt_identity raw)
                             = Some (mac_state_name (mg_state g))))
    (fun raw => with_identity raw (with_mac_state (rt_identity raw) (mac_state_name next)))
    "macOS generation state changed concurrently".

End ledger.
