(* ===== verification/NativeRows.v ===== *)
(** * Native transactions: stored rows and the records they hold

    Decoding a row of the logs or of the transactions succeeds exactly on the rows that store
    a well-formed record, and gives that record back.  The updates of the logs are updates of
    the records. *)

From S2P Require Import Prelude Ordering Text Protocol Minicbor CanonicalCbor Domain.
From S2P Require Import SyncPayload Crypto Operation Causal Merge Transport StateSummary.
From S2P Require Import Admission NativeModel NativeTables NativeWal NativeLedger.

#[local] Open Scope N_scope.

(** ** Names *)

Ltac parse_inv :=
  unfold parse_name; intros H; apply ok_or_Ok in H;
  cbn [find] in H;
  repeat match type of H with
  | context [bool_decide (?a = ?b)] =>
      destruct (bool_decide_reflect (a = b)) as [<-|_]; cbn in H
  end; try discriminate H; injection H as <-; reflexivity.

Lemma parse_wal_state_inv v s : parse_wal_state v = Ok s -> v = wal_state_name s.
Proof. unfold parse_wal_state. parse_inv. Qed.
Lemma parse_cli_wal_state_inv v s : parse_cli_wal_state v = Ok s -> v = cli_wal_state_name s.
Proof. unfold parse_cli_wal_state. parse_inv. Qed.
Lemma parse_native_mutation_kind_inv v k :
  parse_native_mutation_kind v = Ok k -> v = native_mutation_kind_name k.
Proof. unfold parse_native_mutation_kind. parse_inv. Qed.
Lemma parse_transaction_status_inv v s :
  parse_transaction_status v = Ok s -> v = transaction_status_name s.
Proof. unfold parse_transaction_status. parse_inv. Qed.
Lemma parse_sandbox_cleanup_state_inv v s :
  parse_sandbox_cleanup_state v = Ok s -> v = sandbox_cleanup_state_name s.
Proof. unfold parse_sandbox_cleanup_state. parse_inv. Qed.
Lemma parse_mac_state_inv v s : parse_mac_state v = Ok s -> v = mac_state_name s.
Proof. unfold parse_mac_state. parse_inv. Qed.
Lemma parse_mac_substate_inv v s : parse_mac_substate v = Ok s -> v = mac_substate_name s.
Proof. unfold parse_mac_substate. parse_inv. Qed.
Lemma parse_cli_harness_inv v h : parse_cli_harness v = Ok h -> cli_harness_name h = Ok v.
Proof. unfold parse_cli_harness. parse_inv. Qed.

Lemma wal_state_name_inj s s' : wal_state_name s = wal_state_name s' -> s = s'.
Proof. by destruct s, s'. Qed.
Lemma cli_wal_state_name_inj s s' : cli_wal_state_name s = cli_wal_state_name s' -> s = s'.
Proof. by destruct s, s'. Qed.
Lemma transaction_status_name_inj s s' :
  transaction_status_name s = transaction_status_name s' -> s = s'.
Proof. by destruct s, s'. Qed.

(** ** Tokens *)

Definition opt_token (o : option NativeObjectToken) : TokenColumns :=
  match o with Some token => token_columns token | None => no_token end.

Definition opt_complete (o : option NativeObjectToken) : bool :=
  match o with Some token => token_complete token | None => true end.

Lemma decode_token_opt o message :
  opt_complete o = true -> decode_token (opt_token o) message = Ok o.
Proof. destruct o as [[]|]; [|done]. unfold decode_token. simpl. by intros ->. Qed.

Lemma decode_token_inv c message o :
  decode_token c message = Ok o -> c = opt_token o /\ opt_complete o = true.
Proof.
  unfold decode_token. destruct c as [[v|] [b|] [p|]]; simpl; try discriminate.
  - destruct (token_complete _) eqn:E; [|discriminate]. intros [= <-]. done.
  - by intros [= <-].
Qed.

Lemma token_checks_opt o : opt_complete o = true -> token_checks (opt_token o) = true.
Proof.
  destruct o as [[]|]; [|done]. unfold token_checks, opt_complete, token_complete. simpl.
  intros ->. done.
Qed.

Lemma opt_token_inj o o' : opt_token o = opt_token o' -> o = o'.
Proof. destruct o as [[]|], o' as [[]|]; simpl; intros [=]; congruence. Qed.

Lemma opt_token_None o : opt_token o = no_token <-> o = None.
Proof. destruct o as [[]|]; simpl; naive_solver. Qed.

(** ** The log of file mutations *)

Definition rebind_sequence (o : option NativeWalAbsenceRebind) : option N :=
  ar_target_sequence <$> o.
Definition rebind_old (o : option NativeWalAbsenceRebind) : option NativeObjectToken :=
  ar_old_token <$> o.
Definition rebind_new (o : option NativeWalAbsenceRebind) : option NativeObjectToken :=
  ar_new_token <$> o.

(** The row that stores a record. *)
Definition wal_row (json : bytes) (r : NativeWalRecord) : RawWalRecord := {|
  rw_target_json := json; rw_object := wr_object_token r;
  rw_applied := opt_token (wr_applied_object_token r);
  rw_restored := opt_token (wr_restored_object_token r);
  rw_rebind_target_sequence := rebind_sequence (wr_absence_rebind r);
  rw_rebind_old := opt_token (rebind_old (wr_absence_rebind r));
  rw_rebind_new := opt_token (rebind_new (wr_absence_rebind r));
  rw_before_image_id := wr_before_image_id r;
  rw_operation_kind := native_mutation_kind_name (wr_operation_kind r);
  rw_expected := wr_expected r; rw_intended_applied := wr_intended_applied r;
  rw_intended_restored := wr_intended_restored r; rw_state := wal_state_name (wr_state r) |}.

Definition rebind_wf (target_sequence : N) (rebind : NativeWalAbsenceRebind) : bool :=
  (ar_target_sequence rebind <? target_sequence)
  && token_complete (ar_old_token rebind) && token_complete (ar_new_token rebind)
  && is_absence_generation (ar_old_token rebind) && is_absence_generation (ar_new_token rebind)
  && has_same_parent_binding (ar_new_token rebind) (ar_old_token rebind).

(** What decoding checks of a record apart from the rules of its state. *)
Definition wal_record_wf (r : NativeWalRecord) : bool :=
  (wr_target_sequence r <=? u32_max) && is_ok (WireNativeValue_validate (wr_target r))
  && token_complete (wr_object_token r) && opt_complete (wr_applied_object_token r)
  && opt_complete (wr_restored_object_token r)
  && match wr_absence_rebind r with
     | Some rebind => rebind_wf (wr_target_sequence r) rebind | None => true end
  && (len (wr_expected r) =? 32) && (len (wr_intended_applied r) =? 32)
  && (len (wr_intended_restored r) =? 32).

Definition record_rules (r : NativeWalRecord) : result VaultError unit :=
  wal_state_rules (wr_state r) (wal_changed r) (wr_applied_object_token r)
    (wr_restored_object_token r) (wr_absence_rebind r).

Section wal_rows.
Context `{UuidCrate} `{NativeJson} `{Primitives}.

Lemma decode_absence_rebind_row r json :
  wal_record_wf r = true ->
  decode_absence_rebind (wr_target_sequence r) (wal_row json r) = Ok (wr_absence_rebind r).
Proof.
  unfold wal_record_wf, decode_absence_rebind. intros Hwf. simpl.
  destruct (wr_absence_rebind r) as [[sequence old new]|]; simpl in *; [|done].
  unfold rebind_wf in Hwf. simpl in Hwf. rewrite !andb_true_iff in Hwf.
  destruct Hwf as [[[[[[[[Hs ?] ?] ?] ?] (((((Hlt & Ho) & Hn) & Hao) & Han) & Hp)] ?] ?] ?].
  apply N.leb_le in Hs. apply N.ltb_lt in Hlt.
  rewrite (decode_token_opt (Some old)), (decode_token_opt (Some new)) by done. cbn [rbind].
  destruct (N.ltb_spec u32_max sequence); [lia|].
  destruct (N.leb_spec (wr_target_sequence r) sequence); [lia|].
  by rewrite Hao, Han, Hp.
Qed.

(** Decoding the row of a well-formed record checks the rules of its state. *)
Lemma decode_wal_row json r :
  wal_record_wf r = true -> from_json json = Ok (wr_target r) ->
  decode_wal_record (wr_target_sequence r, wal_row json r) = (let? _ := record_rules r in Ok r).
Proof.
  intros Hwf Hj. pose proof (decode_absence_rebind_row r json Hwf) as Hr.
  unfold wal_record_wf in Hwf. rewrite !andb_true_iff in Hwf.
  destruct Hwf as [[[[[[[[Hs Ht] Hobj] Ha] Hre] _] He] Hia] Hir].
  unfold decode_wal_record, decode_fingerprint, digest_of.
  destruct (N.ltb_spec u32_max (wr_target_sequence r)) as [|_]; [apply N.leb_le in Hs; lia|].
  cbn [wal_row rw_target_json rw_object rw_applied rw_restored rw_expected rw_intended_applied
       rw_intended_restored rw_state rw_operation_kind rw_before_image_id] in *.
  rewrite Hj. cbn [rbind]. unfold validated.
  destruct (WireNativeValue_validate (wr_target r)) as [[]|]; [|done]. cbn [rbind map_err].
  rewrite Hobj. cbn [negb]. rewrite !decode_token_opt by done. cbn [rbind]. rewrite Hr. cbn [rbind].
  rewrite He, Hia, Hir. cbn [rbind]. autorewrite with native. cbn [rbind].
  unfold record_rules, wal_changed. destruct (wal_state_rules _ _ _ _ _); [|done].
  cbn [rbind]. by destruct r.
Qed.

Lemma decode_absence_rebind_inv sequence raw o :
  decode_absence_rebind sequence raw = Ok o ->
  rw_rebind_target_sequence raw = rebind_sequence o /\ rw_rebind_old raw = opt_token (rebind_old o)
  /\ rw_rebind_new raw = opt_token (rebind_new o)
  /\ match o with Some rebind => rebind_wf sequence rebind | None => true end = true.
Proof.
  unfold decode_absence_rebind. intros Hd.
  apply rbind_Ok in Hd as (old & [Ho Hco]%decode_token_inv & Hd).
  apply rbind_Ok in Hd as (new & [Hn Hcn]%decode_token_inv & Hd).
  destruct (rw_rebind_target_sequence raw) as [s|], old as [old|], new as [new|]; try discriminate.
  - destruct (u32_max <? s); [discriminate|].
    destruct (N.leb_spec sequence s) as [|Hlt]; [discriminate|].
    destruct (is_absence_generation old) eqn:E1; [|discriminate].
    destruct (is_absence_generation new) eqn:E2; [|discriminate].
    destruct (has_same_parent_binding new old) eqn:E3; [|discriminate].
    simpl in Hd. injection Hd as <-. split_and!; [done..|]. unfold rebind_wf. simpl in *.
    rewrite Hco, Hcn, E1, E2, E3. apply N.ltb_lt in Hlt. by rewrite Hlt.
  - by injection Hd as <-.
Qed.

Lemma decode_wal_inv sequence raw r :
  decode_wal_record (sequence, raw) = Ok r ->
  raw = wal_row (rw_target_json raw) r /\ wr_target_sequence r = sequence
  /\ wal_record_wf r = true /\ from_json (rw_target_json raw) = Ok (wr_target r)
  /\ record_rules r = Ok tt.
Proof.
  unfold decode_wal_record, decode_fingerprint, digest_of, validated. intros Hd.
  destruct (N.ltb_spec u32_max sequence) as [|Hs]; [discriminate|].
  res_inv. repeat match goal with x : unit |- _ => destruct x end.
  repeat match goal with
  | H : decode_token _ _ = Ok _ |- _ => apply decode_token_inv in H as [? ?]
  | H : decode_absence_rebind _ _ = Ok _ |- _ =>
      apply decode_absence_rebind_inv in H as (? & ? & ? & ?)
  | H : parse_wal_state _ = Ok _ |- _ => apply parse_wal_state_inv in H
  | H : parse_native_mutation_kind _ = Ok _ |- _ => apply parse_native_mutation_kind_inv in H
  end. subst.
  destruct raw as [json obj ap re rs ro rn bi k e ia ir st]. simpl in *. subst. unfold wal_row. simpl.
  split_and!; [done..| |done|done].
  unfold wal_record_wf. simpl.
  rewrite !andb_true_iff. rewrite negb_false_iff in *.
  split_and!; try done; [by apply N.leb_le|].
  match goal with H : WireNativeValue_validate _ = Ok _ |- _ => by rewrite H end.
Qed.
End wal_rows.

(** *** Updates of a row are updates of its record *)

Definition rec_with_state (r : NativeWalRecord) (state : MutationWalState) : NativeWalRecord := {|
  wr_target_sequence := wr_target_sequence r; wr_target := wr_target r;
  wr_object_token := wr_object_token r; wr_applied_object_token := wr_applied_object_token r;
  wr_restored_object_token := wr_restored_object_token r;
  wr_absence_rebind := wr_absence_rebind r; wr_before_image_id := wr_before_image_id r;
  wr_operation_kind := wr_operation_kind r; wr_expected := wr_expected r;
  wr_intended_applied := wr_intended_applied r;
  wr_intended_restored := wr_intended_restored r; wr_state := state |}.
Definition rec_with_applied (r : NativeWalRecord) (token : NativeObjectToken) : NativeWalRecord := {|
  wr_target_sequence := wr_target_sequence r; wr_target := wr_target r;
  wr_object_token := wr_object_token r; wr_applied_object_token := Some token;
  wr_restored_object_token := wr_restored_object_token r;
  wr_absence_rebind := wr_absence_rebind r; wr_before_image_id := wr_before_image_id r;
  wr_operation_kind := wr_operation_kind r; wr_expected := wr_expected r;
  wr_intended_applied := wr_intended_applied r;
  wr_intended_restored := wr_intended_restored r; wr_state := wr_state r |}.
Definition rec_with_restored (r : NativeWalRecord) (token : NativeObjectToken) : NativeWalRecord := {|
  wr_target_sequence := wr_target_sequence r; wr_target := wr_target r;
  wr_object_token := wr_object_token r; wr_applied_object_token := wr_applied_object_token r;
  wr_restored_object_token := Some token;
  wr_absence_rebind := wr_absence_rebind r; wr_before_image_id := wr_before_image_id r;
  wr_operation_kind := wr_operation_kind r; wr_expected := wr_expected r;
  wr_intended_applied := wr_intended_applied r;
  wr_intended_restored := wr_intended_restored r; wr_state := wr_state r |}.
Definition rec_with_rebind (r : NativeWalRecord) (rebind : NativeWalAbsenceRebind)
    : NativeWalRecord := {|
  wr_target_sequence := wr_target_sequence r; wr_target := wr_target r;
  wr_object_token := wr_object_token r; wr_applied_object_token := wr_applied_object_token r;
  wr_restored_object_token := wr_restored_object_token r;
  wr_absence_rebind := Some rebind; wr_before_image_id := wr_before_image_id r;
  wr_operation_kind := wr_operation_kind r; wr_expected := wr_expected r;
  wr_intended_applied := wr_intended_applied r;
  wr_intended_restored := wr_intended_restored r; wr_state := wr_state r |}.

Lemma wal_row_state json r state :
  with_wal_state (wal_row json r) (wal_state_name state) = wal_row json (rec_with_state r state).
Proof. done. Qed.
Lemma wal_row_applied json r token :
  with_applied (wal_row json r) token = wal_row json (rec_with_applied r token).
Proof. done. Qed.
Lemma wal_row_restored json r token :
  with_restored (wal_row json r) token = wal_row json (rec_with_restored r token).
Proof. done. Qed.
Lemma wal_row_rebind json r sequence old new :
  with_rebind (wal_row json r) sequence old new
  = wal_row json (rec_with_rebind r {| ar_target_sequence := sequence; ar_old_token := old;
                                       ar_new_token := new |}).
Proof. done. Qed.
#[export] Hint Rewrite wal_row_state wal_row_applied wal_row_restored wal_row_rebind : native.

(** A stored well-formed record satisfies the constraints of the table. *)
Lemma wal_row_checks json r :
  wal_record_wf r = true -> json <> [] -> wal_checks (wal_row json r) = true.
Proof.
  unfold wal_record_wf, wal_checks. rewrite !andb_true_iff.
  intros [[[[[[[[Hs Ht] Hobj] Ha] Hre] Hrb] He] Hia] Hir] Hj. cbn.
  rewrite !(token_checks_opt _) by (done || by destruct (wr_absence_rebind r) as [[]|]; simpl in *;
    unfold rebind_wf in Hrb; rewrite ?andb_true_iff in Hrb; naive_solver).
  rewrite Hobj, He, Hia, Hir. rewrite (bool_decide_false (json = [])) by done.
  split_and!; try done.
  - by destruct (wr_absence_rebind r) as [[]|].
  - apply bool_decide_true. destruct (wr_operation_kind r); set_solver.
  - apply bool_decide_true. destruct (wr_state r); set_solver.
Qed.

Lemma wal_checks_json raw : wal_checks raw = true -> rw_target_json raw <> [].
Proof.
  unfold wal_checks. rewrite !andb_true_iff. intros Hc. destruct Hc as [[[[[[[[[[[Hj _] _] _] _] _] _] _] _] _] _] _].
  by rewrite negb_true_iff, bool_decide_eq_false in Hj.
Qed.

(** ** Transactions *)

Lemma decode_identity_inv c i : decode_identity c = Ok i -> c = identity_columns i.
Proof.
  unfold decode_identity. destruct c as [p wm ws gi bi co pg br sd cr ss st]. simpl.
  destruct wm, ws, gi, bi, co, ss, st; try discriminate.
  - intros Hd. destruct (negb _ || _ || _ || _ || _) eqn:E; [discriminate|].
    injection Hd as <-. rewrite !orb_false_iff, !negb_false_iff, !bool_decide_eq_true in E.
    destruct E as ((((-> & ->) & ->) & ->) & ->). done.
  - intros Hd. destruct (bool_decide_reflect (p = "macos"%string)) as [->|]; [|discriminate].
    cbn [negb] in Hd. unfold transpose, i32_try_from, digest_of in Hd.
    destruct pg, sd; res_inv; subst;
      repeat match goal with
      | H : parse_mac_state _ = Ok _ |- _ => apply parse_mac_state_inv in H as ->
      | H : parse_mac_substate _ = Ok _ |- _ => apply parse_mac_substate_inv in H as ->
      end; done.
Qed.

Lemma decode_identity_columns i :
  identity_checks (identity_columns i) = true -> decode_identity (identity_columns i) = Ok i.
Proof.
  destruct i as [moniker sid|[gi bi co pg br sd cr ss st]]; [done|].
  unfold identity_checks. simpl. rewrite !andb_true_iff.
  intros [[[[Hp _] Hd] _] _].
  assert (transpose i32_try_from pg = Ok pg) as Hpg.
  { destruct pg as [z|]; [|done]. unfold transpose, i32_try_from.
    apply andb_true_iff in Hp as [?%Z.leb_le ?%Z.leb_le].
    destruct (Z.leb_spec (- 2 ^ 31) z); [|lia]. destruct (Z.ltb_spec z (2 ^ 31)); [done|lia]. }
  assert (transpose (digest_of "macOS signed digest is invalid") sd = Ok sd) as Hsd.
  { destruct sd; [|done]. unfold transpose, digest_of. simpl in Hd. by rewrite Hd. }
  unfold decode_identity. simpl. rewrite Hpg. cbn [rbind]. rewrite Hsd. cbn [rbind].
  autorewrite with native. done.
Qed.

Section tx_rows.
Context `{UuidCrateLaws} `{NativeJson} `{Primitives}.

(** A stored transaction satisfies the constraints of its table and holds a valid identity. *)
Definition tx_ok (raw : RawNativeTransaction) (snap : NativeTransactionSnapshot) : Prop :=
  transaction_checks raw = true
  /\ rt_plan_id raw = uuid_hyphenated (ts_plan_id snap) /\ wf_id (ts_plan_id snap) = true
  /\ rt_status raw = transaction_status_name (ts_status snap)
  /\ rt_sandbox_cleanup_state raw = sandbox_cleanup_state_name (ts_sandbox_cleanup_state snap)
  /\ rt_current_step raw = ts_current_step snap /\ rt_entered_step raw = ts_entered_step snap
  /\ rt_identity raw = identity_columns (ts_identity snap)
  /\ NativeSandboxIdentity_validate (ts_identity snap) = Ok tt.

Lemma transaction_checks_steps raw :
  transaction_checks raw = true ->
  rt_current_step raw <= rt_entered_step raw /\ rt_entered_step raw <= 20
  /\ identity_checks (rt_identity raw) = true.
Proof.
  unfold transaction_checks. rewrite !andb_true_iff, !N.leb_le. tauto.
Qed.

Lemma plan_text text plan :
  id_from_str text = Ok plan <-> text = uuid_hyphenated plan /\ wf_id plan = true.
Proof.
  rewrite id_from_str_Ok.
  assert (Ht : wf_id plan = true -> uuid_hyphenated plan = hyphenated_format plan).
  { intros Hl%wf_id_len. apply hyphenated_text. unfold len in Hl. lia. }
  split; [intros [Hw ->]|intros [-> Hw]]; by rewrite Ht.
Qed.

Lemma decode_tx_inv id raw snap :
  decode_native_transaction id raw = Ok snap -> transaction_checks raw = true -> tx_ok raw snap.
Proof.
  unfold decode_native_transaction. intros Hd Hc. res_inv.
  repeat match goal with
  | H : parse_transaction_status _ = Ok _ |- _ => apply parse_transaction_status_inv in H
  | H : parse_sandbox_cleanup_state _ = Ok _ |- _ => apply parse_sandbox_cleanup_state_inv in H
  | H : decode_identity _ = Ok _ |- _ => apply decode_identity_inv in H
  | x : unit |- _ => destruct x
  end. subst snap. unfold tx_ok. simpl.
  match goal with H : id_from_str _ = Ok _ |- _ => apply plan_text in H as [? ?] end.
  by split_and!.
Qed.

Lemma decode_tx id raw snap :
  tx_ok raw snap -> ts_transaction_id snap = id -> decode_native_transaction id raw = Ok snap.
Proof.
  intros (Hc & Hp & Hw & Hs & Hcl & Hcu & Hen & Hi & Hv) Hid.
  pose proof (transaction_checks_steps raw Hc) as (Hle & H20 & Hic).
  unfold decode_native_transaction. rewrite Hs, Hcl. autorewrite with native. cbn [rbind].
  destruct (N.ltb_spec u8_max (rt_current_step raw)); [unfold u8_max in *; lia|].
  destruct (N.ltb_spec u8_max (rt_entered_step raw)); [unfold u8_max in *; lia|].
  rewrite Hp, (proj2 (plan_text _ _) (conj eq_refl Hw)). cbn [rbind map_err].
  rewrite Hi in *. rewrite (decode_identity_columns _ Hic). cbn [rbind]. rewrite Hv. cbn [rbind].
  rewrite Hcu, Hen. subst id. by destruct snap.
Qed.
End tx_rows.

(** ** The log of command-line mutations *)

Definition harness_text (harness : HarnessId) : string :=
  match cli_harness_name harness with Ok name => name | Err _ => "" end.

Definition cli_row (r : NativeCliWalRecord) : RawCliWalRecord :=
  let w := cr_write r in {|
  rl_stable_id := cw_stable_id w; rl_harness := harness_text (cw_harness w);
  rl_server_name := cw_server_name w; rl_expected_declaration := cw_expected_declaration w;
  rl_expected_fingerprint := cw_expected_fingerprint w;
  rl_intended_declaration := cw_intended_declaration w;
  rl_intended_fingerprint := cw_intended_fingerprint w;
  rl_forward_operations := cw_forward_operations w;
  rl_rollback_operations := cw_rollback_operations w;
  rl_state := cli_wal_state_name (cr_state r) |}.

Definition opt_digest (o : option bytes) : bool :=
  match o with Some b => len b =? 32 | None => true end.

Lemma transpose_digest message o o' :
  transpose (digest_of message) o = Ok o' <-> o' = o /\ opt_digest o = true.
Proof.
  unfold transpose, digest_of. destruct o as [b|]; simpl; [|naive_solver].
  destruct (len b =? 32); simpl; naive_solver.
Qed.

Section cli_rows.
Context `{UuidCrate} `{NativeJson} `{Primitives}.

Definition cli_ok (r : NativeCliWalRecord) : Prop :=
  opt_digest (cw_expected_fingerprint (cr_write r)) = true
  /\ opt_digest (cw_intended_fingerprint (cr_write r)) = true
  /\ validate_native_cli_wal_write (cr_write r) = Ok tt.

Lemma valid_cli_harness w :
  validate_native_cli_wal_write w = Ok tt -> cli_harness_name (cw_harness w) = Ok (harness_text (cw_harness w))
  /\ cw_sequence w < MAX_CLI_WAL_ROWS.
Proof.
  unfold validate_native_cli_wal_write, harness_text. intros.
  destruct (N.leb_spec MAX_CLI_WAL_ROWS (cw_sequence w)); [discriminate|].
  res_inv. split; [|done].
  match goal with E : cli_harness_name _ = Ok _ |- _ => by rewrite E end.
Qed.

Lemma decode_cli_row r :
  cli_ok r -> decode_cli_wal_record (cw_sequence (cr_write r), cli_row r) = Ok r.
Proof.
  intros (He & Hi & Hv). pose proof (valid_cli_harness _ Hv) as [Hh Hs].
  unfold decode_cli_wal_record. cbn [cli_row rl_expected_fingerprint rl_intended_fingerprint
    rl_harness rl_state rl_stable_id rl_server_name rl_expected_declaration
    rl_intended_declaration rl_forward_operations rl_rollback_operations].
  rewrite !(proj2 (transpose_digest _ _ _) (conj eq_refl He)),
    !(proj2 (transpose_digest _ _ _) (conj eq_refl Hi)). cbn [rbind].
  destruct (N.ltb_spec u32_max (cw_sequence (cr_write r))); [unfold u32_max, MAX_CLI_WAL_ROWS in *; lia|].
  rewrite (parse_cli_harness_name _ _ Hh). cbn [rbind]. autorewrite with native. cbn [rbind].
  destruct r as [[] ?]. cbn in *. by rewrite Hv.
Qed.

Lemma decode_cli_inv sequence raw r :
  decode_cli_wal_record (sequence, raw) = Ok r ->
  raw = cli_row r /\ cw_sequence (cr_write r) = sequence /\ cli_ok r.
Proof.
  unfold decode_cli_wal_record. intros. res_inv.
  repeat match goal with
  | H : transpose (digest_of _) _ = Ok _ |- _ => apply transpose_digest in H as [-> ?]
  | H : parse_cli_harness _ = Ok _ |- _ => apply parse_cli_harness_inv in H
  | H : parse_cli_wal_state _ = Ok _ |- _ => apply parse_cli_wal_state_inv in H
  | x : unit |- _ => destruct x
  end. subst r. unfold cli_ok, cli_row, harness_text. cbn.
  match goal with E : cli_harness_name _ = Ok _ |- _ => rewrite E end.
  destruct raw. cbn in *. subst. by split_and!.
Qed.

Lemma cli_row_state r state :
  with_cli_state (cli_row r) (cli_wal_state_name state)
  = cli_row {| cr_write := cr_write r; cr_state := state |}.
Proof. done. Qed.
End cli_rows.
