(* ===== verification/NativeSteps.v ===== *)
(** * Native transactions: what each operation does to the logs

    A successful operation on the log of file mutations leaves the tables as they are or
    changes one record the way [wal_change] allows. *)

From S2P Require Import Prelude Ordering Text Protocol Minicbor CanonicalCbor Domain.
From S2P Require Import SyncPayload Crypto Operation Causal Merge Transport StateSummary.
From S2P Require Import Admission NativeModel NativeTables NativeWal NativeLedger NativeRows.

#[local] Open Scope N_scope.

(** Turns boolean facts into propositions. *)
Ltac bools :=
  repeat match goal with
  | H : negb _ = false |- _ => apply negb_false_iff in H
  | H : negb _ = true |- _ => apply negb_true_iff in H
  | H : bool_decide _ = true |- _ => apply bool_decide_eq_true in H
  | H : bool_decide _ = false |- _ => apply bool_decide_eq_false in H
  | H : _ && _ = true |- _ => apply andb_true_iff in H as [? ?]
  | H : _ || _ = false |- _ => apply orb_false_iff in H as [? ?]
  end.

(** ** Changes of a record *)

Inductive wal_change (r : NativeWalRecord) : NativeWalRecord -> Prop :=
| change_state next :
    transition_allowed (wr_state r) next = true ->
    (wr_state r = WalPrepared -> next = WalApplied -> wal_changed r = true ->
      is_Some (wr_applied_object_token r)) ->
    (wr_state r = WalPrepared -> next = WalRestorePrepared -> is_Some (wr_applied_object_token r)) ->
    (wr_state r = WalRestorePrepared -> next = WalRestored -> wal_changed r = true ->
      is_Some (wr_restored_object_token r)) ->
    wal_change r (rec_with_state r next)
| change_candidate token :
    wr_state r = WalPrepared -> wal_changed r = true -> wr_applied_object_token r = None ->
    token_complete token = true -> wal_change r (rec_with_applied r token)
| change_applied next token :
    wr_state r = WalPrepared -> next = WalApplied \/ next = WalConflict ->
    wr_applied_object_token r = None \/ wr_applied_object_token r = Some token ->
    token_complete token = true -> wal_change r (rec_with_state (rec_with_applied r token) next)
| change_restored token :
    wr_state r = WalRestorePrepared -> wal_changed r = true ->
    wr_restored_object_token r = None -> token_complete token = true ->
    wal_change r (rec_with_restored r token)
| change_checkpoint rebind :
    wr_state r = WalRestorePrepared -> wr_absence_rebind r = None ->
    is_Some (wr_restored_object_token r) ->
    rebind_wf (wr_target_sequence r) rebind = true -> wal_change r (rec_with_rebind r rebind)
| change_absence old new :
    wr_state r = WalRestorePrepared -> wr_applied_object_token r = Some old ->
    is_absence_generation old = true -> is_absence_generation new = true ->
    has_same_parent_binding new old = true -> token_complete new = true ->
    wal_change r (rec_with_applied r new).

Section effects.
Context `{UuidCrate} `{NativeJson} `{Primitives}.
Implicit Types t : NativeTables.

(** The log of [id] holds the record at its sequence, and it decodes. *)
Definition holds t (id : TransactionId) (json : bytes) (r : NativeWalRecord) : Prop :=
  wal_of t id !! wr_target_sequence r = Some (wal_row json r)
  /\ wal_record_wf r = true /\ from_json json = Ok (wr_target r) /\ record_rules r = Ok tt.

Definition put_record t (id : TransactionId) (json : bytes) (r : NativeWalRecord) : NativeTables :=
  set_wal t (<[id := <[wr_target_sequence r := wal_row json r]> (wal_of t id)]> (nt_wal t)).

(** One record of the log of [id] changes. *)
Definition wal_updated t (id : TransactionId) t' : Prop :=
  exists json r r', holds t id json r /\ wal_change r r' /\ wal_checks (wal_row json r') = true
    /\ t' = put_record t id json r'.

Lemma load_wal_record_Some t id sequence r :
  load_native_wal_record t id sequence = Ok (Some r) ->
  wr_target_sequence r = sequence
  /\ exists json, holds t id json r.
Proof.
  unfold load_native_wal_record, transpose. destruct (_ !! _) as [raw|] eqn:E; [|done].
  intros Hd. apply rbind_Ok in Hd as (r' & Hd & [= <-]).
  apply decode_wal_inv in Hd as (Hraw & Hs & Hwf & Hj & Hr). split; [done|].
  exists (rw_target_json raw). split_and!; [|done..]. by rewrite Hs, <- Hraw.
Qed.

Lemma require_wal_record_Ok t id sequence r :
  require_wal_record t id sequence = Ok r ->
  wr_target_sequence r = sequence /\ exists json, holds t id json r.
Proof. unfold require_wal_record. intros. res_inv. subst. by apply load_wal_record_Some. Qed.

Lemma update_wal_row_Ok t id condition f message t' json r r' :
  holds t id json r -> f (wal_row json r) = wal_row json r' ->
  wr_target_sequence r' = wr_target_sequence r ->
  update_wal_row t id (wr_target_sequence r) condition f message = Ok t' ->
  condition (wal_row json r) = true /\ wal_checks (wal_row json r') = true
  /\ t' = put_record t id json r'.
Proof.
  intros (Hl & _) Hf Hs. unfold update_wal_row, put_wal_row, put_record. rewrite Hl, Hf, Hs.
  intros. res_inv. by subst.
Qed.

Lemma token_columns_complete token :
  token_checks (token_columns token) = true -> token_complete token = true.
Proof.
  unfold token_checks, token_complete. destruct token. simpl. by rewrite andb_true_r.
Qed.

Lemma transition_native_wal_effect t id sequence next t' :
  transition_native_wal t id sequence next = Ok t' -> t' = t \/ wal_updated t id t'.
Proof.
  unfold transition_native_wal. intros Ht.
  apply rbind_Ok in Ht as (r & (Hs & json & Hh)%require_wal_record_Ok & Ht).
  destruct (bool_decide (wr_state r = next)); [left; congruence|]. right.
  destruct (bool_decide _ && bool_decide _ && wal_changed r && _) eqn:E1; [discriminate|].
  destruct (bool_decide _ && bool_decide _ && bool_decide _) eqn:E2 in Ht; [discriminate|].
  destruct (bool_decide _ && bool_decide _ && wal_changed r && _) eqn:E3 in Ht; [discriminate|].
  destruct (transition_allowed _ _) eqn:Ha in Ht; [|discriminate]. cbn [negb] in Ht.
  rewrite <- Hs in Ht.
  eapply (update_wal_row_Ok _ _ _ _ _ _ _ _ (rec_with_state r next)) in Ht as (_ & Hc & ->);
    [|done..].
  exists json, r, (rec_with_state r next). split_and!; [done| |done|done].
  apply change_state; [done| | |]; intros Hst -> **.
  - destruct (wr_applied_object_token r); [done|]. rewrite Hst, !bool_decide_true in E1 by done. rewrite ?andb_true_r in E1. cbn in E1. congruence.
  - destruct (wr_applied_object_token r); [done|]. rewrite Hst, !bool_decide_true in E2 by done. rewrite ?andb_true_r in E2. cbn in E2. congruence.
  - destruct (wr_restored_object_token r); [done|]. rewrite Hst, !bool_decide_true in E3 by done. rewrite ?andb_true_r in E3. cbn in E3. congruence.
Qed.

Lemma record_native_wal_candidate_effect t id sequence token t' :
  record_native_wal_candidate t id sequence token = Ok t' -> t' = t \/ wal_updated t id t'.
Proof.
  unfold record_native_wal_candidate. intros Ht. res_inv. bools.
  match goal with H : require_wal_record _ _ _ = Ok ?x |- _ => rename x into r;
    apply require_wal_record_Ok in H as (Hs & json & Hh) end.
  destruct (wr_applied_object_token r) as [tok|] eqn:Ha.
  - left. res_inv. congruence.
  - right. rewrite <- Hs in Ht.
    eapply (update_wal_row_Ok _ _ _ _ _ _ _ _ (rec_with_applied r token)) in Ht
      as (_ & Hc & ->); [|done..].
    exists json, r, (rec_with_applied r token). split_and!; [done| |done|done].
    apply change_candidate; [done| |done|done]. unfold wal_changed. by rewrite bool_decide_false.
Qed.

Lemma transition_with_token_effect t id sequence next token t' :
  transition_native_wal_with_applied_object_token t id sequence next token = Ok t' ->
  t' = t \/ wal_updated t id t'.
Proof.
  unfold transition_native_wal_with_applied_object_token. intros Ht. res_inv. bools.
  match goal with H : require_wal_record _ _ _ = Ok ?x |- _ => rename x into r;
    apply require_wal_record_Ok in H as (Hs & json & Hh) end.
  destruct (bool_decide (wr_state r = next)) eqn:En; [left; res_inv; congruence|]. right. res_inv.
  match goal with H : negb (match wr_state r with _ => _ end) = false |- _ => rename H into Hm end.
  rewrite <- Hs in Ht.
  eapply (update_wal_row_Ok _ _ _ _ _ _ _ _ (rec_with_state (rec_with_applied r token) next)) in Ht
    as (_ & Hc & ->); [|done..].
  exists json, r, (rec_with_state (rec_with_applied r token) next). split_and!; [done| |done|done].
  apply negb_false_iff in Hm.
  apply change_applied; [by destruct (wr_state r)|destruct (wr_state r), next; naive_solver| |done].
  destruct (wr_applied_object_token r); bools; naive_solver.
Qed.

Lemma record_native_wal_restored_candidate_effect t id sequence token t' :
  record_native_wal_restored_candidate t id sequence token = Ok t' -> t' = t \/ wal_updated t id t'.
Proof.
  unfold record_native_wal_restored_candidate. intros Ht. res_inv. bools.
  match goal with H : require_wal_record _ _ _ = Ok ?x |- _ => rename x into r;
    apply require_wal_record_Ok in H as (Hs & json & Hh) end.
  destruct (wr_restored_object_token r) as [tok|] eqn:Ha.
  - left. res_inv. congruence.
  - right. rewrite <- Hs in Ht.
    eapply (update_wal_row_Ok _ _ _ _ _ _ _ _ (rec_with_restored r token)) in Ht
      as (_ & Hc & ->); [|done..].
    exists json, r, (rec_with_restored r token). split_and!; [done| |done|done].
    apply change_restored; [done| |done|done]. unfold wal_changed. by rewrite bool_decide_false.
Qed.

(** ** Reading the whole log *)

Lemma by_sequence_elem {A} (rows : gmap N A) n a :
  (n, a) ∈ by_sequence rows <-> rows !! n = Some a.
Proof. unfold by_sequence. by rewrite sort_by_key_perm, elem_of_map_to_list. Qed.

Lemma load_native_wal_elem t id records r :
  load_native_wal t id = Ok records -> r ∈ records -> exists json, holds t id json r.
Proof.
  unfold load_native_wal. intros Hl%try_map_Ok Hr.
  apply list_elem_of_lookup in Hr as [i Hi].
  destruct (Forall2_lookup_r _ _ _ _ _ Hl Hi) as ([n raw] & Hn & Hd).
  apply decode_wal_inv in Hd as (Hraw & Hs & Hwf & Hj & Hru).
  assert (Hin : (n, raw) ∈ by_sequence (wal_of t id)) by (apply list_elem_of_lookup; eauto).
  apply by_sequence_elem in Hin. exists (rw_target_json raw).
  split_and!; [|done..]. by rewrite Hs, <- Hraw.
Qed.

Lemma find_elem {A} (f : A -> bool) l x : find f l = Some x -> x ∈ l /\ f x = true.
Proof. intros [? ?]%find_some. by rewrite list_elem_of_In. Qed.

Lemma edge_inv records target later old new existing later_r :
  validate_absence_rebind_edge records target later old new = Ok (existing, later_r) ->
  existing ∈ records /\ wr_target_sequence existing = target
  /\ later_r ∈ records /\ wr_target_sequence later_r = later /\ target < later
  /\ is_absence_generation old = true /\ is_absence_generation new = true
  /\ has_same_parent_binding new old = true
  /\ wr_state existing = WalRestorePrepared /\ is_Some (wr_restored_object_token later_r).
Proof.
  unfold validate_absence_rebind_edge. intros He.
  destruct (N.leb_spec later target); [discriminate|]. res_inv. bools. simplify_eq.
  repeat match goal with H : find _ _ = Some _ |- _ => apply find_elem in H as [? ?] end.
  repeat match goal with H : (_ =? _) = true |- _ => apply N.eqb_eq in H end.
  split_and!; done || by eexists.
Qed.

Lemma checkpoint_absence_effect t id target later old new t' :
  checkpoint_native_wal_absence_rebind t id target later old new = Ok t' ->
  t' = t \/ wal_updated t id t'.
Proof.
  unfold checkpoint_native_wal_absence_rebind. intros Ht.
  apply rbind_Ok in Ht as (snap & _ & Ht).
  destruct (negb _); [discriminate|]. apply rbind_Ok in Ht as (records & Hl & Ht).
  apply rbind_Ok in Ht as ([existing l] & He & Ht).
  apply edge_inv in He as (? & Hse & Hin & Hsl & Hlt & Ho & Hn & Hp & ? & Hres).
  destruct (load_native_wal_elem _ _ _ _ Hl Hin) as [json Hh]. res_inv. bools.
  destruct (wr_absence_rebind l) eqn:Hr; [left; res_inv; congruence|]. right. rewrite <- Hsl in Ht.
  set (rb := {| ar_target_sequence := target; ar_old_token := old; ar_new_token := new |}) in *.
  eapply (update_wal_row_Ok _ _ _ _ _ _ _ _ (rec_with_rebind l rb)) in Ht
    as (_ & Hc & ->); [|done..].
  exists json, l, (rec_with_rebind l rb).
  split_and!; [done| |done|done]. apply change_checkpoint; [done..|].
  unfold wal_checks in Hc. rewrite !andb_true_iff in Hc. cbn in Hc.
  unfold rebind_wf, rb. cbn. rewrite Ho, Hn, Hp, !andb_true_r, !andb_true_iff.
  split_and!; [apply N.ltb_lt; lia|apply token_columns_complete; tauto..].
Qed.

Lemma rebind_absence_effect t id target later old new t' :
  rebind_native_wal_applied_absence t id target later old new = Ok t' ->
  t' = t \/ wal_updated t id t'.
Proof.
  unfold rebind_native_wal_applied_absence. intros Ht.
  apply rbind_Ok in Ht as (snap & _ & Ht).
  destruct (negb _); [discriminate|]. apply rbind_Ok in Ht as (records & Hl & Ht).
  apply rbind_Ok in Ht as ([e l] & He & Ht).
  apply edge_inv in He as (Hin & Hse & ? & Hsl & Hlt & Ho & Hn & Hp & Hst & Hres).
  destruct (load_native_wal_elem _ _ _ _ Hl Hin) as [json Hh].
  apply rbind_Ok in Ht as (cp & _ & Ht). destruct (negb _) in Ht; [discriminate|].
  apply rbind_Ok in Ht as (applied & Ha & Ht). apply ok_or_Ok in Ha.
  destruct (bool_decide (applied = new)); [left; congruence|]. right.
  destruct (bool_decide_reflect (applied = old)) as [->|]; [|discriminate]. cbn [negb] in Ht.
  rewrite <- Hse in Ht.
  eapply (update_wal_row_Ok _ _ _ _ _ _ _ _ (rec_with_applied e new)) in Ht
    as (_ & Hc & ->); [|done..].
  exists json, e, (rec_with_applied e new). split_and!; [done| |done|done].
  eapply change_absence; [done..|].
  unfold wal_checks in Hc. rewrite !andb_true_iff in Hc. cbn in Hc.
  apply token_columns_complete. tauto.
Qed.
End effects.

(** ** Transactions *)

Definition terminal (status : NativeTransactionStatus) : Prop :=
  status = TxCommitted \/ status = TxRestored \/ status = TxConflict.

(** A generation keeps its identity and what is bound, and only moves forward. *)
Definition generation_change (g g' : MacGeneration) : Prop :=
  MacGeneration_validate g' = Ok tt
  /\ mg_generation_id g' = mg_generation_id g /\ mg_bundle_id g' = mg_bundle_id g
  /\ mg_container g' = mg_container g
  /\ (forall x, mg_guardian_pgid g = Some x -> mg_guardian_pgid g' = Some x)
  /\ (forall x, mg_bundle_root g = Some x -> mg_bundle_root g' = Some x)
  /\ (forall x, mg_signed_digest g = Some x -> mg_signed_digest g' = Some x)
  /\ (forall x, mg_container_root g = Some x -> mg_container_root g' = Some x)
  /\ substate_rank (mg_substate g) <= substate_rank (mg_substate g')
  /\ (mg_state g' = mg_state g \/ mac_transition_allowed (mg_state g) (mg_state g') = true).

(** [settled_as]: what the logs must be for a recovery to finish with or without conflicts. *)
Inductive tx_change (settled_as : bool -> Prop) (s : NativeTransactionSnapshot)
    (raw : RawNativeTransaction) : RawNativeTransaction -> Prop :=
| tx_enter n :
    ts_status s = TxPending \/ n = 20 /\ terminal (ts_status s) ->
    n = 20 \/ ts_entered_step s = ts_current_step s /\ ts_current_step s + 1 = n ->
    tx_change settled_as s raw (with_steps raw (rt_status raw) (rt_current_step raw) n)
| tx_complete n :
    ts_status s = TxPending -> ts_current_step s + 1 = n -> ts_entered_step s = n -> n < 19 ->
    tx_change settled_as s raw (with_steps raw (rt_status raw) n (rt_entered_step raw))
| tx_restoring :
    ts_status s = TxPending ->
    tx_change settled_as s raw (with_steps raw "restoring" (rt_current_step raw) (rt_entered_step raw))
| tx_recovered (conflict : bool) :
    ts_status s = TxRestoring -> settled_as conflict ->
    tx_change settled_as s raw (with_steps raw (if conflict then "conflict" else "restored") 19 19)
| tx_cleaned cleanup :
    terminal (ts_status s) -> ts_current_step s = 19 ->
    ts_sandbox_cleanup_state s = CleanupPending /\ cleanup = CleanupCleaned
    \/ ts_sandbox_cleanup_state s = CleanupConflict /\ cleanup = CleanupConflict ->
    tx_change settled_as s raw (with_cleanup raw (sandbox_cleanup_state_name cleanup) 20 20)
| tx_cleanup_conflict :
    terminal (ts_status s) -> ts_current_step s = 19 ->
    ts_sandbox_cleanup_state s = CleanupPending ->
    tx_change settled_as s raw (with_cleanup raw "conflict" (rt_current_step raw) (rt_entered_step raw))
| tx_generation g g' :
    ts_identity s = MacosIdentity g -> generation_change g g' ->
    tx_change settled_as s raw (with_identity raw (identity_columns (MacosIdentity g'))).

Section tx_effects.
Context `{UuidCrateLaws} `{NativeJson} `{Primitives}.
Implicit Types t : NativeTables.

Definition tx_checked t : Prop :=
  map_Forall (fun _ raw => transaction_checks raw = true) (nt_transactions t).

Definition put_tx t (id : TransactionId) (raw : RawNativeTransaction) : NativeTables :=
  set_transactions t (<[id := raw]> (nt_transactions t)).

Definition stored_tx t (id : TransactionId) raw snap : Prop :=
  nt_transactions t !! id = Some raw /\ tx_ok raw snap /\ ts_transaction_id snap = id.

(** Every row of the log is settled, and the outcome says whether one is in conflict. *)
Definition settled t (id : TransactionId) (conflict : bool) : Prop :=
  (forall sequence raw, wal_of t id !! sequence = Some raw ->
     rw_state raw = "restored"%string \/ rw_state raw = "conflict"%string /\ conflict = true)
  /\ (forall sequence raw, cli_wal_of t id !! sequence = Some raw ->
     rl_state raw = "prepared"%string \/ rl_state raw = "restored"%string
     \/ rl_state raw = "conflict"%string /\ conflict = true).

(** The row of one transaction changes. *)
Definition tx_updated t (id : TransactionId) t' : Prop :=
  exists raw snap raw', stored_tx t id raw snap
    /\ tx_change (settled t id) snap raw raw'
    /\ transaction_checks raw' = true /\ t' = put_tx t id raw'.

Lemma require_native_transaction_Ok t id snap :
  tx_checked t -> require_native_transaction t id = Ok snap -> exists raw, stored_tx t id raw snap.
Proof.
  unfold require_native_transaction, load_native_transaction, transpose. intros Hc Hr. res_inv.
  destruct (nt_transactions t !! id) as [raw|] eqn:E; res_inv; [|by subst]. simplify_eq.
  exists raw. split_and!; [done| |].
  - eapply decode_tx_inv; [done|]. by eapply Hc.
  - match goal with D : decode_native_transaction _ _ = Ok _ |- _ =>
      unfold decode_native_transaction in D; res_inv; subst; done end.
Qed.

Lemma update_transaction_Ok t id condition f message t' raw :
  nt_transactions t !! id = Some raw ->
  update_transaction t id condition f message = Ok t' ->
  condition raw = true /\ transaction_checks (f raw) = true /\ t' = put_tx t id (f raw).
Proof. unfold update_transaction. intros ->. intros. res_inv. by subst. Qed.

Ltac start Hc Ht snap raw Hst :=
  apply rbind_Ok in Ht as (snap & Hst & Ht);
  apply (require_native_transaction_Ok _ _ _ Hc) in Hst as [raw Hst].

Lemma enter_native_step_effect t id step t' :
  tx_checked t -> enter_native_step t id step = Ok t' -> t' = t \/ tx_updated t id t'.
Proof.
  unfold enter_native_step. intros Hc Ht. start Hc Ht snap raw Hst. cbv zeta in Ht.
  destruct ((_ =? _) && _); [left; congruence|]. right.
  destruct (negb _ || negb _) eqn:Ev; [discriminate|]. bools.
  pose proof Hst as (Hl & Hok & _). eapply update_transaction_Ok in Ht as (_ & Hch & ->); [|done].
  eexists raw, snap, _. split_and!; [done| |done|done]. apply tx_enter.
  - match goal with E : _ || (_ && match ts_status snap with _ => _ end) = true |- _ => revert E end.
    unfold terminal. rewrite orb_true_iff, andb_true_iff, bool_decide_eq_true, N.eqb_eq.
    destruct (ts_status snap); intuition congruence.
  - match goal with E : (step_number step =? 20) || _ = true |- _ => revert E end.
    rewrite orb_true_iff, andb_true_iff, !N.eqb_eq. naive_solver.
Qed.

Lemma complete_native_step_effect t id step t' :
  tx_checked t -> complete_native_step t id step = Ok t' -> t' = t \/ tx_updated t id t'.
Proof.
  unfold complete_native_step. intros Hc Ht.
  destruct (N.leb_spec 19 (step_number step)); [discriminate|]. start Hc Ht snap raw Hst.
  destruct (bool_decide_reflect (ts_status snap = TxPending)); [|discriminate]. cbn [negb] in Ht.
  destruct ((_ =? _) && _); [left; congruence|]. right.
  destruct (negb _ || negb _) eqn:Ev; [discriminate|]. bools.
  repeat match goal with H : (_ =? _) = true |- _ => apply N.eqb_eq in H end.
  pose proof Hst as (Hl & Hok & _). eapply update_transaction_Ok in Ht as (_ & Hch & ->); [|done].
  eexists raw, snap, _. split_and!; [done| |done|done]. by apply tx_complete.
Qed.

Lemma begin_native_recovery_effect t id t' :
  tx_checked t -> begin_native_recovery t id = Ok t' -> t' = t \/ tx_updated t id t'.
Proof.
  unfold begin_native_recovery. intros Hc Ht. start Hc Ht snap raw Hst.
  destruct (ts_status snap) eqn:Es; try discriminate; [|left; congruence]. right.
  pose proof Hst as (Hl & Hok & _). eapply update_transaction_Ok in Ht as (_ & Hch & ->); [|done].
  eexists raw, snap, _. split_and!; [done| |done|done]. by apply tx_restoring.
Qed.

Lemma wal_count_zero t id condition :
  wal_count t id condition = 0 <->
  forall sequence raw, wal_of t id !! sequence = Some raw -> condition raw = false.
Proof.
  unfold wal_count. split.
  - intros Hz sequence raw Hl. apply not_true_is_false. intros Hc.
    assert ((sequence, raw) ∈ filter (fun row => condition row.2 = true) (map_to_list (wal_of t id))) as Hin
      by (apply list_elem_of_filter; split; [done|by apply elem_of_map_to_list]).
    destruct (filter _ _); [by apply elem_of_nil in Hin|done].
  - intros Hf. destruct (filter _ _) as [|[n raw] l] eqn:E; [done|].
    assert ((n, raw) ∈ filter (fun row => condition row.2 = true) (map_to_list (wal_of t id))) as Hin
      by (rewrite E; left).
    apply list_elem_of_filter in Hin as [Hc Hin]. apply elem_of_map_to_list in Hin.
    cbn in Hc. by rewrite (Hf _ _ Hin) in Hc.
Qed.

Lemma load_native_cli_wal_elem t id records sequence raw :
  load_native_cli_wal t id = Ok records -> cli_wal_of t id !! sequence = Some raw ->
  exists r, r ∈ records /\ raw = cli_row r /\ cw_sequence (cr_write r) = sequence /\ cli_ok r.
Proof.
  unfold load_native_cli_wal. intros Hl%try_map_Ok Hr.
  assert ((sequence, raw) ∈ by_sequence (cli_wal_of t id)) as [i Hi]%list_elem_of_lookup
    by (by apply by_sequence_elem).
  destruct (Forall2_lookup_l _ _ _ _ _ Hl Hi) as (r & Hr' & Hd). cbn [fst] in Hd. destruct (u32_max <? sequence); [discriminate|].
  apply decode_cli_inv in Hd as (? & ? & ?). exists r. split_and!; try done.
  apply list_elem_of_lookup. eauto.
Qed.

Lemma len_filter_zero {A} (P : A -> Prop) `{forall x, Decision (P x)} l x :
  len (filter P l) = 0 -> x ∈ l -> ~ P x.
Proof.
  intros Hz Hx HP. assert (Hin : x ∈ filter P l) by (by apply list_elem_of_filter).
  destruct (filter P l); [by apply elem_of_nil in Hin|done].
Qed.

Lemma finish_native_recovery_effect t id conflict no_write t' :
  tx_checked t ->
  finish_native_recovery_with_cli_no_write t id conflict no_write = Ok t' ->
  t' = t \/ tx_updated t id t'.
Proof.
  unfold finish_native_recovery_with_cli_no_write. intros Hc Ht. start Hc Ht snap raw Hst.
  cbv zeta in Ht. destruct (bool_decide _ && _ && _); [left; congruence|]. right.
  destruct (bool_decide_reflect (ts_status snap = TxRestoring)); [|discriminate]. cbn [negb] in Ht.
  apply rbind_Ok in Ht as (records & Hl & Ht).
  destruct (negb _) in Ht; [discriminate|].
  destruct (negb _ || negb _ || negb _) eqn:E; [discriminate|]. bools.
  pose proof Hst as (Hlk & Hok & _). eapply update_transaction_Ok in Ht as (_ & Hch & ->); [|done].
  eexists raw, snap, _. split_and!; [done| |done|done]. apply tx_recovered; [done|].
  repeat match goal with X : (_ =? 0) = true |- _ => apply N.eqb_eq in X end.
  match goal with X : Bool.eqb _ _ = true |- _ => apply Bool.eqb_prop in X; rename X into Hconf end.
  split.
  - intros sequence r Hr.
    match goal with X : wal_count _ _ _ = 0 |- _ => rewrite wal_count_zero in X; apply X in Hr as Hs end.
    bools. destruct (decide (rw_state r = "restored"%string)); [by left|]. right.
    assert (rw_state r = "conflict"%string) as Hcs by set_solver. split; [done|].
    rewrite <- Hconf, orb_true_iff, !negb_true_iff, !N.eqb_neq. left. intros Hz.
    rewrite wal_count_zero in Hz. apply Hz in Hr. bools. done.
  - intros sequence r Hr. destruct (load_native_cli_wal_elem _ _ _ _ _ Hl Hr) as (c & Hin & -> & _).
    match goal with X : len (filter _ records) = 0 |- _ => pose proof (len_filter_zero _ _ _ X Hin) end.
    cbn. destruct (cr_state c) eqn:Es; cbn; [by left|naive_solver..|by right; left|].
    right. right. split; [done|]. rewrite <- Hconf, orb_true_iff, !negb_true_iff, !N.eqb_neq. right.
    intros Hz. by eapply len_filter_zero in Hz.
Qed.

Lemma mark_native_cleanup_conflict_effect t id t' :
  tx_checked t -> mark_native_cleanup_conflict t id = Ok t' -> t' = t \/ tx_updated t id t'.
Proof.
  unfold mark_native_cleanup_conflict. intros Hc Ht. start Hc Ht snap raw Hst. cbv zeta in Ht.
  destruct (bool_decide _ && _); [left; congruence|]. right.
  destruct (negb _ || negb _ || negb _) eqn:E; [discriminate|]. bools.
  pose proof Hst as (Hl & Hok & _). eapply update_transaction_Ok in Ht as (Hcond & Hch & ->); [|done].
  eexists raw, snap, _. split_and!; [done| |done|done].
  repeat match goal with X : (_ =? _) = true |- _ => apply N.eqb_eq in X end. bools.
  apply tx_cleanup_conflict; [|done|].
  - unfold terminal. destruct (ts_status snap); naive_solver.
  - destruct Hok as (_ & _ & _ & _ & Hcl & _).
    match goal with X : rt_sandbox_cleanup_state raw = _ |- _ => rewrite Hcl in X; revert X end.
    by destruct (ts_sandbox_cleanup_state snap).
Qed.
End tx_effects.
