(* ===== verification/NativeEffects.v ===== *)
(** * Native transactions: effects of preparing, committing, cleaning up and binding

    The operations that touch several tables, described by what they leave unchanged and what
    they write. *)

From S2P Require Import Prelude Ordering Text Protocol Minicbor CanonicalCbor Domain.
From S2P Require Import SyncPayload Crypto Operation Causal Merge Transport StateSummary.
From S2P Require Import Admission NativeModel NativeTables NativeWal NativeLedger NativeRows.
From S2P Require Import NativeSteps.

#[local] Open Scope N_scope.

(** ** Laws of the serialisers *)

Definition typed_native_value (v : WireNativeValue) : bool :=
  match wv_display v with Some s => wf_str s | None => true end.

Section typed.
Context `{UuidCrate}.
Definition typed_apply_receipt (r : ApplyReceipt) : bool :=
  wf_id (rc_plan_id r) && wf_hlc (rc_applied_hlc r) && forallb (wf_fixed 32) (rc_resulting_digests r).
Definition typed_receipt_entry (e : NativeReceiptEntry) : bool :=
  typed_native_value (re_target e) && wf_fixed 32 (re_fingerprint e).
Definition typed_receipt_payload (p : NativeReceiptPayload) : bool :=
  (rp_schema_version p <=? u32_max) && forallb typed_receipt_entry (rp_targets p).
Definition typed_native_receipt (r : NativeApplyReceipt) : bool :=
  typed_apply_receipt (nr_legacy r) && forallb typed_receipt_entry (nr_targets r).
Definition typed_cli_operation (o : CliOperation) : bool :=
  typed_native_value (co_executable o) && forallb typed_native_value (co_arguments o)
  && (co_timeout_ms o <=? u32_max).
End typed.

Class NativeJsonLaws `{UuidCrate, NativeJson} : Prop := {
  json_native_value_laws : SerdeJsonLaws json_native_value_wire typed_native_value;
  json_apply_receipt_laws : SerdeJsonLaws json_apply_receipt_wire typed_apply_receipt;
  json_receipt_payload_laws : SerdeJsonLaws json_receipt_payload_wire typed_receipt_payload;
  json_cli_operations_laws : SerdeJsonLaws json_cli_operations_wire (forallb typed_cli_operation);
  json_native_value_nonempty : forall v, to_vec (SerdeJson := json_native_value_wire) v <> Some [];
}.

Lemma validated_json_round {T} (validate typed : T -> bool) (wire : SerdeJson T) v b :
  SerdeJsonLaws wire typed -> typed v = true ->
  to_json (H := validated_json validate wire) v = Ok b ->
  from_json (H := validated_json validate wire) b = Ok v.
Proof.
  unfold to_json, from_json. cbn [to_vec from_slice validated_json]. intros L Ht Hto%ok_or_Ok.
  destruct (validate v) eqn:E; [|done]. apply ok_or_Ok.
  destruct (from_to_vec v b Ht Hto) as [_ ->]. simpl. by rewrite E.
Qed.

Section wal_effects.
Context `{UuidCrateLaws} `{!NativeJson} `{!NativeJsonLaws} `{Primitives}.
Implicit Types t : NativeTables.

(** ** Preparing a file mutation *)

Definition fresh_record (write : NativeWalWrite) : NativeWalRecord := {|
  wr_target_sequence := ww_target_sequence write; wr_target := ww_target write;
  wr_object_token := ww_object_token write; wr_applied_object_token := None;
  wr_restored_object_token := None; wr_absence_rebind := None;
  wr_before_image_id := ww_before_image_id write; wr_operation_kind := ww_operation_kind write;
  wr_expected := ww_expected write; wr_intended_applied := ww_intended_applied write;
  wr_intended_restored := ww_intended_restored write; wr_state := WalPrepared |}.

(** What the types of the source say of a write. *)
Definition typed_wal_write (w : NativeWalWrite) : bool :=
  (ww_target_sequence w <=? u32_max) && typed_native_value (ww_target w)
  && wf_fixed 32 (ww_expected w) && wf_fixed 32 (ww_intended_applied w)
  && wf_fixed 32 (ww_intended_restored w).

(** A new record is appended to the log of a pending transaction. *)
Definition wal_appended t (id : TransactionId) (write : NativeWalWrite) t' : Prop :=
  exists raw snap json, stored_tx t id raw snap /\ ts_status snap = TxPending
    /\ (nt_before_images t !! ww_before_image_id write ≫= bi_plan_id)
       = Some (uuid_hyphenated (ts_plan_id snap))
    /\ ww_target_sequence write = len (map_to_list (wal_of t id))
    /\ wal_of t id !! ww_target_sequence write = None
    /\ (forall json' r, holds t id json' r -> same_native_target (wr_target r) (ww_target write) = false)
    /\ (exists records, load_native_wal t id = Ok records)
    /\ wal_record_wf (fresh_record write) = true /\ from_json json = Ok (ww_target write)
    /\ json <> []
    /\ t' = put_record t id json (fresh_record write).

Lemma load_native_wal_complete t id records json r :
  load_native_wal t id = Ok records -> holds t id json r -> r ∈ records.
Proof.
  unfold load_native_wal. intros Hl%try_map_Ok (Hr & Hwf & Hj & Hru).
  assert ((wr_target_sequence r, wal_row json r) ∈ by_sequence (wal_of t id))
    as [i Hi]%list_elem_of_lookup by (by apply by_sequence_elem).
  destruct (Forall2_lookup_l _ _ _ _ _ Hl Hi) as (r' & Hr' & Hd).
  rewrite decode_wal_row, Hru in Hd by done. injection Hd as <-.
  apply list_elem_of_lookup. eauto.
Qed.

Lemma validated_Ok {A} (r : result ValidationError A) a : validated r = Ok a <-> r = Ok a.
Proof. apply map_err_Ok. Qed.

Lemma prepare_native_wal_effect t id write t' :
  tx_checked t -> typed_wal_write write = true ->
  prepare_native_wal t id write = Ok t' -> t' = t \/ wal_appended t id write t'.
Proof.
  unfold prepare_native_wal, typed_wal_write, wf_fixed. rewrite !andb_true_iff.
  intros Hc ((((Hseq & Htv) & He) & Hia) & Hir) Ht.
  apply rbind_Ok in Ht as ([] & Hval%validated_Ok & Ht).
  destruct (trim_is_empty _); [discriminate|].
  destruct (token_complete (ww_object_token write)) eqn:Htok; [|discriminate]. cbn [negb] in Ht.
  apply rbind_Ok in Ht as (json & Hjson & Ht).
  apply rbind_Ok in Ht as (snap & [raw Hst]%require_native_transaction_Ok & Ht); [|done].
  destruct (negb _) eqn:Es in Ht; [discriminate|].
  destruct (negb _) eqn:Ei in Ht; [discriminate|]. bools.
  apply rbind_Ok in Ht as ([existing|] & Hex & Ht).
  { left. destruct (wal_write_matches _ _); congruence. }
  right. destruct (negb _) eqn:Esz in Ht; [discriminate|]. bools.
  apply rbind_Ok in Ht as (records & Hl & Ht).
  destruct (existsb _ records) eqn:Edup; [discriminate|].
  destruct (existsb _ _) in Ht; [discriminate|].
  unfold put_wal_row in Ht. destruct (wal_checks _); [|discriminate]. injection Ht as <-.
  exists raw, snap, json. split_and!; try done.
  - by apply N.eqb_eq.
  - unfold load_native_wal_record, transpose in Hex.
    destruct (wal_of t id !! _); [|done]. by apply rbind_Ok in Hex as (? & _ & ?).
  - intros json' r Hh. apply not_true_is_false. intros Hsame.
    eapply load_native_wal_complete in Hh; [|done].
    assert (existsb (fun record => same_native_target (wr_target record) (ww_target write)) records = true)
      as Hb; [|congruence]. apply existsb_exists. exists r. by rewrite <- list_elem_of_In.
  - by eexists.
  - unfold wal_record_wf. cbn. by rewrite Hseq, Hval, Htok, He, Hia, Hir.
  - eapply validated_json_round; [apply json_native_value_laws|done|done].
  - intros ->. unfold to_json in Hjson. apply ok_or_Ok in Hjson. cbn in Hjson.
    destruct (is_ok _); [|done]. by apply json_native_value_nonempty in Hjson.
Qed.

(** ** Command-line rows *)

Definition put_cli t (id : TransactionId) (r : NativeCliWalRecord) : NativeTables :=
  set_cli_wal t (<[id := <[cw_sequence (cr_write r) := cli_row r]> (cli_wal_of t id)]> (nt_cli_wal t)).

Definition cli_appended t (id : TransactionId) (write : NativeCliWalWrite) t' : Prop :=
  exists raw snap, stored_tx t id raw snap /\ ts_status snap = TxPending
    /\ cli_wal_of t id !! cw_sequence write = None
    /\ cli_ok {| cr_write := write; cr_state := CliPrepared |}
    /\ t' = put_cli t id {| cr_write := write; cr_state := CliPrepared |}.

Definition cli_updated t (id : TransactionId) t' : Prop :=
  exists r next, cli_wal_of t id !! cw_sequence (cr_write r) = Some (cli_row r) /\ cli_ok r
    /\ cli_transition_allowed (cr_state r) next = true
    /\ t' = put_cli t id {| cr_write := cr_write r; cr_state := next |}.

Lemma prepare_native_cli_wal_effect t id write t' :
  tx_checked t -> prepare_native_cli_wal t id write = Ok t' -> t' = t \/ cli_appended t id write t'.
Proof.
  unfold prepare_native_cli_wal. intros Hc Ht. destruct (trim_is_empty id); [discriminate|].
  apply rbind_Ok in Ht as ([] & Hv & Ht).
  apply rbind_Ok in Ht as (snap & [raw Hst]%require_native_transaction_Ok & Ht); [|done].
  destruct (negb _) eqn:Es in Ht; [discriminate|]. bools.
  apply rbind_Ok in Ht as ([existing|] & Hex & Ht).
  { left. destruct (cli_wal_write_matches _ _); congruence. }
  right. apply rbind_Ok in Ht as (records & Hl & Ht).
  destruct (negb _) in Ht; [discriminate|]. destruct (existsb _ _); [discriminate|].
  apply rbind_Ok in Ht as (harness & Hh & Ht). unfold put_cli_row in Ht.
  destruct (cli_wal_checks _) eqn:Ek; [|discriminate]. injection Ht as <-.
  exists raw, snap. split_and!; try done.
  - unfold load_native_cli_wal_record, transpose in Hex.
    destruct (cli_wal_of t id !! _); [|done]. by apply rbind_Ok in Hex as (? & _ & ?).
  - unfold cli_wal_checks, declaration_checks in Ek. cbn in Ek. rewrite !andb_true_iff in Ek.
    unfold cli_ok, opt_digest. cbn. split_and!; [| |done].
    + destruct (cw_expected_declaration write), (cw_expected_fingerprint write);
        rewrite ?andb_true_iff in Ek; naive_solver.
    + destruct (cw_intended_declaration write), (cw_intended_fingerprint write);
        rewrite ?andb_true_iff in Ek; naive_solver.
  - unfold put_cli, cli_row, harness_text. cbn. by rewrite Hh.
Qed.

Lemma transition_native_cli_wal_effect t id sequence next t' :
  transition_native_cli_wal t id sequence next = Ok t' -> t' = t \/ cli_updated t id t'.
Proof.
  unfold transition_native_cli_wal, load_native_cli_wal_record, transpose. intros Ht.
  destruct (cli_wal_of t id !! sequence) as [raw|] eqn:El; [|by cbn in Ht].
  apply rbind_Ok in Ht as (o & Hd & Ht). apply rbind_Ok in Hd as (r & Hd & [= <-]).
  apply rbind_Ok in Ht as (r' & Hr & Ht). injection Hr as <-.
  apply decode_cli_inv in Hd as (-> & Hs & Hok).
  destruct (bool_decide _) in Ht; [left; congruence|]. right.
  destruct (cli_transition_allowed _ _) eqn:Ha; [|discriminate]. cbn [negb] in Ht.
  unfold update_cli_row, put_cli_row in Ht. rewrite El in Ht. res_inv. subst.
  exists r, next. by split_and!.
Qed.
End wal_effects.

(** ** Before-images *)

(** Everything but before-images and receipts is as it was; images of the logs stay, and so do
    the receipts of native transactions. *)
Definition images_changed (t t' : NativeTables) : Prop :=
  nt_plans t' = nt_plans t /\ nt_lifecycle t' = nt_lifecycle t
  /\ nt_transactions t' = nt_transactions t /\ nt_wal t' = nt_wal t
  /\ nt_cli_wal t' = nt_cli_wal t /\ nt_native_receipts t' = nt_native_receipts t
  /\ nt_ownership t' = nt_ownership t
  /\ (forall id, image_referenced t id = true -> is_Some (nt_before_images t !! id) ->
       is_Some (nt_before_images t' !! id))
  /\ (forall plan, is_Some (nt_native_receipts t !! plan) ->
       nt_receipts t' !! plan = nt_receipts t !! plan).

#[global] Instance images_changed_preorder : PreOrder images_changed.
Proof.
  split; [by intros t; split_and!|].
  intros t1 t2 t3 (E1 & E2 & E3 & E4 & E5 & E6 & E7 & I1 & R1) (F1 & F2 & F3 & F4 & F5 & F6 & F7 & I2 & R2).
  split_and!; [congruence..| |].
  - intros id Hr Hi. apply I2; [|by apply I1]. unfold image_referenced in *. by rewrite E4.
  - intros plan Hn. rewrite R2 by (by rewrite E6). by apply R1.
Qed.

Lemma image_referenced_spec t id :
  image_referenced t id = true <->
  exists tx sequence raw, wal_of t tx !! sequence = Some raw /\ rw_before_image_id raw = id.
Proof.
  unfold image_referenced. rewrite existsb_exists. split.
  - intros ([tx rows] & Hin & Hr). apply existsb_exists in Hr as ([n raw] & Hr & Hb).
    rewrite <- list_elem_of_In, elem_of_map_to_list in Hin.
    cbn in Hr. rewrite <- list_elem_of_In, elem_of_map_to_list in Hr. cbn in Hb. bools.
    exists tx, n, raw. unfold wal_of. by rewrite Hin.
  - intros (tx & n & raw & Hr & Hb). unfold wal_of in Hr.
    destruct (nt_wal t !! tx) as [rows|] eqn:E; [|done]. exists (tx, rows).
    split; [by rewrite <- list_elem_of_In, elem_of_map_to_list|]. apply existsb_exists.
    exists (n, raw). rewrite <- list_elem_of_In, elem_of_map_to_list. split; [done|].
    by apply bool_decide_true.
Qed.

Lemma delete_before_image_changed t id t' :
  delete_before_image t id = Ok t' -> images_changed t t'.
Proof.
  unfold delete_before_image. intros Hd. res_inv. subst t'. split_and!; try done. cbn.
  intros id' Hr Hi. destruct (decide (id' = id)) as [->|]; [|by rewrite lookup_delete_ne].
  rewrite Hr, bool_decide_true in * by done. done.
Qed.

Lemma try_fold_rel {E A S} (R : S -> S -> Prop) `{!PreOrder R} (f : S -> A -> result E S) :
  (forall s x s', f s x = Ok s' -> R s s') -> forall l s s', try_fold f s l = Ok s' -> R s s'.
Proof.
  intros Hf l. induction l as [|x l IH]; intros s s'; simpl; [by intros [= <-]|].
  intros (s1 & H1 & H2)%rbind_Ok. transitivity s1; eauto.
Qed.

Section images.
Context `{UuidCrate}.

Lemma upsert_image_changed t image t' : upsert_image t image = Ok t' -> images_changed t t'.
Proof.
  unfold upsert_image. intros. res_inv. subst t'. split_and!; try done. cbn. intros id _ Hi.
  destruct (decide (id = iw_id image)) as [->|]; [by rewrite lookup_insert_eq|by rewrite lookup_insert_ne].
Qed.

Lemma eviction_candidate t cutoff id plan bytes :
  (id, plan, bytes) ∈ eviction_candidates t cutoff -> nt_native_receipts t !! plan = None.
Proof.
  unfold eviction_candidates. intros ((k & [[i p] b]) & [= -> -> ->] & Hin)%list_elem_of_fmap.
  rewrite sort_by_key_perm, list_elem_of_omap in Hin. destruct Hin as ([i' row] & _ & Hr).
  cbn in Hr. destruct (bi_plan_id row) as [p'|]; [|done]. cbn in Hr.
  destruct (nt_receipts t !! p') as [rc|]; [|done]. cbn in Hr.
  destruct (_ && _ && _ && _) eqn:E in Hr; [|done]. simplify_eq. bools. done.
Qed.

(** Evicting keeps the receipts of native transactions. *)
Lemma evict_changed policy ids t required cs t' required' :
  Forall (fun c => nt_native_receipts t !! c.1.2 = None) cs ->
  try_fold (evict policy ids) (t, required) cs = Ok (t', required') -> images_changed t t'.
Proof.
  revert t required. induction cs as [|[[id plan] b] cs IH]; intros t required Hcs; simpl.
  { by intros [= <- <-]. }
  apply Forall_cons in Hcs as [Hp Hcs]. cbn in Hp.
  destruct (required <=? bp_max_bytes policy); [by apply IH|].
  destruct (bool_decide (id ∈ ids)); [by apply IH|].
  intros (s1 & H1 & H2)%rbind_Ok. apply rbind_Ok in H1 as (t1 & Hd & H1).
  apply delete_before_image_changed in Hd. injection H1 as <-.
  etransitivity; [exact Hd|]. destruct Hd as (_ & _ & _ & _ & _ & En & _).
  destruct (has_images t1 plan).
  - eapply IH; [|done]. by rewrite En.
  - transitivity (set_receipts t1 (delete plan (nt_receipts t1))); [|eapply IH; [|done]; cbn; by rewrite En].
    split_and!; try done. cbn. intros plan' Hn. rewrite lookup_delete_ne; [done|].
    intros ->. rewrite En, Hp in Hn. by destruct Hn.
Qed.

Lemma put_before_images_effect t images policy t' :
  put_before_images_batch t images policy = Ok t' -> images_changed t t'.
Proof.
  unfold put_before_images_batch. destruct images as [|first images]; [by intros [= <-]|].
  destruct (_ <? _); [discriminate|]. intros ([ids payload] & _ & Ht)%rbind_Ok.
  destruct (_ <? _) in Ht; [discriminate|].
  apply rbind_Ok in Ht as (replaced & _ & Ht). apply rbind_Ok in Ht as (required & _ & Ht).
  apply rbind_Ok in Ht as ([t1 required'] & He & Ht).
  destruct (_ <? _) in Ht; [discriminate|].
  transitivity t1; [|revert Ht; apply try_fold_rel; [apply _|apply upsert_image_changed]].
  destruct (_ <? _) in He; [|by injection He as <- _].
  apply rbind_Ok in He as (cutoff & _ & He). eapply evict_changed; [|done].
  apply Forall_forall. intros [[id plan] b] Hc. by eapply eviction_candidate.
Qed.
End images.

(** ** Beginning *)

Section ledger_effects.
Context `{UuidCrateLaws} `{!NativeJson} `{!NativeJsonLaws} `{Primitives}.
Implicit Types t : NativeTables.

Definition tx_begun t (id : TransactionId) (plan : NativePlanWrite) t' : Prop :=
  exists plans raw snap, nt_transactions t !! id = None
    /\ nt_plans t ⊆ plans /\ is_Some (plans !! rt_plan_id raw)
    /\ (forall id' raw', nt_transactions t !! id' = Some raw' -> rt_plan_id raw' <> rt_plan_id raw)
    /\ tx_ok raw snap /\ ts_transaction_id snap = id /\ ts_plan_id snap = pw_plan_id plan
    /\ ts_status snap = TxPending /\ ts_current_step snap = 0
    /\ ts_sandbox_cleanup_state snap = CleanupPending
    /\ t' = set_transactions (set_plans t plans) (<[id := raw]> (nt_transactions t)).

Lemma insert_default_subseteq (m : gmap rstr NativePlanRow) k v :
  m ⊆ <[k := default v (m !! k)]> m.
Proof.
  apply map_subseteq_spec. intros k' v' Hl. destruct (decide (k' = k)) as [->|];
    [by rewrite lookup_insert_eq, Hl|by rewrite lookup_insert_ne].
Qed.

Lemma begin_native_transaction_effect t id plan identity t' :
  wf_id (pw_plan_id plan) = true ->
  begin_native_transaction t id plan identity = Ok t' ->
  (exists plans, nt_plans t ⊆ plans /\ t' = set_plans t plans)
  \/ tx_begun t id plan t'.
Proof.
  unfold begin_native_transaction. intros Hw Ht.
  destruct (trim_is_empty id); [discriminate|]. destruct (_ || _) in Ht; [discriminate|].
  destruct (_ <? _) in Ht; [discriminate|]. apply rbind_Ok in Ht as ([] & Hv & Ht).
  cbv zeta in Ht. apply rbind_Ok in Ht as (created & _ & Ht). apply rbind_Ok in Ht as (expires & _ & Ht).
  destruct (negb _) in Ht; [discriminate|]. apply rbind_Ok in Ht as (lifecycle & _ & Ht).
  destruct (match lifecycle with Some _ => _ | None => _ end); [discriminate|].
  apply rbind_Ok in Ht as ([existing|] & Hex & Ht); unfold load_native_transaction, transpose in Hex;
    cbn in Hex.
  - left. destruct (_ && _ && _ && _ && _) in Ht; [|discriminate]. injection Ht as <-.
    eexists. split; [|done]. apply insert_default_subseteq.
  - right. destruct (existsb _ _) eqn:Eb in Ht; [discriminate|].
    destruct (generation_taken _ _ || negb _) eqn:Eg in Ht; [discriminate|].
    injection Ht as <-. bools. cbn in Eb.
    assert (nt_transactions t !! id = None).
    { destruct (nt_transactions t !! id); [|done]. by apply rbind_Ok in Hex as (? & _ & ?). }
    match goal with X : transaction_checks ?r = true |- _ =>
      eexists _, r, {| ts_transaction_id := id; ts_plan_id := pw_plan_id plan;
        ts_status := TxPending; ts_sandbox_cleanup_state := CleanupPending; ts_current_step := 0;
        ts_entered_step := 0; ts_identity := identity |}
    end.
    split_and!; [done|apply insert_default_subseteq|cbn; by rewrite lookup_insert_eq| | | | | | | |reflexivity];
      try done.
    intros id' raw' Hl Hp. apply not_true_iff_false in Eb. apply Eb, existsb_exists.
    exists (id', raw'). rewrite <- list_elem_of_In, elem_of_map_to_list. split; [done|].
    by apply bool_decide_true.
Qed.

(** ** Committing *)

Definition receipt_rows t (id : TransactionId) (plan : rstr) (receipt : NativeApplyReceipt)
    (applied_ms : N) (legacy_json payload_json : bytes) (ownership : list OwnershipChange)
    : NativeTables :=
  foldl (own id)
    (set_native_receipts
      (set_receipts t (<[plan := {| rr_successful := true; rr_resolved := true;
          rr_applied_ms := applied_ms; rr_payload_json := legacy_json |}]> (nt_receipts t)))
      (<[plan := {| nw_transaction_id := id; nw_target_count := len (nr_targets receipt);
          nw_payload_json := payload_json |}]> (nt_native_receipts t))) ownership.

Definition tx_committed t (id : TransactionId) (receipt : NativeApplyReceipt)
    (ownership : list OwnershipChange) t' : Prop :=
  exists raw snap records applied_ms legacy_json payload_json,
    let plan := uuid_hyphenated (ts_plan_id snap) in
    stored_tx t id raw snap
    /\ ts_status snap = TxPending /\ ts_current_step snap = 18 /\ ts_entered_step snap = 19
    /\ transaction_checks (with_commit raw applied_ms) = true
    /\ ts_plan_id snap = rc_plan_id (nr_legacy receipt)
    /\ validate_receipt receipt = Ok tt
    /\ load_native_wal t id = Ok records /\ receipt_matches_wal records (nr_targets receipt) = Ok tt
    /\ nt_receipts t !! plan = None /\ nt_native_receipts t !! plan = None
    /\ to_json (nr_legacy receipt) = Ok legacy_json
    /\ to_json {| rp_schema_version := 1; rp_targets := nr_targets receipt |} = Ok payload_json
    /\ t' = put_tx (receipt_rows t id plan receipt applied_ms legacy_json payload_json ownership)
              id (with_commit raw applied_ms).

Lemma own_frame id ownership t :
  let t' := foldl (own id) t ownership in
  nt_plans t' = nt_plans t /\ nt_lifecycle t' = nt_lifecycle t
  /\ nt_transactions t' = nt_transactions t /\ nt_wal t' = nt_wal t /\ nt_cli_wal t' = nt_cli_wal t
  /\ nt_before_images t' = nt_before_images t /\ nt_receipts t' = nt_receipts t
  /\ nt_native_receipts t' = nt_native_receipts t.
Proof. revert t. induction ownership as [|c l IH]; intros t; simpl; [done|]. apply (IH (own id t c)). Qed.

Lemma commit_native_success_effect t id receipt ownership t' :
  tx_checked t -> commit_native_success t id receipt ownership = Ok t' ->
  t' = t \/ tx_committed t id receipt ownership t'.
Proof.
  unfold commit_native_success. intros Hc Ht. apply rbind_Ok in Ht as ([] & Hvr & Ht).
  apply rbind_Ok in Ht as ([] & _ & Ht).
  apply rbind_Ok in Ht as (snap & [raw Hst]%require_native_transaction_Ok & Ht); [|done].
  destruct (negb _) eqn:Ep in Ht; [discriminate|]. bools.
  destruct (bool_decide _) in Ht.
  { left. apply rbind_Ok in Ht as (stored & _ & Ht). destruct (_ && _); congruence. }
  right. destruct (negb _) eqn:Es in Ht; [discriminate|]. bools.
  destruct (negb _ || negb _) eqn:Est in Ht; [discriminate|]. bools.
  repeat match goal with X : (_ =? _) = true |- _ => apply N.eqb_eq in X end.
  apply rbind_Ok in Ht as (records & Hl & Ht). apply rbind_Ok in Ht as ([] & Hm & Ht).
  apply rbind_Ok in Ht as (ms & _ & Ht). apply rbind_Ok in Ht as (t1 & Hi & Ht).
  unfold insert_receipts in Hi. cbv zeta in Hi. apply rbind_Ok in Hi as (lj & Hlj & Hi).
  destruct (bool_decide _) eqn:Er in Hi; [discriminate|].
  destruct (_ <? _) in Hi; [discriminate|]. apply rbind_Ok in Hi as (pj & Hpj & Hi).
  destruct (bool_decide _ || _) eqn:En in Hi; [discriminate|]. injection Hi as <-. bools. cbn in *.
  pose proof Hst as (Hlk & Hok & _).
  eapply update_transaction_Ok in Ht as (_ & Hch & ->);
    [|rewrite (proj1 (proj2 (proj2 (own_frame _ _ _)))); exact Hlk].
  eexists raw, snap, records, ms, lj, pj. cbv zeta.
  split_and!; try done; by apply eq_None_not_Some.
Qed.

(** ** Cleaning up *)

Definition tx_cleaned_up t (id : TransactionId) t' : Prop :=
  exists raw snap cleanup t1,
    stored_tx t id raw snap /\ terminal (ts_status snap) /\ ts_current_step snap = 19
    /\ tx_change (settled t id) snap raw (with_cleanup raw (sandbox_cleanup_state_name cleanup) 20 20)
    /\ transaction_checks (with_cleanup raw (sandbox_cleanup_state_name cleanup) 20 20) = true
    /\ t' = put_tx t1 id (with_cleanup raw (sandbox_cleanup_state_name cleanup) 20 20)
    /\ nt_plans t1 = nt_plans t /\ nt_transactions t1 = nt_transactions t
    /\ nt_receipts t1 = nt_receipts t /\ nt_native_receipts t1 = nt_native_receipts t
    /\ nt_wal t1 = (if decide (ts_status snap = TxConflict) then nt_wal t else delete id (nt_wal t))
    /\ (forall id' sequence raw', cli_wal_of t1 id' !! sequence = Some raw' ->
         cli_wal_of t id' !! sequence = Some raw')
    /\ (forall image, image_referenced t1 image = true -> is_Some (nt_before_images t !! image) ->
         is_Some (nt_before_images t1 !! image))
    /\ (ts_status snap = TxConflict -> t1 = t)
    /\ (ts_status snap <> TxConflict -> forall image row, nt_before_images t1 !! image = Some row ->
         nt_before_images t !! image = Some row /\ bi_plan_id row <> Some (rt_plan_id raw)).

Lemma delete_image_frame t image t' :
  delete_before_image t image = Ok t' ->
  images_changed t t' /\ nt_receipts t' = nt_receipts t
  /\ nt_before_images t' = delete image (nt_before_images t).
Proof.
  intros Hd. split; [by eapply delete_before_image_changed|]. unfold delete_before_image in Hd.
  res_inv. by subst t'.
Qed.

Lemma delete_images_frame images t t' :
  try_fold delete_before_image t images = Ok t' ->
  images_changed t t' /\ nt_receipts t' = nt_receipts t
  /\ (forall image row, nt_before_images t' !! image = Some row <->
       nt_before_images t !! image = Some row /\ image ∉ images).
Proof.
  revert t. induction images as [|i images IH]; intros t; simpl.
  { intros [= <-]. split_and!; [done..|]. set_solver. }
  intros (t1 & (Hc & Hr & Hb)%delete_image_frame & (Hc' & Hr' & Hb')%IH)%rbind_Ok.
  split_and!; [by etransitivity|congruence|]. intros image row. rewrite Hb', Hb, lookup_delete_Some.
  set_solver.
Qed.

Lemma delete_plan_images_frame t plan t' :
  delete_plan_images t plan = Ok t' ->
  images_changed t t' /\ nt_receipts t' = nt_receipts t
  /\ (forall image row, nt_before_images t' !! image = Some row ->
       nt_before_images t !! image = Some row /\ bi_plan_id row <> Some plan).
Proof.
  unfold delete_plan_images. intros (Hc & Hr & Hb)%delete_images_frame. split_and!; [done..|].
  intros image row [Hl Hn]%Hb. split; [done|]. intros Hp. apply Hn, list_elem_of_fmap.
  exists (image, row). split; [done|]. apply list_elem_of_filter. cbn.
  by rewrite elem_of_map_to_list.
Qed.

Lemma finish_native_cleanup_effect t id t' :
  tx_checked t -> finish_native_cleanup t id = Ok t' -> t' = t \/ tx_cleaned_up t id t'.
Proof.
  unfold finish_native_cleanup. intros Hc Ht.
  apply rbind_Ok in Ht as (snap & [raw Hst]%require_native_transaction_Ok & Ht); [|done].
  cbv zeta in Ht. destruct (negb _ || negb _) eqn:E in Ht; [discriminate|]. bools.
  destruct (N.eqb_spec (ts_current_step snap) 20).
  { left. destruct (bool_decide _); congruence. }
  right. assert (ts_current_step snap = 19) as H19.
  { match goal with X : _ || _ = true |- _ => apply orb_true_iff in X as [?%N.eqb_eq|?] end; done. }
  apply rbind_Ok in Ht as (cleanup & Hcl & Ht).
  apply rbind_Ok in Ht as (t1 & Hd & Ht).
  pose proof Hst as (Hlk & (_ & Hplan & _) & _).
  assert (Hterm : terminal (ts_status snap)) by (unfold terminal; destruct (ts_status snap); naive_solver).
  assert (Hchange : tx_change (settled t id) snap raw (with_cleanup raw (sandbox_cleanup_state_name cleanup) 20 20)).
  { apply tx_cleaned; [done..|]. destruct (ts_sandbox_cleanup_state snap); naive_solver. }
  assert (Htx : nt_transactions t1 = nt_transactions t).
  { destruct (ts_status snap); try (injection Hd as <-; done);
      apply delete_plan_images_frame in Hd as ((_ & _ & -> & _) & _); done. }
  eapply update_transaction_Ok in Ht as (_ & Hch & ->); [|by rewrite Htx].
  exists raw, snap, cleanup, t1. do 6 (split; [done|]).
  destruct (ts_status snap) eqn:Es; try (by destruct Hterm as [|[|]]).
  3: { injection Hd as <-. rewrite decide_True by done. split_and!; try done. }
  all: rewrite decide_False by done.
  all: apply delete_plan_images_frame in Hd as ((E1 & E2 & E3 & E4 & E5 & E6 & E7 & I & R) & Hr & Hb).
  all: cbn in E1, E2, E3, E4, E5, E6, E7, I, Hr, Hb.
  all: split_and!; try done.
  all: try (intros image Hi Hs; apply I; [|done]; unfold image_referenced in *; cbn; by rewrite E4 in Hi).
  all: try (intros _ image row Hi; rewrite Hplan; by apply Hb).
  - intros id' q raw'. unfold cli_wal_of. rewrite E5. destruct (decide (id' = id)) as [->|];
      [by rewrite lookup_delete_eq|by rewrite lookup_delete_ne].
  - intros id' q raw'. unfold cli_wal_of at 1. rewrite E5. unfold delete_restored_cli. cbn.
    destruct (decide (id' = id)) as [->|]; [|by rewrite lookup_insert_ne].
    rewrite lookup_insert_eq. cbn. by intros [? _]%map_lookup_filter_Some.
Qed.
End ledger_effects.
