(* ===== verification/NativeGeneration.v ===== *)
(** * Native transactions: the macOS generation of a transaction

    Binding and moving a generation keeps it valid, never rebinds what is bound and never goes
    back. *)

From S2P Require Import Prelude Ordering Text Protocol Minicbor CanonicalCbor Domain.
From S2P Require Import SyncPayload Crypto Operation Causal Merge Transport StateSummary.
From S2P Require Import Admission NativeModel NativeTables NativeWal NativeLedger NativeRows.
From S2P Require Import NativeSteps.

#[local] Open Scope N_scope.

Definition gen_with_state (g : MacGeneration) (state : MacGenerationState) : MacGeneration := {|
  mg_generation_id := mg_generation_id g; mg_bundle_id := mg_bundle_id g;
  mg_container := mg_container g; mg_guardian_pgid := mg_guardian_pgid g;
  mg_bundle_root := mg_bundle_root g; mg_signed_digest := mg_signed_digest g;
  mg_container_root := mg_container_root g; mg_substate := mg_substate g; mg_state := state |}.

Definition gen_bound (g : MacGeneration) pgid root digest container substate : MacGeneration := {|
  mg_generation_id := mg_generation_id g; mg_bundle_id := mg_bundle_id g;
  mg_container := mg_container g; mg_guardian_pgid := pgid; mg_bundle_root := root;
  mg_signed_digest := digest; mg_container_root := container; mg_substate := substate;
  mg_state := mg_state g |}.

Lemma MacGeneration_validate_Ok g :
  MacGeneration_validate g = Ok tt <->
  valid_lower_hex_32 (mg_generation_id g) = true
  /\ mg_bundle_id g = MACOS_BUNDLE_PREFIX ++ mg_generation_id g
  /\ mg_container g = MACOS_CONTAINER_DOMAIN ++ as_bytes (MACOS_BUNDLE_PREFIX ++ mg_generation_id g)
  /\ (forall pgid, mg_guardian_pgid g = Some pgid -> (0 < pgid)%Z)
  /\ root_invalid (mg_bundle_root g) = false /\ root_invalid (mg_container_root g) = false
  /\ fields_match_substate g = true
  /\ (mg_state g = MacActive \/ mg_state g = MacRetired -> mg_substate g = ContainerBound).
Proof.
  unfold MacGeneration_validate. split.
  - intros Hv. res_inv. bools.
    match goal with X : match mg_guardian_pgid g with _ => _ end = false |- _ => rename X into Hp end.
    match goal with X : _ && _ = false |- _ => rename X into Hs end.
    split_and!; try done.
    + intros pgid Hg. rewrite Hg in Hp. apply Z.leb_gt in Hp. lia.
    + intros Hst. destruct (bool_decide_reflect (mg_substate g = ContainerBound)); [done|].
      by destruct Hst as [Hst|Hst]; rewrite Hst in Hs.
  - intros (-> & Hb & Hc & Hp & -> & -> & -> & Hs). cbn [negb orb].
    rewrite !bool_decide_true by done. cbn [negb orb].
    replace (match mg_guardian_pgid g with Some pgid => (pgid <=? 0)%Z | None => false end) with false
      by (destruct (mg_guardian_pgid g) as [p|]; [|done]; specialize (Hp _ eq_refl); symmetry;
          apply Z.leb_gt; lia).
    cbn [orb]. destruct (mg_state g); cbn; try done; by rewrite bool_decide_true by auto.
Qed.

Section generation.
Context `{UuidCrateLaws} `{NativeJson} `{Primitives}.
Implicit Types t : NativeTables.

Lemma gen_state_change g next :
  MacGeneration_validate g = Ok tt -> mac_transition_allowed (mg_state g) next = true ->
  (next = MacActive -> mg_substate g = ContainerBound) ->
  generation_change g (gen_with_state g next).
Proof.
  rewrite !MacGeneration_validate_Ok. intros (? & ? & ? & ? & ? & ? & Hf & Hs) Ha Hact.
  unfold generation_change. split_and!; try done; [|by right].
  apply MacGeneration_validate_Ok. cbn. split_and!; try done.
  intros [->| ->]; [auto|]. apply Hs. destruct (mg_state g); naive_solver.
Qed.

Lemma stored_generation t id raw snap g :
  stored_tx t id raw snap -> ts_identity snap = MacosIdentity g ->
  rt_identity raw = identity_columns (MacosIdentity g) /\ MacGeneration_validate g = Ok tt.
Proof. intros (_ & (_ & _ & _ & _ & _ & _ & _ & Hi & Hv) & _) E. by rewrite E in Hi, Hv. Qed.

Lemma put_generation t id condition f message t' raw snap g g' :
  stored_tx t id raw snap -> ts_identity snap = MacosIdentity g -> generation_change g g' ->
  f raw = with_identity raw (identity_columns (MacosIdentity g')) ->
  update_transaction t id condition f message = Ok t' -> tx_updated t id t'.
Proof.
  intros Hst Hg Hc Hf Ht. pose proof Hst as (Hl & _).
  eapply update_transaction_Ok in Ht as (_ & Hch & ->); [|done]. rewrite Hf in *.
  eexists raw, snap, _. split_and!; [done| |done|done]. by eapply tx_generation.
Qed.

Lemma poison_effect t id t' :
  tx_checked t -> poison_interrupted_macos_generation t id = Ok t' -> t' = t \/ tx_updated t id t'.
Proof.
  unfold poison_interrupted_macos_generation. intros Hc Ht.
  apply rbind_Ok in Ht as (snap & [raw Hst]%require_native_transaction_Ok & Ht); [|done].
  destruct (ts_identity snap) as [|g] eqn:Eg; [left; congruence|].
  destruct (stored_generation _ _ _ _ _ Hst Eg) as [Hi Hv].
  destruct (mg_state g) eqn:Es; try (left; congruence); right;
    eapply (put_generation _ _ _ _ _ _ _ _ g (gen_with_state g MacPoisoned)); try done;
    first [apply gen_state_change; [done|by rewrite Es|done] | cbn; by rewrite Hi].
Qed.

Lemma transition_generation_effect t id next t' :
  tx_checked t -> transition_macos_generation t id next = Ok t' -> t' = t \/ tx_updated t id t'.
Proof.
  unfold transition_macos_generation. intros Hc Ht.
  apply rbind_Ok in Ht as (snap & [raw Hst]%require_native_transaction_Ok & Ht); [|done].
  destruct (ts_identity snap) as [|g] eqn:Eg; [discriminate|]. cbn [require_generation rbind] in Ht.
  destruct (_ && negb _) in Ht; [discriminate|].
  destruct (bool_decide _) in Ht; [left; congruence|]. right.
  destruct (negb _ || _) eqn:E in Ht; [discriminate|]. bools.
  destruct (stored_generation _ _ _ _ _ Hst Eg) as [Hi Hv].
  eapply (put_generation _ _ _ _ _ _ _ _ g (gen_with_state g next)); try done; [|cbn; by rewrite Hi].
  apply gen_state_change; [done|done|]. intros ->.
  destruct (bool_decide_reflect (mg_substate g = ContainerBound)); [done|]. naive_solver.
Qed.

Lemma bind_generation_effect t id from next stored_matches unset bind changed invalid concurrent t' pick :
  tx_checked t ->
  (forall g, MacGeneration_validate g = Ok tt -> mg_state g = MacPrepared -> mg_substate g = from ->
     generation_change g (pick g)
     /\ bind (identity_columns (MacosIdentity g)) = identity_columns (MacosIdentity (pick g))) ->
  bind_generation t id from next stored_matches unset bind changed invalid concurrent = Ok t' ->
  t' = t \/ tx_updated t id t'.
Proof.
  unfold bind_generation. intros Hc Hp Ht.
  apply rbind_Ok in Ht as (snap & [raw Hst]%require_native_transaction_Ok & Ht); [|done].
  destruct (ts_identity snap) as [|g] eqn:Eg; [discriminate|]. cbn [require_generation rbind] in Ht.
  destruct (_ <=? _) in Ht; [left; destruct (stored_matches g); congruence|]. right.
  destruct (negb _ || negb _ || negb _) eqn:E in Ht; [discriminate|]. bools.
  destruct (stored_generation _ _ _ _ _ Hst Eg) as [Hi Hv]. destruct (Hp g) as [Hch Hb]; [done..|].
  eapply (put_generation _ _ _ _ _ _ _ _ g (pick g)); try done. cbn. by rewrite Hi, Hb.
Qed.

(** The next substate of a prepared generation, with the column it binds. *)
Lemma gen_bound_change g pgid root digest container substate :
  MacGeneration_validate g = Ok tt -> mg_state g = MacPrepared ->
  substate_rank (mg_substate g) <= substate_rank substate ->
  (forall x, mg_guardian_pgid g = Some x -> pgid = Some x) ->
  (forall x, mg_bundle_root g = Some x -> root = Some x) ->
  (forall x, mg_signed_digest g = Some x -> digest = Some x) ->
  (forall x, mg_container_root g = Some x -> container = Some x) ->
  (forall p, pgid = Some p -> (0 < p)%Z) -> root_invalid root = false -> root_invalid container = false ->
  fields_match_substate (gen_bound g pgid root digest container substate) = true ->
  generation_change g (gen_bound g pgid root digest container substate).
Proof.
  rewrite MacGeneration_validate_Ok. intros (? & ? & ? & _) Hs **. unfold generation_change.
  split_and!; try done; [|by left]. apply MacGeneration_validate_Ok. cbn. rewrite Hs.
  split_and!; try done. naive_solver.
Qed.

Ltac bind_step pick :=
  eapply (bind_generation_effect _ _ _ _ _ _ _ _ _ _ _ pick); [done|];
  intros g Hv Hs Hsub; pose proof Hv as Hv'; apply MacGeneration_validate_Ok in Hv' as (_ & _ & _ & Hpg & Hbr & Hcr & Hf & _);
  split; [|done];
  unfold fields_match_substate in Hf; rewrite Hsub in Hf;
  destruct (mg_guardian_pgid g) eqn:?, (mg_bundle_root g) eqn:?, (mg_signed_digest g) eqn:?,
    (mg_container_root g) eqn:?; try discriminate Hf;
  apply gen_bound_change; rewrite ?Hsub; try done; try naive_solver.

Lemma bind_guardian_effect t id pgid t' :
  tx_checked t -> bind_macos_guardian t id pgid = Ok t' -> t' = t \/ tx_updated t id t'.
Proof.
  unfold bind_macos_guardian. intros Hc. destruct (Z.leb_spec pgid 0); [discriminate|].
  bind_step (fun g => gen_bound g (Some pgid) (mg_bundle_root g) (mg_signed_digest g)
                        (mg_container_root g) GuardianBound).
Qed.

Lemma bind_bundle_effect t id root t' :
  tx_checked t -> bind_macos_bundle_root t id root = Ok t' -> t' = t \/ tx_updated t id t'.
Proof.
  unfold bind_macos_bundle_root. intros Hc.
  destruct (bool_decide (MacRootIdentity_decode root = None)) eqn:Hd; [discriminate|].
  bind_step (fun g => gen_bound g (mg_guardian_pgid g) (Some root) (mg_signed_digest g)
                        (mg_container_root g) BundleBound).
Qed.

Lemma finalize_generation_effect t id digest t' :
  tx_checked t -> finalize_macos_generation t id digest = Ok t' -> t' = t \/ tx_updated t id t'.
Proof.
  unfold finalize_macos_generation. intros Hc.
  bind_step (fun g => gen_bound g (mg_guardian_pgid g) (mg_bundle_root g) (Some digest)
                        (mg_container_root g) Finalized).
Qed.

Lemma bind_container_effect t id root t' :
  tx_checked t -> bind_macos_container_root t id root = Ok t' -> t' = t \/ tx_updated t id t'.
Proof.
  unfold bind_macos_container_root. intros Hc.
  destruct (bool_decide (MacRootIdentity_decode root = None)) eqn:Hd; [discriminate|].
  bind_step (fun g => gen_bound g (mg_guardian_pgid g) (mg_bundle_root g) (mg_signed_digest g)
                        (Some root) ContainerBound).
Qed.
End generation.
