(* ===== verification/NativeInvariant.v ===== *)
(** * Native transactions: the invariant of the tables

    Every operation of the journal is one step; its effect on the tables is one of a few
    shapes, and each shape keeps the invariant. *)

From S2P Require Import Prelude Ordering Text Protocol Minicbor CanonicalCbor Domain.
From S2P Require Import SyncPayload Crypto Operation Causal Merge Transport StateSummary.
From S2P Require Import Admission NativeModel NativeTables NativeWal NativeLedger NativeRows.
From S2P Require Import NativeSteps NativeEffects NativeGeneration.

#[local] Open Scope N_scope.

(** ** Records *)

(** A changed mutation that went from prepared to restored without ever being written: its
    row names no restored object. *)
Definition orphan (r : NativeWalRecord) : Prop :=
  wr_state r = WalRestored /\ wal_changed r = true /\ wr_restored_object_token r = None.

Lemma record_rules_Ok r :
  record_rules r = Ok tt <->
  (wr_state r = WalApplied \/ wr_state r = WalRestorePrepared -> wal_changed r = true ->
     is_Some (wr_applied_object_token r))
  /\ (wr_state r = WalRestored -> wal_changed r = true -> is_Some (wr_restored_object_token r))
  /\ (wr_state r = WalPrepared \/ wr_state r = WalApplied -> wr_restored_object_token r = None)
  /\ (wr_state r = WalPrepared \/ wr_state r = WalApplied -> wr_absence_rebind r = None).
Proof.
  unfold record_rules, wal_state_rules, is_Some.
  destruct (wr_state r), (wal_changed r), (wr_applied_object_token r), (wr_restored_object_token r),
    (wr_absence_rebind r); cbn; naive_solver.
Qed.

Ltac rules := intros; destruct_or?; first [done | congruence | by eexists | by auto].

Lemma wal_change_rules r r' :
  record_rules r = Ok tt -> wal_change r r' -> record_rules r' = Ok tt \/ orphan r'.
Proof.
  rewrite !record_rules_Ok. unfold orphan. intros (Ha & Hr & Hn & Hb) Hc.
  destruct Hc as [next Ht H1 H2 H3|token|next token ? Hx|token|rebind|old new];
    unfold wal_changed in *; cbn [wr_state rec_with_state rec_with_applied rec_with_restored
      rec_with_rebind wr_applied_object_token wr_restored_object_token wr_absence_rebind wr_expected
      wr_intended_applied] in *.
  - destruct (wr_state r), next; try discriminate Ht; try (left; split_and!; rules; fail).
    destruct (negb _) eqn:E; [right|left]; split_and!; rules.
  - left. split_and!; rules.
  - left. destruct Hx as [-> | ->]; split_and!; rules.
  - left. split_and!; rules.
  - left. split_and!; rules.
  - left. split_and!; rules.
Qed.

Lemma wal_change_wf r r' :
  wal_record_wf r = true -> wal_change r r' -> wal_record_wf r' = true.
Proof.
  unfold wal_record_wf. rewrite !andb_true_iff.
  intros [[[[[[[[Hs Ht] Hobj] Ha] Hre] Hrb] He] Hia] Hir] Hc. destruct Hc; cbn; by split_and!.
Qed.

(** What a change keeps. *)
Lemma wal_change_static r r' :
  wal_change r r' ->
  wr_target_sequence r' = wr_target_sequence r /\ wr_target r' = wr_target r
  /\ wr_object_token r' = wr_object_token r /\ wr_before_image_id r' = wr_before_image_id r
  /\ wr_operation_kind r' = wr_operation_kind r /\ wr_expected r' = wr_expected r
  /\ wr_intended_applied r' = wr_intended_applied r
  /\ wr_intended_restored r' = wr_intended_restored r.
Proof. by destruct 1. Qed.

Lemma wal_change_not_final r r' :
  wal_change r r' -> wr_state r <> WalRestored /\ wr_state r <> WalConflict.
Proof.
  destruct 1 as [next Ht| | | | |]; [by destruct (wr_state r)|..]; split; congruence.
Qed.

(** ** Steps *)

Section native.
Context `{UuidCrateLaws} `{!NativeJson} `{!NativeJsonLaws} `{Primitives}.
Implicit Types t : NativeTables.

(** One operation of the vault on its tables, other than a commit.  The operations on setup plans write plans,
    which are never changed or deleted, and their lifecycle. *)
Inductive quiet_step t t' : Prop :=
| step_begin id plan identity :
    wf_id (pw_plan_id plan) = true -> begin_native_transaction t id plan identity = Ok t' ->
    quiet_step t t'
| step_enter id step : enter_native_step t id step = Ok t' -> quiet_step t t'
| step_complete id step : complete_native_step t id step = Ok t' -> quiet_step t t'
| step_images images policy : put_before_images_batch t images policy = Ok t' -> quiet_step t t'
| step_prepare id write :
    typed_wal_write write = true -> prepare_native_wal t id write = Ok t' -> quiet_step t t'
| step_transition id sequence next :
    transition_native_wal t id sequence next = Ok t' -> quiet_step t t'
| step_candidate id sequence token :
    record_native_wal_candidate t id sequence token = Ok t' -> quiet_step t t'
| step_transition_token id sequence next token :
    transition_native_wal_with_applied_object_token t id sequence next token = Ok t' ->
    quiet_step t t'
| step_restored_candidate id sequence token :
    record_native_wal_restored_candidate t id sequence token = Ok t' -> quiet_step t t'
| step_checkpoint id target later old new :
    checkpoint_native_wal_absence_rebind t id target later old new = Ok t' -> quiet_step t t'
| step_rebind id target later old new :
    rebind_native_wal_applied_absence t id target later old new = Ok t' -> quiet_step t t'
| step_cli_prepare id write : prepare_native_cli_wal t id write = Ok t' -> quiet_step t t'
| step_cli_transition id sequence next :
    transition_native_cli_wal t id sequence next = Ok t' -> quiet_step t t'
| step_cli_cleanup id : finish_committed_native_cli_cleanup t id = Ok t' -> quiet_step t t'
| step_recovery id : begin_native_recovery t id = Ok t' -> quiet_step t t'
| step_recovered id conflict no_write :
    finish_native_recovery_with_cli_no_write t id conflict no_write = Ok t' -> quiet_step t t'
| step_cleanup id : finish_native_cleanup t id = Ok t' -> quiet_step t t'
| step_cleanup_conflict id : mark_native_cleanup_conflict t id = Ok t' -> quiet_step t t'
| step_poison id : poison_interrupted_macos_generation t id = Ok t' -> quiet_step t t'
| step_guardian id pgid : bind_macos_guardian t id pgid = Ok t' -> quiet_step t t'
| step_bundle id root : bind_macos_bundle_root t id root = Ok t' -> quiet_step t t'
| step_finalize id digest : finalize_macos_generation t id digest = Ok t' -> quiet_step t t'
| step_container id root : bind_macos_container_root t id root = Ok t' -> quiet_step t t'
| step_generation id next : transition_macos_generation t id next = Ok t' -> quiet_step t t'
| step_plans plans lifecycle :
    nt_plans t ⊆ plans -> t' = set_lifecycle (set_plans t plans) lifecycle -> quiet_step t t'.

Inductive native_step t t' : Prop :=
| step_quiet : quiet_step t t' -> native_step t t'
| step_commit id receipt ownership :
    typed_native_receipt receipt = true ->
    commit_native_success t id receipt ownership = Ok t' -> native_step t t'.

(** The shapes of the effects. *)
Inductive quiet_effect t t' : Prop :=
| eff_same : t' = t -> quiet_effect t t'
| eff_wal id : wal_updated t id t' -> quiet_effect t t'
| eff_append id write : wal_appended t id write t' -> quiet_effect t t'
| eff_cli_append id write : cli_appended t id write t' -> quiet_effect t t'
| eff_cli id : cli_updated t id t' -> quiet_effect t t'
| eff_cli_delete id : t' = set_cli_wal t (delete id (nt_cli_wal t)) -> quiet_effect t t'
| eff_images : images_changed t t' -> quiet_effect t t'
| eff_plans plans lifecycle :
    nt_plans t ⊆ plans -> t' = set_lifecycle (set_plans t plans) lifecycle -> quiet_effect t t'
| eff_tx id : tx_updated t id t' -> quiet_effect t t'
| eff_begun id plan : tx_begun t id plan t' -> quiet_effect t t'
| eff_cleaned id : tx_cleaned_up t id t' -> quiet_effect t t'.

Inductive native_effect t t' : Prop :=
| eff_quiet : quiet_effect t t' -> native_effect t t'
| eff_commit id receipt ownership :
    typed_native_receipt receipt = true -> tx_committed t id receipt ownership t' ->
    native_effect t t'.

Ltac effect lemma constructor :=
  match goal with X : _ = Ok _ |- _ =>
    apply lemma in X as [->|?]; [by apply eff_same|by eapply constructor|done..] end.

Lemma quiet_step_effect t t' : tx_checked t -> quiet_step t t' -> quiet_effect t t'.
Proof.
  intros Hc Hs. destruct Hs.
  - match goal with X : _ = Ok _ |- _ =>
      apply begin_native_transaction_effect in X as [(plans & Hp & ->)|?]; [|by eapply eff_begun|done] end.
    apply (eff_plans _ _ plans (nt_lifecycle t)); done.
  - effect enter_native_step_effect eff_tx.
  - effect complete_native_step_effect eff_tx.
  - apply eff_images. by eapply put_before_images_effect.
  - effect prepare_native_wal_effect eff_append.
  - effect transition_native_wal_effect eff_wal.
  - effect record_native_wal_candidate_effect eff_wal.
  - effect transition_with_token_effect eff_wal.
  - effect record_native_wal_restored_candidate_effect eff_wal.
  - effect checkpoint_absence_effect eff_wal.
  - effect rebind_absence_effect eff_wal.
  - effect prepare_native_cli_wal_effect eff_cli_append.
  - effect transition_native_cli_wal_effect eff_cli.
  - apply (eff_cli_delete _ _ id). unfold finish_committed_native_cli_cleanup in *. res_inv. by subst.
  - effect begin_native_recovery_effect eff_tx.
  - effect finish_native_recovery_effect eff_tx.
  - effect finish_native_cleanup_effect eff_cleaned.
  - effect mark_native_cleanup_conflict_effect eff_tx.
  - effect poison_effect eff_tx.
  - effect bind_guardian_effect eff_tx.
  - effect bind_bundle_effect eff_tx.
  - effect finalize_generation_effect eff_tx.
  - effect bind_container_effect eff_tx.
  - effect transition_generation_effect eff_tx.
  - by eapply eff_plans.
Qed.

Lemma native_step_effect t t' : tx_checked t -> native_step t t' -> native_effect t t'.
Proof.
  intros Hc [Hs|id receipt ownership Hty Ht].
  - by apply eff_quiet, quiet_step_effect.
  - apply commit_native_success_effect in Ht as [->|?]; [by apply eff_quiet, eff_same|by eapply eff_commit|done].
Qed.

(** ** The invariant *)

(** What a row of the log of [id] at [sequence] is. *)
Definition wal_row_ok t (id : TransactionId) (sequence : N) (raw : RawWalRecord) : Prop :=
  rw_target_json raw <> []
  /\ exists r, raw = wal_row (rw_target_json raw) r /\ wr_target_sequence r = sequence
    /\ wal_record_wf r = true /\ from_json (rw_target_json raw) = Ok (wr_target r)
    /\ (record_rules r = Ok tt \/ orphan r)
    /\ is_Some (nt_before_images t !! rw_before_image_id raw)
    /\ is_Some (nt_transactions t !! id).

Definition row_targets (raw : RawWalRecord) (v : WireNativeValue) : Prop :=
  from_json (rw_target_json raw) = Ok v.

Record native_inv t : Prop := {
  inv_tx id raw : nt_transactions t !! id = Some raw ->
    (exists snap, stored_tx t id raw snap) /\ is_Some (nt_plans t !! rt_plan_id raw);
  inv_plan id id' raw raw' :
    nt_transactions t !! id = Some raw -> nt_transactions t !! id' = Some raw' ->
    rt_plan_id raw = rt_plan_id raw' -> id = id';
  inv_wal id sequence raw : wal_of t id !! sequence = Some raw -> wal_row_ok t id sequence raw;
  inv_contiguous id : exists n, forall sequence, is_Some (wal_of t id !! sequence) <-> sequence < n;
  inv_targets id s s' raw raw' v v' :
    wal_of t id !! s = Some raw -> wal_of t id !! s' = Some raw' ->
    row_targets raw v -> row_targets raw' v' -> same_native_target v v' = true -> s = s';
  inv_cli id sequence raw : cli_wal_of t id !! sequence = Some raw ->
    exists r, raw = cli_row r /\ cw_sequence (cr_write r) = sequence /\ cli_ok r;
  inv_restored id raw sequence row :
    nt_transactions t !! id = Some raw -> rt_status raw = "restored"%string ->
    wal_of t id !! sequence = Some row -> rw_state row = "restored"%string;
  inv_receipt id raw snap :
    stored_tx t id raw snap -> ts_status snap = TxCommitted ->
    exists receipt, load_native_receipt t (ts_plan_id snap) = Ok (Some receipt);
}.

Lemma native_inv_checked t : native_inv t -> tx_checked t.
Proof. intros [Htx _ _ _ _ _ _ _] id raw Hl. by destruct (Htx id raw Hl) as [(snap & _ & (? & _) & _) _]. Qed.

(** *** Transactions *)

Ltac snap_of snap st cl cu en i :=
  exists {| ts_transaction_id := ts_transaction_id snap; ts_plan_id := ts_plan_id snap;
            ts_status := st; ts_sandbox_cleanup_state := cl; ts_current_step := cu;
            ts_entered_step := en; ts_identity := i |}.

(** A change of a transaction gives a transaction again, keeps its plan, and reaches
    [TxRestored] only over settled logs. *)
Lemma tx_change_snap (S : bool -> Prop) snap raw raw' :
  tx_ok raw snap -> tx_change S snap raw raw' -> transaction_checks raw' = true ->
  exists snap', tx_ok raw' snap' /\ ts_transaction_id snap' = ts_transaction_id snap
    /\ ts_plan_id snap' = ts_plan_id snap
    /\ (ts_status snap' = ts_status snap
        \/ ts_status snap = TxPending /\ ts_status snap' = TxRestoring
        \/ ts_status snap = TxRestoring /\ ts_status snap' = TxRestored /\ S false
        \/ ts_status snap = TxRestoring /\ ts_status snap' = TxConflict /\ S true).
Proof.
  intros (_ & Hp & Hw & Hs & Hcl & Hcu & Hen & Hi & Hv) Hch Hc.
  destruct Hch as [n|n| |conflict|cl| |g g' Hg Hgc].
  - snap_of snap (ts_status snap) (ts_sandbox_cleanup_state snap) (ts_current_step snap) n (ts_identity snap).
    unfold tx_ok. cbn in *. split_and!; auto.
  - snap_of snap (ts_status snap) (ts_sandbox_cleanup_state snap) n (ts_entered_step snap) (ts_identity snap).
    unfold tx_ok. cbn in *. split_and!; auto.
  - snap_of snap TxRestoring (ts_sandbox_cleanup_state snap) (ts_current_step snap)
      (ts_entered_step snap) (ts_identity snap).
    unfold tx_ok. cbn in *. split_and!; auto.
  - snap_of snap (if conflict then TxConflict else TxRestored) (ts_sandbox_cleanup_state snap) 19 19
      (ts_identity snap).
    unfold tx_ok. destruct conflict; cbn in *; split_and!; auto 6.
  - snap_of snap (ts_status snap) cl 20 20 (ts_identity snap).
    unfold tx_ok. cbn in *. split_and!; auto.
  - snap_of snap (ts_status snap) CleanupConflict (ts_current_step snap) (ts_entered_step snap)
      (ts_identity snap).
    unfold tx_ok. cbn in *. split_and!; auto.
  - snap_of snap (ts_status snap) (ts_sandbox_cleanup_state snap) (ts_current_step snap)
      (ts_entered_step snap) (MacosIdentity g').
    unfold tx_ok. cbn in *. split_and!; auto. apply Hgc.
Qed.

Lemma stored_tx_fun t id raw raw' snap snap' :
  stored_tx t id raw snap -> stored_tx t id raw' snap' -> raw = raw' /\ snap = snap'.
Proof.
  intros (Hl & Hok & Hi) (Hl' & Hok' & Hi'). rewrite Hl in Hl'. injection Hl' as <-. split; [done|].
  apply (decode_tx id) in Hok; [|done]. apply (decode_tx id) in Hok'; [|done]. congruence.
Qed.

Lemma load_receipt_frame t t' plan :
  nt_native_receipts t' !! uuid_hyphenated plan = nt_native_receipts t !! uuid_hyphenated plan ->
  (is_Some (nt_native_receipts t !! uuid_hyphenated plan) ->
    nt_receipts t' !! uuid_hyphenated plan = nt_receipts t !! uuid_hyphenated plan) ->
  load_native_receipt t' plan = load_native_receipt t plan.
Proof.
  unfold load_native_receipt. intros -> Hr. destruct (nt_native_receipts t !! _); [|done].
  by rewrite Hr by eauto.
Qed.

(** The invariant carries over where the logs are as they were and transactions, plans and
    receipts only change as [tx_change] says. *)
Lemma inv_put_tx t id raw snap raw' t' :
  native_inv t -> stored_tx t id raw snap -> tx_change (settled t id) snap raw raw' ->
  transaction_checks raw' = true -> t' = put_tx t id raw' -> native_inv t'.
Proof.
  intros [Htx Hp Hw Hcn Htg Hcli Hre Hrc] Hst Hch Hck ->. pose proof Hst as (Hl & Hok & Hid).
  destruct (tx_change_snap _ _ _ _ Hok Hch Hck) as (snap' & Hok' & Hid' & Hpl & Hstat).
  assert (Hplan : rt_plan_id raw' = rt_plan_id raw).
  { destruct Hok as (_ & -> & _), Hok' as (_ & -> & _). by rewrite Hpl. }
  assert (Hst' : stored_tx (put_tx t id raw') id raw' snap').
  { split_and!; [|done|congruence]. cbn. by rewrite lookup_insert_eq. }
  split; cbn.
  - intros i r. destruct (decide (i = id)) as [->|Hne].
    + rewrite lookup_insert_eq. intros [= <-]. split; [by exists snap'|]. rewrite Hplan. by eapply Htx.
    + rewrite lookup_insert_ne by done. intros Hr. destruct (Htx i r Hr) as [(s & ? & ? & ?) ?].
      split; [|done]. exists s. split_and!; [|done..]. cbn. by rewrite lookup_insert_ne.
  - intros i i' r r' [[-> <-]|[? Hr]]%lookup_insert_Some [[-> <-]|[? Hr']]%lookup_insert_Some; [done|..];
      rewrite ?Hplan; by eapply Hp.
  - intros i s row Hr. destruct (Hw i s row Hr) as (? & r & ? & ? & ? & ? & ? & ? & Hs).
    split; [done|]. exists r. split_and!; try done. cbn. destruct (decide (i = id)) as [->|];
      [by rewrite lookup_insert_eq|by rewrite lookup_insert_ne].
  - done.
  - done.
  - done.
  - intros i r s row [[-> <-]|[? Hr]]%lookup_insert_Some Hs Hrow; [|by eapply Hre].
    destruct Hok as (_ & _ & _ & Es & _), Hok' as (_ & _ & _ & Es' & _).
    rewrite Es' in Hs. destruct Hstat as [E|[[_ E]|[(_ & E & Hset)|(_ & E & _)]]];
      rewrite E in Hs; try done.
    + rewrite <- Es in Hs. by eapply Hre.
    + destruct Hset as [Hset _]. destruct (Hset _ _ Hrow) as [|[_ ?]]; done.
  - intros i r s Hss Hcm.
    rewrite (load_receipt_frame t) by done.
    destruct (decide (i = id)) as [->|Hne].
    + destruct (stored_tx_fun _ _ _ _ _ _ Hst' Hss) as [<- <-]. rewrite Hpl.
      apply (Hrc id raw); [done|].
      destruct Hstat as [E|[[_ E]|[(_ & E & _)|(_ & E & _)]]]; congruence.
    + destruct Hss as (Hr & ? & ?). cbn in Hr. rewrite lookup_insert_ne in Hr by done.
      by apply (Hrc i r s).
Qed.

(** *** The logs *)

Lemma wal_of_put_record t id json r i s row :
  wal_of (put_record t id json r) i !! s = Some row <->
  (i = id /\ s = wr_target_sequence r /\ row = wal_row json r)
  \/ ((i <> id \/ s <> wr_target_sequence r) /\ wal_of t i !! s = Some row).
Proof.
  unfold wal_of, put_record. cbn. destruct (decide (i = id)) as [->|Hne].
  - rewrite lookup_insert_eq. cbn. rewrite lookup_insert_Some. naive_solver.
  - rewrite lookup_insert_ne by done. naive_solver.
Qed.

Lemma contiguous_size {A} (m : gmap N A) n :
  (forall q, is_Some (m !! q) <-> q < n) -> len (map_to_list m) = n.
Proof.
  intros Hm. unfold len. rewrite length_map_to_list, <- size_dom.
  assert (dom m = list_to_set (C := gset N) (N.of_nat <$> seq 0 (N.to_nat n))) as ->.
  { apply set_eq. intros q. rewrite elem_of_dom, Hm, elem_of_list_to_set, list_elem_of_fmap. split.
    - intros Hq. exists (N.to_nat q). rewrite elem_of_seq. lia.
    - intros (k & -> & Hk%elem_of_seq). lia. }
  rewrite size_list_to_set by (apply NoDup_fmap; [apply _|apply NoDup_seq]).
  rewrite length_fmap, length_seq. lia.
Qed.

Lemma wal_row_ok_frame t t' id s row :
  (forall image, is_Some (nt_before_images t !! image) -> is_Some (nt_before_images t' !! image)) ->
  (is_Some (nt_transactions t !! id) -> is_Some (nt_transactions t' !! id)) ->
  wal_row_ok t id s row -> wal_row_ok t' id s row.
Proof. intros Hi Ht (? & r & ? & ? & ? & ? & ? & ? & ?). split; [done|]. exists r. split_and!; auto. Qed.

Lemma inv_wal_updated t id t' : native_inv t -> wal_updated t id t' -> native_inv t'.
Proof.
  intros [Htx Hp Hw Hcn Htg Hcli Hre Hrc] (json & r & r' & (Hl & Hwf & Hj & Hru) & Hch & Hck & ->).
  destruct (wal_change_static _ _ Hch) as (Es & Et & _ & Eb & _).
  destruct (Hw _ _ _ Hl) as (_ & r0 & _ & _ & _ & _ & _ & Him & Htxs).
  split; cbn -[put_record]; [done|done|..|done| |done].
  - intros i s row [(-> & -> & ->)|[_ Hr]]%wal_of_put_record; [|by apply Hw].
    split; [by apply wal_checks_json in Hck|].
    exists r'. cbn. rewrite Et, Eb. split_and!; try done.
    + by eapply wal_change_wf.
    + by eapply wal_change_rules.
  - intros i. destruct (Hcn i) as [n Hn]. exists n. intros s. rewrite <- Hn. unfold is_Some.
    setoid_rewrite wal_of_put_record. split.
    + intros (row & [(-> & -> & ->)|[_ Hr]]); [rewrite Es|]; by eexists.
    + intros [row Hr]. destruct (decide (i = id /\ s = wr_target_sequence r')) as [[-> ->]|];
        [eexists; by left|exists row; right; split; [|done]]. destruct (decide (i = id)); tauto.
  - intros i s s' row row' v v' [(-> & -> & ->)|[_ Hr]]%wal_of_put_record
      [(Hi & -> & ->)|[_ Hr']]%wal_of_put_record; unfold row_targets; cbn; intros Hv Hv' Hs; [done|..].
    + rewrite Es. by eapply (Htg id _ _ _ _ v v').
    + rewrite Es. subst i. by eapply (Htg id _ _ _ _ v v').
    + by eapply (Htg i _ _ _ _ v v').
  - intros i raw s row Ht Hs [(-> & -> & ->)|[_ Hr]]%wal_of_put_record; [|by eapply Hre].
    exfalso. pose proof (Hre _ _ _ _ Ht Hs Hl) as Hb. destruct (wal_change_not_final _ _ Hch).
    cbn in Hb. destruct (wr_state r); done.
Qed.

Lemma load_native_wal_all t id records s row :
  load_native_wal t id = Ok records -> wal_of t id !! s = Some row ->
  exists r, holds t id (rw_target_json row) r /\ wr_target_sequence r = s
    /\ row = wal_row (rw_target_json row) r.
Proof.
  unfold load_native_wal. intros Hl%try_map_Ok Hr.
  assert ((s, row) ∈ by_sequence (wal_of t id)) as [k Hk]%list_elem_of_lookup
    by (by apply by_sequence_elem).
  destruct (Forall2_lookup_l _ _ _ _ _ Hl Hk) as (r & _ & Hd).
  apply decode_wal_inv in Hd as (Hraw & Hs & Hwf & Hj & Hru). exists r. subst s. rewrite <- Hraw.
  split_and!; try done. unfold holds. by rewrite <- Hraw.
Qed.

Lemma same_native_target_sym v v' : same_native_target v v' = same_native_target v' v.
Proof. unfold same_native_target. by f_equal; apply bool_decide_ext. Qed.
Lemma same_native_target_refl v : same_native_target v v = true.
Proof. unfold same_native_target. by rewrite !bool_decide_true. Qed.

Lemma inv_wal_appended t id write t' : native_inv t -> wal_appended t id write t' -> native_inv t'.
Proof.
  intros [Htx Hp Hw Hcn Htg Hcli Hre Hrc]
    (raw & snap & json & Hst & Hpe & Him & Hsq & Hno & Hun & (records & Hload) & Hwf & Hj & Hnj & ->).
  assert (Hfresh : forall s row v, wal_of t id !! s = Some row -> row_targets row v ->
    same_native_target v (ww_target write) = false).
  { intros s row v Hr Hv. destruct (load_native_wal_all _ _ _ _ _ Hload Hr) as (r & Hh & _).
    pose proof Hh as (_ & _ & Hj' & _). unfold row_targets in Hv. rewrite Hj' in Hv.
    injection Hv as <-. by eapply Hun. }
  split; cbn -[put_record]; [done|done|..|done| |done].
  - intros i s row [(-> & -> & ->)|[_ Hr]]%wal_of_put_record; [|by apply Hw].
    split; [done|].
    exists (fresh_record write). cbn. split_and!; try done.
    + left. unfold record_rules, wal_state_rules. cbn. done.
    + by destruct (nt_before_images t !! _).
    + destruct Hst as (-> & _). by eexists.
  - intros i. destruct (Hcn i) as [n Hn]. destruct (decide (i = id)) as [->|Hne].
    + rewrite (contiguous_size _ _ Hn) in Hsq. exists (n + 1). intros s.
      unfold is_Some. setoid_rewrite wal_of_put_record. cbn. split.
      * intros (row & [(_ & -> & _)|[_ Hr]]); [lia|]. assert (s < n); [apply Hn; by eexists|lia].
      * intros Hs. destruct (decide (s = n)) as [->|]; [eexists; left; by split_and!|].
        destruct (proj2 (Hn s)) as [row Hr]; [lia|]. exists row. right. split; [right; congruence|done].
    + exists n. intros s. rewrite <- Hn. unfold is_Some. setoid_rewrite wal_of_put_record. naive_solver.
  - intros i s s' row row' v v' [(-> & -> & ->)|[_ Hr]]%wal_of_put_record
      [(Hi & -> & ->)|[_ Hr']]%wal_of_put_record; intros Hv Hv' Hs; [done|..];
      [unfold row_targets in Hv|unfold row_targets in Hv'|by eapply (Htg i _ _ _ _ v v')];
      cbn in *; exfalso.
    + rewrite Hj in Hv. injection Hv as <-. rewrite same_native_target_sym in Hs.
      by rewrite (Hfresh _ _ _ Hr' Hv') in Hs.
    + subst i. rewrite Hj in Hv'. injection Hv' as <-. by rewrite (Hfresh _ _ _ Hr Hv) in Hs.
  - intros i r s row Ht Hs [(-> & -> & ->)|[_ Hr]]%wal_of_put_record; [|by eapply Hre].
    destruct Hst as (Hl & (_ & _ & _ & Es & _) & _).
    change (nt_transactions t !! id = Some r) in Ht. rewrite Ht in Hl. injection Hl as ->.
    rewrite Es, Hpe in Hs. done.
Qed.

(** *** The other tables *)

Lemma cli_of_put_cli t id r i s row :
  cli_wal_of (put_cli t id r) i !! s = Some row ->
  (s = cw_sequence (cr_write r) /\ row = cli_row r) \/ cli_wal_of t i !! s = Some row.
Proof.
  unfold cli_wal_of, put_cli. cbn. destruct (decide (i = id)) as [->|Hne].
  - rewrite lookup_insert_eq. cbn. rewrite lookup_insert_Some. naive_solver.
  - rewrite lookup_insert_ne by done. naive_solver.
Qed.

(** Rows of the command-line log only come from rows that decode. *)
Lemma inv_cli_changed t cli :
  native_inv t ->
  (forall id s row, cli_wal_of (set_cli_wal t cli) id !! s = Some row ->
     (exists r, row = cli_row r /\ cw_sequence (cr_write r) = s /\ cli_ok r)
     \/ exists id', cli_wal_of t id' !! s = Some row) ->
  native_inv (set_cli_wal t cli).
Proof.
  intros [Htx Hp Hw Hcn Htg Hcli Hre Hrc] Hc. split; try done. intros id s row Hr.
  destruct (Hc id s row Hr) as [|[id' ?]]; [done|]. by apply (Hcli id').
Qed.

Lemma inv_put_cli t id r : native_inv t -> cli_ok r -> native_inv (put_cli t id r).
Proof.
  intros Hi Hok. apply (inv_cli_changed t _ Hi). intros i s row Hr.
  apply (cli_of_put_cli t id r) in Hr as [[-> ->]|?]; [left|right]; eauto.
Qed.

Lemma inv_images_changed t t' : native_inv t -> images_changed t t' -> native_inv t'.
Proof.
  intros [Htx Hp Hw Hcn Htg Hcli Hre Hrc] (E1 & _ & E3 & E4 & E5 & E6 & _ & I & R).
  assert (Hwal : forall id, wal_of t' id = wal_of t id) by (intros; unfold wal_of; by rewrite E4).
  assert (Hst : forall id raw snap, stored_tx t' id raw snap <-> stored_tx t id raw snap)
    by (intros; unfold stored_tx; by rewrite E3).
  split; rewrite ?E3, ?E1; intros *; rewrite ?Hwal; try done.
  - intros [(snap & Hs) ?]%Htx. split; [|done]. exists snap. by apply Hst.
  - by apply Hp.
  - intros Hr. destruct (Hw _ _ _ Hr) as (? & r & ? & ? & ? & ? & ? & Hi & ?). split; [done|]. exists r.
    rewrite E3. split_and!; try done. apply I; [|done]. apply image_referenced_spec. eauto.
  - by apply Htg.
  - unfold cli_wal_of. rewrite E5. apply Hcli.
  - by apply Hre.
  - rewrite Hst. intros Hs Hcm. rewrite (load_receipt_frame t); [by eapply Hrc|by rewrite E6|auto].
Qed.

Lemma inv_plans t plans lifecycle :
  native_inv t -> nt_plans t ⊆ plans -> native_inv (set_lifecycle (set_plans t plans) lifecycle).
Proof.
  intros [Htx Hp Hw Hcn Htg Hcli Hre Hrc] Hsub. split; try done. cbn.
  intros id raw [Hs Hpl]%Htx. split; [done|]. destruct Hpl as [row Hpl]. exists row.
  by eapply lookup_weaken.
Qed.

Lemma inv_begun t id plan t' : native_inv t -> tx_begun t id plan t' -> native_inv t'.
Proof.
  intros [Htx Hp Hw Hcn Htg Hcli Hre Hrc]
    (plans & raw & snap & Hno & Hsub & Hpl & Huniq & Hok & Hid & _ & Hpe & _ & _ & ->).
  assert (Hnew : stored_tx (set_transactions (set_plans t plans) (<[id := raw]> (nt_transactions t))) id raw snap).
  { split_and!; [|done..]. cbn. by rewrite lookup_insert_eq. }
  assert (Hes : rt_status raw = "pending"%string) by (destruct Hok as (_ & _ & _ & -> & _); by rewrite Hpe).
  split; cbn; try done.
  - intros i r [[<- <-]|[Hne Hr]]%lookup_insert_Some; [split; [by exists snap|done]|].
    destruct (Htx i r Hr) as [(s & ? & ? & ?) [row Hrow]]. split; [|exists row; by eapply lookup_weaken].
    exists s. split_and!; [|done..]. cbn. by rewrite lookup_insert_ne.
  - intros i i' r r' [[<- <-]|[? Hr]]%lookup_insert_Some [[<- <-]|[? Hr']]%lookup_insert_Some He;
      [done|by edestruct Huniq|by edestruct Huniq|by eapply Hp].
  - intros i s row Hr. eapply wal_row_ok_frame; [| |by apply Hw]; [done|]. cbn.
    intros Hi. destruct (decide (i = id)) as [->|]; [by rewrite lookup_insert_eq|by rewrite lookup_insert_ne].
  - intros i r s row [[<- <-]|[Hne Hr]]%lookup_insert_Some Hs; [congruence|by eapply Hre].
  - intros i r s Hss Hcm. rewrite (load_receipt_frame t) by done.
    destruct (decide (i = id)) as [->|Hne].
    + destruct (stored_tx_fun _ _ _ _ _ _ Hnew Hss) as [<- <-]. congruence.
    + destruct Hss as (Hr & ? & ?). cbn in Hr. rewrite lookup_insert_ne in Hr by done. by apply (Hrc i r s).
Qed.

(** *** Committing *)

Lemma try_fold_mono {E A B} (f g : B -> A -> result E B) l :
  (forall b a b', f b a = Ok b' -> g b a = Ok b') ->
  forall b b', try_fold f b l = Ok b' -> try_fold g b l = Ok b'.
Proof.
  intros Hfg. induction l as [|a l IH]; intros b b'; [done|]. simpl.
  intros (b1 & Hb & Hl)%rbind_Ok. rewrite (Hfg _ _ _ Hb). by apply IH.
Qed.

(** The two rows of a valid receipt give the receipt back. *)
Lemma load_stored_receipt t receipt native row :
  typed_native_receipt receipt = true -> validate_receipt receipt = Ok tt ->
  nt_native_receipts t !! uuid_hyphenated (rc_plan_id (nr_legacy receipt)) = Some native ->
  nt_receipts t !! uuid_hyphenated (rc_plan_id (nr_legacy receipt)) = Some row ->
  to_json (nr_legacy receipt) = Ok (rr_payload_json row) ->
  to_json {| rp_schema_version := 1; rp_targets := nr_targets receipt |} = Ok (nw_payload_json native) ->
  nw_target_count native = len (nr_targets receipt) ->
  load_native_receipt t (rc_plan_id (nr_legacy receipt)) = Ok (Some receipt).
Proof.
  unfold typed_native_receipt. rewrite andb_true_iff. intros [Htl Htt] Hv Hn Hr Hlj Hpj Hc.
  apply validated_json_round with (typed := typed_receipt_payload) in Hpj;
    [|apply json_receipt_payload_laws|by unfold typed_receipt_payload; cbn; rewrite Htt].
  apply validated_json_round with (typed := typed_apply_receipt) in Hlj;
    [|apply json_apply_receipt_laws|done].
  unfold load_native_receipt. rewrite Hn, Hr. unfold json_receipt_payload, json_apply_receipt.
  rewrite Hpj. cbn [rbind]. rewrite Hc. cbn [rp_schema_version rp_targets]. rewrite !N.eqb_refl.
  cbn [negb orb]. rewrite Hlj. cbn [rbind].
  unfold validate_receipt in Hv. apply rbind_Ok in Hv as ([] & Ha & Hv). rewrite Ha. cbn [rbind].
  destruct (negb _) eqn:El in Hv; [discriminate|]. rewrite El.
  rewrite bool_decide_true by done. cbn [negb orb].
  apply rbind_Ok in Hv as (seen & Hf & _).
  match goal with |- context [try_fold ?g ∅ ?l] => assert (try_fold g ∅ l = Ok seen) as -> end;
    [|by destruct receipt].
  eapply try_fold_mono; [|exact Hf]. intros b a b' Hb. apply rbind_Ok in Hb as ([] & Hw & Hb). rewrite Hw. cbn [rbind].
  destruct (negb (bool_decide (a.2 = _))); [discriminate|]. apply rbind_Ok in Hb as (j & Hj & Hb). rewrite Hj. cbn [rbind].
  unfold insert_unique in *. by destruct (bool_decide _).
Qed.

Lemma receipt_rows_frame t id plan receipt ms lj pj ownership :
  let t1 := receipt_rows t id plan receipt ms lj pj ownership in
  nt_plans t1 = nt_plans t /\ nt_transactions t1 = nt_transactions t
  /\ nt_wal t1 = nt_wal t /\ nt_cli_wal t1 = nt_cli_wal t
  /\ nt_before_images t1 = nt_before_images t
  /\ nt_receipts t1 = <[plan := {| rr_successful := true; rr_resolved := true;
          rr_applied_ms := ms; rr_payload_json := lj |}]> (nt_receipts t)
  /\ nt_native_receipts t1 = <[plan := {| nw_transaction_id := id;
          nw_target_count := len (nr_targets receipt); nw_payload_json := pj |}]>
        (nt_native_receipts t).
Proof.
  cbv zeta. unfold receipt_rows.
  match goal with |- context [foldl _ ?t0 _] =>
    destruct (own_frame id ownership t0) as (-> & _ & -> & -> & -> & -> & -> & ->) end. done.
Qed.

Lemma committed_loads t id receipt ownership t' :
  typed_native_receipt receipt = true -> tx_committed t id receipt ownership t' ->
  load_native_receipt t' (rc_plan_id (nr_legacy receipt)) = Ok (Some receipt).
Proof.
  intros Hty (raw & snap & records & ms & lj & pj & Hst & _ & _ & _ & _ & Hpl & Hv & _ & _ & _ & _
    & Hlj & Hpj & ->).
  destruct (receipt_rows_frame t id (uuid_hyphenated (ts_plan_id snap)) receipt ms lj pj ownership)
    as (_ & _ & _ & _ & _ & Er & En).
  eapply load_stored_receipt; [done|done|..].
  - rewrite <- Hpl. cbn -[receipt_rows]. by rewrite En, lookup_insert_eq.
  - rewrite <- Hpl. cbn -[receipt_rows]. by rewrite Er, lookup_insert_eq.
  - done.
  - done.
  - done.
Qed.

Lemma inv_committed t id receipt ownership t' :
  native_inv t -> typed_native_receipt receipt = true -> tx_committed t id receipt ownership t' ->
  native_inv t'.
Proof.
  intros [Htx Hp Hw Hcn Htg Hcli Hre Hrc] Hty Hcom.
  pose proof (committed_loads _ _ _ _ _ Hty Hcom) as Hload.
  destruct Hcom as (raw & snap & records & ms & lj & pj & Hst & Hpe & _ & _ & Hck & Hpl & _ & _ & _
    & Hnr & Hnn & _ & _ & ->).
  set (t1 := receipt_rows _ _ _ _ _ _ _ _) in *. set (raw' := with_commit raw ms) in *.
  destruct (receipt_rows_frame t id (uuid_hyphenated (ts_plan_id snap)) receipt ms lj pj ownership)
    as (E1 & E2 & E3 & E4 & E5 & Er & En). fold t1 in E1, E2, E3, E4, E5, Er, En. clearbody t1.
  pose proof Hst as (Hl & (_ & Hpid & Hwf & Hs & Hcl & Hcu & Hen & Hi & Hv) & Hid).
  assert (Hst' : stored_tx (put_tx t1 id raw') id raw'
    {| ts_transaction_id := id; ts_plan_id := ts_plan_id snap; ts_status := TxCommitted;
       ts_sandbox_cleanup_state := ts_sandbox_cleanup_state snap; ts_current_step := 19;
       ts_entered_step := 19; ts_identity := ts_identity snap |}).
  { split_and!; cbn; [by rewrite lookup_insert_eq| |done]. by unfold tx_ok; cbn; split_and!. }
  assert (Hwal : forall i, wal_of (put_tx t1 id raw') i = wal_of t i)
    by (intros; unfold wal_of; cbn; by rewrite E3).
  split; intros *; rewrite ?Hwal; cbn; rewrite ?E1, ?E2; try done.
  - intros [[<- <-]|[Hne Hr]]%lookup_insert_Some; [split; [eauto|by eapply (Htx id raw)]|].
    destruct (Htx id0 raw0 Hr) as [(s & ? & ? & ?) ?]. split; [|done]. exists s.
    split_and!; [|done..]. cbn. by rewrite E2, lookup_insert_ne.
  - intros [[<- <-]|[? Hr]]%lookup_insert_Some [[<- <-]|[? Hr']]%lookup_insert_Some He; [done|..].
    + by eapply (Hp _ _ raw).
    + by eapply (Hp _ _ _ raw).
    + by eapply Hp.
  - intros Hr. eapply wal_row_ok_frame; [| |by apply Hw]; cbn; [by rewrite E5|].
    rewrite E2. intros Hx. destruct (decide (id0 = id)) as [->|];
      [by rewrite lookup_insert_eq|by rewrite lookup_insert_ne].
  - by apply Htg.
  - unfold cli_wal_of. cbn. rewrite E4. apply Hcli.
  - intros [[<- <-]|[Hne Hr]]%lookup_insert_Some Hx; [done|by eapply Hre].
  - intros Hss Hcm. destruct (decide (id0 = id)) as [->|Hne].
    + destruct (stored_tx_fun _ _ _ _ _ _ Hst' Hss) as [<- <-]. cbn. rewrite Hpl. eauto.
    + destruct Hss as (Hr & Hok & ?). cbn in Hr. rewrite E2, lookup_insert_ne in Hr by done.
      assert (Hpne : uuid_hyphenated (ts_plan_id snap0) <> uuid_hyphenated (ts_plan_id snap)).
      { intros He. apply Hne. eapply Hp; [exact Hr|exact Hl|]. destruct Hok as (_ & -> & _). congruence. }
      rewrite (load_receipt_frame t); cbn; [by apply (Hrc id0 raw0 snap0)|by rewrite En, lookup_insert_ne|
        by rewrite Er, lookup_insert_ne].
Qed.

(** *** Cleaning up *)

Lemma tx_change_mono (S S' : bool -> Prop) snap raw raw' :
  (forall c, S c -> S' c) -> tx_change S snap raw raw' -> tx_change S' snap raw raw'.
Proof. intros HS Hc. destruct Hc; econstructor; eauto. Qed.

Lemma inv_cleaned t id t' : native_inv t -> tx_cleaned_up t id t' -> native_inv t'.
Proof.
  intros Hinv (raw & snap & cleanup & t1 & Hst & _ & _ & Hch & Hck & -> & E1 & E2 & E3 & E4 & E5 & Hcl & Him & _).
  assert (Hwal : forall i s row, wal_of t1 i !! s = Some row -> wal_of t i !! s = Some row).
  { intros i s row. unfold wal_of. rewrite E5. destruct (decide _); [done|].
    destruct (decide (i = id)) as [->|]; [by rewrite lookup_delete_eq|by rewrite lookup_delete_ne]. }
  assert (Hset : forall c, settled t id c -> settled t1 id c).
  { intros c [Ha Hb]. split; eauto. }
  pose proof Hinv as [Htx Hp Hw Hcn Htg Hcli Hre Hrc].
  assert (Hinv1 : native_inv t1).
  { assert (Hs1 : forall i r s, stored_tx t1 i r s <-> stored_tx t i r s)
      by (intros; unfold stored_tx; by rewrite E2).
    split; intros *; rewrite ?E1, ?E2.
    - intros [[s ?] ?]%Htx. split; [exists s; by apply Hs1|done].
    - apply Hp.
    - intros Hr. pose proof Hr as (? & r & ? & ? & ? & ? & ? & Hi & ?)%Hwal%Hw. split; [done|]. exists r.
      rewrite E2. split_and!; try done. apply Him; [|done]. apply image_referenced_spec. eauto.
    - unfold wal_of. rewrite E5. destruct (decide _); [apply Hcn|].
      destruct (decide (id0 = id)) as [->|]; [|rewrite lookup_delete_ne by done; apply Hcn].
      rewrite lookup_delete_eq. exists 0. intros s. cbn. rewrite lookup_empty. split; [by intros []|lia].
    - intros ?%Hwal ?%Hwal. by eapply Htg.
    - intros ?%Hcl. by eapply Hcli.
    - intros ? ? ?%Hwal. by eapply Hre.
    - rewrite Hs1. intros. rewrite (load_receipt_frame t); [by eapply Hrc|by rewrite E4|by rewrite E3]. }
  eapply inv_put_tx; [exact Hinv1| | |exact Hck|done].
  - destruct Hst as (? & ? & ?). split_and!; [by rewrite E2|done..].
  - by eapply tx_change_mono.
Qed.

Lemma quiet_effect_inv t t' : native_inv t -> quiet_effect t t' -> native_inv t'.
Proof.
  intros Hi [ ->|id|id write|id write (raw & snap & _ & _ & _ & Hok & ->)|id (r & next & Hl & Hok & _ & ->)|id -> |
    |plans lifecycle Hs -> |id (raw & snap & raw' & ? & ? & ? & ?)|id plan|id].
  - done.
  - by eapply inv_wal_updated.
  - by eapply inv_wal_appended.
  - by apply inv_put_cli.
  - by apply inv_put_cli.
  - apply (inv_cli_changed t _ Hi). intros i s row. unfold cli_wal_of at 1. cbn.
    destruct (decide (i = id)) as [->|]; [by rewrite lookup_delete_eq|rewrite lookup_delete_ne by done].
    right. by exists i.
  - by eapply inv_images_changed.
  - by apply inv_plans.
  - by eapply inv_put_tx.
  - by eapply inv_begun.
  - by eapply inv_cleaned.
Qed.

Lemma native_effect_inv t t' : native_inv t -> native_effect t t' -> native_inv t'.
Proof. intros Hi [He|id receipt ownership Hty Hc]; [by eapply quiet_effect_inv|by eapply inv_committed]. Qed.
End native.
