(* ===== verification/NativeClaims.v ===== *)
(** * Native transactions: what the tables promise

    Consequences of the invariant for every sequence of operations: recovery finds what it
    needs, the logs only move forward, a committed or restored outcome is final, and a commit
    records exactly what was applied. *)

From S2P Require Import Prelude Ordering Text Protocol Minicbor CanonicalCbor Domain.
From S2P Require Import SyncPayload Crypto Operation Causal Merge Transport StateSummary.
From S2P Require Import Admission NativeModel NativeTables NativeWal NativeLedger NativeRows.
From S2P Require Import NativeSteps NativeEffects NativeGeneration NativeInvariant.

#[local] Open Scope N_scope.

Definition empty_tables : NativeTables := {|
  nt_plans := ∅; nt_lifecycle := ∅; nt_transactions := ∅; nt_wal := ∅; nt_cli_wal := ∅;
  nt_before_images := ∅; nt_receipts := ∅; nt_native_receipts := ∅; nt_ownership := ∅ |}.

(** The immutable columns of a row stay, its state moves along [transition_allowed] or stays,
    and what it names as written or restored is never forgotten; only the token of an absence
    is replaced, by one of the same parent. *)
Definition wal_forward (row row' : RawWalRecord) : Prop :=
  rw_target_json row' = rw_target_json row /\ rw_object row' = rw_object row
  /\ rw_before_image_id row' = rw_before_image_id row
  /\ rw_operation_kind row' = rw_operation_kind row /\ rw_expected row' = rw_expected row
  /\ rw_intended_applied row' = rw_intended_applied row
  /\ rw_intended_restored row' = rw_intended_restored row
  /\ (rw_state row' = rw_state row
      \/ exists s s', rw_state row = wal_state_name s /\ rw_state row' = wal_state_name s'
           /\ transition_allowed s s' = true)
  /\ (rw_restored row <> no_token -> rw_restored row' = rw_restored row)
  /\ (rw_rebind_target_sequence row <> None ->
      rw_rebind_target_sequence row' = rw_rebind_target_sequence row
      /\ rw_rebind_old row' = rw_rebind_old row /\ rw_rebind_new row' = rw_rebind_new row)
  /\ (rw_applied row <> no_token -> rw_applied row' = rw_applied row
      \/ exists old new, rw_state row = wal_state_name WalRestorePrepared
           /\ rw_applied row = token_columns old /\ rw_applied row' = token_columns new
           /\ is_absence_generation old = true /\ is_absence_generation new = true
           /\ has_same_parent_binding new old = true).

Lemma wal_forward_refl row : wal_forward row row.
Proof. unfold wal_forward. split_and!; auto. Qed.

Lemma wal_change_forward json r r' : wal_change r r' -> wal_forward (wal_row json r) (wal_row json r').
Proof.
  destruct 1 as [next Ht|token Hp _ Hn|next token Hp Hx Hn|token _ _ Hn|rebind _ Hn|old new Hs Ho];
    unfold wal_forward; cbn; split_and!; auto.
  - right. by exists (wr_state r), next.
  - by rewrite Hn.
  - right. exists (wr_state r), next. split_and!; [done..|]. rewrite Hp. by destruct Hx as [-> | ->].
  - destruct Hn as [-> | ->]; [done|by left].
  - by rewrite Hn.
  - by rewrite Hn.
  - intros _. right. exists old, new. rewrite Hs, Ho. done.
Qed.

Section claims.
Context `{UuidCrateLaws} `{!NativeJson} `{!NativeJsonLaws} `{Primitives}.
Implicit Types t : NativeTables.

Definition native_reachable t : Prop := rtc native_step empty_tables t.

Lemma empty_inv : native_inv empty_tables.
Proof.
  split; try done.
  - intros id. exists 0. intros s. unfold wal_of. cbn. rewrite lookup_empty. cbn.
    rewrite lookup_empty. split; [by intros []|lia].
  - by intros id raw snap (Hl & _).
Qed.

Lemma native_step_inv t t' : native_inv t -> native_step t t' -> native_inv t'.
Proof.
  intros Hi Hs. eapply native_effect_inv; [done|]. apply native_step_effect; [|done].
  by apply native_inv_checked.
Qed.

Lemma native_steps_inv t t' : native_inv t -> rtc native_step t t' -> native_inv t'.
Proof. intros Hi Hr. induction Hr; eauto using native_step_inv. Qed.

Lemma native_reachable_inv t : native_reachable t -> native_inv t.
Proof. apply native_steps_inv, empty_inv. Qed.

(** ** What recovery finds *)

Lemma try_map_total {E A B} (f : A -> result E B) l :
  (forall a, a ∈ l -> exists b, f a = Ok b) -> exists bs, try_map f l = Ok bs.
Proof.
  induction l as [|a l IH]; intros Hf; [by eexists|]. simpl.
  destruct (Hf a) as [b Hb]; [set_solver|]. rewrite Hb. cbn [rbind].
  destruct IH as [bs Hbs]; [set_solver|]. rewrite Hbs. by eexists.
Qed.

Lemma inv_load_tx t id raw :
  native_inv t -> nt_transactions t !! id = Some raw ->
  exists snap, stored_tx t id raw snap /\ load_native_transaction t id = Ok (Some snap).
Proof.
  intros Hi Hl. destruct (inv_tx _ Hi _ _ Hl) as [(snap & Hst) _]. exists snap. split; [done|].
  destruct Hst as (_ & Hok & Hid). unfold load_native_transaction, transpose. rewrite Hl.
  by rewrite (decode_tx _ _ _ Hok Hid).
Qed.

Lemma inv_load_wal t id :
  native_inv t ->
  (forall s row r, wal_of t id !! s = Some row -> row = wal_row (rw_target_json row) r -> ~ orphan r) ->
  exists records, native_wal t id = Ok records.
Proof.
  intros Hi Hno. apply try_map_total. intros [s row] Hr%by_sequence_elem.
  destruct (inv_wal _ Hi _ _ _ Hr) as (_ & r & Hrow & <- & Hwf & Hj & Hru & _).
  exists r. rewrite Hrow. rewrite decode_wal_row by done. cbn in *.
  destruct Hru as [->|Ho]; [done|]. by destruct (Hno _ _ _ Hr Hrow).
Qed.

Lemma inv_recoverable t : native_inv t -> exists snaps, recoverable_native_transactions t = Ok snaps.
Proof.
  intros Hi. apply try_map_total. intros id Hid. unfold select_transactions in Hid.
  apply list_elem_of_fmap in Hid as ([i raw] & -> & Hin).
  rewrite sort_by_key_perm, list_elem_of_filter, elem_of_map_to_list in Hin. destruct Hin as [_ Hl].
  destruct (inv_load_tx _ _ _ Hi Hl) as (snap & _ & Hs). exists snap. unfold load_selected. cbn.
  by rewrite Hs.
Qed.

(** ** The logs move forward *)

Lemma effect_wal_forward t t' id s row :
  native_inv t -> native_effect t t' -> wal_of t id !! s = Some row ->
  (exists row', wal_of t' id !! s = Some row' /\ wal_forward row row')
  \/ wal_of t' id = ∅
     /\ exists raw raw', nt_transactions t !! id = Some raw /\ nt_transactions t' !! id = Some raw'
          /\ (rt_status raw = "committed"%string \/ rt_status raw = "restored"%string)
          /\ rt_current_step raw = 19 /\ rt_current_step raw' = 20.
Proof.
  intros Hi He Hr.
  assert (Hsame : nt_wal t' = nt_wal t ->
    (exists row', wal_of t' id !! s = Some row' /\ wal_forward row row')).
  { intros E. exists row. split; [|apply wal_forward_refl]. unfold wal_of in *. by rewrite E. }
  destruct He as [[ ->|i (json & r & r' & (Hl & _) & Hch & _ & ->)
    |i write (raw & snap & json & _ & _ & _ & _ & Hno & _ & _ & _ & _ & _ & ->)
    |i write (raw & snap & _ & _ & _ & _ & ->)|i (r & next & _ & _ & _ & ->)|i -> |(_ & _ & _ & E & _)
    |plans lifecycle _ -> |i (raw & snap & raw' & _ & _ & _ & ->)|i plan Hbg|i Hcl]|i receipt ownership _ Hcm].
  all: try (left; by apply Hsame).
  - left. destruct (wal_change_static _ _ Hch) as (Es & _).
    destruct (decide (id = i /\ s = wr_target_sequence r')) as [[-> ->]|Hn].
    + exists (wal_row json r'). split; [apply wal_of_put_record; by left|].
      rewrite Es, Hl in Hr. injection Hr as <-. by apply wal_change_forward.
    + exists row. split; [|apply wal_forward_refl]. apply wal_of_put_record. right. split; [|done].
      destruct (decide (id = i)); tauto.
  - left. exists row. split; [|apply wal_forward_refl]. apply wal_of_put_record. right. split; [|done].
    destruct (decide (id = i)) as [->|]; [|tauto]. right. cbn. congruence.
  - left. apply Hsame. destruct Hbg as (? & ? & ? & Hbg). destruct_and! Hbg. by subst t'.
  - destruct Hcl as (raw & snap & cleanup & t1 & Hst & Hterm & H19 & Hch & Hck & -> & E1 & E2 & E3 & E4 & E5 & _).
    destruct (decide (ts_status snap = TxConflict)); [left; apply Hsame; by cbn; rewrite E5|].
    destruct (decide (id = i)) as [->|Hne].
    + right. split; [unfold wal_of; cbn; by rewrite E5, lookup_delete_eq|].
      eexists raw, _. destruct Hst as (Hl & (_ & _ & _ & Es & _ & Ec & _) & _). split_and!; [done|..].
      * cbn. by rewrite lookup_insert_eq.
      * rewrite Es. destruct Hterm as [-> |[-> |]]; auto; congruence.
      * by rewrite Ec.
      * done.
    + left. exists row. split; [|apply wal_forward_refl]. unfold wal_of in *. cbn.
      by rewrite E5, lookup_delete_ne.
  - left. apply Hsame. destruct Hcm as (? & ? & ? & ? & ? & ? & Hcm). destruct_and! Hcm. subst t'.
    cbn -[receipt_rows]. apply receipt_rows_frame.
Qed.

(** ** Outcomes are final *)

(** [id] is still there, with its plan, outcome and, if committed, its receipt. *)
Definition outcome_kept t (id : TransactionId) (snap : NativeTransactionSnapshot) t' : Prop :=
  exists raw' snap', stored_tx t' id raw' snap' /\ ts_status snap' = ts_status snap
    /\ ts_plan_id snap' = ts_plan_id snap
    /\ (ts_status snap = TxCommitted ->
        load_native_receipt t' (ts_plan_id snap) = load_native_receipt t (ts_plan_id snap)).

Lemma outcome_kept_frame t t' id raw snap :
  stored_tx t id raw snap -> nt_transactions t' !! id = nt_transactions t !! id ->
  load_native_receipt t' (ts_plan_id snap) = load_native_receipt t (ts_plan_id snap) ->
  outcome_kept t id snap t'.
Proof. intros (Hl & Hok & Hid) E Hr. exists raw, snap. unfold stored_tx. rewrite E. by split_and!. Qed.

Lemma tx_updated_kept t i raw snap raw' id raw0 snap0 :
  stored_tx t i raw snap -> tx_change (settled t i) snap raw raw' -> transaction_checks raw' = true ->
  stored_tx t id raw0 snap0 -> terminal (ts_status snap0) -> outcome_kept t id snap0 (put_tx t i raw').
Proof.
  intros Hst Hch Hck Hs0 Hterm. destruct (decide (id = i)) as [->|Hne].
  - destruct (stored_tx_fun _ _ _ _ _ _ Hs0 Hst) as [-> ->].
    pose proof Hst as (_ & Hok & Hid). destruct (tx_change_snap _ _ _ _ Hok Hch Hck) as (snap' & Hok' & Hid' & Hp & Hs).
    exists raw', snap'. split_and!; [|..|done|done].
    + split_and!; [cbn; by rewrite lookup_insert_eq|done|congruence].
    + unfold terminal in Hterm. destruct Hs as [|[[E _]|[[E _]|[E _]]]]; [done|..];
        rewrite E in Hterm; naive_solver.
  - eapply outcome_kept_frame; [done| |done]. cbn. by rewrite lookup_insert_ne.
Qed.

Lemma effect_outcome t t' id raw snap :
  native_inv t -> native_effect t t' -> stored_tx t id raw snap -> terminal (ts_status snap) ->
  outcome_kept t id snap t'.
Proof.
  intros Hi He Hst Hterm.
  destruct He as [[ ->|i (json & r & r' & _ & _ & _ & ->)
    |i write Hap|i write (? & ? & _ & _ & _ & _ & ->)|i (r & next & _ & _ & _ & ->)|i -> |(_ & _ & E3 & _ & _ & E6 & _ & _ & R)
    |plans lifecycle _ -> |i (raw1 & snap1 & raw' & Hst1 & Hch & Hck & ->)|i plan Hbg|i Hcl]|i receipt ownership Hty Hcm].
  all: try (by eapply outcome_kept_frame).
  - destruct Hap as (? & ? & ? & Hap). destruct_and! Hap. subst t'. by eapply outcome_kept_frame.
  - eapply outcome_kept_frame; [done|by rewrite E3|]. apply load_receipt_frame; [by rewrite E6|auto].
  - by eapply tx_updated_kept.
  - destruct Hbg as (plans & raw' & snap' & Hno & Hbg). destruct_and! Hbg. subst t'.
    eapply outcome_kept_frame; [done| |done]. cbn. destruct Hst as (Hl & _).
    rewrite lookup_insert_ne; [done|congruence].
  - destruct Hcl as (raw1 & snap1 & cleanup & t1 & Hst1 & _ & _ & Hch & Hck & -> & _ & E2 & E3 & E4 & _).
    destruct (tx_updated_kept _ _ _ _ _ _ _ _ Hst1 Hch Hck Hst Hterm) as (raw' & snap' & (Hl & Hok) & Hs & Hp & Hr).
    exists raw', snap'. split_and!; try done.
    + split; [cbn in *; by rewrite E2|done].
    + intros _. apply load_receipt_frame; cbn; [by rewrite E4|by rewrite E3].
  - destruct Hcm as (raw1 & snap1 & records & ms & lj & pj & Hst1 & Hpe & _ & _ & _ & _ & _ & _ & _ & _ & _ & _ & _ & ->).
    assert (Hne : i <> id).
    { intros ->. destruct (stored_tx_fun _ _ _ _ _ _ Hst Hst1) as [_ ->]. rewrite Hpe in Hterm.
      by destruct Hterm as [|[|]]. }
    destruct (receipt_rows_frame t i (uuid_hyphenated (ts_plan_id snap1)) receipt ms lj pj ownership)
      as (_ & E2 & _ & _ & _ & Er & En).
    assert (Hpne : uuid_hyphenated (ts_plan_id snap1) <> uuid_hyphenated (ts_plan_id snap)).
    { intros Hp. apply Hne. destruct Hst as (Hl & (_ & Hp1 & _) & _), Hst1 as (Hl1 & (_ & Hp2 & _) & _).
      eapply (inv_plan _ Hi); [done|done|congruence]. }
    eapply outcome_kept_frame; [done|cbn -[receipt_rows]; by rewrite E2, lookup_insert_ne|].
    apply load_receipt_frame; cbn -[receipt_rows]; [by rewrite En, lookup_insert_ne|].
    by rewrite Er, lookup_insert_ne.
Qed.

Lemma steps_outcome t t' id raw snap :
  native_inv t -> rtc native_step t t' -> stored_tx t id raw snap -> terminal (ts_status snap) ->
  outcome_kept t id snap t'.
Proof.
  intros Hi Hr. revert raw snap. induction Hr as [t|t t1 t2 Hs Hr IH]; intros raw snap Hst Hterm.
  { by eapply outcome_kept_frame. }
  pose proof (native_step_effect _ _ (native_inv_checked _ Hi) Hs) as He.
  destruct (effect_outcome _ _ _ _ _ Hi He Hst Hterm) as (raw1 & snap1 & Hst1 & E1 & P1 & R1).
  destruct (IH (native_step_inv _ _ Hi Hs) raw1 snap1) as (raw2 & snap2 & Hst2 & E2 & P2 & R2); [done|by rewrite E1|].
  exists raw2, snap2. split_and!; [done|congruence..|]. intros Hc. rewrite <- P1 in *.
  rewrite R2 by congruence. by apply R1.
Qed.

(** ** Committing records what was applied *)

Definition owned_by (id : TransactionId) (c : OwnershipChange) : OwnershipRow := {|
  ow_transaction_id := id; ow_structural_location := oc_structural_location c;
  ow_semantic_digest := oc_semantic_digest c; ow_native_digest := oc_native_digest c |}.

Lemma validate_ownership_unique ownership :
  validate_ownership ownership = Ok tt -> NoDup (oc_stable_id <$> ownership).
Proof.
  unfold validate_ownership. intros (seen & Hf & _)%rbind_Ok. revert Hf.
  enough (forall ids locs : gset rstr, try_fold (fun (seen : gset rstr * gset rstr) change =>
      if trim_is_empty (oc_stable_id change) || trim_is_empty (oc_structural_location change)
      then Err (Validation "native ownership identity cannot be empty") else
      let unique := Validation "native ownership changes must be unique" in
      let? ids := insert_unique seen.1 (oc_stable_id change) unique in
      let? locations := insert_unique seen.2 (oc_structural_location change) unique in
      Ok (ids, locations)) (ids, locs) ownership = Ok seen ->
    NoDup (oc_stable_id <$> ownership) /\ forall c, c ∈ ownership -> oc_stable_id c ∉ ids) as Hg
    by (intros Hf; apply (Hg _ _ Hf)).
  induction ownership as [|c l IH]; intros ids locs Hf; simpl in *; [split; [constructor|set_solver]|].
  apply rbind_Ok in Hf as ([ids' locs'] & Hc & Hf). destruct (_ || _); [discriminate|].
  apply rbind_Ok in Hc as (i1 & Hi1 & Hc). apply rbind_Ok in Hc as (l1 & _ & [= <- <-]).
  unfold insert_unique in Hi1. destruct (bool_decide_reflect (oc_stable_id c ∈ ids)); [discriminate|].
  injection Hi1 as <-. apply IH in Hf as [Hnd Hout]. split.
  - constructor; [|done]. intros (c' & He & Hin)%list_elem_of_fmap. apply (Hout c' Hin).
    rewrite <- He. set_solver.
  - intros c' [->|Hin]%elem_of_cons; [done|]. specialize (Hout c' Hin). set_solver.
Qed.

Lemma own_lookup_other id l t k :
  k ∉ oc_stable_id <$> l -> nt_ownership (foldl (own id) t l) !! k = nt_ownership t !! k.
Proof.
  revert t. induction l as [|c l IH]; intros t Hk; [done|]. simpl in *.
  rewrite IH by set_solver. cbn. rewrite lookup_insert_ne; [done|set_solver].
Qed.

Lemma own_lookup id l t c :
  NoDup (oc_stable_id <$> l) -> c ∈ l ->
  nt_ownership (foldl (own id) t l) !! oc_stable_id c = Some (owned_by id c).
Proof.
  revert t. induction l as [|x l IH]; intros t Hnd Hin; [set_solver|]. simpl in *.
  apply NoDup_cons in Hnd as [Hx Hnd]. apply elem_of_cons in Hin as [->|Hin]; [|by apply IH].
  rewrite own_lookup_other by done. cbn. by rewrite lookup_insert_eq.
Qed.

Lemma receipt_matches_wal_Ok records targets :
  receipt_matches_wal records targets = Ok tt ->
  Forall2 (fun r e => wr_state r = WalApplied /\ wr_target r = re_target e
                      /\ wr_intended_applied r = re_fingerprint e) records targets.
Proof.
  unfold receipt_matches_wal. destruct (N.eqb_spec (len records) (len targets)) as [Hl|]; [|discriminate].
  cbn [negb]. destruct (existsb _ _) eqn:E; [discriminate|]. intros _. unfold len in Hl.
  revert targets Hl E. induction records as [|r l IH]; intros [|e targets] Hl E; try (simpl in Hl; lia); constructor.
  - simpl in E. apply orb_false_iff in E as [E _]. bools. done.
  - simpl in E. apply orb_false_iff in E as [_ E]. apply IH; [simpl in Hl; lia|done].
Qed.

Lemma commit_effect t id receipt ownership t' :
  native_inv t -> typed_native_receipt receipt = true ->
  commit_native_success t id receipt ownership = Ok t' ->
  (exists raw', nt_transactions t' !! id = Some raw' /\ rt_status raw' = "committed"%string
     /\ rt_plan_id raw' = uuid_hyphenated (rc_plan_id (nr_legacy receipt)))
  /\ load_native_receipt t' (rc_plan_id (nr_legacy receipt)) = Ok (Some receipt)
  /\ Forall (fun c => nt_ownership t' !! oc_stable_id c = Some (owned_by id c)) ownership
  /\ (t' = t \/ exists records, native_wal t id = Ok records
        /\ Forall2 (fun r e => wr_state r = WalApplied /\ wr_target r = re_target e
             /\ wr_intended_applied r = re_fingerprint e) records (nr_targets receipt)).
Proof.
  intros Hi Hty Hc. pose proof (native_inv_checked _ Hi) as Hck.
  assert (Hu : NoDup (oc_stable_id <$> ownership)).
  { unfold commit_native_success in Hc. apply rbind_Ok in Hc as ([] & _ & Hc).
    apply rbind_Ok in Hc as ([] & Hv & _). by apply validate_ownership_unique. }
  destruct (commit_native_success_effect _ _ _ _ _ Hck Hc) as [->|Hcm].
  - unfold commit_native_success in Hc. apply rbind_Ok in Hc as ([] & _ & Hc).
    apply rbind_Ok in Hc as ([] & _ & Hc).
    apply rbind_Ok in Hc as (snap & [raw (Hl & (_ & Hpi & _ & Hs & _) & _)]%require_native_transaction_Ok & Hc); [|done].
    destruct (negb _) eqn:Ep in Hc; [discriminate|]. bools.
    destruct (bool_decide _) eqn:Es in Hc.
    + bools. apply rbind_Ok in Hc as (stored & Hst & Hc).
      destruct (_ && _) eqn:E in Hc; [|discriminate]. bools. subst stored.
      split_and!; [exists raw; by rewrite Hs, Es, Hpi, Ep|by rewrite <- Ep| |by left].
      apply Forall_forall. intros c Hin.
      match goal with X : ownership_matches _ _ _ = true |- _ => unfold ownership_matches in X; rename X into Hm end.
      apply andb_true_iff in Hm as [_ Hm]. rewrite forallb_forall in Hm. apply list_elem_of_In in Hin.
      specialize (Hm c Hin). destruct (nt_ownership t !! _) as [[? ? ? ?]|]; [|done]. cbn in Hm. bools.
      by subst.
    + exfalso. destruct (negb _) in Hc; [discriminate|]. destruct (negb _ || negb _) in Hc; [discriminate|].
      apply rbind_Ok in Hc as (? & _ & Hc). apply rbind_Ok in Hc as (? & _ & Hc).
      apply rbind_Ok in Hc as (? & _ & Hc). apply rbind_Ok in Hc as (t1 & _ & Hc).
      unfold update_transaction in Hc. destruct (_ !! id) in Hc; [|discriminate]. res_inv. bools. apply (f_equal nt_transactions) in Hc.
      apply (f_equal (lookup id)) in Hc. cbn in Hc. rewrite lookup_insert_eq, Hl in Hc.
      injection Hc as Hc. apply (f_equal rt_status) in Hc. cbn in Hc. rewrite Hs in Hc.
      by destruct (ts_status snap).
  - pose proof (committed_loads _ _ _ _ _ Hty Hcm) as Hload.
    destruct Hcm as (raw & snap & records & ms & lj & pj & Hst & _ & _ & _ & _ & Hpl & _ & Hw & Hm & _ & _ & _ & _ & ->).
    split_and!; [|done| |].
    + eexists. cbn. rewrite lookup_insert_eq. destruct Hst as (_ & (_ & Hpi & _) & _).
      split_and!; [done|done|]. cbn. by rewrite Hpi, Hpl.
    + apply Forall_forall. intros c Hin. cbn. by apply own_lookup.
    + right. exists records. split; [done|]. by apply receipt_matches_wal_Ok.
Qed.

(** ** Unreadable logs *)

Definition missing_restored : VaultError :=
  Validation "restored native WAL state is missing restored object provenance".

Lemma orphan_rules r : orphan r -> record_rules r = Err missing_restored.
Proof. intros (Hs & Hc & Hn). unfold record_rules. by rewrite Hs, Hc, Hn. Qed.

Lemma try_map_first_error {E A B} (f : A -> result E B) e l a :
  (forall x, x ∈ l -> (exists b, f x = Ok b) \/ f x = Err e) -> a ∈ l -> f a = Err e ->
  try_map f l = Err e.
Proof.
  induction l as [|x l IH]; intros Hl Ha Hf; [set_solver|]. simpl.
  destruct (Hl x) as [[b Hb]|Hb]; [set_solver| |by rewrite Hb]. rewrite Hb. cbn [rbind].
  rewrite IH; [done|set_solver| |done].
  apply elem_of_cons in Ha as [->|Ha]; [congruence|done].
Qed.

(** A changed mutation whose row goes from prepared to restored: the move succeeds, and the
    log cannot be read any more. *)
Lemma prepared_restored_unreadable t id s r :
  native_inv t -> load_native_wal_record t id s = Ok (Some r) ->
  wr_state r = WalPrepared -> wal_changed r = true ->
  exists t', transition_native_wal t id s WalRestored = Ok t' /\ native_inv t'
    /\ native_wal t' id = Err missing_restored.
Proof.
  intros Hi Hl Hs Hc. pose proof (load_wal_record_Some _ _ _ _ Hl) as (Hseq & json & Hh).
  pose proof Hh as (Hrow & Hwf & Hj & Hru). subst s.
  destruct (inv_wal _ Hi _ _ _ Hrow) as (Hjs & _). cbn in Hjs.
  assert (Hck : wal_checks (wal_row json (rec_with_state r WalRestored)) = true)
    by (by apply wal_row_checks).
  assert (Ht : transition_native_wal t id (wr_target_sequence r) WalRestored
    = Ok (put_record t id json (rec_with_state r WalRestored))).
  { unfold transition_native_wal, require_wal_record. rewrite Hl. cbn [rbind ok_or]. rewrite Hs.
    cbn [bool_decide andb negb transition_allowed]. rewrite !bool_decide_false by done. cbn.
    unfold update_wal_row, put_wal_row. rewrite Hrow. unfold state_is. cbn [wal_row rw_state].
    rewrite Hs, bool_decide_true by done.
    change (with_wal_state (wal_row json r) "restored") with (wal_row json (rec_with_state r WalRestored)).
    by rewrite Hck. }
  eexists. split; [exact Ht|].
  assert (Hi' : native_inv (put_record t id json (rec_with_state r WalRestored))).
  { eapply native_step_inv; [done|]. by eapply step_quiet, step_transition. }
  split; [done|]. unfold native_wal, load_native_wal.
  eapply (try_map_first_error _ _ _ (wr_target_sequence r, wal_row json (rec_with_state r WalRestored))).
  - intros [s row] Hr%by_sequence_elem. destruct (inv_wal _ Hi' _ _ _ Hr) as (_ & r' & -> & <- & Hwf' & Hj' & Hru' & _).
    cbn in Hj'. rewrite decode_wal_row by done. destruct Hru' as [->|Ho]; [left; by eexists|right].
    by rewrite orphan_rules.
  - apply by_sequence_elem, wal_of_put_record. by left.
  - change (wr_target_sequence r) with (wr_target_sequence (rec_with_state r WalRestored)).
    rewrite decode_wal_row; [|done|done]. rewrite orphan_rules; [done|]. split_and!; [done..|].
    apply record_rules_Ok in Hru as (_ & _ & Hn & _). cbn. auto.
Qed.

(** ** The claims *)

(** C6. After any sequence of operations of the vault, recovery finds what it needs: the list
    of recoverable transactions and every transaction can be read and its sealed plan is
    stored; the sequences of each log are 0 to n-1, its rows name distinct targets and the
    before-image of each is stored; and the log can be read unless a row of it was marked
    restored without naming the restored object. *)
Theorem native_tables_recoverable t :
  native_reachable t ->
  (exists snapshots, recoverable_native_transactions t = Ok snapshots)
  /\ (forall id raw, nt_transactions t !! id = Some raw ->
       (exists snapshot, load_native_transaction t id = Ok (Some snapshot))
       /\ (trim_is_empty id = false ->
           exists payload, native_plan_payload_for_recovery t id = Ok payload))
  /\ (forall id, exists n, forall sequence, is_Some (wal_of t id !! sequence) <-> sequence < n)
  /\ (forall id sequence row, wal_of t id !! sequence = Some row ->
       exists image, native_before_image t (rw_before_image_id row) = Ok image)
  /\ (forall id,
       (forall sequence row, wal_of t id !! sequence = Some row -> rw_state row = "restored"%string ->
          rw_expected row <> rw_intended_applied row -> rw_restored row <> no_token) ->
       exists records, native_wal t id = Ok records
         /\ (forall r r', r ∈ records -> r' ∈ records ->
              same_native_target (wr_target r) (wr_target r') = true ->
              wr_target_sequence r = wr_target_sequence r')).
Proof.
  intros Hi%native_reachable_inv. split_and!.
  - by apply inv_recoverable.
  - intros id raw Hl. split.
    + destruct (inv_load_tx _ _ _ Hi Hl) as (snap & _ & ?). by exists snap.
    + intros Hid. destruct (inv_tx _ Hi _ _ Hl) as [_ [plan Hp]]. exists (pl_payload plan).
      unfold native_plan_payload_for_recovery. by rewrite Hid, Hl; cbn; rewrite Hp.
  - apply (inv_contiguous _ Hi).
  - intros id sequence row Hr. destruct (inv_wal _ Hi _ _ _ Hr) as (_ & r & _ & _ & _ & _ & _ & [image Hb] & _).
    exists (bi_payload image). unfold native_before_image. by rewrite Hb.
  - intros id Hno. destruct (inv_load_wal t id Hi) as [records Hl].
    { intros s row r Hr Hrow (Hs & Hc & Hn). eapply Hno; [exact Hr|..]; rewrite Hrow; cbn.
      - by rewrite Hs.
      - unfold wal_changed in Hc. bools. done.
      - by rewrite Hn. }
    exists records. split; [done|]. intros r r' Hr Hr' Hs.
    destruct (load_native_wal_elem _ _ _ _ Hl Hr) as [j (Hrow & _ & Hj & _)].
    destruct (load_native_wal_elem _ _ _ _ Hl Hr') as [j' (Hrow' & _ & Hj' & _)].
    by eapply (inv_targets _ Hi id _ _ _ _ (wr_target r) (wr_target r')).
Qed.

(** C10. One operation never rewrites a log: a row keeps its target, object, before-image, kind
    and fingerprints, its state only moves forward and what it names as written or restored
    stays (the token of an absence may be replaced by one of the same parent); a row
    disappears only with its whole log, when a committed or restored transaction is cleaned
    up. *)
Theorem native_wal_moves_forward t t' id sequence row :
  native_reachable t -> native_step t t' -> wal_of t id !! sequence = Some row ->
  (exists row', wal_of t' id !! sequence = Some row' /\ wal_forward row row')
  \/ wal_of t' id = ∅
     /\ exists raw raw', nt_transactions t !! id = Some raw /\ nt_transactions t' !! id = Some raw'
          /\ (rt_status raw = "committed"%string \/ rt_status raw = "restored"%string)
          /\ rt_current_step raw = 19 /\ rt_current_step raw' = 20.
Proof.
  intros Hi%native_reachable_inv Hs. apply effect_wal_forward; [done|].
  by apply native_step_effect; [apply native_inv_checked|].
Qed.

(** C7. An outcome is final: from a transaction that is committed, restored or in conflict,
    every sequence of operations leaves a transaction with the same outcome and plan; a
    committed one has a receipt, and it is read back unchanged for ever; and every row of
    the log of a restored one is restored. *)
Theorem native_outcome_final t t' id raw :
  native_reachable t -> rtc native_step t t' -> nt_transactions t !! id = Some raw ->
  rt_status raw ∈ terminal_names ->
  exists raw' plan, nt_transactions t' !! id = Some raw' /\ rt_status raw' = rt_status raw
    /\ rt_plan_id raw = uuid_hyphenated plan /\ rt_plan_id raw' = rt_plan_id raw
    /\ (rt_status raw = "committed"%string ->
        exists receipt, load_native_receipt t plan = Ok (Some receipt)
                        /\ load_native_receipt t' plan = Ok (Some receipt))
    /\ (rt_status raw = "restored"%string ->
        forall sequence row, wal_of t' id !! sequence = Some row -> rw_state row = "restored"%string).
Proof.
  intros Hi%native_reachable_inv Hr Hl Hs. destruct (inv_tx _ Hi _ _ Hl) as [(snap & Hst) _].
  pose proof Hst as (_ & (_ & Hp & _ & Hst' & _) & _).
  destruct (steps_outcome _ _ _ _ _ Hi Hr Hst) as (raw' & snap' & Hs' & Es & Ep & Hrc).
  { unfold terminal. rewrite Hst' in Hs. destruct (ts_status snap); cbn in Hs; set_solver. }
  pose proof Hs' as (Hl' & (_ & Hp' & _ & Hst'' & _) & _).
  exists raw', (ts_plan_id snap). split_and!; [done|congruence|done|congruence|..].
  - intros Hc. assert (Hcm : ts_status snap = TxCommitted) by (rewrite Hst' in Hc; by destruct (ts_status snap)).
    destruct (inv_receipt _ Hi _ _ _ Hst Hcm) as [receipt Hload]. exists receipt.
    by rewrite Hrc.
  - intros Hc sequence row. apply (inv_restored _ (native_steps_inv _ _ Hi Hr) _ _ _ _ Hl'). congruence.
Qed.

(** C11. A commit that succeeds records what was applied: the transaction is committed, reading
    its receipt gives exactly the receipt that was committed, every ownership change is
    recorded for the transaction, and, unless it was committed before with the same receipt,
    the log held exactly the targets of the receipt, in order, each applied to the
    fingerprint the receipt states. *)
Theorem native_commit_records_applied t id receipt ownership t' :
  native_reachable t -> typed_native_receipt receipt = true ->
  commit_native_success t id receipt ownership = Ok t' ->
  (exists raw', nt_transactions t' !! id = Some raw' /\ rt_status raw' = "committed"%string
     /\ rt_plan_id raw' = uuid_hyphenated (rc_plan_id (nr_legacy receipt)))
  /\ load_native_receipt t' (rc_plan_id (nr_legacy receipt)) = Ok (Some receipt)
  /\ Forall (fun c => nt_ownership t' !! oc_stable_id c = Some (owned_by id c)) ownership
  /\ (t' = t \/ exists records, native_wal t id = Ok records
        /\ Forall2 (fun r e => wr_state r = WalApplied /\ wr_target r = re_target e
             /\ wr_intended_applied r = re_fingerprint e) records (nr_targets receipt)).
Proof. intros Hi%native_reachable_inv. by apply commit_effect. Qed.
End claims.
