(* ===== verification/NativeWitness.v ===== *)
(** * Native transactions: the claims at concrete values

    A stand-in for JSON that satisfies its laws, a transaction that runs to its commit, and one
    whose log becomes unreadable. *)

From S2P Require Import Prelude Ordering Text Protocol Minicbor CanonicalCbor Domain.
From S2P Require Import SyncPayload Crypto Operation Causal Merge Transport StateSummary.
From S2P Require Import Admission NativeModel NativeTables NativeWal NativeLedger NativeRows.
From S2P Require Import NativeSteps NativeEffects NativeGeneration NativeInvariant NativeClaims.

#[local] Open Scope N_scope.

(** ** JSON *)

Module NativeToy.
Import CountableJson.

#[export] Instance NativePlatform_countable : Countable NativePlatform.
Proof.
  refine (inj_countable' (fun x => match x with Windows => false | Macos => true end)
    (fun b : bool => if b then Macos else Windows) _); by intros [].
Defined.
#[export] Instance WireNativeValue_countable : Countable WireNativeValue.
Proof.
  refine (inj_countable' (fun x => (wv_platform x, wv_bytes x, wv_display x))
    (fun '(a, b, c) => {| wv_platform := a; wv_bytes := b; wv_display := c |}) _); by intros [].
Defined.
#[export] Instance CliOperation_countable : Countable CliOperation.
Proof.
  refine (inj_countable' (fun x => (co_executable x, co_arguments x, co_timeout_ms x))
    (fun '(a, b, c) => {| co_executable := a; co_arguments := b; co_timeout_ms := c |}) _); by intros [].
Defined.
#[export] Instance ApplyReceipt_countable : Countable ApplyReceipt.
Proof.
  refine (inj_countable' (fun x => (rc_plan_id x, rc_applied_hlc x, rc_resulting_digests x))
    (fun '(a, b, c) => {| rc_plan_id := a; rc_applied_hlc := b; rc_resulting_digests := c |}) _);
    by intros [].
Defined.
#[export] Instance NativeReceiptEntry_countable : Countable NativeReceiptEntry.
Proof.
  refine (inj_countable' (fun x => (re_target x, re_fingerprint x))
    (fun '(a, b) => {| re_target := a; re_fingerprint := b |}) _); by intros [].
Defined.
#[export] Instance NativeReceiptPayload_eq_dec : EqDecision NativeReceiptPayload.
Proof. solve_decision. Defined.
#[export] Instance NativeReceiptPayload_countable : Countable NativeReceiptPayload.
Proof.
  refine (inj_countable' (fun x => (rp_schema_version x, rp_targets x))
    (fun '(a, b) => {| rp_schema_version := a; rp_targets := b |}) _); by intros [].
Defined.

(** An encoding that is never empty. *)
Definition braced {T} `{Countable T} (typed : T -> bool) : SerdeJson T := {|
  to_vec v := let b := bits (encode v) in if len b <? u64_max then Some (Byte.x7b :: b) else None;
  from_slice b := match b with
                  | _ :: b' => v ← decode (of_bits b'); if typed v : bool then Some v else None
                  | [] => None
                  end |}.

Lemma braced_laws {T} `{Countable T} (typed : T -> bool) : SerdeJsonLaws (braced typed) typed.
Proof.
  split; simpl.
  - intros v b Ht. destruct (N.ltb_spec (len (bits (encode v))) u64_max); [|done].
    intros [= <-]. split; [unfold len in *; simpl; lia|].
    rewrite of_bits_bits, decode_encode. simpl. by rewrite Ht.
  - intros [|x b] v; [done|]. intros (w & _ & Hw)%bind_Some. case_match; naive_solver.
Qed.

Section instances.
Context `{UuidCrate}.
Definition native : NativeJson := {|
  json_native_value_wire := braced typed_native_value;
  json_apply_receipt_wire := json typed_apply_receipt;
  json_receipt_payload_wire := json typed_receipt_payload;
  json_cli_operations_wire := json (forallb typed_cli_operation) |}.

Lemma native_laws : NativeJsonLaws (H0 := native).
Proof.
  split; [apply braced_laws|apply json_laws..|]. intros v. simpl. by case_match.
Qed.
End instances.
End NativeToy.

(** ** Operations as data *)

Module NativeWitness.
#[local] Existing Instances rfc9562 rfc9562_laws Toy.toy NativeToy.native NativeToy.native_laws.

Inductive native_op :=
| OpBegin (id : TransactionId) (plan : NativePlanWrite) (identity : NativeSandboxIdentity)
| OpStep (id : TransactionId) (step : TransactionStep)
| OpEnter (id : TransactionId) (step : TransactionStep)
| OpImages (images : list BeforeImageWrite) (policy : BeforeImagePolicy)
| OpPrepare (id : TransactionId) (write : NativeWalWrite)
| OpCandidate (id : TransactionId) (sequence : N) (token : NativeObjectToken)
| OpTransition (id : TransactionId) (sequence : N) (next : MutationWalState)
| OpCommit (id : TransactionId) (receipt : NativeApplyReceipt) (ownership : list OwnershipChange)
| OpCleanup (id : TransactionId).

Definition op_typed (op : native_op) : bool :=
  match op with
  | OpBegin _ plan _ => wf_id (pw_plan_id plan)
  | OpPrepare _ write => typed_wal_write write
  | OpCommit _ receipt _ => typed_native_receipt receipt
  | _ => true
  end.

Definition run_op (t : NativeTables) (op : native_op) : result VaultError NativeTables :=
  match op with
  | OpBegin id plan identity => begin_native_transaction t id plan identity
  | OpStep id step => let? t := enter_native_step t id step in complete_native_step t id step
  | OpEnter id step => enter_native_step t id step
  | OpImages images policy => put_before_images_batch t images policy
  | OpPrepare id write => prepare_native_wal t id write
  | OpCandidate id sequence token => record_native_wal_candidate t id sequence token
  | OpTransition id sequence next => transition_native_wal t id sequence next
  | OpCommit id receipt ownership => commit_native_success t id receipt ownership
  | OpCleanup id => finish_native_cleanup t id
  end.

Lemma run_op_steps t op t' :
  op_typed op = true -> run_op t op = Ok t' -> rtc native_step t t'.
Proof.
  destruct op; simpl; intros Hty Hr;
    try (apply rtc_once; solve [by eapply step_commit|apply step_quiet; by econstructor]).
  apply rbind_Ok in Hr as (t1 & H1 & H2). eapply rtc_l; [by eapply step_quiet, step_enter|].
  apply rtc_once. by eapply step_quiet, step_complete.
Qed.

Lemma run_ops_steps ops t t' :
  forallb op_typed ops = true -> try_fold run_op t ops = Ok t' -> rtc native_step t t'.
Proof.
  revert t. induction ops as [|op ops IH]; intros t; simpl; [by intros _ [= <-]|].
  intros [Hop Hty]%andb_true_iff (t1 & H1 & H2)%rbind_Ok.
  transitivity t1; [by eapply run_op_steps|by apply IH].
Qed.

Definition run (t : NativeTables) (ops : list native_op) : NativeTables :=
  match try_fold run_op t ops with Ok t' => t' | Err _ => t end.

Lemma run_steps t ops : forallb op_typed ops = true -> rtc native_step t (run t ops).
Proof.
  intros Hty. unfold run. destruct (try_fold _ _ _) eqn:E; [|done]. by eapply run_ops_steps.
Qed.

Lemma run_one t op : is_ok (run_op t op) = true -> run_op t op = Ok (run t [op]).
Proof. unfold run. simpl. by destruct (run_op t op). Qed.

(** ** A transaction of one file *)

Definition tx : TransactionId := lit "tx-1".
Definition digest (b : Byte.byte) : bytes := repeat b 32.
Definition plan : NativePlanWrite := {|
  pw_plan_id := Fixture.id; pw_approval_hash := digest Byte.x0a; pw_payload := [Byte.x01];
  pw_created_ms := 5; pw_expires_ms := 50 |}.
Definition identity : NativeSandboxIdentity :=
  WindowsIdentity (WINDOWS_MONIKER_PREFIX ++ lit "0123456789abcdef0123456789abcdef")
    (ascii_bytes "S-1-15-2-1-2-3-4-5-6-7").
Definition image : BeforeImageWrite := {|
  iw_id := lit "image-1"; iw_plan_id := Some (pw_plan_id plan); iw_payload := [Byte.x02];
  iw_created_ms := 6 |}.
Definition token (b : Byte.byte) : NativeObjectToken :=
  {| tk_volume := [b]; tk_object := [b]; tk_topology := [b] |}.
Definition target : WireNativeValue :=
  {| wv_platform := Macos; wv_bytes := ascii_bytes "/etc/x"; wv_display := None |}.
Definition write : NativeWalWrite := {|
  ww_target_sequence := 0; ww_target := target; ww_object_token := token Byte.x01;
  ww_before_image_id := iw_id image; ww_operation_kind := Payload; ww_expected := digest Byte.x01;
  ww_intended_applied := digest Byte.x02; ww_intended_restored := digest Byte.x01 |}.
Definition receipt : NativeApplyReceipt := {|
  nr_legacy := {| rc_plan_id := pw_plan_id plan; rc_applied_hlc := Fixture.hlc;
                  rc_resulting_digests := [digest Byte.x02] |};
  nr_targets := [{| re_target := target; re_fingerprint := digest Byte.x02 |}] |}.
Definition owner : OwnershipChange := {|
  oc_stable_id := lit "o"; oc_structural_location := lit "l"; oc_semantic_digest := digest Byte.x03;
  oc_native_digest := digest Byte.x04 |}.

Definition prepare_ops : list native_op :=
  [OpBegin tx plan identity; OpImages [image] {| bp_max_bytes := 100; bp_retention_ms := 10 |};
   OpPrepare tx write].
Definition apply_ops : list native_op :=
  [OpCandidate tx 0 (token Byte.x05); OpTransition tx 0 WalApplied]
  ++ (OpStep tx <$> take 18 TransactionStep_ORDER) ++ [OpEnter tx CommitOwnershipAndReceipt].

Definition prepared : NativeTables := run empty_tables prepare_ops.
Definition applied : NativeTables := run prepared apply_ops.
Definition committed : NativeTables := run applied [OpCommit tx receipt [owner]].

Lemma prepared_reachable : native_reachable prepared.
Proof. apply run_steps. by vm_compute. Qed.
Lemma applied_reachable : native_reachable applied.
Proof. unfold native_reachable. transitivity prepared; [apply prepared_reachable|apply run_steps; by vm_compute]. Qed.
Lemma native_committed_reachable : native_reachable committed.
Proof. unfold native_reachable. transitivity applied; [apply applied_reachable|apply run_steps; by vm_compute]. Qed.

Definition prepared_row : option RawWalRecord := wal_of prepared tx !! 0.
Example prepared_has_row : bool_decide (is_Some prepared_row) = true.
Proof. vm_compute. reflexivity. Qed.
Example commits : (rt_status <$> nt_transactions committed !! tx) = Some "committed"%string.
Proof. vm_compute. reflexivity. Qed.
Example applies : (rw_state <$> wal_of applied tx !! 0) = Some "applied"%string.
Proof. vm_compute. reflexivity. Qed.

Definition row_of (t : NativeTables) : RawWalRecord :=
  default (wal_row [] (fresh_record write)) (wal_of t tx !! 0).
Definition tx_of (t : NativeTables) : RawNativeTransaction :=
  default {| rt_plan_id := []; rt_status := ""; rt_sandbox_cleanup_state := ""; rt_current_step := 0;
     rt_entered_step := 0; rt_created_ms := 0; rt_updated_ms := 0; rt_committed_ms := None;
     rt_identity := identity_columns identity |} (nt_transactions t !! tx).

Lemma default_lookup {A} (o : option A) d : bool_decide (is_Some o) = true -> o = Some (default d o).
Proof. by destruct o. Qed.

(** The transaction that is about to commit can be recovered. *)
Lemma tables_recoverable_witness :
  exists snapshots, recoverable_native_transactions applied = Ok snapshots.
Proof. exact (proj1 (native_tables_recoverable applied applied_reachable)). Defined.

(** Recording the written object moves the row forward. *)
Lemma wal_moves_forward_witness :
  let t' := run prepared [OpCandidate tx 0 (token Byte.x05)] in
  (exists row', wal_of t' tx !! 0 = Some row' /\ wal_forward (row_of prepared) row')
  \/ wal_of t' tx = ∅
     /\ exists raw raw', nt_transactions prepared !! tx = Some raw /\ nt_transactions t' !! tx = Some raw'
          /\ (rt_status raw = "committed"%string \/ rt_status raw = "restored"%string)
          /\ rt_current_step raw = 19 /\ rt_current_step raw' = 20.
Proof.
  refine (native_wal_moves_forward prepared _ tx 0 (row_of prepared) prepared_reachable _ _).
  - refine (step_quiet _ _ (step_candidate _ _ tx 0 (token Byte.x05) _)). apply (run_one prepared (OpCandidate tx 0 (token Byte.x05))). by vm_compute.
  - apply default_lookup. by vm_compute.
Defined.

(** The committed transaction stays committed through its cleanup. *)
Lemma outcome_final_witness :
  exists raw' plan, nt_transactions (run committed [OpCleanup tx]) !! tx = Some raw'
    /\ rt_status raw' = rt_status (tx_of committed)
    /\ rt_plan_id (tx_of committed) = uuid_hyphenated plan /\ rt_plan_id raw' = rt_plan_id (tx_of committed)
    /\ (rt_status (tx_of committed) = "committed"%string ->
        exists receipt, load_native_receipt committed plan = Ok (Some receipt)
          /\ load_native_receipt (run committed [OpCleanup tx]) plan = Ok (Some receipt))
    /\ (rt_status (tx_of committed) = "restored"%string ->
        forall sequence row, wal_of (run committed [OpCleanup tx]) tx !! sequence = Some row ->
          rw_state row = "restored"%string).
Proof.
  refine (native_outcome_final committed _ tx (tx_of committed) native_committed_reachable _ _ _).
  - apply run_steps. by vm_compute.
  - apply default_lookup. by vm_compute.
  - apply (bool_decide_eq_true_1 _). by vm_compute.
Defined.

Lemma commit_records_witness :
  load_native_receipt committed (rc_plan_id (nr_legacy receipt)) = Ok (Some receipt).
Proof.
  refine (proj1 (proj2 (native_commit_records_applied applied tx receipt [owner] committed
    applied_reachable _ _))).
  - by vm_compute.
  - apply (run_one applied (OpCommit tx receipt [owner])). by vm_compute.
Defined.

Definition record_of (t : NativeTables) : NativeWalRecord :=
  match load_native_wal_record t tx 0 with Ok (Some r) => r | _ => fresh_record write end.
End NativeWitness.
