(* ===== verification/NativePorts.v ===== *)
(** * Native transactions: the interfaces of the engine (core/native_transaction/engine.rs, cli.rs)

    The parts a transaction is run against: an adapter, a restricted executor, the file
    system, the journal, a command-line executor and a hook.  Each is a type with a class of
    operations, which act on its state and may fail; a file-system operation that is handed
    callbacks is the tree of the calls it makes.  [act] is the state and error monad the
    operations run in, and [triple] its program logic. *)

From S2P Require Import Prelude Ordering Text Protocol Minicbor CanonicalCbor Domain.
From S2P Require Import SyncPayload Crypto Operation Causal Merge Transport StateSummary.
From S2P Require Import Admission NativeModel.

#[local] Open Scope N_scope.

(** ** Actions *)

Definition act (S E T : Type) : Type := S -> S * result E T.

Definition ret {S E T} (v : T) : act S E T := fun s => (s, Ok v).
Definition raise {S E T} (e : E) : act S E T := fun s => (s, Err e).
Definition bind {S E T U} (m : act S E T) (k : T -> act S E U) : act S E U :=
  fun s => match m s with
           | (s', Ok v) => k v s'
           | (s', Err e) => (s', Err e)
           end.
Definition get {S E T} (f : S -> T) : act S E T := fun s => (s, Ok (f s)).
Definition update {S E} (f : S -> S) : act S E unit := fun s => (f s, Ok tt).
Definition of_result {S E T} (r : result E T) : act S E T := fun s => (s, r).

(** [match m { Ok(v) => .., Err(e) => .. }] *)
Definition catch {S E E' T U} (m : act S E T) (ok : T -> act S E' U) (err : E -> act S E' U)
    : act S E' U :=
  fun s => match m s with
           | (s', Ok v) => ok v s'
           | (s', Err e) => err e s'
           end.

Declare Scope act_scope.
Delimit Scope act_scope with act.
Notation "'let!' x ':=' m 'in' k" := (bind m (fun x => k))
  (at level 10, x pattern, m at level 100, k at level 200) : act_scope.
Notation "m ;; k" := (bind m (fun _ => k)) (at level 100, right associativity) : act_scope.
#[local] Open Scope act_scope.

Fixpoint fold_act {S E A B} (f : B -> A -> act S E B) (b : B) (l : list A) : act S E B :=
  match l with
  | [] => ret b
  | x :: l' => let! b' := f b x in fold_act f b' l'
  end.

Definition each {S E A} (f : A -> act S E unit) (l : list A) : act S E unit :=
  fold_act (fun _ => f) tt l.

(** An action of a part, as an action of the whole. *)
Definition zoom {S S' E T} (part : S -> S') (put : S -> S' -> S) (m : act S' E T) : act S E T :=
  fun s => let '(s', r) := m (part s) in (put s s', r).

Lemma bind_inv {S E T U} (m : act S E T) (k : T -> act S E U) s s' v :
  bind m k s = (s', Ok v) -> exists s1 v1, m s = (s1, Ok v1) /\ k v1 s1 = (s', Ok v).
Proof. unfold bind. destruct (m s) as [s1 [v1|e]]; [eauto|done]. Qed.

(** ** Program logic *)

Definition triple {S E T} (P : S -> Prop) (m : act S E T) (Q : T -> S -> Prop)
    (R : E -> S -> Prop) : Prop :=
  forall s, P s -> match (m s).2 with Ok v => Q v (m s).1 | Err e => R e (m s).1 end.

Section triples.
Context {S E : Type}.
Implicit Types (P : S -> Prop) (R : E -> S -> Prop).

Lemma triple_ret {T} P (v : T) (Q : T -> S -> Prop) R :
  (forall s, P s -> Q v s) -> triple P (ret v) Q R.
Proof. intros HQ s Hs. by apply HQ. Qed.

Lemma triple_raise {T} P (e : E) (Q : T -> S -> Prop) R :
  (forall s, P s -> R e s) -> triple P (raise e) Q R.
Proof. intros HR s Hs. by apply HR. Qed.

Lemma triple_pure {T} P (phi : Prop) (m : act S E T) (Q : T -> S -> Prop) R :
  (phi -> triple P m Q R) -> triple (fun s => P s /\ phi) m Q R.
Proof. intros Hm s [Hs Hphi]. by apply Hm. Qed.

Lemma triple_get {T} P (f : S -> T) (Q : T -> S -> Prop) R :
  (forall s, P s -> Q (f s) s) -> triple P (get f) Q R.
Proof. intros HQ s Hs. by apply HQ. Qed.

Lemma triple_update P (f : S -> S) (Q : unit -> S -> Prop) R :
  (forall s, P s -> Q tt (f s)) -> triple P (update f) Q R.
Proof. intros HQ s Hs. by apply HQ. Qed.

Lemma triple_bind {T U} P (m : act S E T) (k : T -> act S E U) (Q : T -> S -> Prop)
    (Q' : U -> S -> Prop) R :
  triple P m Q R -> (forall v, triple (Q v) (k v) Q' R) -> triple P (bind m k) Q' R.
Proof.
  intros Hm Hk s Hs. specialize (Hm s Hs). unfold bind. destruct (m s) as [s' [v|e]]; [|done].
  by apply Hk.
Qed.

Lemma triple_catch {E' T U} P (m : act S E' T) (ok : T -> act S E U) (err : E' -> act S E U)
    (Q : T -> S -> Prop) (R' : E' -> S -> Prop) (Q' : U -> S -> Prop) R :
  triple P m Q R' -> (forall v, triple (Q v) (ok v) Q' R) ->
  (forall e, triple (R' e) (err e) Q' R) -> triple P (catch m ok err) Q' R.
Proof.
  intros Hm Hk He s Hs. specialize (Hm s Hs). unfold catch.
  destruct (m s) as [s' [v|e]]; [by apply Hk|by apply He].
Qed.

Lemma triple_weaken {T} P P' (m : act S E T) (Q Q' : T -> S -> Prop) R R' :
  triple P m Q R -> (forall s, P' s -> P s) -> (forall v s, Q v s -> Q' v s) ->
  (forall e s, R e s -> R' e s) -> triple P' m Q' R'.
Proof.
  intros Hm HP HQ HR s Hs. specialize (Hm s (HP s Hs)). destruct ((m s).2); auto.
Qed.

(** [I done b]: what holds when [done] has been handled, with [b] accumulated. *)
Lemma triple_fold {A B} (I : list A -> B -> S -> Prop) (f : B -> A -> act S E B) R l :
  (forall done b x rest, l = done ++ x :: rest ->
     triple (I done b) (f b x) (fun b' => I (done ++ [x]) b') R) ->
  forall b, triple (I [] b) (fold_act f b l) (fun b' => I l b') R.
Proof.
  intros Hf. enough (forall rest done b, l = done ++ rest ->
    triple (I done b) (fold_act f b rest) (fun b' => I l b') R) as Hg by (intros b; by apply Hg).
  induction rest as [|x rest IH]; intros done b Hl; simpl.
  - rewrite app_nil_r in Hl. subst done. by apply triple_ret.
  - eapply triple_bind; [by eapply Hf|]. intros b'. apply IH. by rewrite <- app_assoc.
Qed.

Lemma triple_each {A} P (f : A -> act S E unit) l R :
  (forall x, x ∈ l -> triple P (f x) (fun _ => P) R) -> triple P (each f l) (fun _ => P) R.
Proof.
  intros Hf. apply (triple_fold (fun _ _ => P)). intros done b x rest ->. apply Hf. set_solver.
Qed.

Lemma triple_zoom {S' T} (part : S -> S') (put : S -> S' -> S) P (m : act S' E T)
    (Q : T -> S -> Prop) R :
  (forall s, P s -> let '(s', r) := m (part s) in
     match r with Ok v => Q v (put s s') | Err e => R e (put s s') end) ->
  triple P (zoom part put m) Q R.
Proof. intros Hm s Hs. specialize (Hm s Hs). unfold zoom. by destruct (m (part s)) as [s' [v|e]]. Qed.
End triples.

(** ** Errors *)

(** [BoundaryError] is a message; the constructors are the ways the source composes it:
    a literal, the text of an error of the vault or of a serialiser, one error after another
    ([remember_boundary_error]), and the two texts of a start that could not be undone. *)
Inductive BoundaryError :=
| Message (message : string)
| FromVault (error : VaultError)
| FromSerde
| AndThen (existing error : BoundaryError)
| ReleaseFailed (primary release : BoundaryError)
| StartCompensationFailed (primary compensation : BoundaryError).

Definition remember_boundary_error (slot : option BoundaryError) (error : BoundaryError)
    : option BoundaryError :=
  Some (match slot with
        | Some existing => AndThen existing error
        | None => error
        end).

Inductive ApprovalError := InvalidPlan (message : string) | DuplicateMember (member : rstr)
| ApprovalSerialization (message : string).

Inductive TransactionError :=
| Approval (error : ApprovalError)
| Boundary (error : BoundaryError)
| TxExpired
| ApprovalMismatch
| UnsupportedApprovalVersion (version : N)
| StagedOutputMismatch
| BeforeImageMismatch
| MutationOutcomeMismatch
| CliMutationOutcomeMismatch
| Compensation (primary : TransactionError) (compensation : BoundaryError).

(** ** Data *)

Record RestrictedRun := { rn_staged_output_hash : Sha256Digest; rn_scanner_result_hash : Sha256Digest }.
Record FrozenOutput := { fo_staged_output_hash : Sha256Digest; fo_scanner_result_hash : Sha256Digest }.

Record BeforeImage := {
  im_id : rstr;
  im_target : WireNativeValue;
  im_object_token : NativeObjectToken;
  im_fingerprint : Fingerprint;
  im_encrypted_state : bytes;
}.

Record MutationOutcome := { mo_wrote : bool; mo_resulting_fingerprint : Fingerprint }.
Record CompensationOutcome := { conflict_target_sequences : list N }.
Record CliMutationOutcome := {
  cl_resulting_fingerprint : option Sha256Digest;
  cl_command_error : option BoundaryError;
}.
Record CliRestoreOutcome := {
  cl_restored : bool;
  cl_restored_fingerprint : option Sha256Digest;
}.

(** The parts of a plan the engine hands on without looking at them. *)
Class PlanParts := {
  StagedInputs : Type;
  Sidecars : Type;
  InstalledRuntime : Type;
  PlanRest : Type;
  InstalledRuntime_eq_dec :: EqDecision InstalledRuntime;
}.

(** [NativeTransactionPlan]; the first three fields are of [plan.setup], and [pn_rest] holds
    the fields that only the approval binds. *)
Record NativeTransactionPlan `{PlanParts} := {
  pn_plan_id : PlanId;
  pn_expires_at : N;
  pn_batch_hash : Sha256Digest;
  pn_approval_version : N;
  pn_sidecars : Sidecars;
  pn_staged_inputs : StagedInputs;
  pn_expected_semantic_output_hash : Sha256Digest;
  pn_scanner_result_hash : Sha256Digest;
  pn_mutations : list ApprovedMutation;
  pn_cli_mutations : list ApprovedCliMutation;
  pn_installed_runtime : option InstalledRuntime;
  pn_ownership_changes : list OwnershipChange;
  pn_rest : PlanRest;
}.

(** approval.rs *)
Class ApprovalHash `{PlanParts} := {
  approval_hash_v1 : NativeTransactionPlan -> result ApprovalError Sha256Digest;
  approval_hash_v2 : NativeTransactionPlan -> result ApprovalError Sha256Digest;
}.

(** ** Parts *)

Abbreviation port A T := (act A BoundaryError T).

Class NativeAdapter `{PlanParts} (A : Type) := {
  installed_runtime : A -> option InstalledRuntime;
  reprobe_live_state : NativeTransactionPlan -> port A unit;
  compare_approved_digests : NativeTransactionPlan -> port A unit;
  verify_live_state_reservation : NativeTransactionPlan -> port A unit;
  validate_staged_output : NativeTransactionPlan -> RestrictedRun -> port A FrozenOutput;
  validate_effective : NativeTransactionPlan -> ApplyReceipt -> port A unit;
  release_live_state_reservation : port A unit;
}.

Class RestrictedExecutor `{PlanParts} (E : Type) := {
  copy_allowlisted_inputs : StagedInputs -> port E unit;
  create_fake_roots : port E unit;
  build_restricted_environment : port E unit;
  run_restricted_tools : Sidecars -> port E RestrictedRun;
  reject_unsafe_topology : port E unit;
}.

(** An operation that calls back: it asks [Q] and goes on with the answer, or finishes. *)
Inductive session (F Q R : Type) :=
| Finish (f : F) (r : result BoundaryError R)
| Ask (q : Q) (k : result BoundaryError unit -> session F Q R).
Arguments Finish {F Q R} f r.
Arguments Ask {F Q R} q k.

(** The callbacks of a restore. *)
Inductive RestoreCallback :=
| PersistRestoredCandidate (index : N) (candidate_token : NativeObjectToken)
| CheckpointAppliedAbsence (index later_index : N) (expected_old_token new_token : NativeObjectToken)
| RebindAppliedAbsence (index later_index : N) (expected_old_token new_token : NativeObjectToken).

Class NativeFileSystem (F : Type) := {
  create_before_images : list ApprovedMutation -> port F (list BeforeImage);
  record_native_metadata : list BeforeImage -> port F unit;
  compare_and_swap_targets : list ApprovedMutation -> port F unit;
  apply_mutation : bytes -> ApprovedMutation -> F -> session F NativeObjectToken MutationOutcome;
  mutation_provenance : ApprovedMutation -> F -> option NativeObjectToken;
  restore_matching_applied_targets : bytes -> F -> session F RestoreCallback CompensationOutcome;
  finish_committed_targets : bytes -> port F unit;
}.

Class NativeJournal `{PlanParts} (J : Type) := {
  acquire_lock_and_begin : NativeTransactionPlan -> port J unit;
  enter_step : TransactionStep -> port J unit;
  complete_step : TransactionStep -> port J unit;
  put_before_images : list BeforeImage -> port J unit;
  prepare_mutation : N -> ApprovedMutation -> port J unit;
  mark_mutation_applied : N -> ApprovedMutation -> MutationOutcome -> option NativeObjectToken ->
    port J unit;
  record_mutation_candidate : N -> ApprovedMutation -> NativeObjectToken -> port J unit;
  mark_mutation_conflict : N -> NativeObjectToken -> port J unit;
  mark_mutation_applied_for_recovery : N -> ApprovedMutation -> NativeObjectToken -> port J unit;
  record_mutation_restored_candidate : N -> NativeObjectToken -> port J unit;
  checkpoint_mutation_applied_absence : N -> N -> NativeObjectToken -> NativeObjectToken ->
    port J unit;
  rebind_mutation_applied_absence : N -> N -> NativeObjectToken -> NativeObjectToken -> port J unit;
  prepare_cli_mutation : N -> ApprovedCliMutation -> port J unit;
  mark_cli_mutation_applied : N -> ApprovedCliMutation -> port J unit;
  mark_cli_mutation_no_write : N -> ApprovedCliMutation -> port J unit;
  prepare_cli_restore : N -> ApprovedCliMutation -> port J unit;
  mark_cli_mutation_restored : N -> ApprovedCliMutation -> port J unit;
  mark_cli_mutation_conflict : N -> ApprovedCliMutation -> port J unit;
  prepare_compensation : port J unit;
  commit_native_transaction : NativeTransactionPlan -> NativeApplyReceipt -> port J unit;
  finish_committed : port J unit;
  finish_compensated : list N -> port J unit;
}.

Class FaultHook (H : Type) := { after_step : TransactionStep -> port H unit }.

Class NativeCliExecutor (C : Type) := {
  probe_cli_mutation : ApprovedCliMutation -> port C (option Sha256Digest);
  compare_cli_targets : list ApprovedCliMutation -> port C unit;
  apply_cli_mutation : ApprovedCliMutation -> port C CliMutationOutcome;
  restore_cli_mutation_if_matches : ApprovedCliMutation -> port C CliRestoreOutcome;
  finish_committed_cli_mutations : list ApprovedCliMutation -> port C unit;
}.

(** Runs a session of [F] whose questions are answered by actions of [J]. *)
Fixpoint run_session {F Q R J} (answer : Q -> port J unit) (m : session F Q R) (j : J)
    : F * J * result BoundaryError R :=
  match m with
  | Finish f r => (f, j, r)
  | Ask q k => let '(j', a) := answer q j in run_session answer (k a) j'
  end.

(** What the answers keep, a session keeps. *)
Lemma run_session_keeps {F Q R J} (P : J -> Prop) (answer : Q -> port J unit) (m : session F Q R) j :
  (forall q j, P j -> P (answer q j).1) -> P j -> P (run_session answer m j).1.2.
Proof.
  intros Ha. revert j. induction m as [f r|q k IH]; intros j Hj; simpl; [done|].
  specialize (Ha q j Hj). destruct (answer q j) as [j' a]. by apply IH.
Qed.
