(* ===== verification/NativeJournal.v ===== *)
(** * Native transactions: the journal in the vault (core/native_transaction/journal.rs)

    [VaultNativeJournal]: the journal a transaction is run against.  Every operation but the
    first requires the profile lock; what it writes, it writes with one operation of the vault
    or a sequence of them.  The lock itself is a file lock of the operating system, taken and
    released through [ProfileLock]. *)

From S2P Require Import Prelude Ordering Text Protocol Minicbor CanonicalCbor Domain.
From S2P Require Import SyncPayload Crypto Operation Causal Merge Transport StateSummary.
From S2P Require Import Admission NativeModel NativeTables NativeWal NativeLedger NativePorts.

#[local] Open Scope N_scope.
#[local] Open Scope act_scope.

(** [ProfileTransactionLock::acquire] and [release], on the state [L] of the lock file. *)
Class ProfileLock (L Lock : Type) := {
  lock_acquire : port L Lock;
  lock_release : Lock -> port L unit;
}.

Record VaultNativeJournal (L Lock : Type) := {
  jn_tables : NativeTables;
  jn_os : L;
  jn_profile_lock : option Lock;
  jn_transaction_id : TransactionId;
  jn_identity : NativeSandboxIdentity;
  jn_plan_payload : bytes;
  jn_created_ms : N;
  jn_before_image_policy : BeforeImagePolicy;
  jn_plan_id : option PlanId;
  jn_before_images : list BeforeImage;
  jn_cli_no_write_sequences : list N;
}.
Arguments jn_tables {L Lock}.
Arguments jn_os {L Lock}.
Arguments jn_profile_lock {L Lock}.
Arguments jn_transaction_id {L Lock}.
Arguments jn_identity {L Lock}.
Arguments jn_plan_payload {L Lock}.
Arguments jn_created_ms {L Lock}.
Arguments jn_before_image_policy {L Lock}.
Arguments jn_plan_id {L Lock}.
Arguments jn_before_images {L Lock}.
Arguments jn_cli_no_write_sequences {L Lock}.
Arguments Build_VaultNativeJournal {L Lock}.

Section journal.
Context `{UuidCrate} `{NativeJson} `{Primitives} `{PlanParts} {L Lock : Type} `{!ProfileLock L Lock}.
Abbreviation J := (VaultNativeJournal L Lock).

Definition VaultNativeJournal_new (vault : NativeTables) (os : L) (transaction_id : TransactionId)
    (identity : NativeSandboxIdentity) (plan_payload : bytes) (created_ms : N)
    (before_image_policy : BeforeImagePolicy) : J :=
  Build_VaultNativeJournal vault os None transaction_id identity plan_payload created_ms
    before_image_policy None [] [].

Definition put_tables (j : J) (t : NativeTables) : J :=
  Build_VaultNativeJournal t (jn_os j) (jn_profile_lock j) (jn_transaction_id j) (jn_identity j)
    (jn_plan_payload j) (jn_created_ms j) (jn_before_image_policy j) (jn_plan_id j)
    (jn_before_images j) (jn_cli_no_write_sequences j).
Definition put_lock (j : J) (os : L) (lock : option Lock) : J :=
  Build_VaultNativeJournal (jn_tables j) os lock (jn_transaction_id j) (jn_identity j)
    (jn_plan_payload j) (jn_created_ms j) (jn_before_image_policy j) (jn_plan_id j)
    (jn_before_images j) (jn_cli_no_write_sequences j).
Definition put_memory (j : J) (plan_id : option PlanId) (images : list BeforeImage)
    (no_write : list N) : J :=
  Build_VaultNativeJournal (jn_tables j) (jn_os j) (jn_profile_lock j) (jn_transaction_id j)
    (jn_identity j) (jn_plan_payload j) (jn_created_ms j) (jn_before_image_policy j) plan_id
    images no_write.

(** [Self::boundary] of an operation that reads, and of one that writes. *)
Definition read {T} (f : NativeTables -> TransactionId -> result VaultError T) : port J T :=
  fun j => (j, map_err FromVault (f (jn_tables j) (jn_transaction_id j))).
Definition write (f : NativeTables -> TransactionId -> result VaultError NativeTables) : port J unit :=
  fun j => match f (jn_tables j) (jn_transaction_id j) with
           | Ok t => (put_tables j t, Ok tt)
           | Err e => (j, Err (FromVault e))
           end.

Definition require_profile_lock : port J unit :=
  fun j => (j, match jn_profile_lock j with
               | Some _ => Ok tt
               | None => Err (Message "native transaction profile lock is not held")
               end).

(** The lock is taken out of the journal before it is released. *)
Definition release_profile_lock : port J unit :=
  fun j => match jn_profile_lock j with
           | Some lock => let '(os, r) := lock_release lock (jn_os j) in (put_lock j os None, r)
           | None => (j, Err (Message "native transaction profile lock is not held"))
           end.

Definition take_profile_lock : port J unit :=
  fun j => let '(os, r) := lock_acquire (jn_os j) in
           match r with
           | Ok lock => (put_lock j os (Some lock), Ok tt)
           | Err e => (put_lock j os (jn_profile_lock j), Err e)
           end.

(** [u32::try_from(index)] *)
Definition sequence_of (index : N) (message : string) : port J N :=
  of_result (if index <=? u32_max then Ok index else Err (Message message)).
Abbreviation target_sequence_of index := (sequence_of index "native mutation index exceeds u32").
Abbreviation cli_sequence_of index := (sequence_of index "native CLI mutation index exceeds u32").

(** ** Settling *)

Definition settle_record (conflicts : list N) (conflict : bool) (record : NativeWalRecord)
    : port J bool :=
  let sequence := wr_target_sequence record in
  let move next := write (fun t id => transition_native_wal t id sequence next) in
  if bool_decide (sequence ∈ conflicts) then
    (if bool_decide (wr_state record = WalConflict) then ret tt else move WalConflict);;
    ret true
  else
    match wr_state record with
    | WalPrepared => move WalRestored;; ret conflict
    | WalApplied => move WalRestorePrepared;; move WalRestored;; ret conflict
    | WalRestorePrepared => move WalRestored;; ret conflict
    | WalRestored => ret conflict
    | WalConflict => ret true
    end.

Definition settle_cli_record (conflict : bool) (record : NativeCliWalRecord) : port J bool :=
  let sequence := cw_sequence (cr_write record) in
  let! no_write := get jn_cli_no_write_sequences in
  match cr_state record with
  | CliPrepared =>
      if bool_decide (sequence ∈ no_write) then ret conflict else
      write (fun t id => transition_native_cli_wal t id sequence CliConflict);; ret true
  | CliApplied | CliRestorePrepared =>
      write (fun t id => transition_native_cli_wal t id sequence CliConflict);; ret true
  | CliRestored => ret conflict
  | CliConflict => ret true
  end.

Definition vault_finish_compensated (conflict_target_sequences : list N) : port J unit :=
  require_profile_lock;;
  write begin_native_recovery;;
  let! records := read native_wal in
  let! conflict := fold_act (settle_record conflict_target_sequences) false records in
  let! cli_records := read native_cli_wal in
  let! cli_conflict := fold_act settle_cli_record false cli_records in
  let! no_write := get jn_cli_no_write_sequences in
  write (fun t id => finish_native_recovery_with_cli_no_write t id (conflict || cli_conflict) no_write);;
  write finish_native_cleanup;;
  release_profile_lock;;
  if (cli_conflict : bool)
  then raise (Message "native CLI compensation encountered live divergence") else ret tt.

(** ** The operations *)

Definition vault_acquire_lock_and_begin (plan : NativeTransactionPlan) : port J unit :=
  let! held := get jn_profile_lock in
  match held with
  | Some _ => raise (Message "native transaction profile lock is already held by this journal")
  | None =>
      take_profile_lock;;
      let! j := get (fun j => j) in
      catch (write (fun t id => begin_native_transaction t id {|
               pw_plan_id := pn_plan_id plan; pw_approval_hash := pn_batch_hash plan;
               pw_payload := jn_plan_payload j; pw_created_ms := jn_created_ms j;
               pw_expires_ms := pn_expires_at plan |} (jn_identity j)))
        (fun _ =>
           catch (write (fun t id => enter_native_step t id AcquireLock))
             (fun _ => update (fun j => put_memory j (Some (pn_plan_id plan)) (jn_before_images j)
                                          (jn_cli_no_write_sequences j)))
             (fun primary =>
                catch (vault_finish_compensated []) (fun _ => raise primary)
                  (fun compensation => raise (StartCompensationFailed primary compensation))))
        (fun primary =>
           catch release_profile_lock (fun _ => raise primary)
             (fun release => raise (ReleaseFailed primary release)))
  end.

Definition vault_enter_step (step : TransactionStep) : port J unit :=
  let! plan_id := get jn_plan_id in
  if bool_decide (step = AcquireLock) && bool_decide (plan_id = None) then ret tt else
  require_profile_lock;; write (fun t id => enter_native_step t id step).

Definition vault_complete_step (step : TransactionStep) : port J unit :=
  require_profile_lock;;
  if bool_decide (step = RestoreMatchingAppliedTargets) then
    let! snapshot := read load_native_transaction in
    match snapshot with
    | Some snapshot =>
        if ts_entered_step snapshot =? step_number step then ret tt
        else raise (Message "native cleanup step was not entered")
    | None => raise (Message "native transaction does not exist")
    end
  else write (fun t id => complete_native_step t id step).

Definition vault_put_before_images (images : list BeforeImage) : port J unit :=
  require_profile_lock;;
  let! j := get (fun j => j) in
  match jn_plan_id j with
  | None => raise (Message "native transaction has not begun")
  | Some plan_id =>
      write (fun t _ => put_before_images_batch t
        ((fun image => {| iw_id := im_id image; iw_plan_id := Some plan_id;
                          iw_payload := im_encrypted_state image;
                          iw_created_ms := jn_created_ms j |}) <$> images)
        (jn_before_image_policy j));;
      update (fun j => put_memory j (jn_plan_id j) images (jn_cli_no_write_sequences j))
  end.

Definition vault_prepare_mutation (index : N) (mutation : ApprovedMutation) : port J unit :=
  require_profile_lock;;
  let! images := get jn_before_images in
  match images !! N.to_nat index with
  | None => raise (Message "native before-image is missing")
  | Some image =>
      if negb (bool_decide (im_target image = am_target mutation))
         || negb (bool_decide (im_fingerprint image = am_expected mutation))
      then raise (Message "native before-image does not match its mutation") else
      let! target_sequence := target_sequence_of index in
      write (fun t id => prepare_native_wal t id {|
        ww_target_sequence := target_sequence; ww_target := am_target mutation;
        ww_object_token := im_object_token image; ww_before_image_id := im_id image;
        ww_operation_kind := am_kind mutation; ww_expected := am_expected mutation;
        ww_intended_applied := am_intended mutation;
        ww_intended_restored := im_fingerprint image |})
  end.

Definition vault_mark_mutation_applied (index : N) (mutation : ApprovedMutation)
    (outcome : MutationOutcome) (applied_token : option NativeObjectToken) : port J unit :=
  require_profile_lock;;
  if negb (bool_decide (mo_resulting_fingerprint outcome = am_intended mutation))
     || negb (Bool.eqb (mo_wrote outcome)
                (negb (bool_decide (am_expected mutation = am_intended mutation))))
  then raise (Message "native mutation outcome does not match its WAL") else
  let! target_sequence := target_sequence_of index in
  if mo_wrote outcome then
    match applied_token with
    | None => raise (Message "written native mutation provenance is missing")
    | Some token => write (fun t id =>
        transition_native_wal_with_applied_object_token t id target_sequence WalApplied token)
    end
  else if bool_decide (is_Some applied_token)
  then raise (Message "unchanged native mutation unexpectedly has installed provenance")
  else write (fun t id => transition_native_wal t id target_sequence WalApplied).

Definition record_candidate (message : string) (index : N) (mutation : ApprovedMutation)
    (token : NativeObjectToken) : port J unit :=
  require_profile_lock;;
  if bool_decide (am_expected mutation = am_intended mutation) then raise (Message message) else
  let! target_sequence := target_sequence_of index in
  write (fun t id => record_native_wal_candidate t id target_sequence token).
Definition vault_record_mutation_candidate :=
  record_candidate "unchanged native mutation cannot have an install candidate".
Definition vault_mark_mutation_applied_for_recovery :=
  record_candidate "unchanged native mutation cannot require applied recovery".

Definition vault_mark_mutation_conflict (index : N) (applied_token : NativeObjectToken) : port J unit :=
  require_profile_lock;;
  let! target_sequence := target_sequence_of index in
  write (fun t id =>
    transition_native_wal_with_applied_object_token t id target_sequence WalConflict applied_token).

Definition vault_record_mutation_restored_candidate (index : N) (candidate_token : NativeObjectToken)
    : port J unit :=
  require_profile_lock;;
  let! target_sequence := target_sequence_of index in
  write (fun t id => record_native_wal_restored_candidate t id target_sequence candidate_token).

Definition vault_checkpoint_mutation_applied_absence (index later_index : N)
    (expected_old_token new_token : NativeObjectToken) : port J unit :=
  require_profile_lock;;
  let! target_sequence := target_sequence_of index in
  let! later_sequence := target_sequence_of later_index in
  write (fun t id => checkpoint_native_wal_absence_rebind t id target_sequence later_sequence
                       expected_old_token new_token).

Definition vault_rebind_mutation_applied_absence (index later_index : N)
    (expected_old_token new_token : NativeObjectToken) : port J unit :=
  require_profile_lock;;
  let! target_sequence := target_sequence_of index in
  let! later_sequence := target_sequence_of later_index in
  write (fun t id => rebind_native_wal_applied_absence t id target_sequence later_sequence
                       expected_old_token new_token).

Definition vault_prepare_cli_mutation (index : N) (mutation : ApprovedCliMutation) : port J unit :=
  require_profile_lock;;
  match (match cm_expected mutation with Some d => Some d | None => cm_intended mutation end) with
  | None => raise (Message "native CLI mutation has no declaration")
  | Some target =>
      let! sequence := cli_sequence_of index in
      let! forward := of_result (ok_or (to_vec (SerdeJson := json_cli_operations) (cm_forward mutation)) FromSerde) in
      let! rollback := of_result (ok_or (to_vec (SerdeJson := json_cli_operations) (cm_rollback mutation)) FromSerde) in
      write (fun t id => prepare_native_cli_wal t id {|
        cw_sequence := sequence; cw_stable_id := cm_stable_id mutation;
        cw_harness := cd_harness target; cw_server_name := cd_server_name target;
        cw_expected_declaration := (fun d => as_bytes (cd_canonical_body d)) <$> cm_expected mutation;
        cw_expected_fingerprint := cd_fingerprint <$> cm_expected mutation;
        cw_intended_declaration := (fun d => as_bytes (cd_canonical_body d)) <$> cm_intended mutation;
        cw_intended_fingerprint := cd_fingerprint <$> cm_intended mutation;
        cw_forward_operations := forward; cw_rollback_operations := rollback |})
  end.

(** The moves of a command-line row. *)
Definition move_cli (next : NativeCliWalState) (index : N) (mutation : ApprovedCliMutation)
    : port J unit :=
  require_profile_lock;;
  let! sequence := cli_sequence_of index in
  write (fun t id => transition_native_cli_wal t id sequence next).
Definition vault_mark_cli_mutation_applied := move_cli CliApplied.
Definition vault_prepare_cli_restore := move_cli CliRestorePrepared.
Definition vault_mark_cli_mutation_restored := move_cli CliRestored.
Definition vault_mark_cli_mutation_conflict := move_cli CliConflict.

Definition vault_mark_cli_mutation_no_write (index : N) (mutation : ApprovedCliMutation) : port J unit :=
  require_profile_lock;;
  let! sequence := cli_sequence_of index in
  vault_prepare_cli_mutation index mutation;;
  let! records := read native_cli_wal in
  match find (fun record => cw_sequence (cr_write record) =? sequence) records with
  | None => raise (Message "native CLI no-write WAL row is missing")
  | Some record =>
      if negb (bool_decide (cr_state record = CliPrepared))
      then raise (Message "native CLI no-write WAL row is not prepared") else
      update (fun j =>
        if bool_decide (sequence ∈ jn_cli_no_write_sequences j) then j else
        put_memory j (jn_plan_id j) (jn_before_images j) (jn_cli_no_write_sequences j ++ [sequence]))
  end.

Definition vault_prepare_compensation : port J unit :=
  require_profile_lock;;
  write begin_native_recovery;;
  let! records := read native_wal in
  each (fun record =>
    if bool_decide (wr_state record = WalApplied)
       || (bool_decide (wr_state record = WalPrepared)
           && bool_decide (is_Some (wr_applied_object_token record)))
    then write (fun t id => transition_native_wal t id (wr_target_sequence record) WalRestorePrepared)
    else ret tt) records.

Definition vault_commit_native_transaction (plan : NativeTransactionPlan)
    (receipt : NativeApplyReceipt) : port J unit :=
  require_profile_lock;;
  write (fun t id => commit_native_success t id receipt (pn_ownership_changes plan)).

Definition vault_finish_committed : port J unit :=
  require_profile_lock;; write finish_native_cleanup;; release_profile_lock.

#[global] Instance vault_native_journal : NativeJournal J := {|
  acquire_lock_and_begin := vault_acquire_lock_and_begin;
  enter_step := vault_enter_step;
  complete_step := vault_complete_step;
  put_before_images := vault_put_before_images;
  prepare_mutation := vault_prepare_mutation;
  mark_mutation_applied := vault_mark_mutation_applied;
  record_mutation_candidate := vault_record_mutation_candidate;
  mark_mutation_conflict := vault_mark_mutation_conflict;
  mark_mutation_applied_for_recovery := vault_mark_mutation_applied_for_recovery;
  record_mutation_restored_candidate := vault_record_mutation_restored_candidate;
  checkpoint_mutation_applied_absence := vault_checkpoint_mutation_applied_absence;
  rebind_mutation_applied_absence := vault_rebind_mutation_applied_absence;
  prepare_cli_mutation := vault_prepare_cli_mutation;
  mark_cli_mutation_applied := vault_mark_cli_mutation_applied;
  mark_cli_mutation_no_write := vault_mark_cli_mutation_no_write;
  prepare_cli_restore := vault_prepare_cli_restore;
  mark_cli_mutation_restored := vault_mark_cli_mutation_restored;
  mark_cli_mutation_conflict := vault_mark_cli_mutation_conflict;
  prepare_compensation := vault_prepare_compensation;
  commit_native_transaction := vault_commit_native_transaction;
  finish_committed := vault_finish_committed;
  finish_compensated := vault_finish_compensated |}.
End journal.
