(* ===== verification/NativeEngine.v ===== *)
(** * Native transactions: the engine (core/native_transaction/engine.rs)

    [NativeTransactionEngine]: the twenty steps of [apply], each entered in the journal before
    and completed after what it does, and [compensate], which every failure after the start
    goes through. *)

From S2P Require Import Prelude Ordering Text Protocol Minicbor CanonicalCbor Domain.
From S2P Require Import SyncPayload Crypto Operation Causal Merge Transport StateSummary.
From S2P Require Import Admission NativeModel NativePorts.

#[local] Open Scope N_scope.
#[local] Open Scope act_scope.

Record NativeTransactionEngine (A E F J H C : Type) := {
  en_adapter : A;
  en_executor : E;
  en_filesystem : F;
  en_journal : J;
  en_hook : H;
  en_cli_executor : option C;
  en_cli_applied : list N;
  en_active_cli_mutations : list ApprovedCliMutation;
}.
Arguments en_adapter {A E F J H C}.
Arguments en_executor {A E F J H C}.
Arguments en_filesystem {A E F J H C}.
Arguments en_journal {A E F J H C}.
Arguments en_hook {A E F J H C}.
Arguments en_cli_executor {A E F J H C}.
Arguments en_cli_applied {A E F J H C}.
Arguments en_active_cli_mutations {A E F J H C}.
Arguments Build_NativeTransactionEngine {A E F J H C}.

(** cli.rs: the compensation worklist, in reverse application order. *)
Definition applied_cli_mutations_in_reverse (mutations : list ApprovedCliMutation) (applied : list N)
    : result BoundaryError (list (N * ApprovedCliMutation)) :=
  try_map (fun index =>
    match mutations !! N.to_nat index with
    | Some mutation => Ok (index, mutation)
    | None => Err (Message "approval-bound CLI mutation is unavailable for compensation")
    end) (reverse applied).

(** The elements of a slice with their positions. *)
Definition enumerate {X} (l : list X) : list (N * X) := imap (fun i x => (N.of_nat i, x)) l.

Section engine.
Context {Parts : PlanParts} `{!ApprovalHash} {A E F J K C : Type}
  `{!NativeAdapter A} `{!RestrictedExecutor E} `{!NativeFileSystem F} `{!NativeJournal J}
  `{!FaultHook K} `{!NativeCliExecutor C}.
Abbreviation Engine := (NativeTransactionEngine A E F J K C).

Definition NativeTransactionEngine_new (adapter : A) (executor : E) (filesystem : F) (journal : J)
    (hook : K) (cli_executor : option C) : Engine :=
  Build_NativeTransactionEngine adapter executor filesystem journal hook cli_executor [] [].

(** ** Access to the parts *)

Definition on_adapter {X T} (m : act A X T) : act Engine X T :=
  zoom en_adapter (fun s a => Build_NativeTransactionEngine a (en_executor s) (en_filesystem s)
    (en_journal s) (en_hook s) (en_cli_executor s) (en_cli_applied s) (en_active_cli_mutations s)) m.
Definition on_executor {X T} (m : act E X T) : act Engine X T :=
  zoom en_executor (fun s e => Build_NativeTransactionEngine (en_adapter s) e (en_filesystem s)
    (en_journal s) (en_hook s) (en_cli_executor s) (en_cli_applied s) (en_active_cli_mutations s)) m.
Definition put_fs_journal (s : Engine) (f : F) (j : J) : Engine :=
  Build_NativeTransactionEngine (en_adapter s) (en_executor s) f j (en_hook s) (en_cli_executor s)
    (en_cli_applied s) (en_active_cli_mutations s).
Definition on_filesystem {X T} (m : act F X T) : act Engine X T :=
  zoom en_filesystem (fun s f => put_fs_journal s f (en_journal s)) m.
Definition on_journal {X T} (m : act J X T) : act Engine X T :=
  zoom en_journal (fun s j => put_fs_journal s (en_filesystem s) j) m.
Definition on_hook {X T} (m : act K X T) : act Engine X T :=
  zoom en_hook (fun s h => Build_NativeTransactionEngine (en_adapter s) (en_executor s)
    (en_filesystem s) (en_journal s) h (en_cli_executor s) (en_cli_applied s)
    (en_active_cli_mutations s)) m.
Definition set_cli (cli_applied : list N) (active : list ApprovedCliMutation) (s : Engine) : Engine :=
  Build_NativeTransactionEngine (en_adapter s) (en_executor s) (en_filesystem s) (en_journal s)
    (en_hook s) (en_cli_executor s) cli_applied active.
Definition push_cli_applied (index : N) (s : Engine) : Engine :=
  set_cli (en_cli_applied s ++ [index]) (en_active_cli_mutations s) s.

(** The command-line executor, if there is one. *)
Definition on_cli {X T} (missing : X) (m : act C X T) : act Engine X T :=
  fun s => match en_cli_executor s with
           | Some c =>
               let '(c', r) := m c in
               (Build_NativeTransactionEngine (en_adapter s) (en_executor s) (en_filesystem s)
                  (en_journal s) (en_hook s) (Some c') (en_cli_applied s)
                  (en_active_cli_mutations s), r)
           | None => (s, Err missing)
           end.

(** A file-system operation whose callbacks write to the journal. *)
Definition on_session {Q R} (answer : Q -> port J unit) (m : F -> session F Q R) : port Engine R :=
  fun s => let '(f, j, r) := run_session answer (m (en_filesystem s)) (en_journal s) in
           (put_fs_journal s f j, r).

Definition no_cli_executor : BoundaryError :=
  Message "native CLI mutations require a semantic CLI executor".

(** [let _ = m;] *)
Definition ignore {X Y T} (m : act Engine X T) : act Engine Y unit :=
  catch m (fun _ => ret tt) (fun _ => ret tt).

(** ** Compensation *)

(** [if let Err(error) = m { remember_boundary_error(&mut slot, error); .. }] *)
Definition remembering (slot : option BoundaryError) (m : port Engine unit)
    (otherwise : option BoundaryError -> act Engine TransactionError (option BoundaryError))
    : act Engine TransactionError (option BoundaryError) :=
  catch m (fun _ => ret slot) (fun error => otherwise (remember_boundary_error slot error)).

Definition mark_conflict_remembering (index : N) (mutation : ApprovedCliMutation)
    (slot : option BoundaryError) : act Engine TransactionError (option BoundaryError) :=
  remembering slot (on_journal (mark_cli_mutation_conflict index mutation)) ret.

Definition restore_cli (slot : option BoundaryError) (entry : N * ApprovedCliMutation)
    : act Engine TransactionError (option BoundaryError) :=
  let '(index, mutation) := entry in
  catch (on_journal (prepare_cli_restore index mutation))
    (fun _ =>
       catch (on_cli no_cli_executor (restore_cli_mutation_if_matches mutation))
         (fun outcome =>
            let expected := cd_fingerprint <$> cm_expected mutation in
            remembering slot
              (if cl_restored outcome && bool_decide (cl_restored_fingerprint outcome = expected)
               then on_journal (mark_cli_mutation_restored index mutation)
               else on_journal (mark_cli_mutation_conflict index mutation))
              (mark_conflict_remembering index mutation))
         (fun error => mark_conflict_remembering index mutation (remember_boundary_error slot error)))
    (fun error => mark_conflict_remembering index mutation (remember_boundary_error slot error)).

(** The callbacks of [restore_matching_applied_targets]. *)
Definition answer_restore (q : RestoreCallback) : port J unit :=
  match q with
  | PersistRestoredCandidate index candidate_token =>
      record_mutation_restored_candidate index candidate_token
  | CheckpointAppliedAbsence index later_index old new =>
      checkpoint_mutation_applied_absence index later_index old new
  | RebindAppliedAbsence index later_index old new =>
      rebind_mutation_applied_absence index later_index old new
  end.

Definition restore_targets (transaction_nonce : bytes) (slot : option BoundaryError)
    : act Engine TransactionError (option BoundaryError) :=
  catch (on_session answer_restore (restore_matching_applied_targets transaction_nonce))
    (fun outcome =>
       let! slot := remembering slot (on_journal (complete_step RestoreMatchingAppliedTargets)) ret in
       remembering slot (on_journal (finish_compensated (conflict_target_sequences outcome))) ret)
    (fun error => ret (remember_boundary_error slot error)).

Definition compensation_body (transaction_nonce : bytes)
    : act Engine TransactionError (option BoundaryError) :=
  catch (on_journal (enter_step RestoreMatchingAppliedTargets))
    (fun _ =>
       catch (on_journal prepare_compensation)
         (fun _ =>
            let! s := get (fun s => s) in
            let! slot := match applied_cli_mutations_in_reverse (en_active_cli_mutations s)
                                 (en_cli_applied s) with
                         | Ok mutations => fold_act restore_cli None mutations
                         | Err error => ret (remember_boundary_error None error)
                         end in
            restore_targets transaction_nonce slot)
         (fun error => ret (remember_boundary_error None error)))
    (fun error => ret (remember_boundary_error None error)).

(** [compensate] returns the error [apply] fails with. *)
Definition compensate {T} (begun : bool) (transaction_nonce : bytes) (primary : TransactionError)
    : act Engine TransactionError T :=
  if begun then
    let! compensation := compensation_body transaction_nonce in
    ignore (on_hook (after_step RestoreMatchingAppliedTargets));;
    let! compensation := remembering compensation (on_adapter release_live_state_reservation) ret in
    match compensation with
    | None => raise primary
    | Some compensation => raise (Compensation primary compensation)
    end
  else
    catch (on_adapter release_live_state_reservation)
      (fun _ => raise primary)
      (fun compensation => raise (Compensation primary compensation)).

(** ** Apply *)

Section apply.
Context (plan : NativeTransactionPlan) (now_ms : N) (applied_hlc : HybridLogicalClock).

(** [*plan.setup.plan_id.as_bytes()] *)
Definition transaction_nonce : bytes := pn_plan_id plan.

Definition fail_with {T} (error : TransactionError) : act Engine TransactionError T :=
  compensate true transaction_nonce error.

(** [attempt!], once the transaction has begun. *)
Definition attempt {T} (m : port Engine T) : act Engine TransactionError T :=
  catch m ret (fun error => fail_with (Boundary error)).

(** A step is entered before and completed after its body. *)
Definition in_step {T} (step : TransactionStep) (body : act Engine TransactionError T)
    : act Engine TransactionError T :=
  attempt (on_journal (enter_step step));;
  let! v := body in
  attempt (on_journal (complete_step step));;
  attempt (on_hook (after_step step));;
  ret v.

Definition images_match (before_images : list BeforeImage) : bool :=
  (len before_images =? len (pn_mutations plan))
  && forallb (fun pair : BeforeImage * ApprovedMutation =>
       bool_decide (im_target pair.1 = am_target pair.2)
       && bool_decide (im_fingerprint pair.1 = am_expected pair.2))
     (zip before_images (pn_mutations plan)).

Definition create_images : act Engine TransactionError (list BeforeImage) :=
  in_step CreateBeforeImages
    (let! before_images := attempt (on_filesystem (create_before_images (pn_mutations plan))) in
     if images_match before_images
     then attempt (on_journal (put_before_images before_images));; ret before_images
     else fail_with BeforeImageMismatch).

Definition recompute_approval (frozen : FrozenOutput) : act Engine TransactionError Sha256Digest :=
  let! approval :=
    match pn_approval_version plan with
    | 1 => catch (of_result (approval_hash_v1 plan)) ret (fun error => fail_with (Approval error))
    | 2 => catch (of_result (approval_hash_v2 plan)) ret (fun error => fail_with (Approval error))
    | version => fail_with (UnsupportedApprovalVersion version)
    end in
  if bool_decide (fo_staged_output_hash frozen = pn_expected_semantic_output_hash plan)
     && bool_decide (fo_scanner_result_hash frozen = pn_scanner_result_hash plan)
  then ret approval else fail_with StagedOutputMismatch.

Definition check_freshness (approval : Sha256Digest) : act Engine TransactionError unit :=
  if pn_expires_at plan <? now_ms then fail_with TxExpired else
  if bool_decide (approval = pn_batch_hash plan) then ret tt else fail_with ApprovalMismatch.

Definition compare_targets : act Engine TransactionError unit :=
  attempt (on_adapter (verify_live_state_reservation plan));;
  attempt (on_filesystem (compare_and_swap_targets (pn_mutations plan)));;
  if bool_decide (pn_cli_mutations plan = []) then ret tt
  else attempt (on_cli no_cli_executor (compare_cli_targets (pn_cli_mutations plan))).

(** The steps before anything is written: 1 to 14. *)
Definition approve : act Engine TransactionError unit :=
  attempt (on_journal (complete_step AcquireLock));;
  attempt (on_hook (after_step AcquireLock));;
  in_step ReprobeLiveState (attempt (on_adapter (reprobe_live_state plan)));;
  in_step CompareApprovedDigests (attempt (on_adapter (compare_approved_digests plan)));;
  let! before_images := create_images in
  in_step RecordNativeMetadata (attempt (on_filesystem (record_native_metadata before_images)));;
  in_step CopyAllowlistedInputs
    (attempt (on_executor (copy_allowlisted_inputs (pn_staged_inputs plan))));;
  in_step CreateFakeRoots (attempt (on_executor create_fake_roots));;
  in_step BuildRestrictedEnvironment (attempt (on_executor build_restricted_environment));;
  let! run := in_step RunRestrictedTools
                (attempt (on_executor (run_restricted_tools (pn_sidecars plan)))) in
  in_step RejectUnsafeTopology (attempt (on_executor reject_unsafe_topology));;
  let! frozen := in_step ValidateStagedOutput
                   (attempt (on_adapter (validate_staged_output plan run))) in
  let! approval := in_step RecomputeApproval (recompute_approval frozen) in
  in_step CheckPlanFreshness (check_freshness approval);;
  in_step CompareAndSwapTargets compare_targets.

(** The reservation is released and the transaction left to recovery, when not even the
    provenance of a write could be recorded. *)
Definition abandon {T} (primary : TransactionError) (compensation : BoundaryError)
    : act Engine TransactionError T :=
  ignore (on_adapter release_live_state_reservation);; raise (Compensation primary compensation).

Definition write_mutation (outcomes : list (N * MutationOutcome)) (entry : N * ApprovedMutation)
    : act Engine TransactionError (list (N * MutationOutcome)) :=
  let '(index, mutation) := entry in
  attempt (on_journal (prepare_mutation index mutation));;
  attempt (on_adapter (verify_live_state_reservation plan));;
  catch (on_session (record_mutation_candidate index mutation)
           (apply_mutation transaction_nonce mutation))
    (fun outcome =>
       let! applied_token := get (fun s => mutation_provenance mutation (en_filesystem s)) in
       if negb (bool_decide (mo_resulting_fingerprint outcome = am_intended mutation))
          || negb (Bool.eqb (mo_wrote outcome)
                     (negb (bool_decide (am_expected mutation = am_intended mutation))))
          || negb (Bool.eqb (mo_wrote outcome) (bool_decide (is_Some applied_token)))
       then match applied_token with
            | Some token =>
                catch (on_journal (mark_mutation_conflict index token))
                  (fun _ => fail_with MutationOutcomeMismatch) (abandon MutationOutcomeMismatch)
            | None => fail_with MutationOutcomeMismatch
            end
       else if mo_wrote outcome && bool_decide (applied_token = None)
       then fail_with (Boundary (Message "written native mutation provenance is missing"))
       else attempt (on_journal (mark_mutation_applied index mutation outcome applied_token));;
            ret (outcomes ++ [(index, outcome)]))
    (fun error =>
       let! applied_token := get (fun s => mutation_provenance mutation (en_filesystem s)) in
       match applied_token with
       | Some token =>
           catch (on_journal (mark_mutation_applied_for_recovery index mutation token))
             (fun _ => fail_with (Boundary error)) (abandon (Boundary error))
       | None => fail_with (Boundary error)
       end).

Definition write_cli (entry : N * ApprovedCliMutation) : act Engine TransactionError unit :=
  let '(index, mutation) := entry in
  attempt (on_journal (prepare_cli_mutation index mutation));;
  catch (on_cli no_cli_executor (apply_cli_mutation mutation))
    (fun outcome =>
       let expected := cd_fingerprint <$> cm_expected mutation in
       let intended := cd_fingerprint <$> cm_intended mutation in
       match cl_command_error outcome with
       | Some command_error =>
           (if bool_decide (cl_resulting_fingerprint outcome = expected)
            then attempt (on_journal (mark_cli_mutation_no_write index mutation))
            else if bool_decide (cl_resulting_fingerprint outcome = intended)
            then attempt (on_journal (mark_cli_mutation_applied index mutation));;
                 update (push_cli_applied index)
            else attempt (on_journal (mark_cli_mutation_conflict index mutation)));;
           fail_with (Boundary command_error)
       | None =>
           if bool_decide (cl_resulting_fingerprint outcome = intended)
           then attempt (on_journal (mark_cli_mutation_applied index mutation));;
                update (push_cli_applied index)
           else attempt (on_journal (mark_cli_mutation_conflict index mutation));;
                fail_with CliMutationOutcomeMismatch
       end)
    (fun error =>
       catch (on_journal (mark_cli_mutation_conflict index mutation))
         (fun _ => fail_with (Boundary error)) (abandon (Boundary error))).

Definition write_roles : list (TransactionStep * MutationKind) :=
  [(WritePayloads, Payload); (InstallExecutablesDisabled, ExecutableDisabled);
   (WriteActivationReferences, ActivationReference)].

(** The mutations of one role, with their positions in the plan. *)
Definition of_role (role : MutationKind) : list (N * ApprovedMutation) :=
  filter (fun entry => am_kind entry.2 = role) (enumerate (pn_mutations plan)).

Definition write_role (outcomes : list (N * MutationOutcome)) (entry : TransactionStep * MutationKind)
    : act Engine TransactionError (list (N * MutationOutcome)) :=
  let '(step, role) := entry in
  in_step step
    (let! outcomes := fold_act write_mutation outcomes (of_role role) in
     (if bool_decide (step = WriteActivationReferences)
      then each write_cli (enumerate (pn_cli_mutations plan)) else ret tt);;
     ret outcomes).

Definition receipt_of (outcomes : list (N * MutationOutcome)) : NativeApplyReceipt := {|
  nr_legacy := {| rc_plan_id := pn_plan_id plan; rc_applied_hlc := applied_hlc;
                  rc_resulting_digests := (fun entry => mo_resulting_fingerprint entry.2) <$> outcomes |};
  nr_targets := zip_with (fun entry mutation =>
      {| re_target := am_target mutation; re_fingerprint := mo_resulting_fingerprint entry.2 |})
    outcomes (pn_mutations plan) |}.

(** What follows the commit: its failures are left to recovery. *)
Definition clean_up : act Engine TransactionError unit :=
  catch (on_journal (enter_step RestoreMatchingAppliedTargets))
    (fun _ =>
       let! s := get (fun s => s) in
       catch (match en_cli_executor s with
              | Some _ => on_cli no_cli_executor (finish_committed_cli_mutations (pn_cli_mutations plan))
              | None => if bool_decide (pn_cli_mutations plan = []) then ret tt
                        else raise no_cli_executor
              end)
         (fun _ =>
            catch (on_filesystem (finish_committed_targets transaction_nonce))
              (fun _ => ignore (on_journal finish_committed);;
                        ignore (on_hook (after_step RestoreMatchingAppliedTargets)))
              (fun _ => ret tt))
         (fun _ => ret tt))
    (fun _ => ret tt).

Definition commit_receipt (receipt : NativeApplyReceipt) : act Engine TransactionError NativeApplyReceipt :=
  in_step ValidateEffectiveConfiguration
    (attempt (on_adapter (validate_effective plan (nr_legacy receipt))));;
  attempt (on_journal (enter_step CommitOwnershipAndReceipt));;
  attempt (on_journal (commit_native_transaction plan receipt));;
  ignore (on_hook (after_step CommitOwnershipAndReceipt));;
  clean_up;;
  catch (on_adapter release_live_state_reservation) (fun _ => ret receipt)
    (fun error => raise (Boundary error)).

Definition begin_transaction : act Engine TransactionError unit :=
  catch (on_journal (acquire_lock_and_begin plan)) ret
    (fun error => compensate false transaction_nonce (Boundary error)).

Definition apply : act Engine TransactionError NativeApplyReceipt :=
  update (set_cli [] (pn_cli_mutations plan));;
  let! s := get (fun s => s) in
  if negb (bool_decide (installed_runtime (en_adapter s) = pn_installed_runtime plan))
  then raise (Boundary (Message "adapter does not own the approved installed runtime")) else
  begin_transaction;;
  approve;;
  let! outcomes := fold_act write_role [] write_roles in
  commit_receipt (receipt_of (sort_by_key fst outcomes)).
End apply.
End engine.
