(* ===== verification/NativeEngineFacts.v ===== *)
(** * Native transactions: what the engine guarantees

    Proved against the interface of the journal: what it has committed, whether it is
    settled, and what each operation may change of that ([NativeJournalLaws]). *)

From S2P Require Import Prelude Ordering Text Protocol Minicbor CanonicalCbor Domain.
From S2P Require Import SyncPayload Crypto Operation Causal Merge Transport StateSummary.
From S2P Require Import Admission NativeModel NativeTables NativeWal NativeLedger NativeRows.
From S2P Require Import NativeSteps NativeEffects NativePorts NativeEngine.

#[local] Open Scope N_scope.

Definition typed_mutation (m : ApprovedMutation) : bool :=
  typed_native_value (am_target m) && wf_fixed 32 (am_expected m) && wf_fixed 32 (am_intended m).

(** ** What a journal promises *)

(** What a journal has committed, whether its transaction is settled and its lock released,
    and the invariant of its state. *)
Class JournalPhase (J : Type) := {
  js_inv : J -> Prop;
  js_committed : J -> option NativeApplyReceipt;
  js_settled : J -> Prop;
}.

(** The operation keeps the invariant and what is committed, whether or not it fails. *)
Definition keeps {J T} `{JournalPhase J} (m : port J T) : Prop :=
  forall j, js_inv j -> js_inv (m j).1 /\ js_committed (m j).1 = js_committed j.

Class NativeJournalLaws `{UuidCrate} {Parts : PlanParts} (J : Type) `{!NativeJournal J}
    `{!JournalPhase J} : Prop := {
  keeps_acquire plan : wf_id (pn_plan_id plan) = true -> keeps (acquire_lock_and_begin plan);
  keeps_enter step : keeps (enter_step step);
  keeps_complete step : keeps (complete_step step);
  keeps_put_before_images images : keeps (put_before_images images);
  keeps_prepare index m : typed_mutation m = true -> keeps (prepare_mutation index m);
  keeps_applied index m outcome token : keeps (mark_mutation_applied index m outcome token);
  keeps_candidate index m token : keeps (record_mutation_candidate index m token);
  keeps_conflict index token : keeps (mark_mutation_conflict index token);
  keeps_applied_for_recovery index m token :
    keeps (mark_mutation_applied_for_recovery index m token);
  keeps_restored_candidate index token : keeps (record_mutation_restored_candidate index token);
  keeps_checkpoint index later old new :
    keeps (checkpoint_mutation_applied_absence index later old new);
  keeps_rebind index later old new : keeps (rebind_mutation_applied_absence index later old new);
  keeps_prepare_cli index m : keeps (prepare_cli_mutation index m);
  keeps_cli_applied index m : keeps (mark_cli_mutation_applied index m);
  keeps_cli_no_write index m : keeps (mark_cli_mutation_no_write index m);
  keeps_cli_restore index m : keeps (prepare_cli_restore index m);
  keeps_cli_restored index m : keeps (mark_cli_mutation_restored index m);
  keeps_cli_conflict index m : keeps (mark_cli_mutation_conflict index m);
  keeps_prepare_compensation : keeps prepare_compensation;
  keeps_finish_committed : keeps finish_committed;
  keeps_finish_compensated conflicts : keeps (finish_compensated conflicts);
  finish_compensated_settles conflicts j :
    js_inv j -> (finish_compensated conflicts j).2 = Ok tt ->
    js_settled (finish_compensated conflicts j).1;
  commit_inv plan receipt j :
    typed_native_receipt receipt = true -> js_inv j ->
    js_inv (commit_native_transaction plan receipt j).1;
  commit_Ok plan receipt j :
    typed_native_receipt receipt = true -> js_inv j ->
    (commit_native_transaction plan receipt j).2 = Ok tt ->
    js_committed (commit_native_transaction plan receipt j).1 = Some receipt;
  commit_Err plan receipt j e :
    js_inv j -> (commit_native_transaction plan receipt j).2 = Err e ->
    js_committed (commit_native_transaction plan receipt j).1 = js_committed j;
}.

(** The receipt the plan asks for. *)
Definition intended_receipt {Parts : PlanParts} (plan : NativeTransactionPlan) (hlc : HybridLogicalClock)
    : NativeApplyReceipt := {|
  nr_legacy := {| rc_plan_id := pn_plan_id plan; rc_applied_hlc := hlc;
                  rc_resulting_digests := am_intended <$> pn_mutations plan |};
  nr_targets := (fun m => {| re_target := am_target m; re_fingerprint := am_intended m |})
                <$> pn_mutations plan |}.

Definition approved {Parts : PlanParts} `{!ApprovalHash} (plan : NativeTransactionPlan) : Prop :=
  pn_approval_version plan = 1 /\ approval_hash_v1 plan = Ok (pn_batch_hash plan)
  \/ pn_approval_version plan = 2 /\ approval_hash_v2 plan = Ok (pn_batch_hash plan).

Section facts.
Context `{UuidCrate} {Parts : PlanParts} `{!ApprovalHash} {A E F J K C : Type}
  `{!NativeAdapter A} `{!RestrictedExecutor E} `{!NativeFileSystem F} `{!NativeJournal J}
  `{!FaultHook K} `{!NativeCliExecutor C} `{!JournalPhase J} `{!NativeJournalLaws J}.
Abbreviation Engine := (NativeTransactionEngine A E F J K C).
Implicit Types s : Engine.

Definition typed_plan (plan : NativeTransactionPlan) (hlc : HybridLogicalClock) : bool :=
  wf_id (pn_plan_id plan) && wf_hlc hlc && forallb typed_mutation (pn_mutations plan).

(** The journal is sound and has committed [c]. *)
Definition at_rest (c : option NativeApplyReceipt) (s : Engine) : Prop :=
  js_inv (en_journal s) /\ js_committed (en_journal s) = c.

Definition is_compensation (e : TransactionError) : Prop :=
  exists primary compensation, e = Compensation primary compensation.

(** The last thing the adapter did was to release the reservation of the live state. *)
Definition reservation_released (s : Engine) : Prop :=
  exists a : A, release_live_state_reservation a = (en_adapter s, Ok tt).

(** The last thing the adapter did was to fail to release it, with this error. *)
Definition release_failed (e : TransactionError) (s : Engine) : Prop :=
  exists (a : A) error, release_live_state_reservation a = (en_adapter s, Err error) /\ e = Boundary error.

(** A failure: nothing more is committed, and the transaction is settled and the reservation
    released unless the error says that the compensation failed. *)
Definition failed (c : option NativeApplyReceipt) (e : TransactionError) (s : Engine) : Prop :=
  at_rest c s /\ (is_compensation e \/ js_settled (en_journal s) /\ reservation_released s).

Section keep.
Context (c : option NativeApplyReceipt).
Abbreviation P := (at_rest c).
Abbreviation steady m := (triple P m (fun _ => P) (fun _ => P)).

Lemma steady_journal {T} (m : port J T) : keeps m -> steady (on_journal m).
Proof.
  intros Hk. apply triple_zoom. intros s [Hi Hc]. destruct (Hk _ Hi) as [Hi' Hc'].
  destruct (m (en_journal s)) as [j [v|e]]; split; cbn in *; congruence.
Qed.

Lemma steady_adapter {T} (m : port A T) : steady (on_adapter m).
Proof. apply triple_zoom. intros s Hs. by destruct (m (en_adapter s)) as [a [v|e]]. Qed.
Lemma steady_executor {T} (m : port E T) : steady (on_executor m).
Proof. apply triple_zoom. intros s Hs. by destruct (m (en_executor s)) as [a [v|e]]. Qed.
Lemma steady_filesystem {T} (m : port F T) : steady (on_filesystem m).
Proof. apply triple_zoom. intros s Hs. by destruct (m (en_filesystem s)) as [a [v|e]]. Qed.
Lemma steady_hook {T} (m : port K T) : steady (on_hook m).
Proof. apply triple_zoom. intros s Hs. by destruct (m (en_hook s)) as [a [v|e]]. Qed.
Lemma steady_cli {T} e (m : port C T) : steady (on_cli e m).
Proof.
  intros s Hs. unfold on_cli. destruct (en_cli_executor s) as [cl|]; [|done].
  by destruct (m cl) as [a [v|e']].
Qed.

Lemma steady_session {Q R} (answer : Q -> port J unit) (m : F -> session F Q R) :
  (forall q, keeps (answer q)) -> steady (on_session answer m).
Proof.
  intros Ha s [Hi Hc]. unfold on_session.
  pose proof (run_session_keeps (fun j => js_inv j /\ js_committed j = c) answer
    (m (en_filesystem s)) (en_journal s)) as Hk.
  destruct (run_session answer (m (en_filesystem s)) (en_journal s)) as [[f j] [v|e]]; cbn in *;
    (apply Hk; [|done]; intros q j' [Hi' Hc']; destruct (Ha q j' Hi'); split; [done|congruence]).
Qed.

Lemma steady_get {X T} (f : Engine -> T) : triple P (get f : act Engine X T) (fun _ => P) (fun _ => P).
Proof. by intros s Hs. Qed.

Lemma triple_ignore {X Y T} (m : act Engine X T) (Q : Y -> Engine -> Prop) :
  triple P m (fun _ => P) (fun _ => P) -> triple P (ignore m) (fun _ => P) Q.
Proof. intros Hm. eapply triple_catch; [exact Hm|..]; intros; by apply triple_ret. Qed.

(** ** Compensation *)

(** Remembering keeps the journal, and never forgets an error. *)
Lemma remembering_steady slot m otherwise (Q : TransactionError -> Engine -> Prop) :
  steady m -> (forall slot', is_Some slot' -> triple P (otherwise slot') (fun v s => P s /\ is_Some v) Q) ->
  triple P (remembering slot m otherwise) (fun v s => P s /\ (is_Some slot -> is_Some v)) Q.
Proof.
  intros Hm Ho. eapply triple_catch; [exact Hm|..].
  - intros v. apply triple_ret. by intros s Hs.
  - intros e. eapply triple_weaken; [apply (Ho (remember_boundary_error slot e)); by eexists|done| |done].
    by intros v s [? ?].
Qed.

(** An action that yields the slot keeps the journal and what is remembered. *)
Abbreviation slotted slot m :=
  (triple P m (fun v s => P s /\ (is_Some slot -> is_Some v)) (fun _ _ => False)).

Lemma slotted_mark index mutation slot : slotted slot (mark_conflict_remembering index mutation slot).
Proof.
  apply remembering_steady; [apply steady_journal, keeps_cli_conflict|].
  intros slot' Hs. apply triple_ret. done.
Qed.

Lemma slotted_remember index mutation slot e :
  slotted slot (mark_conflict_remembering index mutation (remember_boundary_error slot e)).
Proof.
  eapply triple_weaken; [apply slotted_mark|done| |done]. intros v s [? Hv]. split; [done|].
  intros _. apply Hv. by eexists.
Qed.

Lemma slotted_restore_cli slot entry : slotted slot (restore_cli slot entry).
Proof.
  destruct entry as [index mutation]. unfold restore_cli. eapply triple_catch.
  - apply steady_journal, keeps_cli_restore.
  - intros _u. eapply triple_catch; [apply steady_cli| |intros e; apply slotted_remember].
    intros outcome. apply remembering_steady.
    + destruct (_ && _); apply steady_journal; [apply keeps_cli_restored|apply keeps_cli_conflict].
    + intros slot' Hs. eapply triple_weaken; [apply slotted_mark|done| |done].
      intros v s [? Hv]. auto.
  - intros e. apply slotted_remember.
Qed.

Lemma slotted_fold slot l : slotted slot (fold_act restore_cli slot l).
Proof.
  intros s Hs.
  refine (triple_fold (fun _ v s => P s /\ (is_Some slot -> is_Some v)) restore_cli
            (fun _ _ => False) l _ slot s _); [|done].
  intros done b x rest _ s' [Hs' Hb]. pose proof (slotted_restore_cli b x s' Hs') as Hr.
  destruct ((restore_cli b x s').2); [|done]. destruct Hr as [? ?]. auto.
Qed.

Lemma keeps_answer_restore q : keeps (answer_restore q).
Proof.
  destruct q; [apply keeps_restored_candidate|apply keeps_checkpoint|apply keeps_rebind].
Qed.

(** Compensating: either an error is remembered, or the transaction is settled. *)
Abbreviation compensated :=
  (fun (v : option BoundaryError) s => P s /\ (is_Some v \/ js_settled (en_journal s))).

Lemma finish_compensates slot conflicts :
  triple P (remembering slot (on_journal (finish_compensated conflicts)) ret)
    compensated (fun _ _ => False).
Proof.
  intros s [Hi Hc]. unfold remembering, catch, on_journal, zoom.
  destruct (keeps_finish_compensated conflicts _ Hi) as [Hi' Hc'].
  pose proof (finish_compensated_settles conflicts _ Hi) as Hset.
  destruct (finish_compensated conflicts (en_journal s)) as [j [[]|e]]; cbn in *.
  - split; [split; cbn; congruence|]. right. by apply Hset.
  - split; [split; cbn; congruence|]. left. by eexists.
Qed.

Lemma restore_targets_compensated nonce slot :
  triple P (restore_targets nonce slot) compensated (fun _ _ => False).
Proof.
  unfold restore_targets. eapply triple_catch; [apply steady_session, keeps_answer_restore|..].
  - intros outcome. eapply triple_bind.
    + eapply remembering_steady; [apply steady_journal, keeps_complete|].
      intros slot' Hs. by apply triple_ret.
    + intros v. eapply triple_weaken; [apply finish_compensates| |done|done]. by intros s [? _].
  - intros e. apply triple_ret. intros s Hs. split; [done|left; by eexists].
Qed.

Lemma compensation_body_compensated nonce :
  triple P (compensation_body nonce) compensated (fun _ _ => False).
Proof.
  unfold compensation_body.
  assert (Hrem : forall e, triple P (ret (remember_boundary_error None e)) compensated (fun (_ : TransactionError) _ => False)).
  { intros e. apply triple_ret. intros s Hs. split; [done|left; by eexists]. }
  eapply triple_catch; [apply steady_journal, keeps_enter| |intros e; apply Hrem]. intros _u.
  eapply triple_catch; [apply steady_journal, keeps_prepare_compensation| |intros e; apply Hrem]. intros _u'.
  eapply (triple_bind _ _ _ (fun _ => P)); [by apply triple_get|]. intros s0.
  eapply (triple_bind _ _ _ (fun _ => P)); [|intros slot; apply restore_targets_compensated].
  destruct (applied_cli_mutations_in_reverse _ _) as [l|e].
  - eapply triple_weaken; [apply (slotted_fold None)|done|by intros v s [? _]|done].
  - by apply triple_ret.
Qed.

(** Every failure of the transaction goes through here. *)
Lemma compensate_fails {T} nonce primary (Q : T -> Engine -> Prop) :
  triple P (compensate true nonce primary) Q (failed c).
Proof.
  unfold compensate. eapply triple_bind.
  { eapply triple_weaken; [apply compensation_body_compensated|done|intros v s Hs; exact Hs|done]. }
  intros v. eapply (triple_bind _ _ _ (fun _ => compensated v)).
  { intros s [Hs Hv]. unfold ignore, catch, on_hook, zoom.
    by destruct (after_step _ (en_hook s)) as [h [[]|e]]. }
  intros _u. eapply (triple_bind _ _ _ (fun (v : option BoundaryError) s =>
    P s /\ (is_Some v \/ js_settled (en_journal s) /\ reservation_released s))).
  { intros s [Hs Hv]. unfold remembering, catch, on_adapter, zoom.
    destruct (release_live_state_reservation (en_adapter s)) as [a [[]|e]] eqn:Er; cbn.
    - split; [done|]. destruct Hv as [|Hset]; [by left|right; split; [exact Hset|by eexists]].
    - split; [done|]. left. by eexists. }
  intros [e|]; apply triple_raise; intros s [Hs Hv]; (split; [done|]).
  - left. by eexists _, _.
  - right. by destruct Hv as [[? [=]]|].
Qed.

(** ** The steps *)

Section steps.
Context (plan : NativeTransactionPlan) (now_ms : N) (hlc : HybridLogicalClock).
Hypothesis Htyped : typed_plan plan hlc = true.

Lemma fail_fails {T} e (Q : T -> Engine -> Prop) : triple P (fail_with plan e) Q (failed c).
Proof. apply compensate_fails. Qed.

Lemma attempt_triple {T} (m : port Engine T) (Q : T -> Engine -> Prop) :
  triple P m Q (fun _ => P) -> triple P (attempt plan m) Q (failed c).
Proof.
  intros Hm. eapply triple_catch; [exact Hm|..]; intros v; [by apply triple_ret|apply fail_fails].
Qed.

(** In sequence, each keeping the journal. *)
Lemma seq_triple {T U} (m : act Engine TransactionError T) (k : act Engine TransactionError U)
    (Q : U -> Engine -> Prop) :
  triple P m (fun _ => P) (failed c) -> triple P k Q (failed c) -> triple P (bind m (fun _ => k)) Q (failed c).
Proof. intros Hm Hk. eapply triple_bind; [exact Hm|]. intros v. exact Hk. Qed.

Lemma in_step_triple {T} step (body : act Engine TransactionError T) (phi : T -> Prop) :
  triple P body (fun v s => P s /\ phi v) (failed c) ->
  triple P (in_step plan step body) (fun v s => P s /\ phi v) (failed c).
Proof.
  intros Hb. unfold in_step. apply seq_triple; [apply attempt_triple, steady_journal, keeps_enter|].
  eapply triple_bind; [exact Hb|]. intros v. apply triple_pure. intros Hv.
  apply seq_triple; [apply attempt_triple, steady_journal, keeps_complete|].
  apply seq_triple; [apply attempt_triple, steady_hook|]. apply triple_ret. done.
Qed.

(** A step whose body says nothing of its result. *)
Lemma in_step_steady {T} step (body : act Engine TransactionError T) :
  triple P body (fun _ => P) (failed c) -> triple P (in_step plan step body) (fun _ => P) (failed c).
Proof.
  intros Hb. eapply (triple_weaken P P _ (fun v s => P s /\ True)); [|done|by intros v s [? _]|done].
  apply in_step_triple. eapply triple_weaken; [exact Hb|done|done|done].
Qed.

Lemma create_images_steady : triple P (create_images plan) (fun _ => P) (failed c).
Proof.
  apply in_step_steady. eapply triple_bind; [apply attempt_triple, steady_filesystem|].
  intros images. destruct (images_match plan images); [|apply fail_fails].
  apply seq_triple; [apply attempt_triple, steady_journal, keeps_put_before_images|by apply triple_ret].
Qed.

Definition hashes_to (approval : Sha256Digest) : Prop :=
  pn_approval_version plan = 1 /\ approval_hash_v1 plan = Ok approval
  \/ pn_approval_version plan = 2 /\ approval_hash_v2 plan = Ok approval.

Lemma hash_triple (r : result ApprovalError Sha256Digest) :
  triple P (catch (of_result r) ret (fun e => fail_with plan (Approval e)))
    (fun v s => P s /\ r = Ok v) (failed c).
Proof.
  eapply (triple_catch _ _ _ _ (fun v s => P s /\ r = Ok v) (fun _ => P)).
  - intros s Hs. unfold of_result. by destruct r.
  - intros v. by apply triple_ret.
  - intros e. apply fail_fails.
Qed.

Lemma recompute_approval_triple frozen :
  triple P (recompute_approval plan frozen) (fun v s => P s /\ hashes_to v) (failed c).
Proof.
  unfold recompute_approval. eapply (triple_bind _ _ _ (fun v s => P s /\ hashes_to v)).
  - unfold hashes_to. destruct (pn_approval_version plan) as [|[p|[p|p|]|]]; try apply fail_fails;
      (eapply triple_weaken; [apply hash_triple|done|intros v s [Hs ->]; auto|done]).
  - intros v. apply triple_pure. intros Hv. destruct (_ && _); [by apply triple_ret|apply fail_fails].
Qed.

Lemma check_freshness_triple approval :
  triple P (check_freshness plan now_ms approval)
    (fun _ s => P s /\ (now_ms <= pn_expires_at plan /\ approval = pn_batch_hash plan)) (failed c).
Proof.
  unfold check_freshness. destruct (N.ltb_spec (pn_expires_at plan) now_ms); [apply fail_fails|].
  destruct (bool_decide_reflect (approval = pn_batch_hash plan)); [by apply triple_ret|apply fail_fails].
Qed.

Lemma compare_targets_steady : triple P (compare_targets plan) (fun _ => P) (failed c).
Proof.
  unfold compare_targets. apply seq_triple; [apply attempt_triple, steady_adapter|].
  apply seq_triple; [apply attempt_triple, steady_filesystem|].
  destruct (bool_decide _); [by apply triple_ret|apply attempt_triple, steady_cli].
Qed.

Lemma approve_triple :
  triple P (approve plan now_ms)
    (fun _ s => P s /\ (approved plan /\ now_ms <= pn_expires_at plan)) (failed c).
Proof.
  unfold approve.
  apply seq_triple; [apply attempt_triple, steady_journal, keeps_complete|].
  apply seq_triple; [apply attempt_triple, steady_hook|].
  apply seq_triple; [apply in_step_steady, attempt_triple, steady_adapter|].
  apply seq_triple; [apply in_step_steady, attempt_triple, steady_adapter|].
  eapply triple_bind; [apply create_images_steady|]. intros images.
  apply seq_triple; [apply in_step_steady, attempt_triple, steady_filesystem|].
  do 3 (apply seq_triple; [apply in_step_steady, attempt_triple, steady_executor|]).
  eapply triple_bind; [apply in_step_steady, attempt_triple, steady_executor|]. intros run.
  apply seq_triple; [apply in_step_steady, attempt_triple, steady_executor|].
  eapply triple_bind; [apply in_step_steady, attempt_triple, steady_adapter|]. intros frozen.
  eapply triple_bind; [apply in_step_triple, recompute_approval_triple|]. intros approval.
  apply triple_pure. intros Ha.
  eapply triple_bind; [apply in_step_triple, (fun x => check_freshness_triple x)|]. intros _u.
  apply triple_pure. intros [Hexp ->].
  eapply triple_weaken; [apply in_step_steady, compare_targets_steady|done|by intros v s ?|done].
Qed.

(** ** Writing *)

Definition wrote (entry : N * ApprovedMutation) (result : N * MutationOutcome) : Prop :=
  result.1 = entry.1 /\ mo_resulting_fingerprint result.2 = am_intended entry.2.

Lemma abandon_fails {T} e comp (Q : T -> Engine -> Prop) : triple P (abandon e comp) Q (failed c).
Proof.
  unfold abandon. apply seq_triple; [apply triple_ignore, steady_adapter|].
  apply triple_raise. intros s Hs. split; [done|]. left. by eexists _, _.
Qed.

Lemma write_mutation_triple outcomes entry :
  typed_mutation entry.2 = true ->
  triple P (write_mutation plan outcomes entry)
    (fun v s => P s /\ exists o, v = outcomes ++ [o] /\ wrote entry o) (failed c).
Proof.
  destruct entry as [index m]. intros Hm. unfold write_mutation.
  apply seq_triple; [apply attempt_triple, steady_journal; by apply keeps_prepare|].
  apply seq_triple; [apply attempt_triple, steady_adapter|].
  eapply triple_catch; [apply steady_session; intros q; apply keeps_candidate|..].
  - intros outcome. eapply (triple_bind _ _ _ (fun _ => P)); [by apply triple_get|]. intros token.
    destruct (negb _ || _ || _) eqn:Ef.
    + destruct token as [token|]; [|apply fail_fails].
      eapply triple_catch; [apply steady_journal, keeps_conflict|intros; apply fail_fails|].
      intros e. apply abandon_fails.
    + apply orb_false_iff in Ef as [Ef _]. apply orb_false_iff in Ef as [Ef _]. bools.
      destruct (_ && _); [apply fail_fails|].
      apply seq_triple; [apply attempt_triple, steady_journal, keeps_applied|].
      apply triple_ret. intros s Hs. split; [done|]. eexists. by split.
  - intros e. eapply (triple_bind _ _ _ (fun _ => P)); [by apply triple_get|]. intros [token|]; [|apply fail_fails].
    eapply triple_catch; [apply steady_journal, keeps_applied_for_recovery|intros; apply fail_fails|].
    intros e'. apply abandon_fails.
Qed.

Lemma attempt_journal (m : port J unit) :
  keeps m -> triple P (attempt plan (on_journal m)) (fun _ => P) (failed c).
Proof. intros Hm. by apply attempt_triple, steady_journal. Qed.

Lemma write_cli_steady entry : triple P (write_cli plan entry) (fun _ => P) (failed c).
Proof.
  destruct entry as [index m]. unfold write_cli.
  assert (Hpush : triple P (update (push_cli_applied index)) (fun _ => P) (failed c))
    by (by apply triple_update).
  apply seq_triple; [apply attempt_journal, keeps_prepare_cli|].
  eapply triple_catch; [apply steady_cli|..].
  - intros outcome. destruct (cl_command_error outcome) as [e|].
    + apply seq_triple; [|apply fail_fails].
      destruct (bool_decide _); [apply attempt_journal, keeps_cli_no_write|].
      destruct (bool_decide _); [|apply attempt_journal, keeps_cli_conflict].
      apply seq_triple; [apply attempt_journal, keeps_cli_applied|exact Hpush].
    + destruct (bool_decide _).
      * apply seq_triple; [apply attempt_journal, keeps_cli_applied|exact Hpush].
      * apply seq_triple; [apply attempt_journal, keeps_cli_conflict|apply fail_fails].
  - intros e. eapply triple_catch; [apply steady_journal, keeps_cli_conflict|intros; apply fail_fails|].
    intros e'. apply abandon_fails.
Qed.

Lemma typed_of_role role entry : entry ∈ of_role plan role -> typed_mutation entry.2 = true.
Proof.
  unfold of_role, enumerate. intros [_ Hin]%list_elem_of_filter.
  apply elem_of_lookup_imap in Hin as (i & m & -> & Hm). cbn.
  unfold typed_plan in Htyped. apply andb_true_iff in Htyped as [_ Hall].
  rewrite forallb_forall in Hall. apply Hall, list_elem_of_In, list_elem_of_lookup. eauto.
Qed.

(** Each role appends what it wrote, in order. *)
Lemma write_role_triple outcomes entry :
  triple P (write_role plan outcomes entry)
    (fun v s => P s /\ exists os, v = outcomes ++ os /\ Forall2 wrote (of_role plan entry.2) os) (failed c).
Proof.
  destruct entry as [step role]. unfold write_role. apply in_step_triple.
  eapply (triple_bind _ _ _ (fun v s => P s /\ exists os, v = outcomes ++ os /\ Forall2 wrote (of_role plan role) os)).
  - set (I := fun done (v : list (N * MutationOutcome)) s =>
        P s /\ exists os, v = outcomes ++ os /\ Forall2 wrote done os).
    intros s Hs. refine (triple_fold I _ _ _ _ outcomes s _).
    + intros done b x rest Hx. apply triple_pure. intros (os & -> & Hos).
      eapply triple_weaken; [apply write_mutation_triple; apply (typed_of_role role); rewrite Hx; set_solver|done| |done].
      intros v s' [Hs' (o & -> & Ho)]. split; [done|]. exists (os ++ [o]). rewrite app_assoc. split; [done|].
      by apply Forall2_app; [|constructor].
    + split; [done|]. exists []. by rewrite app_nil_r.
  - intros v. apply triple_pure. intros Hv. apply seq_triple; [|by apply triple_ret].
    destruct (bool_decide _); [|by apply triple_ret]. apply triple_each. intros x _. apply write_cli_steady.
Qed.

Definition all_roles : list (N * ApprovedMutation) :=
  of_role plan Payload ++ of_role plan ExecutableDisabled ++ of_role plan ActivationReference.

Lemma write_roles_triple :
  triple P (fold_act (write_role plan) [] write_roles)
    (fun v s => P s /\ Forall2 wrote all_roles v) (failed c).
Proof.
  set (I := fun done (v : list (N * MutationOutcome)) s =>
    P s /\ Forall2 wrote (mjoin ((fun e : TransactionStep * MutationKind => of_role plan e.2) <$> done)) v).
  intros s Hs.
  assert (Hf : triple (I [] []) (fold_act (write_role plan) [] write_roles) (I write_roles) (failed c)).
  { apply triple_fold. intros done b x rest _. apply triple_pure. intros Hb.
    eapply triple_weaken; [apply write_role_triple|done| |done].
    intros v s' [Hs' (os & -> & Hos)]. split; [done|]. rewrite fmap_app, join_app. cbn.
    rewrite app_nil_r. by apply Forall2_app. }
  specialize (Hf s). unfold I in Hf. cbn in Hf. rewrite !app_nil_r in Hf. apply Hf. by split; [|constructor].
Qed.

Lemma clean_up_steady (Q : TransactionError -> Engine -> Prop) : triple P (clean_up plan) (fun _ => P) Q.
Proof.
  assert (Hret : triple P (ret tt) (fun _ => P) Q) by (by apply triple_ret).
  unfold clean_up. eapply triple_catch; [apply steady_journal, keeps_enter| |by intros e]. intros _u.
  eapply (triple_bind _ _ _ (fun _ => P)); [by apply triple_get|]. intros s0.
  eapply (triple_catch _ _ _ _ (fun _ => P) (fun _ => P)); [| |by intros e].
  - destruct (en_cli_executor s0); [apply steady_cli|].
    destruct (bool_decide _); [by apply triple_ret|by apply triple_raise].
  - intros _u'. eapply triple_catch; [apply steady_filesystem| |by intros e]. intros _v.
    eapply triple_bind; [apply triple_ignore, steady_journal, keeps_finish_committed|]. intros _w.
    apply triple_ignore, steady_hook.
Qed.

(** The commit is the only operation that commits. *)
Lemma commit_triple receipt :
  typed_native_receipt receipt = true ->
  triple P (attempt plan (on_journal (commit_native_transaction plan receipt)))
    (fun _ => at_rest (Some receipt)) (failed c).
Proof.
  intros Hty. apply attempt_triple. intros s [Hi Hc]. unfold on_journal, zoom.
  pose proof (commit_inv plan receipt _ Hty Hi) as Hinv.
  pose proof (commit_Ok plan receipt _ Hty Hi) as Hok.
  pose proof (fun e => commit_Err plan receipt (en_journal s) e Hi) as Herr.
  destruct (commit_native_transaction plan receipt (en_journal s)) as [j [[]|e]]; cbn in *; split; cbn; auto.
  by rewrite (Herr e eq_refl).
Qed.

Lemma enumerate_ascending {X} (l : list X) : ascending fst (enumerate l).
Proof.
  unfold enumerate, ascending. enough (forall k, StronglySorted (fun a b => ltb a.1 b.1 = true)
    (imap (fun i x => (N.of_nat (k + i), x)) l)) as Hk by exact (Hk 0%nat).
  induction l as [|x l IH]; intros k; cbn; [constructor|]. constructor.
  - rewrite (imap_ext _ (fun i x => (N.of_nat (S k + i), x))); [apply IH|].
    intros i y _. cbn. by rewrite Nat.add_succ_r.
  - apply Forall_forall. intros [n y] Hin. apply elem_of_lookup_imap in Hin as (i & z & [= -> ->] & _).
    cbn. rewrite ltb_N. apply N.ltb_lt. lia.
Qed.

Lemma all_roles_perm : all_roles ≡ₚ enumerate (pn_mutations plan).
Proof.
  unfold all_roles, of_role. induction (enumerate (pn_mutations plan)) as [|[i m] l IH]; [done|].
  rewrite !filter_cons. cbn [snd]. destruct (am_kind m); cbn; rewrite <- IH.
  - done.
  - by rewrite Permutation_middle.
  - by rewrite !app_assoc, Permutation_middle.
Qed.

(** Sorted by position, what was written is what the plan intends. *)
Lemma sorted_outcomes os :
  Forall2 wrote all_roles os -> Forall2 wrote (enumerate (pn_mutations plan)) (sort_by_key fst os).
Proof.
  intros Hos. destruct (Permutation_Forall2 all_roles_perm Hos) as (os' & Hp & Hos').
  assert (Hkeys : fst <$> os' = fst <$> enumerate (pn_mutations plan)).
  { clear -Hos'. induction Hos' as [|e o l k [Ho _] _ IH]; [done|]. csimpl. by rewrite Ho, IH. }
  assert (Hasc : ascending fst os').
  { apply (ascending_fmap (fun x => x) fst). rewrite Hkeys. apply ascending_fmap, enumerate_ascending. }
  rewrite (sort_by_key_perm_eq fst os os'), sort_by_key_id; [done|done| |done].
  rewrite Hp. by apply ascending_NoDup.
Qed.

Lemma receipt_of_outcomes os :
  Forall2 wrote (enumerate (pn_mutations plan)) os -> receipt_of plan hlc os = intended_receipt plan hlc.
Proof.
  unfold receipt_of, intended_receipt, enumerate. intros Hos.
  assert (Hf : forall l k os, Forall2 wrote (imap (fun i x => (N.of_nat (k + i), x)) l) os ->
    (fun entry : N * MutationOutcome => mo_resulting_fingerprint entry.2) <$> os = am_intended <$> l
    /\ zip_with (fun (entry : N * MutationOutcome) m =>
         {| re_target := am_target m; re_fingerprint := mo_resulting_fingerprint entry.2 |}) os l
       = (fun m => {| re_target := am_target m; re_fingerprint := am_intended m |}) <$> l).
  { induction l as [|m l IH]; intros k os' Ho; cbn in Ho; inversion Ho as [|? o ? os'' [_ Hw] Ho'']; subst; [done|].
    destruct (IH (S k) os'') as [E1 E2].
    { rewrite (imap_ext _ (fun i x => (N.of_nat (k + S i), x))); [exact Ho''|].
      intros i y _. cbn. by rewrite Nat.add_succ_r. }
    csimpl. cbn in Hw. by rewrite E1, E2, Hw. }
  destruct (Hf _ 0%nat _ Hos) as [-> ->]. done.
Qed.

Lemma intended_typed : typed_native_receipt (intended_receipt plan hlc) = true.
Proof.
  unfold typed_plan in Htyped. rewrite !andb_true_iff in Htyped. destruct Htyped as [[Hid Hhlc] Hall].
  rewrite forallb_forall in Hall.
  unfold typed_native_receipt, typed_apply_receipt. cbn. rewrite Hid, Hhlc. cbn.
  apply andb_true_iff. split; apply forallb_forall.
  - intros x Hx. apply list_elem_of_In, list_elem_of_fmap in Hx as (m & -> & Hm%list_elem_of_In).
    specialize (Hall _ Hm). unfold typed_mutation in Hall. rewrite !andb_true_iff in Hall. tauto.
  - intros x Hx. apply list_elem_of_In, list_elem_of_fmap in Hx as (m & -> & Hm%list_elem_of_In).
    specialize (Hall _ Hm). unfold typed_mutation in Hall. unfold typed_receipt_entry. cbn.
    rewrite !andb_true_iff in *. tauto.
Qed.

(** A failure after the commit: only the release of the reservation failed. *)
Definition released_late (e : TransactionError) (s : Engine) : Prop :=
  release_failed e s /\ at_rest (Some (intended_receipt plan hlc)) s.
End steps.

End keep.

Ltac before Hl := eapply triple_bind; [eapply triple_weaken; [apply Hl; try done|done|intros v s Hv; exact Hv|by left]|].

(** After the transaction has begun. *)
Lemma body_triple c plan now_ms hlc :
  typed_plan plan hlc = true ->
  triple (at_rest c) (bind (approve plan now_ms) (fun _ =>
              bind (fold_act (write_role plan) [] write_roles) (fun outcomes =>
                commit_receipt plan (receipt_of plan hlc (sort_by_key fst outcomes)))))
    (fun receipt s => receipt = intended_receipt plan hlc /\ approved plan
       /\ now_ms <= pn_expires_at plan /\ at_rest (Some (intended_receipt plan hlc)) s)
    (fun e s => failed c e s \/ released_late plan hlc e s).
Proof.
  intros Hty. before (approve_triple c plan now_ms). intros _u. apply triple_pure. intros [Happ Hexp].
  before (write_roles_triple c plan hlc). intros os. apply triple_pure. intros Hos.
  rewrite (receipt_of_outcomes plan hlc _ (sorted_outcomes plan _ Hos)). unfold commit_receipt.
  before in_step_steady. { apply attempt_triple, steady_adapter. } intros _u'.
  before attempt_journal. { apply keeps_enter. } intros _v.
  before commit_triple. { by apply intended_typed. } intros _w.
  eapply triple_bind; [apply triple_ignore, steady_hook|]. intros _x.
  eapply triple_bind; [apply clean_up_steady|]. intros _y.
  intros s Hs. unfold catch, on_adapter, zoom.
  destruct (release_live_state_reservation (en_adapter s)) as [a [[]|e]] eqn:Er; cbn.
  - done.
  - right. split; [by eexists _, _|done].
Qed.

(** The journal could not begin the transaction: it is as that left it, and the reservation is
    released unless the error says that this failed. *)
Definition not_begun (plan : NativeTransactionPlan) s (e : TransactionError) s' : Prop :=
  is_err (acquire_lock_and_begin plan (en_journal s)).2 = true
  /\ en_journal s' = (acquire_lock_and_begin plan (en_journal s)).1
  /\ (is_compensation e \/ reservation_released s').

(** What [apply] returns, and the journal it leaves. *)
Lemma apply_outcome plan now_ms hlc s :
  typed_plan plan hlc = true -> js_inv (en_journal s) ->
  let j := en_journal s in
  let '(s', r) := apply plan now_ms hlc s in
  match r with
  | Ok receipt =>
      receipt = intended_receipt plan hlc /\ approved plan /\ now_ms <= pn_expires_at plan
      /\ at_rest (Some receipt) s'
  | Err e =>
      (installed_runtime (en_adapter s) <> pn_installed_runtime plan /\ en_journal s' = j)
      \/ not_begun plan s e s'
      \/ failed (js_committed j) e s' \/ released_late plan hlc e s'
  end.
Proof.
  intros Hty Hi. cbv zeta.
  assert (Hid : wf_id (pn_plan_id plan) = true)
    by (unfold typed_plan in Hty; rewrite !andb_true_iff in Hty; tauto).
  destruct (apply plan now_ms hlc s) as [s' r] eqn:Ea.
  unfold apply, bind at 1, update, get in Ea. cbn -[begin_transaction approve write_role] in Ea.
  unfold bind at 1 in Ea. destruct (negb _) eqn:En; [injection Ea as <- <-; left; split; [|done]; by bools|].
  clear En. set (s0 := set_cli [] (pn_cli_mutations plan) s) in *.
  unfold bind at 1 in Ea. destruct (begin_transaction plan s0) as [s1 r1] eqn:Eb.
  unfold begin_transaction, catch, on_journal, zoom in Eb. cbn in Eb.
  destruct (keeps_acquire plan Hid _ Hi) as [Hi1 Hc1].
  destruct (acquire_lock_and_begin plan (en_journal s)) as [j1 [[]|e1]] eqn:Eacq; cbn in *.
  - injection Eb as <- <-.
    pose proof (body_triple (js_committed (en_journal s)) plan now_ms hlc Hty
      (put_fs_journal s0 (en_filesystem s0) j1) (conj Hi1 Hc1)) as Hb.
    match type of Ea with ?m = _ => change m with (bind (approve plan now_ms) (fun _ =>
              bind (fold_act (write_role plan) [] write_roles) (fun outcomes =>
                commit_receipt plan (receipt_of plan hlc (sort_by_key fst outcomes))))
              (put_fs_journal s0 (en_filesystem s0) j1)) in Ea end.
    rewrite Ea in Hb. cbn in Hb. destruct r as [receipt|e].
    + destruct Hb as (-> & ? & ? & ?). by split_and!.
    + right. right. done.
  - unfold compensate, catch, on_adapter, zoom in Eb. cbn in Eb.
    destruct (release_live_state_reservation (en_adapter s)) as [a [[]|e]] eqn:Er; injection Eb as <- <-;
      injection Ea as <- <-; right; left; unfold not_begun; rewrite Eacq; split_and!; try done.
    + right. by exists (en_adapter s).
    + left. by eexists _, _.
Qed.

(** An application that succeeds is committed: the journal holds exactly the receipt that is
    returned, which lists every target of the plan, in order, with the fingerprint the plan
    intends; and it was approved (the approval recomputed from the plan is its batch hash)
    and not expired. *)
Lemma engine_apply_commits plan now_ms hlc s s' receipt :
  typed_plan plan hlc = true -> js_inv (en_journal s) ->
  apply plan now_ms hlc s = (s', Ok receipt) ->
  js_committed (en_journal s') = Some receipt /\ receipt = intended_receipt plan hlc
  /\ approved plan /\ now_ms <= pn_expires_at plan.
Proof.
  intros Hty Hi Ha. pose proof (apply_outcome plan now_ms hlc s Hty Hi) as Ho. cbv zeta in Ho.
  rewrite Ha in Ho. destruct Ho as (-> & Happ & Hexp & [_ Hc]). by split_and!.
Qed.

(** An application that fails commits nothing: what the journal has committed is what it had
    committed before, unless all that failed is the release of the reservation after the
    commit, where it is the receipt the plan intends. *)
Lemma engine_failure_commits_nothing plan now_ms hlc s s' e :
  typed_plan plan hlc = true -> js_inv (en_journal s) ->
  apply plan now_ms hlc s = (s', Err e) ->
  js_committed (en_journal s') = js_committed (en_journal s)
  \/ release_failed e s' /\ js_committed (en_journal s') = Some (intended_receipt plan hlc).
Proof.
  intros Hty Hi Ha. pose proof (apply_outcome plan now_ms hlc s Hty Hi) as Ho. cbv zeta in Ho.
  rewrite Ha in Ho. destruct Ho as [[_ ->]|[(_ & -> & _)|[[[_ Hc] _]|[He [_ Hc]]]]]; auto.
  left. apply keeps_acquire; [|done]. unfold typed_plan in Hty. rewrite !andb_true_iff in Hty. tauto.
Qed.

(** A failure leaves nothing behind unless it says so: when the error does not report a
    failed compensation, the transaction is settled and its lock and reservation released, or
    it never began (the runtime is not the approved one, or the journal could not begin), or it
    is committed and only the release of the reservation failed. *)
Lemma engine_failure_settles plan now_ms hlc s s' e :
  typed_plan plan hlc = true -> js_inv (en_journal s) ->
  apply plan now_ms hlc s = (s', Err e) ->
  (forall primary compensation, e <> Compensation primary compensation) ->
  (js_settled (en_journal s') /\ reservation_released s')
  \/ (installed_runtime (en_adapter s) <> pn_installed_runtime plan /\ en_journal s' = en_journal s)
  \/ (is_err (acquire_lock_and_begin plan (en_journal s)).2 = true
      /\ en_journal s' = (acquire_lock_and_begin plan (en_journal s)).1 /\ reservation_released s')
  \/ (release_failed e s' /\ js_committed (en_journal s') = Some (intended_receipt plan hlc)).
Proof.
  intros Hty Hi Ha He. pose proof (apply_outcome plan now_ms hlc s Hty Hi) as Ho. cbv zeta in Ho.
  assert (Hno : ~ is_compensation e) by (intros (p & c & ->); by destruct (He p c)).
  rewrite Ha in Ho. destruct Ho as [?|[(? & ? & [?|?])|[[_ [?|?]]|[? [_ ?]]]]]; tauto.
Qed.
End facts.
