(* ===== verification/NativeJournalFacts.v ===== *)
(** * Native transactions: the journal in the vault keeps the promises of a journal

    The laws the engine is verified against hold of [VaultNativeJournal], so the guarantees of
    the engine are guarantees about the tables of the vault. *)

From S2P Require Import Prelude Ordering Text Protocol Minicbor CanonicalCbor Domain.
From S2P Require Import SyncPayload Crypto Operation Causal Merge Transport StateSummary.
From S2P Require Import Admission NativeModel NativeTables NativeWal NativeLedger NativeRows.
From S2P Require Import NativeSteps NativeEffects NativeGeneration NativeInvariant NativeClaims.
From S2P Require Import NativePorts NativeJournal NativeEngine NativeEngineFacts.

#[local] Open Scope N_scope.

Section facts.
Context `{UuidCrateLaws} `{!NativeJson} `{!NativeJsonLaws} `{Primitives} {Parts : PlanParts}
  {L Lock : Type} `{!ProfileLock L Lock}.
Abbreviation J := (VaultNativeJournal L Lock).
Implicit Types (t : NativeTables) (j : J).

(** The receipt of [id], if it is committed. *)
Definition committed_receipt t (id : TransactionId) : option NativeApplyReceipt :=
  match load_native_transaction t id with
  | Ok (Some snapshot) =>
      if bool_decide (ts_status snapshot = TxCommitted)
      then match load_native_receipt t (ts_plan_id snapshot) with Ok r => r | Err _ => None end
      else None
  | _ => None
  end.

(** The transaction is restored or in conflict and cleaned up. *)
Definition tx_settled t (id : TransactionId) : Prop :=
  exists raw, nt_transactions t !! id = Some raw
    /\ (rt_status raw = "restored"%string \/ rt_status raw = "conflict"%string)
    /\ rt_current_step raw = 20.

#[global] Instance vault_journal_phase : JournalPhase J := {|
  js_inv j := native_inv (jn_tables j);
  js_committed j := committed_receipt (jn_tables j) (jn_transaction_id j);
  js_settled j := tx_settled (jn_tables j) (jn_transaction_id j) /\ jn_profile_lock j = None |}.

(** ** Quiet steps commit nothing *)

Lemma load_stored t id raw snap :
  stored_tx t id raw snap -> load_native_transaction t id = Ok (Some snap).
Proof.
  intros (Hl & Hok & Hid). unfold load_native_transaction, transpose.
  by rewrite Hl, (decode_tx _ _ _ Hok Hid).
Qed.

Definition not_committed t (id : TransactionId) : Prop :=
  forall raw snap, stored_tx t id raw snap -> ts_status snap <> TxCommitted.

Lemma tx_updated_not_committed t i raw snap raw' id :
  stored_tx t i raw snap -> tx_change (settled t i) snap raw raw' -> transaction_checks raw' = true ->
  not_committed t id -> not_committed (put_tx t i raw') id.
Proof.
  intros Hst Hch Hck Hn raw0 snap0 Hst0. destruct (decide (id = i)) as [->|Hne].
  - pose proof Hst as (_ & Hok & Hid).
    destruct (tx_change_snap _ _ _ _ Hok Hch Hck) as (snap' & Hok' & Hid' & _ & Hs).
    assert (stored_tx (put_tx t i raw') i raw' snap') as Hst'
      by (split_and!; [cbn; by rewrite lookup_insert_eq|done|congruence]).
    destruct (stored_tx_fun _ _ _ _ _ _ Hst0 Hst') as [-> ->].
    specialize (Hn _ _ Hst). destruct Hs as [|[[_ ?]|[(_ & ? & _)|(_ & ? & _)]]]; congruence.
  - destruct Hst0 as (Hl & Hok & Hi). cbn in Hl. rewrite lookup_insert_ne in Hl by done.
    by apply (Hn raw0).
Qed.

Lemma not_committed_frame t t' id :
  nt_transactions t' !! id = nt_transactions t !! id -> not_committed t id -> not_committed t' id.
Proof. intros E Hn raw snap (Hl & Hok). apply (Hn raw snap). split; [by rewrite <- E|done]. Qed.

Lemma quiet_not_committed t t' id :
  quiet_effect t t' -> not_committed t id -> not_committed t' id.
Proof.
  intros He Hn.
  destruct He as [ ->|i (json & r & r' & _ & _ & _ & ->)|i w Hap|i w (? & ? & _ & _ & _ & _ & ->)
    |i (r & next & _ & _ & _ & ->)|i -> |(_ & _ & E3 & _)|plans lifecycle _ ->
    |i (raw & snap & raw' & Hst & Hch & Hck & ->)|i plan Hbg|i Hcl];
    try (by eapply not_committed_frame).
  - destruct Hap as (? & ? & ? & Hap). destruct_and! Hap. subst t'. by eapply not_committed_frame.
  - eapply not_committed_frame; [|done]. by rewrite E3.
  - by eapply tx_updated_not_committed.
  - destruct Hbg as (plans & raw & snap & Hno & _ & _ & _ & Hok & Hid & _ & Hpe & _ & _ & ->).
    intros raw0 snap0 Hst0. destruct (decide (id = i)) as [->|Hne].
    + assert (stored_tx (set_transactions (set_plans t plans) (<[i := raw]> (nt_transactions t))) i raw snap) as Hst'
        by (split_and!; [cbn; by rewrite lookup_insert_eq|done..]).
      destruct (stored_tx_fun _ _ _ _ _ _ Hst0 Hst') as [-> ->]. congruence.
    + destruct Hst0 as (Hl & Hok0 & Hi0). cbn in Hl. rewrite lookup_insert_ne in Hl by done. by apply (Hn raw0).
  - destruct Hcl as (raw & snap & cleanup & t1 & Hst & _ & _ & Hch & Hck & -> & _ & E2 & _).
    eapply not_committed_frame; [|eapply (tx_updated_not_committed t); [exact Hst|exact Hch|exact Hck|exact Hn]].
    cbn. by rewrite E2.
Qed.

Lemma not_committed_None t id : native_inv t -> not_committed t id <-> committed_receipt t id = None.
Proof.
  intros Hi. unfold committed_receipt. destruct (nt_transactions t !! id) as [raw|] eqn:El.
  - destruct (inv_load_tx _ _ _ Hi El) as (snap & Hst & ->). split.
    + intros Hn. by rewrite bool_decide_false by (by apply (Hn raw)).
    + intros Hc raw' snap' Hst'. destruct (stored_tx_fun _ _ _ _ _ _ Hst Hst') as [-> ->].
      intros Hcm. rewrite bool_decide_true in Hc by done.
      destruct (inv_receipt _ Hi _ _ _ Hst' Hcm) as [receipt Hr]. by rewrite Hr in Hc.
  - unfold load_native_transaction, transpose. rewrite El. split; [done|].
    intros _ raw' snap' (Hl & _). congruence.
Qed.

Lemma committed_receipt_stored t id raw snap :
  stored_tx t id raw snap -> ts_status snap = TxCommitted ->
  committed_receipt t id = match load_native_receipt t (ts_plan_id snap) with Ok r => r | Err _ => None end.
Proof. intros Hst Hc. unfold committed_receipt. by rewrite (load_stored _ _ _ _ Hst), bool_decide_true. Qed.

Lemma quiet_committed t t' id :
  native_inv t -> rtc quiet_step t t' ->
  native_inv t' /\ committed_receipt t' id = committed_receipt t id.
Proof.
  intros Hi Hr. induction Hr as [t|t t1 t2 Hs _ IH]; [done|].
  pose proof (native_step_inv _ _ Hi (step_quiet _ _ Hs)) as Hi1.
  destruct (IH Hi1) as [Hi2 E2]. split; [done|]. rewrite E2.
  pose proof (quiet_step_effect _ _ (native_inv_checked _ Hi) Hs) as He.
  destruct (nt_transactions t !! id) as [raw|] eqn:El.
  - destruct (inv_load_tx _ _ _ Hi El) as (snap & Hst & _).
    destruct (decide (ts_status snap = TxCommitted)) as [Hc|Hn].
    + destruct (effect_outcome _ _ _ _ _ Hi (eff_quiet _ _ He) Hst (or_introl Hc)) as (raw' & snap' & Hst' & Es & Ep & Hrc).
      rewrite (committed_receipt_stored _ _ _ _ Hst Hc), (committed_receipt_stored _ _ _ _ Hst' (eq_trans Es Hc)).
      by rewrite Ep, Hrc.
    + transitivity (None : option NativeApplyReceipt); [|symmetry]; apply not_committed_None; try done.
      * eapply quiet_not_committed; [done|]. intros raw' snap' Hst'.
        by destruct (stored_tx_fun _ _ _ _ _ _ Hst Hst') as [-> ->].
      * intros raw' snap' Hst'. by destruct (stored_tx_fun _ _ _ _ _ _ Hst Hst') as [-> ->].
  - transitivity (None : option NativeApplyReceipt); [|symmetry]; apply not_committed_None; try done.
    + eapply quiet_not_committed; [done|]. intros raw' snap' (Hl & _). congruence.
    + intros raw' snap' (Hl & _). congruence.
Qed.

(** ** Operations of the journal *)

(** The operation moves the tables by quiet steps and stays with its transaction. *)
Definition calm {T} (m : port J T) : Prop :=
  forall j, rtc quiet_step (jn_tables j) (jn_tables (m j).1)
            /\ jn_transaction_id (m j).1 = jn_transaction_id j.

Lemma calm_keeps {T} (m : port J T) : calm m -> keeps m.
Proof.
  intros Hm j Hi. destruct (Hm j) as [Hr Hid]. cbn. rewrite Hid. by apply quiet_committed.
Qed.

Lemma calm_ret {T} (v : T) : calm (ret v).
Proof. done. Qed.
Lemma calm_raise {T} e : calm (raise e : port J T).
Proof. done. Qed.
Lemma calm_get {T} (f : J -> T) : calm (get f).
Proof. done. Qed.
Lemma calm_of_result {T} (r : result BoundaryError T) : calm (of_result r).
Proof. done. Qed.
Lemma calm_read {T} (f : NativeTables -> TransactionId -> result VaultError T) : calm (read f).
Proof. done. Qed.
Lemma calm_update (f : J -> J) :
  (forall j, jn_tables (f j) = jn_tables j /\ jn_transaction_id (f j) = jn_transaction_id j) ->
  calm (update f).
Proof. intros Hf j. destruct (Hf j) as [E1 E2]. cbn. by rewrite E1. Qed.

Lemma calm_write f :
  (forall t id t', f t id = Ok t' -> quiet_step t t') -> calm (write f).
Proof.
  intros Hf j. unfold write. destruct (f (jn_tables j) (jn_transaction_id j)) as [t|e] eqn:E; [|done].
  cbn. split; [|done]. apply rtc_once. by eapply Hf.
Qed.

Lemma calm_bind {T U} (m : port J T) (k : T -> port J U) :
  calm m -> (forall v, calm (k v)) -> calm (bind m k).
Proof.
  intros Hm Hk j. unfold bind. destruct (Hm j) as [Hr Hid]. destruct (m j) as [j' [v|e]]; [|done].
  destruct (Hk v j') as [Hr' Hid']. cbn in *. split; [by etransitivity|congruence].
Qed.

Lemma calm_catch {T U} (m : port J T) (ok : T -> port J U) (err : BoundaryError -> port J U) :
  calm m -> (forall v, calm (ok v)) -> (forall e, calm (err e)) -> calm (catch m ok err).
Proof.
  intros Hm Hk He j. unfold catch. destruct (Hm j) as [Hr Hid]. destruct (m j) as [j' [v|e]];
    [destruct (Hk v j') as [Hr' Hid']|destruct (He e j') as [Hr' Hid']]; cbn in *;
    (split; [by etransitivity|congruence]).
Qed.

Lemma calm_fold {X B} (f : B -> X -> port J B) b l :
  (forall b x, calm (f b x)) -> calm (fold_act f b l).
Proof. intros Hf. revert b. induction l as [|x l IH]; intros b; cbn; [done|]. by apply calm_bind. Qed.

Lemma calm_require : calm (require_profile_lock : port J unit).
Proof. done. Qed.
Lemma calm_release : calm (release_profile_lock : port J unit).
Proof.
  intros j. unfold release_profile_lock. destruct (jn_profile_lock j); [|done].
  by destruct (lock_release _ _).
Qed.
Lemma calm_take : calm (take_profile_lock : port J unit).
Proof.
  intros j. unfold take_profile_lock. by destruct (lock_acquire _) as [os [lock|e]].
Qed.

Ltac calm_step :=
  match goal with
  | |- calm (bind _ _) => apply calm_bind; [|intros ?]
  | |- calm (catch _ _ _) => apply calm_catch; [|intros ?|intros ?]
  | |- calm (each _ _) => apply calm_fold; intros ? ?
  | |- calm (fold_act _ _ _) => apply calm_fold; intros ? ?
  | |- calm (write _) =>
      apply calm_write; intros ? ? ? ?;
      solve [by eapply step_enter|by eapply step_complete|by eapply step_images|by eapply step_transition
            |by eapply step_candidate|by eapply step_transition_token|by eapply step_restored_candidate
            |by eapply step_checkpoint|by eapply step_rebind|by eapply step_cli_prepare
            |by eapply step_cli_transition|by eapply step_recovery|by eapply step_recovered
            |by eapply step_cleanup]
  | |- calm (match ?x with _ => _ end) => destruct x
  | |- calm _ => first [apply calm_ret|apply calm_raise|apply calm_get|apply calm_of_result|apply calm_read
                       |apply calm_require|apply calm_release|apply calm_take
                       |apply calm_update; done]
  end.
Ltac calm := repeat calm_step.

Lemma calm_finish_compensated conflicts : calm (vault_finish_compensated (L := L) (Lock := Lock) conflicts).
Proof.
  unfold vault_finish_compensated, settle_record, settle_cli_record. calm.
Qed.

Lemma calm_acquire plan : wf_id (pn_plan_id plan) = true ->
  calm (vault_acquire_lock_and_begin (L := L) (Lock := Lock) plan).
Proof.
  intros Hw. unfold vault_acquire_lock_and_begin. apply calm_bind; [calm|]. intros held.
  destruct held; [calm|]. apply calm_bind; [calm|]. intros _u. apply calm_bind; [calm|]. intros j.
  apply calm_catch; [apply calm_write; intros t id t' Ht; by eapply step_begin; [|exact Ht]| |intros; calm].
  intros _v. apply calm_catch; [calm|intros; calm|intros; apply calm_catch; [apply calm_finish_compensated|intros; calm..]].
Qed.

Lemma calm_prepare index m :
  typed_mutation m = true -> calm (vault_prepare_mutation (L := L) (Lock := Lock) index m).
Proof.
  unfold typed_mutation. rewrite !andb_true_iff. intros [[Ht He] Hi].
  unfold vault_prepare_mutation. apply calm_bind; [calm|]. intros _u. apply calm_bind; [calm|]. intros images.
  destruct (images !! _) as [image|]; [|calm]. destruct (negb _ || negb _) eqn:En; [calm|]. bools.
  unfold sequence_of. destruct (N.leb_spec index u32_max) as [Hle|]; [|by intros j].
  intros j. cbn. unfold write. cbn.
  match goal with |- context [prepare_native_wal ?t ?i ?w] => destruct (prepare_native_wal t i w) eqn:Ep end; [|done].
  cbn. split; [|done]. apply rtc_once. eapply step_prepare; [|exact Ep].
  unfold typed_wal_write. cbn. match goal with X : im_fingerprint image = _ |- _ => rewrite X end.
  rewrite Ht, He, Hi, !andb_true_r. by apply N.leb_le.
Qed.

Lemma calm_prepare_cli index m : calm (vault_prepare_cli_mutation (L := L) (Lock := Lock) index m).
Proof. unfold vault_prepare_cli_mutation, sequence_of. calm. Qed.

(** ** Settling and committing *)

Lemma finish_recovery_status t id conflict no_write t' :
  tx_checked t -> finish_native_recovery_with_cli_no_write t id conflict no_write = Ok t' ->
  exists raw, nt_transactions t' !! id = Some raw
    /\ (rt_status raw = "restored"%string \/ rt_status raw = "conflict"%string).
Proof.
  unfold finish_native_recovery_with_cli_no_write. intros Hc Ht.
  apply rbind_Ok in Ht as (snap & [raw Hst]%require_native_transaction_Ok & Ht); [|done].
  pose proof Hst as (Hl & (_ & _ & _ & Hs & _) & _). cbv zeta in Ht.
  destruct (bool_decide _ && _ && _) eqn:E in Ht.
  { injection Ht as <-. exists raw. split; [done|]. bools. rewrite Hs.
    destruct conflict; match goal with X : ts_status snap = _ |- _ => rewrite X end; auto. }
  destruct (negb _) in Ht; [discriminate|]. apply rbind_Ok in Ht as (records & _ & Ht).
  destruct (negb _) in Ht; [discriminate|]. destruct (_ || _ || _) in Ht; [discriminate|].
  eapply update_transaction_Ok in Ht as (_ & _ & ->); [|done]. eexists. cbn.
  rewrite lookup_insert_eq. split; [done|]. destruct conflict; auto.
Qed.

Lemma finish_cleanup_step t id t' :
  tx_checked t -> finish_native_cleanup t id = Ok t' ->
  exists raw raw', nt_transactions t !! id = Some raw /\ nt_transactions t' !! id = Some raw'
    /\ rt_status raw' = rt_status raw /\ rt_current_step raw' = 20.
Proof.
  intros Hc Ht. pose proof Ht as Ht'.
  apply finish_native_cleanup_effect in Ht' as [->|(raw & snap & cl & t1 & (Hl & _) & _ & _ & _ & _ & -> & _)]; [| |done].
  - unfold finish_native_cleanup in Ht.
    apply rbind_Ok in Ht as (snap & [raw Hst]%require_native_transaction_Ok & Ht); [|done].
    pose proof Hst as (Hl & (_ & _ & _ & _ & _ & Hcu & _) & _). exists raw, raw. split_and!; try done.
    rewrite Hcu. cbv zeta in Ht. destruct (negb _ || negb _) eqn:E in Ht; [discriminate|].
    destruct (N.eqb_spec (ts_current_step snap) 20); [done|].
    (* a cleanup that runs changes the step *)
    apply rbind_Ok in Ht as (cl & _ & Ht). apply rbind_Ok in Ht as (t1 & _ & Ht).
    unfold update_transaction in Ht. destruct (_ !! id) in Ht; [|discriminate]. res_inv.
    match goal with X : set_transactions _ _ = t |- _ => apply (f_equal nt_transactions) in X;
      apply (f_equal (lookup id)) in X; cbn in X; rewrite lookup_insert_eq, Hl in X; injection X as X;
      apply (f_equal rt_current_step) in X; cbn in X; congruence end.
  - exists raw. eexists. split; [done|]. cbn. rewrite lookup_insert_eq. done.
Qed.

Lemma bind_Ok {T U} (m : port J T) (k : T -> port J U) j v :
  (bind m k j).2 = Ok v -> exists u, (m j).2 = Ok u /\ bind m k j = k u (m j).1.
Proof. unfold bind. destruct (m j) as [j' [u|e]]; [|done]. intros _. by exists u. Qed.

Lemma write_Ok f j : (write f j).2 = Ok tt ->
  exists t, f (jn_tables j) (jn_transaction_id j) = Ok t /\ (write f j).1 = put_tables j t.
Proof. unfold write. destruct (f _ _) as [t|e]; [|done]. intros _. by exists t. Qed.

(** Peels one operation off a sequence that succeeds. *)
Ltac peel Hr u Hu := let E := fresh "E" in apply bind_Ok in Hr as Hx; destruct Hx as (u & Hu & E); rewrite E in Hr |- *.

Lemma calm_inv {T} (m : port J T) j : calm m -> native_inv (jn_tables j) ->
  native_inv (jn_tables (m j).1) /\ jn_transaction_id (m j).1 = jn_transaction_id j.
Proof. intros Hm Hi. destruct (Hm j) as [Hr Hid]. split; [|done]. by apply (quiet_committed _ _ []) in Hr as [? _]. Qed.

Lemma release_Ok j : (release_profile_lock j).2 = Ok tt ->
  jn_profile_lock (release_profile_lock j).1 = None
  /\ jn_tables (release_profile_lock j).1 = jn_tables j
  /\ jn_transaction_id (release_profile_lock j).1 = jn_transaction_id j.
Proof.
  unfold release_profile_lock. destruct (jn_profile_lock j); [|done]. by destruct (lock_release _ _).
Qed.

(** The end of a settlement. *)
Lemma settle_end conflict cli_conflict no_write j :
  native_inv (jn_tables j) ->
  let m := bind (write (fun t id => finish_native_recovery_with_cli_no_write t id conflict no_write)) (fun _ =>
           bind (write finish_native_cleanup) (fun _ => bind release_profile_lock (fun _ =>
             if (cli_conflict : bool)
             then raise (Message "native CLI compensation encountered live divergence") else ret tt))) in
  (m j).2 = Ok tt -> js_settled (m j).1.
Proof.
  intros Hi. cbv zeta. intros Hr.
  peel Hr u Hu. destruct u. destruct (write_Ok _ _ Hu) as (t1 & Ht1 & Ej1).
  assert (native_inv t1) as Hi1.
  { eapply native_step_inv; [exact Hi|]. apply step_quiet. by eapply step_recovered. }
  destruct (finish_recovery_status _ _ _ _ _ (native_inv_checked _ Hi) Ht1) as (raw1 & Hl1 & Hs1).
  rewrite Ej1 in *. peel Hr u Hu2. destruct u. destruct (write_Ok _ _ Hu2) as (t2 & Ht2 & Ej2).
  destruct (finish_cleanup_step _ _ _ (native_inv_checked _ Hi1) Ht2) as (raw & raw2 & Hl & Hl2 & Es & E20).
  cbn in Hl, Hl2. rewrite Hl1 in Hl. injection Hl as <-.
  rewrite Ej2 in *. peel Hr u Hu3. destruct u. destruct (release_Ok _ Hu3) as (Hlock & Et & Eid).
  destruct cli_conflict; [done|]. cbn. rewrite Et, Eid. split; [|done]. exists raw2. cbn.
  rewrite Es. by split_and!.
Qed.

Lemma finish_compensated_settled conflicts j :
  native_inv (jn_tables j) -> (vault_finish_compensated conflicts j).2 = Ok tt ->
  js_settled (vault_finish_compensated conflicts j).1.
Proof.
  intros Hi. unfold vault_finish_compensated. intros Hr.
  peel Hr u1 Hu1. pose proof (calm_inv require_profile_lock j calm_require Hi) as [Hi1 _].
  set (j1 := (require_profile_lock j).1) in *. clearbody j1.
  peel Hr u2 Hu2. assert (Hi2 : native_inv (jn_tables (write begin_native_recovery j1).1))
    by (apply calm_inv; [calm|done]).
  set (j2 := (write begin_native_recovery j1).1) in *. clearbody j2.
  peel Hr records Hu3. change ((read native_wal j2).1) with j2 in *.
  peel Hr conflict Hu4.
  assert (Hi4 : native_inv (jn_tables (fold_act (settle_record conflicts) false records j2).1)).
  { apply calm_inv; [unfold settle_record; calm|done]. }
  set (j4 := (fold_act (settle_record conflicts) false records j2).1) in *. clearbody j4.
  peel Hr cli Hu5. change ((read native_cli_wal j4).1) with j4 in *.
  peel Hr cli_conflict Hu6.
  assert (Hi6 : native_inv (jn_tables (fold_act settle_cli_record false cli j4).1)).
  { apply calm_inv; [unfold settle_cli_record; calm|done]. }
  set (j6 := (fold_act settle_cli_record false cli j4).1) in *. clearbody j6.
  peel Hr no_write Hu7. by apply settle_end.
Qed.

Lemma vault_commit_cases plan receipt j :
  typed_native_receipt receipt = true -> native_inv (jn_tables j) ->
  let m := vault_commit_native_transaction plan receipt in
  native_inv (jn_tables (m j).1)
  /\ match (m j).2 with
     | Ok _ => committed_receipt (jn_tables (m j).1) (jn_transaction_id (m j).1) = Some receipt
     | Err _ => (m j).1 = j
     end.
Proof.
  intros Hty Hi. cbv zeta. unfold vault_commit_native_transaction, bind, require_profile_lock.
  destruct (jn_profile_lock j); [|done]. unfold write.
  destruct (commit_native_success _ _ _ _) as [t|e] eqn:Ec; [|done]. cbn.
  assert (Hi' : native_inv t) by (eapply native_step_inv; [exact Hi|]; by eapply step_commit).
  split; [done|]. destruct (commit_effect _ _ _ _ _ Hi Hty Ec) as ((raw & Hl & Hs & Hp) & Hload & _).
  destruct (inv_load_tx _ _ _ Hi' Hl) as (snap & Hst & _).
  assert (Hcm : ts_status snap = TxCommitted).
  { destruct Hst as (_ & (_ & _ & _ & Es & _) & _). rewrite Es in Hs. by destruct (ts_status snap). }
  rewrite (committed_receipt_stored _ _ _ _ Hst Hcm).
  assert (Hpl : ts_plan_id snap = rc_plan_id (nr_legacy receipt)); [|by rewrite Hpl, Hload].
  destruct Hst as (_ & (_ & Hpi & Hwf & _) & _). rewrite Hpi in Hp.
  assert (Hwr : wf_id (rc_plan_id (nr_legacy receipt)) = true).
  { unfold typed_native_receipt, typed_apply_receipt in Hty. rewrite !andb_true_iff in Hty. tauto. }
  pose proof (proj2 (plan_text _ _) (conj eq_refl Hwf)) as Hx1.
  pose proof (proj2 (plan_text _ _) (conj eq_refl Hwr)) as Hx2. congruence.
Qed.

Lemma vault_commit_Err plan receipt j e :
  (vault_commit_native_transaction plan receipt j).2 = Err e ->
  (vault_commit_native_transaction plan receipt j).1 = j.
Proof.
  unfold vault_commit_native_transaction, bind, require_profile_lock, write.
  destruct (jn_profile_lock j); [|done]. by destruct (commit_native_success _ _ _ _).
Qed.

#[global] Instance vault_journal_laws : NativeJournalLaws J.
Proof.
  split.
  - intros plan Hw. by apply calm_keeps, calm_acquire.
  - intros step. apply calm_keeps. cbn. unfold vault_enter_step. calm.
  - intros step. apply calm_keeps. cbn. unfold vault_complete_step. calm.
  - intros images. apply calm_keeps. cbn. unfold vault_put_before_images. calm.
  - intros index m Hm. by apply calm_keeps, calm_prepare.
  - intros index m outcome token. apply calm_keeps. cbn. unfold vault_mark_mutation_applied, sequence_of. calm.
  - intros index m token. apply calm_keeps. cbn. unfold vault_record_mutation_candidate, record_candidate, sequence_of. calm.
  - intros index token. apply calm_keeps. cbn. unfold vault_mark_mutation_conflict, sequence_of. calm.
  - intros index m token. apply calm_keeps. cbn.
    unfold vault_mark_mutation_applied_for_recovery, record_candidate, sequence_of. calm.
  - intros index token. apply calm_keeps. cbn. unfold vault_record_mutation_restored_candidate, sequence_of. calm.
  - intros index later old new. apply calm_keeps. cbn.
    unfold vault_checkpoint_mutation_applied_absence, sequence_of. calm.
  - intros index later old new. apply calm_keeps. cbn.
    unfold vault_rebind_mutation_applied_absence, sequence_of. calm.
  - intros index m. apply calm_keeps, calm_prepare_cli.
  - intros index m. apply calm_keeps. cbn. unfold vault_mark_cli_mutation_applied, move_cli, sequence_of. calm.
  - intros index m. apply calm_keeps. cbn. unfold vault_mark_cli_mutation_no_write, sequence_of.
    apply calm_bind; [calm|intros _u]. apply calm_bind; [calm|intros _v].
    apply calm_bind; [apply calm_prepare_cli|intros _w]. apply calm_bind; [calm|intros records].
    destruct (find _ _); [|calm]. destruct (negb _); [calm|]. apply calm_update. intros j.
    by destruct (bool_decide _).
  - intros index m. apply calm_keeps. cbn. unfold vault_prepare_cli_restore, move_cli, sequence_of. calm.
  - intros index m. apply calm_keeps. cbn. unfold vault_mark_cli_mutation_restored, move_cli, sequence_of. calm.
  - intros index m. apply calm_keeps. cbn. unfold vault_mark_cli_mutation_conflict, move_cli, sequence_of. calm.
  - apply calm_keeps. cbn. unfold vault_prepare_compensation. calm.
  - apply calm_keeps. cbn. unfold vault_finish_committed. calm.
  - intros conflicts. apply calm_keeps, calm_finish_compensated.
  - intros conflicts j. apply finish_compensated_settled.
  - intros plan receipt j Hty Hi. by apply vault_commit_cases.
  - intros plan receipt j Hty Hi Hr. pose proof (vault_commit_cases plan receipt j Hty Hi) as [_ Hc].
    change (commit_native_transaction plan receipt j) with (vault_commit_native_transaction plan receipt j) in *.
    cbv zeta in Hc. by rewrite Hr in Hc.
  - intros plan receipt j e _ He.
    change (commit_native_transaction plan receipt j) with (vault_commit_native_transaction plan receipt j) in *.
    by rewrite (vault_commit_Err _ _ _ _ He).
Qed.

(** ** The engine over the vault *)

Context `{!ApprovalHash} {A E F K C : Type} `{!NativeAdapter A} `{!RestrictedExecutor E}
  `{!NativeFileSystem F} `{!FaultHook K} `{!NativeCliExecutor C}.
Implicit Type s : NativeTransactionEngine A E F J K C.

(** The journal in the vault implements the journal the engine is verified against: every
    operation, whether it fails or not, keeps the invariant of the tables and what is
    committed; a commit that succeeds commits the receipt and one that fails nothing; and a
    settlement that succeeds leaves the transaction restored or in conflict, cleaned up, and
    the profile lock released. *)
Theorem vault_journal_refines : NativeJournalLaws J.
Proof. apply _. Qed.

(** C5. An application over the vault that succeeds is durable and exact: whatever the adapter,
    the executors and the file system do, the transaction is committed in the tables, its
    stored receipt is the one returned, and that receipt lists every target of the plan, in
    order, with the fingerprint the plan intends; the approval recomputed from the plan is
    its batch hash, and the plan had not expired. *)
Theorem native_apply_commits plan now_ms hlc s s' receipt :
  typed_plan plan hlc = true -> native_reachable (jn_tables (en_journal s)) ->
  apply plan now_ms hlc s = (s', Ok receipt) ->
  committed_receipt (jn_tables (en_journal s')) (jn_transaction_id (en_journal s')) = Some receipt
  /\ receipt = intended_receipt plan hlc /\ approved plan /\ now_ms <= pn_expires_at plan.
Proof. intros Hty Hi%native_reachable_inv. exact (engine_apply_commits plan now_ms hlc s s' receipt Hty Hi). Qed.

(** C8. An application over the vault that fails commits nothing: the transaction has the
    receipt it had before (none, when it is new), unless the commit succeeded and the last
    thing done was to release the reservation of the adapter, which failed with exactly the
    error that is returned; then the receipt is the one the plan intends. *)
Theorem native_failure_commits_nothing plan now_ms hlc s s' e :
  typed_plan plan hlc = true -> native_reachable (jn_tables (en_journal s)) ->
  apply plan now_ms hlc s = (s', Err e) ->
  committed_receipt (jn_tables (en_journal s')) (jn_transaction_id (en_journal s'))
  = committed_receipt (jn_tables (en_journal s)) (jn_transaction_id (en_journal s))
  \/ release_failed e s'
     /\ committed_receipt (jn_tables (en_journal s')) (jn_transaction_id (en_journal s'))
        = Some (intended_receipt plan hlc).
Proof. intros Hty Hi%native_reachable_inv. exact (engine_failure_commits_nothing plan now_ms hlc s s' e Hty Hi). Qed.

(** C9. A failure over the vault leaves nothing to recover unless it says so: when the error
    does not report a failed compensation, either the transaction is restored or in conflict,
    cleaned up, the profile lock released and the reservation released last; or the adapter
    does not own the approved runtime and nothing was touched; or the journal could not begin,
    is as that left it, and the reservation is released; or the transaction is committed and
    the last thing done, the release of the reservation, failed with exactly this error. *)
Theorem native_failure_settles plan now_ms hlc s s' e :
  typed_plan plan hlc = true -> native_reachable (jn_tables (en_journal s)) ->
  apply plan now_ms hlc s = (s', Err e) ->
  (forall primary compensation, e <> Compensation primary compensation) ->
  ((tx_settled (jn_tables (en_journal s')) (jn_transaction_id (en_journal s'))
    /\ jn_profile_lock (en_journal s') = None) /\ reservation_released s')
  \/ (installed_runtime (en_adapter s) <> pn_installed_runtime plan /\ en_journal s' = en_journal s)
  \/ (is_err (acquire_lock_and_begin plan (en_journal s)).2 = true
      /\ en_journal s' = (acquire_lock_and_begin plan (en_journal s)).1 /\ reservation_released s')
  \/ (release_failed e s'
      /\ committed_receipt (jn_tables (en_journal s')) (jn_transaction_id (en_journal s'))
         = Some (intended_receipt plan hlc)).
Proof. intros Hty Hi%native_reachable_inv. exact (engine_failure_settles plan now_ms hlc s s' e Hty Hi). Qed.
End facts.
