(* ===== verification/NativeApplyWitness.v ===== *)
(** * Native transactions: applications at concrete values

    One mutation applied over an empty vault, by a file system that reports what it wrote, with
    an adapter that accepts or rejects the result. *)

From S2P Require Import Prelude Ordering Text Protocol Minicbor CanonicalCbor Domain.
From S2P Require Import SyncPayload Crypto Operation Causal Merge Transport StateSummary.
From S2P Require Import Admission NativeModel NativeTables NativeWal NativeLedger NativeRows.
From S2P Require Import NativeSteps NativeEffects NativeGeneration NativeInvariant NativeClaims.
From S2P Require Import NativeWitness NativePorts NativeJournal NativeEngine NativeEngineFacts.
From S2P Require Import NativeJournalFacts.

#[local] Open Scope N_scope.

Module ApplyWitness.
#[local] Existing Instances rfc9562 rfc9562_laws Toy.toy NativeToy.native NativeToy.native_laws.
Import NativeWitness.

#[export] Instance parts : PlanParts := {|
  StagedInputs := unit; Sidecars := unit; InstalledRuntime := unit; PlanRest := unit |}.
#[export] Instance hash : ApprovalHash := {|
  approval_hash_v1 _ := Ok (digest Byte.x0a); approval_hash_v2 _ := Ok (digest Byte.x0a) |}.

(** Whether the adapter accepts what is effective. *)
#[export] Instance adapter : NativeAdapter bool := {|
  installed_runtime _ := None;
  reprobe_live_state _ := ret tt; compare_approved_digests _ := ret tt;
  verify_live_state_reservation _ := ret tt;
  validate_staged_output _ _ :=
    ret {| fo_staged_output_hash := digest Byte.x06; fo_scanner_result_hash := digest Byte.x07 |};
  validate_effective _ _ := fun accepts => (accepts, if accepts : bool then Ok tt
                                                     else Err (Message "not effective"));
  release_live_state_reservation := ret tt |}.
#[export] Instance executor : RestrictedExecutor unit := {|
  copy_allowlisted_inputs _ := ret tt; create_fake_roots := ret tt;
  build_restricted_environment := ret tt;
  run_restricted_tools _ :=
    ret {| rn_staged_output_hash := digest Byte.x06; rn_scanner_result_hash := digest Byte.x07 |};
  reject_unsafe_topology := ret tt |}.

(** The file system writes what is asked, as the object [token Byte.x05], and restores it. *)
#[export] Instance filesystem : NativeFileSystem (option NativeObjectToken) := {|
  create_before_images mutations :=
    ret ((fun m => {| im_id := lit "image-1"; im_target := am_target m;
                      im_object_token := token Byte.x01; im_fingerprint := am_expected m;
                      im_encrypted_state := [Byte.x02] |}) <$> mutations);
  record_native_metadata _ := ret tt; compare_and_swap_targets _ := ret tt;
  apply_mutation _ m f := Ask (token Byte.x05) (fun _ =>
    Finish (Some (token Byte.x05)) (Ok {| mo_wrote := true; mo_resulting_fingerprint := am_intended m |}));
  mutation_provenance _ f := f;
  restore_matching_applied_targets _ f :=
    Ask (PersistRestoredCandidate 0 (token Byte.x08)) (fun _ => Finish f (Ok {| conflict_target_sequences := [] |}));
  finish_committed_targets _ := ret tt |}.
#[export] Instance hook : FaultHook unit := {| after_step _ := ret tt |}.
#[export] Instance cli : NativeCliExecutor unit := {|
  probe_cli_mutation _ := ret None; compare_cli_targets _ := ret tt;
  apply_cli_mutation _ := ret {| cl_resulting_fingerprint := None; cl_command_error := None |};
  restore_cli_mutation_if_matches _ := ret {| cl_restored := true; cl_restored_fingerprint := None |};
  finish_committed_cli_mutations _ := ret tt |}.
#[export] Instance lock : ProfileLock unit unit := {| lock_acquire := ret tt; lock_release _ := ret tt |}.

Definition mutation : ApprovedMutation := {|
  am_target := target; am_kind := Payload; am_content := []; am_expected := digest Byte.x01;
  am_intended := digest Byte.x02 |}.
Definition tx_plan : NativeTransactionPlan := {|
  pn_plan_id := Fixture.id; pn_expires_at := 50; pn_batch_hash := digest Byte.x0a;
  pn_approval_version := 1; pn_sidecars := tt; pn_staged_inputs := tt;
  pn_expected_semantic_output_hash := digest Byte.x06; pn_scanner_result_hash := digest Byte.x07;
  pn_mutations := [mutation]; pn_cli_mutations := []; pn_installed_runtime := None;
  pn_ownership_changes := [owner]; pn_rest := tt |}.

Definition journal : VaultNativeJournal unit unit :=
  VaultNativeJournal_new empty_tables tt tx identity [Byte.x01] 5
    {| bp_max_bytes := 100; bp_retention_ms := 10 |}.
Definition engine (accepts : bool) : NativeTransactionEngine bool unit (option NativeObjectToken)
    (VaultNativeJournal unit unit) unit unit :=
  NativeTransactionEngine_new accepts tt None journal tt None.

Definition applied_run := apply tx_plan 10 Fixture.hlc (engine true).
Definition rejected_run := apply tx_plan 10 Fixture.hlc (engine false).

Lemma empty_reachable : native_reachable empty_tables.
Proof. by apply rtc_refl. Qed.

Lemma run_result {S X T} (r : S * result X T) v : r.2 = v -> r = (r.1, v).
Proof. by destruct r; simpl; intros ->. Qed.

(** The laws at a journal of the toy vault, and one of them used there. *)
Lemma journal_refines_witness :
  NativeJournalLaws (VaultNativeJournal unit unit) /\ js_inv journal.
Proof.
  split; [exact (vault_journal_refines (Parts := parts))|].
  exact (native_reachable_inv _ empty_reachable).
Defined.

Lemma apply_commits_witness :
  committed_receipt (jn_tables (en_journal applied_run.1)) (jn_transaction_id (en_journal applied_run.1))
  = Some (intended_receipt tx_plan Fixture.hlc).
Proof.
  refine (proj1 (native_apply_commits tx_plan 10 Fixture.hlc (engine true) applied_run.1
    (intended_receipt tx_plan Fixture.hlc) _ _ _)).
  - by vm_compute.
  - exact empty_reachable.
  - apply (run_result applied_run). vm_compute. reflexivity.
Defined.

Lemma failure_commits_nothing_witness :
  committed_receipt (jn_tables (en_journal rejected_run.1)) (jn_transaction_id (en_journal rejected_run.1))
  = committed_receipt empty_tables tx
  \/ release_failed (Boundary (Message "not effective")) rejected_run.1
     /\ committed_receipt (jn_tables (en_journal rejected_run.1)) (jn_transaction_id (en_journal rejected_run.1))
        = Some (intended_receipt tx_plan Fixture.hlc).
Proof.
  refine (native_failure_commits_nothing tx_plan 10 Fixture.hlc (engine false) rejected_run.1
    (Boundary (Message "not effective")) _ _ _).
  - by vm_compute.
  - exact empty_reachable.
  - apply (run_result rejected_run). vm_compute. reflexivity.
Defined.

Lemma failure_settles_witness :
  ((tx_settled (jn_tables (en_journal rejected_run.1)) (jn_transaction_id (en_journal rejected_run.1))
    /\ jn_profile_lock (en_journal rejected_run.1) = None) /\ reservation_released rejected_run.1)
  \/ (@None InstalledRuntime <> None /\ en_journal rejected_run.1 = journal)
  \/ (is_err (acquire_lock_and_begin tx_plan journal).2 = true
      /\ en_journal rejected_run.1 = (acquire_lock_and_begin tx_plan journal).1
      /\ reservation_released rejected_run.1)
  \/ (release_failed (Boundary (Message "not effective")) rejected_run.1
      /\ committed_receipt (jn_tables (en_journal rejected_run.1)) (jn_transaction_id (en_journal rejected_run.1))
         = Some (intended_receipt tx_plan Fixture.hlc)).
Proof.
  refine (native_failure_settles tx_plan 10 Fixture.hlc (engine false) rejected_run.1
    (Boundary (Message "not effective")) _ _ _ _).
  - by vm_compute.
  - exact empty_reachable.
  - apply (run_result rejected_run). vm_compute. reflexivity.
  - intros primary compensation. discriminate.
Defined.

(** The rejected transaction is settled, not merely one of the cases. *)
Example rejected_restored :
  (rt_status <$> nt_transactions (jn_tables (en_journal rejected_run.1)) !! tx) = Some "restored"%string
  /\ (rt_current_step <$> nt_transactions (jn_tables (en_journal rejected_run.1)) !! tx) = Some 20
  /\ jn_profile_lock (en_journal rejected_run.1) = None.
Proof. split_and!; vm_compute; reflexivity. Qed.
End ApplyWitness.
