(* ===== verification/NativeRecovery.v ===== *)
(** * Native transactions: recovery (core/native_transaction/recovery.rs)

    [recover_native_transactions]: what a restarted process does with every transaction that
    was interrupted.  It works from the tables alone; the live files, the command-line
    declarations and the sandbox are reached through [NativeRecoveryIo] and
    [NativeCliRecoveryIo], and a hook stands before and after every durable action. *)

From S2P Require Import Prelude Ordering Text Protocol Minicbor CanonicalCbor Domain.
From S2P Require Import SyncPayload Crypto Operation Causal Merge Transport StateSummary.
From S2P Require Import Admission NativeModel NativeTables NativeWal NativeLedger NativePorts.

#[local] Open Scope N_scope.
#[local] Open Scope act_scope.

(** ** Decisions *)

Inductive TransactionCommitState := StatePreCommit | StateCommitted.

Record RecoveryMutation := {
  rm_state : MutationWalState;
  rm_before : Fingerprint;
  rm_applied : Fingerprint;
  rm_restored : Fingerprint;
}.

Inductive RecoveryDecision :=
| FinalizeCommitted | DecidePrepareRestore | DecideMarkRestored | AlreadyRestored
| DecideMarkConflict | PreserveConflict.

Inductive RecoveryOutcome := OutcomeCommitted | OutcomeRestored | OutcomeConflict.
Inductive RecoveryCleanup := SandboxCleaned | SandboxConflict.
Inductive RecoveryRestore := TargetRestored | TargetConflict.
Inductive CliRecoveryRestore := DeclarationRestored | DeclarationConflict.
Inductive RecoveryProbe :=
| ProbeFingerprint (current : Fingerprint)
| ProbeRestoredNow (current : Fingerprint)
| ProbeConflict.

#[global] Instance TransactionCommitState_eq_dec : EqDecision TransactionCommitState.
Proof. solve_decision. Defined.
#[global] Instance RecoveryDecision_eq_dec : EqDecision RecoveryDecision.
Proof. solve_decision. Defined.
#[global] Instance RecoveryOutcome_eq_dec : EqDecision RecoveryOutcome.
Proof. solve_decision. Defined.
#[global] Instance RecoveryCleanup_eq_dec : EqDecision RecoveryCleanup.
Proof. solve_decision. Defined.

(** A live file is restored only from the fingerprint the transaction gave it. *)
Definition classify_recovery (mutation : RecoveryMutation) (current : Fingerprint)
    (commit : TransactionCommitState) : RecoveryDecision :=
  if bool_decide (commit = StateCommitted) then FinalizeCommitted else
  if bool_decide (rm_state mutation = WalConflict) then PreserveConflict else
  if bool_decide (current = rm_restored mutation) || bool_decide (current = rm_before mutation)
  then if bool_decide (rm_state mutation = WalRestored) then AlreadyRestored else DecideMarkRestored
  else if bool_decide (current = rm_applied mutation)
  then if bool_decide (rm_state mutation = WalPrepared) then DecideMarkConflict
       else DecidePrepareRestore
  else DecideMarkConflict.

(** ** Fault points *)

Inductive RecoveryAction :=
| PoisonGeneration | BeginRecovery | ProbeCliMutation | PrepareCliRestore | RestoreCliMutation
| MarkCliRestored | MarkCliConflict | CleanupCommittedCliMutations | PrepareRestore | RestoreTarget
| CheckpointAbsence | RebindAbsence | MarkRestored | MarkConflict | FinishRecovery | CleanupSandbox
| MarkCleanupConflict | FinishCleanup.
Inductive RecoveryMoment := MomentBefore | MomentAfter.

Record RecoveryFaultPoint := {
  fp_action : RecoveryAction;
  fp_moment : RecoveryMoment;
  fp_target_sequence : option N;
}.

Definition action_name (action : RecoveryAction) : rstr :=
  match action with
  | PoisonGeneration => lit "poison_generation"
  | BeginRecovery => lit "begin_recovery"
  | ProbeCliMutation => lit "probe_cli_mutation"
  | PrepareCliRestore => lit "prepare_cli_restore"
  | RestoreCliMutation => lit "restore_cli_mutation"
  | MarkCliRestored => lit "mark_cli_restored"
  | MarkCliConflict => lit "mark_cli_conflict"
  | CleanupCommittedCliMutations => lit "cleanup_committed_cli_mutations"
  | PrepareRestore => lit "prepare_restore"
  | RestoreTarget => lit "restore_target"
  | CheckpointAbsence => lit "checkpoint_absence"
  | RebindAbsence => lit "rebind_absence"
  | MarkRestored => lit "mark_restored"
  | MarkConflict => lit "mark_conflict"
  | FinishRecovery => lit "finish_recovery"
  | CleanupSandbox => lit "cleanup_sandbox"
  | MarkCleanupConflict => lit "mark_cleanup_conflict"
  | FinishCleanup => lit "finish_cleanup"
  end.
Definition all_actions : list RecoveryAction :=
  [PoisonGeneration; BeginRecovery; ProbeCliMutation; PrepareCliRestore; RestoreCliMutation;
   MarkCliRestored; MarkCliConflict; CleanupCommittedCliMutations; PrepareRestore; RestoreTarget;
   CheckpointAbsence; RebindAbsence; MarkRestored; MarkConflict; FinishRecovery; CleanupSandbox;
   MarkCleanupConflict; FinishCleanup].

Definition RecoveryFaultPoint_encode (self : RecoveryFaultPoint) : rstr :=
  action_name (fp_action self) ++ lit ":"
  ++ (match fp_moment self with MomentBefore => lit "before" | MomentAfter => lit "after" end)
  ++ lit ":"
  ++ (match fp_target_sequence self with None => lit "-" | Some value => u32_to_string value end).

(** [str::split(':')] *)
Fixpoint split_on (separator : N) (s : rstr) : list rstr :=
  match s with
  | [] => [[]]
  | c :: s' =>
      match split_on separator s' with
      | [] => [[c]]
      | field :: fields => if c =? separator then [] :: field :: fields
                           else (c :: field) :: fields
      end
  end.

Definition decode_action (name : rstr) : option RecoveryAction :=
  find (fun action => bool_decide (name = action_name action)) all_actions.

Definition RecoveryFaultPoint_decode (value : rstr) : option RecoveryFaultPoint :=
  match split_on 0x3A value with
  | action :: moment :: sequence :: rest =>
      action ← decode_action action;
      moment ← (if bool_decide (moment = lit "before") then Some MomentBefore
                else if bool_decide (moment = lit "after") then Some MomentAfter else None);
      target_sequence ← (if bool_decide (sequence = lit "-") then Some None
                         else Some <$> parse_u32 sequence);
      if bool_decide (rest = [])
      then Some {| fp_action := action; fp_moment := moment; fp_target_sequence := target_sequence |}
      else None
  | _ => None
  end.

(** ** The parts *)

Inductive NativeRecoveryError := RecoveryVault (error : VaultError) | RecoveryBoundary (error : BoundaryError).

Inductive RecoverySandboxIdentity :=
| RecoveryWindows (moniker sid : rstr)
| RecoveryMacos (generation : MacGeneration).

Definition recovery_sandbox_identity (identity : NativeSandboxIdentity)
    : result VaultError RecoverySandboxIdentity :=
  match identity with
  | WindowsIdentity moniker sid =>
      let? sid := ok_or (from_utf8 sid) (Validation "Windows sandbox SID is not UTF-8") in
      Ok (RecoveryWindows moniker sid)
  | MacosIdentity generation => Ok (RecoveryMacos generation)
  end.

Class RecoveryFaultHook (H : Type) := { fault_at : RecoveryFaultPoint -> port H unit }.

(** Where the source hands over some fields of a log row, the operation is handed the row. *)
Class NativeRecoveryIo (I : Type) := {
  probe : bytes -> NativeWalRecord -> port I RecoveryProbe;
  restore_if_matches : bytes -> NativeWalRecord -> bytes -> I ->
    session I NativeObjectToken RecoveryRestore;
  cleanup_sandbox : RecoverySandboxIdentity -> RecoveryOutcome -> port I RecoveryCleanup;
  cleanup_committed_mutation : bytes -> NativeWalRecord -> N -> port I unit;
  rebind_applied_absence : NativeWalRecord -> NativeObjectToken -> port I (option NativeObjectToken);
}.

Class NativeCliRecoveryIo (C : Type) := {
  probe_cli_declaration : bytes -> NativeCliWalRecord -> port C (option Sha256Digest);
  recover_cli_mutation_if_matches : bytes -> NativeCliWalRecord -> port C CliRecoveryRestore;
  finish_recovered_cli_mutations : bytes -> list NativeCliWalRecord -> port C unit;
}.

#[global] Instance NoRecoveryFault : RecoveryFaultHook unit := {| fault_at _ := ret tt |}.

Definition unavailable : BoundaryError := Message "native CLI recovery I/O is unavailable for nonempty CLI WAL".
#[global] Instance NoNativeCliRecoveryIo : NativeCliRecoveryIo unit := {|
  probe_cli_declaration _ _ := raise unavailable;
  recover_cli_mutation_if_matches _ _ := raise unavailable;
  finish_recovered_cli_mutations _ _ := raise unavailable |}.

Record RecoverySummary := {
  sm_committed : N;
  sm_restored : N;
  sm_conflicts : N;
  sm_cleanup_conflicts : N;
}.
Definition RecoverySummary_default : RecoverySummary :=
  {| sm_committed := 0; sm_restored := 0; sm_conflicts := 0; sm_cleanup_conflicts := 0 |}.
Definition recovered (self : RecoverySummary) : N :=
  sm_committed self + sm_restored self + sm_conflicts self.

(** The arguments of a recovery. *)
Record Recovery (I C H : Type) := {
  rv_vault : NativeTables;
  rv_io : I;
  rv_cli_io : C;
  rv_fault : H;
}.
Arguments rv_vault {I C H}.
Arguments rv_io {I C H}.
Arguments rv_cli_io {I C H}.
Arguments rv_fault {I C H}.
Arguments Build_Recovery {I C H}.

(** [wal[position].field = ..] *)
Definition with_record (r : NativeWalRecord) (state : MutationWalState)
    (applied restored : option NativeObjectToken) (rebind : option NativeWalAbsenceRebind)
    : NativeWalRecord := {|
  wr_target_sequence := wr_target_sequence r; wr_target := wr_target r;
  wr_object_token := wr_object_token r; wr_applied_object_token := applied;
  wr_restored_object_token := restored; wr_absence_rebind := rebind;
  wr_before_image_id := wr_before_image_id r; wr_operation_kind := wr_operation_kind r;
  wr_expected := wr_expected r; wr_intended_applied := wr_intended_applied r;
  wr_intended_restored := wr_intended_restored r; wr_state := state |}.
Definition in_state (state : MutationWalState) (r : NativeWalRecord) : NativeWalRecord :=
  with_record r state (wr_applied_object_token r) (wr_restored_object_token r) (wr_absence_rebind r).
Definition applied_as (token : NativeObjectToken) (r : NativeWalRecord) : NativeWalRecord :=
  with_record r (wr_state r) (Some token) (wr_restored_object_token r) (wr_absence_rebind r).
Definition restored_as (token : NativeObjectToken) (r : NativeWalRecord) : NativeWalRecord :=
  with_record r (wr_state r) (wr_applied_object_token r) (Some token) (wr_absence_rebind r).
Definition rebound_as (checkpoint : NativeWalAbsenceRebind) (r : NativeWalRecord) : NativeWalRecord :=
  with_record r (wr_state r) (wr_applied_object_token r) (wr_restored_object_token r) (Some checkpoint).

Definition absence (token : option NativeObjectToken) : bool :=
  match token with Some token => is_absence_generation token | None => false end.

Section recovery.
Context `{UuidCrate} `{NativeJson} `{Primitives} {I C K : Type} `{!NativeRecoveryIo I}
  `{!NativeCliRecoveryIo C} `{!RecoveryFaultHook K}.
Abbreviation S := (Recovery I C K).
Abbreviation recovers T := (act S NativeRecoveryError T).

(** ** Access to the parts *)

Definition on_fault {T} (m : port K T) : recovers T :=
  fun s => let '(h, r) := m (rv_fault s) in
           (Build_Recovery (rv_vault s) (rv_io s) (rv_cli_io s) h, map_err RecoveryBoundary r).
Definition on_io {T} (m : port I T) : recovers T :=
  fun s => let '(io, r) := m (rv_io s) in
           (Build_Recovery (rv_vault s) io (rv_cli_io s) (rv_fault s), map_err RecoveryBoundary r).
Definition on_cli_io {T} (m : port C T) : recovers T :=
  fun s => let '(c, r) := m (rv_cli_io s) in
           (Build_Recovery (rv_vault s) (rv_io s) c (rv_fault s), map_err RecoveryBoundary r).
Definition query {T} (f : NativeTables -> result VaultError T) : recovers T :=
  fun s => (s, map_err RecoveryVault (f (rv_vault s))).
Definition commit (f : NativeTables -> result VaultError NativeTables) : recovers unit :=
  fun s => match f (rv_vault s) with
           | Ok t => (Build_Recovery t (rv_io s) (rv_cli_io s) (rv_fault s), Ok tt)
           | Err e => (s, Err (RecoveryVault e))
           end.

Definition hit (action : RecoveryAction) (moment : RecoveryMoment) (target_sequence : option N)
    : recovers unit :=
  on_fault (fault_at {| fp_action := action; fp_moment := moment;
                        fp_target_sequence := target_sequence |}).
(** An action between its two fault points. *)
Definition around {T} (action : RecoveryAction) (target_sequence : option N) (m : recovers T)
    : recovers T :=
  hit action MomentBefore target_sequence;;
  let! v := m in
  hit action MomentAfter target_sequence;;
  ret v.

Section transaction.
Context (transaction_id : TransactionId).

(** [transition_native_wal] on the row at [position], in the tables and in memory. *)
Definition move_row (wal : list NativeWalRecord) (position : nat) (sequence : N)
    (next : MutationWalState) : recovers (list NativeWalRecord) :=
  commit (fun t => transition_native_wal t transaction_id sequence next);;
  ret (alter (in_state next) position wal).

(** ** Absences *)

(** The nearest earlier row, written, of the same directory. *)
Definition earlier_of (wal : list NativeWalRecord) (later_position : nat) (later : NativeWalRecord)
    : option (nat * NativeWalRecord) :=
  position ← find (fun position =>
      match wal !! position with
      | Some r => bool_decide (is_Some (wr_applied_object_token r))
                  && has_same_parent_binding (wr_object_token r) (wr_object_token later)
      | None => false
      end) (reverse (seq 0 later_position));
  earlier ← wal !! position;
  Some (position, earlier).

(** The checkpoint of the move: the one on record, or a new one for a file that was just
    restored; [None] when neither can be had, and the earlier row is in conflict. *)
Definition absence_checkpoint (wal : list NativeWalRecord) (later_position earlier_position : nat)
    (later earlier : NativeWalRecord) (old_token : NativeObjectToken) (fresh : bool)
    : recovers (list NativeWalRecord * option NativeWalAbsenceRebind) :=
  let target_sequence := wr_target_sequence earlier in
  match wr_absence_rebind later with
  | Some checkpoint =>
      if negb (ar_target_sequence checkpoint =? target_sequence)
      then raise (RecoveryVault (Validation "native WAL absence checkpoint names a non-nearest target"))
      else ret (wal, Some checkpoint)
  | None =>
      if fresh then
        let! new_token := on_io (rebind_applied_absence earlier old_token) in
        match new_token with
        | None => let! wal := move_row wal earlier_position target_sequence WalConflict in
                  ret (wal, None)
        | Some new_token =>
            let checkpoint := {| ar_target_sequence := target_sequence; ar_old_token := old_token;
                                 ar_new_token := new_token |} in
            around CheckpointAbsence (Some target_sequence)
              (commit (fun t => checkpoint_native_wal_absence_rebind t transaction_id
                 target_sequence (wr_target_sequence later) old_token new_token));;
            ret (alter (rebound_as checkpoint) later_position wal, Some checkpoint)
        end
      else let! wal := move_row wal earlier_position target_sequence WalConflict in
           ret (wal, None)
  end.

(** The token of an absence names the directory, which the restore of a later row changed:
    the earlier row is bound to the directory as it is now.  Answers whether it is in conflict. *)
Definition rebind_next_earlier_absence (wal : list NativeWalRecord) (later_position : nat)
    (checkpoint_fresh_restore : bool) : recovers (list NativeWalRecord * bool) :=
  match wal !! later_position with
  | None => raise (RecoveryVault (Validation "native WAL restore index is missing"))
  | Some later =>
      if bool_decide (wr_applied_object_token later = None)
         || bool_decide (wr_restored_object_token later = None)
      then ret (wal, false) else
      match earlier_of wal later_position later with
      | None => ret (wal, false)
      | Some (earlier_position, earlier) =>
          match wr_applied_object_token earlier with
          | None => ret (wal, false)
          | Some old_token =>
              if negb (is_absence_generation old_token) then ret (wal, false) else
              let target_sequence := wr_target_sequence earlier in
              let! (wal, earlier) :=
                if bool_decide (wr_state earlier = WalApplied) || bool_decide (wr_state earlier = WalPrepared)
                then let! wal := around PrepareRestore (Some target_sequence)
                       (move_row wal earlier_position target_sequence WalRestorePrepared) in
                     ret (wal, in_state WalRestorePrepared earlier)
                else ret (wal, earlier) in
              if negb (bool_decide (wr_state earlier = WalRestorePrepared)) then ret (wal, false) else
              let! (wal, checkpoint) := absence_checkpoint wal later_position earlier_position later
                                           earlier old_token checkpoint_fresh_restore in
              match checkpoint with
              | None => ret (wal, true)
              | Some checkpoint =>
                  hit RebindAbsence MomentBefore (Some target_sequence);;
                  let! live_token := on_io (rebind_applied_absence earlier (ar_old_token checkpoint)) in
                  if negb (bool_decide (live_token = Some (ar_new_token checkpoint)))
                  then let! wal := move_row wal earlier_position target_sequence WalConflict in
                       ret (wal, true)
                  else
                    commit (fun t => rebind_native_wal_applied_absence t transaction_id target_sequence
                      (wr_target_sequence later) (ar_old_token checkpoint) (ar_new_token checkpoint));;
                    hit RebindAbsence MomentAfter (Some target_sequence);;
                    ret (alter (applied_as (ar_new_token checkpoint)) earlier_position wal, false)
              end
          end
      end
  end.

(** ** Command-line rows *)

Definition mark_cli_conflict (sequence : N) : recovers unit :=
  around MarkCliConflict (Some sequence)
    (commit (fun t => transition_native_cli_wal t transaction_id sequence CliConflict)).
Definition mark_cli_restored (sequence : N) : recovers unit :=
  around MarkCliRestored (Some sequence)
    (commit (fun t => transition_native_cli_wal t transaction_id sequence CliRestored)).

Definition recover_cli_row (sealed_plan_payload : bytes) (acc : bool * list N)
    (durable : NativeCliWalRecord) : recovers (bool * list N) :=
  let '(conflict, prepared_no_write) := acc in
  let write := cr_write durable in
  let sequence := cw_sequence write in
  match cr_state durable with
  | CliConflict => ret (true, prepared_no_write)
  | CliRestored => ret (conflict, prepared_no_write)
  | state =>
      let! live := around ProbeCliMutation (Some sequence)
                     (on_cli_io (probe_cli_declaration sealed_plan_payload durable)) in
      if bool_decide (state = CliPrepared) && bool_decide (live = cw_expected_fingerprint write)
      then ret (conflict, prepared_no_write ++ [sequence]) else
      if bool_decide (state = CliRestorePrepared) && bool_decide (live = cw_expected_fingerprint write)
      then mark_cli_restored sequence;; ret (conflict, prepared_no_write) else
      if negb (bool_decide (live = cw_intended_fingerprint write))
      then mark_cli_conflict sequence;; ret (true, prepared_no_write) else
      (if bool_decide (state = CliPrepared)
       then commit (fun t => transition_native_cli_wal t transaction_id sequence CliApplied)
       else ret tt);;
      (if bool_decide (state = CliPrepared) || bool_decide (state = CliApplied)
       then around PrepareCliRestore (Some sequence)
              (commit (fun t => transition_native_cli_wal t transaction_id sequence CliRestorePrepared))
       else ret tt);;
      let! restore := around RestoreCliMutation (Some sequence)
        (on_cli_io (recover_cli_mutation_if_matches sealed_plan_payload
           {| cr_write := write; cr_state := CliRestorePrepared |})) in
      match restore with
      | DeclarationRestored => mark_cli_restored sequence;; ret (conflict, prepared_no_write)
      | DeclarationConflict => mark_cli_conflict sequence;; ret (true, prepared_no_write)
      end
  end.

Definition recover_cli_mutations (sealed_plan_payload : bytes) (wal : list NativeCliWalRecord)
    : recovers (bool * list N) :=
  fold_act (recover_cli_row sealed_plan_payload) (false, []) (reverse wal).

(** ** Rows of the log *)

Section rows.
Context (transaction_nonce : bytes).

(** [io.restore_if_matches]; its callback writes to the vault and remembers the candidate. *)
Definition restore_row (mutation : NativeWalRecord) (before_image : bytes)
    : recovers (option NativeObjectToken * RecoveryRestore) :=
  fun s =>
    let answer token : port (NativeTables * option NativeObjectToken) unit := fun '(t, candidate) =>
      match record_native_wal_restored_candidate t transaction_id (wr_target_sequence mutation) token with
      | Ok t' => ((t', Some token), Ok tt)
      | Err e => ((t, candidate), Err (FromVault e))
      end in
    let '(io, (t, candidate), r) :=
      run_session answer (restore_if_matches transaction_nonce mutation before_image (rv_io s))
        (rv_vault s, None) in
    (Build_Recovery t io (rv_cli_io s) (rv_fault s),
     let? restore := map_err RecoveryBoundary r in Ok (candidate, restore)).

(** A row whose file is to be absent is prepared and given the parent to restore into before
    the file is probed. *)
Definition prepare_absence (wal : list NativeWalRecord) (position : nat) (mutation : NativeWalRecord)
    : recovers (list NativeWalRecord * NativeWalRecord) :=
  let sequence := wr_target_sequence mutation in
  let! (wal, mutation) :=
    if (bool_decide (wr_state mutation = WalPrepared) || bool_decide (wr_state mutation = WalApplied))
       && absence (wr_applied_object_token mutation)
    then let! wal := around PrepareRestore (Some sequence)
                       (move_row wal position sequence WalRestorePrepared) in
         ret (wal, in_state WalRestorePrepared mutation)
    else ret (wal, mutation) in
  if bool_decide (wr_state mutation = WalRestorePrepared)
     && absence (wr_applied_object_token mutation)
     && bool_decide (wr_restored_object_token mutation = None)
  then commit (fun t => record_native_wal_restored_candidate t transaction_id sequence
                          (wr_object_token mutation));;
       ret (alter (restored_as (wr_object_token mutation)) position wal,
            restored_as (wr_object_token mutation) mutation)
  else ret (wal, mutation).

Definition mark_row_conflict (wal : list NativeWalRecord) (position : nat) (sequence : N)
    : recovers (list NativeWalRecord) :=
  around MarkConflict (Some sequence) (move_row wal position sequence WalConflict).
Definition mark_row_restored (wal : list NativeWalRecord) (position : nat) (sequence : N)
    : recovers (list NativeWalRecord) :=
  around MarkRestored (Some sequence) (move_row wal position sequence WalRestored).

(** The file is as the transaction left it: it is restored from its before-image. *)
Definition restore_target (wal : list NativeWalRecord) (position : nat) (mutation : NativeWalRecord)
    : recovers (list NativeWalRecord * bool) :=
  let sequence := wr_target_sequence mutation in
  let! wal := around PrepareRestore (Some sequence) (move_row wal position sequence WalRestorePrepared) in
  let mutation := in_state WalRestorePrepared mutation in
  let! before_image := query (fun t => native_before_image t (wr_before_image_id mutation)) in
  let! (candidate, restore) := around RestoreTarget (Some sequence) (restore_row mutation before_image) in
  match restore with
  | TargetRestored =>
      let wal := match candidate with
                 | Some candidate => alter (restored_as candidate) position wal
                 | None => wal
                 end in
      let! (wal, rebound) := rebind_next_earlier_absence wal position true in
      let! wal := mark_row_restored wal position sequence in
      ret (wal, rebound)
  | TargetConflict =>
      let! wal := mark_row_conflict wal position sequence in
      ret (wal, true)
  end.

(** The file is as it was before the transaction. *)
Definition accept_restored (wal : list NativeWalRecord) (position : nat) (mutation : NativeWalRecord)
    (phase_restored_now : bool) : recovers (list NativeWalRecord * bool) :=
  let sequence := wr_target_sequence mutation in
  let! wal :=
    if bool_decide (wr_state mutation = WalApplied)
       || (bool_decide (wr_state mutation = WalPrepared)
           && bool_decide (is_Some (wr_applied_object_token mutation)))
    then around PrepareRestore (Some sequence) (move_row wal position sequence WalRestorePrepared)
    else ret wal in
  let! (wal, rebound) := rebind_next_earlier_absence wal position phase_restored_now in
  let! wal := mark_row_restored wal position sequence in
  ret (wal, rebound).

Definition recovery_mutation (mutation : NativeWalRecord) : RecoveryMutation := {|
  rm_state := if bool_decide (wr_state mutation = WalPrepared)
                 && bool_decide (is_Some (wr_applied_object_token mutation))
              then WalApplied else wr_state mutation;
  rm_before := wr_expected mutation; rm_applied := wr_intended_applied mutation;
  rm_restored := wr_intended_restored mutation |}.

Definition decide_row (wal : list NativeWalRecord) (position : nat) (mutation : NativeWalRecord)
    (current : Fingerprint) (phase_restored_now : bool) : recovers (list NativeWalRecord * bool) :=
  match classify_recovery (recovery_mutation mutation) current StatePreCommit with
  | DecidePrepareRestore => restore_target wal position mutation
  | DecideMarkRestored => accept_restored wal position mutation phase_restored_now
  | AlreadyRestored => rebind_next_earlier_absence wal position false
  | DecideMarkConflict =>
      let! wal := mark_row_conflict wal position (wr_target_sequence mutation) in ret (wal, true)
  | PreserveConflict | FinalizeCommitted => ret (wal, true)
  end.

(** One turn of the loop over the positions of the log, which [position] is within. *)
Definition recover_row (acc : list NativeWalRecord * bool) (position : nat)
    : recovers (list NativeWalRecord * bool) :=
  let '(wal, conflict) := acc in
  match wal !! position with
  | None => ret (wal, conflict)
  | Some mutation =>
      if bool_decide (wr_state mutation = WalConflict) then ret (wal, true) else
      let! (wal, mutation) := prepare_absence wal position mutation in
      let! probed := on_io (probe transaction_nonce mutation) in
      match probed with
      | ProbeConflict =>
          let! wal := mark_row_conflict wal position (wr_target_sequence mutation) in ret (wal, true)
      | ProbeFingerprint current =>
          let! (wal, turned) := decide_row wal position mutation current false in
          ret (wal, conflict || turned)
      | ProbeRestoredNow current =>
          let! (wal, turned) := decide_row wal position mutation current true in
          ret (wal, conflict || turned)
      end
  end.

(** ** Transactions *)

(** A transaction that had not committed is undone, row by row from the last. *)
Definition recover_precommit (sealed_plan_payload : bytes) (cli_wal : list NativeCliWalRecord)
    : recovers RecoveryOutcome :=
  around BeginRecovery None (commit (fun t => begin_native_recovery t transaction_id));;
  let! (conflict, prepared_cli_no_write) := recover_cli_mutations sealed_plan_payload cli_wal in
  let! wal := query (fun t => native_wal t transaction_id) in
  let! (wal, conflict) := fold_act recover_row (wal, conflict) (reverse (seq 0 (length wal))) in
  around FinishRecovery None
    (commit (fun t => finish_native_recovery_with_cli_no_write t transaction_id conflict
                        prepared_cli_no_write));;
  ret (if (conflict : bool) then OutcomeConflict else OutcomeRestored).

Definition clean_committed (cleaned_deletes : list NativeObjectToken) (mutation : NativeWalRecord)
    : recovers (list NativeObjectToken) :=
  let is_delete := absence (wr_applied_object_token mutation) in
  let removed_parent_entries := if is_delete
    then len (filter (fun token => has_same_parent_binding token (wr_object_token mutation) = true)
                cleaned_deletes)
    else 0 in
  on_io (cleanup_committed_mutation transaction_nonce mutation removed_parent_entries);;
  ret (if is_delete then cleaned_deletes ++ [wr_object_token mutation] else cleaned_deletes).

Definition recover_committed (sealed_plan_payload : bytes) (cli_wal : list NativeCliWalRecord)
    : recovers RecoveryOutcome :=
  (if bool_decide (len cli_wal = 0) then ret tt else
   around CleanupCommittedCliMutations None
     (on_cli_io (finish_recovered_cli_mutations sealed_plan_payload cli_wal));;
   commit (fun t => finish_committed_native_cli_cleanup t transaction_id));;
  let! wal := query (fun t => native_wal t transaction_id) in
  fold_act clean_committed [] wal;;
  ret OutcomeCommitted.
End rows.
End transaction.

Definition terminal_outcome (status : NativeTransactionStatus) : option RecoveryOutcome :=
  match status with
  | TxCommitted => Some OutcomeCommitted
  | TxRestored => Some OutcomeRestored
  | TxConflict => Some OutcomeConflict
  | TxPending | TxRestoring => None
  end.

Definition count_outcome (summary : RecoverySummary) (outcome : RecoveryOutcome)
    (cleanup : RecoveryCleanup) : RecoverySummary := {|
  sm_committed := sm_committed summary + (if bool_decide (outcome = OutcomeCommitted) then 1 else 0);
  sm_restored := sm_restored summary + (if bool_decide (outcome = OutcomeRestored) then 1 else 0);
  sm_conflicts := sm_conflicts summary + (if bool_decide (outcome = OutcomeConflict) then 1 else 0);
  sm_cleanup_conflicts := sm_cleanup_conflicts summary
                          + (if bool_decide (cleanup = SandboxConflict) then 1 else 0) |}.

(** What became of the transaction. *)
Definition recover_outcome (transaction : NativeTransactionSnapshot) : recovers RecoveryOutcome :=
  let id := ts_transaction_id transaction in
  let! cli_wal := query (fun t => native_cli_wal t id) in
  let! sealed_plan_payload := if bool_decide (len cli_wal = 0) then ret []
                              else query (fun t => native_plan_payload_for_recovery t id) in
  if bool_decide (ts_sandbox_cleanup_state transaction = CleanupConflict)
     || (ts_current_step transaction =? 20)
  then of_result (ok_or (terminal_outcome (ts_status transaction))
         (RecoveryVault (Validation "native cleanup conflict has no durable terminal outcome")))
  else match ts_status transaction with
       | TxCommitted => recover_committed id (ts_plan_id transaction) sealed_plan_payload cli_wal
       | TxRestored => ret OutcomeRestored
       | TxConflict => ret OutcomeConflict
       | TxPending | TxRestoring =>
           recover_precommit id (ts_plan_id transaction) sealed_plan_payload cli_wal
       end.

Definition recover_sandbox (transaction : NativeTransactionSnapshot) (outcome : RecoveryOutcome)
    : recovers RecoveryCleanup :=
  let id := ts_transaction_id transaction in
  let! cleanup_identity := query (fun _ => recovery_sandbox_identity (ts_identity transaction)) in
  if bool_decide (ts_sandbox_cleanup_state transaction = CleanupConflict) then ret SandboxConflict else
  if ts_current_step transaction =? 20 then ret SandboxCleaned else
  let! cleanup := around CleanupSandbox None (on_io (cleanup_sandbox cleanup_identity outcome)) in
  (if bool_decide (cleanup = SandboxConflict)
   then around MarkCleanupConflict None (commit (fun t => mark_native_cleanup_conflict t id))
   else ret tt);;
  ret cleanup.

Definition recover_transaction (summary : RecoverySummary) (listed : NativeTransactionSnapshot)
    : recovers RecoverySummary :=
  let id := ts_transaction_id listed in
  around PoisonGeneration None (commit (fun t => poison_interrupted_macos_generation t id));;
  let! found := query (fun t => load_native_transaction t id) in
  let! transaction := of_result (ok_or found
    (RecoveryVault (Validation "native transaction disappeared"))) in
  let! outcome := recover_outcome transaction in
  let! cleanup := recover_sandbox transaction outcome in
  around FinishCleanup None (commit (fun t => finish_native_cleanup t id));;
  ret (count_outcome summary outcome cleanup).

Definition recover_native_transactions_with_cli_and_faults : recovers RecoverySummary :=
  let! transactions := query recoverable_native_transactions in
  fold_act recover_transaction RecoverySummary_default transactions.

Definition require_empty_cli_wal : recovers unit :=
  let! transactions := query recoverable_native_transactions in
  each (fun transaction =>
    let! wal := query (fun t => native_cli_wal t (ts_transaction_id transaction)) in
    if bool_decide (len wal = 0) then ret tt else raise (RecoveryBoundary unavailable)) transactions.
End recovery.

Section entry.
Context `{UuidCrate} `{NativeJson} `{Primitives} {I C : Type} `{!NativeRecoveryIo I}
  `{!NativeCliRecoveryIo C}.

Definition recover_native_transactions_with_cli (s : Recovery I C unit)
    : Recovery I C unit * result NativeRecoveryError RecoverySummary :=
  recover_native_transactions_with_cli_and_faults s.

Definition recover_native_transactions (s : Recovery I unit unit)
    : Recovery I unit unit * result NativeRecoveryError RecoverySummary :=
  (require_empty_cli_wal;; recover_native_transactions_with_cli_and_faults) s.

Definition recover_native_transactions_with_faults {K : Type} `{!RecoveryFaultHook K}
    (s : Recovery I unit K) : Recovery I unit K * result NativeRecoveryError RecoverySummary :=
  (require_empty_cli_wal;; recover_native_transactions_with_cli_and_faults) s.
End entry.
