(* ===== verification/NativeRecoveryFacts.v ===== *)
(** * Native transactions: what recovery does to the tables

    Whatever the live files, the command lines and the hook do, a recovery is a sequence of
    operations of the vault on one transaction after the other.  [keeps] states what an action
    does to the tables as a relation; the lemmas compose it over the parts of a recovery. *)

From S2P Require Import Prelude Ordering Text Protocol Minicbor CanonicalCbor Domain.
From S2P Require Import SyncPayload Crypto Operation Causal Merge Transport StateSummary.
From S2P Require Import Admission NativeModel NativeTables NativeWal NativeLedger NativeRows.
From S2P Require Import NativeSteps NativeEffects NativeGeneration NativeInvariant NativeClaims.
From S2P Require Import NativePorts NativeJournal NativeEngine NativeEngineFacts NativeJournalFacts.
From S2P Require Import NativeRecovery.

#[local] Open Scope N_scope.
#[local] Open Scope act_scope.

(** ** Fault points *)

Lemma find_action action : decode_action (action_name action) = Some action.
Proof. by destruct action. Qed.

Lemma action_name_no_colon action : 0x3A ∉ action_name action.
Proof. apply (bool_decide_unpack _). by destruct action; vm_compute. Qed.

Lemma split_on_app separator field rest :
  separator ∉ field -> split_on separator (field ++ separator :: rest) = field :: split_on separator rest.
Proof.
  induction field as [|c field IH]; intros Hf; simpl.
  - rewrite N.eqb_refl. destruct (split_on separator rest) eqn:E; [|done].
    destruct rest as [|d rest]; [done|]. simpl in E.
    destruct (split_on separator rest); [done|by destruct (d =? separator)].
  - rewrite IH by set_solver. destruct (N.eqb_spec c separator); [set_solver|done].
Qed.

Lemma split_on_last separator field : separator ∉ field -> split_on separator field = [field].
Proof.
  induction field as [|c field IH]; intros Hf; simpl; [done|].
  rewrite IH by set_solver. destruct (N.eqb_spec c separator); [set_solver|done].
Qed.

Lemma decimal_digits_in fuel (n c : N) : c ∈ decimal fuel n -> 0x30 <= c <= 0x39.
Proof.
  revert n. induction fuel as [|fuel IH]; intros n; cbn [decimal]; [set_solver|].
  destruct (N.ltb_spec n 10).
  - rewrite list_elem_of_singleton. lia.
  - rewrite elem_of_app, list_elem_of_singleton. intros [?| ->]; [by eapply IH|].
    pose proof (N.mod_lt n 10 ltac:(done)) as Hm. revert Hm.
    generalize (n mod 10). clear. lia.
Qed.

Lemma decimal_value fuel (n : N) :
  n < 10 ^ N.of_nat fuel ->
  foldl (fun acc c => 10 * acc + (c - 0x30)) 0 (decimal fuel n) = n.
Proof.
  revert n. induction fuel as [|fuel IH]; intros n Hn; cbn [decimal]; [simpl in Hn; cbn; lia|].
  destruct (N.ltb_spec n 10); [cbn [foldl]; lia|].
  rewrite foldl_app, IH; cbn [foldl].
  - pose proof (N.div_mod n 10 ltac:(done)) as E. revert E.
    generalize (n mod 10), (n / 10). clear. lia.
  - rewrite Nat2N.inj_succ, N.pow_succ_r' in Hn. apply N.Div0.div_lt_upper_bound. lia.
Qed.

Lemma parse_u32_to_string (n : N) : n <= u32_max -> parse_u32 (u32_to_string n) = Some n.
Proof.
  intros Hn. unfold parse_u32, u32_to_string.
  assert (Hd : forall c, c ∈ decimal 10 n -> 0x30 <= c <= 0x39) by (intros c; apply decimal_digits_in).
  assert (Hv : foldl (fun acc c => 10 * acc + (c - 0x30)) 0 (decimal 10 n) = n)
    by (apply decimal_value; unfold u32_max in *; lia).
  assert (Hne : decimal 10 n <> []).
  { cbn [decimal]. destruct (n <? 10); [done|]. intros E. by destruct (app_eq_nil _ _ E). }
  destruct (decimal 10 n) as [|d ds] eqn:E; [done|].
  assert (Hsign : (match d :: ds with 0x2B :: s' => s' | _ => d :: ds end) = d :: ds).
  { assert (0x30 <= d) by (apply Hd; set_solver). destruct d as [|p]; [done|].
    repeat (destruct p as [p|p|]; try done). }
  rewrite Hsign, bool_decide_false by done.
  replace (forallb _ (d :: ds)) with true; cbn [negb].
  - rewrite Hv. apply N.leb_le in Hn. by rewrite Hn.
  - symmetry. apply forallb_forall. intros c Hc%list_elem_of_In%Hd. rewrite andb_true_iff, !N.leb_le. lia.
Qed.

Lemma not_dash n : u32_to_string n <> lit "-".
Proof.
  intros E. assert (Hc : 0x2D ∈ u32_to_string n) by (rewrite E; apply list_elem_of_here).
  apply decimal_digits_in in Hc. lia.
Qed.

(** What a fault point is printed as reads back as the fault point. *)
Theorem fault_point_round_trip point :
  (forall n, fp_target_sequence point = Some n -> n <= u32_max) ->
  RecoveryFaultPoint_decode (RecoveryFaultPoint_encode point) = Some point.
Proof.
  intros Hn. unfold RecoveryFaultPoint_decode, RecoveryFaultPoint_encode.
  destruct point as [action moment sequence]. cbn [fp_action fp_moment fp_target_sequence] in *.
  change (lit ":") with [0x3A]. cbn [app]. rewrite split_on_app by apply action_name_no_colon.
  rewrite split_on_app by (apply (bool_decide_unpack _); by destruct moment; vm_compute).
  rewrite split_on_last.
  - rewrite find_action. cbn [mbind option_bind]. destruct moment; cbn [mbind option_bind];
      destruct sequence as [n|]; try done;
      pose proof (parse_u32_to_string n (Hn n eq_refl)) as Hp;
      (rewrite (bool_decide_false (u32_to_string n = lit "-")); [|apply not_dash]);
      by rewrite Hp.
  - destruct sequence as [n|]; [|apply (bool_decide_unpack _); by vm_compute].
    intros Hc. apply decimal_digits_in in Hc. lia.
Qed.

(** ** What a recovery keeps *)

Section facts.
Context `{UuidCrateLaws} `{!NativeJson} `{!NativeJsonLaws} `{Primitives} {I C K : Type}
  `{!NativeRecoveryIo I} `{!NativeCliRecoveryIo C} `{!RecoveryFaultHook K}.
Abbreviation S := (Recovery I C K).
Implicit Types (t : NativeTables) (s : S).

Section keeps.
Context (R : NativeTables -> NativeTables -> Prop) `{!PreOrder R}.

(** The tables before and after an action, whatever its result, are related. *)
Definition relates {T} (m : act S NativeRecoveryError T) : Prop :=
  forall s, R (rv_vault s) (rv_vault (m s).1).

Lemma relates_ret {T} (v : T) : relates (ret v).
Proof. by intros s. Qed.
Lemma relates_raise {T} e : relates (raise e : act S NativeRecoveryError T).
Proof. by intros s. Qed.
Lemma relates_of_result {T} (r : result NativeRecoveryError T) : relates (of_result r).
Proof. by intros s. Qed.
Lemma relates_query {T} (f : NativeTables -> result VaultError T) : relates (query f).
Proof. by intros s. Qed.
Lemma relates_on_io {T} (m : port I T) : relates (on_io m).
Proof. intros s. unfold on_io. by destruct (m (rv_io s)). Qed.
Lemma relates_on_cli_io {T} (m : port C T) : relates (on_cli_io m).
Proof. intros s. unfold on_cli_io. by destruct (m (rv_cli_io s)). Qed.
Lemma relates_hit action moment sequence : relates (hit action moment sequence).
Proof. intros s. unfold hit, on_fault. by destruct (fault_at _ _). Qed.
Lemma relates_commit f : (forall t t', f t = Ok t' -> R t t') -> relates (commit f).
Proof. intros Hf s. unfold commit. destruct (f (rv_vault s)) as [t|e] eqn:E; [by apply Hf|done]. Qed.
Lemma relates_bind {T U} (m : act S NativeRecoveryError T) (k : T -> act S NativeRecoveryError U) :
  relates m -> (forall v, relates (k v)) -> relates (bind m k).
Proof.
  intros Hm Hk s. specialize (Hm s). unfold bind. destruct (m s) as [s' [v|e]]; [|done].
  etrans; [exact Hm|apply Hk].
Qed.
Lemma relates_around {T} action sequence (m : act S NativeRecoveryError T) :
  relates m -> relates (around action sequence m).
Proof.
  intros Hm. apply relates_bind; [apply relates_hit|]. intros _u. apply relates_bind; [done|].
  intros v. apply relates_bind; [apply relates_hit|]. intros _v. apply relates_ret.
Qed.
Lemma relates_fold {X B} (f : B -> X -> act S NativeRecoveryError B) l :
  (forall b x, relates (f b x)) -> forall b, relates (fold_act f b l).
Proof.
  intros Hf. induction l as [|x l IH]; intros b; [apply relates_ret|]. by apply relates_bind.
Qed.
End keeps.

(** The operations a recovery of one transaction consists of. *)
Record recovery_ops (R : NativeTables -> NativeTables -> Prop) (id : TransactionId) : Prop := {
  ops_wal t t' sequence next : transition_native_wal t id sequence next = Ok t' -> R t t';
  ops_candidate t t' sequence token :
    record_native_wal_restored_candidate t id sequence token = Ok t' -> R t t';
  ops_checkpoint t t' target later old new :
    checkpoint_native_wal_absence_rebind t id target later old new = Ok t' -> R t t';
  ops_rebind t t' target later old new :
    rebind_native_wal_applied_absence t id target later old new = Ok t' -> R t t';
  ops_cli t t' sequence next : transition_native_cli_wal t id sequence next = Ok t' -> R t t';
  ops_cli_cleanup t t' : finish_committed_native_cli_cleanup t id = Ok t' -> R t t';
  ops_begin t t' : begin_native_recovery t id = Ok t' -> R t t';
  ops_finish t t' conflict no_write :
    finish_native_recovery_with_cli_no_write t id conflict no_write = Ok t' -> R t t';
  ops_cleanup_conflict t t' : mark_native_cleanup_conflict t id = Ok t' -> R t t';
}.

Ltac relates_step :=
  match goal with
  | |- relates _ (ret _) => by apply relates_ret
  | |- relates _ (raise _) => by apply relates_raise
  | |- relates _ (of_result _) => by apply relates_of_result
  | |- relates _ (query _) => by apply relates_query
  | |- relates _ (on_io _) => by apply relates_on_io
  | |- relates _ (on_cli_io _) => by apply relates_on_cli_io
  | |- relates _ (hit _ _ _) => by apply relates_hit
  | |- relates _ (around _ _ _) => apply relates_around; [done|]
  | |- relates _ (bind _ _) => apply relates_bind; [done| |intros ?]
  | |- relates _ (fold_act _ _ _) => apply relates_fold; [done|intros ? ?]
  | |- relates _ (commit _) => apply relates_commit; [done|]
  | |- relates _ (if ?b then _ else _) => destruct b
  | |- relates _ (match ?x with _ => _ end) => destruct x
  | |- relates _ (let '_ := ?x in _) => destruct x
  end.
Ltac relates := repeat (cbv zeta; relates_step).

Section rows.
Context (R : NativeTables -> NativeTables -> Prop) `{!PreOrder R} (id : TransactionId).

Lemma relates_cli payload wal :
  (forall t t' sequence next, transition_native_cli_wal t id sequence next = Ok t' -> R t t') ->
  relates R (recover_cli_mutations id payload wal).
Proof.
  intros Hc. unfold recover_cli_mutations. apply relates_fold; [done|]. intros [conflict no_write] row.
  unfold recover_cli_row, mark_cli_restored, mark_cli_conflict. relates; eauto.
Qed.

Context (Hops : recovery_ops R id).

Lemma relates_move wal position sequence next : relates R (move_row id wal position sequence next).
Proof. unfold move_row. relates. intros t t'. by apply ops_wal. Qed.

Lemma relates_rebind wal position fresh : relates R (rebind_next_earlier_absence id wal position fresh).
Proof.
  unfold rebind_next_earlier_absence, absence_checkpoint.
  relates; try apply relates_move; intros t t'; [by apply ops_checkpoint|by apply ops_rebind].
Qed.

Lemma relates_restore nonce mutation image : relates R (restore_row id nonce mutation image).
Proof.
  intros s. unfold restore_row.
  match goal with |- context [run_session ?answer ?m ?j] =>
    pose proof (run_session_keeps (fun x => R (rv_vault s) x.1) answer m j) as Hk;
    destruct (run_session answer m j) as [[io [t candidate]] r] end.
  cbn in *. apply Hk; [|done]. intros token [t1 c1] Ht1. cbn in *.
  destruct (record_native_wal_restored_candidate _ _ _ _) as [t2|e] eqn:E; [|done]. cbn.
  etrans; [done|]. by eapply ops_candidate.
Qed.

Lemma relates_recover_row nonce acc position : relates R (recover_row id nonce acc position).
Proof.
  unfold recover_row, prepare_absence, decide_row, restore_target, accept_restored,
    mark_row_conflict, mark_row_restored.
  relates; try apply relates_move; try apply relates_rebind; try apply relates_restore.
  all: intros t t'; by apply ops_candidate.
Qed.

Lemma relates_precommit nonce payload cli_wal : relates R (recover_precommit id nonce payload cli_wal).
Proof.
  unfold recover_precommit. relates; try apply relates_recover_row.
  - intros t t'. by apply ops_begin.
  - apply relates_cli. by apply ops_cli.
  - intros t t'. by apply ops_finish.
Qed.

Lemma relates_committed nonce payload cli_wal : relates R (recover_committed id nonce payload cli_wal).
Proof.
  unfold recover_committed, clean_committed. relates. intros t t'. by apply ops_cli_cleanup.
Qed.

Lemma relates_outcome transaction :
  ts_transaction_id transaction = id -> relates R (recover_outcome transaction).
Proof.
  intros E. unfold recover_outcome. rewrite E. relates; first [apply relates_committed|apply relates_precommit].
Qed.

Lemma relates_sandbox transaction outcome :
  ts_transaction_id transaction = id -> relates R (recover_sandbox transaction outcome).
Proof.
  intros E. unfold recover_sandbox. rewrite E. relates. intros t t'. by apply ops_cleanup_conflict.
Qed.
End rows.

(** ** The recovery of one transaction *)

Lemma quiet_ops id : recovery_ops (rtc quiet_step) id.
Proof.
  split; intros; apply rtc_once.
  - by eapply step_transition.
  - by eapply step_restored_candidate.
  - by eapply step_checkpoint.
  - by eapply step_rebind.
  - by eapply step_cli_transition.
  - by eapply step_cli_cleanup.
  - by eapply step_recovery.
  - by eapply step_recovered.
  - by eapply step_cleanup_conflict.
Qed.

(** Quiet operations that leave the other transactions and their logs alone, and the sandbox
    of this one. *)
Definition only t (id : TransactionId) t' : Prop :=
  forall j, j <> id -> nt_transactions t' !! j = nt_transactions t !! j /\ nt_wal t' !! j = nt_wal t !! j.
Definition sandbox_of t (id : TransactionId) : option IdentityColumns :=
  rt_identity <$> nt_transactions t !! id.
Definition own_steps (id : TransactionId) t t' : Prop :=
  native_inv t -> rtc quiet_step t t' /\ only t id t' /\ sandbox_of t' id = sandbox_of t id.

Lemma quiet_inv t t' : native_inv t -> rtc quiet_step t t' -> native_inv t'.
Proof.
  intros Hi Hr. eapply native_steps_inv; [done|]. eapply rtc_congruence with (f := fun x => x); [|done].
  intros x y. apply step_quiet.
Qed.

Lemma only_trans t1 t2 t3 id : only t1 id t2 -> only t2 id t3 -> only t1 id t3.
Proof. intros O1 O2 j Hj. destruct (O1 j Hj), (O2 j Hj). split; congruence. Qed.

#[local] Instance own_preorder id : PreOrder (own_steps id).
Proof.
  split.
  - intros t _. by split_and!; [apply rtc_refl| |].
  - intros t1 t2 t3 R1 R2 Hi. destruct (R1 Hi) as (Q1 & O1 & S1).
    destruct (R2 (quiet_inv _ _ Hi Q1)) as (Q2 & O2 & S2).
    split_and!; [by etrans|by eapply only_trans|congruence].
Qed.

Lemma only_wal t id t' : wal_updated t id t' -> only t id t' /\ sandbox_of t' id = sandbox_of t id.
Proof.
  intros (json & r & r' & _ & _ & _ & ->). split; [|done]. intros j Hj. split; [done|].
  cbn. by rewrite lookup_insert_ne.
Qed.

Lemma only_cli t id t' : cli_updated t id t' -> only t id t' /\ sandbox_of t' id = sandbox_of t id.
Proof. by intros (r & next & _ & _ & _ & ->). Qed.

Lemma only_update t id condition f message t' :
  update_transaction t id condition f message = Ok t' ->
  (forall raw, rt_identity (f raw) = rt_identity raw) ->
  only t id t' /\ sandbox_of t' id = sandbox_of t id.
Proof.
  intros Ht Hf. unfold update_transaction in Ht.
  destruct (nt_transactions t !! id) as [raw|] eqn:El; [|discriminate]. res_inv. subst t'. split.
  - intros j Hj. cbn. by rewrite lookup_insert_ne.
  - unfold sandbox_of. cbn. rewrite lookup_insert_eq, El. cbn. by rewrite Hf.
Qed.

Lemma own_once t id t' :
  quiet_step t t' -> (native_inv t -> t' = t \/ only t id t' /\ sandbox_of t' id = sandbox_of t id) ->
  own_steps id t t'.
Proof.
  intros Hq Ho Hi. split; [by apply rtc_once|]. by destruct (Ho Hi) as [->|?].
Qed.

Lemma only_same t id : only t id t.
Proof. by intros j. Qed.

Lemma begin_only t id t' :
  begin_native_recovery t id = Ok t' -> only t id t' /\ sandbox_of t' id = sandbox_of t id.
Proof.
  unfold begin_native_recovery. intros (snap & _ & Ht)%rbind_Ok.
  destruct (ts_status snap); try discriminate.
  - eapply only_update; [exact Ht|done].
  - injection Ht as <-. split; [apply only_same|done].
Qed.

Lemma finish_only t id conflict no_write t' :
  finish_native_recovery_with_cli_no_write t id conflict no_write = Ok t' ->
  only t id t' /\ sandbox_of t' id = sandbox_of t id.
Proof.
  unfold finish_native_recovery_with_cli_no_write. intros (snap & _ & Ht)%rbind_Ok. cbv zeta in Ht.
  destruct (bool_decide _ && _ && _) in Ht; [injection Ht as <-; split; [apply only_same|done]|].
  destruct (negb _) in Ht; [discriminate|]. apply rbind_Ok in Ht as (records & _ & Ht).
  destruct (negb _) in Ht; [discriminate|]. destruct (_ || _ || _) in Ht; [discriminate|].
  eapply only_update; [exact Ht|done].
Qed.

Lemma cleanup_conflict_only t id t' :
  mark_native_cleanup_conflict t id = Ok t' -> only t id t' /\ sandbox_of t' id = sandbox_of t id.
Proof.
  unfold mark_native_cleanup_conflict. intros (snap & _ & Ht)%rbind_Ok. cbv zeta in Ht.
  destruct (bool_decide _ && _) in Ht; [injection Ht as <-; split; [apply only_same|done]|].
  destruct (negb _ || negb _ || negb _) in Ht; [discriminate|].
  eapply only_update; [exact Ht|done].
Qed.

Lemma cli_cleanup_only t id t' :
  finish_committed_native_cli_cleanup t id = Ok t' -> only t id t' /\ sandbox_of t' id = sandbox_of t id.
Proof.
  unfold finish_committed_native_cli_cleanup. intros Ht. res_inv. subst t'. by split.
Qed.

Lemma own_ops id : recovery_ops (own_steps id) id.
Proof.
  split.
  - intros t t' q n Ht. apply own_once; [by eapply step_transition|]. intros _.
    apply transition_native_wal_effect in Ht as [->|?%only_wal]; auto.
  - intros t t' q k Ht. apply own_once; [by eapply step_restored_candidate|]. intros _.
    apply record_native_wal_restored_candidate_effect in Ht as [->|?%only_wal]; auto.
  - intros t t' a l o n Ht. apply own_once; [by eapply step_checkpoint|]. intros _.
    apply checkpoint_absence_effect in Ht as [->|?%only_wal]; auto.
  - intros t t' a l o n Ht. apply own_once; [by eapply step_rebind|]. intros _.
    apply rebind_absence_effect in Ht as [->|?%only_wal]; auto.
  - intros t t' q n Ht. apply own_once; [by eapply step_cli_transition|]. intros _.
    apply transition_native_cli_wal_effect in Ht as [->|?%only_cli]; auto.
  - intros t t' Ht. apply own_once; [by eapply step_cli_cleanup|]. intros _. right.
    by apply cli_cleanup_only.
  - intros t t' Ht. apply own_once; [by eapply step_recovery|]. intros _. right. by apply begin_only.
  - intros t t' k n Ht. apply own_once; [by eapply step_recovered|]. intros _. right.
    by eapply finish_only.
  - intros t t' Ht. apply own_once; [by eapply step_cleanup_conflict|]. intros _. right.
    by apply cleanup_conflict_only.
Qed.

(** A generation that is neither prepared nor active. *)
Definition asleep (c : IdentityColumns) : bool :=
  negb (bool_decide (ic_platform c = "macos"%string)
        && bool_decide (ic_mac_generation_state c ∈ [Some "prepared"; Some "active"]%string)).

Lemma poison_only t id t' :
  native_inv t -> poison_interrupted_macos_generation t id = Ok t' ->
  only t id t' /\ exists c, sandbox_of t' id = Some c /\ asleep c = true.
Proof.
  unfold poison_interrupted_macos_generation. intros Hi Ht.
  apply rbind_Ok in Ht as (snap & [raw Hst]%require_native_transaction_Ok & Ht); [|by apply native_inv_checked].
  pose proof Hst as (Hl & (_ & _ & _ & _ & _ & _ & _ & Hc & _) & _).
  assert (Hsame : t = t' -> asleep (rt_identity raw) = true ->
    only t id t' /\ exists c, sandbox_of t' id = Some c /\ asleep c = true).
  { intros <- Ha. split; [apply only_same|]. unfold sandbox_of. rewrite Hl. eauto. }
  destruct (ts_identity snap) as [moniker sid|g] eqn:Ei.
  { injection Ht as Ht. apply Hsame; [done|]. by rewrite Hc. }
  assert (Hup : update_transaction t id
      (fun raw => bool_decide (ic_mac_generation_state (rt_identity raw) ∈ [Some "prepared"; Some "active"]%string))
      (fun raw => with_identity raw (with_mac_state (rt_identity raw) "poisoned"))
      "macOS generation state changed concurrently" = Ok t' ->
    only t id t' /\ exists c, sandbox_of t' id = Some c /\ asleep c = true).
  { intros Hu. eapply update_transaction_Ok in Hu as (_ & _ & ->); [|done]. split.
    - intros j Hj. cbn. by rewrite lookup_insert_ne.
    - unfold sandbox_of. cbn. rewrite lookup_insert_eq. eexists. split; [done|].
      unfold asleep. cbn. rewrite (bool_decide_false (Some _ ∈ _)); [by rewrite andb_false_r|set_solver]. }
  destruct (mg_state g) eqn:Eg; try (by apply Hup); injection Ht as Ht; apply Hsame; try done;
    rewrite Hc; unfold asleep; cbn; rewrite Eg; cbn;
    (rewrite (bool_decide_false (Some _ ∈ _)); [by rewrite andb_false_r|set_solver]).
Qed.

Lemma cleanup_only t id t' :
  native_inv t -> finish_native_cleanup t id = Ok t' ->
  only t id t' /\ sandbox_of t' id = sandbox_of t id
  /\ exists raw', nt_transactions t' !! id = Some raw' /\ rt_status raw' ∈ terminal_names
       /\ rt_current_step raw' = 20.
Proof.
  intros Hi Ht. pose proof (native_inv_checked _ Hi) as Hc.
  destruct (finish_cleanup_step _ _ _ Hc Ht) as (raw & raw' & Hl & Hl' & Es & E20).
  assert (Hterm : rt_status raw ∈ terminal_names).
  { clear Hl' Es E20. unfold finish_native_cleanup in Ht.
    apply rbind_Ok in Ht as (snap & [raw0 Hst]%require_native_transaction_Ok & Ht); [|done].
    pose proof Hst as (Hl0 & (_ & _ & _ & Hs & _) & _). simplify_eq. cbv zeta in Ht.
    destruct (negb _ || negb _) eqn:E in Ht; [discriminate|]. bools. rewrite Hs.
    destruct (ts_status snap); try discriminate; cbn; set_solver. }
  assert (Ho : only t id t' /\ sandbox_of t' id = sandbox_of t id).
  { apply finish_native_cleanup_effect in Ht as [->|(r0 & snap & cl & t1 & (Hl0 & _) & _ & _ & _ & _ & -> & _ & E2 & _ & _ & Ew & _)];
      [split; [apply only_same|done]| |done].
    split.
    - intros j Hj. cbn. rewrite lookup_insert_ne, E2, Ew by done. split; [done|].
      case_decide; [done|]. by rewrite lookup_delete_ne.
    - unfold sandbox_of. cbn. rewrite lookup_insert_eq, Hl0. done. }
  destruct Ho. split_and!; try done. exists raw'. split_and!; [done|congruence|done].
Qed.

(** ** Runs that succeed *)

Lemma hit_inv action moment sequence s s' :
  hit action moment sequence s = (s', Ok tt) -> rv_vault s' = rv_vault s.
Proof. unfold hit, on_fault. destruct (fault_at _ _). by intros [= <- _]. Qed.

Lemma around_inv {T} action sequence (m : act S NativeRecoveryError T) s s' v :
  around action sequence m s = (s', Ok v) ->
  exists s1 s2, rv_vault s1 = rv_vault s /\ m s1 = (s2, Ok v) /\ rv_vault s' = rv_vault s2.
Proof.
  unfold around. intros (s1 & [] & H1' & Hm)%bind_inv. apply bind_inv in Hm as (s2 & w & Hm & Hr).
  apply bind_inv in Hr as (s3 & [] & H3' & Hr). injection Hr as <- <-.
  apply hit_inv in H1', H3'. eauto.
Qed.

Lemma commit_inv f s s' : commit f s = (s', Ok tt) -> f (rv_vault s) = Ok (rv_vault s').
Proof. unfold commit. destruct (f (rv_vault s)); [|done]. by intros [= <-]. Qed.

Lemma query_inv {T} (f : NativeTables -> result VaultError T) s s' v :
  query f s = (s', Ok v) -> s' = s /\ f (rv_vault s) = Ok v.
Proof. unfold query. destruct (f (rv_vault s)); [|done]. by intros [= <- <-]. Qed.

Lemma around_commit_inv action sequence f s s' :
  around action sequence (commit f) s = (s', Ok tt) -> f (rv_vault s) = Ok (rv_vault s').
Proof.
  intros (s1 & s2 & E1 & Hm%commit_inv & E2)%around_inv. by rewrite <- E1, E2.
Qed.

Lemma load_id t id snap : load_native_transaction t id = Ok (Some snap) -> ts_transaction_id snap = id.
Proof.
  unfold load_native_transaction, transpose. destruct (_ !! _); [|done].
  intros (x & Hx & [= <-])%rbind_Ok. unfold decode_native_transaction in Hx. res_inv. by subst.
Qed.

(** The transaction is over, and recovery will not list it. *)
Definition over t (id : TransactionId) : Prop :=
  exists raw, nt_transactions t !! id = Some raw /\ rt_status raw ∈ terminal_names
    /\ recoverable raw = false.

Lemma over_intro t id raw :
  nt_transactions t !! id = Some raw -> rt_status raw ∈ terminal_names -> rt_current_step raw = 20 ->
  asleep (rt_identity raw) = true -> over t id.
Proof.
  intros Hl Hs H20 Ha. exists raw. split_and!; [done..|]. unfold recoverable. rewrite H20.
  unfold asleep in Ha. apply negb_true_iff in Ha. rewrite Ha, orb_false_r, andb_false_r, orb_false_r.
  unfold terminal_names in Hs.
  repeat (apply elem_of_cons in Hs as [->|Hs]; [by vm_compute|]). by apply elem_of_nil in Hs.
Qed.

Lemma count_recovered summary outcome cleanup :
  recovered (count_outcome summary outcome cleanup) = recovered summary + 1.
Proof.
  unfold recovered, count_outcome. cbn [sm_committed sm_restored sm_conflicts].
  destruct outcome; repeat case_bool_decide; try congruence; lia.
Qed.

Lemma recover_transaction_Ok summary listed s s' summary' :
  native_inv (rv_vault s) -> recover_transaction summary listed s = (s', Ok summary') ->
  let id := ts_transaction_id listed in
  rtc quiet_step (rv_vault s) (rv_vault s') /\ only (rv_vault s) id (rv_vault s')
  /\ over (rv_vault s') id /\ recovered summary' = recovered summary + 1.
Proof.
  intros Hi Hr id. unfold recover_transaction in Hr. fold id in Hr.
  apply bind_inv in Hr as (s1 & [] & Hp%around_commit_inv & Hr).
  destruct (poison_only _ _ _ Hi Hp) as (O1 & c & Hc & Ha).
  assert (Q1 : rtc quiet_step (rv_vault s) (rv_vault s1)) by (by eapply rtc_once, step_poison).
  apply bind_inv in Hr as (s2 & found & [-> Hl]%query_inv & Hr).
  apply bind_inv in Hr as (s2 & snap & Hf & Hr).
  destruct found as [snap'|]; [|done]. injection Hf as <- <-.
  apply load_id in Hl.
  apply bind_inv in Hr as (s3 & outcome & Ho & Hr). apply bind_inv in Hr as (s4 & cleanup & Hs & Hr).
  apply bind_inv in Hr as (s5 & [] & Hcl%around_commit_inv & Hr). injection Hr as <- <-.
  pose proof (relates_outcome (own_steps id) id (own_ops id) _ Hl s1) as R1. rewrite Ho in R1.
  pose proof (relates_sandbox (own_steps id) id (own_ops id) _ outcome Hl s3) as R2. rewrite Hs in R2.
  cbn in R1, R2. pose proof (quiet_inv _ _ Hi Q1) as Hi1.
  destruct (R1 Hi1) as (Q2 & O2 & S2). pose proof (quiet_inv _ _ Hi1 Q2) as Hi3.
  destruct (R2 Hi3) as (Q3 & O3 & S3). pose proof (quiet_inv _ _ Hi3 Q3) as Hi4.
  destruct (cleanup_only _ _ _ Hi4 Hcl) as (O4 & S4 & raw' & Hl' & Ht' & H20).
  split_and!.
  - etrans; [exact Q1|]. etrans; [exact Q2|]. etrans; [exact Q3|]. by eapply rtc_once, step_cleanup.
  - eapply only_trans; [exact O1|]. eapply only_trans; [exact O2|]. by eapply only_trans.
  - eapply over_intro; [done..|]. rewrite S3, S2, Hc in S4. unfold sandbox_of in S4.
    rewrite Hl' in S4. injection S4 as ->. done.
  - apply count_recovered.
Qed.

Lemma recover_all l summary s s' summary' :
  native_inv (rv_vault s) -> fold_act recover_transaction summary l s = (s', Ok summary') ->
  rtc quiet_step (rv_vault s) (rv_vault s') /\ recovered summary' = recovered summary + len l
  /\ (forall id, id ∈ ts_transaction_id <$> l -> over (rv_vault s') id)
  /\ (forall id, id ∉ ts_transaction_id <$> l ->
       nt_transactions (rv_vault s') !! id = nt_transactions (rv_vault s) !! id).
Proof.
  revert summary s. induction l as [|x l IH]; intros summary s Hi Hr.
  { injection Hr as <- <-. rewrite len_nil. split_and!; [done|lia|set_solver|done]. }
  apply bind_inv in Hr as (s1 & summary1 & Hx & Hr).
  destruct (recover_transaction_Ok _ _ _ _ _ Hi Hx) as (Q1 & O1 & V1 & E1).
  destruct (IH _ _ (quiet_inv _ _ Hi Q1) Hr) as (Q2 & E2 & V2 & F2).
  split_and!.
  - by etrans.
  - rewrite E2, E1, len_cons. lia.
  - intros id [->|Hid]%elem_of_cons; [|by apply V2].
    destruct (decide (ts_transaction_id x ∈ ts_transaction_id <$> l)); [by apply V2|].
    destruct V1 as (raw & Hl & ?). exists raw. by rewrite F2.
  - intros id Hid. rewrite F2 by set_solver. apply O1. set_solver.
Qed.

(** ** Logs that cannot be read *)

(** The transaction is being undone and its log cannot be read. *)
Definition stuck t (id : TransactionId) : Prop :=
  (exists raw, nt_transactions t !! id = Some raw /\ rt_status raw = "restoring"%string)
  /\ exists e, native_wal t id = Err e.

Lemma wal_of_same t t' id : nt_wal t' !! id = nt_wal t !! id -> native_wal t' id = native_wal t id.
Proof. intros E. unfold native_wal, load_native_wal, wal_of. by rewrite E. Qed.

Lemma stuck_only t t' id j : only t j t' -> id <> j -> stuck t id -> stuck t' id.
Proof.
  intros Ho Hne [(raw & Hl & Hs) (e & He)]. destruct (Ho id Hne) as [Et Ew]. split.
  - exists raw. by rewrite Et.
  - exists e. by rewrite (wal_of_same _ _ _ Ew).
Qed.

Lemma poison_stuck t id t' :
  native_inv t -> poison_interrupted_macos_generation t id = Ok t' -> stuck t id -> stuck t' id.
Proof.
  unfold poison_interrupted_macos_generation. intros Hi Ht Hst.
  apply rbind_Ok in Ht as (snap & _ & Ht).
  assert (Hup : forall condition f message, (forall raw, rt_status (f raw) = rt_status raw) ->
    update_transaction t id condition f message = Ok t' -> stuck t' id).
  { intros condition f message Hf Hu. destruct Hst as [(raw & Hl & Hs) (e & He)].
    eapply update_transaction_Ok in Hu as (_ & _ & ->); [|done]. split; [|by exists e].
    eexists. cbn. rewrite lookup_insert_eq. split; [done|]. by rewrite Hf. }
  destruct (ts_identity snap) as [|g]; [by injection Ht as <-|].
  destruct (mg_state g); try (by injection Ht as <-); by eapply Hup in Ht.
Qed.

Lemma begin_wal t id t' : begin_native_recovery t id = Ok t' -> nt_wal t' = nt_wal t.
Proof.
  unfold begin_native_recovery. intros (snap & _ & Ht)%rbind_Ok.
  destruct (ts_status snap); try discriminate; [|by injection Ht as <-].
  unfold update_transaction in Ht. destruct (nt_transactions t !! id); [|discriminate]. res_inv. by subst t'.
Qed.

Lemma cli_wal_kept t id sequence next t' :
  transition_native_cli_wal t id sequence next = Ok t' -> nt_wal t' = nt_wal t.
Proof. by intros [->|(r & n & _ & _ & _ & ->)]%transition_native_cli_wal_effect. Qed.

Definition same_log t t' : Prop := nt_wal t' = nt_wal t.
#[local] Instance same_log_preorder : PreOrder same_log.
Proof. split; [done|]. unfold same_log. intros t1 t2 t3. congruence. Qed.

Lemma precommit_stuck id nonce payload cli_wal s s' outcome :
  stuck (rv_vault s) id -> recover_precommit id nonce payload cli_wal s <> (s', Ok outcome).
Proof.
  intros [_ (e & He)] Hr. unfold recover_precommit in Hr.
  apply bind_inv in Hr as (s1 & [] & Hb%around_commit_inv%begin_wal & Hr).
  apply bind_inv in Hr as (s2 & [conflict no_write] & Hc & Hr).
  pose proof (relates_cli same_log id payload cli_wal
    (fun t t' q n => cli_wal_kept t id q n t') s1) as Hk.
  rewrite Hc in Hk. unfold same_log in Hk. cbn in Hk.
  apply bind_inv in Hr as (s3 & wal & [_ Hw]%query_inv & _).
  rewrite (wal_of_same (rv_vault s)) in Hw by (by rewrite Hk, Hb). congruence.
Qed.

Lemma recover_transaction_stuck summary listed s s' summary' :
  native_inv (rv_vault s) -> stuck (rv_vault s) (ts_transaction_id listed) ->
  recover_transaction summary listed s <> (s', Ok summary').
Proof.
  intros Hi Hst Hr. unfold recover_transaction in Hr. cbv zeta in Hr.
  apply bind_inv in Hr as (s1 & [] & Hp%around_commit_inv & Hr).
  pose proof (poison_stuck _ _ _ Hi Hp Hst) as Hst1.
  assert (Hi1 : native_inv (rv_vault s1)) by (eapply quiet_inv; [exact Hi|]; by eapply rtc_once, step_poison).
  apply bind_inv in Hr as (s2 & found & [-> Hl]%query_inv & Hr).
  apply bind_inv in Hr as (s2 & snap & Hf & Hr).
  destruct found as [snap'|]; [|done]. injection Hf as <- <-.
  assert (Hs : ts_status snap' = TxRestoring).
  { destruct Hst1 as [(raw & Hlr & Hrs) _]. destruct (inv_load_tx _ _ _ Hi1 Hlr) as (sn & Hsn & Hld).
    rewrite Hl in Hld. injection Hld as ->. destruct Hsn as (_ & (_ & _ & _ & E & _) & _).
    rewrite Hrs in E. by destruct (ts_status sn). }
  apply load_id in Hl.
  apply bind_inv in Hr as (s3 & outcome & Ho & _). unfold recover_outcome in Ho. rewrite Hs in Ho.
  apply bind_inv in Ho as (s4 & cli_wal & [-> _]%query_inv & Ho).
  apply bind_inv in Ho as (s4 & payload & Hpl & Ho).
  assert (s4 = s1) as ->.
  { destruct (bool_decide _) in Hpl; [by injection Hpl|]. by apply query_inv in Hpl as [-> _]. }
  destruct (_ || _) in Ho; [discriminate|]. rewrite Hl in Ho. by eapply precommit_stuck in Ho.
Qed.

Lemma recover_all_stuck l summary s s' summary' id :
  native_inv (rv_vault s) -> stuck (rv_vault s) id -> id ∈ ts_transaction_id <$> l ->
  fold_act recover_transaction summary l s <> (s', Ok summary').
Proof.
  revert summary s. induction l as [|x l IH]; intros summary s Hi Hst Hid Hr; [set_solver|].
  apply bind_inv in Hr as (s1 & summary1 & Hx & Hr).
  destruct (decide (id = ts_transaction_id x)) as [->|Hne].
  { by eapply recover_transaction_stuck in Hx. }
  destruct (recover_transaction_Ok _ _ _ _ _ Hi Hx) as (Q1 & O1 & _).
  eapply IH; [by eapply quiet_inv|by eapply stuck_only|set_solver|exact Hr].
Qed.
End facts.
