(* ===== verification/NativeRecoveryClaims.v ===== *)
(** * Native transactions: what recovery promises

    A recovery that succeeds leaves nothing to recover and has decided every transaction; one
    that fails, or is interrupted anywhere, leaves tables the next one can start from, unless
    the log of a transaction it was undoing can no longer be read. *)

From S2P Require Import Prelude Ordering Text Protocol Minicbor CanonicalCbor Domain.
From S2P Require Import SyncPayload Crypto Operation Causal Merge Transport StateSummary.
From S2P Require Import Admission NativeModel NativeTables NativeWal NativeLedger NativeRows.
From S2P Require Import NativeSteps NativeEffects NativeGeneration NativeInvariant NativeClaims.
From S2P Require Import NativeWitness NativePorts NativeJournal NativeEngine NativeEngineFacts.
From S2P Require Import NativeJournalFacts NativeRecovery NativeRecoveryFacts.

#[local] Open Scope N_scope.

Section claims.
Context `{UuidCrateLaws} `{!NativeJson} `{!NativeJsonLaws} `{Primitives} {I C K : Type}
  `{!NativeRecoveryIo I} `{!NativeCliRecoveryIo C} `{!RecoveryFaultHook K}.
Implicit Types (t : NativeTables) (s : Recovery I C K).
Abbreviation recover := (recover_native_transactions_with_cli_and_faults (I := I) (C := C) (K := K)).

Lemma select_elem t condition id :
  id ∈ select_transactions t condition <->
  exists raw, nt_transactions t !! id = Some raw /\ condition raw = true.
Proof.
  unfold select_transactions. rewrite list_elem_of_fmap. split.
  - intros ([i raw] & -> & Hin).
    rewrite sort_by_key_perm, list_elem_of_filter, elem_of_map_to_list in Hin. destruct Hin. eauto.
  - intros (raw & Hl & Hc). exists (id, raw). split; [done|].
    by rewrite sort_by_key_perm, list_elem_of_filter, elem_of_map_to_list.
Qed.

Lemma listed_ids t listed :
  recoverable_native_transactions t = Ok listed ->
  ts_transaction_id <$> listed = select_transactions t recoverable.
Proof.
  unfold recoverable_native_transactions. generalize (select_transactions t recoverable). intros l.
  revert listed. induction l as [|id l IH]; intros listed Hl; [by injection Hl as <-|].
  simpl in Hl. apply rbind_Ok in Hl as (snap & Hs & Hl). apply rbind_Ok in Hl as (snaps & Hss & Hl).
  injection Hl as <-. cbn. rewrite (IH _ Hss). f_equal. unfold load_selected in Hs.
  apply rbind_Ok in Hs as ([snap'|] & Hld & Hs); [|done]. injection Hs as <-. by eapply load_id.
Qed.

Lemma nothing_recoverable t :
  (forall id raw, nt_transactions t !! id = Some raw -> recoverable raw = false) ->
  recoverable_native_transactions t = Ok [].
Proof.
  intros Hn. unfold recoverable_native_transactions.
  destruct (select_transactions t recoverable) as [|id l] eqn:E; [done|].
  assert (Hid : id ∈ select_transactions t recoverable) by (rewrite E; set_solver).
  apply select_elem in Hid as (raw & Hl & Hr). by rewrite (Hn _ _ Hl) in Hr.
Qed.

Lemma committed_status t id raw :
  native_inv t -> nt_transactions t !! id = Some raw ->
  rt_status raw = "committed"%string <-> is_Some (committed_receipt t id).
Proof.
  intros Hi Hl. destruct (inv_load_tx _ _ _ Hi Hl) as (snap & Hst & _).
  pose proof Hst as (_ & (_ & _ & _ & Hs & _) & _). split.
  - intros Hc. assert (Hcm : ts_status snap = TxCommitted) by (rewrite Hs in Hc; by destruct (ts_status snap)).
    rewrite (committed_receipt_stored _ _ _ _ Hst Hcm).
    destruct (inv_receipt _ Hi _ _ _ Hst Hcm) as [receipt ->]. by eexists.
  - intros [receipt Hr]. unfold committed_receipt in Hr. rewrite (load_stored _ _ _ _ Hst) in Hr.
    case_bool_decide as Hcm; [|done]. by rewrite Hs, Hcm.
Qed.

Lemma recovery_quiet s : rtc quiet_step (rv_vault s) (rv_vault (recover s).1).
Proof.
  revert s. apply (relates_bind (rtc quiet_step)); [apply (relates_query (rtc quiet_step))|].
  intros listed. apply relates_fold; [apply _|]. intros summary x. unfold recover_transaction.
  pose proof (quiet_ops (ts_transaction_id x)) as Hops.
  apply relates_bind; [apply _| |intros _u].
  { apply relates_around; [apply _|]. apply relates_commit; [apply _|].
    intros t t' Ht. by eapply rtc_once, step_poison. }
  intros s. unfold bind at 1. unfold query at 1.
  destruct (load_native_transaction _ _) as [[snap|]|e] eqn:El; try done. cbn.
  apply load_id in El. revert s. apply relates_bind; [apply _| |intros outcome].
  { by apply (relates_outcome _ (ts_transaction_id x)). }
  apply relates_bind; [apply _| |intros cleanup].
  { by apply (relates_sandbox _ (ts_transaction_id x)). }
  apply relates_bind; [apply _| |intros _v; apply (relates_ret (rtc quiet_step))].
  apply relates_around; [apply _|]. apply relates_commit; [apply _|].
  intros t t' Ht. by eapply rtc_once, step_cleanup.
Qed.

(** C12. A recovery that succeeds is complete: every transaction it listed is counted in its
    summary, every transaction of the vault has an outcome, committed exactly when it was
    committed before and with the same receipt, nothing is left to recover, and a second
    recovery would do nothing. *)
Theorem native_recovery_completes s s' summary :
  native_reachable (rv_vault s) -> recover s = (s', Ok summary) ->
  (exists listed, recoverable_native_transactions (rv_vault s) = Ok listed
     /\ recovered summary = len listed)
  /\ (forall id raw, nt_transactions (rv_vault s) !! id = Some raw ->
       exists raw', nt_transactions (rv_vault s') !! id = Some raw'
         /\ rt_status raw' ∈ terminal_names
         /\ (rt_status raw' = "committed"%string <-> rt_status raw = "committed"%string)
         /\ committed_receipt (rv_vault s') id = committed_receipt (rv_vault s) id)
  /\ recoverable_native_transactions (rv_vault s') = Ok []
  /\ recover s' = (s', Ok RecoverySummary_default).
Proof.
  intros Hi%native_reachable_inv Hr.
  apply bind_inv in Hr as (s1 & listed & [-> Hl]%query_inv & Hr).
  destruct (recover_all _ _ _ _ _ Hi Hr) as (Q & Er & Ho & Hf). pose proof (quiet_inv _ _ Hi Q) as Hi'.
  pose proof (listed_ids _ _ Hl) as Hids. rewrite Hids in Ho, Hf.
  assert (Hdone : forall id raw, nt_transactions (rv_vault s) !! id = Some raw ->
    recoverable raw = false -> rt_status raw ∈ terminal_names).
  { intros id raw Hraw Hrec. destruct (inv_load_tx _ _ _ Hi Hraw) as (snap & (_ & (_ & _ & _ & Hs & _) & _) & _).
    unfold recoverable in Hrec. rewrite !orb_false_iff, Hs in Hrec. destruct Hrec as [[Hrec _] _].
    rewrite Hs. destruct (ts_status snap); try discriminate; apply (bool_decide_unpack _); by vm_compute. }
  assert (Hnone : recoverable_native_transactions (rv_vault s') = Ok []).
  { apply nothing_recoverable. intros id raw' Hraw'.
    destruct (decide (id ∈ select_transactions (rv_vault s) recoverable)) as [Hin|Hin].
    - destruct (Ho id Hin) as (raw & Hraw & _ & ?). congruence.
    - rewrite (Hf id Hin) in Hraw'. destruct (recoverable raw') eqn:E; [|done].
      destruct Hin. apply select_elem. eauto. }
  split_and!; [|intros id raw Hraw|done|].
  - exists listed. split; [done|]. rewrite Er. unfold recovered. cbn. lia.
  - assert (Hraw' : exists raw', nt_transactions (rv_vault s') !! id = Some raw' /\ rt_status raw' ∈ terminal_names).
    { destruct (decide (id ∈ select_transactions (rv_vault s) recoverable)) as [Hin|Hin].
      - destruct (Ho id Hin) as (raw' & ? & ? & _). eauto.
      - exists raw. rewrite (Hf id Hin). split; [done|]. apply (Hdone id raw Hraw).
        destruct (recoverable raw) eqn:E; [|done]. destruct Hin. apply select_elem. eauto. }
    destruct Hraw' as (raw' & Hraw' & Hterm). exists raw'.
    destruct (quiet_committed _ _ id Hi Q) as [_ Ec]. split_and!; try done.
    by rewrite (committed_status _ _ _ Hi' Hraw'), (committed_status _ _ _ Hi Hraw), Ec.
  - unfold recover_native_transactions_with_cli_and_faults, bind, query. by rewrite Hnone.
Qed.

(** C13. A recovery can be interrupted anywhere: whatever the files, the command lines and the
    hook do, and whether it succeeds or fails, it commits nothing and forgets no receipt, an
    outcome that was decided stays, and the vault it leaves is one the operations reach, so
    that everything shown of reachable vaults holds for the next recovery. *)
Theorem native_recovery_interruptible s :
  native_reachable (rv_vault s) ->
  let t' := rv_vault (recover s).1 in
  native_reachable t'
  /\ forall id, committed_receipt t' id = committed_receipt (rv_vault s) id
       /\ forall raw, nt_transactions (rv_vault s) !! id = Some raw -> rt_status raw ∈ terminal_names ->
            exists raw', nt_transactions t' !! id = Some raw' /\ rt_status raw' = rt_status raw.
Proof.
  intros Hre t'. pose proof (native_reachable_inv _ Hre) as Hi. pose proof (recovery_quiet s) as Q.
  assert (Hsteps : rtc native_step (rv_vault s) t').
  { eapply rtc_congruence with (f := fun x => x); [|exact Q]. intros x y. apply step_quiet. }
  split; [by unfold native_reachable; etrans|]. intros id. split; [by apply quiet_committed|].
  intros raw Hl Ht. destruct (inv_load_tx _ _ _ Hi Hl) as (snap & Hst & _).
  pose proof Hst as (_ & (_ & _ & _ & Hs & _) & _).
  destruct (steps_outcome _ _ _ _ _ Hi Hsteps Hst) as (raw' & snap' & (Hl' & (_ & _ & _ & Hs' & _) & _) & Es & _).
  { unfold terminal. rewrite Hs in Ht. destruct (ts_status snap); cbn in Ht; set_solver. }
  exists raw'. split; [done|]. congruence.
Qed.

(** C14. A state from which recovery cannot succeed can be entered: take a transaction that is
    being restored and a row of its log that was prepared and never written, of a mutation
    that changes its target (expected and intended differ).  Marking the row restored without
    naming a restored object is accepted, and leaves a log that cannot be read; a recovery
    that starts from exactly these tables, as after an interruption at this point, fails
    whatever the files are.  Rows of unchanged mutations stay readable, and a recovery that
    makes the move itself succeeds when its cleanup removes the rows before the log is read
    again; neither is stated here. *)
Theorem native_recovery_wedged t id raw sequence r :
  native_reachable t -> nt_transactions t !! id = Some raw -> rt_status raw = "restoring"%string ->
  load_native_wal_record t id sequence = Ok (Some r) -> wr_state r = WalPrepared ->
  wr_expected r <> wr_intended_applied r ->
  exists t', transition_native_wal t id sequence WalRestored = Ok t'
    /\ native_wal t' id = Err (Validation "restored native WAL state is missing restored object provenance")
    /\ forall s s' summary, rv_vault s = t' -> recover s <> (s', Ok summary).
Proof.
  intros Hi%native_reachable_inv Hraw Hrs Hl Hs Hc.
  destruct (prepared_restored_unreadable t id sequence r) as (t' & Ht & Hi' & Hw); try done.
  { unfold wal_changed. by rewrite bool_decide_false. }
  exists t'. split_and!; [done..|]. intros s s' summary <- Hr.
  assert (Et : nt_transactions (rv_vault s) = nt_transactions t).
  { by apply transition_native_wal_effect in Ht as [->|(json & r1 & r2 & _ & _ & _ & ->)]. }
  apply bind_inv in Hr as (s1 & listed & [-> Hq]%query_inv & Hr).
  eapply recover_all_stuck in Hr; [done|done| |].
  - split; [exists raw; by rewrite Et|by eexists].
  - rewrite (listed_ids _ _ Hq). apply select_elem. exists raw. rewrite Et. split; [done|].
    unfold recoverable. by rewrite Hrs.
Qed.
End claims.

(** ** Concrete recoveries *)

Module RecoveryWitness.
#[local] Existing Instances rfc9562 rfc9562_laws Toy.toy NativeToy.native NativeToy.native_laws.
Import NativeWitness.

(** A directory, and its states after deletions in it. *)
Definition directory : bytes := replicate 24 Byte.x07.
Definition entry (b : Byte.byte) : NativeObjectToken :=
  {| tk_volume := [Byte.x01]; tk_object := [b]; tk_topology := Byte.x01 :: replicate 4 Byte.x00 ++ directory |}.
Definition gone (b : Byte.byte) : NativeObjectToken :=
  {| tk_volume := [Byte.x01]; tk_object := [b]; tk_topology := Byte.x01 :: replicate 4 Byte.xff ++ directory |}.

(** Files that are found as the log says: one that was deleted is put back by the probe, one
    that was never written is as before, one that was written is as it was written. *)
#[export] Instance faithful_io : NativeRecoveryIo unit := {|
  probe _ r := ret (if absence (wr_applied_object_token r) then ProbeRestoredNow (wr_intended_restored r)
                    else match wr_applied_object_token r with
                         | Some _ => ProbeFingerprint (wr_intended_applied r)
                         | None => ProbeFingerprint (wr_expected r)
                         end);
  restore_if_matches _ r _ io := Ask (entry Byte.x09) (fun _ => Finish io (Ok TargetRestored));
  cleanup_sandbox _ _ := ret SandboxCleaned;
  cleanup_committed_mutation _ _ _ := ret tt;
  rebind_applied_absence _ _ := ret (Some (gone Byte.x0b)) |}.

Definition start (t : NativeTables) : Recovery unit unit unit := Build_Recovery t tt tt tt.
Definition recovery (t : NativeTables) :=
  recover_native_transactions_with_cli_and_faults (start t).

(** The transaction of one file is undone; the committed one is only cleaned up. *)
Example applied_is_restored :
  (rt_status <$> nt_transactions (rv_vault (recovery applied).1) !! tx) = Some "restored"%string
  /\ (recovery applied).2 = Ok {| sm_committed := 0; sm_restored := 1; sm_conflicts := 0; sm_cleanup_conflicts := 0 |}.
Proof. split; vm_compute; reflexivity. Qed.
Example committed_is_kept :
  (rt_status <$> nt_transactions (rv_vault (recovery committed).1) !! tx) = Some "committed"%string
  /\ (recovery committed).2 = Ok {| sm_committed := 1; sm_restored := 0; sm_conflicts := 0; sm_cleanup_conflicts := 0 |}.
Proof. split; vm_compute; reflexivity. Qed.

Lemma run_pair {S X T} (r : S * result X T) v : r.2 = v -> r = (r.1, v).
Proof. by destruct r; simpl; intros ->. Qed.

Lemma recovery_completes_witness :
  recoverable_native_transactions (rv_vault (recovery applied).1) = Ok [].
Proof.
  refine (proj1 (proj2 (proj2 (native_recovery_completes (start applied) (recovery applied).1
    {| sm_committed := 0; sm_restored := 1; sm_conflicts := 0; sm_cleanup_conflicts := 0 |}
    applied_reachable _)))).
  apply (run_pair (recovery applied)). vm_compute. reflexivity.
Defined.

Lemma recovery_interruptible_witness : native_reachable (rv_vault (recovery committed).1).
Proof. exact (proj1 (native_recovery_interruptible (start committed) native_committed_reachable)). Defined.

(** A process that stops between preparing a write and writing: undone, and stopped again. *)
Definition restoring : NativeTables :=
  match begin_native_recovery prepared tx with Ok t => t | Err _ => prepared end.
Lemma restoring_reachable : native_reachable restoring.
Proof.
  unfold native_reachable, restoring. destruct (begin_native_recovery prepared tx) eqn:E;
    [|apply prepared_reachable].
  etrans; [apply prepared_reachable|]. by eapply rtc_once, step_quiet, step_recovery.
Qed.

Lemma recovery_wedged_witness :
  exists t', transition_native_wal restoring tx 0 WalRestored = Ok t'
    /\ native_wal t' tx = Err (Validation "restored native WAL state is missing restored object provenance")
    /\ forall (s s' : Recovery unit unit unit) summary, rv_vault s = t' ->
         recover_native_transactions_with_cli_and_faults s <> (s', Ok summary).
Proof.
  refine (native_recovery_wedged restoring tx (tx_of restoring) 0 (record_of restoring)
    restoring_reachable _ _ _ _ _).
  - apply default_lookup. by vm_compute.
  - vm_compute. reflexivity.
  - vm_compute. reflexivity.
  - vm_compute. reflexivity.
  - vm_compute. discriminate.
Defined.

(** Two deletions in one directory and a write that was prepared: the recovery that finds every
    file as the log says fails by itself, and so does the next one. *)
Definition write_of (sequence : N) (path : string) : NativeWalWrite := {|
  ww_target_sequence := sequence;
  ww_target := {| wv_platform := Macos; wv_bytes := ascii_bytes path; wv_display := None |};
  ww_object_token := entry Byte.x01; ww_before_image_id := iw_id image; ww_operation_kind := Payload;
  ww_expected := digest Byte.x01; ww_intended_applied := digest Byte.x02;
  ww_intended_restored := digest Byte.x01 |}.
Definition deletions : NativeTables := run empty_tables
  [OpBegin tx plan identity; OpImages [image] {| bp_max_bytes := 100; bp_retention_ms := 10 |};
   OpPrepare tx (write_of 0 "/d/a"); OpCandidate tx 0 (gone Byte.x05); OpTransition tx 0 WalApplied;
   OpPrepare tx (write_of 1 "/d/b"); OpCandidate tx 1 (gone Byte.x06); OpTransition tx 1 WalApplied;
   OpPrepare tx (write_of 2 "/d/c")].
Example recovery_wedges_itself :
  let lost := Err (RecoveryVault
    (Validation "restored native WAL state is missing restored object provenance")) in
  (rw_state <$> wal_of deletions tx !! 2) = Some "prepared"%string
  /\ (recovery deletions).2 = lost
  /\ (recovery (rv_vault (recovery deletions).1)).2 = lost.
Proof. split_and!; vm_compute; reflexivity. Qed.
End RecoveryWitness.
