(* ===== verification/TextSearch.v ===== *)
(** * Searching and splitting text

    The searches of Rust's [str] and slices that the native-memory code relies on
    ([starts_with], [match_indices], [contains], [strip_suffix], [trim], [lines],
    [split_whitespace]), on lists of bytes or characters, and the facts that make byte offsets
    into UTF-8 safe: decoding is inverse to encoding, and a valid text splits at every ASCII
    byte. *)

From S2P Require Import Prelude Ordering Text Protocol Minicbor CanonicalCbor Domain.
From S2P Require Import SyncPayload Crypto Operation Causal Merge Transport StateSummary.
From S2P Require Import Admission NativeModel.

#[local] Open Scope N_scope.

(** ** Searching *)

Section search.
Context {A : Type} `{EqDecision A}.
Implicit Types needle l k : list A.

(** [starts_with] *)
Definition starts_with needle l : bool :=
  match strip_prefix needle l with Some _ => true | None => false end.

(** [strip_suffix] *)
Definition strip_suffix needle l : option (list A) :=
  match strip_prefix (reverse needle) (reverse l) with
  | Some k => Some (reverse k)
  | None => None
  end.

(** [match_indices] of a non-empty needle: the offsets of its matches from the left, each
    search resuming behind the match before it; [skip] counts what is left of that match. *)
Fixpoint match_from needle l (i skip : nat) : list nat :=
  match l with
  | [] => []
  | _ :: l' =>
      match skip with
      | S skip' => match_from needle l' (S i) skip'
      | O =>
          if starts_with needle l then i :: match_from needle l' (S i) (length needle - 1)
          else match_from needle l' (S i) 0
      end
  end.
Definition match_indices needle l : list nat := match_from needle l 0 0.

(** [contains] *)
Definition contains needle l : bool := negb (bool_decide (match_indices needle l = [])).

(** Every offset at which the needle occurs, overlapping or not. *)
Fixpoint occurrences needle l : list nat :=
  match l with
  | [] => []
  | _ :: l' => (if starts_with needle l then [O] else []) ++ (S <$> occurrences needle l')
  end.

Lemma starts_with_spec needle l : starts_with needle l = true <-> exists k, l = needle ++ k.
Proof.
  unfold starts_with. destruct (strip_prefix needle l) as [k|] eqn:E.
  - apply strip_prefix_Some in E. naive_solver.
  - split; [done|]. intros [k Hk]. apply strip_prefix_Some in Hk. congruence.
Qed.

Lemma starts_with_app needle k : starts_with needle (needle ++ k) = true.
Proof. apply starts_with_spec. by exists k. Qed.

Lemma starts_with_app_r needle l k :
  starts_with needle l = true -> starts_with needle (l ++ k) = true.
Proof. rewrite !starts_with_spec. intros [m ->]. exists (m ++ k). by rewrite app_assoc. Qed.

Lemma starts_with_trans needle m l :
  starts_with needle m = true -> starts_with m l = true -> starts_with needle l = true.
Proof. rewrite !starts_with_spec. intros [a ->] [b ->]. exists (a ++ b). by rewrite app_assoc. Qed.

Lemma strip_suffix_Some needle l k : strip_suffix needle l = Some k <-> l = k ++ needle.
Proof.
  unfold strip_suffix. split.
  - destruct (strip_prefix _ _) as [m|] eqn:E; [|done]. intros [= <-].
    apply strip_prefix_Some in E. apply (f_equal reverse) in E.
    by rewrite reverse_involutive, reverse_app, reverse_involutive in E.
  - intros ->. rewrite reverse_app.
    rewrite (proj2 (strip_prefix_Some _ _ (reverse k)) eq_refl). by rewrite reverse_involutive.
Qed.

Lemma occurrences_spec needle l i :
  needle <> [] -> i ∈ occurrences needle l <-> starts_with needle (drop i l) = true.
Proof.
  intros Hn. revert i. induction l as [|x l IH]; intros i; cbn [occurrences].
  - rewrite drop_nil. split; [by intros ?%elem_of_nil|]. rewrite starts_with_spec.
    intros [k Hk]. by destruct needle.
  - rewrite elem_of_app, list_elem_of_fmap. destruct i as [|i]; cbn [drop].
    + destruct (starts_with needle (x :: l)); set_solver.
    + rewrite <- IH. destruct (starts_with needle (x :: l)); set_solver.
Qed.

Lemma match_from_subset needle l i skip j :
  j ∈ match_from needle l i skip -> exists n, (j = i + n)%nat /\ n ∈ occurrences needle l.
Proof.
  revert i skip. induction l as [|x l IH]; intros i skip; [by intros ?%elem_of_nil|].
  cbn [match_from occurrences].
  assert (forall sk, j ∈ match_from needle l (S i) sk ->
    exists n, (j = i + n)%nat /\ n ∈ (if starts_with needle (x :: l) then [O] else [])
      ++ (S <$> occurrences needle l)) as Hrec.
  { intros sk (n & -> & Hn)%IH. exists (S n). split; [lia|]. set_solver. }
  destruct skip as [|skip]; [|apply Hrec].
  destruct (starts_with needle (x :: l)) eqn:E; [|apply Hrec].
  intros [->|Hj]%elem_of_cons; [|by eapply Hrec]. exists O. split; [lia|]. set_solver.
Qed.

Lemma contains_spec needle l :
  needle <> [] -> contains needle l = true <-> exists a b, l = a ++ needle ++ b.
Proof.
  intros Hn. unfold contains. rewrite negb_true_iff, bool_decide_eq_false. split.
  - intros H. destruct (match_indices needle l) as [|j js] eqn:E; [done|].
    destruct (match_from_subset needle l 0 0 j) as (n & _ & Hj).
    { fold (match_indices needle l). rewrite E. set_solver. }
    apply occurrences_spec in Hj; [|done]. apply starts_with_spec in Hj as [b Hb].
    exists (take n l), b. by rewrite <- Hb, take_drop.
  - intros (a & b & ->). unfold match_indices. generalize O at 1.
    induction a as [|x a IH]; intros i; cbn [app match_from].
    + destruct needle as [|y needle]; [done|]. cbn [app match_from].
      change (y :: needle ++ b) with ((y :: needle) ++ b). by rewrite starts_with_app.
    + destruct (starts_with needle _); [done|]. apply IH.
Qed.

(** A needle none of whose proper suffixes is also a prefix of it: its matches cannot overlap,
    so [match_indices] finds every occurrence. *)
Definition unbordered needle : bool :=
  negb (bool_decide (needle = []))
  && forallb (fun j => negb (starts_with (drop j needle) needle)) (seq 1 (length needle - 1)).

Lemma match_from_complete needle l i skip :
  unbordered needle = true ->
  (forall j, (j < skip)%nat -> starts_with needle (drop j l) = false) ->
  match_from needle l i skip = (Nat.add i) <$> occurrences needle l.
Proof.
  intros Hb. revert i skip. induction l as [|x l IH]; intros i skip Hskip; [done|].
  cbn [match_from occurrences].
  assert (Hsh : (Nat.add (S i) <$> occurrences needle l)
                = (Nat.add i <$> (S <$> occurrences needle l))).
  { rewrite <- list_fmap_compose. apply list_fmap_ext. intros. simpl. lia. }
  destruct skip as [|skip].
  - destruct (starts_with needle (x :: l)) eqn:E; cbn [app].
    + cbn [fmap list_fmap]. rewrite Nat.add_0_r. f_equal. rewrite IH, Hsh; [done|].
      intros j Hj. apply starts_with_spec in E as [k E]. change l with (drop 1 (x :: l)).
      rewrite drop_drop, E. apply not_true_iff_false. rewrite drop_app_le by lia.
      intros Hs%starts_with_spec. unfold unbordered in Hb. apply andb_true_iff in Hb as [_ Hb].
      rewrite forallb_forall in Hb. specialize (Hb (S j)). rewrite in_seq in Hb.
      rewrite negb_true_iff in Hb. rewrite <- not_true_iff_false in Hb. apply Hb; [lia|].
      destruct Hs as [m Hs]. apply starts_with_spec. exists (drop (length needle - S j) needle).
      assert (Hd : drop (S j) needle = take (length needle - S j) needle); [|by rewrite Hd, take_drop].
      apply (f_equal (take (length needle - S j))) in Hs. change (1 + j)%nat with (S j) in Hs.
      rewrite take_app_le in Hs by (rewrite length_drop; lia).
      rewrite take_app_le in Hs by lia. rewrite <- Hs. symmetry. apply take_ge.
      rewrite length_drop. lia.
    + rewrite IH, Hsh; [done|]. intros j Hj. lia.
  - pose proof (Hskip O ltac:(lia)) as H0. rewrite drop_0 in H0. rewrite H0. cbn [app]. rewrite IH, Hsh; [done|].
    intros j Hj. apply (Hskip (S j)). lia.
Qed.

Lemma match_indices_occurrences needle l :
  unbordered needle = true -> match_indices needle l = occurrences needle l.
Proof.
  intros Hb. unfold match_indices. rewrite match_from_complete; [|done|lia].
  by rewrite (list_fmap_ext _ id), list_fmap_id.
Qed.

(** A needle whose first element does not recur in it. *)
Definition border_free needle : bool :=
  match needle with
  | [] => false
  | x :: needle' => negb (bool_decide (x ∈ needle'))
  end.

(** Where an occurrence cannot straddle, the occurrences of a concatenation are those of its
    parts. *)
Definition straddles needle l k : Prop :=
  exists a b c, b <> [] /\ c <> [] /\ l = a ++ b /\ needle = b ++ c /\ starts_with c k = true.

Lemma starts_with_split needle l k :
  starts_with needle (l ++ k) = true -> starts_with needle l = true
  \/ exists c, c <> [] /\ needle = l ++ c /\ starts_with c k = true.
Proof.
  revert l. induction needle as [|x needle IH]; intros l; [left; done|].
  destruct l as [|y l]; [right; by exists (x :: needle)|].
  unfold starts_with in *. simpl. case_bool_decide as E; [subst|done].
  intros [?|(c & ? & -> & ?)]%IH; [by left|]. right. by exists c.
Qed.

Lemma occurrences_app needle l k :
  needle <> [] -> ~ straddles needle l k ->
  occurrences needle (l ++ k) = occurrences needle l ++ (Nat.add (length l) <$> occurrences needle k).
Proof.
  intros Hn. induction l as [|x l IH]; intros Hs.
  { simpl. by rewrite (list_fmap_ext _ id), list_fmap_id. }
  cbn [app occurrences length]. rewrite IH.
  2:{ intros (a & b & c & ? & ? & -> & ? & ?). apply Hs. by exists (x :: a), b, c. }
  rewrite fmap_app, <- list_fmap_compose, app_assoc. f_equal. f_equal.
  destruct (starts_with needle (x :: l)) eqn:E.
  { apply (starts_with_app_r _ _ k) in E. simpl in E. by rewrite E. }
  destruct (starts_with needle (x :: l ++ k)) eqn:E'; [|done].
  apply (starts_with_split needle (x :: l)) in E' as [?|(c & Hc & -> & Hk)]; [congruence|].
  exfalso. apply Hs. by exists [], (x :: l), c.
Qed.

(** A border-free needle does not straddle where the right part starts with its head, and no
    needle straddles behind an element it does not have. *)
Lemma no_straddle_head x needle l k :
  border_free (x :: needle) = true -> ~ straddles (x :: needle) l (x :: k).
Proof.
  intros Hb (a & b & c & Hbn & Hcn & -> & Hn & Hc). simpl in Hb. wf_inv.
  destruct b as [|y b]; [done|]. injection Hn as -> ->. destruct c as [|z c]; [done|].
  apply starts_with_spec in Hc as [m [= <- _]]. set_solver.
Qed.

Lemma no_straddle_nil needle l : ~ straddles needle l [].
Proof.
  intros (a & b & c & _ & Hc & _ & _ & H). apply starts_with_spec in H as [k Hk].
  by destruct c.
Qed.

Lemma no_straddle_last needle l x k : x ∉ needle -> ~ straddles needle (l ++ [x]) k.
Proof.
  intros Hx (a & b & c & Hb & _ & E & -> & _). destruct b as [|y b _] using rev_ind; [done|].
  rewrite app_assoc in E. apply app_inj_tail in E as [_ ->]. set_solver.
Qed.

Lemma occurrences_without_head x needle l k :
  x ∉ l -> occurrences (x :: needle) (l ++ k) = Nat.add (length l) <$> occurrences (x :: needle) k.
Proof.
  induction l as [|y l IH]; intros Hl.
  { simpl. by rewrite (list_fmap_ext _ id), list_fmap_id. }
  cbn [app occurrences length]. rewrite IH by set_solver.
  assert (starts_with (x :: needle) (y :: l ++ k) = false) as ->.
  { apply not_true_iff_false. intros [m [= -> _]]%starts_with_spec. set_solver. }
  cbn [app]. by rewrite <- list_fmap_compose.
Qed.

Lemma occurrences_NoDup needle l : NoDup (occurrences needle l).
Proof.
  induction l as [|x l IH]; [constructor|]. cbn [occurrences].
  destruct (starts_with _ _); simpl; [|by apply NoDup_fmap_2; [intros ??; lia|]].
  constructor; [|by apply NoDup_fmap_2; [intros ??; lia|]]. set_solver.
Qed.

End search.

(** ** UTF-8: decoding is inverse to encoding *)

#[local] Ltac Zify.zify_post_hook ::= Z.to_euclidean_division_equations.

Lemma continuation_Some b x :
  continuation b = Some x -> x < 64 /\ Byte.to_N b = 0x80 + x.
Proof.
  unfold continuation. destruct (_ && _) eqn:E; [|done]. intros [= <-]. wf_inv. lia.
Qed.

Lemma byte_of_eq b n : Byte.to_N b = n -> byte_of n = b.
Proof. intros <-. apply byte_of_to_N. Qed.

Lemma decode_char_inv l c l' :
  decode_char l = Some (c, l') -> is_scalar c = true /\ l = utf8_char c ++ l'.
Proof.
  destruct l as [|b0 l1]; [done|]. unfold decode_char, utf8_char.
  destruct (N.ltb_spec (Byte.to_N b0) 0x80).
  { intros [= <- <-]. split; [unfold is_scalar; n_cases|].
    rewrite (proj2 (N.ltb_lt _ _)) by done. by rewrite (byte_of_eq b0). }
  destruct (N.ltb_spec (Byte.to_N b0) 0xC0); [done|].
  destruct (N.ltb_spec (Byte.to_N b0) 0xE0).
  { destruct l1 as [|b1 l2]; [done|]. destruct (continuation b1) as [x1|] eqn:E1; [|done].
    apply continuation_Some in E1 as [G1 E1]. cbn [mbind option_bind].
    destruct (N.leb_spec 0x80 ((Byte.to_N b0 - 0xC0) * 64 + x1)); [|done].
    intros [= <- <-]. split; [unfold is_scalar; n_cases|]. n_cases.
    rewrite (byte_of_eq b0), (byte_of_eq b1) by lia. done. }
  destruct (N.ltb_spec (Byte.to_N b0) 0xF0).
  { destruct l1 as [|b1 [|b2 l3]]; [done..|].
    destruct (continuation b1) as [x1|] eqn:E1; [|done].
    destruct (continuation b2) as [x2|] eqn:E2; [|done].
    apply continuation_Some in E1 as [G1 E1], E2 as [G2 E2]. cbn [mbind option_bind].
    destruct (_ && _) eqn:E; [|done]. wf_inv. intros [= <- <-]. split; [done|]. n_cases.
    rewrite (byte_of_eq b0), (byte_of_eq b1), (byte_of_eq b2) by lia. done. }
  destruct l1 as [|b1 [|b2 [|b3 l4]]]; [done..|].
  destruct (continuation b1) as [x1|] eqn:E1; [|done].
  destruct (continuation b2) as [x2|] eqn:E2; [|done].
  destruct (continuation b3) as [x3|] eqn:E3; [|done].
  apply continuation_Some in E1 as [G1 E1], E2 as [G2 E2], E3 as [G3 E3].
  cbn [mbind option_bind]. destruct (_ && _) eqn:E; [|done]. wf_inv. intros [= <- <-].
  split; [done|]. pose proof (is_scalar_lt _ ltac:(eassumption)). n_cases.
  rewrite (byte_of_eq b0), (byte_of_eq b1), (byte_of_eq b2), (byte_of_eq b3) by lia. done.
Qed.

Lemma from_utf8_inv l s : from_utf8 l = Some s -> wf_str s = true /\ as_bytes s = l.
Proof.
  unfold from_utf8. generalize (length l) as fuel. intros fuel. revert l s.
  induction fuel as [|fuel IH]; intros l s; destruct l as [|b l]; cbn [decode_chars].
  1, 3: by intros [= <-]. 1: done.
  destruct (decode_char (b :: l)) as [[c l']|] eqn:E; [|done]. cbn [mbind option_bind].
  destruct (decode_chars fuel l') as [s'|] eqn:E'; [|done]. intros [= <-].
  apply decode_char_inv in E as [Hc ->]. apply IH in E' as [Hw <-].
  split; [|done]. cbn [wf_str forallb]. by rewrite Hc.
Qed.

Lemma from_utf8_iff l s : from_utf8 l = Some s <-> wf_str s = true /\ as_bytes s = l.
Proof. split; [apply from_utf8_inv|]. intros [Hw <-]. by apply from_utf8_as_bytes. Qed.

Lemma as_bytes_app s t : as_bytes (s ++ t) = as_bytes s ++ as_bytes t.
Proof. unfold as_bytes. apply bind_app. Qed.

Lemma from_utf8_app l k s t :
  from_utf8 l = Some s -> from_utf8 k = Some t -> from_utf8 (l ++ k) = Some (s ++ t).
Proof.
  rewrite !from_utf8_iff. intros [Hs <-] [Ht <-]. rewrite as_bytes_app. split; [|done].
  unfold wf_str in *. rewrite forallb_app, Hs. done.
Qed.

Lemma utf8_char_tail c b : is_scalar c = true -> b ∈ tail (utf8_char c) -> 0x80 <= Byte.to_N b.
Proof.
  intros Hc%is_scalar_lt. unfold utf8_char. n_cases; rewrite ?elem_of_cons, elem_of_nil;
    intros Hb; destruct_or? Hb; subst; try done; rewrite lead_byte_of by lia; lia.
Qed.

(** A valid text splits at every ASCII byte. *)
Lemma from_utf8_split l a r s :
  from_utf8 (l ++ a :: r) = Some s -> Byte.to_N a < 0x80 ->
  exists s1 s2, s = s1 ++ s2 /\ from_utf8 l = Some s1 /\ from_utf8 (a :: r) = Some s2.
Proof.
  intros [Hw Hs]%from_utf8_inv Ha. revert l Hs. induction s as [|c s IH]; intros l Hs.
  { by destruct l. }
  cbn [wf_str forallb] in Hw. apply andb_true_iff in Hw as [Hc Hw].
  destruct l as [|x l].
  { exists [], (c :: s). split_and!; [done..|]. apply from_utf8_iff. split; [|done].
    cbn [wf_str forallb]. by rewrite Hc. }
  change (as_bytes (c :: s)) with (utf8_char c ++ as_bytes s) in Hs.
  destruct (app_eq_inv _ _ _ _ Hs) as [(k & Hl & Hr)|(k & Hl & Hr)].
  - destruct k as [|y k].
    + rewrite app_nil_r in Hl. simpl in Hr. exists [c], s. split_and!.
      * done.
      * rewrite <- Hl. apply from_utf8_iff. split; [unfold wf_str; cbn [forallb]; by rewrite Hc|].
        apply app_nil_r.
      * rewrite Hr. by apply from_utf8_as_bytes.
    + exfalso. injection Hr as <- _. assert (0x80 <= Byte.to_N a); [|lia].
      apply (utf8_char_tail c); [done|]. rewrite Hl. cbn [app tail]. set_solver.
  - destruct (IH Hw k) as (s1 & s2 & -> & H1 & H2); [done|].
    exists (c :: s1), s2. split_and!; [done| |done]. apply from_utf8_inv in H1 as [W1 <-].
    rewrite Hl. apply from_utf8_iff. split; [|done]. cbn [wf_str forallb]. by rewrite Hc.
Qed.

(** An ASCII byte in front of a valid text is one character of it. *)
Lemma from_utf8_tail a r s :
  from_utf8 (a :: r) = Some s -> Byte.to_N a < 0x80 -> exists t, from_utf8 r = Some t.
Proof.
  intros [Hw Hs]%from_utf8_inv Ha. destruct s as [|c s]; [done|].
  change (as_bytes (c :: s)) with (utf8_char c ++ as_bytes s) in Hs.
  cbn [wf_str forallb] in Hw. apply andb_true_iff in Hw as [Hc Hw].
  pose proof (decode_utf8_char c (as_bytes s) Hc) as D. rewrite Hs in D.
  unfold decode_char in D. rewrite (proj2 (N.ltb_lt _ _)) in D by done.
  injection D as _ ->. exists s. by apply from_utf8_as_bytes.
Qed.

(** Cutting out a stretch that starts and ends with an ASCII byte leaves a valid text. *)
Lemma from_utf8_cut l a m b r s :
  from_utf8 (l ++ a :: m ++ b :: r) = Some s -> Byte.to_N a < 0x80 -> Byte.to_N b < 0x80 ->
  exists t, from_utf8 (l ++ r) = Some t.
Proof.
  intros Hs Ha Hb. apply from_utf8_split in Hs as (s1 & s2 & _ & H1 & H2); [|done].
  change (a :: m ++ b :: r) with ((a :: m) ++ b :: r) in H2.
  apply from_utf8_split in H2 as (_ & s4 & _ & _ & H4); [|done].
  apply from_utf8_tail in H4 as [t Ht]; [|done]. eauto using from_utf8_app.
Qed.
