(* ===== verification/MemoryMarkdown.v ===== *)
(** * Native memory: the managed fence (core/native_memory/markdown.rs)

    A native memory file may hold one block the product owns, between two marker lines.
    [extract_managed_markdown] separates it from the text the user owns.  It is shown to accept
    exactly the well-fenced files, to give back what was fenced, and to leave an unmanaged text
    without markers. *)

From S2P Require Import Prelude Ordering Text Protocol Minicbor CanonicalCbor Domain.
From S2P Require Import SyncPayload Crypto Operation Causal Merge Transport StateSummary.
From S2P Require Import Admission NativeModel TextSearch.

#[local] Open Scope N_scope.

Inductive NativeMemoryError :=
| InvalidSource (field : string) | InvalidUtf8 | SensitiveText | MemoryTooLarge
| MalformedManagedFence | ManagedContentModified.

#[global] Instance NativeMemoryError_eq_dec : EqDecision NativeMemoryError.
Proof. solve_decision. Defined.

Definition MANAGED_START : bytes := as_bytes (lit "<!-- context-relay:start -->").
Definition MANAGED_END : bytes := as_bytes (lit "<!-- context-relay:end -->").
Definition MANAGED_PREFIX : bytes := as_bytes (lit "<!-- context-relay:").

Record ManagedMarkdown := {
  mk_managed_body : option bytes;
  mk_unmanaged_body : bytes;
  mk_full_digest : Sha256Digest;
  mk_unmanaged_digest : Sha256Digest;
}.

Abbreviation LF := Byte.x0a.
Abbreviation CR := Byte.x0d.

Definition is_line_start (b : bytes) (index : nat) : bool :=
  (index =? 0)%nat || bool_decide (b !! (index - 1)%nat = Some LF).

(** [bytes.get(i..)] *)
Definition get_from (b : bytes) (i : nat) : option bytes :=
  if (i <=? length b)%nat then Some (drop i b) else None.

Definition marker_line_end (b : bytes) (marker_start marker_len : nat) (allow_eof : bool)
    : result NativeMemoryError nat :=
  let marker_end := (marker_start + marker_len)%nat in
  match get_from b marker_end with
  | Some rest =>
      if starts_with [CR; LF] rest then Ok (marker_end + 2)%nat
      else if starts_with [LF] rest then Ok (marker_end + 1)%nat
      else if bool_decide (rest = []) && allow_eof then Ok marker_end
      else Err MalformedManagedFence
  | None => Err MalformedManagedFence
  end.

Definition normalize_final_newline (b : bytes) : bytes :=
  match strip_suffix [LF] b with
  | Some without_lf => default without_lf (strip_suffix [CR] without_lf)
  | None => b
  end.

(** [bytes[from..to]]; [managed_slice_in_range] shows that it does not panic. *)
Definition slice (b : bytes) (from to : nat) : bytes := take (to - from) (drop from b).

(** The bodies of a file with one marker of each kind. *)
Definition split_fence (b : bytes) (start end_ : nat) : result NativeMemoryError (bytes * bytes) :=
  let? body_start := marker_line_end b start (length MANAGED_START) false in
  let? fence_end := marker_line_end b end_ (length MANAGED_END) true in
  if negb (is_line_start b start) || negb (is_line_start b end_)
  then Err MalformedManagedFence
  else Ok (slice b body_start end_, take start b ++ drop fence_end b).

Definition split_managed (b : bytes) : result NativeMemoryError (option bytes * bytes) :=
  let starts := match_indices MANAGED_START b in
  let ends := match_indices MANAGED_END b in
  if negb (length (match_indices MANAGED_PREFIX b) =? length starts + length ends)%nat
  then Err MalformedManagedFence else
  match starts, ends with
  | [], [] => Ok (None, b)
  | [start], [end_] =>
      if (start <? end_)%nat then
        let? (managed, unmanaged) := split_fence b start end_ in Ok (Some managed, unmanaged)
      else Err MalformedManagedFence
  | _, _ => Err MalformedManagedFence
  end.

Section markdown.
Context `{Primitives}.

(** [digest] of markdown.rs is [Operation.digest]. *)
Definition extract_managed_markdown (b : bytes) : result NativeMemoryError ManagedMarkdown :=
  let? _ := ok_or (from_utf8 b) InvalidUtf8 in
  let? (managed_body, unmanaged_body) := split_managed b in
  Ok {| mk_managed_body := managed_body;
        mk_full_digest := digest b;
        mk_unmanaged_digest := digest (normalize_final_newline unmanaged_body);
        mk_unmanaged_body := unmanaged_body |}.

End markdown.

(** ** What a well-fenced file is *)

Definition has_marker (b : bytes) : Prop := occurrences MANAGED_PREFIX b <> [].

Definition newline (nl : bytes) : Prop := nl = [LF] \/ nl = [CR; LF].

(** Empty, or ending a line. *)
Definition whole_lines (b : bytes) : Prop := b = [] \/ exists b', b = b' ++ [LF].

(** A file, the block the product owns in it and the text the user owns. *)
Inductive fenced : bytes -> option bytes -> bytes -> Prop :=
| not_fenced b : ~ has_marker b -> fenced b None b
| one_fence before nl body nl' after :
    newline nl -> newline nl' \/ (nl' = [] /\ after = []) ->
    whole_lines before -> whole_lines body ->
    ~ has_marker before -> ~ has_marker body -> ~ has_marker after ->
    fenced (before ++ MANAGED_START ++ nl ++ body ++ MANAGED_END ++ nl' ++ after)
      (Some body) (before ++ after).

(** ** Markers *)

(** [Byte.x3c] is ['<']. *)
Definition start_tail : bytes := tail MANAGED_START.
Definition end_tail : bytes := tail MANAGED_END.
Definition prefix_tail : bytes := tail MANAGED_PREFIX.

Lemma markers_head :
  MANAGED_START = Byte.x3c :: start_tail /\ MANAGED_END = Byte.x3c :: end_tail
  /\ MANAGED_PREFIX = Byte.x3c :: prefix_tail.
Proof. split_and!; vm_compute; reflexivity. Qed.

Lemma markers_extend_prefix :
  MANAGED_START = MANAGED_PREFIX ++ as_bytes (lit "start -->")
  /\ MANAGED_END = MANAGED_PREFIX ++ as_bytes (lit "end -->").
Proof. split; vm_compute; reflexivity. Qed.

Lemma starts_with_markers rest :
  starts_with MANAGED_START (MANAGED_START ++ rest) = true
  /\ starts_with MANAGED_START (MANAGED_END ++ rest) = false
  /\ starts_with MANAGED_END (MANAGED_START ++ rest) = false
  /\ starts_with MANAGED_END (MANAGED_END ++ rest) = true
  /\ starts_with MANAGED_PREFIX (MANAGED_START ++ rest) = true
  /\ starts_with MANAGED_PREFIX (MANAGED_END ++ rest) = true.
Proof. split_and!; vm_compute; reflexivity. Qed.

Lemma head_not_in_tails :
  (Byte.x3c ∉ start_tail) /\ (Byte.x3c ∉ end_tail) /\ (Byte.x3c ∉ prefix_tail)
  /\ (LF ∉ MANAGED_PREFIX) /\ (LF ∉ MANAGED_START) /\ (LF ∉ MANAGED_END).
Proof. split_and!; apply (bool_decide_eq_true_1 _); vm_compute; reflexivity. Qed.

Lemma newline_no_head nl : newline nl \/ nl = [] -> Byte.x3c ∉ nl.
Proof. intros [[->| ->]| ->]; apply (bool_decide_eq_true_1 _); vm_compute; reflexivity. Qed.

(** The needles of the extraction: markers whose occurrences start at ['<']. *)
Definition marker (n : bytes) : Prop :=
  n = MANAGED_START \/ n = MANAGED_END \/ n = MANAGED_PREFIX.

Lemma marker_shape n :
  marker n -> exists t, n = Byte.x3c :: t /\ border_free n = true /\ unbordered n = true
  /\ starts_with MANAGED_PREFIX n = true.
Proof.
  intros [->|[->| ->]]; eexists; (split; [vm_compute; reflexivity|]);
    (split_and!; vm_compute; reflexivity).
Qed.

Lemma marker_prefix_occurs n b i :
  marker n -> i ∈ occurrences n b -> i ∈ occurrences MANAGED_PREFIX b.
Proof.
  intros (t & -> & _ & _ & Hp)%marker_shape. rewrite !occurrences_spec by done.
  by apply starts_with_trans.
Qed.

Lemma no_marker_occurs n b : marker n -> ~ has_marker b -> occurrences n b = [].
Proof.
  intros Hn Hb. destruct (occurrences n b) as [|i l] eqn:E; [done|]. exfalso. apply Hb.
  intros Hp. assert (i ∈ occurrences MANAGED_PREFIX b) as Hi.
  { apply (marker_prefix_occurs n); [done|]. rewrite E. set_solver. }
  rewrite Hp in Hi. set_solver.
Qed.

Lemma occurrences_behind t x k rest :
  x ∉ k -> occurrences (x :: t) ((x :: k) ++ rest)
    = (if starts_with (x :: t) ((x :: k) ++ rest) then [O] else [])
      ++ (Nat.add (S (length k)) <$> occurrences (A := byte) (x :: t) rest).
Proof.
  intros Hx. cbn [app occurrences]. f_equal. rewrite occurrences_without_head by done.
  by rewrite <- list_fmap_compose.
Qed.

Lemma occurrences_until n m k :
  marker n -> ~ has_marker k ->
  occurrences n (k ++ Byte.x3c :: m) = Nat.add (length k) <$> occurrences n (Byte.x3c :: m).
Proof.
  intros Hn Hk. rewrite occurrences_app.
  - by rewrite (no_marker_occurs n k).
  - destruct Hn as [->|[->| ->]]; done.
  - destruct (marker_shape n Hn) as (t & -> & Hb & _ & _). by apply no_straddle_head.
Qed.

Lemma fence_occurrences n before nl body nl' after :
  marker n -> newline nl -> newline nl' \/ nl' = [] ->
  ~ has_marker before -> ~ has_marker body -> ~ has_marker after ->
  let rest := MANAGED_END ++ nl' ++ after in
  let first := length before in
  let second := (length before + length MANAGED_START + length nl + length body)%nat in
  occurrences n (before ++ MANAGED_START ++ nl ++ body ++ rest)
  = (if starts_with n (MANAGED_START ++ nl ++ body ++ rest) then [first] else [])
    ++ (if starts_with n rest then [second] else []).
Proof.
  intros Hn Hnl Hnl' Hb Hm Ha. cbv zeta. destruct (marker_shape n Hn) as (t & Et & _).
  destruct head_not_in_tails as (Hs & He & _).
  change MANAGED_START with (Byte.x3c :: start_tail). change MANAGED_END with (Byte.x3c :: end_tail).
  rewrite <- !app_comm_cons, occurrences_until by done. rewrite !app_comm_cons.
  rewrite Et, occurrences_behind by done. rewrite (occurrences_without_head _ _ nl) by
    (apply newline_no_head; by left).
  rewrite <- Et, <- !app_comm_cons, (occurrences_until n _ body) by done. rewrite !app_comm_cons.
  rewrite Et, occurrences_behind by done. rewrite (occurrences_without_head _ _ nl') by
    by apply newline_no_head.
  rewrite <- Et, (no_marker_occurs n after) by done.
  destruct (starts_with n ((Byte.x3c :: start_tail) ++ nl ++ body ++ (Byte.x3c :: end_tail) ++ nl' ++ after));
  destruct (starts_with n ((Byte.x3c :: end_tail) ++ nl' ++ after)); cbn [app fmap list_fmap];
    rewrite ?app_nil_r; cbn [app fmap list_fmap]; cbn [length];
    repeat (apply (f_equal2 cons); [lia|]); done.
Qed.

(** ** Lines *)

Lemma get_from_app (b c : bytes) : get_from (b ++ c) (length b) = Some c.
Proof.
  unfold get_from. rewrite length_app, (proj2 (Nat.leb_le _ _)) by lia. by rewrite drop_app_length.
Qed.

(** What ends the line of a marker: a newline, or the end of the file where that is allowed. *)
Definition marker_end (nl rest : bytes) (allow_eof : bool) : Prop :=
  newline nl \/ (nl = [] /\ rest = [] /\ allow_eof = true).

Lemma marker_line_end_spec pre m rest allow_eof e :
  marker_line_end (pre ++ m ++ rest) (length pre) (length m) allow_eof = Ok e <->
  exists nl rest', rest = nl ++ rest' /\ marker_end nl rest' allow_eof
    /\ e = (length pre + length m + length nl)%nat.
Proof.
  unfold marker_line_end, marker_end, newline.
  rewrite app_assoc, <- length_app, get_from_app, length_app.
  destruct (starts_with [CR; LF] rest) eqn:E1.
  { apply starts_with_spec in E1 as [k ->]. split.
    - intros [= <-]. exists [CR; LF], k. split_and!; auto.
    - intros (nl & rest' & E & [[->| ->]|(-> & -> & _)] & ->); by simplify_eq. }
  destruct (starts_with [LF] rest) eqn:E2.
  { apply starts_with_spec in E2 as [k ->]. split.
    - intros [= <-]. exists [LF], k. split_and!; auto.
    - intros (nl & rest' & E & [[->| ->]|(-> & -> & _)] & ->); by simplify_eq. }
  assert (forall nl rest', rest = nl ++ rest' -> nl = [LF] \/ nl = [CR; LF] -> False) as Hno.
  { intros nl rest' -> [-> | ->]; [by rewrite starts_with_app in E2|by rewrite starts_with_app in E1]. }
  destruct (bool_decide (rest = []) && allow_eof) eqn:E3.
  - apply andb_true_iff in E3 as [->%bool_decide_eq_true ->]. split.
    + intros [= <-]. exists [], []. split_and!; [done|by right|simpl; lia].
    + intros (nl & rest' & E & [?|(-> & -> & _)] & ->); [exfalso; eauto|]. f_equal. simpl. lia.
  - split; [done|]. intros (nl & rest' & E & [?|(-> & -> & ->)] & ->); [exfalso; eauto|].
    simpl in E. subst. done.
Qed.

Lemma is_line_start_spec pre rest :
  is_line_start (pre ++ rest) (length pre) = true <-> whole_lines pre.
Proof.
  unfold is_line_start, whole_lines. rewrite orb_true_iff, Nat.eqb_eq, bool_decide_eq_true.
  destruct pre as [|x pre _] using rev_ind; [naive_solver|].
  rewrite length_app. simpl. replace (length pre + 1 - 1)%nat with (length pre) by lia.
  rewrite <- app_assoc, lookup_app_r, Nat.sub_diag by lia. cbn [lookup list_lookup app].
  split.
  - intros [?|[= ->]]; [lia|]. right. by exists pre.
  - intros [?|[b' [_ ->]%app_inj_tail]]; [by destruct pre|]. by right.
Qed.

Lemma whole_lines_behind a b :
  whole_lines a -> a <> [] -> whole_lines (a ++ b) <-> whole_lines b.
Proof.
  intros [->|[a' ->]] Ha; [done|]. unfold whole_lines. split.
  - destruct b as [|x b _] using rev_ind; [by left|]. rewrite app_assoc.
    intros [?|[c [_ ->]%app_inj_tail]]; [by destruct a'|]. right. by exists b.
  - intros [->|[b' ->]]; right; [exists a'; by rewrite app_nil_r|]. exists ((a' ++ [LF]) ++ b').
    by rewrite app_assoc.
Qed.

Lemma whole_lines_newline a nl : newline nl -> whole_lines (a ++ nl) /\ a ++ nl <> [].
Proof.
  intros [->| ->]; (split; [|by destruct a]); right; [by exists a|]. exists (a ++ [CR]).
  by rewrite <- app_assoc.
Qed.

Lemma marker_matches n b : marker n -> match_indices n b = occurrences n b.
Proof. intros (t & _ & _ & Hb & _)%marker_shape. by apply match_indices_occurrences. Qed.

#[local] Hint Unfold marker : core.

Ltac markers :=
  rewrite (marker_matches MANAGED_START) by auto; rewrite (marker_matches MANAGED_END) by auto;
  rewrite (marker_matches MANAGED_PREFIX) by auto.

(** ** The well-fenced files are accepted *)

Lemma slice_app (a b c : bytes) n : n = length a -> slice (a ++ b ++ c) n (length a + length b) = b.
Proof.
  intros ->. unfold slice. rewrite drop_app_length.
  replace (length a + length b - length a)%nat with (length b) by lia. apply take_app_length.
Qed.

Lemma split_fence_complete before nl body nl' after :
  newline nl -> marker_end nl' after true -> whole_lines before -> whole_lines body ->
  split_fence (before ++ MANAGED_START ++ nl ++ body ++ MANAGED_END ++ nl' ++ after)
    (length before) (length before + length MANAGED_START + length nl + length body)
  = Ok (body, before ++ after).
Proof.
  intros Hnl Hnl' Hb Hm. unfold split_fence.
  rewrite (proj2 (marker_line_end_spec before MANAGED_START (nl ++ body ++ MANAGED_END ++ nl' ++ after)
    false (length before + length MANAGED_START + length nl))).
  2:{ exists nl, (body ++ MANAGED_END ++ nl' ++ after). split_and!; [done|by left|done]. }
  cbn [rbind].
  set (pre := before ++ MANAGED_START ++ nl ++ body).
  assert (Hpre : before ++ MANAGED_START ++ nl ++ body ++ MANAGED_END ++ nl' ++ after
                 = pre ++ MANAGED_END ++ nl' ++ after) by (unfold pre; by rewrite <- !app_assoc).
  assert (Hlen : (length before + length MANAGED_START + length nl + length body)%nat = length pre)
    by (unfold pre; rewrite !length_app; lia).
  rewrite Hpre, Hlen.
  rewrite (proj2 (marker_line_end_spec pre MANAGED_END (nl' ++ after) true
    (length pre + length MANAGED_END + length nl'))) by (exists nl', after; done).
  cbn [rbind]. rewrite (proj2 (is_line_start_spec pre _)).
  2:{ unfold pre. rewrite !app_assoc. apply whole_lines_behind; [..|done];
      by apply whole_lines_newline. }
  rewrite <- Hpre at 1. rewrite (proj2 (is_line_start_spec before _)) by done.
  cbn [negb orb]. rewrite <- Hpre. do 2 f_equal.
  - rewrite <- Hlen. rewrite (app_assoc before), (app_assoc (before ++ _)).
    replace (length before + length MANAGED_START + length nl)%nat
      with (length ((before ++ MANAGED_START) ++ nl)) by (rewrite !length_app; lia).
    by apply slice_app.
  - rewrite take_app_length. f_equal. rewrite Hpre, (app_assoc pre), (app_assoc (pre ++ _)).
    replace (length pre + length MANAGED_END + length nl')%nat
      with (length ((pre ++ MANAGED_END) ++ nl')) by (rewrite !length_app; lia).
    apply drop_app_length.
Qed.

Lemma split_managed_complete b m u : fenced b m u -> split_managed b = Ok (m, u).
Proof.
  intros [c Hc|before nl body nl' after Hnl Hnl' Hb Hm Mb Mm Ma]; unfold split_managed; markers.
  - rewrite !(no_marker_occurs _ c) by auto. done.
  - assert (newline nl' \/ nl' = []) as Hnl2 by tauto.
    rewrite !fence_occurrences by auto.
    destruct (starts_with_markers (nl ++ body ++ MANAGED_END ++ nl' ++ after))
      as (-> & _ & -> & _ & -> & _).
    destruct (starts_with_markers (nl' ++ after)) as (_ & -> & _ & -> & _ & ->).
    cbn [app length Nat.add Nat.eqb negb].
    rewrite (proj2 (Nat.ltb_lt _ _)) by (change (length MANAGED_START) with 28%nat; lia).
    rewrite split_fence_complete; [done..| |done|done]. destruct Hnl' as [?|[-> ->]]; [by left|by right].
Qed.

(** ** Only well-fenced files are accepted *)

Lemma occurs_inside n a k c i :
  n <> [] -> i ∈ occurrences n k -> (i < length k)%nat
  /\ (length a + i)%nat ∈ occurrences n (a ++ k ++ c :> bytes).
Proof.
  intros Hn Hi%occurrences_spec; [|done]. apply starts_with_spec in Hi as [m Hm].
  assert (i < length k)%nat as Hlt.
  { apply (f_equal length) in Hm. rewrite length_drop, length_app in Hm.
    destruct n; [done|]. simpl in Hm. lia. }
  split; [done|]. apply occurrences_spec; [done|]. apply starts_with_spec.
  rewrite drop_app_add, drop_app_le, Hm by lia. exists (m ++ c). by rewrite app_assoc.
Qed.

Lemma two_elements (l : list nat) s e i :
  NoDup l -> length l = 2%nat -> s ∈ l -> e ∈ l -> s <> e -> i ∈ l -> i = s \/ i = e.
Proof.
  destruct l as [|x [|y [|]]]; try done. rewrite !elem_of_cons, !elem_of_nil. intros. naive_solver.
Qed.

Lemma occurrence_split n (b : bytes) i :
  n <> [] -> i ∈ occurrences n b ->
  exists pre rest, b = pre ++ n ++ rest /\ length pre = i.
Proof.
  intros Hn Hi. pose proof Hi as Hs. apply occurrences_spec in Hs; [|done].
  apply starts_with_spec in Hs as [rest Hr]. exists (take i b), rest.
  rewrite <- Hr, take_drop. split; [done|]. rewrite length_take.
  apply (f_equal length) in Hr. rewrite length_drop, length_app in Hr.
  destruct n; [done|]. simpl in Hr. lia.
Qed.

(** The end marker lies behind the line of the start marker: there is no ['<'] in between. *)
Lemma end_behind_start before nl rest e :
  newline nl -> e ∈ occurrences MANAGED_END (before ++ MANAGED_START ++ nl ++ rest) ->
  (length before < e)%nat ->
  exists body rest', rest = body ++ MANAGED_END ++ rest'
    /\ e = (length before + length MANAGED_START + length nl + length body)%nat.
Proof.
  intros Hnl He Hlt. set (k := start_tail ++ nl).
  assert (E : MANAGED_START ++ nl ++ rest = (Byte.x3c :: k) ++ rest).
  { unfold k. change MANAGED_START with (Byte.x3c :: start_tail). by rewrite <- !app_comm_cons, <- app_assoc. }
  assert (Hkl : length (Byte.x3c :: k) = (length MANAGED_START + length nl)%nat).
  { unfold k. change (length MANAGED_START) with (S (length start_tail)). cbn [length].
    rewrite length_app. lia. }
  assert (Hk : Byte.x3c ∉ k).
  { unfold k. rewrite not_elem_of_app. destruct head_not_in_tails as (Hs & _).
    split; [done|]. apply newline_no_head. by left. }
  destruct (occurrence_split MANAGED_END _ _ ltac:(done) He) as (pre & post & Eb & Hp).
  rewrite E in Eb. rewrite app_assoc in Eb.
  destruct (app_eq_inv _ _ _ _ Eb) as [(m & Hm & Hr)|(m & Hm & Hr)].
  - destruct m as [|y m].
    + rewrite app_nil_r in Hm. exists [], post. split; [by symmetry|].
      rewrite <- Hp, <- Hm, length_app, Hkl. cbn [length]. lia.
    + exfalso. destruct markers_head as (_ & Hend & _). rewrite Hend in Hr. injection Hr as <- _.
      destruct (app_eq_inv _ _ _ _ Hm) as [(q & Hq & Hq')|(q & Hq & Hq')].
      * apply (f_equal length) in Hq. rewrite length_app in Hq. lia.
      * destruct q as [|z q].
        { rewrite app_nil_r in Hq. subst. lia. }
        injection Hq' as <- Hq'. apply Hk. rewrite Hq', elem_of_app. right. by left.
  - exists m, post. split; [done|]. rewrite <- Hp, Hm, !length_app, Hkl. lia.
Qed.

(** The parts of a file that [split_fence] accepts. *)
Lemma split_fence_sound before r e m u :
  split_fence (before ++ MANAGED_START ++ r) (length before) e = Ok (m, u) ->
  (length before < e)%nat -> e ∈ occurrences MANAGED_END (before ++ MANAGED_START ++ r) ->
  exists nl nl' after, r = nl ++ m ++ MANAGED_END ++ nl' ++ after /\ u = before ++ after
    /\ newline nl /\ marker_end nl' after true /\ whole_lines before /\ whole_lines m
    /\ e = (length before + length MANAGED_START + length nl + length m)%nat.
Proof.
  intros Hf Hlt He. pose proof Hf as Hf'. unfold split_fence in Hf'.
  apply rbind_Ok in Hf' as (bs & H1 & Hf').
  apply marker_line_end_spec in H1 as (nl & rest & -> & [Hnl|(_ & _ & ?)] & _); [|done].
  destruct (end_behind_start before nl rest e) as (body & rest' & -> & ->); [done..|].
  set (pre := before ++ MANAGED_START ++ nl ++ body).
  assert (Hpre : before ++ MANAGED_START ++ nl ++ body ++ MANAGED_END ++ rest'
                 = pre ++ MANAGED_END ++ rest') by (unfold pre; by rewrite <- !app_assoc).
  assert (Hlen : (length before + length MANAGED_START + length nl + length body)%nat = length pre)
    by (unfold pre; rewrite !length_app; lia).
  apply rbind_Ok in Hf' as (fe & H2 & Hf'). rewrite Hpre, Hlen in H2.
  apply marker_line_end_spec in H2 as (nl' & after & -> & Hnl' & _).
  destruct (negb _ || negb _) eqn:Hls in Hf'; [done|]. apply orb_false_iff in Hls as [L1 L2].
  apply negb_false_iff, is_line_start_spec in L1. rewrite Hpre, Hlen in L2.
  apply negb_false_iff, is_line_start_spec in L2. unfold pre in L2. rewrite !app_assoc in L2.
  apply whole_lines_behind in L2; [|by apply whole_lines_newline..].
  rewrite split_fence_complete in Hf by done. injection Hf as <- <-. by exists nl, nl', after.
Qed.

(** A part of a file that avoids both of its marker positions has no marker. *)
Lemma no_other_marker whole s e a k c :
  length (occurrences MANAGED_PREFIX whole) = 2%nat -> s <> e ->
  s ∈ occurrences MANAGED_START whole -> e ∈ occurrences MANAGED_END whole ->
  whole = a ++ k ++ c ->
  (forall i, (i < length k)%nat -> (length a + i)%nat <> s /\ (length a + i)%nat <> e) ->
  ~ has_marker k.
Proof.
  intros H2 Hne Hs He E Hi Hk. destruct (occurrences MANAGED_PREFIX k) as [|i l] eqn:Ek; [done|].
  destruct (occurs_inside MANAGED_PREFIX a k c i) as [Hik Hin]; [done|rewrite Ek; set_solver|].
  rewrite <- E in Hin. specialize (Hi i Hik).
  apply marker_prefix_occurs in Hs, He; auto.
  destruct (two_elements _ s e _ (occurrences_NoDup _ _) H2 Hs He Hne Hin); lia.
Qed.

Lemma split_managed_sound b m u : split_managed b = Ok (m, u) -> fenced b m u.
Proof.
  unfold split_managed. markers.
  destruct (negb _) eqn:Hc; [done|]. apply negb_false_iff, Nat.eqb_eq in Hc.
  destruct (occurrences MANAGED_START b) as [|s [|]] eqn:Es;
    destruct (occurrences MANAGED_END b) as [|e [|]] eqn:Ee; try done.
  { intros [= <- <-]. constructor. intros Hm. apply Hm. by apply nil_length_inv. }
  destruct (Nat.ltb_spec s e) as [Hlt|]; [|done]. intros Hok.
  apply rbind_Ok in Hok as ([m' u'] & Hf & [= <- <-]).
  assert (Hs : s ∈ occurrences MANAGED_START b) by (rewrite Es; set_solver).
  assert (He : e ∈ occurrences MANAGED_END b) by (rewrite Ee; set_solver).
  destruct (occurrence_split MANAGED_START b s) as (before & r & -> & <-); [done..|].
  destruct (split_fence_sound before r e m' u') as
    (nl & nl' & after & -> & -> & Hnl & Hnl' & Lb & Lm & ->); [done..|].
  pose proof (fun a k c => no_other_marker _ _ _ a k c Hc (Nat.lt_neq _ _ Hlt) Hs He) as Hno.
  change (length MANAGED_START) with 28%nat in Hno.
  constructor; try done.
  - destruct Hnl' as [?|(-> & -> & _)]; auto.
  - eapply (Hno [] before); [done|]. intros i Hi. simpl. lia.
  - apply (Hno (before ++ MANAGED_START ++ nl) m' (MANAGED_END ++ nl' ++ after)).
    + by rewrite <- !app_assoc.
    + intros i Hi. rewrite !length_app. change (length MANAGED_START) with 28%nat. lia.
  - apply (Hno (before ++ MANAGED_START ++ nl ++ m' ++ MANAGED_END ++ nl') after []).
    + rewrite <- !app_assoc. by rewrite app_nil_r.
    + intros i Hi. rewrite !length_app. change (length MANAGED_START) with 28%nat.
      change (length MANAGED_END) with 26%nat. lia.
Qed.

(** A file that is not well fenced is refused as malformed. *)
Lemma marker_line_end_err b i n eof e : marker_line_end b i n eof = Err e -> e = MalformedManagedFence.
Proof. unfold marker_line_end. intros. repeat case_match; congruence. Qed.

Lemma split_managed_err b e : split_managed b = Err e -> e = MalformedManagedFence.
Proof.
  unfold split_managed. intros Hf. repeat case_match; try congruence.
  unfold split_fence in Hf. destruct (marker_line_end b _ _ false) as [i|e1] eqn:E1; cbn [rbind] in Hf;
    [|injection Hf as <-; by eapply marker_line_end_err].
  destruct (marker_line_end b _ _ true) as [j|e2] eqn:E2; cbn [rbind] in Hf;
    [|injection Hf as <-; by eapply marker_line_end_err].
  case_match; cbn [rbind] in Hf; congruence.
Qed.

(** ** The text the user owns *)

Lemma fenced_unmanaged_clean b m u : fenced b m u -> ~ has_marker u.
Proof.
  intros [c Hc|before nl body nl' after _ _ Lb _ Mb _ Ma]; [done|].
  unfold has_marker in *. intros Hm. apply Hm. rewrite occurrences_app; [|done|].
  - destruct (occurrences MANAGED_PREFIX before); [|by destruct Mb].
    destruct (occurrences MANAGED_PREFIX after); [done|by destruct Ma].
  - destruct Lb as [->|[b' ->]].
    + intros (a & x & ? & Hx & _ & E & _). symmetry in E. apply app_nil in E as [_ ->]. done.
    + apply no_straddle_last. by destruct head_not_in_tails as (_ & _ & _ & ? & _).
Qed.

Lemma fenced_unmanaged_utf8 b m u s :
  fenced b m u -> from_utf8 b = Some s -> exists t, from_utf8 u = Some t.
Proof.
  intros [c Hc|before nl body nl' after _ Hnl' _ _ _ _ _] Hs; [by exists s|].
  assert (exists x m, MANAGED_START ++ nl ++ body ++ MANAGED_END ++ nl' = x :: m
    /\ Byte.to_N x < 0x80 /\ exists q y, m = q ++ [y] /\ Byte.to_N y < 0x80)
    as (x & k & Ek & Hx & q & y & -> & Hy).
  { eexists Byte.x3c, (start_tail ++ nl ++ body ++ MANAGED_END ++ nl'). split; [done|].
    split; [done|]. destruct Hnl' as [[->| ->]|[-> _]].
    - exists (start_tail ++ nl ++ body ++ MANAGED_END), LF. by rewrite <- !app_assoc.
    - exists (start_tail ++ nl ++ body ++ MANAGED_END ++ [CR]), LF. by rewrite <- !app_assoc.
    - exists (start_tail ++ nl ++ body ++ removelast MANAGED_END), Byte.x3e.
      rewrite <- !app_assoc. split; [|done]. by rewrite app_nil_r. }
  apply (from_utf8_cut before x q y after s); [|done..].
  rewrite <- Hs. f_equal. f_equal. rewrite !app_assoc in Ek. rewrite !app_assoc, Ek.
  cbn [app]. by rewrite <- app_assoc.
Qed.

Lemma fenced_unmanaged b m u : fenced b m u -> fenced u None u.
Proof. intros Hf. constructor. by eapply fenced_unmanaged_clean. Qed.

Section facts.
Context `{Primitives}.

Lemma extract_spec b k :
  extract_managed_markdown b = Ok k <->
  (exists s, from_utf8 b = Some s) /\ fenced b (mk_managed_body k) (mk_unmanaged_body k)
  /\ mk_full_digest k = digest b
  /\ mk_unmanaged_digest k = digest (normalize_final_newline (mk_unmanaged_body k)).
Proof.
  unfold extract_managed_markdown. split.
  - intros Hok. apply rbind_Ok in Hok as (s & Hs%ok_or_Ok & Hok).
    apply rbind_Ok in Hok as ([m u] & Hf%split_managed_sound & [= <-]). simpl. eauto.
  - intros ([s Hs] & Hf%split_managed_complete & Hd & Hu). rewrite Hs. cbn [rbind ok_or].
    rewrite Hf. cbn [rbind]. destruct k; simpl in *. by subst.
Qed.

(** What was separated stays separated: the user's text is itself a file without a block, and
    its digest is the one recorded for it. *)
Lemma extract_again b k :
  extract_managed_markdown b = Ok k ->
  exists k', extract_managed_markdown (mk_unmanaged_body k) = Ok k'
    /\ mk_managed_body k' = None /\ mk_unmanaged_body k' = mk_unmanaged_body k
    /\ mk_unmanaged_digest k' = mk_unmanaged_digest k.
Proof.
  intros ([s Hs] & Hf & _ & Hu)%extract_spec.
  exists {| mk_managed_body := None; mk_unmanaged_body := mk_unmanaged_body k;
            mk_full_digest := digest (mk_unmanaged_body k);
            mk_unmanaged_digest := mk_unmanaged_digest k |}.
  rewrite extract_spec. split_and!; try done; simpl.
  - by eapply fenced_unmanaged_utf8.
  - by eapply fenced_unmanaged.
Qed.

(** A file that cannot be split is reported as one with a malformed fence. *)
Lemma split_managed_Err b e : split_managed b = Err e -> e = MalformedManagedFence.
Proof.
  assert (Hm : forall start n eof e, marker_line_end b start n eof = Err e -> e = MalformedManagedFence).
  { intros start n eof e' He. unfold marker_line_end in He. by repeat case_match; simplify_eq. }
  unfold split_managed, split_fence. intros He.
  repeat match type of He with
  | context [marker_line_end b ?x ?n ?y] =>
      destruct (marker_line_end b x n y) as [?|?] eqn:?; cbn [rbind] in He
  | context [if ?x then _ else _] => destruct x; cbn [rbind] in He
  | (match ?x with _ => _ end) = _ => destruct x
  end; simplify_eq; eauto.
Qed.

Lemma extract_Err b e :
  extract_managed_markdown b = Err e <->
  (from_utf8 b = None /\ e = InvalidUtf8)
  \/ (is_Some (from_utf8 b) /\ (forall m u, ~ fenced b m u) /\ e = MalformedManagedFence).
Proof.
  unfold extract_managed_markdown. destruct (from_utf8 b) as [s|]; cbn [ok_or rbind].
  - destruct (split_managed b) as [[m u]|e'] eqn:Es; cbn [rbind].
    + split; [done|]. intros [[? _]|(_ & Hn & _)]; [done|]. by apply split_managed_sound, Hn in Es.
    + pose proof (split_managed_Err _ _ Es) as ->. split.
      * intros [= <-]. right. split_and!; [by eexists| |done]. intros m u Hf%split_managed_complete. congruence.
      * intros [[? _]|(_ & _ & ->)]; [done|reflexivity].
  - split; [intros [= <-]; by left|]. intros [[_ ->]|([? ?] & _)]; done.
Qed.

(** C15. Separating the product's block from the user's text, on every input.  It succeeds
    exactly on the well-fenced UTF-8 files: files without any marker, or with one start and
    one end marker, each alone on its line, in this order and with no other marker.  The
    managed body is what stands between the marker lines, the user's text is everything
    outside them, has no marker left in it and is UTF-8 again, and both digests are those of
    the file and of the user's text up to its final newline.  Bytes that are not UTF-8 are
    reported as such, and every other file as one with a malformed fence. *)
Theorem managed_fence_exact b :
  (forall k, extract_managed_markdown b = Ok k <->
     (exists s, from_utf8 b = Some s) /\ fenced b (mk_managed_body k) (mk_unmanaged_body k)
     /\ mk_full_digest k = digest b
     /\ mk_unmanaged_digest k = digest (normalize_final_newline (mk_unmanaged_body k)))
  /\ (forall e, extract_managed_markdown b = Err e <->
        (from_utf8 b = None /\ e = InvalidUtf8)
        \/ (is_Some (from_utf8 b) /\ (forall m u, ~ fenced b m u) /\ e = MalformedManagedFence))
  /\ (forall k, extract_managed_markdown b = Ok k ->
      ~ has_marker (mk_unmanaged_body k)
      /\ exists k', extract_managed_markdown (mk_unmanaged_body k) = Ok k'
          /\ mk_managed_body k' = None /\ mk_unmanaged_body k' = mk_unmanaged_body k
          /\ mk_unmanaged_digest k' = mk_unmanaged_digest k).
Proof.
  split; [intros k; apply extract_spec|]. split; [intros e; apply extract_Err|].
  intros k Hk. split; [|by eapply extract_again].
  apply extract_spec in Hk as (_ & Hf & _). by eapply fenced_unmanaged_clean.
Qed.

(** The slices of the extraction are in range. *)
Lemma managed_slice_in_range b s e m u :
  split_fence b s e = Ok (m, u) -> (s < e)%nat ->
  s ∈ occurrences MANAGED_START b -> e ∈ occurrences MANAGED_END b ->
  exists body_start fence_end,
    marker_line_end b s (length MANAGED_START) false = Ok body_start
    /\ marker_line_end b e (length MANAGED_END) true = Ok fence_end
    /\ (body_start <= e)%nat /\ (e <= fence_end)%nat /\ (fence_end <= length b)%nat.
Proof.
  intros Hf Hlt Hs He. destruct (occurrence_split MANAGED_START b s) as (before & r & -> & <-); [done..|].
  pose proof Hf as Hf'. apply split_fence_sound in Hf' as
    (nl & nl' & after & -> & -> & Hnl & Hnl' & _ & _ & ->); [|done..].
  unfold split_fence in Hf. apply rbind_Ok in Hf as (bs & H1 & Hf).
  apply rbind_Ok in Hf as (fe & H2 & _). exists bs, fe. split_and!; [done..| | |].
  - apply (marker_line_end_spec before MANAGED_START) in H1 as (nl2 & r & E & Hm & ->).
    destruct Hm as [Hm|(_ & _ & ?)]; [|done]. destruct Hnl as [->| ->], Hm as [->| ->];
      simplify_eq; simpl; lia.
  - destruct (occurrence_split MANAGED_END _ _ ltac:(done) He) as (pre & r & E & Hp).
    rewrite E, <- Hp in H2. apply marker_line_end_spec in H2 as (? & ? & _ & _ & ->). lia.
  - destruct (occurrence_split MANAGED_END _ _ ltac:(done) He) as (pre & r & E & Hp).
    rewrite E, <- Hp in H2. apply marker_line_end_spec in H2 as (? & ? & -> & _ & ->).
    rewrite E, !length_app. lia.
Qed.

End facts.
