(* ===== verification/SecretText.v ===== *)
(** * Secret-like text (core/mcp/secret_text.rs)

    The scan that refuses text with private keys, sensitive assignments, bearer tokens or
    token-shaped words before it is shared or imported.  Offsets count characters here and bytes
    in the source; they are only used to cut the same text. *)

From S2P Require Import Prelude Ordering Text Protocol Minicbor CanonicalCbor Domain.
From S2P Require Import SyncPayload Crypto Operation Causal Merge Transport StateSummary.
From S2P Require Import Admission NativeModel TextSearch.

#[local] Open Scope N_scope.

(** ** Characters and splitting: [char] and [str] of the standard library *)

Definition is_ascii_uppercase (c : rchar) : bool := (0x41 <=? c) && (c <=? 0x5A).
Definition is_ascii_lowercase (c : rchar) : bool := (0x61 <=? c) && (c <=? 0x7A).
Definition is_ascii_digit (c : rchar) : bool := (0x30 <=? c) && (c <=? 0x39).
Definition is_ascii_alphabetic (c : rchar) : bool := is_ascii_uppercase c || is_ascii_lowercase c.
Definition is_ascii_alphanumeric (c : rchar) : bool := is_ascii_alphabetic c || is_ascii_digit c.
Definition is_ascii_punctuation (c : rchar) : bool :=
  ((0x21 <=? c) && (c <=? 0x2F)) || ((0x3A <=? c) && (c <=? 0x40))
  || ((0x5B <=? c) && (c <=? 0x60)) || ((0x7B <=? c) && (c <=? 0x7E)).

Definition char_lower (c : rchar) : rchar := if is_ascii_uppercase c then c + 32 else c.
Definition to_ascii_lowercase (s : rstr) : rstr := char_lower <$> s.
Definition eq_ignore_ascii_case (s t : rstr) : bool :=
  bool_decide (to_ascii_lowercase s = to_ascii_lowercase t).

Fixpoint trim_start_matches (f : rchar -> bool) (s : rstr) : rstr :=
  match s with
  | [] => []
  | c :: s' => if f c then trim_start_matches f s' else s
  end.
Definition trim_end_matches (f : rchar -> bool) (s : rstr) : rstr :=
  reverse (trim_start_matches f (reverse s)).
Definition trim_matches (f : rchar -> bool) (s : rstr) : rstr :=
  trim_end_matches f (trim_start_matches f s).
Definition trim_start : rstr -> rstr := trim_start_matches is_whitespace.
Definition trim_end : rstr -> rstr := trim_end_matches is_whitespace.
Definition trim : rstr -> rstr := trim_matches is_whitespace.

(** [str::split] at the characters that satisfy a predicate. *)
Fixpoint split_by (f : rchar -> bool) (s : rstr) : list rstr :=
  match s with
  | [] => [[]]
  | c :: s' =>
      if f c then [] :: split_by f s'
      else match split_by f s' with
           | [] => [[c]]
           | p :: ps => (c :: p) :: ps
           end
  end.

Definition split_whitespace (s : rstr) : list rstr :=
  filter (fun w => w <> []) (split_by is_whitespace s).

(** [str::lines]: a line ends with a line feed, which is dropped with a carriage return before
    it; what is behind the last line feed is a line if it is not empty. *)
Fixpoint lines_of (pieces : list rstr) : list rstr :=
  match pieces with
  | [] => []
  | [last] => if bool_decide (last = []) then [] else [last]
  | p :: ps => default p (strip_suffix [0x0D] p) :: lines_of ps
  end.
Definition lines (s : rstr) : list rstr := lines_of (split_by (fun c => c =? 0x0A) s).

(** [str::split_once] *)
Definition split_once (needle s : rstr) : option (rstr * rstr) :=
  match match_indices needle s with
  | [] => None
  | i :: _ => Some (take i s, drop (i + length needle) s)
  end.

Definition in_range (lo hi n : N) : bool := (lo <=? n) && (n <=? hi).

(** ** The scan *)

Definition PRIVATE_KEY_PREFIX : rstr := lit "-----begin ".
Definition PRIVATE_KEY_MARKER_PARTS : list (rstr * rstr) := [
  (lit "private", lit " key-----"); (lit "encrypted private", lit " key-----");
  (lit "rsa private", lit " key-----"); (lit "ec private", lit " key-----");
  (lit "dsa private", lit " key-----"); (lit "openssh private", lit " key-----");
  (lit "pgp private", lit " key block-----")].
Definition SENSITIVE_KEYS : list rstr := [
  lit "authorization"; lit "api_key"; lit "apikey"; lit "access_token"; lit "refresh_token";
  lit "password"; lit "secret"; lit "credential"].
Definition TOKEN_PREFIXES : list rstr := [
  lit "sk-"; lit "sk_live_"; lit "rk_live_"; lit "ghp_"; lit "gho_"; lit "ghu_"; lit "ghs_";
  lit "ghr_"; lit "github_pat_"; lit "glpat-"; lit "xoxb-"; lit "xoxp-"; lit "xoxa-";
  lit "xoxr-"; lit "xoxs-"; lit "xapp-"; lit "xoxe-"; lit "npm_"; lit "pypi-"; lit "ya29.";
  lit "aiza"; lit "hf_"; lit "sg."; lit "mfa."; lit "dop_v1_"; lit "lin_api_"].

Definition contains_private_key_marker (lower : rstr) : bool :=
  existsb (fun start =>
    let suffix := drop (start + length PRIVATE_KEY_PREFIX) lower in
    existsb (fun '(label, end_) =>
      match strip_prefix label suffix with
      | Some suffix => starts_with end_ suffix
      | None => false
      end) PRIVATE_KEY_MARKER_PARTS) (match_indices PRIVATE_KEY_PREFIX lower).

(** A name between [${] and [}]. *)
Definition environment_reference (value : rstr) : bool :=
  match strip_prefix (lit "${") value with
  | Some value =>
      match strip_suffix (lit "}") value with
      | Some [] => false
      | Some (c :: environment) =>
          ((c =? 0x5F) || is_ascii_alphabetic c)
          && forallb (fun c => (c =? 0x5F) || is_ascii_alphabetic c || is_ascii_digit c) environment
      | None => false
      end
  | None => false
  end.

(** The call on the token of ["bearer token"] does not call again ([placeholder_fuel]): one
    unit of fuel is enough. *)
Fixpoint benign_fuel (fuel : nat) (value : rstr) : bool :=
  let lower := to_ascii_lowercase value in
  if bool_decide (lower = lit "<provided by environment>") || bool_decide (lower = lit "[redacted]")
  then true else
  match split_whitespace value with
  | [word; token] =>
      if eq_ignore_ascii_case word (lit "bearer")
      then match fuel with O => false | S fuel' => benign_fuel fuel' token end
      else environment_reference value
  | _ => environment_reference value
  end.
Definition benign_sensitive_placeholder (value : rstr) : bool := benign_fuel 1 value.

Definition is_quote (c : rchar) : bool := (c =? 0x22) || (c =? 0x27).

Definition unquote (value : rstr) : rstr :=
  match value, last value with
  | q :: rest, Some q' =>
      if (2 <=? str_len value) && is_quote q && (q' =? q)
      then trim (take (length rest - 1) rest) else value
  | _, _ => value
  end.

Definition sensitive_rhs (rhs : rstr) : bool :=
  let value := trim rhs in
  if bool_decide (value = []) || starts_with (lit "#") value then false else
  let value := trim_end (trim_end_matches (fun c => c =? 0x2C) value) in
  let value := unquote value in
  let value := match split_once (lit " #") value with
               | Some (before_comment, _) => trim_end before_comment
               | None => value
               end in
  negb (bool_decide (value = []) || benign_sensitive_placeholder value).

Definition word_char (c : rchar) : bool := is_ascii_alphanumeric c || (c =? 0x5F).

Definition sensitive_at (key line : rstr) (start : nat) : bool :=
  if match last (take start line) with Some c => word_char c | None => false end then false else
  let suffix := drop (start + length key) line in
  if match head suffix with Some c => word_char c | None => false end then false else
  let separator_text := trim_start suffix in
  let separator_text :=
    match separator_text with
    | c :: stripped => if is_quote c then trim_start stripped else separator_text
    | [] => separator_text
    end in
  match separator_text with
  | c :: rhs => if (c =? 0x3A) || (c =? 0x3D) then sensitive_rhs rhs else false
  | [] => false
  end.

Definition has_sensitive_assignment (lower : rstr) : bool :=
  existsb (fun line =>
    existsb (fun key => existsb (sensitive_at key line) (match_indices key line)) SENSITIVE_KEYS)
    (lines lower).

Definition is_bearer_value (original : rstr) : bool :=
  let value := trim_matches is_ascii_punctuation original in
  in_range 16 512 (str_len value)
  && negb (benign_sensitive_placeholder original)
  && negb (benign_sensitive_placeholder value)
  && forallb (fun c => is_ascii_alphanumeric c || (c =? 0x2D) || (c =? 0x5F) || (c =? 0x2E)
                       || (c =? 0x7E) || (c =? 0x2B) || (c =? 0x2F)) value.

(** [words.windows(2).any(..)] *)
Fixpoint bearer_pair (words : list rstr) : bool :=
  match words with
  | w :: ((v :: _) as words') =>
      (eq_ignore_ascii_case (trim_matches is_ascii_punctuation w) (lit "bearer")
       && is_bearer_value v) || bearer_pair words'
  | _ => false
  end.
Definition has_bearer_token (text : rstr) : bool := bearer_pair (split_whitespace text).

Definition looks_like_aws_access_key (token : rstr) : bool :=
  (str_len token =? 20)
  && (starts_with (lit "AKIA") token || starts_with (lit "ASIA") token)
  && forallb (fun c => is_ascii_uppercase c || is_ascii_digit c) (drop 4 token).

Definition is_base64url (value : rstr) : bool :=
  forallb (fun c => is_ascii_alphanumeric c || (c =? 0x2D) || (c =? 0x5F)) value.

Definition looks_like_jwt (token : rstr) : bool :=
  match split_by (fun c => c =? 0x2E) token with
  | [header; payload; signature] =>
      in_range 8 512 (str_len header) && in_range 8 4096 (str_len payload)
      && in_range 8 512 (str_len signature)
      && forallb is_base64url [header; payload; signature]
  | _ => false
  end.

Definition token_shaped (token : rstr) : bool :=
  let lower := to_ascii_lowercase token in
  existsb (fun prefix => starts_with prefix lower && (str_len prefix + 12 <=? str_len token))
    TOKEN_PREFIXES
  || looks_like_aws_access_key token || looks_like_jwt token.

Definition has_bounded_token_shape (text : rstr) : bool :=
  let whitespace_delimited :=
    trim_matches (fun c => is_ascii_punctuation c && negb ((c =? 0x2D) || (c =? 0x5F)))
    <$> split_by (fun c => is_whitespace c || is_quote c) text in
  let syntax_delimited :=
    split_by (fun c => negb (is_ascii_alphanumeric c || (c =? 0x2D) || (c =? 0x5F) || (c =? 0x2E)))
      text in
  existsb token_shaped
    (filter (fun token => in_range 8 512 (str_len token) = true)
       (whitespace_delimited ++ syntax_delimited)).

Definition contains_secret_like (text : rstr) : bool :=
  let lower := to_ascii_lowercase text in
  contains_private_key_marker lower || has_sensitive_assignment lower
  || has_bearer_token text || has_bounded_token_shape text.

(** ** The recursion of [benign_sensitive_placeholder] is bounded *)

Lemma split_by_no_match f s : forallb (fun c => negb (f c)) s = true -> split_by f s = [s].
Proof.
  induction s as [|c s IH]; [done|]. simpl. rewrite andb_true_iff, negb_true_iff.
  intros [-> Hs]. by rewrite IH.
Qed.

Lemma split_by_pieces f s p : p ∈ split_by f s -> forallb (fun c => negb (f c)) p = true.
Proof.
  revert p. induction s as [|c s IH]; intros p; simpl.
  { by intros ->%list_elem_of_singleton. }
  destruct (f c) eqn:E.
  - intros [->|Hp]%elem_of_cons; [done|]. by apply IH.
  - destruct (split_by f s) as [|q qs].
    + intros ->%list_elem_of_singleton. simpl. by rewrite E.
    + intros [->|Hp]%elem_of_cons.
      * simpl. rewrite E. apply IH. by left.
      * apply IH. by right.
Qed.

Lemma split_whitespace_word s w :
  w ∈ split_whitespace s -> w <> [] /\ split_whitespace w = [w].
Proof.
  unfold split_whitespace. rewrite list_elem_of_filter. intros [Hw Hp%split_by_pieces].
  split; [done|]. rewrite split_by_no_match by done. by rewrite filter_cons_True.
Qed.

Lemma placeholder_fuel n value : benign_fuel (S n) value = benign_sensitive_placeholder value.
Proof.
  unfold benign_sensitive_placeholder. cbn [benign_fuel].
  destruct (_ || _); [done|]. destruct (split_whitespace value) as [|w [|token [|]]] eqn:E; try done.
  destruct (eq_ignore_ascii_case w (lit "bearer")); [|done].
  destruct (split_whitespace_word value token) as [_ Ht]; [rewrite E; set_solver|].
  destruct n; cbn [benign_fuel]; rewrite Ht; done.
Qed.

(** ** Detection *)

Lemma lowercase_app s t : to_ascii_lowercase (s ++ t) = to_ascii_lowercase s ++ to_ascii_lowercase t.
Proof. apply fmap_app. Qed.

(** An occurrence of an unbordered needle is one of its matches. *)
Lemma match_at needle (a b : rstr) :
  unbordered needle = true -> length a ∈ match_indices needle (a ++ needle ++ b).
Proof.
  intros Hu. rewrite match_indices_occurrences by done.
  assert (needle <> []) by (intros ->; done). apply occurrences_spec; [done|].
  by rewrite drop_app_length, starts_with_app.
Qed.

Lemma existsb_elem {A} (f : A -> bool) l x : x ∈ l -> f x = true -> existsb f l = true.
Proof. intros Hx Hf. apply existsb_exists. exists x. by rewrite <- list_elem_of_In. Qed.

Lemma private_key_marker a label end_ b :
  (label, end_) ∈ PRIVATE_KEY_MARKER_PARTS ->
  contains_private_key_marker (a ++ (PRIVATE_KEY_PREFIX ++ label ++ end_) ++ b) = true.
Proof.
  intros Hin. unfold contains_private_key_marker. rewrite <- !app_assoc.
  apply (existsb_elem _ _ (length a)); [by apply match_at|].
  apply (existsb_elem _ _ (label, end_)); [done|]. rewrite app_assoc, <- length_app, drop_app_length.
  rewrite (proj2 (strip_prefix_Some _ _ (end_ ++ b)) eq_refl). apply starts_with_app.
Qed.

Lemma split_by_nonempty f s : split_by f s <> [].
Proof. destruct s as [|c s]; [done|]. simpl. destruct (f c), (split_by f s); done. Qed.

Lemma split_by_app f a c b :
  f c = true -> split_by f (a ++ c :: b) = split_by f a ++ split_by f b.
Proof.
  intros Hc. induction a as [|x a IH]; simpl; [by rewrite Hc|]. rewrite IH.
  destruct (f x); [done|]. pose proof (split_by_nonempty f a).
  destruct (split_by f a) as [|p ps]; done.
Qed.

(** A word between separators, or an end of the text, is one of its pieces. *)
Definition delimited (f : rchar -> bool) (a w b : rstr) : Prop :=
  forallb (fun c => negb (f c)) w = true
  /\ (a = [] \/ exists a' c, a = a' ++ [c] /\ f c = true)
  /\ (b = [] \/ exists c b', b = c :: b' /\ f c = true).

Lemma split_by_around f a w b : delimited f a w b -> w ∈ split_by f (a ++ w ++ b).
Proof.
  intros (Hw & Ha & Hb). assert (Hwb : w ∈ split_by f (w ++ b)).
  { destruct Hb as [->|(c & b' & -> & Hc)].
    - rewrite app_nil_r, split_by_no_match by done. by left.
    - rewrite split_by_app, split_by_no_match by done. by left. }
  destruct Ha as [->|(a' & c & -> & Hc)]; [done|].
  rewrite <- app_assoc. cbn [app]. rewrite split_by_app by done. apply elem_of_app. by right.
Qed.

(** The scan cannot be evaded by position or letter case: a text with a private-key header
    anywhere in it, in any mix of cases, is refused, and so is a text with a word, between
    characters that cannot be part of a token, that is shaped like an AWS key, a web token or a
    provider token of 8 to 512 bytes. *)
Theorem secrets_detected (a b header word : rstr) (label end_ : rstr) :
  ((label, end_) ∈ PRIVATE_KEY_MARKER_PARTS ->
   to_ascii_lowercase header = PRIVATE_KEY_PREFIX ++ label ++ end_ ->
   contains_secret_like (a ++ header ++ b) = true)
  /\ (delimited (fun c => negb (is_ascii_alphanumeric c || (c =? 0x2D) || (c =? 0x5F) || (c =? 0x2E)))
        a word b ->
      in_range 8 512 (str_len word) = true -> token_shaped word = true ->
      contains_secret_like (a ++ word ++ b) = true).
Proof.
  split; unfold contains_secret_like.
  - intros Hin Hh. rewrite !lowercase_app, Hh, private_key_marker by done. done.
  - intros Hd Hr Ht. apply orb_true_iff. right. unfold has_bounded_token_shape.
    apply (existsb_elem _ _ word); [|done]. apply list_elem_of_filter. split; [done|].
    apply elem_of_app. right. by apply split_by_around.
Qed.

Module SecretWitness.

Lemma secrets_detected_witness :
  contains_secret_like (lit "see -----Begin RSA Private KEY----- below") = true
  /\ contains_secret_like (lit "key=[AKIA1234567890ABCDEF]") = true.
Proof.
  split.
  - apply (proj1 (secrets_detected (lit "see ") (lit " below") (lit "-----Begin RSA Private KEY-----")
      [] (lit "rsa private") (lit " key-----"))); [|reflexivity].
    apply (bool_decide_eq_true_1 _). vm_compute. reflexivity.
  - apply (proj2 (secrets_detected (lit "key=[") (lit "]") [] (lit "AKIA1234567890ABCDEF") [] []));
      [|vm_compute; reflexivity..].
    split; [vm_compute; reflexivity|]. split; right.
    + by exists (lit "key="), 0x5B.
    + by exists 0x5D, [].
Defined.

Example placeholders_pass :
  contains_secret_like (lit "api_key = ${ENV_VAR}") = false
  /\ contains_secret_like (lit "password: # intentionally unset") = false
  /\ contains_secret_like (lit "Authorization: Bearer ${CONTEXT_RELAY_ACCESS_TOKEN}") = false
  /\ contains_secret_like (lit "secret: <provided by environment>") = false.
Proof. split_and!; vm_compute; reflexivity. Qed.

Example assignments_rejected :
  contains_secret_like (lit "password = 'abc123'") = true
  /\ contains_secret_like (lit "Authorization: Bearer must-not-echo") = true
  /\ contains_secret_like (lit "Bearer abcdefghijklmnopqrstuvwxyz012345") = true
  /\ contains_secret_like (lit "Keep {abcdefgh.ijklmnop.qrstuvwx}; out.") = true.
Proof. split_and!; vm_compute; reflexivity. Qed.

(** A token of more than 512 bytes is skipped before its shape is looked at, so the larger bound
    [looks_like_jwt] has for the payload is never reached: a JWT with a payload of 600 characters
    is not reported, one with a payload of 400 is. *)
Definition jwt_of (payload : nat) : rstr :=
  lit "eyJhbGciOiJI" ++ lit "." ++ replicate payload 0x61 ++ lit "." ++ lit "c2lnbmF0dXJl".

Lemma long_jwt_missed :
  looks_like_jwt (jwt_of 600) = true /\ contains_secret_like (jwt_of 600) = false
  /\ contains_secret_like (jwt_of 400) = true.
Proof. split_and!; vm_compute; reflexivity. Qed.

End SecretWitness.
