(* ===== verification/MemorySource.v ===== *)
(** * Native memory: sources, ledgers, capabilities and debouncing
      (core/native_memory/model.rs, capability.rs, debounce.rs)

    A source is a memory file of a harness; its identifier is the digest of everything that
    describes it.  A ledger is what the vault remembers of a source.  Debouncing reports an
    observation of a file once it has been stable long enough. *)

From S2P Require Import Prelude Ordering Text Protocol Minicbor CanonicalCbor Domain.
From S2P Require Import SyncPayload Crypto Operation Causal Merge Transport StateSummary.
From S2P Require Import Admission NativeModel TextSearch MemoryMarkdown SecretText.

#[local] Open Scope N_scope.

(** ** Sources: model.rs *)

Abbreviation NativeMemorySourceId := Sha256Digest (only parsing).

Inductive NativeMemoryDocumentKind := Agent | UserProfile | Summary | Topic.

Record NativeMemoryLimits := {
  ml_max_bytes : N;
  ml_max_characters : N;
}.

Record NativeMemorySource := {
  ms_id : NativeMemorySourceId;
  ms_harness : HarnessId;
  ms_adapter_version : rstr;
  ms_scope : ScopeRef;
  ms_document_kind : NativeMemoryDocumentKind;
  ms_path : WireNativeValue;
  ms_limits : NativeMemoryLimits;
  ms_managed_fence : bool;
}.

Inductive NativeMemorySnapshot := Absent | Regular (b : bytes).

Inductive NativeMemoryObservationKind := InitialPreview | LiveEdit.

Record ReadyNativeMemory := {
  rn_source : NativeMemorySource;
  rn_snapshot : NativeMemorySnapshot;
  rn_kind : NativeMemoryObservationKind;
}.

Inductive NativeMemoryDiagnosticClass :=
| DInvalidUtf8 | DSensitiveText | DTooLarge | DMalformedManagedFence | DManagedContentModified.

Record NativeMemoryDiagnostic := {
  nd_source_id : NativeMemorySourceId;
  nd_error_class : NativeMemoryDiagnosticClass;
  nd_digest : Sha256Digest;
}.

Record NativeMemoryLedger := {
  nl_source_id : NativeMemorySourceId;
  nl_source : option NativeMemorySource;
  nl_last_observed_digest : option Sha256Digest;
  nl_last_unmanaged_digest : option Sha256Digest;
  nl_last_imported_digest : option Sha256Digest;
  nl_last_applied_digest : option Sha256Digest;
  nl_last_applied_managed_digest : option Sha256Digest;
  nl_last_diagnostic : option NativeMemoryDiagnostic;
  nl_initial_preview_complete : bool;
}.

#[global] Instance NativeMemoryDocumentKind_eq_dec : EqDecision NativeMemoryDocumentKind.
Proof. solve_decision. Defined.
#[global] Instance NativeMemoryLimits_eq_dec : EqDecision NativeMemoryLimits.
Proof. solve_decision. Defined.
#[global] Instance NativeMemorySource_eq_dec : EqDecision NativeMemorySource.
Proof. solve_decision. Defined.
#[global] Instance NativeMemorySnapshot_eq_dec : EqDecision NativeMemorySnapshot.
Proof. solve_decision. Defined.
#[global] Instance NativeMemoryObservationKind_eq_dec : EqDecision NativeMemoryObservationKind.
Proof. solve_decision. Defined.
#[global] Instance NativeMemoryDiagnosticClass_eq_dec : EqDecision NativeMemoryDiagnosticClass.
Proof. solve_decision. Defined.
#[global] Instance NativeMemoryDiagnostic_eq_dec : EqDecision NativeMemoryDiagnostic.
Proof. solve_decision. Defined.
#[global] Instance NativeMemoryLedger_eq_dec : EqDecision NativeMemoryLedger.
Proof. solve_decision. Defined.

Definition harness_name (harness : HarnessId) : string :=
  match harness with
  | ClaudeCode => "claude_code"
  | Codex => "codex"
  | Hermes => "hermes"
  | OpenCode => "opencode"
  end.

Definition document_kind_name (kind : NativeMemoryDocumentKind) : string :=
  match kind with
  | Agent => "agent"
  | UserProfile => "user_profile"
  | Summary => "summary"
  | Topic => "topic"
  end.

Definition platform_name (platform : NativePlatform) : string :=
  match platform with
  | Windows => "windows"
  | Macos => "macos"
  end.

(** [bytes.chunks_exact(2)] *)
Fixpoint chunks2 (b : bytes) : list (byte * byte) :=
  match b with
  | x :: y :: b' => (x, y) :: chunks2 b'
  | _ => []
  end.

Definition path_contains_nul (path : WireNativeValue) : bool :=
  match wv_platform path with
  | Macos => bool_decide (Byte.x00 ∈ wv_bytes path)
  | Windows => existsb (fun pair => bool_decide (pair = (Byte.x00, Byte.x00))) (chunks2 (wv_bytes path))
  end.

Definition validate_source_fields (adapter_version : rstr) (path : WireNativeValue)
    (limits : NativeMemoryLimits) : result NativeMemoryError unit :=
  if trim_is_empty adapter_version || (MAX_TITLE_BYTES <? str_len adapter_version)
     || existsb is_control adapter_version
  then Err (InvalidSource "adapter_version") else
  if is_err (WireNativeValue_validate path) || bool_decide (wv_bytes path = [])
     || path_contains_nul path
  then Err (InvalidSource "path") else
  if (ml_max_bytes limits =? 0) || (ml_max_characters limits =? 0)
     || (MAX_MARKDOWN_BYTES <? ml_max_bytes limits) || (MAX_MARKDOWN_BYTES <? ml_max_characters limits)
  then Err (InvalidSource "limits") else Ok tt.

(** The state of the hasher is the message absorbed so far. *)
Definition add_field (hasher field : bytes) : bytes := hasher ++ to_be 8 (len field) ++ field.

Definition add_source_location_fields (hasher : bytes) (harness : HarnessId)
    (adapter_version : rstr) (scope : ScopeRef) (document_kind : NativeMemoryDocumentKind)
    (path : WireNativeValue) : bytes :=
  let hasher := add_field hasher (as_bytes (lit (harness_name harness))) in
  let hasher := add_field hasher (as_bytes adapter_version) in
  let hasher := match scope with
                | Global => add_field (add_field hasher (as_bytes (lit "global"))) []
                | Project project_id => add_field (add_field hasher (as_bytes (lit "project"))) project_id
                end in
  let hasher := add_field hasher (as_bytes (lit (document_kind_name document_kind))) in
  let hasher := add_field hasher (as_bytes (lit (platform_name (wv_platform path)))) in
  add_field hasher (wv_bytes path).

Section source.
Context `{Primitives}.

Definition source_message (harness : HarnessId) (adapter_version : rstr) (scope : ScopeRef)
    (document_kind : NativeMemoryDocumentKind) (path : WireNativeValue)
    (limits : NativeMemoryLimits) (managed_fence : bool) : bytes :=
  let hasher := add_field [] (as_bytes (lit "context-relay.native-memory-source.v2")) in
  let hasher := add_source_location_fields hasher harness adapter_version scope document_kind path in
  let hasher := add_field hasher (to_be 8 (ml_max_bytes limits)) in
  let hasher := add_field hasher (to_be 8 (ml_max_characters limits)) in
  add_field hasher [if managed_fence then Byte.x01 else Byte.x00].

Definition derive_source_id (harness : HarnessId) (adapter_version : rstr) (scope : ScopeRef)
    (document_kind : NativeMemoryDocumentKind) (path : WireNativeValue)
    (limits : NativeMemoryLimits) (managed_fence : bool)
    : result NativeMemoryError NativeMemorySourceId :=
  if bool_decide (harness = OpenCode)
  then Err (InvalidSource "OpenCode has no qualified native memory source") else
  let? _ := validate_source_fields adapter_version path limits in
  Ok (sha256 (source_message harness adapter_version scope document_kind path limits managed_fence)).

Definition legacy_message (harness : HarnessId) (adapter_version : rstr) (scope : ScopeRef)
    (document_kind : NativeMemoryDocumentKind) (path : WireNativeValue) : bytes :=
  let hasher := add_field [] (as_bytes (lit "context-relay.native-memory-source.v1")) in
  add_source_location_fields hasher harness adapter_version scope document_kind path.

Definition derive_legacy_source_id (harness : HarnessId) (adapter_version : rstr)
    (scope : ScopeRef) (document_kind : NativeMemoryDocumentKind) (path : WireNativeValue)
    (limits : NativeMemoryLimits) : result NativeMemoryError NativeMemorySourceId :=
  if bool_decide (harness = OpenCode)
  then Err (InvalidSource "OpenCode has no qualified native memory source") else
  let? _ := validate_source_fields adapter_version path limits in
  Ok (sha256 (legacy_message harness adapter_version scope document_kind path)).

Definition NativeMemorySource_new (harness : HarnessId) (adapter_version : rstr)
    (scope : ScopeRef) (document_kind : NativeMemoryDocumentKind) (path : WireNativeValue)
    (limits : NativeMemoryLimits) (managed_fence : bool)
    : result NativeMemoryError NativeMemorySource :=
  let? id := derive_source_id harness adapter_version scope document_kind path limits managed_fence in
  Ok {| ms_id := id; ms_harness := harness; ms_adapter_version := adapter_version;
        ms_scope := scope; ms_document_kind := document_kind; ms_path := path;
        ms_limits := limits; ms_managed_fence := managed_fence |}.

Definition NativeMemorySource_validate (self : NativeMemorySource) : result NativeMemoryError unit :=
  let? expected := derive_source_id (ms_harness self) (ms_adapter_version self) (ms_scope self)
                     (ms_document_kind self) (ms_path self) (ms_limits self)
                     (ms_managed_fence self) in
  if negb (bool_decide (expected = ms_id self)) then Err (InvalidSource "id") else Ok tt.

Definition validate_compatible (self : NativeMemorySource) : result NativeMemoryError unit :=
  if is_ok (NativeMemorySource_validate self) then Ok tt else
  let? legacy := derive_legacy_source_id (ms_harness self) (ms_adapter_version self)
                   (ms_scope self) (ms_document_kind self) (ms_path self) (ms_limits self) in
  if negb (bool_decide (legacy = ms_id self)) then Err (InvalidSource "id") else Ok tt.

(** *** Ledgers *)

Definition NativeMemoryLedger_new (source_id : NativeMemorySourceId) : NativeMemoryLedger := {|
  nl_source_id := source_id; nl_source := None; nl_last_observed_digest := None;
  nl_last_unmanaged_digest := None; nl_last_imported_digest := None;
  nl_last_applied_digest := None; nl_last_applied_managed_digest := None;
  nl_last_diagnostic := None; nl_initial_preview_complete := false |}.

Definition for_source (source : NativeMemorySource) : NativeMemoryLedger := {|
  nl_source_id := ms_id source; nl_source := Some source; nl_last_observed_digest := None;
  nl_last_unmanaged_digest := None; nl_last_imported_digest := None;
  nl_last_applied_digest := None; nl_last_applied_managed_digest := None;
  nl_last_diagnostic := None; nl_initial_preview_complete := false |}.

Definition validate_persisted (self : NativeMemoryLedger) : result NativeMemoryError NativeMemorySource :=
  let? source := ok_or (nl_source self) (InvalidSource "ledger.source") in
  let? _ := validate_compatible source in
  if negb (bool_decide (ms_id source = nl_source_id self))
  then Err (InvalidSource "ledger.source_id") else Ok source.

End source.

(** ** Debouncing: debounce.rs *)

Definition NATIVE_MEMORY_POLL_MS : N := 250.
Definition NATIVE_MEMORY_DEBOUNCE_MS : N := 750.

Record StableObservation := {
  so_source_id : NativeMemorySourceId;
  so_digest : option Sha256Digest;
  so_stable_since_ms : N;
}.

Record PendingObservation := {
  po_digest : option Sha256Digest;
  po_stable_since_ms : N;
}.

(** [DebounceState] *)
Abbreviation DebounceState := (gmap (list byte) PendingObservation).

Definition observe (state : DebounceState) (source_id : NativeMemorySourceId)
    (digest : option Sha256Digest) (now_ms : N) : DebounceState * option StableObservation :=
  let fresh := {| po_digest := digest; po_stable_since_ms := now_ms |} in
  let pending := default fresh (state !! source_id) in
  if negb (bool_decide (po_digest pending = digest))
     || bool_decide (checked_sub now_ms (po_stable_since_ms pending) = None)
  then (<[source_id := fresh]> state, None)
  else (<[source_id := pending]> state,
        if NATIVE_MEMORY_DEBOUNCE_MS <=? now_ms - po_stable_since_ms pending
        then Some {| so_source_id := source_id; so_digest := digest;
                     so_stable_since_ms := po_stable_since_ms pending |}
        else None).

Definition acknowledge (state : DebounceState) (observation : StableObservation)
    : DebounceState * bool :=
  let matches := match state !! so_source_id observation with
                 | Some pending =>
                     bool_decide (po_digest pending = so_digest observation)
                     && (po_stable_since_ms pending =? so_stable_since_ms observation)
                 | None => false
                 end in
  (if matches then delete (so_source_id observation) state else state, matches).

Definition invalidate (state : DebounceState) (source_id : NativeMemorySourceId)
    : DebounceState * bool :=
  (delete source_id state, bool_decide (is_Some (state !! source_id))).

(** ** The identifier of a source binds its description *)

Definition encode_field (field : bytes) : bytes := to_be 8 (len field) ++ field.

Lemma add_fields_message fields hasher :
  foldl add_field hasher fields = hasher ++ (fields ≫= encode_field).
Proof.
  revert hasher. induction fields as [|f fields IH]; intros hasher; simpl; [by rewrite app_nil_r|].
  rewrite IH. unfold add_field, encode_field. by rewrite <- !app_assoc.
Qed.

Lemma encode_field_inj f g r r' :
  len f <= u64_max -> len g <= u64_max ->
  encode_field f ++ r = encode_field g ++ r' -> f = g /\ r = r'.
Proof.
  unfold encode_field. intros Hf Hg. rewrite <- !app_assoc.
  intros [E1 E2]%app_inj_1; [|by rewrite !length_to_be].
  assert (len f = len g) as El.
  { apply (to_be_inj 8); [..|done]; change (256 ^ N.of_nat 8) with (u64_max + 1); lia. }
  apply app_inj_1 in E2; [done|]. unfold len in El. lia.
Qed.

Lemma encode_field_nonempty f r : encode_field f ++ r <> [].
Proof.
  intros E%(f_equal length). unfold encode_field in E. rewrite !length_app, length_to_be in E.
  cbn [length] in E. lia.
Qed.

(** Hashing length-prefixed fields determines the fields. *)
Lemma fields_message_inj l k :
  Forall (fun f => len f <= u64_max) l -> Forall (fun f => len f <= u64_max) k ->
  (l ≫= encode_field) = (k ≫= encode_field) -> l = k.
Proof.
  intros Hl. revert k. induction Hl as [|f l Hf Hl IH]; intros k Hk E.
  { destruct k as [|g k]; [done|]. symmetry in E. by apply encode_field_nonempty in E. }
  destruct k as [|g k]; [by apply encode_field_nonempty in E|].
  inversion Hk as [|? ? Hg Hk']; subst. cbn [mbind list_bind] in E.
  apply encode_field_inj in E as [-> E]; [|done..]. f_equal. by apply IH.
Qed.

Definition scope_fields (scope : ScopeRef) : list bytes :=
  match scope with
  | Global => [as_bytes (lit "global"); []]
  | Project project_id => [as_bytes (lit "project"); project_id]
  end.

Definition location_fields (s : NativeMemorySource) : list bytes :=
  [as_bytes (lit (harness_name (ms_harness s))); as_bytes (ms_adapter_version s)]
  ++ scope_fields (ms_scope s)
  ++ [as_bytes (lit (document_kind_name (ms_document_kind s)));
      as_bytes (lit (platform_name (wv_platform (ms_path s)))); wv_bytes (ms_path s)].

Definition source_fields (s : NativeMemorySource) : list bytes :=
  as_bytes (lit "context-relay.native-memory-source.v2") :: location_fields s
  ++ [to_be 8 (ml_max_bytes (ms_limits s)); to_be 8 (ml_max_characters (ms_limits s));
      [if ms_managed_fence s then Byte.x01 else Byte.x00]].

Definition legacy_fields (s : NativeMemorySource) : list bytes :=
  as_bytes (lit "context-relay.native-memory-source.v1") :: location_fields s.

Section binding.
Context `{UuidCrate} `{Primitives}.

Definition typed_source_descriptor (s : NativeMemorySource) : bool :=
  wf_str (ms_adapter_version s) && typed_scope (ms_scope s).

Lemma source_message_fields (s : NativeMemorySource) :
  source_message (ms_harness s) (ms_adapter_version s) (ms_scope s) (ms_document_kind s) (ms_path s)
    (ms_limits s) (ms_managed_fence s) = (source_fields s ≫= encode_field).
Proof.
  rewrite <- (app_nil_l (source_fields s ≫= _)), <- add_fields_message.
  unfold source_message, add_source_location_fields, source_fields, location_fields, scope_fields.
  by destruct (ms_scope s).
Qed.

Lemma legacy_message_fields (s : NativeMemorySource) :
  legacy_message (ms_harness s) (ms_adapter_version s) (ms_scope s) (ms_document_kind s) (ms_path s)
  = (legacy_fields s ≫= encode_field).
Proof.
  rewrite <- (app_nil_l (legacy_fields s ≫= _)), <- add_fields_message.
  unfold legacy_message, add_source_location_fields, legacy_fields, location_fields, scope_fields.
  by destruct (ms_scope s).
Qed.

Definition fields_valid (s : NativeMemorySource) : Prop :=
  validate_source_fields (ms_adapter_version s) (ms_path s) (ms_limits s) = Ok tt.

Lemma fields_valid_bounds s :
  fields_valid s -> str_len (ms_adapter_version s) <= MAX_TITLE_BYTES
  /\ len (wv_bytes (ms_path s)) <= MAX_ARBITRARY_BYTES
  /\ ml_max_bytes (ms_limits s) <= MAX_MARKDOWN_BYTES
  /\ ml_max_characters (ms_limits s) <= MAX_MARKDOWN_BYTES.
Proof.
  unfold fields_valid, validate_source_fields. intros Hv. res_inv.
  destruct (is_err (WireNativeValue_validate (ms_path s))) eqn:Ew; [done|].
  unfold is_err in Ew. apply negb_false_iff in Ew. unfold WireNativeValue_validate in Ew.
  destruct (N.ltb_spec MAX_ARBITRARY_BYTES (len (wv_bytes (ms_path s)))); [done|].
  repeat match goal with E : _ || _ = false |- _ => apply orb_false_iff in E as [? ?] end.
  wf_inv. done.
Qed.

Lemma location_fields_bounded s :
  typed_source_descriptor s = true -> fields_valid s ->
  Forall (fun f => len f <= u64_max) (location_fields s).
Proof.
  intros Ht (Hv & Hp & _)%fields_valid_bounds. unfold typed_source_descriptor in Ht.
  apply andb_true_iff in Ht as [_ Ht]. unfold location_fields.
  rewrite !Forall_app, !Forall_cons. split_and!; try apply Forall_nil_2.
  - by destruct (ms_harness s).
  - etrans; [exact Hv|done].
  - destruct (ms_scope s) as [|p]; simpl; rewrite !Forall_cons; (split; [done|]);
      (split; [|by apply Forall_nil_2]); [done|].
    simpl in Ht. apply wf_id_len in Ht. by rewrite Ht.
  - by destruct (ms_document_kind s).
  - by destruct (wv_platform (ms_path s)).
  - etrans; [exact Hp|done].
Qed.

Lemma source_fields_bounded s :
  typed_source_descriptor s = true -> fields_valid s ->
  Forall (fun f => len f <= u64_max) (source_fields s)
  /\ Forall (fun f => len f <= u64_max) (legacy_fields s).
Proof.
  intros Ht Hv. pose proof (location_fields_bounded s Ht Hv). unfold source_fields, legacy_fields.
  rewrite !Forall_cons, Forall_app, !Forall_cons. unfold len at 2 3. rewrite !length_to_be.
  split_and!; done.
Qed.

Lemma harness_name_inj h h' : as_bytes (lit (harness_name h)) = as_bytes (lit (harness_name h')) -> h = h'.
Proof. by destruct h, h'. Qed.
Lemma document_kind_name_inj k k' :
  as_bytes (lit (document_kind_name k)) = as_bytes (lit (document_kind_name k')) -> k = k'.
Proof. by destruct k, k'. Qed.
Lemma platform_name_inj p p' :
  as_bytes (lit (platform_name p)) = as_bytes (lit (platform_name p')) -> p = p'.
Proof. by destruct p, p'. Qed.

(** Where a source is and what it is; the display form of its path is not part of it. *)
Definition same_location (a b : NativeMemorySource) : Prop :=
  ms_harness a = ms_harness b /\ ms_adapter_version a = ms_adapter_version b
  /\ ms_scope a = ms_scope b /\ ms_document_kind a = ms_document_kind b
  /\ wv_platform (ms_path a) = wv_platform (ms_path b)
  /\ wv_bytes (ms_path a) = wv_bytes (ms_path b).

Lemma location_fields_inj a b r r' :
  typed_source_descriptor a = true -> typed_source_descriptor b = true ->
  location_fields a ++ r = location_fields b ++ r' -> same_location a b /\ r = r'.
Proof.
  unfold typed_source_descriptor, location_fields, same_location.
  intros [Ha _]%andb_true_iff [Hb _]%andb_true_iff.
  destruct (ms_scope a) as [|p], (ms_scope b) as [|q]; simpl scope_fields; cbn [app];
    intros E; injection E; clear E; intros; try discriminate;
  repeat match goal with
  | E : as_bytes (lit (harness_name _)) = _ |- _ => apply harness_name_inj in E
  | E : as_bytes (lit (document_kind_name _)) = _ |- _ => apply document_kind_name_inj in E
  | E : as_bytes (lit (platform_name _)) = _ |- _ => apply platform_name_inj in E
  | E : as_bytes _ = as_bytes _ |- _ => apply (as_bytes_inj _ _ Ha Hb) in E
  end; split_and!; congruence.
Qed.

Lemma list1_inj {A} (a a' : A) : [a] = [a'] -> a = a'.
Proof. by intros [=]. Qed.

Lemma list3_inj {A} (a b c a' b' c' : A) : [a; b; c] = [a'; b'; c'] -> a = a' /\ b = b' /\ c = c'.
Proof. by intros [=]. Qed.

Definition sha256_collision : Prop := exists m m', m <> m' /\ sha256 m = sha256 m'.

Lemma current_source_id a :
  NativeMemorySource_validate a = Ok tt ->
  fields_valid a /\ ms_id a = sha256 (source_fields a ≫= encode_field).
Proof.
  unfold NativeMemorySource_validate, derive_source_id. intros Hv. res_inv.
  rewrite <- source_message_fields. destruct x0. wf_inv. split; [done|]. congruence.
Qed.

Lemma compatible_source_id a :
  validate_compatible a = Ok tt -> fields_valid a
  /\ (NativeMemorySource_validate a = Ok tt \/ ms_id a = sha256 (legacy_fields a ≫= encode_field)).
Proof.
  unfold validate_compatible. destruct (NativeMemorySource_validate a) as [[]|] eqn:E; cbn [is_ok].
  - intros _. apply current_source_id in E as Hc. split; [apply Hc|by left].
  - unfold derive_legacy_source_id. intros Hv. res_inv. destruct x0. rewrite <- legacy_message_fields.
    wf_inv. split; [done|]. right. congruence.
Qed.

(** The identifier of a native memory source binds its description: two accepted sources
    with the same identifier, the first in the current format, have the same harness, adapter
    version, scope, document kind, platform, path, size limits and fence policy, and are both in
    the current format, unless the two descriptions collide under SHA-256. *)
Theorem source_id_binds (a b : NativeMemorySource) :
  typed_source_descriptor a = true -> typed_source_descriptor b = true ->
  NativeMemorySource_validate a = Ok tt -> validate_compatible b = Ok tt ->
  ms_id a = ms_id b ->
  (same_location a b /\ ms_limits a = ms_limits b /\ ms_managed_fence a = ms_managed_fence b
   /\ NativeMemorySource_validate b = Ok tt)
  \/ sha256_collision.
Proof.
  intros Ta Tb Ca Cb E. apply current_source_id in Ca as [Va Ia].
  apply compatible_source_id in Cb as [Vb Ib].
  destruct (source_fields_bounded a Ta Va) as [Ba _], (source_fields_bounded b Tb Vb) as [Bb Lb].
  assert (Hmsg : forall l, Forall (fun f => len f <= u64_max) l ->
            ms_id b = sha256 (l ≫= encode_field) -> source_fields a = l \/ sha256_collision).
  { intros l Hl El. destruct (decide ((source_fields a ≫= encode_field) = (l ≫= encode_field))) as [Em|].
    - left. by apply fields_message_inj in Em.
    - right. eexists _, _. split; [done|]. congruence. }
  destruct Ib as [Cb|Ib].
  - destruct (Hmsg (source_fields b)) as [Ef|]; [done|by apply current_source_id|left|by right].
    unfold source_fields in Ef. apply (f_equal tail) in Ef. cbn [tail] in Ef.
    apply location_fields_inj in Ef as [Hloc Hr]; [|done..].
    apply fields_valid_bounds in Va as (_ & _ & A1 & A2), Vb as (_ & _ & B1 & B2).
    apply list3_inj in Hr as (R1 & R2 & R3). split_and!; [done| | |done].
    + apply to_be_inj in R1, R2; try (eapply N.le_lt_trans; [eassumption|done]).
      destruct (ms_limits a), (ms_limits b). simpl in *. by subst.
    + apply list1_inj in R3. by destruct (ms_managed_fence a), (ms_managed_fence b).
  - destruct (Hmsg (legacy_fields b)) as [Ef|]; [done|done| |by right]. discriminate Ef.
Qed.

End binding.

(** ** Debouncing reports stable observations *)

(** What the watcher does to the debounce state. *)
Inductive DebounceEvent :=
| Observed (source_id : NativeMemorySourceId) (digest : option Sha256Digest) (now_ms : N)
| Acknowledged (observation : StableObservation)
| Invalidated (source_id : NativeMemorySourceId).

Definition event_source (e : DebounceEvent) : NativeMemorySourceId :=
  match e with
  | Observed source_id _ _ => source_id
  | Acknowledged observation => so_source_id observation
  | Invalidated source_id => source_id
  end.

Definition debounce_step (state : DebounceState) (e : DebounceEvent) : DebounceState :=
  match e with
  | Observed source_id digest now_ms => (observe state source_id digest now_ms).1
  | Acknowledged observation => (acknowledge state observation).1
  | Invalidated source_id => (invalidate state source_id).1
  end.

(** The events of one source, oldest first. *)
Definition events_of (id : NativeMemorySourceId) (events : list DebounceEvent) : list DebounceEvent :=
  filter (fun e => event_source e = id) events.

(** A run of observations of one digest that starts at [since] and never lies before it, in
    which acknowledgements concern other observations. *)
Definition same_observation (digest : option Sha256Digest) (since : N) (e : DebounceEvent) : Prop :=
  match e with
  | Observed _ d now_ms => d = digest /\ since <= now_ms
  | Acknowledged o => so_digest o <> digest \/ so_stable_since_ms o <> since
  | Invalidated _ => False
  end.

Definition stable_run (id : NativeMemorySourceId) (events : list DebounceEvent)
    (digest : option Sha256Digest) (since : N) : Prop :=
  exists older recent, events_of id events = older ++ Observed id digest since :: recent
    /\ Forall (same_observation digest since) recent.

Lemma observe_fresh state id d now :
  state !! id = None -> (observe state id d now).1 !! id = Some {| po_digest := d; po_stable_since_ms := now |}.
Proof.
  intros E. unfold observe. rewrite E. cbn [default from_option Datatypes.id po_digest po_stable_since_ms].
  destruct (_ || _); simpl; by rewrite lookup_insert_eq.
Qed.

Lemma observe_cases state id d now p :
  state !! id = Some p ->
  (po_digest p = d /\ po_stable_since_ms p <= now /\ (observe state id d now).1 !! id = Some p)
  \/ ((po_digest p <> d \/ now < po_stable_since_ms p)
      /\ (observe state id d now).1 !! id = Some {| po_digest := d; po_stable_since_ms := now |}
      /\ (observe state id d now).2 = None).
Proof.
  intros E. unfold observe. rewrite E. cbn [default from_option Datatypes.id].
  destruct (bool_decide_reflect (po_digest p = d)) as [Ed|Ed]; cbn [negb orb].
  - unfold checked_sub. destruct (N.leb_spec (po_stable_since_ms p) now).
    + rewrite bool_decide_eq_false_2 by done. left. simpl. by rewrite lookup_insert_eq.
    + rewrite bool_decide_eq_true_2 by done. right. simpl. rewrite lookup_insert_eq. auto.
  - right. simpl. rewrite lookup_insert_eq. auto.
Qed.

Lemma debounce_other state e id :
  event_source e <> id -> debounce_step state e !! id = state !! id.
Proof.
  destruct e as [s d now|o|s]; simpl; intros Hne.
  - unfold observe. destruct (_ || _); simpl; by rewrite lookup_insert_ne.
  - destruct (match state !! so_source_id o with Some _ => _ | None => _ end); [|done].
    by rewrite lookup_delete_ne.
  - by rewrite lookup_delete_ne.
Qed.

Lemma events_of_snoc id events e :
  events_of id (events ++ [e]) = if decide (event_source e = id) then events_of id events ++ [e]
                                 else events_of id events.
Proof.
  unfold events_of. rewrite filter_app, filter_cons. destruct (decide _); simpl; [done|].
  by rewrite app_nil_r.
Qed.

(** The debounce state of a source is the start of its current run. *)
Lemma debounce_state_run events id p :
  foldl debounce_step ∅ events !! id = Some p ->
  stable_run id events (po_digest p) (po_stable_since_ms p).
Proof.
  unfold stable_run. revert p. induction events as [|e events IH] using rev_ind; intros p.
  { simpl. by rewrite lookup_empty. }
  rewrite foldl_app, events_of_snoc. cbn [foldl]. set (st := foldl debounce_step ∅ events) in *.
  destruct (decide (event_source e = id)) as [Hid|Hne]; [|rewrite debounce_other by done; apply IH].
  destruct e as [s d now|o|s]; simpl in Hid; subst.
  - cbn [debounce_step]. destruct (st !! id) as [q|] eqn:Eq.
    + destruct (observe_cases st id d now q Eq) as [(<- & Hle & ->)|(_ & -> & _)]; intros [= <-].
      * destruct (IH q eq_refl) as (older & recent & -> & Hr).
        exists older, (recent ++ [Observed id (po_digest q) now]). rewrite <- app_assoc.
        split; [done|]. apply Forall_app. split; [done|]. by apply Forall_singleton.
      * exists (events_of id events), []. by split.
    + rewrite observe_fresh by done. intros [= <-]. exists (events_of id events), []. by split.
  - cbn [debounce_step acknowledge fst]. destruct (st !! so_source_id o) as [q|] eqn:Eq; [|by rewrite Eq].
    destruct (_ && _) eqn:Em; [by rewrite lookup_delete_eq|]. rewrite Eq. intros [= <-].
    destruct (IH q eq_refl) as (older & recent & -> & Hr).
    exists older, (recent ++ [Acknowledged o]). rewrite <- app_assoc. split; [done|].
    apply Forall_app. split; [done|]. apply Forall_singleton. simpl.
    apply andb_false_iff in Em as [Em|Em]; wf_inv; [left|right]; congruence.
  - cbn [debounce_step invalidate fst]. by rewrite lookup_delete_eq.
Qed.

(** A run that was not yet interrupted is where the state says, or started earlier. *)
Lemma debounce_run_state events id digest since :
  stable_run id events digest since ->
  (forall o, Acknowledged o ∈ events_of id events -> so_digest o <> digest) ->
  exists p, foldl debounce_step ∅ events !! id = Some p
    /\ po_digest p = digest /\ po_stable_since_ms p <= since.
Proof.
  unfold stable_run. intros (older & recent & E & Hr) Hack. revert recent E Hr Hack.
  induction events as [|e events IH] using rev_ind; intros recent E Hr Hack.
  { by destruct older. }
  rewrite foldl_app. cbn [foldl]. set (st := foldl debounce_step ∅ events) in *.
  rewrite events_of_snoc in E, Hack.
  destruct (decide (event_source e = id)) as [Hid|Hne].
  2:{ rewrite debounce_other by done. eauto. }
  destruct recent as [|e' recent _] using rev_ind.
  - apply app_inj_tail in E as [_ ->]. cbn [debounce_step].
    destruct (st !! id) as [q|] eqn:Eq; [|rewrite observe_fresh by done; eexists; split_and!; [done|done|done]].
    destruct (observe_cases st id digest since q Eq) as [(Hd & Hle & ->)|(_ & -> & _)]; [eauto|].
    eexists. split_and!; [done|done|]. simpl. lia.
  - rewrite app_comm_cons, app_assoc in E. apply app_inj_tail in E as [E ->].
    apply Forall_app in Hr as [Hr He]. rewrite Forall_singleton in He.
    destruct (IH recent E Hr) as (q & Hq & Hqd & Hqs); [set_solver|].
    destruct e' as [s d now|o|s]; simpl in He, Hid; subst.
    + destruct He as [-> Hle]. cbn [debounce_step].
      destruct (observe_cases st id (po_digest q) now q Hq) as [(_ & _ & ->)|([?|?] & _)]; [eauto|done|lia].
    + cbn [debounce_step acknowledge fst]. rewrite Hq. rewrite bool_decide_eq_false_2; [eauto|].
      intros Hd. apply (Hack o); [|done]. set_solver.
    + done.
Qed.

(** The debouncer reports an observation exactly when the file has been stable: whatever
    the sources were doing before, a report at [now_ms] means that the latest events of that
    source are an uninterrupted run of observations of the reported digest, none earlier than the
    run's first one at [so_stable_since_ms], which is at least 750 ms ago; and an uninterrupted
    run of at least 750 ms whose digest was never acknowledged is reported. *)
Theorem debounce_reports_stable (events : list DebounceEvent) (id : NativeMemorySourceId)
    (digest : option Sha256Digest) (now_ms : N) :
  let report := (observe (foldl debounce_step ∅ events) id digest now_ms).2 in
  (forall o, report = Some o ->
     so_source_id o = id /\ so_digest o = digest
     /\ so_stable_since_ms o + NATIVE_MEMORY_DEBOUNCE_MS <= now_ms
     /\ stable_run id events digest (so_stable_since_ms o))
  /\ (forall since, stable_run id events digest since ->
        (forall o, Acknowledged o ∈ events_of id events -> so_digest o <> digest) ->
        since + NATIVE_MEMORY_DEBOUNCE_MS <= now_ms -> is_Some report).
Proof.
  cbv zeta. set (st := foldl debounce_step ∅ events). split.
  - intros o. destruct (st !! id) as [p|] eqn:Ep.
    + destruct (observe_cases st id digest now_ms p Ep) as [(Hd & Hle & _)|(_ & _ & ->)]; [|done].
      unfold observe. rewrite Ep. cbn [default from_option Datatypes.id]. rewrite Hd.
      rewrite bool_decide_eq_true_2 by done. unfold checked_sub.
      rewrite (proj2 (N.leb_le _ _)) by done. rewrite bool_decide_eq_false_2 by done. cbn [negb orb snd].
      destruct (N.leb_spec NATIVE_MEMORY_DEBOUNCE_MS (now_ms - po_stable_since_ms p)); [|done].
      intros [= <-]. simpl. split_and!; [done..|lia|]. rewrite <- Hd. by apply debounce_state_run.
    + unfold observe. rewrite Ep. cbn [default from_option Datatypes.id po_digest po_stable_since_ms].
      destruct (_ || _); [done|]. simpl. by rewrite N.sub_diag.
  - intros since Hrun Hack Hlate. destruct (debounce_run_state _ _ _ _ Hrun Hack) as (p & Ep & Hd & Hs).
    fold st in Ep. unfold observe. rewrite Ep. cbn [default from_option Datatypes.id].
    unfold NATIVE_MEMORY_DEBOUNCE_MS in *. rewrite bool_decide_eq_true_2 by done. unfold checked_sub.
    rewrite (proj2 (N.leb_le (po_stable_since_ms p) now_ms)) by lia.
    rewrite bool_decide_eq_false_2 by done. cbn [negb orb snd].
    rewrite (proj2 (N.leb_le _ _)) by lia. eauto.
Qed.
