(* ===== verification/MemoryReconcile.v ===== *)
(** * Native memory: reconciliation (core/native_memory/reconcile.rs)

    What a change of a native memory file means: a candidate memory to review, nothing to
    import, something imported already, or the product's own export; or a reason to refuse it.
    A candidate is derived from the source and the digest of the user's text alone. *)

From S2P Require Import Prelude Ordering Text Protocol Minicbor CanonicalCbor Domain.
From S2P Require Import SyncPayload Crypto Operation Causal Merge Transport StateSummary.
From S2P Require Import Admission NativeModel TextSearch MemoryMarkdown SecretText MemorySource.

#[local] Open Scope N_scope.

(** [NativeMemoryChangeKind] has the constructors of [NativeMemoryObservationKind], and
    [reconcile_classified] maps one to the other. *)
Inductive NativeMemoryChangeKind := ChangeInitialPreview | ChangeLiveEdit.

Inductive ReconcileDecision :=
| DecidePending (source_id : NativeMemorySourceId) (full_digest unmanaged_digest : Sha256Digest)
    (candidate_markdown : bytes) (change_kind : NativeMemoryChangeKind)
| DecideNoContent (full_digest unmanaged_digest : Sha256Digest)
| DecideAlreadyImported (full_digest unmanaged_digest : Sha256Digest)
| DecideSelfExport (full_digest : Sha256Digest) (managed_digest : option Sha256Digest).

#[global] Instance NativeMemoryChangeKind_eq_dec : EqDecision NativeMemoryChangeKind.
Proof. solve_decision. Defined.
#[global] Instance ReconcileDecision_eq_dec : EqDecision ReconcileDecision.
Proof. solve_decision. Defined.

Definition change_kind_of (kind : NativeMemoryObservationKind) : NativeMemoryChangeKind :=
  match kind with
  | InitialPreview => ChangeInitialPreview
  | LiveEdit => ChangeLiveEdit
  end.

(** [bytes[6] = (bytes[6] & 0x0f) | 0x70; bytes[8] = (bytes[8] & 0x3f) | 0x80] *)
Definition stamp_uuid_v7 (b : bytes) : bytes :=
  alter (fun x => byte_of (N.lor (N.land (Byte.to_N x) 0x3f) 0x80)) 8%nat
    (alter (fun x => byte_of (N.lor (N.land (Byte.to_N x) 0x0f) 0x70)) 6%nat b).

Definition native_memory_title (source : NativeMemorySource) : rstr :=
  match ms_harness source with
  | ClaudeCode => lit "Claude Code"
  | Codex => lit "Codex"
  | Hermes => lit "Hermes"
  | OpenCode => lit "OpenCode"
  end ++ lit " native " ++
  match ms_document_kind source with
  | Agent => lit "agent"
  | UserProfile => lit "user-profile"
  | Summary => lit "summary"
  | Topic => lit "topic"
  end ++ lit " memory".

Definition native_memory_tags (harness : HarnessId) : list rstr :=
  [lit "native-import";
   match harness with
   | ClaudeCode => lit "claude-code"
   | Codex => lit "codex"
   | Hermes => lit "hermes"
   | OpenCode => lit "opencode"
   end].

Definition native_memory_evidence (change_kind : NativeMemoryChangeKind) : rstr :=
  match change_kind with
  | ChangeInitialPreview => lit "initial native-memory preview"
  | ChangeLiveEdit => lit "native-memory edit"
  end.

Definition operation_clock (operation_id : OperationId) (device_id : DeviceId) : HybridLogicalClock :=
  {| physical_ms := of_be ([Byte.x00; Byte.x00] ++ take 6 operation_id);
     logical := 0; node := device_id |}.

Section reconcile.
Context `{UuidCrate} `{Primitives}.

(** What the separated parts of an accepted file mean. *)
Definition classify (source : NativeMemorySource) (ledger : NativeMemoryLedger)
    (extracted : ManagedMarkdown) (observation_kind : NativeMemoryObservationKind)
    : result NativeMemoryError ReconcileDecision :=
  let managed_digest := digest <$> mk_managed_body extracted in
  let full_digest := mk_full_digest extracted in
  if bool_decide (nl_last_applied_digest ledger = Some full_digest)
  then Ok (DecideSelfExport full_digest managed_digest) else
  let? _ := match nl_last_applied_managed_digest ledger with
            | Some expected =>
                if negb (bool_decide (managed_digest = Some expected))
                then Err ManagedContentModified else Ok tt
            | None =>
                if ms_managed_fence source && bool_decide (is_Some (nl_last_applied_digest ledger))
                then Err ManagedContentModified else Ok tt
            end in
  (* The [expect] on the user's text cannot fail: [MemoryMarkdown.fenced_unmanaged_utf8]. *)
  if bool_decide (mk_unmanaged_body extracted = [])
     || match from_utf8 (mk_unmanaged_body extracted) with
        | Some unmanaged => trim_is_empty unmanaged
        | None => false
        end
  then Ok (DecideNoContent full_digest (mk_unmanaged_digest extracted)) else
  if bool_decide (nl_last_imported_digest ledger = Some (mk_unmanaged_digest extracted))
  then Ok (DecideAlreadyImported full_digest (mk_unmanaged_digest extracted)) else
  Ok (DecidePending (ms_id source) full_digest (mk_unmanaged_digest extracted)
        (mk_unmanaged_body extracted) (change_kind_of observation_kind)).

Definition reconcile_classified (source : NativeMemorySource) (ledger : NativeMemoryLedger)
    (b : bytes) (observation_kind : NativeMemoryObservationKind)
    : result NativeMemoryError ReconcileDecision :=
  let? _ := validate_compatible source in
  if negb (bool_decide (ms_id source = nl_source_id ledger))
  then Err (InvalidSource "ledger.source_id") else
  if ml_max_bytes (ms_limits source) <? len b then Err MemoryTooLarge else
  let? text := ok_or (from_utf8 b) InvalidUtf8 in
  if contains_secret_like text then Err SensitiveText else
  if ml_max_characters (ms_limits source) <? len text then Err MemoryTooLarge else
  if negb (ms_managed_fence source) && (contains MANAGED_START b || contains MANAGED_END b)
  then Err MalformedManagedFence else
  let? extracted := extract_managed_markdown b in
  classify source ledger extracted observation_kind.

Definition reconcile (source : NativeMemorySource) (ledger : NativeMemoryLedger) (b : bytes)
    : result NativeMemoryError ReconcileDecision :=
  reconcile_classified source ledger b
    (if nl_initial_preview_complete ledger then LiveEdit else InitialPreview).

Definition memory_identity (domain source_id unmanaged_digest : bytes) : Uuid :=
  stamp_uuid_v7 (take 16 (sha256 (domain ++ source_id ++ unmanaged_digest))).

Definition native_memory_identity (source_id : NativeMemorySourceId)
    (unmanaged_digest : Sha256Digest)
    : result NativeMemoryError (CandidateId * MemoryId * OperationId) :=
  let candidate := memory_identity (as_bytes (lit "context-relay.native-memory-candidate.v1"))
                     source_id unmanaged_digest in
  let memory := memory_identity (as_bytes (lit "context-relay.native-memory-record.v1"))
                  source_id unmanaged_digest in
  if bool_decide (candidate = memory) then Err (InvalidSource "identity collision") else
  let? candidate_id := map_err (fun _ => InvalidSource "identity") (id_new candidate) in
  let? memory_id := map_err (fun _ => InvalidSource "identity") (id_new memory) in
  let? operation_id := map_err (fun _ => InvalidSource "identity") (id_new candidate) in
  Ok (candidate_id, memory_id, operation_id).

Definition native_candidate (source : NativeMemorySource) (candidate_id : CandidateId)
    (memory_id : MemoryId) (operation_id : OperationId) (body_markdown : rstr)
    (change_kind : NativeMemoryChangeKind) (device_id : DeviceId) : MemoryCandidate :=
  let clock := operation_clock operation_id device_id in
  {| cand_id := candidate_id;
     cand_proposed_memory := {|
       mem_id := memory_id; mem_scope := ms_scope source; mem_kind := Note;
       mem_title := native_memory_title source; mem_body_markdown := body_markdown;
       mem_tags := native_memory_tags (ms_harness source); mem_origin := NativeImport;
       mem_provenance := {| pv_origin_device := device_id; pv_harness := Some (ms_harness source);
                            pv_source := None; pv_created_hlc := clock |};
       mem_revision := operation_id; mem_created_hlc := clock; mem_updated_hlc := clock;
       mem_archived := false |};
     cand_evidence_summary := native_memory_evidence change_kind;
     cand_source_harness := ms_harness source;
     cand_state := Pending |}.

Definition build_native_memory_candidate (source : NativeMemorySource)
    (unmanaged_digest : Sha256Digest) (candidate_markdown : bytes)
    (change_kind : NativeMemoryChangeKind) (device_id : DeviceId)
    : result NativeMemoryError MemoryCandidate :=
  let? _ := validate_compatible source in
  let? body_markdown := ok_or (from_utf8 candidate_markdown) InvalidUtf8 in
  let? (candidate_id, memory_id, operation_id) := native_memory_identity (ms_id source) unmanaged_digest in
  let candidate := native_candidate source candidate_id memory_id operation_id body_markdown
                     change_kind device_id in
  let? _ := map_err (fun _ => InvalidSource "candidate") (MemoryCandidate_validate candidate) in
  Ok candidate.

End reconcile.

(** ** When a file is proposed for import *)

Section facts.
Context `{UuidCrate} `{Primitives}.
Implicit Types (source : NativeMemorySource) (ledger : NativeMemoryLedger).

(** The checks every decision has passed. *)
Record admitted source ledger (b : bytes) (k : ManagedMarkdown) : Prop := {
  ad_source : validate_compatible source = Ok tt;
  ad_ledger : ms_id source = nl_source_id ledger;
  ad_bytes : len b <= ml_max_bytes (ms_limits source);
  ad_text : exists text, from_utf8 b = Some text /\ contains_secret_like text = false
              /\ len text <= ml_max_characters (ms_limits source);
  ad_fence : ms_managed_fence source = false -> mk_managed_body k = None;
  ad_extract : extract_managed_markdown b = Ok k;
}.

(** The product's block is the one it applied last. *)
Definition block_intact source ledger (k : ManagedMarkdown) : Prop :=
  match nl_last_applied_managed_digest ledger with
  | Some expected => digest <$> mk_managed_body k = Some expected
  | None => ms_managed_fence source = true -> nl_last_applied_digest ledger = None
  end.

Definition blank (b : bytes) : Prop := exists s, from_utf8 b = Some s /\ trim_is_empty s = true.

Lemma contains_markers b k :
  extract_managed_markdown b = Ok k ->
  contains MANAGED_START b || contains MANAGED_END b = bool_decide (is_Some (mk_managed_body k)).
Proof.
  intros (_ & Hf & _)%extract_spec.
  assert (forall n, marker n -> contains n b = negb (bool_decide (occurrences n b = []))) as Hc.
  { intros n Hn. unfold contains. by rewrite marker_matches. }
  rewrite !Hc by (unfold marker; auto).
  destruct Hf as [c Hm|before nl body nl' after Hnl Hnl' _ _ Mb Mm Ma].
  - rewrite !no_marker_occurs by (done || unfold marker; auto). done.
  - assert (newline nl' \/ nl' = []) by tauto. rewrite fence_occurrences by (done || unfold marker; auto).
    destruct (starts_with_markers (nl ++ body ++ MANAGED_END ++ nl' ++ after)) as (-> & _). done.
Qed.

(** What each decision says of the parts of the file. *)
Definition decision_ok source ledger (k : ManagedMarkdown) (kind : NativeMemoryObservationKind)
    (d : ReconcileDecision) : Prop :=
  let full := mk_full_digest k in
  let unmanaged := mk_unmanaged_digest k in
  let changed := nl_last_applied_digest ledger <> Some full /\ block_intact source ledger k in
  match d with
  | DecideSelfExport full' managed =>
      full' = full /\ managed = digest <$> mk_managed_body k
      /\ nl_last_applied_digest ledger = Some full
  | DecideNoContent full' unmanaged' =>
      full' = full /\ unmanaged' = unmanaged /\ changed /\ blank (mk_unmanaged_body k)
  | DecideAlreadyImported full' unmanaged' =>
      full' = full /\ unmanaged' = unmanaged /\ changed /\ ~ blank (mk_unmanaged_body k)
      /\ nl_last_imported_digest ledger = Some unmanaged
  | DecidePending source_id full' unmanaged' markdown change =>
      source_id = ms_id source /\ full' = full /\ unmanaged' = unmanaged
      /\ markdown = mk_unmanaged_body k /\ change = change_kind_of kind
      /\ changed /\ ~ blank (mk_unmanaged_body k)
      /\ nl_last_imported_digest ledger <> Some unmanaged
  end.

Lemma block_check source ledger k :
  match nl_last_applied_managed_digest ledger with
  | Some expected =>
      if negb (bool_decide (digest <$> mk_managed_body k = Some expected))
      then Err ManagedContentModified else Ok tt
  | None =>
      if ms_managed_fence source && bool_decide (is_Some (nl_last_applied_digest ledger))
      then Err ManagedContentModified else Ok tt
  end = Ok tt <-> block_intact source ledger k.
Proof.
  unfold block_intact. destruct (nl_last_applied_managed_digest ledger) as [e|].
  - by case_bool_decide.
  - destruct (ms_managed_fence source); simpl; [|naive_solver].
    case_bool_decide as E; destruct (nl_last_applied_digest ledger); naive_solver.
Qed.

Lemma blank_check b :
  (exists s, from_utf8 b = Some s) ->
  bool_decide (b = []) || match from_utf8 b with Some s => trim_is_empty s | None => false end = true
  <-> blank b.
Proof.
  intros [s Hs]. unfold blank. rewrite Hs, orb_true_iff, bool_decide_eq_true. split.
  - intros [->|?]; [|eauto]. injection Hs as <-. by exists [].
  - intros (s' & [= <-] & ?). by right.
Qed.

Lemma classify_spec source ledger k kind d :
  (exists s, from_utf8 (mk_unmanaged_body k) = Some s) ->
  classify source ledger k kind = Ok d <-> decision_ok source ledger k kind d.
Proof.
  intros Hu. unfold classify, decision_ok. pose proof (block_check source ledger k) as Hblock.
  pose proof (blank_check _ Hu) as Hblank.
  destruct (bool_decide_reflect (nl_last_applied_digest ledger = Some (mk_full_digest k))) as [Hl|Hl].
  { split; [intros [= <-]; done|]. destruct d; naive_solver. }
  destruct (match nl_last_applied_managed_digest ledger with Some _ => _ | None => _ end) as [[]|e];
    cbn [rbind]; [|split; [done|]; destruct d; naive_solver].
  destruct (_ || _).
  { assert (blank (mk_unmanaged_body k)) by by apply Hblank.
    assert (block_intact source ledger k) by by apply Hblock.
    split; [intros [= <-]; done|]. destruct d; naive_solver. }
  assert (~ blank (mk_unmanaged_body k)) by (intros ?%Hblank; done).
  assert (block_intact source ledger k) by by apply Hblock.
  case_bool_decide as Hi; (split; [intros [= <-]; done|]); destruct d; naive_solver.
Qed.

Lemma reconcile_admitted source ledger b kind d :
  reconcile_classified source ledger b kind = Ok d <->
  exists k, admitted source ledger b k /\ classify source ledger k kind = Ok d.
Proof.
  unfold reconcile_classified. split.
  - intros Hok. res_inv. destruct x.
    match goal with E : extract_managed_markdown b = Ok ?k |- _ => exists k; pose proof (contains_markers b k E) as Hc end.
    split; [|done]. wf_inv. split; try done; [by eexists|].
    rewrite Hc in *. intros Hm.
    match goal with E : negb _ = false \/ _ |- _ => destruct E as [E|E] end; wf_inv; [congruence|].
    by apply eq_None_not_Some.
  - intros (k & [Hv Hid Hb (text & Hu & Hs & Hc) Hf Hk] & Hcl).
    rewrite Hv. cbn [rbind]. rewrite bool_decide_eq_true_2 by done. cbn [negb].
    rewrite (proj2 (N.ltb_ge _ _)), Hu by done. cbn [ok_or rbind]. rewrite Hs.
    rewrite (proj2 (N.ltb_ge _ _)), (contains_markers b k), Hk by done. cbn [rbind].
    destruct (ms_managed_fence source); simpl; [done|]. by rewrite Hf.
Qed.

Lemma admitted_unmanaged_utf8 source ledger b k :
  admitted source ledger b k -> exists s, from_utf8 (mk_unmanaged_body k) = Some s.
Proof.
  intros [_ _ _ _ _ Hk]. apply extract_spec in Hk as ([s Hs] & Hf & _).
  by eapply fenced_unmanaged_utf8.
Qed.

(** Reconciliation is characterised by its checks and its four decisions. *)
Lemma reconcile_spec source ledger b kind d :
  reconcile_classified source ledger b kind = Ok d <->
  exists k, admitted source ledger b k /\ decision_ok source ledger k kind d.
Proof.
  rewrite reconcile_admitted. split; intros (k & Ha & Hd); exists k; (split; [done|]);
    apply (classify_spec _ _ _ _ _ (admitted_unmanaged_utf8 _ _ _ _ Ha)); done.
Qed.

End facts.

(** ** A proposed file gives a valid candidate *)

Section candidates.
Context `{UuidCrateLaws} `{PrimitivesLaws}.

Lemma stamp_lookup b :
  length b = 16%nat -> exists x y,
  stamp_uuid_v7 b !! 6%nat = Some (byte_of (N.lor (N.land (Byte.to_N x) 0x0f) 0x70))
  /\ stamp_uuid_v7 b !! 8%nat = Some (byte_of (N.lor (N.land (Byte.to_N y) 0x3f) 0x80)).
Proof.
  intros Hb. destruct (lookup_lt_is_Some_2 b 6) as [x Hx]; [lia|].
  destruct (lookup_lt_is_Some_2 b 8) as [y Hy]; [lia|]. exists x, y. unfold stamp_uuid_v7.
  rewrite list_lookup_alter_ne by done. rewrite !list_lookup_alter_eq.
  rewrite list_lookup_alter_ne by done. by rewrite Hx, Hy.
Qed.

Lemma stamped_nibbles (x y : byte) :
  (N.shiftr (Byte.to_N (byte_of (N.lor (N.land (Byte.to_N x) 0x0f) 0x70))) 4 =? 7) = true
  /\ (N.shiftr (Byte.to_N (byte_of (N.lor (N.land (Byte.to_N y) 0x3f) 0x80))) 6 =? 2) = true.
Proof. split; [by destruct x|by destruct y]. Qed.

Lemma stamp_wf b : length b = 16%nat -> wf_id (stamp_uuid_v7 b) = true.
Proof.
  intros Hb. destruct (stamp_lookup b Hb) as (x & y & H6 & H8).
  assert (Hl : length (stamp_uuid_v7 b) = 16%nat) by (unfold stamp_uuid_v7; by rewrite !length_alter).
  unfold wf_id. rewrite (version_nibble _ _ Hl H6), (variant_bits _ _ Hl H8).
  destruct (stamped_nibbles x y) as [-> ->]. unfold len. by rewrite Hl.
Qed.

Lemma identity_wf domain source_id unmanaged : wf_id (memory_identity domain source_id unmanaged) = true.
Proof.
  apply stamp_wf. rewrite length_take.
  pose proof (sha256_len (domain ++ source_id ++ unmanaged)) as Hl. unfold len in Hl. lia.
Qed.

Definition candidate_identity : bytes -> bytes -> Uuid :=
  memory_identity (as_bytes (lit "context-relay.native-memory-candidate.v1")).
Definition record_identity : bytes -> bytes -> Uuid :=
  memory_identity (as_bytes (lit "context-relay.native-memory-record.v1")).

Lemma native_memory_identity_spec source_id unmanaged :
  native_memory_identity source_id unmanaged
  = if bool_decide (candidate_identity source_id unmanaged = record_identity source_id unmanaged)
    then Err (InvalidSource "identity collision")
    else Ok (candidate_identity source_id unmanaged, record_identity source_id unmanaged,
             candidate_identity source_id unmanaged).
Proof.
  unfold native_memory_identity. fold (candidate_identity source_id unmanaged).
  fold (record_identity source_id unmanaged). case_bool_decide; [done|].
  unfold id_new. pose proof (identity_wf (as_bytes (lit "context-relay.native-memory-candidate.v1"))
    source_id unmanaged) as Hc.
  pose proof (identity_wf (as_bytes (lit "context-relay.native-memory-record.v1")) source_id unmanaged) as Hr.
  unfold wf_id in Hc, Hr. wf_inv. unfold candidate_identity, record_identity.
  repeat match goal with E : _ = true |- _ => rewrite E; clear E end. done.
Qed.

Lemma fenced_unmanaged_length b m u : fenced b m u -> len u <= len b.
Proof. intros []; rewrite ?len_app; lia. Qed.

Lemma native_candidate_valid source c m o body kind device :
  text_ok MAX_MARKDOWN_BYTES body ->
  MemoryCandidate_validate (native_candidate source c m o body kind device) = Ok tt.
Proof.
  intros Hbody. unfold MemoryCandidate_validate, native_candidate.
  cbn [cand_proposed_memory cand_evidence_summary].
  rewrite (proj2 (MemoryRecord_validate_ok _)).
  - cbn [rbind]. by destruct kind.
  - cbn [mem_title mem_body_markdown mem_tags]. split_and!; [|done|done| |].
    + unfold text_ok, native_memory_title.
      destruct (ms_harness source), (ms_document_kind source); split; by vm_compute.
    + unfold native_memory_tags. destruct (ms_harness source);
        repeat (apply Forall_cons; split; [split; by vm_compute|]); apply Forall_nil_2.
    + unfold native_memory_tags. destruct (ms_harness source); apply (bool_decide_eq_true_1 _);
        vm_compute; reflexivity.
Qed.

Lemma admitted_body source ledger b k :
  admitted source ledger b k -> ~ blank (mk_unmanaged_body k) ->
  exists s, from_utf8 (mk_unmanaged_body k) = Some s /\ text_ok MAX_MARKDOWN_BYTES s.
Proof.
  intros Ha Hb. destruct (admitted_unmanaged_utf8 _ _ _ _ Ha) as [s Hs]. exists s. split; [done|].
  destruct Ha as [Hv _ Hlen _ _ Hk]. split.
  - destruct (trim_is_empty s) eqn:E; [|done]. exfalso. apply Hb. by exists s.
  - apply compatible_source_id in Hv as [(_ & _ & Hm & _)%fields_valid_bounds _].
    apply extract_spec in Hk as (_ & Hf%fenced_unmanaged_length & _).
    apply from_utf8_inv in Hs as [_ E]. unfold str_len. rewrite E. lia.
Qed.

Lemma build_candidate source ledger b kind sid full unmanaged markdown change device :
  reconcile_classified source ledger b kind = Ok (DecidePending sid full unmanaged markdown change) ->
  let cand := candidate_identity (ms_id source) unmanaged in
  let mem := record_identity (ms_id source) unmanaged in
  cand <> mem ->
  exists body, from_utf8 markdown = Some body /\ text_ok MAX_MARKDOWN_BYTES body
    /\ build_native_memory_candidate source unmanaged markdown change device
       = Ok (native_candidate source cand mem cand body change device).
Proof.
  intros (k & Ha & -> & -> & -> & -> & -> & _ & Hb & _)%reconcile_spec cand mem Hne.
  destruct (admitted_body _ _ _ _ Ha Hb) as (s & Hs & Hok). exists s. split; [done|]. split; [done|].
  unfold build_native_memory_candidate. rewrite (ad_source _ _ _ _ Ha). cbn [rbind].
  rewrite Hs. cbn [ok_or rbind]. rewrite native_memory_identity_spec.
  rewrite bool_decide_eq_false_2 by done. cbn [rbind].
  by rewrite native_candidate_valid.
Qed.

End candidates.
