(* ===== verification/MemoryVault.v ===== *)
(** * Native memory: ledgers and candidates in the vault, and the service operation
      (core/vault.rs, core/service.rs, contextd/lib.rs, migrations 0001, 0010, 0024, 0025, 0036)

    The vault stores a ledger per source, with its columns beside the JSON payload, and the
    candidates a source proposed.  [reconcile_native_memory] takes one observation of the watcher
    to the ledger and the candidates; [native_memory_observation] is the daemon's command. *)

From S2P Require Import Prelude Ordering Text Protocol Minicbor CanonicalCbor Domain.
From S2P Require Import SyncPayload Crypto Operation Causal Merge Transport StateSummary.
From S2P Require Import Admission NativeModel NativeTables TextSearch MemoryMarkdown SecretText.
From S2P Require Import MemorySource MemoryReconcile.

#[local] Open Scope N_scope.

(** ** Errors: protocol/error.rs *)

Inductive ErrorCode :=
| ECProtocolVersionUnsupported | ECInvalidRequest | ECFrameTooLarge | ECVaultLocked | ECNotFound
| ECRevisionConflict | ECScopeDenied | ECApprovalRequired | ECPlanChanged | ECPlanExpired
| ECHarnessUnsupported | ECConflict | ECQuotaExceeded | ECCanceled | ECTimeout | ECBusy
| ECInternal.

Record ClientError := {
  ce_code : ErrorCode;
  ce_message : string;
  ce_field_path : option string;
  ce_retryable : bool;
}.

Definition plain_error (code : ErrorCode) (message : string) : ClientError :=
  {| ce_code := code; ce_message := message; ce_field_path := None; ce_retryable := false |}.

Definition NativeMemoryError_to_string (error : NativeMemoryError) : string :=
  match error with
  | InvalidSource field => "invalid native memory source: " ++ field
  | InvalidUtf8 => "native memory is not valid UTF-8"
  | SensitiveText => "native memory contains sensitive text"
  | MemoryTooLarge => "native memory exceeds its declared limit"
  | MalformedManagedFence => "native memory managed markers are malformed"
  | ManagedContentModified => "native memory managed content was modified"
  end.

Definition memory_validated {A} (r : result NativeMemoryError A) : result VaultError A :=
  map_err (fun error => Validation (NativeMemoryError_to_string error)) r.

(** ** Tables *)

(** [native_memory_sources], the columns after the key. *)
Record SourceRow := {
  sr_harness : string;
  sr_scope_kind : string;
  sr_project_id : option rstr;
  sr_document_kind : string;
  sr_last_observed_digest : option rstr;
  sr_last_unmanaged_digest : option rstr;
  sr_last_imported_digest : option rstr;
  sr_last_applied_digest : option rstr;
  sr_last_applied_managed_digest : option rstr;
  sr_initial_preview_complete : Z;
  sr_payload : bytes;
}.

Record CandidateRow := {
  cr_state : string;
  cr_payload : bytes;
}.

Record MemoryTables := {
  mt_sources : gmap rstr SourceRow;
  (** [native_memory_source_supersessions]: replacement by prior source. *)
  mt_supersessions : gmap rstr rstr;
  mt_candidates : gmap rstr CandidateRow;
  (** [candidate_aliases]: canonical by legacy identifier. *)
  mt_aliases : gmap rstr rstr;
}.

Definition set_sources (t : MemoryTables) (sources : gmap rstr SourceRow) : MemoryTables :=
  {| mt_sources := sources; mt_supersessions := mt_supersessions t;
     mt_candidates := mt_candidates t; mt_aliases := mt_aliases t |}.
Definition set_candidates (t : MemoryTables) (candidates : gmap rstr CandidateRow) : MemoryTables :=
  {| mt_sources := mt_sources t; mt_supersessions := mt_supersessions t;
     mt_candidates := candidates; mt_aliases := mt_aliases t |}.

(** The checks of migrations 0010 and 0025. *)
Definition digest_column (column : option rstr) : bool :=
  match column with Some text => (length text =? 64)%nat | None => true end.
Definition source_row_allowed (key : rstr) (row : SourceRow) : bool :=
  (length key =? 64)%nat
  && (bool_decide (sr_harness row = "claude_code"%string) || bool_decide (sr_harness row = "codex"%string)
      || bool_decide (sr_harness row = "hermes"%string))
  && (bool_decide (sr_document_kind row = "agent"%string)
      || bool_decide (sr_document_kind row = "user_profile"%string)
      || bool_decide (sr_document_kind row = "summary"%string)
      || bool_decide (sr_document_kind row = "topic"%string))
  && digest_column (sr_last_observed_digest row) && digest_column (sr_last_unmanaged_digest row)
  && digest_column (sr_last_imported_digest row) && digest_column (sr_last_applied_digest row)
  && digest_column (sr_last_applied_managed_digest row)
  && (bool_decide (sr_initial_preview_complete row = 0%Z)
      || bool_decide (sr_initial_preview_complete row = 1%Z))
  && negb (bool_decide (sr_payload row = []))
  && ((bool_decide (sr_scope_kind row = "global"%string) && bool_decide (sr_project_id row = None))
      || (bool_decide (sr_scope_kind row = "project"%string)
          && bool_decide (is_Some (sr_project_id row)))).

(** ** Columns *)

Definition sha256_key (digest : Sha256Digest) : rstr := digest ≫= byte_hex.
Definition optional_sha256_key (digest : option Sha256Digest) : option rstr := sha256_key <$> digest.

Definition sqlite_bool (value : Z) (field : string) : result VaultError bool :=
  if bool_decide (value = 0%Z) then Ok false
  else if bool_decide (value = 1%Z) then Ok true
  else Err (Validation (field ++ " is not boolean")).

Definition bool_column (b : bool) : Z := if b then 1%Z else 0%Z.

(** The derived serialiser of the ledger; the path of its source is written and read only if it
    is valid. *)
Class MemoryJson := { json_ledger_wire : SerdeJson NativeMemoryLedger }.

#[global] Instance json_ledger `{MemoryJson} : SerdeJson NativeMemoryLedger :=
  validated_json (fun l => match nl_source l with
                           | Some source => is_ok (WireNativeValue_validate (ms_path source))
                           | None => true
                           end) json_ledger_wire.

Section vault.
Context `{UuidCrate} `{Primitives} `{RecordJson} `{MemoryJson}.
Implicit Types (t : MemoryTables) (ledger : NativeMemoryLedger).

Definition scope_columns (scope : ScopeRef) : string * option rstr :=
  match scope with
  | Global => ("global"%string, None)
  | Project project_id => ("project"%string, Some (uuid_hyphenated project_id))
  end.

Definition native_memory_ledger t (id : NativeMemorySourceId)
    : result VaultError (option NativeMemoryLedger) :=
  match mt_sources t !! sha256_key id with
  | None => Ok None
  | Some row =>
      let? ledger := from_json (T := NativeMemoryLedger) (sr_payload row) in
      let? source := memory_validated (validate_persisted ledger) in
      let mismatch := Validation "native memory ledger metadata does not match its row" in
      if negb (bool_decide (nl_source_id ledger = id))
         || negb (bool_decide (harness_name (ms_harness source) = sr_harness row))
         || negb (bool_decide (scope_columns (ms_scope source) = (sr_scope_kind row, sr_project_id row)))
         || negb (bool_decide (document_kind_name (ms_document_kind source) = sr_document_kind row))
         || negb (bool_decide (optional_sha256_key (nl_last_observed_digest ledger)
                               = sr_last_observed_digest row))
         || negb (bool_decide (optional_sha256_key (nl_last_unmanaged_digest ledger)
                               = sr_last_unmanaged_digest row))
         || negb (bool_decide (optional_sha256_key (nl_last_imported_digest ledger)
                               = sr_last_imported_digest row))
         || negb (bool_decide (optional_sha256_key (nl_last_applied_digest ledger)
                               = sr_last_applied_digest row))
         || negb (bool_decide (optional_sha256_key (nl_last_applied_managed_digest ledger)
                               = sr_last_applied_managed_digest row))
      then Err mismatch else
      let? complete := sqlite_bool (sr_initial_preview_complete row) "native memory initial-preview flag" in
      if negb (Bool.eqb (nl_initial_preview_complete ledger) complete) then Err mismatch
      else Ok (Some ledger)
  end.

(** Rows that no supersession replaces, [ORDER BY source_id]. *)
Definition live_source_rows t : list (rstr * SourceRow) :=
  sort_by_key fst
    (filter (fun entry => mt_supersessions t !! entry.1 = None) (map_to_list (mt_sources t))).

Definition native_memory_ledgers t : result VaultError (list NativeMemoryLedger) :=
  let? payloads := try_map (fun entry => from_json (T := NativeMemoryLedger) (sr_payload entry.2))
                     (live_source_rows t) in
  try_map (fun ledger =>
    let? stored := native_memory_ledger t (nl_source_id ledger) in
    ok_or stored (Validation "native memory ledger disappeared while loading")) payloads.

(** The row [put_native_memory_ledger] writes. *)
Definition ledger_row ledger (source : NativeMemorySource) (canonical_ledger : bytes) : SourceRow :=
  let (scope_kind, project_id) := scope_columns (ms_scope source) in
  {| sr_harness := harness_name (ms_harness source);
     sr_scope_kind := scope_kind;
     sr_project_id := project_id;
     sr_document_kind := document_kind_name (ms_document_kind source);
     sr_last_observed_digest := optional_sha256_key (nl_last_observed_digest ledger);
     sr_last_unmanaged_digest := optional_sha256_key (nl_last_unmanaged_digest ledger);
     sr_last_imported_digest := optional_sha256_key (nl_last_imported_digest ledger);
     sr_last_applied_digest := optional_sha256_key (nl_last_applied_digest ledger);
     sr_last_applied_managed_digest := optional_sha256_key (nl_last_applied_managed_digest ledger);
     sr_initial_preview_complete := bool_column (nl_initial_preview_complete ledger);
     sr_payload := canonical_ledger |}.

Definition put_native_memory_ledger t ledger (canonical_ledger : bytes) : result VaultError MemoryTables :=
  let? source := memory_validated (validate_persisted ledger) in
  let key := sha256_key (nl_source_id ledger) in
  let row := ledger_row ledger source canonical_ledger in
  if source_row_allowed key row then Ok (set_sources t (<[key := row]> (mt_sources t)))
  else Err Database.

(** ** Candidates *)

Definition resolve_alias t (id : rstr) : rstr := default id (mt_aliases t !! id).

(** [Vault::candidate] *)
Definition vault_candidate t (id : CandidateId) : result VaultError (option MemoryCandidate) :=
  match mt_candidates t !! resolve_alias t (uuid_hyphenated id) with
  | Some row => let? candidate := from_json (T := MemoryCandidate) (cr_payload row) in Ok (Some candidate)
  | None => Ok None
  end.

Definition native_memory_change_kind (candidate : MemoryCandidate)
    : result VaultError NativeMemoryChangeKind :=
  if bool_decide (cand_evidence_summary candidate = native_memory_evidence ChangeInitialPreview)
  then Ok ChangeInitialPreview
  else if bool_decide (cand_evidence_summary candidate = native_memory_evidence ChangeLiveEdit)
  then Ok ChangeLiveEdit
  else Err (Validation "native memory candidate has invalid reconciliation evidence").

(** Field updates of [MemoryCandidate]. *)
Definition with_memory_id (c : MemoryCandidate) (id : MemoryId) : MemoryCandidate :=
  let m := cand_proposed_memory c in
  {| cand_id := cand_id c;
     cand_proposed_memory := {|
       mem_id := id; mem_scope := mem_scope m; mem_kind := mem_kind m; mem_title := mem_title m;
       mem_body_markdown := mem_body_markdown m; mem_tags := mem_tags m; mem_origin := mem_origin m;
       mem_provenance := mem_provenance m; mem_revision := mem_revision m;
       mem_created_hlc := mem_created_hlc m; mem_updated_hlc := mem_updated_hlc m;
       mem_archived := mem_archived m |};
     cand_evidence_summary := cand_evidence_summary c;
     cand_source_harness := cand_source_harness c; cand_state := cand_state c |}.
Definition with_candidate (c : MemoryCandidate) (id : CandidateId) (evidence : rstr)
    (state : CandidateState) : MemoryCandidate :=
  {| cand_id := id; cand_proposed_memory := cand_proposed_memory c;
     cand_evidence_summary := evidence; cand_source_harness := cand_source_harness c;
     cand_state := state |}.

Definition same_native_candidate_identity (existing incoming : MemoryCandidate) : bool :=
  let normalized :=
    if bool_decide (mem_id (cand_proposed_memory existing) = cand_id existing)
    then with_memory_id existing (mem_id (cand_proposed_memory incoming)) else existing in
  bool_decide (with_candidate normalized (cand_id normalized) (cand_evidence_summary incoming)
                 (cand_state incoming) = incoming).

Definition validate_native_memory_candidate (source : NativeMemorySource) ledger
    (candidate : MemoryCandidate) (expected_change_kind : NativeMemoryChangeKind)
    (existing_candidate : bool) : result VaultError unit :=
  let? unmanaged_digest := ok_or (nl_last_imported_digest ledger)
        (Validation "native memory candidate requires an imported digest") in
  let memory := cand_proposed_memory candidate in
  let? extracted := memory_validated (extract_managed_markdown (as_bytes (mem_body_markdown memory))) in
  let? (expected_candidate_id, expected_memory_id, expected_operation_id) :=
        memory_validated (native_memory_identity (ms_id source) unmanaged_digest) in
  if bool_decide (is_Some (mk_managed_body extracted))
     || negb (bool_decide (mk_unmanaged_digest extracted = unmanaged_digest))
     || negb (bool_decide (cand_id candidate = expected_candidate_id))
     || (negb (bool_decide (mem_id memory = expected_memory_id))
         && negb (existing_candidate && bool_decide (mem_id memory = expected_candidate_id)))
     || negb (bool_decide (mem_revision memory = expected_operation_id))
     || negb (bool_decide (cand_state candidate = Pending))
     || negb (bool_decide (cand_source_harness candidate = ms_harness source))
     || negb (bool_decide (mem_scope memory = ms_scope source))
     || negb (bool_decide (mem_kind memory = Note))
     || negb (bool_decide (mem_origin memory = NativeImport))
     || negb (bool_decide (mem_title memory = native_memory_title source))
     || negb (bool_decide (mem_tags memory = native_memory_tags (ms_harness source)))
     || negb (bool_decide (pv_harness (mem_provenance memory) = Some (ms_harness source)))
     || bool_decide (is_Some (pv_source (mem_provenance memory)))
     || mem_archived memory
     || negb (bool_decide (cand_evidence_summary candidate = native_memory_evidence expected_change_kind))
  then Err (Validation "native memory candidate does not match its source ledger") else Ok tt.

(** The change kind that a candidate has to state: a source whose stored ledger has completed
    its preview reports edits. *)
Definition expected_kind (prior_ledger : option SourceRow) : result VaultError NativeMemoryChangeKind :=
  let? complete := match prior_ledger with
                   | Some row => sqlite_bool (sr_initial_preview_complete row)
                                   "native memory initial-preview flag"
                   | None => Ok false
                   end in
  Ok (if complete then ChangeLiveEdit else ChangeInitialPreview).

Definition replays (prior_ledger : option SourceRow) (canonical_ledger : bytes) : bool :=
  match prior_ledger with
  | Some row => bool_decide (sr_payload row = canonical_ledger)
  | None => false
  end.

(** The part of [put_native_memory_candidate] that concerns the candidate. *)
Definition put_candidate t ledger (source : NativeMemorySource) (canonical_ledger : bytes)
    (candidate : MemoryCandidate) : result VaultError MemoryTables :=
  let? _ := validated (MemoryCandidate_validate candidate) in
  let prior_ledger := mt_sources t !! sha256_key (nl_source_id ledger) in
  let? expected_change_kind := expected_kind prior_ledger in
  let? canonical_candidate := to_json candidate in
  let candidate_text := uuid_hyphenated (cand_id candidate) in
  let canonical_id := resolve_alias t candidate_text in
  match mt_candidates t !! canonical_id with
  | Some existing =>
      if bool_decide (cr_payload existing = canonical_candidate) then
        let? replay_change_kind := if replays prior_ledger canonical_ledger
                                   then native_memory_change_kind candidate
                                   else Ok expected_change_kind in
        let? _ := validate_native_memory_candidate source ledger candidate replay_change_kind true in
        Ok t
      else
        let? existing_candidate := from_json (T := MemoryCandidate) (cr_payload existing) in
        let? _ := validated (MemoryCandidate_validate existing_candidate) in
        let? _ := native_memory_change_kind existing_candidate in
        if negb (bool_decide (uuid_hyphenated (cand_id existing_candidate) = canonical_id))
        then Err VaultOperationConflict else
        let comparison := with_candidate existing_candidate (cand_id candidate)
                            (cand_evidence_summary existing_candidate) (cand_state existing_candidate) in
        if negb (same_native_candidate_identity comparison candidate)
        then Err VaultOperationConflict else
        let? expected_change_kind :=
          if replays prior_ledger canonical_ledger
             && bool_decide (cand_evidence_summary existing_candidate = cand_evidence_summary candidate)
          then native_memory_change_kind candidate else Ok expected_change_kind in
        let? _ := validate_native_memory_candidate source ledger candidate expected_change_kind true in
        Ok t
  | None =>
      if negb (bool_decide (canonical_id = candidate_text)) then Err VaultOperationConflict else
      let? _ := validate_native_memory_candidate source ledger candidate expected_change_kind false in
      Ok (set_candidates t
            (<[candidate_text := {| cr_state := "pending"; cr_payload := canonical_candidate |}]>
               (mt_candidates t)))
  end.

Definition put_native_memory_candidate t ledger (candidate : option MemoryCandidate)
    : result VaultError MemoryTables :=
  let? source := memory_validated (validate_persisted ledger) in
  let? canonical_ledger := to_json ledger in
  let? t := match candidate with
            | Some candidate => put_candidate t ledger source canonical_ledger candidate
            | None => Ok t
            end in
  put_native_memory_ledger t ledger canonical_ledger.

(** ** The service: service.rs *)

Definition invalid_request : ClientError := plain_error ECInvalidRequest "The request is invalid".
Definition conflict (message : string) : ClientError := plain_error ECConflict message.
Definition operation_conflict : ClientError :=
  conflict "The operation ID is already bound to a different mutation".
Definition internal : ClientError := plain_error ECInternal "The local vault operation failed".

(** [vault] of service.rs *)
Definition vault_result {A} (r : result VaultError A) : result ClientError A :=
  map_err (fun error => match error with
                        | VaultOperationConflict => operation_conflict
                        | _ => internal
                        end) r.

(** The ledger after an observation of the given digest. *)
Definition observed_ledger ledger (observed : option Sha256Digest)
    (diagnostic : option NativeMemoryDiagnostic) : NativeMemoryLedger :=
  {| nl_source_id := nl_source_id ledger; nl_source := nl_source ledger;
     nl_last_observed_digest := observed;
     nl_last_unmanaged_digest := nl_last_unmanaged_digest ledger;
     nl_last_imported_digest := nl_last_imported_digest ledger;
     nl_last_applied_digest := nl_last_applied_digest ledger;
     nl_last_applied_managed_digest := nl_last_applied_managed_digest ledger;
     nl_last_diagnostic := diagnostic; nl_initial_preview_complete := true |}.

(** [last_unmanaged_digest], [last_imported_digest], [last_applied_managed_digest] set. *)
Definition with_digests ledger (unmanaged imported managed : option Sha256Digest) : NativeMemoryLedger :=
  {| nl_source_id := nl_source_id ledger; nl_source := nl_source ledger;
     nl_last_observed_digest := nl_last_observed_digest ledger;
     nl_last_unmanaged_digest := unmanaged; nl_last_imported_digest := imported;
     nl_last_applied_digest := nl_last_applied_digest ledger;
     nl_last_applied_managed_digest := managed;
     nl_last_diagnostic := nl_last_diagnostic ledger;
     nl_initial_preview_complete := nl_initial_preview_complete ledger |}.

(** The class of an error other than [InvalidSource]. *)
Definition diagnostic_class (error : NativeMemoryError) : option NativeMemoryDiagnosticClass :=
  match error with
  | InvalidSource _ => None
  | InvalidUtf8 => Some DInvalidUtf8
  | SensitiveText => Some DSensitiveText
  | MemoryTooLarge => Some DTooLarge
  | MalformedManagedFence => Some DMalformedManagedFence
  | ManagedContentModified => Some DManagedContentModified
  end.

Definition ledger_of_source t (source : NativeMemorySource) : result ClientError NativeMemoryLedger :=
  let? stored := vault_result (native_memory_ledger t (ms_id source)) in
  match stored with
  | Some ledger =>
      if negb (bool_decide (nl_source ledger = Some source))
      then Err (conflict "The native memory source metadata changed") else Ok ledger
  | None => Ok (for_source source)
  end.

(** The ledger and candidate a decision leads to. *)
Definition decided (device_id : DeviceId) (source : NativeMemorySource) ledger
    (decision : ReconcileDecision) : result ClientError (NativeMemoryLedger * option MemoryCandidate) :=
  match decision with
  | DecidePending _ full_digest unmanaged_digest candidate_markdown change_kind =>
      let? candidate := map_err (fun _ => invalid_request)
            (build_native_memory_candidate source unmanaged_digest candidate_markdown change_kind
               device_id) in
      Ok (with_digests (observed_ledger ledger (Some full_digest) None)
            (Some unmanaged_digest) (Some unmanaged_digest) (nl_last_applied_managed_digest ledger),
          Some candidate)
  | DecideNoContent full_digest unmanaged_digest
  | DecideAlreadyImported full_digest unmanaged_digest =>
      Ok (with_digests (observed_ledger ledger (Some full_digest) None)
            (Some unmanaged_digest) (nl_last_imported_digest ledger)
            (nl_last_applied_managed_digest ledger), None)
  | DecideSelfExport full_digest managed_digest =>
      Ok (with_digests (observed_ledger ledger (Some full_digest) None)
            (nl_last_unmanaged_digest ledger) (nl_last_imported_digest ledger) managed_digest, None)
  end.

(** The end of [reconcile_native_memory]: a candidate is reported when it was not stored. *)
Definition store_observation t ledger (candidate : option MemoryCandidate)
    : result ClientError (MemoryTables * option MemoryCandidate) :=
  let? candidate_is_new := match candidate with
                           | Some c => let? stored := vault_result (vault_candidate t (cand_id c)) in
                                       Ok (bool_decide (stored = None))
                           | None => Ok false
                           end in
  let? t := vault_result (put_native_memory_candidate t ledger candidate) in
  Ok (t, if candidate_is_new then candidate else None).

Definition reconcile_native_memory (device_id : DeviceId) t (ready : ReadyNativeMemory)
    : result ClientError (MemoryTables * option MemoryCandidate) :=
  let source := rn_source ready in
  let? _ := map_err (fun _ => invalid_request) (validate_compatible source) in
  let? ledger := ledger_of_source t source in
  match rn_snapshot ready with
  | Absent => store_observation t (observed_ledger ledger None None) None
  | Regular b =>
      match reconcile_classified source ledger b (rn_kind ready) with
      | Ok decision =>
          let? (ledger, candidate) := decided device_id source ledger decision in
          store_observation t ledger candidate
      | Err error =>
          match diagnostic_class error with
          | None => Err invalid_request
          | Some error_class =>
              let diagnostic := {| nd_source_id := ms_id source; nd_error_class := error_class;
                                   nd_digest := sha256 b |} in
              let? t := vault_result (put_native_memory_candidate t
                          (observed_ledger ledger (Some (sha256 b)) (Some diagnostic)) None) in
              Ok (t, None)
          end
      end
  end.

(** ** The daemon: the [NativeMemoryObservation] command of contextd/lib.rs *)

Definition client_error_from_vault (error : VaultError) : ClientError :=
  match error with
  | MissingKey | WrongKey =>
      {| ce_code := ECVaultLocked; ce_message := "The local vault is locked";
         ce_field_path := None; ce_retryable := true |}
  | BudgetExceeded => plain_error ECQuotaExceeded "The local storage quota is exhausted"
  | Validation _ => plain_error ECInvalidRequest "The request is invalid"
  | VaultOperationConflict =>
      plain_error ECConflict "The operation ID is already bound to a different mutation"
  | _ => plain_error ECInternal "The local service could not complete the request"
  end.

(** [Ok] is [LocalResult::Empty]. *)
Definition native_memory_observation (device_id : DeviceId) t (ready : ReadyNativeMemory)
    : result ClientError MemoryTables :=
  let? stored := map_err client_error_from_vault (native_memory_ledger t (ms_id (rn_source ready))) in
  let registered := match stored ≫= nl_source with
                    | Some source => bool_decide (source = rn_source ready)
                    | None => false
                    end in
  if negb registered then Ok t else
  let? (t, _) := reconcile_native_memory device_id t ready in Ok t.

End vault.
