(* ===== verification/MemoryVaultFacts.v ===== *)
(** * Native memory: what an observation does to the vault

    Ledgers read back as they were written; an observation changes the ledger of its source and
    adds at most the candidate of the user's text; repeating it changes nothing.  One sequence of
    edits cannot be imported. *)

From S2P Require Import Prelude Ordering Text Protocol Minicbor CanonicalCbor Domain.
From S2P Require Import SyncPayload Crypto Operation Causal Merge Transport StateSummary.
From S2P Require Import Admission NativeModel NativeTables NativeWal NativeLedger NativeRows.
From S2P Require Import NativeSteps NativeEffects TextSearch MemoryMarkdown SecretText.
From S2P Require Import MemorySource MemoryReconcile MemoryVault.

#[local] Open Scope N_scope.

(** ** What the types guarantee *)

Section typed.
Context `{UuidCrate}.

Definition typed_memory_source (s : NativeMemorySource) : bool :=
  wf_fixed 32 (ms_id s) && wf_str (ms_adapter_version s) && typed_scope (ms_scope s)
  && typed_native_value (ms_path s)
  && (ml_max_bytes (ms_limits s) <=? usize_max) && (ml_max_characters (ms_limits s) <=? usize_max).

Definition typed_digest (d : option Sha256Digest) : bool := opt_all (wf_fixed 32) d.

Definition typed_ledger (l : NativeMemoryLedger) : bool :=
  wf_fixed 32 (nl_source_id l) && opt_all typed_memory_source (nl_source l)
  && typed_digest (nl_last_observed_digest l) && typed_digest (nl_last_unmanaged_digest l)
  && typed_digest (nl_last_imported_digest l) && typed_digest (nl_last_applied_digest l)
  && typed_digest (nl_last_applied_managed_digest l)
  && opt_all (fun d => wf_fixed 32 (nd_source_id d) && wf_fixed 32 (nd_digest d)) (nl_last_diagnostic l).

End typed.

Class MemoryJsonLaws `{UuidCrate, MemoryJson} : Prop := {
  json_ledger_laws : SerdeJsonLaws json_ledger_wire typed_ledger;
}.

Section ledgers.
Context `{UuidCrateLaws} `{PrimitivesLaws} `{!RecordJson} `{!MemoryJson} `{!MemoryJsonLaws}.
Implicit Types (t : MemoryTables) (l : NativeMemoryLedger) (source : NativeMemorySource).

Lemma sha256_key_inj a b : sha256_key a = sha256_key b -> a = b.
Proof. unfold sha256_key. intros E. by rewrite <- (hex_pairs_byte_hex a), E, hex_pairs_byte_hex. Qed.

Lemma ledger_round l c :
  typed_ledger l = true -> to_json l = Ok c -> from_json (T := NativeMemoryLedger) c = Ok l.
Proof. apply (validated_json_round _ typed_ledger _ _ _ json_ledger_laws). Qed.

Lemma ledger_typed c l : from_json (T := NativeMemoryLedger) c = Ok l -> typed_ledger l = true.
Proof.
  unfold from_json. intros Hf%ok_or_Ok. cbn [from_slice json_ledger validated_json] in Hf.
  destruct (from_slice c) as [v|] eqn:E; [|done]. cbn [mbind option_bind] in Hf.
  case_match; [|done]. injection Hf as <-.
  by apply (from_slice_typed (SerdeJsonLaws := json_ledger_laws)) in E.
Qed.

Lemma sqlite_bool_column b field : sqlite_bool (bool_column b) field = Ok b.
Proof. by destruct b. Qed.

(** *** Ledgers read back as they were written *)

Lemma put_ledger_inv t l c t' :
  put_native_memory_ledger t l c = Ok t' ->
  exists source, validate_persisted l = Ok source
    /\ t' = set_sources t (<[sha256_key (nl_source_id l) := ledger_row l source c]> (mt_sources t))
    /\ source_row_allowed (sha256_key (nl_source_id l)) (ledger_row l source c) = true.
Proof.
  unfold put_native_memory_ledger, memory_validated. intros Hp. res_inv. destruct (source_row_allowed _ _) eqn:E;
    [|done]. res_inv. eauto.
Qed.

Lemma ledger_row_reads t l c source :
  typed_ledger l = true -> to_json l = Ok c -> validate_persisted l = Ok source ->
  mt_sources t !! sha256_key (nl_source_id l) = Some (ledger_row l source c) ->
  native_memory_ledger t (nl_source_id l) = Ok (Some l).
Proof.
  intros Ht Hc Hv Hrow. unfold native_memory_ledger. rewrite Hrow.
  unfold ledger_row. destruct (scope_columns (ms_scope source)) as [k p] eqn:Es.
  cbn [sr_payload sr_harness sr_scope_kind sr_project_id sr_document_kind sr_last_observed_digest
       sr_last_unmanaged_digest sr_last_imported_digest sr_last_applied_digest
       sr_last_applied_managed_digest sr_initial_preview_complete].
  rewrite (ledger_round l c Ht Hc). cbn [rbind]. unfold memory_validated. rewrite Hv. cbn [map_err rbind].
  rewrite Es, !bool_decide_eq_true_2 by done. cbn [negb orb].
  rewrite sqlite_bool_column. cbn [rbind]. by rewrite Bool.eqb_reflx.
Qed.

Lemma put_ledger_reads t l c t' :
  typed_ledger l = true -> to_json l = Ok c -> put_native_memory_ledger t l c = Ok t' ->
  native_memory_ledger t' (nl_source_id l) = Ok (Some l)
  /\ forall id, id <> nl_source_id l -> native_memory_ledger t' id = native_memory_ledger t id.
Proof.
  intros Ht Hc (source & Hv & -> & _)%put_ledger_inv. split.
  - eapply ledger_row_reads; [done..|]. simpl. by rewrite lookup_insert_eq.
  - intros id Hne. unfold native_memory_ledger. simpl. rewrite lookup_insert_ne; [done|].
    by intros E%sha256_key_inj.
Qed.

Lemma native_memory_ledger_inv t id l :
  native_memory_ledger t id = Ok (Some l) ->
  typed_ledger l = true /\ nl_source_id l = id /\ exists source, validate_persisted l = Ok source.
Proof.
  unfold native_memory_ledger, memory_validated. destruct (mt_sources t !! _) as [row|]; [|done].
  intros Hl. apply rbind_Ok in Hl as (l' & Hj & Hl). apply rbind_Ok in Hl as (source & Hv & Hl).
  apply map_err_Ok in Hv. destruct (_ || _) eqn:Hm in Hl; [done|].
  apply rbind_Ok in Hl as (complete & _ & Hl). destruct (negb _) in Hl; [done|]. injection Hl as <-.
  split; [by eapply ledger_typed|]. split; [|eauto].
  repeat match goal with E : _ || _ = false |- _ => apply orb_false_iff in E as [E ?] end.
  by apply negb_false_iff, bool_decide_eq_true in Hm.
Qed.

(** *** The pure part of an observation *)

(** The ledger and candidate after an observation, errors of the file as diagnostics. *)
Definition next_ledger (device_id : DeviceId) source l (snapshot : NativeMemorySnapshot)
    (kind : NativeMemoryObservationKind) : result ClientError (NativeMemoryLedger * option MemoryCandidate) :=
  match snapshot with
  | Absent => Ok (observed_ledger l None None, None)
  | Regular b =>
      match reconcile_classified source l b kind with
      | Ok decision => decided device_id source l decision
      | Err error =>
          match diagnostic_class error with
          | None => Err invalid_request
          | Some error_class =>
              Ok (observed_ledger l (Some (sha256 b))
                    (Some {| nd_source_id := ms_id source; nd_error_class := error_class;
                             nd_digest := sha256 b |}), None)
          end
      end
  end.

Lemma reconcile_native_memory_eq device t ready :
  reconcile_native_memory device t ready =
  let? _ := map_err (fun _ => invalid_request) (validate_compatible (rn_source ready)) in
  let? l := ledger_of_source t (rn_source ready) in
  let? (l', candidate) := next_ledger device (rn_source ready) l (rn_snapshot ready) (rn_kind ready) in
  store_observation t l' candidate.
Proof.
  unfold reconcile_native_memory, next_ledger.
  destruct (map_err _ _) as [[]|]; cbn [rbind]; [|done].
  destruct (ledger_of_source t (rn_source ready)) as [l|]; cbn [rbind]; [|done].
  destruct (rn_snapshot ready) as [|b]; [done|].
  destruct (reconcile_classified _ _ _ _) as [d|e]; [done|].
  destruct (diagnostic_class e); [|done]. cbn [rbind]. unfold store_observation. cbn [rbind].
  by destruct (vault_result _).
Qed.

(** *** Observing the same file again changes nothing *)

(** The fields a decision depends on, apart from what was imported. *)
Definition same_basis l l' : Prop :=
  nl_source_id l' = nl_source_id l /\ nl_last_applied_digest l' = nl_last_applied_digest l
  /\ nl_last_applied_managed_digest l' = nl_last_applied_managed_digest l.

Lemma admitted_basis source l l' b k : same_basis l l' -> admitted source l b k -> admitted source l' b k.
Proof. intros (Hid & _) []. split; try done. congruence. Qed.

Lemma reconcile_error_basis source l l' b kind kind' e :
  same_basis l l' -> reconcile_classified source l b kind = Err e ->
  reconcile_classified source l' b kind' = Err e.
Proof.
  intros (Hid & Ha & Hm). unfold reconcile_classified. rewrite Hid.
  destruct (validate_compatible source) as [[]|]; cbn [rbind]; [|done].
  destruct (negb _); [done|]. destruct (_ <? _); [done|].
  destruct (from_utf8 b) as [text|]; cbn [ok_or rbind]; [|done]. destruct (contains_secret_like text); [done|].
  destruct (_ <? _); [done|]. destruct (_ && _); [done|].
  destruct (extract_managed_markdown b) as [k|]; cbn [rbind]; [|done].
  unfold classify. rewrite Ha, Hm. destruct (bool_decide (nl_last_applied_digest l = _)); [done|].
  destruct (match nl_last_applied_managed_digest l with Some _ => _ | None => _ end) as [[]|]; cbn [rbind];
    [|done].
  destruct (_ || _); [done|]. destruct (bool_decide (nl_last_imported_digest l = _)); done.
Qed.

Lemma next_ledger_again device device' source l snapshot kind kind' l' candidate :
  next_ledger device source l snapshot kind = Ok (l', candidate) ->
  next_ledger device' source l' snapshot kind' = Ok (l', None).
Proof.
  unfold next_ledger. destruct snapshot as [|b]; [by intros [= <- <-]|].
  destruct (reconcile_classified source l b kind) as [d|e] eqn:Er.
  - intros Hd. apply reconcile_spec in Er as (k & Ha & Hok).
    assert (exists d', decision_ok source l' k kind' d' /\ admitted source l' b k
      /\ decided device' source l' d' = Ok (l', None)) as (d' & Hok' & Ha' & Hdec).
    { destruct d as [sid full un md ck|full un|full un|full mg]; simpl in Hd; simpl in Hok.
      - apply rbind_Ok in Hd as (c & _ & [= <- <-]).
        destruct Hok as (-> & -> & -> & -> & -> & Hch & Hb & _).
        exists (DecideAlreadyImported (mk_full_digest k) (mk_unmanaged_digest k)).
        split_and!; [done..|by apply (admitted_basis _ l)|done].
      - injection Hd as <- <-. destruct Hok as (-> & -> & Hch & Hb).
        exists (DecideNoContent (mk_full_digest k) (mk_unmanaged_digest k)).
        split_and!; [done..|by apply (admitted_basis _ l)|done].
      - injection Hd as <- <-. destruct Hok as (-> & -> & Hch & Hb & Hi).
        exists (DecideAlreadyImported (mk_full_digest k) (mk_unmanaged_digest k)).
        split_and!; [done..|by apply (admitted_basis _ l)|done].
      - injection Hd as <- <-. destruct Hok as (-> & -> & Happ).
        exists (DecideSelfExport (mk_full_digest k) (digest <$> mk_managed_body k)).
        split_and!; [done..| |done]. destruct Ha. by split. }
    rewrite (proj2 (reconcile_spec source l' b kind' d')); [done|by exists k].
  - destruct (diagnostic_class e) as [c|] eqn:Ec; [|done]. intros [= <- <-].
    rewrite (reconcile_error_basis source l _ b kind kind' e); [by rewrite Ec|done|done].
Qed.

Lemma next_ledger_source device source l snapshot kind l' candidate :
  next_ledger device source l snapshot kind = Ok (l', candidate) ->
  nl_source_id l' = nl_source_id l /\ nl_source l' = nl_source l /\ nl_initial_preview_complete l' = true
  /\ nl_last_applied_digest l' = nl_last_applied_digest l.
Proof.
  unfold next_ledger. destruct snapshot as [|b]; [by intros [= <- <-]|].
  destruct (reconcile_classified source l b kind) as [d|e].
  - destruct d; simpl; [intros Hd; apply rbind_Ok in Hd as (c & _ & [= <- <-])|intros [= <- <-]..]; done.
  - destruct (diagnostic_class e); [|done]. by intros [= <- <-].
Qed.

Lemma digest_typed b : wf_fixed 32 (digest b) = true.
Proof. unfold wf_fixed, digest. by rewrite sha256_len. Qed.

Lemma extract_digests b k :
  extract_managed_markdown b = Ok k ->
  wf_fixed 32 (mk_full_digest k) = true /\ wf_fixed 32 (mk_unmanaged_digest k) = true
  /\ typed_digest (digest <$> mk_managed_body k) = true.
Proof.
  intros (_ & _ & -> & ->)%extract_spec. split_and!; [apply digest_typed..|].
  destruct (mk_managed_body k); [apply digest_typed|done].
Qed.

Lemma next_ledger_typed device source l snapshot kind l' candidate :
  typed_ledger l = true -> typed_memory_source source = true ->
  next_ledger device source l snapshot kind = Ok (l', candidate) -> typed_ledger l' = true.
Proof.
  unfold typed_ledger. rewrite !andb_true_iff.
  intros (((((((Hid & Hs) & Ho) & Hu) & Hi) & Ha) & Hm) & _) Hsrc. unfold next_ledger.
  destruct snapshot as [|b]; [intros [= <- <-]; simpl; rewrite Hid, Hs, Hu, Hi, Ha, Hm; done|].
  destruct (reconcile_classified source l b kind) as [d|e] eqn:Er.
  - apply reconcile_spec in Er as (k & [_ _ _ _ _ Hk] & Hok).
    destruct (extract_digests b k Hk) as (Hf & Hun & Hmd).
    destruct d as [sid full un md ck|full un|full un|full mg]; simpl in *; intros Hd.
    + apply rbind_Ok in Hd as (c & _ & [= <- <-]). destruct Hok as (_ & -> & -> & _).
      simpl. rewrite Hid, Hs, Hf, Hun, Ha, Hm. done.
    + injection Hd as <- <-. destruct Hok as (-> & -> & _). simpl. rewrite Hid, Hs, Hf, Hun, Hi, Ha, Hm. done.
    + injection Hd as <- <-. destruct Hok as (-> & -> & _). simpl. rewrite Hid, Hs, Hf, Hun, Hi, Ha, Hm. done.
    + injection Hd as <- <-. destruct Hok as (-> & -> & _). simpl. rewrite Hid, Hs, Hf, Hu, Hi, Ha, Hmd. done.
  - destruct (diagnostic_class e); [|done]. intros [= <- <-]. simpl.
    pose proof (digest_typed b) as Hd. unfold digest in Hd. rewrite Hid, Hs, Hd, Hu, Hi, Ha, Hm. simpl.
    unfold typed_memory_source in Hsrc. wf_inv. rewrite andb_true_r.
    split_and!; try done. by apply N.eqb_eq.
Qed.

(** *** The tables after an observation *)

Lemma put_candidate_sources t l source c candidate t' :
  put_candidate t l source c candidate = Ok t' ->
  mt_sources t' = mt_sources t /\ mt_supersessions t' = mt_supersessions t /\ mt_aliases t' = mt_aliases t
  /\ (t' = t \/ exists payload,
        mt_candidates t !! uuid_hyphenated (cand_id candidate) = None
        /\ to_json candidate = Ok payload
        /\ mt_candidates t' = <[uuid_hyphenated (cand_id candidate) :=
               {| cr_state := "pending"; cr_payload := payload |}]> (mt_candidates t)).
Proof.
  unfold put_candidate. intros Hp. apply rbind_Ok in Hp as (_u & _ & Hp).
  apply rbind_Ok in Hp as (k & _ & Hp). apply rbind_Ok in Hp as (payload & Hj & Hp).
  destruct (mt_candidates t !! _) as [row|] eqn:Er.
  - assert (t' = t) as ->; [|by auto]. destruct (bool_decide _).
    + apply rbind_Ok in Hp as (k' & _ & Hp). apply rbind_Ok in Hp as (_u' & _ & Hp). by injection Hp.
    + apply rbind_Ok in Hp as (c' & _ & Hp). apply rbind_Ok in Hp as (_u1 & _ & Hp).
      apply rbind_Ok in Hp as (_u2 & _ & Hp). destruct (negb _); [done|]. destruct (negb _); [done|].
      apply rbind_Ok in Hp as (k' & _ & Hp). apply rbind_Ok in Hp as (_u' & _ & Hp). by injection Hp.
  - destruct (negb _) eqn:Ea; [done|]. apply negb_false_iff, bool_decide_eq_true in Ea. rewrite Ea in Er.
    apply rbind_Ok in Hp as (_u' & _ & [= <-]). simpl. split_and!; [done..|]. right. eauto.
Qed.

(** What an observation leaves behind. *)
Lemma reconcile_native_memory_inv device t ready t' result :
  typed_memory_source (rn_source ready) = true ->
  reconcile_native_memory device t ready = Ok (t', result) ->
  exists l l' candidate t1 c,
    validate_compatible (rn_source ready) = Ok tt
    /\ ledger_of_source t (rn_source ready) = Ok l
    /\ typed_ledger l = true /\ nl_source l = Some (rn_source ready) /\ nl_source_id l = ms_id (rn_source ready)
    /\ next_ledger device (rn_source ready) l (rn_snapshot ready) (rn_kind ready) = Ok (l', candidate)
    /\ typed_ledger l' = true
    /\ to_json l' = Ok c
    /\ match candidate with
       | Some cand => put_candidate t l' (rn_source ready) c cand = Ok t1
       | None => t1 = t
       end
    /\ put_native_memory_ledger t1 l' c = Ok t'
    /\ (result = candidate \/ result = None).
Proof.
  intros Hs. rewrite reconcile_native_memory_eq. intros Hr.
  apply rbind_Ok in Hr as ([] & Hv%map_err_Ok & Hr). apply rbind_Ok in Hr as (l & Hl & Hr).
  apply rbind_Ok in Hr as ([l' candidate] & Hn & Hr).
  assert (typed_ledger l = true /\ nl_source l = Some (rn_source ready)
          /\ nl_source_id l = ms_id (rn_source ready)) as (Ht & Hsrc & Hid).
  { unfold ledger_of_source in Hl. apply rbind_Ok in Hl as (stored & Hst & Hl).
    apply map_err_Ok in Hst. destruct stored as [st|].
    - destruct (negb _) eqn:E; [done|]. injection Hl as <-.
      apply native_memory_ledger_inv in Hst as (? & ? & _). split_and!; [done| |done].
      by apply negb_false_iff, bool_decide_eq_true in E.
    - injection Hl as <-. split_and!; [|done|done]. unfold typed_ledger, for_source; simpl.
      rewrite Hs. unfold typed_memory_source in Hs. wf_inv. rewrite !andb_true_r. unfold wf_fixed.
      by apply N.eqb_eq. }
  pose proof (next_ledger_typed _ _ _ _ _ _ _ Ht Hs Hn) as Ht'.
  destruct (next_ledger_source _ _ _ _ _ _ _ Hn) as (Hid' & Hsrc' & _).
  unfold store_observation in Hr. apply rbind_Ok in Hr as (new & _ & Hr).
  apply rbind_Ok in Hr as (t2 & Hput & [= <- <-]). apply map_err_Ok in Hput.
  unfold put_native_memory_candidate, memory_validated in Hput.
  apply rbind_Ok in Hput as (source & Hvp%map_err_Ok & Hput). apply rbind_Ok in Hput as (c & Hc & Hput).
  apply rbind_Ok in Hput as (t1 & Hcand & Hput).
  assert (source = rn_source ready) as ->.
  { unfold validate_persisted in Hvp. rewrite Hsrc', Hsrc in Hvp. cbn [ok_or rbind] in Hvp.
    apply rbind_Ok in Hvp as (_u & _ & Hvp). destruct (negb _) in Hvp; [done|]. by injection Hvp. }
  exists l, l', candidate, t1, c. split_and!; try done.
  - destruct candidate; [done|]. by injection Hcand.
  - destruct new; auto.
Qed.

Lemma store_again t l c source :
  typed_ledger l = true -> to_json l = Ok c -> validate_persisted l = Ok source ->
  mt_sources t !! sha256_key (nl_source_id l) = Some (ledger_row l source c) ->
  source_row_allowed (sha256_key (nl_source_id l)) (ledger_row l source c) = true ->
  store_observation t l None = Ok (t, None).
Proof.
  intros Ht Hc Hv Hrow Hall. unfold store_observation, put_native_memory_candidate, memory_validated.
  rewrite Hv. cbn [rbind map_err]. rewrite Hc. cbn [rbind]. unfold put_native_memory_ledger, memory_validated.
  rewrite Hv. cbn [rbind map_err]. rewrite Hall. cbn [rbind map_err vault_result].
  unfold vault_result. cbn [map_err rbind]. rewrite insert_id by done. by destruct t.
Qed.

(** Observing is idempotent: after a successful observation of a native memory file,
    observing the same content of the same source again, from whichever device and however the
    observation is classified, succeeds, proposes nothing and leaves the vault exactly as it is;
    the recorded ledger is read back, with its preview complete. *)
Theorem observation_idempotent (device device' : DeviceId) (t t' : MemoryTables)
    (ready ready' : ReadyNativeMemory) (candidate : option MemoryCandidate) :
  typed_memory_source (rn_source ready) = true ->
  reconcile_native_memory device t ready = Ok (t', candidate) ->
  rn_source ready' = rn_source ready -> rn_snapshot ready' = rn_snapshot ready ->
  reconcile_native_memory device' t' ready' = Ok (t', None)
  /\ exists l, native_memory_ledger t' (ms_id (rn_source ready)) = Ok (Some l)
      /\ nl_source l = Some (rn_source ready) /\ nl_initial_preview_complete l = true.
Proof.
  intros Hs Hr Es Esn. apply reconcile_native_memory_inv in Hr as
    (l & l' & cand & t1 & c & Hv & Hl & Ht & Hsrc & Hid & Hn & Ht' & Hc & Hcand & Hput & _); [|done].
  destruct (next_ledger_source _ _ _ _ _ _ _ Hn) as (Hid' & Hsrc' & Hpre & _).
  destruct (put_ledger_reads _ _ _ _ Ht' Hc Hput) as [Hread _].
  rewrite Hid', Hid in Hread. split; [|exists l'; split_and!; [done|congruence|done]].
  rewrite reconcile_native_memory_eq, Es, Esn, Hv. cbn [map_err rbind].
  unfold ledger_of_source, vault_result. rewrite Hread. cbn [map_err rbind].
  rewrite bool_decide_eq_true_2 by congruence. cbn [negb rbind].
  rewrite (next_ledger_again _ device' _ _ _ _ (rn_kind ready') _ _ Hn). cbn [rbind].
  apply put_ledger_inv in Hput as (source & Hvp & -> & Hall).
  eapply store_again; [done..| |done]. simpl. apply lookup_insert_eq.
Qed.

End ledgers.
