(* ===== verification/MemoryClaims.v ===== *)
(** * Native memory: what is imported, and when observations succeed *)

From S2P Require Import Prelude Ordering Text Protocol Minicbor CanonicalCbor Domain.
From S2P Require Import SyncPayload Crypto Operation Causal Merge Transport StateSummary.
From S2P Require Import Admission NativeModel NativeTables NativeWal NativeLedger NativeRows.
From S2P Require Import NativeSteps NativeEffects TextSearch MemoryMarkdown SecretText.
From S2P Require Import MemorySource MemoryReconcile MemoryVault MemoryVaultFacts.

#[local] Open Scope N_scope.

Section claims.
Context `{UuidCrateLaws} `{PrimitivesLaws} `{!RecordJson} `{!RecordJsonLaws}.
Context `{!MemoryJson} `{!MemoryJsonLaws}.
Implicit Types (t : MemoryTables) (l : NativeMemoryLedger) (source : NativeMemorySource).

(** ** The candidate of an observation *)

(** The candidate of a user's text. *)
Definition proposed source (unmanaged : Sha256Digest) (body : rstr) (kind : NativeMemoryObservationKind)
    (device : DeviceId) : MemoryCandidate :=
  let id := candidate_identity (ms_id source) unmanaged in
  native_candidate source id (record_identity (ms_id source) unmanaged) id body (change_kind_of kind) device.

(** The file and the part of it that a candidate proposes. *)
Record proposes source l (b : bytes) (kind : NativeMemoryObservationKind) (device : DeviceId)
    (c : MemoryCandidate) (k : ManagedMarkdown) : Prop := {
  pr_admitted : admitted source l b k;
  pr_text : from_utf8 (mk_unmanaged_body k) = Some (mem_body_markdown (cand_proposed_memory c));
  pr_ok : text_ok MAX_MARKDOWN_BYTES (mem_body_markdown (cand_proposed_memory c));
  pr_candidate : c = proposed source (mk_unmanaged_digest k) (mem_body_markdown (cand_proposed_memory c))
                       kind device;
  pr_changed : nl_last_applied_digest l <> Some (mk_full_digest k);
  pr_block : block_intact source l k;
  pr_new : nl_last_imported_digest l <> Some (mk_unmanaged_digest k);
  pr_identity : candidate_identity (ms_id source) (mk_unmanaged_digest k)
                <> record_identity (ms_id source) (mk_unmanaged_digest k);
}.

Lemma next_ledger_candidate device source l snapshot kind l' c :
  next_ledger device source l snapshot kind = Ok (l', Some c) ->
  exists b k, snapshot = Regular b /\ proposes source l b kind device c k
    /\ nl_last_imported_digest l' = Some (mk_unmanaged_digest k).
Proof.
  unfold next_ledger. destruct snapshot as [|b]; [done|].
  destruct (reconcile_classified source l b kind) as [d|e] eqn:Er; [|by destruct (diagnostic_class e)].
  destruct d as [sid full un md ck|full un|full un|full mg]; [|done..]. intros Hd.
  apply rbind_Ok in Hd as (c' & Hb & [= <- <-]). exists b. pose proof Er as Hok.
  apply reconcile_spec in Hok as (k & Ha & -> & -> & -> & -> & -> & [Hch Hbl] & Hnb & Hni).
  exists k. split; [done|]. split; [|done].
  destruct (decide (candidate_identity (ms_id source) (mk_unmanaged_digest k)
                    = record_identity (ms_id source) (mk_unmanaged_digest k))) as [Hcol|Hcol].
  { exfalso. apply map_err_Ok in Hb. unfold build_native_memory_candidate in Hb.
    rewrite (ad_source _ _ _ _ Ha) in Hb. cbn [rbind] in Hb. apply rbind_Ok in Hb as (body & _ & Hb).
    rewrite native_memory_identity_spec, bool_decide_eq_true_2 in Hb by done. done. }
  destruct (build_candidate source l b kind _ _ _ _ _ device Er Hcol) as (body & Hu & Htext & Hbuild).
  rewrite Hbuild in Hb. injection Hb as <-. split; try done.
Qed.

Lemma proposes_pending source l b kind device c k :
  proposes source l b kind device c k ->
  reconcile_classified source l b kind
  = Ok (DecidePending (ms_id source) (mk_full_digest k) (mk_unmanaged_digest k) (mk_unmanaged_body k)
          (change_kind_of kind)).
Proof.
  intros [Ha Ht Hok Hc Hch Hbl Hnew Hid]. apply reconcile_spec. exists k. split; [done|]. simpl.
  split_and!; try done. intros (s & Hs & Hblank). rewrite Ht in Hs. injection Hs as <-.
  destruct Hok as [Hok _]. congruence.
Qed.

Lemma proposes_next source l b kind device c k :
  proposes source l b kind device c k ->
  next_ledger device source l (Regular b) kind
  = Ok (with_digests (observed_ledger l (Some (mk_full_digest k)) None) (Some (mk_unmanaged_digest k))
          (Some (mk_unmanaged_digest k)) (nl_last_applied_managed_digest l), Some c).
Proof.
  intros Hp. pose proof (proposes_pending _ _ _ _ _ _ _ Hp) as Hr.
  destruct Hp as [Ha Ht Hok Hc Hch Hbl Hnew Hid]. unfold next_ledger.
  rewrite Hr. simpl.
  destruct (build_candidate _ _ _ _ _ _ _ _ _ device Hr Hid) as (body & Hu & _ & ->).
  cbn [map_err rbind]. rewrite Ht in Hu. injection Hu as <-. do 3 f_equal. by symmetry.
Qed.

Lemma of_be_bound (b : bytes) : of_be b < 256 ^ len b.
Proof.
  induction b as [|x b IH] using rev_ind; [done|]. rewrite of_be_app, len_app.
  change (len [x]) with 1. rewrite N.pow_add_r, N.pow_1_r.
  pose proof (Byte.to_N_bounded x). lia.
Qed.

(** ** Validation of a proposed candidate *)

Lemma proposed_reextracts source l b kind device c k :
  proposes source l b kind device c k ->
  exists k', extract_managed_markdown (as_bytes (mem_body_markdown (cand_proposed_memory c))) = Ok k'
    /\ mk_managed_body k' = None /\ mk_unmanaged_digest k' = mk_unmanaged_digest k.
Proof.
  intros [Ha Ht _ _ _ _ _ _]. apply from_utf8_inv in Ht as [_ ->].
  destruct (extract_again _ _ (ad_extract _ _ _ _ Ha)) as (k' & ? & ? & _ & ?). eauto.
Qed.

Lemma proposed_validates source l b kind device c k l' existing :
  proposes source l b kind device c k -> nl_last_imported_digest l' = Some (mk_unmanaged_digest k) ->
  validate_native_memory_candidate source l' c (change_kind_of kind) existing = Ok tt.
Proof.
  intros Hp Hi. destruct (proposed_reextracts _ _ _ _ _ _ _ Hp) as (k' & Hk & Hm & Hu).
  unfold validate_native_memory_candidate, memory_validated. rewrite Hi, Hk. cbn [ok_or map_err rbind].
  rewrite native_memory_identity_spec, bool_decide_eq_false_2 by apply (pr_identity _ _ _ _ _ _ _ Hp).
  cbn [map_err rbind]. rewrite (pr_candidate _ _ _ _ _ _ _ Hp).
  unfold proposed, native_candidate. cbn [cand_id cand_proposed_memory cand_evidence_summary
    cand_source_harness cand_state mem_id mem_scope mem_kind mem_title mem_body_markdown mem_tags mem_origin
    mem_provenance mem_revision mem_archived pv_harness pv_source].
  rewrite Hm, Hu. change (bool_decide (is_Some (@None bytes))) with false.
  change (bool_decide (is_Some (@None ProvenanceSource))) with false.
  rewrite (bool_decide_eq_false_2 (record_identity _ _ = candidate_identity _ _))
    by (intros E; symmetry in E; by apply (pr_identity _ _ _ _ _ _ _ Hp)).
  rewrite !bool_decide_eq_true_2 by done. done.
Qed.

Lemma proposed_typed source l b kind device c k :
  proposes source l b kind device c k -> typed_memory_source source = true -> wf_id device = true ->
  typed_candidate c = true.
Proof.
  intros Hp Hs Hd. pose proof (pr_text _ _ _ _ _ _ _ Hp) as Ht. apply from_utf8_inv in Ht as [Hw _].
  rewrite (pr_candidate _ _ _ _ _ _ _ Hp). revert Hw.
  generalize (mem_body_markdown (cand_proposed_memory c)) as body. intros body Hw.
  unfold typed_memory_source in Hs. wf_inv.
  unfold typed_candidate, typed_memory, typed_provenance, proposed, native_candidate.
  cbn [cand_id cand_proposed_memory cand_evidence_summary
    cand_source_harness cand_state mem_id mem_scope mem_kind mem_title mem_body_markdown mem_tags mem_origin
    mem_provenance mem_revision mem_archived mem_created_hlc mem_updated_hlc pv_harness pv_source
    pv_origin_device pv_created_hlc opt_all].
  assert (Hclock : wf_hlc (operation_clock (candidate_identity (ms_id source) (mk_unmanaged_digest k)) device)
                   = true).
  { unfold wf_hlc, operation_clock. cbn [physical_ms logical node]. rewrite Hd.
    change (0 <=? u32_max) with true. rewrite !andb_true_r. apply N.leb_le. pose proof (of_be_bound ([Byte.x00; Byte.x00]
      ++ take 6 (candidate_identity (ms_id source) (mk_unmanaged_digest k)))) as Hb.
    assert (len ([Byte.x00; Byte.x00] ++ take 6 (candidate_identity (ms_id source) (mk_unmanaged_digest k)))
            <= 8) as Hl.
    { unfold len. rewrite length_app, length_take. cbn [length]. lia. }
    apply (N.pow_le_mono_r 256) in Hl; [|done]. change (256 ^ 8) with (u64_max + 1) in Hl. lia. }
  unfold candidate_identity, record_identity in *. rewrite !identity_wf, Hw, Hd, Hclock.
  rewrite !andb_true_r. unfold native_memory_title, native_memory_tags.
  match goal with E : typed_scope _ = true |- _ => rewrite E end.
  destruct (ms_harness source), (ms_document_kind source), kind; done.
Qed.

(** ** Importing *)

Lemma candidate_round c payload :
  typed_candidate c = true -> to_json c = Ok payload -> from_json (T := MemoryCandidate) payload = Ok c.
Proof.
  unfold to_json, from_json. intros Ht Hj%ok_or_Ok. apply ok_or_Ok.
  by destruct (from_to_vec (SerdeJsonLaws := json_candidate_laws) c payload Ht Hj).
Qed.

Lemma put_new_candidate t l source payload c t1 :
  put_candidate t l source payload c = Ok t1 -> vault_candidate t (cand_id c) = Ok None ->
  resolve_alias t (uuid_hyphenated (cand_id c)) = uuid_hyphenated (cand_id c)
  /\ exists p, to_json c = Ok p /\ mt_candidates t1
      = <[uuid_hyphenated (cand_id c) := {| cr_state := "pending"; cr_payload := p |}]> (mt_candidates t).
Proof.
  unfold put_candidate, vault_candidate. intros Hcand Est.
  apply rbind_Ok in Hcand as (_u1 & _ & Hcand). apply rbind_Ok in Hcand as (_u2 & _ & Hcand).
  apply rbind_Ok in Hcand as (p & Hj & Hcand). destruct (mt_candidates t !! _) as [row|] eqn:Erow.
  { exfalso. destruct (from_json (cr_payload row)); done. }
  destruct (negb _) eqn:Ea in Hcand; [done|]. apply negb_false_iff, bool_decide_eq_true in Ea.
  apply rbind_Ok in Hcand as (_u3 & _ & [= <-]). split; [done|]. by exists p.
Qed.

(** C16. What is imported is the user's text and nothing else.  When an observation reports a new
    candidate, the observed file was UTF-8 without secret-like text, within the limits of its
    source, well fenced, not the product's own export, and its managed block was the one last
    applied; the candidate holds the text outside the fence (which has no marker and was not the
    last one imported), in the scope and under the harness of the source, pending review; it is
    stored, was not before, and every other candidate and every other ledger is as before. *)
Theorem import_is_user_text (device : DeviceId) (t t' : MemoryTables) (ready : ReadyNativeMemory)
    (c : MemoryCandidate) :
  typed_memory_source (rn_source ready) = true -> wf_id device = true ->
  reconcile_native_memory device t ready = Ok (t', Some c) ->
  (exists b k l, rn_snapshot ready = Regular b
     /\ ledger_of_source t (rn_source ready) = Ok l
     /\ proposes (rn_source ready) l b (rn_kind ready) device c k
     /\ as_bytes (mem_body_markdown (cand_proposed_memory c)) = mk_unmanaged_body k
     /\ ~ has_marker (mk_unmanaged_body k))
  /\ cand_state c = Pending /\ mem_scope (cand_proposed_memory c) = ms_scope (rn_source ready)
  /\ vault_candidate t (cand_id c) = Ok None /\ vault_candidate t' (cand_id c) = Ok (Some c)
  /\ (forall key, key <> uuid_hyphenated (cand_id c) -> mt_candidates t' !! key = mt_candidates t !! key)
  /\ (forall id, id <> ms_id (rn_source ready) -> native_memory_ledger t' id = native_memory_ledger t id).
Proof.
  intros Hs Hd Hr. pose proof Hr as Hnew. apply reconcile_native_memory_inv in Hr as
    (l & l' & cand & t1 & payload & Hv & Hl & Ht & Hsrc & Hid & Hn & Ht' & Hc & Hcand & Hput & [<-|]); [|done..].
  rewrite reconcile_native_memory_eq, Hv in Hnew. cbn [map_err rbind] in Hnew. rewrite Hl in Hnew.
  cbn [rbind] in Hnew. rewrite Hn in Hnew. cbn [rbind] in Hnew. unfold store_observation in Hnew.
  destruct (vault_candidate t (cand_id c)) as [[stored|]|] eqn:Est; cbn [vault_result map_err rbind] in Hnew;
    [|clear Hnew|done].
  { exfalso. rewrite bool_decide_eq_false_2 in Hnew by done. by destruct (vault_result _). }
  destruct (next_ledger_candidate _ _ _ _ _ _ _ Hn) as (b & k & Hsnap & Hp & Himp).
  destruct (next_ledger_source _ _ _ _ _ _ _ Hn) as (Hid' & _).
  pose proof (proposed_typed _ _ _ _ _ _ _ Hp Hs Hd) as Htc.
  destruct (put_candidate_sources _ _ _ _ _ _ Hcand) as (Hsr & _ & Hal & Hcases).
  destruct (put_ledger_reads _ _ _ _ Ht' Hc Hput) as [_ Hother].
  apply put_ledger_inv in Hput as (source & _ & -> & _).
  destruct (put_new_candidate _ _ _ _ _ _ Hcand Est) as (Hres & p & Hj & Ht1).
  pose proof (pr_text _ _ _ _ _ _ _ Hp) as Hutf. apply from_utf8_inv in Hutf as [_ Hbytes].
  split_and!; try done.
  - exists b, k, l. split_and!; try done.
    destruct (pr_admitted _ _ _ _ _ _ _ Hp) as [_ _ _ _ _ Hk].
    apply extract_spec in Hk as (_ & Hf & _). by eapply fenced_unmanaged_clean.
  - by rewrite (pr_candidate _ _ _ _ _ _ _ Hp).
  - by rewrite (pr_candidate _ _ _ _ _ _ _ Hp).
  - unfold vault_candidate, resolve_alias in *. simpl. rewrite Hal, Hres, Ht1, lookup_insert_eq. simpl.
    by rewrite (candidate_round c p).
  - intros key Hne. simpl. rewrite Ht1. by rewrite lookup_insert_ne.
  - intros id Hne. rewrite Hother by congruence. unfold native_memory_ledger. by rewrite Hsr.
Qed.

(** ** Observations succeed *)

Lemma compatible_not_opencode source : validate_compatible source = Ok tt -> ms_harness source <> OpenCode.
Proof.
  unfold validate_compatible, NativeMemorySource_validate, derive_source_id, derive_legacy_source_id.
  intros Hv E. rewrite E, bool_decide_eq_true_2 in Hv by done. done.
Qed.

Lemma length_sha256_key d : wf_fixed 32 d = true -> length (sha256_key d) = 64%nat.
Proof.
  unfold wf_fixed, sha256_key, len. intros Hl%N.eqb_eq.
  assert (forall b : bytes, length (b ≫= byte_hex) = (2 * length b)%nat) as ->; [|lia].
  induction b as [|x b IH]; [done|]. rewrite bind_cons, length_app, IH.
  change (length (byte_hex x)) with 2%nat. cbn [length]. lia.
Qed.

Lemma digest_column_ok d : typed_digest d = true -> digest_column (optional_sha256_key d) = true.
Proof. destruct d as [d|]; [|done]. intros Hd. simpl. by rewrite length_sha256_key. Qed.

Lemma ledger_row_allowed l source c :
  typed_ledger l = true -> validate_compatible source = Ok tt -> c <> [] ->
  source_row_allowed (sha256_key (nl_source_id l)) (ledger_row l source c) = true.
Proof.
  intros Ht Hv Hc. apply compatible_not_opencode in Hv. unfold typed_ledger in Ht.
  rewrite !andb_true_iff in Ht. destruct Ht as (((((((Hid & _) & Ho) & Hu) & Hi) & Ha) & Hm) & _).
  unfold source_row_allowed, ledger_row. destruct (scope_columns (ms_scope source)) as [kind pid] eqn:Es.
  cbn [sr_payload sr_harness sr_scope_kind sr_project_id sr_document_kind sr_last_observed_digest
       sr_last_unmanaged_digest sr_last_imported_digest sr_last_applied_digest
       sr_last_applied_managed_digest sr_initial_preview_complete].
  rewrite length_sha256_key, !digest_column_ok, (bool_decide_eq_false_2 (c = [])) by done.
  destruct (ms_scope source); injection Es as <- <-;
    destruct (ms_harness source), (ms_document_kind source), (nl_initial_preview_complete l); done.
Qed.

Lemma ledger_of_source_inv t source l :
  typed_memory_source source = true -> ledger_of_source t source = Ok l ->
  typed_ledger l = true /\ nl_source l = Some source /\ nl_source_id l = ms_id source
  /\ expected_kind (mt_sources t !! sha256_key (ms_id source))
     = Ok (if nl_initial_preview_complete l then ChangeLiveEdit else ChangeInitialPreview).
Proof.
  intros Hs. unfold ledger_of_source. intros Hl. apply rbind_Ok in Hl as (stored & Hst%map_err_Ok & Hl).
  destruct stored as [st|].
  - destruct (negb _) eqn:E; [done|]. injection Hl as <-. apply negb_false_iff, bool_decide_eq_true in E.
    pose proof (native_memory_ledger_inv _ _ _ Hst) as (Ht & Hid & _). split_and!; [done..|].
    unfold native_memory_ledger in Hst. destruct (mt_sources t !! _) as [row|]; [|done].
    apply rbind_Ok in Hst as (l' & _ & Hst). apply rbind_Ok in Hst as (s' & _ & Hst).
    destruct (_ || _) in Hst; [done|]. apply rbind_Ok in Hst as (complete & Hb & Hst).
    destruct (negb _) eqn:Ef in Hst; [done|]. injection Hst as <-.
    apply negb_false_iff, Bool.eqb_prop in Ef. unfold expected_kind. rewrite Hb. cbn [rbind]. by rewrite Ef.
  - injection Hl as <-. split_and!; [|done|done|].
    + unfold typed_ledger, for_source; simpl. rewrite Hs. unfold typed_memory_source in Hs. wf_inv.
      rewrite !andb_true_r. by apply N.eqb_eq.
    + unfold native_memory_ledger in Hst. destruct (mt_sources t !! _) as [row|]; [|done]. exfalso.
      apply rbind_Ok in Hst as (l' & _ & Hst). apply rbind_Ok in Hst as (s' & _ & Hst).
      destruct (_ || _) in Hst; [done|]. apply rbind_Ok in Hst as (complete & Hb & Hst).
      by destruct (negb _) in Hst.
Qed.

(** The serialiser writes the ledger and the candidate of an observation. *)
Definition serialisable (device : DeviceId) source l (snapshot : NativeMemorySnapshot)
    (kind : NativeMemoryObservationKind) : Prop :=
  forall l' candidate, next_ledger device source l snapshot kind = Ok (l', candidate) ->
  (exists payload, to_json l' = Ok payload /\ payload <> [])
  /\ match candidate with Some c => exists p, to_json c = Ok p | None => True end.

(** If the file proposes a candidate for import (so not when it is the product's own export,
    tampered with, unreadable, blank or already imported), the candidate's identifier is not
    taken and differs from that of its memory. *)
Definition fresh_candidate t source (b : bytes) : Prop :=
  forall l kind source_id full unmanaged markdown change,
  ledger_of_source t source = Ok l ->
  reconcile_classified source l b kind = Ok (DecidePending source_id full unmanaged markdown change) ->
  let id := candidate_identity (ms_id source) unmanaged in
  id <> record_identity (ms_id source) unmanaged
  /\ mt_candidates t !! uuid_hyphenated id = None /\ mt_aliases t !! uuid_hyphenated id = None.

Lemma fresh_proposed t source l b kind device c k :
  proposes source l b kind device c k -> ledger_of_source t source = Ok l -> fresh_candidate t source b ->
  let id := candidate_identity (ms_id source) (mk_unmanaged_digest k) in
  id <> record_identity (ms_id source) (mk_unmanaged_digest k)
  /\ mt_candidates t !! uuid_hyphenated id = None /\ mt_aliases t !! uuid_hyphenated id = None.
Proof. intros Hp%proposes_pending Hl Hf. exact (Hf _ _ _ _ _ _ _ Hl Hp). Qed.

(** A text whose candidate the vault has never seen. *)
Lemma unseen_fresh t source b k :
  extract_managed_markdown b = Ok k ->
  let id := candidate_identity (ms_id source) (mk_unmanaged_digest k) in
  id <> record_identity (ms_id source) (mk_unmanaged_digest k)
  /\ mt_candidates t !! uuid_hyphenated id = None /\ mt_aliases t !! uuid_hyphenated id = None ->
  fresh_candidate t source b.
Proof.
  intros Hk id Hid l kind source_id full unmanaged markdown change _ (k' & Ha & _ & _ & -> & _)%reconcile_spec.
  pose proof (ad_extract _ _ _ _ Ha) as Hk'. rewrite Hk in Hk'. injection Hk' as <-. exact Hid.
Qed.

Lemma put_fresh_candidate t source l l' b kind device c k payload :
  proposes source l b kind device c k -> ledger_of_source t source = Ok l -> fresh_candidate t source b ->
  nl_source_id l' = ms_id source -> nl_last_imported_digest l' = Some (mk_unmanaged_digest k) ->
  expected_kind (mt_sources t !! sha256_key (ms_id source)) = Ok (change_kind_of kind) ->
  (exists p, to_json c = Ok p) ->
  exists t1, put_candidate t l' source payload c = Ok t1.
Proof.
  intros Hp Hlo Hfresh Hid Hi Hk [p Hj].
  destruct (fresh_proposed _ _ _ _ _ _ _ _ Hp Hlo Hfresh) as (_ & Hnone & Halias).
  assert (Hcid : cand_id c = candidate_identity (ms_id source) (mk_unmanaged_digest k))
    by by rewrite (pr_candidate _ _ _ _ _ _ _ Hp).
  unfold put_candidate. assert (MemoryCandidate_validate c = Ok tt) as ->.
  { rewrite (pr_candidate _ _ _ _ _ _ _ Hp). apply native_candidate_valid, (pr_ok _ _ _ _ _ _ _ Hp). }
  cbn [validated map_err rbind]. rewrite Hid, Hk. cbn [rbind].
  rewrite Hj. cbn [rbind]. unfold resolve_alias. rewrite Hcid, Halias.
  cbn [default from_option Datatypes.id]. rewrite Hnone, bool_decide_eq_true_2 by done. cbn [negb].
  rewrite (proposed_validates source l b kind device c k) by done. cbn [rbind]. eauto.
Qed.

Lemma reconcile_error_diagnosed source l b kind e :
  validate_compatible source = Ok tt -> ms_id source = nl_source_id l ->
  reconcile_classified source l b kind = Err e -> is_Some (diagnostic_class e).
Proof.
  intros Hv Hid. unfold reconcile_classified. rewrite Hv. cbn [rbind]. rewrite bool_decide_eq_true_2 by done.
  cbn [negb]. destruct (_ <? _); [intros [= <-]; by eexists|]. destruct (from_utf8 b) as [text|] eqn:Hu; cbn [ok_or rbind];
    [|intros [= <-]; by eexists].
  destruct (contains_secret_like text); [intros [= <-]; by eexists|]. destruct (_ <? _); [intros [= <-]; by eexists|].
  destruct (_ && _); [intros [= <-]; by eexists|]. unfold extract_managed_markdown. rewrite Hu. cbn [ok_or rbind].
  destruct (split_managed b) as [[m u]|e'] eqn:Hf; cbn [rbind].
  - unfold classify. destruct (bool_decide _); [done|].
    destruct (match nl_last_applied_managed_digest l with Some _ => _ | None => _ end) as [[]|e'] eqn:Em; cbn [rbind].
    + intros Hx. exfalso. repeat case_match; done.
    + intros [= <-]. exists DManagedContentModified. repeat case_match; by simplify_eq.
  - intros [= <-]. apply split_managed_err in Hf as ->. by eexists.
Qed.

Lemma next_ledger_total device source l snapshot kind :
  validate_compatible source = Ok tt -> nl_source_id l = ms_id source ->
  (forall b source_id full unmanaged markdown change, snapshot = Regular b ->
     reconcile_classified source l b kind = Ok (DecidePending source_id full unmanaged markdown change) ->
     candidate_identity (ms_id source) unmanaged <> record_identity (ms_id source) unmanaged) ->
  exists l' candidate, next_ledger device source l snapshot kind = Ok (l', candidate).
Proof.
  intros Hv Hid Hne. unfold next_ledger. destruct snapshot as [|b]; [eauto|].
  destruct (reconcile_classified source l b kind) as [d|e] eqn:Er.
  - destruct d as [sid full un md ck| | |]; simpl; [|eauto..].
    destruct (build_candidate source l b kind sid full un md ck device Er) as (body & _ & _ & ->);
      [|cbn [map_err rbind]; eauto].
    by eapply (Hne b).
  - apply reconcile_error_diagnosed in Er as [c ->]; [eauto|done|done].
Qed.

Lemma vault_candidate_fresh t source l b kind device c k :
  proposes source l b kind device c k -> ledger_of_source t source = Ok l -> fresh_candidate t source b ->
  vault_candidate t (cand_id c) = Ok None.
Proof.
  intros Hp Hlo Hfresh. destruct (fresh_proposed _ _ _ _ _ _ _ _ Hp Hlo Hfresh) as (_ & Hnone & Halias).
  unfold vault_candidate, resolve_alias. rewrite (pr_candidate _ _ _ _ _ _ _ Hp). unfold proposed, native_candidate.
  cbn [cand_id]. rewrite Halias. cbn [default from_option Datatypes.id]. by rewrite Hnone.
Qed.

(** Storing what an observation leads to succeeds. *)
Lemma store_observation_total device t source l snapshot kind l' candidate :
  typed_memory_source source = true -> validate_compatible source = Ok tt ->
  ledger_of_source t source = Ok l ->
  kind = (if nl_initial_preview_complete l then LiveEdit else InitialPreview) ->
  (forall b, snapshot = Regular b -> fresh_candidate t source b) ->
  serialisable device source l snapshot kind ->
  next_ledger device source l snapshot kind = Ok (l', candidate) ->
  exists t', store_observation t l' candidate = Ok (t', candidate).
Proof.
  intros Hs Hv Hl Hkind Hfresh Hser Hn.
  destruct (ledger_of_source_inv _ _ _ Hs Hl) as (Ht & Hsrc & Hid & Hexp).
  destruct (next_ledger_source _ _ _ _ _ _ _ Hn) as (Hid' & Hsrc' & _).
  pose proof (next_ledger_typed _ _ _ _ _ _ _ Ht Hs Hn) as Ht'.
  rewrite Hsrc in Hsrc'. destruct (Hser _ _ Hn) as [(payload & Hj & Hne) Hjc].
  assert (Hvp : validate_persisted l' = Ok source).
  { unfold validate_persisted. rewrite Hsrc'. cbn [ok_or rbind]. rewrite Hv. cbn [rbind].
    by rewrite bool_decide_eq_true_2 by congruence. }
  unfold store_observation, put_native_memory_candidate, memory_validated. rewrite Hvp, Hj.
  cbn [map_err rbind]. destruct candidate as [c|].
  - destruct (next_ledger_candidate _ _ _ _ _ _ _ Hn) as (b & k & Hb & Hp & Hi).
    destruct (put_fresh_candidate t source l l' b kind device c k payload)
      as [t1 Ht1]; try done; [by apply Hfresh|congruence|rewrite Hexp, Hkind; by destruct (nl_initial_preview_complete l)|].
    rewrite (vault_candidate_fresh _ _ _ _ _ _ _ _ Hp Hl (Hfresh b Hb)). cbn [vault_result map_err rbind].
    rewrite Ht1. cbn [rbind]. unfold put_native_memory_ledger, memory_validated. rewrite Hvp. cbn [map_err rbind].
    rewrite ledger_row_allowed by done. cbn [vault_result map_err rbind]. rewrite bool_decide_eq_true_2 by done. eauto.
  - cbn [rbind]. unfold put_native_memory_ledger, memory_validated. rewrite Hvp. cbn [map_err rbind].
    rewrite ledger_row_allowed by done. cbn [vault_result map_err rbind]. eauto.
Qed.

(** What an accepted observation leaves in the vault: the next ledger of the source reads back,
    the candidate it proposes is stored pending, and no other ledger and no other candidate
    changed. *)
Definition observation_stored t source l' (candidate : option MemoryCandidate) t' : Prop :=
  native_memory_ledger t' (ms_id source) = Ok (Some l')
  /\ (forall id, id <> ms_id source -> native_memory_ledger t' id = native_memory_ledger t id)
  /\ match candidate with
     | Some c => vault_candidate t' (cand_id c) = Ok (Some c)
         /\ forall key, key <> uuid_hyphenated (cand_id c) -> mt_candidates t' !! key = mt_candidates t !! key
     | None => mt_candidates t' = mt_candidates t
     end.

Lemma reconcile_stored device t ready l l' candidate t' :
  typed_memory_source (rn_source ready) = true -> wf_id device = true ->
  ledger_of_source t (rn_source ready) = Ok l ->
  (forall b, rn_snapshot ready = Regular b -> fresh_candidate t (rn_source ready) b) ->
  next_ledger device (rn_source ready) l (rn_snapshot ready) (rn_kind ready) = Ok (l', candidate) ->
  reconcile_native_memory device t ready = Ok (t', candidate) ->
  observation_stored t (rn_source ready) l' candidate t'.
Proof.
  intros Hs Hd Hl Hfresh Hn Hr. apply reconcile_native_memory_inv in Hr as
    (l0 & l1 & cand & t1 & payload & _ & Hl0 & _ & _ & Hid & Hn' & Ht' & Hc & Hcand & Hput & _); [|done].
  assert (l0 = l) as -> by congruence. rewrite Hn in Hn'. injection Hn' as <- <-.
  destruct (next_ledger_source _ _ _ _ _ _ _ Hn) as (Hid' & _).
  destruct (put_ledger_reads _ _ _ _ Ht' Hc Hput) as [Hread Hother].
  assert (Ei : nl_source_id l' = ms_id (rn_source ready)) by congruence. rewrite Ei in Hread, Hother.
  apply put_ledger_inv in Hput as (source & _ & -> & _). unfold observation_stored.
  destruct candidate as [c|]; [|by subst t1].
  destruct (next_ledger_candidate _ _ _ _ _ _ _ Hn) as (b & k & Hsnap & Hp & _).
  destruct (put_candidate_sources _ _ _ _ _ _ Hcand) as (Hsr & _ & Hal & _).
  pose proof (vault_candidate_fresh _ _ _ _ _ _ _ _ Hp Hl (Hfresh b Hsnap)) as Hnone.
  destruct (put_new_candidate _ _ _ _ _ _ Hcand Hnone) as (Hres & p & Hj & Ht1).
  split_and!; [done| | |].
  - intros id Hne. rewrite Hother by done. unfold native_memory_ledger. by rewrite Hsr.
  - unfold vault_candidate, resolve_alias in *. simpl. rewrite Hal, Hres, Ht1, lookup_insert_eq. simpl.
    by rewrite (candidate_round c p (proposed_typed _ _ _ _ _ _ _ Hp Hs Hd) Hj).
  - intros key Hne. simpl. by rewrite Ht1, lookup_insert_ne.
Qed.

(** C17. Observations succeed and are recorded: for a source the product describes and whose ledger
    loads, an observation that is classified as the ledger expects (a preview until one completed,
    an edit afterwards) is accepted, whatever the file holds, provided that the serialiser writes
    the new ledger and candidate and that a candidate the file proposes has an identifier that is
    not taken.  The ledger that reads back afterwards is the next one for this file (with the
    digests of what was observed, or the diagnostic of a file that was refused), the candidate is
    stored, and everything else is as before.  So an unreadable, secret, oversized, badly fenced or
    tampered file never blocks its source. *)
Theorem observation_succeeds (device : DeviceId) (t : MemoryTables) (ready : ReadyNativeMemory)
    (l : NativeMemoryLedger) :
  typed_memory_source (rn_source ready) = true -> wf_id device = true ->
  validate_compatible (rn_source ready) = Ok tt ->
  ledger_of_source t (rn_source ready) = Ok l ->
  rn_kind ready = (if nl_initial_preview_complete l then LiveEdit else InitialPreview) ->
  (forall b, rn_snapshot ready = Regular b -> fresh_candidate t (rn_source ready) b) ->
  serialisable device (rn_source ready) l (rn_snapshot ready) (rn_kind ready) ->
  exists t' candidate l', reconcile_native_memory device t ready = Ok (t', candidate)
    /\ next_ledger device (rn_source ready) l (rn_snapshot ready) (rn_kind ready) = Ok (l', candidate)
    /\ observation_stored t (rn_source ready) l' candidate t'.
Proof.
  intros Hs Hd Hv Hl Hkind Hfresh Hser.
  destruct (ledger_of_source_inv _ _ _ Hs Hl) as (Ht & Hsrc & Hid & Hexp).
  destruct (next_ledger_total device (rn_source ready) l (rn_snapshot ready) (rn_kind ready)) as (l' & cand & Hn);
    [done..|by intros b sid full un md ck Hb Hk; apply (Hfresh b Hb _ _ _ _ _ _ _ Hl Hk)|].
  destruct (store_observation_total _ _ _ _ _ _ _ _ Hs Hv Hl Hkind Hfresh Hser Hn) as [t' Hst].
  assert (Hr : reconcile_native_memory device t ready = Ok (t', cand)).
  { rewrite reconcile_native_memory_eq, Hv. cbn [map_err rbind]. rewrite Hl. cbn [rbind]. rewrite Hn. exact Hst. }
  exists t', cand, l'. split_and!; [done..|]. by eapply reconcile_stored.
Qed.

(** ** Texts that differ in their final newline *)

Lemma expected_kind_total t source l :
  typed_memory_source source = true -> ledger_of_source t source = Ok l ->
  exists kind, expected_kind (mt_sources t !! sha256_key (ms_id source)) = Ok kind.
Proof. intros Hs Hl. apply ledger_of_source_inv in Hl as (_ & _ & _ & ->); eauto. Qed.

Lemma different_body existing c :
  mem_body_markdown (cand_proposed_memory existing) <> mem_body_markdown (cand_proposed_memory c) ->
  same_native_candidate_identity
    (with_candidate existing (cand_id c) (cand_evidence_summary existing) (cand_state existing)) c = false.
Proof.
  intros Hne. unfold same_native_candidate_identity. apply bool_decide_eq_false. intros E. apply Hne.
  rewrite <- E at 1. by case_bool_decide.
Qed.

(** C21. The digest that identifies a text ignores its final newline, the stored candidate does
    not: when a file again holds a text that was imported before, but with or without its final
    newline, and another text was imported in between, every observation of it fails with a
    conflict, under every classification, and nothing is recorded; the file stays unrecorded until
    its content changes. *)
Theorem retyped_text_refused (device : DeviceId) (t : MemoryTables) (ready : ReadyNativeMemory)
    (l : NativeMemoryLedger) (b : bytes) (k : ManagedMarkdown) (kind : NativeMemoryObservationKind)
    (c existing : MemoryCandidate) (row : CandidateRow) (payload : bytes) :
  typed_memory_source (rn_source ready) = true -> wf_id device = true ->
  ledger_of_source t (rn_source ready) = Ok l ->
  rn_snapshot ready = Regular b ->
  proposes (rn_source ready) l b (rn_kind ready) device c k ->
  to_json c = Ok payload ->
  (exists p, to_json (with_digests (observed_ledger l (Some (mk_full_digest k)) None)
                        (Some (mk_unmanaged_digest k)) (Some (mk_unmanaged_digest k))
                        (nl_last_applied_managed_digest l)) = Ok p) ->
  mt_aliases t !! uuid_hyphenated (cand_id c) = None ->
  mt_candidates t !! uuid_hyphenated (cand_id c) = Some row ->
  from_json (cr_payload row) = Ok existing ->
  existing = proposed (rn_source ready) (mk_unmanaged_digest k)
               (mem_body_markdown (cand_proposed_memory existing)) kind device ->
  text_ok MAX_MARKDOWN_BYTES (mem_body_markdown (cand_proposed_memory existing)) ->
  mem_body_markdown (cand_proposed_memory existing) <> mem_body_markdown (cand_proposed_memory c) ->
  reconcile_native_memory device t ready = Err operation_conflict.
Proof.
  intros Hs Hd Hl Hb Hp Hj [lp Hlp] Hal Hrow Hex Eex Htext Hne.
  pose proof (pr_admitted _ _ _ _ _ _ _ Hp) as Ha. pose proof (ad_source _ _ _ _ Ha) as Hv.
  destruct (ledger_of_source_inv _ _ _ Hs Hl) as (_ & Hsrc & Hid & Hexp).
  rewrite reconcile_native_memory_eq, Hv. cbn [map_err rbind]. rewrite Hl. cbn [rbind].
  rewrite Hb, (proposes_next _ _ _ _ _ _ _ Hp). cbn [rbind].
  set (l' := with_digests _ _ _ _) in *. unfold store_observation, vault_candidate, resolve_alias.
  rewrite Hal. cbn [default from_option Datatypes.id]. rewrite Hrow, Hex. cbn [rbind vault_result map_err].
  unfold put_native_memory_candidate, memory_validated.
  assert (validate_persisted l' = Ok (rn_source ready)) as ->.
  { unfold validate_persisted, l'. simpl. rewrite Hsrc. cbn [ok_or rbind]. rewrite Hv. cbn [rbind].
    by rewrite bool_decide_eq_true_2. }
  cbn [map_err rbind]. rewrite Hlp. cbn [rbind]. unfold put_candidate.
  assert (MemoryCandidate_validate c = Ok tt) as ->.
  { rewrite (pr_candidate _ _ _ _ _ _ _ Hp). apply native_candidate_valid, (pr_ok _ _ _ _ _ _ _ Hp). }
  cbn [validated map_err rbind]. change (nl_source_id l') with (nl_source_id l). rewrite Hid, Hexp.
  cbn [rbind]. rewrite Hj. cbn [rbind]. unfold resolve_alias. rewrite Hal. cbn [default from_option Datatypes.id].
  rewrite Hrow, bool_decide_eq_false_2.
  2:{ intros E. rewrite E, (candidate_round c payload) in Hex; [congruence| |done].
      by apply (proposed_typed _ _ _ _ _ _ _ Hp). }
  rewrite Hex. cbn [rbind].
  assert (MemoryCandidate_validate existing = Ok tt) as -> by (rewrite Eex; by apply native_candidate_valid).
  cbn [validated map_err rbind].
  assert (native_memory_change_kind existing = Ok (change_kind_of kind)) as ->.
  { rewrite Eex. by destruct kind. }
  cbn [rbind]. assert (cand_id existing = cand_id c) as ->.
  { rewrite Eex, (pr_candidate _ _ _ _ _ _ _ Hp). done. }
  rewrite bool_decide_eq_true_2 by done. cbn [negb]. by rewrite different_body.
Qed.

End claims.
