(* ===== verification/MemoryWatcher.v ===== *)
(** * Native memory: the watcher (contextd/native_memory.rs)

    The supervisor polls the files of the registered sources, waits until a content is stable,
    submits it to the vault's worker and remembers what was recorded.  [Watch] is its state and
    [Daemon] adds what it shares with the worker: the queue of commands, the responses, the
    channel with the ledgers of the latest setup, and the vault.  The scheduler picks the next
    event; [daemon_step] is what each one does. *)

From S2P Require Import Prelude Ordering Text Protocol Minicbor CanonicalCbor Domain.
From S2P Require Import SyncPayload Crypto Operation Causal Merge Transport StateSummary.
From S2P Require Import Admission NativeModel NativeTables TextSearch MemoryMarkdown SecretText.
From S2P Require Import MemorySource MemoryReconcile MemoryVault.

#[local] Open Scope N_scope.

(** ** Reading a file *)

Record ObservedSnapshot := {
  os_snapshot : NativeMemorySnapshot;
  os_digest : option Sha256Digest;
}.

Inductive SnapshotError := UnsupportedTopology | SnapshotIo.

(** What [symlink_metadata] answers, and [OsNativeFileSystem::snapshot]: the bytes of the file
    and its object token, of which the volume and the leading eight bytes of the object matter. *)
Inductive Metadata := MetaFile (length dev ino : N) | MetaOther | MetaNotFound | MetaFailed.
Record FileSnapshot := {
  fs_bytes : option bytes;
  fs_token : option (N * N);
}.

(** The answers of the operating system for one path at one time. *)
Record PathAnswer := {
  pa_absolute : bool;
  pa_before : Metadata;
  pa_snapshot : option FileSnapshot;
  pa_after : Metadata;
}.

Section snapshot.
Context `{Primitives}.

Definition snapshot_of (b : bytes) : ObservedSnapshot :=
  {| os_snapshot := Regular b; os_digest := Some (sha256 b) |}.
Definition absent : ObservedSnapshot := {| os_snapshot := Absent; os_digest := None |}.

Definition decode_path (host : NativePlatform) (path : WireNativeValue) (answer : PathAnswer)
    : result SnapshotError unit :=
  if negb (bool_decide (wv_platform path = host)) then Err UnsupportedTopology
  else if bool_decide (host = Windows) && negb (len (wv_bytes path) mod 2 =? 0)
  then Err UnsupportedTopology
  else if pa_absolute answer then Ok tt else Err UnsupportedTopology.

(** [safe_snapshot_path] on macOS: the object read is the one named before and after. *)
Definition safe_snapshot_macos (answer : PathAnswer) (max_bytes : N)
    : result SnapshotError ObservedSnapshot :=
  let? before := match pa_before answer with
                 | MetaFile length dev ino => Ok (Some (length, dev, ino))
                 | MetaOther => Err UnsupportedTopology
                 | MetaNotFound => Ok None
                 | MetaFailed => Err SnapshotIo
                 end in
  if match before with Some (length, _, _) => max_bytes <? length | None => false end
  then Err UnsupportedTopology else
  let? snapshot := ok_or (pa_snapshot answer) UnsupportedTopology in
  match before, fs_bytes snapshot, fs_token snapshot with
  | None, None, _ => Ok absent
  | Some (_, dev, ino), Some b, Some (volume, object) =>
      if negb (volume =? dev) || negb (object =? ino) || (max_bytes <? len b)
      then Err UnsupportedTopology else
      match pa_after answer with
      | MetaFile _ dev' ino' =>
          if negb (volume =? dev') || negb (object =? ino') then Err UnsupportedTopology
          else Ok (snapshot_of b)
      | _ => Err UnsupportedTopology
      end
  | _, _, _ => Err UnsupportedTopology
  end.

(** [safe_snapshot_path] on Windows *)
Definition safe_snapshot_windows (answer : PathAnswer) (max_bytes : N)
    : result SnapshotError ObservedSnapshot :=
  match pa_before answer with
  | MetaNotFound => Ok absent
  | MetaFailed => Err SnapshotIo
  | MetaOther => Err UnsupportedTopology
  | MetaFile length _ _ =>
      if max_bytes <? length then Err UnsupportedTopology else
      let? snapshot := ok_or (pa_snapshot answer) UnsupportedTopology in
      match fs_bytes snapshot with
      | None => Ok absent
      | Some b => if len b <=? max_bytes then Ok (snapshot_of b) else Err UnsupportedTopology
      end
  end.

Definition snapshot_validated_source (host : NativePlatform) (source : NativeMemorySource)
    (answer : PathAnswer) : result SnapshotError ObservedSnapshot :=
  let? _ := decode_path host (ms_path source) answer in
  match host with
  | Macos => safe_snapshot_macos answer (ml_max_bytes (ms_limits source))
  | Windows => safe_snapshot_windows answer (ml_max_bytes (ms_limits source))
  end.

End snapshot.

(** ** The supervisor *)

Record WatchedSource := {
  ws_source : NativeMemorySource;
  ws_initial_preview_complete : bool;
  ws_baseline : option (option Sha256Digest);
}.

Record PendingReady := {
  pd_ready : ReadyNativeMemory;
  pd_digest : option Sha256Digest;
  pd_stable : option StableObservation;
}.

(** The local variables of [run_supervisor]. *)
Record Watch := {
  wt_sources : gmap (list byte) WatchedSource;
  wt_debounce : DebounceState;
  wt_pending : gmap (list byte) PendingReady;
  wt_in_flight : gset (list byte);
}.

Definition set_watch (w : Watch) (debounce : DebounceState) (pending : gmap (list byte) PendingReady) : Watch :=
  {| wt_sources := wt_sources w; wt_debounce := debounce; wt_pending := pending;
     wt_in_flight := wt_in_flight w |}.

(** Iteration of a [BTreeMap], in the order of its keys. *)
Definition btree_iter {V} (m : gmap (list byte) V) : list (list byte * V) :=
  sort_by_key fst (map_to_list m).

Section watcher.
Context `{Primitives}.

Definition watched_source_from_persisted_ledger (ledger : NativeMemoryLedger)
    : option (NativeMemorySourceId * WatchedSource) :=
  match validate_persisted ledger with
  | Err _ => None
  | Ok source =>
      let managed_digest_is_bound :=
        negb (ms_managed_fence source)
        || bool_decide (nl_last_applied_digest ledger = None)
        || bool_decide (is_Some (nl_last_applied_managed_digest ledger)) in
      Some (ms_id source,
            {| ws_source := source;
               ws_initial_preview_complete := nl_initial_preview_complete ledger;
               ws_baseline := if nl_initial_preview_complete ledger && managed_digest_is_bound
                              then Some (nl_last_observed_digest ledger) else None |})
  end.

(** Collecting into a [BTreeMap]: a later entry replaces an earlier one. *)
Definition watched_sources (ledgers : list NativeMemoryLedger) : gmap (list byte) WatchedSource :=
  foldl (fun m entry => <[entry.1 := entry.2]> m) ∅ (omap watched_source_from_persisted_ledger ledgers).

Definition start (ledgers : list NativeMemoryLedger) : Watch :=
  {| wt_sources := watched_sources ledgers; wt_debounce := ∅; wt_pending := ∅; wt_in_flight := ∅ |}.

Definition replace_registered_sources (w : Watch) (ledgers : list NativeMemoryLedger) : Watch :=
  let replacement := watched_sources ledgers in
  let removed := filter (fun id => replacement !! id = None) (fst <$> btree_iter (wt_sources w)) in
  {| wt_sources := replacement;
     wt_debounce := foldl (fun m id => (invalidate m id).1) (wt_debounce w) removed;
     wt_pending := foldl (fun m id => delete id m) (wt_pending w) removed;
     wt_in_flight := wt_in_flight w |}.

Definition observation_kind (watched : WatchedSource) : NativeMemoryObservationKind :=
  if ws_initial_preview_complete watched then LiveEdit else InitialPreview.

(** One source of a scan. *)
Definition scan_source (host : NativePlatform) (files : NativeMemorySource -> PathAnswer) (now_ms : N)
    (w : Watch) (entry : NativeMemorySourceId * WatchedSource) : Watch :=
  let (source_id, watched) := entry in
  if bool_decide (source_id ∈ wt_in_flight w) then w else
  match snapshot_validated_source host (ws_source watched) (files (ws_source watched)) with
  | Err _ =>
      if bool_decide (is_Some (wt_pending w !! source_id)) then w
      else set_watch w (invalidate (wt_debounce w) source_id).1 (wt_pending w)
  | Ok observed =>
      let pending := match wt_pending w !! source_id with
                     | Some ready => if bool_decide (pd_digest ready = os_digest observed)
                                     then wt_pending w else delete source_id (wt_pending w)
                     | None => wt_pending w
                     end in
      if ws_initial_preview_complete watched
         && bool_decide (ws_baseline watched = Some (os_digest observed))
      then set_watch w (wt_debounce w) pending else
      let (debounce, stable) := observe (wt_debounce w) source_id (os_digest observed) now_ms in
      match stable with
      | Some stable =>
          set_watch w debounce
            (<[source_id := {| pd_ready := {| rn_source := ws_source watched;
                                              rn_snapshot := os_snapshot observed;
                                              rn_kind := observation_kind watched |};
                               pd_digest := os_digest observed;
                               pd_stable := Some stable |}]> pending)
      | None => set_watch w debounce pending
      end
  end.

Definition scan_sources (host : NativePlatform) (files : NativeMemorySource -> PathAnswer) (now_ms : N)
    (w : Watch) : Watch :=
  foldl (scan_source host files now_ms) w (btree_iter (wt_sources w)).

(** [submit_pending]: [accepts] is what [try_submit] answers, an error when the worker is
    closed, busy or has a full queue.  The commands submitted, in their order, go to the queue. *)
Definition submit_one (accepts : NativeMemorySourceId -> bool)
    (state : gset (list byte) * list (NativeMemorySourceId * ReadyNativeMemory))
    (entry : NativeMemorySourceId * PendingReady) :=
  let (in_flight, submitted) := state in
  let (source_id, pending) := entry in
  if bool_decide (source_id ∈ in_flight) then state
  else if accepts source_id then ({[source_id]} ∪ in_flight, submitted ++ [(source_id, pd_ready pending)])
  else state.

Definition submit_pending (accepts : NativeMemorySourceId -> bool) (w : Watch)
    : Watch * list (NativeMemorySourceId * ReadyNativeMemory) :=
  let (in_flight, submitted) := foldl (submit_one accepts) (wt_in_flight w, []) (btree_iter (wt_pending w)) in
  ({| wt_sources := wt_sources w; wt_debounce := wt_debounce w; wt_pending := wt_pending w;
      wt_in_flight := in_flight |}, submitted).

(** A response of the worker, in [run_supervisor]. *)
Definition complete (w : Watch) (source_id : NativeMemorySourceId) (succeeded : bool) : Watch :=
  let in_flight := wt_in_flight w ∖ {[source_id]} in
  match (if succeeded then wt_pending w !! source_id else None) with
  | None => {| wt_sources := wt_sources w; wt_debounce := wt_debounce w; wt_pending := wt_pending w;
               wt_in_flight := in_flight |}
  | Some ready =>
      {| wt_sources := alter (fun source =>
           {| ws_source := ws_source source; ws_initial_preview_complete := true;
              ws_baseline := Some (pd_digest ready) |}) source_id (wt_sources w);
         wt_debounce := match pd_stable ready with
                        | Some stable => (acknowledge (wt_debounce w) stable).1
                        | None => wt_debounce w
                        end;
         wt_pending := delete source_id (wt_pending w);
         wt_in_flight := in_flight |}
  end.
End watcher.

(** ** The supervisor, the worker and the channels between them *)

Record Daemon := {
  dm_watch : Watch;
  (** Commands submitted and not yet executed, oldest first. *)
  dm_queue : list (NativeMemorySourceId * ReadyNativeMemory);
  (** Responses that the supervisor has not yet seen. *)
  dm_done : list (NativeMemorySourceId * bool);
  (** The value of the update channel, if the supervisor has not yet seen it. *)
  dm_update : option (list NativeMemoryLedger);
  dm_vault : MemoryTables;
}.

Inductive DaemonEvent :=
(** The timer of the supervisor. *)
| Poll (files : NativeMemorySource -> PathAnswer) (accepts : NativeMemorySourceId -> bool) (now_ms : N)
(** The worker executes the next observation. *)
| Work
(** The worker answers the next observation with an error: the vault is locked. *)
| Refused
(** The worker executes an unlock, a harness setup or its rollback, which leaves these tables. *)
| Setup (tables : MemoryTables)
(** The supervisor takes the response at this position. *)
| Completed (position : nat)
(** The supervisor takes the update. *)
| Updated.

Section daemon.
Context `{UuidCrate} `{Primitives} `{RecordJson} `{MemoryJson}.
Variables (host : NativePlatform) (device_id : DeviceId).

(** An event that is not possible leaves the state. *)
Definition daemon_step (d : Daemon) (e : DaemonEvent) : Daemon :=
  match e with
  | Poll files accepts now_ms =>
      let (w, submitted) := submit_pending accepts (scan_sources host files now_ms (dm_watch d)) in
      {| dm_watch := w; dm_queue := dm_queue d ++ submitted; dm_done := dm_done d;
         dm_update := dm_update d; dm_vault := dm_vault d |}
  | Work =>
      match dm_queue d with
      | [] => d
      | (source_id, ready) :: queue =>
          let result := native_memory_observation device_id (dm_vault d) ready in
          {| dm_watch := dm_watch d; dm_queue := queue;
             dm_done := dm_done d ++ [(source_id, is_ok result)]; dm_update := dm_update d;
             dm_vault := match result with Ok t => t | Err _ => dm_vault d end |}
      end
  | Refused =>
      match dm_queue d with
      | [] => d
      | (source_id, _) :: queue =>
          {| dm_watch := dm_watch d; dm_queue := queue; dm_done := dm_done d ++ [(source_id, false)];
             dm_update := dm_update d; dm_vault := dm_vault d |}
      end
  | Setup tables =>
      {| dm_watch := dm_watch d; dm_queue := dm_queue d; dm_done := dm_done d;
         dm_update := match native_memory_ledgers tables with
                      | Ok ledgers => Some ledgers
                      | Err _ => dm_update d
                      end;
         dm_vault := tables |}
  | Completed position =>
      match dm_done d !! position with
      | None => d
      | Some (source_id, succeeded) =>
          {| dm_watch := complete (dm_watch d) source_id succeeded; dm_queue := dm_queue d;
             dm_done := take position (dm_done d) ++ drop (S position) (dm_done d);
             dm_update := dm_update d; dm_vault := dm_vault d |}
      end
  | Updated =>
      match dm_update d with
      | None => d
      | Some ledgers =>
          {| dm_watch := replace_registered_sources (dm_watch d) ledgers; dm_queue := dm_queue d;
             dm_done := dm_done d; dm_update := None; dm_vault := dm_vault d |}
      end
  end.

(** The daemon after it opened the vault. *)
Definition daemon_start (tables : MemoryTables) (ledgers : list NativeMemoryLedger) : Daemon :=
  {| dm_watch := start ledgers; dm_queue := []; dm_done := []; dm_update := None; dm_vault := tables |}.

Definition daemon_run : Daemon -> list DaemonEvent -> Daemon := foldl daemon_step.

End daemon.
