(* ===== verification/MemoryWatcherFacts.v ===== *)
(** * Native memory: what the watcher guarantees

    A scan concerns one source at a time; the queue, the responses and the pending observations
    agree; and while setups and observations do not overlap, a content the watcher skips is one
    the vault has recorded. *)

From S2P Require Import Prelude Ordering Text Protocol Minicbor CanonicalCbor Domain.
From S2P Require Import SyncPayload Crypto Operation Causal Merge Transport StateSummary.
From S2P Require Import Admission NativeModel NativeTables NativeWal NativeLedger NativeRows.
From S2P Require Import NativeSteps NativeEffects TextSearch MemoryMarkdown SecretText.
From S2P Require Import MemorySource MemoryReconcile MemoryVault MemoryVaultFacts MemoryClaims.
From S2P Require Import MemoryWatcher.

#[local] Open Scope N_scope.

(** ** Iteration *)

Section iteration.
Context {V : Type}.
Implicit Types m : gmap (list byte) V.

Lemma elem_of_btree_iter m k v : (k, v) ∈ btree_iter m <-> m !! k = Some v.
Proof. unfold btree_iter. rewrite sort_by_key_perm. apply elem_of_map_to_list. Qed.

Lemma NoDup_btree_iter m : NoDup (btree_iter m).*1.
Proof. unfold btree_iter. rewrite sort_by_key_perm. apply NoDup_fst_map_to_list. Qed.

Lemma btree_iter_split m k v :
  m !! k = Some v -> exists l1 l2, btree_iter m = l1 ++ ((k, v) :: l2) /\ (k ∉ l1.*1) /\ (k ∉ l2.*1).
Proof.
  intros Hk. apply elem_of_btree_iter in Hk. apply list_elem_of_split in Hk as (l1 & l2 & E).
  exists l1, l2. split; [done|]. pose proof (NoDup_btree_iter m) as Hnd. rewrite E, fmap_app in Hnd.
  apply NoDup_app in Hnd as (_ & H1 & H2). cbn [fmap list_fmap fst] in *. apply NoDup_cons in H2 as [H2 _].
  split; [|done]. intros Hin. apply (H1 k Hin). left.
Qed.

Lemma fst_btree_iter m k : k ∈ (btree_iter m).*1 <-> is_Some (m !! k).
Proof.
  rewrite list_elem_of_fmap. split.
  - intros ([k' v] & -> & Hin). apply elem_of_btree_iter in Hin. eauto.
  - intros [v Hv]. exists (k, v). by rewrite elem_of_btree_iter.
Qed.

End iteration.

Lemma foldl_invariant {A B} (P : A -> Prop) (f : A -> B -> A) (l : list B) (a : A) :
  P a -> (forall a x, x ∈ l -> P a -> P (f a x)) -> P (foldl f a l).
Proof.
  revert a. induction l as [|x l IH]; intros a Ha Hf; simpl; [done|].
  apply IH; [apply Hf; [left|done]|]. intros a' y Hy. apply Hf. by right.
Qed.

Lemma foldl_delete_lookup {V} (m : gmap (list byte) V) (ids : list (list byte)) k :
  foldl (fun m id => delete id m) m ids !! k = if decide (k ∈ ids) then None else m !! k.
Proof.
  revert m. induction ids as [|i ids IH]; intros m; cbn [foldl].
  { by rewrite decide_False by apply not_elem_of_nil. }
  rewrite IH. destruct (decide (k ∈ ids)).
  - by rewrite decide_True by set_solver.
  - destruct (decide (k = i)) as [->|].
    + rewrite decide_True by set_solver. by rewrite lookup_delete_eq.
    + rewrite decide_False by set_solver. by rewrite lookup_delete_ne.
Qed.

(** ** Snapshots *)

Section snapshots.
Context `{Primitives}.

Definition snapshot_digest (s : NativeMemorySnapshot) : option Sha256Digest :=
  match s with Absent => None | Regular b => Some (sha256 b) end.

(** A snapshot states the digest of its bytes, which are within the limit of the source. *)
Lemma snapshot_sound host source answer o :
  snapshot_validated_source host source answer = Ok o ->
  os_digest o = snapshot_digest (os_snapshot o)
  /\ forall b, os_snapshot o = Regular b -> len b <= ml_max_bytes (ms_limits source).
Proof.
  unfold snapshot_validated_source. intros Hs. apply rbind_Ok in Hs as (_u & _ & Hs).
  set (max := ml_max_bytes (ms_limits source)) in *. destruct host; revert Hs.
  - unfold safe_snapshot_windows. destruct (pa_before answer) as [n dev ino| | |]; try done.
    + destruct (max <? n); [done|]. intros Hs. apply rbind_Ok in Hs as (s & _ & Hs).
      destruct (fs_bytes s) as [b|]; [|by injection Hs as <-].
      destruct (N.leb_spec (len b) max); [|done]. injection Hs as <-. split; [done|].
      by intros ? [= <-].
    + by intros [= <-].
  - unfold safe_snapshot_macos. intros Hs. apply rbind_Ok in Hs as (before & _ & Hs).
    destruct (match before with Some _ => _ | None => _ end); [done|].
    apply rbind_Ok in Hs as (s & _ & Hs).
    destruct before as [[[n dev] ino]|], (fs_bytes s) as [b|], (fs_token s) as [[vol obj]|]; try done;
      try (by injection Hs as <-).
    destruct (_ || _) eqn:E in Hs; [done|]. destruct (pa_after answer); try done.
    destruct (_ || _) in Hs; [done|]. injection Hs as <-. split; [done|].
    intros ? [= <-]. apply orb_false_iff in E as [_ E]. apply N.ltb_ge in E. done.
Qed.

End snapshots.

(** ** A scan, source by source *)

Section scan.
Context `{Primitives}.
Implicit Types (w : Watch) (files : NativeMemorySource -> PathAnswer).

Lemma observe_other st id id' d now : id <> id' -> (observe st id d now).1 !! id' = st !! id'.
Proof. apply (debounce_other st (Observed id d now) id'). Qed.

Lemma observe_local st st' id d now :
  st !! id = st' !! id ->
  (observe st id d now).1 !! id = (observe st' id d now).1 !! id
  /\ (observe st id d now).2 = (observe st' id d now).2.
Proof.
  unfold observe. intros ->. destruct (_ || _); cbn [fst snd]; by rewrite !lookup_insert_eq.
Qed.

(** The state of one source. *)
Definition slot w (id : list byte) : option PendingObservation * option PendingReady :=
  (wt_debounce w !! id, wt_pending w !! id).

Lemma scan_source_frame host files now w e :
  wt_sources (scan_source host files now w e) = wt_sources w
  /\ wt_in_flight (scan_source host files now w e) = wt_in_flight w.
Proof.
  destruct e as [id ws]. unfold scan_source. case_bool_decide; [done|].
  destruct (snapshot_validated_source _ _ _) as [o|]; [|by case_bool_decide].
  destruct (_ && _); [done|]. by destruct (observe _ _ _ _) as [db [st|]].
Qed.

Lemma pending_dropped_lookup (m : gmap (list byte) PendingReady) id d i :
  i <> id ->
  match m !! id with
  | Some ready => if bool_decide (pd_digest ready = d) then m else delete id m
  | None => m
  end !! i = m !! i.
Proof. intros. destruct (m !! id); [|done]. case_bool_decide; [done|]. by rewrite lookup_delete_ne. Qed.

Lemma scan_source_other host files now w id ws i :
  i <> id -> slot (scan_source host files now w (id, ws)) i = slot w i.
Proof.
  intros Hne. unfold scan_source, slot. case_bool_decide; [done|].
  destruct (snapshot_validated_source _ _ _) as [o|].
  2:{ case_bool_decide; [done|]. cbn [set_watch wt_debounce wt_pending invalidate fst].
      by rewrite lookup_delete_ne. }
  destruct (_ && _); cbn [set_watch wt_debounce wt_pending]; [by rewrite pending_dropped_lookup|].
  pose proof (observe_other (wt_debounce w) id i (os_digest o) now (not_eq_sym Hne)) as Ho.
  destruct (observe _ _ _ _) as [db [st|]]; cbn [set_watch wt_debounce wt_pending fst] in *;
    rewrite Ho; [rewrite lookup_insert_ne by done|]; by rewrite pending_dropped_lookup.
Qed.

Lemma scan_source_local host files now w w' id ws :
  slot w id = slot w' id -> wt_in_flight w = wt_in_flight w' ->
  slot (scan_source host files now w (id, ws)) id = slot (scan_source host files now w' (id, ws)) id.
Proof.
  intros Es Ef. assert (wt_debounce w !! id = wt_debounce w' !! id
    /\ wt_pending w !! id = wt_pending w' !! id) as [Ed Ep] by (unfold slot in Es; by injection Es).
  unfold scan_source. rewrite <- Ef. case_bool_decide; [done|].
  destruct (snapshot_validated_source _ _ _) as [o|].
  2:{ rewrite <- Ep. case_bool_decide; [done|]. unfold slot. cbn [set_watch wt_debounce wt_pending invalidate fst].
      by rewrite !lookup_delete_eq, Ep. }
  rewrite <- Ep. set (drop := fun m : gmap (list byte) PendingReady =>
    match wt_pending w !! id with
    | Some ready => if bool_decide (pd_digest ready = os_digest o) then m else delete id m
    | None => m
    end). change (match wt_pending w !! id with Some _ => _ | None => wt_pending w end)
      with (drop (wt_pending w)).
  change (match wt_pending w !! id with Some _ => _ | None => wt_pending w' end)
      with (drop (wt_pending w')).
  assert (drop (wt_pending w) !! id = drop (wt_pending w') !! id) as Edrop.
  { unfold drop. destruct (wt_pending w !! id) as [r|] eqn:E; [|congruence].
    case_bool_decide; [congruence|]. by rewrite !lookup_delete_eq. }
  destruct (_ && _); [unfold slot; cbn [set_watch wt_debounce wt_pending]; congruence|].
  destruct (observe_local (wt_debounce w) (wt_debounce w') id (os_digest o) now Ed) as [E1 E2].
  destruct (observe (wt_debounce w) _ _ _) as [db st], (observe (wt_debounce w') _ _ _) as [db' st'].
  cbn [fst snd] in E1, E2. subst st'. destruct st; unfold slot; cbn [set_watch wt_debounce wt_pending].
  - by rewrite E1, !lookup_insert_eq.
  - by rewrite E1, Edrop.
Qed.

Lemma scan_list_frame host files now l w :
  wt_sources (foldl (scan_source host files now) w l) = wt_sources w
  /\ wt_in_flight (foldl (scan_source host files now) w l) = wt_in_flight w.
Proof.
  revert w. induction l as [|e l IH]; intros w; cbn [foldl]; [done|].
  destruct (IH (scan_source host files now w e)) as [-> ->]. apply scan_source_frame.
Qed.

Lemma scan_list_other host files now l w i :
  i ∉ l.*1 -> slot (foldl (scan_source host files now) w l) i = slot w i.
Proof.
  revert w. induction l as [|[id ws] l IH]; intros w Hi; cbn [foldl]; [done|].
  cbn [fmap list_fmap fst] in Hi. rewrite IH by set_solver. apply scan_source_other. set_solver.
Qed.

(** A scan does to each source what looking at that source alone does. *)
Lemma scan_sources_at host files now w id ws :
  wt_sources w !! id = Some ws ->
  slot (scan_sources host files now w) id = slot (scan_source host files now w (id, ws)) id.
Proof.
  intros Hw. unfold scan_sources. destruct (btree_iter_split _ _ _ Hw) as (l1 & l2 & -> & H1 & H2).
  rewrite foldl_app. cbn [foldl]. rewrite scan_list_other by done.
  apply scan_source_local; [by apply scan_list_other|apply scan_list_frame].
Qed.

Lemma scan_sources_unwatched host files now w id :
  wt_sources w !! id = None -> slot (scan_sources host files now w) id = slot w id.
Proof.
  intros Hw. apply scan_list_other. rewrite fst_btree_iter, Hw. by intros [? ?].
Qed.

Lemma scan_sources_frame host files now w :
  wt_sources (scan_sources host files now w) = wt_sources w
  /\ wt_in_flight (scan_sources host files now w) = wt_in_flight w.
Proof. apply scan_list_frame. Qed.

Definition ready_of (ws : WatchedSource) (o : ObservedSnapshot) : ReadyNativeMemory :=
  {| rn_source := ws_source ws; rn_snapshot := os_snapshot o; rn_kind := observation_kind ws |}.

(** A pending observation was pending before, or is what the file holds now. *)
Lemma scan_pending host files now w id p :
  wt_pending (scan_sources host files now w) !! id = Some p ->
  wt_pending w !! id = Some p
  \/ ((id ∉ wt_in_flight w)
      /\ exists ws o, wt_sources w !! id = Some ws
         /\ snapshot_validated_source host (ws_source ws) (files (ws_source ws)) = Ok o
         /\ pd_ready p = ready_of ws o /\ pd_digest p = os_digest o).
Proof.
  destruct (wt_sources w !! id) as [ws|] eqn:Ew.
  2:{ pose proof (scan_sources_unwatched host files now w id Ew) as E. unfold slot in E.
      injection E as _ ->. by left. }
  pose proof (scan_sources_at host files now w id ws Ew) as E. unfold slot in E. injection E as _ ->.
  unfold scan_source. case_bool_decide as Hf; [by left|].
  destruct (snapshot_validated_source _ _ _) as [o|] eqn:Es; [|case_bool_decide; by left].
  assert (forall m : gmap (list byte) PendingReady, wt_pending w = m ->
    match wt_pending w !! id with
    | Some ready => if bool_decide (pd_digest ready = os_digest o) then m else delete id m
    | None => m
    end !! id = Some p -> m !! id = Some p) as Hdrop.
  { intros m ->. destruct (m !! id) eqn:Em; [|congruence]. case_bool_decide; [congruence|].
    by rewrite lookup_delete_eq. }
  specialize (Hdrop _ eq_refl).
  destruct (_ && _); cbn [set_watch wt_pending]; [by left; apply Hdrop|].
  destruct (observe _ _ _ _) as [db [st|]]; cbn [set_watch wt_pending]; [|by left; apply Hdrop].
  rewrite lookup_insert_eq. intros [= <-]. right. split; [done|]. by exists ws, o.
Qed.

Lemma scan_in_flight host files now w id :
  id ∈ wt_in_flight w -> wt_pending (scan_sources host files now w) !! id = wt_pending w !! id.
Proof.
  intros Hf. destruct (wt_sources w !! id) as [ws|] eqn:Ew.
  - pose proof (scan_sources_at host files now w id ws Ew) as E. unfold slot in E. injection E as _ ->.
    unfold scan_source. by rewrite bool_decide_eq_true_2.
  - pose proof (scan_sources_unwatched host files now w id Ew) as E. unfold slot in E. by injection E as _ ->.
Qed.

(** ** Submission *)

Lemma submit_list_spec accepts l flight sub flight' sub' :
  NoDup l.*1 -> foldl (submit_one accepts) (flight, sub) l = (flight', sub') ->
  exists new, sub' = sub ++ new /\ NoDup new.*1
    /\ (forall id, id ∈ new.*1 -> id ∉ flight)
    /\ (forall id, id ∈ flight' <-> id ∈ flight \/ id ∈ new.*1)
    /\ (forall id r, (id, r) ∈ new -> exists p, (id, p) ∈ l /\ r = pd_ready p).
Proof.
  revert flight sub. induction l as [|[i p] l IH]; intros flight sub Hnd; cbn [foldl].
  { intros [= <- <-]. exists []. rewrite app_nil_r. split_and!; [done|constructor|set_solver..]. }
  cbn [fmap list_fmap fst] in Hnd. apply NoDup_cons in Hnd as [Hi Hnd].
  assert (forall sub1, foldl (submit_one accepts) (flight, sub1) l = (flight', sub') ->
    exists new, sub' = sub1 ++ new /\ NoDup new.*1 /\ (forall id, id ∈ new.*1 -> id ∉ flight)
    /\ (forall id, id ∈ flight' <-> id ∈ flight \/ id ∈ new.*1)
    /\ (forall id r, (id, r) ∈ new -> exists p0, (id, p0) ∈ (i, p) :: l /\ r = pd_ready p0)) as Hskip.
  { intros sub1 Hs. destruct (IH _ _ Hnd Hs) as (new & -> & H1 & H2 & H3 & H4). exists new.
    split_and!; try done. intros id r Hin. destruct (H4 id r Hin) as (p0 & ? & ?). exists p0. set_solver. }
  unfold submit_one at 2. case_bool_decide as Hf; [apply Hskip|]. destruct (accepts i); [|apply Hskip].
  intros Hs. destruct (IH _ _ Hnd Hs) as (new & -> & H1 & H2 & H3 & H4).
  exists ((i, pd_ready p) :: new). rewrite <- app_assoc. split; [done|]. cbn [fmap list_fmap fst].
  assert (i ∉ new.*1) as Hinew by (intros Hin; apply H2 in Hin; set_solver).
  split; [by apply NoDup_cons|]. split; [set_solver|]. split; [set_solver|].
  intros id r [E|Hin]%elem_of_cons; [injection E as -> ->; exists p; set_solver|].
  destruct (H4 id r Hin) as (p0 & ? & ?). exists p0. set_solver.
Qed.

Lemma submit_pending_spec accepts w w' sub :
  submit_pending accepts w = (w', sub) ->
  wt_sources w' = wt_sources w /\ wt_debounce w' = wt_debounce w /\ wt_pending w' = wt_pending w
  /\ NoDup sub.*1 /\ (forall id, id ∈ sub.*1 -> id ∉ wt_in_flight w)
  /\ (forall id, id ∈ wt_in_flight w' <-> id ∈ wt_in_flight w \/ id ∈ sub.*1)
  /\ (forall id r, (id, r) ∈ sub -> exists p, wt_pending w !! id = Some p /\ r = pd_ready p).
Proof.
  unfold submit_pending. destruct (foldl _ _ _) as [flight sub1] eqn:E. intros [= <- <-].
  destruct (submit_list_spec _ _ _ _ _ _ (NoDup_btree_iter _) E) as (new & -> & H1 & H2 & H3 & H4).
  cbn [app wt_sources wt_debounce wt_pending wt_in_flight]. split_and!; try done.
  intros id r Hin. destruct (H4 id r Hin) as (p & Hp & ->). apply elem_of_btree_iter in Hp. eauto.
Qed.

End scan.

(** ** Observations and the vault *)

Section vault.
Context `{UuidCrateLaws} `{PrimitivesLaws} `{!RecordJson} `{!MemoryJson} `{!MemoryJsonLaws}.
Implicit Types (t : MemoryTables) (l : NativeMemoryLedger) (source : NativeMemorySource).

(** The vault knows the source under this description. *)
Definition registered t (id : NativeMemorySourceId) source : Prop :=
  exists l, native_memory_ledger t id = Ok (Some l) /\ nl_source l = Some source.

(** The vault has recorded this content of the source. *)
Definition recorded t (id : NativeMemorySourceId) (digest : option Sha256Digest) : Prop :=
  exists l, native_memory_ledger t id = Ok (Some l) /\ nl_last_observed_digest l = digest
    /\ nl_initial_preview_complete l = true.

Lemma native_memory_ledgers_read t ls :
  native_memory_ledgers t = Ok ls ->
  forall l, l ∈ ls -> native_memory_ledger t (nl_source_id l) = Ok (Some l).
Proof.
  unfold native_memory_ledgers. intros Hr. apply rbind_Ok in Hr as (payloads & _ & Hr).
  apply try_map_Ok in Hr. intros l Hl. apply list_elem_of_lookup in Hl as [i Hi].
  destruct (Forall2_lookup_r _ _ _ _ _ Hr Hi) as (p & _ & Hp).
  apply rbind_Ok in Hp as (stored & Hst & Hp). apply ok_or_Ok in Hp as ->.
  pose proof Hst as Hst'. apply native_memory_ledger_inv in Hst' as (_ & -> & _). done.
Qed.

Lemma next_ledger_observed device source l snapshot kind l' candidate :
  next_ledger device source l snapshot kind = Ok (l', candidate) ->
  nl_last_observed_digest l' = snapshot_digest snapshot.
Proof.
  unfold next_ledger. destruct snapshot as [|b]; [by intros [= <- <-]|].
  destruct (reconcile_classified source l b kind) as [dec|e] eqn:Er.
  - apply reconcile_spec in Er as (k & Ha & Hok). apply ad_extract in Ha. apply extract_spec in Ha as (_ & _ & Ef & _).
    intros Hd. destruct dec; simpl in Hd, Hok; [apply rbind_Ok in Hd as (c & _ & Hd)| | |];
      injection Hd as <- <-; simpl; unfold digest in Ef; rewrite <- Ef; naive_solver.
  - destruct (diagnostic_class e); [|done]. by intros [= <- <-].
Qed.

(** What an observation does to the ledgers. *)
Lemma observation_effect device t ready t' :
  native_memory_observation device t ready = Ok t' ->
  let id := ms_id (rn_source ready) in
  (forall id', id' <> id -> native_memory_ledger t' id' = native_memory_ledger t id')
  /\ (forall id' source, registered t id' source -> registered t' id' source)
  /\ (registered t id (rn_source ready) -> recorded t' id (snapshot_digest (rn_snapshot ready))).
Proof.
  cbv zeta. set (id := ms_id (rn_source ready)). unfold native_memory_observation. intros Ho. apply rbind_Ok in Ho as (stored & Hst & Ho).
  apply map_err_Ok in Hst. fold id in Hst.
  assert (negb (match stored ≫= nl_source with
                | Some source => bool_decide (source = rn_source ready) | None => false end) = true ->
          registered t id (rn_source ready) -> False) as Hreg.
  { intros Hn (l & Hl & Hs). rewrite Hl in Hst. injection Hst as <-. cbn [mbind option_bind] in Hn.
    rewrite Hs, bool_decide_eq_true_2 in Hn by done. done. }
  destruct (negb _) eqn:En; [injection Ho as <-; split_and!; naive_solver|].
  destruct stored as [l|]; [|done]. cbn [mbind option_bind] in En.
  destruct (nl_source l) as [s|] eqn:Es; [|done]. apply negb_false_iff, bool_decide_eq_true in En as ->.
  apply rbind_Ok in Ho as ([t1 cand] & Hr & [= <-]).
  assert (typed_memory_source (rn_source ready) = true) as Hs.
  { apply native_memory_ledger_inv in Hst as (Ht & _). unfold typed_ledger in Ht. rewrite Es in Ht.
    cbn [opt_all] in Ht. by wf_inv. }
  apply reconcile_native_memory_inv in Hr as
    (l0 & l' & cd & t2 & c & Hv & Hl & Ht & Hsrc & Hid & Hn & Ht' & Hc & Hcand & Hput & _); [|done].
  destruct (next_ledger_source _ _ _ _ _ _ _ Hn) as (Hid' & Hsrc' & Hpre & _).
  destruct (put_ledger_reads _ _ _ _ Ht' Hc Hput) as [Hread Hother]. rewrite Hid', Hid in Hread, Hother.
  fold id in Hread, Hother.
  assert (forall i, native_memory_ledger t2 i = native_memory_ledger t i) as E2.
  { destruct cd as [cd|]; [|by subst]. apply put_candidate_sources in Hcand as (E & _).
    intros i. unfold native_memory_ledger. by rewrite E. }
  split; [intros i Hi; by rewrite Hother, E2|]. split.
  - intros i s (li & Hli & Hsi). destruct (decide (i = id)) as [->|].
    + exists l'. split; [done|]. rewrite Hst in Hli. injection Hli as <-. congruence.
    + exists li. by rewrite Hother, E2.
  - intros _. exists l'. split_and!; [done| |done]. by apply next_ledger_observed in Hn.
Qed.

(** ** The invariant *)

Variables (host : NativePlatform) (device : DeviceId).
Implicit Types d : Daemon.

Abbreviation sources_of d := (wt_sources (dm_watch d)).
Abbreviation pending_of d := (wt_pending (dm_watch d)).
Abbreviation in_flight_of d := (wt_in_flight (dm_watch d)).

Record watch_inv d : Prop := {
  wi_sources : forall id ws, sources_of d !! id = Some ws -> ms_id (ws_source ws) = id;
  (** Pending observations state what they hold, of a source that is watched. *)
  wi_pending : forall id p, pending_of d !! id = Some p ->
    pd_digest p = snapshot_digest (rn_snapshot (pd_ready p))
    /\ exists ws, sources_of d !! id = Some ws /\ ws_source ws = rn_source (pd_ready p);
  (** One command or response per source in flight. *)
  wi_unique : NoDup ((dm_queue d).*1 ++ (dm_done d).*1);
  wi_flight : forall id, id ∈ in_flight_of d <-> id ∈ (dm_queue d).*1 ++ (dm_done d).*1;
  (** What is pending for a source in flight is what was submitted. *)
  wi_queue : forall id r p, (id, r) ∈ dm_queue d -> pending_of d !! id = Some p -> pd_ready p = r;
  wi_keys : forall id r, (id, r) ∈ dm_queue d -> ms_id (rn_source r) = id;
  wi_done : forall id p, (id, true) ∈ dm_done d -> pending_of d !! id = Some p ->
    recorded (dm_vault d) id (pd_digest p);
  wi_held : forall id ws, id ∈ in_flight_of d -> sources_of d !! id = Some ws ->
    is_Some (pending_of d !! id);
  (** The watcher knows the vault, unless an update waits for it or a response is under way. *)
  wi_registered : dm_update d = None -> forall id ws, sources_of d !! id = Some ws ->
    registered (dm_vault d) id (ws_source ws);
  wi_baseline : dm_update d = None -> forall id ws digest, sources_of d !! id = Some ws ->
    ws_initial_preview_complete ws = true -> ws_baseline ws = Some digest ->
    (id, true) ∉ dm_done d -> recorded (dm_vault d) id digest;
  wi_update : forall ls, dm_update d = Some ls ->
    native_memory_ledgers (dm_vault d) = Ok ls /\ (forall id, (id, true) ∉ dm_done d)
    /\ forall id, id ∈ in_flight_of d -> is_Some (sources_of d !! id);
}.

(** An execution in which setups and observations do not overlap: the worker executes no
    observation while an update waits, a setup finds no observation under way and leaves ledgers
    that load, and an update keeps the description of a source with a pending observation. *)
Definition orderly d (e : DaemonEvent) : Prop :=
  match e with
  | Work => dm_update d = None
  | Setup tables => in_flight_of d = ∅ /\ is_ok (native_memory_ledgers tables) = true
  | Updated =>
      forall ls id ws p, dm_update d = Some ls -> watched_sources ls !! id = Some ws ->
        pending_of d !! id = Some p -> ws_source ws = rn_source (pd_ready p)
  | Poll _ _ _ | Refused | Completed _ => True
  end.

Fixpoint orderly_run d (es : list DaemonEvent) : Prop :=
  match es with
  | [] => True
  | e :: es => orderly d e /\ orderly_run (daemon_step host device d e) es
  end.

(** *** Sources read from the vault *)

Lemma watched_sources_lookup ls id ws :
  watched_sources ls !! id = Some ws ->
  exists l, l ∈ ls /\ watched_source_from_persisted_ledger l = Some (id, ws).
Proof.
  unfold watched_sources.
  assert (forall (es : list (list byte * WatchedSource)) (m : gmap (list byte) WatchedSource),
    foldl (fun m entry => <[entry.1 := entry.2]> m) m es !! id
    = Some ws -> (id, ws) ∈ es \/ m !! id = Some ws) as Hf.
  { induction es as [|[i x] es IH]; intros m; cbn [foldl fst snd]; [by right|].
    intros [Hin|Hin]%IH; [left; by right|]. destruct (decide (i = id)) as [->|].
    - rewrite lookup_insert_eq in Hin. injection Hin as ->. left. left.
    - rewrite lookup_insert_ne in Hin by done. by right. }
  intros [Hin|Hin]%Hf; [|by rewrite lookup_empty in Hin].
  apply list_elem_of_omap in Hin as (l & Hl & E). eauto.
Qed.

Lemma watched_source_inv l id ws :
  watched_source_from_persisted_ledger l = Some (id, ws) ->
  nl_source l = Some (ws_source ws) /\ ms_id (ws_source ws) = id /\ nl_source_id l = id
  /\ ws_initial_preview_complete ws = nl_initial_preview_complete l
  /\ forall digest, ws_baseline ws = Some digest -> nl_last_observed_digest l = digest.
Proof.
  unfold watched_source_from_persisted_ledger. destruct (validate_persisted l) as [s|] eqn:Ev; [|done].
  intros [= <- <-]. cbn [ws_source ws_initial_preview_complete ws_baseline].
  unfold validate_persisted in Ev. apply rbind_Ok in Ev as (s' & Hs%ok_or_Ok & Ev).
  apply rbind_Ok in Ev as (_u & _ & Ev). destruct (negb _) eqn:En in Ev; [done|]. injection Ev as ->.
  apply negb_false_iff, bool_decide_eq_true in En. split_and!; try done.
  intros digest. destruct (_ && _); [|done]. by intros [= <-].
Qed.

Lemma watched_sources_current t ls id ws :
  native_memory_ledgers t = Ok ls -> watched_sources ls !! id = Some ws ->
  ms_id (ws_source ws) = id /\ registered t id (ws_source ws)
  /\ forall digest, ws_initial_preview_complete ws = true -> ws_baseline ws = Some digest -> recorded t id digest.
Proof.
  intros Hls Hw. apply watched_sources_lookup in Hw as (l & Hl & Hw).
  pose proof (native_memory_ledgers_read _ _ Hls l Hl) as Hr.
  apply watched_source_inv in Hw as (Hs & Hid & Hid' & Hc & Hb). rewrite Hid' in Hr.
  split; [done|]. split; [by exists l|]. intros digest Hcomp Hbase. exists l. split_and!; [done|by apply Hb|congruence].
Qed.

Lemma start_inv t ls : native_memory_ledgers t = Ok ls -> watch_inv (daemon_start t ls).
Proof.
  intros Hls. split; simpl; try done; try (intros; by rewrite ?lookup_empty in *); try set_solver.
  - intros id ws Hw. by apply (watched_sources_current t ls).
  - constructor.
  - intros _ id ws Hw. by apply (watched_sources_current t ls).
  - intros _ id ws digest Hw Hc Hb _. by apply (watched_sources_current t ls id ws Hls Hw).
Qed.
(** *** Every orderly event keeps it *)

Lemma poll_inv d files accepts now :
  watch_inv d -> watch_inv (daemon_step host device d (Poll files accepts now)).
Proof.
  intros I. cbn [daemon_step]. set (w := scan_sources host files now (dm_watch d)).
  destruct (scan_sources_frame host files now (dm_watch d)) as [Es Ef]. fold w in Es, Ef.
  destruct (submit_pending accepts w) as [w' sub] eqn:E.
  apply submit_pending_spec in E as (Es' & _ & Ep' & Hnd & Hnew & Hfl & Hsub). rewrite Ef in Hnew, Hfl.
  assert (forall id, id ∈ in_flight_of d -> wt_pending w' !! id = pending_of d !! id) as Hpin.
  { intros id Hin. rewrite Ep'. by apply scan_in_flight. }
  split; cbn [dm_watch dm_queue dm_done dm_update dm_vault]; rewrite ?Es', ?Es.
  - apply (wi_sources _ I).
  - intros id p. rewrite Ep'. intros [Hp|(_ & ws & o & Hw & Ho & Hr & Hd)]%scan_pending;
      [by apply (wi_pending _ I)|].
    rewrite Hr, Hd. split; [apply (snapshot_sound _ _ _ _ Ho)|]. by exists ws.
  - rewrite fmap_app, <- app_assoc. pose proof (wi_unique _ I) as Hu.
    apply NoDup_app in Hu as (Hq & Hqd & Hd). apply NoDup_app. split; [done|]. split.
    + intros id Hid. rewrite elem_of_app. intros [Hs|Hs]; [|by eapply Hqd].
      apply (Hnew id Hs), (wi_flight _ I). set_solver.
    + apply NoDup_app. split_and!; [done| |done]. intros id Hs Hid.
      apply (Hnew id Hs), (wi_flight _ I). set_solver.
  - intros id. rewrite Hfl, fmap_app, (wi_flight _ I). set_solver.
  - intros id r p Hq Hp. apply elem_of_app in Hq as [Hq|Hq].
    + rewrite Hpin in Hp; [by eapply (wi_queue _ I)|]. apply (wi_flight _ I), elem_of_app. left.
      apply list_elem_of_fmap. by exists (id, r).
    + destruct (Hsub id r Hq) as (p' & Hp' & ->). rewrite Ep' in Hp. congruence.
  - intros id r Hq. apply elem_of_app in Hq as [Hq|Hq]; [by apply (wi_keys _ I)|].
    destruct (Hsub id r Hq) as (p & Hp & ->).
    apply scan_pending in Hp as [Hp|(_ & ws & o & Hw & _ & -> & _)]; [|by apply (wi_sources _ I)].
    destruct (wi_pending _ I id p Hp) as (_ & ws & Hw & <-). by apply (wi_sources _ I).
  - intros id p Hd. rewrite Hpin; [by apply (wi_done _ I)|]. apply (wi_flight _ I), elem_of_app. right.
    apply list_elem_of_fmap. by exists (id, true).
  - intros id ws Hin Hw. apply Hfl in Hin as [Hin|Hin].
    + rewrite Hpin by done. by eapply (wi_held _ I).
    + apply list_elem_of_fmap in Hin as ([i r] & -> & Hin). destruct (Hsub i r Hin) as (p & Hp & _).
      rewrite Ep'. eauto.
  - apply (wi_registered _ I).
  - apply (wi_baseline _ I).
  - intros ls Hls. destruct (wi_update _ I ls Hls) as (Hu1 & Hu2 & Hu3). split_and!; [done..|].
    intros id Hin. apply Hfl in Hin as [Hin|Hin]; [by apply Hu3|].
    apply list_elem_of_fmap in Hin as ([i r] & -> & Hin). destruct (Hsub i r Hin) as (p & Hp & _).
    apply scan_pending in Hp as [Hp|(_ & ws & o & Hw & _)]; [|by eauto].
    destruct (wi_pending _ I i p Hp) as (_ & ws & Hw & _). eauto.
Qed.

(** A response joins the queue of responses; the vault may have changed at its source. *)
Lemma respond_inv d id r queue ok t' :
  watch_inv d -> dm_queue d = (id, r) :: queue ->
  (ok = false -> t' = dm_vault d) ->
  (ok = true -> dm_update d = None) ->
  (forall i, i <> id -> native_memory_ledger t' i = native_memory_ledger (dm_vault d) i) ->
  (forall i s, registered (dm_vault d) i s -> registered t' i s) ->
  (ok = true -> forall p, pending_of d !! id = Some p -> recorded t' id (pd_digest p)) ->
  watch_inv {| dm_watch := dm_watch d; dm_queue := queue; dm_done := dm_done d ++ [(id, ok)];
               dm_update := dm_update d; dm_vault := t' |}.
Proof.
  intros I Eq Hsame Hupd Hother Hreg Hrec.
  assert (forall i dg, i <> id -> recorded (dm_vault d) i dg -> recorded t' i dg) as Hkeep.
  { intros i dg Hi (l & Hl & ?). exists l. by rewrite Hother. }
  assert ((id ∉ queue.*1) /\ (id ∉ (dm_done d).*1) /\ NoDup (queue.*1 ++ (dm_done d).*1)) as (Hiq & Hid & Hnd).
  { pose proof (wi_unique _ I) as Hu. rewrite Eq in Hu. cbn [fmap list_fmap fst app] in Hu.
    apply NoDup_cons in Hu as [Hn Hu]. set_solver. }
  assert (forall i b, (i, b) ∈ dm_done d -> i <> id) as Hne.
  { intros i b Hin ->. apply Hid, list_elem_of_fmap. by exists (id, b). }
  split; cbn [dm_watch dm_queue dm_done dm_update dm_vault].
  - apply (wi_sources _ I).
  - apply (wi_pending _ I).
  - rewrite fmap_app. cbn [fmap list_fmap fst]. rewrite app_assoc. apply NoDup_app. split_and!; [done| |by apply NoDup_singleton].
    intros i Hi ->%list_elem_of_singleton. set_solver.
  - intros i. rewrite (wi_flight _ I), Eq, fmap_app. cbn [fmap list_fmap fst app]. set_solver.
  - intros i r' p Hin. apply (wi_queue _ I). rewrite Eq. by right.
  - intros i r' Hin. apply (wi_keys _ I). rewrite Eq. by right.
  - intros i p Hin Hp. apply elem_of_app in Hin as [Hin|Hin].
    + apply Hkeep; [by eapply Hne|]. by apply (wi_done _ I).
    + apply list_elem_of_singleton in Hin. injection Hin as -> <-. by apply Hrec.
  - apply (wi_held _ I).
  - intros Hu i ws Hw. by apply Hreg, (wi_registered _ I).
  - intros Hu i ws dg Hw Hc Hb Hnot. destruct (decide (i = id)) as [->|Hi].
    + destruct ok; [exfalso; set_solver|]. rewrite Hsame by done.
      eapply (wi_baseline _ I); [done..|]. intros Hin. by apply (Hne _ _ Hin).
    + apply Hkeep; [done|]. eapply (wi_baseline _ I); [done..|]. set_solver.
  - intros ls Hls. destruct (wi_update _ I ls Hls) as (Hu1 & Hu2 & Hu3).
    destruct ok; [rewrite Hupd in Hls by done; done|]. rewrite Hsame by done. split_and!; [done| |done].
    intros i Hin. apply (Hu2 i). apply elem_of_app in Hin as [|Hin]; [done|].
    by apply list_elem_of_singleton in Hin.
Qed.

Lemma work_inv d : watch_inv d -> dm_update d = None -> watch_inv (daemon_step host device d Work).
Proof.
  intros I Hu. cbn [daemon_step]. destruct (dm_queue d) as [|[id r] queue] eqn:Eq; [done|].
  destruct (native_memory_observation device (dm_vault d) r) as [t'|e] eqn:Eo; cbn [is_ok].
  2:{ eapply respond_inv; [done..| | | |done]; done. }
  pose proof (observation_effect _ _ _ _ Eo) as (Hother & Hreg & Hrec).
  rewrite (wi_keys _ I id r) in Hother, Hrec by (rewrite Eq; left).
  eapply respond_inv; [done..|intros i Hi; by apply Hother|by apply Hreg|]. intros _ p Hp.
  destruct (wi_pending _ I id p Hp) as (Hd & ws & Hw & Hs).
  assert (pd_ready p = r) as <- by (apply (wi_queue _ I id); [rewrite Eq; left|done]).
  rewrite Hd. apply Hrec. rewrite <- Hs. by apply (wi_registered _ I).
Qed.

Lemma refused_inv d : watch_inv d -> watch_inv (daemon_step host device d Refused).
Proof.
  intros I. cbn [daemon_step]. destruct (dm_queue d) as [|[id r] queue] eqn:Eq; [done|].
  by eapply respond_inv.
Qed.

Lemma setup_inv d t :
  watch_inv d -> in_flight_of d = ∅ -> is_ok (native_memory_ledgers t) = true ->
  watch_inv (daemon_step host device d (Setup t)).
Proof.
  intros I Hf Hok. destruct (native_memory_ledgers t) as [ls|] eqn:El; [|done].
  assert (dm_queue d = [] /\ dm_done d = []) as [Eq Ed].
  { assert (forall id, id ∉ (dm_queue d).*1 ++ (dm_done d).*1) as Hn.
    { intros id. rewrite <- (wi_flight _ I), Hf. set_solver. }
    split; [destruct (dm_queue d) as [|[i ?] ?]|destruct (dm_done d) as [|[i ?] ?]]; try done;
      exfalso; apply (Hn i); rewrite elem_of_app; cbn [fmap list_fmap fst]; set_solver. }
  cbn [daemon_step]. rewrite El.
  split; cbn [dm_watch dm_queue dm_done dm_update dm_vault]; try done; rewrite ?Eq, ?Ed.
  - apply (wi_sources _ I).
  - apply (wi_pending _ I).
  - constructor.
  - rewrite Hf. cbn. set_solver.
  - set_solver.
  - set_solver.
  - set_solver.
  - rewrite Hf. set_solver.
  - intros ls' [= <-]. split; [done|]. rewrite Hf. set_solver.
Qed.

(** Taking one response out. *)
Lemma response_taken d id ok rest :
  watch_inv d -> dm_done d ≡ₚ (id, ok) :: rest ->
  (id ∉ (dm_queue d).*1) /\ NoDup ((dm_queue d).*1 ++ rest.*1)
  /\ (forall i b, (i, b) ∈ rest -> i <> id)
  /\ (forall i b, i <> id -> (i, b) ∈ dm_done d <-> (i, b) ∈ rest)
  /\ (forall i, i ∈ in_flight_of d ∖ {[id]} <-> i ∈ (dm_queue d).*1 ++ rest.*1).
Proof.
  intros I Hperm. pose proof (wi_unique _ I) as Hu. rewrite Hperm in Hu. cbn [fmap list_fmap fst] in Hu.
  rewrite <- Permutation_middle in Hu. apply NoDup_cons in Hu as [Hi Hnd].
  split_and!; [set_solver|done| | |].
  - intros i b Hin ->. apply Hi, elem_of_app. right. apply list_elem_of_fmap. by exists (id, b).
  - intros i b Hne. rewrite Hperm, elem_of_cons. naive_solver.
  - intros i. rewrite elem_of_difference, (wi_flight _ I), Hperm. cbn [fmap list_fmap fst]. set_solver.
Qed.

(** A failure, or a success whose observation is no longer pending. *)
Lemma complete_unmatched d id ok rest :
  watch_inv d -> dm_done d ≡ₚ (id, ok) :: rest ->
  (if ok then pending_of d !! id else None) = None ->
  watch_inv {| dm_watch := complete (dm_watch d) id ok; dm_queue := dm_queue d; dm_done := rest;
               dm_update := dm_update d; dm_vault := dm_vault d |}.
Proof.
  intros I Hperm Ep. destruct (response_taken _ _ _ _ I Hperm) as (Hiq & Hnd & Hne & Hrest & Hfl).
  unfold complete. rewrite Ep.
  split; cbn [dm_watch dm_queue dm_done dm_update dm_vault wt_sources wt_debounce wt_pending wt_in_flight];
    try done; try apply I.
  - intros i p Hin. apply (wi_done _ I). apply Hrest; [by eapply Hne|done].
  - intros i ws Hin. apply (wi_held _ I). set_solver.
  - intros Hu i ws dg Hw Hc Hb Hnot. destruct (decide (i = id)) as [->|Hi].
    + destruct ok.
      * destruct (wi_held _ I id ws) as [p Hp]; [|done|congruence].
        apply (wi_flight _ I). rewrite Hperm. cbn [fmap list_fmap fst]. set_solver.
      * eapply (wi_baseline _ I); [done..|]. rewrite Hperm, elem_of_cons. naive_solver.
    + eapply (wi_baseline _ I); [done..|]. by rewrite Hrest.
  - intros ls Hls. destruct (wi_update _ I ls Hls) as (Hu1 & Hu2 & Hu3). split_and!; [done| |].
    + intros i Hin. apply (Hu2 i). apply Hrest; [by eapply Hne|done].
    + intros i Hin. apply Hu3. set_solver.
Qed.

(** A success of what is pending: the content becomes the baseline. *)
Lemma complete_matched d id p rest :
  watch_inv d -> dm_done d ≡ₚ (id, true) :: rest -> pending_of d !! id = Some p ->
  watch_inv {| dm_watch := complete (dm_watch d) id true; dm_queue := dm_queue d; dm_done := rest;
               dm_update := dm_update d; dm_vault := dm_vault d |}.
Proof.
  intros I Hperm Ep. destruct (response_taken _ _ _ _ I Hperm) as (Hiq & Hnd & Hne & Hrest & Hfl).
  assert (dm_update d = None) as Hu.
  { destruct (dm_update d) as [ls|] eqn:Eu; [|done]. destruct (wi_update _ I ls Eu) as (_ & Hno & _).
    exfalso. apply (Hno id). rewrite Hperm. left. }
  unfold complete. rewrite Ep.
  assert (forall f i ws, alter f id (sources_of d) !! i = Some ws ->
    exists ws0, sources_of d !! i = Some ws0 /\ (ws = if decide (i = id) then f ws0 else ws0)) as Halt.
  { intros f i ws. destruct (decide (i = id)) as [->|Hi].
    - rewrite lookup_alter_eq. intros (ws0 & E & ->)%fmap_Some. eauto.
    - rewrite lookup_alter_ne by done. eauto. }
  split; cbn [dm_watch dm_queue dm_done dm_update dm_vault wt_sources wt_debounce wt_pending wt_in_flight];
    try done; try apply I.
  - intros i ws (ws0 & Hw & ->)%Halt. rewrite <- (wi_sources _ I _ _ Hw). by destruct (decide _).
  - intros i q [Hi Hq]%lookup_delete_Some. destruct (wi_pending _ I i q Hq) as (Hd & ws & Hw & Hs).
    split; [done|]. exists ws. by rewrite lookup_alter_ne.
  - intros i r q Hin [_ Hq]%lookup_delete_Some. by eapply (wi_queue _ I).
  - intros i q Hin [_ Hq]%lookup_delete_Some. apply (wi_done _ I); [|done]. apply Hrest; [by eapply Hne|done].
  - intros i ws Hin (ws0 & Hw & _)%Halt. rewrite lookup_delete_ne by set_solver. eapply (wi_held _ I); [set_solver|done].
  - intros _ i ws (ws0 & Hw & ->)%Halt. assert (ws_source (if decide (i = id) then _ else ws0) = ws_source ws0) as ->
      by (by destruct (decide _)). by apply (wi_registered _ I).
  - intros _ i ws dg (ws0 & Hw & ->)%Halt. destruct (decide (i = id)) as [->|Hi].
    + intros _ [= <-] _. apply (wi_done _ I); [|done]. rewrite Hperm. left.
    + intros Hc Hb Hnot. eapply (wi_baseline _ I); [done..|]. by rewrite Hrest.
  - intros ls Hls. congruence.
Qed.

Lemma completed_inv d position :
  watch_inv d -> watch_inv (daemon_step host device d (Completed position)).
Proof.
  intros I. cbn [daemon_step]. destruct (dm_done d !! position) as [[id ok]|] eqn:Ed; [|done].
  assert (dm_done d ≡ₚ (id, ok) :: (take position (dm_done d) ++ drop (S position) (dm_done d))) as Hperm.
  { rewrite <- (take_drop_middle _ _ _ Ed) at 1. symmetry. apply Permutation_middle. }
  destruct (if ok then pending_of d !! id else None) as [p|] eqn:Ep.
  - destruct ok; [|done]. by eapply complete_matched.
  - by apply complete_unmatched.
Qed.

Lemma replaced_pending (w : Watch) ls id :
  wt_pending (replace_registered_sources w ls) !! id =
  if decide (is_Some (wt_sources w !! id) /\ watched_sources ls !! id = None) then None else wt_pending w !! id.
Proof.
  unfold replace_registered_sources. cbn [wt_pending]. rewrite foldl_delete_lookup.
  set (removed := filter _ _). assert (id ∈ removed <-> is_Some (wt_sources w !! id) /\ watched_sources ls !! id = None) as E.
  { unfold removed. rewrite list_elem_of_filter, fst_btree_iter. tauto. }
  destruct (decide (id ∈ removed)), (decide (_ /\ _)); tauto.
Qed.

Lemma updated_inv d : watch_inv d -> orderly d Updated -> watch_inv (daemon_step host device d Updated).
Proof.
  intros I Ho. cbn [daemon_step]. destruct (dm_update d) as [ls|] eqn:Eu; [|done].
  destruct (wi_update _ I ls Eu) as (Hls & Hno & Hin).
  assert (forall id p, wt_pending (replace_registered_sources (dm_watch d) ls) !! id = Some p ->
    pending_of d !! id = Some p /\ exists ws, watched_sources ls !! id = Some ws) as Hp.
  { intros id p. rewrite replaced_pending. destruct (decide _) as [|Hd]; [done|]. intros Hp. split; [done|].
    destruct (wi_pending _ I id p Hp) as (_ & ws & Hw & _).
    destruct (watched_sources ls !! id) as [ws'|] eqn:E; [by eauto|]. exfalso. apply Hd. eauto. }
  split; cbn [dm_watch dm_queue dm_done dm_update dm_vault].
  - intros id ws Hw. by apply (watched_sources_current (dm_vault d) ls).
  - intros id p [Hpd (ws & Hw)]%Hp. destruct (wi_pending _ I id p Hpd) as [Hd _].
    split; [done|]. exists ws. split; [done|]. by eapply Ho.
  - apply (wi_unique _ I).
  - apply (wi_flight _ I).
  - intros id r p Hq [Hpd _]%Hp. by eapply (wi_queue _ I).
  - apply (wi_keys _ I).
  - intros id p Hd. by apply Hno in Hd.
  - intros id ws Hf Hw. rewrite replaced_pending, decide_False.
    + destruct (Hin id Hf) as [ws0 Hw0]. by eapply (wi_held _ I).
    + intros [_ Hnone]. cbn [replace_registered_sources wt_sources] in Hw. congruence.
  - intros _ id ws Hw. by apply (watched_sources_current (dm_vault d) ls).
  - intros _ id ws dg Hw Hc Hb _. by apply (watched_sources_current (dm_vault d) ls id ws Hls Hw).
  - done.
Qed.

Lemma orderly_step_inv d e : watch_inv d -> orderly d e -> watch_inv (daemon_step host device d e).
Proof.
  intros I Ho. destruct e; [by apply poll_inv|by apply work_inv|by apply refused_inv| |by apply completed_inv|by apply updated_inv].
  destruct Ho. by apply setup_inv.
Qed.

Lemma orderly_run_inv d es : watch_inv d -> orderly_run d es -> watch_inv (daemon_run host device d es).
Proof.
  revert d. induction es as [|e es IH]; intros d I; cbn [orderly_run]; [done|].
  intros [He Hes]. cbn [daemon_run foldl]. apply IH; [by apply orderly_step_inv|done].
Qed.

(** ** What the watcher promises *)

(** C18. The watcher loses no edit: after every orderly sequence of polls, observations executed
    or refused, responses, setups and updates, a poll leaves the content it finds in a file
    either recorded in the vault, or under observation, the debouncer holding that content until
    it has been stable long enough to be submitted.  This holds for every watched source whose
    file can be read, unless an update waits for the watcher or an observation of the source is
    under way. *)
Theorem watcher_loses_nothing (t : MemoryTables) (ls : list NativeMemoryLedger) (es : list DaemonEvent)
    (files : NativeMemorySource -> PathAnswer) (now_ms : N) (id : NativeMemorySourceId)
    (ws : WatchedSource) (o : ObservedSnapshot) :
  native_memory_ledgers t = Ok ls -> orderly_run (daemon_start t ls) es ->
  let d := daemon_run host device (daemon_start t ls) es in
  dm_update d = None -> wt_sources (dm_watch d) !! id = Some ws -> id ∉ wt_in_flight (dm_watch d) ->
  snapshot_validated_source host (ws_source ws) (files (ws_source ws)) = Ok o ->
  (recorded (dm_vault d) id (os_digest o) /\ registered (dm_vault d) id (ws_source ws))
  \/ exists po, wt_debounce (scan_sources host files now_ms (dm_watch d)) !! id = Some po
      /\ po_digest po = os_digest o /\ po_stable_since_ms po <= now_ms.
Proof.
  intros Hls Hes d Hu Hw Hf Ho. assert (watch_inv d) as I by (apply orderly_run_inv; [by apply start_inv|done]).
  pose proof (scan_sources_at host files now_ms (dm_watch d) id ws Hw) as E. unfold slot in E.
  injection E as -> _. unfold scan_source. rewrite bool_decide_eq_false_2 by done. rewrite Ho.
  destruct (_ && _) eqn:Eb.
  - left. apply andb_true_iff in Eb as [Hc Hb]. apply bool_decide_eq_true in Hb.
    split; [|by apply (wi_registered _ I)]. eapply (wi_baseline _ I); [done..|].
    intros Hin. apply Hf, (wi_flight _ I), elem_of_app. right. apply list_elem_of_fmap. by exists (id, true).
  - right. set (st := wt_debounce (dm_watch d)).
    assert (exists po, (observe st id (os_digest o) now_ms).1 !! id = Some po
      /\ po_digest po = os_digest o /\ po_stable_since_ms po <= now_ms) as Hpo.
    { destruct (st !! id) as [q|] eqn:Eq.
      - destruct (observe_cases st id (os_digest o) now_ms q Eq) as [(? & ? & ->)|(_ & -> & _)];
          eexists; (split_and!; [done|done|simpl; lia]).
      - rewrite observe_fresh by done. eexists. split_and!; [done|done|simpl; lia]. }
    by destruct (observe _ _ _ _) as [db [stable|]].
Qed.

(** ** A changed file is recorded *)

Lemma observation_accepted t ready l :
  native_memory_ledger t (ms_id (rn_source ready)) = Ok (Some l) -> nl_source l = Some (rn_source ready) ->
  rn_kind ready = (if nl_initial_preview_complete l then LiveEdit else InitialPreview) ->
  (forall b, rn_snapshot ready = Regular b -> fresh_candidate t (rn_source ready) b) ->
  serialisable device (rn_source ready) l (rn_snapshot ready) (rn_kind ready) ->
  exists t', native_memory_observation device t ready = Ok t'.
Proof.
  intros Hl Hs Hk Hfresh Hser. pose proof (native_memory_ledger_inv _ _ _ Hl) as (Ht & _ & s & Hv).
  assert (typed_memory_source (rn_source ready) = true) as Hts.
  { unfold typed_ledger in Ht. rewrite Hs in Ht. cbn [opt_all] in Ht. by wf_inv. }
  assert (validate_compatible (rn_source ready) = Ok tt) as Hvc.
  { unfold validate_persisted in Hv. rewrite Hs in Hv. cbn [ok_or rbind] in Hv.
    apply rbind_Ok in Hv as ([] & Hv & _). done. }
  assert (ledger_of_source t (rn_source ready) = Ok l) as Hlo.
  { unfold ledger_of_source, vault_result. rewrite Hl. cbn [map_err rbind].
    by rewrite bool_decide_eq_true_2 by done. }
  destruct (next_ledger_total device (rn_source ready) l (rn_snapshot ready) (rn_kind ready)) as (l' & cand & Hn);
    [done|apply (ledger_of_source_inv _ _ _ Hts Hlo)|by intros b sid full un md ck Hb Hk'; apply (Hfresh b Hb _ _ _ _ _ _ _ Hlo Hk')|].
  destruct (store_observation_total _ _ _ _ _ _ _ _ Hts Hvc Hlo Hk Hfresh Hser Hn) as [t' Hst].
  exists t'. unfold native_memory_observation. rewrite Hl. cbn [map_err rbind mbind option_bind]. rewrite Hs.
  rewrite bool_decide_eq_true_2 by done. cbn [negb]. rewrite reconcile_native_memory_eq, Hvc. cbn [map_err rbind].
  rewrite Hlo. cbn [rbind]. rewrite Hn. cbn [rbind]. by rewrite Hst.
Qed.


Lemma btree_iter_singleton {V} k (v : V) : btree_iter {[k := v]} = [(k, v)].
Proof. unfold btree_iter. rewrite map_to_list_singleton. done. Qed.

(** One source is watched and nothing is under way. *)
Record idle d (id : NativeMemorySourceId) (ws : WatchedSource) : Prop := {
  idle_queue : dm_queue d = [];
  idle_done : dm_done d = [];
  idle_sources : sources_of d = {[id := ws]};
  idle_pending : pending_of d = ∅;
  idle_in_flight : in_flight_of d = ∅;
  idle_debounce : wt_debounce (dm_watch d) !! id = None;
}.

(** The content of the source that the files hold is not the one remembered. *)
Definition new_content (files : NativeMemorySource -> PathAnswer) (ws : WatchedSource) (o : ObservedSnapshot) : Prop :=
  snapshot_validated_source host (ws_source ws) (files (ws_source ws)) = Ok o
  /\ ws_initial_preview_complete ws && bool_decide (ws_baseline ws = Some (os_digest o)) = false.

(** The daemon with an observation of the source pending. *)
Definition waiting d (id : NativeMemorySourceId) (ws : WatchedSource) (o : ObservedSnapshot)
    (since : N) (flight : gset (list byte))
    (queue : list (NativeMemorySourceId * ReadyNativeMemory)) (responses : list (NativeMemorySourceId * bool)) : Daemon :=
  {| dm_watch := {| wt_sources := {[id := ws]};
       wt_debounce := <[id := {| po_digest := os_digest o; po_stable_since_ms := since |}]> (wt_debounce (dm_watch d));
       wt_pending := {[id := {| pd_ready := ready_of ws o; pd_digest := os_digest o;
         pd_stable := Some {| so_source_id := id; so_digest := os_digest o; so_stable_since_ms := since |} |}]};
       wt_in_flight := flight |};
     dm_queue := queue; dm_done := responses; dm_update := dm_update d; dm_vault := dm_vault d |}.

(** A scan of a content that has been stable long enough. *)
Lemma stable_scan w id ws files since now o :
  wt_sources w = {[id := ws]} -> wt_in_flight w = ∅ -> new_content files ws o ->
  (forall p, wt_pending w !! id = Some p -> pd_digest p = os_digest o) ->
  wt_debounce w !! id = Some {| po_digest := os_digest o; po_stable_since_ms := since |} ->
  since + NATIVE_MEMORY_DEBOUNCE_MS <= now ->
  scan_sources host files now w =
  set_watch w (wt_debounce w)
    (<[id := {| pd_ready := ready_of ws o; pd_digest := os_digest o;
                pd_stable := Some {| so_source_id := id; so_digest := os_digest o; so_stable_since_ms := since |} |}]>
       (wt_pending w)).
Proof.
  intros Es Ef [Ho Hb] Hp Ed Hle. unfold scan_sources. rewrite Es, btree_iter_singleton.
  cbn [foldl scan_source]. rewrite Ef, Ho. rewrite bool_decide_eq_false_2 by set_solver. rewrite Hb.
  assert (match wt_pending w !! id with
          | Some ready => if bool_decide (pd_digest ready = os_digest o) then wt_pending w else delete id (wt_pending w)
          | None => wt_pending w
          end = wt_pending w) as ->.
  { destruct (wt_pending w !! id) as [p|]; [|done]. by rewrite bool_decide_eq_true_2 by auto. }
  unfold observe. rewrite Ed. cbn [default from_option Datatypes.id po_digest po_stable_since_ms].
  unfold NATIVE_MEMORY_DEBOUNCE_MS in *. rewrite bool_decide_eq_true_2 by done. unfold checked_sub.
  rewrite (proj2 (N.leb_le since now)) by lia. rewrite bool_decide_eq_false_2 by done. cbn [negb orb].
  rewrite (proj2 (N.leb_le 750 (now - since))) by lia. cbn match beta. by rewrite insert_id.
Qed.

Lemma submit_singleton accepts w id p :
  wt_pending w = {[id := p]} -> wt_in_flight w = ∅ -> accepts id = true ->
  submit_pending accepts w =
  ({| wt_sources := wt_sources w; wt_debounce := wt_debounce w; wt_pending := wt_pending w;
      wt_in_flight := {[id]} |}, [(id, pd_ready p)]).
Proof.
  intros Ep Ef Hacc. unfold submit_pending. rewrite Ep, Ef, btree_iter_singleton. cbn [foldl submit_one].
  rewrite bool_decide_eq_false_2 by set_solver. rewrite Hacc. cbn [app]. by rewrite (right_id_L ∅ (∪)).
Qed.

(** The first poll that sees the content, when nothing is under way. *)
Lemma first_poll d id ws files accepts now o :
  idle d id ws -> new_content files ws o ->
  daemon_step host device d (Poll files accepts now) =
  {| dm_watch := {| wt_sources := {[id := ws]};
       wt_debounce := <[id := {| po_digest := os_digest o; po_stable_since_ms := now |}]> (wt_debounce (dm_watch d));
       wt_pending := ∅; wt_in_flight := ∅ |};
     dm_queue := []; dm_done := []; dm_update := dm_update d; dm_vault := dm_vault d |}.
Proof.
  intros [Eq Edn Es Ep Ef Ed] [Ho Hb]. cbn [daemon_step]. unfold scan_sources. rewrite Es, btree_iter_singleton.
  cbn [foldl scan_source]. rewrite Ef, Ep, Ho. rewrite bool_decide_eq_false_2 by set_solver. rewrite lookup_empty, Hb.
  unfold observe. rewrite Ed. cbn [default from_option Datatypes.id po_digest po_stable_since_ms].
  rewrite bool_decide_eq_true_2 by done. unfold checked_sub. rewrite N.leb_refl, bool_decide_eq_false_2 by done.
  cbn [negb orb]. rewrite N.sub_diag. change (NATIVE_MEMORY_DEBOUNCE_MS <=? 0) with false. cbn match beta.
  unfold set_watch, submit_pending. cbn [wt_pending wt_in_flight wt_sources wt_debounce].
  unfold btree_iter. rewrite map_to_list_empty. rewrite Es, Ef, Eq, Edn. done.
Qed.

(** Two polls the debounce interval apart submit the content. *)
Lemma observe_twice d id ws files accepts (t0 t1 : N) o :
  idle d id ws -> new_content files ws o -> accepts id = true -> t0 + NATIVE_MEMORY_DEBOUNCE_MS <= t1 ->
  daemon_run host device d [Poll files accepts t0; Poll files accepts t1]
  = waiting d id ws o t0 {[id]} [(id, ready_of ws o)] [].
Proof.
  intros Hidle Hnew Hacc Hle. unfold daemon_run. cbn [foldl]. rewrite (first_poll _ _ _ _ _ _ _ Hidle Hnew).
  cbn [daemon_step dm_watch dm_queue dm_done dm_update dm_vault].
  rewrite (stable_scan _ id ws files t0 t1 o); [|done|done|done|by intros ?; cbn [wt_pending]; rewrite lookup_empty| |done].
  2:{ cbn [wt_debounce]. by rewrite lookup_insert_eq. }
  unfold set_watch. cbn [wt_pending wt_sources wt_debounce wt_in_flight]. rewrite insert_empty.
  erewrite submit_singleton; [|reflexivity|reflexivity|done]. done.
Qed.

(** A poll that sees the same content submits it again. *)
Lemma poll_again d id ws files accepts since now o :
  new_content files ws o -> accepts id = true -> since + NATIVE_MEMORY_DEBOUNCE_MS <= now ->
  daemon_step host device (waiting d id ws o since ∅ [] []) (Poll files accepts now)
  = waiting d id ws o since {[id]} [(id, ready_of ws o)] [].
Proof.
  intros Hnew Hacc Hle. unfold waiting. cbn [daemon_step dm_watch dm_queue dm_done dm_update dm_vault].
  rewrite (stable_scan _ id ws files since now o); [|done|done|done| | |done].
  - unfold set_watch. cbn [wt_pending wt_sources wt_debounce wt_in_flight]. rewrite insert_singleton_eq.
    erewrite submit_singleton; [|reflexivity|reflexivity|done]. done.
  - intros p. cbn [wt_pending]. rewrite lookup_singleton_eq. by intros [= <-].
  - cbn [wt_debounce]. by rewrite lookup_insert_eq.
Qed.

(** The worker accepts the observation. *)
Lemma accepted_round d id ws o since t' :
  native_memory_observation device (dm_vault d) (ready_of ws o) = Ok t' ->
  let d' := daemon_run host device (waiting d id ws o since {[id]} [(id, ready_of ws o)] []) [Work; Completed 0] in
  idle d' id {| ws_source := ws_source ws; ws_initial_preview_complete := true;
                ws_baseline := Some (os_digest o) |}
  /\ dm_vault d' = t' /\ dm_update d' = dm_update d.
Proof.
  intros Ht' d'. unfold d', daemon_run, waiting.
  cbn [foldl daemon_step dm_queue dm_vault dm_done]. rewrite Ht'. cbn [is_ok app dm_done lookup list_lookup].
  unfold complete. cbn [dm_watch wt_pending wt_sources wt_in_flight wt_debounce dm_vault dm_queue dm_update].
  rewrite lookup_singleton_eq. cbn [pd_digest pd_stable wt_pending wt_sources wt_in_flight wt_debounce].
  split; [|done]. split; cbn [dm_watch dm_queue dm_done wt_pending wt_sources wt_in_flight wt_debounce]; [done..| | | |].
  - by rewrite alter_singleton_eq.
  - by rewrite delete_singleton_eq.
  - apply difference_diag_L.
  - unfold acknowledge. cbn [so_source_id so_digest so_stable_since_ms]. rewrite lookup_insert_eq.
    cbn [po_digest po_stable_since_ms]. rewrite bool_decide_eq_true_2, N.eqb_refl by done. cbn [andb fst].
    by rewrite lookup_delete_eq.
Qed.

(** The worker answers it with an error. *)
Lemma refused_round d id ws o since e :
  native_memory_observation device (dm_vault d) (ready_of ws o) = Err e ->
  daemon_run host device (waiting d id ws o since {[id]} [(id, ready_of ws o)] []) [Work; Completed 0]
  = waiting d id ws o since ∅ [] [].
Proof.
  intros He. unfold daemon_run, waiting. cbn [foldl daemon_step dm_queue dm_vault dm_done]. rewrite He.
  cbn [is_ok app dm_done lookup list_lookup]. unfold complete.
  cbn [dm_watch wt_pending wt_sources wt_in_flight wt_debounce dm_vault dm_queue dm_update take drop app].
  by rewrite difference_diag_L.
Qed.

(** C19. A changed file is recorded: when one source is watched and nothing is under way, the
    vault's ledger of the source agrees with the watcher about the source and its preview, its
    file holds a new content and the queue accepts the source, then two polls that see the
    content the debounce interval apart, the worker's execution and its response leave the
    content recorded in the vault and remembered as the source's baseline, with nothing under
    way.  This is provided that the serialiser writes the new ledger and that a candidate the
    text proposes has an identifier that is not taken: a text typed again after another one was
    imported is refused instead. *)
Theorem edit_is_recorded (d : Daemon) (id : NativeMemorySourceId) (ws : WatchedSource)
    (files : NativeMemorySource -> PathAnswer) (accepts : NativeMemorySourceId -> bool) (t0 t1 : N)
    (o : ObservedSnapshot) (l : NativeMemoryLedger) :
  idle d id ws -> new_content files ws o -> accepts id = true -> t0 + NATIVE_MEMORY_DEBOUNCE_MS <= t1 ->
  ms_id (ws_source ws) = id -> native_memory_ledger (dm_vault d) id = Ok (Some l) ->
  nl_source l = Some (ws_source ws) -> nl_initial_preview_complete l = ws_initial_preview_complete ws ->
  (forall b, os_snapshot o = Regular b -> fresh_candidate (dm_vault d) (ws_source ws) b) ->
  serialisable device (ws_source ws) l (os_snapshot o) (observation_kind ws) ->
  let d' := daemon_run host device d [Poll files accepts t0; Poll files accepts t1; Work; Completed 0] in
  recorded (dm_vault d') id (os_digest o)
  /\ idle d' id {| ws_source := ws_source ws; ws_initial_preview_complete := true;
                   ws_baseline := Some (os_digest o) |}.
Proof.
  intros Hidle Hnew Hacc Hle Hid Hl Hsrc Hc Hfresh Hser d'.
  destruct (observation_accepted (dm_vault d) (ready_of ws o) l) as [t' Ht'];
    [by rewrite <- Hid in Hl|done|by unfold ready_of, observation_kind; rewrite Hc|done|done|].
  pose proof (observation_effect _ _ _ _ Ht') as (_ & _ & Hrec). cbn [ready_of rn_source rn_snapshot] in Hrec.
  rewrite Hid, <- (proj1 (snapshot_sound _ _ _ _ (proj1 Hnew))) in Hrec.
  assert (d' = daemon_run host device (waiting d id ws o t0 {[id]} [(id, ready_of ws o)] []) [Work; Completed 0]) as ->.
  { by rewrite <- (observe_twice d id ws files accepts t0 t1 o). }
  destruct (accepted_round d id ws o t0 t' Ht') as (Hi & -> & _). split; [|done]. apply Hrec. by exists l.
Qed.

End vault.
