(* ===== verification/MemoryRaces.v ===== *)
(** * Native memory: what overlapping work does to the watcher

    The update channel carries ledgers as they were when a setup ended.  An observation that is
    executed between a setup and the update is forgotten by the watcher, and an edit of the file
    is then submitted as a first preview, which the vault refuses for good.  And a content that
    was seen once counts as stable when it returns later, whatever the file held in between. *)

From S2P Require Import Prelude Ordering Text Protocol Minicbor CanonicalCbor Domain.
From S2P Require Import SyncPayload Crypto Operation Causal Merge Transport StateSummary.
From S2P Require Import Admission NativeModel NativeTables NativeWal NativeLedger NativeRows.
From S2P Require Import NativeSteps NativeEffects TextSearch MemoryMarkdown SecretText.
From S2P Require Import MemorySource MemoryReconcile MemoryVault MemoryVaultFacts MemoryClaims.
From S2P Require Import MemoryWatcher MemoryWatcherFacts.

#[local] Open Scope N_scope.

Section races.
Context `{UuidCrateLaws} `{PrimitivesLaws} `{!RecordJson} `{!MemoryJson} `{!MemoryJsonLaws}.
Implicit Types (t : MemoryTables) (l : NativeMemoryLedger) (source : NativeMemorySource) (d : Daemon).
Variables (host : NativePlatform) (device : DeviceId).

(** ** Candidates that state the wrong kind of change *)

Lemma misclassified_rejected source l b kind c k l' kind' existing :
  proposes source l b kind device c k -> nl_last_imported_digest l' = Some (mk_unmanaged_digest k) ->
  kind' <> kind ->
  validate_native_memory_candidate source l' c (change_kind_of kind') existing
  = Err (Validation "native memory candidate does not match its source ledger").
Proof.
  intros Hp Hi Hk. destruct (proposed_reextracts _ _ _ _ _ _ _ Hp) as (k' & Hk' & Hm & Hu).
  unfold validate_native_memory_candidate, memory_validated. rewrite Hi, Hk'. cbn [ok_or map_err rbind].
  rewrite native_memory_identity_spec, bool_decide_eq_false_2 by apply (pr_identity _ _ _ _ _ _ _ Hp).
  cbn [map_err rbind]. rewrite (bool_decide_eq_false_2 (cand_evidence_summary c = _)).
  2:{ rewrite (pr_candidate _ _ _ _ _ _ _ Hp). by destruct kind, kind'. }
  cbn [negb]. by rewrite orb_true_r.
Qed.

(** A first preview of a source whose preview is complete is refused, if it proposes a text the
    vault has not seen. *)
Lemma stale_preview_refused t source l b c k :
  native_memory_ledger t (ms_id source) = Ok (Some l) -> nl_source l = Some source ->
  nl_initial_preview_complete l = true ->
  proposes source l b InitialPreview device c k -> fresh_candidate t source b ->
  serialisable device source l (Regular b) InitialPreview ->
  native_memory_observation device t
    {| rn_source := source; rn_snapshot := Regular b; rn_kind := InitialPreview |} = Err internal.
Proof.
  intros Hl Hs Hc Hp Hfresh Hser. unfold native_memory_observation. cbn [rn_source]. rewrite Hl.
  cbn [map_err rbind mbind option_bind]. rewrite Hs, bool_decide_eq_true_2 by done. cbn [negb].
  pose proof (ad_source _ _ _ _ (pr_admitted _ _ _ _ _ _ _ Hp)) as Hv.
  pose proof (native_memory_ledger_inv _ _ _ Hl) as (Ht & Hid & _).
  assert (typed_memory_source source = true) as Hts.
  { unfold typed_ledger in Ht. rewrite Hs in Ht. cbn [opt_all] in Ht. by wf_inv. }
  assert (ledger_of_source t source = Ok l) as Hlo.
  { unfold ledger_of_source, vault_result. rewrite Hl. cbn [map_err rbind]. by rewrite bool_decide_eq_true_2 by done. }
  destruct (ledger_of_source_inv _ _ _ Hts Hlo) as (_ & _ & _ & Hexp). rewrite Hc in Hexp.
  rewrite reconcile_native_memory_eq. cbn [rn_source rn_snapshot rn_kind]. rewrite Hv. cbn [map_err rbind].
  rewrite Hlo. cbn [rbind]. pose proof (proposes_next _ _ _ _ _ _ _ Hp) as Hn. rewrite Hn. cbn [rbind].
  destruct (Hser _ _ Hn) as [(payload & Hj & _) [pc Hjc]]. set (l' := with_digests _ _ _ _) in *.
  unfold store_observation. rewrite (vault_candidate_fresh _ _ _ _ _ _ _ _ Hp Hlo Hfresh).
  cbn [vault_result map_err rbind]. unfold put_native_memory_candidate, memory_validated.
  assert (validate_persisted l' = Ok source) as ->.
  { unfold validate_persisted, l'. simpl. rewrite Hs. cbn [ok_or rbind]. rewrite Hv. cbn [rbind].
    by rewrite bool_decide_eq_true_2. }
  cbn [map_err rbind]. rewrite Hj. cbn [rbind]. unfold put_candidate.
  assert (MemoryCandidate_validate c = Ok tt) as ->.
  { rewrite (pr_candidate _ _ _ _ _ _ _ Hp). apply native_candidate_valid, (pr_ok _ _ _ _ _ _ _ Hp). }
  cbn [validated map_err rbind]. change (nl_source_id l') with (nl_source_id l). rewrite Hid, Hexp. cbn [rbind].
  rewrite Hjc. cbn [rbind]. unfold resolve_alias.
  destruct (fresh_proposed _ _ _ _ _ _ _ _ Hp Hlo Hfresh) as (_ & Hnone & Halias).
  assert (cand_id c = candidate_identity (ms_id source) (mk_unmanaged_digest k)) as ->
    by by rewrite (pr_candidate _ _ _ _ _ _ _ Hp).
  rewrite Halias. cbn [default from_option Datatypes.id]. rewrite Hnone, bool_decide_eq_true_2 by done. cbn [negb].
  change ChangeLiveEdit with (change_kind_of LiveEdit).
  rewrite (misclassified_rejected source l b InitialPreview c k) by done. done.
Qed.

(** ** A setup that ends while an observation is under way *)

Definition round (files : NativeMemorySource -> PathAnswer) (accepts : NativeMemorySourceId -> bool) (now : N)
    : list DaemonEvent := [Poll files accepts now; Work; Completed 0].

Lemma refused_forever d id ws o since files accepts nows e :
  new_content host files ws o -> accepts id = true ->
  Forall (fun now => since + NATIVE_MEMORY_DEBOUNCE_MS <= now) nows ->
  native_memory_observation device (dm_vault d) (ready_of ws o) = Err e ->
  daemon_run host device (waiting d id ws o since ∅ [] []) (nows ≫= round files accepts)
  = waiting d id ws o since ∅ [] [].
Proof.
  intros Hnew Hacc Hall He. induction Hall as [|now nows Hle _ IH]; [done|].
  rewrite bind_cons. unfold daemon_run in *. rewrite foldl_app. cbn [round foldl].
  rewrite (poll_again host device d id ws files accepts since now o) by done.
  pose proof (refused_round host device d id ws o since e He) as Hr. unfold daemon_run in Hr. cbn [foldl] in Hr.
  rewrite Hr. exact IH.
Qed.

Lemma watched_one l id ws :
  watched_source_from_persisted_ledger l = Some (id, ws) -> watched_sources [l] = {[id := ws]}.
Proof.
  intros Hw. unfold watched_sources. cbn [omap list_omap]. rewrite Hw. cbn [foldl fst snd]. apply insert_empty.
Qed.

Lemma start_idle t l id ws :
  watched_source_from_persisted_ledger l = Some (id, ws) -> idle (daemon_start t [l]) id ws.
Proof.
  intros Hw. split; try done; cbn [daemon_start start dm_watch wt_sources wt_debounce].
  by apply watched_one.
Qed.

Lemma updated_idle d id ws ws' l :
  idle d id ws' -> dm_update d = Some [l] -> watched_source_from_persisted_ledger l = Some (id, ws) ->
  idle (daemon_step host device d Updated) id ws /\ dm_vault (daemon_step host device d Updated) = dm_vault d.
Proof.
  intros [Eq Edn Es Ep Ef Ed] Hu Hw. cbn [daemon_step]. rewrite Hu. split; [|done].
  unfold replace_registered_sources. rewrite (watched_one _ _ _ Hw), Es, btree_iter_singleton. cbn [fmap list_fmap fst].
  rewrite filter_cons_False, filter_nil by (rewrite lookup_singleton_eq; done).
  by split; cbn [dm_queue dm_done dm_watch wt_sources wt_pending wt_in_flight wt_debounce foldl].
Qed.

Lemma daemon_run_app d es es' :
  daemon_run host device d (es ++ es') = daemon_run host device (daemon_run host device d es) es'.
Proof. apply foldl_app. Qed.

Lemma daemon_run_one d e : daemon_run host device d [e] = daemon_step host device d e.
Proof. done. Qed.

Lemma setup_waiting d id ws o since flight queue responses ls :
  native_memory_ledgers (dm_vault d) = Ok ls ->
  daemon_step host device (waiting d id ws o since flight queue responses) (Setup (dm_vault d))
  = waiting {| dm_watch := dm_watch d; dm_queue := dm_queue d; dm_done := dm_done d; dm_update := Some ls;
               dm_vault := dm_vault d |} id ws o since flight queue responses.
Proof. intros Hls. cbn [daemon_step waiting dm_update]. by rewrite Hls. Qed.


(** ** A content that comes and goes *)

(** The debouncer keeps what it was observing while the file holds the recorded content, so a
    content that was seen once is submitted the moment it is seen again, if the debounce interval
    has passed since the first sighting, however briefly it lasts. *)
Theorem flicker_submitted d id ws files base accepts (t0 t1 t2 : N) o ob :
  idle d id ws -> accepts id = true -> new_content host files ws o ->
  ws_initial_preview_complete ws = true -> ws_baseline ws = Some (os_digest ob) ->
  snapshot_validated_source host (ws_source ws) (base (ws_source ws)) = Ok ob ->
  t0 + NATIVE_MEMORY_DEBOUNCE_MS <= t2 ->
  daemon_run host device d [Poll files accepts t0; Poll base accepts t1; Poll files accepts t2]
  = waiting d id ws o t0 {[id]} [(id, ready_of ws o)] [].
Proof.
  intros Hidle Hacc Hnew Hc Hbl Hob Hle. unfold daemon_run. cbn [foldl].
  rewrite (first_poll _ _ _ _ _ _ _ _ _ Hidle Hnew). set (d1 := Build_Daemon _ _ _ _ _).
  assert (daemon_step host device d1 (Poll base accepts t1) = d1) as ->.
  { unfold d1. cbn [daemon_step dm_watch dm_queue dm_done dm_update dm_vault]. unfold scan_sources.
    cbn [wt_sources]. rewrite btree_iter_singleton. cbn [foldl scan_source wt_in_flight wt_pending].
    rewrite Hob. rewrite bool_decide_eq_false_2 by set_solver. rewrite lookup_empty, Hc, Hbl, bool_decide_eq_true_2 by done.
    cbn [andb]. unfold set_watch, submit_pending. cbn [wt_pending wt_in_flight wt_sources wt_debounce].
    unfold btree_iter. by rewrite map_to_list_empty. }
  unfold d1. cbn [daemon_step dm_watch dm_queue dm_done dm_update dm_vault].
  rewrite (stable_scan host _ id ws files t0 t2 o); [|done|done|done|by intros ?; cbn [wt_pending]; rewrite lookup_empty| |done].
  2:{ cbn [wt_debounce]. by rewrite lookup_insert_eq. }
  unfold set_watch. cbn [wt_pending wt_sources wt_debounce wt_in_flight]. rewrite insert_empty.
  erewrite submit_singleton; [|reflexivity|reflexivity|done]. done.
Qed.

End races.
