(* ===== verification/MemoryWitness.v ===== *)
(** * Native memory: the claims at concrete values

    A hash that does not collide on the examples, a stand-in for JSON that satisfies its laws,
    and a Codex memory file observed through several edits. *)

From S2P Require Import Prelude Ordering Text Protocol Minicbor CanonicalCbor Domain.
From S2P Require Import SyncPayload Crypto Operation Causal Merge Transport StateSummary.
From S2P Require Import Admission NativeModel NativeTables NativeWal NativeLedger NativeRows.
From S2P Require Import NativeSteps NativeEffects NativeGeneration NativeInvariant NativeClaims.
From S2P Require Import NativeWitness TextSearch MemoryMarkdown SecretText MemorySource.
From S2P Require Import MemoryReconcile MemoryVault MemoryVaultFacts MemoryClaims.

#[local] Open Scope N_scope.

Module MemoryToy.
Import CountableJson NativeToy.

(** ** A mixing function in place of SHA-256 *)

Definition mix (m : bytes) : bytes :=
  to_be 32 (foldl (fun h b => (h * 65599 + Byte.to_N b + 1) mod 2 ^ 256) 7 m).

Definition mixed : Primitives := {|
  sha256 := mix;
  ed25519_public := @ed25519_public Toy.toy;
  ed25519_sign := @ed25519_sign Toy.toy;
  ed25519_decompress := @ed25519_decompress Toy.toy;
  ed25519_is_weak := @ed25519_is_weak Toy.toy;
  ed25519_verify_strict := @ed25519_verify_strict Toy.toy;
  x25519_public := @x25519_public Toy.toy;
  x25519_diffie_hellman := @x25519_diffie_hellman Toy.toy;
  x25519_was_contributory := @x25519_was_contributory Toy.toy;
  hkdf_expand32 := @hkdf_expand32 Toy.toy;
  xchacha_encrypt := @xchacha_encrypt Toy.toy;
  xchacha_decrypt := @xchacha_decrypt Toy.toy |}.

Lemma mixed_laws : @PrimitivesLaws mixed.
Proof.
  pose proof Toy.toy_laws as [_ L2 L3 L4 L5 L6 L7 L8 L9 L10].
  split; try assumption. intros m. unfold len. change (sha256 m) with (mix m). unfold mix. by rewrite length_to_be.
Qed.

(** ** Prefix-free encodings *)

Class Codec (T : Type) := {
  enc : T -> bytes;
  dec : bytes -> option (T * bytes);
  dec_enc v r : dec (enc v ++ r) = Some (v, r);
}.

Fixpoint dec_pos (b : bytes) : option (positive * bytes) :=
  match b with
  | Byte.x02 :: r => Some (xH, r)
  | Byte.x00 :: b' => '(p, r) ← dec_pos b'; Some (xO p, r)
  | Byte.x01 :: b' => '(p, r) ← dec_pos b'; Some (xI p, r)
  | _ => None
  end.

(** Small types through their numbering. *)
#[export] Instance codec_countable {T} `{Countable T} : Codec T | 10.
Proof.
  refine {| enc v := bits (encode v) ++ [Byte.x02];
            dec b := '(p, r) ← dec_pos b; v ← decode p; Some (v, r) |}.
  intros v r. rewrite <- app_assoc. cbn [app].
  assert (forall p, dec_pos (bits p ++ Byte.x02 :: r) = Some (p, r)) as ->.
  { induction p as [p IH|p IH|]; cbn [bits app dec_pos]; [by rewrite IH..|done]. }
  cbn [mbind option_bind]. by rewrite decode_encode.
Defined.

#[export] Instance codec_option {T} `{Codec T} : Codec (option T) | 0.
Proof.
  refine {| enc o := match o with Some v => Byte.x01 :: enc v | None => [Byte.x00] end;
            dec b := match b with
                     | Byte.x00 :: r => Some (None, r)
                     | _ :: b' => '(v, r) ← dec b'; Some (Some v, r)
                     | [] => None
                     end |}.
  intros [v|] r; [|done]. cbn [app]. by rewrite dec_enc.
Defined.

#[export] Instance codec_pair {A B} `{Codec A, Codec B} : Codec (A * B) | 0.
Proof.
  refine {| enc p := enc p.1 ++ enc p.2;
            dec b := '(x, r) ← dec b; '(y, r') ← dec r; Some ((x, y), r') |}.
  intros [x y] r. cbn [fst snd]. rewrite <- app_assoc, dec_enc. cbn [mbind option_bind]. by rewrite dec_enc.
Defined.

Fixpoint dec_list {T} `{Codec T} (n : nat) (b : bytes) : option (list T * bytes) :=
  match n with
  | O => Some ([], b)
  | S n' => '(v, r) ← dec b; '(l, r') ← dec_list n' r; Some (v :: l, r')
  end.

#[export] Instance codec_list {T} `{Codec T} : Codec (list T) | 0.
Proof.
  refine {| enc l := enc (N.of_nat (length l)) ++ (l ≫= enc);
            dec b := '(n, r) ← dec b; dec_list (N.to_nat n) r |}.
  intros l r. rewrite <- app_assoc, dec_enc. cbn [mbind option_bind]. rewrite Nat2N.id.
  induction l as [|v l IH]; [done|]. cbn [length dec_list]. rewrite bind_cons, <- app_assoc, dec_enc.
  cbn [mbind option_bind]. by rewrite IH.
Defined.

Definition codec_iso {A B} `{Codec B} (f : A -> B) (g : B -> A) (fg : forall x, g (f x) = x) : Codec A.
Proof.
  refine {| enc v := enc (f v); dec b := '(w, r) ← dec b; Some (g w, r) |}.
  intros v r. rewrite dec_enc. cbn [mbind option_bind]. by rewrite fg.
Defined.

Definition coded {T} `{Codec T} (typed : T -> bool) : SerdeJson T := {|
  to_vec v := let b := enc v in if len b <? u64_max then Some (Byte.x7b :: b) else None;
  from_slice b := match b with
                  | _ :: b' => match dec b' with
                               | Some (v, []) => if typed v : bool then Some v else None
                               | _ => None
                               end
                  | [] => None
                  end |}.

Lemma coded_laws {T} `{Codec T} (typed : T -> bool) : SerdeJsonLaws (coded typed) typed.
Proof.
  split; simpl.
  - intros v b Ht. destruct (N.ltb_spec (len (enc v)) u64_max); [|done].
    intros [= <-]. split; [unfold len in *; simpl; lia|].
    rewrite <- (app_nil_r (enc v)), dec_enc. by rewrite Ht.
  - intros [|x b] v; [done|]. repeat case_match; naive_solver.
Qed.

(** ** The records *)

#[export] Instance clock_codec : Codec HybridLogicalClock :=
  codec_iso (fun x => (physical_ms x, (logical x, node x)))
    (fun '(a, (b, c)) => {| physical_ms := a; logical := b; node := c |}) ltac:(by intros []).
#[export] Instance provenance_codec : Codec Provenance :=
  codec_iso (fun x => (pv_origin_device x, (pv_harness x, (pv_source x, pv_created_hlc x))))
    (fun '(a, (b, (c, d))) => {| pv_origin_device := a; pv_harness := b; pv_source := c;
                                 pv_created_hlc := d |}) ltac:(by intros []).
#[export] Instance memory_codec : Codec MemoryRecord :=
  codec_iso (fun x => (mem_id x, (mem_scope x, (mem_kind x, (mem_title x, (mem_body_markdown x, (mem_tags x,
      (mem_origin x, (mem_provenance x, (mem_revision x, (mem_created_hlc x, (mem_updated_hlc x,
       mem_archived x))))))))))))
    (fun '(a, (b, (c, (d, (e, (f, (g, (h, (i, (j, (k, m))))))))))) =>
       {| mem_id := a; mem_scope := b; mem_kind := c; mem_title := d; mem_body_markdown := e; mem_tags := f;
          mem_origin := g; mem_provenance := h; mem_revision := i; mem_created_hlc := j; mem_updated_hlc := k;
          mem_archived := m |}) ltac:(by intros []).
#[export] Instance candidate_codec : Codec MemoryCandidate :=
  codec_iso (fun x => (cand_id x, (cand_proposed_memory x, (cand_evidence_summary x, (cand_source_harness x,
      cand_state x)))))
    (fun '(a, (b, (c, (d, e)))) =>
       {| cand_id := a; cand_proposed_memory := b; cand_evidence_summary := c; cand_source_harness := d;
          cand_state := e |}) ltac:(by intros []).
#[export] Instance value_codec : Codec WireNativeValue :=
  codec_iso (fun x => (wv_platform x, (wv_bytes x, wv_display x)))
    (fun '(a, (b, c)) => {| wv_platform := a; wv_bytes := b; wv_display := c |}) ltac:(by intros []).
#[export] Instance DocumentKind_countable : Countable NativeMemoryDocumentKind.
Proof.
  refine (inj_countable' (fun x => match x with Agent => 0%nat | UserProfile => 1%nat | Summary => 2%nat
                                         | Topic => 3%nat end)
    (fun n => match n with 0%nat => Agent | 1%nat => UserProfile | 2%nat => Summary | _ => Topic end) _);
    by intros [].
Defined.
#[export] Instance DiagnosticClass_countable : Countable NativeMemoryDiagnosticClass.
Proof.
  refine (inj_countable' (fun x => match x with DInvalidUtf8 => 0%nat | DSensitiveText => 1%nat | DTooLarge => 2%nat
                                         | DMalformedManagedFence => 3%nat | DManagedContentModified => 4%nat end)
    (fun n => match n with 0%nat => DInvalidUtf8 | 1%nat => DSensitiveText | 2%nat => DTooLarge
                      | 3%nat => DMalformedManagedFence | _ => DManagedContentModified end) _); by intros [].
Defined.
#[export] Instance diagnostic_codec : Codec NativeMemoryDiagnostic :=
  codec_iso (fun x => (nd_source_id x, (nd_error_class x, nd_digest x)))
    (fun '(a, (b, c)) => {| nd_source_id := a; nd_error_class := b; nd_digest := c |}) ltac:(by intros []).
#[export] Instance source_codec : Codec NativeMemorySource :=
  codec_iso (fun x => (ms_id x, (ms_harness x, (ms_adapter_version x, (ms_scope x, (ms_document_kind x,
      (ms_path x, ((ml_max_bytes (ms_limits x), ml_max_characters (ms_limits x)), ms_managed_fence x))))))))
    (fun '(a, (b, (c, (d, (e, (f, ((g, g'), h))))))) =>
       {| ms_id := a; ms_harness := b; ms_adapter_version := c; ms_scope := d; ms_document_kind := e;
          ms_path := f; ms_limits := {| ml_max_bytes := g; ml_max_characters := g' |};
          ms_managed_fence := h |}) ltac:(by intros [? ? ? ? ? ? [? ?] ?]).
#[export] Instance ledger_codec : Codec NativeMemoryLedger :=
  codec_iso (fun x => (nl_source_id x, (nl_source x, (nl_last_observed_digest x, (nl_last_unmanaged_digest x,
      (nl_last_imported_digest x, (nl_last_applied_digest x, (nl_last_applied_managed_digest x,
      (nl_last_diagnostic x, nl_initial_preview_complete x)))))))))
    (fun '(a, (b, (c, (d, (e, (f, (g, (h, i)))))))) =>
       {| nl_source_id := a; nl_source := b; nl_last_observed_digest := c; nl_last_unmanaged_digest := d;
          nl_last_imported_digest := e; nl_last_applied_digest := f; nl_last_applied_managed_digest := g;
          nl_last_diagnostic := h; nl_initial_preview_complete := i |}) ltac:(by intros []).

Section instances.
Context `{UuidCrate}.

Definition records : RecordJson := {|
  json_memory := coded typed_memory; json_candidate := coded typed_candidate;
  json_task := json typed_task; json_secret_ref := json typed_secret_ref;
  json_instruction := json typed_instruction; json_component := json typed_component;
  json_project_wire := json (fun w => typed_project (project_of_wire w)) |}.

Lemma coded_records_laws : @RecordJsonLaws _ records.
Proof. split; first [apply json_laws | apply coded_laws]. Qed.

Definition ledgers : MemoryJson := {| json_ledger_wire := coded typed_ledger |}.

Lemma coded_ledgers_laws : MemoryJsonLaws (H0 := ledgers).
Proof. split. apply coded_laws. Qed.

End instances.
End MemoryToy.

Module MemoryWitness.
#[local] Existing Instances rfc9562 rfc9562_laws MemoryToy.mixed MemoryToy.mixed_laws MemoryToy.records
  MemoryToy.coded_records_laws MemoryToy.ledgers MemoryToy.coded_ledgers_laws.

Definition device : DeviceId := Fixture.id.
Definition home : WireNativeValue :=
  {| wv_platform := Macos; wv_bytes := as_bytes (lit "/u/.codex/memory.md"); wv_display := None |}.
Definition new_source : result NativeMemoryError NativeMemorySource :=
  NativeMemorySource_new Codex (lit "1.2") Global Summary home
    {| ml_max_bytes := 4096; ml_max_characters := 4096 |} true.
Definition source : NativeMemorySource := Eval vm_compute in
  match new_source with
  | Ok s => s
  | Err _ => {| ms_id := []; ms_harness := Codex; ms_adapter_version := []; ms_scope := Global;
                ms_document_kind := Summary; ms_path := home;
                ms_limits := {| ml_max_bytes := 0; ml_max_characters := 0 |}; ms_managed_fence := true |}
  end.

Example source_is_new : new_source = Ok source.
Proof. vm_compute. reflexivity. Qed.

Definition empty_vault : MemoryTables :=
  {| mt_sources := ∅; mt_supersessions := ∅; mt_candidates := ∅; mt_aliases := ∅ |}.

Definition ready (text : string) (kind : NativeMemoryObservationKind) : ReadyNativeMemory :=
  {| rn_source := source; rn_snapshot := Regular (as_bytes (lit text)); rn_kind := kind |}.

(** A line feed behind a word. *)
Definition lf : string := String.String (Ascii.ascii_of_nat 10) String.EmptyString.

(** The vault after a first preview and an edit. *)
Definition observe_ok (t : MemoryTables) (r : ReadyNativeMemory) : MemoryTables :=
  match reconcile_native_memory device t r with Ok (t', _) => t' | Err _ => empty_vault end.
Definition first_run : MemoryTables := observe_ok empty_vault (ready ("alpha" ++ lf) InitialPreview).
Definition first_vault : MemoryTables := Eval vm_compute in first_run.
Definition second_run : MemoryTables := observe_ok first_vault (ready ("beta" ++ lf) LiveEdit).
Definition second_vault : MemoryTables := Eval vm_compute in second_run.

Example edits_recorded :
  is_ok (reconcile_native_memory device empty_vault (ready ("alpha" ++ lf) InitialPreview)) = true
  /\ is_ok (reconcile_native_memory device first_vault (ready ("beta" ++ lf) LiveEdit)) = true
  /\ reconcile_native_memory device second_vault (ready "alpha" LiveEdit) = Err operation_conflict.
Proof. split_and!; vm_compute; reflexivity. Qed.

(** The same file under a display name. *)
Definition shown : NativeMemorySource := {|
  ms_id := ms_id source; ms_harness := Codex; ms_adapter_version := lit "1.2"; ms_scope := Global;
  ms_document_kind := Summary;
  ms_path := {| wv_platform := Macos; wv_bytes := wv_bytes home; wv_display := Some (lit "memory") |};
  ms_limits := ms_limits source; ms_managed_fence := true |}.

Lemma source_id_binds_witness :
  (same_location source shown /\ ms_limits source = ms_limits shown
   /\ ms_managed_fence source = ms_managed_fence shown /\ NativeMemorySource_validate shown = Ok tt)
  \/ sha256_collision.
Proof. apply (source_id_binds source shown); vm_compute; reflexivity. Defined.

Definition polls : list DebounceEvent :=
  [Observed [] None 0; Observed [] (Some [Byte.x01]) 250; Observed [] (Some [Byte.x01]) 500].

Lemma debounce_reports_stable_witness :
  is_Some (observe (foldl debounce_step ∅ polls) [] (Some [Byte.x01]) 1000).2.
Proof.
  apply (proj2 (debounce_reports_stable polls [] (Some [Byte.x01]) 1000) 250).
  - exists [Observed [] None 0], [Observed [] (Some [Byte.x01]) 500]. split; [reflexivity|].
    apply Forall_singleton. split; [reflexivity|]. discriminate.
  - intros o Ho. vm_compute in Ho. set_solver.
  - discriminate.
Defined.

Definition alpha : ReadyNativeMemory := ready ("alpha" ++ lf) InitialPreview.

Lemma observation_idempotent_witness :
  reconcile_native_memory device first_vault (ready ("alpha" ++ lf) LiveEdit) = Ok (first_vault, None).
Proof.
  refine (proj1 (observation_idempotent device device empty_vault first_vault alpha
    (ready ("alpha" ++ lf) LiveEdit)
    (match reconcile_native_memory device empty_vault alpha with Ok (_, c) => c | Err _ => None end)
    _ _ _ _)); vm_compute; reflexivity.
Defined.

Definition alpha_candidate : MemoryCandidate := Eval vm_compute in
  match reconcile_native_memory device empty_vault alpha with
  | Ok (_, Some c) => c
  | _ => proposed source [] [] InitialPreview device
  end.

Lemma import_is_user_text_witness :
  cand_state alpha_candidate = Pending
  /\ vault_candidate first_vault (cand_id alpha_candidate) = Ok (Some alpha_candidate).
Proof.
  destruct (import_is_user_text device empty_vault first_vault alpha alpha_candidate)
    as (_ & Hp & _ & _ & Hc & _ & _); [vm_compute; reflexivity..|]. by split.
Defined.

Definition alpha_bytes : bytes := as_bytes (lit ("alpha" ++ lf)).
Definition alpha_next : result ClientError (NativeMemoryLedger * option MemoryCandidate) :=
  next_ledger device source (for_source source) (Regular alpha_bytes) InitialPreview.
Definition from_ok {E A} (d : A) (r : result E A) : A := match r with Ok x => x | Err _ => d end.
Definition alpha_ledger_run : NativeMemoryLedger := (from_ok (for_source source, None) alpha_next).1.
Definition alpha_ledger : NativeMemoryLedger := Eval vm_compute in alpha_ledger_run.
Definition parts_of (b : bytes) : ManagedMarkdown :=
  from_ok {| mk_managed_body := None; mk_unmanaged_body := []; mk_full_digest := [];
             mk_unmanaged_digest := [] |} (extract_managed_markdown b).
Definition alpha_line_parts : ManagedMarkdown := Eval vm_compute in parts_of alpha_bytes.

Lemma ok_pair_inj {E A B} (a a' : A) (b b' : B) : @Ok E _ (a, b) = Ok (a', b') -> a = a' /\ b = b'.
Proof. intros [= -> ->]. done. Qed.

Lemma alpha_next_is :
  next_ledger device source (for_source source) (Regular alpha_bytes) InitialPreview
  = Ok (alpha_ledger, Some alpha_candidate).
Proof. vm_compute. reflexivity. Qed.

Lemma alpha_fresh : fresh_candidate empty_vault source alpha_bytes.
Proof.
  assert (extract_managed_markdown alpha_bytes = Ok alpha_line_parts) as Hp by (vm_compute; reflexivity).
  apply (unseen_fresh _ _ _ alpha_line_parts Hp). split_and!; vm_compute; [discriminate|reflexivity..].
Qed.

Lemma alpha_ledger_json :
  to_json alpha_ledger = Ok (from_ok [] (to_json alpha_ledger)) /\ from_ok [] (to_json alpha_ledger) <> [].
Proof. split; vm_compute; [reflexivity|discriminate]. Qed.

Lemma alpha_candidate_json : to_json alpha_candidate = Ok (from_ok [] (to_json alpha_candidate)).
Proof. vm_compute. reflexivity. Qed.

Lemma alpha_serialisable :
  serialisable device source (for_source source) (Regular alpha_bytes) InitialPreview.
Proof.
  intros l c Hn. rewrite alpha_next_is in Hn.
  apply ok_pair_inj in Hn as [<- <-]. split.
  - exists (from_ok [] (to_json alpha_ledger)). exact alpha_ledger_json.
  - exists (from_ok [] (to_json alpha_candidate)). exact alpha_candidate_json.
Qed.

Lemma observation_succeeds_witness :
  exists t' candidate, reconcile_native_memory device empty_vault alpha = Ok (t', candidate)
    /\ exists l', observation_stored empty_vault source l' candidate t'.
Proof.
  destruct (observation_succeeds device empty_vault alpha (for_source source)) as (t' & c & l' & Hr & _ & Hst).
  - vm_compute; reflexivity.
  - vm_compute; reflexivity.
  - vm_compute; reflexivity.
  - vm_compute; reflexivity.
  - reflexivity.
  - intros b [= <-]. exact alpha_fresh.
  - exact alpha_serialisable.
  - exists t', c. split; [exact Hr|]. exists l'. exact Hst.
Defined.

(** The same text again, without its final newline. *)
Definition retyped : ReadyNativeMemory := ready "alpha" LiveEdit.
Definition beta_run : NativeMemoryLedger :=
  from_ok (for_source source) (ledger_of_source second_vault source).
Definition beta_ledger : NativeMemoryLedger := Eval vm_compute in beta_run.
Definition alpha_parts : ManagedMarkdown := Eval vm_compute in parts_of (as_bytes (lit "alpha")).
Definition retyped_candidate : MemoryCandidate := Eval vm_compute in
  proposed source (mk_unmanaged_digest alpha_parts) (lit "alpha") LiveEdit device.

Lemma retyped_proposes :
  proposes source beta_ledger (as_bytes (lit "alpha")) LiveEdit device retyped_candidate alpha_parts.
Proof.
  split.
  - split; [vm_compute; reflexivity..|vm_compute; discriminate| | |vm_compute; reflexivity].
    + exists (lit "alpha"). split_and!; [vm_compute; reflexivity..|vm_compute; discriminate].
    + done.
  - vm_compute. reflexivity.
  - split; vm_compute; [reflexivity|discriminate].
  - vm_compute. reflexivity.
  - vm_compute. discriminate.
  - vm_compute. reflexivity.
  - vm_compute. discriminate.
  - vm_compute. discriminate.
Qed.

Lemma retyped_text_refused_witness :
  reconcile_native_memory device second_vault retyped = Err operation_conflict.
Proof.
  refine (retyped_text_refused device second_vault retyped beta_ledger (as_bytes (lit "alpha")) alpha_parts
    InitialPreview retyped_candidate alpha_candidate
    (match mt_candidates second_vault !! uuid_hyphenated (cand_id alpha_candidate) with
     | Some row => row
     | None => {| cr_state := ""; cr_payload := [] |}
     end)
    (match to_json retyped_candidate with Ok p => p | Err _ => [] end)
    _ _ _ eq_refl retyped_proposes _ _ _ _ _ _ _ _); try (vm_compute; reflexivity).
  - eexists. vm_compute. reflexivity.
  - split; [vm_compute; reflexivity|vm_compute; discriminate].
  - vm_compute. discriminate.
Defined.

(** ** A secret split by the fence *)

Definition split_secret : bytes :=
  as_bytes (lit "Use bearer") ++ [LF] ++ MANAGED_START ++ [LF] ++ as_bytes (lit "notes") ++ [LF]
  ++ MANAGED_END ++ [LF] ++ as_bytes (lit "abcdefghijklmnop1234") ++ [LF].

Definition split_parts : ManagedMarkdown := Eval vm_compute in parts_of split_secret.
Definition imported_text : rstr := Eval vm_compute in default [] (from_utf8 (mk_unmanaged_body split_parts)).

(** The scan for secrets reads the whole file, the import takes the text around the fence: a
    bearer token whose two words stand on either side of the block is imported, although the
    imported text is secret-like. *)
Lemma split_secret_imported :
  exists full unmanaged,
    reconcile_classified source (for_source source) split_secret InitialPreview
      = Ok (DecidePending (ms_id source) full unmanaged (mk_unmanaged_body split_parts) ChangeInitialPreview)
    /\ from_utf8 (mk_unmanaged_body split_parts) = Some imported_text
    /\ contains_secret_like imported_text = true.
Proof.
  exists (mk_full_digest split_parts), (mk_unmanaged_digest split_parts).
  split_and!; vm_compute; reflexivity.
Qed.

End MemoryWitness.
