(* ===== verification/MemoryWatcherWitness.v ===== *)
(** * Native memory: the watcher at concrete values

    A registered source whose file is previewed and edited, with and without a setup in between. *)

From S2P Require Import Prelude Ordering Text Protocol Minicbor CanonicalCbor Domain.
From S2P Require Import SyncPayload Crypto Operation Causal Merge Transport StateSummary.
From S2P Require Import Admission NativeModel NativeTables NativeWal NativeLedger NativeRows.
From S2P Require Import NativeSteps NativeEffects NativeGeneration NativeInvariant NativeClaims.
From S2P Require Import NativeWitness TextSearch MemoryMarkdown SecretText MemorySource.
From S2P Require Import MemoryReconcile MemoryVault MemoryVaultFacts MemoryClaims MemoryWatcher.
From S2P Require Import MemoryWatcherFacts MemoryRaces MemoryWitness.

#[local] Open Scope N_scope.

Module WatcherWitness.
Import MemoryWitness.
#[local] Existing Instances rfc9562 rfc9562_laws MemoryToy.mixed MemoryToy.mixed_laws MemoryToy.records
  MemoryToy.coded_records_laws MemoryToy.ledgers MemoryToy.coded_ledgers_laws.

(** A file with this text. *)
Definition holding (text : string) : NativeMemorySource -> PathAnswer := fun _ =>
  let b := as_bytes (lit text) in
  {| pa_absolute := true; pa_before := MetaFile (len b) 1 2;
     pa_snapshot := Some {| fs_bytes := Some b; fs_token := Some (1, 2) |}; pa_after := MetaFile (len b) 1 2 |}.
Definition accept_all : NativeMemorySourceId -> bool := fun _ => true.
Definition observed (text : string) : ObservedSnapshot := snapshot_of (as_bytes (lit text)).

(** The source as registered by a setup, and after its preview. *)
Definition new_ledger : NativeMemoryLedger := for_source source.
Definition registered_run : MemoryTables :=
  from_ok empty_vault (put_native_memory_ledger empty_vault new_ledger (from_ok [] (to_json new_ledger))).
Definition registered_vault : MemoryTables := Eval vm_compute in registered_run.
Definition unseen : WatchedSource :=
  {| ws_source := source; ws_initial_preview_complete := false; ws_baseline := None |}.
Definition seen : WatchedSource :=
  {| ws_source := source; ws_initial_preview_complete := true;
     ws_baseline := Some (os_digest (observed ("alpha" ++ lf))) |}.
Definition previewed : Daemon := daemon_start first_vault [alpha_ledger].
Definition edit : list DaemonEvent :=
  [Poll (holding ("beta" ++ lf)) accept_all 0; Poll (holding ("beta" ++ lf)) accept_all 1000; Work; Completed 0].

Lemma first_ledgers : native_memory_ledgers first_vault = Ok [alpha_ledger].
Proof. vm_compute. reflexivity. Qed.

(** *** An edit *)

Definition beta : ObservedSnapshot := Eval vm_compute in observed ("beta" ++ lf).
Definition beta_baseline : WatchedSource :=
  {| ws_source := source; ws_initial_preview_complete := true; ws_baseline := Some (os_digest beta) |}.

Lemma edit_settled :
  wt_in_flight (dm_watch (daemon_run Macos device (daemon_start first_vault [alpha_ledger]) edit)) = ∅
  /\ dm_update (daemon_run Macos device (daemon_start first_vault [alpha_ledger]) edit) = None
  /\ wt_sources (dm_watch (daemon_run Macos device (daemon_start first_vault [alpha_ledger]) edit)) !! ms_id source
     = Some beta_baseline.
Proof. split_and!; vm_compute; reflexivity. Qed.

Lemma edit_orderly : orderly_run Macos device (daemon_start first_vault [alpha_ledger]) edit.
Proof. cbn [orderly_run edit]. split_and!; [exact I|exact I|vm_compute; reflexivity|exact I|exact I]. Qed.

Lemma watcher_loses_nothing_witness :
  (recorded (dm_vault (daemon_run Macos device previewed edit)) (ms_id source) (os_digest beta)
   /\ registered (dm_vault (daemon_run Macos device previewed edit)) (ms_id source) (ws_source beta_baseline))
  \/ exists po, wt_debounce (scan_sources Macos (holding ("beta" ++ lf)) 2000
         (dm_watch (daemon_run Macos device previewed edit))) !! ms_id source = Some po
       /\ po_digest po = os_digest beta /\ po_stable_since_ms po <= 2000.
Proof.
  apply (watcher_loses_nothing Macos device first_vault [alpha_ledger] edit (holding ("beta" ++ lf)) 2000
    (ms_id source) beta_baseline beta first_ledgers edit_orderly (proj1 (proj2 edit_settled))
    (proj2 (proj2 edit_settled))).
  - rewrite (proj1 edit_settled). apply not_elem_of_empty.
  - vm_compute. reflexivity.
Defined.

Lemma previewed_idle : idle previewed (ms_id source) seen.
Proof. apply start_idle. vm_compute. reflexivity. Qed.

Lemma beta_new (ws : WatchedSource) :
  ws_source ws = source -> ws_initial_preview_complete ws && bool_decide (ws_baseline ws = Some (os_digest beta)) = false ->
  new_content Macos (holding ("beta" ++ lf)) ws beta.
Proof. intros Hs Hb. split; [|exact Hb]. rewrite Hs. vm_compute. reflexivity. Qed.

Definition beta_bytes : bytes := Eval vm_compute in as_bytes (lit ("beta" ++ lf)).
Definition beta_parts : ManagedMarkdown := Eval vm_compute in parts_of beta_bytes.

Lemma beta_extracted : extract_managed_markdown beta_bytes = Ok beta_parts.
Proof. vm_compute. reflexivity. Qed.

Lemma beta_fresh : fresh_candidate first_vault source beta_bytes.
Proof.
  apply (unseen_fresh _ _ _ beta_parts beta_extracted).
  split_and!; vm_compute; [discriminate|reflexivity..].
Qed.

(** What observing the new text leads to, as an edit and as a preview. *)
Definition beta_next_run (kind : NativeMemoryObservationKind) :=
  from_ok (alpha_ledger, None) (next_ledger device source alpha_ledger (Regular beta_bytes) kind).
Definition beta_next_ledger : NativeMemoryLedger := Eval vm_compute in (beta_next_run LiveEdit).1.
Definition beta_edit : MemoryCandidate := Eval vm_compute in
  proposed source (mk_unmanaged_digest beta_parts) (lit ("beta" ++ lf)) LiveEdit device.
Definition beta_preview : MemoryCandidate := Eval vm_compute in
  proposed source (mk_unmanaged_digest beta_parts) (lit ("beta" ++ lf)) InitialPreview device.

Lemma beta_next_edit :
  next_ledger device source alpha_ledger (Regular beta_bytes) LiveEdit = Ok (beta_next_ledger, Some beta_edit).
Proof. vm_compute. reflexivity. Qed.

Lemma beta_next_preview :
  next_ledger device source alpha_ledger (Regular beta_bytes) InitialPreview = Ok (beta_next_ledger, Some beta_preview).
Proof. vm_compute. reflexivity. Qed.

Lemma beta_json :
  to_json beta_next_ledger = Ok (from_ok [] (to_json beta_next_ledger))
  /\ from_ok [] (to_json beta_next_ledger) <> []
  /\ to_json beta_edit = Ok (from_ok [] (to_json beta_edit))
  /\ to_json beta_preview = Ok (from_ok [] (to_json beta_preview)).
Proof. split_and!; vm_compute; [reflexivity|discriminate|reflexivity|reflexivity]. Qed.

Lemma beta_serialisable kind : serialisable device source alpha_ledger (Regular beta_bytes) kind.
Proof.
  destruct beta_json as (J1 & J2 & J3 & J4). intros l c Hn.
  destruct kind; [rewrite beta_next_preview in Hn|rewrite beta_next_edit in Hn];
    apply ok_pair_inj in Hn as [<- <-]; (split; [by eexists|by eexists]).
Qed.

Lemma edit_is_recorded_witness :
  recorded (dm_vault (daemon_run Macos device previewed edit)) (ms_id source) (os_digest beta)
  /\ idle (daemon_run Macos device previewed edit) (ms_id source) beta_baseline.
Proof.
  apply (edit_is_recorded Macos device previewed (ms_id source) seen (holding ("beta" ++ lf)) accept_all 0 1000 beta
    alpha_ledger previewed_idle).
  - apply beta_new; [reflexivity|]. vm_compute. reflexivity.
  - reflexivity.
  - discriminate.
  - reflexivity.
  - vm_compute. reflexivity.
  - reflexivity.
  - reflexivity.
  - intros b [= <-]. exact beta_fresh.
  - exact (beta_serialisable LiveEdit).
Defined.

(** *** A setup in between *)

Lemma from_ok_eq {E A} (x : A) (r : result E A) : is_ok r = true -> r = Ok (from_ok x r).
Proof. by destruct r. Qed.

Definition fresh_daemon : Daemon := daemon_start registered_vault [new_ledger].
Definition alpha_seen : ObservedSnapshot := Eval vm_compute in observed ("alpha" ++ lf).
Definition alpha_tables : MemoryTables :=
  from_ok registered_vault (native_memory_observation device (dm_vault fresh_daemon) (ready_of unseen alpha_seen)).

Lemma after_alpha_ok :
  native_memory_observation device (dm_vault fresh_daemon) (ready_of unseen alpha_seen) = Ok alpha_tables.
Proof. apply from_ok_eq. vm_compute. reflexivity. Qed.

Lemma beta_proposes : proposes source alpha_ledger beta_bytes InitialPreview device beta_preview beta_parts.
Proof.
  split.
  - split; [vm_compute; reflexivity..|vm_compute; discriminate| | |exact beta_extracted].
    + exists (lit ("beta" ++ lf)). split_and!; [vm_compute; reflexivity..|vm_compute; discriminate].
    + done.
  - vm_compute. reflexivity.
  - split; vm_compute; [reflexivity|discriminate].
  - vm_compute. reflexivity.
  - vm_compute. discriminate.
  - vm_compute. reflexivity.
  - vm_compute. discriminate.
  - vm_compute. discriminate.
Qed.

Lemma beta_fresh_after : fresh_candidate alpha_tables source beta_bytes.
Proof.
  apply (unseen_fresh _ _ _ beta_parts beta_extracted).
  split_and!; vm_compute; [discriminate|reflexivity..].
Qed.

Lemma alpha_recorded : native_memory_ledger alpha_tables (ms_id source) = Ok (Some alpha_ledger).
Proof. vm_compute. reflexivity. Qed.

Lemma registered_ledgers : native_memory_ledgers registered_vault = Ok [new_ledger].
Proof. vm_compute. reflexivity. Qed.


End WatcherWitness.
