(* ===== verification/RunnerPolicy.v ===== *)
(** * Native runner: stage paths and closed commands
      (native-runner/path_policy.rs, command.rs, lib.rs)

    A sidecar runs in a private stage: the names of the files it may see are [StagePath]s, which
    are portable, stay below the stage and do not alias on either platform; what it may run is
    one of three closed commands, each with the inputs it may be given.  Unicode normalisation
    and case mapping, JSON parsing and the ordinal comparison of Windows are the classes
    [UnicodeTables] and [RunnerHost]. *)

From S2P Require Import Prelude Ordering Text Protocol NativeModel TextSearch SecretText.

#[local] Open Scope N_scope.

(** ** Errors: lib.rs *)

Inductive RunnerError :=
| RCanceled | RInvalidPath | RPathCollision | RUnsupportedTarget | RInvalidCommand | RInvalidStage
| RInvalidEnvironment | RInvalidToolOutput | RInvalidFrame | RFrameTooLarge | RLimitExceeded
| RDigestMismatch | RIo | RInvalidManifest | RSidecarUnavailable | RClosureMismatch
| RMissingMaterial | RUnsafeTopology | RConcurrentChange | RUnsupportedFileType
| RInvalidNativeState.

Inductive RuntimeTarget := WindowsX86_64 | MacosArm64.
Inductive SidecarId := SidecarRuleSync | SidecarGitleaks | SidecarOsemgrep.

(** The unicode-normalization crate and the case mappings of [char]. *)
Class UnicodeTables := {
  nfkc : rstr -> rstr;
  nfd : rstr -> rstr;
  to_lowercase : rchar -> rstr;
  to_uppercase : rchar -> rstr;
}.

(** The host: [CompareStringOrdinal] on Windows, nothing elsewhere; and whether serde_json reads
    a text as an object. *)
Class RunnerHost := {
  compare_ordinal : option (rstr -> rstr -> result RunnerError bool);
  is_json_object : bytes -> bool;
}.

Section policy.
Context `{UnicodeTables} `{RunnerHost}.

(** ** Stage paths *)

Definition MAX_STAGE_PATH_BYTES : N := 1024.
Definition MAX_COMPONENT_BYTES : N := 255.
Definition MAX_COMPONENTS : N := 64.

Definition upper_char (c : rchar) : rchar := if is_ascii_lowercase c then c - 32 else c.
Definition to_ascii_uppercase (s : rstr) : rstr := upper_char <$> s.

Definition slash (c : rchar) : bool := c =? 0x2F.
Definition components_of (path : rstr) : list rstr := split_by slash path.

Definition windows_reserved_name (component : rstr) : bool :=
  let stem := default [] (head (split_by (fun c => c =? 0x2E) component)) in
  let name := to_ascii_uppercase (nfkc stem) in
  bool_decide (name ∈ [lit "CON"; lit "PRN"; lit "AUX"; lit "NUL"; lit "CLOCK$"; lit "CONIN$"; lit "CONOUT$"])
  || existsb (fun prefix =>
       match strip_prefix prefix name with
       | Some suffix => bool_decide (suffix ∈ [lit "1"; lit "2"; lit "3"; lit "4"; lit "5"; lit "6"; lit "7";
                                               lit "8"; lit "9"])
       | None => false
       end) [lit "COM"; lit "LPT"].

Definition bad_component (component : rstr) : bool :=
  bool_decide (component = []) || bool_decide (component ∈ [lit "."; lit ".."])
  || (MAX_COMPONENT_BYTES <? str_len component)
  || match last component with Some c => (c =? 0x2E) || (c =? 0x20) | None => false end
  || windows_reserved_name component.

(** [StagePath::try_from]; a [StagePath] is the string it wraps. *)
Definition StagePath_try_from (value : rstr) : result RunnerError rstr :=
  if bool_decide (value = []) || (MAX_STAGE_PATH_BYTES <? str_len value) || starts_with_char 0x2F value
     || existsb (fun c => (c =? 0x5C) || (c =? 0x3A)) value || existsb is_control value
  then Err RInvalidPath
  else
    let components := components_of value in
    if (MAX_COMPONENTS <? len components) || existsb bad_component components
    then Err RInvalidPath else Ok value.

Definition simple_windows_uppercase (value : rstr) : rstr :=
  (fun c => match to_uppercase c with
            | [] => c
            | [u] => u
            | _ => if c =? 0xDF then 0x1E9E else c
            end) <$> value.

Definition windows_ordinal_ignore_case_eq (left right : rstr) : result RunnerError bool :=
  match compare_ordinal with
  | Some compare => compare left right
  | None => Ok (bool_decide (simple_windows_uppercase left = simple_windows_uppercase right))
  end.

(** [cancelled] answers the calls in turn; [calls] is how many were made. *)
Definition checkpoint (cancelled : nat -> bool) (calls : nat) : result RunnerError nat :=
  if cancelled calls then Err RCanceled else Ok (S calls).

(** [unwrap_or(true)]: what cannot be compared collides. *)
Definition windows_alias_eq (existing alias : rstr) : bool :=
  match windows_ordinal_ignore_case_eq existing alias with Ok b => b | Err _ => true end.

Fixpoint windows_collision (cancelled : nat -> bool) (calls : nat) (alias : rstr) (aliases : list rstr)
    : result RunnerError nat :=
  match aliases with
  | [] => Ok calls
  | existing :: aliases =>
      let? calls := checkpoint cancelled calls in
      if windows_alias_eq existing alias then Err RPathCollision
      else windows_collision cancelled calls alias aliases
  end.

Fixpoint windows_path_set (cancelled : nat -> bool) (calls : nat) (aliases paths : list rstr)
    : result RunnerError unit :=
  match paths with
  | [] => Ok tt
  | path :: paths =>
      let? calls := checkpoint cancelled calls in
      let alias := nfkc path in
      let? calls := windows_collision cancelled calls alias aliases in
      windows_path_set cancelled calls (aliases ++ [alias]) paths
  end.

Definition macos_alias (path : rstr) : rstr := nfd path ≫= to_lowercase.

Fixpoint macos_path_set (cancelled : nat -> bool) (calls : nat) (aliases : gset rstr) (paths : list rstr)
    : result RunnerError unit :=
  match paths with
  | [] => Ok tt
  | path :: paths =>
      let? calls := checkpoint cancelled calls in
      if bool_decide (macos_alias path ∈ aliases) then Err RPathCollision
      else macos_path_set cancelled calls ({[macos_alias path]} ∪ aliases) paths
  end.

Definition validate_path_set_cancellable (target : RuntimeTarget) (paths : list rstr)
    (cancelled : nat -> bool) : result RunnerError unit :=
  let? calls := checkpoint cancelled 0 in
  match target with
  | WindowsX86_64 => windows_path_set cancelled calls [] paths
  | MacosArm64 => macos_path_set cancelled calls ∅ paths
  end.

Definition validate_path_set (target : RuntimeTarget) (paths : list rstr) : result RunnerError unit :=
  validate_path_set_cancellable target paths (fun _ => false).

(** ** Commands *)

Inductive RuleSyncTarget := RsClaudeCode | RsCodexCli.
Inductive RuleSyncFeature :=
| FRules | FIgnore | FMcp | FSubagents | FCommands | FSkills | FHooks | FPermissions | FChecks.

#[global] Instance RuleSyncTarget_eq_dec : EqDecision RuleSyncTarget.
Proof. solve_decision. Defined.
#[global] Instance RuleSyncFeature_eq_dec : EqDecision RuleSyncFeature.
Proof. solve_decision. Defined.

Definition target_code (target : RuleSyncTarget) : N :=
  match target with RsClaudeCode => 0 | RsCodexCli => 1 end.
Definition target_from_code (value : N) : result RunnerError RuleSyncTarget :=
  match value with 0 => Ok RsClaudeCode | 1 => Ok RsCodexCli | _ => Err RInvalidFrame end.
Definition target_argument (target : RuleSyncTarget) : rstr :=
  match target with RsClaudeCode => lit "claudecode" | RsCodexCli => lit "codexcli" end.

Definition ALL_FEATURES : list RuleSyncFeature :=
  [FRules; FIgnore; FMcp; FSubagents; FCommands; FSkills; FHooks; FPermissions; FChecks].
Definition feature_index (feature : RuleSyncFeature) : N :=
  match feature with
  | FRules => 0 | FIgnore => 1 | FMcp => 2 | FSubagents => 3 | FCommands => 4 | FSkills => 5
  | FHooks => 6 | FPermissions => 7 | FChecks => 8
  end.
Definition feature_bit (feature : RuleSyncFeature) : N := N.shiftl 1 (feature_index feature).
Definition feature_argument (feature : RuleSyncFeature) : rstr :=
  match feature with
  | FRules => lit "rules" | FIgnore => lit "ignore" | FMcp => lit "mcp" | FSubagents => lit "subagents"
  | FCommands => lit "commands" | FSkills => lit "skills" | FHooks => lit "hooks"
  | FPermissions => lit "permissions" | FChecks => lit "checks"
  end.

(** [RuleSyncFeatures] is the [u16] it wraps. *)
Definition RuleSyncFeatures_new (features : list RuleSyncFeature) : result RunnerError N :=
  let? bits := try_fold (fun bits feature =>
        if negb (N.land bits (feature_bit feature) =? 0) then Err RInvalidCommand
        else Ok (N.lor bits (feature_bit feature))) 0 features in
  if bits =? 0 then Err RInvalidCommand else Ok bits.

Definition features_contain (bits : N) (feature : RuleSyncFeature) : bool :=
  negb (N.land bits (feature_bit feature) =? 0).

(** [join(",")] *)
Definition join_comma (parts : list rstr) : rstr :=
  match parts with
  | [] => []
  | p :: ps => p ++ (ps ≫= fun q => 0x2C :: q)
  end.

Definition features_argument (bits : N) : rstr :=
  join_comma (feature_argument <$> filter (fun feature => features_contain bits feature) ALL_FEATURES).

Definition VALID_BITS : N := N.shiftl 1 9 - 1.
Definition features_from_bits (bits : N) : result RunnerError N :=
  if (bits =? 0) || negb (N.land bits (N.lxor VALID_BITS u16_max) =? 0) then Err RInvalidFrame else Ok bits.

Inductive SidecarCommand :=
| RuleSyncGenerate (target : RuleSyncTarget) (features : N)
| GitleaksScanPackage
| OsemgrepScanPackage.

Definition SidecarCommand_validate (self : SidecarCommand) : result RunnerError unit :=
  match self with
  | RuleSyncGenerate target features =>
      if features_contain features FChecks
         || (bool_decide (target = RsCodexCli) && features_contain features FIgnore)
      then Err RInvalidCommand else Ok tt
  | GitleaksScanPackage | OsemgrepScanPackage => Ok tt
  end.

Definition sidecar (self : SidecarCommand) : SidecarId :=
  match self with
  | RuleSyncGenerate _ _ => SidecarRuleSync
  | GitleaksScanPackage => SidecarGitleaks
  | OsemgrepScanPackage => SidecarOsemgrep
  end.

Definition template_id (self : SidecarCommand) : rstr :=
  match self with
  | RuleSyncGenerate _ _ => lit "rulesync-generate-v1"
  | GitleaksScanPackage => lit "gitleaks-dir-v1"
  | OsemgrepScanPackage => lit "osemgrep-scan-v1"
  end.

Definition argv (self : SidecarCommand) : list rstr :=
  match self with
  | RuleSyncGenerate target features =>
      [lit "rulesync"; lit "generate"; lit "--targets"; target_argument target; lit "--features";
       features_argument features; lit "--output-roots"; lit "output"; lit "--config"; lit "rulesync.jsonc";
       lit "--input-root"; lit "input"; lit "--silent"]
  | GitleaksScanPackage => lit <$>
      ["gitleaks"; "--no-banner"; "--no-color"; "--log-level=info"; "--redact=100"; "--exit-code=10";
       "--report-format=json"; "--report-path=-"; "--config"; "config/gitleaks.toml";
       "--gitleaks-ignore-path"; "config/gitleaks.empty-ignore"; "--ignore-gitleaks-allow";
       "--max-target-megabytes=0"; "--max-archive-depth=0"; "--max-decode-depth=1"; "--timeout=30";
       "--diagnostics="; "dir"; "--follow-symlinks=false"; "input/gitleaks-scan"]%string
  | OsemgrepScanPackage => lit <$>
      ["semgrep-core"; "-rules"; "config/semgrep/package.yml"; "-targets"; "config/semgrep/targets.json";
       "-json_time"; "-json_nodots"; "-strict"; "-j"; "1"; "-use_parmap"; "-timeout"; "0";
       "-timeout_threshold"; "1"]%string
  end.
Definition normalized_arguments (self : SidecarCommand) : list rstr := drop 1 (argv self).

Definition ends_with (suffix s : rstr) : bool := bool_decide (is_Some (strip_suffix suffix s)).

Definition rulesync_input_feature (relative : rstr) : result RunnerError RuleSyncFeature :=
  if bool_decide (relative = lit ".aiignore") then Ok FIgnore
  else if bool_decide (relative = lit "mcp.json") then Ok FMcp
  else if bool_decide (relative = lit "hooks.json") then Ok FHooks
  else if bool_decide (relative = lit "permissions.json") then Ok FPermissions
  else match split_once [0x2F] relative with
       | Some (directory, child) =>
           if bool_decide (child = []) then Err RInvalidCommand
           else if bool_decide (directory = lit "rules") && ends_with (lit ".md") child then Ok FRules
           else if bool_decide (directory = lit "subagents") && ends_with (lit ".md") child then Ok FSubagents
           else if bool_decide (directory = lit "commands") && ends_with (lit ".md") child then Ok FCommands
           else if bool_decide (directory = lit "skills") && contains_char 0x2F child then Ok FSkills
           else Err RInvalidCommand
       | None => Err RInvalidCommand
       end.

(** The path below a directory, which must not be empty. *)
Definition below (prefix path : rstr) : result RunnerError unit :=
  match strip_prefix prefix path with
  | Some (_ :: _) => Ok tt
  | _ => Err RInvalidCommand
  end.

Definition curated (component : rstr) : bool :=
  bool_decide (nfkc component ≫= to_lowercase = lit ".curated").

Definition validate_input (self : SidecarCommand) (path : rstr) (b : bytes) : result RunnerError unit :=
  match self with
  | RuleSyncGenerate _ features =>
      let? relative := ok_or (strip_prefix (lit "input/.rulesync/") path) RInvalidCommand in
      if existsb curated (components_of relative) then Err RInvalidCommand else
      let? feature := rulesync_input_feature relative in
      if negb (features_contain features feature) || bool_decide (b = []) || bool_decide (from_utf8 b = None)
      then Err RInvalidCommand
      else if bool_decide (feature ∈ [FMcp; FHooks; FPermissions]) && negb (is_json_object b)
      then Err RInvalidCommand else Ok tt
  | GitleaksScanPackage => below (lit "input/gitleaks-scan/payload/") path
  | OsemgrepScanPackage => below (lit "input/semgrep-target/") path
  end.

(** The features that the inputs belong to. *)
Definition present_features (paths : list rstr) : result RunnerError N :=
  try_fold (fun bits path =>
    let? relative := ok_or (strip_prefix (lit "input/.rulesync/") path) RInvalidCommand in
    let? feature := rulesync_input_feature relative in
    Ok (N.lor bits (feature_bit feature))) 0 paths.

Definition validate_inputs (self : SidecarCommand) (paths : list rstr) : result RunnerError unit :=
  let? _ := SidecarCommand_validate self in
  match self with
  | RuleSyncGenerate _ features =>
      let? present := present_features paths in
      if existsb (fun feature => negb (Bool.eqb (features_contain features feature)
                                        (features_contain present feature))) ALL_FEATURES
      then Err RInvalidCommand else Ok tt
  | _ => Ok tt
  end.

Definition validate_rulesync_exit (self : SidecarCommand) (exit_code : Z) (stdout stderr : bytes)
    (output_complete : bool) : result RunnerError unit :=
  match self with
  | RuleSyncGenerate _ _ =>
      if bool_decide (exit_code = 0%Z) && bool_decide (stdout = []) && bool_decide (stderr = []) && output_complete
      then Ok tt else Err RInvalidToolOutput
  | _ => Err RInvalidToolOutput
  end.

End policy.
