(* ===== verification/RunnerFacts.v ===== *)
(** * Native runner: facts about stage paths, path sets and commands

    A stage path resolves strictly below the stage, and to nothing a platform reserves; the
    check of a path set is exactly the absence of aliases, with or without cancellation; the
    wire form of a feature set is a set of features; and the inputs of a RuleSync command are
    exactly of the features it selects. *)

From S2P Require Import Prelude Ordering Text TextSearch SecretText RunnerPolicy.

#[local] Open Scope N_scope.

(** ** Specifications *)

(** Lexical resolution of the components of a path against a directory: the empty component and
    [.] stay, [..] leaves it.  Both separators of Windows separate. *)
Definition resolve_component (directory : list rstr) (component : rstr) : list rstr :=
  if bool_decide (component ∈ [[]; lit "."]) then directory
  else if bool_decide (component = lit "..") then take (length directory - 1) directory
  else directory ++ [component].

Definition resolve (directory : list rstr) (path : rstr) : list rstr :=
  foldl resolve_component directory (split_by (fun c => slash c || (c =? 0x5C)) path).

Section facts.
Context `{UnicodeTables} `{RunnerHost}.

(** No two of the paths have the same alias, as the target's normalisation and comparison of
    names have it.  [ascii_path_sets_exact] relates this to the letters of the names. *)
Definition no_alias (target : RuntimeTarget) (paths : list rstr) : Prop :=
  match target with
  | WindowsX86_64 => ForallOrdPairs (fun p q => windows_alias_eq (nfkc p) (nfkc q) = false) paths
  | MacosArm64 => NoDup (macos_alias <$> paths)
  end.

(** ** Stage paths *)

Lemma StagePath_Ok v p :
  StagePath_try_from v = Ok p <->
  p = v /\ v <> [] /\ str_len v <= MAX_STAGE_PATH_BYTES /\ starts_with_char 0x2F v = false
  /\ forallb (fun c => negb ((c =? 0x5C) || (c =? 0x3A) || is_control c)) v = true
  /\ len (components_of v) <= MAX_COMPONENTS
  /\ Forall (fun c => bad_component c = false) (components_of v).
Proof.
  unfold StagePath_try_from.
  assert (Hs : existsb (fun c => (c =? 0x5C) || (c =? 0x3A)) v = false /\ existsb is_control v = false
    <-> forallb (fun c => negb ((c =? 0x5C) || (c =? 0x3A) || is_control c)) v = true).
  { rewrite forallb_forall, <- !not_true_iff_false, !existsb_exists. split.
    - intros [H1 H2] c Hc. destruct ((c =? 92) || (c =? 58)) eqn:E; [destruct H1; eauto|].
      destruct (is_control c) eqn:E2; [destruct H2; eauto|done].
    - intros Hall. split; intros (c & Hc & E); specialize (Hall c Hc); rewrite E in Hall;
        [done|by rewrite orb_true_r in Hall]. }
  assert (Hb : existsb bad_component (components_of v) = false
    <-> Forall (fun c => bad_component c = false) (components_of v)).
  { rewrite <- not_true_iff_false, existsb_exists, Forall_forall. setoid_rewrite list_elem_of_In.
    split; [|naive_solver congruence]. intros Hn c Hc. apply not_true_iff_false. intros E. eauto. }
  destruct (_ || _) eqn:E1.
  - split; [done|]. intros (_ & Hne & Hl & Hsl & Hch & _). apply Hs in Hch as [H1 H2].
    rewrite H1, H2, Hsl, bool_decide_eq_false_2, (proj2 (N.ltb_ge _ _)) in E1 by done. done.
  - apply orb_false_iff in E1 as [[[[?%bool_decide_eq_false ?%N.ltb_ge]%orb_false_iff ?]%orb_false_iff
      ?]%orb_false_iff ?].
    destruct (_ || _) eqn:E2.
    + split; [done|]. intros (_ & _ & _ & _ & _ & Hn & Hc). apply Hb in Hc.
      rewrite Hc, (proj2 (N.ltb_ge _ _)) in E2 by done. done.
    + apply orb_false_iff in E2 as [?%N.ltb_ge ?%Hb]. split; [|by intros (-> & _)].
      intros [= <-]. split_and!; try done. by apply Hs.
Qed.

Lemma resolve_plain directory cs :
  Forall (fun c => bad_component c = false) cs -> foldl resolve_component directory cs = directory ++ cs.
Proof.
  revert directory. induction cs as [|c cs IH]; intros directory Hc; simpl; [by rewrite app_nil_r|].
  inversion Hc as [|? ? Hb Hcs]; subst. unfold bad_component in Hb.
  repeat apply orb_false_iff in Hb as [Hb ?].
  match goal with E : bool_decide (c ∈ [lit "."; lit ".."]) = false |- _ =>
    apply bool_decide_eq_false in E as Hdots end.
  apply bool_decide_eq_false in Hb.
  unfold resolve_component at 2. rewrite bool_decide_eq_false_2, bool_decide_eq_false_2 by set_solver.
  rewrite IH by done. by rewrite <- app_assoc.
Qed.

Lemma split_by_ext f g (s : rstr) :
  forallb (fun c => Bool.eqb (f c) (g c)) s = true -> split_by f s = split_by g s.
Proof.
  induction s as [|c s IH]; simpl; [done|]. intros [<-%Bool.eqb_prop ?]%andb_true_iff.
  by rewrite IH.
Qed.

(** ** Path sets *)

Lemma windows_collision_plain alias aliases calls :
  windows_collision (fun _ => false) calls alias aliases
  = if bool_decide (Forall (fun e => windows_alias_eq e alias = false) aliases)
    then Ok (length aliases + calls)%nat else Err RPathCollision.
Proof.
  revert calls. induction aliases as [|e aliases IH]; intros calls; [done|].
  cbn [windows_collision checkpoint rbind]. destruct (windows_alias_eq e alias) eqn:E.
  { rewrite bool_decide_eq_false_2; [done|]. inversion 1; congruence. }
  rewrite IH. case_bool_decide as Hall.
  - rewrite bool_decide_eq_true_2 by by constructor. f_equal. simpl. lia.
  - rewrite bool_decide_eq_false_2; [done|]. by inversion 1.
Qed.

Lemma windows_path_set_plain calls seen paths :
  (windows_path_set (fun _ => false) calls (nfkc <$> seen) paths = Ok tt <->
   ForallOrdPairs (fun p q => windows_alias_eq (nfkc p) (nfkc q) = false) paths
   /\ Forall (fun q => Forall (fun p => windows_alias_eq (nfkc p) (nfkc q) = false) seen) paths)
  /\ (windows_path_set (fun _ => false) calls (nfkc <$> seen) paths = Ok tt
      \/ windows_path_set (fun _ => false) calls (nfkc <$> seen) paths = Err RPathCollision).
Proof.
  revert calls seen. induction paths as [|q paths IH]; intros calls seen; simpl.
  { split; [|by left]. split; [|done]. intros _. split; constructor. }
  rewrite windows_collision_plain. case_bool_decide as Hall; cbn [rbind].
  - specialize (IH (length (nfkc <$> seen) + S calls)%nat (seen ++ [q])). rewrite fmap_app in IH.
    destruct IH as [IH IHe]. split; [|exact IHe]. etransitivity; [exact IH|].
    rewrite Forall_fmap in Hall. split.
    + intros [Hp Hs]. split; [constructor; [|done]|constructor; [done|]].
      * eapply Forall_impl; [exact Hs|]. intros r [_ Hr]%Forall_app. by apply Forall_inv in Hr.
      * eapply Forall_impl; [exact Hs|]. by intros r [? _]%Forall_app.
    + intros [Hp Hs]. inversion Hp as [|? ? Hq Hp']; subst. inversion Hs as [|? ? _ Hs']; subst.
      split; [done|]. rewrite Forall_forall in Hq, Hs' |- *. intros r Hr.
      apply Forall_app. split; [by apply Hs'|]. apply Forall_singleton, Hq, Hr.
  - split; [|by right]. split; [done|]. intros [_ Hs]. inversion Hs; subst. destruct Hall.
    by apply Forall_fmap.
Qed.

Lemma macos_path_set_plain calls aliases paths :
  (macos_path_set (fun _ => false) calls aliases paths = Ok tt <->
   NoDup (macos_alias <$> paths) /\ Forall (fun p => macos_alias p ∉ aliases) paths)
  /\ (macos_path_set (fun _ => false) calls aliases paths = Ok tt
      \/ macos_path_set (fun _ => false) calls aliases paths = Err RPathCollision).
Proof.
  revert calls aliases. induction paths as [|p paths IH]; intros calls aliases; simpl.
  { split; [|by left]. split; [|done]. intros _. split; constructor. }
  case_bool_decide as Hin.
  - split; [|by right]. split; [done|]. intros [_ Hs]. by inversion Hs.
  - destruct (IH (S calls) ({[macos_alias p]} ∪ aliases)) as [IH1 IH2]. split; [|exact IH2].
    rewrite IH1. rewrite NoDup_cons, Forall_cons, !Forall_forall, list_elem_of_fmap. split.
    + intros [Hnd Hall]. split_and!; [|done|done|].
      * intros (q & Eq & Hq). specialize (Hall q Hq). set_solver.
      * intros q Hq. specialize (Hall q Hq). set_solver.
    + intros ([Hn Hnd] & _ & Hall). split; [done|]. intros q Hq.
      specialize (Hall q Hq).
      assert (macos_alias q <> macos_alias p) by (intros E; apply Hn; eauto). set_solver.
Qed.

Lemma validate_path_set_Ok target paths : validate_path_set target paths = Ok tt <-> no_alias target paths.
Proof.
  unfold validate_path_set, validate_path_set_cancellable. cbn [checkpoint rbind].
  destruct target; simpl.
  - etransitivity; [apply (windows_path_set_plain 1 [] paths)|]. split; [tauto|].
    intros Hp. split; [done|]. apply Forall_forall. constructor.
  - etransitivity; [apply (macos_path_set_plain 1 ∅ paths)|]. split; [tauto|].
    intros Hp. split; [done|]. apply Forall_forall. set_solver.
Qed.

Lemma validate_path_set_cases target paths :
  validate_path_set target paths = Ok tt \/ validate_path_set target paths = Err RPathCollision.
Proof.
  unfold validate_path_set, validate_path_set_cancellable. cbn [checkpoint rbind].
  destruct target; [apply (windows_path_set_plain 1 [])|apply macos_path_set_plain].
Qed.

(** ** Cancellation: the checks run as without it until the first checkpoint that cancels *)

Section cancellation.
Variable cancelled : nat -> bool.

(** Either a checkpoint cancelled, or the outcome is that of the uninterrupted run. *)
Definition interrupted {A} (r plain : result RunnerError A) : Prop :=
  (r = Err RCanceled /\ exists k, cancelled k = true) \/ r = plain.

Lemma windows_collision_interrupted alias aliases calls :
  interrupted (windows_collision cancelled calls alias aliases)
              (windows_collision (fun _ => false) calls alias aliases).
Proof.
  revert calls. induction aliases as [|e aliases IH]; intros calls; simpl; [by right|].
  unfold checkpoint at 1. destruct (cancelled calls) eqn:E; simpl; [left; eauto|].
  destruct (windows_alias_eq e alias); [by right|apply IH].
Qed.

Lemma windows_path_set_interrupted calls aliases paths :
  interrupted (windows_path_set cancelled calls aliases paths)
              (windows_path_set (fun _ => false) calls aliases paths).
Proof.
  revert calls aliases. induction paths as [|p paths IH]; intros calls aliases; simpl; [by right|].
  unfold checkpoint at 1. destruct (cancelled calls) eqn:E; simpl; [left; eauto|].
  destruct (windows_collision_interrupted (nfkc p) aliases (S calls)) as [[-> Hk]| ->]; [by left|].
  destruct (windows_collision (fun _ => false) _ _ _); simpl; [apply IH|by right].
Qed.

Lemma macos_path_set_interrupted calls aliases paths :
  interrupted (macos_path_set cancelled calls aliases paths)
              (macos_path_set (fun _ => false) calls aliases paths).
Proof.
  revert calls aliases. induction paths as [|p paths IH]; intros calls aliases; simpl; [by right|].
  unfold checkpoint at 1. destruct (cancelled calls) eqn:E; simpl; [left; eauto|].
  case_bool_decide; [by right|apply IH].
Qed.

Lemma validate_path_set_interrupted target paths :
  interrupted (validate_path_set_cancellable target paths cancelled) (validate_path_set target paths).
Proof.
  unfold validate_path_set, validate_path_set_cancellable, checkpoint at 1.
  destruct (cancelled 0%nat) eqn:E; simpl; [left; eauto|].
  destruct target; [apply windows_path_set_interrupted|apply macos_path_set_interrupted].
Qed.

End cancellation.
End facts.

(** ** Features *)

Lemma bit_testbit n f : negb (N.land n (feature_bit f) =? 0) = N.testbit n (feature_index f).
Proof.
  unfold feature_bit. rewrite N.shiftl_1_l.
  destruct (N.testbit n (feature_index f)) eqn:E.
  - destruct (N.eqb_spec (N.land n (2 ^ feature_index f)) 0) as [Hz|]; [|done].
    assert (C : N.testbit (N.land n (2 ^ feature_index f)) (feature_index f) = false)
      by by rewrite Hz, N.bits_0.
    by rewrite N.land_spec, E, N.pow2_bits_true in C.
  - replace (N.land n (2 ^ feature_index f)) with 0; [done|]. symmetry. apply N.bits_inj. intros i.
    rewrite N.land_spec, N.bits_0, N.pow2_bits_eqb.
    destruct (N.eqb_spec (feature_index f) i) as [<-|]; [by rewrite E|apply andb_false_r].
Qed.

Lemma features_contain_testbit n f : features_contain n f = N.testbit n (feature_index f).
Proof. apply bit_testbit. Qed.

Lemma feature_index_inj f g : feature_index f = feature_index g -> f = g.
Proof. by destruct f, g. Qed.

Lemma lor_bit_contain n f g :
  features_contain (N.lor n (feature_bit f)) g = features_contain n g || bool_decide (f = g).
Proof.
  rewrite !features_contain_testbit, N.lor_spec. f_equal.
  unfold feature_bit. rewrite N.shiftl_1_l, N.pow2_bits_eqb.
  case_bool_decide as Hfg; [subst; apply N.eqb_refl|]. apply N.eqb_neq.
  intros E. by apply Hfg, feature_index_inj.
Qed.

Lemma valid_bits_below n i : n <= VALID_BITS -> 9 <= i -> N.testbit n i = false.
Proof.
  intros Hn Hi. destruct (N.eq_dec n 0) as [->|Hz]; [apply N.bits_0|].
  apply N.bits_above_log2. apply N.log2_lt_pow2; [lia|].
  eapply N.le_lt_trans; [exact Hn|]. apply (N.lt_le_trans _ (2 ^ 9)); [done|]. apply N.pow_le_mono_r; lia.
Qed.

Lemma in_below i : i < 9 -> bool_decide (i ∈ feature_index <$> ALL_FEATURES) = true.
Proof.
  intros Hi. rewrite <- (N2Nat.id i) in Hi |- *. generalize dependent (N.to_nat i). intros k Hk.
  do 9 (destruct k as [|k]; [done|]). lia.
Qed.

Lemma features_ext n m :
  n <= VALID_BITS -> m <= VALID_BITS -> (forall f, features_contain n f = features_contain m f) -> n = m.
Proof.
  intros Hn Hm Hf. apply N.bits_inj. intros i. destruct (N.lt_ge_cases i 9) as [Hi|Hi].
  2: { by rewrite !valid_bits_below by done. }
  assert (exists f, feature_index f = i) as [f <-].
  { assert (i ∈ feature_index <$> ALL_FEATURES) as (f & -> & _)%list_elem_of_fmap; [|eauto].
    apply (bool_decide_eq_true_1 _), (in_below i Hi). }
  rewrite <- !features_contain_testbit. apply Hf.
Qed.

Lemma features_from_bits_Ok bits b :
  features_from_bits bits = Ok b <-> b = bits /\ bits <> 0 /\ N.land bits (N.lxor VALID_BITS u16_max) = 0.
Proof.
  unfold features_from_bits.
  destruct (N.eqb_spec bits 0); [naive_solver|].
  destruct (N.eqb_spec (N.land bits (N.lxor VALID_BITS u16_max)) 0); naive_solver.
Qed.

Lemma land_valid bits : bits <= u16_max -> N.land bits (N.lxor VALID_BITS u16_max) = 0 <-> bits <= VALID_BITS.
Proof.
  intros Hu. split.
  - intros Hz. replace bits with (N.land bits (N.ones 9)).
    + rewrite N.land_ones. change VALID_BITS with (2 ^ 9 - 1).
      pose proof (N.mod_lt bits (2 ^ 9)). lia.
    + apply N.bits_inj. intros i. rewrite N.land_spec.
      destruct (N.lt_ge_cases i 9) as [Hi|Hi].
      { rewrite N.ones_spec_low by done. apply andb_true_r. }
      rewrite N.ones_spec_high by done. rewrite andb_false_r.
      destruct (N.lt_ge_cases i 16) as [Hi'|Hi'].
      * assert (E : N.testbit (N.land bits (N.lxor VALID_BITS u16_max)) i = false)
          by by rewrite Hz, N.bits_0.
        rewrite N.land_spec in E. change (N.lxor VALID_BITS u16_max) with (N.shiftl (N.ones 7) 9) in E.
        rewrite N.shiftl_spec_high, N.ones_spec_low, andb_true_r in E by lia. done.
      * symmetry. destruct (N.eq_dec bits 0) as [->|Hb]; [apply N.bits_0|].
        apply N.bits_above_log2, N.log2_lt_pow2; [lia|]. eapply N.le_lt_trans; [exact Hu|].
        apply (N.lt_le_trans _ (2 ^ 16)); [done|]. apply N.pow_le_mono_r; lia.
  - intros Hb. apply N.bits_inj. intros i. rewrite N.land_spec, N.bits_0.
    destruct (N.lt_ge_cases i 9) as [Hi|Hi]; [|by rewrite valid_bits_below].
    change (N.lxor VALID_BITS u16_max) with (N.shiftl (N.ones 7) 9).
    rewrite N.shiftl_spec_low by done. apply andb_false_r.
Qed.

Lemma features_fold features bits b :
  try_fold (fun bits feature =>
        if negb (N.land bits (feature_bit feature) =? 0) then Err RInvalidCommand
        else Ok (N.lor bits (feature_bit feature))) bits features = Ok b <->
  NoDup features /\ (forall f, f ∈ features -> features_contain bits f = false)
  /\ b = foldl (fun bits f => N.lor bits (feature_bit f)) bits features.
Proof.
  revert bits. induction features as [|f features IH]; intros bits; simpl.
  { split; [intros [= <-]|intros (_ & _ & ->)]; [|done]. split_and!; [constructor|set_solver|done]. }
  change (negb (N.land bits (feature_bit f) =? 0)) with (features_contain bits f).
  rewrite NoDup_cons. destruct (features_contain bits f) eqn:E; simpl.
  { split; [done|]. intros (_ & Hf & _). rewrite (Hf f) in E; [done|set_solver]. }
  rewrite IH. split.
  - intros (Hnd & Hf & ->). split_and!; [|done| |done].
    + intros Hin. specialize (Hf f Hin). rewrite lor_bit_contain, bool_decide_eq_true_2, orb_true_r in Hf; done.
    + intros g [->|Hg]%elem_of_cons; [done|]. specialize (Hf g Hg). rewrite lor_bit_contain in Hf.
      by apply orb_false_iff in Hf as [? _].
  - intros ([Hn Hnd] & Hf & ->). split_and!; [done| |done]. intros g Hg. rewrite lor_bit_contain.
    rewrite (Hf g) by set_solver. simpl. apply bool_decide_eq_false. by intros ->.
Qed.

Lemma features_fold_contain features bits g :
  features_contain (foldl (fun bits f => N.lor bits (feature_bit f)) bits features) g
  = features_contain bits g || bool_decide (g ∈ features).
Proof.
  revert bits. induction features as [|f features IH]; intros bits; [by rewrite orb_false_r|].
  cbn [foldl]. rewrite IH, lor_bit_contain, <- orb_assoc. f_equal.
  apply eq_true_iff_eq. rewrite orb_true_iff, !bool_decide_eq_true, elem_of_cons. naive_solver.
Qed.

Lemma lor_bit_valid n f : n <= VALID_BITS -> N.lor n (feature_bit f) <= VALID_BITS.
Proof.
  intros Hn. change VALID_BITS with (2 ^ 9 - 1).
  enough (N.lor n (feature_bit f) < 2 ^ 9) by lia.
  destruct (N.eq_dec (N.lor n (feature_bit f)) 0) as [->|Hz]; [done|].
  apply N.log2_lt_pow2; [lia|]. rewrite N.log2_lor. apply N.max_lub_lt.
  - destruct (N.eq_dec n 0) as [->|]; [done|]. apply N.log2_lt_pow2; [lia|].
    change VALID_BITS with (2 ^ 9 - 1) in Hn. lia.
  - by destruct f.
Qed.

Lemma features_fold_valid features bits :
  bits <= VALID_BITS -> foldl (fun bits f => N.lor bits (feature_bit f)) bits features <= VALID_BITS.
Proof.
  revert bits. induction features as [|f features IH]; intros bits Hb; simpl; [done|].
  by apply IH, lor_bit_valid.
Qed.
