(* ===== verification/HelperProtocol.v ===== *)
(** * Native runner: the protocol of the restricted helper (native-runner/helper_protocol.rs)

    The daemon asks a helper process to run one closed command on a set of content frames and
    reads back a response.  Requests, the runtime closure the helper must find and the responses
    are checked when they are built and again when they are decoded; a response that is read for
    a request carries its nonce and closure.  Encoding into memory cannot fail, so an encoder is
    the bytes it appends; readers and writers are the classes [Read] and [Write]. *)

From S2P Require Import Prelude Ordering Text Minicbor Crypto TextSearch SecretText RunnerPolicy.

#[local] Open Scope N_scope.

Definition MAGIC : bytes := as_bytes (lit "CRNR").
Definition VERSION : N := 1.
Definition REQUEST_KIND : N := 1.
Definition RESPONSE_KIND : N := 2.
Definition HEADER_BYTES : nat := 12.
Definition MAX_CONTENT_FRAMES : N := 1024.
Definition MAX_CONTENT_FRAME_BYTES : N := 8 * 1024 * 1024.
Definition MAX_TOTAL_CONTENT_BYTES : N := 64 * 1024 * 1024.
Definition MAX_REPORT_BYTES : N := 8 * 1024 * 1024.
Definition DEFAULT_RUNTIME_MS : N := 30000.
Definition SEMGREP_RUNTIME_MS : N := 90000.
Definition MAX_RUNTIME_MS : N := SEMGREP_RUNTIME_MS.
Definition MAX_CLOSURE_MATERIALS : N := 256.
Definition MAX_CLOSURE_MATERIAL_BYTES : N := 512 * 1024 * 1024.
Definition MAX_CLOSURE_BYTES : N := 768 * 1024 * 1024.
Definition MAX_WIRE_PAYLOAD_BYTES : N := 68 * 1024 * 1024.

Record ContentFrame := { frame_path : rstr; frame_sha256 : bytes; frame_bytes : bytes }.

Record RunLimits := {
  max_files : N; max_file_bytes : N; max_total_bytes : N; max_report_bytes : N; timeout_ms : N
}.

Record RunRequest := {
  rq_nonce : bytes; rq_closure_sha256 : bytes; rq_command : SidecarCommand; rq_inputs : list ContentFrame
}.

Record ClosureMaterial := {
  material_path : rstr; material_size : N; material_sha256 : bytes; material_executable : bool
}.

Record HelperRunRequest := {
  hr_request : RunRequest; hr_runtime_closure_sha256 : bytes; hr_closure : list ClosureMaterial
}.

Inductive RunDisposition := Generated | DispositionClean | Findings (count : N).

Record RunStats := { scanned_files : N; scanned_bytes : N; duration_ms : N }.

Inductive FailureCode := FcInvalidOutput | FcToolFailed | FcTimedOut | FcLimitExceeded | FcClosureMismatch.

Inductive RunResponse :=
| RunCompleted (disposition : RunDisposition) (outputs : list ContentFrame) (stats : RunStats)
| RunFailed (code : FailureCode).

#[global] Instance ContentFrame_eq_dec : EqDecision ContentFrame.
Proof. solve_decision. Defined.
#[global] Instance ClosureMaterial_eq_dec : EqDecision ClosureMaterial.
Proof. solve_decision. Defined.

(** ** Limits *)

Definition for_command (command : SidecarCommand) : RunLimits := {|
  max_files := MAX_CONTENT_FRAMES;
  max_file_bytes := MAX_CONTENT_FRAME_BYTES;
  max_total_bytes := MAX_TOTAL_CONTENT_BYTES;
  max_report_bytes := MAX_REPORT_BYTES;
  timeout_ms := match command with
                | OsemgrepScanPackage => SEMGREP_RUNTIME_MS
                | RuleSyncGenerate _ _ | GitleaksScanPackage => DEFAULT_RUNTIME_MS
                end;
|}.

Definition tightened (self : RunLimits) (files file_bytes total_bytes : N) : result RunnerError RunLimits :=
  if (files =? 0) || (file_bytes =? 0) || (total_bytes =? 0) || (max_files self <? files)
     || (max_file_bytes self <? file_bytes) || (max_total_bytes self <? total_bytes)
  then Err RLimitExceeded
  else Ok {| max_files := files; max_file_bytes := file_bytes; max_total_bytes := total_bytes;
             max_report_bytes := max_report_bytes self; timeout_ms := timeout_ms self |}.

Definition ClosureMaterial_new (path : rstr) (size : N) (digest : bytes) (executable : bool)
    : result RunnerError ClosureMaterial :=
  if (size =? 0) || (MAX_CLOSURE_MATERIAL_BYTES <? size) then Err RLimitExceeded
  else Ok {| material_path := path; material_size := size; material_sha256 := digest;
             material_executable := executable |}.

Definition failure_code (code : FailureCode) : N :=
  match code with
  | FcInvalidOutput => 0 | FcToolFailed => 1 | FcTimedOut => 2 | FcLimitExceeded => 3 | FcClosureMismatch => 4
  end.

Definition decode_failure_code (value : N) : result RunnerError FailureCode :=
  match value with
  | 0 => Ok FcInvalidOutput | 1 => Ok FcToolFailed | 2 => Ok FcTimedOut | 3 => Ok FcLimitExceeded
  | 4 => Ok FcClosureMismatch | _ => Err RInvalidFrame
  end.

(** ** Framing *)

(** [Write::write_all] and [Read::read_exact]: the stream after the call and whether it
    succeeded, or the bytes read. *)
Class Write (W : Type) := { write_all : bytes -> W -> W * bool }.
Class Read (R : Type) := { read_exact : nat -> R -> R * option bytes }.

#[global] Instance vec_write : Write bytes := {| write_all b w := (w ++ b, true) |}.
#[global] Instance slice_read : Read bytes := {|
  read_exact n r := if (n <=? length r)%nat then (drop n r, Some (take n r)) else ([], None)
|}.

Definition message_header (kind length : N) : bytes :=
  MAGIC ++ to_be 2 VERSION ++ [byte_of kind; byte_of 0] ++ to_be 4 length.

Definition write_message {W} `{Write W} (kind : N) (payload : bytes) (writer : W)
    : W * result RunnerError unit :=
  if bool_decide (payload = []) || (MAX_WIRE_PAYLOAD_BYTES <? len payload) || (u32_max <? len payload)
  then (writer, Err RFrameTooLarge)
  else match write_all (message_header kind (len payload)) writer with
       | (writer, false) => (writer, Err RIo)
       | (writer, true) =>
           match write_all payload writer with
           | (writer, false) => (writer, Err RIo)
           | (writer, true) => (writer, Ok tt)
           end
       end.

(** [header[4..6]] and the like. *)
Definition slice (from until : nat) (b : bytes) : bytes := drop from (take until b).

Definition bad_header (expected_kind : N) (header : bytes) : bool :=
  negb (bool_decide (take 4 header = MAGIC)) || negb (of_be (slice 4 6 header) =? VERSION)
  || negb (of_be (slice 6 7 header) =? expected_kind) || negb (of_be (slice 7 8 header) =? 0).

Definition read_message {R} `{Read R} (expected_kind : N) (reader : R) : R * result RunnerError bytes :=
  match read_exact HEADER_BYTES reader with
  | (reader, None) => (reader, Err RIo)
  | (reader, Some header) =>
      if bad_header expected_kind header then (reader, Err RInvalidFrame)
      else
        let length := of_be (slice 8 12 header) in
        if (length =? 0) || (MAX_WIRE_PAYLOAD_BYTES <? length) then (reader, Err RFrameTooLarge)
        else match read_exact (N.to_nat length) reader with
             | (reader, None) => (reader, Err RIo)
             | (reader, Some payload) => (reader, Ok payload)
             end
  end.

(** ** Building requests and responses *)

Section helper.
Context `{UnicodeTables} `{RunnerHost} `{Primitives} `{Minicbor}.

Definition ContentFrame_new (path : rstr) (b : bytes) : result RunnerError ContentFrame :=
  if MAX_CONTENT_FRAME_BYTES <? len b then Err RLimitExceeded
  else Ok {| frame_path := path; frame_sha256 := sha256 b; frame_bytes := b |}.

(** The scan that bounds the files and their total. *)
Definition frames_total (limits : RunLimits) (frames : list ContentFrame) : result RunnerError N :=
  try_fold (fun total frame =>
    if max_file_bytes limits <? len (frame_bytes frame) then Err RLimitExceeded
    else
      let? total := ok_or (checked_add usize_max total (len (frame_bytes frame))) RLimitExceeded in
      if max_total_bytes limits <? total then Err RLimitExceeded else Ok total) 0 frames.

(** Sorting, duplicate paths and the path sets of both platforms, which frames and materials
    share. *)
Definition checked_by_path {A} (path : A -> rstr) (l : list A) : result RunnerError (list A) :=
  let l := sort_by_key path l in
  if windows2_any (fun a b => bool_decide (path a = path b)) l then Err RInvalidFrame
  else
    let? _ := validate_path_set WindowsX86_64 (path <$> l) in
    let? _ := validate_path_set MacosArm64 (path <$> l) in
    Ok l.

(** [validate_frames]: the slice it sorts in place is its result. *)
Definition validate_frames (frames : list ContentFrame) (limits : RunLimits)
    : result RunnerError (list ContentFrame) :=
  if max_files limits <? len frames then Err RLimitExceeded
  else
    let? _ := frames_total limits frames in
    checked_by_path frame_path frames.

Definition normalize_closure_materials (materials : list ClosureMaterial)
    : result RunnerError (list ClosureMaterial) :=
  if bool_decide (materials = []) || (MAX_CLOSURE_MATERIALS <? len materials) then Err RLimitExceeded
  else
    let? total := try_fold (fun total material =>
        ok_or (checked_add u64_max total (material_size material)) RLimitExceeded) 0 materials in
    if MAX_CLOSURE_BYTES <? total then Err RLimitExceeded
    else checked_by_path material_path materials.

Definition material_preimage (material : ClosureMaterial) : bytes :=
  as_bytes (material_path material) ++ [byte_of 0] ++ to_be 8 (material_size material)
  ++ material_sha256 material ++ [byte_of (N.b2n (material_executable material))].

Definition closure_domain : bytes := as_bytes (lit "context-relay/sidecar-closure/v1") ++ [byte_of 0].

Definition closure_material_digest (materials : list ClosureMaterial) : result RunnerError bytes :=
  let? materials := normalize_closure_materials materials in
  Ok (sha256 (closure_domain ++ (materials ≫= material_preimage))).

Definition exe_of (stem name : rstr) : bool :=
  bool_decide (name = stem) || bool_decide (name = stem ++ lit ".exe").

Definition expected_executable_name (command : SidecarCommand) (name : rstr) : bool :=
  match command with
  | OsemgrepScanPackage =>
      bool_decide (name ∈ [lit "osemgrep"; lit "osemgrep.exe"; lit "semgrep-core"; lit "semgrep-core.exe"])
  | RuleSyncGenerate _ _ => exe_of (lit "rulesync") name
  | GitleaksScanPackage => exe_of (lit "gitleaks") name
  end.

Definition forbidden_semgrep_material (material : ClosureMaterial) : bool :=
  existsb (fun component =>
    let normalized := nfkc component ≫= to_lowercase in
    existsb (fun forbidden => contains forbidden normalized)
      [lit "python"; lit "pysemgrep"; lit "site-packages"; lit "wheelhouse"])
    (components_of (material_path material))
  || (negb (material_executable material)
      && existsb (fun component => contains (lit "semgrep-core") (to_ascii_lowercase component))
           (components_of (material_path material))).

(** [rsplit('/').next()] *)
Definition file_name (path : rstr) : rstr := default [] (last (components_of path)).

(** Exactly one executable, with the name the command expects, and no Python in the closure of
    semgrep. *)
Definition closure_fits (command : SidecarCommand) (closure : list ClosureMaterial) : bool :=
  match filter (fun material => material_executable material) closure with
  | [executable] =>
      expected_executable_name command (file_name (material_path executable))
      && negb (match command with OsemgrepScanPackage => existsb forbidden_semgrep_material closure
               | _ => false end)
  | _ => false
  end.

Definition for_resigned_runtime (request : RunRequest) (closure : list ClosureMaterial)
    : result RunnerError HelperRunRequest :=
  let? closure := normalize_closure_materials closure in
  let? digest := closure_material_digest closure in
  if closure_fits (rq_command request) closure
  then Ok {| hr_request := request; hr_runtime_closure_sha256 := digest; hr_closure := closure |}
  else Err RInvalidFrame.

Definition HelperRunRequest_new (request : RunRequest) (closure : list ClosureMaterial)
    : result RunnerError HelperRunRequest :=
  let? helper_request := for_resigned_runtime request closure in
  if bool_decide (hr_runtime_closure_sha256 helper_request = rq_closure_sha256 (hr_request helper_request))
  then Ok helper_request else Err RClosureMismatch.

Definition RunRequest_new (nonce closure : bytes) (command : SidecarCommand) (inputs : list ContentFrame)
    : result RunnerError RunRequest :=
  let? _ := SidecarCommand_validate command in
  let limits := for_command command in
  let? inputs := validate_frames inputs limits in
  let? _ := try_for_each (fun input => validate_input command (frame_path input) (frame_bytes input)) inputs in
  let? _ := validate_inputs command (frame_path <$> inputs) in
  Ok {| rq_nonce := nonce; rq_closure_sha256 := closure; rq_command := command; rq_inputs := inputs |}.

Definition report_bytes (outputs : list ContentFrame) : result RunnerError N :=
  try_fold (fun total frame =>
    ok_or (checked_add usize_max total (len (frame_bytes frame))) RLimitExceeded) 0 outputs.

Definition RunResponse_completed (disposition : RunDisposition) (outputs : list ContentFrame) (stats : RunStats)
    (limits : RunLimits) : result RunnerError RunResponse :=
  let? outputs := validate_frames outputs limits in
  let? _ := match disposition with
            | Generated => Ok tt
            | _ =>
                let? total := report_bytes outputs in
                if max_report_bytes limits <? total then Err RLimitExceeded else Ok tt
            end in
  if timeout_ms limits <? duration_ms stats then Err RLimitExceeded
  else Ok (RunCompleted disposition outputs stats).

(** ** Encoding *)

Definition hkey (value : N) : bytes := enc_uint value.

Definition encode_command (command : SidecarCommand) : bytes :=
  match command with
  | RuleSyncGenerate target features =>
      enc_map 3 ++ hkey 0 ++ enc_uint 0 ++ hkey 1 ++ enc_uint (target_code target)
      ++ hkey 2 ++ enc_uint features
  | GitleaksScanPackage => enc_map 1 ++ hkey 0 ++ enc_uint 1
  | OsemgrepScanPackage => enc_map 1 ++ hkey 0 ++ enc_uint 2
  end.

Definition encode_content_frame (frame : ContentFrame) : bytes :=
  enc_map 3 ++ hkey 0 ++ enc_str (frame_path frame) ++ hkey 1 ++ enc_bytes (frame_sha256 frame)
  ++ hkey 2 ++ enc_bytes (frame_bytes frame).

Definition encode_content_frames (frames : list ContentFrame) : bytes :=
  enc_array (len frames) ++ (frames ≫= encode_content_frame).

Definition encode_closure_material (material : ClosureMaterial) : bytes :=
  enc_map 4 ++ hkey 0 ++ enc_str (material_path material) ++ hkey 1 ++ enc_uint (material_size material)
  ++ hkey 2 ++ enc_bytes (material_sha256 material) ++ hkey 3 ++ enc_bool (material_executable material).

Definition encode_closure_materials (materials : list ClosureMaterial) : bytes :=
  enc_array (len materials) ++ (materials ≫= encode_closure_material).

(** The entries 0 to 3 that both requests share. *)
Definition request_entries (request : RunRequest) : bytes :=
  hkey 0 ++ enc_bytes (rq_nonce request) ++ hkey 1 ++ enc_bytes (rq_closure_sha256 request)
  ++ hkey 2 ++ encode_command (rq_command request) ++ hkey 3 ++ encode_content_frames (rq_inputs request).

Definition encode_request_payload (request : RunRequest) : bytes := enc_map 4 ++ request_entries request.

Definition encode_helper_request_payload (request : HelperRunRequest) : bytes :=
  enc_map 6 ++ request_entries (hr_request request)
  ++ hkey 4 ++ encode_closure_materials (hr_closure request)
  ++ hkey 5 ++ enc_bytes (hr_runtime_closure_sha256 request).

Definition encode_disposition (disposition : RunDisposition) : bytes :=
  let '(kind, findings) := match disposition with
    | Generated => (0, 0) | DispositionClean => (1, 0) | Findings count => (2, count) end in
  enc_map 2 ++ hkey 0 ++ enc_uint kind ++ hkey 1 ++ enc_uint findings.

Definition encode_stats (stats : RunStats) : bytes :=
  enc_map 3 ++ hkey 0 ++ enc_uint (scanned_files stats) ++ hkey 1 ++ enc_uint (scanned_bytes stats)
  ++ hkey 2 ++ enc_uint (duration_ms stats).

Definition encode_response_payload (response : RunResponse) : bytes :=
  match response with
  | RunCompleted disposition outputs stats =>
      enc_map 4 ++ hkey 0 ++ enc_uint 0 ++ hkey 1 ++ encode_disposition disposition
      ++ hkey 2 ++ encode_content_frames outputs ++ hkey 3 ++ encode_stats stats
  | RunFailed code => enc_map 2 ++ hkey 0 ++ enc_uint 1 ++ hkey 1 ++ enc_uint (failure_code code)
  end.

Definition encode_bound_response_payload (request : RunRequest) (response : RunResponse) : bytes :=
  let '(size, kind) := match response with RunCompleted _ _ _ => (6, 0) | RunFailed _ => (4, 1) end in
  enc_map size ++ hkey 0 ++ enc_uint kind ++ hkey 1 ++ enc_bytes (rq_nonce request)
  ++ hkey 2 ++ enc_bytes (rq_closure_sha256 request)
  ++ match response with
     | RunCompleted disposition outputs stats =>
         hkey 3 ++ encode_disposition disposition ++ hkey 4 ++ encode_content_frames outputs
         ++ hkey 5 ++ encode_stats stats
     | RunFailed code => hkey 3 ++ enc_uint (failure_code code)
     end.

(** ** Decoding *)

(** A method of the decoder with its error mapped by [dec]. *)
Definition hdec {A} (f : bytes -> option (A * bytes)) (d : bytes) : result RunnerError (A * bytes) :=
  ok_or (f d) RInvalidFrame.

Definition expect_hkey (value : N) (d : bytes) : result RunnerError bytes :=
  let? (k, d) := hdec dec_u8 d in
  if k =? value then Ok d else Err RInvalidFrame.

Definition require_hmap (size : N) (d : bytes) : result RunnerError bytes :=
  let? (n, d) := hdec dec_map d in
  if bool_decide (n = Some size) then Ok d else Err RInvalidFrame.

Definition map_size (d : bytes) : result RunnerError (N * bytes) :=
  let? (n, d) := hdec dec_map d in
  let? n := ok_or n RInvalidFrame in
  Ok (n, d).

Definition read_hfixed (size : N) (d : bytes) : result RunnerError (bytes * bytes) :=
  let? (b, d) := hdec dec_bytes d in
  if len b =? size then Ok (b, d) else Err RInvalidFrame.

Definition read_path (d : bytes) : result RunnerError (rstr * bytes) :=
  let? (s, d) := hdec dec_str d in
  let? path := StagePath_try_from s in
  Ok (path, d).

(** [for _ in 0..n { output.push(item(decoder)?) }] *)
Fixpoint decode_each {A} (item : bytes -> result RunnerError (A * bytes)) (n : nat) (d : bytes)
    : result RunnerError (list A * bytes) :=
  match n with
  | O => Ok ([], d)
  | S n =>
      let? (x, d) := item d in
      let? (xs, d) := decode_each item n d in
      Ok (x :: xs, d)
  end.

Definition decode_command (d : bytes) : result RunnerError (SidecarCommand * bytes) :=
  let? (size, d) := map_size d in
  let? d := expect_hkey 0 d in
  let? (kind, d) := hdec dec_u8 d in
  match kind, size with
  | 0, 3 =>
      let? d := expect_hkey 1 d in
      let? (code, d) := hdec dec_u8 d in
      let? target := target_from_code code in
      let? d := expect_hkey 2 d in
      let? (bits, d) := hdec dec_u16 d in
      let? features := features_from_bits bits in
      Ok (RuleSyncGenerate target features, d)
  | 1, 1 => Ok (GitleaksScanPackage, d)
  | 2, 1 => Ok (OsemgrepScanPackage, d)
  | _, _ => Err RInvalidFrame
  end.

Definition decode_content_frame (d : bytes) : result RunnerError (ContentFrame * bytes) :=
  let? d := require_hmap 3 d in
  let? d := expect_hkey 0 d in
  let? (path, d) := read_path d in
  let? d := expect_hkey 1 d in
  let? (claimed_digest, d) := read_hfixed 32 d in
  let? d := expect_hkey 2 d in
  let? (b, d) := hdec dec_bytes d in
  if MAX_CONTENT_FRAME_BYTES <? len b then Err RLimitExceeded else
  let? frame := ContentFrame_new path b in
  if bool_decide (frame_sha256 frame = claimed_digest) then Ok (frame, d) else Err RDigestMismatch.

Definition decode_content_frames (d : bytes) : result RunnerError (list ContentFrame * bytes) :=
  let? (length, d) := hdec dec_array d in
  let? length := ok_or length RInvalidFrame in
  if MAX_CONTENT_FRAMES <? length then Err RLimitExceeded
  else decode_each decode_content_frame (N.to_nat length) d.

Definition decode_closure_material (d : bytes) : result RunnerError (ClosureMaterial * bytes) :=
  let? d := require_hmap 4 d in
  let? d := expect_hkey 0 d in
  let? (path, d) := read_path d in
  let? d := expect_hkey 1 d in
  let? (size, d) := hdec dec_u64 d in
  let? d := expect_hkey 2 d in
  let? (digest, d) := read_hfixed 32 d in
  let? d := expect_hkey 3 d in
  let? (executable, d) := hdec dec_bool d in
  let? material := ClosureMaterial_new path size digest executable in
  Ok (material, d).

Definition decode_closure_materials (d : bytes) : result RunnerError (list ClosureMaterial * bytes) :=
  let? (count, d) := hdec dec_array d in
  let? count := ok_or count RInvalidFrame in
  if (count =? 0) || (MAX_CLOSURE_MATERIALS <? count) then Err RLimitExceeded
  else decode_each decode_closure_material (N.to_nat count) d.

(** The entries 0 to 3 of a request. *)
Definition decode_request_entries (d : bytes)
    : result RunnerError (bytes * bytes * SidecarCommand * list ContentFrame * bytes) :=
  let? d := expect_hkey 0 d in
  let? (nonce, d) := read_hfixed 16 d in
  let? d := expect_hkey 1 d in
  let? (closure, d) := read_hfixed 32 d in
  let? d := expect_hkey 2 d in
  let? (command, d) := decode_command d in
  let? d := expect_hkey 3 d in
  let? (inputs, d) := decode_content_frames d in
  Ok (nonce, closure, command, inputs, d).

Definition decode_request_payload (payload : bytes) : result RunnerError RunRequest :=
  let? d := require_hmap 4 payload in
  let? (nonce, closure, command, inputs, d) := decode_request_entries d in
  if negb (bool_decide (d = [])) then Err RInvalidFrame else
  let? request := RunRequest_new nonce closure command inputs in
  if negb (bool_decide (encode_request_payload request = payload)) then Err RInvalidFrame
  else Ok request.

Definition decode_helper_request_payload (payload : bytes) : result RunnerError HelperRunRequest :=
  let? d := require_hmap 6 payload in
  let? (nonce, closure_sha256, command, inputs, d) := decode_request_entries d in
  let? d := expect_hkey 4 d in
  let? (closure, d) := decode_closure_materials d in
  let? d := expect_hkey 5 d in
  let? (runtime, d) := read_hfixed 32 d in
  if negb (bool_decide (d = [])) then Err RInvalidFrame else
  let? request := RunRequest_new nonce closure_sha256 command inputs in
  let? request := for_resigned_runtime request closure in
  if negb (bool_decide (hr_runtime_closure_sha256 request = runtime)) then Err RClosureMismatch
  else if negb (bool_decide (encode_helper_request_payload request = payload)) then Err RInvalidFrame
  else Ok request.

Definition decode_disposition (d : bytes) : result RunnerError (RunDisposition * bytes) :=
  let? d := require_hmap 2 d in
  let? d := expect_hkey 0 d in
  let? (kind, d) := hdec dec_u8 d in
  let? d := expect_hkey 1 d in
  let? (findings, d) := hdec dec_u32 d in
  match kind, findings with
  | 0, 0 => Ok (Generated, d)
  | 1, 0 => Ok (DispositionClean, d)
  | 2, _ => if 0 <? findings then Ok (Findings findings, d) else Err RInvalidFrame
  | _, _ => Err RInvalidFrame
  end.

Definition decode_stats (d : bytes) : result RunnerError (RunStats * bytes) :=
  let? d := require_hmap 3 d in
  let? d := expect_hkey 0 d in
  let? (files, d) := hdec dec_u32 d in
  let? d := expect_hkey 1 d in
  let? (scanned, d) := hdec dec_u64 d in
  let? d := expect_hkey 2 d in
  let? (duration, d) := hdec dec_u32 d in
  if MAX_RUNTIME_MS <? duration then Err RLimitExceeded
  else Ok ({| scanned_files := files; scanned_bytes := scanned; duration_ms := duration |}, d).

(** The tail of a response from the key [k] on: a disposition, frames and statistics, or a
    failure code. *)
Definition decode_completed (k : N) (limits : RunLimits) (d : bytes) : result RunnerError (RunResponse * bytes) :=
  let? d := expect_hkey k d in
  let? (disposition, d) := decode_disposition d in
  let? d := expect_hkey (k + 1) d in
  let? (outputs, d) := decode_content_frames d in
  let? d := expect_hkey (k + 2) d in
  let? (stats, d) := decode_stats d in
  let? response := RunResponse_completed disposition outputs stats limits in
  Ok (response, d).

Definition decode_failed (k : N) (d : bytes) : result RunnerError (RunResponse * bytes) :=
  let? d := expect_hkey k d in
  let? (value, d) := hdec dec_u8 d in
  let? code := decode_failure_code value in
  Ok (RunFailed code, d).

Definition decode_response_payload (payload : bytes) : result RunnerError RunResponse :=
  let? (size, d) := map_size payload in
  let? d := expect_hkey 0 d in
  let? (kind, d) := hdec dec_u8 d in
  let? (response, d) :=
    match kind, size with
    | 0, 4 => decode_completed 1 (for_command OsemgrepScanPackage) d
    | 1, 2 => decode_failed 1 d
    | _, _ => Err RInvalidFrame
    end in
  if negb (bool_decide (d = [])) || negb (bool_decide (encode_response_payload response = payload))
  then Err RInvalidFrame else Ok response.

Definition decode_bound_response_payload (payload : bytes) (request : RunRequest)
    : result RunnerError RunResponse :=
  let? (size, d) := map_size payload in
  let? d := expect_hkey 0 d in
  let? (kind, d) := hdec dec_u8 d in
  if negb (bool_decide ((kind, size) ∈ [(0, 6); (1, 4)])) then Err RInvalidFrame else
  let? d := expect_hkey 1 d in
  let? (nonce, d) := read_hfixed 16 d in
  if negb (bool_decide (nonce = rq_nonce request)) then Err RInvalidFrame else
  let? d := expect_hkey 2 d in
  let? (closure, d) := read_hfixed 32 d in
  if negb (bool_decide (closure = rq_closure_sha256 request)) then Err RInvalidFrame else
  let? (response, d) :=
    match kind with
    | 0 => decode_completed 3 (for_command (rq_command request)) d
    | 1 => decode_failed 3 d
    | _ => Err RInvalidFrame
    end in
  if negb (bool_decide (d = [])) || negb (bool_decide (encode_bound_response_payload request response = payload))
  then Err RInvalidFrame else Ok response.

(** ** Whole messages *)

Definition write_run_request {W} `{Write W} (request : RunRequest) (writer : W) :=
  write_message REQUEST_KIND (encode_request_payload request) writer.
Definition write_helper_request {W} `{Write W} (request : HelperRunRequest) (writer : W) :=
  write_message REQUEST_KIND (encode_helper_request_payload request) writer.
Definition write_run_response {W} `{Write W} (response : RunResponse) (writer : W) :=
  write_message RESPONSE_KIND (encode_response_payload response) writer.
Definition write_run_response_for {W} `{Write W} (request : RunRequest) (response : RunResponse) (writer : W) :=
  write_message RESPONSE_KIND (encode_bound_response_payload request response) writer.

(** [decode(&read_message(reader, kind)?)] *)
Definition read_with {R A} `{Read R} (kind : N) (decode : bytes -> result RunnerError A) (reader : R)
    : R * result RunnerError A :=
  let '(reader, payload) := read_message kind reader in
  (reader, let? payload := payload in decode payload).

Definition read_run_request {R} `{Read R} (reader : R) := read_with REQUEST_KIND decode_request_payload reader.
Definition read_helper_request {R} `{Read R} (reader : R) :=
  read_with REQUEST_KIND decode_helper_request_payload reader.
Definition read_run_response {R} `{Read R} (reader : R) := read_with RESPONSE_KIND decode_response_payload reader.
Definition read_run_response_for {R} `{Read R} (request : RunRequest) (reader : R) :=
  read_with RESPONSE_KIND (fun payload => decode_bound_response_payload payload request) reader.

End helper.
