(* ===== verification/HelperFacts.v ===== *)
(** * Native runner: what a request, a closure and a response are, and their codecs

    [valid_request], [valid_helper_request] and [valid_response] say, without the checks that
    establish it, what the protocol promises of a value; the constructors produce exactly these
    values, and each decoder accepts exactly the encodings of them. *)

From S2P Require Import Prelude Ordering Text Minicbor Crypto TextSearch SecretText RunnerPolicy RunnerFacts HelperProtocol.

#[local] Open Scope N_scope.

(** ** Validity *)

Section valid.
Context `{UnicodeTables} `{RunnerHost} `{Primitives}.

Definition valid_path (path : rstr) : Prop := wf_str path = true /\ StagePath_try_from path = Ok path.

Definition valid_frame (frame : ContentFrame) : Prop :=
  valid_path (frame_path frame) /\ len (frame_bytes frame) <= MAX_CONTENT_FRAME_BYTES
  /\ frame_sha256 frame = sha256 (frame_bytes frame).

Definition valid_material (material : ClosureMaterial) : Prop :=
  valid_path (material_path material) /\ 0 < material_size material <= MAX_CLOSURE_MATERIAL_BYTES
  /\ len (material_sha256 material) = 32.

Definition total_bytes (frames : list ContentFrame) : N :=
  foldr (fun frame total => len (frame_bytes frame) + total) 0 frames.
Definition total_size (materials : list ClosureMaterial) : N :=
  foldr (fun material total => material_size material + total) 0 materials.

(** Sorted by path, without duplicates or aliases on either platform. *)
Definition path_set {A} (path : A -> rstr) (l : list A) : Prop :=
  ascending path l /\ no_alias WindowsX86_64 (path <$> l) /\ no_alias MacosArm64 (path <$> l).

Definition frame_set (limits : RunLimits) (frames : list ContentFrame) : Prop :=
  len frames <= max_files limits /\ Forall (fun f => len (frame_bytes f) <= max_file_bytes limits) frames
  /\ total_bytes frames <= max_total_bytes limits /\ path_set frame_path frames.

Definition material_set (materials : list ClosureMaterial) : Prop :=
  materials <> [] /\ len materials <= MAX_CLOSURE_MATERIALS /\ total_size materials <= MAX_CLOSURE_BYTES
  /\ path_set material_path materials.

Definition typed_command (command : SidecarCommand) : Prop :=
  match command with
  | RuleSyncGenerate _ features => features <> 0 /\ features <= VALID_BITS
  | _ => True
  end.

Definition valid_request (request : RunRequest) : Prop :=
  len (rq_nonce request) = 16 /\ len (rq_closure_sha256 request) = 32
  /\ typed_command (rq_command request) /\ SidecarCommand_validate (rq_command request) = Ok tt
  /\ Forall valid_frame (rq_inputs request) /\ frame_set (for_command (rq_command request)) (rq_inputs request)
  /\ Forall (fun f => validate_input (rq_command request) (frame_path f) (frame_bytes f) = Ok tt)
       (rq_inputs request)
  /\ validate_inputs (rq_command request) (frame_path <$> rq_inputs request) = Ok tt.

Definition closure_sha256 (closure : list ClosureMaterial) : bytes :=
  sha256 (closure_domain ++ (closure ≫= material_preimage)).

Definition valid_helper_request (request : HelperRunRequest) : Prop :=
  valid_request (hr_request request)
  /\ Forall valid_material (hr_closure request) /\ material_set (hr_closure request)
  /\ closure_fits (rq_command (hr_request request)) (hr_closure request) = true
  /\ hr_runtime_closure_sha256 request = closure_sha256 (hr_closure request).

Definition valid_stats (stats : RunStats) : Prop :=
  scanned_files stats <= u32_max /\ scanned_bytes stats <= u64_max /\ duration_ms stats <= MAX_RUNTIME_MS.

Definition valid_disposition (disposition : RunDisposition) : Prop :=
  match disposition with Findings count => 0 < count <= u32_max | _ => True end.

Definition completed_ok (limits : RunLimits) (disposition : RunDisposition) (outputs : list ContentFrame)
    (stats : RunStats) : Prop :=
  frame_set limits outputs
  /\ match disposition with Generated => True | _ => total_bytes outputs <= max_report_bytes limits end
  /\ duration_ms stats <= timeout_ms limits.

Definition valid_response (limits : RunLimits) (response : RunResponse) : Prop :=
  match response with
  | RunCompleted disposition outputs stats =>
      valid_disposition disposition /\ Forall valid_frame outputs /\ valid_stats stats
      /\ completed_ok limits disposition outputs stats
  | RunFailed _ => True
  end.

(** ** The constructors *)

Lemma windows2_no_eq {A} (path : A -> rstr) l :
  StronglySorted (fun a b => leb (path a) (path b) = true) l ->
  windows2_any (fun a b => bool_decide (path a = path b)) l = false <-> ascending path l.
Proof.
  intros Hs. rewrite <- windows2_ascending. induction Hs as [|x l Hs IH Hall]; [done|].
  destruct l as [|y l]; [done|]. cbn [windows2_any]. rewrite !orb_false_iff, IH.
  apply Forall_inv in Hall. rewrite bool_decide_eq_false.
  split; intros [Hxy ?]; split; try done.
  - apply not_true_iff_false. intros E. by apply Hxy, leb_antisym.
  - intros E. rewrite E, leb_refl in Hxy. done.
Qed.

Lemma checked_by_path_Ok {A} (path : A -> rstr) l k :
  checked_by_path path l = Ok k <-> k ≡ₚ l /\ path_set path k.
Proof.
  unfold checked_by_path, path_set. cbv zeta.
  pose proof (windows2_no_eq path _ (sort_by_key_sorted path l)) as Hw.
  destruct (windows2_any _ _).
  - split; [done|]. intros (Hp & Ha & _).
    assert (Hs : sort_by_key path l = k).
    { rewrite <- (sort_by_key_id path k) by done. apply sort_by_key_perm_eq; [|done].
      rewrite <- Hp. by apply ascending_NoDup. }
    rewrite Hs in Hw. by apply Hw in Ha.
  - split.
    + intros ([] & Hwin%validate_path_set_Ok & ([] & Hmac%validate_path_set_Ok & [= <-])%rbind_Ok)%rbind_Ok.
      split_and!; [apply sort_by_key_perm|by apply Hw|done..].
    + intros (Hp & Ha & Hwin & Hmac).
      assert (Hs : sort_by_key path l = k).
      { rewrite <- (sort_by_key_id path k) by done. apply sort_by_key_perm_eq; [|done].
        rewrite <- Hp. by apply ascending_NoDup. }
      rewrite Hs. apply rbind_Ok. exists tt. rewrite validate_path_set_Ok. split; [done|].
      apply rbind_Ok. exists tt. by rewrite validate_path_set_Ok.
Qed.

Lemma total_bytes_perm l k : l ≡ₚ k -> total_bytes l = total_bytes k.
Proof. unfold total_bytes. induction 1; simpl; lia. Qed.
Lemma total_size_perm l k : l ≡ₚ k -> total_size l = total_size k.
Proof. unfold total_size. induction 1; simpl; lia. Qed.

Lemma frames_total_from limits frames s t :
  s <= max_total_bytes limits <= usize_max ->
  try_fold (fun total frame =>
    if max_file_bytes limits <? len (frame_bytes frame) then Err RLimitExceeded
    else
      let? total := ok_or (checked_add usize_max total (len (frame_bytes frame))) RLimitExceeded in
      if max_total_bytes limits <? total then Err RLimitExceeded else Ok total) s frames = Ok t <->
  Forall (fun f => len (frame_bytes f) <= max_file_bytes limits) frames
  /\ t = s + total_bytes frames /\ t <= max_total_bytes limits.
Proof.
  revert s. induction frames as [|f frames IH]; intros s Hs; cbn [try_fold total_bytes foldr].
  { split; [intros [= <-]|intros (_ & -> & _)]; [split_and!; [constructor|lia..]|f_equal; lia]. }
  fold (total_bytes frames). rewrite Forall_cons.
  destruct (N.ltb_spec (max_file_bytes limits) (len (frame_bytes f))); simpl; [split; [done|lia]|].
  destruct (checked_add usize_max s (len (frame_bytes f))) as [s'|] eqn:E; simpl.
  - apply checked_add_Some in E as [-> Hu].
    destruct (N.ltb_spec (max_total_bytes limits) (s + len (frame_bytes f))); simpl; [split; [done|lia]|].
    rewrite IH by lia. split; intros Hx; split_and!; try (tauto || lia); destruct Hx as [? ?]; lia.
  - split; [done|]. unfold checked_add in E.
    destruct (N.leb_spec (s + len (frame_bytes f)) usize_max); [done|]. lia.
Qed.

Lemma validate_frames_Ok limits frames k :
  max_total_bytes limits <= usize_max ->
  validate_frames frames limits = Ok k <-> k ≡ₚ frames /\ frame_set limits k.
Proof.
  intros Hu. unfold validate_frames, frame_set.
  assert (Hlen : forall k, k ≡ₚ frames -> len k = len frames)
    by (intros k' Hp; unfold len; by rewrite Hp).
  destruct (N.ltb_spec (max_files limits) (len frames)) as [Hl|Hl].
  { split; [done|]. intros (Hp & Hn & _). rewrite (Hlen _ Hp) in Hn. lia. }
  rewrite rbind_Ok. unfold frames_total. setoid_rewrite (frames_total_from limits frames 0); [|lia].
  setoid_rewrite checked_by_path_Ok. split.
  - intros (t & (Hf & -> & Ht) & Hp & Hset). split; [done|]. rewrite (Hlen _ Hp), (total_bytes_perm _ _ Hp).
    split_and!; [done|by rewrite Hp|lia|done].
  - intros (Hp & Hn & Hf & Ht & Hset). exists (total_bytes frames).
    rewrite (total_bytes_perm _ _ Hp) in Ht. rewrite Hp in Hf. split_and!; [done|lia|lia|done|done].
Qed.

Lemma for_command_total command : max_total_bytes (for_command command) <= usize_max.
Proof. by destruct command. Qed.

Lemma RunRequest_new_Ok nonce closure command inputs r :
  RunRequest_new nonce closure command inputs = Ok r <->
  rq_nonce r = nonce /\ rq_closure_sha256 r = closure /\ rq_command r = command
  /\ rq_inputs r ≡ₚ inputs /\ SidecarCommand_validate command = Ok tt
  /\ frame_set (for_command command) (rq_inputs r)
  /\ Forall (fun f => validate_input command (frame_path f) (frame_bytes f) = Ok tt) (rq_inputs r)
  /\ validate_inputs command (frame_path <$> rq_inputs r) = Ok tt.
Proof.
  unfold RunRequest_new. cbv zeta. split.
  - intros ([] & Hv & (fs & Hfs & ([] & Hi%try_for_each_Ok & ([] & Hj & [= <-])%rbind_Ok)%rbind_Ok)%rbind_Ok)%rbind_Ok.
    apply validate_frames_Ok in Hfs as [Hp Hset]; [|apply for_command_total]. simpl. by split_and!.
  - intros (<- & <- & <- & Hp & Hv & Hset & Hi & Hj). rewrite Hv. cbn [rbind].
    rewrite (proj2 (validate_frames_Ok _ _ (rq_inputs r) (for_command_total _))) by done. cbn [rbind].
    rewrite (proj2 (try_for_each_Ok _ _)) by done. cbn [rbind]. rewrite Hj. by destruct r.
Qed.

Lemma total_size_from materials s t :
  s <= u64_max ->
  try_fold (fun total material =>
    ok_or (checked_add u64_max total (material_size material)) RLimitExceeded) s materials = Ok t <->
  t = s + total_size materials /\ t <= u64_max.
Proof.
  revert s. induction materials as [|x l IH]; intros s Hs; cbn [try_fold total_size foldr].
  { split; [intros [= <-]|intros [-> _]]; [lia|f_equal; lia]. }
  fold (total_size l). destruct (checked_add u64_max s (material_size x)) as [s'|] eqn:E; simpl.
  - apply checked_add_Some in E as [-> Hu]. rewrite IH by done. lia.
  - split; [done|]. unfold checked_add in E.
    destruct (N.leb_spec (s + material_size x) u64_max); [done|]. lia.
Qed.

Lemma report_bytes_from outputs s t :
  s <= usize_max ->
  try_fold (fun total frame =>
    ok_or (checked_add usize_max total (len (frame_bytes frame))) RLimitExceeded) s outputs
  = Ok (E := RunnerError) t <-> t = s + total_bytes outputs /\ t <= usize_max.
Proof.
  revert s. induction outputs as [|x l IH]; intros s Hs; cbn [try_fold total_bytes foldr].
  { split; [intros [= <-]|intros [-> _]]; [lia|f_equal; lia]. }
  fold (total_bytes l). destruct (checked_add usize_max s (len (frame_bytes x))) as [s'|] eqn:E; simpl.
  - apply checked_add_Some in E as [-> Hu]. rewrite IH by done. lia.
  - split; [done|]. unfold checked_add in E.
    destruct (N.leb_spec (s + len (frame_bytes x)) usize_max); [done|]. lia.
Qed.

Lemma normalize_Ok materials k :
  normalize_closure_materials materials = Ok k <-> k ≡ₚ materials /\ material_set k.
Proof.
  unfold normalize_closure_materials, material_set.
  assert (Hlen : forall k, k ≡ₚ materials -> len k = len materials)
    by (intros k' Hp; unfold len; by rewrite Hp).
  destruct (bool_decide (materials = [])) eqn:Ene; cbn [orb].
  { apply bool_decide_eq_true in Ene as ->. split; [done|]. by intros (->%Permutation_nil_r & ? & _). }
  apply bool_decide_eq_false in Ene.
  destruct (N.ltb_spec MAX_CLOSURE_MATERIALS (len materials)) as [Hl|Hl].
  { split; [done|]. intros (Hp & _ & Hn & _). rewrite (Hlen _ Hp) in Hn. lia. }
  rewrite rbind_Ok. setoid_rewrite total_size_from; [|done]. split.
  - intros (t & [-> Ht] & Hr). destruct (N.ltb_spec MAX_CLOSURE_BYTES (0 + total_size materials)); [done|].
    apply checked_by_path_Ok in Hr as [Hp Hset]. rewrite (Hlen _ Hp), (total_size_perm _ _ Hp).
    split; [done|]. split; [by intros ->; apply Permutation_nil_l in Hp|]. split_and!; [done|lia|apply Hset..].
  - intros (Hp & _ & _ & Ht & Hset). rewrite (total_size_perm _ _ Hp) in Ht.
    exists (total_size materials). split; [unfold MAX_CLOSURE_BYTES, u64_max in *; lia|].
    destruct (N.ltb_spec MAX_CLOSURE_BYTES (total_size materials)); [lia|]. by apply checked_by_path_Ok.
Qed.

Lemma normalize_id materials : material_set materials -> normalize_closure_materials materials = Ok materials.
Proof. intros. by apply normalize_Ok. Qed.

Lemma digest_Ok materials digest :
  closure_material_digest materials = Ok digest <->
  exists k, k ≡ₚ materials /\ material_set k /\ digest = closure_sha256 k.
Proof.
  unfold closure_material_digest. rewrite rbind_Ok. setoid_rewrite normalize_Ok.
  split; [intros (k & [? ?] & [= <-]); eauto|]. intros (k & ? & ? & ->). eauto.
Qed.

Lemma for_resigned_runtime_Ok request closure h :
  for_resigned_runtime request closure = Ok h <->
  hr_request h = request /\ hr_closure h ≡ₚ closure /\ material_set (hr_closure h)
  /\ closure_fits (rq_command request) (hr_closure h) = true
  /\ hr_runtime_closure_sha256 h = closure_sha256 (hr_closure h).
Proof.
  unfold for_resigned_runtime. rewrite rbind_Ok. setoid_rewrite normalize_Ok. split.
  - intros (k & [Hp Hset] & (digest & Hd & Hr)%rbind_Ok).
    unfold closure_material_digest in Hd. rewrite normalize_id in Hd by done. injection Hd as <-.
    destruct (closure_fits (rq_command request) k) eqn:Hf; [|done]. injection Hr as <-. simpl. by split_and!.
  - intros (<- & Hp & Hset & Hf & Hd). exists (hr_closure h). split; [done|].
    unfold closure_material_digest. rewrite normalize_id by done. cbn [rbind]. rewrite Hf.
    destruct h; simpl in *. by subst.
Qed.

Lemma completed_Ok disposition outputs stats limits r :
  max_total_bytes limits <= usize_max -> max_report_bytes limits <= usize_max ->
  RunResponse_completed disposition outputs stats limits = Ok r <->
  exists k, k ≡ₚ outputs /\ r = RunCompleted disposition k stats /\ completed_ok limits disposition k stats.
Proof.
  intros Hu Hu'. unfold RunResponse_completed, completed_ok. rewrite rbind_Ok.
  setoid_rewrite validate_frames_Ok; [|done].
  assert (Hrep : forall k, frame_set limits k -> match disposition with
      | Generated => Ok tt
      | _ => let? total := report_bytes k in
             if max_report_bytes limits <? total then Err RLimitExceeded else Ok tt
      end = Ok (E := RunnerError) tt <->
      match disposition with Generated => True | _ => total_bytes k <= max_report_bytes limits end).
  { intros k (_ & _ & Ht & _).
    assert (Hb : report_bytes k = Ok (total_bytes k)).
    { unfold report_bytes. apply report_bytes_from; [done|]. lia. }
    rewrite Hb. simpl. destruct disposition; [done|..];
      destruct (N.ltb_spec (max_report_bytes limits) (total_bytes k)); split; intros; try done; lia. }
  split.
  - intros (k & [Hp Hset] & ([] & Hr & Ht)%rbind_Ok). apply Hrep in Hr; [|done].
    destruct (N.ltb_spec (timeout_ms limits) (duration_ms stats)); [done|]. injection Ht as <-.
    exists k. by split_and!.
  - intros (k & Hp & -> & Hset & Hr & Ht). exists k. split; [done|]. rewrite rbind_Ok. exists tt.
    split; [by apply Hrep|]. by rewrite (proj2 (N.ltb_ge _ _)).
Qed.

End valid.
