(* ===== verification/HelperCodec.v ===== *)
(** * Native runner: the codecs of the helper protocol read back what was written

    Each decoder, on the encoding of a valid value followed by anything, gives the value and
    leaves the rest; and whatever a decoder produces has the types the wire promises. *)

From S2P Require Import Prelude Ordering Text Minicbor Crypto RunnerPolicy RunnerFacts HelperProtocol HelperFacts.

#[local] Open Scope N_scope.

Ltac hrange := change VALID_BITS with 511 in *; unfold u8_max, u16_max, u32_max, u64_max, usize_max, MAX_CONTENT_FRAMES,
  MAX_CONTENT_FRAME_BYTES, MAX_CLOSURE_MATERIALS, MAX_CLOSURE_MATERIAL_BYTES, MAX_RUNTIME_MS,
  SEMGREP_RUNTIME_MS, MAX_STAGE_PATH_BYTES in *; simpl in *; lia.

Section roundtrip.
Context `{UnicodeTables} `{RunnerHost} `{PrimitivesLaws} `{MinicborLaws}.

Lemma hdec_enc {A} (f : bytes -> option (A * bytes)) x e r :
  f (e ++ r) = Some (x, r) -> hdec f (e ++ r) = Ok (x, r).
Proof. unfold hdec. by intros ->. Qed.

Lemma expect_hkey_enc v r : v <= u8_max -> expect_hkey v (hkey v ++ r) = Ok r.
Proof.
  intros. unfold expect_hkey, hkey. rewrite (hdec_enc _ v) by by apply dec_enc_u8.
  simpl. by rewrite N.eqb_refl.
Qed.

Lemma require_hmap_enc n r : n <= u64_max -> require_hmap n (enc_map n ++ r) = Ok r.
Proof.
  intros. unfold require_hmap. rewrite (hdec_enc _ (Some n)) by by apply dec_enc_map.
  simpl. by rewrite bool_decide_eq_true_2.
Qed.

Lemma map_size_enc n r : n <= u64_max -> map_size (enc_map n ++ r) = Ok (n, r).
Proof. intros. unfold map_size. by rewrite (hdec_enc _ (Some n)) by by apply dec_enc_map. Qed.

Lemma read_hfixed_enc n b r :
  n <= u64_max -> len b = n -> read_hfixed n (enc_bytes b ++ r) = Ok (b, r).
Proof.
  intros Hn Hb. unfold read_hfixed. rewrite (hdec_enc _ b) by (apply dec_enc_bytes; lia).
  simpl. by rewrite Hb, N.eqb_refl.
Qed.

Lemma read_path_enc p r : valid_path p -> read_path (enc_str p ++ r) = Ok (p, r).
Proof.
  intros [Hwf Hp]. unfold read_path. apply StagePath_Ok in Hp as Hp'.
  rewrite (hdec_enc _ p) by (apply dec_enc_str; [done|]; destruct Hp' as (_ & _ & ? & _); hrange).
  simpl. by rewrite Hp.
Qed.

Lemma decode_each_enc {A} (item : bytes -> result RunnerError (A * bytes)) (enc : A -> bytes) l r :
  (forall x r, x ∈ l -> item (enc x ++ r) = Ok (x, r)) ->
  decode_each item (length l) ((l ≫= enc) ++ r) = Ok (l, r).
Proof.
  revert r. induction l as [|x l IH]; intros r Hitem; [done|].
  rewrite bind_cons, <- app_assoc. cbn [length decode_each].
  rewrite Hitem by set_solver. cbn [rbind].
  rewrite IH by (intros; apply Hitem; set_solver). done.
Qed.

(** Consumes one written item at the front of the decoder's input. *)
Ltac hdec_step :=
  first
    [ rewrite expect_hkey_enc by hrange
    | rewrite require_hmap_enc by hrange
    | rewrite map_size_enc by hrange
    | rewrite read_hfixed_enc by (done || hrange)
    | rewrite read_path_enc by done
    | erewrite (hdec_enc dec_u8) by (apply dec_enc_u8; hrange)
    | erewrite (hdec_enc dec_u16) by (apply dec_enc_u16; hrange)
    | erewrite (hdec_enc dec_u32) by (apply dec_enc_u32; hrange)
    | erewrite (hdec_enc dec_u64) by (apply dec_enc_u64; hrange)
    | erewrite (hdec_enc dec_bool) by apply dec_enc_bool
    | erewrite (hdec_enc dec_bytes) by (apply dec_enc_bytes; hrange) ]; cbn [rbind].

Lemma decode_command_enc c r : typed_command c -> decode_command (encode_command c ++ r) = Ok (c, r).
Proof.
  intros Ht. unfold decode_command, encode_command. destruct c as [target features| |]; rewrite <- !app_assoc.
  - destruct Ht as [Hz Hb]. do 4 hdec_step.
    erewrite (hdec_enc dec_u8) by (apply dec_enc_u8; destruct target; hrange). cbn [rbind].
    assert (target_from_code (target_code target) = Ok target) as -> by by destruct target. cbn [rbind].
    do 2 hdec_step. rewrite (proj2 (features_from_bits_Ok features features)); [done|].
    split_and!; [done..|]. apply land_valid; hrange.
  - do 3 hdec_step. done.
  - do 3 hdec_step. done.
Qed.

Lemma decode_content_frame_enc f r :
  valid_frame f -> decode_content_frame (encode_content_frame f ++ r) = Ok (f, r).
Proof.
  intros (Hp & Hl & Hd). unfold decode_content_frame, encode_content_frame. rewrite <- !app_assoc.
  do 4 hdec_step. rewrite read_hfixed_enc by (rewrite ?Hd, ?sha256_len; hrange). cbn [rbind].
  do 2 hdec_step. unfold ContentFrame_new. rewrite (proj2 (N.ltb_ge _ _)) by done. cbn [rbind].
  simpl. rewrite <- Hd, bool_decide_eq_true_2 by done. by destruct f.
Qed.

Lemma decode_content_frames_enc l r :
  Forall valid_frame l -> len l <= MAX_CONTENT_FRAMES ->
  decode_content_frames (encode_content_frames l ++ r) = Ok (l, r).
Proof.
  intros Hf Hl. unfold decode_content_frames, encode_content_frames. rewrite <- !app_assoc.
  rewrite (hdec_enc _ (Some (len l))) by (apply dec_enc_array; hrange). cbn [rbind ok_or].
  rewrite (proj2 (N.ltb_ge _ _)) by done. unfold len. rewrite Nat2N.id.
  apply decode_each_enc. intros x r' Hx. apply decode_content_frame_enc.
  by eapply Forall_forall in Hf.
Qed.

Lemma decode_closure_material_enc m r :
  valid_material m -> decode_closure_material (encode_closure_material m ++ r) = Ok (m, r).
Proof.
  intros (Hp & [Hs Hs'] & Hd). unfold decode_closure_material, encode_closure_material. rewrite <- !app_assoc.
  do 9 hdec_step. unfold ClosureMaterial_new.
  rewrite (proj2 (N.eqb_neq _ _)), (proj2 (N.ltb_ge _ _)) by lia. by destruct m.
Qed.

Lemma decode_closure_materials_enc l r :
  Forall valid_material l -> l <> [] -> len l <= MAX_CLOSURE_MATERIALS ->
  decode_closure_materials (encode_closure_materials l ++ r) = Ok (l, r).
Proof.
  intros Hf Hne Hl. unfold decode_closure_materials, encode_closure_materials. rewrite <- !app_assoc.
  rewrite (hdec_enc _ (Some (len l))) by (apply dec_enc_array; hrange). cbn [rbind ok_or].
  assert (len l <> 0) by (destruct l; [done|unfold len; simpl; lia]).
  rewrite (proj2 (N.ltb_ge _ _)), (proj2 (N.eqb_neq _ _)) by done.
  cbn [orb]. unfold len. rewrite Nat2N.id.
  apply decode_each_enc. intros x r' Hx. apply decode_closure_material_enc.
  by eapply Forall_forall in Hf.
Qed.

Lemma frame_set_len command fs : frame_set (for_command command) fs -> len fs <= MAX_CONTENT_FRAMES.
Proof. by intros [? _]. Qed.

Lemma decode_request_entries_enc q r :
  valid_request q ->
  decode_request_entries (request_entries q ++ r)
  = Ok (rq_nonce q, rq_closure_sha256 q, rq_command q, rq_inputs q, r).
Proof.
  intros (Hn & Hc & Ht & _ & Hf & Hset & _). unfold decode_request_entries, request_entries.
  rewrite <- !app_assoc. do 5 hdec_step. rewrite decode_command_enc by done. cbn [rbind].
  hdec_step. by rewrite decode_content_frames_enc by eauto using frame_set_len.
Qed.

Lemma decode_disposition_enc x r :
  valid_disposition x -> decode_disposition (encode_disposition x ++ r) = Ok (x, r).
Proof.
  intros Hx. unfold decode_disposition, encode_disposition. destruct x as [| |n]; simpl in Hx; cbv beta iota;
    rewrite <- !app_assoc; do 5 hdec_step; [done..|]. destruct Hx as [Hp _]. destruct n; [lia|done].
Qed.

Lemma decode_stats_enc s r : valid_stats s -> decode_stats (encode_stats s ++ r) = Ok (s, r).
Proof.
  intros (Hf & Hb & Hd). unfold decode_stats, encode_stats. rewrite <- !app_assoc.
  do 7 hdec_step. rewrite (proj2 (N.ltb_ge _ _)) by done. by destruct s.
Qed.

Lemma decode_failed_enc k c r :
  k <= u8_max -> decode_failed k (hkey k ++ enc_uint (failure_code c) ++ r) = Ok (RunFailed c, r).
Proof.
  intros Hk. unfold decode_failed. rewrite expect_hkey_enc by done. cbn [rbind].
  erewrite (hdec_enc dec_u8) by (apply dec_enc_u8; destruct c; hrange). cbn [rbind]. by destruct c.
Qed.

Lemma decode_completed_enc k command x fs s r :
  k + 2 <= u8_max ->
  valid_response (for_command command) (RunCompleted x fs s) ->
  decode_completed k (for_command command)
    (hkey k ++ encode_disposition x ++ hkey (k + 1) ++ encode_content_frames fs
     ++ hkey (k + 2) ++ encode_stats s ++ r) = Ok (RunCompleted x fs s, r).
Proof.
  intros Hk (Hx & Hf & Hs & Hok). unfold decode_completed.
  rewrite expect_hkey_enc by hrange. cbn [rbind]. rewrite decode_disposition_enc by done. cbn [rbind].
  rewrite expect_hkey_enc by hrange. cbn [rbind].
  rewrite decode_content_frames_enc; [cbn [rbind]|done|by eapply frame_set_len, Hok].
  rewrite expect_hkey_enc by hrange. cbn [rbind]. rewrite decode_stats_enc by done. cbn [rbind].
  rewrite (proj2 (completed_Ok x fs s (for_command command) (RunCompleted x fs s)
    (for_command_total command) ltac:(by destruct command))); [done|]. exists fs. by split_and!.
Qed.

(** ** Typing *)

Lemma hdec_Ok {A} (f : bytes -> option (A * bytes)) d x r : hdec f d = Ok (x, r) -> f d = Some (x, r).
Proof. apply ok_or_Ok. Qed.

Lemma read_hfixed_len n d b r : read_hfixed n d = Ok (b, r) -> len b = n.
Proof.
  unfold read_hfixed. intros ([b' d'] & _ & Hr)%rbind_Ok.
  destruct (N.eqb_spec (len b') n); [|done]. by injection Hr as <- <-.
Qed.

Lemma read_path_valid d p r : read_path d = Ok (p, r) -> valid_path p.
Proof.
  unfold read_path. intros ([s d'] & Hs%hdec_Ok & (q & Hq & [= <- <-])%rbind_Ok)%rbind_Ok.
  apply StagePath_Ok in Hq as Hq'. destruct Hq' as [-> _]. split; [by eapply dec_str_wf|done].
Qed.

Lemma decode_each_valid {A} (item : bytes -> result RunnerError (A * bytes)) (P : A -> Prop) n d l r :
  (forall d x r, item d = Ok (x, r) -> P x) ->
  decode_each item n d = Ok (l, r) -> Forall P l /\ length l = n.
Proof.
  intros Hitem. revert d l r. induction n as [|n IH]; intros d l r; simpl.
  { by intros [= <- <-]. }
  intros ([x d1] & Hx & ([xs d2] & Hxs & [= <- <-])%rbind_Ok)%rbind_Ok. simpl.
  destruct (IH _ _ _ Hxs) as [? <-]. split; [|done]. constructor; eauto.
Qed.

End roundtrip.

(** Splits a successful run of a decoder into its steps. *)
Ltac hdec_inv :=
  repeat match goal with
  | p : (_ * _)%type |- _ => destruct p
  | H : rbind _ _ = Ok _ |- _ => apply rbind_Ok in H as (? & ? & H)
  | H : (let '(_, _) := ?p in _) = Ok _ |- _ => destruct p
  | H : (if ?c then _ else Err _) = Ok _ |- _ => destruct c eqn:?; [|discriminate H]
  | H : (if ?c then Err _ else _) = Ok _ |- _ => destruct c eqn:?; [discriminate H|]
  | H : Ok _ = Ok _ |- _ => injection H as H; subst
  | H : read_hfixed _ _ = Ok _ |- _ => apply read_hfixed_len in H
  | H : read_path _ = Ok _ |- _ => apply read_path_valid in H
  | H : hdec dec_u8 _ = Ok _ |- _ => apply hdec_Ok, dec_u8_range in H
  | H : hdec dec_u16 _ = Ok _ |- _ => apply hdec_Ok, dec_u16_range in H
  | H : hdec dec_u32 _ = Ok _ |- _ => apply hdec_Ok, dec_u32_range in H
  | H : hdec dec_u64 _ = Ok _ |- _ => apply hdec_Ok, dec_u64_range in H
  | H : (_, _) = (_, _) |- _ => injection H as ? ?; subst
  end.

Section typing.
Context `{UnicodeTables} `{RunnerHost} `{PrimitivesLaws} `{MinicborLaws}.

Lemma decode_command_typed d c r : decode_command d = Ok (c, r) -> typed_command c.
Proof.
  unfold decode_command. intros Hd. hdec_inv.
  match type of Hd with match ?kind with _ => _ end = _ => rename kind into k end.
  destruct k as [|[p|p|]]; try destruct p; try done;
    repeat match type of Hd with (match ?s with _ => _ end) = _ => destruct s; try done end; hdec_inv; try done.
  match goal with E : features_from_bits _ = _ |- _ => apply features_from_bits_Ok in E as (-> & Hz & Hb) end.
  apply land_valid in Hb; [|done]. done.
Qed.

Lemma decode_content_frame_valid d f r : decode_content_frame d = Ok (f, r) -> valid_frame f.
Proof.
  unfold decode_content_frame, ContentFrame_new. intros Hd. hdec_inv. split_and!; simpl; [done| |done].
  by apply N.ltb_ge.
Qed.

Lemma decode_content_frames_valid d l r : decode_content_frames d = Ok (l, r) -> Forall valid_frame l.
Proof.
  unfold decode_content_frames. intros Hd. hdec_inv.
  eapply decode_each_valid; [|done]. intros. by eapply decode_content_frame_valid.
Qed.

Lemma decode_closure_materials_valid d l r :
  decode_closure_materials d = Ok (l, r) -> Forall valid_material l.
Proof.
  unfold decode_closure_materials. intros Hd. hdec_inv.
  eapply decode_each_valid; [|done]. intros d' m r' Hm. unfold decode_closure_material, ClosureMaterial_new in Hm.
  hdec_inv. repeat match goal with E : _ || _ = false |- _ => apply orb_false_iff in E as [? ?] end.
  rewrite N.eqb_neq, N.ltb_ge in *. split_and!; simpl; [done|lia|done|done].
Qed.

Lemma decode_request_entries_typed d nonce closure command inputs r :
  decode_request_entries d = Ok (nonce, closure, command, inputs, r) ->
  len nonce = 16 /\ len closure = 32 /\ typed_command command /\ Forall valid_frame inputs.
Proof.
  unfold decode_request_entries. intros Hd. hdec_inv. split_and!; [done..| |].
  - by eapply decode_command_typed.
  - by eapply decode_content_frames_valid.
Qed.

Lemma decode_disposition_valid d x r : decode_disposition d = Ok (x, r) -> valid_disposition x.
Proof.
  unfold decode_disposition. intros Hd. hdec_inv.
  repeat match type of Hd with (match ?s with _ => _ end) = _ => destruct s eqn:?; try done end; hdec_inv; try done;
    (split; [by apply N.ltb_lt|done]).
Qed.

Lemma decode_stats_valid d s r : decode_stats d = Ok (s, r) -> valid_stats s.
Proof. unfold decode_stats. intros Hd. hdec_inv. split_and!; simpl; [done..|]. by apply N.ltb_ge. Qed.

Lemma decode_completed_valid k command d x r :
  decode_completed k (for_command command) d = Ok (x, r) -> valid_response (for_command command) x.
Proof.
  unfold decode_completed. intros Hd. hdec_inv.
  match goal with E : RunResponse_completed _ _ _ _ = _ |- _ =>
    apply completed_Ok in E as (fs & Hp & -> & Hok); [|by destruct command..] end.
  simpl. split_and!; [by eapply decode_disposition_valid| |by eapply decode_stats_valid|done].
  rewrite Hp. by eapply decode_content_frames_valid.
Qed.

Lemma decode_failed_valid k limits d x r : decode_failed k d = Ok (x, r) -> valid_response limits x.
Proof. unfold decode_failed. intros Hd. by hdec_inv. Qed.

End typing.
