(* ===== verification/HelperWire.v ===== *)
(** * Native runner: the closure digest and messages on the wire

    The preimage of the closure digest determines the closure; a valid request is never too
    large for a message; and a message that was written is the next one that is read. *)

From S2P Require Import Prelude Ordering Text Minicbor Crypto RunnerPolicy RunnerFacts HelperProtocol HelperFacts HelperCodec.

#[local] Open Scope N_scope.

(** ** Cancelling items from concatenations *)

Lemma app_same_len {A} (l k r s : list A) : length l = length k -> l ++ r = k ++ s -> l = k /\ r = s.
Proof. intros Hl E. by apply app_inj_1 in E. Qed.

Lemma app_before_mark {A} (m : A) l k r s :
  (m ∉ l) -> (m ∉ k) -> l ++ m :: r = k ++ m :: s -> l = k /\ r = s.
Proof.
  revert k. induction l as [|x l IH]; intros [|y k] Hl Hk E; simplify_eq/=; try set_solver.
  destruct (IH k) as [-> ->]; [set_solver..|done|done].
Qed.

#[local] Ltac Zify.zify_post_hook ::= Z.to_euclidean_division_equations.

Lemma to_be_of_be l : to_be (length l) (of_be l) = l.
Proof.
  induction l as [|b l IH] using rev_ind; [done|]. rewrite length_app, Nat.add_comm. cbn [length Nat.add to_be].
  rewrite of_be_app. pose proof (byte_to_N_lt b).
  replace ((256 * of_be l + Byte.to_N b) / 256) with (of_be l) by lia. rewrite IH. f_equal. f_equal.
  rewrite <- (byte_of_to_N b) at 2. unfold byte_of. f_equal.
  replace ((256 * of_be l + Byte.to_N b) mod 256) with (Byte.to_N b mod 256) by lia. done.
Qed.

Lemma to_be_unique k l n : length l = k -> of_be l = n -> l = to_be k n.
Proof. intros <- <-. by rewrite to_be_of_be. Qed.

Lemma byte_of_zero n : byte_of n = byte_of 0 -> n mod 256 = 0.
Proof. intros E. by rewrite <- to_N_byte_of, E, to_N_byte_of. Qed.

Lemma utf8_no_zero c : 0 < c -> is_scalar c = true -> byte_of 0 ∉ utf8_char c.
Proof.
  intros Hc Hs Hin.
  assert (Hm : c <= 0x10FFFF).
  { unfold is_scalar in Hs. apply orb_true_iff in Hs as [?%N.ltb_lt|[_ ?%N.leb_le]%andb_true_iff]; lia. }
  clear Hs. unfold utf8_char in Hin.
  repeat match type of Hin with context [if ?a <? ?b then _ else _] => destruct (N.ltb_spec a b) end;
    repeat (apply elem_of_cons in Hin as [Hin|Hin]); try (by apply not_elem_of_nil in Hin); symmetry in Hin; apply byte_of_zero in Hin; lia.
Qed.

Section wire.
Context `{UnicodeTables} `{RunnerHost} `{PrimitivesLaws}.

(** ** The closure digest *)

Definition closure_preimage (closure : list ClosureMaterial) : bytes :=
  closure_domain ++ (closure ≫= material_preimage).

Lemma path_no_zero p : valid_path p -> byte_of 0 ∉ as_bytes p.
Proof.
  intros [Hwf (_ & _ & _ & _ & Hch & _)%StagePath_Ok] (c & Hin & Hc)%list_elem_of_bind.
  unfold wf_str in Hwf. rewrite forallb_forall in Hch, Hwf. apply list_elem_of_In in Hc.
  eapply utf8_no_zero; [|by apply Hwf|done]. specialize (Hch c Hc).
  destruct c; [done|lia].
Qed.

Lemma material_preimage_inj m m' r r' :
  valid_material m -> valid_material m' ->
  material_preimage m ++ r = material_preimage m' ++ r' -> m = m' /\ r = r'.
Proof.
  intros (Hp & [_ Hs] & Hd) (Hp' & [_ Hs'] & Hd') E. unfold material_preimage in E.
  rewrite <- !app_assoc in E. cbn [app] in E.
  apply app_before_mark in E as [Ep E]; [|by apply path_no_zero..].
  apply app_same_len in E as [Es E]; [|by rewrite !length_to_be].
  apply app_same_len in E as [Ed E]; [|unfold len in *; lia].
  injection E as Ex ->. split; [|done].
  apply as_bytes_inj in Ep; [|apply Hp|apply Hp'].
  apply to_be_inj in Es; [|unfold MAX_CLOSURE_MATERIAL_BYTES in *; simpl; lia..].
  destruct m as [p s d x], m' as [p' s' d' x']; simpl in *. subst. f_equal.
  by destruct x, x'; vm_compute in Ex.
Qed.

Lemma material_preimage_nonempty m : material_preimage m <> [].
Proof. unfold material_preimage. by destruct (as_bytes (material_path m)). Qed.

Lemma materials_inj l k :
  Forall valid_material l -> Forall valid_material k ->
  l ≫= material_preimage = k ≫= material_preimage -> l = k.
Proof.
  revert k. induction l as [|x l IH]; intros [|y k] Hl Hk E; [done|..].
  - rewrite bind_cons in E. symmetry in E. apply app_nil in E as [E _]. by apply material_preimage_nonempty in E.
  - rewrite bind_cons in E. apply app_nil in E as [E _]. by apply material_preimage_nonempty in E.
  - rewrite !bind_cons in E. inversion Hl; subst. inversion Hk; subst.
    apply material_preimage_inj in E as [-> E]; [|done..]. f_equal. by apply IH.
Qed.

Lemma closure_preimage_inj l k :
  Forall valid_material l -> Forall valid_material k -> closure_preimage l = closure_preimage k -> l = k.
Proof. unfold closure_preimage. intros Hl Hk E%(inj (app closure_domain)). by apply materials_inj. Qed.

Lemma material_set_unique l k : material_set l -> material_set k -> l ≡ₚ k -> l = k.
Proof. intros (_ & _ & _ & Ha & _) (_ & _ & _ & Hb & _). by apply (ascending_unique material_path). Qed.

(** ** Framing over byte strings *)

Lemma read_exact_app (a r : bytes) : read_exact (length a) (a ++ r) = (r, Some a).
Proof.
  simpl. rewrite length_app. rewrite (proj2 (Nat.leb_le _ _)) by lia.
  by rewrite take_app_length, drop_app_length.
Qed.

Lemma length_header kind n : length (message_header kind n) = HEADER_BYTES.
Proof. unfold message_header. rewrite !length_app, !length_to_be. done. Qed.

Lemma header_fields kind n :
  kind <= u8_max -> n <= u32_max ->
  take 4 (message_header kind n) = MAGIC /\ of_be (slice 4 6 (message_header kind n)) = VERSION
  /\ of_be (slice 6 7 (message_header kind n)) = kind /\ of_be (slice 7 8 (message_header kind n)) = 0
  /\ of_be (slice 8 12 (message_header kind n)) = n.
Proof.
  intros Hk Hn. unfold message_header, slice.
  assert (Hb : length (to_be 4 n) = 4%nat) by apply length_to_be.
  destruct (to_be 4 n) as [|b0 [|b1 [|b2 [|b3 [|]]]]] eqn:E; try done. split_and!; try done.
  - change (of_be [byte_of kind] = kind). unfold of_be. simpl. rewrite to_N_byte_of.
    apply N.mod_small. unfold u8_max in Hk. lia.
  - change (of_be [b0; b1; b2; b3] = n). rewrite <- E. apply of_to_be. unfold u32_max in Hn. simpl. lia.
Qed.

Lemma bad_header_written kind expected n :
  kind <= u8_max -> n <= u32_max ->
  bad_header expected (message_header kind n) = negb (kind =? expected).
Proof.
  intros Hk Hn. destruct (header_fields kind n Hk Hn) as (E1 & E2 & E3 & E4 & _).
  unfold bad_header. rewrite E1, E2, E3, E4, bool_decide_eq_true_2, !N.eqb_refl by done.
  simpl. by rewrite orb_false_r.
Qed.

Lemma write_message_Ok kind payload (w : bytes) :
  payload <> [] -> len payload <= MAX_WIRE_PAYLOAD_BYTES ->
  write_message kind payload w = (w ++ message_header kind (len payload) ++ payload, Ok tt).
Proof.
  intros Hne Hl. unfold write_message.
  rewrite bool_decide_eq_false_2, !(proj2 (N.ltb_ge _ _)) by (unfold MAX_WIRE_PAYLOAD_BYTES, u32_max in *; done || lia).
  cbn [orb]. simpl. by rewrite <- app_assoc.
Qed.

Lemma read_message_written kind expected payload (r : bytes) :
  kind <= u8_max -> payload <> [] -> len payload <= MAX_WIRE_PAYLOAD_BYTES ->
  read_message expected (message_header kind (len payload) ++ payload ++ r)
  = if kind =? expected then (r, Ok payload) else (payload ++ r, Err RInvalidFrame).
Proof.
  intros Hk Hne Hl. unfold read_message.
  assert (Hu : len payload <= u32_max) by (unfold MAX_WIRE_PAYLOAD_BYTES, u32_max in *; lia).
  rewrite <- (length_header kind (len payload)), read_exact_app, bad_header_written by done.
  destruct (kind =? expected); [|done]. simpl negb. cbv iota zeta.
  destruct (header_fields kind (len payload)) as (_ & _ & _ & _ & ->); [done..|].
  assert (len payload <> 0) by (destruct payload; [done|rewrite len_cons; lia]).
  rewrite (proj2 (N.eqb_neq _ _)), (proj2 (N.ltb_ge _ _)) by done.
  cbn [orb]. unfold len. rewrite Nat2N.id. by rewrite read_exact_app.
Qed.

Lemma read_exact_Some n (input rest b : bytes) :
  read_exact n input = (rest, Some b) -> input = b ++ rest /\ length b = n.
Proof.
  simpl. destruct (Nat.leb_spec n (length input)); [|done]. intros [= <- <-].
  by rewrite take_drop, length_take_le.
Qed.

Lemma header_unique kind header :
  length header = HEADER_BYTES -> bad_header kind header = false ->
  header = message_header kind (of_be (slice 8 12 header)).
Proof.
  intros Hl Hb. unfold HEADER_BYTES in Hl.
  do 12 (destruct header as [|? header]; [done|]). destruct header; [|done]. clear Hl.
  unfold bad_header in Hb. repeat apply orb_false_iff in Hb as [Hb ?].
  rewrite !negb_false_iff, !N.eqb_eq in *. apply bool_decide_eq_true in Hb.
  unfold slice in *. cbn [take drop] in *. unfold message_header. rewrite <- Hb.
  match goal with E : of_be [?x; ?y] = _ |- _ => apply (to_be_unique 2 [x; y] _ eq_refl) in E as <- end.
  match goal with |- context [of_be [?x; ?y; ?z; ?w]] =>
    rewrite <- (to_be_unique 4 [x; y; z; w] _ eq_refl eq_refl) end.
  repeat match goal with E : of_be [?x] = _ |- _ =>
    apply (to_be_unique 1 [x] _ eq_refl) in E; cbn [to_be app] in E; injection E as -> end.
  done.
Qed.

Lemma read_message_inv kind (input rest payload : bytes) :
  read_message kind input = (rest, Ok payload) ->
  payload <> [] /\ len payload <= MAX_WIRE_PAYLOAD_BYTES
  /\ input = message_header kind (len payload) ++ payload ++ rest.
Proof.
  unfold read_message. destruct (read_exact HEADER_BYTES input) as [r1 [header|]] eqn:E1; [|done].
  apply read_exact_Some in E1 as [-> Hl]. destruct (bad_header kind header) eqn:Eb; [done|]. cbv zeta.
  apply header_unique in Eb as Hh; [|done].
  destruct ((of_be (slice 8 12 header) =? 0) || _) eqn:Ez; [done|].
  apply orb_false_iff in Ez as [Hz%N.eqb_neq Hm%N.ltb_ge].
  destruct (read_exact _ r1) as [r2 [p|]] eqn:E2; [|done]. intros [= <- <-].
  apply read_exact_Some in E2 as [-> Hp].
  assert (Hlen : len p = of_be (slice 8 12 header)) by (unfold len; rewrite Hp; apply N2Nat.id).
  rewrite Hlen, <- Hh. split_and!; [|done|done]. intros ->. unfold len in Hlen. simpl in Hlen. lia.
Qed.

End wire.

(** ** Sizes *)

(** What the documentation of the encoder says of sizes: an item header takes one to nine
    bytes. *)
Class MinicborSizes `{Minicbor} : Prop := {
  enc_map_size n : 1 <= len (enc_map n) <= 9;
  enc_array_size n : len (enc_array n) <= 9;
  enc_uint_size n : len (enc_uint n) <= 9;
  enc_bytes_size b : len (enc_bytes b) <= 9 + len b;
  enc_str_size s : len (enc_str s) <= 9 + str_len s;
  enc_bool_size b : len (enc_bool b) <= 9;
}.

Section sizes.
Context `{UnicodeTables} `{RunnerHost} `{PrimitivesLaws} `{Minicbor} `{!MinicborSizes}.

Lemma bind_len {A} (f : A -> bytes) (bound : A -> N) l :
  (forall x, x ∈ l -> len (f x) <= bound x) ->
  len (l ≫= f) <= foldr (fun x total => bound x + total) 0 l.
Proof.
  induction l as [|x l IH]; intros Hf; [done|]. rewrite bind_cons, len_app. simpl.
  pose proof (Hf x ltac:(set_solver)). specialize (IH ltac:(set_solver)). lia.
Qed.

Lemma frame_size f :
  valid_frame f -> len (encode_content_frame f) <= 1200 + len (frame_bytes f).
Proof.
  intros ([_ (_ & _ & Hp & _)%StagePath_Ok] & _ & Hd). unfold encode_content_frame, hkey. rewrite !len_app.
  pose proof (enc_map_size 3). pose proof (enc_uint_size 0). pose proof (enc_uint_size 1).
  pose proof (enc_uint_size 2). pose proof (enc_str_size (frame_path f)).
  pose proof (enc_bytes_size (frame_sha256 f)) as Hs. rewrite Hd, sha256_len in Hs. rewrite Hd.
  pose proof (enc_bytes_size (frame_bytes f)). unfold MAX_STAGE_PATH_BYTES in Hp. lia.
Qed.

Lemma frames_size l :
  Forall valid_frame l -> len (encode_content_frames l) <= 9 + 1200 * len l + total_bytes l.
Proof.
  intros Hf. unfold encode_content_frames. rewrite len_app. pose proof (enc_array_size (len l)).
  rewrite Forall_forall in Hf.
  pose proof (bind_len encode_content_frame (fun f => 1200 + len (frame_bytes f)) l
    (fun x Hx => frame_size x (Hf x Hx))) as Hb.
  assert (foldr (fun f total => 1200 + len (frame_bytes f) + total) 0 l = 1200 * len l + total_bytes l); [|lia].
  clear. unfold total_bytes. induction l as [|x l IH]; [done|]. simpl. rewrite IH, len_cons. lia.
Qed.

Lemma material_encoding_size m : valid_material m -> len (encode_closure_material m) <= 1200.
Proof.
  intros ([_ (_ & _ & Hp & _)%StagePath_Ok] & _ & Hd). unfold encode_closure_material, hkey. rewrite !len_app.
  pose proof (enc_map_size 4). pose proof (enc_uint_size 0). pose proof (enc_uint_size 1).
  pose proof (enc_uint_size 2). pose proof (enc_uint_size 3). pose proof (enc_str_size (material_path m)).
  pose proof (enc_bytes_size (material_sha256 m)) as Hs. rewrite Hd in Hs.
  pose proof (enc_uint_size (material_size m)). pose proof (enc_bool_size (material_executable m)).
  unfold MAX_STAGE_PATH_BYTES in Hp. lia.
Qed.

Lemma materials_encoding_size l :
  Forall valid_material l -> len (encode_closure_materials l) <= 9 + 1200 * len l.
Proof.
  intros Hf. unfold encode_closure_materials. rewrite len_app. pose proof (enc_array_size (len l)).
  rewrite Forall_forall in Hf.
  pose proof (bind_len encode_closure_material (fun _ => 1200) l
    (fun x Hx => material_encoding_size x (Hf x Hx))) as Hb.
  assert (foldr (fun (_ : ClosureMaterial) total => 1200 + total) 0 l = 1200 * len l); [|lia].
  clear. induction l as [|x l IH]; [done|]. simpl. rewrite IH, len_cons. lia.
Qed.

Lemma command_size c : len (encode_command c) <= 100.
Proof.
  pose proof (enc_map_size 1). pose proof (enc_map_size 3).
  pose proof (enc_uint_size 0). pose proof (enc_uint_size 1). pose proof (enc_uint_size 2).
  unfold encode_command, hkey. destruct c as [t f| |]; rewrite !len_app; [|lia..].
  pose proof (enc_uint_size (target_code t)). pose proof (enc_uint_size f). lia.
Qed.

Lemma request_entries_size q :
  valid_request q -> len (request_entries q) <= 300 + 1200 * 1024 + MAX_TOTAL_CONTENT_BYTES.
Proof.
  intros (Hn & Hc & _ & _ & Hf & (Hl & _ & Ht & _) & _). unfold request_entries, hkey. rewrite !len_app.
  pose proof (enc_uint_size 0). pose proof (enc_uint_size 1). pose proof (enc_uint_size 2).
  pose proof (enc_uint_size 3). pose proof (enc_bytes_size (rq_nonce q)).
  pose proof (enc_bytes_size (rq_closure_sha256 q)). pose proof (command_size (rq_command q)).
  pose proof (frames_size _ Hf). simpl in Hl, Ht. unfold MAX_CONTENT_FRAMES in Hl. lia.
Qed.

Lemma helper_request_fits h :
  valid_helper_request h ->
  encode_helper_request_payload h <> [] /\ len (encode_helper_request_payload h) <= MAX_WIRE_PAYLOAD_BYTES.
Proof.
  intros (Hq & Hm & (_ & Hl & _) & _ & Hd). unfold encode_helper_request_payload, hkey.
  pose proof (request_entries_size _ Hq). pose proof (materials_encoding_size _ Hm).
  pose proof (enc_map_size 6). pose proof (enc_uint_size 4). pose proof (enc_uint_size 5).
  pose proof (enc_bytes_size (hr_runtime_closure_sha256 h)) as Hs. rewrite Hd in Hs at 2.
  unfold closure_sha256 in Hs. rewrite sha256_len in Hs. split.
  - intros E%app_nil. destruct E as [E _]. rewrite E in *. unfold len in *. simpl in *. lia.
  - rewrite !len_app. unfold MAX_CLOSURE_MATERIALS, MAX_TOTAL_CONTENT_BYTES, MAX_WIRE_PAYLOAD_BYTES in *. lia.
Qed.

Lemma disposition_size x : len (encode_disposition x) <= 100.
Proof.
  pose proof (enc_map_size 2). pose proof (enc_uint_size 0). pose proof (enc_uint_size 1).
  pose proof (enc_uint_size 2). unfold encode_disposition, hkey.
  destruct x as [| |n]; rewrite !len_app; [lia..|]. pose proof (enc_uint_size n). lia.
Qed.

Lemma stats_size s : len (encode_stats s) <= 100.
Proof.
  pose proof (enc_map_size 3). pose proof (enc_uint_size 0). pose proof (enc_uint_size 1).
  pose proof (enc_uint_size 2). unfold encode_stats, hkey. rewrite !len_app.
  pose proof (enc_uint_size (scanned_files s)). pose proof (enc_uint_size (scanned_bytes s)).
  pose proof (enc_uint_size (duration_ms s)). lia.
Qed.

Lemma bound_response_fits q x :
  valid_request q -> valid_response (for_command (rq_command q)) x ->
  encode_bound_response_payload q x <> []
  /\ len (encode_bound_response_payload q x) <= MAX_WIRE_PAYLOAD_BYTES.
Proof.
  intros (Hn & Hc & _) Hx. unfold encode_bound_response_payload, hkey.
  pose proof (enc_map_size 6). pose proof (enc_map_size 4).
  pose proof (enc_uint_size 0). pose proof (enc_uint_size 1). pose proof (enc_uint_size 2).
  pose proof (enc_uint_size 3). pose proof (enc_uint_size 4). pose proof (enc_uint_size 5).
  pose proof (enc_bytes_size (rq_nonce q)). pose proof (enc_bytes_size (rq_closure_sha256 q)).
  destruct x as [d fs s|c]; simpl; rewrite ?len_app.
  - destruct Hx as (_ & Hf & _ & (Hl & _ & Ht & _) & _).
    pose proof (disposition_size d). pose proof (stats_size s). pose proof (frames_size _ Hf).
    simpl in Hl, Ht. unfold MAX_CONTENT_FRAMES, MAX_TOTAL_CONTENT_BYTES, MAX_WIRE_PAYLOAD_BYTES in *.
    split; [|lia]. intros E%app_nil. destruct E as [E _]. rewrite E in *. unfold len in *. simpl in *. lia.
  - pose proof (enc_uint_size (failure_code c)). unfold MAX_WIRE_PAYLOAD_BYTES.
    split; [|lia]. intros E%app_nil. destruct E as [E _]. rewrite E in *. unfold len in *. simpl in *. lia.
Qed.

End sizes.

Lemma Rfc8949_sizes : MinicborSizes (H := Rfc8949.codec).
Proof.
  assert (Hh : forall m n, 1 <= len (Rfc8949.head m n) <= 9).
  { intros m n. unfold Rfc8949.head. repeat case_match; unfold len; cbn [length]; rewrite ?length_to_be; lia. }
  split; intros; cbn [enc_map enc_array enc_uint enc_bytes enc_str enc_bool Rfc8949.codec]; rewrite ?len_app;
    try apply Hh; unfold str_len.
  - pose proof (Hh 2 (len b)). lia.
  - pose proof (Hh 3 (len (as_bytes s))). lia.
  - unfold len. simpl. lia.
Qed.
