(* ===== verification/RunnerReports.v ===== *)
(** * Native runner: the reports of the sidecars (native-runner/report_validation.rs)

    What a sidecar printed is accepted only when it is exactly of the form the tool was asked
    for: the secret scan with every secret redacted, the package scan with the canary of every
    input, and the generator with exactly the files its inputs call for.  serde_json and the
    parser of floating-point numbers are the class [ReportHost]; a JSON number is what the source
    reads of it.  An [option] around a result is [None] where the source panics. *)

From S2P Require Import Prelude Ordering Text NativeModel Crypto TextSearch SecretText RunnerPolicy HelperProtocol.

#[local] Open Scope N_scope.

(** ** JSON *)

(** [serde_json::Value]; a number is its [as_u64] and whether its [as_f64] is finite and not
    negative.  A [Map] is ordered by its keys, which are distinct. *)
Inductive Value :=
| JNull
| JBool (b : bool)
| JNumber (u64 : option N) (nonnegative : bool)
| JString (s : rstr)
| JArray (items : list Value)
| JObject (entries : list (rstr * Value)).

Abbreviation jmap := (list (rstr * Value)).

Definition as_str (v : Value) : option rstr := match v with JString s => Some s | _ => None end.
Definition as_array (v : Value) : option (list Value) := match v with JArray l => Some l | _ => None end.
Definition as_object (v : Value) : option jmap := match v with JObject m => Some m | _ => None end.
Definition as_u64 (v : Value) : option N := match v with JNumber n _ => n | _ => None end.
Definition as_bool (v : Value) : option bool := match v with JBool b => Some b | _ => None end.

Fixpoint map_get (key : rstr) (m : jmap) : option Value :=
  match m with
  | [] => None
  | (k, v) :: m => if bool_decide (k = key) then Some v else map_get key m
  end.

(** [Value::get] *)
Definition value_get (key : rstr) (v : Value) : option Value := as_object v ≫= map_get key.

Fixpoint map_insert (key : rstr) (value : Value) (m : jmap) : jmap :=
  match m with
  | [] => [(key, value)]
  | (k, v) :: m' =>
      match cmp key k with
      | Lt => (key, value) :: m
      | Eq => (key, value) :: m'
      | Gt => (k, v) :: map_insert key value m'
      end
  end.

Definition map_remove (key : rstr) (m : jmap) : jmap := filter (fun e => e.1 <> key) m.

Definition contains_key (key : rstr) (m : jmap) : bool := bool_decide (is_Some (map_get key m)).

Class ReportHost := {
  json_from_slice : bytes -> option Value;
  json_to_vec : Value -> option bytes;
  (** [s.parse::<f64>().is_ok_and(|v| v.is_finite() && v >= 0.0)] *)
  parses_nonnegative : rstr -> bool;
}.

Abbreviation tool := RInvalidToolOutput.

(** ** Fields *)

Definition exact_keys (object : jmap) (keys : list rstr) : bool :=
  (len object =? len keys) && forallb (fun key => contains_key key object) keys.
Definition empty_array (value : option Value) : bool :=
  match value ≫= as_array with Some [] => true | _ => false end.
Definition empty_object (value : option Value) : bool :=
  match value ≫= as_object with Some [] => true | _ => false end.
Definition nonnegative_number (value : option Value) : bool :=
  match value with Some (JNumber _ nonnegative) => nonnegative | _ => false end.
Definition nonempty_string (object : jmap) (key : rstr) : bool :=
  match map_get key object ≫= as_str with Some (_ :: _) => true | _ => false end.
Definition str_field (key : rstr) (object : jmap) : option rstr := map_get key object ≫= as_str.
Definition empty_strings (object : jmap) (keys : list rstr) : bool :=
  forallb (fun key => bool_decide (str_field key object = Some [])) keys.
Definition positive_integer (object : jmap) (key : rstr) : result RunnerError N :=
  match map_get key object ≫= as_u64 with
  | Some n => if 0 <? n then Ok n else Err tool
  | None => Err tool
  end.
Definition object_field (key : rstr) (object : jmap) : result RunnerError jmap :=
  ok_or (map_get key object ≫= as_object) tool.
Definition array_field (key : rstr) (object : jmap) : result RunnerError (list Value) :=
  ok_or (map_get key object ≫= as_array) tool.

(** [format!("{n}")] of a [u64]: at most twenty digits. *)
Fixpoint show_digits (fuel : nat) (n : N) : rstr :=
  match fuel with
  | O => []
  | S fuel => if n <? 10 then [0x30 + n] else show_digits fuel (n / 10) ++ [0x30 + n mod 10]
  end.
Definition show_u64 (n : N) : rstr := show_digits 20 n.

Definition GITLEAKS_KEYS : list rstr := lit <$>
  ["RuleID"; "Description"; "StartLine"; "EndLine"; "StartColumn"; "EndColumn"; "Match"; "Secret"; "File";
   "SymlinkFile"; "Commit"; "Entropy"; "Author"; "Email"; "Date"; "Message"; "Tags"; "Fingerprint"]%string.
Definition SEMGREP_CORE_KEYS : list rstr := lit <$>
  ["version"; "results"; "errors"; "paths"; "time"; "rules_by_engine"; "engine_requested";
   "interfile_languages_used"; "skipped_rules"; "profiling_results"]%string.
Definition SEMGREP_RULE_ID : rstr := lit "config.semgrep.context-relay-no-python-runtime".
Definition SEMGREP_BARE_RULE_ID : rstr := lit "context-relay-no-python-runtime".
Definition SEMGREP_CANARY_RULE_ID : rstr := lit "config.semgrep.context-relay-scan-canary".
Definition SEMGREP_BARE_CANARY_RULE_ID : rstr := lit "context-relay-scan-canary".

(** ** The text of the secret scan's diagnostics *)

(** [str::split_at]: [None] where it panics, inside a character. *)
Fixpoint str_split_at (mid : N) (s : rstr) : option (rstr * rstr) :=
  if mid =? 0 then Some ([], s)
  else match s with
       | [] => None
       | c :: s =>
           if mid <? len (utf8_char c) then None
           else '(l, r) ← str_split_at (mid - len (utf8_char c)) s; Some (c :: l, r)
       end.

(** [str::parse::<u8>] *)
Definition parse_u8 (s : rstr) : option N :=
  let digits := match s with 0x2B :: d => d | _ => s end in
  if bool_decide (digits = []) || negb (forallb is_ascii_digit digits) then None
  else
    let n := foldl (fun n c => 10 * n + (c - 0x30)) 0 digits in
    if n <=? u8_max then Some n else None.

Definition valid_timestamp (value : rstr) : option bool :=
  '(clock, suffix) ← str_split_at (saturating_sub (str_len value) 2) value;
  Some (bool_decide (suffix ∈ [lit "AM"; lit "PM"]) &&
        match split_once (lit ":") clock with
        | None => false
        | Some (hour, minute) =>
            match parse_u8 hour with Some h => (1 <=? h) && (h <=? 12) | None => false end
            && (str_len minute =? 2)
            && match parse_u8 minute with Some m => m <? 60 | None => false end
        end).

Definition diagnostic_body (line level : rstr) : option (result RunnerError rstr) :=
  match split_once (lit " ") line with
  | None => Some (Err tool)
  | Some (timestamp, rest) =>
      valid ← valid_timestamp timestamp;
      Some (if valid : bool then ok_or (strip_prefix (level ++ lit " ") rest) tool else Err tool)
  end.

(** [text.replace("\r\n", "\n")] *)
Fixpoint unix_newlines (s : rstr) : rstr :=
  match s with
  | 0x0D :: ((0x0A :: _) as s') => unix_newlines s'
  | c :: s' => c :: unix_newlines s'
  | [] => []
  end.

Fixpoint skip_newlines (s : rstr) : rstr :=
  match s with 0x0A :: s => skip_newlines s | _ => s end.
Definition trim_newlines (s : rstr) : rstr := rev (skip_newlines (rev s)).

Section reports.
Context `{UnicodeTables} `{RunnerHost} `{ReportHost}.

Definition valid_human_size (value : rstr) : bool :=
  match split_once (lit " ") value with
  | Some (number, unit) =>
      parses_nonnegative number
      && bool_decide (unit ∈ [lit "bytes"; lit "KB"; lit "MB"; lit "GB"; lit "TB"])
  | None => false
  end.

Fixpoint numeric_prefix (s : rstr) : rstr * rstr :=
  match s with
  | c :: s' =>
      if is_ascii_digit c || (c =? 0x2E)
      then let '(number, unit) := numeric_prefix s' in (c :: number, unit)
      else ([], s)
  | [] => ([], [])
  end.

Definition valid_duration (value : rstr) : bool :=
  let '(number, unit) := numeric_prefix value in
  parses_nonnegative number
  && bool_decide (unit ∈ [lit "ns"; lit "us"; 0xB5 :: lit "s"; lit "ms"; lit "s"]).

Definition validate_gitleaks_diagnostics (stderr : bytes) (expected_bytes : N) (disposition : RunDisposition)
    : option (result RunnerError unit) :=
  match from_utf8 stderr with
  | None => Some (Err tool)
  | Some text =>
      let normalized := unix_newlines text in
      if negb (ends_with [0x0A] text) || contains_char 0x0D normalized then Some (Err tool) else
      match split_by (fun c => c =? 0x0A) (trim_newlines normalized) with
      | [first_line; second_line] =>
          first ← diagnostic_body first_line (lit "INF");
          match first with
          | Err e => Some (Err e)
          | Ok first =>
              match strip_prefix (lit "scanned ~" ++ show_u64 expected_bytes ++ lit " bytes (") first
                    ≫= split_once (lit ") in ") with
              | None => Some (Err tool)
              | Some (size, duration) =>
                  if negb (valid_human_size size) || negb (valid_duration duration) then Some (Err tool)
                  else match disposition with
                       | DispositionClean =>
                           body ← diagnostic_body second_line (lit "INF");
                           Some (let? body := body in
                                 if bool_decide (body = lit "no leaks found") then Ok tt else Err tool)
                       | Findings count =>
                           body ← diagnostic_body second_line (lit "WRN");
                           Some (let? body := body in
                                 if bool_decide (body = lit "leaks found: " ++ show_u64 count)
                                 then Ok tt else Err tool)
                       | Generated => Some (Err tool)
                       end
              end
          end
      | _ => Some (Err tool)
      end
  end.

(** ** The secret scan *)

Definition scan_prefix : rstr := lit "input/gitleaks-scan/".

Definition expected_scan_path (input : ContentFrame) : result RunnerError rstr :=
  match strip_prefix scan_prefix (frame_path input) with
  | Some ((_ :: _) as path) => Ok path
  | _ => Err tool
  end.

Definition rule_char (c : rchar) : bool := is_ascii_alphanumeric c || (c =? 0x2D) || (c =? 0x5F).

Definition contains_redacted (value : Value) : bool :=
  match as_str value with Some s => contains (lit "REDACTED") s | None => false end.

Definition finding_shape (object : jmap) : bool :=
  exact_keys object GITLEAKS_KEYS && nonempty_string object (lit "Description")
  && empty_strings object [lit "SymlinkFile"; lit "Commit"; lit "Author"; lit "Email"; lit "Date"; lit "Message"]
  && bool_decide (str_field (lit "Secret") object = Some (lit "REDACTED"))
  && match map_get (lit "Match") object with Some v => contains_redacted v | None => false end
  && nonnegative_number (map_get (lit "Entropy") object)
  && match map_get (lit "Tags") object ≫= as_array with
     | Some tags => forallb (fun tag => bool_decide (is_Some (as_str tag))) tags
     | None => false
     end.

Definition finding_rule (object : jmap) : result RunnerError rstr :=
  match str_field (lit "RuleID") object with
  | Some rule => if negb (bool_decide (rule = [])) && forallb rule_char rule then Ok rule else Err tool
  | None => Err tool
  end.

Definition finding_file (object : jmap) : result RunnerError rstr :=
  match str_field (lit "File") object with
  | Some file => if contains_char 0x5C file then Err tool else Ok file
  | None => Err tool
  end.

Definition fingerprint (file rule : rstr) (line : N) : rstr :=
  file ++ lit ":" ++ rule ++ lit ":" ++ show_u64 line.

(** One finding: the fingerprints seen and the finding as it is reported on. *)
Definition validate_finding (expected_paths fingerprints : gset rstr) (finding : Value)
    : result RunnerError (gset rstr * jmap) :=
  let? object := ok_or (as_object finding) tool in
  if negb (finding_shape object) then Err tool else
  let? rule := finding_rule object in
  let? reported_file := finding_file object in
  let file := default reported_file (strip_prefix scan_prefix reported_file) in
  if negb (bool_decide (file ∈ expected_paths)) then Err tool else
  let? start_line := positive_integer object (lit "StartLine") in
  let? end_line := positive_integer object (lit "EndLine") in
  let? start_column := positive_integer object (lit "StartColumn") in
  let? end_column := positive_integer object (lit "EndColumn") in
  if (end_line <? start_line) || ((end_line =? start_line) && (end_column <? start_column)) then Err tool else
  let canonical := fingerprint file rule start_line in
  if negb (bool_decide (str_field (lit "Fingerprint") object = Some (fingerprint reported_file rule start_line)))
     || bool_decide (canonical ∈ fingerprints)
  then Err tool
  else
    Ok ({[canonical]} ∪ fingerprints,
        map_remove (lit "Match") (map_remove (lit "Secret")
          (map_insert (lit "Fingerprint") (JString canonical)
            (map_insert (lit "File") (JString file) object)))).

Fixpoint validate_findings (expected_paths fingerprints : gset rstr) (findings : list Value)
    : result RunnerError (list jmap) :=
  match findings with
  | [] => Ok []
  | finding :: findings =>
      let? (fingerprints, object) := validate_finding expected_paths fingerprints finding in
      let? objects := validate_findings expected_paths fingerprints findings in
      Ok (object :: objects)
  end.

(** What is decided before the diagnostics are read: the disposition, the findings and the
    number of bytes to scan. *)
Definition gitleaks_findings (exit : Z) (stdout : bytes) (inputs : list ContentFrame)
    : result RunnerError (RunDisposition * list jmap * N) :=
  if negb (bool_decide (exit = 0%Z \/ exit = 10%Z)) then Err tool else
  let? paths := try_map expected_scan_path inputs in
  let? expected_bytes := try_fold (fun total input =>
        ok_or (checked_add u64_max total (len (frame_bytes input))) RLimitExceeded) 0 inputs in
  let? value := ok_or (json_from_slice stdout) tool in
  let? findings := ok_or (as_array value) tool in
  let? objects := validate_findings (list_to_set paths) ∅ findings in
  if u32_max <? len objects then Err RLimitExceeded else
  let? disposition :=
    if bool_decide (exit = 0%Z) && (len objects =? 0) then Ok DispositionClean
    else if bool_decide (exit = 10%Z) && (0 <? len objects) then Ok (Findings (len objects))
    else Err tool in
  Ok (disposition, objects, expected_bytes).

Definition validate_gitleaks_report (exit : Z) (stdout stderr : bytes) (inputs : list ContentFrame)
    : option (result RunnerError (RunDisposition * bytes)) :=
  match gitleaks_findings exit stdout inputs with
  | Err e => Some (Err e)
  | Ok (disposition, objects, expected_bytes) =>
      diagnostics ← validate_gitleaks_diagnostics stderr expected_bytes disposition;
      Some (let? _ := diagnostics in
            let? report := ok_or (json_to_vec (JArray (JObject <$> objects))) tool in
            Ok (disposition, report))
  end.

(** ** The generator *)

Definition has_nonempty_bash_permissions (b : bytes) : result RunnerError bool :=
  let? value := ok_or (json_from_slice b) tool in
  Ok match value_get (lit "permission") value ≫= fun p => value_get (lit "bash") p ≫= as_object with
     | Some (_ :: _) => true
     | _ => false
     end.

(** The files one input calls for. *)
Definition rulesync_expected (target : RuleSyncTarget) (input : ContentFrame) : result RunnerError (list rstr) :=
  let? relative := ok_or (strip_prefix (lit "input/.rulesync/") (frame_path input)) tool in
  let? feature := rulesync_input_feature relative in
  let child prefix := ok_or (strip_prefix prefix relative) tool in
  match target, feature with
  | RsClaudeCode, FRules =>
      let? child := child (lit "rules/") in
      Ok [if bool_decide (child = lit "overview.md") then lit "output/CLAUDE.md"
          else lit "output/.claude/rules/" ++ child]
  | RsCodexCli, FRules => Ok [lit "output/AGENTS.md"]
  | RsClaudeCode, FCommands => let? child := child (lit "commands/") in Ok [lit "output/.claude/commands/" ++ child]
  | RsCodexCli, FCommands => let? child := child (lit "commands/") in Ok [lit "output/.codex/prompts/" ++ child]
  | RsClaudeCode, FSubagents => let? child := child (lit "subagents/") in Ok [lit "output/.claude/agents/" ++ child]
  | RsCodexCli, FSubagents =>
      let? source := child (lit "subagents/") in
      let? stem := ok_or (strip_suffix (lit ".md") source) tool in
      Ok [lit "output/.codex/agents/" ++ stem ++ lit ".toml"]
  | RsClaudeCode, FSkills => let? child := child (lit "skills/") in Ok [lit "output/.claude/skills/" ++ child]
  | RsCodexCli, FSkills => let? child := child (lit "skills/") in Ok [lit "output/.agents/skills/" ++ child]
  | RsClaudeCode, FMcp => Ok [lit "output/.mcp.json"]
  | RsCodexCli, FMcp => Ok [lit "output/.codex/config.toml"]
  | RsClaudeCode, FHooks => Ok [lit "output/.claude/settings.json"]
  | RsCodexCli, FHooks => Ok [lit "output/.codex/hooks.json"]
  | RsClaudeCode, (FPermissions | FIgnore) => Ok [lit "output/.claude/settings.json"]
  | RsCodexCli, FPermissions =>
      let? bash := has_nonempty_bash_permissions (frame_bytes input) in
      Ok (lit "output/.codex/config.toml"
          :: if bash : bool then [lit "output/.codex/rules/rulesync.rules"] else [])
  | _, (FChecks | FIgnore) => Err tool
  end.

Definition rulesync_output (output : ContentFrame) : result RunnerError rstr :=
  if bool_decide (frame_bytes output = []) || bool_decide (from_utf8 (frame_bytes output) = None) then Err tool
  else if ends_with (lit ".json") (frame_path output)
  then let? value := ok_or (json_from_slice (frame_bytes output)) tool in
       if bool_decide (is_Some (as_object value)) then Ok (frame_path output) else Err tool
  else Ok (frame_path output).

Definition validate_rulesync_outputs (command : SidecarCommand) (inputs outputs : list ContentFrame)
    : result RunnerError unit :=
  match command with
  | RuleSyncGenerate target features =>
      let? _ := validate_inputs command (frame_path <$> inputs) in
      let? expected := try_map (rulesync_expected target) inputs in
      let? actual := try_map rulesync_output outputs in
      let expected : gset rstr := list_to_set (concat expected) in
      if negb (bool_decide ((list_to_set actual : gset rstr) = expected))
         || negb (len outputs =? N.of_nat (size expected)) || (features =? 0)
      then Err tool else Ok tt
  | _ => Err RInvalidCommand
  end.

(** ** The package scan *)

Definition valid_semgrep_rule_id (value : option rstr) : bool :=
  match value with
  | Some id => bool_decide (id ∈ [SEMGREP_RULE_ID; SEMGREP_BARE_RULE_ID; SEMGREP_CANARY_RULE_ID;
                                  SEMGREP_BARE_CANARY_RULE_ID])
  | None => false
  end.

Definition canary_rule (id : rstr) : bool :=
  bool_decide (id ∈ [SEMGREP_CANARY_RULE_ID; SEMGREP_BARE_CANARY_RULE_ID]).
Definition policy_rule (id : rstr) : bool := bool_decide (id ∈ [SEMGREP_RULE_ID; SEMGREP_BARE_RULE_ID]).

Definition scanner_path (value : rstr) : result RunnerError rstr :=
  let normalized := (fun c => if c =? 0x5C then 0x2F else c) <$> value in
  let path := default normalized (strip_prefix (lit "./") normalized) in
  map_err (fun _ => tool) (StagePath_try_from path).

Definition engine_rule (entry : Value) : option rstr :=
  match as_array entry with
  | Some [rule; engine] => if bool_decide (as_str engine = Some (lit "OSS")) then as_str rule else None
  | _ => None
  end.

Definition valid_semgrep_rules_by_engine (value : option Value) : bool :=
  match value ≫= as_array with
  | None => false
  | Some entries =>
      match mapM engine_rule entries with
      | None => false
      | Some rules =>
          (len entries =? 2) && bool_decide (size (list_to_set rules : gset rstr) = 2%nat)
          && existsb policy_rule rules && existsb canary_rule rules
      end
  end.

Definition validate_semgrep_paths (report : jmap) (expected : gset rstr) : result RunnerError unit :=
  let? paths := object_field (lit "paths") report in
  if negb (exact_keys paths [lit "scanned"]
           || (exact_keys paths [lit "scanned"; lit "skipped"] && empty_array (map_get (lit "skipped") paths)))
  then Err tool else
  let? scanned_values := array_field (lit "scanned") paths in
  let? scanned := try_map (fun value => let? s := ok_or (as_str value) tool in scanner_path s) scanned_values in
  if (len scanned_values =? N.of_nat (size expected)) && bool_decide ((list_to_set scanned : gset rstr) = expected)
  then Ok tt else Err tool.

Definition Position : Type := N * N * N.

Definition semgrep_position (position : jmap) : result RunnerError Position :=
  if negb (exact_keys position [lit "line"; lit "col"; lit "offset"]) then Err tool else
  let? line := positive_integer position (lit "line") in
  let? column := positive_integer position (lit "col") in
  let? offset := ok_or (map_get (lit "offset") position ≫= as_u64) tool in
  Ok (line, column, offset).

Definition valid_semgrep_policy_capture (value : rstr) : bool :=
  let value := to_ascii_lowercase value in
  if bool_decide (value ∈ [lit "pysemgrep"; lit "site-packages"]) then true
  else match strip_prefix (lit "python") value with
       | None => false
       | Some suffix =>
           let suffix := default suffix (strip_suffix (lit ".exe") suffix) in
           bool_decide (suffix = []) || bool_decide (suffix = lit "3")
           || match strip_prefix (lit "3.") suffix with
              | Some minor => negb (bool_decide (minor = [])) && forallb is_ascii_digit minor
              | None => false
              end
       end.

Definition position_of (key : rstr) (object : jmap) : option Position :=
  position ← map_get key object ≫= as_object;
  match semgrep_position position with Ok p => Some p | Err _ => None end.

Definition valid_semgrep_core_metavars (value : option Value) (is_canary : bool) (start end_ : Position) : bool :=
  match value ≫= as_object with
  | None => false
  | Some [] => true
  | Some metavars =>
      if is_canary || negb (len metavars =? 1) then false
      else match map_get (lit "$1") metavars ≫= as_object with
           | None => false
           | Some capture =>
               exact_keys capture [lit "start"; lit "end"; lit "abstract_content"]
               && bool_decide (position_of (lit "start") capture = Some start)
               && bool_decide (position_of (lit "end") capture = Some end_)
               && match str_field (lit "abstract_content") capture with
                  | Some s => valid_semgrep_policy_capture s
                  | None => false
                  end
           end
  end.

Definition CORE_EXTRA_KEYS : list rstr := lit <$>
  ["metavars"; "engine_kind"; "is_ignored"; "message"; "metadata"; "severity"; "validation_state"]%string.

Definition valid_extra (extra : jmap) (is_canary : bool) (start end_ : Position) : bool :=
  forallb (fun entry => bool_decide (entry.1 ∈ CORE_EXTRA_KEYS)) extra
  && forallb (fun key => contains_key key extra)
       (lit <$> ["metavars"; "engine_kind"; "is_ignored"; "message"; "validation_state"]%string)
  && valid_semgrep_core_metavars (map_get (lit "metavars") extra) is_canary start end_
  && bool_decide (map_get (lit "is_ignored") extra ≫= as_bool = Some false)
  && bool_decide (str_field (lit "validation_state") extra = Some (lit "NO_VALIDATOR"))
  && match map_get (lit "severity") extra with
     | None => true
     | Some severity => bool_decide (as_str severity = Some (if is_canary then lit "INFO" else lit "ERROR"))
     end.

Inductive SemgrepResultKind := Canary (path : rstr) | Finding.

Definition semgrep_identity (path : rstr) (start end_ : Position) : rstr :=
  SEMGREP_RULE_ID ++ lit ":" ++ path ++ lit ":" ++ show_u64 start.1.1 ++ lit ":" ++ show_u64 start.1.2
  ++ lit ":" ++ show_u64 start.2 ++ lit ":" ++ show_u64 end_.1.1 ++ lit ":" ++ show_u64 end_.1.2
  ++ lit ":" ++ show_u64 end_.2.

Definition validate_semgrep_result (object : jmap) (expected_paths identities : gset rstr)
    : result RunnerError (SemgrepResultKind * gset rstr) :=
  if negb (exact_keys object [lit "check_id"; lit "path"; lit "start"; lit "end"; lit "extra"]) then Err tool else
  let? rule_id := match str_field (lit "check_id") object with
                  | Some id => if valid_semgrep_rule_id (Some id) then Ok id else Err tool
                  | None => Err tool
                  end in
  let? reported := ok_or (str_field (lit "path") object) tool in
  let? path := scanner_path reported in
  if negb (bool_decide (path ∈ expected_paths)) then Err tool else
  let? start := object_field (lit "start") object in
  let? start := semgrep_position start in
  let? end_ := object_field (lit "end") object in
  let? end_ := semgrep_position end_ in
  if ltb end_ start then Err tool else
  let? extra := object_field (lit "extra") object in
  let is_canary := canary_rule rule_id in
  if negb (valid_extra extra is_canary start end_)
     || negb (bool_decide (str_field (lit "message") extra
          = Some (if is_canary then lit "Context Relay scan coverage canary."
                  else lit "Native Semgrep packages must not contain Pysemgrep or a Python runtime.")))
     || negb (match map_get (lit "metadata") extra with
              | None => true
              | Some metadata => empty_object (Some metadata)
              end)
     || negb (bool_decide (str_field (lit "engine_kind") extra = Some (lit "OSS")))
  then Err tool
  else if is_canary
  then if bool_decide (start = (1, 1, 0)) && ltb start end_ then Ok (Canary path, identities) else Err tool
  else
    let identity := semgrep_identity path start end_ in
    if bool_decide (identity ∈ identities) then Err tool else Ok (Finding, {[identity]} ∪ identities).

(** [result["extra"]["metavars"] = {}] *)
Definition without_metavars (object : jmap) : jmap :=
  match map_get (lit "extra") object ≫= as_object with
  | Some extra => map_insert (lit "extra") (JObject (map_insert (lit "metavars") (JObject []) extra)) object
  | None => object
  end.

(** The loop over the results: identities, canaries and findings so far. *)
Definition semgrep_result_step (expected : gset rstr) (acc : gset rstr * gset rstr * list jmap) (value : Value)
    : result RunnerError (gset rstr * gset rstr * list jmap) :=
  let '(identities, canaries, findings) := acc in
  let? object := ok_or (as_object value) tool in
  let? (kind, identities) := validate_semgrep_result object expected identities in
  match kind with
  | Canary path =>
      if bool_decide (path ∈ canaries) then Err tool else Ok (identities, {[path]} ∪ canaries, findings)
  | Finding => Ok (identities, canaries, findings ++ [without_metavars object])
  end.

Definition nonnegative_numbers (value : option Value) (expected_len : N) : bool :=
  match value ≫= as_array with
  | Some values =>
      ((len values =? expected_len) || ((expected_len =? 0) && (len values =? 1)))
      && forallb (fun value => nonnegative_number (Some value)) values
  | None => false
  end.

Definition validate_file_timing (value : Value) (average_key slow_key : rstr) : result RunnerError unit :=
  let? object := ok_or (as_object value) tool in
  if negb (exact_keys object [lit "total_time"; average_key; lit "very_slow_stats"; slow_key])
     || negb (nonnegative_number (map_get (lit "total_time") object)) || negb (empty_array (map_get slow_key object))
  then Err tool
  else try_for_each (fun key =>
    let? figures := object_field key object in
    let keys := if bool_decide (key = average_key) then [lit "mean"; lit "std_dev"]
                else [lit "time_ratio"; lit "count_ratio"] in
    if negb (exact_keys figures keys) || negb (forallb (fun e => nonnegative_number (Some e.2)) figures)
    then Err tool else Ok tt) [average_key; lit "very_slow_stats"].

Definition target_step (rule_count : N) (expected : gmap rstr N) (seen : gset rstr) (value : Value)
    : result RunnerError (gset rstr) :=
  let? target := ok_or (as_object value) tool in
  if negb (exact_keys target [lit "path"; lit "num_bytes"; lit "match_times"; lit "parse_times"; lit "run_time"])
     || negb (nonnegative_number (map_get (lit "run_time") target))
     || negb (nonnegative_numbers (map_get (lit "match_times") target) rule_count)
     || negb (nonnegative_numbers (map_get (lit "parse_times") target) rule_count)
  then Err tool else
  let? reported := ok_or (str_field (lit "path") target) tool in
  let? path := scanner_path reported in
  match expected !! path with
  | None => Err tool
  | Some expected_size =>
      if negb (bool_decide (map_get (lit "num_bytes") target ≫= as_u64 = Some expected_size))
         || bool_decide (path ∈ seen)
      then Err tool else Ok ({[path]} ∪ seen)
  end.

Definition validate_semgrep_targets (time : jmap) (inputs : list ContentFrame) : result RunnerError unit :=
  let? rules := array_field (lit "rules") time in
  let expected : gmap rstr N := list_to_map ((fun i => (frame_path i, len (frame_bytes i))) <$> inputs) in
  if negb (N.of_nat (size expected) =? len inputs) then Err tool else
  if bool_decide (map_get (lit "total_bytes") time ≫= as_u64 = None) then Err tool else
  let? targets := array_field (lit "targets") time in
  let? _ := try_fold (target_step (len rules) expected) ∅ targets in
  Ok tt.

Definition TIME_KEYS : list rstr := lit <$>
  ["rules"; "rules_parse_time"; "profiling_times"; "parsing_time"; "scanning_time"; "matching_time";
   "tainting_time"; "fixpoint_timeouts"; "prefiltering"; "targets"; "total_bytes"; "max_memory_bytes"]%string.

Definition valid_time_rules (value : option Value) : bool :=
  match value ≫= as_array with
  | Some rules =>
      (len rules <=? 2) && forallb (fun rule => valid_semgrep_rule_id (as_str rule)) rules
      && (N.of_nat (size (list_to_set (omap as_str rules) : gset rstr)) =? len rules)
  | None => false
  end.

Definition time_shape (time : jmap) : bool :=
  forallb (fun entry => bool_decide (entry.1 ∈ TIME_KEYS)) time
  && forallb (fun key => contains_key key time)
       (lit <$> ["rules"; "rules_parse_time"; "profiling_times"; "targets"; "total_bytes"]%string)
  && valid_time_rules (map_get (lit "rules") time)
  && match map_get (lit "fixpoint_timeouts") time with None => true | Some v => empty_array (Some v) end
  && nonnegative_number (map_get (lit "rules_parse_time") time)
  && match map_get (lit "max_memory_bytes") time with None => true | Some v => bool_decide (is_Some (as_u64 v)) end
  && empty_object (map_get (lit "profiling_times") time).

Definition PREFILTERING_KEYS : list rstr := lit <$>
  ["project_level_time"; "file_level_time"; "rules_with_project_prefilters_ratio";
   "rules_with_file_prefilters_ratio"; "rules_selected_ratio"; "rules_matched_ratio"]%string.

Definition validate_semgrep_time (time : jmap) (inputs : list ContentFrame) : result RunnerError unit :=
  if negb (time_shape time) then Err tool else
  let? _ := validate_semgrep_targets time inputs in
  let? _ := try_for_each (fun '(key, average_key, slow_key) =>
        match map_get (lit key) time with
        | Some value => validate_file_timing value (lit average_key) (lit slow_key)
        | None => Ok tt
        end)
      [("parsing_time", "per_file_time", "very_slow_files"); ("scanning_time", "per_file_time", "very_slow_files");
       ("matching_time", "per_file_and_rule_time", "very_slow_rules_on_files");
       ("tainting_time", "per_def_and_rule_time", "very_slow_rules_on_defs")]%string in
  match map_get (lit "prefiltering") time with
  | None => Ok tt
  | Some value =>
      let? prefiltering := ok_or (as_object value) tool in
      if negb (exact_keys prefiltering PREFILTERING_KEYS)
         || negb (forallb (fun e => nonnegative_number (Some e.2)) prefiltering)
      then Err tool else Ok tt
  end.

Definition core_shape (object : jmap) : bool :=
  exact_keys object SEMGREP_CORE_KEYS
  && bool_decide (str_field (lit "version") object = Some (lit "1.170.0"))
  && bool_decide (str_field (lit "engine_requested") object = Some (lit "OSS"))
  && empty_array (map_get (lit "errors") object)
  && empty_array (map_get (lit "interfile_languages_used") object)
  && empty_array (map_get (lit "skipped_rules") object)
  && empty_array (map_get (lit "profiling_results") object)
  && valid_semgrep_rules_by_engine (map_get (lit "rules_by_engine") object).

Definition input_paths (inputs : list ContentFrame) : gset rstr := list_to_set (frame_path <$> inputs).

Definition validate_semgrep_core_report (exit : Z) (stdout : bytes) (inputs : list ContentFrame)
    : result RunnerError (RunDisposition * bytes) :=
  if negb (bool_decide (exit = 0%Z)) then Err tool else
  let? report := ok_or (json_from_slice stdout) tool in
  let? object := ok_or (as_object report) tool in
  if negb (core_shape object) then Err tool else
  let? time := object_field (lit "time") object in
  let? _ := validate_semgrep_time time inputs in
  let expected := input_paths inputs in
  let? _ := validate_semgrep_paths object expected in
  let? results := array_field (lit "results") object in
  let? (_, canaries, findings) := try_fold (semgrep_result_step expected) (∅, ∅, []) results in
  if negb (bool_decide (canaries = expected)) then Err tool else
  if u32_max <? len findings then Err RLimitExceeded else
  let? b := ok_or (json_to_vec (JObject (map_insert (lit "results") (JArray (JObject <$> findings)) object))) tool in
  Ok (if len findings =? 0 then DispositionClean else Findings (len findings), b).

Definition validate_semgrep_report (exit : Z) (stdout stderr : bytes) (inputs : list ContentFrame)
    : result RunnerError (RunDisposition * bytes) :=
  if negb (bool_decide (stderr = [])) then Err tool
  else validate_semgrep_core_report exit stdout inputs.

End reports.
