(* ===== verification/ReportFacts.v ===== *)
(** * Native runner: what an accepted report says

    A report of the secret scan that is accepted holds no secret and no match, names only files
    that were given to the scan and drops no finding; a report of the package scan that is
    accepted has the canary of every input, so that no input was skipped. *)

From S2P Require Import Prelude Ordering Text NativeModel Crypto TextSearch SecretText RunnerPolicy RunnerFacts HelperProtocol RunnerReports.

#[local] Open Scope N_scope.

(** ** Maps *)

Lemma map_get_remove key m : map_get key (map_remove key m) = None.
Proof.
  induction m as [|[k v] m IH]; [done|]. unfold map_remove. rewrite filter_cons. simpl.
  destruct (decide (k <> key)) as [Hk|Hk]; [|done]. simpl. by rewrite bool_decide_eq_false_2.
Qed.

Lemma map_get_remove_ne key key' m : key <> key' -> map_get key (map_remove key' m) = map_get key m.
Proof.
  intros Hne. induction m as [|[k v] m IH]; [done|]. unfold map_remove. rewrite filter_cons. simpl.
  destruct (decide (k <> key')) as [Hk|Hk]; simpl.
  - case_bool_decide; [done|apply IH].
  - apply dec_stable in Hk as ->. rewrite bool_decide_eq_false_2 by done. apply IH.
Qed.

Lemma map_get_insert key v m : map_get key (map_insert key v m) = Some v.
Proof.
  induction m as [|[k w] m IH]; simpl; [by rewrite bool_decide_eq_true_2|].
  destruct (cmp key k) eqn:E; simpl; try by rewrite bool_decide_eq_true_2.
  rewrite bool_decide_eq_false_2; [done|]. intros ->. by rewrite cmp_refl in E.
Qed.

Lemma map_get_insert_ne key key' v m : key <> key' -> map_get key (map_insert key' v m) = map_get key m.
Proof.
  intros Hne. induction m as [|[k w] m IH]; simpl; [by rewrite bool_decide_eq_false_2|].
  destruct (cmp key' k) eqn:E; simpl.
  - apply cmp_eq in E as ->. by rewrite !bool_decide_eq_false_2.
  - by rewrite bool_decide_eq_false_2.
  - by rewrite IH.
Qed.

Section facts.
Context `{UnicodeTables} `{RunnerHost} `{ReportHost}.

(** ** The secret scan *)

(** A finding as the scan prints it: exactly the known fields, its secret replaced, a rule, a
    file, positions in order, and the fingerprint of file, rule and line. *)
Record printed_finding (raw : jmap) (reported rule : rstr) (line : N) : Prop := {
  pf_size : len raw = len GITLEAKS_KEYS;
  pf_keys : Forall (fun key => is_Some (map_get key raw)) GITLEAKS_KEYS;
  pf_secret : str_field (lit "Secret") raw = Some (lit "REDACTED");
  pf_match : exists text, str_field (lit "Match") raw = Some text /\ contains (lit "REDACTED") text = true;
  pf_description : exists text, str_field (lit "Description") raw = Some text /\ text <> [];
  pf_empty : Forall (fun key => str_field key raw = Some [])
    [lit "SymlinkFile"; lit "Commit"; lit "Author"; lit "Email"; lit "Date"; lit "Message"];
  pf_rule : str_field (lit "RuleID") raw = Some rule /\ rule <> [] /\ Forall (fun c => rule_char c = true) rule;
  pf_file : str_field (lit "File") raw = Some reported /\ contains_char 0x5C reported = false;
  pf_position : exists last column last_column,
    map_get (lit "StartLine") raw ≫= as_u64 = Some line /\ map_get (lit "EndLine") raw ≫= as_u64 = Some last
    /\ map_get (lit "StartColumn") raw ≫= as_u64 = Some column
    /\ map_get (lit "EndColumn") raw ≫= as_u64 = Some last_column
    /\ 0 < line /\ 0 < column /\ (line < last \/ line = last /\ column <= last_column);
  pf_fingerprint : str_field (lit "Fingerprint") raw = Some (fingerprint reported rule line);
}.

(** A printed finding as it is reported on: in one of the files, named by its path below the
    scanned directory, under the fingerprint of that name; without its secret and its match; and
    with every other field as it was printed. *)
Definition reported_as (in_scan : rstr -> Prop) (printed : Value) (o : jmap) : Prop :=
  exists raw reported rule line file, printed = JObject raw /\ printed_finding raw reported rule line
    /\ (reported = file \/ reported = scan_prefix ++ file) /\ in_scan file
    /\ str_field (lit "File") o = Some file
    /\ str_field (lit "Fingerprint") o = Some (fingerprint file rule line)
    /\ map_get (lit "Secret") o = None /\ map_get (lit "Match") o = None
    /\ forall key, key ∉ [lit "Secret"; lit "Match"; lit "File"; lit "Fingerprint"] ->
         map_get key o = map_get key raw.

Lemma map_get_kept object file print key :
  key <> lit "Match" -> key <> lit "Secret" ->
  map_get key (map_remove (lit "Match") (map_remove (lit "Secret")
    (map_insert (lit "Fingerprint") print (map_insert (lit "File") file object))))
  = map_get key (map_insert (lit "Fingerprint") print (map_insert (lit "File") file object)).
Proof. intros. by rewrite !map_get_remove_ne. Qed.

Lemma positive_integer_Ok object key n :
  positive_integer object key = Ok n -> map_get key object ≫= as_u64 = Some n /\ 0 < n.
Proof.
  unfold positive_integer. destruct (map_get key object ≫= as_u64) as [m|]; [|done].
  destruct (N.ltb_spec 0 m); [|done]. by intros [= <-].
Qed.

Lemma shape_printed raw reported rule line last column last_column :
  finding_shape raw = true -> finding_rule raw = Ok rule -> finding_file raw = Ok reported ->
  positive_integer raw (lit "StartLine") = Ok line -> positive_integer raw (lit "EndLine") = Ok last ->
  positive_integer raw (lit "StartColumn") = Ok column -> positive_integer raw (lit "EndColumn") = Ok last_column ->
  (last <? line) || ((last =? line) && (last_column <? column)) = false ->
  str_field (lit "Fingerprint") raw = Some (fingerprint reported rule line) ->
  printed_finding raw reported rule line.
Proof.
  unfold finding_shape, finding_rule, finding_file, exact_keys, empty_strings, nonempty_string.
  rewrite !andb_true_iff. intros ((((((Hk & Hd) & He) & Hs) & Hm) & _) & _) Hr Hf
    [P1 Q1]%positive_integer_Ok [P2 _]%positive_integer_Ok [P3 Q3]%positive_integer_Ok [P4 _]%positive_integer_Ok Hpos Hfp.
  destruct Hk as [Hl Hk].
  split.
  - by apply N.eqb_eq.
  - apply Forall_forall. intros key Hin. rewrite forallb_forall in Hk.
    specialize (Hk key (proj1 (list_elem_of_In _ _) Hin)). by apply bool_decide_eq_true in Hk.
  - by apply bool_decide_eq_true in Hs.
  - unfold str_field. destruct (map_get (lit "Match") raw) as [v|]; [|done]. unfold contains_redacted in Hm. cbn.
    destruct (as_str v) as [text|]; [by exists text|done].
  - unfold str_field. destruct (map_get (lit "Description") raw ≫= as_str) as [[|c text]|]; try done. by eexists.
  - apply Forall_forall. intros key Hin. rewrite forallb_forall in He.
    specialize (He key (proj1 (list_elem_of_In _ _) Hin)). by apply bool_decide_eq_true in He.
  - destruct (str_field (lit "RuleID") raw) as [r|]; [|done].
    destruct (bool_decide_reflect (r = [])) as [|Hne]; [done|]. cbn [negb andb] in Hr.
    destruct (forallb rule_char r) eqn:Hc; [|done]. injection Hr as <-. split_and!; [done..|].
    apply Forall_forall. intros c Hin. rewrite forallb_forall in Hc. by apply Hc, list_elem_of_In.
  - destruct (str_field (lit "File") raw) as [f|]; [|done]. destruct (contains_char 0x5C f) eqn:Ec; [done|].
    by injection Hf as <-.
  - exists last, column, last_column. apply orb_false_iff in Hpos as [Hlt Hcol]. apply N.ltb_ge in Hlt.
    split_and!; try done. destruct (N.eqb_spec last line) as [->|Hne]; [right; split; [done|]|left; lia].
    cbn [andb] in Hcol. by apply N.ltb_ge in Hcol.
  - done.
Qed.

Lemma scanned_file reported :
  let file := default reported (strip_prefix scan_prefix reported) in
  reported = file \/ reported = scan_prefix ++ file.
Proof.
  cbv zeta. destruct (strip_prefix scan_prefix reported) as [file|] eqn:E; cbn; [right|by left].
  by apply strip_prefix_Some in E.
Qed.

Lemma validate_finding_redacted paths seen finding seen' object :
  validate_finding paths seen finding = Ok (seen', object) ->
  reported_as (.∈ paths) finding object
  /\ exists print, str_field (lit "Fingerprint") object = Some print /\ (print ∉ seen) /\ seen' = {[print]} ∪ seen.
Proof.
  unfold validate_finding. intros (raw & Hraw%ok_or_Ok & Hd)%rbind_Ok.
  destruct (finding_shape raw) eqn:Hshape; [|done]. cbn [negb] in Hd.
  apply rbind_Ok in Hd as (rule & Hrule & Hd). apply rbind_Ok in Hd as (reported & Hrep & Hd). cbv zeta in Hd.
  pose proof (scanned_file reported) as Hfile. cbv zeta in Hfile.
  set (file := default reported (strip_prefix scan_prefix reported)) in *. clearbody file.
  destruct (bool_decide (file ∈ paths)) eqn:Ein; [|done]. apply bool_decide_eq_true in Ein. cbn [negb] in Hd.
  apply rbind_Ok in Hd as (line & Hline & Hd). apply rbind_Ok in Hd as (last & Hlast & Hd).
  apply rbind_Ok in Hd as (column & Hcol & Hd). apply rbind_Ok in Hd as (last_column & Hlcol & Hd).
  destruct (_ || _) eqn:Hpos in Hd; [done|]. destruct (_ || _) eqn:Ep in Hd; [done|].
  apply orb_false_iff in Ep as [Hfp%negb_false_iff%bool_decide_eq_true Hnew%bool_decide_eq_false].
  injection Hd as <- <-.
  set (o := map_remove _ _).
  assert (Hf : str_field (lit "Fingerprint") o = Some (fingerprint file rule line)).
  { unfold str_field, o. rewrite map_get_kept by done. by rewrite map_get_insert. }
  split; [|by eexists]. exists raw, reported, rule, line, file.
  split; [destruct finding; try done; by injection Hraw as ->|]. split; [by eapply shape_printed|].
  split; [done|]. split; [done|]. split; [|split; [done|]].
  { unfold str_field, o. rewrite map_get_kept by done. rewrite map_get_insert_ne by done. by rewrite map_get_insert. }
  split; [unfold o; rewrite map_get_remove_ne by done; apply map_get_remove|]. split; [apply map_get_remove|].
  intros key Hkey. rewrite !not_elem_of_cons in Hkey. destruct Hkey as (Hk1 & Hk2 & Hk3 & Hk4 & _).
  unfold o. rewrite map_get_kept by done. by rewrite !map_get_insert_ne.
Qed.

Lemma validate_findings_redacted paths seen findings objects :
  validate_findings paths seen findings = Ok objects ->
  Forall2 (reported_as (.∈ paths)) findings objects
  /\ exists prints, Forall2 (fun o p => str_field (lit "Fingerprint") o = Some p) objects prints
     /\ NoDup prints /\ (forall p, p ∈ prints -> p ∉ seen).
Proof.
  revert seen objects. induction findings as [|f fs IH]; intros seen objects; simpl.
  { intros [= <-]. split; [constructor|]. exists []. split_and!; [constructor|constructor|set_solver]. }
  intros ([seen' object] & Hf & (os & Hos & [= <-])%rbind_Ok)%rbind_Ok.
  apply validate_finding_redacted in Hf as (Hr & print & Hp & Hn & ->).
  destruct (IH _ _ Hos) as (Hall & prints & H2 & Hnd & Hfresh). split; [by constructor|].
  exists (print :: prints). split_and!; [by constructor| |].
  - constructor; [|done]. intros Hin. specialize (Hfresh _ Hin). set_solver.
  - intros p [->|Hp']%elem_of_cons; [done|]. specialize (Hfresh _ Hp'). set_solver.
Qed.

Lemma expected_scan_path_Ok input path :
  expected_scan_path input = Ok path -> frame_path input = scan_prefix ++ path.
Proof.
  unfold expected_scan_path. destruct (strip_prefix scan_prefix (frame_path input)) as [[|c s]|] eqn:E; try done.
  intros [= <-]. by apply strip_prefix_Some in E.
Qed.

Lemma scan_paths inputs paths p :
  try_map expected_scan_path inputs = Ok paths -> p ∈ paths ->
  exists input, input ∈ inputs /\ frame_path input = scan_prefix ++ p.
Proof.
  intros Hp%try_map_Ok Hin. apply list_elem_of_lookup in Hin as [i Hi].
  eapply Forall2_lookup_r in Hp as (input & Hinput & E); [|done].
  exists input. split; [by eapply list_elem_of_lookup_2|]. by apply expected_scan_path_Ok.
Qed.

Definition countable_disposition (disposition : RunDisposition) : Prop :=
  match disposition with Findings count => 0 < count <= u32_max | _ => True end.

Lemma gitleaks_disposition exit stdout stderr inputs disposition report :
  validate_gitleaks_report exit stdout stderr inputs = Some (Ok (disposition, report)) ->
  countable_disposition disposition.
Proof.
  unfold validate_gitleaks_report.
  destruct (gitleaks_findings exit stdout inputs) as [[[d objects] total]|] eqn:E; [|done].
  destruct (validate_gitleaks_diagnostics stderr total d) as [diagnostics|]; simpl; [|done].
  intros [= (_ & _ & (b & _ & [= -> ->])%rbind_Ok)%rbind_Ok].
  unfold gitleaks_findings in E. destruct (negb _) in E; [done|].
  do 5 (apply rbind_Ok in E as (? & _ & E)).
  destruct (N.ltb_spec u32_max (len x3)); [done|]. apply rbind_Ok in E as (d' & Hd & [= -> -> _]).
  destruct (_ && _) in Hd; [by injection Hd as <-|].
  destruct (bool_decide (exit = 10%Z) && (0 <? len objects)) eqn:E1; [|done].
  apply andb_true_iff in E1 as [_ ?%N.ltb_lt]. by injection Hd as <-.
Qed.

Lemma semgrep_disposition exit stdout stderr inputs disposition report :
  validate_semgrep_report exit stdout stderr inputs = Ok (disposition, report) ->
  countable_disposition disposition.
Proof.
  unfold validate_semgrep_report, validate_semgrep_core_report.
  destruct (negb _) in |- *; [done|]. destruct (negb _) in |- *; [done|].
  intros (value & _ & (object & _ & Hd)%rbind_Ok)%rbind_Ok.
  destruct (negb (core_shape object)); [done|].
  apply rbind_Ok in Hd as (time & _ & ([] & _ & Hd)%rbind_Ok). cbv zeta in Hd.
  apply rbind_Ok in Hd as ([] & _ & (results & _ & ([[ids can] findings] & _ & Hd)%rbind_Ok)%rbind_Ok).
  destruct (negb _) in Hd; [done|]. destruct (N.ltb_spec u32_max (len findings)); [done|].
  apply rbind_Ok in Hd as (b & _ & [= <- <-]).
  destruct (N.eqb_spec (len findings) 0); [done|]. simpl. lia.
Qed.

(** The file was given to the scan. *)
Definition given_to_scan (inputs : list ContentFrame) (file : rstr) : Prop :=
  exists input, input ∈ inputs /\ frame_path input = scan_prefix ++ file.

(** C25. An accepted report of the secret scan reports every finding the scan printed, in order
    and nothing else, and carries no secret and no matched text: each printed finding has exactly
    the fields of the tool with its secret replaced by REDACTED, and is reported without its
    [Secret] and [Match] fields, in a file that was given to the scan, under its canonical name
    and fingerprint, with every other field as it was printed; no fingerprint occurs twice, and
    the disposition is the number of findings, which the exit code confirms. *)
Theorem gitleaks_report_redacted exit stdout stderr inputs disposition report :
  validate_gitleaks_report exit stdout stderr inputs = Some (Ok (disposition, report)) ->
  exists printed objects prints,
    json_from_slice stdout = Some (JArray printed) /\ json_to_vec (JArray (JObject <$> objects)) = Some report
    /\ Forall2 (reported_as (given_to_scan inputs)) printed objects
    /\ Forall2 (fun o p => str_field (lit "Fingerprint") o = Some p) objects prints /\ NoDup prints
    /\ ((exit = 0%Z /\ disposition = DispositionClean /\ objects = [])
        \/ (exit = 10%Z /\ disposition = Findings (len objects) /\ objects <> [])).
Proof.
  unfold validate_gitleaks_report.
  destruct (gitleaks_findings exit stdout inputs) as [[[d objects] total]|] eqn:E; [|done].
  destruct (validate_gitleaks_diagnostics stderr total d) as [diagnostics|]; simpl; [|done].
  intros [= (_ & _ & (b & Hb%ok_or_Ok & [= -> ->])%rbind_Ok)%rbind_Ok].
  unfold gitleaks_findings in E. destruct (negb _) in E; [done|].
  apply rbind_Ok in E as (paths & Hpaths & (bytes_ & _ & (value & Hv%ok_or_Ok & E)%rbind_Ok)%rbind_Ok).
  apply rbind_Ok in E as (printed & Hpr%ok_or_Ok & (os & Hos & E)%rbind_Ok).
  destruct (u32_max <? len os); [done|]. apply rbind_Ok in E as (d' & Hd & [= -> -> _]).
  destruct value as [| | | |items|]; try done. injection Hpr as ->.
  apply validate_findings_redacted in Hos as (Hall & prints & H2 & Hnd & _).
  exists printed, objects, prints. split_and!; try done.
  - eapply Forall2_impl; [exact Hall|]. intros v o (raw & reported & rule & line & file & Hraw & Hp & Hr & Hin & Hrest).
    exists raw, reported, rule, line, file. split_and!; try done; try apply Hrest.
    apply elem_of_list_to_set in Hin. by eapply scan_paths.
  - destruct (bool_decide (exit = 0%Z) && (len objects =? 0)) eqn:E0.
    + apply andb_true_iff in E0 as [?%bool_decide_eq_true Hz%N.eqb_eq]. injection Hd as <-.
      left. split_and!; [done..|]. destruct objects; [done|]. rewrite len_cons in Hz. lia.
    + destruct (bool_decide (exit = 10%Z) && (0 <? len objects)) eqn:E1; [|done].
      apply andb_true_iff in E1 as [?%bool_decide_eq_true Hz%N.ltb_lt]. injection Hd as <-.
      right. split_and!; [done..|]. by intros ->.
Qed.

(** ** The package scan *)

(** A printed result of a rule on a path. *)
Definition result_on (rule path : rstr) (value : Value) : Prop :=
  exists object reported, value = JObject object /\ str_field (lit "check_id") object = Some rule
    /\ str_field (lit "path") object = Some reported /\ scanner_path reported = Ok path.

(** Whether a printed result is of another rule than the canary. *)
Definition beyond_canary (value : Value) : bool :=
  match as_object value ≫= str_field (lit "check_id") with Some rule => negb (canary_rule rule) | None => false end.

Lemma semgrep_result_kind object expected ids kind ids' :
  validate_semgrep_result object expected ids = Ok (kind, ids') ->
  exists rule path, result_on rule path (JObject object) /\ path ∈ expected
    /\ kind = if canary_rule rule then Canary path else Finding.
Proof.
  unfold validate_semgrep_result. destruct (negb _) in |- *; [done|].
  intros (rule & Hrule & (reported & Hrep%ok_or_Ok & (path & Hpath & Hd)%rbind_Ok)%rbind_Ok)%rbind_Ok.
  destruct (str_field (lit "check_id") object) as [id|] eqn:Eid; [|done].
  destruct (valid_semgrep_rule_id (Some id)); [|done]. injection Hrule as <-.
  destruct (bool_decide (path ∈ expected)) eqn:Ein; [|done]. apply bool_decide_eq_true in Ein. cbn [negb] in Hd.
  do 4 (apply rbind_Ok in Hd as (? & _ & Hd)). destruct (ltb _ _) in Hd; [done|].
  apply rbind_Ok in Hd as (extra & _ & Hd). cbv zeta in Hd. destruct (_ || _) in Hd; [done|].
  exists id, path. split; [by exists object, reported|]. split; [done|].
  destruct (canary_rule id).
  - destruct (_ && _) in Hd; [|done]. by injection Hd as <- <-.
  - destruct (bool_decide _) in Hd; [done|]. by injection Hd as <- <-.
Qed.

Lemma semgrep_fold expected results ids can fs ids' can' fs' :
  try_fold (semgrep_result_step expected) (ids, can, fs) results = Ok (ids', can', fs') ->
  (forall p, p ∈ can' -> p ∈ can \/ exists value rule, value ∈ results /\ canary_rule rule = true
     /\ result_on rule p value)
  /\ Forall (fun value => exists rule path, result_on rule path value /\ path ∈ expected) results
  /\ length fs' = (length fs + length (filter beyond_canary results))%nat.
Proof.
  revert ids can fs. induction results as [|v results IH]; intros ids can fs; cbn [try_fold].
  { intros [= <- <- <-]. split_and!; [by left|constructor|simpl; lia]. }
  intros ([[ids1 can1] fs1] & Hstep & Hrest)%rbind_Ok. unfold semgrep_result_step in Hstep at 1.
  apply rbind_Ok in Hstep as (object & Ho%ok_or_Ok & ([kind ids2] & Hk & Hstep)%rbind_Ok).
  destruct v as [| | | | |m]; try done. injection Ho as ->.
  apply semgrep_result_kind in Hk as (rule & path & Hon & Hin & ->).
  assert (Hb : beyond_canary (JObject object) = negb (canary_rule rule)).
  { destruct Hon as (o & reported & [= ->] & Hr & _). unfold beyond_canary. simpl. by rewrite Hr. }
  apply IH in Hrest as (Hc & Hall & Hlen). rewrite filter_cons. rewrite Hb.
  split; [|split; [constructor; [by exists rule, path|done]|]].
  - intros p Hp. destruct (Hc p Hp) as [Hp'|(value & r & Hv & Hr)]; [|right; exists value, r; set_solver].
    destruct (canary_rule rule) eqn:Ecan.
    + destruct (bool_decide (path ∈ can)); [done|]. injection Hstep as <- <- <-.
      apply elem_of_union in Hp' as [->%elem_of_singleton|?]; [|by left].
      right. exists (JObject object), rule. split_and!; [set_solver|done|done].
    + injection Hstep as <- <- <-. by left.
  - destruct (canary_rule rule) eqn:Ecan.
    + destruct (bool_decide (path ∈ can)); [done|]. injection Hstep as <- <- <-.
      rewrite decide_False by (simpl; tauto). done.
    + injection Hstep as <- <- <-. rewrite decide_True by done. rewrite length_app in Hlen. simpl in *. lia.
Qed.

(** C26. An accepted report of the package scan proves that every input was scanned: each input
    has a result of the canary rule in it; no result is outside the inputs; and the disposition
    counts the results of the policy rule, all of which are reported. *)
Theorem semgrep_scan_complete exit stdout stderr inputs disposition report :
  validate_semgrep_report exit stdout stderr inputs = Ok (disposition, report) ->
  exists object results findings,
    json_from_slice stdout = Some (JObject object) /\ map_get (lit "results") object = Some (JArray results)
    /\ json_to_vec (JObject (map_insert (lit "results") (JArray (JObject <$> findings)) object)) = Some report
    /\ (forall input, input ∈ inputs -> exists value rule,
          value ∈ results /\ canary_rule rule = true /\ result_on rule (frame_path input) value)
    /\ Forall (fun value => exists rule input, input ∈ inputs /\ result_on rule (frame_path input) value) results
    /\ length findings = length (filter beyond_canary results)
    /\ disposition = (if len findings =? 0 then DispositionClean else Findings (len findings)).
Proof.
  unfold validate_semgrep_report, validate_semgrep_core_report.
  destruct (negb _) in |- *; [done|]. destruct (negb _) in |- *; [done|].
  intros (value & Hv%ok_or_Ok & (object & Ho%ok_or_Ok & Hd)%rbind_Ok)%rbind_Ok.
  destruct (negb (core_shape object)); [done|].
  apply rbind_Ok in Hd as (time & _ & ([] & _ & Hd)%rbind_Ok). cbv zeta in Hd.
  apply rbind_Ok in Hd as ([] & _ & (results & Hres%ok_or_Ok & ([[ids can] findings] & Hfold & Hd)%rbind_Ok)%rbind_Ok).
  destruct (bool_decide (can = input_paths inputs)) eqn:Ecan; [|done]. apply bool_decide_eq_true in Ecan as ->.
  cbn [negb] in Hd. destruct (u32_max <? len findings); [done|].
  apply rbind_Ok in Hd as (b & Hb%ok_or_Ok & [= <- <-]).
  destruct value as [| | | | |m]; try done. injection Ho as ->.
  destruct (map_get (lit "results") object) as [[]|] eqn:Eres; try done. injection Hres as ->.
  apply semgrep_fold in Hfold as (Hc & Hall & Hlen).
  exists object, results, findings. split_and!; try done.
  - intros input Hin. destruct (Hc (frame_path input)) as [?|?]; [|set_solver|done].
    unfold input_paths. apply elem_of_list_to_set, list_elem_of_fmap. eauto.
  - eapply Forall_impl; [exact Hall|]. intros v (rule & path & Hon & Hin).
    unfold input_paths in Hin. apply elem_of_list_to_set, list_elem_of_fmap in Hin as (input & -> & Hi).
    by exists rule, input.
Qed.

(** ** The generator *)

(** Accepted outputs are distinct and are exactly the files that the inputs call for. *)
Theorem rulesync_outputs_expected target features inputs outputs :
  validate_rulesync_outputs (RuleSyncGenerate target features) inputs outputs = Ok tt ->
  NoDup (frame_path <$> outputs)
  /\ (forall path, path ∈ frame_path <$> outputs <->
       exists input files, input ∈ inputs /\ rulesync_expected target input = Ok files /\ path ∈ files).
Proof.
  unfold validate_rulesync_outputs.
  intros ([] & _ & (expected & He%try_map_Ok & (actual & Ha%try_map_Ok & Hd)%rbind_Ok)%rbind_Ok)%rbind_Ok.
  cbv zeta in Hd. destruct (_ || _) eqn:E in Hd; [done|].
  apply orb_false_iff in E as [[Hset%negb_false_iff Hlen%negb_false_iff]%orb_false_iff _].
  apply bool_decide_eq_true in Hset. apply N.eqb_eq in Hlen.
  assert (Hact : actual = frame_path <$> outputs).
  { clear -Ha. induction Ha as [|o p os ps Ho _ IH]; [done|]. csimpl. f_equal; [|done].
    unfold rulesync_output in Ho. destruct (_ || _); [done|]. destruct (ends_with _ _).
    - apply rbind_Ok in Ho as (v & _ & Ho). by destruct (bool_decide _); simplify_eq.
    - by simplify_eq. }
  subst actual. split.
  - apply NoDup_ListNoDup.
    refine (NoDup_incl_NoDup (l := elements (list_to_set (frame_path <$> outputs) : gset rstr)) _ _ _).
    + apply NoDup_ListNoDup, NoDup_elements.
    + rewrite length_fmap. unfold len in Hlen. rewrite Hset. unfold size, set_size in Hlen. simpl in Hlen. lia.
    + intros p Hp%list_elem_of_In. apply list_elem_of_In. set_solver.
  - intros path.
    assert (path ∈ frame_path <$> outputs <-> path ∈ (list_to_set (concat expected) : gset rstr)) as ->
      by (rewrite <- Hset; by rewrite elem_of_list_to_set).
    rewrite elem_of_list_to_set, list_elem_of_In, in_concat. split.
    + intros (files & [i Hi]%list_elem_of_In%list_elem_of_lookup & Hp%list_elem_of_In).
      eapply Forall2_lookup_r in He as (input & Hin & E); [|done].
      exists input, files. split_and!; [by eapply list_elem_of_lookup_2|done|done].
    + intros (input & files & [i Hi]%list_elem_of_lookup & E & Hp).
      eapply Forall2_lookup_l in He as (files' & Hf & E'); [|done].
      rewrite E in E'. injection E' as <-.
      exists files. split; [|by apply list_elem_of_In]. apply list_elem_of_In. by eapply list_elem_of_lookup_2.
Qed.

End facts.
