(* ===== verification/RunnerClaims.v ===== *)
(** * Native runner: what the stage, the closure digest and the protocol guarantee

    The path policy is exact; the closure digest identifies a closure; a helper reads exactly
    the valid requests that were written; and a response is read only for the request it
    answers. *)

From S2P Require Import Prelude Ordering Text NativeModel Minicbor Crypto TextSearch SecretText RunnerPolicy RunnerFacts HelperProtocol HelperFacts HelperCodec HelperWire RunnerReports ReportFacts.

#[local] Open Scope N_scope.

(** ** Stage paths and path sets *)

Section paths.
Context `{UnicodeTables} `{RunnerHost}.

(** A stage path, resolved with the separators of either platform, lies below the directory it
    is resolved against, at its own components. *)
Theorem stage_path_stays_below value path directory :
  StagePath_try_from value = Ok path ->
  resolve directory path = directory ++ components_of path /\ components_of path <> [].
Proof.
  intros (-> & Hne & _ & _ & Hch & _ & Hc)%StagePath_Ok. split; [|apply split_by_nonempty].
  unfold resolve. rewrite <- (resolve_plain directory (components_of value)) by done. f_equal.
  apply split_by_ext. rewrite forallb_forall in Hch |- *. intros c Hin. specialize (Hch c Hin).
  apply negb_true_iff, orb_false_iff in Hch as [[-> _]%orb_false_iff _].
  by rewrite orb_false_r, Bool.eqb_reflx.
Qed.

(** The check of a set is the absence of aliases, and a check that can be cancelled is
    cancelled by a checkpoint that asks for it or has the outcome of the check that cannot. *)
Lemma path_set_check_exact target paths cancelled :
  (validate_path_set target paths = Ok tt <-> no_alias target paths)
  /\ (validate_path_set target paths = Err RPathCollision <-> ~ no_alias target paths)
  /\ ((validate_path_set_cancellable target paths cancelled = Err RCanceled
       /\ exists k, cancelled k = true)
      \/ validate_path_set_cancellable target paths cancelled = validate_path_set target paths).
Proof.
  split; [apply validate_path_set_Ok|]. split; [|apply validate_path_set_interrupted].
  rewrite <- validate_path_set_Ok.
  destruct (validate_path_set_cases target paths) as [-> | ->]; split; by try congruence.
Qed.

(** *** Names that differ only in the case of letters *)

Definition ascii (s : rstr) : Prop := Forall (fun c => c < 128) s.

(** The name with its letters A to Z in lower case. *)
Definition fold_case (s : rstr) : rstr :=
  (fun c => if (0x41 <=? c) && (c <=? 0x5A) then c + 0x20 else c) <$> s.

(** What Unicode and [CompareStringOrdinal] document of ASCII text: it is its own normal form,
    case mappings change the letters A to Z and a to z only, and the ordinal comparison that
    ignores case compares upper-case letters.  A text always equals itself. *)
Class AsciiLaws : Prop := {
  nfkc_ascii s : ascii s -> nfkc s = s;
  nfd_ascii s : ascii s -> nfd s = s;
  to_lowercase_ascii c : c < 128 -> to_lowercase c = [if (0x41 <=? c) && (c <=? 0x5A) then c + 0x20 else c];
  to_uppercase_ascii c : c < 128 -> to_uppercase c = [if (0x61 <=? c) && (c <=? 0x7A) then c - 0x20 else c];
  compare_ordinal_ascii compare s t : compare_ordinal = Some compare -> ascii s -> ascii t ->
    compare s t = Ok (bool_decide (to_ascii_uppercase s = to_ascii_uppercase t));
  compare_ordinal_refl compare s : compare_ordinal = Some compare -> compare s s <> Ok false;
}.

Lemma fold_case_upper s t :
  ascii s -> ascii t -> to_ascii_uppercase s = to_ascii_uppercase t <-> fold_case s = fold_case t.
Proof.
  intros Hs. revert t. unfold to_ascii_uppercase, fold_case.
  induction Hs as [|c s Hc _ IH]; intros [|d t] Ht; csimpl; try done. inversion Ht as [|? ? Hd Ht']; subst.
  assert (Hcd : upper_char c = upper_char d
    <-> (if (0x41 <=? c) && (c <=? 0x5A) then c + 0x20 else c)
        = (if (0x41 <=? d) && (d <=? 0x5A) then d + 0x20 else d)).
  { unfold upper_char, is_ascii_lowercase.
    repeat match goal with |- context [?x <=? ?y] => destruct (N.leb_spec x y) end; cbn [andb]; lia. }
  specialize (IH t Ht'). split; intros [= E1 E2]; f_equal; tauto.
Qed.

Lemma simple_uppercase_ascii `{!AsciiLaws} s : ascii s -> simple_windows_uppercase s = to_ascii_uppercase s.
Proof.
  unfold simple_windows_uppercase, to_ascii_uppercase. induction 1 as [|c s Hc _ IH]; [done|].
  csimpl. by rewrite IH, to_uppercase_ascii.
Qed.

Lemma windows_alias_ascii `{!AsciiLaws} s t :
  ascii s -> ascii t -> windows_alias_eq (nfkc s) (nfkc t) = bool_decide (fold_case s = fold_case t).
Proof.
  intros Hs Ht. rewrite !nfkc_ascii by done. unfold windows_alias_eq, windows_ordinal_ignore_case_eq.
  rewrite (bool_decide_ext _ _ (symmetry (fold_case_upper s t Hs Ht))).
  destruct compare_ordinal as [compare|] eqn:E; [by rewrite (compare_ordinal_ascii compare)|].
  by rewrite !simple_uppercase_ascii.
Qed.

Lemma macos_alias_ascii `{!AsciiLaws} s : ascii s -> macos_alias s = fold_case s.
Proof.
  intros Hs. unfold macos_alias, fold_case. rewrite nfd_ascii by done.
  induction Hs as [|c s Hc _ IH]; [done|]. csimpl. by rewrite to_lowercase_ascii, IH.
Qed.

Lemma ForallOrdPairs_NoDup {A B : Type} (f : A -> B) (l : list A) :
  ForallOrdPairs (fun x y => f x <> f y) l <-> NoDup (f <$> l).
Proof.
  induction l as [|x l IH]; [split; constructor|]. csimpl. rewrite NoDup_cons, list_elem_of_fmap, <- IH. split.
  - intros Hp. inversion Hp as [|? ? Hx Hl]; subst. split; [|done]. intros (y & Ey & Hy).
    rewrite Forall_forall in Hx. by apply (Hx y).
  - intros [Hx Hl]. constructor; [|done]. apply Forall_forall. intros y Hy Ey. apply Hx. eauto.
Qed.

Lemma no_alias_ascii `{!AsciiLaws} target paths :
  Forall ascii paths -> no_alias target paths <-> NoDup (fold_case <$> paths).
Proof.
  intros Ha. destruct target; cbn [no_alias].
  - rewrite <- ForallOrdPairs_NoDup.
    induction Ha as [|p paths Hp Hall IH]; [split; constructor|]. split; intros Hf; inversion Hf as [|? ? Hx Hl]; subst;
      (constructor; [|by apply IH]); rewrite Forall_forall in Hx, Hall |- *; intros q Hq; specialize (Hx q Hq).
    + rewrite windows_alias_ascii in Hx by auto. by apply bool_decide_eq_false in Hx.
    + rewrite windows_alias_ascii by auto. by apply bool_decide_eq_false.
  - assert (macos_alias <$> paths = fold_case <$> paths) as ->; [|done].
    induction Ha as [|p paths Hp _ IH]; [done|]. csimpl. by rewrite macos_alias_ascii, IH.
Qed.

(** The normal form a target compares names in. *)
Definition normal_form (target : RuntimeTarget) : rstr -> rstr :=
  match target with WindowsX86_64 => nfkc | MacosArm64 => nfd end.

Lemma same_form_alias `{!AsciiLaws} target paths i j p q :
  (i < j)%nat -> paths !! i = Some p -> paths !! j = Some q -> normal_form target p = normal_form target q ->
  ~ no_alias target paths.
Proof.
  intros Hij Hi Hj He. destruct target; cbn [no_alias normal_form] in *.
  - intros Hf. revert i j Hij Hi Hj. induction Hf as [|x l Hx _ IH]; intros i j Hij Hi Hj; [done|].
    destruct i as [|i], j as [|j]; try lia; cbn in Hi, Hj; [|eapply (IH i j); [lia|done..]].
    injection Hi as ->. rewrite Forall_forall in Hx. apply list_elem_of_lookup_2 in Hj.
    specialize (Hx q Hj). rewrite He in Hx. unfold windows_alias_eq, windows_ordinal_ignore_case_eq in Hx.
    destruct compare_ordinal as [compare|] eqn:E; [|by rewrite bool_decide_eq_true_2 in Hx].
    pose proof (compare_ordinal_refl compare (nfkc q) E). by destruct (compare _ _) as [[]|].
  - intros Hnd. assert (i = j); [|lia]. eapply (NoDup_lookup _ _ _ (macos_alias p) Hnd);
      rewrite list_lookup_fmap; [by rewrite Hi|]. rewrite Hj. cbn. unfold macos_alias. by rewrite He.
Qed.

(** C27. The check of a set of stage paths, on both platforms.  A set of ASCII paths passes
    exactly when no two of them are equal up to the case of letters, and is refused as a
    collision otherwise; any two paths with the same normal form (canonical decomposition on
    macOS, compatibility composition on Windows) are refused as a collision; and a check that
    can be cancelled is cancelled by a checkpoint that asks for it or has the outcome of the
    check that cannot. *)
Theorem ascii_path_sets_exact `{!AsciiLaws} target paths cancelled :
  (Forall ascii paths ->
     (validate_path_set target paths = Ok tt <-> NoDup (fold_case <$> paths))
     /\ (validate_path_set target paths = Err RPathCollision <-> ~ NoDup (fold_case <$> paths)))
  /\ (forall i j p q, (i < j)%nat -> paths !! i = Some p -> paths !! j = Some q ->
        normal_form target p = normal_form target q ->
        validate_path_set target paths = Err RPathCollision)
  /\ ((validate_path_set_cancellable target paths cancelled = Err RCanceled
       /\ exists k, cancelled k = true)
      \/ validate_path_set_cancellable target paths cancelled = validate_path_set target paths).
Proof.
  destruct (path_set_check_exact target paths cancelled) as (Hok & Herr & Hcancel). split_and!; [..|done].
  - intros Ha. rewrite Hok, Herr, no_alias_ascii by done. done.
  - intros i j p q Hij Hi Hj He. apply Herr. by eapply same_form_alias.
Qed.

End paths.

(** The feature sets that the wire accepts are those that can be built from a list without
    duplicates, with the same bits. *)
Theorem feature_bits_roundtrip bits :
  bits <= u16_max ->
  features_from_bits bits = Ok bits <-> exists features, RuleSyncFeatures_new features = Ok bits.
Proof.
  intros Hu. rewrite features_from_bits_Ok, land_valid by done. unfold RuleSyncFeatures_new. split.
  - intros (_ & Hz & Hb). exists (filter (fun f => features_contain bits f) ALL_FEATURES).
    apply rbind_Ok. exists bits. split; [|by rewrite (proj2 (N.eqb_neq _ _))].
    apply features_fold. split_and!.
    + apply NoDup_filter. apply (bool_decide_eq_true_1 _). reflexivity.
    + by intros [].
    + apply features_ext; [done|by apply features_fold_valid|]. intros f.
      rewrite features_fold_contain. replace (features_contain 0 f) with false by by destruct f. simpl.
      apply eq_true_iff_eq. rewrite bool_decide_eq_true, list_elem_of_filter, Is_true_true.
      split; [|by intros [? _]]. intros Hf. split; [done|].
      apply (bool_decide_eq_true_1 _). by destruct f.
  - intros (features & (b & (_ & _ & ->)%features_fold & Hr)%rbind_Ok).
    destruct (N.eqb_spec (foldl (fun bits f => N.lor bits (feature_bit f)) 0 features) 0); [done|].
    injection Hr as <-. split_and!; [done..|]. by apply features_fold_valid.
Qed.

(** ** The closure digest *)

Section closure.
Context `{UnicodeTables} `{RunnerHost} `{PrimitivesLaws}.

(** C24. The digest of a runtime closure of valid materials does not depend on the order they
    are listed in, and two closures with one digest have the same materials, paths, sizes,
    digests and executable bits included, unless their preimages are a collision of SHA-256. *)
Theorem closure_digest_identifies l l' digest digest' :
  Forall valid_material l -> Forall valid_material l' ->
  closure_material_digest l = Ok digest -> closure_material_digest l' = Ok digest' ->
  (l ≡ₚ l' -> digest = digest')
  /\ (digest = digest' -> l ≡ₚ l' \/
      exists k k', k ≡ₚ l /\ k' ≡ₚ l' /\ closure_preimage k <> closure_preimage k'
                   /\ sha256 (closure_preimage k) = sha256 (closure_preimage k')).
Proof.
  intros Hl Hl' (k & Hp & Hk & ->)%digest_Ok (k' & Hp' & Hk' & ->)%digest_Ok. split.
  - intros Hll. f_equal. apply material_set_unique; [done..|]. by rewrite Hp, Hp'.
  - intros E. destruct (decide (closure_preimage k = closure_preimage k')) as [Epre|]; [left|right; by exists k, k'].
    apply closure_preimage_inj in Epre; [|by rewrite Hp|by rewrite Hp']. subst. by rewrite <- Hp, <- Hp'.
Qed.

End closure.

(** ** Exact codecs *)

Section codec.
Context `{UnicodeTables} `{RunnerHost} `{PrimitivesLaws} `{MinicborLaws}.

Lemma decode_request_exact p q :
  decode_request_payload p = Ok q <-> valid_request q /\ encode_request_payload q = p.
Proof.
  unfold decode_request_payload. split.
  - intros Hd. hdec_inv. apply negb_false_iff, bool_decide_eq_true in Heqb0.
    match goal with E : decode_request_entries _ = _ |- _ =>
      apply decode_request_entries_typed in E as (Hn & Hc & Ht & Hf) end.
    match goal with E : RunRequest_new _ _ _ _ = _ |- _ =>
      apply RunRequest_new_Ok in E as (<- & <- & <- & Hp & Hv & Hs & Hi & Hj) end.
    split; [|done]. split_and!; try done. by rewrite Hp.
  - intros [Hv <-]. unfold encode_request_payload. rewrite require_hmap_enc by hrange. cbn [rbind].
    rewrite <- (app_nil_r (request_entries q)) at 1. rewrite decode_request_entries_enc by done. cbn [rbind].
    rewrite bool_decide_eq_true_2 by done. cbn [negb].
    rewrite (proj2 (RunRequest_new_Ok _ _ _ _ q)); [|by destruct Hv as (? & ? & ? & ? & ? & ? & ? & ?)].
    cbn [rbind]. by rewrite bool_decide_eq_true_2.
Qed.

Lemma decode_helper_request_exact p h :
  decode_helper_request_payload p = Ok h <-> valid_helper_request h /\ encode_helper_request_payload h = p.
Proof.
  unfold decode_helper_request_payload. split.
  - intros Hd. hdec_inv.
    repeat match goal with E : negb (bool_decide _) = false |- _ =>
      apply negb_false_iff, bool_decide_eq_true in E end.
    match goal with E : decode_request_entries _ = _ |- _ =>
      apply decode_request_entries_typed in E as (Hn & Hc & Ht & Hf) end.
    match goal with E : RunRequest_new _ _ _ _ = _ |- _ =>
      apply RunRequest_new_Ok in E as (<- & <- & <- & Hp & Hv & Hs & Hi & Hj) end.
    match goal with E : for_resigned_runtime _ _ = _ |- _ =>
      apply for_resigned_runtime_Ok in E as (<- & Hpc & Hset & Hfit & Hdig) end.
    match goal with E : decode_closure_materials _ = _ |- _ => apply decode_closure_materials_valid in E as Hm end.
    assert (valid_request (hr_request h)) by (split_and!; try done; by rewrite Hp).
    split; [|done]. split; [done|]. split; [by rewrite Hpc|done].
  - intros [(Hq & Hm & Hset & Hfit & Hdig) <-]. unfold encode_helper_request_payload at 1.
    rewrite require_hmap_enc by hrange. cbn [rbind]. rewrite decode_request_entries_enc by done. cbn [rbind].
    rewrite expect_hkey_enc by hrange. cbn [rbind].
    rewrite decode_closure_materials_enc; [cbn [rbind]|done|apply Hset..].
    rewrite expect_hkey_enc by hrange. cbn [rbind].
    rewrite <- (app_nil_r (enc_bytes _)), read_hfixed_enc by
      (rewrite ?Hdig; unfold closure_sha256; rewrite ?sha256_len; hrange). cbn [rbind].
    rewrite bool_decide_eq_true_2 by done. cbn [negb].
    rewrite (proj2 (RunRequest_new_Ok _ _ _ _ (hr_request h))); [|by destruct Hq as (? & ? & ? & ? & ? & ? & ? & ?)].
    cbn [rbind]. rewrite (proj2 (for_resigned_runtime_Ok _ _ h)) by done. cbn [rbind].
    rewrite bool_decide_eq_true_2 by done. cbn [negb]. by rewrite bool_decide_eq_true_2.
Qed.

(** What the first entries of a bound response decide. *)
Lemma decode_bound_written q q' x r :
  valid_request q -> valid_response (for_command (rq_command q)) x ->
  (rq_nonce q', rq_closure_sha256 q') <> (rq_nonce q, rq_closure_sha256 q) ->
  decode_bound_response_payload (encode_bound_response_payload q x ++ r) q' = Err RInvalidFrame.
Proof.
  intros (Hn & Hc & _) Hx Hne. unfold decode_bound_response_payload.
  unfold encode_bound_response_payload at 1. destruct x; cbv beta iota; rewrite <- !app_assoc;
    rewrite map_size_enc by hrange; cbn [rbind]; rewrite expect_hkey_enc by hrange; cbn [rbind];
    (erewrite (hdec_enc dec_u8) by (apply dec_enc_u8; hrange)); cbn [rbind];
    (rewrite bool_decide_eq_true_2 by set_solver); cbn [negb];
    rewrite expect_hkey_enc by hrange; cbn [rbind]; rewrite read_hfixed_enc by (done || hrange); cbn [rbind];
    case_bool_decide as E1; cbn [negb]; try done; rewrite expect_hkey_enc by hrange; cbn [rbind];
    rewrite read_hfixed_enc by (done || hrange); cbn [rbind];
    case_bool_decide as E2; cbn [negb]; congruence.
Qed.

Lemma decode_bound_exact p q x :
  valid_request q ->
  decode_bound_response_payload p q = Ok x <->
  valid_response (for_command (rq_command q)) x /\ encode_bound_response_payload q x = p.
Proof.
  intros (Hn & Hc & _). unfold decode_bound_response_payload. split.
  - intros Hd. hdec_inv.
    match goal with E : _ || _ = false |- _ => apply orb_false_iff in E as [_ Henc] end.
    apply negb_false_iff, bool_decide_eq_true in Henc. split; [|done].
    match goal with E : match ?k with _ => _ end = Ok (x, _) |- _ => destruct k as [|[]] end; try done;
      [by eapply decode_completed_valid|by eapply decode_failed_valid].
  - intros [Hx <-]. unfold encode_bound_response_payload at 1.
    destruct x as [d fs s|c]; cbv beta iota; rewrite <- ?app_assoc;
      rewrite map_size_enc by hrange; cbn [rbind]; rewrite expect_hkey_enc by hrange; cbn [rbind];
      (erewrite (hdec_enc dec_u8) by (apply dec_enc_u8; hrange)); cbn [rbind];
      (rewrite bool_decide_eq_true_2 by set_solver); cbn [negb];
      rewrite expect_hkey_enc by hrange; cbn [rbind]; rewrite read_hfixed_enc by (done || hrange); cbn [rbind];
      (rewrite bool_decide_eq_true_2 by done); cbn [negb]; rewrite expect_hkey_enc by hrange; cbn [rbind];
      rewrite read_hfixed_enc by (done || hrange); cbn [rbind]; (rewrite bool_decide_eq_true_2 by done); cbn [negb].
    + rewrite <- (app_nil_r (encode_stats s)).
      rewrite (decode_completed_enc 3) by (done || hrange). cbn [rbind].
      by rewrite !bool_decide_eq_true_2.
    + rewrite <- (app_nil_r (enc_uint (failure_code c))), decode_failed_enc by hrange. cbn [rbind].
      by rewrite !bool_decide_eq_true_2.
Qed.

End codec.

(** ** Streams of messages *)

Section streams.
Context `{UnicodeTables} `{RunnerHost} `{PrimitivesLaws} `{MinicborLaws} `{!MinicborSizes}.

(** What writing a value leaves in an empty buffer. *)
Definition helper_message (h : HelperRunRequest) : bytes := (write_helper_request h []).1.
Definition response_message (q : RunRequest) (x : RunResponse) : bytes := (write_run_response_for q x []).1.

Lemma read_with_exact {A} kind (decode : bytes -> result RunnerError A) (encode : A -> bytes) (P : A -> Prop) :
  kind <= u8_max ->
  (forall p x, decode p = Ok x <-> P x /\ encode x = p) ->
  (forall x, P x -> encode x <> [] /\ len (encode x) <= MAX_WIRE_PAYLOAD_BYTES) ->
  forall (input rest : bytes) x,
    read_with kind decode input = (rest, Ok x) <->
    P x /\ input = (write_message kind (encode x) []).1 ++ rest.
Proof.
  intros Hk Hexact Hfit input rest x. unfold read_with. split.
  - destruct (read_message kind input) as [r [p|e]] eqn:E; [|done].
    apply read_message_inv in E as (_ & _ & ->). cbn [rbind]. intros [= <- [HP <-]%Hexact].
    split; [done|]. destruct (Hfit x HP). rewrite write_message_Ok by done. cbn [app fst]. by rewrite <- app_assoc.
  - intros [HP ->]. destruct (Hfit x HP). rewrite write_message_Ok by done. cbn [app fst].
    rewrite <- app_assoc, read_message_written by done. rewrite N.eqb_refl. cbn [rbind]. f_equal. by apply Hexact.
Qed.

(** C22. Every valid request fits a message, whatever its inputs and closure are, and is written
    whole; and a reader takes a request from a stream exactly when the stream begins with the
    message of a valid request, which is then the request that is read, and what follows it is
    left. *)
Theorem helper_requests_delivered :
  (forall h (w : bytes), valid_helper_request h ->
     write_helper_request h w = (w ++ helper_message h, Ok tt))
  /\ (forall h (input rest : bytes),
     read_helper_request input = (rest, Ok h) <->
     valid_helper_request h /\ input = helper_message h ++ rest).
Proof.
  split.
  - intros h w Hh. unfold helper_message, write_helper_request.
    destruct (helper_request_fits h Hh). by rewrite !write_message_Ok.
  - intros h input rest. apply (read_with_exact REQUEST_KIND _ encode_helper_request_payload valid_helper_request);
      [done|apply decode_helper_request_exact|apply helper_request_fits].
Qed.

(** C23. A response is read for a request exactly when the stream begins with the message that
    answers this request within the limits of its command; the same message is refused for a
    request with another nonce or another closure. *)
Theorem responses_answer_requests q :
  valid_request q ->
  (forall x (input rest : bytes),
     read_run_response_for q input = (rest, Ok x) <->
     valid_response (for_command (rq_command q)) x /\ input = response_message q x ++ rest)
  /\ (forall q' x (rest : bytes),
     valid_response (for_command (rq_command q)) x ->
     (rq_nonce q', rq_closure_sha256 q') <> (rq_nonce q, rq_closure_sha256 q) ->
     read_run_response_for q' (response_message q x ++ rest) = (rest, Err RInvalidFrame)).
Proof.
  intros Hq. split.
  - intros x input rest. apply (read_with_exact RESPONSE_KIND _ (encode_bound_response_payload q)
      (valid_response (for_command (rq_command q)))); [done|..].
    + intros. by apply decode_bound_exact.
    + intros. by apply bound_response_fits.
  - intros q' x rest Hx Hne. destruct (bound_response_fits q x Hq Hx).
    unfold response_message, write_run_response_for, read_run_response_for, read_with.
    rewrite write_message_Ok by done. cbn [app fst]. rewrite <- app_assoc, read_message_written by done.
    rewrite N.eqb_refl. cbn [rbind].
    rewrite <- (app_nil_r (encode_bound_response_payload q x)). by rewrite decode_bound_written.
Qed.

End streams.

(** ** Commands *)

Section commands.
Context `{UnicodeTables} `{RunnerHost}.

Lemma present_features_contain paths bits present f :
  try_fold (fun bits path =>
    let? relative := ok_or (strip_prefix (lit "input/.rulesync/") path) RInvalidCommand in
    let? feature := rulesync_input_feature relative in
    Ok (N.lor bits (feature_bit feature))) bits paths = Ok present ->
  features_contain present f = true <->
  features_contain bits f = true \/
  exists path relative, path ∈ paths /\ strip_prefix (lit "input/.rulesync/") path = Some relative
                        /\ rulesync_input_feature relative = Ok f.
Proof.
  revert bits. induction paths as [|path paths IH]; intros bits; cbn [try_fold].
  { intros [= <-]. set_solver. }
  intros (b & (relative & Hs%ok_or_Ok & (g & Hg & [= <-])%rbind_Ok)%rbind_Ok & Hr)%rbind_Ok.
  rewrite (IH _ Hr), lor_bit_contain, orb_true_iff, bool_decide_eq_true. split.
  - intros [[?|<-]|(p & rel & ? & ?)]; [by left|right; exists path, relative; set_solver|].
    right. exists p, rel. set_solver.
  - intros [?|(p & rel & [->|Hp]%elem_of_cons & Hs' & Hf)]; [by left; left|left; right; congruence|].
    right. by exists p, rel.
Qed.

(** The inputs of a RuleSync command are exactly of the features it selects: each selected
    feature has an input and each input is of a selected feature. *)
Theorem rulesync_features_exact target features paths feature :
  validate_inputs (RuleSyncGenerate target features) paths = Ok tt ->
  features_contain features feature = true <->
  exists path relative, path ∈ paths /\ strip_prefix (lit "input/.rulesync/") path = Some relative
                        /\ rulesync_input_feature relative = Ok feature.
Proof.
  unfold validate_inputs. intros ([] & _ & (present & Hp & Hr)%rbind_Ok)%rbind_Ok.
  destruct (existsb _ ALL_FEATURES) eqn:E; [done|].
  assert (Hf : features_contain features feature = features_contain present feature).
  { apply not_true_iff_false in E. rewrite existsb_exists in E.
    destruct (Bool.eqb (features_contain features feature) (features_contain present feature)) eqn:Eq.
    { by apply Bool.eqb_prop. }
    destruct E. exists feature. rewrite Eq. split; [|done]. apply list_elem_of_In.
    apply (bool_decide_eq_true_1 _). by destruct feature. }
  rewrite Hf, (present_features_contain _ _ _ _ Hp). split; [|auto]. intros [H'|]; [by destruct feature|done].
Qed.

End commands.

(** ** From a report to a response *)

Section deliverable.
Context `{UnicodeTables} `{RunnerHost} `{PrimitivesLaws} `{ReportHost}.

Lemma completed_valid disposition path report frame stats command x :
  valid_disposition disposition -> valid_path path -> ContentFrame_new path report = Ok frame ->
  scanned_files stats <= u32_max -> scanned_bytes stats <= u64_max ->
  RunResponse_completed disposition [frame] stats (for_command command) = Ok x ->
  valid_response (for_command command) x.
Proof.
  intros Hd Hp Hf Hn Hb. unfold ContentFrame_new in Hf.
  destruct (N.ltb_spec MAX_CONTENT_FRAME_BYTES (len report)); [done|]. injection Hf as <-.
  intros (k & Hk & -> & Hok)%completed_Ok; [|by destruct command..].
  apply Permutation_singleton_r in Hk as ->.
  split; [done|]. split; [|split; [|done]].
  - constructor; [|done]. by split.
  - split; [done|]. split; [done|]. destruct Hok as (_ & _ & Ht). etransitivity; [exact Ht|]. by destruct command.
Qed.

(** What a helper answers on an accepted report of either scan is a valid response, which the
    daemon reads. *)
Theorem scan_response_valid command exit stdout stderr inputs disposition report path frame stats x :
  match command with
  | GitleaksScanPackage => validate_gitleaks_report exit stdout stderr inputs = Some (Ok (disposition, report))
  | _ => validate_semgrep_report exit stdout stderr inputs = Ok (disposition, report)
  end ->
  valid_path path -> ContentFrame_new path report = Ok frame ->
  scanned_files stats <= u32_max -> scanned_bytes stats <= u64_max ->
  RunResponse_completed disposition [frame] stats (for_command command) = Ok x ->
  valid_response (for_command command) x.
Proof.
  intros Hr. apply completed_valid.
  assert (validate_gitleaks_report exit stdout stderr inputs = Some (Ok (disposition, report))
    \/ validate_semgrep_report exit stdout stderr inputs = Ok (disposition, report)) as [Hg|Hs]
    by (destruct command; auto).
  - by eapply gitleaks_disposition.
  - by eapply semgrep_disposition.
Qed.

End deliverable.
