(* ===== verification/RunnerWitness.v ===== *)
(** * Native runner: the properties at concrete values

    Unicode tables that only know ASCII, a host without an ordinal comparison of its own, a
    toy hash and the encoding of RFC 8949; a secret scan of one file with a closure of two
    materials. *)

From S2P Require Import Prelude Ordering Text NativeModel Minicbor Crypto TextSearch SecretText NativeWitness MemoryWitness.
From S2P Require Import RunnerPolicy RunnerFacts HelperProtocol HelperFacts HelperCodec HelperWire RunnerReports ReportFacts RunnerClaims.

#[local] Open Scope N_scope.

Module RunnerWitness.
#[local] Existing Instances MemoryToy.mixed MemoryToy.mixed_laws Rfc8949.codec Rfc8949.codec_laws Rfc8949_sizes.

#[local] Instance ascii_tables : UnicodeTables := {|
  nfkc s := s;
  nfd s := s;
  to_lowercase c := [char_lower c];
  to_uppercase c := [upper_char c];
|}.

#[local] Instance portable_host : RunnerHost := {|
  compare_ordinal := None;
  is_json_object b := match b with Byte.x7b :: _ => true | _ => false end;
|}.

#[local] Instance ascii_tables_laws : AsciiLaws.
Proof. split; done. Qed.

(** A set with two names of one file, which both platforms refuse, and one without. *)
Definition colliding : list rstr := lit <$> ["src/Main.rs"; "README"; "SRC/main.rs"]%string.
Definition distinct_names : list rstr := lit <$> ["src/main.rs"; "README"; "src/main.r"]%string.

Lemma ascii_path_sets_exact_witness :
  (validate_path_set WindowsX86_64 distinct_names = Ok tt <-> NoDup (fold_case <$> distinct_names))
  /\ validate_path_set WindowsX86_64 colliding = Err RPathCollision
  /\ validate_path_set MacosArm64 colliding = Err RPathCollision.
Proof.
  assert (Hd : Forall ascii distinct_names) by (repeat constructor; vm_compute; reflexivity).
  assert (Hc : Forall ascii colliding) by (repeat constructor; vm_compute; reflexivity).
  assert (Hn : ~ NoDup (fold_case <$> colliding)) by (apply (bool_decide_eq_false_1 _); vm_compute; reflexivity).
  split; [|split].
  - exact (proj1 (proj1 (ascii_path_sets_exact WindowsX86_64 distinct_names (fun _ => false)) Hd)).
  - exact (proj2 (proj2 (proj1 (ascii_path_sets_exact WindowsX86_64 colliding (fun _ => false)) Hc)) Hn).
  - exact (proj2 (proj2 (proj1 (ascii_path_sets_exact MacosArm64 colliding (fun _ => false)) Hc)) Hn).
Defined.

Definition text (s : string) : bytes := as_bytes (lit s).

Definition executable : ClosureMaterial := {|
  material_path := lit "bin/gitleaks"; material_size := 4096; material_sha256 := to_be 32 7;
  material_executable := true |}.
Definition config : ClosureMaterial := {|
  material_path := lit "config/gitleaks.toml"; material_size := 12; material_sha256 := to_be 32 9;
  material_executable := false |}.

Definition frame_run : ContentFrame :=
  {| frame_path := lit "input/gitleaks-scan/payload/a.txt"; frame_sha256 := sha256 (text "alpha");
     frame_bytes := text "alpha" |}.
Definition frame : ContentFrame := Eval vm_compute in frame_run.
Definition request : RunRequest := {|
  rq_nonce := to_be 16 1; rq_closure_sha256 := to_be 32 2; rq_command := GitleaksScanPackage;
  rq_inputs := [frame] |}.
Definition helper_run : HelperRunRequest := {|
  hr_request := request; hr_runtime_closure_sha256 := closure_sha256 [executable; config];
  hr_closure := [executable; config] |}.
Definition helper : HelperRunRequest := Eval vm_compute in helper_run.

Lemma helper_decodes : decode_helper_request_payload (encode_helper_request_payload helper) = Ok helper.
Proof. vm_compute. reflexivity. Qed.

Lemma helper_valid : valid_helper_request helper.
Proof. apply (decode_helper_request_exact (encode_helper_request_payload helper)), helper_decodes. Qed.

(** The request is written and read back, with what follows it left. *)
Lemma helper_requests_delivered_witness :
  write_helper_request helper (text "before") = (text "before" ++ helper_message helper, Ok tt)
  /\ read_helper_request (helper_message helper ++ text "after") = (text "after", Ok helper).
Proof.
  destruct helper_requests_delivered as [Hw Hr]. split; [apply Hw, helper_valid|].
  apply Hr. split; [apply helper_valid|reflexivity].
Defined.

(** A clean scan answers the request; the request with another nonce does not take it. *)
Definition clean : RunResponse := RunCompleted DispositionClean []
  {| scanned_files := 1; scanned_bytes := 5; duration_ms := 20 |}.
Definition other_request : RunRequest := {|
  rq_nonce := to_be 16 3; rq_closure_sha256 := to_be 32 2; rq_command := GitleaksScanPackage;
  rq_inputs := [frame] |}.

Lemma clean_decodes :
  decode_bound_response_payload (encode_bound_response_payload request clean) request = Ok clean.
Proof. vm_compute. reflexivity. Qed.

Lemma clean_valid : valid_response (for_command (rq_command request)) clean.
Proof. exact (proj1 (proj1 (decode_bound_exact _ request clean (proj1 helper_valid)) clean_decodes)). Qed.

Lemma responses_answer_requests_witness :
  read_run_response_for request (response_message request clean ++ text "after") = (text "after", Ok clean)
  /\ read_run_response_for other_request (response_message request clean ++ text "after")
     = (text "after", Err RInvalidFrame).
Proof.
  destruct (responses_answer_requests request (proj1 helper_valid)) as [Hr Hn]. split.
  - apply Hr. split; [apply clean_valid|reflexivity].
  - apply Hn; [apply clean_valid|]. apply (bool_decide_eq_false_1 _). vm_compute. reflexivity.
Defined.

(** The digest of the closure in either order. *)
Definition closure_digest : bytes := Eval vm_compute in closure_sha256 [executable; config].

Lemma closure_valid : Forall valid_material [executable; config].
Proof. apply helper_valid. Qed.

Lemma closure_digest_identifies_witness :
  closure_material_digest [config; executable] = Ok closure_digest /\ [executable; config] ≡ₚ [config; executable]
  /\ (closure_digest = closure_digest -> [executable; config] ≡ₚ [config; executable] \/
      exists k k', k ≡ₚ [executable; config] /\ k' ≡ₚ [config; executable]
        /\ closure_preimage k <> closure_preimage k' /\ sha256 (closure_preimage k) = sha256 (closure_preimage k')).
Proof.
  split; [vm_compute; reflexivity|]. split; [apply Permutation_swap|].
  apply (closure_digest_identifies [executable; config] [config; executable] closure_digest closure_digest).
  - apply closure_valid.
  - rewrite Permutation_swap. apply closure_valid.
  - vm_compute. reflexivity.
  - vm_compute. reflexivity.
Defined.

(** Names that differ in case alias on both platforms. *)
Example case_alias :
  (forall target, validate_path_set target [lit "input/A.md"; lit "input/a.md"] = Err RPathCollision)
  /\ (forall target, validate_path_set target [lit "input/a.md"; lit "input/b.md"] = Ok tt).
Proof. split; intros []; vm_compute; reflexivity. Qed.

(** The reserved names, escapes and absolute paths that are no stage paths. *)
Example refused_paths :
  Forall (fun p => StagePath_try_from (lit p) = Err RInvalidPath)
    ["../a"; "/a"; "a//b"; "a/./b"; "C:/a"; "a\b"; "nul.txt"; "dir/COM1"; "a."; "a "; ""]%string
  /\ StagePath_try_from (lit "input/a.md") = Ok (lit "input/a.md").
Proof. split; [repeat constructor|vm_compute; reflexivity]. Qed.

(** A response with a finding count of zero can be built and written, but no reader takes it. *)
Definition no_findings : RunResponse := RunCompleted (Findings 0) []
  {| scanned_files := 1; scanned_bytes := 5; duration_ms := 20 |}.

Example zero_findings_unreadable :
  RunResponse_completed (Findings 0) [] {| scanned_files := 1; scanned_bytes := 5; duration_ms := 20 |}
    (for_command GitleaksScanPackage) = Ok no_findings
  /\ decode_bound_response_payload (encode_bound_response_payload request no_findings) request = Err RInvalidFrame.
Proof. split; vm_compute; reflexivity. Qed.

(** *** Reports *)

Definition field (key : string) (value : Value) : rstr * Value := (lit key, value).
Definition number (n : N) : Value := JNumber (Some n) true.
Definition str (s : string) : Value := JString (lit s).
Definition object (entries : list (rstr * Value)) : Value := JObject (sort_by_key fst entries).

(** One leak in the scanned file. *)
Definition leak : Value := object
  [field "RuleID" (str "aws-key"); field "Description" (str "key"); field "StartLine" (number 1);
   field "EndLine" (number 1); field "StartColumn" (number 2); field "EndColumn" (number 9);
   field "Match" (str "key=REDACTED"); field "Secret" (str "REDACTED");
   field "File" (str "input/gitleaks-scan/payload/a.txt"); field "SymlinkFile" (str ""); field "Commit" (str "");
   field "Entropy" (JNumber None true); field "Author" (str ""); field "Email" (str ""); field "Date" (str "");
   field "Message" (str ""); field "Tags" (JArray []);
   field "Fingerprint" (str "input/gitleaks-scan/payload/a.txt:aws-key:1")].

Definition position (line column offset : N) : Value :=
  object [field "line" (number line); field "col" (number column); field "offset" (number offset)].
Definition semgrep_result (rule message : string) (start end_ : Value) : Value := object
  [field "check_id" (str rule); field "path" (str "./input/semgrep-target/b.txt"); field "start" start;
   field "end" end_; field "extra" (object [field "metavars" (object []); field "engine_kind" (str "OSS");
     field "is_ignored" (JBool false); field "message" (str message); field "validation_state" (str "NO_VALIDATOR")])].

(** A scan of one file that holds one file with a forbidden name. *)
Definition scan : Value := object
  [field "version" (str "1.170.0"); field "engine_requested" (str "OSS"); field "errors" (JArray []);
   field "interfile_languages_used" (JArray []); field "skipped_rules" (JArray []);
   field "profiling_results" (JArray []);
   field "rules_by_engine" (JArray [JArray [str "context-relay-no-python-runtime"; str "OSS"];
                                    JArray [str "context-relay-scan-canary"; str "OSS"]]);
   field "paths" (object [field "scanned" (JArray [str "input/semgrep-target/b.txt"])]);
   field "time" (object [field "rules" (JArray []); field "rules_parse_time" (number 0);
     field "profiling_times" (object []); field "targets" (JArray []); field "total_bytes" (number 4)]);
   field "results" (JArray
     [semgrep_result "context-relay-scan-canary" "Context Relay scan coverage canary." (position 1 1 0) (position 1 3 2);
      semgrep_result "context-relay-no-python-runtime"
        "Native Semgrep packages must not contain Pysemgrep or a Python runtime." (position 1 1 0) (position 1 5 4)])].

(** A parser of the documents above, named by one letter. *)
#[local] Instance two_documents : ReportHost := {|
  json_from_slice b :=
    if bool_decide (b = text "[]") then Some (JArray [])
    else if bool_decide (b = text "L") then Some (JArray [leak])
    else if bool_decide (b = text "S") then Some scan else None;
  json_to_vec v := Some (text "reported");
  parses_nonnegative s := negb (bool_decide (s = [])) && forallb (fun c => is_ascii_digit c || (c =? 0x2E)) s;
|}.

Definition newline : bytes := [byte_of 10].
Definition leak_diagnostics : bytes :=
  text "9:05AM INF scanned ~5 bytes (5 bytes) in 1.2ms" ++ newline ++ text "9:05AM WRN leaks found: 1" ++ newline.

Lemma leak_accepted :
  validate_gitleaks_report 10 (text "L") leak_diagnostics [frame] = Some (Ok (Findings 1, text "reported")).
Proof. vm_compute. reflexivity. Qed.

Lemma gitleaks_report_redacted_witness :
  exists printed objects prints,
    json_from_slice (text "L") = Some (JArray printed)
    /\ json_to_vec (JArray (JObject <$> objects)) = Some (text "reported")
    /\ Forall2 (reported_as (given_to_scan [frame])) printed objects
    /\ Forall2 (fun o p => str_field (lit "Fingerprint") o = Some p) objects prints /\ NoDup prints
    /\ ((10%Z = 0%Z /\ Findings 1 = DispositionClean /\ objects = [])
        \/ (10%Z = 10%Z /\ Findings 1 = Findings (len objects) /\ objects <> [])).
Proof. exact (gitleaks_report_redacted 10 (text "L") leak_diagnostics [frame] _ _ leak_accepted). Defined.

Definition target_frame : ContentFrame := {|
  frame_path := lit "input/semgrep-target/b.txt"; frame_sha256 := to_be 32 1; frame_bytes := text "beta" |}.

Lemma scan_accepted : validate_semgrep_report 0 (text "S") [] [target_frame] = Ok (Findings 1, text "reported").
Proof. vm_compute. reflexivity. Qed.

Lemma semgrep_scan_complete_witness :
  exists report results findings,
    json_from_slice (text "S") = Some (JObject report) /\ map_get (lit "results") report = Some (JArray results)
    /\ json_to_vec (JObject (map_insert (lit "results") (JArray (JObject <$> findings)) report))
       = Some (text "reported")
    /\ (forall input, input ∈ [target_frame] -> exists value rule,
          value ∈ results /\ canary_rule rule = true /\ result_on rule (frame_path input) value)
    /\ Forall (fun value => exists rule input, input ∈ [target_frame] /\ result_on rule (frame_path input) value) results
    /\ length findings = length (filter beyond_canary results)
    /\ Findings 1 = (if len findings =? 0 then DispositionClean else Findings (len findings)).
Proof. exact (semgrep_scan_complete 0 (text "S") [] [target_frame] _ _ scan_accepted). Defined.

(** A scan of a file whose canary is missing is refused, as is a scan that reports a leak with
    the exit code of a clean one. *)
Example incomplete_scans :
  validate_semgrep_report 0 (text "S") [] [frame; target_frame] = Err RInvalidToolOutput
  /\ validate_gitleaks_report 0 (text "L") leak_diagnostics [frame] = Some (Err RInvalidToolOutput).
Proof. split; vm_compute; reflexivity. Qed.

(** A first word of the diagnostics that ends inside a character of three bytes stops the
    helper, where every other malformed text is refused. *)
Definition euro_diagnostics : bytes :=
  as_bytes (0x20AC :: lit " INF scanned") ++ newline ++ text "9:05AM INF no leaks found" ++ newline.

Example euro_timestamp_panics :
  validate_gitleaks_report 0 (text "[]") euro_diagnostics [frame] = None
  /\ validate_gitleaks_report 0 (text "[]") (text "x INF" ++ newline ++ text "y" ++ newline) [frame]
     = Some (Err RInvalidToolOutput).
Proof. split; vm_compute; reflexivity. Qed.

End RunnerWitness.
